(* ===== verification/_CoqProject ===== *)
-Q . S2P
Prelude.v
Protocol.v
Ids.v
Json.v
Stream.v
Sequence.v
Decoder.v
Wire.v
Framed.v
FramedFacts.v
Attached.v
AttachedFacts.v
Tunnel.v
Tools.v
Address.v
Catalog.v
Profile.v
Observe.v
Recorder.v
Retention.v
Recording.v
Observation.v
Flow.v
Relay.v
Secrets.v
Redaction.v
Injection.v
Cookies.v
Operation.v
Guard.v
Lifecycle.v
Endpoint.v
TcpPolicy.v
Config.v
Dispatch.v
Immediate.v
TcpState.v
TcpConnect.v
Delivery.v
Session.v
Vault.v
VaultFacts.v
Broker.v
Evolution.v
Ledger.v
BrokerSafety.v
Sse.v
McpWire.v
McpMessage.v
McpCustody.v
McpHeaders.v
McpContext.v
McpSession.v
McpSafety.v
McpLife.v
McpDelivery.v
McpCapacity.v
Login.v
LoginFacts.v
Website.v
WebsiteSafety.v
Attempts.v
RemoteVault.v
RemoteLive.v
Remote.v
RemoteFacts.v
RemoteOutcome.v
Forward.v
Ingress.v
LocalTools.v
LocalCall.v
Concrete.v
Samples.v
SamplesStream.v
SamplesTcp.v
SamplesBroker.v
SamplesMcp.v
SamplesSite.v
SamplesRemote.v
SamplesLocal.v
