(* ===== verification/Prelude.v ===== *)
(** * The agent authentication proxy: a verification library

    [agent-auth-proxy] lets agents use credentials they never see. A daemon holds the
    credentials behind a trusted broker; an agent holds a session, and through it runs
    HTTP requests, logs in to websites and opens raw connections. The proxy decides what
    is admitted, inserts the credential, removes every trace of it from what comes back,
    and records what was done. This library models that program from its Rust sources
    (paths below are under [src/crates/]) and proves what makes it correct.

    ** How the program fits together

    An operator's configuration (catalog, profiles, raw endpoints) is validated once.
    The broker creates sessions, each a grant of profiles and items for a limited time.
    A session tracks every request, login and raw connection under the identifier its
    agent chose. A tracked request is owned by a guard, which admits it against the
    policy, obtains the lease and the approval, injects the credential, commits the
    dispatch under the session's authority, sanitizes the response and delivers it to the
    agent, offering evidence of each step to a bounded recorder. A raw connection is
    prepared likewise and then relayed byte for byte. The agent's side of a raw
    connection is a framed stream. Closing the broker or revoking a session takes all
    authority away at one ordering boundary.

    ** Files, from the bottom up

    - [Prelude]: results, bytes and characters, sums over maps, machine integers,
      automation. [Protocol]: [aap-types/src/protocol.rs], the shared wire types.
      [Ids], [Json], [Tools], [Endpoint]: [aap-types/src/ids.rs], [json.rs], [mcp.rs],
      [proxy.rs].
    - [Stream], [Sequence], [Decoder]: [aap-types/src/stream.rs] and its [frame.rs],
      [sequence.rs], [decoder.rs]: the frame codec, the two-direction protocol, the
      incremental decoder and the read loop of its owners.
    - [Wire], [Framed], [Attached]: both ends of a stream over one socket. [Wire] is a
      computation that is polled, the socket and the bytes of frames; [Framed] is
      [aap-http/src/stream/framed.rs] with [serve_upgraded] of [stream.rs], the daemon's
      end from the opening to the terminal frame; [Attached] is [aap-client/src/stream.rs]
      and [stream/relay.rs], the agent's end with its owner, its relay and its watch.
      [FramedFacts] and [AttachedFacts] carry their invariants, [FramedFacts] ends in the
      whole conversation, and [Tunnel] puts the two ends together.
    - [Address], [Catalog], [Profile], [TcpPolicy]: [aap-policy/src/]: address classes,
      exact targets and routes, header rules, validation of catalogs, profiles and raw
      endpoints.
    - [Observe], [Recorder], [Flow]: [aap-observe/src/]: events, the recorder as one
      state with one function per critical section, flows. [Retention], [Recording] and
      [Observation] carry its invariant; [Flow] ends in the class [Observer], all that
      the engine relies on, and a flow over a recorder is an instance of it.
    - [Relay]: [aap-transport/src/tcp/relay.rs], the poll loop of the duplex relay.
    - [Secrets], [Redaction], [Immediate], [Injection], [Cookies]: [aap-secrets/src/] and
      [aap-auth/src/]: leases, the two streaming redactors and the immediate one,
      credential injection and response sanitation, the private cookie jar.
    - [Operation], [Guard], [Lifecycle]: [aap-engine/src/pipeline.rs],
      [observation.rs], [lib.rs], [vault.rs]: contexts, operations, the authority
      boundary, and the guard of a request with its whole life under arbitrary moves of
      other actors. [Config], [Dispatch], [Delivery]: the admission of an API-key request
      as a program over its guard, and the body of its response.
    - [TcpState], [TcpConnect]: [aap-engine/src/tcp/]: the operation of a raw connection
      with its observation gate and relay, and the program that prepares and dials it.
    - [Session], [Vault], [Broker]: [aap-engine/src/lib.rs], [vault.rs], and the tracking
      of [pipeline.rs] and [tcp.rs]: the host, its sessions, and a step relation over all
      their critical sections. [Evolution] and [Ledger] say how the cells, the
      sessions and the counts evolve along every run; [BrokerSafety] and [VaultFacts]
      conclude.
    - [Sse], [McpWire], [McpMessage], [McpHeaders], [McpContext]: [aap-mcp-upstream/src/]:
      the event stream, the strict wire, the messages rebuilt in both directions, the
      admitted headers, and the private session with its exchanges and decoders, whose
      flags are shared through a heap. [McpCustody] says what a rebuilt message holds.
      [McpSession] opens with the contract of a session and puts a session in the hands
      of an arbitrary owner, and [McpSafety], [McpLife], [McpDelivery] and
      [McpCapacity] show what it guarantees there.
    - [Login]: [aap-auth/src/login.rs], the strict parsing, the observation and the
      filling of a login, with [LoginFacts] on the places of a document and on forms.
      [Website]: [aap-engine/src/website.rs], a request under an authentication
      context as a program over its guard, from the context to the inspected response;
      [WebsiteSafety] shows what it does in which order and what comes back, [Attempts]
      how often a login is tried.
    - [RemoteVault], [Remote]: [aap-engine/src/remote_mcp.rs] and its [control.rs],
      [cleanup.rs], [cancellation.rs]: the contexts of a session with the sections of code
      that run on them, and the programs of a message, of a cancellation and of a closure;
      what they send besides is a program with a guard and a log of its own. [RemoteLive]
      follows the contexts over the life of the session; [RemoteFacts] and
      [RemoteOutcome] show what the programs guarantee.
    - [Forward]: [aap-http/src/proxy.rs] and [aap-engine/src/proxy.rs], the agent that
      speaks to a proxy: CONNECT, the requests in its tunnel, and how the engine chooses
      the resource and the context they are for. [Ingress]: [aap-http/src/lib.rs],
      [ingress.rs], [stream/opening.rs], what a listener checks before that.
    - [LocalTools], [LocalCall]: [aap-mcp/src/stdio.rs] and [lib.rs], the tool server on a
      pipe with its calls in flight, and what a call makes of its arguments and of the
      session's answer.
    - [Concrete] and the [Samples] files: small concrete parsers and inputs, and for each
      theorem with hypotheses a run on which they hold.

    ** How state and effects are modelled

    A struct is a [Record] and an enum an [Inductive] with the source's constructors. A
    Rust [String] is the string of its UTF-8 bytes; integers are [Z], with wrapping,
    saturating and checked operations written out where the source has them. A [HashMap]
    is a [gmap]; a [BTreeMap] whose order matters is its entries in order. An error is a
    value of [result]. What happens under one lock is one function, and an interleaving
    is a sequence of such functions: [Lifecycle.Move], [TcpState.ConnMove],
    [Broker.BrokerMove], [McpSession.SessionMove], [RemoteLive.VaultMove], [Framed.Move],
    [Attached.Call] and [LocalTools.Event] are the moves. A weak reference upgrades while its allocation is
    in [host_cores]. A poll is a function of what the futures it polls answer. The clock
    is an instant in nanoseconds, and a section under a lock reads it once. Mutexes are
    taken to be unpoisoned, since the code panics under none.

    What the sources only call is a parameter: parsers of the [http] and [url] crates
    are the classes [Http], [Urls] and [HttpMessage], [base64] is [Base64] with its laws,
    [serde_json] is [Serde], [JsonText] or a size or writer function, the types of the
    [rmcp] crate are [Rmcp], and stores, resolvers,
    transports, approvers, permits, random identifiers and sockets answer through the
    environments [Dispatch.Env], [Website.WebEnv], [Remote.RemEnv], [Delivery.Turn],
    [Relay.Env], [Forward.AdmitEnv], [LocalCall.Service], [Framed.Io], [Framed.Hosting], [Attached.Polling], [TcpConnect.ConnectEnv]
    and [Vault.IssueEnv]; the form serializer and JSON pointers are [Selectors] with their
    laws. The environments are arbitrary in the theorems, with one exception: two theorems
    on remote requests take that what runs beside a request acts on the session's contexts
    through the sections of code of the vault ([RemoteOutcome.acts_beside]).

    What a program guarantees is shown by walking through it. [Dispatch] has the two logics
    for that: [logs] and [hands_off] say what a program that went on has logged, [within]
    how its guard has moved on, and [upon] and [hands_upon] put them together, so that what
    was checked of a context at the start is still tied to that context where the request
    leaves.

    ** What the theorems show

    - Requests: a dispatch is authorized in full and in order ([dispatch_authorized]);
      what a request is reported as is what was done with it ([dispatch_outcome],
      [honest_outcome]); completion is one commit under authority
      ([completion_atomic], [authority_is_final]); every byte of a response is evidence
      before the agent has it ([delivery_observed], [delivery_complete]).
    - Raw connections: the same of a dial ([dial_authorized], [raw_connection_honest]),
      of the life of the operation ([connection_outcome]) and of the bytes relayed
      ([relay_transparent]).
    - Sessions: the ledger ([broker_invariant]), names ([identifiers_name_once]), and the
      end of authority, by expiry, revocation or closure, under any interleaving
      ([session_authority_final], [revocation_settles], [closure_settles]); discovery and
      logins ([search_complete], [login_issued]).
    - Custody: no known form of a credential, cookie or placeholder passes the redactors,
      whatever the chunking ([redactor_hides], [placeholders_hidden], [immediate_hides]),
      nor a sanitized body however it is polled ([response_sanitized]); cookies stay within their context ([capture_custody],
      [cookie_header_scoped]).
    - Websites: a request of a context leaves only as admitted and in order, reported as
      what was done ([website_authorized], [website_outcome]); a login is the agent's own
      document with the declared places rewritten, also when read back from the wire
      ([login_rewrites_places], [login_form_wire]); no secret of the exchange comes back,
      and only a proved login authenticates the context ([website_response]); attempts
      are bounded for every session and item ([attempts_bounded]).
    - Remote tools: an upstream gets only reviewed messages ([upstream_reviewed]); its
      stream is read as the format says ([sse_reads_text]); a session is a run of its
      contract, in order and within its capacity, which comes back unless a response
      failed to decode
      ([session_is_conversation], [session_order], [capacity_recovers]); and what the
      agent gets is rebuilt and redacted for the credential and for the private session
      ([session_custody], [pings_answered_once]).
    - Remote requests: a message leaves only as admitted, in order and as what a live
      context that holds the current lease prepared for its own exchange
      ([remote_authorized]); what leaves on its behalf is
      decided anew ([control_authorized]); what either is reported as is what was done
      ([remote_outcome]); a session has at most one live context of a resource, and none
      comes back ([one_live_context]); ending one is final here, and what the agent is told of it is
      what the upstream answered to the request that ended it ([cleanup_honest]).
    - Tunnels: one is opened only for an authority the session admits, before and after
      its identity is issued ([connect_admitted]); what comes in through it is executed
      for that authority alone, for the one resource and the one context it can mean
      ([tunnel_confined]); a stream is opened only to the letter ([opening_exact]).
    - Local tools: frames do not depend on how the input is cut ([framer_chunking]);
      every request is answered once ([answered_once]), what runs is bounded and only in
      a session that is ready ([calls_bounded]), and a result holds what an agent may
      have ([execution_reduced]).
    - Evidence: the recorder's invariant ([recorder_invariant]), required records are
      neither evicted nor lost ([required_record_survives], [required_batch_recorded]),
      flows number what they offer ([flow_sequences]) and implement the interface of the
      engine ([observing_laws]).
    - Policy: what validated configurations guarantee ([catalog_isolation],
      [tcp_isolation], but for IPv4-mapped addresses: [mapped_overlap_accepted],
      [credential_header_reserved]) and what is admitted
      ([authorize_exact], [parsed_target_unambiguous], [public_address_blocks]).
    - Streams: the codec round-trips, decoding does not depend on chunking and stores a
      bounded amount, and accepted frames are the protocol ([stream_round_trip],
      [decoder_chunking], [decoder_memory_bound], [sequence_refines],
      [terminal_is_final]).
    - Both ends of a stream: what is said at one end is what is heard at the other,
      whatever fails and whichever end is dropped ([tunnel_faithful]); the engine reads and is read exactly, and an end is only what
      the other side said ([attachment_reads], [attachment_writes]); a
      conversation that ends is whole on the wire and its result is true of it
      ([conversation_complete], which also says when the agent accepts a result that is
      not an orderly end), and the agent never believes one that is not
      ([agent_terminal]).

    ** Bounds and fuel

    Loops that the source bounds keep its bounds: eight rounds of a relay poll, sixteen
    turns of a body poll, fifty items of a page, four rounds of a framed read, sixteen
    steps of the agent's relay. The header of a frame has five bytes, so five writes are
    as many as it can take. Recursions over input have its length as
    fuel, and the lemmas that use them are stated at that fuel: each step of the scans
    consumes a byte, each step of the decoder a byte or a frame. [VaultFacts.walk] has
    one unit per page, and [search_complete] shows that this is enough.

    ** What is not modelled

    - Of a remote request, the semaphores of its permits and buffers and the deadlines of
      its waits: they answer through [Remote.RemEnv] and [Dispatch.Env]. A program that is
      dropped where it waits ends there; the request it was waiting for is then dropped too
      ([on_dropped]).
    - Of a website exchange, what its steps change outside its guard: the attempts another
      request will find and the other contexts of an item taken back are answers of
      [Website.WebEnv]. A page token's pointer and a form's text are third-party code.
    - Of a stream, the upgrade itself and the agent's side of it ([opening.rs] of
      [aap-client]) and the workers at both ends: a socket, the bytes that came with the
      upgrade and the answers of the engine are where the model starts.
    - Sockets, TLS, hyper, SQLite, the file system and process start-up
      ([aap-transport] drivers and interception, the services of [aap-http], the requests
      of [aap-client], [aap-daemon], [aap-config], [aap-store-sqlite]): I/O
      around the modelled core.
    - Of the tool server, the schemas of its tools and the tasks it spawns, which answer
      through [LocalTools.Event] and [LocalCall.Service].
    - Provider inspection ([aap-providers]) answers through [Dispatch.Env].
    - Wake-ups, fairness and memory that is overwritten when dropped. *)
From Stdlib Require Export Ascii String ZArith Lia.
From stdpp Require Export base tactics list numbers strings gmap.

#[global] Open Scope Z_scope.

(** ** Results: the Rust [Result<T, E>] *)

Inductive result (E A : Type) : Type :=
  | Ok (value : A)
  | Err (error : E).
Arguments Ok {E A} value.
Arguments Err {E A} error.

#[export] Instance result_eq_dec `{EqDecision E, EqDecision A} : EqDecision (result E A).
Proof. solve_decision. Defined.

#[export] Instance result_ret {E} : MRet (result E) := fun A => @Ok E A.
#[export] Instance result_bind {E} : MBind (result E) :=
  fun A B f r => match r with Ok v => f v | Err e => Err e end.
#[export] Instance result_fmap {E} : FMap (result E) :=
  fun A B f r => match r with Ok v => Ok (f v) | Err e => Err e end.

Definition is_ok {E A} (r : result E A) : bool :=
  match r with Ok _ => true | Err _ => false end.
Definition is_err {E A} (r : result E A) : bool := negb (is_ok r).

(** [Option::ok_or]. *)
Definition ok_or {E A} (o : option A) (e : E) : result E A :=
  match o with Some v => Ok v | None => Err e end.

(** [Result::ok]. *)
Definition ok {E A} (r : result E A) : option A :=
  match r with Ok v => Some v | Err _ => None end.

Lemma bind_Ok {E A B} (m : result E A) (k : A -> result E B) (b : B) :
  (m ≫= k) = Ok b <-> exists a, m = Ok a /\ k a = Ok b.
Proof. destruct m; cbn; naive_solver. Qed.

Lemma ok_or_Ok {E A} (o : option A) (e : E) (v : A) : ok_or o e = Ok v <-> o = Some v.
Proof. destruct o; naive_solver. Qed.

(** ** Bytes: a byte is an [ascii]; a Rust [String] is the [string] of its
    UTF-8 bytes, a [&[u8]] a list of bytes. *)

Abbreviation byte := ascii.
Definition byte_val (b : byte) : Z := Z.of_N (N_of_ascii b).
Definition byte_of (z : Z) : byte := ascii_of_N (Z.to_N z).
Definition as_bytes (s : string) : list byte := list_ascii_of_string s.
Definition from_bytes (l : list byte) : string := string_of_list_ascii l.

(** [len] of a slice, of a string. *)
Definition len {A} (l : list A) : Z := Z.of_nat (length l).
Definition slen (s : string) : Z := Z.of_nat (String.length s).

Lemma byte_val_range b : 0 <= byte_val b < 256.
Proof. unfold byte_val. pose proof (N_ascii_bounded b). lia. Qed.

Lemma byte_of_val b : byte_of (byte_val b) = b.
Proof. unfold byte_of, byte_val. rewrite N2Z.id. apply ascii_N_embedding. Qed.

Lemma byte_val_of z : 0 <= z < 256 -> byte_val (byte_of z) = z.
Proof. intros. unfold byte_of, byte_val. rewrite N_ascii_embedding; lia. Qed.

Lemma byte_val_inj b c : byte_val b = byte_val c -> b = c.
Proof. intros H. rewrite <-(byte_of_val b), <-(byte_of_val c). by rewrite H. Qed.

Lemma from_as_bytes s : from_bytes (as_bytes s) = s.
Proof. apply string_of_list_ascii_of_string. Qed.
Lemma as_from_bytes l : as_bytes (from_bytes l) = l.
Proof. apply list_ascii_of_string_of_list_ascii. Qed.
Lemma len_as_bytes s : len (as_bytes s) = slen s.
Proof. unfold len, slen, as_bytes. induction s; cbn in *; lia. Qed.

Lemma len_nonneg {A} (l : list A) : 0 <= len l.
Proof. unfold len; lia. Qed.
Lemma slen_nonneg s : 0 <= slen s.
Proof. unfold slen; lia. Qed.
Lemma len_nil {A} : len (@nil A) = 0.
Proof. done. Qed.
Lemma len_cons {A} (x : A) l : len (x :: l) = 1 + len l.
Proof. unfold len; cbn [length]; lia. Qed.
Lemma len_app {A} (l k : list A) : len (l ++ k) = len l + len k.
Proof. unfold len; rewrite length_app; lia. Qed.
Lemma len_0 {A} (l : list A) : len l = 0 <-> l = [].
Proof. unfold len. destruct l; cbn; split; intros; (done || lia). Qed.

(** Character classes of [u8] / [char]. *)
Definition in_range (lo hi : Z) (b : byte) : bool := (lo <=? byte_val b) && (byte_val b <=? hi).
Definition is_ascii_digit (b : byte) : bool := in_range 48 57 b.
Definition is_ascii_upper (b : byte) : bool := in_range 65 90 b.
Definition is_ascii_lower (b : byte) : bool := in_range 97 122 b.
Definition is_ascii_alphabetic (b : byte) : bool := is_ascii_upper b || is_ascii_lower b.
Definition is_ascii_alphanumeric (b : byte) : bool := is_ascii_alphabetic b || is_ascii_digit b.
Definition is_ascii (b : byte) : bool := byte_val b <? 128.
Definition to_ascii_lowercase (b : byte) : byte :=
  if is_ascii_upper b then byte_of (byte_val b + 32) else b.

Definition str_is_ascii (s : string) : bool := forallb is_ascii (as_bytes s).
Definition str_to_ascii_lowercase (s : string) : string :=
  from_bytes (map to_ascii_lowercase (as_bytes s)).
Definition eq_ignore_ascii_case (s t : string) : bool :=
  bool_decide (str_to_ascii_lowercase s = str_to_ascii_lowercase t).

(** [str.chars().any(char::is_control)] read on the UTF-8 bytes: U+0000..U+001F,
    U+007F, and U+0080..U+009F, which UTF-8 writes [C2 80] .. [C2 9F]. *)
Fixpoint bytes_any_control (l : list byte) : bool :=
  match l with
  | [] => false
  | b :: rest =>
      (byte_val b <? 32) || (byte_val b =? 127)
      || ((byte_val b =? 194) && match rest with c :: _ => in_range 128 159 c | [] => false end)
      || bytes_any_control rest
  end.
Definition any_control (s : string) : bool := bytes_any_control (as_bytes s).

(** [str.chars().count()]: bytes that are not UTF-8 continuation bytes. *)
Definition chars_count (s : string) : Z :=
  len (filter (fun b => in_range 128 191 b = false) (as_bytes s)).

(** [slice.starts_with], [str.strip_prefix]. *)
Fixpoint starts_with (l prefix : list byte) {struct prefix} : bool :=
  match prefix, l with
  | [], _ => true
  | p :: ps, x :: xs => bool_decide (p = x) && starts_with xs ps
  | _ :: _, [] => false
  end.
Definition strip_prefix (l prefix : list byte) : option (list byte) :=
  if starts_with l prefix then Some (drop (length prefix) l) else None.
Definition str_starts_with (s prefix : string) : bool :=
  starts_with (as_bytes s) (as_bytes prefix).

Lemma starts_with_spec l p : starts_with l p = true <-> exists k, l = p ++ k.
Proof.
  revert l; induction p as [|c p IH]; intros l; cbn.
  - split; [by exists l|done].
  - destruct l as [|x l]; [split; [done|by intros [k Hk]]|].
    rewrite andb_true_iff, IH, bool_decide_eq_true. split.
    + intros [-> [k ->]]. by exists k.
    + intros [k Hk]. injection Hk as -> ->. split; [done|by exists k].
Qed.

(** ** Iterators over lists *)

(** [iter().all(|x| seen.insert(x))] on a fresh set: no element occurs twice. *)
Fixpoint all_distinct {A} `{EqDecision A} (l : list A) : bool :=
  match l with
  | [] => true
  | x :: rest => bool_decide (x ∉ rest) && all_distinct rest
  end.

Lemma all_distinct_NoDup {A} `{EqDecision A} (l : list A) : all_distinct l = true <-> NoDup l.
Proof.
  induction l as [|x l IH]; cbn.
  - split; [constructor|done].
  - rewrite andb_true_iff, bool_decide_eq_true, IH, NoDup_cons. done.
Qed.

Lemma forallb_Forall {A} (f : A -> bool) l : forallb f l = true <-> Forall (fun x => f x = true) l.
Proof. rewrite forallb_forall, Forall_forall. by setoid_rewrite list_elem_of_In. Qed.

Lemma existsb_Exists {A} (f : A -> bool) l : existsb f l = true <-> Exists (fun x => f x = true) l.
Proof. rewrite existsb_exists, Exists_exists. by setoid_rewrite list_elem_of_In. Qed.

Lemma existsb_false {A} (f : A -> bool) l : existsb f l = false <-> Forall (fun x => f x = false) l.
Proof.
  induction l; cbn; [split; [constructor|done]|].
  rewrite orb_false_iff, IHl, Forall_cons. done.
Qed.

(** [Iterator::find]. *)
Definition find_first {A} (f : A -> bool) (l : list A) : option A := List.find f l.

Lemma find_first_Some {A} (f : A -> bool) l x :
  find_first f l = Some x -> x ∈ l /\ f x = true.
Proof. intros H%find_some. by rewrite list_elem_of_In. Qed.

(** [slice.chunks(n)] *)
Fixpoint chunks (fuel n : nat) (l : list byte) : list (list byte) :=
  match fuel, l with
  | S fuel, _ :: _ => take n l :: chunks fuel n (drop n l)
  | _, _ => []
  end.

Lemma chunks_spec fuel n l : (length l <= fuel)%nat -> (0 < n)%nat ->
  mjoin (chunks fuel n l) = l /\ Forall (fun c => (0 < length c <= n)%nat) (chunks fuel n l).
Proof.
  revert l. induction fuel as [|fuel IH]; intros [|b l] Hf Hn; try (split; [done|constructor]); [cbn in Hf; lia|].
  cbn [chunks]. destruct (IH (drop n (b :: l))) as [Hj Hs]; [rewrite length_drop; cbn in *; lia|done|].
  split.
  - change (mjoin (?x :: ?y)) with (x ++ mjoin y). by rewrite Hj, take_drop.
  - constructor; [|done]. rewrite length_take. cbn. lia.
Qed.

(** [std::collections::BTreeMap<String, _>]: the entries in key order. *)
Fixpoint btree_get {A} (k : string) (m : list (string * A)) : option A :=
  match m with
  | [] => None
  | (k', v) :: rest => if decide (k = k') then Some v else btree_get k rest
  end.
Fixpoint btree_insert {A} (k : string) (v : A) (m : list (string * A)) : list (string * A) :=
  match m with
  | [] => [(k, v)]
  | (k', v') :: rest =>
      match String.compare k k' with
      | Lt => (k, v) :: (k', v') :: rest
      | Eq => (k, v) :: rest
      | Gt => (k', v') :: btree_insert k v rest
      end
  end.

Lemma btree_get_elem {A} k v (m : list (string * A)) : btree_get k m = Some v -> (k, v) ∈ m.
Proof.
  induction m as [|[k' v'] m IH]; cbn; [done|]. case_decide; [intros [= ->]; subst; left|].
  intros Hg. right. by apply IH.
Qed.
Lemma btree_insert_elem {A} k v x (m : list (string * A)) : x ∈ btree_insert k v m -> x = (k, v) \/ x ∈ m.
Proof.
  induction m as [|[k' v'] m IH]; cbn; [set_solver|].
  destruct (String.compare k k'); rewrite ?elem_of_cons; naive_solver.
Qed.

(** ** Sums over maps *)

Definition map_sum {K A} `{Countable K} (f : A -> Z) (m : gmap K A) : Z :=
  map_fold (fun _ x n => f x + n) 0 m.

Section MapSum.
Context {K : Type} `{Countable K} {A : Type} (f : A -> Z).

Lemma map_sum_insert (m : gmap K A) i x : m !! i = None -> map_sum f (<[i := x]> m) = f x + map_sum f m.
Proof.
  intros Hi. unfold map_sum. apply (map_fold_insert_L (fun _ x n => f x + n) 0 i x m); [intros; lia|done].
Qed.
Lemma map_sum_delete (m : gmap K A) i x : m !! i = Some x -> map_sum f m = f x + map_sum f (delete i m).
Proof.
  intros Hi. rewrite <-(insert_delete_id m i x Hi) at 1. apply map_sum_insert, lookup_delete_eq.
Qed.
Lemma map_sum_update (m : gmap K A) i x y : m !! i = Some x ->
  map_sum f (<[i := y]> m) = map_sum f m - f x + f y.
Proof.
  intros Hi. rewrite (map_sum_delete m i x Hi), <-insert_delete_eq, (map_sum_insert _ i y (lookup_delete_eq _ _)). lia.
Qed.
Lemma map_sum_empty : map_sum f (∅ : gmap K A) = 0.
Proof. done. Qed.
Lemma map_sum_nonneg (m : gmap K A) : (forall i x, m !! i = Some x -> 0 <= f x) -> 0 <= map_sum f m.
Proof.
  induction m as [|i x m Hi IH] using map_ind; intros Hf; [done|].
  rewrite map_sum_insert by done. pose proof (Hf i x (lookup_insert_eq _ _ _)).
  assert (0 <= map_sum f m); [|lia]. apply IH. intros j y Hj. apply (Hf j). rewrite lookup_insert_ne; congruence.
Qed.
End MapSum.

(** ** Polling: [std::task::Poll] *)

Inductive poll (A : Type) := PollPending | PollReady (value : A).
Arguments PollPending {A}. Arguments PollReady {A} value.

(** ** Machine integers *)

Definition u16_max : Z := 65535.
Definition u32_max : Z := 4294967295.
Definition u64_max : Z := 18446744073709551615.
(** [usize] is 64 bits wide on the supported targets. *)
Definition usize_max : Z := u64_max.

Definition saturating_sub (a b : Z) : Z := Z.max 0 (a - b).
Definition saturating_add (a b : Z) : Z := Z.min u64_max (a + b).
Definition checked_add (a b : Z) : option Z :=
  if a + b <=? u64_max then Some (a + b) else None.

Lemma checked_add_Some a b c : checked_add a b = Some c <-> c = a + b /\ a + b <= u64_max.
Proof. unfold checked_add. destruct (Z.leb_spec (a + b) u64_max); naive_solver lia. Qed.

(** ** Automation *)

(** Split boolean connectives in hypotheses into propositions. *)
Ltac bool_hyps :=
  repeat match goal with
  | H : (_ && _)%bool = true |- _ => apply andb_true_iff in H; destruct H
  | H : (_ || _)%bool = false |- _ => apply orb_false_iff in H; destruct H
  | H : negb _ = true |- _ => apply negb_true_iff in H
  | H : negb _ = false |- _ => apply negb_false_iff in H
  | H : bool_decide _ = true |- _ => apply bool_decide_eq_true in H
  | H : bool_decide _ = false |- _ => apply bool_decide_eq_false in H
  | H : (_ <? _) = true |- _ => apply Z.ltb_lt in H
  | H : (_ <? _) = false |- _ => apply Z.ltb_ge in H
  | H : (_ <=? _) = true |- _ => apply Z.leb_le in H
  | H : (_ <=? _) = false |- _ => apply Z.leb_gt in H
  | H : (_ =? _) = true |- _ => apply Z.eqb_eq in H
  | H : (_ =? _) = false |- _ => apply Z.eqb_neq in H
  | H : Is_true _ |- _ => apply Is_true_true in H
  end.

(** [lia] with division and modulo by constants. *)
Ltac div_lia := Z.to_euclidean_division_equations; lia.

(** Decompose a successful computation: every [if] and [match] on the way to
    [Ok] is a case, and the cases that return [Err] are closed. *)
Ltac ok_inv H :=
  repeat (first
    [ discriminate H
    | apply bind_Ok in H; let x := fresh "v" in let E := fresh "E" in destruct H as (x & E & H)
    | match type of H with
      | Ok _ = Ok _ => apply (inj Ok) in H || injection H as H
      | (if ?b then _ else _) = _ => let E := fresh "E" in destruct b eqn:E
      | match ?x with _ => _ end = _ => let E := fresh "E" in destruct x eqn:E
      end ]);
  try discriminate H.

#[export] Instance Ok_inj {E A} : Inj eq eq (@Ok E A).
Proof. intros x y H. by injection H. Qed.
#[export] Instance Err_inj {E A} : Inj eq eq (@Err E A).
Proof. intros x y H. by injection H. Qed.

Create HintDb aap.
Create Rewrite HintDb aap_len.
#[export] Hint Resolve len_nonneg slen_nonneg byte_val_range : aap.
#[export] Hint Rewrite @len_nil @len_cons @len_app : aap_len.
