(* ===== verification/Protocol.v ===== *)
(** * Credential-free wire types ([aap-types/src/protocol.rs])

    Error codes, errors, requests, operation and authentication states. Every
    component of the development shares this data model. *)
From S2P Require Import Prelude.

(** `aap-types/src/protocol.rs:7-26`, `ErrorCode` *)
Inductive ErrorCode :=
  | SessionInvalid | PolicyDenied | RequestInvalid | RequestConflict | LimitExceeded
  | InspectionUnavailable | AuthProfileUnsupported | AuthFailed | VaultLocked
  | VaultUnavailable | PlaceholderInvalid | AuthInProgress | InteractionUnavailable
  | ObservationUnavailable | UpstreamUnavailable | OutcomeUnknown | ResultUnavailable
  | InternalError.
#[export] Instance ErrorCode_eq_dec : EqDecision ErrorCode.
Proof. solve_decision. Defined.

(** `aap-types/src/protocol.rs:30-34`, `Error` *)
Record Error := mkError { code : ErrorCode; error_request_id : option string }.
#[export] Instance Error_eq_dec : EqDecision Error.
Proof. solve_decision. Defined.

(** `aap-types/src/protocol.rs:37-42`, `Error::new` *)
Definition Error_new (c : ErrorCode) : Error := mkError c None.

(** `aap-types/src/protocol.rs:43-46`, `Error::for_request` *)
Definition for_request (e : Error) (id : string) : Error := mkError (code e) (Some id).

(** `aap-types/src/protocol.rs:54-59`, `From<ErrorCode> for Error`: [Err(code.into())] *)
Definition fail {A} (c : ErrorCode) : result Error A := Err (Error_new c).

Abbreviation Result := (result Error).

(** `aap-types/src/protocol.rs:63-67`, `SearchItems` *)
Record SearchItems := {
  search_uri : string; search_query : option string; search_cursor : option string }.

(** `aap-types/src/protocol.rs:70-74`, `GetLogin` *)
Record GetLogin := mkGetLogin {
  get_login_request_id : string; get_login_item_id : string; get_login_uri : string }.
#[export] Instance GetLogin_eq_dec : EqDecision GetLogin.
Proof. solve_decision. Defined.

(** `aap-types/src/protocol.rs:77-79`, `AuthContext` *)
Record AuthContext := { auth_context_id : string }.

(** `aap-types/src/protocol.rs:82-93`, `ItemSummary` and `SearchResult` *)
Record ItemSummary := {
  summary_item_id : string; summary_label : string; summary_account_alias : string;
  summary_origins : list string; login_supported : bool }.
Record SearchResult := {
  result_items : list ItemSummary; next_cursor : option string }.

(** `aap-types/src/protocol.rs:128-131`, `CredentialFields` *)
Record CredentialFields := { field_username : string; field_password : string }.

(** `aap-types/src/protocol.rs:134-140`, `AuthState` *)
Inductive AuthState :=
  | Unauthenticated | Authenticating | Authenticated | AuthExpired | AuthRevoked.
#[export] Instance AuthState_eq_dec : EqDecision AuthState.
Proof. solve_decision. Defined.

(** `aap-types/src/protocol.rs:164-174`, `ExecuteRequest` *)
Record ExecuteRequest := mkExecuteRequest {
  request_id : string;
  resource : string;
  auth_context : option string;
  method : string;
  target : string;
  headers : list (string * string);
  body_base64 : string }.
#[export] Instance ExecuteRequest_eq_dec : EqDecision ExecuteRequest.
Proof. solve_decision. Defined.

(** `aap-types/src/protocol.rs:178-190`, `OperationState` *)
Inductive OperationState :=
  | Received | Validated | PendingApproval | Ready | Dispatching | Completed | Failed
  | OpOutcomeUnknown | Denied | Expired | Cancelled.
#[export] Instance OperationState_eq_dec : EqDecision OperationState.
Proof. solve_decision. Defined.

(** `aap-types/src/protocol.rs:192-196`, `OperationStatus` *)
Record OperationStatus := mkStatus {
  status_request_id : string; state : OperationState; status : option Z }.
#[export] Instance OperationStatus_eq_dec : EqDecision OperationStatus.
Proof. solve_decision. Defined.

(** `aap-engine/src/lib.rs:174-184`, `terminal` *)
Definition terminal (s : OperationState) : bool :=
  match s with
  | Completed | Failed | OpOutcomeUnknown | Denied | Expired | Cancelled => true
  | _ => false
  end.
