(* ===== verification/Ids.v ===== *)
(** * Random local identifiers ([aap-types/src/ids.rs])

    The [base64] crate is third-party: its engines are the class [Base64], and
    what the code relies on is [Base64Laws]. [Rfc4648] is a concrete instance,
    used to evaluate the model and to show that the laws can hold. *)
From S2P Require Import Prelude Protocol.

(** ** The [base64] crate *)

(** [Engine::decode] and [Engine::encode] of one configured engine. *)
Record Engine := { decode : list byte -> option (list byte); encode : list byte -> list byte }.

(** The four engines the sources use. *)
Class Base64 := {
  URL_SAFE_NO_PAD : Engine; STANDARD : Engine; URL_SAFE : Engine; STANDARD_NO_PAD : Engine }.

(** Every engine decodes what it encoded. *)
Class Base64Laws `{Base64} : Prop := {
  url_safe_no_pad_round x : decode URL_SAFE_NO_PAD (encode URL_SAFE_NO_PAD x) = Some x;
  standard_round x : decode STANDARD (encode STANDARD x) = Some x;
  url_safe_round x : decode URL_SAFE (encode URL_SAFE x) = Some x;
  standard_no_pad_round x : decode STANDARD_NO_PAD (encode STANDARD_NO_PAD x) = Some x;
  encode_nil e : e ∈ [URL_SAFE_NO_PAD; STANDARD; URL_SAFE; STANDARD_NO_PAD] -> encode e [] = [] }.

(** ** The identifiers *)

Section Ids.
Context `{Base64}.

(** `aap-types/src/ids.rs:5-9`, `random_id`: [fill] is the operating system's
    generator, [None] when it fails. *)
Definition random_id (fill : option (list byte)) : option string :=
  value ← fill; Some (from_bytes (encode URL_SAFE_NO_PAD value)).

(** `aap-types/src/ids.rs:12-16`, `valid_id` *)
Definition valid_id (value : string) (bytes : Z) : bool :=
  match decode URL_SAFE_NO_PAD (as_bytes value) with
  | Some decoded =>
      (len decoded =? bytes) && bool_decide (encode URL_SAFE_NO_PAD decoded = as_bytes value)
  | None => false
  end.

Lemma valid_id_spec value n :
  valid_id value n = true <->
  exists raw, decode URL_SAFE_NO_PAD (as_bytes value) = Some raw /\ len raw = n
              /\ encode URL_SAFE_NO_PAD raw = as_bytes value.
Proof.
  unfold valid_id. destruct (decode _ _) as [raw|]; [|naive_solver].
  rewrite andb_true_iff, Z.eqb_eq, bool_decide_eq_true. naive_solver.
Qed.

(** Two valid identifiers of one decoded value are the same string, so an
    identifier has no second spelling. *)
Lemma valid_id_canonical s t n m :
  valid_id s n = true -> valid_id t m = true ->
  decode URL_SAFE_NO_PAD (as_bytes s) = decode URL_SAFE_NO_PAD (as_bytes t) -> s = t.
Proof.
  intros (x & Hx & _ & Hs)%valid_id_spec (y & Hy & _ & Ht)%valid_id_spec Heq.
  rewrite <-(from_as_bytes s), <-(from_as_bytes t). congruence.
Qed.

Lemma random_id_valid `{!Base64Laws} raw n :
  exists id, random_id (Some raw) = Some id /\ (valid_id id n = true <-> len raw = n).
Proof.
  eexists; split; [reflexivity|]. rewrite valid_id_spec, as_from_bytes, url_safe_no_pad_round.
  naive_solver.
Qed.

End Ids.

(** ** A concrete engine: RFC 4648 with optional padding *)

Module Rfc4648.
Definition alphabet (c62 c63 : byte) : list byte :=
  as_bytes "ABCDEFGHIJKLMNOPQRSTUVWXYZabcdefghijklmnopqrstuvwxyz0123456789" ++ [c62; c63].
Definition sym (t : list byte) (i : Z) : byte := nth (Z.to_nat i) t "A"%char.
Fixpoint index (t : list byte) (b : byte) (i : Z) : option Z :=
  match t with
  | [] => None
  | c :: rest => if bool_decide (c = b) then Some i else index rest b (i + 1)
  end.

Fixpoint enc (t : list byte) (pad : bool) (l : list byte) : list byte :=
  match l with
  | [] => []
  | [a] =>
      let x := byte_val a in
      [sym t (x / 4); sym t (x mod 4 * 16)] ++ (if pad then ["="; "="]%char else [])
  | [a; b] =>
      let x := byte_val a in let y := byte_val b in
      [sym t (x / 4); sym t (x mod 4 * 16 + y / 16); sym t (y mod 16 * 4)]
      ++ (if pad then ["="]%char else [])
  | a :: b :: c :: rest =>
      let x := byte_val a in let y := byte_val b in let z := byte_val c in
      [sym t (x / 4); sym t (x mod 4 * 16 + y / 16); sym t (y mod 16 * 4 + z / 64);
       sym t (z mod 64)] ++ enc t pad rest
  end.

(** Strict decoding: trailing bits are zero and padding is as configured. *)
Fixpoint dec (t : list byte) (pad : bool) (l : list byte) : option (list byte) :=
  match l with
  | [] => Some []
  | [p; q] =>
      if pad then None else
      i ← index t p 0; j ← index t q 0;
      if j mod 16 =? 0 then Some [byte_of (i * 4 + j / 16)] else None
  | [p; q; r] =>
      if pad then None else
      i ← index t p 0; j ← index t q 0; k ← index t r 0;
      if k mod 4 =? 0 then Some [byte_of (i * 4 + j / 16); byte_of (j mod 16 * 16 + k / 4)]
      else None
  | p :: q :: r :: s :: rest =>
      i ← index t p 0; j ← index t q 0;
      if pad && bool_decide (s = "="%char) && bool_decide (rest = []) then
        if bool_decide (r = "="%char) then
          if j mod 16 =? 0 then Some [byte_of (i * 4 + j / 16)] else None
        else
          k ← index t r 0;
          if k mod 4 =? 0 then Some [byte_of (i * 4 + j / 16); byte_of (j mod 16 * 16 + k / 4)]
          else None
      else
        k ← index t r 0; m ← index t s 0;
        tail ← dec t pad rest;
        Some (byte_of (i * 4 + j / 16) :: byte_of (j mod 16 * 16 + k / 4)
              :: byte_of (k mod 4 * 64 + m) :: tail)
  | _ => None
  end.

Definition engine (c62 c63 : byte) (pad : bool) : Engine :=
  {| decode := dec (alphabet c62 c63) pad; encode := enc (alphabet c62 c63) pad |}.

#[export] Instance base64 : Base64 := {|
  URL_SAFE_NO_PAD := engine "-"%char "_"%char false;
  STANDARD := engine "+"%char "/"%char true;
  URL_SAFE := engine "-"%char "_"%char true;
  STANDARD_NO_PAD := engine "+"%char "/"%char false |}.
End Rfc4648.

(** ** The concrete engines satisfy the laws *)

Module Rfc4648Laws.
Import Rfc4648.

Definition indices : list Z := map Z.of_nat (seq 0 64).
Lemma in_indices i : 0 <= i < 64 -> In i indices.
Proof.
  intros Hi. unfold indices. apply in_map_iff. exists (Z.to_nat i).
  rewrite in_seq. lia.
Qed.

(** A good alphabet: every symbol is found at its index and none is the pad. *)
Definition good (t : list byte) : bool :=
  forallb (fun i => bool_decide (index t (sym t i) 0 = Some i)
                    && negb (bool_decide (sym t i = "="%char))) indices.

Section Round.
Variable t : list byte.
Hypothesis Hgood : good t = true.

Lemma sym_index i : 0 <= i < 64 -> index t (sym t i) 0 = Some i.
Proof.
  intros Hi%in_indices. unfold good in Hgood. rewrite forallb_forall in Hgood.
  specialize (Hgood i Hi). by bool_hyps.
Qed.
Lemma sym_not_pad i : 0 <= i < 64 -> sym t i <> "="%char.
Proof.
  intros Hi%in_indices. unfold good in Hgood. rewrite forallb_forall in Hgood.
  specialize (Hgood i Hi). by bool_hyps.
Qed.

Ltac ranges a := pose proof (byte_val_range a).

Lemma round pad l : dec t pad (enc t pad l) = Some l.
Proof.
  assert (forall n l, (length l <= n)%nat -> dec t pad (enc t pad l) = Some l) as Hn;
    [|by apply (Hn (length l))].
  clear l. induction n as [|n IH]; intros l Hl.
  { destruct l; [done|cbn in Hl; div_lia]. }
  destruct l as [|a [|b [|c rest]]]; [done| | |]; cbn in Hl.
  - ranges a. set (x := byte_val a) in *.
    assert (forall i j, i = x / 4 -> j = x mod 4 * 16 ->
      byte_of (i * 4 + j / 16) = a /\ j mod 16 = 0) as Hx.
    { intros i j -> ->. split; [|div_lia]. rewrite <-(byte_of_val a). f_equal. subst x. div_lia. }
    destruct (Hx _ _ eq_refl eq_refl) as [Hb Hz].
    destruct pad; cbn [enc app dec]; fold x; rewrite !sym_index by div_lia; cbn;
      rewrite Hz; cbn; by rewrite Hb.
  - ranges a. ranges b. cbn [enc]. set (x := byte_val a) in *. set (y := byte_val b) in *.
    assert (byte_of (x / 4 * 4 + (x mod 4 * 16 + y / 16) / 16) = a) as Ha.
    { rewrite <-(byte_of_val a). f_equal. subst x. div_lia. }
    assert (byte_of ((x mod 4 * 16 + y / 16) mod 16 * 16 + y mod 16 * 4 / 4) = b) as Hb.
    { rewrite <-(byte_of_val b). f_equal. subst y. div_lia. }
    assert (y mod 16 * 4 mod 4 = 0) as Hz by div_lia.
    destruct pad; cbn [app dec]; rewrite !sym_index by div_lia; cbn [andb mbind option_bind].
    + rewrite !bool_decide_true by done. cbn [andb].
      rewrite bool_decide_false by (apply sym_not_pad; div_lia).
      rewrite Hz. cbn. by rewrite Ha, Hb.
    + rewrite Hz. cbn. by rewrite Ha, Hb.
  - ranges a. ranges b. ranges c. cbn [enc app dec].
    set (x := byte_val a) in *. set (y := byte_val b) in *. set (z := byte_val c) in *.
    rewrite !sym_index by div_lia. cbn [mbind option_bind].
    rewrite (bool_decide_false (sym t (z mod 64) = _)) by (apply sym_not_pad; div_lia).
    rewrite andb_false_r. cbn [andb]. rewrite IH by div_lia.
    cbn [mbind option_bind]. f_equal. f_equal; [|f_equal; [|f_equal]].
    + rewrite <-(byte_of_val a). f_equal. subst x. div_lia.
    + rewrite <-(byte_of_val b). f_equal. subst y. div_lia.
    + rewrite <-(byte_of_val c). f_equal. subst z. div_lia.
Qed.
End Round.

#[export] Instance laws : @Base64Laws base64.
Proof.
  split; intros x; try (apply round; vm_compute; reflexivity).
  intros He. by repeat (apply elem_of_cons in He as [->|He]); [..|apply elem_of_nil in He].
Qed.
End Rfc4648Laws.

(** ** Facts about identifiers *)
#[local] Existing Instance Rfc4648.base64.

Example request_id_is_valid : valid_id "AAAAAAAAAAAAAAAAAAAAAA" 16 = true.
Proof. vm_compute. reflexivity. Qed.
Example padded_id_is_invalid : valid_id "AAAAAAAAAAAAAAAAAAAAAA==" 16 = false.
Proof. vm_compute. reflexivity. Qed.
Example trailing_bits_are_invalid : valid_id "AAAAAAAAAAAAAAAAAAAAAB" 16 = false.
Proof. vm_compute. reflexivity. Qed.
