(* ===== verification/Json.v ===== *)
(** * Strict JSON decoding ([aap-types/src/json.rs])

    [serde_json]'s parser is third-party: what it hands to the source's visitor
    is the tree [raw], where an object is the list of its members in the order
    of the text, duplicates included. The visitor builds [Value]s. *)
From S2P Require Import Prelude.

(** ** Data *)

(** [serde_json::Number]: an unsigned, a negative or a floating number (the
    64 bits of the [f64]). *)
Inductive Number := PosInt (n : Z) | NegInt (n : Z) | Float (bits : Z).
#[export] Instance Number_eq_dec : EqDecision Number.
Proof. solve_decision. Defined.

(** [serde_json::Value]; the map of an object is kept in key order. *)
Inductive Value :=
  | Null
  | Bool (b : bool)
  | Num (n : Number)
  | Str (s : string)
  | Array (l : list Value)
  | Object (m : list (string * Value)).

#[export] Instance Value_eq_dec : EqDecision Value.
Proof.
  refine (fix go (v w : Value) : Decision (v = w) :=
    let _ : EqDecision Value := @go in
    match v, w with
    | Null, Null => left _
    | Bool a, Bool b => cast_if (decide (a = b))
    | Num a, Num b => cast_if (decide (a = b))
    | Str a, Str b => cast_if (decide (a = b))
    | Array a, Array b => cast_if (decide (a = b))
    | Object a, Object b => cast_if (decide (a = b))
    | _, _ => right _
    end); abstract congruence.
Defined.

(** What the deserializer calls the visitor with. *)
Inductive raw :=
  | RNull
  | RBool (b : bool)
  | RI64 (n : Z)
  | RU64 (n : Z)
  | RF64 (bits : Z)
  | RStr (s : string)
  | RSeq (l : list raw)
  | RMap (m : list (string * raw)).

(** The errors the visitor raises ([A::Error::custom], [E::custom]). *)
Inductive json_error := DuplicateMember | InvalidNumber.

(** ** [serde_json::Map]: an ordered map by key *)

Fixpoint map_get (k : string) (m : list (string * Value)) : option Value :=
  match m with
  | [] => None
  | (k', v) :: rest => if decide (k = k') then Some v else map_get k rest
  end.
Definition contains_key (m : list (string * Value)) (k : string) : bool :=
  bool_decide (is_Some (map_get k m)).
Fixpoint map_insert (k : string) (v : Value) (m : list (string * Value)) : list (string * Value) :=
  match m with
  | [] => [(k, v)]
  | (k', v') :: rest =>
      match String.compare k k' with
      | Lt => (k, v) :: (k', v') :: rest
      | Eq => (k, v) :: rest
      | Gt => (k', v') :: map_insert k v rest
      end
  end.

(** [i64] and [u64] into [Number]: a negative value is the [NegInt] case. *)
Definition from_i64 (n : Z) : Number := if n <? 0 then NegInt n else PosInt n.
(** [Number::from_f64]: [None] on NaN and infinities, the exponent field of ones. *)
Definition from_f64 (bits : Z) : option Number :=
  if Z.land (Z.shiftr bits 52) 2047 =? 2047 then None else Some (Float bits).

(** ** The visitor *)

(** `aap-types/src/json.rs:17-74`, `UniqueVisitor` *)
Fixpoint unique (r : raw) : result json_error Value :=
  match r with
  | RNull => Ok Null
  | RBool b => Ok (Bool b)
  | RI64 n => Ok (Num (from_i64 n))
  | RU64 n => Ok (Num (PosInt n))
  | RF64 bits => n ← ok_or (from_f64 bits) InvalidNumber; Ok (Num n)
  | RStr s => Ok (Str s)
  | RSeq l =>
      values ← (fix visit_seq (l : list raw) (values : list Value) :=
        match l with
        | [] => Ok values
        | value :: rest => v ← unique value; visit_seq rest (values ++ [v])
        end) l [];
      Ok (Array values)
  | RMap m =>
      values ← (fix visit_map (m : list (string * raw)) (values : list (string * Value)) :=
        match m with
        | [] => Ok values
        | (key, value) :: rest =>
            if contains_key values key then Err DuplicateMember
            else v ← unique value; visit_map rest (map_insert key v values)
        end) m [];
      Ok (Object values)
  end.

Section Decode.
(** [serde_json]'s parser together with [deserializer.end()], and the derived
    [from_value] of the requested type. *)
Context {T : Type} (parse : list byte -> option raw) (from_value : Value -> option T).

(** `aap-types/src/json.rs:10-15`, `decode` *)
Definition decode (bytes : list byte) : option T :=
  tree ← parse bytes;
  value ← ok (unique tree);
  from_value value.
End Decode.

(** ** Specification: no duplicate member at any depth, and finite numbers *)

Inductive Unambiguous : raw -> Prop :=
  | UNull : Unambiguous RNull
  | UBool b : Unambiguous (RBool b)
  | UI64 n : Unambiguous (RI64 n)
  | UU64 n : Unambiguous (RU64 n)
  | UF64 bits : is_Some (from_f64 bits) -> Unambiguous (RF64 bits)
  | UStr s : Unambiguous (RStr s)
  | USeq l : Forall Unambiguous l -> Unambiguous (RSeq l)
  | UMap m : NoDup m.*1 -> Forall (fun kv => Unambiguous kv.2) m -> Unambiguous (RMap m).

(** The named inner loops of [unique]. *)
Fixpoint visit_seq (l : list raw) (values : list Value) : result json_error (list Value) :=
  match l with
  | [] => Ok values
  | value :: rest => v ← unique value; visit_seq rest (values ++ [v])
  end.
Fixpoint visit_map (m : list (string * raw)) (values : list (string * Value)) :
  result json_error (list (string * Value)) :=
  match m with
  | [] => Ok values
  | (key, value) :: rest =>
      if contains_key values key then Err DuplicateMember
      else v ← unique value; visit_map rest (map_insert key v values)
  end.

Lemma unique_RSeq l : unique (RSeq l) = (values ← visit_seq l []; Ok (Array values)).
Proof. done. Qed.
Lemma unique_RMap m : unique (RMap m) = (values ← visit_map m []; Ok (Object values)).
Proof. done. Qed.

(** Induction on [raw] through the nested lists. *)
Section RawInd.
Variable P : raw -> Prop.
Hypothesis HNull : P RNull.
Hypothesis HBool : forall b, P (RBool b).
Hypothesis HI64 : forall n, P (RI64 n).
Hypothesis HU64 : forall n, P (RU64 n).
Hypothesis HF64 : forall b, P (RF64 b).
Hypothesis HStr : forall s, P (RStr s).
Hypothesis HSeq : forall l, Forall P l -> P (RSeq l).
Hypothesis HMap : forall m, Forall (fun kv => P kv.2) m -> P (RMap m).
Fixpoint raw_ind' (r : raw) : P r.
Proof.
  destruct r as [| | | | | |l|m];
    [apply HNull|apply HBool|apply HI64|apply HU64|apply HF64|apply HStr| |].
  - apply HSeq. induction l as [|x l IH]; constructor; [apply raw_ind'|apply IH].
  - apply HMap. induction m as [|[k x] m IH]; constructor; [apply raw_ind'|apply IH].
Qed.
End RawInd.

Lemma compare_refl k : String.compare k k = Eq.
Proof.
  pose proof (String.compare_antisym k k) as H. by destruct (String.compare k k).
Qed.

Lemma map_get_insert k v j m :
  map_get j (map_insert k v m) = if decide (j = k) then Some v else map_get j m.
Proof.
  induction m as [|[k' v'] m IH]; cbn.
  - repeat case_decide; congruence.
  - destruct (String.compare k k') eqn:E; cbn.
    + apply String.compare_eq_iff in E as ->. repeat case_decide; congruence.
    + repeat case_decide; congruence.
    + rewrite IH. repeat case_decide; try congruence. subst.
      by rewrite compare_refl in E.
Qed.

Lemma contains_key_insert k v j m :
  contains_key (map_insert k v m) j = bool_decide (j = k) || contains_key m j.
Proof.
  unfold contains_key. rewrite map_get_insert. case_decide as Hj.
  - rewrite (bool_decide_true (j = k)) by done. by rewrite bool_decide_true by eauto.
  - by rewrite (bool_decide_false (j = k)).
Qed.

Lemma fresh_keys_insert k v m (l : list string) :
  Forall (fun j => contains_key (map_insert k v m) j = false) l
  <-> (k ∉ l) /\ Forall (fun j => contains_key m j = false) l.
Proof.
  induction l as [|j l IH].
  - split; [|constructor]. split; [set_solver|constructor].
  - rewrite !Forall_cons, IH, contains_key_insert, orb_false_iff, bool_decide_eq_false.
    rewrite not_elem_of_cons. intuition congruence.
Qed.

(** The member loop succeeds exactly when no key repeats. *)
Lemma visit_map_ok m : Forall (fun kv => is_ok (unique kv.2) = true <-> Unambiguous kv.2) m ->
  forall values,
  is_ok (visit_map m values) = true <->
  NoDup m.*1 /\ Forall (fun kv => Unambiguous kv.2) m
  /\ Forall (fun k => contains_key values k = false) m.*1.
Proof.
  induction 1 as [|[k r] m Hr Hm IH]; intros values; cbn.
  - split; [|done]. intros _. repeat split; constructor.
  - rewrite NoDup_cons, !Forall_cons. cbn in Hr. destruct (contains_key values k) eqn:Ek; cbn.
    { split; [done|]. intros (_ & _ & [] & _). congruence. }
    destruct (unique r) as [v|e]; cbn in Hr |- *; [|intuition congruence].
    rewrite IH, (fresh_keys_insert k). tauto.
Qed.

Lemma visit_seq_ok l : Forall (fun r => is_ok (unique r) = true <-> Unambiguous r) l ->
  forall values, is_ok (visit_seq l values) = true <-> Forall Unambiguous l.
Proof.
  induction 1 as [|r l Hr Hl IH]; intros values; cbn; [by split|].
  rewrite Forall_cons. destruct (unique r); cbn in *; [|naive_solver].
  rewrite IH. naive_solver.
Qed.

(** the strict decoder accepts a JSON text exactly when no object in it, at
    any depth, has two members of one (unescaped) name and its numbers are
    finite. *)
Lemma unique_accepts r : is_ok (unique r) = true <-> Unambiguous r.
Proof.
  induction r as [| | | |bits| |l IH|m IH] using raw_ind';
    try (by split; [constructor|]).
  - cbn. split.
    + destruct (from_f64 bits) eqn:E; [|done]. constructor. by rewrite E.
    + inversion 1 as [| | | |? [n Hn]| | |]; subst. by rewrite Hn.
  - rewrite unique_RSeq. transitivity (is_ok (visit_seq l []) = true).
    + by destruct (visit_seq l []).
    + rewrite visit_seq_ok by done. split; [by constructor|by inversion 1].
  - rewrite unique_RMap. transitivity (is_ok (visit_map m []) = true).
    + by destruct (visit_map m []).
    + rewrite visit_map_ok by done. split; [intros (?&?&_); by constructor|].
      inversion 1; subst. split_and!; [done..|]. apply Forall_forall. done.
Qed.
