(* ===== verification/Stream.v ===== *)
(** * Stream contracts and frames ([aap-types/src/stream.rs], [stream/frame.rs])

    Control records with their validation, the bounded control decoder, headers
    and the frame codec. [serde_json] is the class [Serde]. *)
From S2P Require Import Prelude Protocol Ids Json.

(** ** Constants *)

(** `aap-types/src/stream.rs:16-22`, `MAX_CONTROL_BYTES` .. `MAX_LIFETIME_MS` *)
Definition MAX_CONTROL_BYTES : Z := 16 * 1024.
Definition MAX_DATA_BYTES : Z := 32 * 1024.
Definition MAX_DIRECTION_BYTES : Z := 32 * 1024 * 1024.
Definition MAX_DATA_FRAMES : Z := 65536.
Definition MAX_APPROVAL_MS : Z := 300000.
Definition MAX_IDLE_MS : Z := 60000.
Definition MAX_LIFETIME_MS : Z := 600000.

(** ** Data *)

(** `aap-types/src/stream.rs:26-29`, `Open` *)
Record Open := mkOpen { open_request_id : string; open_resource : string }.
#[export] Instance Open_eq_dec : EqDecision Open.
Proof. solve_decision. Defined.

(** `aap-types/src/stream.rs:44-47`, `Pending` *)
Record Pending := mkPending { pending_request_id : string; expires_in_ms : Z }.

(** `aap-types/src/stream.rs:63-67`, `Inspection` *)
Inductive Inspection := PlaintextBytes | Opaque | MetadataOnly.
#[export] Instance Inspection_eq_dec : EqDecision Inspection.
Proof. solve_decision. Defined.

(** `aap-types/src/stream.rs:71-74`, `Observation` *)
Inductive Observation := BestEffort | Required.

(** `aap-types/src/stream.rs:78-88`, `Opened` *)
Record Opened := mkOpened {
  opened_request_id : string;
  opened_resource : string;
  max_data_bytes : Z;
  send_limit : Z;
  receive_limit : Z;
  idle_timeout_ms : Z;
  remaining_lifetime_ms : Z;
  inspection : Inspection;
  observation : Observation }.

(** `aap-types/src/stream.rs:112-128`, `Cause` *)
Inductive Cause :=
  | OrderlyEnd | CauseCancelled | SessionEnded | PolicyChanged | ApprovalDenied
  | ApprovalTimeout | CauseInteractionUnavailable | CauseObservationUnavailable
  | CapacityExhausted | CauseUpstreamUnavailable | InvalidFrame | CauseLimitExceeded
  | Timeout | AttachmentLost | CauseInternalError.
#[export] Instance Cause_eq_dec : EqDecision Cause.
Proof. solve_decision. Defined.

(** `aap-types/src/stream/service.rs:95-110`, `AttachmentError::cause` *)
Inductive AttachmentError := BadFrame | TooLarge | Lost | Internal.
Definition error_cause (e : AttachmentError) : Cause :=
  match e with
  | BadFrame => InvalidFrame
  | TooLarge => CauseLimitExceeded
  | Lost => AttachmentLost
  | Internal => CauseInternalError
  end.

(** `aap-types/src/stream.rs:132-138`, `Terminal` *)
Record Terminal := mkTerminal {
  operation : OperationStatus;
  cause : Cause;
  sent_bytes : Z;
  received_bytes : Z }.

(** `aap-types/src/stream.rs:197-200`, `Sender` *)
Inductive Sender := Agent | Daemon.
#[export] Instance Sender_eq_dec : EqDecision Sender.
Proof. solve_decision. Defined.

(** `aap-types/src/stream.rs:213-219`, `Kind` *)
Inductive Kind := KPending | KOpened | KData | KSendEnd | KTerminal.
#[export] Instance Kind_eq_dec : EqDecision Kind.
Proof. solve_decision. Defined.
(** [kind as u8]. *)
Definition kind_byte (k : Kind) : Z :=
  match k with KPending => 1 | KOpened => 2 | KData => 3 | KSendEnd => 4 | KTerminal => 5 end.

(** `aap-types/src/stream.rs:222-225`, `Header` *)
Record Header := mkHeader { kind : Kind; length_ : Z }.
#[export] Instance Header_eq_dec : EqDecision Header.
Proof. solve_decision. Defined.

(** `aap-types/src/stream.rs:237-243`, `Frame` *)
Inductive Frame :=
  | FPending (value : Pending)
  | FOpened (value : Opened)
  | FData (bytes : list byte)
  | FSendEnd
  | FTerminal (value : Terminal).

(** `aap-types/src/stream.rs:245-248`, `Encoded` *)
Record Encoded := mkEncoded { encoded_header : list byte; payload : list byte }.

(** ** [serde_json] on the closed control records *)

Class Serde := {
  parse : list byte -> option raw;
  open_from_value : Value -> option Open;
  pending_from_value : Value -> option Pending;
  opened_from_value : Value -> option Opened;
  terminal_from_value : Value -> option Terminal;
  pending_to_vec : Pending -> option (list byte);
  opened_to_vec : Opened -> option (list byte);
  terminal_to_vec : Terminal -> option (list byte) }.

(** ** Validation *)

Section Validation.
Context `{Base64}.

Definition alias_byte (b : byte) : bool :=
  is_ascii_alphanumeric b || existsb (fun c => bool_decide (b = c)) (as_bytes "._-").

(** [s.as_bytes()[0]], only read after the emptiness test. *)
Definition first_byte (s : string) : byte := hd "000"%char (as_bytes s).

(** `aap-types/src/stream.rs:250-263`, `validate_binding` *)
Definition validate_binding (request_id resource : string) : Result unit :=
  if negb (valid_id request_id 16)
     || bool_decide (resource = EmptyString)
     || (64 <? slen resource)
     || negb (is_ascii_alphanumeric (first_byte resource))
     || negb (forallb alias_byte (as_bytes resource))
  then fail RequestInvalid else Ok tt.

(** `aap-types/src/stream.rs:37-39`, `Open::validate` *)
Definition Open_validate (o : Open) : Result unit :=
  validate_binding (open_request_id o) (open_resource o).

(** `aap-types/src/stream.rs:50-58`, `Pending::validate` *)
Definition Pending_validate (p : Pending) : Result unit :=
  if negb (valid_id (pending_request_id p) 16)
     || (expires_in_ms p =? 0)
     || (MAX_APPROVAL_MS <? expires_in_ms p)
  then fail RequestInvalid else Ok tt.

(** `aap-types/src/stream.rs:91-107`, `Opened::validate` *)
Definition Opened_validate (o : Opened) : Result unit :=
  _ ← validate_binding (opened_request_id o) (opened_resource o);
  if (max_data_bytes o =? 0)
     || (MAX_DATA_BYTES <? max_data_bytes o)
     || (send_limit o =? 0)
     || (MAX_DIRECTION_BYTES <? send_limit o)
     || (receive_limit o =? 0)
     || (MAX_DIRECTION_BYTES <? receive_limit o)
     || (idle_timeout_ms o =? 0)
     || (MAX_IDLE_MS <? idle_timeout_ms o)
     || (remaining_lifetime_ms o =? 0)
     || (MAX_LIFETIME_MS <? remaining_lifetime_ms o)
  then fail RequestInvalid else Ok tt.

(** `aap-types/src/stream.rs:141-161`, `Terminal::validate` *)
Definition Terminal_validate (t : Terminal) : Result unit :=
  if negb (valid_id (status_request_id (operation t)) 16)
     || bool_decide (is_Some (status (operation t)))
     || negb (match state (operation t) with
              | Completed | Failed | OpOutcomeUnknown | Denied | Expired | Cancelled => true
              | _ => false
              end)
     || negb (Bool.eqb (bool_decide (state (operation t) = Completed))
                       (bool_decide (cause t = OrderlyEnd)))
     || (MAX_DIRECTION_BYTES <? sent_bytes t)
     || (MAX_DIRECTION_BYTES <? received_bytes t)
  then fail RequestInvalid else Ok tt.

End Validation.

(** ** The bounded control decoder *)

(** The structural scan of [decode_control]: nesting depth, structural tokens,
    and whether the position is inside a string or after a backslash there. *)
Fixpoint scan (bytes : list byte) (depth tokens : Z) (quoted escaped : bool) : Result unit :=
  match bytes with
  | [] => Ok tt
  | b :: rest =>
      if quoted then
        if escaped then scan rest depth tokens true false
        else if bool_decide (b = "\"%char) then scan rest depth tokens true true
        else if bool_decide (b = "034"%char) then scan rest depth tokens false false
        else scan rest depth tokens true false
      else
        let '(quoted, depth, tokens) :=
          if bool_decide (b = "034"%char) then (true, depth, tokens)
          else if bool_decide (b = "{"%char) || bool_decide (b = "["%char) then
            (false, depth + 1, tokens + 1)
          else if bool_decide (b = "}"%char) || bool_decide (b = "]"%char) then
            (false, saturating_sub depth 1, tokens + 1)
          else if bool_decide (b = ","%char) || bool_decide (b = ":"%char) then
            (false, depth, tokens + 1)
          else (false, depth, tokens) in
        if (8 <? depth) || (128 <? tokens) then fail LimitExceeded
        else scan rest depth tokens quoted escaped
  end.

Section Codec.
Context `{Base64} `{Serde}.

(** `aap-types/src/stream.rs:265-301`, `decode_control` *)
Definition decode_control {T} (from_value : Value -> option T) (bytes : list byte) : Result T :=
  if MAX_CONTROL_BYTES <? len bytes then fail LimitExceeded
  else
    _ ← scan bytes 0 0 false false;
    ok_or (Json.decode parse from_value bytes) (Error_new RequestInvalid).

(** `aap-types/src/stream.rs:32-36`, `Open::decode` *)
Definition Open_decode (bytes : list byte) : Result Open :=
  operation ← decode_control open_from_value bytes;
  _ ← Open_validate operation;
  Ok operation.

(** `aap-types/src/stream/frame.rs:19-32`, `Header::new` *)
Definition Header_new (k : Kind) (length : Z) : Result Header :=
  if negb (Bool.eqb (bool_decide (k = KSendEnd)) (length =? 0)) then fail RequestInvalid
  else
    let max := if bool_decide (k = KData) then MAX_DATA_BYTES else MAX_CONTROL_BYTES in
    if max <? length then fail LimitExceeded else Ok (mkHeader k length).

(** [u32::from_be_bytes]. *)
Definition from_be_bytes (a b c d : byte) : Z :=
  byte_val a * 16777216 + byte_val b * 65536 + byte_val c * 256 + byte_val d.
(** [u32::to_be_bytes]. *)
Definition to_be_bytes (z : Z) : list byte :=
  [byte_of (z / 16777216); byte_of (z / 65536 mod 256); byte_of (z / 256 mod 256);
   byte_of (z mod 256)].

(** `aap-types/src/stream/frame.rs:4-17`, `Header::parse`: the argument is the
    five-byte array; other lengths do not occur. *)
Definition Header_parse (bytes : list byte) : Result Header :=
  match bytes with
  | [b0; b1; b2; b3; b4] =>
      kind ← match byte_val b0 with
             | 1 => Ok KPending
             | 2 => Ok KOpened
             | 3 => Ok KData
             | 4 => Ok KSendEnd
             | 5 => Ok KTerminal
             | _ => fail RequestInvalid
             end;
      Header_new kind (from_be_bytes b1 b2 b3 b4)
  | _ => fail RequestInvalid
  end.

(** `aap-types/src/stream/frame.rs:34-38`, `Header::encode`; [as u32] truncates. *)
Definition Header_encode (h : Header) : list byte :=
  byte_of (kind_byte (kind h)) :: to_be_bytes (length_ h mod 4294967296).

(** `aap-types/src/stream/frame.rs:95-103`, `control_bytes`: [to_vec] is what
    [serde_json::to_vec] returns for the record. *)
Definition control_bytes (to_vec : option (list byte)) : Result (list byte) :=
  bytes ← ok_or to_vec (Error_new InternalError);
  if MAX_CONTROL_BYTES <? len bytes then fail LimitExceeded else Ok bytes.

(** `aap-types/src/stream/frame.rs:44-63`, `Frame::encode` *)
Definition Frame_encode (f : Frame) : Result Encoded :=
  '(kind, payload) ← match f with
    | FPending value =>
        _ ← Pending_validate value;
        bytes ← control_bytes (pending_to_vec value); Ok (KPending, bytes)
    | FOpened value =>
        _ ← Opened_validate value;
        bytes ← control_bytes (opened_to_vec value); Ok (KOpened, bytes)
    | FData bytes => Ok (KData, bytes)
    | FSendEnd => Ok (KSendEnd, [])
    | FTerminal value =>
        _ ← Terminal_validate value;
        bytes ← control_bytes (terminal_to_vec value); Ok (KTerminal, bytes)
    end;
  header ← Header_new kind (len payload);
  Ok (mkEncoded (Header_encode header) payload).

(** `aap-types/src/stream/frame.rs:65-88`, `Frame::decode` *)
Definition Frame_decode (header : Header) (payload : list byte) : Result Frame :=
  if negb (length_ header =? len payload) then fail RequestInvalid
  else match kind header with
    | KPending =>
        value ← decode_control pending_from_value payload;
        _ ← Pending_validate value; Ok (FPending value)
    | KOpened =>
        value ← decode_control opened_from_value payload;
        _ ← Opened_validate value; Ok (FOpened value)
    | KData => Ok (FData payload)
    | KSendEnd => Ok FSendEnd
    | KTerminal =>
        value ← decode_control terminal_from_value payload;
        _ ← Terminal_validate value; Ok (FTerminal value)
    end.

(** `aap-types/src/stream/frame.rs:90-92`, `Frame::header` *)
Definition Frame_header (f : Frame) : Result Header :=
  encoded ← Frame_encode f; Header_parse (encoded_header encoded).

End Codec.

(** ** Facts about headers *)

(** The headers [Header::new] builds. *)
Definition wf_header (h : Header) : Prop :=
  0 <= length_ h <= (if bool_decide (kind h = KData) then MAX_DATA_BYTES else MAX_CONTROL_BYTES)
  /\ (kind h = KSendEnd <-> length_ h = 0).

Lemma eqb_negb_false a b : negb (Bool.eqb a b) = false <-> (a = true <-> b = true).
Proof. destruct a, b; cbn; intuition congruence. Qed.

Lemma Header_new_Ok k n h : 0 <= n ->
  Header_new k n = Ok h <-> h = mkHeader k n /\ wf_header h.
Proof.
  intros Hn. unfold Header_new, wf_header.
  destruct (negb (Bool.eqb _ _)) eqn:E.
  - split; [done|]. intros [-> [_ Hk]]; cbn in *.
    destruct (Z.eqb_spec n 0), (decide (k = KSendEnd)); rewrite ?bool_decide_true, ?bool_decide_false in E by done; cbn in E; (done || tauto).
  - apply eqb_negb_false in E. rewrite bool_decide_eq_true, Z.eqb_eq in E.
    destruct (Z.ltb_spec (if bool_decide (k = KData) then MAX_DATA_BYTES else MAX_CONTROL_BYTES) n).
    + split; [done|]. intros [-> [? _]]; cbn in *. lia.
    + split; [intros [= <-]; cbn; split_and!; (done || lia)|by intros [-> _]].
Qed.

Lemma from_to_be_bytes z : 0 <= z < 4294967296 ->
  match to_be_bytes z with [a; b; c; d] => from_be_bytes a b c d = z | _ => False end.
Proof.
  intros Hz. unfold to_be_bytes, from_be_bytes.
  rewrite !byte_val_of by div_lia. div_lia.
Qed.

Lemma kind_byte_range k : 0 <= kind_byte k < 256.
Proof. destruct k; cbn; lia. Qed.

Lemma Header_encode_parse h : wf_header h -> Header_parse (Header_encode h) = Ok h.
Proof.
  intros Hwf. pose proof Hwf as [Hl _].
  assert (0 <= length_ h < 4294967296) as Hr.
  { unfold MAX_DATA_BYTES, MAX_CONTROL_BYTES in Hl. case_bool_decide; lia. }
  unfold Header_encode, Header_parse. rewrite Z.mod_small by lia.
  pose proof (from_to_be_bytes (length_ h) Hr) as Hb.
  unfold to_be_bytes in *. rewrite Hb.
  rewrite byte_val_of by apply kind_byte_range.
  destruct h as [[] n]; apply Header_new_Ok; (done || apply Hr).

Qed.

Lemma Header_parse_wf bytes h : Header_parse bytes = Ok h -> wf_header h /\ Header_encode h = bytes.
Proof.
  unfold Header_parse. intros H.
  destruct bytes as [|b0 [|b1 [|b2 [|b3 [|b4 [|? ?]]]]]]; try discriminate H.
  apply bind_Ok in H as (k & Hk & H).
  assert (0 <= from_be_bytes b1 b2 b3 b4 < 4294967296) as Hr.
  { unfold from_be_bytes. pose proof (byte_val_range b1). pose proof (byte_val_range b2).
    pose proof (byte_val_range b3). pose proof (byte_val_range b4). lia. }
  apply Header_new_Ok in H as [-> Hwf]; [|lia]. split; [done|].
  assert (kind_byte k = byte_val b0) as Hkb.
  { destruct (byte_val b0) as [|p|p]; try discriminate Hk.
    repeat (destruct p as [p|p|]; try discriminate Hk); by injection Hk as <-. }
  unfold Header_encode. cbn [kind length_]. rewrite Hkb, byte_of_val. f_equal.
  rewrite Z.mod_small by done. unfold to_be_bytes, from_be_bytes.
  pose proof (byte_val_range b1). pose proof (byte_val_range b2).
  pose proof (byte_val_range b3). pose proof (byte_val_range b4).
  repeat f_equal; rewrite <-byte_of_val; f_equal; div_lia.
Qed.

Lemma Header_encode_length h : length (Header_encode h) = 5%nat.
Proof. done. Qed.

(** The kind of the header a frame is sent under. *)
Definition kind_of (f : Frame) : Kind :=
  match f with
  | FPending _ => KPending | FOpened _ => KOpened | FData _ => KData
  | FSendEnd => KSendEnd | FTerminal _ => KTerminal
  end.

Section Facts.
Context `{Base64} `{Serde}.

Lemma control_bytes_Ok v bytes :
  control_bytes v = Ok bytes -> v = Some bytes /\ len bytes <= MAX_CONTROL_BYTES.
Proof.
  unfold control_bytes. intros H1. apply bind_Ok in H1 as (b & Hb & H1).
  apply ok_or_Ok in Hb. destruct (Z.ltb_spec MAX_CONTROL_BYTES (len b)); [done|].
  by injection H1 as <-.
Qed.

(** What [Frame::encode] returns: a well-formed header of the frame's kind and
    its payload's length. *)
Lemma Frame_encode_Ok f e : Frame_encode f = Ok e ->
  exists h, wf_header h /\ kind h = kind_of f /\ length_ h = len (payload e)
            /\ encoded_header e = Header_encode h.
Proof.
  unfold Frame_encode. intros H1. apply bind_Ok in H1 as ([k bytes] & Hf & H1).
  apply bind_Ok in H1 as (h & Hh & [= <-]).
  apply Header_new_Ok in Hh as [-> Hwf]; [|apply len_nonneg].
  exists (mkHeader k (len bytes)). split_and!; try done.
  destruct f; ok_inv Hf; by simplify_eq/=.
Qed.

Lemma Frame_header_Ok f h : Frame_header f = Ok h ->
  wf_header h /\ kind h = kind_of f
  /\ exists e, Frame_encode f = Ok e /\ length_ h = len (payload e).
Proof.
  unfold Frame_header. intros H1. apply bind_Ok in H1 as (e & He & H1).
  destruct (Frame_encode_Ok f e He) as (h' & Hwf & Hk & Hl & Hb).
  rewrite Hb, Header_encode_parse in H1 by done. injection H1 as <-. eauto.
Qed.

Lemma Frame_header_data bytes h :
  Frame_header (FData bytes) = Ok h -> h = mkHeader KData (len bytes).
Proof.
  intros H1. destruct (Frame_header_Ok _ _ H1) as (_ & Hk & e & He & Hl).
  unfold Frame_encode in He. cbn in He. apply bind_Ok in He as (h' & _ & [= <-]).
  cbn in *. destruct h; cbn in *. by subst.
Qed.

(** What the code relies on of [serde_json] for one control record: the text it
    writes is shallow, and reading it gives the record back. *)
Definition reads_back {T} (from_value : Value -> option T) (to_vec : T -> option (list byte)) (v : T) : Prop :=
  forall bytes, to_vec v = Some bytes ->
    scan bytes 0 0 false false = Ok tt /\ Json.decode parse from_value bytes = Some v.
Definition serde_round (f : Frame) : Prop :=
  match f with
  | FPending v => reads_back pending_from_value pending_to_vec v
  | FOpened v => reads_back opened_from_value opened_to_vec v
  | FTerminal v => reads_back terminal_from_value terminal_to_vec v
  | _ => True
  end.

Lemma decode_control_reads_back {T} (from_value : Value -> option T) to_vec v bytes :
  reads_back from_value to_vec v -> control_bytes (to_vec v) = Ok bytes ->
  decode_control from_value bytes = Ok v.
Proof.
  intros Hr [Hb Hl]%control_bytes_Ok. destruct (Hr bytes Hb) as [Hs Hd].
  unfold decode_control. rewrite (proj2 (Z.ltb_ge _ _)) by done. by rewrite Hs, Hd.
Qed.

(** Every frame that encodes is decoded back from its header and payload. *)
Lemma frame_decodes f e :
  Frame_encode f = Ok e -> serde_round f ->
  exists h, Header_parse (encoded_header e) = Ok h /\ Frame_decode h (payload e) = Ok f.
Proof.
  intros He Hr. destruct (Frame_encode_Ok f e He) as (h & Hwf & Hk & Hl & Hb).
  exists h. split; [by rewrite Hb, Header_encode_parse|].
  unfold Frame_decode. rewrite Hl, Z.eqb_refl, Hk. cbn [negb].
  unfold Frame_encode in He. apply bind_Ok in He as ([k bytes] & Hf & He).
  apply bind_Ok in He as (h' & Hh & [= <-]).
  apply Header_new_Ok in Hh as [-> Hwf']; [|apply len_nonneg].
  destruct f as [v|v|data| |v]; cbn [kind_of payload] in *; try by simplify_eq/=.
  all: apply bind_Ok in Hf as ([] & Hv & Hf); apply bind_Ok in Hf as (bs & Hc & [= <- <-]).
  all: rewrite (decode_control_reads_back _ _ _ _ Hr Hc); cbn [mbind result_bind]; by rewrite Hv.
Qed.

End Facts.
