(* ===== verification/Sequence.v ===== *)
(** * Bidirectional framing state ([aap-types/src/stream/sequence.rs])

    The order in which frames of the two directions are accepted, the data
    limits and the final accounting. *)
From S2P Require Import Prelude Protocol Ids Stream.

(** ** State *)

(** `aap-types/src/stream/sequence.rs:14-18`, `Direction` *)
Record Direction := mkDirection { dir_ended : bool; dir_bytes : Z; dir_frames : Z }.

(** [Direction::default()]. *)
Definition Direction_default : Direction := mkDirection false 0 0.

(** `aap-types/src/stream/sequence.rs:5-11`, `Sequence`; [directions] is the array
    of two, the agent's first. *)
Record Sequence := mkSequence {
  seq_operation : Open;
  pending : bool;
  opened : option Opened;
  directions : Direction * Direction;
  seq_terminal : bool }.

(** `aap-types/src/stream.rs:203-208`, `Sender::index`: the array element of a sender *)
Definition direction (s : Sequence) (sender : Sender) : Direction :=
  match sender with Agent => (directions s).1 | Daemon => (directions s).2 end.

Definition set_direction (s : Sequence) (sender : Sender) (d : Direction) : Sequence :=
  mkSequence (seq_operation s) (pending s) (opened s)
    (match sender with
     | Agent => (d, (directions s).2)
     | Daemon => ((directions s).1, d)
     end) (seq_terminal s).
Definition set_pending (s : Sequence) : Sequence :=
  mkSequence (seq_operation s) true (opened s) (directions s) (seq_terminal s).
Definition set_opened (s : Sequence) (o : Opened) : Sequence :=
  mkSequence (seq_operation s) (pending s) (Some o) (directions s) (seq_terminal s).
Definition set_terminal (s : Sequence) : Sequence :=
  mkSequence (seq_operation s) (pending s) (opened s) (directions s) true.

(** ** Operations *)

(** `aap-types/src/stream/sequence.rs:127-129`, `Sequence::is_opened` *)
Definition is_opened (s : Sequence) : bool := bool_decide (is_Some (opened s)).
(** `aap-types/src/stream/sequence.rs:130-132`, `Sequence::is_terminal` *)
Definition is_terminal (s : Sequence) : bool := seq_terminal s.
(** `aap-types/src/stream/sequence.rs:133-135`, `Sequence::ended` *)
Definition ended (s : Sequence) (sender : Sender) : bool := dir_ended (direction s sender).

Section Sequence.
Context `{Base64} `{Serde}.

(** `aap-types/src/stream/sequence.rs:21-30`, `Sequence::new` *)
Definition Sequence_new (operation : Open) : Result Sequence :=
  _ ← Open_validate operation;
  Ok (mkSequence operation false None (Direction_default, Direction_default) false).

(** `aap-types/src/stream/sequence.rs:33-67`, `Sequence::check_header` *)
Definition check_header (s : Sequence) (sender : Sender) (header : Header) : Result unit :=
  if seq_terminal s
     || (bool_decide (sender = Agent)
         && negb (bool_decide (kind header = KData) || bool_decide (kind header = KSendEnd)))
  then fail RequestInvalid
  else match kind header with
    | KPending => if pending s || is_opened s then fail RequestInvalid else Ok tt
    | KOpened => if is_opened s then fail RequestInvalid else Ok tt
    | KData | KSendEnd =>
        opened ← ok_or (opened s) (Error_new RequestInvalid);
        let direction := direction s sender in
        if dir_ended direction then fail RequestInvalid
        else if bool_decide (kind header = KData) then
          let limit := if bool_decide (sender = Agent) then send_limit opened
                       else receive_limit opened in
          if (max_data_bytes opened <? length_ header)
             || (MAX_DATA_FRAMES <=? dir_frames direction)
             || (saturating_sub limit (dir_bytes direction) <? length_ header)
          then fail LimitExceeded else Ok tt
        else Ok tt
    | KTerminal => Ok tt
    end.

(** `aap-types/src/stream/sequence.rs:103-126`, `Sequence::check_terminal` *)
Definition check_terminal (s : Sequence) (value : Terminal) : Result unit :=
  let sent := direction s Agent in
  let received := direction s Daemon in
  if negb (bool_decide (status_request_id (operation value)
                        = open_request_id (seq_operation s)))
     || (dir_bytes sent <? sent_bytes value)
     || (dir_bytes received <? received_bytes value)
  then fail RequestInvalid
  else if bool_decide (state (operation value) = Completed) then
    if negb (is_opened s)
       || negb (dir_ended sent)
       || negb (dir_ended received)
       || negb (sent_bytes value =? dir_bytes sent)
       || negb (received_bytes value =? dir_bytes received)
    then fail RequestInvalid else Ok tt
  else if is_opened s && negb (bool_decide (state (operation value) = OpOutcomeUnknown))
  then fail RequestInvalid
  else Ok tt.

(** `aap-types/src/stream/sequence.rs:71-101`, `Sequence::accept`: the result and
    the state after the call *)
Definition accept (s : Sequence) (sender : Sender) (frame : Frame) : Result unit * Sequence :=
  match Frame_header frame with
  | Err e => (Err e, s)
  | Ok header =>
      match check_header s sender header with
      | Err e => (Err e, s)
      | Ok _ =>
          match frame with
          | FPending value =>
              if negb (bool_decide (pending_request_id value
                                    = open_request_id (seq_operation s)))
              then (fail RequestInvalid, s)
              else (Ok tt, set_pending s)
          | FOpened value =>
              if negb (bool_decide (opened_request_id value
                                    = open_request_id (seq_operation s)))
                 || negb (bool_decide (opened_resource value
                                       = open_resource (seq_operation s)))
              then (fail RequestInvalid, s)
              else (Ok tt, set_opened s value)
          | FData bytes =>
              let d := direction s sender in
              (Ok tt, set_direction s sender
                        (mkDirection (dir_ended d) (dir_bytes d + len bytes)
                                     (dir_frames d + 1)))
          | FSendEnd =>
              let d := direction s sender in
              (Ok tt, set_direction s sender
                        (mkDirection true (dir_bytes d) (dir_frames d)))
          | FTerminal value =>
              match check_terminal s value with
              | Err e => (Err e, s)
              | Ok _ => (Ok tt, set_terminal s)
              end
          end
      end
  end.

(** One accepted frame, as a step relation. *)
Inductive step : Sequence -> Sender * Frame -> Sequence -> Prop :=
  | step_accept s sender frame s' :
      accept s sender frame = (Ok tt, s') -> step s (sender, frame) s'.

(** The states a sequence reaches by accepting frames, with the frames. *)
Inductive reach (operation : Open) : list (Sender * Frame) -> Sequence -> Prop :=
  | reach_new s : Sequence_new operation = Ok s -> reach operation [] s
  | reach_step trace s event s' :
      reach operation trace s -> step s event s' -> reach operation (trace ++ [event]) s'.
End Sequence.

(** ** Abstract specification: the protocol as a predicate on the trace of
    accepted frames *)

Definition event : Type := Sender * Frame.

Definition is_pending_frame (ev : event) : bool :=
  match ev.2 with FPending _ => true | _ => false end.
Definition is_terminal_frame (ev : event) : bool :=
  match ev.2 with FTerminal _ => true | _ => false end.
Definition is_end (d : Sender) (ev : event) : bool :=
  bool_decide (ev.1 = d) && match ev.2 with FSendEnd => true | _ => false end.
Definition data_of (d : Sender) (ev : event) : list (list byte) :=
  match ev.2 with FData bytes => if decide (ev.1 = d) then [bytes] else [] | _ => [] end.

(** The opening metadata of a trace: its last OPENED frame. *)
Fixpoint opening (trace : list event) : option Opened :=
  match trace with
  | [] => None
  | ev :: rest =>
      match opening rest with
      | Some o => Some o
      | None => match ev.2 with FOpened o => Some o | _ => None end
      end
  end.

(** The payloads one side sent, their total length, and whether it ended. *)
Definition payloads (d : Sender) (trace : list event) : list (list byte) :=
  trace ≫= data_of d.
Definition data_bytes (d : Sender) (trace : list event) : Z := len (mjoin (payloads d trace)).
Definition data_frames (d : Sender) (trace : list event) : Z := len (payloads d trace).
Definition half_closed (d : Sender) (trace : list event) : bool := existsb (is_end d) trace.
Definition terminated (trace : list event) : bool := existsb is_terminal_frame trace.

Definition limit_of (d : Sender) (o : Opened) : Z :=
  match d with Agent => send_limit o | Daemon => receive_limit o end.

(** What the protocol lets a side send after a trace. *)
Definition admissible (op : Open) (trace : list event) (ev : event) : Prop :=
  let '(sender, frame) := ev in
  terminated trace = false /\
  match frame with
  | FPending p =>
      sender = Daemon /\ existsb is_pending_frame trace = false /\ opening trace = None
      /\ pending_request_id p = open_request_id op
  | FOpened o =>
      sender = Daemon /\ opening trace = None
      /\ opened_request_id o = open_request_id op /\ opened_resource o = open_resource op
  | FData bytes =>
      exists o, opening trace = Some o /\ half_closed sender trace = false
        /\ len bytes <= max_data_bytes o
        /\ data_frames sender trace < MAX_DATA_FRAMES
        /\ data_bytes sender trace + len bytes <= limit_of sender o
  | FSendEnd => is_Some (opening trace) /\ half_closed sender trace = false
  | FTerminal t =>
      sender = Daemon
      /\ status_request_id (operation t) = open_request_id op
      /\ sent_bytes t <= data_bytes Agent trace
      /\ received_bytes t <= data_bytes Daemon trace
      /\ (state (operation t) = Completed ->
          is_Some (opening trace) /\ half_closed Agent trace = true
          /\ half_closed Daemon trace = true
          /\ sent_bytes t = data_bytes Agent trace
          /\ received_bytes t = data_bytes Daemon trace)
      /\ (state (operation t) <> Completed -> is_Some (opening trace) ->
          state (operation t) = OpOutcomeUnknown)
  end.

(** The state a trace leads to. *)
Definition abstract (op : Open) (trace : list event) : Sequence :=
  let dir d := mkDirection (half_closed d trace) (data_bytes d trace) (data_frames d trace) in
  mkSequence op (existsb is_pending_frame trace) (opening trace) (dir Agent, dir Daemon)
    (terminated trace).

(** ** The traces of the abstract specification *)

Lemma opening_app t1 t2 :
  opening (t1 ++ t2) = match opening t2 with Some o => Some o | None => opening t1 end.
Proof.
  induction t1 as [|ev t1 IH]; cbn; [by destruct (opening t2)|].
  rewrite IH. by destruct (opening t2).
Qed.
Lemma payloads_snoc d trace ev : payloads d (trace ++ [ev]) = payloads d trace ++ data_of d ev.
Proof. unfold payloads. rewrite bind_app. cbn. by rewrite app_nil_r. Qed.
Lemma data_bytes_snoc d trace ev :
  data_bytes d (trace ++ [ev]) = data_bytes d trace + len (mjoin (data_of d ev)).
Proof. unfold data_bytes. by rewrite payloads_snoc, join_app, len_app. Qed.
Lemma data_frames_snoc d trace ev :
  data_frames d (trace ++ [ev]) = data_frames d trace + len (data_of d ev).
Proof. unfold data_frames. by rewrite payloads_snoc, len_app. Qed.
Lemma half_closed_snoc d trace ev :
  half_closed d (trace ++ [ev]) = half_closed d trace || is_end d ev.
Proof. unfold half_closed. rewrite existsb_app. cbn. by rewrite orb_false_r. Qed.
Lemma terminated_snoc trace ev :
  terminated (trace ++ [ev]) = terminated trace || is_terminal_frame ev.
Proof. unfold terminated. rewrite existsb_app. cbn. by rewrite orb_false_r. Qed.
Create Rewrite HintDb trace.
#[export] Hint Rewrite opening_app data_bytes_snoc data_frames_snoc half_closed_snoc
  terminated_snoc @existsb_app @orb_false_r @orb_true_r @Z.add_0_r : trace.

Section Refinement.
Context `{Base64} `{Serde}.

Lemma accept_err s sender f e s' : accept s sender f = (Err e, s') -> s' = s.
Proof.
  unfold accept. destruct (Frame_header f) as [h|]; [|naive_solver].
  destruct (check_header s sender h); [|naive_solver].
  destruct f; repeat case_match; naive_solver.
Qed.

(** The header check, read on the trace. *)
Definition header_admissible (trace : list event) (sender : Sender) (h : Header) : Prop :=
  terminated trace = false /\
  match kind h with
  | KPending =>
      sender = Daemon /\ existsb is_pending_frame trace = false /\ opening trace = None
  | KOpened => sender = Daemon /\ opening trace = None
  | KData =>
      exists o, opening trace = Some o /\ half_closed sender trace = false
        /\ length_ h <= max_data_bytes o
        /\ data_frames sender trace < MAX_DATA_FRAMES
        /\ length_ h <= saturating_sub (limit_of sender o) (data_bytes sender trace)
  | KSendEnd => is_Some (opening trace) /\ half_closed sender trace = false
  | KTerminal => sender = Daemon
  end.

Lemma direction_abstract op trace d :
  direction (abstract op trace) d
  = mkDirection (half_closed d trace) (data_bytes d trace) (data_frames d trace).
Proof. by destruct d. Qed.

Lemma is_opened_abstract op trace : is_opened (abstract op trace) = false <-> opening trace = None.
Proof. unfold is_opened. cbn. rewrite bool_decide_eq_false. destruct (opening trace); naive_solver. Qed.
Lemma is_opened_abstract' op trace : is_opened (abstract op trace) = true <-> is_Some (opening trace).
Proof. unfold is_opened. cbn. by rewrite bool_decide_eq_true. Qed.

Lemma check_header_abstract op trace sender h :
  check_header (abstract op trace) sender h = Ok tt <-> header_admissible trace sender h.
Proof.
  unfold check_header, header_admissible. rewrite direction_abstract. cbn [seq_terminal abstract].
  destruct (terminated trace); cbn [orb]; [naive_solver|].
  destruct (kind h); cbn [dir_ended dir_bytes dir_frames pending opened abstract].
  - destruct sender; cbn; [naive_solver|].
    destruct (existsb is_pending_frame trace); cbn; [naive_solver|].
    destruct (is_opened _) eqn:E; [apply is_opened_abstract' in E as [? E]|apply is_opened_abstract in E];
      rewrite E; naive_solver.
  - destruct sender; cbn; [naive_solver|].
    destruct (is_opened _) eqn:E; [apply is_opened_abstract' in E as [? E]|apply is_opened_abstract in E];
      rewrite E; naive_solver.
  - rewrite andb_false_r. destruct (opening trace) as [o|]; cbn; [|naive_solver].
    destruct (half_closed sender trace); cbn; [naive_solver|].
    assert ((if bool_decide (sender = Agent) then send_limit o else receive_limit o)
            = limit_of sender o) as -> by by destruct sender.
    destruct (Z.ltb_spec (max_data_bytes o) (length_ h)),
      (Z.leb_spec MAX_DATA_FRAMES (data_frames sender trace)),
      (Z.ltb_spec (saturating_sub (limit_of sender o) (data_bytes sender trace)) (length_ h));
      cbn; (split; [try discriminate|intros (_ & o' & [= <-] & ?); (lia || done)]).
    intros _. split; [done|]. exists o. split_and!; (done || lia).
  - rewrite andb_false_r. destruct (opening trace) as [o|]; cbn; [|naive_solver].
    destruct (half_closed sender trace); cbn; naive_solver.
  - destruct sender; cbn; naive_solver.
Qed.

(** The accounting check of the final frame, read on the trace. *)
Definition terminal_admissible (op : Open) (trace : list event) (t : Terminal) : Prop :=
  status_request_id (operation t) = open_request_id op
  /\ sent_bytes t <= data_bytes Agent trace
  /\ received_bytes t <= data_bytes Daemon trace
  /\ (state (operation t) = Completed ->
      is_Some (opening trace) /\ half_closed Agent trace = true
      /\ half_closed Daemon trace = true
      /\ sent_bytes t = data_bytes Agent trace
      /\ received_bytes t = data_bytes Daemon trace)
  /\ (state (operation t) <> Completed -> is_Some (opening trace) ->
      state (operation t) = OpOutcomeUnknown).

Lemma check_terminal_abstract op trace t :
  check_terminal (abstract op trace) t = Ok tt <-> terminal_admissible op trace t.
Proof.
  unfold check_terminal, terminal_admissible. rewrite !direction_abstract.
  cbn [seq_operation dir_bytes dir_ended abstract].
  destruct (decide (status_request_id (operation t) = open_request_id op)) as [Hid|Hid];
    [rewrite (bool_decide_true _ Hid)|rewrite (bool_decide_false _ Hid); cbn; split; [done|tauto]].
  destruct (Z.ltb_spec (data_bytes Agent trace) (sent_bytes t)),
    (Z.ltb_spec (data_bytes Daemon trace) (received_bytes t)); cbn [negb orb];
    try (split; [done|intros (_ & ? & ? & _); lia]).
  destruct (decide (state (operation t) = Completed)) as [Hc|Hc];
    [rewrite (bool_decide_true _ Hc)|rewrite (bool_decide_false _ Hc)].
  - destruct (is_opened (abstract op trace)) eqn:Eo;
      [apply is_opened_abstract' in Eo|apply is_opened_abstract in Eo; rewrite Eo]; cbn [negb orb];
      [|split; [done|intros (_ & _ & _ & [[? ?] _]%(fun f => f Hc) & _); done]].
    destruct (half_closed Agent trace), (half_closed Daemon trace); cbn [negb orb];
      try (split; [done|intros (_ & _ & _ & (_ & ? & ? & _)%(fun f => f Hc) & _); done]).
    destruct (Z.eqb_spec (sent_bytes t) (data_bytes Agent trace)),
      (Z.eqb_spec (received_bytes t) (data_bytes Daemon trace)); cbn;
      (split; [try discriminate|intros (_ & _ & _ & (_ & _ & _ & ? & ?)%(fun f => f Hc) & _); done]).
    intros _. split_and!; done.
  - destruct (is_opened (abstract op trace)) eqn:Eo;
      [apply is_opened_abstract' in Eo|apply is_opened_abstract in Eo; rewrite Eo]; cbn [andb].
    + case_bool_decide as Hu; cbn; (split; [try discriminate|try done]).
      * intros _. split_and!; done.
      * intros (_ & _ & _ & _ & Hx). by specialize (Hx Hc Eo).
    + split; [|done]. intros _. by split_and!.
Qed.

(** Data stays within the opening limits; before OPENED there is none. *)
Definition within_limits (trace : list event) : Prop :=
  forall d, match opening trace with
            | Some o => data_bytes d trace <= Z.max 0 (limit_of d o)
            | None => data_bytes d trace = 0
            end.

Lemma data_bytes_nonneg d trace : 0 <= data_bytes d trace.
Proof. apply len_nonneg. Qed.

Lemma data_of_same d bytes : data_of d (d, FData bytes) = [bytes].
Proof. unfold data_of. cbn. by rewrite decide_True. Qed.
Lemma data_of_other d d' bytes : d <> d' -> data_of d (d', FData bytes) = [].
Proof. intros. unfold data_of. cbn. by rewrite decide_False. Qed.

Ltac tidy_ends :=
  unfold is_end; cbn [fst snd];
  rewrite ?andb_false_r, ?andb_true_r, ?orb_false_r, ?orb_true_r, ?app_nil_r, ?len_nil, ?Z.add_0_r.

(** The header check and the frame's own check, read on the trace. *)
Lemma accept_spec op trace sender f s' :
  accept (abstract op trace) sender f = (Ok tt, s') <->
  exists h, Frame_header f = Ok h /\ header_admissible trace sender h
    /\ match f with
       | FPending p => pending_request_id p = open_request_id op
       | FOpened o => opened_request_id o = open_request_id op
                      /\ opened_resource o = open_resource op
       | FTerminal t => terminal_admissible op trace t
       | _ => True
       end
    /\ s' = abstract op (trace ++ [(sender, f)]).
Proof.
  unfold accept. destruct (Frame_header f) as [h|] eqn:Hh; [|split; [done|by intros (? & ? & _)]].
  setoid_rewrite <-(check_header_abstract op).
  destruct (check_header _ _ h) as [[]|] eqn:Hc; [|split; [done|intros (? & [= <-] & ? & _); congruence]].
  assert (kind h = kind_of f) as Hk by (by apply Frame_header_Ok in Hh as (_ & ? & _)).
  assert (match f with FOpened _ => opening trace = None | _ => True end) as Ho.
  { destruct f; try done. apply (check_header_abstract op) in Hc as [_ Hc].
    rewrite Hk in Hc. cbn in Hc. tauto. }
  set (post := abstract op (trace ++ [(sender, f)])).
  transitivity (match f with
       | FPending p => pending_request_id p = open_request_id op
       | FOpened o => opened_request_id o = open_request_id op
                      /\ opened_resource o = open_resource op
       | FTerminal t => terminal_admissible op trace t
       | _ => True
       end /\ s' = post); [|split; [intros []; exists h; tauto|intros (? & [= <-] & ?); tauto]].
  subst post. unfold abstract, set_direction, direction, set_pending, set_opened, set_terminal.
  destruct f as [p|o|bytes| |t]; autorewrite with trace;
    cbn [existsb opening is_pending_frame is_terminal_frame snd fst];
    autorewrite with trace.
  - cbn. tidy_ends. case_bool_decide; cbn; naive_solver.
  - cbn. tidy_ends. rewrite Ho. do 2 case_bool_decide; cbn; naive_solver.
  - destruct sender; rewrite data_of_same, data_of_other by done; cbn; tidy_ends; naive_solver.
  - destruct sender; cbn; tidy_ends; naive_solver.
  - rewrite <-check_terminal_abstract. cbn. tidy_ends.
    destruct (check_terminal _ t) as [[]|] eqn:Et; unfold abstract in Et; cbn in Et |- *;
      rewrite ?Et; naive_solver.
Qed.

Lemma within_limits_snoc trace sender f h op :
  Frame_header f = Ok h -> header_admissible trace sender h ->
  admissible op trace (sender, f) \/ (match f with FData _ => False | _ => True end) ->
  within_limits trace -> within_limits (trace ++ [(sender, f)]).
Proof.
  intros Hf Hh Hadm Hlim d. specialize (Hlim d).
  apply Frame_header_Ok in Hf as (_ & Hk & _). destruct Hh as [_ Hh]. rewrite Hk in Hh.
  destruct f as [p|o|bytes| |t]; cbn [kind_of] in Hh; autorewrite with trace;
    cbn [opening snd]; try (cbn; rewrite ?len_nil, ?Z.add_0_r; done).
  - destruct Hh as [_ Ho]. rewrite Ho in Hlim. rewrite Hlim. cbn. rewrite ?len_nil. lia.
  - destruct Hadm as [(_ & o & Ho & _ & _ & _ & Hb)|[]]. rewrite Ho in Hlim |- *.
    destruct (decide (d = sender)) as [->|Hd].
    + rewrite data_of_same. cbn. rewrite app_nil_r. lia.
    + rewrite data_of_other by done. cbn. rewrite len_nil. lia.
Qed.

(** Under the limits, the check of one header is the protocol's condition. *)
Lemma header_frame_admissible op trace sender f h :
  within_limits trace -> Frame_header f = Ok h ->
  (header_admissible trace sender h
   /\ match f with
      | FPending p => pending_request_id p = open_request_id op
      | FOpened o => opened_request_id o = open_request_id op
                     /\ opened_resource o = open_resource op
      | FTerminal t => terminal_admissible op trace t
      | _ => True
      end) <-> admissible op trace (sender, f).
Proof.
  intros Hlim Hf. unfold header_admissible, admissible, terminal_admissible.
  pose proof (Frame_header_Ok _ _ Hf) as (Hwf & Hk & _). rewrite Hk.
  destruct f as [p|o|bytes| |t]; cbn [kind_of]; try tauto.
  apply Frame_header_data in Hf as ->. cbn [length_].
  destruct Hwf as [_ Hz]; cbn in Hz. pose proof (len_nonneg bytes).
  assert (len bytes <> 0) by (intros Hb; apply Hz in Hb; done).
  unfold saturating_sub. pose proof (data_bytes_nonneg sender trace).
  split.
  - intros [(Ht & o & ? & ? & ? & ? & ?) _]. split; [done|]. exists o. split_and!; (done || lia).
  - intros (Ht & o & ? & ? & ? & ? & ?). split; [|done]. split; [done|].
    exists o. split_and!; (done || lia).
Qed.

Lemma reach_limits op trace s :
  reach op trace s -> s = abstract op trace /\ within_limits trace.
Proof.
  induction 1 as [s Hs|trace s [sender f] s' _ [-> Hlim] Hstep].
  - apply bind_Ok in Hs as (? & _ & [= <-]). split; [done|]. intros d. done.
  - inversion Hstep as [? ? ? ? Ha]; subst. apply accept_spec in Ha as (h & Hf & Hh & Hx & ->).
    split; [done|]. apply (within_limits_snoc trace sender f h op); try done.
    left. apply (header_frame_admissible op trace sender f h); done.
Qed.

Lemma reach_refines op trace s sender f :
  reach op trace s ->
  s = abstract op trace /\
  ((exists s', step s (sender, f) s') <->
   is_ok (Frame_header f) = true /\ admissible op trace (sender, f)).
Proof.
  intros [-> Hlim]%reach_limits. split; [done|]. split.
  - intros [s' Hstep]. inversion Hstep as [? ? ? ? Ha]; subst.
    apply accept_spec in Ha as (h & Hf & Hh & Hx & _). rewrite Hf. split; [done|].
    by apply (header_frame_admissible op trace sender f h).
  - intros [Hf Ha]. destruct (Frame_header f) as [h|] eqn:Hf'; [|done].
    apply (header_frame_admissible op trace sender f h) in Ha as [Hh Hx]; [|done..].
    eexists. constructor. apply accept_spec. eauto.
Qed.

(** C38: the framing state implements the protocol: in a state reached by a
    trace, a frame is accepted exactly when it can be encoded and the protocol
    allows it after that trace, and the state always is the abstraction of the
    trace. *)
Theorem sequence_refines op trace s sender f :
  reach op trace s ->
  s = abstract op trace /\
  ((exists s', step s (sender, f) s') <->
   is_ok (Frame_header f) = true /\ admissible op trace (sender, f)).
Proof. apply reach_refines. Qed.

(** The opening record of a reached trace passed its validation. *)
Lemma reach_opening op trace s o : reach op trace s -> opening trace = Some o ->
  max_data_bytes o <= MAX_DATA_BYTES /\ forall d, limit_of d o <= MAX_DIRECTION_BYTES.
Proof.
  intros Hr. revert o. induction Hr as [|trace s [sender f] s' Hr IH Hstep]; intros o; [done|].
  rewrite opening_app. cbn. destruct f; try apply IH. intros [= ->].
  inversion Hstep as [? ? ? ? Ha]; subst. unfold accept in Ha.
  destruct (Frame_header (FOpened o)) as [h|] eqn:Hf; [|done].
  unfold Frame_header in Hf. apply bind_Ok in Hf as (e & Hf & _).
  unfold Frame_encode in Hf. apply bind_Ok in Hf as (kp & Hf & _).
  apply bind_Ok in Hf as (? & Hv & _). apply bind_Ok in Hv as (? & _ & Hv).
  destruct (_ || _) eqn:Hb in Hv; [done|]. bool_hyps. split; [done|]. by intros [].
Qed.

(** in every reached state each direction's byte count is the length of
    what it sent, stays within its announced limit and the 32 MiB bound, so the
    [u64] counter cannot overflow; a side sends no more than [MAX_DATA_FRAMES]
    data frames, none before OPENED. *)
Lemma sequence_bounds op trace s d :
  reach op trace s ->
  dir_bytes (direction s d) = data_bytes d trace
  /\ dir_frames (direction s d) = data_frames d trace
  /\ 0 <= dir_bytes (direction s d) <= MAX_DIRECTION_BYTES
  /\ 0 <= dir_frames (direction s d) <= MAX_DATA_FRAMES
  /\ match opened s with
     | Some o => dir_bytes (direction s d) <= Z.max 0 (limit_of d o)
     | None => dir_bytes (direction s d) = 0
     end.
Proof.
  intros Hr. pose proof (reach_limits _ _ _ Hr) as [Hs Hlim]. specialize (Hlim d).
  pose proof (data_bytes_nonneg d trace).
  assert (0 <= data_frames d trace <= MAX_DATA_FRAMES) as Hframes.
  { clear -Hr. induction Hr as [|trace s [sender f] s' Hr IH Hstep]; [done|].
    pose proof (reach_limits _ _ _ Hr) as [-> Hlim].
    inversion Hstep as [? ? ? ? Ha]; subst. apply accept_spec in Ha as (h & Hf & Hh & Hx & _).
    assert (admissible op trace (sender, f)) as Hadm
      by by apply (header_frame_admissible op trace sender f h).
    rewrite data_frames_snoc. destruct f as [p|o|bytes| |t]; try (change (len (data_of d _)) with 0; lia).
    destruct Hadm as (_ & o & _ & _ & _ & Hlt & _).
    destruct (decide (d = sender)) as [->|Hd];
      [rewrite data_of_same; change (len [bytes]) with 1
      |rewrite data_of_other by done; change (len (A:=list byte) []) with 0]; lia. }
  rewrite Hs, direction_abstract. cbn. split_and!; try (done || lia).
  destruct (opening trace) as [o|] eqn:Ho; [|unfold MAX_DIRECTION_BYTES; lia].
  pose proof (proj2 (reach_opening _ _ _ _ Hr Ho) d). unfold MAX_DIRECTION_BYTES in *. lia.
Qed.

(** Nothing follows the terminal frame; and a terminal frame that says
    [Completed] is sent only after OPENED and both half-closes, with exact byte
    counts, while after OPENED every other outcome is [OutcomeUnknown]. *)
Lemma terminal_is_final op trace s sender t rest :
  reach op (trace ++ (sender, FTerminal t) :: rest) s ->
  rest = [] /\ sender = Daemon /\ seq_terminal s = true
  /\ (state (operation t) = Completed <-> cause t = OrderlyEnd)
  /\ (state (operation t) = Completed ->
      half_closed Agent trace = true /\ half_closed Daemon trace = true
      /\ sent_bytes t = data_bytes Agent trace /\ received_bytes t = data_bytes Daemon trace)
  /\ (is_Some (opening trace) -> state (operation t) = Completed \/ state (operation t) = OpOutcomeUnknown).
Proof.
  intros Hr. destruct rest as [|ev rest _] using rev_ind.
  2: { exfalso. rewrite app_comm_cons, app_assoc in Hr. inversion Hr as [|t0 s0 ev0 s' Hr0 Hstep Ht].
       { by destruct trace. }
       apply app_inj_tail in Ht as [-> ->]. destruct ev as [d f]. subst s'.
       assert (exists s', step s0 (d, f) s') as Hex by eauto.
       apply (reach_refines _ _ _ _ _ Hr0) in Hex as [_ Hadm]. destruct Hadm as [Hn _].
       unfold terminated in Hn. rewrite existsb_app in Hn. cbn in Hn.
       by rewrite orb_true_r in Hn. }
  inversion Hr as [|t0 s0 ev0 s' Hr0 Hstep Ht]; [by destruct trace|].
  apply app_inj_tail in Ht as [-> ->]. subst s'.
  pose proof (reach_limits _ _ _ Hr) as [-> _].
  assert (exists s', step s0 (sender, FTerminal t) s') as Hex by eauto.
  apply (reach_refines _ _ _ _ _ Hr0) in Hex as [Hf (_ & Hd & _ & _ & _ & Hc & Hu)].
  split_and!; [done|done| | | |].
  - cbn. unfold terminated. rewrite existsb_app. cbn. apply orb_true_r.
  - unfold Frame_header in Hf. destruct (Frame_encode (FTerminal t)) as [e|] eqn:He; [|done].
    unfold Frame_encode in He. apply bind_Ok in He as (kp & He & _).
    apply bind_Ok in He as (? & Hv & _). unfold Terminal_validate in Hv.
    destruct (_ || _) eqn:Hb in Hv; [done|]. bool_hyps. match goal with Hb : Bool.eqb _ _ = true |- _ =>
      apply Bool.eqb_prop in Hb; rename Hb into Heq end.
    do 2 case_bool_decide; naive_solver.
  - intros Hs%Hc. tauto.
  - intros Ho. destruct (decide (state (operation t) = Completed)); [by left|right; auto].
Qed.
End Refinement.
