(* ===== verification/Decoder.v ===== *)
(** * Incremental frame decoder ([aap-types/src/stream/decoder.rs])

    One decoder per direction: a five-byte header prefix, then one bounded
    payload. The owners ([aap-client/src/stream.rs], [aap-http/src/stream/framed.rs])
    call [next] on whatever a socket read returned. *)
From S2P Require Import Prelude Protocol Ids Stream Sequence.

(** ** State *)

(** `aap-types/src/stream/decoder.rs:8-14`, `Decoder`; [prefix] is the array of five *)
Record Decoder := mkDecoder {
  prefix : list byte;
  prefix_len : nat;
  dec_header : option Header;
  dec_payload : list byte;
  failed : bool }.

(** [Decoder::default()]. *)
Definition Decoder_default : Decoder := mkDecoder (replicate 5 "000"%char) 0 None [] false.

(** Result, decoder, unread input and sequence after a call. *)
Definition outcome : Type := Result (option Frame) * Decoder * list byte * Sequence.

(** ** Operations *)

Section Decoder.
Context `{Base64} `{Serde}.

(** `aap-types/src/stream/decoder.rs:62-76`, `Decoder::decode_next` from the
    point where the header is known *)
Definition decode_payload (d : Decoder) (header : Header) (input : list byte)
    (s : Sequence) (sender : Sender) : outcome :=
  match check_header s sender header with
  | Err e => (Err e, d, input, s)
  | Ok _ =>
      let take_ := Z.to_nat (Z.min (length_ header - len (dec_payload d)) (len input)) in
      let payload := dec_payload d ++ take take_ input in
      let input := drop take_ input in
      if negb (len payload =? length_ header) then
        (Ok None, mkDecoder (prefix d) (prefix_len d) (dec_header d) payload (failed d), input, s)
      else
        let d := mkDecoder (prefix d) (prefix_len d) (dec_header d) [] (failed d) in
        match Frame_decode header payload with
        | Err e => (Err e, d, input, s)
        | Ok frame =>
            match accept s sender frame with
            | (Err e, s) => (Err e, d, input, s)
            | (Ok _, s) =>
                (Ok (Some frame), mkDecoder (prefix d) 0 None [] (failed d), input, s)
            end
        end
  end.

(** `aap-types/src/stream/decoder.rs:37-76`, `Decoder::decode_next` *)
Definition decode_next (d : Decoder) (input : list byte) (s : Sequence) (sender : Sender) : outcome :=
  if negb (bool_decide (input = []))
     && (is_terminal s || (bool_decide (sender = Agent) && negb (is_opened s)))
  then (fail RequestInvalid, d, input, s)
  else match dec_header d with
    | None =>
        let take_ := Nat.min (5 - prefix_len d) (length input) in
        let d := mkDecoder
                   (take (prefix_len d) (prefix d) ++ take take_ input
                    ++ drop (prefix_len d + take_) (prefix d))
                   (prefix_len d + take_) None (dec_payload d) (failed d) in
        let input := drop take_ input in
        if negb (Nat.eqb (prefix_len d) 5) then (Ok None, d, input, s)
        else match Header_parse (prefix d) with
          | Err e => (Err e, d, input, s)
          | Ok header =>
              match check_header s sender header with
              | Err e => (Err e, d, input, s)
              | Ok _ =>
                  decode_payload
                    (mkDecoder (prefix d) (prefix_len d) (Some header) [] (failed d))
                    header input s sender
              end
          end
    | Some header => decode_payload d header input s sender
    end.

(** `aap-types/src/stream/decoder.rs:20-35`, `Decoder::next` *)
Definition next (d : Decoder) (input : list byte) (s : Sequence) (sender : Sender) : outcome :=
  if failed d then (fail RequestInvalid, d, input, s)
  else
    let '(result, d, input, s) := decode_next d input s sender in
    match result with
    | Err e => (Err e, mkDecoder (prefix d) (prefix_len d) (dec_header d) [] true, input, s)
    | Ok frame => (Ok frame, d, input, s)
    end.

(** `aap-types/src/stream/decoder.rs:80-85`, `Decoder::finish` *)
Definition finish (d : Decoder) (s : Sequence) : Result unit :=
  if failed d || negb (Nat.eqb (prefix_len d) 0) || bool_decide (is_Some (dec_header d))
     || negb (is_terminal s)
  then fail ResultUnavailable else Ok tt.

(** `aap-client/src/stream.rs:39-56`, `Reader::next`: the loop over one buffer that
    a read returned, until it is used up. [fuel] bounds the number of frames. *)
Fixpoint drain (fuel : nat) (d : Decoder) (input : list byte) (s : Sequence) (sender : Sender) :
  list Frame * option Error * Decoder * Sequence :=
  match fuel with
  | O => ([], None, d, s)
  | S fuel =>
      if bool_decide (input = []) then ([], None, d, s)
      else match next d input s sender with
        | (Err e, d, _, s) => ([], Some e, d, s)
        | (Ok None, d, _, s) => ([], None, d, s)
        | (Ok (Some frame), d, input, s) =>
            let '(frames, error, d, s) := drain fuel d input s sender in
            (frame :: frames, error, d, s)
        end
  end.

(** Successive reads: the first failure stops the stream. *)
Fixpoint drain_chunks (d : Decoder) (chunks : list (list byte)) (s : Sequence) (sender : Sender) :
  list Frame * option Error * Decoder * Sequence :=
  match chunks with
  | [] => ([], None, d, s)
  | chunk :: rest =>
      match drain (S (length chunk)) d chunk s sender with
      | (frames, Some e, d, s) => (frames, Some e, d, s)
      | (frames, None, d, s) =>
          let '(more, error, d, s) := drain_chunks d rest s sender in
          (frames ++ more, error, d, s)
      end
  end.
End Decoder.

(** ** Well-formed decoders *)

(** The decoder between two calls. *)
Record wf (d : Decoder) : Prop := {
  wf_prefix : length (prefix d) = 5%nat;
  wf_len : match dec_header d with
           | None => (prefix_len d < 5)%nat
           | Some h => prefix_len d = 5%nat /\ wf_header h /\ len (dec_payload d) < length_ h
           end }.

Section Facts.
Context `{Base64} `{Serde}.

Lemma wf_default : wf Decoder_default.
Proof. split; cbn; [done|lia]. Qed.

(** The outcome with more unread input behind it. *)
Definition extend (o : outcome) (b : list byte) : outcome :=
  let '(r, d, i, s) := o in (r, d, i ++ b, s).
Definition advance (d : Decoder) (a : list byte) : Decoder :=
  mkDecoder (prefix d) (prefix_len d) (dec_header d) (dec_payload d ++ a) (failed d).

Lemma decode_payload_more d h a b s sender :
  len (dec_payload d) + len a < length_ h ->
  check_header s sender h = Ok tt ->
  decode_payload d h a s sender = (Ok None, advance d a, [], s)
  /\ decode_payload d h (a ++ b) s sender = decode_payload (advance d a) h b s sender.
Proof.
  intros Hl Hc. unfold decode_payload. rewrite Hc. cbn [dec_payload advance prefix prefix_len dec_header failed].
  rewrite !len_app. unfold len in *. split.
  - rewrite take_ge by lia. rewrite drop_ge by lia.
    rewrite (proj2 (Z.eqb_neq _ _)); [done|lia].
  - replace (Z.to_nat (Z.min (length_ h - (Z.of_nat (length (dec_payload d)) + Z.of_nat (length a)))
              (Z.of_nat (length b))))
      with (Z.to_nat (Z.min (length_ h - Z.of_nat (length (dec_payload d)))
              (Z.of_nat (length a) + Z.of_nat (length b))) - length a)%nat by lia.
    set (n := Z.to_nat (Z.min (length_ h - Z.of_nat (length (dec_payload d)))
              (Z.of_nat (length a) + Z.of_nat (length b)))).
    assert (length a <= n)%nat by lia.
    rewrite take_app, drop_app, !(take_ge a), !(drop_ge a) by lia. cbn [app].
    by rewrite !app_assoc, length_app, Nat2Z.inj_add, Z.add_assoc.
Qed.

Lemma decode_payload_done d h a b s sender :
  length_ h <= len (dec_payload d) + len a -> len (dec_payload d) <= length_ h ->
  decode_payload d h (a ++ b) s sender = extend (decode_payload d h a s sender) b.
Proof.
  intros Hl Hp. unfold decode_payload. destruct (check_header s sender h); [|done].
  set (n := Z.to_nat (length_ h - len (dec_payload d))).
  pose proof (len_nonneg b).
  replace (Z.to_nat (Z.min (length_ h - len (dec_payload d)) (len (a ++ b)))) with n
    by (rewrite len_app; lia).
  replace (Z.to_nat (Z.min (length_ h - len (dec_payload d)) (len a))) with n by lia.
  assert (n <= length a)%nat by (unfold len in *; lia).
  rewrite take_app_le, drop_app_le by done.
  replace (len (dec_payload d ++ take n a)) with (length_ h)
    by (rewrite len_app; unfold len in *; rewrite length_take; lia).
  rewrite Z.eqb_refl. cbn [negb].
  destruct (Frame_decode _ _); [|done]. destruct (accept _ _ _) as [[]]; done.
Qed.

(** Before OPENED, or after the terminal frame, a header of the direction is
    refused just as its first byte would be. *)
Lemma forbidden_header s sender h :
  is_terminal s || (bool_decide (sender = Agent) && negb (is_opened s)) = true ->
  check_header s sender h = fail RequestInvalid.
Proof.
  unfold is_terminal, check_header. destruct (seq_terminal s); cbn [orb]; [done|].
  intros Ho. apply andb_true_iff in Ho as [Hs Ho]. rewrite Hs. cbn [andb].
  apply negb_true_iff in Ho. unfold is_opened in *.
  destruct (kind h); cbn; try done; destruct (opened s); done.
Qed.

(** What feeding [a] and then [b] has to do with feeding both at once. *)
Definition composes (run : list byte -> outcome) (run' : Decoder -> list byte -> outcome)
    (s : Sequence) (a b : list byte) : Prop :=
  match run a with
  | (Ok None, d', i, s') =>
      i = [] /\ s' = s /\ run (a ++ b) = run' d' b
  | _ => run (a ++ b) = extend (run a) b
  end.

Lemma composes_payload d h s sender a b :
  len (dec_payload d) <= length_ h ->
  composes (fun x => decode_payload d h x s sender)
           (fun d' x => decode_payload d' h x s sender) s a b.
Proof.
  intros Hp. unfold composes.
  destruct (check_header s sender h) as [[]|e] eqn:Hc.
  2: { unfold decode_payload. by rewrite Hc. }
  destruct (Z.le_gt_cases (length_ h) (len (dec_payload d) + len a)) as [Hl|Hl].
  - rewrite (decode_payload_done d h a b) by done.
    destruct (decode_payload d h a s sender) as [[[[[f|]|e] d'] i] s'] eqn:E; try done.
    exfalso. unfold decode_payload in E. rewrite Hc in E.
    rewrite Z.min_l in E by lia.
    rewrite (proj2 (Z.eqb_eq _ _)) in E; cbn [negb] in E.
    + destruct (Frame_decode _ _); [|done]. by destruct (accept _ _ _) as [[]].
    + rewrite len_app. unfold len in *. rewrite length_take. lia.
  - destruct (decode_payload_more d h a b s sender) as [-> ->]; [lia|done|]. done.
Qed.

Lemma prefix_split (p a b : list byte) (n m : nat) :
  length p = 5%nat -> (n + length a < 5)%nat -> m = Nat.min (5 - (n + length a)) (length b) ->
  take (n + length a) (take n p ++ a ++ drop (n + length a) p) ++ take m b
    ++ drop (n + length a + m) (take n p ++ a ++ drop (n + length a) p)
  = take n p ++ take (length a + m) (a ++ b) ++ drop (n + (length a + m)) p.
Proof.
  intros Hp Hn ->. rewrite (app_assoc (take n p)).
  assert (length (take n p ++ a) = n + length a)%nat as Hl
    by (rewrite length_app, length_take; lia).
  rewrite <-Hl at 1. rewrite take_app_length. rewrite (take_app_add' a) by done.
  rewrite drop_app_ge by lia. rewrite drop_drop, Hl.
  rewrite <-!app_assoc. do 4 f_equal. lia.
Qed.

Definition forbidden (s : Sequence) (sender : Sender) : bool :=
  is_terminal s || (bool_decide (sender = Agent) && negb (is_opened s)).

Lemma forbidden_payload d h input s sender :
  forbidden s sender = true -> decode_payload d h input s sender = (fail RequestInvalid, d, input, s).
Proof. intros Hf. unfold decode_payload. by rewrite forbidden_header. Qed.

(** [decode_next] past the test for forbidden input. *)
Definition decode_body (d : Decoder) (input : list byte) (s : Sequence) (sender : Sender) : outcome :=
  match dec_header d with
  | None =>
      let take_ := Nat.min (5 - prefix_len d) (length input) in
      let d := mkDecoder
                 (take (prefix_len d) (prefix d) ++ take take_ input
                  ++ drop (prefix_len d + take_) (prefix d))
                 (prefix_len d + take_) None (dec_payload d) (failed d) in
      let input := drop take_ input in
      if negb (Nat.eqb (prefix_len d) 5) then (Ok None, d, input, s)
      else match Header_parse (prefix d) with
        | Err e => (Err e, d, input, s)
        | Ok header =>
            match check_header s sender header with
            | Err e => (Err e, d, input, s)
            | Ok _ =>
                decode_payload
                  (mkDecoder (prefix d) (prefix_len d) (Some header) [] (failed d))
                  header input s sender
            end
        end
  | Some header => decode_payload d header input s sender
  end.

Lemma decode_next_body d input s sender :
  decode_next d input s sender =
  if negb (bool_decide (input = [])) && forbidden s sender
  then (fail RequestInvalid, d, input, s) else decode_body d input s sender.
Proof. done. Qed.

Lemma composes_body d s sender a b :
  wf d -> composes (fun x => decode_body d x s sender)
                   (fun d' x => decode_body d' x s sender) s a b.
Proof.
  intros [Hp Hw]. unfold decode_body at 1 2. destruct (dec_header d) as [h|] eqn:Hd.
  - destruct Hw as (_ & _ & Hl).
    pose proof (composes_payload d h s sender a b ltac:(lia)) as Hc.
    unfold composes in *.
    destruct (decode_payload d h a s sender) as [[[[[f|]|e] d'] i] s'] eqn:E; try done.
    destruct Hc as (-> & -> & ->). split_and!; try done. unfold decode_body.
    replace (dec_header d') with (Some h); [done|].
    unfold decode_payload in E. destruct (check_header _ _ _); [|done].
    destruct (negb _); [by simplify_eq/=|].
    destruct (Frame_decode _ _); [|done]. by destruct (accept _ _ _) as [[]].
  - unfold composes. cbn [prefix_len prefix].
    destruct (Nat.leb_spec (5 - prefix_len d) (length a)) as [Hl|Hl].
    + rewrite !Nat.min_l by (rewrite ?length_app; lia).
      rewrite take_app_le, drop_app_le by lia.
      rewrite (proj2 (Nat.eqb_eq _ _)) by lia. cbn [negb].
      destruct (Header_parse _) as [h|e] eqn:Hh; [|done].
      destruct (check_header s sender h) as [[]|e] eqn:Hc; [|done].
      set (d1 := mkDecoder _ _ _ _ _).
      assert (len (dec_payload d1) <= length_ h) as Hlen
        by (apply Header_parse_wf in Hh as [[? _] _]; cbn; rewrite len_nil; lia).
      pose proof (composes_payload d1 h s sender (drop (5 - prefix_len d) a) b Hlen) as Hx.
      unfold composes in Hx.
      destruct (decode_payload d1 h (drop _ a) s sender) as [[[[[f|]|e] d'] i] s'] eqn:E; try done.
      destruct Hx as (-> & -> & ->). split_and!; try done. unfold decode_body.
      replace (dec_header d') with (Some h); [done|].
      unfold decode_payload in E. rewrite Hc in E.
      destruct (negb _); [by simplify_eq/=|].
      destruct (Frame_decode _ _); [|done]. by destruct (accept _ _ _) as [[]].
    + rewrite (Nat.min_r _ (length a)) by lia.
      rewrite (proj2 (Nat.eqb_neq _ _)) by lia. cbn [negb].
      rewrite drop_all, (take_ge a) by lia. split_and!; try done.
      unfold decode_body. cbn [dec_header prefix_len prefix dec_payload failed].
      set (m := Nat.min (5 - (prefix_len d + length a)) (length b)).
      rewrite (prefix_split (prefix d) a b (prefix_len d) m) by (done || lia).
      replace (Nat.min (5 - prefix_len d) (length (a ++ b))) with (length a + m)%nat
        by (rewrite length_app; lia).
      replace (prefix_len d + length a + m)%nat with (prefix_len d + (length a + m))%nat by lia.
      rewrite (drop_app_add' a) by done. done.
Qed.

(** Nothing read, nothing done, while the header is incomplete. *)
Lemma body_waits d s sender :
  wf d -> dec_header d = None -> decode_body d [] s sender = (Ok None, d, [], s).
Proof.
  intros [Hp Hw] Hd. rewrite Hd in Hw. unfold decode_body. rewrite Hd. cbn [length].
  rewrite !Nat.min_0_r, !Nat.add_0_r. cbn [prefix_len].
  rewrite (proj2 (Nat.eqb_neq _ _)) by lia. cbn [negb drop take app].
  rewrite take_drop. by destruct d; cbn in *; subst.
Qed.

Lemma composes_next d s sender a b :
  wf d -> composes (fun x => decode_next d x s sender)
                   (fun d' x => decode_next d' x s sender) s a b.
Proof.
  intros Hwf. unfold composes. rewrite !decode_next_body.
  destruct (forbidden s sender) eqn:Hf; rewrite ?andb_true_r, ?andb_false_r.
  - destruct a as [|x a]; [|by rewrite !bool_decide_false].
    rewrite (bool_decide_true ([] = [])) by done. cbn [negb app].
    destruct (dec_header d) as [h|] eqn:Hd.
    + assert (forall x, decode_body d x s sender = (fail RequestInvalid, d, x, s)) as Hb.
      { intros x. unfold decode_body. rewrite Hd. by apply forbidden_payload. }
      rewrite !Hb. cbn. by case_bool_decide.
    + rewrite body_waits by done. split_and!; try done.
      by rewrite decode_next_body, Hf, andb_true_r.
  - pose proof (composes_body d s sender a b Hwf) as Hc. unfold composes in Hc.
    destruct (decode_body d a s sender) as [[[[[f|]|e] d'] i] s'] eqn:E; try done.
    destruct Hc as (-> & -> & ->). split_and!; try done.
    by rewrite decode_next_body, Hf, andb_false_r.
Qed.

(** A successful call leaves a decoder fit for the next one; a completed frame
    has consumed input. *)
Definition good_outcome (d : Decoder) (input : list byte) (o : outcome) : Prop :=
  match o with
  | (Ok r, d', rest, _) =>
      wf d' /\ failed d' = failed d
      /\ (is_Some r -> (length rest < length input)%nat)
  | (Err _, _, _, _) => True
  end.

Lemma good_payload d h input s sender :
  length (prefix d) = 5%nat -> prefix_len d = 5%nat -> dec_header d = Some h ->
  wf_header h -> len (dec_payload d) <= length_ h ->
  match decode_payload d h input s sender with
  | (Ok r, d', rest, _) =>
      wf d' /\ failed d' = failed d
      /\ (is_Some r -> length rest = length input - Z.to_nat (length_ h - len (dec_payload d)))%nat
      /\ (is_Some r -> length_ h - len (dec_payload d) <= len input)
  | _ => True
  end.
Proof.
  intros Hp Hpl Hd Hw Hl. unfold decode_payload.
  destruct (check_header s sender h); [|done].
  destruct (Z.eqb_spec (len (dec_payload d ++ take (Z.to_nat (Z.min (length_ h - len (dec_payload d)) (len input))) input)) (length_ h)) as [E|E]; cbn [negb].
  - destruct (Frame_decode _ _); [|done]. destruct (accept _ _ _) as [[] s2]; [|done].
    rewrite len_app in E. unfold len in *. rewrite length_take in E.
    split_and!; try done; [split; cbn; [done|lia]| |]; intros _; rewrite ?length_drop; lia.
  - split_and!; try (done || by intros []).
    split; cbn; [done|]. rewrite Hd. split_and!; try done.
    rewrite len_app in *. unfold len in *. rewrite length_take in *. lia.
Qed.

Lemma good_next d input s sender :
  wf d -> failed d = false -> good_outcome d input (next d input s sender).
Proof.
  intros Hwf Hf. unfold next. rewrite Hf, decode_next_body.
  destruct (negb _ && _); [done|]. unfold decode_body. destruct Hwf as [Hp Hw].
  destruct (dec_header d) as [h|] eqn:Hd.
  - destruct Hw as (Hpl & Hwh & Hl).
    pose proof (good_payload d h input s sender Hp Hpl Hd Hwh ltac:(lia)) as Hg.
    destruct (decode_payload d h input s sender) as [[[[r|e] d'] rest] s']; [|done].
    destruct Hg as (? & ? & Hr & Hi). split_and!; [done|done|].
    intros Hs. rewrite (Hr Hs). specialize (Hi Hs). unfold len in *. lia.
  - cbn [prefix_len prefix]. set (k := Nat.min (5 - prefix_len d) (length input)).
    set (p := take _ _ ++ _).
    assert (length p = 5%nat) as Hp5.
    { subst p k. rewrite !length_app, !length_take, length_drop. lia. }
    destruct (Nat.eqb_spec (prefix_len d + k) 5) as [Hk|Hk]; cbn [negb].
    + destruct (Header_parse p) as [h|] eqn:Hh; [|done].
      apply Header_parse_wf in Hh as [Hwh _].
      destruct (check_header s sender h); [|done].
      set (d1 := mkDecoder _ _ _ _ _).
      pose proof (good_payload d1 h (drop k input) s sender Hp5 Hk eq_refl Hwh) as Hg.
      destruct (decode_payload d1 h _ s sender) as [[[[r|e] d'] rest] s']; [|done].
      destruct Hg as (? & ? & Hr & Hi); [cbn; rewrite len_nil; destruct Hwh; lia|].
      split_and!; [done|done|]. intros Hs. rewrite (Hr Hs), length_drop. cbn.
      unfold len; cbn. lia.
    + split_and!; [|done|by intros []]. split; cbn; [done|]. lia.
Qed.

Lemma composes_next_total d s sender a b :
  wf d -> failed d = false ->
  composes (fun x => next d x s sender) (fun d' x => next d' x s sender) s a b.
Proof.
  intros Hwf Hf. pose proof (composes_next d s sender a b Hwf) as Hc.
  pose proof (good_next d a s sender Hwf Hf) as Hg.
  unfold composes, next in *. rewrite Hf in *.
  destruct (decode_next d a s sender) as [[[[[f|]|e] d'] i] s']; cbn in *.
  - by rewrite Hc.
  - destruct Hc as (-> & -> & ->). destruct Hg as (_ & -> & _). by rewrite Hf.
  - by rewrite Hc.
Qed.

(** Enough fuel is enough. *)
Lemma drain_fuel n m d input s sender :
  wf d -> failed d = false -> (length input < n)%nat -> (length input < m)%nat ->
  drain n d input s sender = drain m d input s sender.
Proof.
  revert m d input s. induction n as [|n IH]; intros m d input s Hwf Hf Hn Hm; [lia|].
  destruct m as [|m]; [lia|]. cbn. case_bool_decide; [done|].
  pose proof (good_next d input s sender Hwf Hf) as Hg.
  destruct (next d input s sender) as [[[[[f|]|e] d'] i] s']; try done.
  destruct Hg as (Hwf' & Hf' & Hlt). specialize (Hlt ltac:(eauto)).
  rewrite (IH m) by (done || congruence || lia). done.
Qed.

Lemma drain_step n d input s sender :
  input <> [] ->
  drain (S n) d input s sender =
  match next d input s sender with
  | (Err e, d, _, s) => ([], Some e, d, s)
  | (Ok None, d, _, s) => ([], None, d, s)
  | (Ok (Some frame), d, input, s) =>
      let '(frames, error, d, s) := drain n d input s sender in
      (frame :: frames, error, d, s)
  end.
Proof. intros Hi. cbn. by rewrite bool_decide_false. Qed.

(** Draining two buffers joined is draining one after the other. *)
Lemma drain_app n d a b s sender :
  wf d -> failed d = false -> (length (a ++ b) < n)%nat ->
  drain n d (a ++ b) s sender =
  match drain (S (length a)) d a s sender with
  | (frames, Some e, d, s) => (frames, Some e, d, s)
  | (frames, None, d, s) =>
      let '(more, error, d, s) := drain (S (length b)) d b s sender in
      (frames ++ more, error, d, s)
  end
  /\ match drain (S (length a)) d a s sender with
     | (_, None, d', _) => wf d' /\ failed d' = false
     | (_, Some _, d', _) => failed d' = true
     end.
Proof.
  remember (length a) as k eqn:Hk. revert n d a s Hk.
  induction k as [k IH] using lt_wf_ind. intros n d a s -> Hwf Hf Hn.
  destruct (decide (a = [])) as [->|Ha].
  { cbn [app length]. change (drain 1 d [] s sender) with (@nil Frame, @None Error, d, s).
    cbn [app] in *. rewrite (drain_fuel n (S (length b))) by (done || lia).
    by destruct (drain _ _ _ _ _) as [[[? ?] ?] ?]. }
  destruct n as [|n]; [lia|].
  assert (a ++ b <> []) as Hab by (by destruct a).
  rewrite (drain_step n) by done. rewrite (drain_step (length a)) by done.
  pose proof (composes_next_total d s sender a b Hwf Hf) as Hc. unfold composes in Hc.
  pose proof (good_next d a s sender Hwf Hf) as Hg.
  destruct (next d a s sender) as [[[[[f|]|e] d'] i] s'] eqn:E.
  - destruct Hg as (Hwf' & Hf' & Hlt). specialize (Hlt ltac:(eauto)).
    rewrite Hc. cbn [extend]. rewrite Hf in Hf'.
    destruct (IH (length i) ltac:(lia) n d' i s' eq_refl Hwf' Hf') as [-> Hd].
    { rewrite length_app in *. lia. }
    rewrite (drain_fuel (length a) (S (length i))) by (done || lia).
    destruct (drain (S (length i)) d' i s' sender) as [[[fr [e|]] d2] s2]; [done|].
    split; [|done]. by destruct (drain (S (length b)) d2 b s2 sender) as [[[? ?] ?] ?].
  - destruct Hg as (Hwf' & Hf' & _). rewrite Hf in Hf'. destruct Hc as (-> & -> & Hc). rewrite Hc.
    split; [|done]. destruct (decide (b = [])) as [->|Hb].
    + rewrite app_nil_r in Hc. rewrite E in Hc. rewrite <-Hc. done.
    + rewrite drain_step by done.
      pose proof (good_next d' b s sender Hwf' Hf') as Hg.
      destruct (next d' b s sender) as [[[[[f|]|e] d2] i2] s2]; try done.
      destruct Hg as (Hwf2 & Hf2 & Hlt). specialize (Hlt ltac:(eauto)).
      rewrite (drain_fuel n (length b)) by (done || congruence || (rewrite length_app in *; lia)).
      by destruct (drain _ _ _ _ _) as [[[? ?] ?] ?].
  - rewrite Hc. split; [done|]. unfold next in E. rewrite Hf in E.
    destruct (decode_next d a s sender) as [[[[r|e'] d2] i2] s2]; [done|]. by simplify_eq/=.
Qed.

Lemma drain_chunks_drain d chunks s sender :
  wf d -> failed d = false ->
  drain_chunks d chunks s sender
  = drain (S (length (mjoin chunks))) d (mjoin chunks) s sender.
Proof.
  revert d s. induction chunks as [|a chunks IH]; intros d s Hwf Hf; [done|].
  change (mjoin (a :: chunks)) with (a ++ mjoin chunks).
  cbn [drain_chunks].
  destruct (drain_app (S (length (a ++ mjoin chunks))) d a (mjoin chunks) s sender Hwf Hf)
    as [-> Hd]; [lia|].
  destruct (drain (S (length a)) d a s sender) as [[[fr [e|]] d2] s2]; [done|].
  destruct Hd as [Hwf2 Hf2]. by rewrite IH.
Qed.

(** How the network cuts the byte stream into reads is irrelevant: feeding
    the decoder any sequence of chunks yields the frames, the error, the decoder
    and the sequence that feeding their concatenation yields. *)
Lemma decoder_chunking d chunks s sender :
  wf d -> failed d = false ->
  drain_chunks d chunks s sender
  = drain (S (length (mjoin chunks))) d (mjoin chunks) s sender.
Proof. apply drain_chunks_drain. Qed.

(** A failed decoder stays failed and decodes nothing. *)
Lemma next_failed d input s sender :
  failed d = true -> next d input s sender = (fail RequestInvalid, d, input, s).
Proof. unfold next. by intros ->. Qed.

(** The decoder never buffers more than one bounded payload: between two
    calls it holds fewer bytes than the header it has accepted announces, at
    most [MAX_DATA_BYTES]. *)
Lemma decoder_memory_bound d input s sender r d' rest s' :
  wf d -> failed d = false ->
  next d input s sender = (r, d', rest, s') ->
  match r with
  | Ok _ => len (dec_payload d') <= MAX_DATA_BYTES \/ dec_header d' = None
  | Err _ => dec_payload d' = [] /\ failed d' = true
  end.
Proof.
  intros Hwf Hf Hn. pose proof (good_next d input s sender Hwf Hf) as Hg. rewrite Hn in Hg.
  destruct r as [r|e].
  - destruct Hg as ([_ Hw] & _ & _). destruct (dec_header d') as [h|]; [left|by right].
    destruct Hw as (_ & [Hb _] & Hl). unfold MAX_DATA_BYTES, MAX_CONTROL_BYTES in *.
    case_bool_decide; lia.
  - unfold next in Hn. rewrite Hf in Hn.
    destruct (decode_next d input s sender) as [[[[?|?] ?] ?] ?]; [done|]. by simplify_eq/=.
Qed.

(** ** The sending side meets the receiving side *)

Definition wire (e : Encoded) : list byte := encoded_header e ++ payload e.

(** Accept frames of one sender in order; [None] if one is refused. *)
Fixpoint accept_all (s : Sequence) (sender : Sender) (frames : list Frame) : option Sequence :=
  match frames with
  | [] => Some s
  | f :: rest =>
      match accept s sender f with
      | (Ok _, s') => accept_all s' sender rest
      | (Err _, _) => None
      end
  end.

(** A decoder at a frame boundary. *)
Definition idle (d : Decoder) : Prop :=
  length (prefix d) = 5%nat /\ prefix_len d = 0%nat /\ dec_header d = None
  /\ dec_payload d = [] /\ failed d = false.

Lemma idle_wf d : idle d -> wf d /\ failed d = false.
Proof.
  intros (Hp & Hl & Hh & _ & Hf). split; [|done]. split; [done|]. rewrite Hh. lia.
Qed.

Lemma accept_check s sender f h s' :
  accept s sender f = (Ok tt, s') -> Frame_header f = Ok h -> check_header s sender h = Ok tt.
Proof.
  unfold accept. intros Ha Hh. rewrite Hh in Ha. by destruct (check_header s sender h) as [[]|].
Qed.

Lemma next_whole_frame d s sender f e s' rest :
  idle d -> Frame_encode f = Ok e -> serde_round f ->
  accept s sender f = (Ok tt, s') ->
  exists d', next d (wire e ++ rest) s sender = (Ok (Some f), d', rest, s') /\ idle d'.
Proof.
  intros (Hp & Hl & Hd & Hpay & Hf) He Hr Ha.
  destruct (frame_decodes f e He Hr) as (h & Hh & Hdec).
  assert (Frame_header f = Ok h) as Hfh by (unfold Frame_header; by rewrite He).
  pose proof (accept_check _ _ _ _ _ Ha Hfh) as Hc.
  destruct (Frame_encode_Ok f e He) as (h' & Hwf & _ & Hlen & Hb).
  assert (h' = h) as -> by (rewrite Hb, Header_encode_parse in Hh by done; congruence).
  assert (forbidden s sender = false) as Hforb.
  { destruct (forbidden s sender) eqn:E; [|done]. by rewrite (forbidden_header s sender h E) in Hc. }
  unfold next. rewrite Hf, decode_next_body, Hforb, andb_false_r.
  unfold decode_body. rewrite Hd, Hl. unfold wire. rewrite Hb, <-app_assoc. cbn [Nat.sub Nat.add].
  rewrite length_app, Header_encode_length.
  replace (Nat.min 5 (5 + length (payload e ++ rest))) with 5%nat by lia. cbn [take].
  rewrite (take_app_length' (Header_encode h)), (drop_app_length' (Header_encode h)) by done.
  rewrite (drop_ge (prefix d)) by lia. cbn [app prefix_len prefix Nat.eqb negb].
  rewrite take_0, app_nil_r, app_nil_l, (Header_encode_parse h Hwf), Hc.
  unfold decode_payload. rewrite Hc. cbn [dec_payload app]. rewrite len_nil, Z.sub_0_r.
  assert (Z.to_nat (Z.min (length_ h) (len (payload e ++ rest))) = length (payload e)) as ->.
  { rewrite Hlen, len_app. unfold len. lia. }
  rewrite take_app_length, drop_app_length, <-Hlen, Z.eqb_refl. cbn [negb].
  rewrite Hdec, Ha. eexists; split; [done|]. by split_and!.
Qed.

(** What the decoder delivers of encoded frames. *)
Lemma frames_delivered d s sender frames encs s' chunks :
  idle d ->
  Forall2 (fun f e => Frame_encode f = Ok e /\ serde_round f) frames encs ->
  accept_all s sender frames = Some s' ->
  mjoin chunks = mjoin (map wire encs) ->
  exists d', drain_chunks d chunks s sender = (frames, None, d', s') /\ idle d'.
Proof.
  intros Hi Henc Hacc Hch. pose proof (idle_wf d Hi) as [Hwf Hf].
  rewrite drain_chunks_drain, Hch by done. clear Hch chunks Hwf Hf.
  revert d s Hi Hacc. induction Henc as [|f e frames encs [He Hr] Henc IH]; intros d s Hi Hacc.
  { injection Hacc as <-. by exists d. }
  cbn in Hacc. destruct (accept s sender f) as [[[]|?] s1] eqn:Ha; [|done].
  change (mjoin (map wire (e :: encs))) with (wire e ++ mjoin (map wire encs)).
  destruct (next_whole_frame d s sender f e s1 (mjoin (map wire encs)) Hi He Hr Ha) as (d1 & Hn & Hi1).
  destruct (IH d1 s1 Hi1 Hacc) as (d' & Hd & Hi').
  assert (length (wire e) <> 0)%nat as Hw.
  { unfold wire. destruct (Frame_encode_Ok f e He) as (h & _ & _ & _ & Hb).
    rewrite Hb, length_app, Header_encode_length. lia. }
  rewrite drain_step by (destruct (wire e); cbn in *; done).
  rewrite Hn. pose proof (idle_wf d1 Hi1) as [? ?].
  rewrite (drain_fuel _ (S (length (mjoin (map wire encs))))) by (done || (rewrite ?length_app; lia)).
  rewrite Hd. by exists d'.
Qed.

(** Frames one side encodes and the protocol accepts are what the decoder
    of the other side delivers, in order, with the same final state, however
    the bytes are cut into reads. *)
Lemma stream_round_trip d s sender frames encs s' chunks :
  idle d ->
  Forall2 (fun f e => Frame_encode f = Ok e /\ serde_round f) frames encs ->
  accept_all s sender frames = Some s' ->
  mjoin chunks = mjoin (map wire encs) ->
  exists d', drain_chunks d chunks s sender = (frames, None, d', s') /\ idle d'.
Proof. apply frames_delivered. Qed.
End Facts.
