(* ===== verification/Wire.v ===== *)
(** * Attached ends of a stream: what the two ends share

    A poll as state passing with an answer, the bytes of the frames, and what a
    decoder has eaten of a socket's bytes: the frames it delivered, in full, and the
    part of the next one that it holds. *)
From S2P Require Import Prelude Protocol Ids Stream Sequence Decoder.

(** ** Polls *)

(** A computation of a poll: [ready!(...)?] is its bind. *)
Definition polled (S E A : Type) : Type := S -> S * poll (result E A).
#[export] Instance polled_ret {S E} : MRet (polled S E) := fun A a s => (s, PollReady (Ok a)).
#[export] Instance polled_bind {S E} : MBind (polled S E) := fun A B k m s =>
  match m s with
  | (s, PollReady (Ok a)) => k a s
  | (s, PollReady (Err e)) => (s, PollReady (Err e))
  | (s, PollPending) => (s, PollPending)
  end.
Definition pfail {S E A} (e : E) : polled S E A := fun s => (s, PollReady (Err e)).
Definition pwait {S E A} : polled S E A := fun s => (s, PollPending).
Definition pget {S E} : polled S E S := fun s => (s, PollReady (Ok s)).
Definition pput {S E} (f : S -> S) : polled S E unit := fun s => (f s, PollReady (Ok tt)).
Definition plift {S E A} (r : result E A) : polled S E A := fun s => (s, PollReady r).

(** What holds of a poll's end: of its answer, of its waiting, of its failure. *)
Section Wp.
Context {S E : Type} (stop : S -> Prop) (bad : E -> S -> Prop).

Definition wp {A} (m : polled S E A) (post : A -> S -> Prop) (s : S) : Prop :=
  match m s with
  | (s, PollReady (Ok a)) => post a s
  | (s, PollReady (Err e)) => bad e s
  | (s, PollPending) => stop s
  end.

Lemma wp_bind {A B} (m : polled S E A) (k : A -> polled S E B) post s :
  wp m (fun a s => wp (k a) post s) s -> wp (m ≫= k) post s.
Proof. unfold wp, mbind, polled_bind. by destruct (m s) as [s' [|[]]]. Qed.
Lemma wp_mono {A} (m : polled S E A) (post post' : A -> S -> Prop) s :
  wp m post s -> (forall a s, post a s -> post' a s) -> wp m post' s.
Proof. unfold wp. destruct (m s) as [s' [|[]]]; eauto. Qed.
End Wp.

(** ** A socket *)

(** What has come in over it and what has gone out. *)
Record Socket := mkSocket { got : list byte; put : list byte }.
Definition receive (bytes : list byte) (s : Socket) : Socket := mkSocket (got s ++ bytes) (put s).
Definition transmit (bytes : list byte) (s : Socket) : Socket := mkSocket (got s) (put s ++ bytes).

Lemma join_snoc {A} (ls : list (list A)) l : mjoin (ls ++ [l]) = mjoin ls ++ l.
Proof. rewrite join_app. cbn. by rewrite app_nil_r. Qed.

(** ** The bytes of frames *)

Definition data_wire (bytes : list byte) : list byte := Header_encode (mkHeader KData (len bytes)) ++ bytes.
Definition end_wire : list byte := Header_encode (mkHeader KSendEnd 0).

(** The encodings of a frame that a decoder accepts. *)
Definition encodes `{Base64} `{Serde} (f : Frame) (bytes : list byte) : Prop :=
  exists h payload, wf_header h /\ bytes = Header_encode h ++ payload /\ Frame_decode h payload = Ok f.

(** The frames of one side in a trace. *)
Definition frames_of (d : Sender) (trace : list event) : list Frame :=
  trace ≫= fun ev => if decide (ev.1 = d) then [ev.2] else [].
Lemma frames_of_snoc d trace ev :
  frames_of d (trace ++ [ev]) = frames_of d trace ++ (if decide (ev.1 = d) then [ev.2] else []).
Proof. unfold frames_of. rewrite bind_app. cbn. by rewrite app_nil_r. Qed.

Section Wire.
Context `{Base64} `{Serde}.

Lemma decode_kind h payload f : Frame_decode h payload = Ok f -> kind h = kind_of f /\ length_ h = len payload.
Proof.
  unfold Frame_decode. intros Hd. destruct (Z.eqb_spec (length_ h) (len payload)); cbn [negb] in Hd; [|done].
  split; [|done]. destruct (kind h); ok_inv Hd; by simplify_eq/=.
Qed.
Lemma header_eta h : mkHeader (kind h) (length_ h) = h.
Proof. by destruct h. Qed.

Lemma encodes_data bytes b : encodes (FData bytes) b -> b = data_wire bytes.
Proof.
  intros (h & payload & _ & -> & Hd). destruct (decode_kind _ _ _ Hd) as [Hk Hl]. cbn in Hk.
  unfold Frame_decode in Hd. rewrite Hl, Z.eqb_refl, Hk in Hd. cbn in Hd. injection Hd as <-.
  unfold data_wire. by rewrite <-Hl, <-Hk, header_eta.
Qed.
Lemma encodes_end b : encodes FSendEnd b -> b = end_wire.
Proof.
  intros (h & payload & Hw & -> & Hd). destruct (decode_kind _ _ _ Hd) as [Hk Hl]. cbn in Hk.
  destruct Hw as [_ Hz]. apply Hz in Hk as Hn. rewrite Hn in Hl. symmetry in Hl. apply len_0 in Hl as ->.
  unfold end_wire. by rewrite <-Hn, <-Hk, header_eta, app_nil_r.
Qed.

Lemma encode_data bytes e : Frame_encode (FData bytes) = Ok e ->
  encoded_header e = Header_encode (mkHeader KData (len bytes)) /\ payload e = bytes
  /\ wf_header (mkHeader KData (len bytes)).
Proof.
  unfold Frame_encode. cbn. intros He. apply bind_Ok in He as (h & Hh & [= <-]).
  apply Header_new_Ok in Hh as [-> Hw]; [done|apply len_nonneg].
Qed.
Lemma encode_end e : Frame_encode FSendEnd = Ok e -> encoded_header e = end_wire /\ payload e = [].
Proof. unfold Frame_encode. cbn. by intros [= <-]. Qed.

(** Frames with encodings that make up a sequence of bytes. *)
Definition spells (frames : list Frame) (bytes : list byte) : Prop :=
  exists parts, Forall2 encodes frames parts /\ bytes = mjoin parts.
Lemma spells_nil : spells [] [].
Proof. by exists []. Qed.
Lemma spells_snoc frames bytes f b : spells frames bytes -> encodes f b -> spells (frames ++ [f]) (bytes ++ b).
Proof.
  intros (parts & Hp & ->) Hb. exists (parts ++ [b]). split; [by apply Forall2_app; [|constructor]|].
  by rewrite join_snoc.
Qed.

(** ** What a decoder holds *)

Definition held (d : Decoder) : list byte :=
  match dec_header d with
  | None => take (prefix_len d) (prefix d)
  | Some h => Header_encode h ++ dec_payload d
  end.

(** A call of [next] eats a part of its input, and what it has eaten so far and
    delivers is a whole frame. *)
Definition eats (d : Decoder) (input : list byte) (s : Sequence) (sender : Sender) (o : outcome) : Prop :=
  match o with
  | (Ok r, d', rest, s') =>
      wf d' /\ failed d' = false /\ exists eaten, input = eaten ++ rest /\
      match r with
      | None => held d' = held d ++ eaten /\ rest = [] /\ s' = s
      | Some f => encodes f (held d ++ eaten) /\ held d' = [] /\ accept s sender f = (Ok tt, s')
      end
  | (Err _, _, _, s') => s' = s
  end.

Lemma payload_eats d h input s sender :
  wf d \/ dec_payload d = [] -> dec_header d = Some h -> length (prefix d) = 5%nat -> prefix_len d = 5%nat ->
  failed d = false -> wf_header h -> len (dec_payload d) <= length_ h ->
  eats d input s sender (decode_payload d h input s sender).
Proof.
  intros _ Hd Hp Hpl Hf Hw Hl.
  pose proof (good_payload d h input s sender Hp Hpl Hd Hw Hl) as Hg.
  unfold decode_payload in *. destruct (check_header s sender h) as [[]|] eqn:Hc; [|done].
  set (n := Z.to_nat _) in *.
  destruct (Z.eqb_spec (len (dec_payload d ++ take n input)) (length_ h)) as [E|E]; cbn [negb] in *.
  - destruct (Frame_decode h _) as [f|] eqn:Hdec; [|done].
    destruct (accept s sender f) as [[[]|] s'] eqn:Ha.
    + destruct Hg as (Hw' & Hf' & _). split; [done|]. split; [by rewrite Hf'|]. exists (take n input).
      split; [by rewrite take_drop|]. split; [|done]. unfold held. rewrite Hd. rewrite <-app_assoc.
      by exists h, (dec_payload d ++ take n input).
    + by apply accept_err in Ha as ->.
  - destruct Hg as (Hw' & Hf' & _). split; [done|]. split; [by rewrite Hf'|]. exists (take n input).
    split; [by rewrite take_drop|]. unfold held. cbn [dec_header dec_payload]. rewrite !Hd, <-app_assoc. split; [done|]. split; [|done].
    apply drop_ge. unfold n. rewrite len_app in E. subst n. unfold len in *. rewrite length_take in E. lia.
Qed.

Lemma body_eats d input s sender : wf d -> failed d = false ->
  eats d input s sender (decode_body d input s sender).
Proof.
  intros Hwf Hf. pose proof Hwf as [Hp Hw]. unfold decode_body. destruct (dec_header d) as [h|] eqn:Hd.
  { destruct Hw as (Hpl & Hwh & Hl). apply payload_eats; try done; [by left|lia]. }
  cbn [prefix_len prefix]. set (k := Nat.min (5 - prefix_len d) (length input)). set (p := take _ _ ++ _).
  assert (length p = 5%nat) as Hp5 by (subst p k; rewrite !length_app, !length_take, length_drop; lia).
  assert (take (prefix_len d + k) p = held d ++ take k input) as Hh.
  { unfold held. rewrite Hd. subst p. rewrite app_assoc, take_app_le.
    - apply take_ge. rewrite length_app, !length_take. lia.
    - rewrite length_app, !length_take. subst k. lia. }
  destruct (Nat.eqb_spec (prefix_len d + k) 5) as [Hk|Hk]; cbn [negb].
  - destruct (Header_parse p) as [h|] eqn:Hpa; [|done]. apply Header_parse_wf in Hpa as [Hwh He].
    destruct (check_header s sender h); [|done].
    set (d1 := mkDecoder p (prefix_len d + k) (Some h) [] (failed d)).
    pose proof (payload_eats d1 h (drop k input) s sender (or_intror eq_refl) eq_refl Hp5 Hk Hf Hwh) as Hx.
    specialize (Hx ltac:(cbn; rewrite len_nil; destruct Hwh; lia)).
    assert (held d1 = held d ++ take k input) as Hd1.
    { rewrite <-Hh, Hk. unfold held, d1. cbn [dec_header dec_payload]. rewrite app_nil_r, He. symmetry. apply take_ge. lia. }
    change (decode_payload _ h _ s sender) with (decode_payload d1 h (drop k input) s sender).
    destruct (decode_payload d1 h _ s sender) as [[[[r|e] d'] rest] s']; [|exact Hx].
    destruct Hx as (? & ? & eaten & Hi & Hr). split; [done|]. split; [done|]. exists (take k input ++ eaten).
    rewrite <-app_assoc, <-Hi, take_drop. split; [done|]. rewrite app_assoc, <-Hd1. done.
  - split; [split; cbn; [done|lia]|]. split; [done|]. exists (take k input). rewrite take_drop. split; [done|].
    split; [exact Hh|]. split; [|done]. apply drop_ge. lia.
Qed.

Lemma next_eats d input s sender : wf d -> failed d = false -> eats d input s sender (next d input s sender).
Proof.
  intros Hwf Hf. unfold next. rewrite Hf, decode_next_body. destruct (_ && _); [done|].
  pose proof (body_eats d input s sender Hwf Hf) as Hx.
  destruct (decode_body d input s sender) as [[[[r|e] d'] rest] s']; done.
Qed.
(** ** Frames and traces *)

Lemma other_payloads d d' trace f : d <> d' -> payloads d (trace ++ [(d', f)]) = payloads d trace.
Proof.
  intros Hd. rewrite payloads_snoc. destruct f; cbn; rewrite ?app_nil_r; try done.
  by rewrite decide_False, app_nil_r.
Qed.
Lemma other_frames d d' trace f : d <> d' -> frames_of d (trace ++ [(d', f)]) = frames_of d trace.
Proof. intros Hd. rewrite frames_of_snoc. cbn. by rewrite decide_False, app_nil_r. Qed.
Lemma other_end d d' trace f : d <> d' -> half_closed d (trace ++ [(d', f)]) = half_closed d trace.
Proof. intros Hd. rewrite half_closed_snoc. unfold is_end. cbn. rewrite bool_decide_false by done. apply orb_false_r. Qed.

Lemma reach_ended op trace s d : reach op trace s -> ended s d = half_closed d trace.
Proof. intros [-> _]%reach_limits. unfold ended. by rewrite direction_abstract. Qed.

Lemma reach_accept op trace s d f s' : reach op trace s -> accept s d f = (Ok tt, s') ->
  reach op (trace ++ [(d, f)]) s'.
Proof. intros Hr Ha. eapply reach_step; [done|]. by constructor. Qed.

(** Data and ends leave the opening and the termination as they are. *)
Lemma plain_opening d trace f : match f with FData _ | FSendEnd => True | _ => False end ->
  opening (trace ++ [(d, f)]) = opening trace /\ terminated (trace ++ [(d, f)]) = terminated trace.
Proof. rewrite opening_app, terminated_snoc. destruct f; try done; intros _; cbn; by rewrite orb_false_r. Qed.

(** The agent sends data and its end. *)
Lemma agent_plain s f s' : accept s Agent f = (Ok tt, s') -> match f with FData _ | FSendEnd => True | _ => False end.
Proof.
  unfold accept. destruct (Frame_header f) as [h|] eqn:Hh; [|done]. apply Frame_header_Ok in Hh as (_ & Hk & _).
  unfold check_header. rewrite Hk, (bool_decide_true (Agent = Agent)) by done. destruct f; try done; cbn; by rewrite orb_true_r.
Qed.

(** Nothing is sent before the opening. *)
Lemma no_payloads side op trace s : reach op trace s -> opening trace = None -> payloads side trace = [].
Proof.
  induction 1 as [s _|trace s [d f] s' Hr IH Hstep]; intros Ho; [done|].
  assert (exists s', step s (d, f) s') as Hex by eauto.
  apply (reach_refines _ _ _ _ _ Hr) in Hex as [_ [_ Hadm]].
  rewrite opening_app in Ho. rewrite payloads_snoc. destruct f as [p|q|b| |t]; cbn in Ho |- *; try done;
    try (rewrite app_nil_r; by apply IH). destruct Hadm as (o & Ho' & _). congruence.
Qed.

(** The payloads of a trace are within the announced size. *)
Lemma payload_sizes side op trace s o : reach op trace s -> opening trace = Some o ->
  forall n, n ∈ map len (payloads side trace) -> 0 < n <= max_data_bytes o.
Proof.
  intros Hr. revert o. induction Hr as [s _|trace s [d f] s' Hr IH Hstep]; intros o Ho n Hn; [by apply elem_of_nil in Hn|].
  assert (exists s', step s (d, f) s') as Hex by eauto.
  apply (reach_refines _ _ _ _ _ Hr) in Hex as [Hf [_ Hadm]].
  rewrite payloads_snoc, map_app in Hn. rewrite opening_app in Ho. apply elem_of_app in Hn as [Hn|Hn].
  - destruct f as [p|q|b| |t]; try (by apply (IH o)). exfalso. destruct Hadm as (_ & Hno & _).
    pose proof (no_payloads side op trace s Hr Hno) as Hnp. rewrite Hnp in Hn. by apply elem_of_nil in Hn.
  - destruct f as [p|q|b| |t]; try (cbn in Hn; by apply elem_of_nil in Hn).
    destruct (decide (d = side)) as [->|Hd]; [|rewrite data_of_other in Hn by done; by apply elem_of_nil in Hn].
    rewrite data_of_same in Hn. apply list_elem_of_singleton in Hn as ->.
    destruct Hadm as (o' & Ho' & _ & Hb & _). cbn in Ho. rewrite Ho' in Ho. injection Ho as <-. split; [|done].
    destruct (Frame_header (FData b)) as [h|] eqn:Hh; [|done]. pose proof (Frame_header_data _ _ Hh) as ->.
    apply Frame_header_Ok in Hh as ([[] Hz] & _). cbn in *. pose proof (len_nonneg b).
    destruct (Z.eq_dec (len b) 0); [|lia]. naive_solver.
Qed.

(** The agent's frames of a trace: its data, and its end after it. *)
Lemma agent_frames op trace s : reach op trace s ->
  frames_of Agent trace = map FData (payloads Agent trace) ++ (if half_closed Agent trace then [FSendEnd] else []).
Proof.
  induction 1 as [s _|trace s [d f] s' Hr IH Hstep]; [done|].
  assert (exists s', step s (d, f) s') as Hex by eauto.
  apply (reach_refines _ _ _ _ _ Hr) in Hex as [_ [_ Hadm]].
  destruct (decide (d = Agent)) as [->|Hd].
  2: { by rewrite other_frames, other_payloads, other_end. }
  rewrite frames_of_snoc, payloads_snoc, half_closed_snoc, map_app, IH. unfold is_end. cbn [fst snd].
  rewrite decide_True by done.
  destruct f as [p|q|b| |t]; try (destruct Hadm as [? _]; done).
  - destruct Hadm as (? & _ & Hn & _). rewrite Hn, data_of_same, andb_false_r. cbn. by rewrite !app_nil_r.
  - destruct Hadm as [_ Hn]. rewrite Hn, bool_decide_true by done. cbn. by rewrite !app_nil_r.
Qed.

Lemma spells_plain chunks (ended : bool) bytes :
  spells (map FData chunks ++ (if ended then [FSendEnd] else [])) bytes ->
  bytes = mjoin (map data_wire chunks) ++ (if ended then end_wire else []).
Proof.
  intros (parts & Hp & ->). apply Forall2_app_inv_l in Hp as (p1 & p2 & H1 & H2 & ->). rewrite join_app. f_equal.
  - revert p1 H1. induction chunks as [|c chunks IH]; intros p1 H1; inversion H1 as [|? b ? bs Hc Hr]; subst; [done|].
    apply encodes_data in Hc as ->. cbn [mjoin list_join map]. f_equal. by apply IH.
  - destruct ended; inversion H2 as [|? b ? bs Hc Hr]; subst; [|done]. apply encodes_end in Hc as ->.
    by inversion Hr.
Qed.

End Wire.

(** The payloads of frames. *)
Definition bytes_of (f : Frame) : list byte := match f with FData b => b | _ => [] end.

Section Free.
Context `{Base64} `{Serde}.

(** ** Prefix-free frames *)

Lemma encodes_length f b : encodes f b -> (5 <= length b)%nat.
Proof. intros (h & p & _ & -> & _). rewrite length_app, Header_encode_length. lia. Qed.

Lemma encodes_free f g b c x y : encodes f b -> encodes g c -> b ++ x = c ++ y ->
  b = c /\ kind_of f = kind_of g /\ bytes_of f = bytes_of g.
Proof.
  intros (h & p & Hw & -> & Hd) (h' & p' & Hw' & -> & Hd') Heq. rewrite <-!app_assoc in Heq.
  apply app_inj_1 in Heq as [Hh Hp]; [|by rewrite !Header_encode_length].
  assert (h = h') as <-.
  { apply (f_equal Header_parse) in Hh. rewrite !Header_encode_parse in Hh by done. congruence. }
  pose proof (decode_kind _ _ _ Hd) as [Hk Hl]. pose proof (decode_kind _ _ _ Hd') as [Hk' Hl'].
  apply app_inj_1 in Hp as [<- _]; [|unfold len in *; lia].
  split; [done|]. rewrite Hd in Hd'. by injection Hd' as ->.
Qed.

(** The beginning of a frame that is not whole. *)
Definition incomplete (bytes : list byte) : Prop := forall f b, encodes f b -> ~ b `prefix_of` bytes.

Lemma incomplete_short bytes : (length bytes < 5)%nat -> incomplete bytes.
Proof. intros Hl f b He Hp. apply encodes_length in He. apply prefix_length in Hp. lia. Qed.
Lemma incomplete_data n m part : 0 <= n <= 5 -> len part < m -> part = [] \/ n = 5 -> wf_header (mkHeader KData m) ->
  incomplete (take (Z.to_nat n) (Header_encode (mkHeader KData m)) ++ part).
Proof.
  intros Hn Hm Hp Hw. destruct (Z.eq_dec n 5) as [->|Hlt].
  - rewrite take_ge by by rewrite Header_encode_length. intros f b (h & p & Hwh & -> & Hd) [x Hx].
    rewrite <-app_assoc in Hx. apply app_inj_1 in Hx as [Hh Hx]; [|by rewrite !Header_encode_length].
    apply (f_equal Header_parse) in Hh. rewrite !Header_encode_parse in Hh by done. injection Hh as <-.
    apply decode_kind in Hd as [_ Hl]. cbn in Hl. apply (f_equal length) in Hx. rewrite length_app in Hx. unfold len in *. lia.
  - destruct Hp as [->|?]; [|lia]. rewrite app_nil_r. apply incomplete_short. rewrite length_take, Header_encode_length. lia.
Qed.

(** The beginning of a frame: all of it, or less. *)
Lemma part_of_frame f b part : encodes f b -> part `prefix_of` b ->
  exists fs ps current, part = mjoin ps ++ current /\ Forall2 encodes fs ps /\ incomplete current /\ (fs = [] \/ fs = [f]).
Proof.
  intros He Hp. destruct (decide (part = b)) as [->|Hne].
  - exists [f], [b], []. split; [cbn; by rewrite !app_nil_r|]. split; [by constructor|]. split; [|by right].
    apply incomplete_short. cbn. lia.
  - exists [], [], part. split; [done|]. split; [constructor|]. split; [|by left].
    intros g c Hg [x Hx]. destruct Hp as [y Hy]. rewrite Hx, <-app_assoc in Hy.
    destruct (encodes_free f g b c [] (x ++ y) He Hg) as (-> & _); [by rewrite app_nil_r|].
    apply Hne. rewrite Hx. rewrite <-(app_nil_r c) in Hy at 1. apply app_inv_head in Hy. symmetry in Hy.
    apply app_nil in Hy as [-> _]. apply app_nil_r.
Qed.
End Free.
