(* ===== verification/Framed.v ===== *)
(** * The daemon's end of a stream ([aap-http/src/stream/framed.rs], [aap-http/src/stream.rs])

    One socket, the framing state of both directions, and the attachment that the
    engine reads and writes. The socket is the environment: an [Io] holds what one
    poll observes of it, and a [Socket] what has gone over it. Wake-ups and the
    mutex's poisoning are left out. *)
From S2P Require Import Prelude Protocol Ids Stream Sequence Decoder Wire.

(** ** State *)

(** `aap-http/src/stream/framed.rs:34-39`, `Output` *)
Record Output := mkOutput { header : list byte; written : Z; remaining : Z; end_ : bool }.

(** `aap-http/src/stream/framed.rs:21-33`, `State`; [io] is whether the socket is held,
    [unparsed] the pending payload *)
Record Framed := mkFramed {
  io : bool;
  sequence : Sequence;
  decoder : Decoder;
  unparsed : list byte;
  scratch : list byte;
  start : Z;
  filled : Z;
  max_data : Z;
  output : option Output;
  failure : option AttachmentError;
  retired : bool }.

Definition with_io (b : bool) (f : Framed) : Framed :=
  mkFramed b (sequence f) (decoder f) (unparsed f) (scratch f) (start f) (filled f) (max_data f)
    (output f) (failure f) (retired f).
Definition with_sequence (s : Sequence) (f : Framed) : Framed :=
  mkFramed (io f) s (decoder f) (unparsed f) (scratch f) (start f) (filled f) (max_data f)
    (output f) (failure f) (retired f).
Definition with_decoder (d : Decoder) (f : Framed) : Framed :=
  mkFramed (io f) (sequence f) d (unparsed f) (scratch f) (start f) (filled f) (max_data f)
    (output f) (failure f) (retired f).
Definition with_unparsed (bytes : list byte) (f : Framed) : Framed :=
  mkFramed (io f) (sequence f) (decoder f) bytes (scratch f) (start f) (filled f) (max_data f)
    (output f) (failure f) (retired f).
Definition with_scratch (bytes : list byte) (from upto : Z) (f : Framed) : Framed :=
  mkFramed (io f) (sequence f) (decoder f) (unparsed f) bytes from upto (max_data f)
    (output f) (failure f) (retired f).
Definition with_output (o : option Output) (f : Framed) : Framed :=
  mkFramed (io f) (sequence f) (decoder f) (unparsed f) (scratch f) (start f) (filled f) (max_data f)
    o (failure f) (retired f).
Definition with_failure (e : option AttachmentError) (f : Framed) : Framed :=
  mkFramed (io f) (sequence f) (decoder f) (unparsed f) (scratch f) (start f) (filled f) (max_data f)
    (output f) e (retired f).

(** [scratch[start..filled]]. *)
Definition unread (f : Framed) : list byte :=
  take (Z.to_nat (filled f - start f)) (drop (Z.to_nat (start f)) (scratch f)).

(** What one poll observes of the socket: what its reads return (nothing is the end
    of the stream), whether a read of one byte finds one, and what its writes of
    the header and of the payload return. *)
Record Io := mkIo {
  incoming : nat -> poll (result unit (list byte));
  probe : poll (result unit bool);
  takes_header : nat -> poll (result unit Z);
  takes_payload : poll (result unit Z) }.

Abbreviation World := (Framed * Socket)%type.
Abbreviation P := (polled World AttachmentError).

Definition on_state (g : Framed -> Framed) : P unit := pput (fun w => (g w.1, w.2)).
Definition on_socket (g : Socket -> Socket) : P unit := pput (fun w => (w.1, g w.2)).
Definition asks {A} (g : Framed -> A) : P A := fun w => (w, PollReady (Ok (g w.1))).

(** ** Operations *)

Section Framed.
Context `{Base64} `{Serde}.

(** `aap-http/src/stream/framed.rs:355-361`, `classify` *)
Definition classify (e : Error) : AttachmentError :=
  if bool_decide (code e = LimitExceeded) then TooLarge else BadFrame.

(** `aap-http/src/stream/framed.rs:43-65`, `channel` *)
Definition channel (request : Open) (opened : Opened) : Result Framed :=
  sequence ← Sequence_new request;
  match accept sequence Daemon (FOpened opened) with
  | (Err e, _) => Err e
  | (Ok _, sequence) =>
      Ok (mkFramed true sequence Decoder_default [] (replicate 1024 "000"%char) 0 0
            (max_data_bytes opened) None None false)
  end.

(** `aap-http/src/stream/framed.rs:156-164`, `State::capture` *)
Definition capture {A} (m : P A) : P A := fun w =>
  match m w with
  | ((f, s), PollReady (Err e)) =>
      ((with_failure (Some (default e (failure f))) f, s), PollReady (Err e))
  | r => r
  end.

(** `aap-http/src/stream/framed.rs:165-174`, `State::retire` *)
Definition retire (f : Framed) : Framed :=
  mkFramed (io f) (sequence f) Decoder_default [] [] 0 0 (max_data f) (output f) (failure f) true.

(** `aap-http/src/stream/framed.rs:175-183`, `State::check` *)
Definition check : P unit := fun w =>
  (w, PollReady match failure w.1 with
                | Some e => Err e
                | None => if retired w.1 || negb (io w.1) then Err Lost else Ok tt
                end).

(** `aap-http/src/stream/framed.rs:184-208`, `State::watch_end` *)
Definition watch_end (e : Io) (f : Framed) : Framed * option AttachmentError :=
  if bool_decide (is_Some (failure f)) then (f, failure f)
  else if retired f || negb (ended (sequence f) Agent) then (f, None)
  else
    let error :=
      if start f <? filled f then Some BadFrame
      else if io f then
        match probe e with
        | PollPending => None
        | PollReady (Ok true) => Some BadFrame
        | PollReady _ => Some Lost
        end
      else Some Lost in
    (with_failure error f, error).

(** [if let Some(error) = self.watch_end(cx) { return Poll::Ready(Err(error)); }] *)
Definition watched (e : Io) : P unit := fun w =>
  let '(f, error) := watch_end e w.1 in
  ((f, w.2), PollReady match error with Some error => Err error | None => Ok tt end).

(** `aap-http/src/stream/framed.rs:258-269`, `State::read`: the read of the socket *)
Definition fill (k : nat) (e : Io) : P unit :=
  match incoming e k with
  | PollPending => pwait
  | PollReady (Err _) => pfail Lost
  | PollReady (Ok bytes) =>
      _ ← on_socket (receive bytes);
      _ ← on_state (fun f => with_scratch (bytes ++ drop (length bytes) (scratch f)) 0 (len bytes) f);
      if len bytes =? 0 then pfail Lost else mret tt
  end.

(** `aap-http/src/stream/framed.rs:237-248`, `State::read`: a step of the decoder; the
    first component is whether the call answers with the end *)
Definition parse_input : P (option (option (list byte))) := fun w =>
  let '(f, s) := w in
  let '(r, d, input, sq) := next (decoder f) (unread f) (sequence f) Agent in
  let f := with_sequence sq (with_decoder d f) in
  match r with
  | Err e => ((f, s), PollReady (Err (classify e)))
  | Ok frame =>
      let f := with_scratch (scratch f) (filled f - len input) (filled f) f in
      match frame with
      | Some (FData bytes) => ((with_unparsed bytes f, s), PollReady (Ok (Some (Some bytes))))
      | Some FSendEnd => ((f, s), PollReady (Ok (Some None)))
      | Some _ => ((f, s), PollReady (Err BadFrame))
      | None => ((f, s), PollReady (Ok None))
      end
  end.

(** `aap-http/src/stream/framed.rs:219-272`, `State::read`: the loop; [k] counts the rounds *)
Fixpoint read_rounds (rounds k : nat) (size : Z) (e : Io) : P (list byte) :=
  match rounds with
  | O => pwait
  | S rounds =>
      bytes ← asks unparsed;
      if negb (bool_decide (bytes = [])) then
        let count := Z.to_nat (Z.min size (len bytes)) in
        _ ← on_state (with_unparsed (drop count bytes)); mret (take count bytes)
      else
        over ← asks (fun f => ended (sequence f) Agent);
        if over : bool then _ ← watched e; mret []
        else
          more ← asks (fun f => start f <? filled f);
          parsed ← (if more : bool then parse_input else mret None);
          match parsed with
          | Some (Some _) => read_rounds rounds (S k) size e
          | Some None => _ ← watched e; mret []
          | None => _ ← fill k e; read_rounds rounds (S k) size e
          end
  end.

(** `aap-http/src/stream/framed.rs:209-218`, `State::read`; [size] is the buffer's
    length and the answer its filled part *)
Definition read (size : Z) (e : Io) : P (list byte) :=
  _ ← check;
  if size =? 0 then mret [] else read_rounds 4 0 size e.

(** `aap-http/src/stream/framed.rs:274-286`, `State::begin` *)
Definition begin (frame : Frame) : P unit := fun w =>
  let '(f, s) := w in
  match Frame_encode frame with
  | Err e => ((f, s), PollReady (Err (classify e)))
  | Ok encoded =>
      match accept (sequence f) Daemon frame with
      | (Err e, sq) => ((with_sequence sq f, s), PollReady (Err (classify e)))
      | (Ok _, sq) =>
          ((with_output (Some (mkOutput (encoded_header encoded) 0 (len (payload encoded))
              (match frame with FSendEnd => true | _ => false end))) (with_sequence sq f), s),
           PollReady (Ok tt))
      end
  end.

(** `aap-http/src/stream/framed.rs:287-302`, `State::header`: the writes that are left,
    at most five; [k] counts them *)
Fixpoint write_header (writes k : nat) (e : Io) : P unit := fun w =>
  match output w.1 with
  | None => (w, PollReady (Err Internal))
  | Some o =>
      if 5 <=? written o then (w, PollReady (Ok tt))
      else match writes with
      | O => (w, PollPending)
      | S writes =>
          match takes_header e k with
          | PollPending => (w, PollPending)
          | PollReady (Ok count) =>
              if (0 <? count) && (count <=? 5 - written o) then
                write_header writes (S k) e
                  (with_output (Some (mkOutput (header o) (written o + count) (remaining o) (end_ o))) w.1,
                   transmit (take (Z.to_nat count) (drop (Z.to_nat (written o)) (header o))) w.2)
              else (w, PollReady (Err Lost))
          | PollReady (Err _) => (w, PollReady (Err Lost))
          end
      end
  end.

(** `aap-http/src/stream/framed.rs:323-337`, `State::write`: the payload *)
Definition write_payload (bytes : list byte) (e : Io) : P Z := fun w =>
  match output w.1 with
  | None => (w, PollReady (Err Internal))
  | Some o =>
      let length := Z.min (len bytes) (remaining o) in
      match takes_payload e with
      | PollPending => (w, PollPending)
      | PollReady (Ok count) =>
          if (0 <? count) && (count <=? length) then
            let rest := remaining o - count in
            ((with_output (if rest =? 0 then None
                           else Some (mkOutput (header o) (written o) rest (end_ o))) w.1,
              transmit (take (Z.to_nat count) bytes) w.2), PollReady (Ok count))
          else (w, PollReady (Err Lost))
      | PollReady (Err _) => (w, PollReady (Err Lost))
      end
  end.

(** [self.output.as_ref().unwrap().end]. *)
Definition output_end (f : Framed) : bool := match output f with Some o => end_ o | None => false end.

(** `aap-http/src/stream/framed.rs:303-338`, `State::write` *)
Definition write (bytes : list byte) (e : Io) : P Z :=
  _ ← check;
  _ ← watched e;
  if bool_decide (bytes = []) then mret 0
  else
    idle ← asks (fun f => bool_decide (output f = None));
    limit ← asks max_data;
    _ ← (if idle : bool then begin (FData (take (Z.to_nat (Z.min (len bytes) limit)) bytes)) else mret tt);
    ending ← asks output_end;
    if ending : bool then pfail BadFrame
    else _ ← write_header 5 0 e; write_payload bytes e.

(** `aap-http/src/stream/framed.rs:351-351`, `State::end` *)
Definition finish_output : P unit := on_state (with_output None).

(** `aap-http/src/stream/framed.rs:339-353`, `State::end` *)
Definition send_end (e : Io) : P unit :=
  _ ← check;
  _ ← watched e;
  idle ← asks (fun f => bool_decide (output f = None));
  _ ← (if idle : bool then begin FSendEnd else mret tt);
  ending ← asks output_end;
  if negb ending then pfail BadFrame
  else _ ← write_header 5 0 e; finish_output.

(** ** The control handle *)

(** `aap-http/src/stream/framed.rs:103-112`, `Control::drop` *)
Definition drop_control (f : Framed) : Framed := retire (with_io false f).

(** [write_all] of a whole frame within its time: [None] when everything went out,
    otherwise how much did. *)
Definition write_all (encoded : Encoded) (sent : option nat) (s : Socket) : Socket * Result unit :=
  match sent with
  | None => (transmit (wire encoded) s, Ok tt)
  | Some n => (transmit (take n (wire encoded)) s, fail ResultUnavailable)
  end.

(** `aap-http/src/stream/framed.rs:75-102`, `Control::finish`; the handle is dropped
    when it returns *)
Definition conclude (t : Terminal) (sent : option nat) (w : World) : World * Result unit :=
  let '(f, s) := w in
  let frame := FTerminal t in
  match Frame_encode frame with
  | Err e => ((drop_control f, s), Err e)
  | Ok encoded =>
      if negb (retired f)
         || match output f with
            | Some o => negb (written o =? 0) || bool_decide (cause t = OrderlyEnd)
            | None => false
            end
      then ((drop_control f, s), fail ResultUnavailable)
      else
        let f := with_output None f in
        let '(r, sq) := accept (sequence f) Daemon frame in
        let f := with_sequence sq f in
        match r with
        | Err e => ((drop_control f, s), Err e)
        | Ok _ =>
            if negb (io f) then ((drop_control f, s), fail ResultUnavailable)
            else let '(s, r) := write_all encoded sent s in ((drop_control f, s), r)
        end
  end.

(** ** What happens to an attachment *)

(** The engine polls the attachment and drops it; the adapter polls its control. *)
Inductive Move :=
  | PollRead (size : Z) (e : Io)
  | PollWrite (bytes : list byte) (e : Io)
  | PollSendEnd (e : Io)
  | PollFault (e : Io)
  | DropAttachment.

(** What the engine has been told: bytes handed to it, the end of what the agent
    sends, bytes taken from it, and its own end accepted. *)
Inductive Act := Handed (bytes : list byte) | HandedEnd | Taken (bytes : list byte) | TakenEnd.

Definition answers {A} (g : A -> list Act) (m : P A) (w : World) : World * list Act :=
  match capture m w with
  | (w, PollReady (Ok a)) => (w, g a)
  | (w, _) => (w, [])
  end.

(** `aap-http/src/stream/framed.rs:121-154`, `Attachment`, and of its control
    [fault] (`framed.rs:69-74`) and of its drop (`framed.rs:113-120`) *)
Definition act (m : Move) (w : World) : World * list Act :=
  match m with
  | PollRead size e =>
      answers (fun bytes => if size =? 0 then [] else if bool_decide (bytes = []) then [HandedEnd] else [Handed bytes])
        (read size e) w
  | PollWrite bytes e => answers (fun n => [Taken (take (Z.to_nat n) bytes)]) (write bytes e) w
  | PollSendEnd e => answers (fun _ => [TakenEnd]) (send_end e) w
  | PollFault e => (((watch_end e w.1).1, w.2), [])
  | DropAttachment => ((retire w.1, w.2), [])
  end.

Fixpoint acts (l : list Move) (w : World) : World * list Act :=
  match l with
  | [] => (w, [])
  | m :: l => let '(w, a) := act m w in let '(w, b) := acts l w in (w, a ++ b)
  end.

(** ** A whole attachment *)

(** `aap-http/src/stream.rs:116-126`, `forbidden`: input that there must not be yet *)
Definition forbidden_input (found : poll (result unit bool)) : option AttachmentError :=
  match found with
  | PollPending => None
  | PollReady (Ok true) => Some BadFrame
  | PollReady _ => Some Lost
  end.

(** One poll of the writer of OPENED: what a read finds, and what the writes take. *)
Record Writing := mkWriting { finds : poll (result unit bool); writes : nat -> poll (result unit Z) }.

(** `aap-http/src/stream.rs:138-155`, `write_opened`: the writes of one poll, [Some]
    when it answers *)
Fixpoint opened_writes (rounds k : nat) (bytes : list byte) (offset : nat) (p : Writing) (s : Socket) :
  nat * Socket * option (result AttachmentError unit) :=
  match rounds with
  | O => (offset, s, None)
  | S rounds =>
      let left := if (offset <? 5)%nat then take (5 - offset) (drop offset bytes) else drop offset bytes in
      if bool_decide (left = []) then (offset, s, Some (Ok tt))
      else match writes p k with
      | PollPending => (offset, s, None)
      | PollReady (Ok count) =>
          if (0 <? count) && (count <=? len left) then
            let offset := (offset + Z.to_nat count)%nat in
            let s := transmit (take (Z.to_nat count) left) s in
            if (offset =? length bytes)%nat then (offset, s, Some (Ok tt))
            else opened_writes rounds (S k) bytes offset p s
          else (offset, s, Some (Err Lost))
      | PollReady (Err _) => (offset, s, Some (Err Lost))
      end
  end.

(** `aap-http/src/stream.rs:128-159`, `write_opened`: its polls until it answers; [None]
    when it is given up before *)
Fixpoint write_opened (polls : list Writing) (bytes : list byte) (offset : nat) (s : Socket) :
  Socket * option (result AttachmentError unit) :=
  match polls with
  | [] => (s, None)
  | p :: polls =>
      match forbidden_input (finds p) with
      | Some reason => (s, Some (Err reason))
      | None =>
          match opened_writes 4 0 bytes offset p s with
          | (_, s, Some r) => (s, Some r)
          | (offset, s, None) => write_opened polls bytes offset s
          end
      end
  end.

Inductive Connection := Refused (t : Terminal) | Connected.

(** What a whole attachment observes: the connection that the session service makes
    ([None] when it takes too long), the opening record it gives, the polls of its
    writer, what happens until the relay returns, what it returns, and how much of
    the final frame goes out. *)
Record Hosting := mkHosting {
  connects : option (Result Connection);
  opens : Result Opened;
  opening_polls : list Writing;
  relaying : list Move;
  relays : option (Result Terminal);
  final : option nat }.

(** `aap-http/src/stream.rs:26-114`, `serve_upgraded`: the socket, what the engine has
    been told, and the answer *)
Definition serve_upgraded (request : Open) (h : Hosting) (s : Socket) :
  Socket * list Act * Result Terminal :=
  match Open_validate request with
  | Err e => (s, [], Err e)
  | Ok _ =>
      match connects h with
      | None => (s, [], fail ResultUnavailable)
      | Some (Err e) => (s, [], Err e)
      | Some (Ok (Refused t)) =>
          match sequence ← Sequence_new request; (accept sequence Daemon (FTerminal t)).1 with
          | Err e => (s, [], Err e)
          | Ok _ =>
              match Frame_encode (FTerminal t) with
              | Err e => (s, [], Err e)
              | Ok encoded =>
                  let '(s, r) := write_all encoded (final h) s in (s, [], _ ← r; Ok t)
              end
          end
      | Some (Ok Connected) =>
          match opened ← opens h;
                sequence ← Sequence_new request;
                _ ← (accept sequence Daemon (FOpened opened)).1;
                encoded ← Frame_encode (FOpened opened);
                Ok (opened, encoded) with
          | Err e => (s, [], Err e)
          | Ok (opened, encoded) =>
              match write_opened (opening_polls h) (wire encoded) 0 s with
              | (s, Some (Ok _)) =>
                  match channel request opened with
                  | Err e => (s, [], Err e)
                  | Ok f =>
                      let '(w, l) := acts (relaying h) (f, s) in
                      match relays h with
                      | None => (w.2, l, fail ResultUnavailable)
                      | Some (Err e) => (w.2, l, Err e)
                      | Some (Ok t) => let '(w, r) := conclude t (final h) w in (w.2, l, _ ← r; Ok t)
                      end
                  end
              | (s, _) => (s, [], fail ResultUnavailable)
              end
          end
      end
  end.
End Framed.
