(* ===== verification/FramedFacts.v ===== *)
(** * The daemon's end of a stream: what goes over the wire

    The invariant of an attachment relates the bytes of the socket to the trace of
    frames that its framing state has accepted and to what the engine has been told.
    What [serve_upgraded] has put on the wire when it answers with a terminal result is
    a whole conversation: the agent's own framing state decodes it to the end. *)
From S2P Require Import Prelude Protocol Ids Stream Sequence Decoder Wire Framed.

Definition handed (l : list Act) : list byte := l ≫= fun a => match a with Handed b => b | _ => [] end.
Definition taken (l : list Act) : list byte := l ≫= fun a => match a with Taken b => b | _ => [] end.
Lemma handed_app l k : handed (l ++ k) = handed l ++ handed k.
Proof. apply bind_app. Qed.
Lemma chunks_taken_app l k : taken (l ++ k) = taken l ++ taken k.
Proof. apply bind_app. Qed.

Definition alive (f : Framed) : Prop := failure f = None /\ retired f = false.

Section Facts.
Context `{Base64} `{Serde}.
(** What was on the wire before the attachment, and whether the engine asks for the end. *)
Context (base : list byte) (asked : Prop).

(** ** The invariant *)

(** What has come in: the encodings of the agent's frames, and the rest of it, which
    the decoder and the scratch buffer hold while the attachment lives. *)
Definition Coming (trace : list event) (f : Framed) (s : Socket) (l : list Act) : Prop :=
  exists eaten rest, got s = eaten ++ rest /\ spells (frames_of Agent trace) eaten
  /\ handed l `prefix_of` mjoin (payloads Agent trace)
  /\ (alive f ->
      rest = held (decoder f) ++ unread f /\ wf (decoder f) /\ failed (decoder f) = false
      /\ mjoin (payloads Agent trace) = handed l ++ unparsed f
      /\ (half_closed Agent trace = true -> held (decoder f) = [])
      /\ 0 <= start f <= filled f /\ filled f <= len (scratch f))
  /\ (HandedEnd ∈ l -> half_closed Agent trace = true /\ rest = [] /\ handed l = mjoin (payloads Agent trace)).

(** The frame that is being written: the part of its payload that is out, and what of
    it is on the wire. *)
Definition under_way (trace : list event) (o : option Output) (part current : list byte) : Prop :=
  match o with
  | None => part = [] /\ current = if half_closed Daemon trace then end_wire else []
  | Some o =>
      0 <= written o <= 5
      /\ half_closed Daemon trace = end_ o
      /\ if end_ o
         then header o = end_wire /\ part = [] /\ current = take (Z.to_nat (written o)) (header o)
         else header o = Header_encode (mkHeader KData (len part + remaining o)) /\ 0 < remaining o
              /\ wf_header (mkHeader KData (len part + remaining o)) /\ (part = [] \/ written o = 5)
              /\ current = take (Z.to_nat (written o)) (header o) ++ part
  end.

(** The length of the payload that is announced but not yet out in full. *)
Definition announced (o : option Output) (part : list byte) : list Z :=
  match o with Some o => if end_ o then [] else [len part + remaining o] | None => [] end.

(** What has gone out: whole data frames, whose payloads are what was taken from the
    engine, and the frame under way. *)
Definition Going (trace : list event) (f : Framed) (s : Socket) (l : list Act) : Prop :=
  exists chunks part current, put s = base ++ mjoin (map data_wire chunks) ++ current
  /\ taken l = mjoin chunks ++ part
  /\ map len (payloads Daemon trace) = map len chunks ++ announced (output f) part
  /\ Forall (fun c => wf_header (mkHeader KData (len c))) chunks
  /\ under_way trace (output f) part current
  /\ (TakenEnd ∈ l -> output f = None /\ half_closed Daemon trace = true).

(** The daemon has not sent a result, and its end only if the engine asked for it. *)
Definition Running (trace : list event) : Prop :=
  terminated trace = false /\ (half_closed Daemon trace = true -> asked).

Definition Inv (op : Open) (o : Opened) (w : World) (l : list Act) : Prop :=
  exists trace, reach op trace (sequence w.1) /\ opening trace = Some o /\ Running trace
  /\ Coming trace w.1 w.2 l /\ Going trace w.1 w.2 l.

(** ** Frame properties *)

Lemma Coming_daemon trace f s l frame : Coming trace f s l -> Coming (trace ++ [(Daemon, frame)]) f s l.
Proof. unfold Coming. by rewrite other_payloads, other_frames, other_end. Qed.
Lemma Going_agent trace f s l frame : Going trace f s l -> Going (trace ++ [(Agent, frame)]) f s l.
Proof. unfold Going, under_way. by rewrite other_payloads, other_end. Qed.

(** A state that keeps what matters to what goes out. *)
Lemma Going_ext trace f f' s s' l : output f' = output f -> put s' = put s -> Going trace f s l -> Going trace f' s' l.
Proof. unfold Going. by intros -> ->. Qed.
(** A state that no longer lives keeps the record of what has come in. *)
Lemma Coming_dead trace f f' s l : ~ alive f' -> Coming trace f s l -> Coming trace f' s l.
Proof. intros Hn (eaten & rest & Hg & Hsp & Hp & _ & He). exists eaten, rest. by split_and!. Qed.

(** What the engine is told of one direction leaves the other as it is. *)
Lemma Coming_act trace f s l a : handed [a] = [] -> a <> HandedEnd -> Coming trace f s l -> Coming trace f s (l ++ [a]).
Proof.
  intros Ha Hn (eaten & rest & Hgot & Hsp & Hpre & Hlive & Hend). exists eaten, rest. rewrite handed_app, Ha, app_nil_r.
  split_and!; try done. intros [Hx|Hx%list_elem_of_singleton]%elem_of_app; [auto|congruence].
Qed.
Lemma Going_act trace f s l a : taken [a] = [] -> a <> TakenEnd -> Going trace f s l -> Going trace f s (l ++ [a]).
Proof.
  intros Ha Hn (chunks & part & current & Hp & Htk & Hlen & Hw & Huw & Hte). exists chunks, part, current.
  rewrite chunks_taken_app, Ha, app_nil_r. do 5 (split; [done|]).
  intros [Hx|Hx%list_elem_of_singleton]%elem_of_app; [auto|congruence].
Qed.

Lemma Inv_dead op o f f' s l : sequence f' = sequence f -> output f' = output f -> ~ alive f' ->
  Inv op o (f, s) l -> Inv op o (f', s) l.
Proof.
  intros Hs Ho Hn (trace & Hr & Hop & Ht & Hc & Hg). exists trace. cbn in *. rewrite Hs.
  split_and!; try done; [by eapply Coming_dead|by eapply Going_ext].
Qed.

(** ** A poll *)

Context (op : Open) (o : Opened) (l : list Act).

Definition waits (w : World) : Prop := Inv op o w l.
Definition fails (e : AttachmentError) (w : World) : Prop :=
  Inv op o (with_failure (Some (default e (failure w.1))) w.1, w.2) l.
Abbreviation holds m post w := (wp waits fails m post w).

Lemma dead_failure e f : ~ alive (with_failure (Some e) f).
Proof. by intros [? _]. Qed.
Lemma fails_inv e w : Inv op o w l -> fails e w.
Proof. destruct w as [f s]. intros Hi. apply (Inv_dead op o f); [done..|apply dead_failure|exact Hi]. Qed.
Lemma failure_eta f : failure f = None -> with_failure None f = f.
Proof. destruct f; cbn. by intros ->. Qed.

(** ** What comes in *)

Lemma check_holds w : Inv op o w l -> holds check (fun _ w' => w' = w /\ alive w.1) w.
Proof.
  intros Hi. unfold wp, check, alive. destruct (failure w.1) as [e|] eqn:Hf; [by apply fails_inv|].
  destruct (retired w.1) eqn:Hr; cbn; [by apply fails_inv|]. destruct (io w.1); cbn; [done|by apply fails_inv].
Qed.

Lemma watched_holds e w : Inv op o w l -> alive w.1 ->
  holds (watched e) (fun _ w' => w' = w /\ (ended (sequence w.1) Agent = true -> filled w.1 <= start w.1)) w.
Proof.
  intros Hi [Hf Hr]. unfold wp, watched, watch_end. rewrite Hf, Hr.
  rewrite bool_decide_false by (by intros []). cbn [orb].
  destruct (ended (sequence w.1) Agent) eqn:He; cbn [negb]; [|by destruct w].
  assert (forall e, fails e (with_failure (Some e) w.1, w.2)) as Hd.
  { intros e'. destruct w as [f s]. apply (Inv_dead op o f); [done..|apply dead_failure|exact Hi]. }
  destruct (Z.ltb_spec (start w.1) (filled w.1)); [apply Hd|].
  assert (with_failure None w.1 = w.1) as Hn by by apply failure_eta.
  destruct (io w.1); [|apply Hd]. destruct (probe e) as [|[[]|]]; try apply Hd; rewrite Hn; by destruct w.
Qed.

Lemma unread_empty f : filled f <= start f -> unread f = [].
Proof. intros. unfold unread. replace (Z.to_nat (filled f - start f)) with 0%nat by lia. apply take_0. Qed.
Lemma unread_nil f : 0 <= start f <= filled f -> filled f <= len (scratch f) -> unread f = [] -> filled f <= start f.
Proof.
  unfold unread, len. intros Hs Hl Hu. apply (f_equal length) in Hu. rewrite length_take, length_drop in Hu.
  cbn in Hu. lia.
Qed.
(** The scratch buffer after the decoder has left [input] of it. *)
Lemma unread_left f eaten input : 0 <= start f <= filled f -> filled f <= len (scratch f) ->
  unread f = eaten ++ input ->
  let f' := with_scratch (scratch f) (filled f - len input) (filled f) f in
  unread f' = input /\ 0 <= start f' <= filled f'.
Proof.
  unfold unread, len. cbn. intros Hs Hl Hu.
  assert (length (eaten ++ input) = Z.to_nat (filled f - start f)) as Hlen.
  { rewrite <-Hu, length_take, length_drop. lia. }
  rewrite length_app in Hlen. split; [|lia].
  apply (f_equal (drop (length eaten))) in Hu. rewrite drop_app_length in Hu. etransitivity; [|exact Hu].
  rewrite skipn_firstn_comm, drop_drop. f_equal; [lia|f_equal; lia].
Qed.

(** What comes in after the decoder has delivered a frame. *)
Lemma parsed_coming trace f s fr eaten ate before input :
  got s = eaten ++ before ++ ate ++ input -> spells (frames_of Agent trace) eaten -> encodes fr (before ++ ate) ->
  HandedEnd ∉ l -> mjoin (payloads Agent (trace ++ [(Agent, fr)])) = handed l ++ unparsed f ->
  unread f = input -> wf (decoder f) -> failed (decoder f) = false -> held (decoder f) = [] ->
  0 <= start f <= filled f -> filled f <= len (scratch f) ->
  Coming (trace ++ [(Agent, fr)]) f s l.
Proof.
  intros Hg Hsp Hen Hno Hp Hu Hw Hf Hh Hb Hl. exists (eaten ++ before ++ ate), input.
  split; [by rewrite Hg, <-!app_assoc|]. split; [rewrite frames_of_snoc; by apply spells_snoc|].
  split; [rewrite Hp; by apply prefix_app_r|]. split; [|done]. intros _. rewrite Hu, Hh. split_and!; (done || lia).
Qed.

(** A step of the decoder in a live attachment whose input has not ended. *)
Lemma parse_holds w : Inv op o w l -> alive w.1 -> unparsed w.1 = [] -> ended (sequence w.1) Agent = false ->
  holds parse_input (fun r w' => Inv op o w' l /\ alive w'.1 /\
    match r with
    | Some (Some _) => True
    | Some None => unparsed w'.1 = [] /\ ended (sequence w'.1) Agent = true
    | None => unparsed w'.1 = [] /\ ended (sequence w'.1) Agent = false /\ unread w'.1 = []
    end) w.
Proof.
  intros (trace & Hr & Ho & Ht & Hc & Hg) Ha Hu He. destruct w as [f s]. cbn in *.
  destruct Hc as (eaten & rest & Hgot & Hsp & Hpre & Hlive & Hend).
  destruct (Hlive Ha) as (Hrest & Hwf & Hfd & Hpay & Hheld & Hb & Hl).
  pose proof (next_eats (decoder f) (unread f) (sequence f) Agent Hwf Hfd) as Hn.
  assert (HandedEnd ∉ l) as Hno. { intros [Hx _]%Hend. by rewrite (reach_ended _ _ _ _ Hr), Hx in He. }
  unfold wp, parse_input. destruct (next _ _ _ _) as [[[r d] input] sq]. cbn in Hn.
  destruct r as [r|er].
  2: { subst sq. apply (Inv_dead op o f); [done..|apply dead_failure|]. exists trace. cbn. split_and!; try done.
       exists eaten, rest. by split_and!. }
  destruct Hn as (Hwd & Hfd' & ate & Hi & Hr').
  destruct (unread_left f ate input) as [Hur Hbo]; [done..|].
  assert (forall f', unparsed f' = match r with Some (FData b) => b | _ => [] end -> decoder f' = d ->
    sequence f' = sq -> unread f' = input -> output f' = output f -> 0 <= start f' <= filled f' ->
    filled f' <= len (scratch f') -> alive f' -> Inv op o (f', s) l /\
    (r = Some FSendEnd -> ended sq Agent = true) /\ match r with None | Some (FData _ | FSendEnd) => True | _ => False end)
    as Hnew.
  { intros f' H1 H2 H3 H4 H5 H6 H7 H8. destruct r as [fr|].
    - destruct Hr' as (Hen & Hh & Hacc). pose proof (agent_plain _ _ _ Hacc) as Hp.
      pose proof (plain_opening Agent trace fr Hp) as [Ho' Ht']. pose proof (reach_accept _ _ _ _ _ _ Hr Hacc) as Hr2.
      split; [|split; [|by destruct fr]].
      + exists (trace ++ [(Agent, fr)]). cbn. rewrite Ho', H3. split_and!; try done.
        * unfold Running. by rewrite Ht', other_end.
        * apply (parsed_coming trace f' s fr eaten ate (held (decoder f)) input); try done;
            [by rewrite Hgot, Hrest, Hi, <-?app_assoc| |by rewrite H2..].
          rewrite H1, payloads_snoc, join_app, Hpay, Hu, app_nil_r. destruct fr; try done; rewrite ?data_of_same; cbn; by rewrite app_nil_r.
        * apply (Going_ext _ f _ s); [done..|]. by apply Going_agent.
      + intros [= ->]. rewrite (reach_ended _ _ _ _ Hr2), half_closed_snoc. unfold is_end. cbn. apply orb_true_r.
    - destruct Hr' as (Hh & -> & ->). split; [|done]. exists trace. cbn. rewrite H3. split_and!; try done.
      + exists eaten, rest. split_and!; try done. intros _. rewrite H1, H2, H4, Hh, app_nil_r, Hrest, Hi, app_nil_r.
        split_and!; try (done || lia); [by rewrite Hpay, Hu|]. intros Hc. rewrite (reach_ended _ _ _ _ Hr) in He. congruence.
      + by apply (Going_ext _ f _ s). }
  destruct r as [[p|q|b| |t]|].
  all: try (destruct (Hnew (with_unparsed [] (with_scratch (scratch f) (filled f - len input) (filled f)
       (with_sequence sq (with_decoder d f))))) as (_ & _ & []); done).
  - split; [apply Hnew; done|]. by split.
  - cbn. destruct (Hnew (with_scratch (scratch f) (filled f - len input) (filled f) (with_sequence sq (with_decoder d f))))
      as (Hi' & Hx & _); try done. split_and!; try done; auto.
  - cbn. destruct Hr' as (_ & Hin & Hsq). split; [apply Hnew; done|]. split_and!; [done..|by rewrite Hsq|].
    exact (eq_trans Hur Hin).
Qed.

Lemma fill_holds k e w : Inv op o w l -> alive w.1 -> unparsed w.1 = [] -> ended (sequence w.1) Agent = false ->
  unread w.1 = [] ->
  holds (fill k e) (fun _ w' => Inv op o w' l /\ alive w'.1 /\ unparsed w'.1 = [] /\ ended (sequence w'.1) Agent = false) w.
Proof.
  intros Hi Ha Hu He Hun. unfold fill. destruct (incoming e k) as [|[bytes|]]; [exact Hi| |by apply fails_inv].
  destruct Hi as (trace & Hr & Ho & Ht & Hc & Hg). destruct w as [f s]. cbn in *.
  destruct Hc as (eaten & rest & Hgot & Hsp & Hpre & Hlive & Hend).
  destruct (Hlive Ha) as (Hrest & Hwf & Hfd & Hpay & Hheld & Hb & Hl).
  set (f' := with_scratch (bytes ++ drop (length bytes) (scratch f)) 0 (len bytes) f).
  assert (unread f' = bytes) as Hun'.
  { unfold unread. replace (Z.to_nat (filled f' - start f')) with (length bytes) by (cbn; unfold len; lia).
    cbn. apply take_app_length. }
  assert (Inv op o (f', receive bytes s) l) as Hi.
  { exists trace. cbn. split_and!; try done. exists eaten, (rest ++ bytes).
    split; [cbn; by rewrite Hgot, <-app_assoc|]. split_and!; try done.
    - intros _. rewrite Hun'. rewrite Hun, app_nil_r in Hrest. rewrite Hrest. cbn. rewrite len_app.
      pose proof (len_nonneg bytes). pose proof (len_nonneg (drop (length bytes) (scratch f))).
      split_and!; (done || lia).
    - intros [Hx _]%Hend. by rewrite (reach_ended _ _ _ _ Hr), Hx in He. }
  unfold wp. cbn. destruct (len bytes =? 0); [by apply fails_inv|]. by split_and!.
Qed.

(** What a read that answered is for the engine. *)
Definition read_acts (size : Z) (bytes : list byte) : list Act :=
  if size =? 0 then [] else if bool_decide (bytes = []) then [HandedEnd] else [Handed bytes].
#[local] Arguments read_acts : simpl never.

Lemma inv_handed f s count : Inv op o (f, s) l -> alive f -> unparsed f <> [] -> 0 < count <= len (unparsed f) ->
  Inv op o (with_unparsed (drop (Z.to_nat count) (unparsed f)) f, s) (l ++ [Handed (take (Z.to_nat count) (unparsed f))]).
Proof.
  intros (trace & Hr & Ho & Ht & Hc & Hg) Ha Hn Hcount. exists trace. cbn in *. split_and!; try done.
  - destruct Hc as (eaten & rest & Hgot & Hsp & Hpre & Hlive & Hend).
    destruct (Hlive Ha) as (Hrest & Hwf & Hfd & Hpay & Hheld & Hb & Hl).
    assert (handed (l ++ [Handed (take (Z.to_nat count) (unparsed f))]) = handed l ++ take (Z.to_nat count) (unparsed f)) as Hh.
    { rewrite handed_app. cbn. by rewrite app_nil_r. }
    exists eaten, rest. rewrite Hh. split_and!; try done.
    + rewrite Hpay. apply prefix_app, prefix_take.
    + intros _. cbn. rewrite <-app_assoc, take_drop. split_and!; (done || lia).
    + intros [Hx|Hx%list_elem_of_singleton]%elem_of_app; [|done]. destruct (Hend Hx) as (_ & _ & Hall).
      rewrite Hall in Hpay. exfalso. apply Hn. apply (app_inv_head (mjoin (payloads Agent trace))). by rewrite app_nil_r.
  - by apply Going_act.
Qed.

Lemma inv_handed_end f s : Inv op o (f, s) l -> alive f -> unparsed f = [] -> ended (sequence f) Agent = true ->
  filled f <= start f -> Inv op o (f, s) (l ++ [HandedEnd]).
Proof.
  intros (trace & Hr & Ho & Ht & Hc & Hg) Ha Hu He Hf. exists trace. cbn in *. split_and!; try done.
  - destruct Hc as (eaten & rest & Hgot & Hsp & Hpre & Hlive & Hend).
    destruct (Hlive Ha) as (Hrest & Hwf & Hfd & Hpay & Hheld & Hb & Hl).
    rewrite (reach_ended _ _ _ _ Hr) in He. rewrite (Hheld He), (unread_empty f Hf) in Hrest.
    rewrite Hu, app_nil_r in Hpay.
    exists eaten, rest. rewrite handed_app. cbn. rewrite app_nil_r. split_and!; try done.
  - by apply Going_act.
Qed.

Lemma rounds_hold rounds k size e w : Inv op o w l -> alive w.1 -> 0 < size ->
  holds (read_rounds rounds k size e) (fun bytes w' => Inv op o w' (l ++ read_acts size bytes)) w.
Proof.
  intros Hi Ha Hs. assert (forall bytes, read_acts size bytes = if bool_decide (bytes = []) then [HandedEnd] else [Handed bytes])
    as Hact. { intros bytes. unfold read_acts. by rewrite (proj2 (Z.eqb_neq _ _)) by lia. }
  revert k w Hi Ha. induction rounds as [|rounds IH]; intros k w Hi Ha; cbn [read_rounds]; [exact Hi|].
  apply wp_bind. cbn [wp asks].
  destruct (bool_decide (unparsed w.1 = [])) eqn:Hu; bool_hyps; cbn [negb].
  2: { destruct w as [f s]. apply wp_bind. cbn in Ha, Hu |- *. rewrite Hact. assert (0 < len (unparsed f)).
       { destruct (unparsed f); [done|]. rewrite len_cons. pose proof (len_nonneg l0). lia. }
       set (n := Z.min size (len (unparsed f))).
       rewrite bool_decide_false; [apply inv_handed; try done; lia|]. intros Hx.
       apply (f_equal length) in Hx. rewrite length_take in Hx. cbn in Hx. unfold len in *. lia. }
  apply wp_bind. cbn [wp asks]. destruct (ended (sequence w.1) Agent) eqn:He.
  { apply wp_bind. eapply wp_mono; [by apply watched_holds|]. intros [] ? [-> Hf]. cbn. rewrite Hact. cbn.
    destruct w. apply inv_handed_end; auto. }
  apply wp_bind. cbn [wp asks]. apply wp_bind.
  apply wp_mono with (post := fun r w' => Inv op o w' l /\ alive w'.1 /\
    match r with
    | Some (Some _) => True
    | Some None => unparsed w'.1 = [] /\ ended (sequence w'.1) Agent = true
    | None => unparsed w'.1 = [] /\ ended (sequence w'.1) Agent = false /\ unread w'.1 = []
    end).
  { destruct (Z.ltb_spec (start w.1) (filled w.1)); [by apply parse_holds|].
    split; [done|]. split; [done|]. split_and!; try done. by apply unread_empty. }
  intros [[b|]|] w' (Hi' & Ha' & Hr); [by apply IH| |].
  - destruct Hr as [Hu' He']. apply wp_bind. eapply wp_mono; [by apply watched_holds|]. intros [] ? [-> Hf].
    cbn. rewrite Hact. cbn. destruct w'. apply inv_handed_end; auto.
  - destruct Hr as (Hu' & He' & Hn'). apply wp_bind. eapply wp_mono; [by apply fill_holds|].
    intros [] w2 (Hi2 & Ha2 & _ & _). by apply IH.
Qed.

Lemma read_holds size e w : Inv op o w l -> 0 <= size ->
  holds (read size e) (fun bytes w' => Inv op o w' (l ++ read_acts size bytes)) w.
Proof.
  intros Hi Hs. unfold read. apply wp_bind. eapply wp_mono; [by apply check_holds|]. intros [] ? [-> Ha].
  unfold read_acts. destruct (Z.eqb_spec size 0) as [->|]; [cbn; by rewrite app_nil_r|].
  eapply wp_mono; [apply rounds_hold; [done..|lia]|]. intros bytes w' Hi'. unfold read_acts in Hi'.
  by rewrite (proj2 (Z.eqb_neq size 0)) in Hi' by done.
Qed.

(** ** What goes out *)

Lemma begin_holds frame w : match frame with FData _ => True | FSendEnd => asked | _ => False end ->
  Inv op o w l -> alive w.1 -> output w.1 = None ->
  holds (begin frame) (fun _ w' => Inv op o w' l /\ alive w'.1 /\ output w'.1 <> None) w.
Proof.
  intros Hq Hi Ha Hout. destruct w as [f s]. cbn in *. unfold wp, begin.
  assert (match frame with FData _ | FSendEnd => True | _ => False end) as Hp by by destruct frame.
  destruct (Frame_encode frame) as [encoded|] eqn:Hen; [|by apply fails_inv].
  destruct (accept (sequence f) Daemon frame) as [[[]|er] sq] eqn:Hacc.
  2: { apply accept_err in Hacc as ->. apply (Inv_dead op o f); [done..|apply dead_failure|done]. }
  split; [|done]. destruct Hi as (trace & Hr & Ho & Ht & Hc & chunks & part & current & Hput & Htk & Hlen & Hw & Huw & Hte).
  cbn in *. rewrite Hout in *. destruct Huw as [-> Hcur]. cbn in Hlen. rewrite app_nil_r in Hlen.
  pose proof (reach_ended _ _ _ Daemon Hr) as Hende.
  assert (half_closed Daemon trace = false) as Hopen.
  { pose proof (reach_accept _ _ _ _ _ _ Hr Hacc) as Hr2. apply reach_limits in Hr as [Hs _].
    rewrite Hs in Hacc. apply accept_spec in Hacc as (h & Hfh & [_ Hh] & _).
    apply Frame_header_Ok in Hfh as (_ & Hk & _). rewrite Hk in Hh. destruct frame; try done; cbn in Hh; naive_solver. }
  rewrite Hopen in Hcur. destruct (plain_opening Daemon trace frame Hp) as [Ho' Ht'].
  exists (trace ++ [(Daemon, frame)]). cbn. rewrite Ho'. split; [by eapply reach_accept|]. split; [done|].
  split. { unfold Running. rewrite Ht', half_closed_snoc, Hopen. split; [apply Ht|]. destruct frame; try done; by intros _. }
  split. { apply (Coming_daemon _ _ _ _ frame) in Hc. exact Hc. }
  exists chunks, [], []. cbn. rewrite half_closed_snoc, Hopen, payloads_snoc, map_app, Hlen.
  split; [by rewrite Hput, Hcur|]. split; [done|].
  destruct frame as [p|q|c| |t]; try done; cbn [is_end snd fst].
  - apply encode_data in Hen as (-> & -> & Hwh). rewrite data_of_same. cbn. replace (len (A:=byte) [] + len c) with (len c) by done.
    assert (0 < len c). { destruct Hwh as [[] Hz]. cbn in Hz. pose proof (len_nonneg c). destruct (Z.eq_dec (len c) 0); naive_solver lia. }
    split_and!; try (done || lia || by left). intros [? ?]%Hte. congruence.
  - apply encode_end in Hen as [-> ->]. cbn. rewrite app_nil_r. split_and!; try (done || lia).
    intros [? ?]%Hte. congruence.
Qed.

Lemma header_holds writes k e w : Inv op o w l -> alive w.1 -> output w.1 <> None ->
  holds (write_header writes k e) (fun _ w' => Inv op o w' l /\ alive w'.1 /\
    exists out out', output w.1 = Some out /\ output w'.1 = Some out' /\ end_ out' = end_ out /\ written out' = 5) w.
Proof.
  revert k w. induction writes as [|writes IH]; intros k w Hi Ha Hn; unfold wp; cbn [write_header];
    (destruct (output w.1) as [out|] eqn:Hout; [|done]);
    (assert (written out <= 5) as Hle;
      [destruct Hi as (? & _ & _ & _ & _ & ? & ? & ? & _ & _ & _ & _ & Huw & _); rewrite Hout in Huw; cbn in Huw; lia|]);
    (destruct (Z.leb_spec 5 (written out)); [split; [done|]; split; [done|]; exists out, out; split_and!; (done || lia)|]).
  { exact Hi. }
  destruct (takes_header e k) as [|[count|]]; [exact Hi| |by apply fails_inv].
  destruct (Z.ltb_spec 0 count); cbn [andb]; [|by apply fails_inv].
  destruct (Z.leb_spec count (5 - written out)); [|by apply fails_inv].
  set (out' := mkOutput (header out) (written out + count) (remaining out) (end_ out)).
  set (w' := (with_output (Some out') w.1, transmit _ w.2)).
  assert (Inv op o w' l) as Hi'.
  { destruct Hi as (trace & Hr & Ho & Ht & Hc & chunks & part & current & Hput & Htk & Hlen & Hw & Huw & Hte).
    exists trace. split; [exact Hr|]. split; [done|]. split; [done|]. split; [exact Hc|]. rewrite Hout in *.
    destruct Huw as (Hb & He & Hk).
    exists chunks, part, (take (Z.to_nat (written out + count)) (header out) ++ part).
    assert (part = []) as Hp by (destruct (end_ out); [tauto|]; destruct Hk as (_ & _ & _ & [?|?] & _); [done|lia]).
    assert (current = take (Z.to_nat (written out)) (header out)) as Hcur.
    { subst part. rewrite app_nil_r in Hk. destruct (end_ out); tauto. }
    split. { cbn. rewrite Hput, Hcur, Hp, app_nil_r, <-!app_assoc, take_take_drop. do 3 f_equal. lia. }
    split; [done|]. split; [done|]. split; [done|]. split.
    - cbn. split; [lia|]. split; [done|]. destruct (end_ out); [|tauto]. rewrite Hp, app_nil_r. tauto.
    - intros [? ?]%Hte. congruence. }
  specialize (IH (S k) w' Hi' Ha). cbn in IH.
  pose proof (IH ltac:(done)) as Hx. unfold wp in Hx. fold w'.
  destruct (write_header writes (S k) e w') as [w2 [|[[]|]]]; try exact Hx.
  destruct Hx as (Hi2 & Ha2 & o1 & o2 & [= <-] & Ho2 & He2 & Hw2). split; [done|]. split; [done|]. by exists out, o2.
Qed.

Lemma payload_holds bytes e w out : Inv op o w l -> output w.1 = Some out -> end_ out = false -> written out = 5 ->
  holds (write_payload bytes e) (fun n w' => Inv op o w' (l ++ [Taken (take (Z.to_nat n) bytes)])) w.
Proof.
  intros Hi Hout He H5. unfold wp, write_payload. rewrite Hout.
  destruct (takes_payload e) as [|[count|]]; [exact Hi| |by apply fails_inv].
  destruct (Z.ltb_spec 0 count); cbn [andb]; [|by apply fails_inv].
  destruct (Z.leb_spec count (Z.min (len bytes) (remaining out))); [|by apply fails_inv].
  destruct Hi as (trace & Hr & Ho & Ht & Hc & chunks & part & current & Hput & Htk & Hlen & Hw & Huw & Hte).
  rewrite Hout in *. destruct Huw as (_ & Hhc & Hk). rewrite He in Hk. destruct Hk as (Hh & Hrem & Hwh & _ & Hcur).
  exists trace. cbn [fst snd]. split; [by destruct w|]. do 2 (split; [done|]).
  set (sent := take (Z.to_nat count) bytes). assert (len sent = count) as Hsent.
  { unfold sent, len in *. rewrite length_take. lia. }
  split; [by apply Coming_act|].
  assert (take (Z.to_nat (written out)) (header out) = header out) as Hfull.
  { rewrite H5, Hh. by apply take_ge. }
  assert (TakenEnd ∉ l ++ [Taken sent]) as Hnt.
  { intros [Hx%Hte|Hx%list_elem_of_singleton]%elem_of_app; naive_solver. }
  unfold Going. cbn [output with_output put transmit]. rewrite chunks_taken_app, Hput, Htk, Hcur, Hfull. cbn [taken].
  change (taken [Taken sent]) with (sent ++ []). rewrite app_nil_r. rewrite Hlen. cbn [announced]. rewrite He.
  destruct (Z.eqb_spec (remaining out - count) 0) as [Hz|Hz].
  - exists (chunks ++ [part ++ sent]), [], []. rewrite Hhc, He. cbn [under_way announced].
    rewrite !map_app. cbn [map]. rewrite !join_snoc, !app_nil_r, <-!app_assoc.
    assert (len (part ++ sent) = len part + remaining out) as Hl by (rewrite len_app; lia).
    split_and!; try done.
    + unfold data_wire. by rewrite Hl, <-Hh.
    + by rewrite Hl.
    + apply Forall_app. split; [done|]. apply Forall_singleton. by rewrite Hl.
    + by rewrite Hhc, He.
  - exists chunks, (part ++ sent), (header out ++ part ++ sent). cbn [under_way announced written header remaining end_].
    rewrite Hhc, He, Hfull, len_app, Hsent, <-!app_assoc.
    replace (len part + count + (remaining out - count)) with (len part + remaining out) by lia.
    split_and!; try (done || lia || by right).
Qed.

Lemma ending_holds w out : Inv op o w l -> output w.1 = Some out -> end_ out = true -> written out = 5 ->
  holds finish_output (fun _ w' => Inv op o w' (l ++ [TakenEnd])) w.
Proof.
  intros (trace & Hr & Ho & Ht & Hc & chunks & part & current & Hput & Htk & Hlen & Hw & Huw & Hte) Hout He H5.
  cbn. exists trace. cbn. split; [done|]. do 2 (split; [done|]). split; [by apply Coming_act|].
  rewrite Hout in *. destruct Huw as (_ & Hhc & Hk). rewrite He in Hk. destruct Hk as (Hh & -> & Hcur).
  exists chunks, [], current. rewrite chunks_taken_app. cbn. rewrite app_nil_r, Hhc, He. cbn in Hlen. rewrite He in Hlen.
  split_and!; try done. rewrite Hcur, H5, Hh. by apply take_ge.
Qed.

Lemma write_holds bytes e w : Inv op o w l ->
  holds (write bytes e) (fun n w' => Inv op o w' (l ++ [Taken (take (Z.to_nat n) bytes)])) w.
Proof.
  intros Hi. unfold write. apply wp_bind. eapply wp_mono; [by apply check_holds|]. intros [] ? [-> Ha].
  apply wp_bind. eapply wp_mono; [by apply watched_holds|]. intros [] ? [-> _].
  case_bool_decide as Hb.
  { cbn. destruct Hi as (trace & Hr & Ho & Ht & Hc & Hg). exists trace. do 3 (split; [done|]).
    split; [by apply Coming_act|]. apply Going_act; [|done..]. cbn. by rewrite take_0. }
  do 2 (apply wp_bind; cbn [wp asks]). apply wp_bind.
  apply wp_mono with (post := fun _ w' => Inv op o w' l /\ alive w'.1 /\ output w'.1 <> None).
  { case_bool_decide as Hn; [by apply begin_holds|]. by split_and!. }
  intros [] w1 (Hi1 & Ha1 & Hn1). apply wp_bind. cbn [wp asks].
  destruct (output_end w1.1) eqn:He; [by apply fails_inv|].
  apply wp_bind. eapply wp_mono; [by apply header_holds|].
  intros [] w2 (Hi2 & Ha2 & out & out' & Ho1 & Ho2 & He2 & H5). unfold output_end in He. rewrite Ho1 in He.
  eapply payload_holds; [done..|congruence|done].
Qed.

Lemma send_end_holds e w : asked -> Inv op o w l ->
  holds (send_end e) (fun _ w' => Inv op o w' (l ++ [TakenEnd])) w.
Proof.
  intros Has Hi. unfold send_end. apply wp_bind. eapply wp_mono; [by apply check_holds|]. intros [] ? [-> Ha].
  apply wp_bind. eapply wp_mono; [by apply watched_holds|]. intros [] ? [-> _].
  apply wp_bind. cbn [wp asks]. apply wp_bind.
  apply wp_mono with (post := fun _ w' => Inv op o w' l /\ alive w'.1 /\ output w'.1 <> None).
  { case_bool_decide as Hn; [by apply begin_holds|]. by split_and!. }
  intros [] w1 (Hi1 & Ha1 & Hn1). apply wp_bind. cbn [wp asks].
  destruct (output_end w1.1) eqn:He; cbn [negb]; [|by apply fails_inv].
  apply wp_bind. eapply wp_mono; [by apply header_holds|].
  intros [] w2 (Hi2 & Ha2 & out & out' & Ho1 & Ho2 & He2 & H5). unfold output_end in He. rewrite Ho1 in He.
  eapply ending_holds; [done..|congruence|done].
Qed.

Lemma watch_end_inv e f s : Inv op o (f, s) l -> Inv op o ((watch_end e f).1, s) l.
Proof.
  intros Hi. unfold watch_end. case_bool_decide as Hf; [done|].
  destruct (_ || _); [done|]. cbn [fst].
  destruct (if start f <? filled f then _ else _) as [e'|]; [by apply (Inv_dead op o f); [..|apply dead_failure|]|].
  rewrite failure_eta; [done|]. destruct (failure f); [|done]. by destruct Hf.
Qed.

(** The lengths of buffers are not negative. *)
Definition wf_move (m : Move) : Prop := match m with PollRead size _ => 0 <= size | _ => True end.

Lemma answers_inv {A} (g : A -> list Act) m w : holds m (fun a w' => Inv op o w' (l ++ g a)) w ->
  Inv op o (answers g m w).1 (l ++ (answers g m w).2).
Proof.
  unfold wp, answers, capture. destruct (m w) as [[f s] [|[a|e]]]; cbn; rewrite ?app_nil_r; done.
Qed.

(** A move that asks for the end. *)
Definition asks_end (m : Move) : Prop := match m with PollSendEnd _ => True | _ => False end.

Lemma act_inv m w : Inv op o w l -> wf_move m -> (asks_end m -> asked) -> Inv op o (act m w).1 (l ++ (act m w).2).
Proof.
  intros Hi Hw Has. destruct m as [size e|bytes e|e|e|]; cbn [act].
  - by apply answers_inv, read_holds.
  - by apply answers_inv, write_holds.
  - apply answers_inv, send_end_holds; [by apply Has|done].
  - cbn. rewrite app_nil_r. destruct w. by apply watch_end_inv.
  - cbn. rewrite app_nil_r. destruct w as [f s]. apply (Inv_dead op o f); try done. by intros [_ ?].
Qed.
End Facts.

Section Attachment.
Context `{Base64} `{Serde}.

Lemma acts_inv base (asked : Prop) op o moves w l : Inv base asked op o w l -> Forall wf_move moves ->
  Forall (fun m => asks_end m -> asked) moves ->
  Inv base asked op o (acts moves w).1 (l ++ (acts moves w).2).
Proof.
  revert w l. induction moves as [|m moves IH]; intros w l Hi Hm He; cbn; [by rewrite app_nil_r|].
  apply Forall_cons in Hm as [Hw Hm]. apply Forall_cons in He as [Hx He].
  pose proof (act_inv base asked op o l m w Hi Hw Hx) as Ha.
  destruct (act m w) as [w1 a]. cbn in Ha. specialize (IH w1 (l ++ a) Ha Hm He).
  destruct (acts moves w1) as [w2 b]. cbn in *. by rewrite app_assoc.
Qed.

Lemma acts_trivially base op o moves w l : Inv base True op o w l -> Forall wf_move moves ->
  Inv base True op o (acts moves w).1 (l ++ (acts moves w).2).
Proof. intros Hi Hm. apply acts_inv; [done..|]. by apply Forall_forall. Qed.

Lemma channel_inv op o f base asked : channel op o = Ok f -> Inv base asked op o (f, mkSocket [] base) [].
Proof.
  unfold channel. intros Hc. apply bind_Ok in Hc as (sq & Hn & Hc).
  destruct (accept sq Daemon (FOpened o)) as [[[]|] sq'] eqn:Ha; [|done]. injection Hc as <-.
  exists [(Daemon, FOpened o)]. cbn [fst snd sequence]. split; [by apply (reach_accept op [] sq); [constructor|]|].
  do 2 (split; [done|]). split.
  - exists [], []. split; [done|]. split; [by exists []|]. split; [done|]. split; [|by intros ?%elem_of_nil].
    intros _. cbn. split_and!; try (done || lia). apply wf_default.
  - exists [], [], []. split; [cbn; by rewrite !app_nil_r|]. do 2 (split; [done|]). split; [constructor|].
    split; [done|]. by intros ?%elem_of_nil.
Qed.

(** What the engine reads is what the agent sends. Whatever the socket does and in
    whatever order the attachment is polled, the bytes that have come in are the
    encodings of whole data frames, of the agent's end after them and of a rest, and
    what has been handed to the engine is a prefix of the frames' payloads. The end is
    handed to it only when the agent's end frame has come in, with nothing after it and
    with every byte before it handed on: a socket that closes, an incomplete frame or
    anything else is never the end. *)
Lemma attachment_reads op o f moves w l :
  channel op o = Ok f -> Forall wf_move moves -> acts moves (f, mkSocket [] []) = (w, l) ->
  exists chunks ended rest,
    got w.2 = mjoin (map data_wire chunks) ++ (if ended : bool then end_wire else []) ++ rest
    /\ handed l `prefix_of` mjoin chunks
    /\ (HandedEnd ∈ l -> ended = true /\ rest = [] /\ handed l = mjoin chunks).
Proof.
  intros Hc Hm Ha. pose proof (acts_trivially [] op o moves _ [] (channel_inv op o f [] True Hc) Hm) as Hi. rewrite Ha in Hi.
  destruct Hi as (trace & Hr & _ & _ & (eaten & rest & Hg & Hs & Hp & _ & He) & _). cbn in *.
  rewrite (agent_frames _ _ _ Hr) in Hs. apply spells_plain in Hs as ->. rewrite <-app_assoc in Hg.
  exists (payloads Agent trace), (half_closed Agent trace), rest. auto.
Qed.

(** What goes over the wire is what the engine writes. At any moment the bytes that
    have gone out are whole data frames, whose payloads with the part that is out of
    the next one are exactly what was taken from the engine, and the beginning of one
    more frame: of that data frame, or of the end. Each data frame is within the
    announced size; the end is reported only when it is out in full, and nothing
    follows it. *)
Lemma attachment_writes op o f moves w l :
  channel op o = Ok f -> Forall wf_move moves -> acts moves (f, mkSocket [] []) = (w, l) ->
  exists chunks part current,
    put w.2 = mjoin (map data_wire chunks) ++ current
    /\ taken l = mjoin chunks ++ part
    /\ Forall (fun c => 0 < len c <= max_data_bytes o) chunks
    /\ (part = [] /\ current `prefix_of` end_wire
        \/ exists more, 0 < more /\ len part + more <= max_data_bytes o
             /\ exists head, head `prefix_of` Header_encode (mkHeader KData (len part + more))
             /\ current = head ++ part /\ (part = [] \/ len head = 5))
    /\ (TakenEnd ∈ l -> part = [] /\ current = end_wire).
Proof.
  intros Hc Hm Ha. pose proof (acts_trivially [] op o moves _ [] (channel_inv op o f [] True Hc) Hm) as Hi. rewrite Ha in Hi.
  destruct Hi as (trace & Hr & Ho & _ & _ & (chunks & part & current & Hp & Ht & Hl & Hw & Hu & He)). cbn in *.
  pose proof (payload_sizes Daemon op trace _ o Hr Ho) as Hsz.
  exists chunks, part, current. split; [done|]. split; [done|]. split; [|split].
  - rewrite Forall_forall. intros c Hin. apply (Hsz (len c)). rewrite Hl. apply elem_of_app. left.
    apply list_elem_of_fmap. by exists c.
  - destruct (output w.1) as [out|]; cbn in Hu.
    + destruct Hu as (Hb & _ & Hk). destruct (end_ out) eqn:Eo.
      * left. destruct Hk as (-> & -> & ->). split; [done|]. apply prefix_take.
      * right. destruct Hk as (Hh & Hrem & Hwh & Hpart & Hcur). exists (remaining out). split; [done|]. split.
        -- apply (Hsz (len part + remaining out)). rewrite Hl. apply elem_of_app. right. cbn. rewrite Eo. by left.
        -- exists (take (Z.to_nat (written out)) (header out)). rewrite <-Hh. split; [apply prefix_take|].
           split; [done|]. destruct Hpart as [->|H5]; [by left|]. right. rewrite H5, Hh.
           unfold len. by rewrite length_take, Header_encode_length.
    + left. destruct Hu as [-> ->]. split; [done|]. destruct (half_closed Daemon trace); [done|]. apply prefix_nil.
  - intros Hx. destruct (He Hx) as [Hn Hh]. rewrite Hn in Hu. cbn in Hu. by rewrite Hh in Hu.
Qed.
End Attachment.

(** ** A whole attachment, as the agent receives it *)

Section Conversation.
Context `{Base64} `{Serde}.

(** ** Traces that the protocol lets a side extend *)

Lemma data_encodes c : wf_header (mkHeader KData (len c)) ->
  Frame_encode (FData c) = Ok (mkEncoded (Header_encode (mkHeader KData (len c))) c).
Proof.
  intros [Hb Hz]. unfold Frame_encode. cbn [mbind result_bind].
  assert (len c <> 0) as Hn by (intros Hc; by apply Hz in Hc).
  assert (Header_new KData (len c) = Ok (mkHeader KData (len c))) as ->; [|done].
  unfold Header_new. rewrite (proj2 (Z.eqb_neq _ _)) by done. cbn [bool_decide]. cbn in Hb.
  rewrite (proj2 (Z.ltb_ge _ _)) by (cbn; lia). done.
Qed.
Lemma data_header c : wf_header (mkHeader KData (len c)) -> is_ok (Frame_header (FData c)) = true.
Proof. intros Hw. unfold Frame_header. rewrite data_encodes by done. cbn [mbind result_bind encoded_header]. by rewrite Header_encode_parse. Qed.

Lemma end_header : is_ok (Frame_header FSendEnd) = true.
Proof. reflexivity. Qed.

Lemma reach_one op trace s d f : reach op trace s -> is_ok (Frame_header f) = true -> admissible op trace (d, f) ->
  exists s', accept s d f = (Ok tt, s') /\ reach op (trace ++ [(d, f)]) s'.
Proof.
  intros Hr Hf Ha. destruct (proj2 (reach_refines op trace s d f Hr)) as [_ Hx].
  destruct (Hx (conj Hf Ha)) as [s' Hstep]. exists s'. inversion Hstep; subst. split; [done|]. by eapply reach_accept.
Qed.

Lemma accept_all_app s d fs gs s1 : accept_all s d fs = Some s1 -> accept_all s d (fs ++ gs) = accept_all s1 d gs.
Proof.
  revert s. induction fs as [|f fs IH]; intros s; cbn; [by intros [= ->]|].
  destruct (accept s d f) as [[]]; [apply IH|done].
Qed.

(** Data within the limits is accepted. *)
Lemma reach_data op trace s d o chunks : reach op trace s -> opening trace = Some o -> terminated trace = false ->
  half_closed d trace = false ->
  Forall (fun c => wf_header (mkHeader KData (len c)) /\ len c <= max_data_bytes o) chunks ->
  data_frames d trace + len chunks <= MAX_DATA_FRAMES ->
  data_bytes d trace + len (mjoin chunks) <= Z.max 0 (limit_of d o) ->
  exists s', accept_all s d (map FData chunks) = Some s' /\ reach op (trace ++ map (fun c => (d, FData c)) chunks) s'.
Proof.
  revert trace s. induction chunks as [|c chunks IH]; intros trace s Hr Ho Ht Hh Hc Hf Hb; cbn [map].
  { rewrite app_nil_r. by exists s. }
  apply Forall_cons in Hc as [[Hw Hm] Hc]. rewrite len_cons in Hf. change (mjoin (c :: chunks)) with (c ++ mjoin chunks) in Hb.
  rewrite len_app in Hb. pose proof (len_nonneg chunks). pose proof (len_nonneg (mjoin chunks)).
  destruct (reach_one op trace s d (FData c) Hr) as (s1 & Ha & Hr1); [by apply data_header| |].
  { assert (0 < len c). { destruct Hw as [_ Hz]. cbn in Hz. pose proof (len_nonneg c). destruct (Z.eq_dec (len c) 0); naive_solver lia. }
    pose proof (len_nonneg (mjoin (payloads d trace))). unfold data_bytes in Hb.
    split; [done|]. exists o. unfold data_bytes. split_and!; (done || lia). }
  destruct (plain_opening d trace (FData c) I) as [Ho1 Ht1].
  destruct (IH (trace ++ [(d, FData c)]) s1 Hr1) as (s2 & Ha2 & Hr2); try done; try congruence.
  - rewrite half_closed_snoc, Hh. unfold is_end. cbn. by rewrite andb_false_r.
  - rewrite data_frames_snoc, data_of_same. change (len [c]) with 1. lia.
  - rewrite data_bytes_snoc, data_of_same. cbn. rewrite app_nil_r. lia.
  - exists s2. cbn [accept_all]. rewrite Ha. split; [done|]. by rewrite <-app_assoc in Hr2.
Qed.

(** Data and then, perhaps, the end. *)
Definition side (d : Sender) (chunks : list (list byte)) (ended : bool) : list event :=
  map (pair d) (map FData chunks ++ (if ended then [FSendEnd] else [])).

Lemma reach_side op trace s d o chunks (ended : bool) :
  reach op trace s -> opening trace = Some o -> terminated trace = false ->
  half_closed d trace = false ->
  Forall (fun c => wf_header (mkHeader KData (len c)) /\ len c <= max_data_bytes o) chunks ->
  data_frames d trace + len chunks <= MAX_DATA_FRAMES ->
  data_bytes d trace + len (mjoin chunks) <= Z.max 0 (limit_of d o) ->
  exists s', accept_all s d (map FData chunks ++ (if ended then [FSendEnd] else [])) = Some s'
    /\ reach op (trace ++ side d chunks ended) s'.
Proof.
  intros Hr Ho Ht Hh Hc Hf Hb. destruct (reach_data op trace s d o chunks) as (s1 & Ha1 & Hr1); try done.
  unfold side. rewrite map_app, map_map. rewrite (accept_all_app _ _ _ _ s1 Ha1), app_assoc.
  set (trace1 := trace ++ map (fun c => (d, FData c)) chunks) in *.
  destruct ended; cbn [map accept_all]; [|rewrite app_nil_r; by exists s1].
  assert (opening trace1 = Some o /\ half_closed d trace1 = false /\ terminated trace1 = false) as (Ho1 & Hh1 & Ht1).
  { subst trace1. clear -Ho Hh Ht. revert trace Ho Hh Ht. induction chunks as [|c chunks IH]; intros trace Ho Hh Ht; cbn [map].
    { by rewrite app_nil_r. }
    rewrite cons_middle, app_assoc. destruct (plain_opening d trace (FData c) I) as [Ho1 Ht1]. apply IH; [congruence| |congruence].
    rewrite half_closed_snoc, Hh. unfold is_end. cbn. by rewrite andb_false_r. }
  destruct (reach_one op trace1 s1 d FSendEnd Hr1 end_header) as (s2 & Ha2 & Hr2); [by split_and!|].
  exists s2. by rewrite Ha2.
Qed.

(** ** What a trace has sent fits *)

Fixpoint total (l : list Z) : Z := match l with [] => 0 | x :: l => x + total l end.
Lemma total_app l k : total (l ++ k) = total l + total k.
Proof. induction l; cbn; lia. Qed.
Lemma len_join {A} (ls : list (list A)) : len (mjoin ls) = total (map len ls).
Proof. induction ls as [|l ls IH]; [done|]. change (mjoin (l :: ls)) with (l ++ mjoin ls). rewrite len_app, IH. done. Qed.

Lemma trace_fits op trace s o d : reach op trace s -> opening trace = Some o ->
  data_frames d trace <= MAX_DATA_FRAMES /\ data_bytes d trace <= Z.max 0 (limit_of d o)
  /\ forall c : list byte, len c ∈ map len (payloads d trace) -> wf_header (mkHeader KData (len c)) /\ len c <= max_data_bytes o.
Proof.
  intros Hr Ho. destruct (sequence_bounds op trace s d Hr) as (Hb & Hf & _ & Hmf & Hl).
  rewrite Hb, Hf in *. pose proof (reach_limits _ _ _ Hr) as [Hs _]. rewrite Hs in Hl. cbn in Hl. rewrite Ho in Hl.
  split; [lia|]. split; [done|]. intros c Hin. destruct (payload_sizes d op trace s o Hr Ho _ Hin) as [H1 H2]. split; [|done].
  destruct (reach_opening op trace s o Hr Ho) as [Hm _]. split; cbn [kind length_].
  { rewrite bool_decide_true by done. lia. }
  split; [done|]. intros Hz. exfalso. lia.
Qed.

(** ** Writing OPENED *)

Lemma opened_writes_spec rounds k bytes offset p s base :
  (offset <= length bytes)%nat -> put s = base ++ take offset bytes ->
  let '(offset', s', r) := opened_writes rounds k bytes offset p s in
  (offset' <= length bytes)%nat /\ put s' = base ++ take offset' bytes /\ got s' = got s
  /\ (r = Some (Ok tt) -> offset' = length bytes).
Proof.
  revert k offset s. induction rounds as [|rounds IH]; intros k offset s Ho Hp; cbn [opened_writes]; [by split_and!|].
  set (left := if (offset <? 5)%nat then _ else _).
  assert (exists n, left = take n (drop offset bytes) /\ (left = [] -> drop offset bytes = [])) as (n & Hleft & Hnil).
  { subst left. destruct (Nat.ltb_spec offset 5).
    - exists (5 - offset)%nat. split; [done|]. intros Hx. destruct (drop offset bytes); [done|].
      destruct (5 - offset)%nat eqn:E; [lia|done].
    - exists (length (drop offset bytes)). split; [|done]. by rewrite take_ge. }
  case_bool_decide as Hl.
  { split_and!; try done. intros _. apply Hnil in Hl. apply (f_equal length) in Hl. rewrite length_drop in Hl. cbn in Hl. lia. }
  destruct (writes p k) as [|[count|]]; [by split_and!| |by split_and!].
  destruct (Z.ltb_spec 0 count); cbn [andb]; [|by split_and!].
  destruct (Z.leb_spec count (len left)) as [Hc|]; [|by split_and!].
  assert (Z.to_nat count <= length bytes - offset)%nat as Hcount.
  { rewrite Hleft in Hc. unfold len in Hc. rewrite length_take, length_drop in Hc. lia. }
  assert (put (transmit (take (Z.to_nat count) left) s) = base ++ take (offset + Z.to_nat count) bytes) as Hput.
  { cbn. rewrite Hp, <-app_assoc, Hleft, take_take. f_equal. rewrite Hleft in Hc. unfold len in Hc. rewrite length_take in Hc.
    rewrite Nat.min_l by lia. apply take_take_drop. }
  destruct (Nat.eqb_spec (offset + Z.to_nat count) (length bytes)) as [He|He].
  { split_and!; try done; lia. }
  pose proof (IH (S k) (offset + Z.to_nat count)%nat _ ltac:(lia) Hput) as Hx.
  destruct (opened_writes rounds (S k) bytes _ p _) as [[o2 s2] r]. exact Hx.
Qed.

Lemma write_opened_spec polls bytes offset s base s' : (offset <= length bytes)%nat -> put s = base ++ take offset bytes ->
  write_opened polls bytes offset s = (s', Some (Ok tt)) -> put s' = base ++ bytes /\ got s' = got s.
Proof.
  revert offset s. induction polls as [|p polls IH]; intros offset s Ho Hp; cbn [write_opened]; [done|].
  destruct (forbidden_input (finds p)); [done|].
  pose proof (opened_writes_spec 4 0 bytes offset p s base Ho Hp) as Hx.
  destruct (opened_writes 4 0 bytes offset p s) as [[o2 s2] [r|]]; destruct Hx as (Ho2 & Hp2 & Hg2 & Hr).
  - intros [= -> ->]. rewrite (Hr eq_refl), take_ge in Hp2 by done. done.
  - intros Hw. destruct (IH o2 s2 Ho2 Hp2 Hw) as [-> ->]. done.
Qed.

(** ** The end *)

Lemma terminal_cause t e : Frame_encode (FTerminal t) = Ok e ->
  (state (operation t) = Completed <-> cause t = OrderlyEnd).
Proof.
  unfold Frame_encode. intros He. apply bind_Ok in He as (kp & He & _).
  apply bind_Ok in He as (? & Hv & _). unfold Terminal_validate in Hv.
  destruct (_ || _) eqn:Hb in Hv; [done|]. bool_hyps. match goal with Hb : Bool.eqb _ _ = true |- _ =>
    apply Bool.eqb_prop in Hb; rename Hb into Heq end.
  do 2 case_bool_decide; naive_solver.
Qed.

(** What [finish] puts on the wire after an attachment: nothing but the final frame,
    at the boundary of a frame. *)
Lemma conclude_spec base asked op o w l t sent w' : Inv base asked op o w l -> conclude t sent w = (w', Ok tt) ->
  exists trace chunks encoded more (sealed : bool),
    reach op trace (sequence w.1) /\ opening trace = Some o /\ Coming trace w.1 w.2 l
    /\ put w'.2 = base ++ mjoin (map data_wire chunks) ++ (if sealed then end_wire else []) ++ wire encoded
    /\ got w'.2 = got w.2 /\ Frame_encode (FTerminal t) = Ok encoded /\ taken l = mjoin chunks
    /\ terminal_admissible op trace t /\ Forall (fun c => wf_header (mkHeader KData (len c))) chunks
    /\ map len (payloads Daemon trace) = map len chunks ++ more
    /\ (cause t = OrderlyEnd -> sealed = half_closed Daemon trace /\ more = []).
Proof.
  intros (trace & Hr & Ho & Ht & Hc & chunks & part & current & Hp & Htk & Hl & Hw & Hu & Hte) Hcon.
  destruct w as [f s]. cbn [fst snd] in *. unfold conclude in Hcon.
  destruct (Frame_encode (FTerminal t)) as [encoded|] eqn:Hen; [|done].
  destruct (negb (retired f) || _) eqn:Hg; [done|]. apply orb_false_iff in Hg as [_ Hg].
  cbn [sequence with_output] in Hcon. destruct (accept (sequence f) Daemon (FTerminal t)) as [[[]|] sq] eqn:Ha; [|done].
  cbn [io with_output with_sequence negb] in Hcon. destruct (io f); cbn [negb] in Hcon; [|done].
  destruct sent as [n|]; [done|]. injection Hcon as <-. cbn [fst snd put got transmit].
  assert (terminal_admissible op trace t) as Hadm.
  { apply reach_limits in Hr as [Hs _]. rewrite Hs in Ha. by apply accept_spec in Ha as (_ & _ & _ & ? & _). }
  destruct (output f) as [out|].
  - apply orb_false_iff in Hg as [Hz Hcause]. bool_hyps. destruct Hu as (_ & _ & Hk). rewrite Hz in Hk.
    assert (part = [] /\ current = []) as [-> ->].
    { destruct (end_ out); [destruct Hk as (_ & -> & ->); by rewrite take_0|].
      destruct Hk as (_ & _ & _ & [->|?] & ->); [by rewrite take_0|lia]. }
    exists trace, chunks, encoded, (announced (Some out) []), false. rewrite app_nil_r in Htk, Hp.
    split_and!; try done. by rewrite Hp, <-app_assoc.
  - destruct Hu as [-> ->]. cbn in Hl. rewrite app_nil_r in Htk.
    exists trace, chunks, encoded, [], (half_closed Daemon trace). split_and!; try done. by rewrite Hp, <-!app_assoc.
Qed.

(** The agent's framing state when the daemon has sent OPENED and the agent its
    frames of a trace. *)
Lemma agent_state op o trace s opened : reach op trace s -> opening trace = Some o ->
  reach op [(Daemon, FOpened o)] opened ->
  exists agent, reach op ([(Daemon, FOpened o)] ++ side Agent (payloads Agent trace) (half_closed Agent trace)) agent.
Proof.
  intros Hr Ho Hop. destruct (trace_fits op trace s o Agent Hr Ho) as (Hf & Hb & Hc).
  destruct (reach_side op [(Daemon, FOpened o)] opened Agent o (payloads Agent trace) (half_closed Agent trace) Hop)
    as (agent & _ & Hx); [done..| | | |by exists agent].
  - apply Forall_forall. intros c Hin. apply Hc. apply list_elem_of_fmap. by exists c.
  - exact Hf.
  - exact Hb.
Qed.

(** The traces of such a state. *)
Lemma side_opening d chunks ended trace : opening (trace ++ side d chunks ended) = opening trace
  /\ terminated (trace ++ side d chunks ended) = terminated trace.
Proof.
  assert (Forall (fun f => match f with FData _ | FSendEnd => True | _ => False end)
    (map FData chunks ++ (if ended : bool then [FSendEnd] else []))) as Hp.
  { apply Forall_app. split; [|destruct ended; by repeat constructor]. induction chunks; by constructor. }
  unfold side. revert trace. induction Hp as [|f fs Hf _ IH]; intros trace; cbn [map]; [by rewrite app_nil_r|].
  rewrite cons_middle, app_assoc. destruct (plain_opening d trace f Hf) as [<- <-]. apply IH.
Qed.
Lemma side_payloads d chunks ended d' trace : payloads d' (trace ++ side d chunks ended)
  = payloads d' trace ++ (if decide (d' = d) then chunks else []).
Proof.
  unfold side. rewrite map_app, map_map. unfold payloads. rewrite bind_app, bind_app. f_equal.
  assert (map (pair d) (if ended : bool then [FSendEnd] else []) ≫= data_of d' = []) as -> by by destruct ended.
  rewrite app_nil_r. case_decide as Hd.
  - subst. induction chunks as [|c chunks IH]; [done|]. cbn [map]. rewrite bind_cons, data_of_same, IH. done.
  - induction chunks as [|c chunks IH]; [done|]. cbn [map]. rewrite bind_cons, data_of_other, IH by done. done.
Qed.
Lemma side_closed d chunks (ended : bool) d' trace : half_closed d' (trace ++ side d chunks ended)
  = half_closed d' trace || bool_decide (d' = d) && ended.
Proof.
  assert (existsb (is_end d') (map (pair d) (map FData chunks)) = false) as Hn.
  { induction chunks as [|c chunks IH]; [done|]. cbn [map existsb]. rewrite IH. unfold is_end. cbn. by rewrite andb_false_r. }
  unfold side, half_closed. rewrite existsb_app, map_app, existsb_app. f_equal.
  etransitivity; [apply (f_equal (fun b => b || _) Hn)|].
  destruct ended; cbn; [|by rewrite andb_false_r]. unfold is_end. cbn. rewrite orb_false_r, !andb_true_r.
  apply bool_decide_ext. naive_solver.
Qed.

(** The frames on the wire after OPENED. *)
Definition spoken (chunks : list (list byte)) (ended : bool) (t : Terminal) : list Frame :=
  (map FData chunks ++ (if ended then [FSendEnd] else [])) ++ [FTerminal t].

Lemma total_nonneg l : (forall n, n ∈ l -> 0 <= n) -> 0 <= total l.
Proof.
  induction l as [|x l IH]; intros Hl; cbn; [done|]. pose proof (Hl x ltac:(by left)).
  assert (0 <= total l); [|lia]. apply IH. intros n Hn. apply Hl. by right.
Qed.

(** The agent accepts what the daemon has said after its own frames. *)
Lemma agent_accepts op o trace s agent chunks more (sealed : bool) t encoded :
  reach op trace s -> opening trace = Some o ->
  reach op ([(Daemon, FOpened o)] ++ side Agent (payloads Agent trace) (half_closed Agent trace)) agent ->
  Frame_encode (FTerminal t) = Ok encoded -> terminal_admissible op trace t ->
  Forall (fun c => wf_header (mkHeader KData (len c))) chunks ->
  map len (payloads Daemon trace) = map len chunks ++ more ->
  (cause t = OrderlyEnd -> sealed = half_closed Daemon trace /\ more = []) ->
  received_bytes t <= len (mjoin chunks) ->
  exists agent', accept_all agent Daemon (spoken chunks sealed t) = Some agent' /\ is_terminal agent' = true.
Proof.
  intros Hr Ho Hag Hen Hadm Hw Hl Hcause Hrec.
  destruct (trace_fits op trace s o Daemon Hr Ho) as (Hf & Hb & Hc).
  assert (data_bytes Daemon trace = len (mjoin chunks) + total more) as Hsum.
  { unfold data_bytes. by rewrite !len_join, Hl, total_app. }
  assert (0 <= total more) as Hmore.
  { apply total_nonneg. intros n Hn. assert (n ∈ map len (payloads Daemon trace)) as Hin by (rewrite Hl; apply elem_of_app; by right).
    apply list_elem_of_fmap in Hin as (c & -> & _). apply len_nonneg. }
  set (T := ([(Daemon, FOpened o)] : list event) ++ side Agent (payloads Agent trace) (half_closed Agent trace)).
  change (reach op T agent) in Hag.
  destruct (side_opening Agent (payloads Agent trace) (half_closed Agent trace) [(Daemon, FOpened o)]) as [HoT HtT].
  fold T in HoT, HtT.
  assert (payloads Daemon T = []) as HpT by (subst T; by rewrite side_payloads).
  assert (payloads Agent T = payloads Agent trace) as HpA by (subst T; by rewrite side_payloads).
  assert (half_closed Daemon T = false) as HhD by (subst T; by rewrite side_closed).
  assert (half_closed Agent T = half_closed Agent trace) as HhA by (subst T; by rewrite side_closed).
  destruct (reach_side op T agent Daemon o chunks sealed Hag) as (a1 & Ha1 & Hr1); try done.
  - apply Forall_forall. intros c Hin. split; [by apply (proj1 (Forall_forall _ _) Hw)|]. apply Hc. rewrite Hl.
    apply elem_of_app. left. apply list_elem_of_fmap. by exists c.
  - assert (data_frames Daemon T = 0) as -> by (unfold data_frames; by rewrite HpT).
    apply (f_equal length) in Hl. rewrite length_app, !length_map in Hl. unfold data_frames, len in *. lia.
  - assert (data_bytes Daemon T = 0) as -> by (unfold data_bytes; by rewrite HpT). lia.
  - set (T2 := (T : list event) ++ side Daemon chunks sealed). change (reach op T2 a1) in Hr1.
    assert (payloads Agent T2 = payloads Agent trace) as Hq1 by (subst T2; by rewrite side_payloads, HpA, app_nil_r).
    assert (payloads Daemon T2 = chunks) as Hq2 by (subst T2; by rewrite side_payloads, HpT).
    assert (half_closed Agent T2 = half_closed Agent trace) as Hq3 by (subst T2; by rewrite side_closed, HhA, orb_false_r).
    assert (half_closed Daemon T2 = sealed) as Hq4 by (subst T2; by rewrite side_closed, HhD).
    destruct (side_opening Daemon chunks sealed T) as [Ho1 Ht1]. fold T2 in Ho1, Ht1.
    destruct Hadm as (Hid & Hs & _ & Hcomp & Hother).
    destruct (reach_one op _ a1 Daemon (FTerminal t) Hr1) as (a2 & Ha2 & Hr2).
    + unfold Frame_header. rewrite Hen. cbn [mbind result_bind].
      destruct (Frame_encode_Ok _ _ Hen) as (h & Hwh & _ & _ & ->). by rewrite Header_encode_parse.
    + split; [by rewrite Ht1, HtT|]. unfold data_bytes in *. rewrite Hq1, Hq2, Hq3, Hq4, Ho1, HoT.
      split_and!; try done.
      * intros Hst. destruct (Hcomp Hst) as (_ & Hca & Hcd & Hsent & Hrecv).
        apply (terminal_cause t encoded Hen) in Hst. destruct (Hcause Hst) as [Hse Hm]. subst more. cbn in Hsum.
        split_and!; try done; [by rewrite Hse|lia].
      * intros Hst _. apply Hother; [done|]. by rewrite Ho.
    + exists a2. unfold spoken. rewrite (accept_all_app _ _ _ _ a1 Ha1). cbn. rewrite Ha2. split; [done|].
      apply reach_limits in Hr2 as [-> _]. cbn. rewrite terminated_snoc. apply orb_true_r.
Qed.

(** The encodings of what is spoken. *)
Lemma spoken_encoded chunks sealed t encoded : Forall (fun c => wf_header (mkHeader KData (len c))) chunks ->
  Frame_encode (FTerminal t) = Ok encoded -> serde_round (FTerminal t) ->
  exists encs, Forall2 (fun f e => Frame_encode f = Ok e /\ serde_round f) (spoken chunks sealed t) encs
    /\ mjoin (map wire encs) = mjoin (map data_wire chunks) ++ (if sealed then end_wire else []) ++ wire encoded.
Proof.
  intros Hw Hen Hs.
  exists ((map (fun c => mkEncoded (Header_encode (mkHeader KData (len c))) c) chunks
    ++ (if sealed then [mkEncoded end_wire []] else [])) ++ [encoded]).
  split.
  - apply Forall2_app; [apply Forall2_app|by constructor].
    + induction Hw as [|c chunks Hc _ IH]; constructor; [|exact IH]. split; [by apply data_encodes|done].
    + destruct sealed; by repeat constructor.
  - rewrite !map_app, !join_app, map_map, <-app_assoc. f_equal. f_equal; [by destruct sealed|]. cbn. by rewrite app_nil_r.
Qed.

Lemma channel_reach request o f : channel request o = Ok f ->
  exists opened, reach request [(Daemon, FOpened o)] opened.
Proof.
  unfold channel. intros Hc. apply bind_Ok in Hc as (sq & Hn & Hc).
  destruct (accept sq Daemon (FOpened o)) as [[[]|] sq'] eqn:Ha; [|done]. exists sq'.
  apply (reach_accept request [] sq); [by constructor|done].
Qed.

Lemma serve_ok request h s l t : serve_upgraded request h (mkSocket [] []) = (s, l, Ok t) ->
  connects h = Some (Ok Connected) ->
  exists o opening f w' s1, Frame_encode (FOpened o) = Ok opening /\ channel request o = Ok f
    /\ s1 = mkSocket [] (wire opening)
    /\ l = (acts (relaying h) (f, s1)).2
    /\ conclude t (final h) (acts (relaying h) (f, s1)).1 = (w', Ok tt) /\ s = w'.2.
Proof.
  unfold serve_upgraded. intros Hs Hc. rewrite Hc in Hs. destruct (Open_validate request) as [|]; [|done].
  destruct (opened ← opens h; _) as [[o opening]|] eqn:Ho; [|done].
  apply bind_Ok in Ho as (o' & _ & Ho). apply bind_Ok in Ho as (sq & _ & Ho). apply bind_Ok in Ho as (? & _ & Ho).
  apply bind_Ok in Ho as (e & He & [= -> ->]).
  destruct (write_opened (opening_polls h) (wire opening) 0 (mkSocket [] [])) as [s1 [[[]|]|]] eqn:Hw; try done.
  apply (write_opened_spec _ _ _ _ []) in Hw as [Hp Hg]; [|lia|by rewrite take_0].
  assert (s1 = mkSocket [] (wire opening)) as -> by (destruct s1; cbn in *; congruence).
  destruct (channel request o) as [f|] eqn:Hch; [|done].
  exists o, opening, f. destruct (acts (relaying h) (f, _)) as [w l'] eqn:Ha.
  destruct (relays h) as [[t'|]|]; try done.
  destruct (conclude t' (final h) w) as [w' [[]|]] eqn:Hcon; [|done]. injection Hs as <- <- <-.
  exists w', (mkSocket [] (wire opening)). rewrite Ha. by split_and!.
Qed.

(** C36: the conversation is whole. When [serve_upgraded] returns a terminal result for
    a connection that was opened, what is on the socket after OPENED is, for the agent's
    own framing state, which has sent the frames that came in, exactly data frames with
    the bytes taken from the engine, the end if it was sent, and that result: however the
    bytes are cut into reads it decodes them and accepts the result as the end of the
    stream, provided that the result counts no more bytes as received than were taken
    from the engine. (The relay counts what was taken; the framing state of the daemon,
    which checks the result before it is sent, also counts the payload of a frame that
    was announced to it and then discarded unwritten.) A terminal frame never cuts
    another frame short; and an orderly end is returned only when both sides have ended,
    with the exact number of bytes of both directions, so that the agent always accepts
    it. *)
Theorem conversation_complete request h s l t :
  serve_upgraded request h (mkSocket [] []) = (s, l, Ok t) -> connects h = Some (Ok Connected) ->
  Forall wf_move (relaying h) -> serde_round (FTerminal t) ->
  exists o opening body inputs (input_end : bool) rest outputs output_end encs agent,
    Frame_encode (FOpened o) = Ok opening /\ put s = wire opening ++ body
    /\ got s = mjoin (map data_wire inputs) ++ (if input_end then end_wire else []) ++ rest
    /\ handed l `prefix_of` mjoin inputs /\ taken l = mjoin outputs
    /\ reach request ((Daemon, FOpened o) :: side Agent inputs input_end) agent
    /\ body = mjoin (map wire encs) /\ Forall2 (fun f e => Frame_encode f = Ok e) (spoken outputs output_end t) encs
    /\ (cause t = OrderlyEnd \/ received_bytes t <= len (taken l) ->
        forall reads, mjoin reads = body -> exists d agent',
          drain_chunks Decoder_default reads agent Daemon = (spoken outputs output_end t, None, d, agent')
          /\ finish d agent' = Ok tt)
    /\ (cause t = OrderlyEnd -> input_end = true /\ output_end = true
          /\ sent_bytes t = len (mjoin inputs) /\ received_bytes t = len (taken l)).
Proof.
  intros Hs Hc Hm Hround.
  destruct (serve_ok request h s l t Hs Hc) as (o & opening & f & w' & s1 & Hopen & Hch & -> & -> & Hcon & ->).
  pose proof (channel_inv request o f (wire opening) True Hch) as Hi0.
  pose proof (acts_trivially _ _ _ _ _ _ Hi0 Hm) as Hi. cbn [app] in Hi. set (w := (acts (relaying h) _).1) in *.
  set (l := (acts (relaying h) _).2) in *.
  destruct (conclude_spec _ _ _ _ _ _ _ _ _ Hi Hcon) as (trace & chunks & encoded & more & sealed & Hr & Ho &
    (eaten & rest & Hg & Hsp & Hpre & _ & _) & Hput & Hgot & Hen & Htk & Hadm & Hw & Hl & Hcause).
  rewrite (agent_frames _ _ _ Hr) in Hsp. apply spells_plain in Hsp as ->. rewrite <-app_assoc in Hg.
  destruct (channel_reach _ _ _ Hch) as [opened Hopened].
  destruct (agent_state _ _ _ _ opened Hr Ho Hopened) as [agent Hag].
  destruct (spoken_encoded chunks sealed t encoded Hw Hen Hround) as (encs & Hencs & Hwire).
  assert (Horderly : cause t = OrderlyEnd -> half_closed Agent trace = true /\ sealed = true
    /\ sent_bytes t = len (mjoin (payloads Agent trace)) /\ received_bytes t = len (taken l)).
  { intros Ho'. destruct (Hcause Ho') as [Hse Hmo]. destruct Hadm as (_ & _ & _ & Hcomp & _).
    apply (terminal_cause t encoded Hen) in Ho'. destruct (Hcomp Ho') as (_ & Hca & Hcd & Hsent & Hrecv).
    split_and!; [done|congruence|done|]. rewrite Hrecv, Htk. unfold data_bytes. by rewrite !len_join, Hl, Hmo, app_nil_r. }
  exists o, opening, (mjoin (map wire encs)), (payloads Agent trace), (half_closed Agent trace), rest, chunks, sealed, encs, agent.
  rewrite Hgot, Hput, Hwire. split_and!; try done.
  - by apply (Forall2_impl _ _ _ _ Hencs); intros ? ? [].
  - intros Hrec reads Hreads. assert (Hrec' : received_bytes t <= len (mjoin chunks)).
    { rewrite <-Htk. destruct Hrec as [Hrec|Hrec]; [|done]. destruct (Horderly Hrec) as (_ & _ & _ & ->). lia. }
    destruct (agent_accepts _ _ _ _ agent _ _ _ _ _ Hr Ho Hag Hen Hadm Hw Hl Hcause Hrec') as (agent' & Hacc & Hterm).
    rewrite <-Hwire in Hreads.
    destruct (frames_delivered Decoder_default agent Daemon (spoken chunks sealed t) encs agent' reads) as (d & Hd & Hidle); [by repeat split|exact Hencs|exact Hacc|exact Hreads|].
    exists d, agent'. split; [exact Hd|]. destruct Hidle as (_ & Hp0 & Hh & _ & Hf). unfold finish.
    by rewrite Hf, Hp0, Hh, Hterm.
Qed.
End Conversation.
