(* ===== verification/Attached.v ===== *)
(** * The agent's end of a stream ([aap-client/src/stream.rs], [aap-client/src/stream/relay.rs])

    The reader of the daemon's frames, the relay between the stream and the agent's
    application, and the slot that every poll goes through. The socket and the
    application are the environment; a [Socket] and an [Application] hold what has gone
    over them. Instants are in nanoseconds. Wake-ups and the mutex's poisoning are left
    out. *)
From S2P Require Import Prelude Protocol Ids Stream Sequence Decoder Wire.

Definition millis (n : Z) : Z := n * 1000000.
Definition secs (n : Z) : Z := n * 1000000000.

(** ** State *)

(** What has been read from the application, whether it has said its end, what has
    been written to it and whether it has been told the end. *)
Record Application := mkApplication {
  spoke : list byte; spoke_end : bool; heard : list byte; heard_end : bool }.

(** `aap-client/src/stream.rs:34-39`, `Reader`, with the parts of the state that
    reading and writing share: the framing state and the idle deadline *)
Record Link := mkLink {
  input : list byte;
  decoder : Decoder;
  sequence : Sequence;
  idle : Z;
  socket : Socket }.

Definition with_input (bytes : list byte) (r : Link) : Link :=
  mkLink bytes (decoder r) (sequence r) (idle r) (socket r).
Definition with_reading (d : Decoder) (s : Sequence) (r : Link) : Link :=
  mkLink (input r) d s (idle r) (socket r).
Definition with_sequence (s : Sequence) (r : Link) : Link :=
  mkLink (input r) (decoder r) s (idle r) (socket r).
Definition with_idle (t : Z) (r : Link) : Link :=
  mkLink (input r) (decoder r) (sequence r) t (socket r).
Definition on_wire (g : Socket -> Socket) (r : Link) : Link :=
  mkLink (input r) (decoder r) (sequence r) (idle r) (g (socket r)).

(** `aap-client/src/stream/relay.rs:18-23`, `Output` *)
Record Output := mkOutput {
  encoded : Encoded; header_offset : Z; payload_offset : Z; end_ : bool }.

(** `aap-client/src/stream/relay.rs:3-17`, `Relay`; [room] is the outgoing buffer's
    length *)
Record Relay := mkRelay {
  application : Application;
  room : Z;
  outgoing : option Output;
  incoming : list byte;
  sent : Z;
  admitted : Z;
  send_limit : Z;
  sent_end : bool;
  received_end : bool;
  out_stall : option Z;
  in_stall : option Z;
  final_deadline : option Z;
  idle_timeout : Z;
  turn : bool }.

Definition with_application (a : Application) (r : Relay) : Relay :=
  mkRelay a (room r) (outgoing r) (incoming r) (sent r) (admitted r) (send_limit r) (sent_end r)
    (received_end r) (out_stall r) (in_stall r) (final_deadline r) (idle_timeout r) (turn r).
Definition with_outgoing (o : option Output) (stall : option Z) (r : Relay) : Relay :=
  mkRelay (application r) (room r) o (incoming r) (sent r) (admitted r) (send_limit r) (sent_end r)
    (received_end r) stall (in_stall r) (final_deadline r) (idle_timeout r) (turn r).
Definition with_incoming (bytes : list byte) (stall : option Z) (r : Relay) : Relay :=
  mkRelay (application r) (room r) (outgoing r) bytes (sent r) (admitted r) (send_limit r) (sent_end r)
    (received_end r) (out_stall r) stall (final_deadline r) (idle_timeout r) (turn r).
Definition with_sent (n : Z) (r : Relay) : Relay :=
  mkRelay (application r) (room r) (outgoing r) (incoming r) n (admitted r) (send_limit r) (sent_end r)
    (received_end r) (out_stall r) (in_stall r) (final_deadline r) (idle_timeout r) (turn r).
Definition with_admitted (n : Z) (r : Relay) : Relay :=
  mkRelay (application r) (room r) (outgoing r) (incoming r) (sent r) n (send_limit r) (sent_end r)
    (received_end r) (out_stall r) (in_stall r) (final_deadline r) (idle_timeout r) (turn r).
Definition with_ends (out_end in_end : bool) (r : Relay) : Relay :=
  mkRelay (application r) (room r) (outgoing r) (incoming r) (sent r) (admitted r) (send_limit r) out_end
    in_end (out_stall r) (in_stall r) (final_deadline r) (idle_timeout r) (turn r).
Definition with_final (t : option Z) (b : bool) (r : Relay) : Relay :=
  mkRelay (application r) (room r) (outgoing r) (incoming r) (sent r) (admitted r) (send_limit r) (sent_end r)
    (received_end r) (out_stall r) (in_stall r) t (idle_timeout r) b.

(** `aap-client/src/stream.rs:72-79`, `State` *)
Record State := mkState {
  link : Link; opened_ : option Opened; lifetime : Z; relay_ : option Relay }.

(** `aap-client/src/stream.rs:109-113`, `Slot`; [remains] is the state that was dropped,
    for the record *)
Record Slot := mkSlot { slot_state : option State; slot_failure : ErrorCode; remains : option State }.

(** ** What a poll observes *)

(** One step of a relay: the clock when it starts, what the socket and the application
    answer to the call it makes, and the clock after it. *)
Record Tick := mkTick {
  at_start : Z;
  on_read : nat -> poll (result unit (list byte));
  on_write : poll (result unit Z);
  on_app_read : poll (result AttachmentError (list byte));
  on_app_write : poll (result AttachmentError Z);
  on_app_end : poll (result AttachmentError unit);
  at_io : Z;
  at_end : Z }.

(** A poll: the clock when it begins and ends, and its steps. *)
Record Polling := mkPolling { entered : Z; ticks : nat -> Tick; left_ : Z }.

(** ** The reader *)

Section Attached.
Context `{Base64} `{Serde}.

Abbreviation L := (polled Link Error).
Definition lost {S A} : polled S Error A := pfail (Error_new ResultUnavailable).

(** `aap-client/src/stream.rs:43-57`, `Reader::next`: a step of the decoder *)
Definition parse_next : L (option Frame) := fun r =>
  if bool_decide (input r = []) then (r, PollReady (Ok None))
  else
    let '(value, d, rest, s) := next (decoder r) (input r) (sequence r) Daemon in
    let r := with_reading d s r in
    match value with
    | Err _ => (r, PollReady (fail ResultUnavailable))
    | Ok value => (with_input rest r, PollReady (Ok value))
    end.

(** `aap-client/src/stream.rs:58-65`, `Reader::next`: a read of the socket *)
Definition read_next (k : nat) (t : Tick) : L unit :=
  match on_read t k with
  | PollPending => pwait
  | PollReady (Ok bytes) =>
      if bool_decide (bytes = []) then lost
      else pput (fun r => with_input bytes (on_wire (receive bytes) r))
  | PollReady (Err _) => lost
  end.

(** `aap-client/src/stream.rs:41-69`, `Reader::next`; [k] counts the rounds *)
Fixpoint reader_next (rounds k : nat) (t : Tick) : L Frame :=
  match rounds with
  | O => pwait
  | S rounds =>
      value ← parse_next;
      match value with
      | Some frame => mret frame
      | None => _ ← read_next k t; reader_next rounds (S k) t
      end
  end.

(** ** The relay *)

Definition W : Type := Relay * Link.
Abbreviation P := (polled W Error).
Definition on_relay (g : Relay -> Relay) : P unit := pput (fun w => (g w.1, w.2)).
Definition on_link (g : Link -> Link) : P unit := pput (fun w => (w.1, g w.2)).
(** A computation of the link alone. *)
Definition linked {A} (m : L A) : P A := fun w => let '(r, a) := m w.2 in ((w.1, r), a).

(** `aap-client/src/stream/relay.rs:25-41`, `Relay::new` *)
Definition Relay_new (a : Application) (o : Opened) : Relay :=
  mkRelay a (max_data_bytes o) None [] 0 0 (Stream.send_limit o) false false None None None
    (millis (idle_timeout_ms o)) false.

(** `aap-client/src/stream/relay.rs:42-52`, `Relay::deadline` *)
Definition relay_deadline (r : Relay) (lifetime idle : Z) : Z :=
  match final_deadline r with
  | Some d => Z.min d (lifetime + secs 2)
  | None => foldl Z.min (Z.min lifetime idle) (option_list (out_stall r) ++ option_list (in_stall r))
  end.

(** `aap-client/src/stream/relay.rs:63-100`, `Relay::output`: a write of the frame under way *)
Definition write_output (o : Output) (t : Tick) : P unit := fun w =>
  let '(r, k) := w in
  let heading := header_offset o <? 5 in
  let bytes := if heading then drop (Z.to_nat (header_offset o)) (encoded_header (encoded o))
               else drop (Z.to_nat (payload_offset o)) (payload (encoded o)) in
  match on_write t with
  | PollPending => (w, PollPending)
  | PollReady (Ok count) =>
      if (0 <? count) && (count <=? len bytes) then
        let k := on_wire (transmit (take (Z.to_nat count) bytes)) k in
        if heading then
          let o := mkOutput (encoded o) (header_offset o + count) (payload_offset o) (end_ o) in
          if (header_offset o =? 5) && end_ o
          then ((with_outgoing None None (with_ends true (received_end r) r), k), PollReady (Ok tt))
          else ((with_outgoing (Some o) (out_stall r) r, k), PollReady (Ok tt))
        else
          let o := mkOutput (encoded o) (header_offset o) (payload_offset o + count) (end_ o) in
          let r := with_sent (sent r + count) r in
          let k := with_idle (at_io t + idle_timeout r) k in
          if payload_offset o =? len (payload (encoded o))
          then ((with_outgoing None None r, k), PollReady (Ok tt))
          else ((with_outgoing (Some o) (Some (at_io t + idle_timeout r)) r, k), PollReady (Ok tt))
      else (w, PollReady (fail ResultUnavailable))
  | PollReady (Err _) => (w, PollReady (fail ResultUnavailable))
  end.

(** `aap-client/src/stream/relay.rs:101-130`, `Relay::output`: the next frame *)
Definition next_output (t : Tick) : P unit := fun w =>
  let '(r, k) := w in
  let remaining := send_limit r - admitted r in
  let size := Z.min (room r) (Z.max remaining 1) in
  match on_app_read t with
  | PollPending => (w, PollPending)
  | PollReady (Err _) => (w, PollReady (fail ResultUnavailable))
  | PollReady (Ok bytes) =>
      let count := len bytes in
      let a := application r in
      let r := with_application (mkApplication (spoke a ++ bytes) (spoke_end a || (count =? 0)) (heard a) (heard_end a)) r in
      if size <? count then ((r, k), PollReady (fail InternalError))
      else if remaining <? count then ((r, k), PollReady (fail LimitExceeded))
      else
        let frame := if count =? 0 then FSendEnd else FData bytes in
        let '(accepted, s) := accept (sequence k) Agent frame in
        let k := with_sequence s k in
        match accepted with
        | Err e => ((r, k), PollReady (Err e))
        | Ok _ =>
            let r := with_admitted (admitted r + count) r in
            match Frame_encode frame with
            | Err e => ((r, k), PollReady (Err e))
            | Ok encoded =>
                ((with_outgoing (Some (mkOutput encoded 0 0 (count =? 0))) (Some (at_io t + idle_timeout r)) r, k),
                 PollReady (Ok tt))
            end
        end
  end.

(** `aap-client/src/stream/relay.rs:53-131`, `Relay::output` *)
Definition relay_output (t : Tick) : P unit := fun w =>
  if sent_end w.1 then (w, PollPending)
  else match outgoing w.1 with
    | Some o => write_output o t w
    | None => next_output t w
    end.

(** `aap-client/src/stream/relay.rs:139-158`, `Relay::input`: what is left of a frame goes
    to the application *)
Definition write_input (t : Tick) : P unit := fun w =>
  let '(r, k) := w in
  match on_app_write t with
  | PollPending => (w, PollPending)
  | PollReady (Err _) => (w, PollReady (fail ResultUnavailable))
  | PollReady (Ok count) =>
      if (count =? 0) || (len (incoming r) <? count) then (w, PollReady (fail ResultUnavailable))
      else
        let a := application r in
        let a := mkApplication (spoke a) (spoke_end a) (heard a ++ take (Z.to_nat count) (incoming r)) (heard_end a) in
        let bytes := drop (Z.to_nat count) (incoming r) in
        ((with_incoming bytes (if bool_decide (bytes = []) then None else Some (at_io t + idle_timeout r))
            (with_application a r), with_idle (at_io t + idle_timeout r) k), PollReady (Ok tt))
  end.

(** `aap-client/src/stream/relay.rs:159-165`, `Relay::input`: the end goes to the application *)
Definition end_input (t : Tick) : P unit := fun w =>
  let '(r, k) := w in
  match on_app_end t with
  | PollPending => (w, PollPending)
  | PollReady (Err _) => (w, PollReady (fail ResultUnavailable))
  | PollReady (Ok _) =>
      let a := application r in
      let a := mkApplication (spoke a) (spoke_end a) (heard a) true in
      ((with_incoming (incoming r) None (with_ends (sent_end r) true (with_application a r)), k), PollReady (Ok tt))
  end.

(** `aap-client/src/stream/relay.rs:166-187`, `Relay::input`: a frame of the daemon *)
Definition take_frame (frame : Frame) (t : Tick) : P (option Terminal) := fun w =>
  let '(r, k) := w in
  match frame with
  | FData bytes => ((with_incoming bytes (Some (at_io t + idle_timeout r)) r, k), PollReady (Ok None))
  | FSendEnd => ((with_incoming (incoming r) (Some (at_io t + idle_timeout r)) r, k), PollReady (Ok None))
  | FTerminal value =>
      if negb (bool_decide (input k = [])) || (sent r <? sent_bytes value)
         || (bool_decide (state (operation value) = Completed)
             && (negb (sent_end r) || negb (received_end r) || bool_decide (is_Some (outgoing r))))
      then (w, PollReady (fail ResultUnavailable))
      else (w, PollReady (Ok (Some value)))
  | _ => (w, PollReady (fail ResultUnavailable))
  end.

(** `aap-client/src/stream/relay.rs:132-188`, `Relay::input` *)
Definition relay_input (t : Tick) : P (option Terminal) := fun w =>
  if negb (bool_decide (incoming w.1 = [])) then (_ ← write_input t; mret None) w
  else if ended (sequence w.2) Daemon && negb (received_end w.1) then (_ ← end_input t; mret None) w
  else (frame ← linked (reader_next 4 0 t); take_frame frame t) w.

(** `aap-client/src/stream/relay.rs:189-226`, `Relay::poll`: the steps; [blocked] is how many
    of the last steps waited, [k] counts the steps *)
Fixpoint relay_steps (steps k blocked : nat) (lifetime : Z) (p : Polling) : P Terminal := fun w =>
  match steps with
  | O => (w, PollPending)
  | S steps =>
      let t := ticks p k in
      if relay_deadline w.1 lifetime (idle w.2) <=? at_start t then (w, PollReady (fail ResultUnavailable))
      else
        let w := (with_final (final_deadline w.1) (negb (turn w.1)) w.1, w.2) in
        let '(w, step) :=
          if turn w.1 then relay_input t w else (_ ← relay_output t; mret None) w in
        let go blocked :=
          let r := w.1 in
          let r := if sent_end r && received_end r && bool_decide (final_deadline r = None)
                   then with_final (Some (at_end t + secs 2)) (turn r) r else r in
          relay_steps steps (S k) blocked lifetime p (r, w.2) in
        match step with
        | PollReady (Ok (Some terminal)) => (w, PollReady (Ok terminal))
        | PollReady (Ok None) => go 0%nat
        | PollReady (Err e) => (w, PollReady (Err e))
        | PollPending => if (S blocked =? 2)%nat then (w, PollPending) else go (S blocked)
        end
  end.

(** ** The state *)

Abbreviation Q := (polled State Error).
Definition at_link {A} (m : L A) : Q A := fun s =>
  let '(k, a) := m (link s) in (mkState k (opened_ s) (lifetime s) (relay_ s), a).

(** `aap-client/src/stream/relay.rs:229-238`, `State::relay` *)
Definition State_relay (p : Polling) : Q Terminal := fun s =>
  match relay_ s with
  | None => (s, PollReady (fail ResultUnavailable))
  | Some r =>
      let '((r, k), a) := relay_steps 16 0 0 (lifetime s) p (r, link s) in
      (mkState k (opened_ s) (lifetime s) (Some r), a)
  end.

(** `aap-client/src/stream.rs:81-87`, `State::deadline` *)
Definition deadline (s : State) : Z :=
  match relay_ s with
  | None => Z.min (lifetime s) (idle (link s))
  | Some r => relay_deadline r (lifetime s) (idle (link s))
  end.

(** `aap-client/src/stream.rs:88-107`, `State::connect`; [k] counts the frames *)
Fixpoint State_connect (rounds k : nat) (p : Polling) : Q (option Terminal) :=
  match rounds with
  | O => pwait
  | S rounds =>
      let t := ticks p k in
      frame ← at_link (reader_next 4 0 t);
      match frame with
      | FPending _ => State_connect rounds (S k) p
      | FOpened opened =>
          _ ← pput (fun s => mkState (with_idle (at_io t + millis (idle_timeout_ms opened)) (link s)) (Some opened)
                               (at_io t + millis (remaining_lifetime_ms opened)) (relay_ s));
          mret None
      | FTerminal value => fun s =>
          (s, PollReady (if bool_decide (input (link s) = []) then Ok (Some value) else fail ResultUnavailable))
      | _ => lost
      end
  end.

(** ** The slot *)

(** `aap-client/src/stream.rs:120-138`, `Shared::stop` *)
Definition stop (failure : ErrorCode) (s : Slot) : Slot :=
  match slot_state s with None => s | Some st => mkSlot None failure (Some st) end.

(** `aap-client/src/stream.rs:139-179`, `Shared::poll` *)
Definition shared_poll {A} (m : Polling -> Q A) (p : Polling) (s : Slot) : Slot * poll (Result A) :=
  match slot_state s with
  | None => (s, PollReady (fail (slot_failure s)))
  | Some st =>
      let '(st, r) :=
        if deadline st <=? entered p then (st, PollReady (fail ResultUnavailable))
        else
          let limit := deadline st in
          let '(st, r) := m p st in
          if limit <=? left_ p then (st, PollReady (fail ResultUnavailable)) else (st, r) in
      let s := mkSlot (Some st) (slot_failure s) (remains s) in
      (match r with PollReady (Err e) => stop (code e) s | _ => s end, r)
  end.

(** `aap-client/src/stream.rs:210-240`, `Owner::new`; [early] is what came with the
    response *)
Definition Owner_new (request : Open) (early : list byte) (now : Z) : Result Slot :=
  sequence ← Sequence_new request;
  let deadline := now + secs 310 in
  Ok (mkSlot (Some (mkState (mkLink early Decoder_default sequence deadline (mkSocket early [])) None deadline None))
        ResultUnavailable None).

(** `aap-client/src/stream.rs:250-268`, `Owner::opened` *)
Definition Owner_opened (now : Z) (s : Slot) : Result Opened :=
  match slot_state s with
  | None => fail (slot_failure s)
  | Some st =>
      if deadline st <=? now then fail ResultUnavailable
      else
        opened ← ok_or (opened_ st) (Error_new ResultUnavailable);
        let remaining := Z.max 0 (lifetime st - now) / 1000000 in
        if remaining =? 0 then fail ResultUnavailable
        else Ok (mkOpened (opened_request_id opened) (opened_resource opened) (max_data_bytes opened)
                   (Stream.send_limit opened) (receive_limit opened) (idle_timeout_ms opened) remaining
                   (inspection opened) (observation opened))
  end.

(** `aap-client/src/stream.rs:269-285`, `Owner::attach`; the application is fresh *)
Definition Owner_attach (now : Z) (s : Slot) : Slot * Result unit :=
  match slot_state s with
  | None => (s, fail (slot_failure s))
  | Some st =>
      if (deadline st <=? now) || bool_decide (is_Some (relay_ st)) then (s, fail ResultUnavailable)
      else match opened_ st with
        | None => (s, fail ResultUnavailable)
        | Some o =>
            let r := Relay_new (mkApplication [] false [] false) o in
            (mkSlot (Some (mkState (link st) (opened_ st) (lifetime st) (Some r))) (slot_failure s) (remains s), Ok tt)
        end
  end.

(** `aap-client/src/stream.rs:298-323`, `watch`: what it does when it wakes *)
Definition watch (now : Z) (s : Slot) : Slot :=
  match slot_state s with
  | None => s
  | Some st => if deadline st <=? now then stop ResultUnavailable s else s
  end.

(** ** What happens to a stream *)

Inductive Call :=
  | CallConnect (p : Polling)
  | CallAttach (now : Z)
  | CallRelay (p : Polling)
  | CallAbort
  | CallWatch (now : Z).

(** What the owner is told: the opening or a terminal result instead of it, and the
    terminal result of the relay. *)
Inductive Told := ToldOpened | ToldRefused (t : Terminal) | ToldAttached | ToldTerminal (t : Terminal) | ToldError (e : Error).

Definition told {A} (g : A -> Told) (r : Slot * poll (Result A)) : Slot * list Told :=
  match r with
  | (s, PollReady (Ok a)) => (s, [g a])
  | (s, PollReady (Err e)) => (s, [ToldError e])
  | (s, PollPending) => (s, [])
  end.

(** `aap-client/src/stream.rs:181-202`, `Shared::abort`, and the calls of the owner
    (`stream.rs:241-291`) *)
Definition call (c : Call) (s : Slot) : Slot * list Told :=
  match c with
  | CallConnect p =>
      told (fun t => match t with Some t => ToldRefused t | None => ToldOpened end)
        (shared_poll (State_connect 4 0) p s)
  | CallAttach now =>
      match Owner_attach now s with
      | (s, Ok _) => (s, [ToldAttached])
      | (s, Err e) => (s, [ToldError e])
      end
  | CallRelay p => told ToldTerminal (shared_poll State_relay p s)
  | CallAbort => (stop ResultUnavailable s, [])
  | CallWatch now => (watch now s, [])
  end.

Fixpoint calls (l : list Call) (s : Slot) : Slot * list Told :=
  match l with
  | [] => (s, [])
  | c :: l => let '(s, a) := call c s in let '(s, b) := calls l s in (s, a ++ b)
  end.
End Attached.
