(* ===== verification/AttachedFacts.v ===== *)
(** * The agent's end of a stream: what goes over the wire

    The invariant of a live stream relates the bytes of its socket and of its
    application to the trace of frames that its framing state has accepted. *)
From S2P Require Import Prelude Protocol Ids Stream Sequence Decoder Wire Attached.

Section Facts.
Context `{Base64} `{Serde}.
Context (op : Open).

(** ** The reader *)

(** What has come in: the encodings of the daemon's frames, and what the decoder and
    the reader hold of the next one. *)
Definition Reading (trace : list event) (k : Link) : Prop :=
  reach op trace (sequence k) /\ wf (decoder k) /\ failed (decoder k) = false
  /\ exists eaten, got (socket k) = eaten ++ held (decoder k) ++ input k /\ spells (frames_of Daemon trace) eaten.

(** What holds of it even after a failure. *)
Definition Came (trace : list event) (k : Link) : Prop :=
  (exists s, reach op trace s) /\ exists eaten rest, got (socket k) = eaten ++ rest /\ spells (frames_of Daemon trace) eaten.

Lemma Reading_came trace k : Reading trace k -> Came trace k.
Proof. intros (Hr & _ & _ & eaten & Hg & Hs). split; [by eexists|]. by exists eaten, (held (decoder k) ++ input k). Qed.

(** What reading leaves as it is. *)
Definition same_out (k k' : Link) : Prop := put (socket k') = put (socket k).

Lemma parse_next_spec trace k : Reading trace k ->
  match parse_next k with
  | (k', PollReady (Ok (Some f))) => Reading (trace ++ [(Daemon, f)]) k' /\ held (decoder k') = [] /\ same_out k k'
  | (k', PollReady (Ok None)) => Reading trace k' /\ input k' = [] /\ same_out k k'
  | (k', PollReady (Err _)) => Came trace k' /\ same_out k k'
  | _ => False
  end.
Proof.
  intros (Hr & Hw & Hf & eaten & Hg & Hs). unfold parse_next. case_bool_decide as Hi.
  { split; [|done]. split; [done|]. split; [done|]. split; [done|]. by exists eaten. }
  pose proof (next_eats (decoder k) (input k) (sequence k) Daemon Hw Hf) as Hn.
  destruct (next _ _ _ _) as [[[value d] rest] s]. cbn in Hn.
  destruct value as [[f|]|e].
  - destruct Hn as (Hwd & Hfd & ate & Hin & Hen & Hh & Ha). split; [|done].
    split; [cbn; by eapply reach_accept|]. split; [done|]. split; [done|].
    exists (eaten ++ held (decoder k) ++ ate). cbn. rewrite Hh, Hg, Hin, <-!app_assoc. split; [done|].
    rewrite frames_of_snoc. cbn. by apply spells_snoc.
  - destruct Hn as (Hwd & Hfd & ate & Hin & Hh & -> & ->). split; [|done].
    split; [done|]. split; [done|]. split; [done|]. exists eaten. cbn. rewrite Hh, app_nil_r. rewrite app_nil_r in Hin.
    by rewrite <-Hin.
  - split; [|done]. split; [by eexists|]. by exists eaten, (held (decoder k) ++ input k).
Qed.

Lemma reader_spec rounds j t trace k : Reading trace k ->
  match reader_next rounds j t k with
  | (k', PollReady (Ok f)) => Reading (trace ++ [(Daemon, f)]) k' /\ held (decoder k') = [] /\ same_out k k'
  | (k', PollReady (Err _)) => Came trace k' /\ same_out k k'
  | (k', PollPending) => Reading trace k' /\ same_out k k'
  end.
Proof.
  revert j k. induction rounds as [|rounds IH]; intros j k Hk; cbn [reader_next]; [done|].
  pose proof (parse_next_spec trace k Hk) as Hp. unfold mbind, polled_bind.
  destruct (parse_next k) as [k1 [|[[f|]|e]]]; [done|exact Hp| |exact Hp].
  destruct Hp as (Hk1 & Hin & Hs1). unfold read_next.
  destruct (on_read t j) as [|[bytes|]]; [done| |split; [by apply Reading_came|done]].
  case_bool_decide as Hb; [split; [by apply Reading_came|done]|]. cbn [pput].
  set (k2 := with_input bytes (on_wire (receive bytes) k1)).
  assert (Reading trace k2) as Hk2.
  { destruct Hk1 as (Hr & Hw & Hf & eaten & Hg & Hs). split; [done|]. split; [done|]. split; [done|].
    exists eaten. cbn. rewrite Hg, Hin, app_nil_r, <-app_assoc. done. }
  specialize (IH (S j) k2 Hk2). destruct (reader_next rounds (S j) t k2) as [k3 [|[f|e]]];
    unfold same_out in *; cbn in IH; rewrite <-Hs1; exact IH.
Qed.

(** ** The relay *)

(** The frame that is being written: how its payload and the bytes on the wire go on
    after the whole frames. *)
Definition Output_of (ended : bool) (o : Output) (c : list byte) : Prop :=
  end_ o = ended /\ Frame_encode (if ended then FSendEnd else FData c) = Ok (encoded o) /\ payload (encoded o) = c
  /\ 0 <= header_offset o <= 5 /\ 0 <= payload_offset o
  /\ (header_offset o < 5 -> payload_offset o = 0)
  /\ (if ended then header_offset o < 5 else payload_offset o < len c).

(** What has gone out: the encodings of the agent's frames, whose payloads are what the
    application said. *)
Definition Speaking (trace : list event) (r : Relay) (bytes : list byte) : Prop :=
  exists chunks current, bytes = mjoin (map data_wire chunks) ++ current
  /\ Forall (fun c => wf_header (mkHeader KData (len c))) chunks
  /\ spoke (application r) = mjoin (payloads Agent trace) /\ spoke_end (application r) = half_closed Agent trace
  /\ match outgoing r with
     | None => payloads Agent trace = chunks /\ sent r = len (mjoin chunks) /\ sent_end r = half_closed Agent trace
         /\ current = if sent_end r then end_wire else []
     | Some o => sent_end r = false /\ exists c, Output_of (half_closed Agent trace) o c
         /\ payloads Agent trace = chunks ++ (if half_closed Agent trace then [] else [c])
         /\ sent r = len (mjoin chunks) + payload_offset o
         /\ current = take (Z.to_nat (header_offset o)) (encoded_header (encoded o)) ++ take (Z.to_nat (payload_offset o)) c
     end.

(** What the application has heard. *)
Definition Hearing (trace : list event) (r : Relay) : Prop :=
  mjoin (payloads Daemon trace) = heard (application r) ++ incoming r
  /\ received_end r = heard_end (application r)
  /\ (heard_end (application r) = true -> half_closed Daemon trace = true /\ incoming r = []).

Definition RInv (o : Opened) (w : W) : Prop :=
  exists trace, Reading trace w.2 /\ opening trace = Some o /\ Speaking trace w.1 (put (socket w.2)) /\ Hearing trace w.1.

(** What holds even after a failure. What has gone out are whole frames and a part of
    one more, whose payloads are a prefix of what the application has said; its end is
    out only after all of it. The application has heard a prefix of what has come in,
    and the end only after all of it. *)
Definition Spoke (a : Application) (bytes : list byte) : Prop :=
  exists chunks (ended : bool) head part,
    bytes = mjoin (map data_wire chunks) ++ (if ended then end_wire else []) ++ head ++ part
  /\ Forall (fun c => wf_header (mkHeader KData (len c))) chunks /\ incomplete (head ++ part)
  /\ mjoin chunks ++ part `prefix_of` spoke a
  /\ (ended = true -> spoke_end a = true /\ mjoin chunks = spoke a).
Definition Heard (trace : list event) (a : Application) : Prop :=
  heard a `prefix_of` mjoin (payloads Daemon trace)
  /\ (heard_end a = true -> half_closed Daemon trace = true /\ heard a = mjoin (payloads Daemon trace)).
Definition Weak (w : W) : Prop :=
  exists trace, Came trace w.2 /\ Heard trace (application w.1) /\ Spoke (application w.1) (put (socket w.2)).

Lemma Speaking_more trace r bytes a : Speaking trace r bytes -> spoke (application r) `prefix_of` spoke a ->
  (sent_end r = true -> spoke (application r) = spoke a /\ spoke_end (application r) = spoke_end a) -> Spoke a bytes.
Proof.
  intros (chunks & current & -> & Hw & Hsp & Hse & Hx) Hpre Hsame. destruct (outgoing r) as [out|].
  - destruct Hx as (Hns & c & (He & Hen & Hp & Hh & Hpo & Hz & Hlast) & Hpay & _ & ->).
    exists chunks, false, (take (Z.to_nat (header_offset out)) (encoded_header (encoded out))), (take (Z.to_nat (payload_offset out)) c).
    split; [done|]. split; [done|]. split; [|split; [|done]].
    + destruct (half_closed Agent trace).
      * rewrite (Hz Hlast), take_0, app_nil_r. apply incomplete_short. rewrite length_take. lia.
      * apply encode_data in Hen as (-> & _ & Hwc). apply incomplete_data; try done.
        -- unfold len in *. rewrite length_take. lia.
        -- destruct (Z.eq_dec (header_offset out) 5); [by right|left]. rewrite Hz by lia. by rewrite take_0.
    + etransitivity; [|exact Hpre]. rewrite Hsp, Hpay, join_app. apply prefix_app. destruct (half_closed Agent trace).
      * by rewrite (Hz Hlast), take_0.
      * cbn. rewrite app_nil_r. apply prefix_take.
  - destruct Hx as (<- & _ & Hend & ->). exists (payloads Agent trace), (sent_end r), [], [].
    rewrite !app_nil_r, <-Hsp. split; [done|]. split; [done|]. split; [apply incomplete_short; cbn; lia|]. split; [done|].
    intros Ht. destruct (Hsame Ht) as [<- <-]. split; [congruence|done].
Qed.
Lemma Speaking_spoke trace r bytes : Speaking trace r bytes -> Spoke (application r) bytes.
Proof. intros Hs. by apply (Speaking_more trace r). Qed.
Lemma Hearing_heard trace r : Hearing trace r -> Heard trace (application r).
Proof.
  intros (Hp & _ & He). split; [rewrite Hp; by apply prefix_app_r|]. intros Hx. destruct (He Hx) as [? Hi].
  by rewrite Hp, Hi, app_nil_r.
Qed.

(** After the daemon's end there is no more data. *)
Lemma frame_after_end trace f s : reach op (trace ++ [(Daemon, f)]) s -> half_closed Daemon trace = true ->
  match f with FData _ | FSendEnd => False | _ => True end.
Proof.
  intros Hr Hc. inversion Hr as [? _ Heq|tr s0 ev s' Hr0 Hstep Heq]; [by destruct trace|].
  apply app_inj_tail in Heq as [-> ->]. assert (exists s', step s0 (Daemon, f) s') as Hex by eauto.
  apply (reach_refines _ _ _ _ _ Hr0) in Hex as [_ [_ Hadm]]. destruct f; try done.
  - destruct Hadm as (_ & _ & Hn & _). congruence.
  - destruct Hadm as [_ Hn]. congruence.
Qed.
Lemma Heard_more trace f s a : reach op (trace ++ [(Daemon, f)]) s -> Heard trace a -> Heard (trace ++ [(Daemon, f)]) a.
Proof.
  intros Hr [Hp He]. rewrite <-(app_nil_r (payloads Daemon trace)) in He. split.
  - etransitivity; [exact Hp|]. rewrite payloads_snoc, join_app. by apply prefix_app_r.
  - intros Hx. destruct (He Hx) as [Hc Ha]. rewrite half_closed_snoc, Hc, Ha, payloads_snoc. split; [done|].
    pose proof (frame_after_end trace f s Hr Hc) as Hf. by destruct f.
Qed.

Lemma RInv_weak o w : RInv o w -> Weak w.
Proof.
  intros (trace & Hr & _ & Hs & Hh). exists trace. split; [by apply Reading_came|].
  split; [by apply Hearing_heard|]. by eapply Speaking_spoke.
Qed.

(** A frame of the daemon leaves what has gone out as it is. *)
Lemma Speaking_daemon trace r bytes f : Speaking trace r bytes -> Speaking (trace ++ [(Daemon, f)]) r bytes.
Proof. unfold Speaking. by rewrite other_payloads, other_end. Qed.
Lemma Hearing_agent trace r f : Hearing trace r -> Hearing (trace ++ [(Agent, f)]) r.
Proof. unfold Hearing. by rewrite other_payloads, other_end. Qed.

Context (o : Opened).
Abbreviation holds m post w := (wp (RInv o) (fun _ => Weak) m post w).

Lemma fail_weak {A} (e : Error) w (post : A -> W -> Prop) : RInv o w -> holds (pfail e) post w.
Proof. apply RInv_weak. Qed.

Lemma write_output_holds t w out : RInv o w -> outgoing w.1 = Some out -> holds (write_output out t) (fun _ => RInv o) w.
Proof.
  intros Hi Hout. destruct w as [r k]. cbn in Hout. pose proof (RInv_weak o _ Hi) as Hweak.
  unfold wp, write_output. destruct (on_write t) as [|[count|]]; [exact Hi| |exact Hweak].
  set (bytes := if header_offset out <? 5 then _ else _).
  destruct (Z.ltb_spec 0 count) as [Hpos|]; cbn [andb]; [|exact Hweak].
  destruct (Z.leb_spec count (len bytes)) as [Hc|]; [|exact Hweak].
  destruct Hi as (trace & Hr & Ho & (chunks & current & Hput & Hw & Hsp & Hse & Hx) & Hh). cbn [fst snd] in *.
  rewrite Hout in Hx. destruct Hx as (Hend & c & (He & Henc & Hpl & Hho & Hpo & Hz & Hlast) & Hpay & Hsent & Hcur).
  assert (length (encoded_header (encoded out)) = 5%nat) as Hlen.
  { destruct (Frame_encode_Ok _ _ Henc) as (h & _ & _ & _ & ->). apply Header_encode_length. }
  assert (forall k', k' = on_wire (transmit (take (Z.to_nat count) bytes)) k ->
    put (socket k') = mjoin (map data_wire chunks) ++ current ++ take (Z.to_nat count) bytes) as Hput'.
  { intros k' ->. cbn. by rewrite Hput, <-app_assoc. }
  destruct (Z.ltb_spec (header_offset out) 5) as [H5|H5].
  - specialize (Hz H5). rewrite Hz, take_0, app_nil_r in Hcur.
    assert (current ++ take (Z.to_nat count) bytes = take (Z.to_nat (header_offset out + count)) (encoded_header (encoded out))) as Hnow.
    { rewrite Hcur. subst bytes. rewrite take_take_drop. f_equal. lia. }
    assert (header_offset out + count <= 5) as Hle. { subst bytes. unfold len in Hc. rewrite length_drop in Hc. lia. }
    destruct (_ && _) eqn:Hfin.
    + apply andb_true_iff in Hfin as [Hf5 Hfe]. cbn [header_offset end_] in Hf5, Hfe. bool_hyps. rewrite Hfe in He. rewrite <-He in *.
      exists trace. split; [exact Hr|]. split; [done|]. split; [|exact Hh].
      exists chunks, (current ++ take (Z.to_nat count) bytes). cbn [fst snd]. split; [by apply Hput'|]. do 2 (split; [done|]). split; [cbn; congruence|].
      cbn. rewrite app_nil_r in Hpay. split; [done|]. split; [lia|]. split; [done|].
      rewrite Hnow, Hf5. apply encode_end in Henc as [-> _]. by rewrite take_ge.
    + exists trace. split; [exact Hr|]. split; [done|]. split; [|exact Hh].
      exists chunks, (current ++ take (Z.to_nat count) bytes). cbn [fst snd]. split; [by apply Hput'|]. do 3 (split; [done|]).
      cbn. split; [done|]. exists c. split; [|split; [done|split; [done|]]].
      * unfold Output_of. cbn [encoded header_offset payload_offset end_] in Hfin |- *. split_and!; try (done || lia).
        destruct (half_closed Agent trace); [|done]. rewrite He, andb_true_r in Hfin. bool_hyps. lia.
      * by rewrite Hnow, Hz, take_0, app_nil_r.
  - destruct (half_closed Agent trace) eqn:Hhc; [lia|]. assert (header_offset out = 5) as Hho5 by lia.
    subst bytes. rewrite Hpl in *.
    assert (current ++ take (Z.to_nat count) (drop (Z.to_nat (payload_offset out)) c)
      = encoded_header (encoded out) ++ take (Z.to_nat (payload_offset out + count)) c) as Hnow.
    { rewrite Hcur, Hho5, (take_ge (encoded_header _)), <-app_assoc, take_take_drop by lia. do 2 f_equal. lia. }
    destruct (encode_data _ _ Henc) as (Hhead & _ & Hwc).
    assert (payload_offset out + count <= len c) as Hle. { unfold len in *. rewrite length_drop in Hc. lia. }
    cbn [payload_offset encoded]. rewrite Hpl. destruct (Z.eqb_spec (payload_offset out + count) (len c)) as [Hfull|Hmore].
    + exists trace. split; [exact Hr|]. split; [done|]. split; [|exact Hh].
      exists (chunks ++ [c]), []. cbn [fst snd]. split.
      { rewrite map_app, app_nil_r. cbn [map]. rewrite join_snoc. etransitivity; [exact (Hput' _ eq_refl)|]. f_equal. rewrite Hnow, Hfull, Hhead.
        unfold data_wire. f_equal. apply take_ge. unfold len. lia. }
      split; [by apply Forall_app; split; [|apply Forall_singleton]|]. split; [done|]. split; [cbn; congruence|]. cbn.
      rewrite join_snoc, len_app, Hhc. split; [done|]. split; [lia|]. rewrite Hend. done.
    + exists trace. split; [exact Hr|]. split; [done|]. split; [|exact Hh].
      exists chunks, (current ++ take (Z.to_nat count) (drop (Z.to_nat (payload_offset out)) c)). cbn [fst snd].
      split; [exact (Hput' _ eq_refl)|]. do 2 (split; [done|]). split; [cbn; congruence|].
      cbn. rewrite Hhc. split; [done|]. exists c. split; [|split; [done|split; [lia|]]].
      * unfold Output_of. cbn [encoded header_offset payload_offset end_]. split_and!; (done || lia).
      * by rewrite Hnow, Hho5, (take_ge (encoded_header _)) by lia.
Qed.

Lemma next_output_holds t w : RInv o w -> outgoing w.1 = None -> sent_end w.1 = false ->
  holds (next_output t) (fun _ => RInv o) w.
Proof.
  intros Hi Hout Hnse. destruct w as [r k]. cbn in Hout, Hnse. pose proof (RInv_weak o _ Hi) as Hweak.
  unfold wp, next_output. destruct (on_app_read t) as [|[bytes|]]; [exact Hi| |exact Hweak].
  set (r' := with_application _ r).
  assert (forall s, Weak (r', with_sequence s k)) as Hw'.
  { intros s. destruct Hi as (trace & Hr & _ & Hsp & Hh). exists trace. split; [exact (Reading_came _ _ Hr)|].
    split; [exact (Hearing_heard _ _ Hh)|]. apply (Speaking_more trace r); [exact Hsp|cbn; by apply prefix_app_r|].
    cbn [fst] in Hnse |- *. by rewrite Hnse. }
  assert (Weak (r', k)) as Hw0 by (specialize (Hw' (sequence k)); by destruct k).
  destruct (Z.min _ _ <? len bytes); [exact Hw0|].
  destruct (_ <? len bytes); [exact Hw0|].
  set (frame := if len bytes =? 0 then FSendEnd else FData bytes).
  destruct (accept (sequence k) Agent frame) as [[[]|e] s] eqn:Ha; [|apply Hw'].
  destruct (Frame_encode frame) as [enc|] eqn:Hen; [|apply (Hw' s)].
  destruct Hi as (trace & (Hr & Hwf & Hfd & eaten & Hg & Hs) & Ho & (chunks & current & Hput & Hw & Hsp & Hse & Hx) & Hh).
  cbn [fst snd] in *. rewrite Hout in Hx. destruct Hx as (Hpay & Hsent & Hend & Hcur). rewrite Hnse in Hend, Hcur. subst current.
  assert (match frame with FData _ | FSendEnd => True | _ => False end) as Hplain by (unfold frame; by destruct (_ =? _)).
  destruct (plain_opening Agent trace frame Hplain) as [Ho' _].
  assert (half_closed Agent (trace ++ [(Agent, frame)]) = (len bytes =? 0)) as Hhc.
  { rewrite half_closed_snoc, <-Hend. unfold frame, is_end. cbn [fst snd orb]. rewrite bool_decide_true by done. by destruct (_ =? _). }
  assert (mjoin (payloads Agent (trace ++ [(Agent, frame)])) = mjoin (payloads Agent trace) ++ bytes
    /\ payloads Agent (trace ++ [(Agent, frame)]) = payloads Agent trace ++ (if len bytes =? 0 then [] else [bytes])) as [Hj Hpy].
  { rewrite payloads_snoc. unfold frame. destruct (Z.eqb_spec (len bytes) 0) as [Hz|].
    - apply len_0 in Hz as ->. cbn. by rewrite !app_nil_r.
    - rewrite data_of_same, join_snoc. done. }
  exists (trace ++ [(Agent, frame)]). cbn [fst snd]. split.
  { split; [by eapply reach_accept|]. split; [done|]. split; [done|]. exists eaten. rewrite other_frames by done. done. }
  split; [exact (eq_trans Ho' Ho)|]. split; [|by apply Hearing_agent].
  exists chunks, []. split; [exact Hput|]. split; [done|]. split; [cbn; by rewrite Hj, Hsp|].
  split; [cbn; by rewrite Hse, <-Hend, Hhc|]. cbn. split; [done|]. exists bytes. rewrite Hhc.
  split; [|split; [by rewrite Hpy, Hpay|split; [lia|by rewrite take_0]]].
  unfold Output_of. cbn. split; [done|]. unfold frame in Hen. destruct (Z.eqb_spec (len bytes) 0) as [Hz|Hz].
  - apply len_0 in Hz as ->. destruct (encode_end _ Hen) as [_ Hp]. split_and!; (done || lia).
  - destruct (encode_data _ _ Hen) as (_ & Hp & _). pose proof (len_nonneg bytes). split_and!; (done || lia).
Qed.

Lemma relay_output_holds t w : RInv o w -> holds (relay_output t) (fun _ => RInv o) w.
Proof.
  intros Hi. unfold relay_output. destruct (sent_end w.1) eqn:Hs; [|destruct (outgoing w.1) as [out|] eqn:Hout].
  - unfold wp. by rewrite Hs.
  - unfold wp. rewrite Hs, Hout. by apply write_output_holds.
  - unfold wp. rewrite Hs, Hout. by apply next_output_holds.
Qed.

Lemma write_input_holds t w : RInv o w -> incoming w.1 <> [] -> holds (write_input t) (fun _ => RInv o) w.
Proof.
  intros Hi Hin. destruct w as [r k]. cbn in Hin. pose proof (RInv_weak o _ Hi) as Hweak.
  unfold wp, write_input. destruct (on_app_write t) as [|[count|]]; [exact Hi| |exact Hweak].
  destruct (_ || _) eqn:Hc; [exact Hweak|].
  destruct Hi as (trace & Hr & Ho & Hsp & (Hh & Hre & Hhe)). exists trace.
  split; [exact Hr|]. split; [done|]. split; [exact Hsp|]. split; [|split; [done|]].
  - cbn. by rewrite Hh, <-app_assoc, take_drop.
  - cbn. intros Hx. destruct (Hhe Hx) as [_ ?]. done.
Qed.

Lemma end_input_holds t w : RInv o w -> incoming w.1 = [] -> ended (sequence w.2) Daemon = true ->
  holds (end_input t) (fun _ => RInv o) w.
Proof.
  intros Hi Hin He. destruct w as [r k]. cbn in Hin, He. pose proof (RInv_weak o _ Hi) as Hweak.
  unfold wp, end_input. destruct (on_app_end t) as [|[[]|]]; [exact Hi| |exact Hweak].
  destruct Hi as (trace & Hr & Ho & Hsp & (Hh & Hre & Hhe)). exists trace.
  split; [exact Hr|]. split; [done|]. split; [exact Hsp|]. split; [done|]. split; [done|]. intros _.
  destruct Hr as (Hr & _). by rewrite <-(reach_ended _ _ _ _ Hr).
Qed.

(** When the relay has its terminal result. *)
Definition Done (t : Terminal) (w : W) : Prop :=
  exists trace, Reading (trace ++ [(Daemon, FTerminal t)]) w.2 /\ opening trace = Some o
  /\ held (decoder w.2) = [] /\ input w.2 = []
  /\ Speaking trace w.1 (put (socket w.2)) /\ Hearing trace w.1 /\ sent_bytes t <= sent w.1
  /\ (state (operation t) = Completed -> sent_end w.1 = true /\ received_end w.1 = true /\ outgoing w.1 = None).

Lemma take_frame_holds frame t r k trace : Reading (trace ++ [(Daemon, frame)]) k -> held (decoder k) = [] ->
  opening trace = Some o -> Speaking trace r (put (socket k)) -> Hearing trace r -> incoming r = [] ->
  holds (take_frame frame t) (fun v w => RInv o w /\ match v with Some t => Done t w | None => True end) (r, k).
Proof.
  intros Hr Hheld Ho Hsp Hh Hin. destruct Hh as (Hpay & Hre & Hhe).
  assert (Weak (r, k)) as Hweak.
  { exists (trace ++ [(Daemon, frame)]). split; [by apply Reading_came|]. split; [|by eapply Speaking_spoke].
    destruct Hr as [Hr _]. eapply Heard_more; [exact Hr|]. by apply Hearing_heard. }
  assert (Speaking (trace ++ [(Daemon, frame)]) r (put (socket k))) as Hsp' by by apply Speaking_daemon.
  assert (match frame with FData _ | FSendEnd => True | _ => False end -> half_closed Daemon trace = false) as Hopen.
  { intros Hp. destruct Hr as (Hr & _). inversion Hr as [? _ Heq|tr s ev s' Hr0 Hstep Heq]; [by destruct trace|].
    apply app_inj_tail in Heq as [-> ->]. assert (exists s', step s (Daemon, frame) s') as Hex by eauto.
    apply (reach_refines _ _ _ _ _ Hr0) in Hex as [_ [_ Hadm]]. destruct frame; try done; naive_solver. }
  destruct frame as [p|q|bytes| |v]; try exact Hweak.
  - split; [|done]. destruct (plain_opening Daemon trace (FData bytes) I) as [Ho' _].
    exists (trace ++ [(Daemon, FData bytes)]). cbn [fst snd]. split; [done|]. split; [exact (eq_trans Ho' Ho)|]. split; [exact Hsp'|].
    split; [|split; [done|]].
    + cbn. rewrite payloads_snoc, data_of_same, join_snoc, Hpay, Hin, app_nil_r. done.
    + cbn. intros Hx. destruct (Hhe Hx) as [Hc _]. by rewrite Hopen in Hc.
  - split; [|done]. destruct (plain_opening Daemon trace FSendEnd I) as [Ho' _].
    exists (trace ++ [(Daemon, FSendEnd)]). cbn [fst snd]. split; [done|]. split; [exact (eq_trans Ho' Ho)|]. split; [exact Hsp'|].
    split; [|split; [done|]].
    + cbn. rewrite payloads_snoc. cbn. by rewrite app_nil_r.
    + cbn. intros Hx. destruct (Hhe Hx) as [Hc _]. by rewrite Hopen in Hc.
  - unfold wp, take_frame. destruct (_ || _) eqn:Hc; [exact Hweak|]. bool_hyps. split.
    + exists (trace ++ [(Daemon, FTerminal v)]). split; [done|]. split; [cbn; by rewrite opening_app|]. split; [exact Hsp'|].
      split; [|split; [done|]].
      * cbn. rewrite payloads_snoc. cbn. by rewrite app_nil_r.
      * cbn. intros Hx. destruct (Hhe Hx) as [Hc' ?]. split; [|done]. rewrite half_closed_snoc, Hc'. done.
    + exists trace. cbn [fst snd]. split_and!; try (done || lia).
      intros Hst. rewrite bool_decide_true in * by done. cbn in *. bool_hyps. split_and!; try done.
      destruct (outgoing r); [|done]. exfalso. naive_solver.
Qed.

Lemma relay_input_holds t w : RInv o w ->
  holds (relay_input t) (fun v w => RInv o w /\ match v with Some t => Done t w | None => True end) w.
Proof.
  intros Hi.
  assert (forall m : polled W Error unit, holds m (fun _ => RInv o) w -> holds (_ ← m; mret None)
    (fun v w => RInv o w /\ match v with Some t => Done t w | None => True end) w) as Hnone.
  { intros m Hm. apply wp_bind. eapply wp_mono; [exact Hm|]. intros [] w' Hw'. by split. }
  unfold wp, relay_input. case_bool_decide as Hin; cbn [negb].
  - destruct (ended (sequence w.2) Daemon && negb (received_end w.1)) eqn:He.
    + apply andb_true_iff in He as [He _]. by apply Hnone, end_input_holds.
    + change (holds (frame ← linked (reader_next 4 0 t); take_frame frame t)
        (fun v w => RInv o w /\ match v with Some t => Done t w | None => True end) w).
      apply wp_bind. destruct w as [r k]. destruct Hi as (trace & Hr & Ho & Hsp & Hh). cbn [fst snd] in *.
      pose proof (reader_spec 4 0 t trace k Hr) as Hs. unfold wp, linked. cbn [snd fst].
      destruct (reader_next 4 0 t k) as [k' [|[frame|e]]].
      * destruct Hs as [Hr' Hp]. exists trace. cbn. unfold same_out in Hp. rewrite Hp. by split_and!.
      * destruct Hs as (Hr' & Hheld & Hp). apply (take_frame_holds frame t r k' trace); try done.
        unfold same_out in Hp. by rewrite Hp.
      * destruct Hs as [Hc Hp]. exists trace. split; [exact Hc|]. split; [by apply Hearing_heard|]. unfold same_out in Hp.
        cbn. rewrite Hp. by eapply Speaking_spoke.
  - by apply Hnone, write_input_holds.
Qed.

(** The fields that only the clock needs. *)
Lemma RInv_clock d b r k : RInv o (r, k) <-> RInv o (with_final d b r, k).
Proof. done. Qed.

Lemma relay_steps_holds steps j blocked lt p w : RInv o w -> holds (relay_steps steps j blocked lt p) Done w.
Proof.
  revert j blocked w. induction steps as [|steps IH]; intros j blocked w Hi; [exact Hi|].
  unfold wp. cbn [relay_steps]. destruct (_ <=? _); [by eapply RInv_weak|].
  set (w1 := (with_final (final_deadline w.1) (negb (turn w.1)) w.1, w.2)).
  assert (RInv o w1) as Hi1 by (destruct w; done).
  assert (holds (if turn w1.1 then relay_input (ticks p j) else _ ← relay_output (ticks p j); mret None)
    (fun v w => RInv o w /\ match v with Some t => Done t w | None => True end) w1) as Hstep.
  { destruct (turn w1.1); [by apply relay_input_holds|]. apply wp_bind.
    eapply wp_mono; [by apply relay_output_holds|]. intros [] w' Hw'. by split. }
  assert (forall w2 n, RInv o w2 -> holds (fun _ => relay_steps steps (S j) n lt p
    ((if sent_end w2.1 && received_end w2.1 && bool_decide (final_deadline w2.1 = None)
      then with_final (Some (at_end (ticks p j) + secs 2)) (turn w2.1) w2.1 else w2.1), w2.2)) Done w) as Hgo.
  { intros w2 n Hi2. apply IH. destruct w2. cbn [fst snd]. by destruct (_ && _). }
  unfold wp in Hstep. destruct (turn w1.1).
  - destruct (relay_input (ticks p j) w1) as [w2 [|[[t|]|e]]]; [|by destruct Hstep|destruct Hstep; by apply Hgo|done].
    destruct (_ =? 2)%nat; [done|]. by apply Hgo.
  - destruct ((_ ← relay_output (ticks p j); mret None) w1) as [w2 [|[[t|]|e]]];
      [|by destruct Hstep|destruct Hstep; by apply Hgo|done].
    destruct (_ =? 2)%nat; [done|]. by apply Hgo.
Qed.
End Facts.

Section Slot.
Context `{Base64} `{Serde}.
Context (op : Open).

(** ** The state and the slot *)

(** Before the relay nothing has gone out, and the daemon has sent no data. *)
Definition Silent (trace : list event) (k : Link) : Prop :=
  put (socket k) = [] /\ (forall d, payloads d trace = [] /\ half_closed d trace = false).

Definition SInv (st : State) : Prop :=
  exists trace, Reading op trace (link st) /\ opened_ st = opening trace /\
  match relay_ st with
  | None => Silent trace (link st)
  | Some r => is_Some (opening trace) /\ Speaking trace r (put (socket (link st))) /\ Hearing trace r
  end.
Definition SWeak (st : State) : Prop :=
  match relay_ st with
  | None => put (socket (link st)) = [] /\ exists trace, Came op trace (link st)
  | Some r => Weak op (r, link st)
  end.

Lemma SInv_weak st : SInv st -> SWeak st.
Proof.
  intros (trace & Hr & _ & Hx). unfold SWeak. destruct (relay_ st) as [r|].
  - destruct Hx as ([o Ho] & Hs & Hh). apply (RInv_weak op o). by exists trace.
  - destruct Hx as [Hp _]. split; [done|]. exists trace. by apply Reading_came.
Qed.

Abbreviation sholds m post st := (wp SInv (fun _ => SWeak) m post st).

(** Frames that carry neither data nor an end. *)
Definition control (f : Frame) : Prop := match f with FData _ | FSendEnd => False | _ => True end.
Lemma control_payloads d trace f : control f -> payloads d (trace ++ [(Daemon, f)]) = payloads d trace
  /\ half_closed d (trace ++ [(Daemon, f)]) = half_closed d trace.
Proof.
  intros Hc. rewrite payloads_snoc, half_closed_snoc. unfold is_end. cbn [snd fst].
  destruct f; try done; cbn; by rewrite app_nil_r, andb_false_r, orb_false_r.
Qed.

(** A control frame of the daemon, as [connect] reads it. *)
Lemma SInv_control st trace f k : control f -> opened_ st = opening trace ->
  match relay_ st with
  | None => Silent trace (link st)
  | Some r => is_Some (opening trace) /\ Speaking trace r (put (socket (link st))) /\ Hearing trace r
  end ->
  Reading op (trace ++ [(Daemon, f)]) k -> put (socket k) = put (socket (link st)) ->
  SInv (mkState k (match f with FOpened o => Some o | _ => opened_ st end) (lifetime st) (relay_ st)).
Proof.
  intros Hc Ho Hx Hr Hp.
  assert (match f with FOpened _ => opening trace = None | _ => True end) as Hfirst.
  { destruct f; try done. destruct Hr as (Hr & _). inversion Hr as [? _ Heq|tr s ev s' Hr0 Hstep Heq]; [by destruct trace|].
    apply app_inj_tail in Heq as [-> ->]. assert (exists s', step s (Daemon, FOpened value) s') as Hex by eauto.
    apply (reach_refines _ _ _ _ _ Hr0) in Hex as [_ [_ Hadm]]. naive_solver. }
  exists (trace ++ [(Daemon, f)]). split; [done|]. split.
  { rewrite opening_app. cbn. destruct f; try done. }
  cbn [relay_ link]. destruct (relay_ st) as [r|].
  - destruct Hx as (Hs & Hsp & Hh). split; [|split].
    + rewrite opening_app. destruct Hs as [o' Hs]. destruct (opening [(Daemon, f)]); eauto.
    + rewrite Hp. by apply Speaking_daemon.
    + unfold Hearing in *. by rewrite (proj1 (control_payloads _ _ _ Hc)), (proj2 (control_payloads _ _ _ Hc)).
  - destruct Hx as [Hput Hd]. split; [by rewrite Hp|]. intros d.
    rewrite (proj1 (control_payloads _ _ _ Hc)), (proj2 (control_payloads _ _ _ Hc)). apply Hd.
Qed.

(** When the stream ends before the relay. *)
Definition Refusal (t : Terminal) (st : State) : Prop :=
  exists trace, Reading op (trace ++ [(Daemon, FTerminal t)]) (link st) /\ held (decoder (link st)) = [] /\ input (link st) = [].

Lemma connect_holds rounds j p st : SInv st ->
  sholds (State_connect rounds j p) (fun v st => SInv st /\ match v with Some t => Refusal t st | None => True end) st.
Proof.
  revert j st. induction rounds as [|rounds IH]; intros j st Hi; [exact Hi|]. cbn [State_connect]. apply wp_bind.
  destruct Hi as (trace & Hr & Ho & Hx). unfold wp at 1, at_link.
  pose proof (reader_spec op 4 0 (ticks p j) trace (link st) Hr) as Hs.
  destruct (reader_next 4 0 (ticks p j) (link st)) as [k [|[f|e]]].
  - destruct Hs as [Hr' Hp]. exists trace. unfold Silent in *. cbn. unfold same_out in Hp. rewrite Hp. by split_and!.
  - destruct Hs as (Hr' & Hheld & Hp). unfold same_out in Hp.
    assert (forall b, control f -> b = match f with FOpened o => Some o | _ => opened_ st end ->
      SInv (mkState k b (lifetime st) (relay_ st))) as Hctl.
    { intros b Hc ->. by apply (SInv_control st trace f k). }
    assert (SWeak (mkState k (opened_ st) (lifetime st) (relay_ st))) as Hweak.
    { unfold SWeak. cbn. destruct (relay_ st) as [r|].
      - destruct Hx as (_ & Hsp & Hh). exists (trace ++ [(Daemon, f)]). split; [by apply Reading_came|].
        split; [|cbn; rewrite Hp; by eapply Speaking_spoke].
        destruct Hr' as [Hr' _]. eapply Heard_more; [exact Hr'|]. by apply Hearing_heard.
      - split; [rewrite Hp; apply Hx|]. exists (trace ++ [(Daemon, f)]). by apply Reading_came. }
    destruct f as [q|o|b| |t]; try exact Hweak.
    + by apply IH, Hctl.
    + split; [|done]. by apply (Hctl (Some o)).
    + unfold wp. cbn [link]. case_bool_decide as Hin; [|exact Hweak]. split; [by apply Hctl|]. exists trace. by split_and!.
  - destruct Hs as [Hc Hp]. unfold same_out in Hp. unfold SWeak. cbn. destruct (relay_ st) as [r|].
    + destruct Hx as (_ & Hsp & Hh). exists trace. split; [exact Hc|]. split; [by apply Hearing_heard|].
      cbn. rewrite Hp. by eapply Speaking_spoke.
    + split; [rewrite Hp; apply Hx|]. by exists trace.
Qed.

(** When the relay has its result. *)
Definition Finished (t : Terminal) (st : State) : Prop :=
  match relay_ st with
  | None => False
  | Some r => exists o, Done op o t (r, link st)
  end.

Lemma relay_holds p st : SInv st -> sholds (State_relay p) (fun t st => SInv st /\ Finished t st) st.
Proof.
  intros Hi. unfold wp, State_relay. destruct (relay_ st) as [r|] eqn:Hrel; [|by apply SInv_weak].
  destruct Hi as (trace & Hr & Ho & Hx). rewrite Hrel in Hx. destruct Hx as ([o Hop] & Hsp & Hh).
  assert (opened_ st = Some o) as Hopen by congruence.
  assert (RInv op o (r, link st)) as Hri by by exists trace.
  pose proof (relay_steps_holds op o 16 0 0 (lifetime st) p (r, link st) Hri) as Hw. unfold wp in Hw.
  assert (forall w, RInv op o w -> SInv (mkState w.2 (opened_ st) (lifetime st) (Some w.1))) as Hback.
  { intros [r' k'] (trace' & Hr' & Ho' & Hsp' & Hh'). exists trace'. cbn. split; [done|]. split; [congruence|].
    split; [by eexists|done]. }
  destruct (relay_steps 16 0 0 _ p _) as [[r' k'] [|[t|e]]].
  - by apply (Hback (r', k')).
  - split; [|by exists o]. apply (Hback (r', k')).
    destruct Hw as (trace' & Hr' & Ho' & Hheld & Hin & Hsp' & Hh' & _).
    exists (trace' ++ [(Daemon, FTerminal t)]). split; [done|]. split; [by rewrite opening_app|].
    split; [by apply Speaking_daemon|]. unfold Hearing in *.
    by rewrite (proj1 (control_payloads Daemon trace' (FTerminal t) I)), (proj2 (control_payloads Daemon trace' (FTerminal t) I)).
  - exact Hw.
Qed.

Definition SlotInv (s : Slot) : Prop :=
  (forall st, slot_state s = Some st -> SInv st) /\ (forall st, remains s = Some st -> SWeak st).

(** The state of the stream: the live one, or the one that was dropped. There always is one. *)
Definition last_state (s : Slot) : option State := match slot_state s with Some st => Some st | None => remains s end.

Lemma last_weak s st : SlotInv s -> last_state s = Some st -> SWeak st.
Proof. intros [Hs Hr]. unfold last_state. destruct (slot_state s); [|apply Hr]. intros [= <-]. by apply SInv_weak, Hs. Qed.

Lemma last_stop e s : is_Some (last_state s) -> is_Some (last_state (stop e s)).
Proof. unfold last_state, stop. destruct (slot_state s) eqn:E; [by eexists|by rewrite E]. Qed.
Lemma last_poll {A} (m : Polling -> polled State Error A) p s : is_Some (last_state s) -> is_Some (last_state (shared_poll m p s).1).
Proof.
  intros Hs. unfold shared_poll. destruct (slot_state s) as [st|] eqn:E; [|done].
  destruct (if deadline st <=? entered p then _ else _) as [st' r]. cbn [fst].
  destruct r as [|[a|e]]; cbn; by eexists.
Qed.
Lemma last_call c s : is_Some (last_state s) -> is_Some (last_state (call c s).1).
Proof.
  intros Hs. destruct c as [p|now|p| |now]; cbn [call].
  - pose proof (last_poll (State_connect 4 0) p s Hs) as Hp. by destruct (shared_poll _ p s) as [s' [|[?|?]]].
  - assert (is_Some (last_state (Owner_attach now s).1)) as Ha.
    { unfold Owner_attach. destruct (slot_state s) as [st|] eqn:E; [|done]. destruct (_ || _); [done|].
      destruct (opened_ st); [by eexists|done]. }
    by destruct (Owner_attach now s) as [s' [?|?]].
  - pose proof (last_poll State_relay p s Hs) as Hp. by destruct (shared_poll _ p s) as [s' [|[?|?]]].
  - by apply last_stop.
  - cbn. unfold watch. destruct (slot_state s) eqn:E; [|done]. destruct (_ <=? _); [by apply last_stop|done].
Qed.
Lemma last_calls l s : is_Some (last_state s) -> is_Some (last_state (calls l s).1).
Proof.
  revert s. induction l as [|c l IH]; intros s Hs; [done|]. cbn [calls]. pose proof (last_call c s Hs) as Hc.
  destruct (call c s) as [s1 a]. specialize (IH s1 Hc). by destruct (calls l s1) as [s2 b].
Qed.
Lemma last_new early now s : Owner_new op early now = Ok s -> is_Some (last_state s).
Proof. unfold Owner_new. intros Hn. apply bind_Ok in Hn as (sq & _ & [= <-]). by eexists. Qed.

Lemma stop_inv e s : SlotInv s -> SlotInv (stop e s).
Proof.
  intros [Hs Hr]. unfold stop. destruct (slot_state s) as [st|] eqn:Hst; [|by split; [rewrite Hst|]]. split; [done|]. cbn.
  intros ? [= <-]. by apply SInv_weak, Hs.
Qed.

(** A poll that fails ends the stream; one that answers in time has what the
    computation gives. *)
Lemma poll_inv {A} (m : Polling -> polled State Error A) p s (post : A -> State -> Prop) :
  (forall st, SInv st -> sholds (m p) (fun a st => SInv st /\ post a st) st) -> SlotInv s ->
  let '(s', r) := shared_poll m p s in
  SlotInv s' /\ match r with
                | PollReady (Ok a) => exists st, slot_state s' = Some st /\ SInv st /\ post a st
                | PollReady (Err _) => slot_state s' = None
                | PollPending => True
                end.
Proof.
  intros Hm [Hs Hr]. unfold shared_poll. destruct (slot_state s) as [st|] eqn:Hst; [|by split; [split; [rewrite Hst|]|]].
  specialize (Hs st eq_refl). specialize (Hm st Hs). unfold wp in Hm.
  assert (forall st e, SWeak st -> SlotInv (stop e (mkSlot (Some st) (slot_failure s) (remains s)))) as Hstop.
  { intros st' e Hw. split; [done|]. cbn. by intros ? [= <-]. }
  assert (forall st, SInv st -> SlotInv (mkSlot (Some st) (slot_failure s) (remains s))) as Hlive.
  { intros st' Hi. split; [|done]. cbn. by intros ? [= <-]. }
  destruct (deadline st <=? entered p); [split; [by apply Hstop, SInv_weak|done]|].
  destruct (m p st) as [st' r]. destruct (deadline st <=? left_ p).
  - split; [|done]. apply Hstop. destruct r as [|[a|e]]; [by apply SInv_weak|by apply SInv_weak, Hm|done].
  - destruct r as [|[a|e]]; [by split; [apply Hlive|]| |by split; [apply Hstop|]].
    split; [by apply Hlive, Hm|]. by exists st'.
Qed.

Lemma attach_inv now s : SlotInv s -> SlotInv (Owner_attach now s).1.
Proof.
  intros [Hs Hr]. unfold Owner_attach. destruct (slot_state s) as [st|] eqn:Hst; [|by split; [cbn; rewrite Hst|]].
  destruct (_ || _) eqn:Hc; [by split; [cbn; rewrite Hst|]|]. apply orb_false_iff in Hc as [_ Hc]. bool_hyps.
  destruct (opened_ st) as [o|] eqn:Ho; [|by split; [cbn; rewrite Hst|]]. split; [|done]. cbn. intros ? [= <-].
  destruct (Hs st eq_refl) as (trace & Hrd & Hop & Hx). destruct (relay_ st); [by destruct Hc|].
  destruct Hx as (Hput & Hd). destruct (Hd Agent) as [Hpa Hha]. destruct (Hd Daemon) as [Hpd Hhd].
  exists trace. cbn. split; [done|]. split; [congruence|]. split; [rewrite <-Hop, Ho; by eexists|]. split.
  - exists [], []. cbn. rewrite Hpa, Hha, Hput. by split_and!.
  - unfold Hearing. cbn. by rewrite Hpd.
Qed.

Lemma call_inv c s : SlotInv s ->
  SlotInv (call c s).1 /\ forall a, a ∈ (call c s).2 ->
    match a with
    | ToldTerminal t => exists st, slot_state (call c s).1 = Some st /\ SInv st /\ Finished t st
    | ToldRefused t => exists st, slot_state (call c s).1 = Some st /\ SInv st /\ Refusal t st
    | _ => True
    end.
Proof.
  intros Hi. destruct c as [p|now|p| |now]; cbn [call].
  - pose proof (poll_inv (State_connect 4 0) p s (fun v st => match v with Some t => Refusal t st | None => True end)
      (connect_holds 4 0 p) Hi) as Hp.
    destruct (shared_poll _ p s) as [s' [|[[t|]|e]]]; cbn; destruct Hp as [Hs Hp]; (split; [done|]);
      intros a Ha; (try by apply elem_of_nil in Ha); apply list_elem_of_singleton in Ha as ->; done.
  - pose proof (attach_inv now s Hi) as Ha. destruct (Owner_attach now s) as [s' [[]|e]]; (split; [done|]);
      intros a Hin; apply list_elem_of_singleton in Hin as ->; done.
  - pose proof (poll_inv State_relay p s Finished (relay_holds p) Hi) as Hp.
    destruct (shared_poll _ p s) as [s' [|[t|e]]]; cbn; destruct Hp as [Hs Hp]; (split; [done|]);
      intros a Ha; (try by apply elem_of_nil in Ha); apply list_elem_of_singleton in Ha as ->; done.
  - split; [by apply stop_inv|]. intros a Ha. by apply elem_of_nil in Ha.
  - split; [|intros a Ha; by apply elem_of_nil in Ha]. cbn. unfold watch. destruct (slot_state s) as [st|] eqn:Hst; [|done].
    destruct (_ <=? _); [by apply stop_inv|done].
Qed.

Lemma calls_inv l s : SlotInv s -> SlotInv (calls l s).1.
Proof.
  revert s. induction l as [|c l IH]; intros s Hi; [done|]. cbn [calls].
  pose proof (proj1 (call_inv c s Hi)) as Hc. destruct (call c s) as [s1 a]. specialize (IH s1 Hc).
  by destruct (calls l s1) as [s2 b].
Qed.

Lemma owner_new_inv early now s : Owner_new op early now = Ok s -> SlotInv s.
Proof.
  unfold Owner_new. intros Hn. apply bind_Ok in Hn as (sq & Hsq & [= <-]). split; [|done]. cbn. intros ? [= <-].
  exists []. cbn. split; [|by split_and!]. split; [by constructor|]. split; [apply wf_default|]. split; [done|].
  exists []. split; [done|]. by exists [].
Qed.
End Slot.
