(* ===== verification/Tunnel.v ===== *)
(** * Both ends of a stream

    The bytes of frames are prefix-free, so what one end has read determines the
    frames the other has written: what the application at one end hears is what was
    said at the other. *)
From S2P Require Import Prelude Protocol Ids Stream Sequence Decoder Wire.
From S2P Require Framed FramedFacts.
From S2P Require Import Attached AttachedFacts.

Definition data_in (frames : list Frame) : list byte := frames ≫= bytes_of.
Lemma data_in_app a b : data_in (a ++ b) = data_in a ++ data_in b.
Proof. apply bind_app. Qed.
Lemma data_in_chunks chunks (ended : bool) : data_in (map FData chunks ++ (if ended then [FSendEnd] else [])) = mjoin chunks.
Proof.
  rewrite data_in_app. assert (data_in (if ended then [FSendEnd] else []) = []) as -> by by destruct ended.
  rewrite app_nil_r. induction chunks as [|c chunks IH]; [done|]. cbn [map]. unfold data_in in *. by rewrite bind_cons, IH.
Qed.
Lemma data_in_trace d trace : mjoin (payloads d trace) = data_in (frames_of d trace).
Proof.
  induction trace as [|[d' f] trace IH]; [done|]. unfold payloads, frames_of in *. rewrite !bind_cons, join_app, IH, data_in_app.
  f_equal. unfold data_of. cbn [fst snd]. case_decide as Hd; destruct f; cbn; try done; by rewrite ?decide_True, ?decide_False, ?app_nil_r by done.
Qed.

Section Tunnel.
Context `{Base64} `{Serde}.

(** Two frames that look the same to their reader. *)
Definition alike (f g : Frame) : Prop := kind_of f = kind_of g /\ bytes_of f = bytes_of g.

Lemma spells_unique fs ps gs qs current rest : Forall2 encodes fs ps -> Forall2 encodes gs qs -> incomplete current ->
  mjoin ps ++ rest `prefix_of` mjoin qs ++ current -> exists heard more, gs = heard ++ more /\ Forall2 alike fs heard.
Proof.
  intros Hf. revert gs qs. induction Hf as [|f p fs ps Hfp Hf IH]; intros gs qs Hg Hi Hpre; [by exists [], gs|].
  change (mjoin (p :: ps)) with (p ++ mjoin ps) in Hpre. rewrite <-app_assoc in Hpre.
  destruct Hg as [|g q gs qs Hgq Hg].
  - exfalso. apply (Hi f p Hfp). etransitivity; [|exact Hpre]. by apply prefix_app_r.
  - change (mjoin (q :: qs)) with (q ++ mjoin qs) in Hpre. rewrite <-app_assoc in Hpre. destruct Hpre as [x Hx].
    rewrite <-app_assoc in Hx. destruct (encodes_free f g p q _ _ Hfp Hgq (eq_sym Hx)) as (-> & Hk & Hb).
    apply app_inv_head in Hx. destruct (IH gs qs Hg Hi) as (hs & more & -> & Hal); [exists x; by rewrite Hx, <-!app_assoc|].
    exists (g :: hs), more. split; [done|]. by constructor.
Qed.

Lemma alike_data fs gs : Forall2 alike fs gs -> data_in fs = data_in gs.
Proof. induction 1 as [|f g fs gs [_ Hb] _ IH]; [done|]. unfold data_in in *. by rewrite !bind_cons, Hb, IH. Qed.
Lemma alike_end fs gs : Forall2 alike fs gs -> FSendEnd ∈ fs -> FSendEnd ∈ gs.
Proof.
  induction 1 as [|f g fs gs [Hk _] _ IH]; [done|]. intros [<-|Hin]%elem_of_cons; [|right; auto].
  cbn in Hk. destruct g; try done. by left.
Qed.

(** ** What each end has said *)

(** A frame without data that is not the end. *)
Definition quiet (f : Frame) : Prop := bytes_of f = [] /\ f <> FSendEnd.
Lemma quiet_data fs : Forall quiet fs -> data_in fs = [].
Proof. induction 1 as [|f fs [Hb _] _ IH]; [done|]. unfold data_in in *. by rewrite bind_cons, Hb, IH. Qed.

(** The bytes of one end: frames before the data, whole data frames and perhaps the end,
    frames after it, and the beginning of one more. The data is a prefix of what was
    [said], and the end comes after all of it and only when it was [over]. *)
Definition Says (bytes said : list byte) (over : Prop) : Prop :=
  exists lead leads chunks (ended : bool) last lasts current,
    bytes = mjoin leads ++ mjoin (map data_wire chunks) ++ (if ended then end_wire else []) ++ mjoin lasts ++ current
    /\ Forall2 encodes lead leads /\ Forall2 encodes last lasts /\ Forall quiet lead /\ Forall quiet last
    /\ Forall (fun c => wf_header (mkHeader KData (len c))) chunks /\ incomplete current
    /\ mjoin chunks `prefix_of` said /\ (ended = true -> over /\ mjoin chunks = said).

Lemma says_lead fs ps current said over : Forall2 encodes fs ps -> Forall quiet fs -> incomplete current ->
  Says (mjoin ps ++ current) said over.
Proof.
  intros Hf Hq Hi. exists fs, ps, [], false, [], [], current. cbn. split_and!; try done; try constructor. apply prefix_nil.
Qed.
Lemma says_nothing said over : Says [] said over.
Proof. apply (says_lead [] [] []); [constructor..|]. apply incomplete_short. cbn. lia. Qed.

(** What one end has read of what the other has said. *)
Lemma heard_prefix fs eaten rest bytes said over : spells fs eaten -> Says bytes said over ->
  eaten ++ rest `prefix_of` bytes ->
  data_in fs `prefix_of` said /\ (FSendEnd ∈ fs -> over /\ data_in fs = said).
Proof.
  intros (ps & Hps & ->) (lead & leads & chunks & ended & last & lasts & current & -> & Hl & Hla & Hql & Hqa & Hw & Hi & Hs & He) Hpre.
  assert (Forall2 encodes (map FData chunks) (map data_wire chunks)) as Hc.
  { clear Hpre Hs He. induction Hw as [|c chunks Hc _ IH]; cbn [map]; constructor; [|exact IH]. exists (mkHeader KData (len c)), c.
    split; [done|]. split; [done|]. unfold Frame_decode. cbn. by rewrite Z.eqb_refl. }
  assert (Forall2 encodes (if ended then [FSendEnd] else []) (if ended then [end_wire] else [])) as Hen.
  { destruct ended; [|constructor]. constructor; [|constructor]. exists (mkHeader KSendEnd 0), [].
    split; [split; [by vm_compute|done]|]. split; [by rewrite app_nil_r|done]. }
  set (gs := (lead ++ map FData chunks) ++ (if ended then [FSendEnd] else []) ++ last).
  assert (Forall2 encodes gs ((leads ++ map data_wire chunks) ++ (if ended then [end_wire] else []) ++ lasts)) as Hg
    by (by repeat apply Forall2_app).
  destruct (spells_unique fs ps gs _ current rest Hps Hg Hi) as (hs & more & Hgs & Hal).
  { rewrite !join_app, <-!app_assoc. by destruct ended. }
  assert (data_in gs = mjoin chunks) as Hdg.
  { subst gs. rewrite <-app_assoc, data_in_app, (quiet_data lead Hql), app_assoc, data_in_app, (quiet_data last Hqa), app_nil_r.
    apply data_in_chunks. }
  rewrite (alike_data _ _ Hal). split.
  { etransitivity; [|exact Hs]. rewrite <-Hdg, Hgs, data_in_app. by apply prefix_app_r. }
  intros Hin. apply (alike_end _ _ Hal) in Hin.
  assert (FSendEnd ∉ lead ++ map FData chunks) as Hno.
  { intros [Hx|Hx]%elem_of_app; [by destruct (proj1 (Forall_forall _ _) Hql _ Hx)|].
    apply list_elem_of_fmap in Hx as (? & ? & _). done. }
  assert (ended = true /\ data_in more = []) as [-> Hm].
  { subst gs. symmetry in Hgs. apply app_eq_inv in Hgs as [(k & -> & Hk)|(k & Hk & _)].
    2: { exfalso. apply Hno. rewrite Hk. apply elem_of_app. by left. }
    apply elem_of_app in Hin as [Hin|Hin]; [done|]. destruct ended; cbn in Hk.
    - split; [done|]. destruct k as [|g k]; [by apply elem_of_nil in Hin|]. injection Hk as _ ->.
      apply Forall_app in Hqa as [_ Hqa]. by apply quiet_data.
    - exfalso. rewrite Hk in Hqa. apply Forall_app in Hqa as [Hqa _]. by destruct (proj1 (Forall_forall _ _) Hqa _ Hin). }
  destruct (He eq_refl) as [Hov Hsaid]. split; [done|]. rewrite <-Hsaid, <-Hdg, Hgs, data_in_app, Hm. by rewrite app_nil_r.
Qed.

Lemma frame_encodes f e : Frame_encode f = Ok e -> serde_round f -> encodes f (wire e).
Proof.
  intros He Hr. destruct (Frame_encode_Ok _ _ He) as (h & Hw & Hk & Hl & Hb).
  destruct (frame_decodes _ _ He Hr) as (h' & Hp & Hd). rewrite Hb, Header_encode_parse in Hp by done. injection Hp as <-.
  exists h, (payload e). split_and!; try done. unfold wire. by rewrite Hb.
Qed.

(** An end that a trace has is one of its frames. *)
Lemma agent_ended op trace s d : reach op trace s -> half_closed d trace = true -> FSendEnd ∈ frames_of d trace.
Proof.
  intros _. unfold half_closed. intros Hx%existsb_Exists. apply Exists_exists in Hx as ([d' f] & Hin & He).
  unfold is_end in He. cbn in He. apply andb_true_iff in He as [Hd Hf]. bool_hyps. destruct f; try done.
  unfold frames_of. apply list_elem_of_bind. exists (d', FSendEnd). split; [|done]. cbn. rewrite decide_True by done. by left.
Qed.

Lemma agent_said a bytes : Spoke a bytes -> Says bytes (spoke a) (spoke_end a = true).
Proof.
  intros (chunks & ended & head & part & -> & Hw & Hi & Hp & He). exists [], [], chunks, ended, [], [], (head ++ part).
  split_and!; try done; try constructor. etransitivity; [|exact Hp]. by apply prefix_app_r.
Qed.

(** The daemon's end while the engine has it: [lead] is what was sent before. *)
Lemma daemon_said base asked f base_frames trace s l : Forall2 encodes base_frames base -> Forall quiet base_frames ->
  FramedFacts.Going (mjoin base) trace f s l -> (half_closed Daemon trace = true -> asked) ->
  Says (put s) (FramedFacts.taken l) asked.
Proof.
  intros Hb Hq (chunks & part & current & Hp & Ht & _ & Hw & Hu & _) Has. rewrite Ht, Hp.
  assert (forall ended current, incomplete current -> mjoin chunks `prefix_of` mjoin chunks ++ part ->
    (ended = true -> asked /\ part = []) ->
    Says (mjoin base ++ mjoin (map data_wire chunks) ++ (if ended : bool then end_wire else []) ++ current) (mjoin chunks ++ part) asked) as Hsays.
  { intros ended cur Hi Hpre He. exists base_frames, base, chunks, ended, [], [], cur. split_and!; try done; try constructor.
    - by apply He.
    - destruct (He ltac:(done)) as [_ ->]. by rewrite app_nil_r. }
  assert (mjoin chunks `prefix_of` mjoin chunks ++ part) as Hpre by by apply prefix_app_r.
  unfold FramedFacts.under_way in Hu. destruct (Framed.output f) as [out|].
  - destruct Hu as (Hbd & Hhc & Hk). destruct (Framed.end_ out).
    + destruct Hk as (-> & -> & ->). destruct (Z.eq_dec (Framed.written out) 5) as [H5|Hlt].
      * rewrite H5. change (take (Z.to_nat 5) end_wire) with end_wire. rewrite <-(app_nil_r end_wire).
        apply (Hsays true); [apply incomplete_short; cbn; lia|done|]. intros _. split; [by apply Has|done].
      * apply (Hsays false (take _ end_wire)); [|done|done]. apply incomplete_short. rewrite length_take. lia.
    + destruct Hk as (Hhd & Hrem & Hwh & Hpart & ->). rewrite Hhd.
      apply (Hsays false); [|done|done]. apply incomplete_data; try done. lia.
  - destruct Hu as [-> ->]. rewrite <-(app_nil_r (if half_closed Daemon trace then _ else _)).
    apply (Hsays (half_closed Daemon trace)); [apply incomplete_short; cbn; lia|done|]. intros Hx. split; [by apply Has|done].
Qed.

(** The final frame comes at the boundary of a frame, whole or in part. *)
Lemma conclude_said asked lead leads op o w l t sent w' x : Forall2 encodes lead leads -> Forall quiet lead ->
  FramedFacts.Inv (mjoin leads) asked op o w l -> serde_round (FTerminal t) -> Framed.conclude t sent w = (w', x) ->
  got w'.2 = got w.2 /\ Says (put w'.2) (FramedFacts.taken l) asked.
Proof.
  intros Hl Hq (trace & _ & _ & [_ Has] & _ & Hg) Hround Hcon. destruct w as [f s]. cbn [fst snd] in *.
  pose proof (daemon_said leads asked f lead trace s l Hl Hq Hg Has) as Hsame. unfold Framed.conclude in Hcon. cbv beta iota zeta in Hcon.
  destruct (Frame_encode (FTerminal t)) as [encoded|] eqn:Hen; [|by injection Hcon as <- <-].
  destruct (negb (Framed.retired f) || _) eqn:Hb; [by injection Hcon as <- <-|].
  destruct (accept _ _ _) as [[[]|e] sq]; [|by injection Hcon as <- <-].
  destruct (negb (Framed.io _)); [by injection Hcon as <- <-|]. unfold Framed.write_all in Hcon.
  assert (exists part, w'.2 = transmit part s /\ part `prefix_of` wire encoded) as (part & Hw & Hpart).
  { destruct sent as [n|]; injection Hcon as <- _; cbn; eexists; (split; [done|]); [apply prefix_take|done]. }
  rewrite Hw. split; [done|]. cbn [put transmit].
  destruct (part_of_frame (FTerminal t) (wire encoded) part) as (fs & ps & cur & -> & Hfs & Hi & Hone); [by apply frame_encodes|done|].
  assert (Forall quiet fs) as Hqf by (destruct Hone as [->| ->]; by repeat constructor).
  destruct Hg as (chunks & part & current & Hp & Ht & _ & Hcw & Hu & _). apply orb_false_iff in Hb as [_ Hb].
  assert (part = [] /\ exists ended : bool, current = (if ended then end_wire else []) /\ (ended = true -> half_closed Daemon trace = true)) as [-> (ended & -> & Hend)].
  { destruct (Framed.output f) as [out|].
    - apply orb_false_iff in Hb as [Hz _]. bool_hyps. destruct Hu as (_ & _ & Hk). rewrite Hz in Hk.
      destruct (Framed.end_ out).
      + destruct Hk as (_ & -> & ->). rewrite take_0. split; [done|]. by exists false.
      + destruct Hk as (_ & _ & _ & [->|?] & ->); [|lia]. rewrite take_0. split; [done|]. by exists false.
    - destruct Hu as [-> ->]. split; [done|]. by exists (half_closed Daemon trace). }
  exists lead, leads, chunks, ended, fs, ps, cur. rewrite app_nil_r in Ht. rewrite Ht. split_and!; try done.
  - by rewrite Hp, <-!app_assoc.
  - intros Hx. split; [by apply Has, Hend|done].
Qed.

Lemma Spoke_sent trace r bytes : Speaking trace r bytes ->
  exists chunks part head, bytes = mjoin (map data_wire chunks) ++ head ++ part
  /\ mjoin chunks ++ part `prefix_of` spoke (application r) /\ sent r = len (mjoin chunks ++ part)
  /\ (outgoing r = None -> sent_end r = true ->
      part = [] /\ mjoin chunks = spoke (application r) /\ head ++ part = end_wire /\ spoke_end (application r) = true).
Proof.
  intros Hs. pose proof Hs as (chunks & current & -> & Hw & Hsp & Hse & Hx). rewrite Hsp, Hse. destruct (outgoing r) as [out|].
  - destruct Hx as (_ & c & (He & Hen & Hp & Hh & Hpo & Hz & Hlast) & -> & Hsent & ->).
    exists chunks. do 2 eexists. split; [done|]. rewrite len_app, join_app. split; [|split; [|done]].
    + apply prefix_app. destruct (half_closed Agent trace); [rewrite (Hz Hlast), take_0; apply prefix_nil|].
      cbn. rewrite app_nil_r. apply prefix_take.
    + rewrite Hsent. f_equal. destruct (half_closed Agent trace); [by rewrite (Hz Hlast), take_0|].
      unfold len in *. rewrite length_take. lia.
  - destruct Hx as (<- & Hsent & Hend & ->). exists (payloads Agent trace), [], (if sent_end r then end_wire else []).
    rewrite !app_nil_r. split_and!; try done. intros _ Ht. rewrite Ht. split_and!; try done. congruence.
Qed.
End Tunnel.

(** ** The agent's end *)

Section Agent.
Context `{Base64} `{Serde}.

(** C37: a terminal result is never invented. When a poll of the relay answers with a
    result, everything that has come in is whole frames, and the last of them says
    that result; all of their payload is the application's or about to be; and the
    result counts no more bytes as sent than have gone out. An orderly end means that
    the application has heard every byte and the end, that all it has said and its end
    are out in full, and that the result has both counts. *)
Theorem agent_terminal op early now s0 cs s told p s' t :
  Owner_new op early now = Ok s0 -> calls cs s0 = (s, told) -> call (CallRelay p) s = (s', [ToldTerminal t]) ->
  exists st r frames chunks part head, slot_state s' = Some st /\ relay_ st = Some r
  /\ spells (frames ++ [FTerminal t]) (got (socket (link st)))
  /\ data_in frames = heard (application r) ++ incoming r
  /\ put (socket (link st)) = mjoin (map data_wire chunks) ++ head ++ part
  /\ mjoin chunks ++ part `prefix_of` spoke (application r) /\ sent_bytes t <= len (mjoin chunks ++ part)
  /\ (cause t = OrderlyEnd ->
      heard (application r) = data_in frames /\ heard_end (application r) = true
      /\ mjoin chunks = spoke (application r) /\ spoke_end (application r) = true /\ head ++ part = end_wire
      /\ received_bytes t = len (heard (application r)) /\ sent_bytes t = len (spoke (application r))).
Proof.
  intros Hn Hc Hcall. pose proof (calls_inv op cs s0 (owner_new_inv op early now s0 Hn)) as Hi. rewrite Hc in Hi.
  destruct (call_inv op (CallRelay p) s Hi) as [_ Ha]. rewrite Hcall in Ha.
  destruct (Ha (ToldTerminal t) ltac:(by left)) as (st & Hst & _ & Hf). unfold Finished in Hf.
  destruct (relay_ st) as [r|] eqn:Hrel; [|done].
  destruct Hf as (o & trace & (Hr & _ & _ & eaten & Hg & Hsp) & Ho & Hheld & Hin & Hspk & (Hh & Hre & Hhe) & Hsb & Hcomp).
  cbn [fst snd] in *. rewrite Hheld, Hin, !app_nil_r in Hg. rewrite frames_of_snoc in Hsp. cbn in Hsp. subst eaten.
  rewrite data_in_trace in Hh.
  destruct (terminal_is_final op trace _ Daemon t [] Hr) as (_ & _ & _ & Hcause & Hfinal & _).
  destruct (Spoke_sent trace r _ Hspk) as (chunks & part & head & Hput & Hpre & Hsent & Hall).
  exists st, r, (frames_of Daemon trace), chunks, part, head. split_and!; try done; [lia|].
  intros Hoe. apply Hcause in Hoe. destruct (Hcomp Hoe) as (Hse & Hre' & Hno).
  destruct (Hfinal Hoe) as (Hha & _ & Hsb' & Hrb'). rewrite Hre in Hre'. destruct (Hhe Hre') as [_ Hinc].
  destruct (Hall Hno Hse) as (-> & Hch & Hend & Hspe). rewrite Hinc, app_nil_r in Hh.
  unfold data_bytes in Hsb', Hrb'. rewrite data_in_trace, Hh in Hrb'. destruct Hspk as (? & ? & _ & _ & Hspo & _).
  rewrite Hspo. split_and!; try done; congruence.
Qed.

(** ** Both ends together *)

(** Every record that a host sends reads back from its text. *)
Definition reads_backs (h : Framed.Hosting) : Prop :=
  (forall o, Framed.opens h = Ok o -> serde_round (FOpened o))
  /\ (forall t, Framed.connects h = Some (Ok (Framed.Refused t)) \/ Framed.relays h = Some (Ok t) -> serde_round (FTerminal t)).
(** The engine's relay has asked for the end of what it writes. *)
Definition ended_by (h : Framed.Hosting) : Prop := Exists FramedFacts.asks_end (Framed.relaying h).

(** Writing OPENED, whatever becomes of it. *)
Lemma write_opened_part polls bytes offset s s' r : (offset <= length bytes)%nat -> put s = take offset bytes ->
  Framed.write_opened polls bytes offset s = (s', r) ->
  put s' `prefix_of` bytes /\ got s' = got s /\ (r = Some (Ok tt) -> put s' = bytes).
Proof.
  revert offset s. induction polls as [|p polls IH]; intros offset s Ho Hp Hw; cbn [Framed.write_opened] in Hw.
  { injection Hw as <- <-. rewrite Hp. split_and!; [apply prefix_take|done|done]. }
  destruct (Framed.forbidden_input (Framed.finds p)).
  { injection Hw as <- <-. rewrite Hp. split_and!; [apply prefix_take|done|done]. }
  pose proof (FramedFacts.opened_writes_spec 4 0 bytes offset p s [] Ho Hp) as Hx.
  destruct (Framed.opened_writes 4 0 bytes offset p s) as [[o2 s2] [r2|]]; destruct Hx as (Ho2 & Hp2 & Hg2 & Hr).
  - injection Hw as <- <-. cbn in Hp2. rewrite Hp2. split_and!; [apply prefix_take|done|].
    intros Hok. rewrite (Hr Hok). by apply take_ge.
  - destruct (IH o2 s2 Ho2 Hp2 Hw) as (H1 & H2 & H3). split_and!; [done|congruence|done].
Qed.

(** What the daemon's end has said and heard, however the attachment goes. *)
Definition Served (op : Open) (h : Framed.Hosting) (s : Socket) (l : list Framed.Act) : Prop :=
  Says (put s) (FramedFacts.taken l) (ended_by h)
  /\ (l = [] \/ exists trace eaten rest, got s = eaten ++ rest /\ spells (frames_of Agent trace) eaten
        /\ (exists sq, reach op trace sq) /\ FramedFacts.handed l `prefix_of` mjoin (payloads Agent trace)
        /\ (Framed.HandedEnd ∈ l -> half_closed Agent trace = true /\ FramedFacts.handed l = mjoin (payloads Agent trace))).

Lemma served op h s l x : Framed.serve_upgraded op h (mkSocket [] []) = (s, l, x) ->
  Forall FramedFacts.wf_move (Framed.relaying h) -> reads_backs h -> Served op h s l.
Proof.
  intros Hs Hm [Hro Hrt].
  assert (forall s' x', (mkSocket [] [], [], x') = (s', l, x) -> Served op h s' l) as Hnone.
  { intros s' x' [= <- <- _]. split; [apply says_nothing|by left]. }
  assert (forall f e part, encodes f (wire e) -> quiet f -> part `prefix_of` wire e -> put s = part -> l = [] -> Served op h s l) as Hpart.
  { intros f e part He Hq Hp Hput ->. split; [|by left]. rewrite Hput.
    destruct (part_of_frame f (wire e) part He Hp) as (fs & ps & cur & -> & Hfs & Hi & Hone).
    apply (says_lead fs); [done| |done]. destruct Hone as [->| ->]; [constructor|by apply Forall_singleton]. }
  unfold Framed.serve_upgraded in Hs. destruct (Open_validate op) as [|]; [|by eapply Hnone].
  destruct (Framed.connects h) as [[[t|]|]|] eqn:Hc; [| |by eapply Hnone|by eapply Hnone].
  - destruct (mbind _ _) as [|]; [|by eapply Hnone].
    destruct (Frame_encode (FTerminal t)) as [encoded|] eqn:Hen; [|by eapply Hnone].
    destruct (Framed.write_all encoded (Framed.final h) (mkSocket [] [])) as [s1 r] eqn:Hw. injection Hs as <- <- _.
    unfold Framed.write_all in Hw. assert (encodes (FTerminal t) (wire encoded)) as He by (apply frame_encodes; [done|]; apply Hrt; by left).
    destruct (Framed.final h) as [n|]; injection Hw as <- <-.
    + apply (Hpart (FTerminal t) encoded (take n (wire encoded))); [done|by split|apply prefix_take|done|done].
    + apply (Hpart (FTerminal t) encoded (wire encoded)); [done|by split|done|done|done].
  - destruct (opened ← Framed.opens h; _) as [[o opening]|] eqn:Ho; [|by eapply Hnone].
    apply bind_Ok in Ho as (o' & Hop & Ho). apply bind_Ok in Ho as (sq & _ & Ho). apply bind_Ok in Ho as (? & _ & Ho).
    apply bind_Ok in Ho as (e & He & [= -> ->]).
    assert (encodes (FOpened o) (wire opening)) as Hopen by (apply frame_encodes; [done|by apply Hro]).
    destruct (Framed.write_opened (Framed.opening_polls h) (wire opening) 0 (mkSocket [] [])) as [s1 r1] eqn:Hw.
    apply write_opened_part in Hw as (Hp & Hg & Hall); [|lia|by rewrite take_0].
    assert (forall x', (s1, [], x') = (s, l, x) -> Served op h s l) as Hfail.
    { intros x' [= <- <- _]. by apply (Hpart (FOpened o) opening (put s1)). }
    destruct r1 as [[[]|]|]; [|by eapply Hfail|by eapply Hfail].
    destruct (Framed.channel op o) as [f|] eqn:Hch; [|by eapply Hfail].
    assert (s1 = mkSocket [] (wire opening)) as -> by (specialize (Hall eq_refl); destruct s1; cbn in *; congruence).
    pose proof (FramedFacts.channel_inv op o f (wire opening) (ended_by h) Hch) as Hi0.
    assert (Forall (fun m => FramedFacts.asks_end m -> ended_by h) (Framed.relaying h)) as Hask.
    { apply Forall_forall. intros m Hin Hx. apply Exists_exists. by exists m. }
    pose proof (FramedFacts.acts_inv _ _ _ _ _ _ _ Hi0 Hm Hask) as Hi.
    destruct (Framed.acts (Framed.relaying h) (f, mkSocket [] (wire opening))) as [w l1]. cbn [app fst snd] in Hi.
    replace (wire opening) with (mjoin [wire opening]) in Hi by apply app_nil_r.
    assert (Forall2 encodes [FOpened o] [wire opening]) as Hlead by by constructor.
    assert (Forall quiet [FOpened o]) as Hql by by repeat constructor.
    assert (forall s', got s' = got w.2 -> Says (put s') (FramedFacts.taken l1) (ended_by h) -> Served op h s' l1) as Hdone.
    { intros s' Hgs Hsay. split; [done|]. right. destruct Hi as (trace & Hr & _ & _ & (eaten & rest & Hgt & Hsp & Hpre & _ & Hend) & _).
      exists trace, eaten, rest. rewrite Hgs. split_and!; try done; [by eexists|]. intros Hx. destruct (Hend Hx) as (? & _ & ?). done. }
    assert (Says (put w.2) (FramedFacts.taken l1) (ended_by h)) as Hw.
    { destruct Hi as (trace & _ & _ & [_ Has] & _ & Hgo). by eapply daemon_said. }
    destruct (Framed.relays h) as [[t|]|] eqn:Hrel; [|injection Hs as <- <- _; by apply Hdone..].
    destruct (Framed.conclude t (Framed.final h) w) as [w' r] eqn:Hcon. injection Hs as <- <- _.
    destruct (conclude_said _ _ _ _ _ _ _ _ _ _ _ Hlead Hql Hi ltac:(apply Hrt; by right) Hcon) as [Hgw Hsw].
    by apply Hdone.
Qed.

(** The application of the agent's end; before it is attached it has said and heard nothing. *)
Definition application_of (st : State) : Application :=
  match relay_ st with Some r => application r | None => mkApplication [] false [] false end.

Lemma agent_side op s st : SlotInv op s -> last_state s = Some st ->
  Says (put (socket (link st))) (spoke (application_of st)) (spoke_end (application_of st) = true)
  /\ exists trace, Came op trace (link st) /\ Heard trace (application_of st).
Proof.
  intros Hi Hst. pose proof (last_weak op s st Hi Hst) as Hw. unfold SWeak in Hw. unfold application_of.
  destruct (relay_ st) as [r|].
  - destruct Hw as (trace & Hc & Hh & Hs). split; [by apply agent_said|by exists trace].
  - destruct Hw as (-> & trace & Hc). split; [apply says_nothing|]. exists trace. split; [done|]. split; [apply prefix_nil|done].
Qed.

(** C35: what is said at one end is what is heard at the other. With a socket that
    delivers a prefix of what was written to it, whatever either end does and whatever
    fails (the attachment refused or not opened in full, a frame or the final result cut
    short, either end dropped): the engine of the daemon is handed a prefix of what the
    agent's application has said, and the end only after all of it, when the application
    has ended; and the application hears a prefix of what the engine's relay has written,
    and the end only after all of it, when the relay has asked for the end. Of [serde]
    this takes that the records the daemon sends read back. *)
Theorem tunnel_faithful op h ds l x early now s0 cs s told :
  Framed.serve_upgraded op h (mkSocket [] []) = (ds, l, x) -> Forall FramedFacts.wf_move (Framed.relaying h) ->
  reads_backs h -> Owner_new op early now = Ok s0 -> calls cs s0 = (s, told) ->
  exists st, last_state s = Some st /\ let a := application_of st in
  (got ds `prefix_of` put (socket (link st)) ->
     FramedFacts.handed l `prefix_of` spoke a
     /\ (Framed.HandedEnd ∈ l -> spoke_end a = true /\ FramedFacts.handed l = spoke a))
  /\ (got (socket (link st)) `prefix_of` put ds ->
     heard a `prefix_of` FramedFacts.taken l
     /\ (heard_end a = true -> ended_by h /\ heard a = FramedFacts.taken l)).
Proof.
  intros Hserve Hm Hrb Hn Hc. pose proof (served op h ds l x Hserve Hm Hrb) as [Hsay Hheard].
  pose proof (calls_inv op cs s0 (owner_new_inv op early now s0 Hn)) as Hi. rewrite Hc in Hi. cbn [fst] in Hi.
  pose proof (last_calls cs s0 (last_new op early now s0 Hn)) as [st Hst]. rewrite Hc in Hst. cbn [fst] in Hst.
  exists st. split; [done|]. intros a. destruct (agent_side op s st Hi Hst) as (Hsaid & trace & ([sq Hr] & eaten & rest & Hg & Hsp) & Hh & He).
  fold a in Hsaid, Hh, He. split; intros Hpre.
  - destruct Hheard as [->|(trd & eatd & restd & Hgd & Hspd & [sqd Hrd] & Hp & Hend)].
    { split; [apply prefix_nil|]. by intros ?%elem_of_nil. }
    rewrite Hgd in Hpre. destruct (heard_prefix _ _ _ _ _ _ Hspd Hsaid Hpre) as [Hpp Hpe]. rewrite data_in_trace in Hp, Hend.
    split; [by etransitivity|]. intros Hx. destruct (Hend Hx) as [Hhc ->].
    apply (Hpe (agent_ended op trd _ Agent Hrd Hhc)).
  - rewrite Hg in Hpre. destruct (heard_prefix _ _ _ _ _ _ Hsp Hsay Hpre) as [Hpp Hpe]. rewrite data_in_trace in Hh, He.
    split; [by etransitivity|]. intros Hx. destruct (He Hx) as [Hhc ->].
    apply (Hpe (agent_ended op trace _ Daemon Hr Hhc)).
Qed.
End Agent.
