(* ===== verification/Tools.v ===== *)
(** * Remote tool contracts ([aap-types/src/mcp.rs]) *)
From S2P Require Import Prelude Protocol Json.

(** ** Data *)

(** `aap-types/src/mcp.rs:8-9`, `MAX_REQUEST`, `MAX_RESPONSE` *)
Definition MAX_REQUEST : Z := 256 * 1024.
Definition MAX_RESPONSE : Z := 1024 * 1024.

(** `aap-types/src/mcp.rs:15-20`, `CleanupOutcome` *)
Inductive CleanupOutcome := Confirmed | NotSupported | Skipped | CleanupUnknown.
#[export] Instance CleanupOutcome_eq_dec : EqDecision CleanupOutcome.
Proof. solve_decision. Defined.

(** `aap-types/src/mcp.rs:22-29`, `CleanupOutcome::as_str` *)
Definition as_str (o : CleanupOutcome) : string :=
  match o with
  | Confirmed => "confirmed" | NotSupported => "not_supported"
  | Skipped => "skipped" | CleanupUnknown => "unknown"
  end.

(** `aap-types/src/mcp.rs:30-38`, `CleanupOutcome::from_header` *)
Definition from_header (value : string) : option CleanupOutcome :=
  if bool_decide (value = "confirmed") then Some Confirmed
  else if bool_decide (value = "not_supported") then Some NotSupported
  else if bool_decide (value = "skipped") then Some Skipped
  else if bool_decide (value = "unknown") then Some CleanupUnknown
  else None.

(** `aap-types/src/mcp.rs:51-54`, `Argument` *)
Inductive Argument := Text (max_length : Z) | Integer (minimum maximum : Z).

(** `aap-types/src/mcp.rs:43-47`, `Tool`; [arguments] is a [BTreeMap], so its keys
    are distinct. *)
Record Tool := mkTool {
  tool_name : string; tool_description : string; arguments : list (string * Argument) }.

(** ** Schemas *)

(** A [json!] object. *)
Definition object (members : list (string * Value)) : Value :=
  Object (foldr (fun kv m => map_insert kv.1 kv.2 m) [] members).
Definition num (n : Z) : Value := Num (from_i64 n).

(** `aap-types/src/mcp.rs:110-127`, `Tool::schema` *)
Definition schema (t : Tool) : Value :=
  let properties := map (fun '(name, rule) =>
    (name, match rule with
           | Text max_length => object [("type", Str "string"); ("maxLength", num max_length)]
           | Integer minimum maximum =>
               object [("type", Str "integer"); ("minimum", num minimum); ("maximum", num maximum)]
           end)) (arguments t) in
  object [("type", Str "object"); ("properties", object properties);
          ("required", Array (map (fun a => Str a.1) (arguments t)));
          ("additionalProperties", Bool false)].

(** `aap-types/src/mcp.rs:107-109`, `Tool::definition` *)
Definition definition (t : Tool) : Value :=
  object [("name", Str (tool_name t)); ("description", Str (tool_description t));
          ("inputSchema", schema t)].

(** ** Validation *)

(** `aap-types/src/mcp.rs:149-155`, `valid_name` *)
Definition valid_name (name : string) (maximum : Z) : bool :=
  negb (bool_decide (name = EmptyString))
  && (slen name <=? maximum)
  && forallb (fun b => is_ascii_alphanumeric b
                       || existsb (fun c => bool_decide (b = c)) (as_bytes "._-"))
       (as_bytes name).

(** [chars().any(|c| c.is_control() && c != '\n')], on the UTF-8 bytes. *)
Fixpoint control_not_newline (l : list byte) : bool :=
  match l with
  | [] => false
  | b :: rest =>
      ((byte_val b <? 32) && negb (byte_val b =? 10)) || (byte_val b =? 127)
      || ((byte_val b =? 194) && match rest with c :: _ => in_range 128 159 c | [] => false end)
      || control_not_newline rest
  end.

Definition valid_argument (a : string * Argument) : bool :=
  valid_name a.1 64
  && negb match a.2 with
          | Text max_length => (max_length =? 0) || (MAX_REQUEST <? max_length)
          | Integer minimum maximum => maximum <? minimum
          end.

(** The condition one tool of the loop of [validate_tools] must meet. *)
Definition valid_tool (t : Tool) : bool :=
  valid_name (tool_name t) 128
  && negb (bool_decide (tool_description t = EmptyString))
  && (slen (tool_description t) <=? 4096)
  && negb (control_not_newline (as_bytes (tool_description t)))
  && (len (arguments t) <=? 32)
  && forallb valid_argument (arguments t).

(** `aap-types/src/mcp.rs:86-99`, `Budget`: [write] refuses a buffer larger than what
    is left *)
Definition Budget_write (budget : Z) (bytes : list byte) : option Z :=
  if budget <? len bytes then None else Some (budget - len bytes).

Section Validate.
(** The buffers [serde_json::to_writer] writes for the definitions. *)
Context (to_writer : list Value -> list (list byte)).

Fixpoint write_all (budget : Z) (buffers : list (list byte)) : option Z :=
  match buffers with
  | [] => Some budget
  | b :: rest => budget ← Budget_write budget b; write_all budget rest
  end.

(** The loop over the tools, with the names inserted so far. *)
Fixpoint check_tools (names : gset string) (tools : list Tool) : Result unit :=
  match tools with
  | [] => Ok tt
  | t :: rest =>
      if negb (valid_name (tool_name t) 128)
         || bool_decide (tool_name t ∈ names)
         || bool_decide (tool_description t = EmptyString)
         || (4096 <? slen (tool_description t))
         || control_not_newline (as_bytes (tool_description t))
         || (32 <? len (arguments t))
         || existsb (fun a => negb (valid_argument a)) (arguments t)
      then fail RequestInvalid
      else check_tools ({[ tool_name t ]} ∪ names) rest
  end.

(** `aap-types/src/mcp.rs:58-103`, `validate_tools` *)
Definition validate_tools (tools : list Tool) : Result unit :=
  if bool_decide (tools = []) || (32 <? len tools) then fail LimitExceeded
  else
    _ ← check_tools ∅ tools;
    match write_all MAX_REQUEST (to_writer (map definition tools)) with
    | Some _ => Ok tt
    | None => fail LimitExceeded
    end.
End Validate.

(** ** Calls *)

(** [Value::as_i64]. *)
Definition as_i64 (v : Value) : option Z :=
  match v with
  | Num (PosInt n) => if n <=? 9223372036854775807 then Some n else None
  | Num (NegInt n) => Some n
  | _ => None
  end.

Definition fits (rule : Argument) (value : Value) : bool :=
  match rule with
  | Text max_length =>
      match value with Str text => chars_count text <=? max_length | _ => false end
  | Integer minimum maximum =>
      match as_i64 value with
      | Some number => (minimum <=? number) && (number <=? maximum)
      | None => false
      end
  end.

(** `aap-types/src/mcp.rs:128-146`, `Tool::accepts` *)
Definition accepts (t : Tool) (value : Value) : bool :=
  match value with
  | Object args =>
      (len args =? len (arguments t))
      && forallb (fun '(name, rule) =>
           match map_get name args with
           | Some value => fits rule value
           | None => false
           end) (arguments t)
  | _ => false
  end.

(** ** Facts *)

Lemma from_header_as_str o : from_header (as_str o) = Some o.
Proof. by destruct o. Qed.
Lemma as_str_from_header s o : from_header s = Some o -> as_str o = s.
Proof. unfold from_header. repeat case_bool_decide; intros [= <-]; by subst. Qed.

Lemma map_get_elem k m : is_Some (map_get k m) <-> k ∈ m.*1.
Proof.
  induction m as [|[k' v] m IH]; cbn; [split; [by intros []|by intros ?%elem_of_nil]|].
  rewrite elem_of_cons. case_decide; subst; [naive_solver|]. rewrite IH. naive_solver.
Qed.

(** a call is accepted exactly when its object has the enrolled argument
    names, no more and no fewer, and every value obeys its rule. *)
Lemma accepts_exact t args :
  NoDup (arguments t).*1 -> NoDup args.*1 ->
  accepts t (Object args) = true <->
  (forall k, k ∈ args.*1 <-> k ∈ (arguments t).*1)
  /\ forall name rule, (name, rule) ∈ arguments t ->
       exists v, map_get name args = Some v /\ fits rule v = true.
Proof.
  intros Ht Ha. cbn. rewrite andb_true_iff, Z.eqb_eq, forallb_Forall, Forall_forall.
  assert ((forall name rule, (name, rule) ∈ arguments t -> is_Some (map_get name args)) ->
          forall k, k ∈ (arguments t).*1 -> k ∈ args.*1) as Hsub.
  { intros Hall k ([name rule] & -> & Hin)%list_elem_of_fmap. apply map_get_elem. eauto. }
  assert ((forall x, x ∈ arguments t -> (let '(name, rule) := x in
            match map_get name args with Some value => fits rule value | None => false end) = true)
          <-> forall name rule, (name, rule) ∈ arguments t ->
                exists v, map_get name args = Some v /\ fits rule v = true) as ->.
  { split.
    - intros Hall name rule Hin. specialize (Hall _ Hin). cbn in Hall.
      destruct (map_get name args); [eauto|done].
    - intros Hall [name rule] Hin. by destruct (Hall name rule Hin) as (v & -> & ?). }
  split; intros [Hl Hall]; (split; [|done]).
  - assert (forall k, k ∈ (arguments t).*1 -> k ∈ args.*1) as Hin.
    { apply Hsub. intros name rule Hin. destruct (Hall name rule Hin) as (v & ? & _). eauto. }
    intros k. split; [|apply Hin]. intros Hk.
    assert (args.*1 ⊆ (arguments t).*1) as Hs; [|by apply Hs].
    apply list_elem_of_In in Hk. intros j Hj%list_elem_of_In. apply list_elem_of_In.
    apply (NoDup_length_incl (l := (arguments t).*1) (l' := args.*1)); try done.
    + by apply NoDup_ListNoDup.
    + rewrite !length_fmap. unfold len in Hl. lia.
    + intros x Hx%list_elem_of_In. apply list_elem_of_In. by apply Hin.
  - assert (length args.*1 = length (arguments t).*1) as Hlen.
    { apply Permutation_length, NoDup_Permutation; done. }
    rewrite !length_fmap in Hlen. unfold len. lia.
Qed.

(** ** Enrollment *)

Lemma check_tools_spec names tools :
  check_tools names tools = Ok tt <->
  Forall (fun t => valid_tool t = true) tools /\ NoDup (tool_name <$> tools)
  /\ Forall (fun t => tool_name t ∉ names) tools.
Proof.
  revert names. induction tools as [|t tools IH]; intros names.
  { split; [|done]. intros _. split_and!; constructor. }
  cbn [check_tools fmap list_fmap]. rewrite !Forall_cons, NoDup_cons.
  assert (existsb (fun a => negb (valid_argument a)) (arguments t)
          = negb (forallb valid_argument (arguments t))) as ->.
  { induction (arguments t) as [|a l IHl]; cbn; [done|]. rewrite IHl, negb_andb. done. }
  unfold valid_tool. rewrite !Z.ltb_antisym.
  destruct (valid_name _ _); cbn [negb orb andb]; [|naive_solver].
  case_bool_decide as Hn; cbn [negb orb andb]; [naive_solver|].
  case_bool_decide; cbn [negb orb andb]; [naive_solver|].
  destruct (slen _ <=? 4096); cbn [negb orb andb]; [|naive_solver].
  destruct (control_not_newline _); cbn [negb orb andb]; [naive_solver|].
  destruct (len _ <=? 32); cbn [negb orb andb]; [|naive_solver].
  destruct (forallb _ _); cbn [negb orb andb]; [|naive_solver].
  rewrite IH. rewrite !Forall_forall. setoid_rewrite not_elem_of_union.
  setoid_rewrite not_elem_of_singleton. rewrite list_elem_of_fmap.
  split.
  - intros (Hv & Hd & Hx). split_and!; try done; [|naive_solver].
    intros (x & Heq & Hin). by destruct (Hx x Hin).
  - intros ((_ & Hv) & (Hf & Hd) & (_ & Hx)). split_and!; try done.
    intros x Hin. split; [|by apply Hx]. intros Heq. apply Hf. eauto.
Qed.

Lemma write_all_spec budget buffers :
  0 <= budget ->
  is_Some (write_all budget buffers) <-> len (mjoin buffers) <= budget.
Proof.
  revert budget. induction buffers as [|b buffers IH]; intros budget Hb.
  { cbn. rewrite len_nil. split; [done|eauto]. }
  change (mjoin (b :: buffers)) with (b ++ mjoin buffers). cbn [write_all].
  rewrite len_app. unfold Budget_write. pose proof (len_nonneg (mjoin buffers)).
  destruct (Z.ltb_spec budget (len b)); cbn.
  - split; [by intros []|intros; lia].
  - rewrite IH by lia. lia.
Qed.

(** enrollment accepts between 1 and 32 tools with distinct names, each valid,
    whose serialized definitions fit in [MAX_REQUEST] bytes, and nothing else. *)
Lemma validate_tools_spec to_writer tools :
  validate_tools to_writer tools = Ok tt <->
  0 < len tools <= 32
  /\ Forall (fun t => valid_tool t = true) tools
  /\ NoDup (tool_name <$> tools)
  /\ len (mjoin (to_writer (map definition tools))) <= MAX_REQUEST.
Proof.
  unfold validate_tools.
  assert (bool_decide (tools = []) || (32 <? len tools) = negb ((0 <? len tools) && (len tools <=? 32))) as ->.
  { destruct tools as [|t tools]; [done|]. rewrite bool_decide_false by done. cbn [orb].
    pose proof (len_nonneg tools). rewrite len_cons.
    rewrite (proj2 (Z.ltb_lt 0 _)) by lia. cbn [andb]. by rewrite Z.ltb_antisym. }
  destruct (Z.ltb_spec 0 (len tools)), (Z.leb_spec (len tools) 32); cbn [andb negb];
    try (split; [done|intros [? _]; lia]).
  rewrite <-(write_all_spec MAX_REQUEST) by done.
  destruct (check_tools ∅ tools) as [[]|e] eqn:Hc; cbn [mbind result_bind].
  - apply check_tools_spec in Hc as (? & ? & _).
    destruct (write_all _ _) as [w|]; [|split; [done|by intros (_ & _ & _ & [? ?])]].
    split; [|done]. intros _. split_and!; (done || by exists w).
  - split; [done|]. intros (_ & Hv & Hd & _).
    assert (check_tools ∅ tools = Ok tt); [|congruence].
    apply check_tools_spec. split_and!; try done. apply Forall_forall. set_solver.
Qed.
