(* ===== verification/Address.v ===== *)
(** * Destination addresses ([aap-policy/src/lib.rs], [AddressPolicy] of
    [aap-policy/src/catalog.rs]) *)
From S2P Require Import Prelude Protocol.

(** ** Data: [std::net::IpAddr] as octets or segments *)

Inductive IpAddr :=
  | V4 (a b c d : Z)
  | V6 (s0 s1 s2 s3 s4 s5 s6 s7 : Z).
#[export] Instance IpAddr_eq_dec : EqDecision IpAddr.
Proof. solve_decision. Defined.

(** Octets are bytes, segments are 16 bits wide. *)
Definition octet (z : Z) : Prop := 0 <= z < 256.
Definition segment (z : Z) : Prop := 0 <= z < 65536.
Definition wf_addr (ip : IpAddr) : Prop :=
  match ip with
  | V4 a b c d => octet a /\ octet b /\ octet c /\ octet d
  | V6 s0 s1 s2 s3 s4 s5 s6 s7 =>
      segment s0 /\ segment s1 /\ segment s2 /\ segment s3
      /\ segment s4 /\ segment s5 /\ segment s6 /\ segment s7
  end.

(** `aap-policy/src/catalog.rs:59-62`, `AddressPolicy` *)
Inductive AddressPolicy := Public | Pinned (pins : list IpAddr).

(** [matches!(x, lo..=hi)]. *)
Definition within (lo hi x : Z) : bool := (lo <=? x) && (x <=? hi).

(** ** Operations *)

(** `aap-policy/src/lib.rs:17-48`, `is_public_address` *)
Definition is_public_address (address : IpAddr) : bool :=
  match address with
  | V4 a b c _ =>
      negb (((a =? 0) || (a =? 10) || (a =? 127) || within 224 255 a)
            || ((a =? 100) && within 64 127 b)
            || ((a =? 169) && (b =? 254))
            || ((a =? 172) && within 16 31 b)
            || ((a =? 192)
                && (((b =? 0) && ((c =? 0) || (c =? 2)))
                    || ((b =? 88) && (c =? 99))
                    || (b =? 168)
                    || ((b =? 31) && (c =? 196))
                    || ((b =? 52) && (c =? 193))
                    || ((b =? 175) && (c =? 48))))
            || ((a =? 198) && (((b =? 18) || (b =? 19)) || ((b =? 51) && (c =? 100))))
            || ((a =? 203) && (b =? 0) && (c =? 113)))
  | V6 s0 s1 s2 _ _ _ _ _ =>
      (Z.land s0 57344 =? 8192)
      && negb ((s0 =? 8193) && ((s1 <? 512) || (s1 =? 3512)))
      && negb (s0 =? 8194)
      && negb ((s0 =? 16383) && (s1 <? 4096))
      && negb ((s0 =? 9760) && (s1 =? 79) && (s2 =? 32768))
  end.

(** [IpAddr::is_unspecified], [IpAddr::is_multicast]. *)
Definition is_unspecified (ip : IpAddr) : bool :=
  bool_decide (ip = V4 0 0 0 0) || bool_decide (ip = V6 0 0 0 0 0 0 0 0).
Definition is_multicast (ip : IpAddr) : bool :=
  match ip with
  | V4 a _ _ _ => within 224 239 a
  | V6 s0 _ _ _ _ _ _ _ => Z.land s0 65280 =? 65280
  end.

(** `aap-policy/src/catalog.rs:167-176`, `AddressPolicy::permits_all` *)
Definition permits_all (p : AddressPolicy) (addresses : list IpAddr) : bool :=
  negb (bool_decide (addresses = []))
  && (len addresses <=? 64)
  && forallb (fun address => match p with
                             | Public => is_public_address address
                             | Pinned pins => bool_decide (address ∈ pins)
                             end) addresses.

(** The pin list of an enrolled profile (the same loop in [ResourceProfile::validate]
    and [TcpProfile::validate]): nonempty, at most 64, distinct, no unspecified or
    multicast address. *)
Definition valid_pins (pins : list IpAddr) : bool :=
  negb (bool_decide (pins = []) || (64 <? len pins)
        || existsb (fun ip => is_unspecified ip || is_multicast ip) pins
        || negb (all_distinct pins)).

(** ** Specification: the special-purpose blocks, in CIDR form *)

(** The integer value of an address. *)
Definition v4_value (a b c d : Z) : Z := a * 16777216 + b * 65536 + c * 256 + d.
(** The first 48 bits of an IPv6 address; no block of the list is longer. *)
Definition v6_value (s0 s1 s2 : Z) : Z := s0 * 4294967296 + s1 * 65536 + s2.

(** A block of the top [width - bits] bits: base value and prefix length. *)
Definition in_block (width : Z) (value : Z) (block : Z * Z) : Prop :=
  value / 2 ^ (width - block.2) = block.1 / 2 ^ (width - block.2).

(** The IPv4 blocks that are not ordinary public unicast. *)
Definition special_v4 : list (Z * Z) :=
  [(v4_value 0 0 0 0, 8); (v4_value 10 0 0 0, 8); (v4_value 127 0 0 0, 8);
   (v4_value 224 0 0 0, 3); (v4_value 100 64 0 0, 10); (v4_value 169 254 0 0, 16);
   (v4_value 172 16 0 0, 12); (v4_value 192 0 0 0, 24); (v4_value 192 0 2 0, 24);
   (v4_value 192 88 99 0, 24); (v4_value 192 168 0 0, 16); (v4_value 192 31 196 0, 24);
   (v4_value 192 52 193 0, 24); (v4_value 192 175 48 0, 24); (v4_value 198 18 0 0, 15);
   (v4_value 198 51 100 0, 24); (v4_value 203 0 113 0, 24)].

(** Within 2000::/3, the IPv6 blocks that need explicit enrollment: 2001::/23,
    2001:db8::/32, 2002::/16, 3fff::/20 and 2620:4f:8000::/48. *)
Definition special_v6 : list (Z * Z) :=
  [(v6_value 8193 0 0, 23); (v6_value 8193 3512 0, 32); (v6_value 8194 0 0, 16);
   (v6_value 16383 0 0, 20); (v6_value 9760 79 32768, 48)].

Definition public_unicast (ip : IpAddr) : Prop :=
  match ip with
  | V4 a b c d => Forall (fun block => ~ in_block 32 (v4_value a b c d) block) special_v4
  | V6 s0 s1 s2 _ _ _ _ _ =>
      in_block 48 (v6_value s0 s1 s2) (v6_value 8192 0 0, 3)
      /\ Forall (fun block => ~ in_block 48 (v6_value s0 s1 s2) block) special_v6
  end.

(** ** Facts *)

Lemma within_spec lo hi x : within lo hi x = true <-> lo <= x <= hi.
Proof. unfold within. rewrite andb_true_iff, !Z.leb_le. done. Qed.

(** A 16-bit segment starts with the bits 001 exactly in 2000..3fff. *)
Lemma global_unicast_bits s : segment s -> (Z.land s 57344 =? 8192) = (s / 8192 =? 1).
Proof.
  intros Hs. assert (Z.land s 57344 = s / 8192 * 8192) as ->.
  { assert (s / 8192 * 8192 = Z.shiftl (Z.shiftr s 13) 13) as ->
      by (rewrite Z.shiftl_mul_pow2, Z.shiftr_div_pow2 by lia; done).
    apply Z.bits_inj'. intros n Hn. rewrite Z.land_spec, Z.shiftl_spec by lia.
    destruct (Z.lt_ge_cases n 13) as [Hl|Hl].
    - rewrite (Z.testbit_neg_r _ (n - 13)) by lia.
      change 57344 with (7 * 2 ^ 13). rewrite (Z.mul_pow2_bits_low 7 13) by lia. apply andb_false_r.
    - rewrite Z.shiftr_spec by lia. replace (n - 13 + 13) with n by lia.
      destruct (Z.lt_ge_cases n 16) as [Hn16|Hn16].
      + assert (n = 13 \/ n = 14 \/ n = 15) as Hc by lia.
        replace (Z.testbit 57344 n) with true; [apply andb_true_r|].
        by destruct Hc as [->|[->| ->]].
      + rewrite (Z.bits_above_log2 s n); [done|destruct Hs; lia|].
        destruct (Z.eq_dec s 0) as [->|]; [cbn; lia|].
        apply Z.log2_lt_pow2; [destruct Hs; lia|].
        destruct Hs. apply Z.lt_le_trans with (2 ^ 16); [lia|]. apply Z.pow_le_mono_r; lia. }
  apply eq_bool_prop_intro. rewrite !Is_true_true, !Z.eqb_eq. lia.
Qed.

(** An aligned block is a range of values. *)
Lemma in_block_range w v base n m :
  0 < m -> 2 ^ (w - n) = m -> base mod m = 0 -> in_block w v (base, n) <-> base <= v < base + m.
Proof. intros Hm Hp Hb. unfold in_block. cbn [fst snd]. rewrite Hp. 
  pose proof (Z.div_mod base m ltac:(lia)). pose proof (Z.div_mod v m ltac:(lia)).
  pose proof (Z.mod_pos_bound v m Hm). split; intros; nia.
Qed.

(** What membership in a block says of the octets or segments. *)
Section Blocks.
Variables a b c d : Z.
Hypotheses (Ha : octet a) (Hb : octet b) (Hc : octet c) (Hd : octet d).
Ltac block m := rewrite (in_block_range _ _ _ _ m);
  [unfold octet, v4_value in *; lia|lia|done|unfold octet, v4_value in *; div_lia].

Lemma block_3 : in_block 32 (v4_value a b c d) (v4_value 224 0 0 0, 3) <-> 224 <= a <= 255.
Proof. block 536870912. Qed.
Lemma block_8 A : in_block 32 (v4_value a b c d) (v4_value A 0 0 0, 8) <-> a = A.
Proof. block 16777216. Qed.
Lemma block_10 : in_block 32 (v4_value a b c d) (v4_value 100 64 0 0, 10) <-> a = 100 /\ 64 <= b <= 127.
Proof. block 4194304. Qed.
Lemma block_12 : in_block 32 (v4_value a b c d) (v4_value 172 16 0 0, 12) <-> a = 172 /\ 16 <= b <= 31.
Proof. block 1048576. Qed.
Lemma block_15 : in_block 32 (v4_value a b c d) (v4_value 198 18 0 0, 15) <-> a = 198 /\ 18 <= b <= 19.
Proof. block 131072. Qed.
Lemma block_16 A B : octet B ->
  in_block 32 (v4_value a b c d) (v4_value A B 0 0, 16) <-> a = A /\ b = B.
Proof. intros. block 65536. Qed.
Lemma block_24 A B C : octet B -> octet C ->
  in_block 32 (v4_value a b c d) (v4_value A B C 0, 24) <-> a = A /\ b = B /\ c = C.
Proof. intros. block 256. Qed.
End Blocks.

Section Blocks6.
Variables s0 s1 s2 : Z.
Hypotheses (H0 : segment s0) (H1 : segment s1) (H2 : segment s2).
Ltac block m := rewrite (in_block_range _ _ _ _ m);
  [unfold segment, v6_value in *; div_lia|lia|done|unfold segment, v6_value in *; div_lia].

Lemma block6_3 : in_block 48 (v6_value s0 s1 s2) (v6_value 8192 0 0, 3) <-> s0 / 8192 = 1.
Proof. block 35184372088832. Qed.
Lemma block6_16 A : in_block 48 (v6_value s0 s1 s2) (v6_value A 0 0, 16) <-> s0 = A.
Proof. block 4294967296. Qed.
Lemma block6_20 A : in_block 48 (v6_value s0 s1 s2) (v6_value A 0 0, 20) <-> s0 = A /\ s1 < 4096.
Proof. block 268435456. Qed.
Lemma block6_23 A : in_block 48 (v6_value s0 s1 s2) (v6_value A 0 0, 23) <-> s0 = A /\ s1 < 512.
Proof. block 33554432. Qed.
Lemma block6_32 A B : segment B ->
  in_block 48 (v6_value s0 s1 s2) (v6_value A B 0, 32) <-> s0 = A /\ s1 = B.
Proof. intros. block 65536. Qed.
Lemma block6_48 A B C : segment B -> segment C ->
  in_block 48 (v6_value s0 s1 s2) (v6_value A B C, 48) <-> s0 = A /\ s1 = B /\ s2 = C.
Proof. intros. block 1. Qed.
End Blocks6.


Lemma bool_iff (b : bool) (P : Prop) : (b = true <-> P) -> (b = false <-> ~ P).
Proof. destruct b; intuition congruence. Qed.

Ltac octet_case :=
  cbn -[Z.le Z.lt]; unfold within;
  repeat (rewrite ?negb_true_iff, ?orb_false_iff, ?andb_false_iff, ?Z.eqb_neq, ?Z.leb_gt);
  split; [intros Hx; split_and!; try lia; intros _; split_and?; clear -Hx; lia
         |intros (_ & _ & _ & _ & Hx); split_and?; lia].

(** The IPv4 test as a case distinction on the first octet. *)
Lemma first_octet a b c : octet a ->
  is_public_address (V4 a b c 0) = true <->
  a <> 0 /\ a <> 10 /\ a <> 127 /\ a < 224
  /\ (a = 100 -> ~ 64 <= b <= 127) /\ (a = 169 -> b <> 254) /\ (a = 172 -> ~ 16 <= b <= 31)
  /\ (a = 192 -> ~ (b = 0 /\ (c = 0 \/ c = 2)) /\ ~ (b = 88 /\ c = 99) /\ b <> 168
        /\ ~ (b = 31 /\ c = 196) /\ ~ (b = 52 /\ c = 193) /\ ~ (b = 175 /\ c = 48))
  /\ (a = 198 -> ~ 18 <= b <= 19 /\ ~ (b = 51 /\ c = 100)) /\ (a = 203 -> ~ (b = 0 /\ c = 113)).
Proof.
  intros Ha. unfold is_public_address, octet in *.
  destruct (Z.eq_dec a 0) as [->|]; [split; [done|lia]|].
  destruct (Z.eq_dec a 10) as [->|]; [split; [done|lia]|].
  destruct (Z.eq_dec a 127) as [->|]; [split; [done|lia]|].
  destruct (Z.eq_dec a 100) as [->|]; [octet_case|].
  destruct (Z.eq_dec a 169) as [->|]; [octet_case|].
  destruct (Z.eq_dec a 172) as [->|]; [octet_case|].
  destruct (Z.eq_dec a 192) as [->|]; [octet_case|].
  destruct (Z.eq_dec a 198) as [->|]; [octet_case|].
  destruct (Z.eq_dec a 203) as [->|]; [octet_case|].
  rewrite !(proj2 (Z.eqb_neq a _)) by done. cbn -[within Z.le Z.lt].
  destruct (within 224 255 a) eqn:E; cbn -[Z.le Z.lt].
  - apply within_spec in E. split; [done|]. intros (_ & _ & _ & Hx & _). lia.
  - apply (bool_iff _ _ (within_spec 224 255 a)) in E.
    split; [intros _|done]. split_and!; try done; lia.
Qed.

(** The octet tests admit exactly the addresses outside every special-purpose
    block (and, for IPv6, inside 2000::/3). *)
Lemma public_address_blocks ip :
  wf_addr ip -> is_public_address ip = true <-> public_unicast ip.
Proof.
  destruct ip as [a b c d|s0 s1 s2 s3 s4 s5 s6 s7]; cbn [wf_addr].
  - intros (Ha & Hb & Hc & Hd). unfold public_unicast, special_v4. rewrite !Forall_cons, Forall_nil.
    rewrite block_3, !block_8, block_10, block_12, block_15, !block_16, !block_24 by (done || unfold octet; lia).
    change (is_public_address (V4 a b c d)) with (is_public_address (V4 a b c 0)).
    rewrite first_octet by done. assert (Hm : a < 224 <-> ~ 224 <= a <= 255) by (unfold octet in Ha; lia).
    rewrite Hm. clear. tauto.
  - intros (H0 & H1 & H2 & _). unfold public_unicast, special_v6. rewrite !Forall_cons, Forall_nil.
    rewrite block6_3, block6_16, block6_20, block6_23, block6_32, block6_48 by (done || unfold segment; lia).
    unfold is_public_address. rewrite (global_unicast_bits s0 H0).
    rewrite !andb_true_iff, !negb_true_iff, !andb_false_iff, orb_false_iff, !Z.eqb_eq, !Z.eqb_neq, !Z.ltb_ge.
    unfold segment in *. clear H2. intuition lia.
Qed.

(** an address policy admits a resolver answer only as a whole: nonempty, at
    most 64 entries, and every one of them allowed. *)
Lemma permits_all_spec p addresses :
  permits_all p addresses = true <->
  0 < len addresses <= 64
  /\ Forall (fun ip => match p with
                      | Public => is_public_address ip = true
                      | Pinned pins => ip ∈ pins
                      end) addresses.
Proof.
  unfold permits_all. rewrite !andb_true_iff, negb_true_iff, bool_decide_eq_false, Z.leb_le, forallb_Forall.
  assert (addresses <> [] <-> 0 < len addresses) as ->.
  { rewrite <-len_0. pose proof (len_nonneg addresses). lia. }
  assert (Forall (fun x => match p with Public => is_public_address x
                           | Pinned pins => bool_decide (x ∈ pins) end = true) addresses
          <-> Forall (fun ip => match p with Public => is_public_address ip = true
                                | Pinned pins => ip ∈ pins end) addresses) as ->; [|tauto].
  apply Forall_iff. intros x. destruct p; [done|]. apply bool_decide_eq_true.
Qed.

Lemma valid_pins_spec pins :
  valid_pins pins = true <->
  0 < len pins <= 64 /\ NoDup pins
  /\ Forall (fun ip => is_unspecified ip = false /\ is_multicast ip = false) pins.
Proof.
  unfold valid_pins. rewrite negb_true_iff, !orb_false_iff, negb_false_iff, all_distinct_NoDup,
    bool_decide_eq_false, existsb_false, Z.ltb_ge.
  assert (pins <> [] <-> 0 < len pins) as ->.
  { rewrite <-len_0. pose proof (len_nonneg pins). lia. }
  assert (Forall (fun x => is_unspecified x || is_multicast x = false) pins
    <-> Forall (fun ip => is_unspecified ip = false /\ is_multicast ip = false) pins) as ->; [|tauto].
  apply Forall_iff. intros x. apply orb_false_iff.
Qed.
