(* ===== verification/Catalog.v ===== *)
(** * Operator catalog ([aap-policy/src/catalog.rs], [aap-types/src/profile.rs])

    The catalog's data, the header rules of a route and the approval rule. The
    [http] crate is the class [Http]. *)
From S2P Require Import Prelude Protocol Json Tools Address.

(** ** The [http] crate *)

(** [HeaderName::from_bytes] (the parsed, lower-case name) and whether
    [HeaderValue::from_str] accepts a value. *)
Class Http := {
  HeaderName_from_bytes : string -> option string;
  HeaderValue_from_str : string -> bool }.

(** A parsed header name is lower case, and parses to itself. *)
Class HttpLaws `{Http} : Prop := {
  header_name_canonical s n : HeaderName_from_bytes s = Some n ->
    n = str_to_ascii_lowercase s /\ HeaderName_from_bytes n = Some n }.

(** ** Data *)

(** `aap-types/src/profile.rs:23-28`, `LoginEncoding` *)
Inductive LoginEncoding := Form_ | Json_.
#[export] Instance LoginEncoding_eq_dec : EqDecision LoginEncoding.
Proof. solve_decision. Defined.

(** `aap-types/src/profile.rs:30-47`, `LoginSuccess` and `CsrfProfile` *)
Record LoginSuccess := {
  success_status : Z; cookie_names : list string; json_pointer : string; expected : Value }.
Record CsrfProfile := { response_pointer : string; submit_field : string }.

(** `aap-types/src/profile.rs:6-21`, `LoginProfile` *)
Record LoginProfile := {
  login_page : string;
  login_target : string;
  encoding : LoginEncoding;
  fields : CredentialFields;
  username_visible : bool;
  success : LoginSuccess;
  csrf : option CsrfProfile;
  post_login_redirect : option string }.

(** `aap-types/src/profile.rs:49-55`, `ProviderKind` *)
Inductive ProviderKind := OpenAiChat | AnthropicMessages | Generic.
#[export] Instance ProviderKind_eq_dec : EqDecision ProviderKind.
Proof. solve_decision. Defined.

(** `aap-policy/src/catalog.rs:32-35`, `CredentialRef` *)
Record CredentialRef := mkCredentialRef { store : string; key : string }.
#[export] Instance CredentialRef_eq_dec : EqDecision CredentialRef.
Proof. solve_decision. Defined.

(** `aap-policy/src/catalog.rs:39-44`, `ItemApproval` *)
Inductive ItemApproval := Inherit | Authenticate | Always.
#[export] Instance ItemApproval_eq_dec : EqDecision ItemApproval.
Proof. solve_decision. Defined.

(** `aap-policy/src/catalog.rs:20-28`, `Item` *)
Record Item := mkItem {
  item_id : string;
  label : string;
  account_alias : string;
  item_profile : string;
  credential : CredentialRef;
  approval : ItemApproval }.

(** `aap-policy/src/catalog.rs:70-81`, `Route` *)
Record Route := mkRoute {
  route_method : string;
  route_path : string;
  route_query : option string;
  max_request_bytes : Z;
  max_response_bytes : Z;
  allowed_headers : list string;
  streaming : bool;
  require_approval : bool }.

(** `aap-policy/src/catalog.rs:85-102`, `Authentication` *)
Inductive Authentication :=
  | NoAuth
  | ApiKey (item_id header prefix : string) (provider : ProviderKind)
  | FormAuth (login : LoginProfile)
  | McpAuth (item_id header prefix : string) (tools : list Tool).

(** `aap-policy/src/catalog.rs:48-54`, `ResourceProfile` *)
Record ResourceProfile := mkResourceProfile {
  profile_id : string;
  profile_origin : string;
  addresses : AddressPolicy;
  routes : list Route;
  auth : Authentication }.

(** `aap-policy/src/catalog.rs:12-16`, `Catalog` *)
Record Catalog := mkCatalog {
  schema_version : Z; configuration_revision : Z; items : list Item }.

(** ** Names and headers *)

(** `aap-policy/src/catalog.rs:210-217`, `valid_alias` *)
Definition valid_alias (alias : string) : bool :=
  negb (bool_decide (alias = EmptyString))
  && (slen alias <=? 64)
  && is_ascii_alphanumeric (hd "000"%char (as_bytes alias))
  && forallb (fun b => is_ascii_alphanumeric b || bool_decide (b = "."%char)
                       || bool_decide (b = "_"%char) || bool_decide (b = "-"%char))
       (as_bytes alias).

(** `aap-policy/src/catalog.rs:220-243`, `routing_header` *)
Definition routing_names : list string :=
  ["host"; "content-length"; "transfer-encoding"; "connection"; "te"; "trailer"; "upgrade";
   "keep-alive"; "expect"; "cookie"; "set-cookie"; "forwarded"; "via"; "origin"; "referer";
   "mcp-session-id"; "last-event-id"].
Definition routing_header (name : string) : bool :=
  str_starts_with name "proxy-" || str_starts_with name "x-forwarded-"
  || bool_decide (name ∈ routing_names).

Section Headers.
Context `{Http}.

(** The loop of [authorize_headers]: names seen and bytes counted so far. *)
Fixpoint check_headers (allowed : list string) (seen : gset string) (bytes : Z)
    (headers : list (string * string)) : Result unit :=
  match headers with
  | [] => Ok tt
  | (name, value) :: rest =>
      match HeaderName_from_bytes name with
      | None => fail PolicyDenied
      | Some name =>
          let bytes := saturating_add (saturating_add bytes (slen name)) (slen value) in
          if (65536 <? bytes)
             || negb (str_is_ascii value)
             || negb (HeaderValue_from_str value)
             || routing_header name
             || bool_decide (name = "authorization")
             || bool_decide (name ∈ seen)
             || negb (bool_decide (name ∈ allowed))
          then fail PolicyDenied
          else check_headers allowed ({[ name ]} ∪ seen) bytes rest
      end
  end.

(** `aap-policy/src/catalog.rs:180-207`, `Route::authorize_headers` *)
Definition authorize_headers (r : Route) (headers : list (string * string)) : Result unit :=
  if 64 <? len headers then fail PolicyDenied
  else check_headers (allowed_headers r) ∅ 0 headers.
End Headers.

(** `aap-policy/src/catalog.rs:246-257`, `requires_approval` *)
Definition requires_approval (host session route : bool) (item : ItemApproval)
    (authentication : bool) : bool :=
  host || session || route
  || bool_decide (item = Always)
  || (bool_decide (item = Authenticate) && authentication).

(** ** What an admitted header list is *)

Section HeaderProofs.
Context `{Http}.

(** One caller header, its parsed name and its value, in a list of allowed names. *)
Definition header_admitted (allowed : list string) (h : string * string) (name : string) : Prop :=
  HeaderName_from_bytes h.1 = Some name
  /\ str_is_ascii h.2 = true /\ HeaderValue_from_str h.2 = true
  /\ routing_header name = false /\ name <> "authorization" /\ name ∈ allowed.

(** Bytes of the parsed names and of the values. *)
Fixpoint header_bytes (headers : list (string * string)) (names : list string) : Z :=
  match headers, names with
  | (_, value) :: hs, name :: ns => slen name + slen value + header_bytes hs ns
  | _, _ => 0
  end.

Lemma header_bytes_nonneg hs ns : 0 <= header_bytes hs ns.
Proof.
  revert ns; induction hs as [|[n v] hs IH]; intros [|m ns]; cbn; try lia.
  specialize (IH ns). pose proof (slen_nonneg m). pose proof (slen_nonneg v). lia.
Qed.

Lemma saturating_bound a b c : 0 <= a <= 65536 -> 0 <= b -> 0 <= c ->
  (65536 <? saturating_add (saturating_add a b) c) = (65536 <? a + b + c)
  /\ (a + b + c <= 65536 -> saturating_add (saturating_add a b) c = a + b + c).
Proof.
  unfold saturating_add, u64_max. intros. split; [|lia].
  apply eq_bool_prop_intro. rewrite !Is_true_true, !Z.ltb_lt. lia.
Qed.

(** The loop, from a state with the names [seen] and [bytes] counted. *)
Lemma check_headers_Ok allowed hs seen bytes : 0 <= bytes <= 65536 ->
  check_headers allowed seen bytes hs = Ok tt <->
  exists names, Forall2 (header_admitted allowed) hs names /\ NoDup names
    /\ Forall (fun n => n ∉ seen) names /\ bytes + header_bytes hs names <= 65536.
Proof.
  revert seen bytes; induction hs as [|[n v] hs IH]; intros seen bytes Hb; cbn [check_headers].
  { split; [|done]. intros _. exists []. cbn. repeat split; (constructor || lia). }
  destruct (HeaderName_from_bytes n) as [name|] eqn:Hn.
  2:{ split; [done|]. intros (names & HF & _).
      apply Forall2_cons_inv_l in HF as (m & ? & (? & _) & _). cbn in *. congruence. }
  destruct (saturating_bound bytes (slen name) (slen v) Hb (slen_nonneg _) (slen_nonneg _))
    as [Hlt Heq].
  rewrite Hlt. destruct (_ || _) eqn:Hc.
  - split; [done|]. intros (names & HF & Hnd & Hseen & Hsum). exfalso.
    apply Forall2_cons_inv_l in HF as (m & ns & (Hm & Ha & Hv & Hr & Hz & Hal) & HF & ->).
    cbn [fst snd header_bytes] in *. assert (m = name) as -> by congruence.
    apply Forall_cons in Hseen as [Hs _]. pose proof (header_bytes_nonneg hs ns).
    rewrite Ha, Hv, Hr, !bool_decide_eq_false_2, bool_decide_eq_true_2 in Hc by done.
    cbn in Hc. rewrite !orb_false_r in Hc. bool_hyps. apply Z.ltb_lt in Hc. lia.
  - bool_hyps. rewrite Heq by lia.
    pose proof (slen_nonneg name). pose proof (slen_nonneg v).
    rewrite IH by lia. split.
    + intros (ns & HF & Hnd & Hs & Hsum). exists (name :: ns). cbn.
      rewrite Forall_cons, NoDup_cons.
      assert (Hni : name ∉ ns).
      { intros Hin. rewrite Forall_forall in Hs. specialize (Hs _ Hin). set_solver. }
      repeat split; try done; [constructor; [by repeat split|done]| |lia].
      eapply Forall_impl; [exact Hs|]. set_solver.
    + intros (names & HF & Hnd & Hs & Hsum).
      apply Forall2_cons_inv_l in HF as (m & ns & (Hm & _) & HF & ->). cbn in Hm, Hsum.
      assert (m = name) as -> by congruence.
      apply NoDup_cons in Hnd as [Hni Hnd]. apply Forall_cons in Hs as [Hs Hss].
      exists ns. repeat split; try done; [|lia].
      rewrite Forall_forall in *. intros x Hx. specialize (Hss x Hx). set_solver.
Qed.

(** [authorize_headers] admits a header list exactly when it has at most
    64 headers and 65536 bytes of parsed names and values, the names are
    pairwise different after parsing, and every header parses, has an ASCII
    value the transport accepts, is on the route's allow list and is neither
    a routing header nor [authorization]. *)
Lemma authorize_headers_exact r hs :
  authorize_headers r hs = Ok tt <->
  len hs <= 64 /\ exists names,
    Forall2 (header_admitted (allowed_headers r)) hs names
    /\ NoDup names /\ header_bytes hs names <= 65536.
Proof.
  unfold authorize_headers. destruct (64 <? len hs) eqn:Hl; bool_hyps.
  { split; [done|]. intros [? _]. lia. }
  rewrite check_headers_Ok by lia. split.
  - intros (names & ? & ? & _ & ?). split; [done|]. by exists names.
  - intros (_ & names & ? & ? & ?). exists names. repeat split; try done.
    apply Forall_forall. set_solver.
Qed.
End HeaderProofs.

(** An item's own setting only adds approvals to those of host, session and route. *)
Lemma requires_approval_item_adds host session route item authentication :
  requires_approval host session route Inherit authentication = true ->
  requires_approval host session route item authentication = true.
Proof. by destruct host, session, route, item, authentication. Qed.
