(* ===== verification/Profile.v ===== *)
(** * Targets and resource profiles ([aap-policy/src/target.rs], [aap-policy/src/mcp.rs],
    [Catalog::validate] of [aap-policy/src/catalog.rs])

    Exact admission of HTTPS targets and routes, and what a validated operator
    configuration guarantees. The [http] and [url] crates' parsers are the
    classes [Http] and [Urls]. *)
From S2P Require Import Prelude Protocol Json Tools Address Catalog.

(** ** The [http::Uri] and [url::Url] parsers *)

(** A parsed [http::Uri]: the scheme, the text and the host of its authority, its
    port, path and query. *)
Record Uri := mkUri {
  uri_scheme : option string; authority : option (string * string); uri_port : option Z;
  uri_path : string; uri_query : option string }.

(** A parsed [url::Url]; [url_port] is [port_or_known_default], [url_origin] the
    ASCII serialization of its origin. *)
Record Url := {
  host_str : option string;
  username : string;
  password : option string;
  url_port : option Z;
  url_path : string;
  url_query : option string;
  url_origin : string;
  url_as_str : string }.

Class Urls := { Uri_parse : string -> option Uri; Url_parse : string -> option Url }.

(** ** Target *)

(** `aap-policy/src/target.rs:7-9`, `Target` *)
Record Target := mkTarget { url : Url }.

(** [char::to_digit(16)]. *)
Definition to_digit16 (b : byte) : option Z :=
  if is_ascii_digit b then Some (byte_val b - 48)
  else if in_range 97 102 b then Some (byte_val b - 87)
  else if in_range 65 70 b then Some (byte_val b - 55)
  else None.

(** A decoded byte [valid_encoding] refuses. *)
Definition path_delimiters : list Z := [46; 47; 92; 37; 59; 63; 35].
Definition forbidden_octet (path : bool) (decoded : Z) : bool :=
  (decoded <? 32) || (decoded =? 127) || (path && bool_decide (decoded ∈ path_delimiters)).

(** `aap-policy/src/target.rs:74-101`, `valid_encoding`, on the bytes from [offset] *)
Fixpoint valid_encoding (bytes : list byte) (path : bool) : bool :=
  match bytes with
  | [] => true
  | b :: rest =>
      if bool_decide (b = "%"%char) then
        match rest with
        | h :: l :: rest =>
            match to_digit16 h, to_digit16 l with
            | Some high, Some low =>
                negb (forbidden_octet path (high * 16 + low)) && valid_encoding rest path
            | _, _ => false
            end
        | _ => false
        end
      else valid_encoding rest path
  end.

(** [str::contains] of a character, of ["//"], [str::ends_with] of a character. *)
Definition contains_char (s : string) (c : byte) : bool := bool_decide (c ∈ as_bytes s).
Fixpoint contains_double (c : byte) (l : list byte) : bool :=
  match l with
  | x :: (y :: _) as rest => (bool_decide (x = c) && bool_decide (y = c)) || contains_double c rest
  | _ => false
  end.
Definition ends_with_char (s : string) (c : byte) : bool := bool_decide (last (as_bytes s) = Some c).

Section Targets.
Context `{Urls}.

(** `aap-policy/src/target.rs:12-51`, `Target::parse` *)
Definition Target_parse (input : string) : Result Target :=
  if (16384 <? slen input)
     || negb (str_starts_with input "https://")
     || negb (str_is_ascii input)
     || existsb (fun b => (byte_val b <=? 32) || (byte_val b =? 127)
                          || bool_decide (b = "\"%char) || bool_decide (b = "#"%char))
          (as_bytes input)
  then fail RequestInvalid
  else
    uri ← ok_or (Uri_parse input) (Error_new RequestInvalid);
    authority ← ok_or (authority uri) (Error_new RequestInvalid);
    url ← ok_or (Url_parse input) (Error_new RequestInvalid);
    host ← ok_or (host_str url) (Error_new RequestInvalid);
    if contains_char authority.1 "@"
       || negb (bool_decide (username url = EmptyString))
       || bool_decide (is_Some (password url))
       || ends_with_char host "."
       || negb (eq_ignore_ascii_case authority.2 host)
       || bool_decide (url_port url = Some 0)
    then fail RequestInvalid
    else
      let raw_path := if bool_decide (uri_path uri = EmptyString) then "/" else uri_path uri in
      if negb (bool_decide (raw_path = url_path url))
         || negb (bool_decide (uri_query uri = url_query url))
         || contains_double "/" (as_bytes raw_path)
         || contains_char raw_path ";"
         || negb (valid_encoding (as_bytes raw_path) true)
         || negb (valid_encoding (as_bytes (default EmptyString (uri_query uri))) false)
      then fail RequestInvalid
      else Ok (mkTarget url).
End Targets.

(** `aap-policy/src/target.rs:52-71`, `Target::origin`, `path`, `query`, `as_str` *)
Definition origin (t : Target) : string := url_origin (url t).
Definition path (t : Target) : string := url_path (url t).
Definition query (t : Target) : option string := url_query (url t).
Definition target_as_str (t : Target) : string := url_as_str (url t).

(** ** Route admission *)

Definition route_matches (method : string) (target : Target) (r : Route) : bool :=
  bool_decide (route_method r = method)
  && bool_decide (route_path r = path target)
  && bool_decide (route_query r = query target).

(** `aap-policy/src/target.rs:104-126`, `ResourceProfile::authorize` *)
Definition authorize (p : ResourceProfile) (method : string) (target : Target) (body_size : Z)
    : Result Route :=
  if negb (bool_decide (profile_origin p = origin target)) then fail PolicyDenied
  else
    route ← ok_or (find_first (route_matches method target) (routes p)) (Error_new PolicyDenied);
    if max_request_bytes route <? body_size then fail LimitExceeded else Ok route.

(** ** Profile validation *)

(** `aap-policy/src/target.rs:303-312`, `selectors_overlap` *)
Definition pointer_below (left right : string) : bool :=
  match strip_prefix (as_bytes left) (as_bytes right) with
  | Some suffix => starts_with suffix ["/"%char]
  | None => false
  end.
Definition selectors_overlap (left right : string) (json : bool) : bool :=
  bool_decide (left = right) || (json && (pointer_below left right || pointer_below right left)).

(** `aap-policy/src/target.rs:314-325`, `valid_pointer` *)
Fixpoint tilde_escapes (l : list byte) : bool :=
  match l with
  | [] => true
  | c :: rest =>
      if bool_decide (c = "~"%char) then
        match rest with
        | d :: rest => (bool_decide (d = "0"%char) || bool_decide (d = "1"%char)) && tilde_escapes rest
        | [] => false
        end
      else tilde_escapes rest
  end.
Definition valid_pointer (pointer : string) : bool :=
  str_starts_with pointer "/" && (slen pointer <=? 4096) && negb (any_control pointer)
  && tilde_escapes (as_bytes pointer).

Definition methods : list string := ["GET"; "HEAD"; "POST"; "PUT"; "PATCH"; "DELETE"; "OPTIONS"].
Definition body_limit : Z := 128 * 1024 * 1024.
Definition page_limit : Z := 256 * 1024.

(** The key under which a profile's routes are unique. *)
Definition route_key (r : Route) : string * string * option string :=
  (route_method r, route_path r, route_query r).

Section Validate.
Context `{Http, Urls}.
Context (to_writer : list Value -> list (list byte)).

(** The loop over a route's allowed headers, with the names inserted so far. *)
Fixpoint check_allowed (seen : gset string) (names : list string) : Result unit :=
  match names with
  | [] => Ok tt
  | name :: rest =>
      parsed ← ok_or (HeaderName_from_bytes name) (Error_new RequestInvalid);
      if negb (bool_decide (parsed = name))
         || routing_header name
         || bool_decide (name = "authorization")
         || bool_decide (name ∈ seen)
      then fail RequestInvalid
      else check_allowed ({[ name ]} ∪ seen) rest
  end.

(** `aap-policy/src/target.rs:150-194`, `ResourceProfile::validate` (the loop over
    the routes), with the keys inserted so far *)
Fixpoint check_routes (origin_ : string) (seen : gset (string * string * option string))
    (routes : list Route) : Result unit :=
  match routes with
  | [] => Ok tt
  | r :: rest =>
      if negb (bool_decide (route_method r ∈ methods))
         || negb (str_starts_with (route_path r) "/")
         || contains_char (route_path r) "?"
         || (max_request_bytes r =? 0)
         || (body_limit <? max_request_bytes r)
         || (max_response_bytes r =? 0)
         || (body_limit <? max_response_bytes r)
         || bool_decide (route_key r ∈ seen)
         || (64 <? len (allowed_headers r))
      then fail RequestInvalid
      else
        target ← Target_parse
          (origin_ +:+ route_path r +:+
           match route_query r with Some q => "?" +:+ q | None => EmptyString end);
        if negb (bool_decide (origin target = origin_))
           || negb (bool_decide (path target = route_path r))
           || negb (bool_decide (query target = route_query r))
        then fail RequestInvalid
        else
          _ ← check_allowed ∅ (allowed_headers r);
          check_routes origin_ ({[ route_key r ]} ∪ seen) rest
  end.

(** `aap-policy/src/target.rs:197-224`, `ResourceProfile::validate` (a credential header) *)
Definition check_credential_header (p : ResourceProfile) (item_id header prefix : string)
    : Result unit :=
  parsed ← ok_or (HeaderName_from_bytes header) (Error_new RequestInvalid);
  if negb (valid_alias item_id)
     || negb (bool_decide (parsed = header))
     || routing_header header
     || (128 <? slen prefix)
     || negb (str_is_ascii prefix)
     || negb (HeaderValue_from_str prefix)
     || existsb (fun r => bool_decide (header ∈ allowed_headers r)) (routes p)
  then fail RequestInvalid
  else Ok tt.

Fixpoint check_cookie_names (seen : gset string) (names : list string) : Result unit :=
  match names with
  | [] => Ok tt
  | name :: rest =>
      if (256 <? slen name)
         || negb (bool_decide (is_Some (HeaderName_from_bytes name)))
         || bool_decide (name ∈ seen)
      then fail RequestInvalid
      else check_cookie_names ({[ name ]} ∪ seen) rest
  end.

Definition selector_valid (is_json : bool) (value : string) : bool :=
  negb (bool_decide (value = EmptyString)) && (slen value <=? 256) && negb (any_control value)
  && (negb is_json || valid_pointer value).

(** A success flag the profile may expect: a scalar, a string of at most 256 bytes. *)
Definition expected_invalid (v : Value) : bool :=
  match v with
  | Null | Array _ | Object _ => true
  | Str value => 256 <? slen value
  | _ => false
  end.

Definition in_status (lo hi status : Z) : bool := (lo <=? status) && (status <? hi).

(** `aap-policy/src/target.rs:231-246`, `ResourceProfile::validate` (the redirect) *)
Definition check_redirect (p : ResourceProfile) (login : LoginProfile) : Result unit :=
  match post_login_redirect login with
  | Some redirect =>
      destination ← Target_parse redirect;
      route ← authorize p "GET" destination 0;
      if negb (success_status (success login) =? 303)
         || negb (bool_decide (target_as_str destination = redirect))
         || bool_decide (is_Some (query destination))
         || bool_decide (redirect = login_page login)
         || bool_decide (redirect = login_target login)
         || streaming route
         || (page_limit <? max_response_bytes route)
      then fail RequestInvalid
      else Ok tt
  | None =>
      if negb (in_status 200 300 (success_status (success login)))
      then fail RequestInvalid
      else Ok tt
  end.

(** `aap-policy/src/target.rs:225-294`, `ResourceProfile::validate` (a form login) *)
Definition check_login (p : ResourceProfile) (login : LoginProfile) : Result unit :=
  page ← Target_parse (login_page login);
  target ← Target_parse (login_target login);
  page_route ← authorize p "GET" page 0;
  login_route ← authorize p "POST" target 0;
  _ ← check_redirect p login;
  let is_json := bool_decide (encoding login = Json_) in
  let user := field_username (fields login) in
  let pass := field_password (fields login) in
  let ok := success login in
  if streaming page_route
     || streaming login_route
     || (page_limit <? max_response_bytes page_route)
     || (page_limit <? max_request_bytes login_route)
     || (page_limit <? max_response_bytes login_route)
     || negb (selector_valid is_json user)
     || negb (selector_valid is_json pass)
     || selectors_overlap user pass is_json
     || negb (in_status 200 400 (success_status ok))
     || bool_decide (cookie_names ok = [])
     || (32 <? len (cookie_names ok))
     || negb (valid_pointer (json_pointer ok))
     || expected_invalid (expected ok)
  then fail RequestInvalid
  else
    _ ← check_cookie_names ∅ (cookie_names ok);
    match csrf login with
    | Some csrf =>
        if negb (valid_pointer (response_pointer csrf))
           || negb (selector_valid is_json (submit_field csrf))
           || selectors_overlap (submit_field csrf) user is_json
           || selectors_overlap (submit_field csrf) pass is_json
        then fail RequestInvalid
        else Ok tt
    | None => Ok tt
    end.

(** `aap-policy/src/mcp.rs:9-32`, `ResourceProfile::validate_mcp` *)
Definition mcp_headers : list string := ["content-type"; "accept"; "mcp-protocol-version"].
Definition mcp_route (first : string) (r : Route) : bool :=
  (bool_decide (route_method r = "POST") || bool_decide (route_method r = "DELETE"))
  && bool_decide (route_path r = first)
  && bool_decide (route_query r = None)
  && negb (streaming r)
  && (max_request_bytes r <=? MAX_REQUEST)
  && (max_response_bytes r <=? MAX_RESPONSE)
  && forallb (fun name => bool_decide (name ∈ mcp_headers)) (allowed_headers r).
Definition validate_mcp (p : ResourceProfile) (tools : list Tool) (header : string)
    : Result unit :=
  _ ← validate_tools to_writer tools;
  if bool_decide (header ∈ mcp_headers)
     || negb ((1 <=? len (routes p)) && (len (routes p) <=? 2))
     || negb (existsb (fun r => bool_decide (route_method r = "POST")) (routes p))
     || existsb (fun r => negb (mcp_route (from_option route_path EmptyString (head (routes p))) r))
          (routes p)
  then fail RequestInvalid
  else Ok tt.

(** `aap-policy/src/target.rs:127-300`, `ResourceProfile::validate` *)
Definition validate (p : ResourceProfile) : Result unit :=
  o ← Target_parse (profile_origin p);
  if negb (valid_alias (profile_id p))
     || negb (bool_decide (origin o = profile_origin p))
     || bool_decide (is_Some (query o))
     || bool_decide (routes p = [])
     || (256 <? len (routes p))
  then fail RequestInvalid
  else
    _ ← (match addresses p with
         | Pinned pins => if valid_pins pins then Ok tt else fail RequestInvalid
         | Public => Ok tt
         end);
    _ ← check_routes (profile_origin p) ∅ (routes p);
    _ ← (match auth p with
         | NoAuth => Ok tt
         | ApiKey item_id header prefix _ | McpAuth item_id header prefix _ =>
             check_credential_header p item_id header prefix
         | FormAuth login => check_login p login
         end);
    match auth p with
    | McpAuth _ header _ tools => validate_mcp p tools header
    | _ => Ok tt
    end.
End Validate.

(** ** Catalog validation *)

Definition is_mcp (a : Authentication) : bool := match a with McpAuth _ _ _ _ => true | _ => false end.
Definition auth_item (a : Authentication) : option string :=
  match a with
  | ApiKey item_id _ _ _ | McpAuth item_id _ _ _ => Some item_id
  | _ => None
  end.
(** The header that carries a profile's stored credential upstream. *)
Definition auth_header (a : Authentication) : option string :=
  match a with
  | ApiKey _ header _ _ | McpAuth _ header _ _ => Some header
  | _ => None
  end.

(** `aap-policy/src/mcp.rs:36-79`, `Catalog::validate_mcp_bindings`; a validated
    profile has a first route, so [routes[0]] does not panic *)
Definition mcp_profiles (profiles : list ResourceProfile) : gset string :=
  list_to_set (map profile_id (List.filter (fun p => is_mcp (auth p)) profiles)).
Definition endpoints (profiles : list ResourceProfile) : gset (string * string) :=
  list_to_set (omap (fun p => r ← head (routes p); Some (profile_origin p, route_path r))
    (List.filter (fun p => bool_decide (profile_id p ∈ mcp_profiles profiles)) profiles)).
Definition item_key (i : Item) : string * string := (store (credential i), key (credential i)).
Definition mcp_keys (c : Catalog) (profiles : list ResourceProfile) : gset (string * string) :=
  list_to_set (map item_key
    (List.filter (fun i => bool_decide (item_profile i ∈ mcp_profiles profiles)) (items c))).
Definition validate_mcp_bindings (c : Catalog) (profiles : list ResourceProfile) : Result unit :=
  if existsb (fun other => existsb (fun r =>
       bool_decide ((profile_origin other, route_path r) ∈ endpoints profiles)) (routes other))
       (List.filter (fun p => negb (bool_decide (profile_id p ∈ mcp_profiles profiles))) profiles)
  then fail RequestInvalid
  else if existsb (fun i => bool_decide (item_key i ∈ mcp_keys c profiles))
       (List.filter (fun i => negb (bool_decide (item_profile i ∈ mcp_profiles profiles))) (items c))
  then fail RequestInvalid
  else Ok tt.

Section CatalogValidate.
Context `{Http, Urls}.
Context (to_writer : list Value -> list (list byte)).

(** The three loops of [Catalog::validate]; each returns the identifiers inserted. *)
Fixpoint check_stores (seen : gset string) (stores : list string) : Result (gset string) :=
  match stores with
  | [] => Ok seen
  | s :: rest =>
      if negb (valid_alias s) || bool_decide (s ∈ seen) then fail RequestInvalid
      else check_stores ({[ s ]} ∪ seen) rest
  end.

Fixpoint check_profiles (seen : gset string) (profiles : list ResourceProfile)
    : Result (gset string) :=
  match profiles with
  | [] => Ok seen
  | p :: rest =>
      _ ← validate to_writer p;
      if bool_decide (profile_id p ∈ seen) then fail RequestInvalid
      else check_profiles ({[ profile_id p ]} ∪ seen) rest
  end.

Definition item_invalid (seen profile_ids store_ids : gset string) (i : Item) : bool :=
  negb (valid_alias (item_id i))
  || bool_decide (item_id i ∈ seen)
  || negb (valid_alias (account_alias i))
  || negb (bool_decide (item_profile i ∈ profile_ids))
  || negb (bool_decide (store (credential i) ∈ store_ids))
  || bool_decide (label i = EmptyString)
  || (256 <? slen (label i))
  || any_control (label i)
  || bool_decide (key (credential i) = EmptyString)
  || (16384 <? slen (key (credential i)))
  || any_control (key (credential i)).

Fixpoint check_items (seen profile_ids store_ids : gset string) (items : list Item)
    : Result unit :=
  match items with
  | [] => Ok tt
  | i :: rest =>
      if item_invalid seen profile_ids store_ids i then fail RequestInvalid
      else check_items ({[ item_id i ]} ∪ seen) profile_ids store_ids rest
  end.

(** A profile that names an item has it, and the item names the profile. *)
Definition item_bound (c : Catalog) (p : ResourceProfile) : bool :=
  match auth_item (auth p) with
  | Some id => existsb (fun i => bool_decide (item_id i = id)
                                 && bool_decide (item_profile i = profile_id p)) (items c)
  | None => true
  end.

(** `aap-policy/src/catalog.rs:105-164`, `Catalog::validate` *)
Definition catalog_validate (c : Catalog) (profiles : list ResourceProfile)
    (stores : list string) (revision : Z) : Result unit :=
  if negb (schema_version c =? 1)
     || (revision =? 0)
     || negb (configuration_revision c =? revision)
     || (1000 <? len (items c))
     || (256 <? len profiles)
     || (64 <? len stores)
  then fail RequestInvalid
  else
    store_ids ← check_stores ∅ stores;
    profile_ids ← check_profiles ∅ profiles;
    _ ← check_items ∅ profile_ids store_ids (items c);
    if negb (forallb (item_bound c) profiles) then fail RequestInvalid
    else validate_mcp_bindings c profiles.
End CatalogValidate.

(** ** Percent-encoding *)

(** The bytes a percent-encoded text stands for. *)
Fixpoint percent_decode (l : list byte) : option (list byte) :=
  match l with
  | [] => Some []
  | b :: rest =>
      if bool_decide (b = "%"%char) then
        match rest with
        | h :: l :: rest =>
            high ← to_digit16 h; low ← to_digit16 l;
            (byte_of (high * 16 + low) ::.) <$> percent_decode rest
        | _ => None
        end
      else (b ::.) <$> percent_decode rest
  end.

(** [split(c)]. *)
Fixpoint split_on (c : byte) (l : list byte) : list (list byte) :=
  match l with
  | [] => [[]]
  | b :: rest =>
      if bool_decide (b = c) then [] :: split_on c rest
      else match split_on c rest with
           | s :: ss => (b :: s) :: ss
           | [] => [[b]]
           end
  end.

Definition slash : byte := "/"%char.

Lemma to_digit16_range b d : to_digit16 b = Some d -> 0 <= d < 16 /\ b <> slash /\ b <> "%"%char.
Proof.
  unfold to_digit16, is_ascii_digit, in_range. intros Hd.
  repeat case_match; simplify_eq; bool_hyps;
    (split; [lia|split; intros ->; vm_compute in *; congruence]).
Qed.

Lemma split_on_nonempty c l : exists s ss, split_on c l = s :: ss.
Proof.
  induction l as [|b l (s & ss & IH)]; cbn; [by eexists _, _|].
  case_bool_decide; [by eexists _, _|]. rewrite IH. by eexists _, _.
Qed.

Lemma split_on_cons c b l : b <> c ->
  exists s ss, split_on c l = s :: ss /\ split_on c (b :: l) = (b :: s) :: ss.
Proof.
  intros. destruct (split_on_nonempty c l) as (s & ss & Hs). exists s, ss. split; [done|].
  cbn. rewrite bool_decide_eq_false_2 by done. by rewrite Hs.
Qed.

(** Induction over percent-encoded text. *)
Lemma encoding_ind (P : list byte -> Prop) :
  P [] ->
  (forall h l high low rest, to_digit16 h = Some high -> to_digit16 l = Some low ->
     forbidden_octet true (high * 16 + low) = false -> P rest -> P ("%"%char :: h :: l :: rest)) ->
  (forall b rest, b <> "%"%char -> P rest -> P (b :: rest)) ->
  forall l, valid_encoding l true = true -> P l.
Proof.
  intros H0 H3 H1. fix go 1. intros [|b l]; cbn; [done|].
  case_bool_decide; subst.
  - destruct l as [|h [|l rest]]; [done|done|].
    destruct (to_digit16 h) eqn:Hh, (to_digit16 l) eqn:Hl; try done.
    intros Hv. bool_hyps. eapply H3; eauto.
  - intros Hv. apply H1; [done|]. by apply go.
Qed.

(** A raw segment and its decoding; a decoding made of dots only is its own raw text. *)
Definition segment_decodes (s d : list byte) : Prop :=
  percent_decode s = Some d /\ (Forall (eq "."%char) d -> s = d).

Lemma forbidden_octet_not v c : 0 <= v < 256 -> forbidden_octet true v = false ->
  byte_val c ∈ path_delimiters -> byte_of v <> c.
Proof.
  unfold forbidden_octet. intros Hr Hf Hc <-. bool_hyps. cbn in *. bool_hyps.
  rewrite byte_val_of in Hc; done.
Qed.

Lemma valid_encoding_segments l : valid_encoding l true = true ->
  exists d, percent_decode l = Some d
    /\ Forall2 segment_decodes (split_on slash l) (split_on slash d)
    /\ (Forall (fun b => 32 <= byte_val b /\ byte_val b <> 127) l ->
        Forall (fun b => 32 <= byte_val b /\ byte_val b <> 127) d).
Proof.
  revert l. refine (encoding_ind _ _ _ _);
    [|intros h l high low rest H H0 H1 IHl|intros b rest Hn IHl].
  - exists []. cbn. repeat split; [|done]. constructor; [|constructor]. by split.
  - destruct IHl as (d & Hd & HF & Hc).
    apply to_digit16_range in H as Hh'. apply to_digit16_range in H0 as Hl'.
    destruct Hh' as (? & ? & ?), Hl' as (? & ? & ?).
    set (v := high * 16 + low) in *. assert (0 <= v < 256) by (subst v; lia).
    exists (byte_of v :: d). split_and!.
    + cbn. rewrite H, H0. cbn. by rewrite Hd.
    + assert (byte_of v <> slash) by (apply forbidden_octet_not; [done|done|apply (bool_decide_unpack _); vm_compute; exact I]).
      assert (byte_of v <> "."%char) by (apply forbidden_octet_not; [lia|done|apply (bool_decide_unpack _); vm_compute; exact I]).
      destruct (split_on_cons slash (byte_of v) d) as (s & ss & Hs & ->); [done|].
      destruct (split_on_cons slash l rest) as (s3 & ss3 & Hs3 & E3); [done|].
      destruct (split_on_cons slash h (l :: rest)) as (s2 & ss2 & Hs2 & E2); [done|].
      destruct (split_on_cons slash "%"%char (h :: l :: rest)) as (s1 & ss1 & Hs1 & ->); [done|].
      rewrite Hs2 in E3. rewrite E2 in Hs1. simplify_eq. rewrite Hs3, Hs in HF.
      apply Forall2_cons in HF as [[Hp _] HF]. constructor; [|done]. split.
      * cbn. rewrite H, H0. cbn. by rewrite Hp.
      * intros Hd'. by apply Forall_cons in Hd' as [? _].
    + rewrite !Forall_cons. intros (_ & _ & _ & Hr). split; [|by apply Hc].
      rewrite byte_val_of by done. unfold forbidden_octet in H1. bool_hyps. lia.
  - destruct IHl as (d & Hd & HF & Hc). exists (b :: d). split_and!.
    + cbn. rewrite bool_decide_eq_false_2 by done. by rewrite Hd.
    + destruct (decide (b = slash)) as [->|Hb].
      * cbn. constructor; [|done]. by split.
      * destruct (split_on_cons slash b d) as (s & ss & Hs & ->); [done|].
        destruct (split_on_cons slash b rest) as (s1 & ss1 & Hs1 & ->); [done|].
        rewrite Hs1, Hs in HF. apply Forall2_cons in HF as [[Hp Hd'] HF].
        constructor; [|done]. split.
        -- cbn. rewrite bool_decide_eq_false_2 by done. by rewrite Hp.
        -- intros [<- Hf]%Forall_cons. f_equal. by apply Hd'.
    + rewrite !Forall_cons. intros [? ?]. split; [done|by apply Hc].
Qed.

Section TargetProofs.
Context `{Urls}.

(** C40: the path of an accepted target is unambiguous under percent-decoding:
    it decodes, splitting the decoding at slashes gives the decodings of the raw
    segments, and a segment that decodes to dots is written as dots. The text
    that was parsed is ASCII, starts with [https://], holds no space, control
    character, backslash or fragment, and its URL has neither credentials nor
    port 0. *)
Theorem parsed_target_unambiguous input t :
  Target_parse input = Ok t ->
  (exists d, percent_decode (as_bytes (path t)) = Some d
     /\ Forall2 segment_decodes (split_on slash (as_bytes (path t))) (split_on slash d))
  /\ contains_double slash (as_bytes (path t)) = false
  /\ Forall (fun b => 32 < byte_val b < 127 /\ b <> "\"%char /\ b <> "#"%char) (as_bytes input)
  /\ str_starts_with input "https://" = true /\ slen input <= 16384
  /\ username (url t) = EmptyString /\ password (url t) = None /\ url_port (url t) <> Some 0.
Proof.
  unfold Target_parse. intros Hp. ok_inv Hp. subst t. cbn [path url]. unfold path; cbn [url].
  bool_hyps. match goal with H : (if _ then _ else _) = _ |- _ => rewrite <-H end.
  split_and!; try done.
  - edestruct valid_encoding_segments as (d & ? & ? & _); [eassumption|]. by exists d.
  - match goal with H : existsb _ _ = false |- _ => apply existsb_false in H; rename H into Hx end.
    match goal with H : str_is_ascii _ = true |- _ =>
      unfold str_is_ascii in H; apply forallb_Forall in H; rename H into Ha end.
    rewrite Forall_forall in *. intros b Hb. specialize (Hx b Hb). specialize (Ha b Hb).
    cbn in Hx. unfold is_ascii in Ha. bool_hyps. repeat split; (lia || done).
  - by apply eq_None_not_Some.
Qed.
End TargetProofs.

(** ** What validation guarantees *)

Section ProfileProofs.
Context `{Http, Urls}.
Context (to_writer : list Value -> list (list byte)).

(** An allowed header is canonical and is none the engine owns. *)
Definition allowed_name (name : string) : Prop :=
  HeaderName_from_bytes name = Some name /\ routing_header name = false
  /\ name <> "authorization".

(** A route of a validated profile with origin [o]. *)
Record valid_route (o : string) (r : Route) : Prop := {
  vr_method : route_method r ∈ methods;
  vr_request : 0 <> max_request_bytes r /\ max_request_bytes r <= body_limit;
  vr_response : 0 <> max_response_bytes r /\ max_response_bytes r <= body_limit;
  vr_target : exists t, origin t = o /\ path t = route_path r /\ query t = route_query r
    /\ exists input, Target_parse input = Ok t;
  vr_allowed : Forall allowed_name (allowed_headers r);
  vr_distinct : NoDup (allowed_headers r) }.

Lemma check_allowed_Ok seen names : check_allowed seen names = Ok tt ->
  Forall allowed_name names /\ NoDup names /\ Forall (fun n => n ∉ seen) names.
Proof.
  revert seen; induction names as [|n names IH]; intros seen Hc; cbn in Hc;
    [repeat split; constructor|].
  ok_inv Hc. apply IH in Hc as (Hf & Hd & Hs). apply ok_or_Ok in E. bool_hyps. subst v.
  rewrite NoDup_cons, !Forall_cons. rewrite Forall_forall in Hs. split_and!; try done.
  - intros Hin. apply Hs in Hin. set_solver.
  - apply Forall_forall. intros x Hx. apply Hs in Hx. set_solver.
Qed.

Lemma check_routes_Ok o seen rs : check_routes o seen rs = Ok tt ->
  Forall (valid_route o) rs /\ NoDup (map route_key rs)
  /\ Forall (fun k => k ∉ seen) (map route_key rs).
Proof.
  revert seen; induction rs as [|r rs IH]; intros seen Hc; cbn in Hc;
    [repeat split; constructor|].
  ok_inv Hc. apply IH in Hc as (Hf & Hd & Hs). bool_hyps. subst o.
  cbn [map]. rewrite NoDup_cons, !Forall_cons. rewrite Forall_forall in Hs.
  match goal with H : check_allowed _ _ = Ok ?u |- _ =>
    destruct u; apply check_allowed_Ok in H as (? & ? & _) end.
  split_and!; try done.
  - constructor; try done; [exists v; split_and!; eauto].
  - intros Hin. apply Hs in Hin. set_solver.
  - apply Forall_forall. intros x Hx. apply Hs in Hx. set_solver.
Qed.

(** A validated profile: the part that every later decision relies on. *)
Record valid_profile (p : ResourceProfile) : Prop := {
  vp_origin : exists t, Target_parse (profile_origin p) = Ok t /\ origin t = profile_origin p;
  vp_routes : routes p <> [] /\ len (routes p) <= 256;
  vp_route : Forall (valid_route (profile_origin p)) (routes p);
  vp_keys : NoDup (map route_key (routes p));
  vp_pins : forall pins, addresses p = Pinned pins -> valid_pins pins = true;
  vp_header : forall h, auth_header (auth p) = Some h ->
    HeaderName_from_bytes h = Some h /\ routing_header h = false
    /\ Forall (fun r => h ∉ allowed_headers r) (routes p) }.

Lemma check_credential_header_Ok p i h prefix :
  check_credential_header p i h prefix = Ok tt ->
  HeaderName_from_bytes h = Some h /\ routing_header h = false
  /\ Forall (fun r => h ∉ allowed_headers r) (routes p).
Proof.
  unfold check_credential_header. intros Hc. ok_inv Hc.
  apply ok_or_Ok in E. bool_hyps. subst v. split_and!; try done.
  match goal with H : existsb _ _ = false |- _ => apply existsb_false in H;
    eapply Forall_impl; [exact H|] end.
  intros r Hr. cbn in Hr. by bool_hyps.
Qed.

Lemma validate_valid p : validate to_writer p = Ok tt -> valid_profile p.
Proof.
  unfold validate. intros Hv. apply bind_Ok in Hv as (t & Ht & Hv).
  destruct (_ || _) eqn:Hb in Hv; [done|]. bool_hyps.
  apply bind_Ok in Hv as ([] & Hpins & Hv). apply bind_Ok in Hv as ([] & Hr & Hv).
  apply bind_Ok in Hv as ([] & Ha & Hv). apply check_routes_Ok in Hr as (? & ? & _).
  constructor; try done; [by exists t|..].
  - intros pins Hp. rewrite Hp in Hpins. by destruct (valid_pins pins).
  - intros h Hh. destruct (auth p); simplify_eq/=;
      by eapply check_credential_header_Ok.
Qed.

Lemma route_matches_key m t r :
  route_matches m t r = true <-> route_key r = (m, path t, query t).
Proof.
  unfold route_matches, route_key. rewrite !andb_true_iff, !bool_decide_eq_true.
  split; [by intros [[-> ->] ->]|by intros [= -> -> ->]].
Qed.

Lemma unique_key rs r r' :
  NoDup (map route_key rs) -> r ∈ rs -> r' ∈ rs -> route_key r = route_key r' -> r = r'.
Proof.
  induction rs as [|x rs IH]; cbn; [set_solver|].
  rewrite NoDup_cons, !elem_of_cons, list_elem_of_In, in_map_iff.
  setoid_rewrite <-list_elem_of_In.
  intros [Hx Hnd] [->|Hr] [->|Hr'] Hk; [done|..]; [| |by apply IH];
    exfalso; apply Hx; [exists r'|exists r]; done.
Qed.

Lemma find_route p m t r : NoDup (map route_key (routes p)) ->
  find_first (route_matches m t) (routes p) = Some r <->
  r ∈ routes p /\ route_key r = (m, path t, query t).
Proof.
  intros Hnd. split.
  - intros [? Hm]%find_first_Some. by rewrite <-route_matches_key.
  - intros [Hin Hk]. unfold find_first.
    destruct (List.find _ _) as [r'|] eqn:Hf.
    + apply find_some in Hf as [Hin' Hk']. apply route_matches_key in Hk'.
      f_equal. eapply unique_key; [done|by apply list_elem_of_In|done|congruence].
    + eapply find_none in Hf; [|by apply list_elem_of_In].
      apply route_matches_key in Hk. congruence.
Qed.

(** On a validated profile, [authorize] selects a route exactly when the
    target has the profile's origin and the route is the one enrolled for this
    method, path and query, with a body within its limit; a body beyond the
    limit of that route is [LimitExceeded], everything else is [PolicyDenied]. *)
Lemma authorize_exact p m t n : validate to_writer p = Ok tt ->
  let enrolled r := profile_origin p = origin t /\ r ∈ routes p
    /\ route_key r = (m, path t, query t) in
  (forall r, authorize p m t n = Ok r <-> enrolled r /\ n <= max_request_bytes r)
  /\ (authorize p m t n = fail LimitExceeded <->
      exists r, enrolled r /\ max_request_bytes r < n)
  /\ (authorize p m t n = fail PolicyDenied <-> forall r, ~ enrolled r).
Proof.
  intros Hv%validate_valid enrolled. pose proof (vp_keys _ Hv) as Hnd.
  pose proof (fun r => find_route p m t r Hnd) as Hfind.
  unfold authorize, enrolled. case_bool_decide as Ho; cbn [negb].
  2:{ split_and!; [intros r|..]; naive_solver. }
  destruct (find_first _ _) as [r|] eqn:Hf; cbn.
  - pose proof (proj1 (Hfind r) eq_refl) as [Hin Hk].
    assert (Heq : forall r', r' ∈ routes p -> route_key r' = (m, path t, query t) -> r' = r).
    { intros r' ? Hk'. assert (Some r = Some r') by (by apply Hfind). congruence. }
    destruct (max_request_bytes r <? n) eqn:Hn; bool_hyps.
    + split_and!; [intros r'|..].
      * split; [done|]. intros [(_ & ? & ?) ?]. rewrite (Heq r') in * by done. lia.
      * split; [|done]. intros _. by exists r.
      * split; [done|]. intros Hx. by destruct (Hx r).
    + split_and!; [intros r'|..].
      * split; [intros [= <-]; done|]. intros [(_ & ? & ?) ?]. by rewrite (Heq r').
      * split; [done|]. intros (r' & (_ & ? & ?) & ?). rewrite (Heq r') in * by done. lia.
      * split; [done|]. intros Hx. by destruct (Hx r).
  - assert (Hno : forall r, r ∈ routes p -> route_key r = (m, path t, query t) -> False).
    { intros r ? ?. assert (None = Some r) by (by apply Hfind). done. }
    split_and!; [intros r|..]; naive_solver.
Qed.

(** A header list that [authorize_headers] admits on a route of a validated
    profile never names the header that carries the profile's stored credential,
    nor [authorization], nor a routing header, under any spelling. *)
Lemma credential_header_reserved p r hs name value n :
  validate to_writer p = Ok tt -> r ∈ routes p -> authorize_headers r hs = Ok tt ->
  (name, value) ∈ hs -> HeaderName_from_bytes name = Some n ->
  auth_header (auth p) <> Some n /\ n <> "authorization" /\ routing_header n = false.
Proof.
  intros Hv%validate_valid Hr Ha Hin Hn. unfold authorize_headers in Ha.
  destruct (64 <? len hs); [done|].
  apply check_headers_Ok in Ha as (names & HF & _); [|lia].
  eapply list_elem_of_lookup_1 in Hin as [i Hi].
  destruct (Forall2_lookup_l _ _ _ _ _ HF Hi) as (m & _ & Hm & _ & _ & ? & ? & Hal).
  cbn in Hm. assert (m = n) as -> by congruence. split_and!; try done.
  intros Hh. destruct (vp_header _ Hv n Hh) as (_ & _ & Hf).
  rewrite Forall_forall in Hf. by apply (Hf r Hr).
Qed.
End ProfileProofs.

(** ** The whole configuration *)

Section CatalogProofs.
Context `{Http, Urls}.
Context (to_writer : list Value -> list (list byte)).

Lemma check_stores_Ok seen l out : check_stores seen l = Ok out ->
  Forall (fun s => valid_alias s = true) l /\ NoDup l /\ Forall (fun s => s ∉ seen) l
  /\ out = seen ∪ list_to_set l.
Proof.
  revert seen; induction l as [|s l IH]; intros seen Hc; cbn in Hc.
  { simplify_eq. split_and!; try constructor. set_solver. }
  ok_inv Hc. apply IH in Hc as (? & ? & Hs & ->). bool_hyps.
  rewrite NoDup_cons, !Forall_cons. rewrite Forall_forall in Hs.
  split_and!; try done; [|apply Forall_forall|set_solver].
  - intros Hin. apply Hs in Hin. set_solver.
  - intros x Hx. apply Hs in Hx. set_solver.
Qed.

Lemma check_profiles_Ok seen l out : check_profiles to_writer seen l = Ok out ->
  Forall (fun p => validate to_writer p = Ok tt) l /\ NoDup (map profile_id l)
  /\ Forall (fun k => k ∉ seen) (map profile_id l)
  /\ out = seen ∪ list_to_set (map profile_id l).
Proof.
  revert seen; induction l as [|p l IH]; intros seen Hc; cbn in Hc.
  { simplify_eq. split_and!; try constructor. set_solver. }
  ok_inv Hc. apply IH in Hc as (? & ? & Hs & ->). bool_hyps. destruct v.
  cbn [map]. rewrite NoDup_cons, !Forall_cons. rewrite Forall_forall in Hs.
  split_and!; try done; [|apply Forall_forall|set_solver].
  - intros Hin. apply Hs in Hin. set_solver.
  - intros x Hx. apply Hs in Hx. set_solver.
Qed.

Lemma check_items_Ok seen ps ss l : check_items seen ps ss l = Ok tt ->
  Forall (fun i => item_profile i ∈ ps /\ store (credential i) ∈ ss) l
  /\ NoDup (map item_id l) /\ Forall (fun k => k ∉ seen) (map item_id l).
Proof.
  revert seen; induction l as [|i l IH]; intros seen Hc; cbn [check_items] in Hc;
    [repeat split; constructor|].
  destruct (item_invalid seen ps ss i) eqn:Hi; [done|].
  apply IH in Hc as (? & ? & Hs). unfold item_invalid in Hi. bool_hyps.
  cbn [map]. rewrite NoDup_cons, !Forall_cons. rewrite Forall_forall in Hs.
  split_and!; try done; [|apply Forall_forall].
  - intros Hin. apply Hs in Hin. set_solver.
  - intros x Hx. apply Hs in Hx. set_solver.
Qed.

Lemma elem_of_map {A B} (f : A -> B) l y : y ∈ map f l <-> exists x, y = f x /\ x ∈ l.
Proof. rewrite list_elem_of_In, in_map_iff. setoid_rewrite <-list_elem_of_In. naive_solver. Qed.

Lemma elem_of_filter_b {A} (f : A -> bool) l x : x ∈ List.filter f l <-> x ∈ l /\ f x = true.
Proof. by rewrite !list_elem_of_In, filter_In. Qed.

Lemma NoDup_map_inj {A B} (f : A -> B) l x y :
  NoDup (map f l) -> x ∈ l -> y ∈ l -> f x = f y -> x = y.
Proof.
  induction l as [|z l IH]; cbn; [set_solver|].
  rewrite NoDup_cons, elem_of_map, !elem_of_cons. naive_solver.
Qed.

Lemma mcp_profiles_spec ps p : NoDup (map profile_id ps) -> p ∈ ps ->
  profile_id p ∈ mcp_profiles ps <-> is_mcp (auth p) = true.
Proof.
  intros Hnd Hp. unfold mcp_profiles. rewrite elem_of_list_to_set, elem_of_map.
  setoid_rewrite elem_of_filter_b. split.
  - intros (q & Hid & Hq & Hm). by rewrite (NoDup_map_inj profile_id ps p q).
  - intros Hm. by exists p.
Qed.

(** Every route of a validated MCP profile has the path of the first one. *)
Lemma mcp_single_endpoint p r : validate to_writer p = Ok tt -> is_mcp (auth p) = true ->
  r ∈ routes p -> exists r0, head (routes p) = Some r0 /\ route_path r = route_path r0.
Proof.
  unfold validate. intros Hv Hm Hr. apply bind_Ok in Hv as (t & Ht & Hv).
  destruct (_ || _) eqn:Hb in Hv; [done|]. clear Hb.
  apply bind_Ok in Hv as ([] & _ & Hv). apply bind_Ok in Hv as ([] & _ & Hv).
  apply bind_Ok in Hv as ([] & _ & Hv). destruct (auth p); try done.
  unfold validate_mcp in Hv. apply bind_Ok in Hv as ([] & _ & Hv).
  destruct (_ || _) eqn:Hb in Hv; [done|]. bool_hyps.
  destruct (routes p) as [|r0 rs] eqn:Hrs; [set_solver|]. exists r0. split; [done|].
  match goal with H : existsb (fun r => negb (mcp_route _ _)) _ = false |- _ =>
    apply existsb_false in H; rewrite Forall_forall in H; specialize (H r Hr) end.
  unfold mcp_route in *. bool_hyps. by cbn in *.
Qed.

(** A validated configuration has unique item, profile and store names; each
    item names an existing profile and store, each credential-bearing profile has
    its item, and remote-tool profiles are isolated: no raw profile serves their
    endpoint, no item of a raw profile holds a credential of theirs. *)
Lemma catalog_isolation c ps stores rev :
  catalog_validate to_writer c ps stores rev = Ok tt ->
  (NoDup stores /\ NoDup (map profile_id ps) /\ NoDup (map item_id (items c)))
  /\ Forall (fun p => validate to_writer p = Ok tt) ps
  /\ (forall i, i ∈ items c -> store (credential i) ∈ stores
        /\ exists p, p ∈ ps /\ profile_id p = item_profile i)
  /\ (forall p id, p ∈ ps -> auth_item (auth p) = Some id ->
        exists i, i ∈ items c /\ item_id i = id /\ item_profile i = profile_id p)
  /\ (forall p q, p ∈ ps -> q ∈ ps -> is_mcp (auth p) = true -> is_mcp (auth q) = false ->
        (forall r s, r ∈ routes p -> s ∈ routes q ->
           (profile_origin p, route_path r) <> (profile_origin q, route_path s))
        /\ (forall i j, i ∈ items c -> j ∈ items c -> item_profile i = profile_id p ->
           item_profile j = profile_id q -> credential i <> credential j)).
Proof.
  unfold catalog_validate. intros Hv. destruct (_ || _) in Hv; [done|].
  apply bind_Ok in Hv as (sids & Hs & Hv). apply bind_Ok in Hv as (pids & Hp & Hv).
  apply bind_Ok in Hv as ([] & Hi & Hv).
  apply check_stores_Ok in Hs as (_ & Hs & _ & ->).
  apply check_profiles_Ok in Hp as (Hval & Hp & _ & ->).
  apply check_items_Ok in Hi as (Href & Hi & _).
  destruct (forallb _ _) eqn:Hb in Hv; [|done]. cbn in Hv.
  apply forallb_Forall in Hb. rewrite Forall_forall in Hb. rewrite Forall_forall in Href.
  split_and!; try done.
  - intros i Hin. apply Href in Hin as [H1 H2].
    rewrite elem_of_union, elem_of_list_to_set in H1, H2. rewrite elem_of_map in H1.
    split; [set_solver|]. destruct H1 as [?|(p & ? & ?)]; [set_solver|]. by exists p.
  - intros p id Hin Hid. apply Hb in Hin. unfold item_bound in Hin. rewrite Hid in Hin.
    apply existsb_Exists, Exists_exists in Hin as (i & ? & ?). bool_hyps. by exists i.
  - intros p q Hpin Hqin Hpm Hqm. unfold validate_mcp_bindings in Hv.
    destruct (existsb _ _) eqn:H1 in Hv; [done|].
    destruct (existsb _ _) eqn:H2 in Hv; [done|].
    apply existsb_false in H1, H2. rewrite Forall_forall in H1. rewrite Forall_forall in H2.
    assert (Hpid : profile_id p ∈ mcp_profiles ps) by by apply mcp_profiles_spec.
    assert (Hqid : profile_id q ∉ mcp_profiles ps).
    { rewrite mcp_profiles_spec by done. by rewrite Hqm. }
    split.
    + intros r s Hr Hss Heq.
      assert (Hq : existsb (fun r => bool_decide
        ((profile_origin q, route_path r) ∈ endpoints ps)) (routes q) = false).
      { apply H1, elem_of_filter_b. split; [done|]. by rewrite bool_decide_eq_false_2. }
      apply existsb_false in Hq. rewrite Forall_forall in Hq. specialize (Hq s Hss).
      cbn in Hq. apply bool_decide_eq_false in Hq. apply Hq. rewrite <-Heq.
      rewrite Forall_forall in Hval.
      destruct (mcp_single_endpoint p r) as (r0 & Hh & Hpath); [by apply Hval|done..|].
      unfold endpoints. rewrite elem_of_list_to_set, list_elem_of_omap. exists p. split.
      * apply elem_of_filter_b. split; [done|]. by rewrite bool_decide_eq_true_2.
      * rewrite Hh. cbn. by rewrite Hpath.
    + intros i j Hii Hjj Hpi Hqj Hc.
      assert (Hj : bool_decide (item_key j ∈ mcp_keys c ps) = false).
      { apply H2, elem_of_filter_b. split; [done|]. by rewrite Hqj, bool_decide_eq_false_2. }
      apply bool_decide_eq_false in Hj. apply Hj. unfold mcp_keys, item_key.
      rewrite <-Hc, elem_of_list_to_set, elem_of_map. exists i. split; [done|].
      apply elem_of_filter_b. split; [done|]. by rewrite Hpi, bool_decide_eq_true_2.
Qed.
End CatalogProofs.
