(* ===== verification/Observe.v ===== *)
(** * Observation events ([aap-observe/src/lib.rs], [subscription.rs], [recorder.rs])

    The sanitized event data model, a subscriber's scope and the bounds of a
    page; the recorder and the flows that use them are in [Recorder] and [Flow]. *)
From S2P Require Import Prelude Protocol Ids.

(** ** Events *)

(** `aap-observe/src/lib.rs:34-45`, `Direction` and `View` *)
Inductive Direction := Outbound | Inbound.
Inductive View := Agent | Upstream.
#[export] Instance Direction_eq_dec : EqDecision Direction.
Proof. solve_decision. Defined.
#[export] Instance View_eq_dec : EqDecision View.
Proof. solve_decision. Defined.

(** `aap-observe/src/lib.rs:89-95`, `Decision` *)
Inductive Decision := Allow | Deny | Pending.

(** `aap-observe/src/lib.rs:46-88`, `Data` *)
Inductive Data :=
  | FlowOpen
  | FlowClose (complete : bool) (outbound_bytes inbound_bytes : Z) (reason : option ErrorCode)
  | PolicyDecision (decision : Decision) (reason : option ErrorCode)
  | ConnectAdmission (authority : string)
  | RequestStart (method target : string) (headers : list (string * string))
  | ResponseStart (status : Z) (headers : list (string * string))
  | ContentChunk (offset : Z) (body_base64 : string) (media_type : option string) (encoding : string)
  | ContentEnd (complete : bool) (bytes : Z) (reason : option ErrorCode)
  | AuthTransition (item_id : string) (inserted : bool).

(** `aap-observe/src/flow.rs:4-28`, `Protocol`, `Inspection` and `Redaction` *)
Inductive Protocol := Http1 | JsonRpc | Tcp | Tls | Control.
Inductive Inspection := Parsed | PlaintextBytes | Opaque | MetadataOnly.
Inductive Redaction := Complete | Transformed | Withheld | Truncated.
#[export] Instance Inspection_eq_dec : EqDecision Inspection.
Proof. solve_decision. Defined.

(** `aap-observe/src/lib.rs:18-33`, `Event` *)
Record Event := mkEvent {
  session_id : string;
  event_request_id : option string;
  parent_request_id : option string;
  flow_id : string;
  stream_id : string;
  sequence : Z;
  protocol : Protocol;
  inspection : Inspection;
  redaction : Redaction;
  policy_version : Z;
  direction : Direction;
  view : View;
  data : Data }.

(** `aap-observe/src/lib.rs:96-103`, `Record` *)
Record Record_ := mkRecord {
  record_schema_version : Z;
  daemon_epoch : string;
  event_id : Z;
  time_unix_ms : Z;
  event : Event }.

(** `aap-observe/src/lib.rs:104-121`, `Cursor`, `Gap` and `Batch` *)
Record Cursor := mkCursor { epoch : string; after : Z }.
Record Gap := mkGap { gap_first : Z; gap_last : Z; previous_epoch : bool }.
Record Batch := mkBatch { records : list Record_; gap : option Gap; cursor : Cursor }.

(** ** Scopes *)

(** `aap-observe/src/subscription.rs:4-9`, `ContentClass` *)
Inductive ContentClass := Metadata | Content.
#[export] Instance ContentClass_eq_dec : EqDecision ContentClass.
Proof. solve_decision. Defined.

(** `aap-observe/src/subscription.rs:10-22`, `Scope` and `SubscriptionLimits` *)
Record Scope := mkScope {
  sessions : list string; views : list View; classes : list ContentClass }.
Record SubscriptionLimits := mkLimits { limit_events : Z; limit_bytes : Z }.

(** `aap-observe/src/subscription.rs:246-261`, `Scope::permits` *)
Definition class_of (d : Data) : ContentClass :=
  match d with ContentChunk _ _ _ _ => Content | _ => Metadata end.
Definition permits (s : Scope) (e : Event) : bool :=
  bool_decide (session_id e ∈ sessions s)
  && bool_decide (view e ∈ views s)
  && bool_decide (class_of (data e) ∈ classes s).

(** [slice.first() == slice.get(1)]. *)
Definition first_two_equal {A} `{EqDecision A} (l : list A) : bool :=
  bool_decide (l !! 0%nat = l !! 1%nat).

(** `aap-observe/src/recorder.rs:447-452`, `page_bounds` *)
Definition page_bounds (limit max_bytes : Z) : Result unit :=
  if (limit =? 0) || (1024 <? limit)
     || negb ((512 <=? max_bytes) && (max_bytes <=? 64 * 1024 * 1024 + 2048))
  then fail RequestInvalid
  else Ok tt.

(** `aap-observe/src/recorder.rs:453-485`, `event_size` *)
Definition headers_size (headers : list (string * string)) : Z :=
  foldr (fun h n => slen h.1 + slen h.2 + n) 0 headers.
Definition event_size (e : Event) : Z :=
  slen (session_id e)
  + from_option slen 0 (event_request_id e)
  + from_option slen 0 (parent_request_id e)
  + slen (flow_id e)
  + slen (stream_id e)
  + match data e with
    | ConnectAdmission authority => slen authority
    | ContentChunk _ body media encoding => slen body + from_option slen 0 media + slen encoding
    | RequestStart method target headers => slen method + slen target + headers_size headers
    | ResponseStart _ headers => headers_size headers
    | AuthTransition item _ => slen item
    | _ => 0
    end.

Section Ids.
Context `{Base64}.

(** `aap-observe/src/subscription.rs:222-245`, `Scope::validate` *)
Definition Scope_validate (s : Scope) : Result unit :=
  if bool_decide (sessions s = [])
     || (64 <? len (sessions s))
     || existsb (fun id => negb (valid_id id 16)) (sessions s)
     || negb (all_distinct (sessions s))
     || bool_decide (views s = [])
     || (2 <? len (views s))
     || first_two_equal (views s)
     || bool_decide (classes s = [])
     || (2 <? len (classes s))
     || first_two_equal (classes s)
  then fail RequestInvalid
  else Ok tt.
End Ids.
