(* ===== verification/Recorder.v ===== *)
(** * The bounded recorder ([aap-observe/src/recorder.rs], [subscription.rs])

    One shared state behind a mutex: retained records in event order, the
    owner's queue, sixteen subscriber slots, byte counters. Every public method
    is one critical section, hence one function on [State]. [BTreeMap<u64, _>] is
    the list of its entries in key order and [BTreeSet<u64>] a [gset]; a mutex is
    poisoned only by a panic, and the invariant shows that no index or
    subtraction of the recorder panics. *)
From S2P Require Import Prelude Protocol Ids Observe.

(** ** State *)

(** `aap-observe/src/recorder.rs:20-26`, `Stored`; [claims] is a [u16] mask *)
Record Stored := mkStored {
  record : Record_; stored_bytes : Z; required : bool; owned : bool; claims : Z }.

(** `aap-observe/src/recorder.rs:27-35`, `Subscriber` *)
Record Subscriber := mkSubscriber {
  sub_id : string;
  scope : Scope;
  limits : SubscriptionLimits;
  sub_next : Z;
  issued : Z;
  queue : list (Z * Z);
  sub_bytes : Z }.

(** `aap-observe/src/recorder.rs:8-19`, `State` *)
Record State := mkState {
  st_epoch : string;
  next : Z;
  stored : list (Z * Stored);
  owner : list Z;
  subscribers : list (option Subscriber);
  session_bytes : gmap string Z;
  bytes : Z;
  max_events : Z;
  max_bytes : Z;
  available : bool }.

Definition set_next (st : State) (n : Z) : State :=
  mkState (st_epoch st) n (stored st) (owner st) (subscribers st) (session_bytes st) (bytes st)
    (max_events st) (max_bytes st) (available st).
Definition set_owner (st : State) (o : list Z) : State :=
  mkState (st_epoch st) (next st) (stored st) o (subscribers st) (session_bytes st) (bytes st)
    (max_events st) (max_bytes st) (available st).
Definition set_subscribers (st : State) (s : list (option Subscriber)) : State :=
  mkState (st_epoch st) (next st) (stored st) (owner st) s (session_bytes st) (bytes st)
    (max_events st) (max_bytes st) (available st).
Definition set_stored (st : State) (r : list (Z * Stored)) : State :=
  mkState (st_epoch st) (next st) r (owner st) (subscribers st) (session_bytes st) (bytes st)
    (max_events st) (max_bytes st) (available st).
Definition set_accounts (st : State) (r : list (Z * Stored)) (sb : gmap string Z) (b : Z) : State :=
  mkState (st_epoch st) (next st) r (owner st) (subscribers st) sb b
    (max_events st) (max_bytes st) (available st).

(** [BTreeMap::get]. *)
Fixpoint get (k : Z) (m : list (Z * Stored)) : option Stored :=
  match m with
  | [] => None
  | (k', e) :: rest => if decide (k = k') then Some e else get k rest
  end.
(** The size of an entry the code indexes; the index panics on a missing entry. *)
Definition size_of (m : list (Z * Stored)) (k : Z) : Z := from_option stored_bytes 0 (get k m).

Definition stored_session (e : Stored) : string := session_id (event (record e)).

(** [1 << index] and the [u16] complement. *)
Definition slot_bit (index : nat) : Z := Z.shiftl 1 (Z.of_nat index).
Definition clear_slot (mask : Z) (index : nat) : Z := Z.land mask (Z.lxor 65535 (slot_bit index)).
Definition has_slot (mask : Z) (index : nat) : bool := negb (Z.land mask (slot_bit index) =? 0).

Definition slots : list nat := seq 0 16.

(** ** Releasing records *)

(** `aap-observe/src/recorder.rs:82-92`, `State::discard` *)
Definition discard (source : Z) (st : State) : State :=
  match get source (stored st) with
  | None => st
  | Some entry =>
      let session := stored_session entry in
      let sb :=
        match session_bytes st !! session with
        | Some b =>
            if b - stored_bytes entry =? 0 then delete session (session_bytes st)
            else <[ session := b - stored_bytes entry ]> (session_bytes st)
        | None => session_bytes st
        end in
      set_accounts st (List.filter (fun r => negb (r.1 =? source)) (stored st)) sb
        (bytes st - stored_bytes entry)
  end.

(** [queue.retain(..)]: drop the queued [sources], giving their bytes back. *)
Definition retain_queue (m : list (Z * Stored)) (sources : gset Z) (s : Subscriber) : Subscriber :=
  mkSubscriber (sub_id s) (scope s) (limits s) (sub_next s) (issued s)
    (List.filter (fun q => negb (bool_decide (q.2 ∈ sources))) (queue s))
    (sub_bytes s
     - foldr (fun q n => size_of m q.2 + n) 0
         (List.filter (fun q => bool_decide (q.2 ∈ sources)) (queue s))).

Definition retain_owner (sources : gset Z) (st : State) : State :=
  set_owner st (List.filter (fun k => negb (bool_decide (k ∈ sources))) (owner st)).

(** Replace an entry in place ([get_mut]). *)
Definition update (k : Z) (e : Stored) (m : list (Z * Stored)) : list (Z * Stored) :=
  map (fun r => if r.1 =? k then (r.1, e) else r) m.

Definition clear_claim (subscriber : option nat) (e : Stored) : Stored :=
  match subscriber with
  | Some index => mkStored (record e) (stored_bytes e) (required e) (owned e) (clear_slot (claims e) index)
  | None => mkStored (record e) (stored_bytes e) (required e) false (claims e)
  end.
Definition unclaimed (e : Stored) : bool := negb (owned e) && (claims e =? 0).

(** One source of the loop of [release]. *)
Definition release_source (subscriber : option nat) (source : Z) (st : State) : State :=
  match get source (stored st) with
  | None => st
  | Some entry =>
      let entry := clear_claim subscriber entry in
      let st := set_stored st (update source entry (stored st)) in
      if unclaimed entry then discard source st else st
  end.

(** `aap-observe/src/recorder.rs:37-65`, `State::release` *)
Definition release (sources : gset Z) (subscriber : option nat) (st : State) : State :=
  let st :=
    match subscriber with
    | Some index =>
        set_subscribers st
          (alter (fmap (retain_queue (stored st) sources)) index (subscribers st))
    | None => retain_owner sources st
    end in
  foldr (release_source subscriber) st (elements sources).

(** `aap-observe/src/recorder.rs:66-81`, `State::remove` *)
Definition remove (sources : gset Z) (st : State) : State :=
  let st := retain_owner sources st in
  let st := set_subscribers st
    (map (fmap (retain_queue (stored st) sources)) (subscribers st)) in
  foldr discard st (elements sources).

(** ** Recording *)

(** One event's delivery identities: the new slots, and for each slot the
    identity it selected; [None] when a counter would overflow. *)
Fixpoint assign (e : Event) (subs : list (option Subscriber))
    : list (option Subscriber) * option (list (option Z)) :=
  match subs with
  | [] => ([], Some [])
  | Some s :: rest =>
      if permits (scope s) e then
        match checked_add (sub_next s) 1 with
        | None => (Some s :: rest, None)
        | Some n =>
            let s' := mkSubscriber (sub_id s) (scope s) (limits s) n (issued s) (queue s) (sub_bytes s) in
            let (rest, selected) := assign e rest in
            (Some s' :: rest, (Some (sub_next s) ::.) <$> selected)
        end
      else let (rest, selected) := assign e rest in (Some s :: rest, (None ::.) <$> selected)
  | None :: rest => let (rest, selected) := assign e rest in (None :: rest, (None ::.) <$> selected)
  end.

Fixpoint assign_all (events : list Event) (subs : list (option Subscriber))
    : list (option Subscriber) * option (list (list (option Z))) :=
  match events with
  | [] => (subs, Some [])
  | e :: rest =>
      match assign e subs with
      | (subs, None) => (subs, None)
      | (subs, Some selected) =>
          let (subs, deliveries) := assign_all rest subs in
          (subs, (selected ::.) <$> deliveries)
      end
  end.

(** The claims mask of an event: one bit per selected slot. *)
Fixpoint claims_mask (index : nat) (selected : list (option Z)) : Z :=
  match selected with
  | [] => 0
  | d :: rest =>
      Z.lor (match d with Some _ => slot_bit index | None => 0 end) (claims_mask (S index) rest)
  end.

Definition record_limit : Z := 128 * 1024.
Definition batch_limit : Z := 256 * 1024.
Definition session_limit : Z := 8 * 1024 * 1024.

(** Restore the delivery counters of a rejected commit. *)
Definition restore (subs previous : list (option Subscriber)) : list (option Subscriber) :=
  zip_with (fun s p =>
    match s, p with
    | Some s, Some p =>
        Some (mkSubscriber (sub_id s) (scope s) (limits s) (sub_next p) (issued s) (queue s) (sub_bytes s))
    | s, _ => s
    end) subs previous.

(** What the additions loop computes, or that a bound refuses the batch. *)
Inductive planned (A : Type) :=
  | Plan (plan : A)
  | Refuse
  | Broken.
Arguments Plan {A}. Arguments Refuse {A}. Arguments Broken {A}.

(** Whether the projected totals are within the budgets. *)
Definition fits (st : State) (bytes count : Z) (sessions : gmap string Z) : bool :=
  (bytes <=? max_bytes st) && (count <=? max_events st)
  && forallb (fun b => b <=? session_limit) (map snd (map_to_list sessions)).

Section Record.
Context `{Base64}.
(** The length of [serde_json::to_vec] of a record. *)
Context (record_size : Record_ -> option Z).

(** The loop that builds the records of a batch. *)
Fixpoint build (st : State) (required : bool) (time first : Z) (added : Z)
    (projected : gmap string Z) (events : list Event) (deliveries : list (list (option Z)))
    : planned (list Stored * Z * gmap string Z) :=
  match events, deliveries with
  | e :: events, selected :: deliveries =>
      if negb (valid_id (session_id e) 16) || (record_limit <? event_size e) then Refuse
      else
        let r := mkRecord 1 (st_epoch st) first time e in
        match record_size r with
        | None => Broken
        | Some b =>
            let added := added + b in
            if (record_limit <? b) || (batch_limit <? added) || (max_bytes st <? added)
            then Refuse
            else
              let projected := <[ session_id e := default 0 (projected !! session_id e) + b ]> projected in
              let s := mkStored r b required true (claims_mask 0 selected) in
              match build st required time (first + 1) added projected events deliveries with
              | Plan (more, added, projected) => Plan (s :: more, added, projected)
              | other => other
              end
        end
  | _, _ => Plan ([], added, projected)
  end.

(** The eviction loop over one subscriber's queue: whether the update is
    accepted, and the sources to drop. *)
Fixpoint plan_queue (m : list (Z * Stored)) (required_ : bool) (lim : SubscriptionLimits)
    (count total : Z) (drops : gset Z) (queue : list (Z * Z)) : bool * gset Z :=
  match queue with
  | [] => (true, drops)
  | (_, source) :: rest =>
      if (count <=? limit_events lim) && (total <=? limit_bytes lim) then (true, drops)
      else if required_ || from_option required false (get source m) then (false, drops)
      else plan_queue m required_ lim (count - 1) (total - size_of m source)
             ({[ source ]} ∪ drops) rest
  end.

Definition drop_claim (index : nat) (e : Stored) : Stored :=
  mkStored (record e) (stored_bytes e) (required e) (owned e) (clear_slot (claims e) index).
Definition unselect (index : nat) (selected : list (option Z)) : list (option Z) :=
  <[ index := None ]> selected.

(** The loop over the subscriber slots. *)
Fixpoint plan_subscribers (m : list (Z * Stored)) (required_ : bool) (index : nat)
    (subs : list (option Subscriber)) (additions : list Stored)
    (deliveries : list (list (option Z)))
    : option (list Stored * list (list (option Z)) * list (gset Z)) :=
  match subs with
  | [] => Some (additions, deliveries, [])
  | None :: rest =>
      '(a, d, drops) ← plan_subscribers m required_ (S index) rest additions deliveries;
      Some (a, d, ∅ :: drops)
  | Some s :: rest =>
      let chosen := List.filter (fun e => has_slot (claims e) index) additions in
      let selected := len chosen in
      let added := foldr (fun e n => stored_bytes e + n) 0 chosen in
      if selected =? 0 then
        '(a, d, drops) ← plan_subscribers m required_ (S index) rest additions deliveries;
        Some (a, d, ∅ :: drops)
      else
        let '(accepted, dropped) :=
          if (selected <=? limit_events (limits s)) && (added <=? limit_bytes (limits s))
          then plan_queue m required_ (limits s) (len (queue s) + selected)
                 (sub_bytes s + added) ∅ (queue s)
          else (false, ∅) in
        if accepted then
          '(a, d, drops) ← plan_subscribers m required_ (S index) rest additions deliveries;
          Some (a, d, dropped :: drops)
        else if required_ then None
        else
          '(a, d, drops) ← plan_subscribers m required_ (S index) rest
            (map (drop_claim index) additions) (map (unselect index) deliveries);
          Some (a, d, ∅ :: drops)
  end.

(** Take one record out of the projected totals. *)
Definition evict (e : Stored) (totals : Z * Z * gmap string Z) : Z * Z * gmap string Z :=
  let '(b, c, s) := totals in
  (b - stored_bytes e, c - 1,
   alter (fun n => n - stored_bytes e) (stored_session e) s).

(** Records nobody will hold once the local drops are released. *)
Definition abandoned (local : list (gset Z)) (source : Z) (e : Stored) : bool :=
  negb (owned e)
  && forallb (fun index => negb (has_slot (claims e) index)
               || bool_decide (source ∈ default ∅ (local !! index))) slots.

Fixpoint drop_abandoned (local : list (gset Z)) (records : list (Z * Stored))
    (drops : gset Z) (totals : Z * Z * gmap string Z) : gset Z * (Z * Z * gmap string Z) :=
  match records with
  | [] => (drops, totals)
  | (source, e) :: rest =>
      if abandoned local source e
      then drop_abandoned local rest ({[ source ]} ∪ drops) (evict e totals)
      else drop_abandoned local rest drops totals
  end.

(** Evict from the oldest record until the batch fits; [None]: a required
    record, or a required batch, would be lost. *)
Fixpoint drop_oldest (st : State) (required_ : bool) (records : list (Z * Stored))
    (drops : gset Z) (totals : Z * Z * gmap string Z)
    : option (gset Z * (Z * Z * gmap string Z)) :=
  match records with
  | [] => Some (drops, totals)
  | (source, e) :: rest =>
      let '(b, c, s) := totals in
      if fits st b c s then Some (drops, totals)
      else if bool_decide (source ∈ drops) then drop_oldest st required_ rest drops totals
      else if required_ || required e then None
      else drop_oldest st required_ rest ({[ source ]} ∪ drops) (evict e totals)
  end.

(** One addition: into the queues that selected it, the totals and the owner's queue. *)
Fixpoint enqueue (source b : Z) (selected : list (option Z)) (subs : list (option Subscriber))
    : list (option Subscriber) :=
  match selected, subs with
  | Some d :: selected, Some s :: subs =>
      Some (mkSubscriber (sub_id s) (scope s) (limits s) (sub_next s) (issued s)
              (queue s ++ [(d, source)]) (sub_bytes s + b))
      :: enqueue source b selected subs
  | _ :: selected, s :: subs => s :: enqueue source b selected subs
  | [], subs => subs
  | _, [] => []
  end.

(** [BTreeMap::insert]. *)
Fixpoint store (k : Z) (e : Stored) (m : list (Z * Stored)) : list (Z * Stored) :=
  match m with
  | [] => [(k, e)]
  | (k', e') :: rest =>
      if k <? k' then (k, e) :: m
      else if k =? k' then (k, e) :: rest
      else (k', e') :: store k e rest
  end.

Definition append (entry : Stored) (selected : list (option Z)) (st : State) : State :=
  let source := event_id (record entry) in
  let session := stored_session entry in
  mkState (st_epoch st) (next st) (store source entry (stored st)) (owner st ++ [source])
    (enqueue source (stored_bytes entry) selected (subscribers st))
    (<[ session := default 0 (session_bytes st !! session) + stored_bytes entry ]> (session_bytes st))
    (bytes st + stored_bytes entry) (max_events st) (max_bytes st) (available st).

Fixpoint append_all (additions : list Stored) (deliveries : list (list (option Z))) (st : State)
    : State :=
  match additions, deliveries with
  | entry :: additions, selected :: deliveries =>
      append_all additions deliveries (append entry selected st)
  | _, _ => st
  end.

(** Release each slot's local drops. *)
Fixpoint release_locals (index : nat) (local : list (gset Z)) (st : State) : State :=
  match local with
  | [] => st
  | sources :: rest =>
      release_locals (S index) rest
        (if bool_decide (sources = ∅) then st else release sources (Some index) st)
  end.

(** The plan of a batch, made before anything but the counters changed: the
    additions, their deliveries, the local and the global drops. *)
Definition plan_batch (st : State) (required_ : bool) (time first : Z) (events : list Event)
    (deliveries : list (list (option Z)))
    : planned (list Stored * list (list (option Z)) * list (gset Z) * gset Z) :=
  match build st required_ time first 0 (session_bytes st) events deliveries with
  | Refuse => Refuse
  | Broken => Broken
  | Plan (additions, added, projected) =>
      match plan_subscribers (stored st) required_ 0 (subscribers st) additions deliveries with
      | None => Refuse
      | Some (additions, deliveries, local) =>
          let totals := (bytes st + added, len (stored st) + len additions, projected) in
          let (drops, totals) := drop_abandoned local (stored st) ∅ totals in
          match drop_oldest st required_ (stored st) drops totals with
          | None => Refuse
          | Some (drops, (b, c, s)) =>
              if fits st b c s then Plan (additions, deliveries, local, drops) else Refuse
          end
      end
  end.

Definition apply_plan (additions : list Stored) (deliveries : list (list (option Z)))
    (local : list (gset Z)) (drops : gset Z) (st : State) : State :=
  let st := release_locals 0 local st in
  let st := if bool_decide (drops = ∅) then st else remove drops st in
  append_all additions deliveries st.

(** `aap-observe/src/recorder.rs:133-361`, `Recorder::record_batch_with`: [commit]
    is the caller's callback on its own state, [now] the system clock *)
Definition record_batch_with {S : Type} (st : State) (events : list Event) (required_ : bool)
    (now : option Z) (commit : S -> S * Result unit) (s : S) : State * S * Result unit :=
  if bool_decide (events = []) || (16 <? len events) then (st, s, fail RequestInvalid)
  else
    let first := next st in
    match checked_add first (len events) with
    | None => (st, s, fail ObservationUnavailable)
    | Some n =>
        let previous := subscribers st in
        let (subs, deliveries) := assign_all events previous in
        let counted := set_subscribers (set_next st n) subs in
        (* the caller's commit, which undoes the counters when it rejects *)
        let run (accepted : State -> State) : State * S * Result unit :=
          match commit s with
          | (s, Ok _) => (accepted counted, s, Ok tt)
          | (s, Err e) =>
              (set_subscribers (set_next counted first) (restore subs previous), s, Err e)
          end in
        let unavailable :=
          if required_ then (counted, s, fail ObservationUnavailable) else run (fun st => st) in
        match deliveries with
        | None => (counted, s, fail ObservationUnavailable)
        | Some deliveries =>
            if negb (available st) || (max_events st <? len events) then unavailable
            else
              match now with
              | None => (counted, s, fail ObservationUnavailable)
              | Some time =>
                  match plan_batch counted required_ time first events deliveries with
                  | Broken => (counted, s, fail ObservationUnavailable)
                  | Refuse => unavailable
                  | Plan (additions, deliveries, local, drops) =>
                      run (apply_plan additions deliveries local drops)
                  end
              end
        end
    end.

(** `aap-observe/src/recorder.rs:130-132`, `Recorder::record_batch` *)
Definition record_batch (st : State) (events : list Event) (required_ : bool) (now : option Z)
    : State * Result unit :=
  let '(st, _, r) := record_batch_with st events required_ now (fun s => (s, Ok tt)) tt in (st, r).

(** `aap-observe/src/recorder.rs:101-123`, `Recorder::new` *)
Definition new (epoch : string) (max_events max_bytes : Z) : Result State :=
  if negb (valid_id epoch 16)
     || (max_events =? 0)
     || (65536 <? max_events)
     || negb ((512 <=? max_bytes) && (max_bytes <=? 64 * 1024 * 1024))
  then fail RequestInvalid
  else Ok (mkState epoch 1 [] [] (replicate 16 None) ∅ 0 max_events max_bytes true).
End Record.

(** ** Reading and acknowledging *)

(** One step of the page loop on the owner's queue. *)
Fixpoint page (m : list (Z * Stored)) (limit max_bytes first position used : Z)
    (out : list Record_) (sources : list Z) : Result (list Record_ * Z) :=
  match sources with
  | [] => Ok (out, position)
  | source :: rest =>
      if source <? first then page m limit max_bytes first position used out rest
      else if negb (source =? position) || (len out =? limit) then Ok (out, position)
      else
        match get source m with
        | None => Ok (out, position)
        | Some entry =>
            if max_bytes <? used + stored_bytes entry + 1 then
              if bool_decide (len out = 0) then fail LimitExceeded else Ok (out, position)
            else page m limit max_bytes first (position + 1) (used + stored_bytes entry + 1)
                   (out ++ [record entry]) rest
        end
  end.

(** The first queued identity after [after], or the next one to be given. *)
Definition first_after (after next : Z) (ids : list Z) : Z :=
  default next (find_first (fun id => after <? id) ids).

(** `aap-observe/src/recorder.rs:365-423`, `Recorder::read_bounded` *)
Definition read_bounded (st : State) (cursor : option Cursor) (limit max_bytes : Z) : Result Batch :=
  _ ← page_bounds limit max_bytes;
  let previous := match cursor with Some c => negb (bool_decide (epoch c = st_epoch st)) | None => false end in
  let after_ := match cursor with Some c => if previous then 0 else after c | None => 0 end in
  if next st <=? after_ then fail RequestInvalid
  else
    let first := first_after after_ (next st) (owner st) in
    let gap := if previous || (after_ + 1 <? first)
               then Some (mkGap (after_ + 1) (first - 1) previous) else None in
    '(out, position) ← page (stored st) limit max_bytes first first 512 [] (owner st);
    Ok (mkBatch out gap (mkCursor (st_epoch st) (position - 1))).

(** [iter().take_while(..)]. *)
Fixpoint take_while {A} (f : A -> bool) (l : list A) : list A :=
  match l with
  | [] => []
  | x :: rest => if f x then x :: take_while f rest else []
  end.

(** `aap-observe/src/recorder.rs:424-440`, `Recorder::acknowledge` *)
Definition acknowledge (st : State) (c : Cursor) : State * Result unit :=
  if negb (bool_decide (epoch c = st_epoch st)) || (next st <=? after c)
  then (st, fail RequestInvalid)
  else
    let removed := list_to_set (take_while (fun id => id <=? after c) (owner st)) in
    (release removed None st, Ok tt).

(** `aap-observe/src/recorder.rs:441-445`, `Recorder::set_available` *)
Definition set_available (st : State) (a : bool) : State :=
  mkState (st_epoch st) (next st) (stored st) (owner st) (subscribers st) (session_bytes st)
    (bytes st) (max_events st) (max_bytes st) a.

(** ** Subscriptions *)

(** `aap-observe/src/subscription.rs:23-40`, `SubscriptionCursor`, `Delivery`,
    `SubscriptionBatch` *)
Record SubscriptionCursor := mkSubCursor {
  cursor_epoch : string; subscription_id : string; cursor_after : Z }.
Record Delivery := mkDelivery { delivery_id : Z; delivered : Record_ }.
Record SubscriptionBatch := mkSubBatch {
  deliveries : list Delivery; sub_gap : option Gap; sub_cursor : SubscriptionCursor }.

(** `aap-observe/src/subscription.rs:41-45`, `Subscription`: a handle on the recorder *)
Record Subscription := mkSubscription { handle_id : string; closed : bool }.

(** [iter().position(..)]. *)
Fixpoint position {A} (f : A -> bool) (l : list A) : option nat :=
  match l with
  | [] => None
  | x :: rest => if f x then Some 0%nat else S <$> position f rest
  end.

(** `aap-observe/src/recorder.rs:93-98`, `State::subscriber` *)
Definition subscriber (st : State) (id : string) : Result nat :=
  ok_or (position (fun slot => match slot with
                               | Some s => bool_decide (sub_id s = id)
                               | None => false
                               end) (subscribers st))
    (Error_new ObservationUnavailable).

(** `aap-observe/src/subscription.rs:199-205`, `Subscription::check_admission` *)
Definition check_admission (h : Subscription) : Result unit :=
  if closed h then fail ObservationUnavailable else Ok tt.

(** `aap-observe/src/subscription.rs:196-198`, `Subscription::close_admission` *)
Definition close_admission (h : Subscription) : Subscription := mkSubscription (handle_id h) true.

Section Subscriptions.
Context `{Base64}.
(** The length of [serde_json::to_vec] of a delivery. *)
Context (delivery_size : Delivery -> option Z).

(** `aap-observe/src/subscription.rs:49-81`, `Recorder::subscribe`; [random] is the
    fresh identifier *)
Definition subscribe (st : State) (s : Scope) (l : SubscriptionLimits) (random : option string)
    : State * Result Subscription :=
  match Scope_validate s with
  | Err e => (st, Err e)
  | Ok _ =>
      if (limit_events l =? 0) || (max_events st <? limit_events l)
         || negb ((512 <=? limit_bytes l) && (limit_bytes l <=? max_bytes st))
      then (st, fail RequestInvalid)
      else
        match position (fun slot => match slot with None => true | Some _ => false end) (subscribers st) with
        | None => (st, fail LimitExceeded)
        | Some index =>
            match random with
            | None => (st, fail ObservationUnavailable)
            | Some id =>
                (set_subscribers st
                   (<[ index := Some (mkSubscriber id s l 1 0 [] 0) ]> (subscribers st)),
                 Ok (mkSubscription id false))
            end
        end
  end.

Fixpoint sub_page (m : list (Z * Stored)) (limit max_bytes first position used : Z)
    (out : list Delivery) (queue : list (Z * Z)) : Result (list Delivery * Z) :=
  match queue with
  | [] => Ok (out, position)
  | (id, source) :: rest =>
      if id <? first then sub_page m limit max_bytes first position used out rest
      else if negb (id =? position) || (len out =? limit) then Ok (out, position)
      else
        match get source m with
        | None => Ok (out, position)
        | Some entry =>
            let d := mkDelivery id (record entry) in
            match delivery_size d with
            | None => fail ObservationUnavailable
            | Some size =>
                if max_bytes <? used + size + 1 then
                  if bool_decide (len out = 0) then fail LimitExceeded else Ok (out, position)
                else sub_page m limit max_bytes first (position + 1) (used + size + 1)
                       (out ++ [d]) rest
            end
        end
  end.

(** `aap-observe/src/subscription.rs:87-163`, `Subscription::read` *)
Definition sub_read (st : State) (h : Subscription) (cursor : option SubscriptionCursor)
    (limit max_bytes : Z) : State * Result SubscriptionBatch :=
  let result :=
    _ ← check_admission h;
    _ ← page_bounds limit max_bytes;
    index ← subscriber st (handle_id h);
    s ← ok_or (mjoin (subscribers st !! index)) (Error_new ObservationUnavailable);
    let after := match cursor with Some c => cursor_after c | None => 0 end in
    if (match cursor with
        | Some c => negb (bool_decide (subscription_id c = handle_id h))
                    || negb (bool_decide (cursor_epoch c = st_epoch st))
        | None => false
        end) || (issued s <? after)
    then fail RequestInvalid
    else
      let first := first_after after (sub_next s) (map fst (queue s)) in
      let gap := if after + 1 <? first then Some (mkGap (after + 1) (first - 1) false) else None in
      '(out, position) ← sub_page (stored st) limit max_bytes first first 512 [] (queue s);
      Ok (index, s, mkSubBatch out gap
                      (mkSubCursor (st_epoch st) (handle_id h) (position - 1))) in
  match result with
  | Err e => (st, Err e)
  | Ok (index, s, batch) =>
      let s := mkSubscriber (sub_id s) (scope s) (limits s) (sub_next s)
                 (Z.max (issued s) (cursor_after (sub_cursor batch))) (queue s) (sub_bytes s) in
      (set_subscribers st (<[ index := Some s ]> (subscribers st)), Ok batch)
  end.

(** `aap-observe/src/subscription.rs:164-190`, `Subscription::acknowledge` *)
Definition sub_acknowledge (st : State) (h : Subscription) (c : SubscriptionCursor)
    : State * Result unit :=
  let result :=
    _ ← check_admission h;
    index ← subscriber st (handle_id h);
    s ← ok_or (mjoin (subscribers st !! index)) (Error_new ObservationUnavailable);
    if negb (bool_decide (subscription_id c = handle_id h))
       || negb (bool_decide (cursor_epoch c = st_epoch st))
       || (issued s <? cursor_after c)
    then fail RequestInvalid
    else Ok (index, list_to_set
               (map snd (take_while (fun q => q.1 <=? cursor_after c) (queue s))) : gset Z) in
  match result with
  | Err e => (st, Err e)
  | Ok (index, sources) => (release sources (Some index) st, Ok tt)
  end.

(** `aap-observe/src/subscription.rs:206-219`, `Subscription::close` *)
Definition close (st : State) (h : Subscription) : State * Subscription :=
  let h := close_admission h in
  match subscriber st (handle_id h) with
  | Err _ => (st, h)
  | Ok index =>
      let sources : gset Z :=
        match mjoin (subscribers st !! index) with
        | Some s => list_to_set (map snd (queue s))
        | None => ∅
        end in
      let st := release sources (Some index) st in
      (set_subscribers st (<[ index := None ]> (subscribers st)), h)
  end.
End Subscriptions.
