(* ===== verification/Retention.v ===== *)
(** * Retention: the recorder's invariant

    The consistency of the records, the queues, the claims and the byte counters
    of [Recorder], its preservation by every operation, and what it implies for
    required records and for readers. *)
From Stdlib Require Import Sorted.
From S2P Require Import Prelude Protocol Ids Observe Recorder.

(** ** Ordered maps *)

Definition keys (m : list (Z * Stored)) : list Z := map fst m.

Lemma get_Some_in k e m : get k m = Some e -> (k, e) ∈ m.
Proof.
  induction m as [|[k' e'] m IH]; cbn; [done|]. case_decide; [intros [= ->]; subst; set_solver|].
  set_solver.
Qed.

Lemma get_None k m : get k m = None <-> k ∉ keys m.
Proof.
  induction m as [|[k' e'] m IH]; cbn; [set_solver|]. case_decide; subst; set_solver.
Qed.

Lemma get_is_Some k m : is_Some (get k m) <-> k ∈ keys m.
Proof.
  rewrite <-not_eq_None_Some, get_None. destruct (decide (k ∈ keys m)); naive_solver.
Qed.

Lemma in_get k e m : NoDup (keys m) -> (k, e) ∈ m -> get k m = Some e.
Proof.
  induction m as [|[k' e'] m IH]; cbn; [set_solver|].
  rewrite NoDup_cons, elem_of_cons. intros [Hk Hnd] [[= -> ->]|Hin].
  - by rewrite decide_True.
  - rewrite decide_False; [by apply IH|]. intros ->. apply Hk.
    apply list_elem_of_In, in_map_iff. exists (k', e). by rewrite <-list_elem_of_In.
Qed.

Lemma sorted_NoDup (l : list Z) : StronglySorted Z.lt l -> NoDup l.
Proof.
  induction 1 as [|x l Hs IH Hf]; constructor; [|done].
  intros Hin. rewrite Forall_forall in Hf. specialize (Hf x Hin). lia.
Qed.

Lemma sorted_filter {A} (f : A -> Z) (p : A -> bool) l :
  StronglySorted Z.lt (map f l) -> StronglySorted Z.lt (map f (List.filter p l)).
Proof.
  induction l as [|x l IH]; cbn; [done|]. intros Hs. inversion Hs as [|? ? Hs' Hf]; subst.
  destruct (p x); cbn; [|by apply IH]. constructor; [by apply IH|].
  rewrite Forall_forall in *. intros y Hy. apply Hf. apply list_elem_of_In in Hy.
  apply in_map_iff in Hy as (z & <- & Hz). apply filter_In in Hz as [Hz _].
  apply list_elem_of_In, in_map_iff. by exists z.
Qed.

Lemma sorted_app_one (l : list Z) x :
  StronglySorted Z.lt l -> Forall (fun y => y < x) l -> StronglySorted Z.lt (l ++ [x]).
Proof.
  induction 1 as [|y l Hs IH Hf]; cbn; intros Hx; [by repeat constructor|].
  apply Forall_cons in Hx as [Hy Hx]. constructor; [by apply IH|].
  apply Forall_app. split; [done|]. by repeat constructor.
Qed.

Lemma get_filter k (p : Z -> bool) m :
  get k (List.filter (fun r => p r.1) m) = if p k then get k m else None.
Proof.
  induction m as [|[k' e] m IH]; cbn; [by destruct (p k)|].
  destruct (p k') eqn:Hp; cbn; case_decide as Hk; subst; rewrite ?Hp, ?IH; try done.
  by destruct (p k') eqn:?.
Qed.

Lemma get_update k k' e m :
  get k (update k' e m) = if decide (k = k') then (fun _ => e) <$> get k m else get k m.
Proof.
  induction m as [|[k1 e1] m IH]; cbn; [by case_decide|].
  destruct (Z.eqb_spec k1 k') as [->|Hk1]; cbn; repeat case_decide; subst; try done; congruence.
Qed.

Lemma keys_update k e m : keys (update k e m) = keys m.
Proof.
  unfold keys, update. rewrite map_map. apply map_ext. intros [k1 e1]; cbn.
  by destruct (k1 =? k).
Qed.

Lemma get_app k m m' :
  get k (m ++ m') = match get k m with Some e => Some e | None => get k m' end.
Proof. induction m as [|[k1 e1] m IH]; cbn; [done|]. by case_decide. Qed.

Lemma store_last k e m : Forall (fun k' => k' < k) (keys m) -> store k e m = m ++ [(k, e)].
Proof.
  induction m as [|[k' e'] m IH]; cbn; [done|]. rewrite Forall_cons. intros [Hk Hf].
  rewrite (proj2 (Z.ltb_ge k k')), (proj2 (Z.eqb_neq k k')) by lia. by rewrite IH.
Qed.

(** A map read through [f] is determined by its lookups. *)
Lemma ordered_ext {A} (f : Stored -> A) m m' :
  StronglySorted Z.lt (keys m) -> StronglySorted Z.lt (keys m') ->
  (forall k, f <$> get k m = f <$> get k m') ->
  map (fun r => (r.1, f r.2)) m = map (fun r => (r.1, f r.2)) m'.
Proof.
  revert m'; induction m as [|[k e] m IH]; intros [|[k' e'] m']; cbn; intros Hs Hs' Heq; [done|..].
  - specialize (Heq k'). by rewrite decide_True in Heq.
  - specialize (Heq k). by rewrite decide_True in Heq.
  - inversion Hs as [|? ? Hs1 Hf]; subst. inversion Hs' as [|? ? Hs1' Hf']; subst.
    rewrite Forall_forall in Hf. rewrite Forall_forall in Hf'.
    assert (k = k') as <-.
    { pose proof (Heq k) as H1. pose proof (Heq k') as H2.
      rewrite decide_True in H1 by done. rewrite (decide_True _ _ (eq_refl k')) in H2.
      destruct (decide (k = k')) as [|Hne]; [done|]. rewrite decide_False in H2 by done.
      destruct (get k m') eqn:E1; [|done]. destruct (get k' m) eqn:E2; [|done].
      assert (k' < k) by (apply Hf', get_is_Some; by eexists).
      assert (k < k') by (apply Hf, get_is_Some; by eexists). lia. }
    pose proof (Heq k) as H1. rewrite !decide_True in H1 by done. injection H1 as ->.
    f_equal. apply IH; [done..|]. intros k1. specialize (Heq k1).
    case_decide; [|done]. subst.
    assert (get k m = None) as -> by (apply get_None; intros Hin; specialize (Hf k Hin); lia).
    assert (get k m' = None) as -> by (apply get_None; intros Hin; specialize (Hf' k Hin); lia).
    done.
Qed.

(** ** Sums of entry sizes *)

Fixpoint sum_of (P : Stored -> bool) (m : list (Z * Stored)) : Z :=
  match m with
  | [] => 0
  | (_, e) :: rest => (if P e then stored_bytes e else 0) + sum_of P rest
  end.
Definition everything (e : Stored) : bool := true.
Definition of_session (s : string) (e : Stored) : bool := bool_decide (stored_session e = s).

Lemma sum_of_app P m m' : sum_of P (m ++ m') = sum_of P m + sum_of P m'.
Proof. induction m as [|[k e] m IH]; cbn; lia. Qed.

Lemma sum_of_delete P k e m : NoDup (keys m) -> get k m = Some e ->
  sum_of P m = (if P e then stored_bytes e else 0)
    + sum_of P (List.filter (fun r => negb (r.1 =? k)) m).
Proof.
  induction m as [|[k' e'] m IH]; cbn; [done|]. rewrite NoDup_cons. intros [Hk Hnd].
  case_decide as Hd.
  - intros [= ->]. subst. rewrite Z.eqb_refl; cbn. f_equal. f_equal.
    clear IH. induction m as [|[k1 e1] m IH]; cbn in *; [done|].
    apply not_elem_of_cons in Hk as [? Hk]. apply NoDup_cons in Hnd as [_ Hnd].
    rewrite (proj2 (Z.eqb_neq k1 k')) by done. cbn. by rewrite <-IH.
  - intros Hg. rewrite (proj2 (Z.eqb_neq k' k)) by done. cbn. rewrite (IH Hnd Hg). lia.
Qed.

Lemma sum_of_update P k e e' m :
  get k m = Some e -> NoDup (keys m) -> stored_bytes e' = stored_bytes e -> P e' = P e ->
  sum_of P (update k e' m) = sum_of P m.
Proof.
  intros Hg Hnd Hb HP. induction m as [|[k1 e1] m IH]; cbn in *; [done|].
  apply NoDup_cons in Hnd as [Hk Hnd]. case_decide as Hd; subst.
  - injection Hg as ->. rewrite Z.eqb_refl. cbn. rewrite HP, Hb. f_equal.
    clear IH. induction m as [|[k2 e2] m IH]; cbn in *; [done|].
    apply not_elem_of_cons in Hk as [? Hk]. apply NoDup_cons in Hnd as [_ Hnd].
    rewrite (proj2 (Z.eqb_neq k2 k1)) by done. cbn. f_equal. by apply IH.
  - rewrite (proj2 (Z.eqb_neq k1 k)) by done. cbn. f_equal. by apply IH.
Qed.

Lemma sum_of_nonneg P m : Forall (fun r => 0 < stored_bytes r.2) m -> 0 <= sum_of P m.
Proof.
  induction m as [|[k e] m IH]; cbn; [done|]. rewrite Forall_cons. intros [H1 H2]. cbn in H1.
  specialize (IH H2). destruct (P e); lia.
Qed.

(** ** Claim masks *)

Lemma slot_bit_spec i j : Z.testbit (slot_bit i) (Z.of_nat j) = bool_decide (i = j).
Proof.
  unfold slot_bit. rewrite Z.shiftl_1_l, Z.pow2_bits_eqb by lia.
  case_bool_decide; [subst; apply Z.eqb_refl|apply Z.eqb_neq; lia].
Qed.

Lemma has_slot_spec mask i : has_slot mask i = Z.testbit mask (Z.of_nat i).
Proof.
  unfold has_slot. destruct (Z.testbit mask (Z.of_nat i)) eqn:Ht.
  - apply negb_true_iff, Z.eqb_neq. intros Hz.
    assert (Hb : Z.testbit (Z.land mask (slot_bit i)) (Z.of_nat i) = true).
    { rewrite Z.land_spec, Ht, slot_bit_spec. by rewrite bool_decide_eq_true_2. }
    rewrite Hz, Z.bits_0 in Hb. done.
  - apply negb_false_iff, Z.eqb_eq, Z.bits_inj'. intros n Hn.
    rewrite Z.land_spec, Z.bits_0. replace n with (Z.of_nat (Z.to_nat n)) by lia.
    rewrite slot_bit_spec. case_bool_decide as Hi; [|apply andb_false_r].
    by rewrite <-Hi, Ht.
Qed.

Lemma clear_slot_spec mask i j : (j < 16)%nat ->
  has_slot (clear_slot mask i) j = has_slot mask j && negb (bool_decide (i = j)).
Proof.
  intros Hj. rewrite !has_slot_spec. unfold clear_slot.
  rewrite Z.land_spec, Z.lxor_spec, slot_bit_spec. f_equal.
  change 65535 with (Z.ones 16). rewrite Z.testbit_ones_nonneg by lia.
  rewrite (proj2 (Z.ltb_lt _ _)) by lia. done.
Qed.

Lemma clear_slot_range mask i : 0 <= mask < 65536 -> 0 <= clear_slot mask i < 65536.
Proof.
  intros Hm. unfold clear_slot. split; [apply Z.land_nonneg; left; lia|].
  assert (Hb : Z.land mask (Z.lxor 65535 (slot_bit i)) = Z.land (Z.land mask (Z.lxor 65535 (slot_bit i))) (Z.ones 16)).
  { apply Z.bits_inj'. intros n Hn. rewrite !Z.land_spec.
    destruct (Z.ltb_spec n 16) as [H|H].
    - rewrite Z.testbit_ones_nonneg, (proj2 (Z.ltb_lt n 16)), andb_true_r by lia. done.
    - assert (Z.testbit mask n = false) as ->; [|done].
      destruct (Z.eq_dec mask 0) as [->|]; [apply Z.bits_0|].
      apply Z.bits_above_log2; [lia|]. apply Z.log2_lt_pow2; [lia|].
      apply Z.lt_le_trans with (2 ^ 16); [lia|]. by apply Z.pow_le_mono_r. }
  rewrite Hb, Z.land_ones by lia. change (2 ^ 16) with 65536. apply Z.mod_pos_bound. lia.
Qed.

Lemma mask_zero mask : 0 <= mask < 65536 ->
  mask = 0 <-> forall i, (i < 16)%nat -> has_slot mask i = false.
Proof.
  intros Hm. split; [intros -> i _; by rewrite has_slot_spec, Z.bits_0|].
  intros Hi. apply Z.bits_inj'. intros n Hn. rewrite Z.bits_0.
  destruct (Z.ltb_spec n 16).
  - specialize (Hi (Z.to_nat n)). rewrite has_slot_spec in Hi.
    rewrite <-Hi by lia. f_equal. lia.
  - destruct (Z.eq_dec mask 0) as [->|]; [apply Z.bits_0|].
    apply Z.bits_above_log2; [lia|]. apply Z.log2_lt_pow2; [lia|].
    apply Z.lt_le_trans with (2 ^ 16); [lia|]. by apply Z.pow_le_mono_r.
Qed.

Lemma claims_mask_spec index selected j :
  has_slot (claims_mask index selected) j = true
  <-> exists d, (index <= j)%nat /\ selected !! (j - index)%nat = Some (Some d).
Proof.
  rewrite has_slot_spec.
  revert index; induction selected as [|d rest IH]; intros index; cbn [claims_mask].
  - rewrite Z.bits_0. naive_solver.
  - rewrite Z.lor_spec, orb_true_iff, IH. split.
    + intros [Hd|(d' & Hle & Hl)].
      * destruct d as [d|]; [|by rewrite Z.bits_0 in Hd].
        rewrite slot_bit_spec in Hd. apply bool_decide_eq_true in Hd as ->.
        exists d. split; [lia|]. by rewrite Nat.sub_diag.
      * exists d'. split; [lia|]. by replace (j - index)%nat with (S (j - S index)) by lia.
    + intros (d' & Hle & Hl). destruct (decide (index = j)) as [->|].
      * left. rewrite Nat.sub_diag in Hl. cbn in Hl. injection Hl as ->.
        rewrite slot_bit_spec. by apply bool_decide_eq_true.
      * right. exists d'. split; [lia|].
        by replace (j - index)%nat with (S (j - S index)) in Hl by lia.
Qed.

Lemma claims_mask_range selected : (length selected <= 16)%nat ->
  0 <= claims_mask 0 selected < 65536.
Proof.
  assert (Hgen : forall index, (index + length selected <= 16)%nat ->
    0 <= claims_mask index selected < 2 ^ 16).
  { induction selected as [|d rest IH]; intros index; cbn [claims_mask length]; [lia|]. intros Hl.
    specialize (IH (S index) ltac:(lia)).
    assert (Hd : 0 <= match d with Some _ => slot_bit index | None => 0 end < 2 ^ 16).
    { destruct d; [|lia]. unfold slot_bit. rewrite Z.shiftl_1_l.
      split; [lia|]. apply Z.pow_lt_mono_r; lia. }
    assert (0 <= Z.lor (match d with Some _ => slot_bit index | None => 0 end)
      (claims_mask (S index) rest)) by (apply Z.lor_nonneg; lia).
    split; [done|].
    destruct (Z.eq_dec (Z.lor (match d with Some _ => slot_bit index | None => 0 end)
      (claims_mask (S index) rest)) 0) as [->|]; [lia|].
    apply Z.log2_lt_pow2; [lia|]. rewrite Z.log2_lor by lia.
    apply Z.max_lub_lt.
    - destruct (Z.eq_dec (match d with Some _ => slot_bit index | None => 0 end) 0) as [->|];
        [cbn; lia|]. apply Z.log2_lt_pow2; lia.
    - destruct (Z.eq_dec (claims_mask (S index) rest) 0) as [->|]; [cbn; lia|].
      apply Z.log2_lt_pow2; lia. }
  intros Hl. apply (Hgen 0%nat). lia.
Qed.

(** ** The invariant *)

(** The byte counters account for the records. *)
Record Acct (m : list (Z * Stored)) (sb : gmap string Z) (b : Z) : Prop := {
  ac_sorted : StronglySorted Z.lt (keys m);
  ac_entries : Forall (fun r => event_id (record r.2) = r.1 /\ 0 < stored_bytes r.2) m;
  ac_bytes : b = sum_of everything m;
  ac_session : forall s, default 0 (sb !! s) = sum_of (of_session s) m;
  ac_nonzero : forall s, sb !! s <> Some 0 }.

(** A slot's queue holds [k]. *)
Definition queued (subs : list (option Subscriber)) (i : nat) (k : Z) : Prop :=
  exists s, subs !! i = Some (Some s) /\ k ∈ map snd (queue s).

Definition queue_bytes (m : list (Z * Stored)) (q : list (Z * Z)) : Z :=
  foldr (fun q n => size_of m q.2 + n) 0 q.

(** One subscriber: its counters, its queue in delivery and event order, only
    records its scope permits, and its limits. *)
Record sub_ok (m : list (Z * Stored)) (s : Subscriber) : Prop := {
  so_issued : 0 <= issued s < sub_next s;
  so_ids : StronglySorted Z.lt (map fst (queue s));
  so_range : Forall (fun q => 1 <= q.1 < sub_next s) (queue s);
  so_sources : StronglySorted Z.lt (map snd (queue s));
  so_present : Forall (fun q => exists e, get q.2 m = Some e
                 /\ permits (scope s) (event (record e)) = true) (queue s);
  so_bytes : sub_bytes s = queue_bytes m (queue s);
  so_events : len (queue s) <= limit_events (limits s);
  so_limit : sub_bytes s <= limit_bytes (limits s) }.

(** Claims, ownership and queues agree, and nothing unclaimed is retained. *)
Record Link (m : list (Z * Stored)) (ow : list Z) (subs : list (option Subscriber)) : Prop := {
  lk_slots : length subs = 16%nat;
  lk_order : StronglySorted Z.lt ow;
  lk_owner : forall k, k ∈ ow <-> exists e, get k m = Some e /\ owned e = true;
  lk_mask : forall k e, get k m = Some e -> 0 <= claims e < 65536;
  lk_claims : forall k e i, get k m = Some e -> (i < 16)%nat ->
    has_slot (claims e) i = true <-> queued subs i k;
  lk_held : forall k e, get k m = Some e -> unclaimed e = false;
  lk_subs : forall i s, subs !! i = Some (Some s) -> sub_ok m s }.

(** The budgets of the retained records. *)
Record Budget (st : State) : Prop := {
  bd_next : 1 <= next st;
  bd_keys : Forall (fun k => 1 <= k < next st) (keys (stored st));
  bd_count : len (stored st) <= max_events st;
  bd_bytes : bytes st <= max_bytes st;
  bd_session : forall s, sum_of (of_session s) (stored st) <= session_limit }.

Record Inv (st : State) : Prop := {
  inv_acct : Acct (stored st) (session_bytes st) (bytes st);
  inv_link : Link (stored st) (owner st) (subscribers st);
  inv_budget : Budget st }.

(** The part of an entry that releasing it does not change. *)
Definition core (e : Stored) : Record_ * Z * bool := (record e, stored_bytes e, required e).

Lemma core_session e e' : core e = core e' -> stored_session e = stored_session e'.
Proof. unfold core, stored_session. by intros [= -> _ _]. Qed.
Lemma core_bytes e e' : core e = core e' -> stored_bytes e = stored_bytes e'.
Proof. by intros [= _ -> _]. Qed.

(** ** Accounting *)

Lemma acct_update m sb b k e e' : Acct m sb b -> get k m = Some e -> core e' = core e ->
  Acct (update k e' m) sb b.
Proof.
  intros [Hs He Hb Hss Hnz] Hg Hc. pose proof (sorted_NoDup _ Hs) as Hnd.
  assert (Hsum : forall P, P e' = P e -> sum_of P (update k e' m) = sum_of P m).
  { intros P HP. eapply sum_of_update; [done..| |done]. by apply core_bytes. }
  constructor; try done.
  - by rewrite keys_update.
  - unfold update. apply Forall_forall. intros r Hr.
    apply list_elem_of_In, in_map_iff in Hr as (r' & Hr & Hin).
    rewrite Forall_forall in He. apply list_elem_of_In in Hin.
    specialize (He _ Hin) as He'. destruct (r'.1 =? k) eqn:Hk; subst r; [|done]. cbn.
    apply Z.eqb_eq in Hk. apply get_Some_in in Hg. specialize (He _ Hg). cbn in He.
    injection Hc as -> -> _. by rewrite Hk.
  - by rewrite Hsum.
  - intros s. rewrite Hsum; [done|]. unfold of_session. by rewrite (core_session _ _ Hc).
Qed.

Lemma acct_discard st k : Acct (stored st) (session_bytes st) (bytes st) ->
  Acct (stored (discard k st)) (session_bytes (discard k st)) (bytes (discard k st)).
Proof.
  intros HA. unfold discard. destruct (get k (stored st)) as [e|] eqn:Hg; [|done]. cbn.
  destruct HA as [Hs He Hb Hss Hnz]. pose proof (sorted_NoDup _ Hs) as Hnd.
  assert (Hpos : 0 < stored_bytes e).
  { apply get_Some_in in Hg. rewrite Forall_forall in He. by apply (He _ Hg). }
  pose proof (fun P => sum_of_delete P k e (stored st) Hnd Hg) as Hdel.
  assert (Hmine : exists n, session_bytes st !! stored_session e = Some n
      /\ n = stored_bytes e + sum_of (of_session (stored_session e))
                                (List.filter (fun r => negb (r.1 =? k)) (stored st))).
  { specialize (Hss (stored_session e)). rewrite Hdel in Hss. unfold of_session in Hss at 1.
    rewrite bool_decide_eq_true_2 in Hss by done.
    destruct (session_bytes st !! stored_session e) as [n|]; cbn in Hss; [by exists n|].
    assert (0 <= sum_of (of_session (stored_session e))
              (List.filter (fun r => negb (r.1 =? k)) (stored st))); [|lia].
    apply sum_of_nonneg. apply Forall_forall. intros r Hr.
    apply list_elem_of_In, filter_In in Hr as [Hr _]. rewrite Forall_forall in He.
    apply He. by apply list_elem_of_In. }
  destruct Hmine as (n & Hn & Heq). rewrite Hn.
  assert (Hother : forall s, s <> stored_session e ->
    sum_of (of_session s) (List.filter (fun r => negb (r.1 =? k)) (stored st)) = default 0 (session_bytes st !! s)).
  { intros s Hne. rewrite Hss, Hdel. unfold of_session at 2.
    rewrite bool_decide_eq_false_2 by done. lia. }
  constructor.
  - by apply sorted_filter.
  - apply Forall_forall. intros r Hr. apply list_elem_of_In, filter_In in Hr as [Hr _].
    rewrite Forall_forall in He. apply He. by apply list_elem_of_In.
  - rewrite Hb, Hdel. cbn. lia.
  - intros s. destruct (decide (s = stored_session e)) as [->|Hne].
    + destruct (Z.eqb_spec (n - stored_bytes e) 0).
      * rewrite lookup_delete_eq. cbn. lia.
      * rewrite lookup_insert_eq. cbn. lia.
    + rewrite (Hother s Hne). destruct (n - stored_bytes e =? 0);
        [rewrite lookup_delete_ne by done|rewrite lookup_insert_ne by done]; done.
  - intros s. destruct (Z.eqb_spec (n - stored_bytes e) 0).
    + destruct (decide (s = stored_session e)) as [->|]; [by rewrite lookup_delete_eq|].
      by rewrite lookup_delete_ne.
    + destruct (decide (s = stored_session e)) as [->|]; [rewrite lookup_insert_eq; congruence|].
      by rewrite lookup_insert_ne.
Qed.

(** What no release, discard or removal changes. *)
Definition same_frame (st st' : State) : Prop :=
  st_epoch st' = st_epoch st /\ next st' = next st /\ max_events st' = max_events st
  /\ max_bytes st' = max_bytes st /\ available st' = available st.

Definition same_queues (st st' : State) : Prop :=
  same_frame st st' /\ owner st' = owner st /\ subscribers st' = subscribers st.

Definition Acct_st (st : State) : Prop := Acct (stored st) (session_bytes st) (bytes st).

Lemma discard_spec k st :
  same_queues st (discard k st)
  /\ forall k', get k' (stored (discard k st)) = if decide (k' = k) then None else get k' (stored st).
Proof.
  unfold discard. destruct (get k (stored st)) as [e|] eqn:Hg; cbn.
  - split; [done|]. intros k'. rewrite (get_filter k' (fun x => negb (x =? k))).
    case_decide as Hk; [subst; by rewrite Z.eqb_refl|]. by rewrite (proj2 (Z.eqb_neq k' k)).
  - split; [done|]. intros k'. case_decide; [by subst|done].
Qed.

Lemma discard_all_spec l st : Acct_st st ->
  let st' := foldr discard st l in
  same_queues st st' /\ Acct_st st'
  /\ forall k, get k (stored st') = if bool_decide (k ∈ l) then None else get k (stored st).
Proof.
  intros HA. induction l as [|k l (Hf & HA' & Hg)]; cbn [foldr].
  - done.
  - destruct (discard_spec k (foldr discard st l)) as (Hf' & Hg'). split_and!.
    + destruct Hf as ((?&?&?&?&?)&?&?), Hf' as ((?&?&?&?&?)&?&?). repeat split; congruence.
    + by apply acct_discard.
    + intros k'. rewrite Hg', Hg. case_decide; subst.
      * by rewrite bool_decide_eq_true_2 by set_solver.
      * by rewrite (bool_decide_ext (k' ∈ k :: l) (k' ∈ l)) by set_solver.
Qed.

(** What releasing a claim leaves of an entry. *)
Definition released (subscriber : option nat) (e : Stored) : option Stored :=
  if unclaimed (clear_claim subscriber e) then None else Some (clear_claim subscriber e).

Lemma clear_claim_core sub e : core (clear_claim sub e) = core e.
Proof. by destruct sub. Qed.

Lemma release_source_spec sub k st : Acct_st st ->
  let st' := release_source sub k st in
  same_queues st st' /\ Acct_st st'
  /\ forall k', get k' (stored st') =
       if decide (k' = k) then get k (stored st) ≫= released sub else get k' (stored st).
Proof.
  intros HA. unfold release_source. destruct (get k (stored st)) as [e|] eqn:Hg; cbn.
  2:{ split_and!; try done. intros k'. case_decide; [by subst|done]. }
  set (st1 := set_stored st (update k (clear_claim sub e) (stored st))).
  assert (HA1 : Acct_st st1).
  { eapply acct_update; [exact HA|exact Hg|apply clear_claim_core]. }
  assert (Hg1 : forall k', get k' (stored st1) =
    if decide (k' = k) then Some (clear_claim sub e) else get k' (stored st)).
  { intros k'. cbn. rewrite get_update. case_decide; [subst; by rewrite Hg|done]. }
  unfold released. destruct (unclaimed (clear_claim sub e)).
  - destruct (discard_spec k st1) as (Hf & Hd). split_and!.
    + done.
    + by apply acct_discard.
    + intros k'. rewrite Hd, Hg1. by case_decide.
  - split_and!; try done.
Qed.

Lemma release_all_spec sub l st : Acct_st st -> NoDup l ->
  let st' := foldr (release_source sub) st l in
  same_queues st st' /\ Acct_st st'
  /\ forall k, get k (stored st') =
       if bool_decide (k ∈ l) then get k (stored st) ≫= released sub else get k (stored st).
Proof.
  intros HA Hnd. induction l as [|k l IH]; cbn [foldr]; [done|].
  apply NoDup_cons in Hnd as [Hk Hnd]. destruct (IH Hnd) as (Hf & HA' & Hg).
  destruct (release_source_spec sub k _ HA') as (Hf' & HA'' & Hg'). split_and!.
  - destruct Hf as ((?&?&?&?&?)&?&?), Hf' as ((?&?&?&?&?)&?&?). repeat split; congruence.
  - done.
  - intros k'. rewrite Hg'. case_decide; subst.
    + rewrite Hg. rewrite (bool_decide_eq_false_2 (k ∈ l)) by done.
      by rewrite bool_decide_eq_true_2 by set_solver.
    + rewrite Hg. by rewrite (bool_decide_ext (k' ∈ k :: l) (k' ∈ l)) by set_solver.
Qed.

(** A smaller map, entry by entry: its sums and its length are smaller. *)
Definition submap (m' m : list (Z * Stored)) : Prop :=
  forall k e', get k m' = Some e' -> exists e, get k m = Some e /\ core e' = core e.

Lemma sum_of_cores P m m' :
  (forall e e', core e = core e' -> P e = P e') ->
  map (fun r => (r.1, core r.2)) m = map (fun r => (r.1, core r.2)) m' -> sum_of P m = sum_of P m'.
Proof.
  intros HP. revert m'; induction m as [|[k e] m IH]; intros [|[k' e'] m']; cbn; try done.
  intros [= -> H1 H2 H3 Heq]. assert (Hc : core e = core e') by (unfold core; congruence).
  rewrite (HP e e' Hc), (core_bytes e e' Hc). by rewrite (IH m').
Qed.

Definition keyed (m : list (Z * Stored)) (k : Z) : bool := bool_decide (k ∈ keys m).

Lemma submap_restrict m m' :
  StronglySorted Z.lt (keys m) -> StronglySorted Z.lt (keys m') -> submap m' m ->
  map (fun r => (r.1, core r.2)) m'
  = map (fun r => (r.1, core r.2)) (List.filter (fun r => keyed m' r.1) m).
Proof.
  intros Hs Hs' Hsub. apply (ordered_ext core); [done|by apply sorted_filter|].
  intros k. rewrite (get_filter k (keyed m')). unfold keyed. case_bool_decide as Hk.
  - apply get_is_Some in Hk as [e' He']. destruct (Hsub _ _ He') as (e & He & Hc).
    rewrite He', He. cbn. by rewrite Hc.
  - apply get_None in Hk. by rewrite Hk.
Qed.

Lemma sum_of_filter_le P p m : Forall (fun r => 0 < stored_bytes r.2) m ->
  sum_of P (List.filter p m) <= sum_of P m.
Proof.
  induction m as [|[k e] m IH]; cbn; [done|]. rewrite Forall_cons. intros [H1 H2]. cbn in H1.
  specialize (IH H2). destruct (p (k, e)), (P e) eqn:HP; cbn; rewrite ?HP; lia.
Qed.

Lemma len_filter_le {A} (p : A -> bool) l : len (List.filter p l) <= len l.
Proof. induction l as [|x l IH]; [done|]. cbn. destruct (p x); rewrite !len_cons; lia. Qed.

Lemma submap_sums m m' P :
  (forall e e', core e = core e' -> P e = P e') ->
  StronglySorted Z.lt (keys m) -> StronglySorted Z.lt (keys m') ->
  Forall (fun r => 0 < stored_bytes r.2) m -> submap m' m ->
  sum_of P m' <= sum_of P m /\ len m' <= len m.
Proof.
  intros HP Hs Hs' Hpos Hsub. pose proof (submap_restrict m m' Hs Hs' Hsub) as Heq. split.
  - rewrite (sum_of_cores P _ _ HP Heq). by apply sum_of_filter_le.
  - apply (f_equal len) in Heq. unfold len in *. rewrite !length_map in Heq. rewrite Heq.
    pose proof (len_filter_le (fun r => keyed m' r.1) m). by unfold len in *.
Qed.

(** ** Queues *)

Lemma size_of_core m m' k : core <$> get k m' = core <$> get k m -> size_of m' k = size_of m k.
Proof.
  unfold size_of. destruct (get k m), (get k m'); cbn; try done. intros H%(inj Some). by apply core_bytes.
Qed.

Lemma acct_size m sb b k : Acct m sb b -> 0 <= size_of m k.
Proof.
  intros HA. unfold size_of. destruct (get k m) eqn:Hg; cbn; [|done].
  apply get_Some_in in Hg. pose proof (ac_entries _ _ _ HA) as He.
  rewrite Forall_forall in He. specialize (He _ Hg). cbn in He. lia.
Qed.

Lemma queue_bytes_split m (p : Z * Z -> bool) q :
  queue_bytes m q = queue_bytes m (List.filter p q)
    + queue_bytes m (List.filter (fun x => negb (p x)) q).
Proof. unfold queue_bytes. induction q as [|x q IH]; cbn; [done|]. destruct (p x); cbn; lia. Qed.

Lemma queue_bytes_nonneg m q : (forall k, 0 <= size_of m k) -> 0 <= queue_bytes m q.
Proof.
  intros H. unfold queue_bytes. induction q as [|x q IH]; cbn; [done|]. specialize (H x.2). lia.
Qed.

Lemma queue_bytes_ext m m' q :
  (forall x, x ∈ q -> core <$> get x.2 m' = core <$> get x.2 m) ->
  queue_bytes m' q = queue_bytes m q.
Proof.
  unfold queue_bytes. induction q as [|x q IH]; cbn; [done|]. intros H.
  rewrite (size_of_core m m') by (apply H; set_solver). rewrite IH; [done|].
  intros y Hy. apply H. set_solver.
Qed.

Lemma Forall_filter_b {A} (P : A -> Prop) (p : A -> bool) l :
  Forall P l -> Forall P (List.filter p l).
Proof.
  rewrite !Forall_forall. intros H x Hx. apply list_elem_of_In, filter_In in Hx as [Hx _].
  apply H. by apply list_elem_of_In.
Qed.

Lemma sub_ok_retain m sources s : (forall k, 0 <= size_of m k) ->
  sub_ok m s -> sub_ok m (retain_queue m sources s).
Proof.
  intros Hsz [? ? ? ? ? Hb He Hl].
  pose proof (queue_bytes_split m (fun q => bool_decide (q.2 ∈ sources)) (queue s)) as Hsplit.
  pose proof (queue_bytes_nonneg m (List.filter (fun q => bool_decide (q.2 ∈ sources)) (queue s)) Hsz).
  constructor; cbn [retain_queue sub_next issued queue scope limits sub_bytes]; try done.
  - by apply sorted_filter.
  - by apply Forall_filter_b.
  - by apply sorted_filter.
  - by apply Forall_filter_b.
  - unfold queue_bytes in *. lia.
  - pose proof (len_filter_le (fun q => negb (bool_decide (q.2 ∈ sources))) (queue s)). lia.
  - unfold queue_bytes in *. lia.
Qed.

Lemma sub_ok_change m m' s :
  (forall x, x ∈ queue s -> core <$> get x.2 m' = core <$> get x.2 m) ->
  sub_ok m s -> sub_ok m' s.
Proof.
  intros Hc [? ? ? ? Hp Hb He Hl]. constructor; try done.
  - rewrite Forall_forall in Hp |- *. intros x Hx. destruct (Hp x Hx) as (e & Hg & Hs).
    specialize (Hc x Hx). rewrite Hg in Hc. destruct (get x.2 m') as [e'|]; [|done].
    exists e'. split; [done|]. cbn in Hc. injection Hc as Hr _ _. by rewrite Hr.
  - by rewrite (queue_bytes_ext m m').
Qed.

Lemma retain_queue_sources m sources s k :
  k ∈ map snd (queue (retain_queue m sources s)) <-> k ∈ map snd (queue s) /\ k ∉ sources.
Proof.
  cbn. rewrite !list_elem_of_In, !in_map_iff. setoid_rewrite filter_In.
  setoid_rewrite negb_true_iff. setoid_rewrite bool_decide_eq_false. naive_solver.
Qed.

Lemma link_present m ow subs i k : Link m ow subs -> queued subs i k ->
  exists e, get k m = Some e.
Proof.
  intros HL (s & Hs & Hk). pose proof (so_present _ _ (lk_subs _ _ _ HL i s Hs)) as Hp.
  apply list_elem_of_In, in_map_iff in Hk as (x & <- & Hx). rewrite Forall_forall in Hp.
  destruct (Hp x) as (e & ? & _); [by apply list_elem_of_In|]. by exists e.
Qed.

Lemma queued_slot m ow subs i k : Link m ow subs -> queued subs i k -> (i < 16)%nat.
Proof.
  intros HL (s & Hs & _). rewrite <-(lk_slots _ _ _ HL). by eapply lookup_lt_Some.
Qed.

(** ** Release *)

(** The queues and the owner's list once [sources] are released by a consumer. *)
Definition released_owner (sub : option nat) (sources : gset Z) (ow : list Z) : list Z :=
  match sub with
  | Some _ => ow
  | None => List.filter (fun k => negb (bool_decide (k ∈ sources))) ow
  end.
Definition released_subs (m : list (Z * Stored)) (sub : option nat) (sources : gset Z)
    (subs : list (option Subscriber)) : list (option Subscriber) :=
  match sub with
  | Some i => alter (fmap (retain_queue m sources)) i subs
  | None => subs
  end.

Lemma released_queued m sub sources subs i k :
  queued (released_subs m sub sources subs) i k <->
  queued subs i k /\ ~ (sub = Some i /\ k ∈ sources).
Proof.
  unfold queued, released_subs. destruct sub as [j|].
  2:{ naive_solver. }
  destruct (decide (i = j)) as [->|Hne].
  - rewrite list_lookup_alter_eq. split.
    + intros (s & Hs & Hk). destruct (subs !! j) as [[s0|]|]; try done.
      cbn in Hs. injection Hs as <-. apply retain_queue_sources in Hk as [? ?]. naive_solver.
    + intros ((s & Hs & Hk) & Hn). exists (retain_queue m sources s). rewrite Hs.
      split; [done|]. apply retain_queue_sources. naive_solver.
  - rewrite list_lookup_alter_ne by done. naive_solver.
Qed.

Lemma link_release sub sources m m' ow subs :
  (forall k, 0 <= size_of m k) -> Link m ow subs ->
  (forall k, get k m' = if bool_decide (k ∈ sources) then get k m ≫= released sub else get k m) ->
  (forall i, sub = Some i -> (i < 16)%nat) ->
  Link m' (released_owner sub sources ow) (released_subs m sub sources subs).
Proof.
  intros Hsz HL Hg Hi.
  assert (Hback : forall k e', get k m' = Some e' -> exists e, get k m = Some e
    /\ e' = (if bool_decide (k ∈ sources) then clear_claim sub e else e) /\ unclaimed e' = false).
  { intros k e' He'. rewrite Hg in He'. case_bool_decide.
    - apply bind_Some in He' as (e & He & Hr). exists e. unfold released in Hr.
      by destruct (unclaimed _) eqn:?; simplify_eq.
    - exists e'. split_and!; try done. by eapply lk_held. }
  assert (Hcore : forall k e', get k m' = Some e' -> core <$> get k m' = core <$> get k m).
  { intros k e' He'. destruct (Hback k e' He') as (e & He & -> & _). rewrite He', He. cbn.
    case_bool_decide; [|done]. by rewrite clear_claim_core. }
  assert (Hmask : forall k e, get k m = Some e -> 0 <= claims (clear_claim sub e) < 65536).
  { intros k e He. pose proof (lk_mask _ _ _ HL k e He). destruct sub; cbn; [|done].
    by apply clear_slot_range. }
  assert (Hslot : forall k e i, get k m = Some e -> (i < 16)%nat -> k ∈ sources ->
    has_slot (claims (clear_claim sub e)) i = true
    <-> queued (released_subs m sub sources subs) i k).
  { intros k e i He Hlt Hk. rewrite released_queued, <-(lk_claims _ _ _ HL k e i He Hlt).
    destruct sub as [j|]; cbn; [|naive_solver].
    rewrite clear_slot_spec by done. rewrite andb_true_iff, negb_true_iff, bool_decide_eq_false.
    naive_solver. }
  (* an entry that is still queued, or still owned, is kept *)
  assert (Hkept : forall k, k ∈ released_owner sub sources ow \/ (exists i, queued (released_subs m sub sources subs) i k) ->
    exists e', get k m' = Some e').
  { intros k Hk. assert (He : exists e, get k m = Some e).
    { destruct Hk as [Hk|[i Hk]].
      - assert (Hk' : k ∈ ow).
        { destruct sub; [done|]. unfold released_owner in Hk.
          apply list_elem_of_In, filter_In in Hk as [Hk _]. by apply list_elem_of_In. }
        apply (lk_owner _ _ _ HL) in Hk' as (e & ? & _). by exists e.
      - apply released_queued in Hk as [Hk _]. by eapply link_present. }
    destruct He as (e & He). rewrite Hg, He. case_bool_decide as Hks; [|by exists e]. cbn.
    unfold released. destruct (unclaimed (clear_claim sub e)) eqn:Hu; [exfalso|by eexists].
    unfold unclaimed in Hu. apply andb_true_iff in Hu as [Ho Hc]. bool_hyps.
    destruct Hk as [Hk|[i Hk]].
    - destruct sub as [j|].
      + cbn in Hk, Ho. apply (lk_owner _ _ _ HL) in Hk as (e0 & ? & ?). simplify_eq. congruence.
      + cbn in Hk. apply list_elem_of_In, filter_In in Hk as [_ Hk]. by bool_hyps.
    - assert (Hlt : (i < 16)%nat).
      { apply released_queued in Hk as [Hk _]. by eapply queued_slot. }
      apply (Hslot k e i He Hlt Hks) in Hk. rewrite Hc in Hk.
      by rewrite has_slot_spec, Z.bits_0 in Hk. }
  constructor.
  - destruct sub; cbn; [rewrite length_alter|]; apply HL.
  - destruct sub; cbn; [apply HL|].
    pose proof (sorted_filter id (fun k => negb (bool_decide (k ∈ sources))) ow) as Hf.
    rewrite !map_id in Hf. apply Hf, HL.
  - intros k. split.
    + intros Hk. destruct (Hkept k (or_introl Hk)) as (e' & He'). exists e'. split; [done|].
      destruct (Hback k e' He') as (e & He & -> & _).
      assert (Hk' : k ∈ ow /\ (sub = None -> k ∉ sources)).
      { destruct sub; [done|]. cbn in Hk. apply list_elem_of_In, filter_In in Hk as [Hk ?].
        bool_hyps. split; [by apply list_elem_of_In|done]. }
      destruct Hk' as [Hk' Hn]. apply (lk_owner _ _ _ HL) in Hk' as (e0 & ? & Ho). simplify_eq.
      case_bool_decide; [|done]. destruct sub; [done|]. by destruct Hn.
    + intros (e' & He' & Ho). destruct (Hback k e' He') as (e & He & -> & _).
      assert (Ho' : owned e = true) by (case_bool_decide; destruct sub; done).
      assert (Hk : k ∈ ow) by (apply (lk_owner _ _ _ HL); by exists e).
      destruct sub; [done|]. cbn. apply list_elem_of_In, filter_In.
      split; [by apply list_elem_of_In|]. by case_bool_decide.
  - intros k e' He'. destruct (Hback k e' He') as (e & He & -> & _).
    case_bool_decide; [by eapply Hmask|by eapply lk_mask].
  - intros k e' i He' Hlt. destruct (Hback k e' He') as (e & He & -> & _).
    case_bool_decide; [by apply Hslot|]. rewrite released_queued, (lk_claims _ _ _ HL k e i) by done.
    naive_solver.
  - intros k e' He'. by destruct (Hback k e' He') as (e & _ & _ & ?).
  - intros i s' Hs'.
    assert (Hq : sub_ok m s').
    { destruct sub as [j|]; [|by eapply lk_subs]. cbn in Hs'.
      destruct (decide (i = j)) as [->|]; [|rewrite list_lookup_alter_ne in Hs' by done; by eapply lk_subs].
      rewrite list_lookup_alter_eq in Hs'. destruct (subs !! j) as [[s|]|] eqn:Hs; try done.
      cbn in Hs'. injection Hs' as <-. apply sub_ok_retain; [done|]. by eapply lk_subs. }
    eapply sub_ok_change; [|done]. intros x Hx.
    destruct (Hkept x.2) as (e' & He'); [|by eapply Hcore].
    right. exists i, s'. split; [done|]. apply list_elem_of_In, in_map_iff. exists x.
    by rewrite <-list_elem_of_In.
Qed.

Lemma acct_size_st st k : Acct_st st -> 0 <= size_of (stored st) k.
Proof. intros HA. by eapply acct_size. Qed.

Lemma budget_submap st st' : Acct_st st -> Acct_st st' -> same_frame st st' ->
  submap (stored st') (stored st) -> Budget st -> Budget st'.
Proof.
  intros HA HA' (He & Hn & Hme & Hmb & _) Hsub [B1 B2 B3 B4 B5].
  assert (Hpos : Forall (fun r => 0 < stored_bytes r.2) (stored st)).
  { eapply Forall_impl; [apply (ac_entries _ _ _ HA)|]. by intros ? [? ?]. }
  pose proof (fun P HP => submap_sums _ _ P HP (ac_sorted _ _ _ HA) (ac_sorted _ _ _ HA') Hpos Hsub)
    as Hsums.
  constructor; rewrite ?Hn, ?Hme, ?Hmb; try done.
  - rewrite Forall_forall in B2 |- *. intros k Hk. apply B2.
    apply get_is_Some in Hk as [e' He']. destruct (Hsub _ _ He') as (e & He2 & _).
    apply get_is_Some. by exists e.
  - destruct (Hsums everything) as [_ Hlen]; [done|]. lia.
  - destruct (Hsums everything) as [Hb _]; [done|].
    rewrite (ac_bytes _ _ _ HA'). rewrite (ac_bytes _ _ _ HA) in B4. lia.
  - intros s. destruct (Hsums (of_session s)) as [Hb _].
    { intros e e' Hc. unfold of_session. by rewrite (core_session _ _ Hc). }
    specialize (B5 s). lia.
Qed.

(** [release] on the state: accounts and links are kept, and an entry of
    [sources] loses this consumer's claim, and goes when it was the last. *)
Lemma release_spec sources sub st : Acct_st st -> Link (stored st) (owner st) (subscribers st) ->
  (forall i, sub = Some i -> (i < 16)%nat) ->
  let st' := release sources sub st in
  Acct_st st' /\ Link (stored st') (owner st') (subscribers st') /\ same_frame st st'
  /\ owner st' = released_owner sub sources (owner st)
  /\ subscribers st' = released_subs (stored st) sub sources (subscribers st)
  /\ forall k, get k (stored st') =
       if bool_decide (k ∈ sources) then get k (stored st) ≫= released sub else get k (stored st).
Proof.
  intros HA HL Hi. unfold release.
  set (st1 := match sub with Some _ => _ | None => _ end).
  assert (H1 : stored st1 = stored st /\ session_bytes st1 = session_bytes st /\ bytes st1 = bytes st
    /\ same_frame st st1 /\ owner st1 = released_owner sub sources (owner st)
    /\ subscribers st1 = released_subs (stored st) sub sources (subscribers st)).
  { unfold st1. by destruct sub. }
  destruct H1 as (Hst & Hsb & Hb & Hf1 & Ho & Hsubs).
  assert (HA1 : Acct_st st1) by (unfold Acct_st; by rewrite Hst, Hsb, Hb).
  destruct (release_all_spec sub (elements sources) st1 HA1 (NoDup_elements _))
    as ((Hf2 & Ho2 & Hs2) & HA2 & Hg2).
  assert (Hg : forall k, get k (stored (foldr (release_source sub) st1 (elements sources))) =
    if bool_decide (k ∈ sources) then get k (stored st) ≫= released sub else get k (stored st)).
  { intros k. rewrite Hg2, Hst. by rewrite (bool_decide_ext _ _ (elem_of_elements sources k)). }
  cbv zeta. rewrite Ho2, Hs2, Ho, Hsubs. split_and!; try done.
  - apply (link_release sub sources (stored st)); try done. intros k. by apply acct_size_st.
  - destruct Hf1 as (?&?&?&?&?), Hf2 as (?&?&?&?&?). repeat split; congruence.
Qed.

Lemma release_submap sources sub st : Acct_st st -> Link (stored st) (owner st) (subscribers st) ->
  (forall i, sub = Some i -> (i < 16)%nat) ->
  submap (stored (release sources sub st)) (stored st).
Proof.
  intros HA HL Hi. destruct (release_spec sources sub st HA HL Hi) as (_ & _ & _ & _ & _ & Hg).
  intros k e' He'. rewrite Hg in He'. case_bool_decide; [|by exists e'].
  apply bind_Some in He' as (e & He & Hr). exists e. split; [done|].
  unfold released in Hr. destruct (unclaimed _); simplify_eq. apply clear_claim_core.
Qed.

Lemma release_inv sources sub st : Inv st -> (forall i, sub = Some i -> (i < 16)%nat) ->
  Inv (release sources sub st).
Proof.
  intros [HA HL HB] Hi. destruct (release_spec sources sub st HA HL Hi) as (HA' & HL' & Hf & _).
  split; [done|done|]. apply (budget_submap st); try done. by apply release_submap.
Qed.

(** ** Removal *)

Definition retained_subs (m : list (Z * Stored)) (sources : gset Z)
    (subs : list (option Subscriber)) : list (option Subscriber) :=
  fmap (M := list) (fmap (M := option) (retain_queue m sources)) subs.

Lemma lookup_map_retain m sources subs i s' :
  retained_subs m sources subs !! i = Some (Some s') <->
  exists s, subs !! i = Some (Some s) /\ s' = retain_queue m sources s.
Proof.
  unfold retained_subs. rewrite list_lookup_fmap. destruct (subs !! i) as [[s|]|]; cbn; naive_solver.
Qed.

Lemma removed_queued m sources subs i k :
  queued (retained_subs m sources subs) i k <-> queued subs i k /\ k ∉ sources.
Proof.
  unfold queued. setoid_rewrite lookup_map_retain. split.
  - intros (s' & (s & Hs & ->) & Hk). apply retain_queue_sources in Hk as [? ?]. naive_solver.
  - intros ((s & Hs & Hk) & Hn). exists (retain_queue m sources s).
    split; [by exists s|]. by apply retain_queue_sources.
Qed.

Lemma link_remove sources m m' ow subs :
  (forall k, 0 <= size_of m k) -> Link m ow subs ->
  (forall k, get k m' = if bool_decide (k ∈ sources) then None else get k m) ->
  Link m' (released_owner None sources ow) (retained_subs m sources subs).
Proof.
  intros Hsz HL Hg.
  assert (Hback : forall k e, get k m' = Some e <-> get k m = Some e /\ k ∉ sources).
  { intros k e. rewrite Hg. case_bool_decide; naive_solver. }
  assert (Hown : forall k, k ∈ released_owner None sources ow <-> k ∈ ow /\ k ∉ sources).
  { intros k. cbn. rewrite !list_elem_of_In, filter_In, negb_true_iff, bool_decide_eq_false. done. }
  constructor.
  - unfold retained_subs. rewrite length_fmap. apply HL.
  - pose proof (sorted_filter id (fun k => negb (bool_decide (k ∈ sources))) ow) as Hf.
    rewrite !map_id in Hf. apply Hf, HL.
  - intros k. rewrite Hown, (lk_owner _ _ _ HL). setoid_rewrite Hback. naive_solver.
  - intros k e [He _]%Hback. by eapply lk_mask.
  - intros k e i [He Hk]%Hback Hlt. rewrite removed_queued, (lk_claims _ _ _ HL k e i) by done.
    naive_solver.
  - intros k e [He _]%Hback. by eapply lk_held.
  - intros i s' (s & Hs & ->)%lookup_map_retain. pose proof (lk_subs _ _ _ HL i s Hs) as Hq.
    eapply sub_ok_change; [|by apply sub_ok_retain]. intros x Hx.
    assert (Hk : x.2 ∈ map snd (queue (retain_queue m sources s))).
    { apply list_elem_of_In, in_map_iff. exists x. by rewrite <-list_elem_of_In. }
    apply retain_queue_sources in Hk as [Hk Hn].
    rewrite Hg. by rewrite bool_decide_eq_false_2.
Qed.

Lemma remove_spec sources st : Acct_st st -> Link (stored st) (owner st) (subscribers st) ->
  let st' := remove sources st in
  Acct_st st' /\ Link (stored st') (owner st') (subscribers st') /\ same_frame st st'
  /\ owner st' = released_owner None sources (owner st)
  /\ subscribers st' = retained_subs (stored st) sources (subscribers st)
  /\ forall k, get k (stored st') = if bool_decide (k ∈ sources) then None else get k (stored st).
Proof.
  intros HA HL. unfold remove. cbv zeta.
  set (st1 := set_subscribers _ _).
  assert (HA1 : Acct_st st1) by exact HA.
  destruct (discard_all_spec (elements sources) st1 HA1) as ((Hf & Ho & Hs) & HA2 & Hg2).
  assert (Hg : forall k, get k (stored (foldr discard st1 (elements sources))) =
    if bool_decide (k ∈ sources) then None else get k (stored st)).
  { intros k. rewrite Hg2. by rewrite (bool_decide_ext _ _ (elem_of_elements sources k)). }
  rewrite Ho, Hs. split_and!; try done.
  apply (link_remove sources (stored st)); try done. intros k. by apply acct_size_st.
Qed.
