(* ===== verification/Recording.v ===== *)
(** * Recording a batch preserves the recorder's invariant

    Identity assignment, the plan of a batch and its application, on top of the
    release and removal lemmas of [Retention]. *)
From Stdlib Require Import Sorted.
From S2P Require Import Prelude Protocol Ids Observe Recorder Retention.

(** ** Identities *)

(** The same subscriber with a later counter. *)
Definition bumped (s s' : Subscriber) : Prop :=
  sub_id s' = sub_id s /\ scope s' = scope s /\ limits s' = limits s /\ issued s' = issued s
  /\ queue s' = queue s /\ sub_bytes s' = sub_bytes s /\ sub_next s <= sub_next s'.
Definition slot_rel (R : Subscriber -> Subscriber -> Prop) (o o' : option Subscriber) : Prop :=
  match o, o' with
  | Some s, Some s' => R s s'
  | None, None => True
  | _, _ => False
  end.

Lemma bumped_refl s : bumped s s.
Proof. repeat split; lia. Qed.
Lemma bumped_trans s s' s'' : bumped s s' -> bumped s' s'' -> bumped s s''.
Proof. unfold bumped. intros (?&?&?&?&?&?&?) (?&?&?&?&?&?&?). repeat split; (congruence || lia). Qed.

Lemma slots_refl subs : Forall2 (slot_rel bumped) subs subs.
Proof. induction subs as [|[s|] subs]; constructor; cbn; auto using bumped_refl. Qed.

Lemma slots_trans l1 l2 l3 : Forall2 (slot_rel bumped) l1 l2 -> Forall2 (slot_rel bumped) l2 l3 ->
  Forall2 (slot_rel bumped) l1 l3.
Proof.
  intros H. revert l3; induction H as [|o o' l l' Ho Hl IH]; intros l3 H';
    inversion H' as [|? o'' ? l'' Ho' Hl']; subst; constructor; [|by apply IH].
  destruct o, o', o''; cbn in *; try done. by eapply bumped_trans.
Qed.

(** One event: what each slot selected. *)
Lemma assign_spec e subs subs' sel : assign e subs = (subs', Some sel) ->
  Forall2 (slot_rel bumped) subs subs' /\ length sel = length subs
  /\ forall i d, sel !! i = Some (Some d) <->
       exists s s', subs !! i = Some (Some s) /\ permits (scope s) e = true /\ d = sub_next s
         /\ subs' !! i = Some (Some s') /\ sub_next s' = d + 1.
Proof.
  revert subs' sel; induction subs as [|o subs IH]; intros subs' sel Ha; cbn in Ha.
  { simplify_eq. split_and!; [constructor|done|]. intros i d. rewrite !lookup_nil. naive_solver. }
  assert (Hcons : forall o' x rest rest_sel,
    assign e subs = (rest, Some rest_sel) -> slot_rel bumped o o' ->
    (forall d, x = Some d <-> exists s s', o = Some s /\ permits (scope s) e = true
       /\ d = sub_next s /\ o' = Some s' /\ sub_next s' = d + 1) ->
    Forall2 (slot_rel bumped) (o :: subs) (o' :: rest)
    /\ length (x :: rest_sel) = length (o :: subs)
    /\ forall i d, (x :: rest_sel) !! i = Some (Some d) <->
         exists s s', (o :: subs) !! i = Some (Some s) /\ permits (scope s) e = true
           /\ d = sub_next s /\ (o' :: rest) !! i = Some (Some s') /\ sub_next s' = d + 1).
  { intros o' x rest rest_sel Hr Ho Hx. destruct (IH _ _ Hr) as (HF & Hl & Hd).
    split_and!; [by constructor|cbn; lia|]. intros [|i] d; cbn; [|apply Hd].
    split.
    - intros [= ->]. destruct (proj1 (Hx d) eq_refl) as (s & s' & -> & ? & ? & -> & ?).
      by exists s, s'.
    - intros (s & s' & [= ->] & ? & ? & [= ->] & ?). f_equal. apply Hx. by exists s, s'. }
  destruct o as [s|].
  - destruct (permits (scope s) e) eqn:Hp.
    + destruct (checked_add (sub_next s) 1) as [n|] eqn:Hc; [|done].
      apply checked_add_Some in Hc as [-> _].
      destruct (assign e subs) as [rest [rest_sel|]] eqn:Hr; cbn in Ha; simplify_eq.
      apply Hcons; [done|cbn; repeat split; cbn; lia|]. intros d. split.
      * intros [= <-]. by eexists _, _.
      * intros (? & ? & [= <-] & _ & -> & _). done.
    + destruct (assign e subs) as [rest [rest_sel|]] eqn:Hr; cbn in Ha; simplify_eq.
      apply Hcons; [done|cbn; apply bumped_refl|]. intros d. split; [done|].
      intros (? & ? & [= <-] & ? & _). congruence.
  - destruct (assign e subs) as [rest [rest_sel|]] eqn:Hr; cbn in Ha; simplify_eq.
    apply Hcons; [done|done|]. intros d. split; [done|]. by intros (? & ? & ? & _).
Qed.

Lemma assign_bumps e subs : Forall2 (slot_rel bumped) subs (assign e subs).1.
Proof.
  induction subs as [|[s|] subs IH]; cbn; [constructor| |].
  - destruct (permits _ _); [destruct (checked_add _ _) as [n|] eqn:Hc|].
    + apply checked_add_Some in Hc as [-> _]. destruct (assign e subs) as [rest sel]; cbn in *.
      constructor; [|done]. cbn. repeat split; cbn; lia.
    + apply slots_refl.
    + destruct (assign e subs) as [rest sel]; cbn in *. constructor; [apply bumped_refl|done].
  - destruct (assign e subs) as [rest sel]; cbn in *. by constructor.
Qed.

Lemma assign_all_bumps events subs : Forall2 (slot_rel bumped) subs (assign_all events subs).1.
Proof.
  revert subs; induction events as [|e events IH]; intros subs; cbn; [apply slots_refl|].
  pose proof (assign_bumps e subs) as Hb. destruct (assign e subs) as [subs1 [sel|]]; cbn in *; [|done].
  pose proof (IH subs1) as Hr. destruct (assign_all events subs1) as [subs2 dels]; cbn in *.
  by eapply slots_trans.
Qed.

Lemma assign_all_lengths events subs subs' dels : assign_all events subs = (subs', Some dels) ->
  length dels = length events /\ Forall (fun sel => length sel = length subs) dels.
Proof.
  revert subs dels; induction events as [|e events IH]; intros subs dels Ha; cbn in Ha.
  { by simplify_eq. }
  destruct (assign e subs) as [subs1 [sel|]] eqn:He; [|done].
  destruct (assign_all events subs1) as [subs2 [dels2|]] eqn:Hr; cbn in Ha; simplify_eq.
  destruct (IH _ _ Hr) as [Hl HF]. apply assign_spec in He as (Hb & Hlen & _).
  apply Forall2_length in Hb. split; [cbn; lia|]. constructor; [done|].
  eapply Forall_impl; [exact HF|]. intros; cbn in *; lia.
Qed.

(** A later counter keeps a subscriber's and the state's invariants. *)
Lemma sub_ok_bumped m s s' : bumped s s' -> sub_ok m s -> sub_ok m s'.
Proof.
  intros (? & Hsc & Hl & Hi & Hq & Hb & Hn) [H1 H2 H3 H4 H5 H6 H7 H8].
  constructor; rewrite ?Hq, ?Hb, ?Hl, ?Hi, ?Hsc; try done; try lia.
  eapply Forall_impl; [exact H3|]. intros; cbn in *; lia.
Qed.

Lemma slots_lookup (subs subs' : list (option Subscriber)) i s' :
  Forall2 (slot_rel bumped) subs subs' -> subs' !! i = Some (Some s') ->
  exists s, subs !! i = Some (Some s) /\ bumped s s'.
Proof.
  intros HF Hi. destruct (Forall2_lookup_r _ _ _ _ _ HF Hi) as ([s|] & Hs & Hr); [|done].
  by exists s.
Qed.
Lemma slots_lookup_l (subs subs' : list (option Subscriber)) i s :
  Forall2 (slot_rel bumped) subs subs' -> subs !! i = Some (Some s) ->
  exists s', subs' !! i = Some (Some s') /\ bumped s s'.
Proof.
  intros HF Hi. destruct (Forall2_lookup_l _ _ _ _ _ HF Hi) as ([s'|] & Hs & Hr); [|done].
  by exists s'.
Qed.

Lemma queued_bumped subs subs' i k : Forall2 (slot_rel bumped) subs subs' ->
  queued subs' i k <-> queued subs i k.
Proof.
  intros HF. split.
  - intros (s' & Hs' & Hk). destruct (slots_lookup _ _ _ _ HF Hs') as (s & Hs & Hb).
    exists s. destruct Hb as (_ & _ & _ & _ & <- & _). done.
  - intros (s & Hs & Hk). destruct (slots_lookup_l _ _ _ _ HF Hs) as (s' & Hs' & Hb).
    exists s'. destruct Hb as (_ & _ & _ & _ & -> & _). done.
Qed.

Lemma link_bumped m ow subs subs' : Forall2 (slot_rel bumped) subs subs' ->
  Link m ow subs -> Link m ow subs'.
Proof.
  intros HF [H1 H2 H3 H4 H5 H6 H7]. constructor; try done.
  - by rewrite <-(Forall2_length _ _ _ HF).
  - intros k e i Hg Hi. rewrite (queued_bumped _ _ _ _ HF). by apply H5.
  - intros i s' Hs'. destruct (slots_lookup _ _ _ _ HF Hs') as (s & Hs & Hb).
    eapply sub_ok_bumped; [done|]. by eapply H7.
Qed.

Lemma inv_counted st n subs : Inv st -> next st <= n ->
  Forall2 (slot_rel bumped) (subscribers st) subs ->
  Inv (set_subscribers (set_next st n) subs).
Proof.
  intros [HA HL [B1 B2 B3 B4 B5]] Hn HF. split; [done|by eapply link_bumped|].
  constructor; cbn; try done; [lia|]. eapply Forall_impl; [exact B2|]. intros; cbn in *; lia.
Qed.

(** A rejected commit restores every counter exactly. *)
Lemma restore_exact subs previous : Forall2 (slot_rel bumped) previous subs ->
  restore subs previous = previous.
Proof.
  unfold restore. induction 1 as [|o o' l l' Ho Hl IH]; [done|]. cbn. rewrite IH. f_equal.
  destruct o as [s|], o' as [s'|]; try done. destruct Ho as (?&?&?&?&?&?&?).
  destruct s, s'; cbn in *; by subst.
Qed.

(** ** The caller's commit *)

(** The outcomes of [record_batch_with] as its caller sees them: the commit did
    not run and the batch is refused; or it ran and accepted; or it ran, rejected,
    and the recorder is as it was. *)
Inductive committed {S : Type} (st : State) (s : S) (commit : S -> S * Result unit)
    : State -> S -> Result unit -> Prop :=
  | not_run st' e : committed st s commit st' s (Err e)
  | accepted st' s' : commit s = (s', Ok tt) -> committed st s commit st' s' (Ok tt)
  | rejected s' e : commit s = (s', Err e) -> committed st s commit st s' (Err e).

Lemma state_eta st :
  set_subscribers (set_next st (next st)) (subscribers st) = st.
Proof. by destruct st. Qed.

Section Commit.
Context `{Base64} (record_size : Record_ -> option Z).

Lemma record_batch_committed {S : Type} st events req now (commit : S -> S * Result unit) s st' s' r :
  record_batch_with record_size st events req now commit s = (st', s', r) ->
  committed st s commit st' s' r.
Proof.
  unfold record_batch_with. destruct (_ || _); [intros; simplify_eq; constructor|].
  destruct (checked_add _ _) as [n|]; [|intros; simplify_eq; constructor].
  pose proof (assign_all_bumps events (subscribers st)) as Hb.
  destruct (assign_all events (subscribers st)) as [subs dels]. cbn in Hb.
  cbv zeta.
  assert (Hrun : forall f st' s' r,
    match commit s with
    | (s, Ok _) => (f (set_subscribers (set_next st n) subs), s, Ok tt)
    | (s, Err e) =>
        (set_subscribers (set_next (set_subscribers (set_next st n) subs) (next st))
           (restore subs (subscribers st)), s, Err e)
    end = (st', s', r) -> committed st s commit st' s' r).
  { intros f st1 s1 r1. destruct (commit s) as [s2 [[]|e]] eqn:Hc; intros; simplify_eq.
    - by apply accepted.
    - rewrite (restore_exact _ _ Hb).
      change (set_subscribers (set_next (set_subscribers (set_next st n) subs) (next st))
                (subscribers st)) with (set_subscribers (set_next st (next st)) (subscribers st)).
      rewrite state_eta. by apply rejected. }
  assert (Hun : forall st' s' r,
    (if req then (set_subscribers (set_next st n) subs, s, fail ObservationUnavailable)
     else match commit s with
          | (s, Ok _) => (set_subscribers (set_next st n) subs, s, Ok tt)
          | (s, Err e) =>
              (set_subscribers (set_next (set_subscribers (set_next st n) subs) (next st))
                 (restore subs (subscribers st)), s, Err e)
          end) = (st', s', r) -> committed st s commit st' s' r).
  { intros st1 s1 r1. destruct req; [intros; simplify_eq; constructor|]. apply (Hrun (fun st => st)). }
  destruct dels as [dels|]; [|intros; simplify_eq; constructor].
  destruct (_ || _); [apply Hun|]. destruct now as [time|]; [|intros; simplify_eq; constructor].
  destruct (plan_batch _ _ _ _ _ _ _) as [[[[a d] l] g]| |];
    [apply (Hrun (apply_plan a d l g))|apply Hun|intros; simplify_eq; constructor].
Qed.
End Commit.

(** ** Planning one queue *)

Lemma plan_queue_spec m req lim count total drops q drops' :
  plan_queue m req lim count total drops q = (true, drops') ->
  exists q1 q2, q = q1 ++ q2 /\ drops' = drops ∪ list_to_set (map snd q1)
    /\ ((count - len q1 <= limit_events lim /\ total - queue_bytes m q1 <= limit_bytes lim) \/ q2 = [])
    /\ (q1 = [] \/ req = false)
    /\ Forall (fun x => from_option required false (get x.2 m) = false) q1.
Proof.
  revert count total drops; induction q as [|[d source] q IH]; intros count total drops Hp;
    cbn in Hp.
  { simplify_eq. exists [], []. split_and!; try done; [set_solver|by right|by left]. }
  destruct (_ && _) eqn:Hfit in Hp.
  { simplify_eq. exists [], ((d, source) :: q). bool_hyps.
    split_and!; try done; [set_solver|left; cbn; change (len []) with 0; lia|by left]. }
  destruct (_ || _) eqn:Hreq in Hp; [done|]. bool_hyps.
  destruct (IH _ _ _ Hp) as (q1 & q2 & -> & -> & Hlim & _ & HF).
  exists ((d, source) :: q1), q2. split_and!; try done.
  - cbn. set_solver.
  - destruct Hlim as [[? ?]|?]; [left|by right]. rewrite len_cons. cbn.
    unfold queue_bytes in *. lia.
  - by right.
  - by constructor.
Qed.

Lemma queue_bytes_app m q1 q2 : queue_bytes m (q1 ++ q2) = queue_bytes m q1 + queue_bytes m q2.
Proof. unfold queue_bytes. induction q1 as [|x q1 IH]; cbn; lia. Qed.

Lemma filter_prefix (q1 q2 : list (Z * Z)) : NoDup (map snd (q1 ++ q2)) ->
  List.filter (fun x => negb (bool_decide (x.2 ∈ (list_to_set (map snd q1) : gset Z)))) (q1 ++ q2) = q2.
Proof.
  intros Hnd. rewrite List.filter_app.
  assert (H1 : forall q, (forall x, x ∈ q -> x.2 ∈ map snd q1) ->
    List.filter (fun x : Z * Z => negb (bool_decide (x.2 ∈ (list_to_set (map snd q1) : gset Z)))) q = []).
  { induction q as [|x q IH]; [done|]. intros Hq. cbn.
    rewrite bool_decide_eq_true_2 by (apply elem_of_list_to_set, Hq; set_solver). cbn.
    apply IH. intros y Hy. apply Hq. set_solver. }
  rewrite H1; [|intros x Hx; apply list_elem_of_In, in_map; by apply list_elem_of_In].
  rewrite map_app in Hnd. apply NoDup_app in Hnd as (_ & Hdis & _). cbn.
  clear H1. induction q2 as [|x q2 IH]; [done|]. cbn.
  rewrite bool_decide_eq_false_2.
  - cbn. f_equal. apply IH. intros y Hy. specialize (Hdis y Hy). set_solver.
  - rewrite elem_of_list_to_set. intros Hx. apply (Hdis _ Hx). set_solver.
Qed.

(** The queue of a subscriber once its local drops are released. *)
Definition kept (drops : gset Z) (s : Subscriber) : list (Z * Z) :=
  List.filter (fun x => negb (bool_decide (x.2 ∈ drops))) (queue s).

(** What an accepted slot guarantees: the chosen additions fit beside what is kept. *)
Definition slot_fits (m : list (Z * Stored)) (s : Subscriber) (drops : gset Z)
    (count added : Z) : Prop :=
  len (kept drops s) + count <= limit_events (limits s)
  /\ queue_bytes m (kept drops s) + added <= limit_bytes (limits s).

Lemma plan_queue_fits m req s count added drops : sub_ok m s ->
  count <= limit_events (limits s) -> added <= limit_bytes (limits s) ->
  plan_queue m req (limits s) (len (queue s) + count) (sub_bytes s + added) ∅ (queue s) = (true, drops) ->
  slot_fits m s drops count added.
Proof.
  intros Hs Hc Ha Hp. apply plan_queue_spec in Hp as (q1 & q2 & Hq & -> & Hlim & _ & _).
  unfold slot_fits, kept. rewrite union_empty_l_L.
  pose proof (sorted_NoDup _ (so_sources _ _ Hs)) as Hnd.
  rewrite (so_bytes _ _ Hs) in Hlim. rewrite Hq in Hnd, Hlim |- *.
  rewrite (filter_prefix q1 q2 Hnd). rewrite len_app, queue_bytes_app in Hlim.
  destruct Hlim as [?| ->]; [lia|]. change (len []) with 0. cbn. lia.
Qed.

(** ** Planning every slot *)

(** An addition and its delivery identities name the same slots. *)
Definition aligned (a : Stored) (sel : list (option Z)) : Prop :=
  length sel = 16%nat /\ 0 <= claims a < 65536
  /\ forall i, (i < 16)%nat -> has_slot (claims a) i = true <-> exists d, sel !! i = Some (Some d).

(** The same addition, with claims withdrawn only from slots [index] on. *)
Definition narrowed (index : nat) (a a' : Stored) : Prop :=
  core a' = core a /\ owned a' = owned a
  /\ (forall i, (i < 16)%nat -> has_slot (claims a') i = true -> has_slot (claims a) i = true)
  /\ (forall i, (i < 16)%nat -> (i < index)%nat -> has_slot (claims a') i = has_slot (claims a) i).
Definition narrowed_sel (sel sel' : list (option Z)) : Prop :=
  forall i d, sel' !! i = Some (Some d) -> sel !! i = Some (Some d).

Lemma narrowed_refl i a : narrowed i a a.
Proof. by repeat split. Qed.
Lemma narrowed_trans i j a b c : (i <= j)%nat -> narrowed i a b -> narrowed j b c -> narrowed i a c.
Proof.
  intros Hle (H1 & H2 & H3 & H4) (H5 & H6 & H7 & H8).
  split_and!; [congruence|congruence|auto|]. intros k Hk Hki. rewrite H8 by lia. by apply H4.
Qed.

Definition chosen (i : nat) (adds : list Stored) : list Stored :=
  List.filter (fun e => has_slot (claims e) i) adds.
Definition entries_bytes (l : list Stored) : Z := foldr (fun e n => stored_bytes e + n) 0 l.

Lemma chosen_ext index i adds adds' : (i < 16)%nat -> (i < index)%nat ->
  Forall2 (narrowed index) adds adds' ->
  len (chosen i adds') = len (chosen i adds) /\ entries_bytes (chosen i adds') = entries_bytes (chosen i adds).
Proof.
  intros Hi Hlt. induction 1 as [|a a' l l' (Hc & _ & _ & H4) HF IH]; [done|].
  unfold chosen, entries_bytes in *. cbn. rewrite (H4 i Hi Hlt).
  destruct (has_slot (claims a) i); cbn; [|done]. rewrite !len_cons.
  destruct IH as [-> ->]. by rewrite (core_bytes _ _ Hc).
Qed.

Lemma drop_claim_narrowed index adds : (index < 16)%nat ->
  Forall2 (narrowed index) adds (map (drop_claim index) adds).
Proof.
  intros Hi. induction adds as [|a l IH]; constructor; [|done].
  split_and!; try done; intros i Hlt; cbn; rewrite clear_slot_spec by done.
  - intros [? _]%andb_true_iff. done.
  - intros Hne. rewrite bool_decide_eq_false_2 by lia. by rewrite andb_true_r.
Qed.

Lemma drop_claim_chosen index adds : (index < 16)%nat ->
  chosen index (map (drop_claim index) adds) = [].
Proof.
  intros Hi. unfold chosen. induction adds as [|a l IH]; [done|]. cbn.
  rewrite clear_slot_spec, bool_decide_eq_true_2 by done. rewrite andb_false_r. done.
Qed.

Lemma unselect_aligned index adds dels : (index < 16)%nat -> Forall2 aligned adds dels ->
  Forall2 aligned (map (drop_claim index) adds) (map (unselect index) dels)
  /\ Forall2 narrowed_sel dels (map (unselect index) dels).
Proof.
  intros Hi. induction 1 as [|a sel l l' (Hl & Hr & Ha) HF [IH1 IH2]]; [split; constructor|].
  split; constructor; try done.
  - unfold aligned, unselect. rewrite length_insert. split_and!; [done|by apply clear_slot_range..|].
    intros i Hlt. cbn. rewrite clear_slot_spec by done.
    rewrite andb_true_iff, negb_true_iff, bool_decide_eq_false, (Ha i Hlt).
    destruct (decide (i = index)) as [->|Hne].
    + rewrite list_lookup_insert_eq by lia. naive_solver.
    + rewrite list_lookup_insert_ne by done. naive_solver.
  - intros i d. unfold unselect. destruct (decide (i = index)) as [->|Hne].
    + rewrite list_lookup_insert_eq by lia. done.
    + by rewrite list_lookup_insert_ne.
Qed.

Lemma narrowed_sel_trans dels1 dels2 dels3 : Forall2 narrowed_sel dels1 dels2 ->
  Forall2 narrowed_sel dels2 dels3 -> Forall2 narrowed_sel dels1 dels3.
Proof.
  intros H. revert dels3; induction H; intros dels3 H'; inversion H'; subst; constructor; eauto.
  unfold narrowed_sel in *. eauto.
Qed.

Lemma narrowed_refls i adds : Forall2 (narrowed i) adds adds.
Proof. induction adds; constructor; [apply narrowed_refl|done]. Qed.
Lemma narrowed_sel_refls dels : Forall2 narrowed_sel dels dels.
Proof. induction dels; constructor; [by intros i d|done]. Qed.

Lemma narrowed_weaken i j adds adds' : (i <= j)%nat -> Forall2 (narrowed j) adds adds' ->
  Forall2 (narrowed i) adds adds'.
Proof.
  intros Hle. induction 1 as [|a a' l l' (H1 & H2 & H3 & H4)]; constructor; [|done].
  split_and!; try done. intros k Hk Hki. apply H4; lia.
Qed.
Lemma narrowed_transs i j l1 l2 l3 : (i <= j)%nat -> Forall2 (narrowed i) l1 l2 ->
  Forall2 (narrowed j) l2 l3 -> Forall2 (narrowed i) l1 l3.
Proof.
  intros Hle H. revert l3; induction H; intros l3 H'; inversion H'; subst; constructor; eauto.
  by eapply narrowed_trans.
Qed.

(** The plan over the slots from [index] on. *)
Record slots_planned m (req : bool) (index : nat) (subs : list (option Subscriber))
    (adds : list Stored) (dels : list (list (option Z)))
    (adds' : list Stored) (dels' : list (list (option Z))) (drops : list (gset Z)) : Prop := {
  sp_length : length drops = length subs;
  sp_adds : Forall2 (narrowed index) adds adds';
  sp_dels : Forall2 narrowed_sel dels dels';
  sp_aligned : Forall2 aligned adds' dels';
  sp_fits : forall j s, subs !! j = Some (Some s) ->
    chosen (index + j) adds' = []
    \/ slot_fits m s (default ∅ (drops !! j)) (len (chosen (index + j) adds'))
         (entries_bytes (chosen (index + j) adds'));
  sp_optional : forall j k, k ∈ default ∅ (drops !! j) ->
    req = false /\ from_option required false (get k m) = false;
  sp_required : req = true -> adds' = adds /\ dels' = dels }.

Lemma plan_subscribers_spec m req index subs adds dels adds' dels' drops :
  (index + length subs <= 16)%nat -> Forall2 aligned adds dels ->
  (forall j s, subs !! j = Some (Some s) -> sub_ok m s) ->
  plan_subscribers m req index subs adds dels = Some (adds', dels', drops) ->
  slots_planned m req index subs adds dels adds' dels' drops.
Proof.
  revert index adds dels adds' dels' drops.
  induction subs as [|o subs IH]; intros index adds dels adds' dels' drops Hlen Hal Hok Hp;
    cbn [plan_subscribers] in Hp.
  { simplify_eq. constructor; auto using narrowed_refls, narrowed_sel_refls;
      intros j *; rewrite lookup_nil; (done || set_solver). }
  cbn [length] in Hlen.
  (* one slot: what it withdraws and drops, then the later slots *)
  assert (Hstep : forall adds1 dels1 dropped adds' dels' rest,
    plan_subscribers m req (S index) subs adds1 dels1 = Some (adds', dels', rest) ->
    Forall2 (narrowed index) adds adds1 -> Forall2 narrowed_sel dels dels1 ->
    Forall2 aligned adds1 dels1 ->
    (forall s, o = Some s -> chosen index adds1 = []
       \/ slot_fits m s dropped (len (chosen index adds1)) (entries_bytes (chosen index adds1))) ->
    (forall k, k ∈ dropped -> req = false /\ from_option required false (get k m) = false) ->
    (req = true -> adds1 = adds /\ dels1 = dels) ->
    slots_planned m req index (o :: subs) adds dels adds' dels' (dropped :: rest)).
  { intros adds1 dels1 dropped adds2 dels2 rest Hr Ha1 Hd1 Hal1 Hfit Hopt Hreq.
    assert (Hlt : (S index + length subs <= 16)%nat) by lia.
    destruct (IH _ _ _ _ _ _ Hlt Hal1 (fun j => Hok (S j)) Hr) as [P1 P2 P3 P4 P5 P6 P7].
    constructor; try done.
    - cbn. by rewrite P1.
    - eapply (narrowed_transs index (S index)); [lia|done..].
    - by eapply narrowed_sel_trans.
    - intros [|j] s Hs; cbn in *.
      + injection Hs as ->. rewrite Nat.add_0_r.
        destruct (chosen_ext (S index) index adds1 adds2 ltac:(lia) ltac:(lia) P2) as [El Eb].
        rewrite El, Eb. destruct (Hfit s eq_refl) as [Hc|]; [left|by right].
        rewrite Hc in El. apply len_0. done.
      + replace (index + S j)%nat with (S index + j)%nat by lia. by apply P5.
    - intros [|j] k; cbn; [apply Hopt|apply P6].
    - intros Ht. destruct (P7 Ht) as [-> ->]. by apply Hreq. }
  destruct o as [s|].
  2:{ apply bind_Some in Hp as ([[a d] rest] & Hr & Hp). simplify_eq.
      eapply Hstep; try done; auto using narrowed_refls, narrowed_sel_refls. }
  cbv zeta in Hp. fold (chosen index adds) in Hp. fold (entries_bytes (chosen index adds)) in Hp.
  destruct (Z.eqb_spec (len (chosen index adds)) 0) as [Hz|Hz].
  { apply bind_Some in Hp as ([[a d] rest] & Hr & Hp). simplify_eq.
    eapply Hstep; try done; auto using narrowed_refls, narrowed_sel_refls.
    intros s' [= <-]. left. by apply len_0. }
  destruct (if _ && _ then _ else _) as [acc dropped] eqn:Hq in Hp. destruct acc.
  - apply bind_Some in Hp as ([[a d] rest] & Hr & Hp). simplify_eq.
    destruct (_ && _) eqn:Hlim in Hq; [|done]. bool_hyps.
    eapply Hstep; try done; [apply narrowed_refls|apply narrowed_sel_refls| |].
    + intros s' [= <-]. right. eapply plan_queue_fits; try done. by apply (Hok 0%nat).
    + apply plan_queue_spec in Hq as (q1 & q2 & _ & -> & _ & Hr1 & HF).
      intros k Hk. rewrite union_empty_l_L, elem_of_list_to_set in Hk.
      apply list_elem_of_In, in_map_iff in Hk as (x & <- & Hx%list_elem_of_In).
      rewrite Forall_forall in HF. split; [|by apply HF].
      destruct Hr1 as [->|]; [set_solver|done].
  - destruct req; [done|]. apply bind_Some in Hp as ([[a d] rest] & Hr & Hp). simplify_eq.
    destruct (unselect_aligned index adds dels ltac:(lia) Hal) as [Hal1 Hsel].
    eapply Hstep; try done; [apply drop_claim_narrowed; lia|].
    intros s' [= <-]. left. apply drop_claim_chosen. lia.
Qed.

(** ** Projected totals *)

(** The records that are not dropped. *)
Definition outside (drops : gset Z) (m : list (Z * Stored)) : list (Z * Stored) :=
  List.filter (fun r => negb (bool_decide (r.1 ∈ drops))) m.
Definition session_of (x : string) (adds : list Stored) : Z :=
  foldr (fun e n => (if of_session x e then stored_bytes e else 0) + n) 0 adds.

Lemma outside_empty m : outside ∅ m = m.
Proof. unfold outside. induction m as [|r m IH]; [done|]. cbn. by rewrite IH. Qed.

Lemma outside_add k drops m :
  outside ({[ k ]} ∪ drops) m = List.filter (fun r => negb (r.1 =? k)) (outside drops m).
Proof.
  unfold outside. induction m as [|[k' e] m IH]; [done|]. cbn. rewrite IH.
  destruct (decide (k' = k)) as [->|Hne].
  - rewrite bool_decide_eq_true_2 by set_solver. cbn.
    destruct (negb (bool_decide (k ∈ drops))); [|done]. cbn. by rewrite Z.eqb_refl.
  - rewrite (bool_decide_ext (k' ∈ {[k]} ∪ drops) (k' ∈ drops)) by set_solver.
    destruct (negb (bool_decide (k' ∈ drops))); [|done]. cbn.
    by rewrite (proj2 (Z.eqb_neq k' k)).
Qed.

Lemma get_outside k drops m :
  get k (outside drops m) = if bool_decide (k ∈ drops) then None else get k m.
Proof.
  unfold outside. induction m as [|[k' e] m IH]; cbn; [by case_bool_decide|].
  destruct (decide (k = k')) as [->|Hne].
  - destruct (bool_decide (k' ∈ drops)); cbn; [done|]. by rewrite decide_True.
  - destruct (bool_decide (k' ∈ drops)); cbn; [done|]. by rewrite decide_False.
Qed.

Lemma outside_sorted drops m : StronglySorted Z.lt (keys m) -> StronglySorted Z.lt (keys (outside drops m)).
Proof. apply sorted_filter. Qed.

Lemma len_delete k e m : NoDup (keys m) -> get k m = Some e ->
  len m = 1 + len (List.filter (fun r => negb (r.1 =? k)) m).
Proof.
  induction m as [|[k' e'] m IH]; cbn; [done|]. rewrite NoDup_cons. intros [Hk Hnd].
  case_decide as Hd.
  - intros _. subst. rewrite Z.eqb_refl; cbn. rewrite len_cons. f_equal.
    clear IH. induction m as [|[k1 e1] m IH]; cbn in *; [done|].
    apply not_elem_of_cons in Hk as [? Hk]. apply NoDup_cons in Hnd as [_ Hnd].
    rewrite (proj2 (Z.eqb_neq k1 k')) by done. cbn. rewrite !len_cons. by rewrite <-IH.
  - intros Hg. rewrite (proj2 (Z.eqb_neq k' k)) by done. cbn. rewrite !len_cons, (IH Hnd Hg). lia.
Qed.

(** The totals count the records outside [drops] and the additions. *)
Record Totals m (adds : list Stored) (drops : gset Z) (t : Z * Z * gmap string Z) : Prop := {
  tt_bytes : t.1.1 = sum_of everything (outside drops m) + entries_bytes adds;
  tt_count : t.1.2 = len (outside drops m) + len adds;
  tt_session : forall x, default 0 (t.2 !! x) = sum_of (of_session x) (outside drops m) + session_of x adds;
  tt_known : forall k e, get k m = Some e -> is_Some (t.2 !! stored_session e) }.

Lemma evict_totals m adds drops t k e : StronglySorted Z.lt (keys m) -> get k m = Some e ->
  k ∉ drops -> Totals m adds drops t -> Totals m adds ({[ k ]} ∪ drops) (evict e t).
Proof.
  intros Hs Hg Hk [T1 T2 T3 T4]. destruct t as [[b c] s]. cbn in *.
  assert (Hg' : get k (outside drops m) = Some e).
  { rewrite get_outside. by rewrite bool_decide_eq_false_2. }
  pose proof (sorted_NoDup _ (outside_sorted drops m Hs)) as Hnd.
  assert (Hx : forall x, default 0 (alter (fun n => n - stored_bytes e) (stored_session e) s !! x)
    = default 0 (s !! x) - (if of_session x e then stored_bytes e else 0)).
  { intros x. unfold of_session. destruct (decide (stored_session e = x)) as [<-|Hne].
    - rewrite lookup_alter_eq, bool_decide_eq_true_2 by done.
      destruct (T4 k e Hg) as [n Hn]. rewrite Hn. done.
    - rewrite lookup_alter_ne, bool_decide_eq_false_2 by done. lia. }
  constructor; cbn.
  - rewrite outside_add. rewrite (sum_of_delete everything k e _ Hnd Hg') in T1. cbn in T1. lia.
  - rewrite outside_add. rewrite (len_delete k e _ Hnd Hg') in T2. lia.
  - intros x. rewrite Hx, outside_add, T3.
    rewrite (sum_of_delete (of_session x) k e (outside drops m) Hnd Hg'). lia.
  - intros k' e' He'. destruct (T4 k' e' He') as [n Hn].
    destruct (decide (stored_session e = stored_session e')) as [Heq|Hne].
    + rewrite Heq, lookup_alter_eq, Hn. by eexists.
    + rewrite lookup_alter_ne by done. by exists n.
Qed.

Section Drops.
Context (m : list (Z * Stored)) (adds : list Stored) (Hs : StronglySorted Z.lt (keys m)).

Lemma drop_abandoned_spec local recs drops t drops' t' :
  NoDup (keys recs) -> (forall k e, get k recs = Some e -> get k m = Some e) ->
  (forall k, k ∈ keys recs -> k ∉ drops) -> Totals m adds drops t ->
  drop_abandoned local recs drops t = (drops', t') ->
  Totals m adds drops' t'
  /\ forall k, k ∈ drops' <-> k ∈ drops \/ exists e, get k recs = Some e /\ abandoned local k e = true.
Proof.
  revert drops t; induction recs as [|[k e] recs IH]; intros drops t Hnd Hin Hdis HT Hd; cbn in Hd.
  { simplify_eq. split; [done|]. intros k. cbn. naive_solver. }
  apply NoDup_cons in Hnd as [Hk Hnd].
  assert (Hin' : forall k' e', get k' recs = Some e' -> get k' m = Some e').
  { intros k' e' Hg. apply Hin. cbn. rewrite decide_False; [done|]. intros ->.
    apply Hk. apply get_is_Some. by exists e'. }
  assert (Hke : get k m = Some e) by (apply Hin; cbn; by rewrite decide_True).
  assert (Hmem : forall k', (exists e', get k' ((k, e) :: recs) = Some e' /\ abandoned local k' e' = true)
    <-> (k' = k /\ abandoned local k e = true) \/ exists e', get k' recs = Some e' /\ abandoned local k' e' = true).
  { intros k'. cbn. case_decide as Heq; [subst|naive_solver].
    assert (get k recs = None) as -> by by apply get_None. naive_solver. }
  destruct (abandoned local k e) eqn:Ha.
  - eapply IH in Hd as [HT' Hd']; [|done|done| |].
    + split; [done|]. intros k'. rewrite Hd', Hmem. set_solver.
    + intros k' Hk'. assert (k' <> k) by (intros ->; done).
      specialize (Hdis k' ltac:(cbn; set_solver)). set_solver.
    + apply evict_totals; try done. apply Hdis. cbn. set_solver.
  - eapply IH in Hd as [HT' Hd']; [|done|done| |done].
    + split; [done|]. intros k'. rewrite Hd', Hmem. naive_solver.
    + intros k' Hk'. apply Hdis. cbn. set_solver.
Qed.

Lemma drop_oldest_spec st req recs drops t drops' t' :
  NoDup (keys recs) -> (forall k e, get k recs = Some e -> get k m = Some e) ->
  Totals m adds drops t -> drop_oldest st req recs drops t = Some (drops', t') ->
  Totals m adds drops' t' /\ drops ⊆ drops'
  /\ forall k, k ∈ drops' -> k ∈ drops \/ req = false /\ exists e, get k m = Some e /\ required e = false.
Proof.
  revert drops t; induction recs as [|[k e] recs IH]; intros drops t Hnd Hin HT Hd; cbn in Hd.
  { simplify_eq. split_and!; [done|done|naive_solver]. }
  apply NoDup_cons in Hnd as [Hk Hnd].
  assert (Hin' : forall k' e', get k' recs = Some e' -> get k' m = Some e').
  { intros k' e' Hg. apply Hin. cbn. rewrite decide_False; [done|]. intros ->.
    apply Hk. apply get_is_Some. by exists e'. }
  assert (Hke : get k m = Some e) by (apply Hin; cbn; by rewrite decide_True).
  destruct t as [[b c] s]. destruct (fits st b c s); [by simplify_eq; split_and!; naive_solver|].
  case_bool_decide as Hkd; [by eapply IH|].
  destruct (req || required e) eqn:Hr; [done|]. bool_hyps.
  eapply IH in Hd as (HT' & Hsub & Hd'); [|done|done|by apply evict_totals].
  split_and!; [done|set_solver|]. intros k' Hk'.
  destruct (Hd' k' Hk') as [Hx|?]; [|by right]. apply elem_of_union in Hx as [Hx|?]; [|by left].
  right. apply elem_of_singleton in Hx as ->. split; [done|]. by exists e.
Qed.
End Drops.

(** ** Appending *)

Definition pushed (s : Subscriber) (d k b : Z) : Subscriber :=
  mkSubscriber (sub_id s) (scope s) (limits s) (sub_next s) (issued s) (queue s ++ [(d, k)])
    (sub_bytes s + b).

Lemma enqueue_lookup k b sel subs i : length sel = length subs ->
  enqueue k b sel subs !! i =
    match subs !! i with
    | Some (Some s) =>
        Some (match sel !! i with Some (Some d) => Some (pushed s d k b) | _ => Some s end)
    | o => o
    end.
Proof.
  revert subs i; induction sel as [|x sel IH]; intros [|o subs] i; cbn; try done.
  intros [= Hl]. destruct x as [d|], o as [s|], i as [|i]; cbn; try done; by apply IH.
Qed.

Lemma enqueue_length k b sel subs : length sel = length subs ->
  length (enqueue k b sel subs) = length subs.
Proof.
  revert subs; induction sel as [|x sel IH]; intros [|o subs]; cbn; try done.
  intros [= Hl]. destruct x, o; cbn; by rewrite IH.
Qed.

(** The slots an addition selected can take it. *)
Definition slot_ready (subs : list (option Subscriber)) (a : Stored) (sel : list (option Z)) : Prop :=
  forall i d, sel !! i = Some (Some d) -> exists s, subs !! i = Some (Some s)
    /\ permits (scope s) (event (record a)) = true /\ Forall (fun q => q.1 < d) (queue s)
    /\ 1 <= d < sub_next s /\ len (queue s) + 1 <= limit_events (limits s)
    /\ sub_bytes s + stored_bytes a <= limit_bytes (limits s).

(** A new record beyond every key: the lookups. *)
Lemma get_new k e m k' : Forall (fun x => x < k) (keys m) ->
  get k' (m ++ [(k, e)]) = if decide (k' = k) then Some e else get k' m.
Proof.
  intros Hk. rewrite get_app. cbn. destruct (decide (k' = k)) as [->|Hne].
  - assert (get k m = None) as ->; [|done]. apply get_None. intros Hin.
    rewrite Forall_forall in Hk. specialize (Hk k Hin). lia.
  - by destruct (get k' m).
Qed.

Lemma acct_append st a sel : Acct_st st -> 0 < stored_bytes a ->
  Forall (fun x => x < event_id (record a)) (keys (stored st)) -> Acct_st (append a sel st).
Proof.
  intros [Hs He Hb Hss Hnz] Hpos Hk. unfold Acct_st, append. cbn.
  rewrite store_last by done. constructor.
  - unfold keys. rewrite map_app. by apply sorted_app_one.
  - apply Forall_app. split; [done|]. by repeat constructor.
  - rewrite sum_of_app, Hb. cbn. lia.
  - intros s. rewrite sum_of_app, <-Hss. cbn. unfold of_session.
    destruct (decide (stored_session a = s)) as [<-|Hne].
    + rewrite lookup_insert_eq, bool_decide_eq_true_2 by done. cbn. lia.
    + rewrite lookup_insert_ne, bool_decide_eq_false_2 by done. lia.
  - intros s. destruct (decide (stored_session a = s)) as [<-|Hne].
    + rewrite lookup_insert_eq. intros [= Hz].
      assert (0 <= default 0 (session_bytes st !! stored_session a)); [|lia].
      rewrite Hss. apply sum_of_nonneg. eapply Forall_impl; [exact He|]. by intros ? [? ?].
    + by rewrite lookup_insert_ne.
Qed.

Lemma link_append st a sel : Acct_st st -> Link (stored st) (owner st) (subscribers st) ->
  Forall (fun x => x < event_id (record a)) (keys (stored st)) -> 0 < stored_bytes a ->
  owned a = true -> aligned a sel -> slot_ready (subscribers st) a sel ->
  let st' := append a sel st in Link (stored st') (owner st') (subscribers st').
Proof.
  intros HA HL Hk Hpos Ho (Hlen & Hr & Hal) Hready. cbn. rewrite store_last by done.
  set (k := event_id (record a)) in *. set (m := stored st) in *.
  set (subs := subscribers st) in *.
  pose proof (get_new k a m) as Hnew.
  assert (Hin : forall k' e, get k' m = Some e -> k' <> k).
  { intros k' e Hg ->. assert (k ∈ keys m) by (apply get_is_Some; by exists e).
    rewrite Forall_forall in Hk. specialize (Hk k ltac:(done)). lia. }
  assert (Hl : length sel = length subs) by (rewrite Hlen; symmetry; apply HL).
  pose proof (fun i => enqueue_lookup k (stored_bytes a) sel subs i Hl) as Henq.
  assert (Hqd : forall i k', queued (enqueue k (stored_bytes a) sel subs) i k' <->
    queued subs i k' \/ (k' = k /\ exists d, sel !! i = Some (Some d))).
  { intros i k'. unfold queued. rewrite Henq. split.
    - intros (s' & Hs' & Hk'). destruct (subs !! i) as [[s|]|] eqn:Hs; try done.
      destruct (sel !! i) as [[d|]|] eqn:Hd; injection Hs' as <-; [|left; by exists s..].
      cbn in Hk'. rewrite map_app, elem_of_app in Hk'. destruct Hk' as [?|Hk'%list_elem_of_singleton].
      + left. by exists s.
      + right. split; [done|]. by exists d.
    - intros [(s & Hs & Hk')|[-> (d & Hd)]].
      + rewrite Hs. destruct (sel !! i) as [[d|]|]; [|by exists s..].
        exists (pushed s d k (stored_bytes a)). split; [done|].
        cbn. rewrite map_app, elem_of_app. by left.
      + destruct (Hready i d Hd) as (s & Hs & _). rewrite Hs, Hd.
        exists (pushed s d k (stored_bytes a)). split; [done|].
        cbn. rewrite map_app, elem_of_app. right. cbn. set_solver. }
  assert (Hfresh : forall i, ~ queued subs i k).
  { intros i Hq. destruct (link_present _ _ _ _ _ HL Hq) as (e & He). by apply (Hin k e). }
  constructor.
  - rewrite enqueue_length by done. apply HL.
  - apply sorted_app_one; [apply HL|]. apply Forall_forall. intros x Hx.
    apply (lk_owner _ _ _ HL) in Hx as (e & He & _). rewrite Forall_forall in Hk.
    apply Hk, get_is_Some. by exists e.
  - intros k'. rewrite elem_of_app, list_elem_of_singleton, (lk_owner _ _ _ HL). split.
    + intros [(e & He & ?)| ->].
      * exists e. rewrite Hnew by done. rewrite decide_False by (by eapply Hin). done.
      * exists a. rewrite Hnew by done. by rewrite decide_True.
    + intros (e & He & Hoe). rewrite Hnew in He by done. case_decide; [by right|left]. by exists e.
  - intros k' e He. rewrite Hnew in He by done. case_decide; [by simplify_eq|by eapply lk_mask].
  - intros k' e i He Hi. rewrite Hnew in He by done. rewrite Hqd. case_decide as Hd.
    + simplify_eq. rewrite Hal by done. pose proof (Hfresh i). naive_solver.
    + rewrite (lk_claims _ _ _ HL k' e i He Hi). naive_solver.
  - intros k' e He. rewrite Hnew in He by done. case_decide; [|by eapply lk_held].
    simplify_eq. unfold unclaimed. by rewrite Ho.
  - intros i s' Hs'. rewrite Henq in Hs'. destruct (subs !! i) as [[s|]|] eqn:Hs; try done.
    pose proof (lk_subs _ _ _ HL i s Hs) as Hok.
    assert (Hgrow : sub_ok (m ++ [(k, a)]) s).
    { eapply sub_ok_change; [|exact Hok]. intros x Hx. rewrite Hnew by done.
      rewrite decide_False; [done|]. intros Heq. apply (Hfresh i). exists s. split; [done|].
      rewrite <-Heq. apply list_elem_of_In, in_map. by apply list_elem_of_In. }
    destruct (sel !! i) as [[d|]|] eqn:Hd; injection Hs' as <-; [|done..].
    destruct (Hready i d Hd) as (s2 & Hs2 & Hp & Hlt & Hdr & Hle & Hlb).
    rewrite Hs in Hs2. injection Hs2 as <-.
    assert (Hsz : size_of (m ++ [(k, a)]) k = stored_bytes a).
    { unfold size_of. rewrite Hnew by done. by rewrite decide_True. }
    destruct Hgrow as [G1 G2 G3 G4 G5 G6 G7 G8].
    constructor; cbn [pushed sub_next issued queue scope limits sub_bytes]; try done.
    + rewrite map_app. apply sorted_app_one; [done|]. rewrite Forall_forall in Hlt.
      apply Forall_forall. intros x Hx. apply list_elem_of_In, in_map_iff in Hx as (q & <- & Hq%list_elem_of_In).
      by apply Hlt.
    + apply Forall_app. split; [done|]. constructor; [cbn; lia|constructor].
    + rewrite map_app. apply sorted_app_one; [done|]. apply Forall_forall. intros x Hx.
      apply list_elem_of_In, in_map_iff in Hx as (q & <- & Hq%list_elem_of_In).
      pose proof (so_present _ _ Hok) as Hpr. rewrite Forall_forall in Hpr.
      destruct (Hpr q Hq) as (e & He & _). rewrite Forall_forall in Hk. apply Hk, get_is_Some.
      by exists e.
    + apply Forall_app. split; [done|]. constructor; [|constructor]. exists a. cbn [snd].
      rewrite Hnew by done. by rewrite decide_True.
    + rewrite queue_bytes_app, G6. unfold queue_bytes at 3. cbn [foldr snd]. rewrite Hsz. lia.
    + rewrite len_app, len_cons. change (len []) with 0. lia.
Qed.

(** The additions of a batch: one entry per event, under consecutive identities. *)
Definition entry_of (req : bool) (a : Stored) (e : Event) : Prop :=
  event (record a) = e /\ owned a = true /\ required a = req /\ 0 < stored_bytes a.
Fixpoint numbered (first : Z) (adds : list Stored) : Prop :=
  match adds with
  | [] => True
  | a :: rest => event_id (record a) = first /\ numbered (first + 1) rest
  end.

Lemma numbered_narrowed i first adds adds' : Forall2 (narrowed i) adds adds' ->
  numbered first adds -> numbered first adds'.
Proof.
  intros H. revert first; induction H as [|a a' l l' (Hc & _) HF IH]; intros first; cbn; [done|].
  intros [Ha Hn]. split; [|by apply IH]. injection Hc as -> _ _. done.
Qed.
Lemma entries_narrowed i req adds adds' events : Forall2 (narrowed i) adds adds' ->
  Forall2 (entry_of req) adds events -> Forall2 (entry_of req) adds' events.
Proof.
  intros H. revert events; induction H as [|a a' l l' (Hc & Ho & _) HF IH]; intros events H';
    inversion H' as [|? e ? l2 (H1 & H2 & H3 & H4) H5]; constructor; [|by apply IH].
  unfold entry_of. injection Hc as -> -> ->. by rewrite Ho.
Qed.
Lemma totals_narrowed i adds adds' : Forall2 (narrowed i) adds adds' ->
  entries_bytes adds' = entries_bytes adds /\ forall x, session_of x adds' = session_of x adds.
Proof.
  unfold entries_bytes, session_of.
  induction 1 as [|a a' l l' (Hc & _) HF [IH1 IH2]]; [done|]. cbn.
  rewrite IH1, (core_bytes _ _ Hc). split; [done|]. intros x. cbn. rewrite IH2.
  unfold of_session. by rewrite (core_session _ _ Hc).
Qed.

Section Build.
Context `{Base64} (record_size : Record_ -> option Z).
(** A serialized record is not empty. *)
Context (record_size_pos : forall r b, record_size r = Some b -> 0 < b).

Lemma build_spec st req time first added projected events dels adds added' projected' :
  length dels = length events -> Forall (fun sel => length sel = 16%nat) dels ->
  build record_size st req time first added projected events dels = Plan (adds, added', projected') ->
  Forall2 (entry_of req) adds events /\ numbered first adds /\ Forall2 aligned adds dels
  /\ added' = added + entries_bytes adds
  /\ (forall x, default 0 (projected' !! x) = default 0 (projected !! x) + session_of x adds)
  /\ (forall x, is_Some (projected !! x) -> is_Some (projected' !! x)).
Proof.
  revert first added projected dels adds added' projected'.
  induction events as [|e events IH]; intros first added projected [|sel dels] adds added' projected'
    Hl HF Hb; try done; cbn [build] in Hb.
  { simplify_eq. split_and!; try constructor; try done; cbn; lia || (intros; lia). }
  injection Hl as Hl. apply Forall_cons in HF as [Hsel HF].
  destruct (_ || _) in Hb; [done|]. cbv zeta in Hb.
  destruct (record_size _) as [b|] eqn:Hsz in Hb; [|done].
  destruct (_ || _) in Hb; [done|].
  destruct (build _ _ _ _ _ _ _ _) as [[[more a2] p2]| |] eqn:Hr in Hb; simplify_eq.
  apply IH in Hr as (H1 & H2 & H3 & -> & H4 & H5); [|done|done].
  apply record_size_pos in Hsz.
  split_and!.
  - constructor; [|done]. by split_and!.
  - done.
  - constructor; [|done]. split_and!; [done|apply claims_mask_range; cbn; lia..|].
    intros i Hi. cbn [claims]. rewrite claims_mask_spec. rewrite Nat.sub_0_r.
    split; intros [d Hd]; exists d; [by destruct Hd|split; [lia|done]].
  - cbn. unfold entries_bytes. lia.
  - intros x. rewrite H4. unfold session_of. cbn. unfold of_session, stored_session. cbn.
    destruct (decide (session_id e = x)) as [<-|Hne].
    + rewrite lookup_insert_eq, bool_decide_eq_true_2 by done. cbn. lia.
    + rewrite lookup_insert_ne, bool_decide_eq_false_2 by done. lia.
  - intros x Hx. apply H5. destruct (decide (session_id e = x)) as [<-|Hne].
    + rewrite lookup_insert_eq. by eexists.
    + by rewrite lookup_insert_ne.
Qed.
End Build.

(** ** Releasing the local drops *)

Lemma kept_empty s : kept ∅ s = queue s.
Proof. unfold kept. induction (queue s) as [|q l IH]; [done|]. cbn. by rewrite IH. Qed.

(** The subscriber [s'] is [s] with the queue [q]. *)
Definition requeued (s s' : Subscriber) (q : list (Z * Z)) : Prop :=
  scope s' = scope s /\ limits s' = limits s /\ sub_next s' = sub_next s /\ queue s' = q.

Record locally_released (index : nat) (local : list (gset Z)) (st st' : State) : Prop := {
  lr_acct : Acct_st st';
  lr_link : Link (stored st') (owner st') (subscribers st');
  lr_frame : same_frame st st';
  lr_owner : owner st' = owner st;
  lr_sub : forall k e', get k (stored st') = Some e' -> exists e, get k (stored st) = Some e
    /\ core e' = core e /\ owned e' = owned e;
  lr_gone : forall k e, get k (stored st) = Some e -> get k (stored st') = None ->
    owned e = false /\ forall i, (i < 16)%nat -> has_slot (claims e) i = true ->
      (index <= i)%nat /\ k ∈ default ∅ (local !! (i - index)%nat);
  lr_queue : forall i s, subscribers st !! i = Some (Some s) -> exists s',
    subscribers st' !! i = Some (Some s')
    /\ requeued s s' (if decide (index <= i)%nat then kept (default ∅ (local !! (i - index)%nat)) s
                      else queue s) }.

Lemma lookup_released_subs m i j sources subs s :
  subs !! j = Some (Some s) ->
  released_subs m (Some i) sources subs !! j
  = Some (Some (if decide (i = j) then retain_queue m sources s else s)).
Proof.
  intros Hs. cbn. destruct (decide (i = j)) as [->|Hne].
  - by rewrite list_lookup_alter_eq, Hs.
  - by rewrite list_lookup_alter_ne.
Qed.

Lemma release_locals_spec index local st : (index + length local <= 16)%nat -> Acct_st st ->
  Link (stored st) (owner st) (subscribers st) ->
  locally_released index local st (release_locals index local st).
Proof.
  revert index st; induction local as [|sources local IH]; intros index st Hl HA HL; cbn [release_locals].
  { constructor; try done; [by eauto|congruence|]. intros i s Hs. exists s. split; [done|].
    split_and!; try done. case_decide; [|done]. by rewrite lookup_nil, kept_empty. }
  cbn [length] in Hl.
  set (st1 := if bool_decide (sources = ∅) then st else release sources (Some index) st).
  assert (H1 : Acct_st st1 /\ Link (stored st1) (owner st1) (subscribers st1) /\ same_frame st st1
    /\ owner st1 = owner st
    /\ (forall i s, subscribers st !! i = Some (Some s) -> exists s', subscribers st1 !! i = Some (Some s')
         /\ requeued s s' (if decide (index = i) then kept sources s else queue s))
    /\ (forall k, get k (stored st1) = if bool_decide (k ∈ sources)
          then get k (stored st) ≫= released (Some index) else get k (stored st))).
  { unfold st1. case_bool_decide as He.
    - subst sources. split_and!; try done. intros i s Hs. exists s. split; [done|].
      split_and!; try done. case_decide; [by rewrite kept_empty|done].
    - destruct (release_spec sources (Some index) st HA HL) as (R1 & R2 & R3 & R4 & R5 & R6).
      { intros i [= <-]. lia. }
      split_and!; try done. intros i s Hs.
      rewrite R5, (lookup_released_subs _ _ _ _ _ s Hs).
      eexists; split; [done|]. by case_decide. }
  destruct H1 as (HA1 & HL1 & Hf1 & Ho1 & Hq1 & Hg1).
  destruct (IH (S index) st1 ltac:(lia) HA1 HL1) as [L1 L2 L3 L4 L5 L6 L7].
  constructor; try done.
  - destruct Hf1 as (?&?&?&?&?), L3 as (?&?&?&?&?). repeat split; congruence.
  - congruence.
  - intros k e' He'. destruct (L5 k e' He') as (e1 & He1 & Hc & Ho). rewrite Hg1 in He1.
    case_bool_decide; [|by exists e1]. apply bind_Some in He1 as (e & He & Hr). exists e.
    unfold released in Hr. destruct (unclaimed _); [done|]. injection Hr as <-. by split_and!.
  - intros k e He Hnone. destruct (get k (stored st1)) as [e1|] eqn:He1.
    + destruct (L6 k e1 He1 Hnone) as [Ho Hs]. rewrite Hg1 in He1. case_bool_decide as Hk.
      * rewrite He in He1. cbn in He1. unfold released in He1. destruct (unclaimed _); simplify_eq.
        split; [done|]. intros i Hi Hi'. destruct (decide (index = i)) as [->|Hne].
        -- split; [lia|]. by rewrite Nat.sub_diag.
        -- destruct (Hs i Hi) as [Hle Hin].
           { cbn. rewrite clear_slot_spec, Hi', bool_decide_eq_false_2 by done. done. }
           split; [lia|]. by replace (i - index)%nat with (S (i - S index)) by lia.
      * rewrite He in He1. simplify_eq. split; [done|]. intros i Hi Hi'.
        destruct (Hs i Hi Hi') as [Hle Hin]. split; [lia|].
        by replace (i - index)%nat with (S (i - S index)) by lia.
    + rewrite Hg1, He in He1. case_bool_decide as Hk; [|done]. cbn in He1.
      unfold released in He1. destruct (unclaimed _) eqn:Hu; [|done].
      unfold unclaimed in Hu. apply andb_true_iff in Hu as [Ho Hz]. bool_hyps. cbn in *.
      split; [done|]. intros i Hi Hi'. destruct (decide (index = i)) as [->|Hne].
      * split; [lia|]. by rewrite Nat.sub_diag.
      * assert (Hx : has_slot (clear_slot (claims e) index) i = true).
        { rewrite clear_slot_spec, Hi', bool_decide_eq_false_2 by done. done. }
        rewrite Hz in Hx. by rewrite has_slot_spec, Z.bits_0 in Hx.
  - intros i s Hs. destruct (Hq1 i s Hs) as (s1 & Hs1 & (A1 & A2 & A3 & A4)).
    destruct (L7 i s1 Hs1) as (s2 & Hs2 & (B1 & B2 & B3 & B4)).
    exists s2. split; [done|]. split_and!; try congruence. rewrite B4.
    destruct (decide (index = i)) as [->|Hne].
    + rewrite decide_False by lia. rewrite decide_True by lia. rewrite A4.
      rewrite Nat.sub_diag. done.
    + destruct (decide (S index <= i)%nat).
      * rewrite decide_True by lia. replace (i - index)%nat with (S (i - S index)) by lia.
        cbn. unfold kept. by rewrite A4.
      * rewrite decide_False by lia. done.
Qed.

(** ** Appending the whole batch *)

(** Room for the additions that chose slot [i]. *)
Definition slot_room (s : Subscriber) (i : nat) (adds : list Stored) : Prop :=
  chosen i adds = []
  \/ (len (queue s) + len (chosen i adds) <= limit_events (limits s)
      /\ sub_bytes s + entries_bytes (chosen i adds) <= limit_bytes (limits s)).

(** The counters of the assignment run behind the subscribers' own. *)
Definition tracks (vsubs vsubs' : list (option Subscriber)) (subs : list (option Subscriber))
    (adds : list Stored) : Prop :=
  length subs = length vsubs
  /\ forall i v, vsubs !! i = Some (Some v) -> exists s v', subs !! i = Some (Some s)
       /\ scope s = scope v /\ Forall (fun q => q.1 < sub_next v) (queue s) /\ 1 <= sub_next v
       /\ vsubs' !! i = Some (Some v') /\ sub_next v' = sub_next s /\ slot_room s i adds.

Lemma chosen_bytes_nonneg i req adds events : Forall2 (entry_of req) adds events ->
  0 <= entries_bytes (chosen i adds).
Proof.
  unfold entries_bytes, chosen. induction 1 as [|a e l l' (_ & _ & _ & Hp) HF IH]; [done|].
  cbn. destruct (has_slot _ _); cbn; lia.
Qed.

Lemma append_all_spec events vsubs vsubs' dels0 dels adds st first req :
  assign_all events vsubs = (vsubs', Some dels0) ->
  Forall2 narrowed_sel dels0 dels -> Forall2 aligned adds dels ->
  Forall2 (entry_of req) adds events -> numbered first adds ->
  Acct_st st -> Link (stored st) (owner st) (subscribers st) ->
  Forall (fun k => k < first) (keys (stored st)) -> length vsubs = 16%nat ->
  tracks vsubs vsubs' (subscribers st) adds ->
  let st' := append_all adds dels st in
  Acct_st st' /\ Link (stored st') (owner st') (subscribers st') /\ same_frame st st'
  /\ stored st' = stored st ++ map (fun a => (event_id (record a), a)) adds
  /\ owner st' = owner st ++ map (fun a => event_id (record a)) adds.
Proof.
  revert vsubs dels0 dels adds st first.
  induction events as [|e events IH]; intros vsubs dels0 dels adds st first Has Hns Hal Hen Hnum HA HL
    Hk Hlen Htr; cbn in Has.
  { inversion Hen; subst. inversion Hal; subst. cbn. rewrite !app_nil_r. done. }
  destruct (assign e vsubs) as [vsubs1 [sel0|]] eqn:He; [|done].
  destruct (assign_all events vsubs1) as [vsubs2 [dels1|]] eqn:Hr; cbn in Has; simplify_eq.
  inversion Hen as [|a ? adds1 ? (Hev & Hown & Hreq & Hpos) Hen1]; subst.
  inversion Hal as [|? sel ? dels2 Ha Hal1]; subst.
  inversion Hns as [|? ? ? ? Hn1 Hns1]; subst.
  destruct Hnum as [Hid Hnum].
  destruct (assign_spec _ _ _ _ He) as (Hb1 & Hl1 & Hsel0).
  pose proof (assign_all_bumps events vsubs1) as Hb2. rewrite Hr in Hb2. cbn in Hb2.
  destruct Htr as [Htl Htr].
  destruct Ha as (Hal_len & Hrange & Hslots).
  assert (Hready : slot_ready (subscribers st) a sel).
  { intros i d Hd. assert (Hd0 := Hn1 i d Hd). apply Hsel0 in Hd0 as (v & v1 & Hv & Hp & -> & Hv1 & Hv1n).
    destruct (Htr i v Hv) as (s & v' & Hs & Hsc & Hq & Hge & Hv' & Hvn & Hroom).
    destruct (slots_lookup_l _ _ _ _ Hb2 Hv1) as (v2 & Hv2 & (_&_&_&_&_&_&Hle)).
    rewrite Hv' in Hv2. injection Hv2 as <-.
    assert (Hi : (i < 16)%nat).
    { rewrite <-Hal_len. by eapply lookup_lt_Some. }
    assert (Hbit : has_slot (claims a) i = true) by (apply Hslots; [done|by eexists]).
    unfold slot_room, chosen in Hroom. cbn in Hroom. rewrite Hbit in Hroom.
    destruct Hroom as [?|[Hr1 Hr2]]; [done|]. rewrite len_cons in Hr1.
    exists s. pose proof (len_nonneg (List.filter (fun e => has_slot (claims e) i) adds1)).
    pose proof (chosen_bytes_nonneg i _ _ _ Hen1) as Hnn.
    unfold chosen, entries_bytes in Hr2, Hnn |- *. cbn in Hr2.
    split_and!; try done; try lia. by rewrite Hsc. }
  assert (Hk1 : Forall (fun x => x < event_id (record a)) (keys (stored st))) by by rewrite Hid.
  pose proof (acct_append st a sel HA Hpos Hk1) as HA1.
  pose proof (link_append st a sel HA HL Hk1 Hpos Hown (conj Hal_len (conj Hrange Hslots)) Hready) as HL1.
  cbn zeta in HL1.
  assert (Hst1 : stored (append a sel st) = stored st ++ [(event_id (record a), a)]).
  { cbn. by rewrite store_last. }
  assert (Hl : length sel = length (subscribers st)) by congruence.
  edestruct (IH vsubs1 dels1 dels2 adds1 (append a sel st) (event_id (record a) + 1)) as (R1 & R2 & R3 & R4 & R5);
    try done.
  - by rewrite Hid.
  - rewrite Hst1. unfold keys. rewrite map_app. apply Forall_app. split.
    + eapply Forall_impl; [exact Hk1|]. intros; cbn in *; lia.
    + constructor; [cbn; lia|constructor].
  - rewrite <-Hlen. symmetry. by eapply Forall2_length.
  - split; [cbn; rewrite enqueue_length by done; rewrite Htl; by eapply Forall2_length|].
    intros i v1 Hv1. destruct (slots_lookup _ _ _ _ Hb1 Hv1) as (v & Hv & Hbv).
    destruct (Htr i v Hv) as (s & v' & Hs & Hsc & Hq & Hge & Hv' & Hvn & Hroom).
    destruct Hbv as (_ & Hsc1 & _ & _ & _ & _ & Hle).
    cbn. rewrite enqueue_lookup, Hs by done.
    destruct (sel !! i) as [[d|]|] eqn:Hd.
    + assert (Hd0 := Hn1 i d Hd). apply Hsel0 in Hd0 as (v0 & v10 & Hv0 & Hp & Hdv & Hv10 & Hv1n).
      simplify_eq. eexists _, v'. split; [done|]. cbn. split_and!; try done; [congruence| |lia|].
      * apply Forall_app. split; [eapply Forall_impl; [exact Hq|]; intros; cbn in *; lia|].
        constructor; [cbn; lia|constructor].
      * assert (Hi : (i < 16)%nat) by (rewrite <-Hal_len; by eapply lookup_lt_Some).
        assert (Hbit : has_slot (claims a) i = true) by (apply Hslots; [done|by eexists]).
        unfold slot_room, chosen in Hroom |- *. cbn in Hroom. rewrite Hbit in Hroom.
        destruct Hroom as [?|[Hr1 Hr2]]; [done|]. right. cbn.
        rewrite len_cons in Hr1. rewrite len_app, len_cons. change (len []) with 0.
        unfold entries_bytes in Hr2 |- *. cbn in Hr2. lia.
    + exists s, v'. split; [done|]. split_and!; try done; [congruence| |lia|].
      * eapply Forall_impl; [exact Hq|]. intros; cbn in *; lia.
      * assert (Hi : (i < 16)%nat) by (rewrite <-Hal_len; by eapply lookup_lt_Some).
        unfold slot_room, chosen in Hroom |- *. cbn in Hroom.
        destruct (has_slot (claims a) i) eqn:Hbit; [|done].
        apply Hslots in Hbit as [d ?]; [congruence|done].
    + exfalso. apply lookup_ge_None in Hd. apply lookup_lt_Some in Hs. lia.
  - cbn [append_all]. split_and!; try done.
    + rewrite R4, Hst1. by rewrite <-app_assoc.
    + rewrite R5. cbn. by rewrite <-app_assoc.
Qed.

(** ** Applying a plan *)

(** The counters of an assignment, slot by slot. *)
Lemma assign_all_tracks events subs subs' dels : assign_all events subs = (subs', Some dels) ->
  forall i v, subs !! i = Some (Some v) -> exists v', subs' !! i = Some (Some v') /\ bumped v v'.
Proof.
  intros Ha i v Hv. pose proof (assign_all_bumps events subs) as Hb. rewrite Ha in Hb. cbn in Hb.
  by eapply slots_lookup_l.
Qed.

Lemma queue_bytes_filter_le m p q : (forall k, 0 <= size_of m k) ->
  queue_bytes m (List.filter p q) <= queue_bytes m q.
Proof.
  intros Hsz. rewrite (queue_bytes_split m p q).
  pose proof (queue_bytes_nonneg m (List.filter (fun x => negb (p x)) q) Hsz). lia.
Qed.

(** Once the drops are released and removed: what is left, and that every slot
    has the room its plan promised. *)
Lemma drops_spec st local drops adds : Acct_st st -> Link (stored st) (owner st) (subscribers st) ->
  length local = 16%nat ->
  (forall k e, get k (stored st) = Some e -> abandoned local k e = true -> k ∈ drops) ->
  (forall i s, subscribers st !! i = Some (Some s) -> chosen i adds = []
     \/ slot_fits (stored st) s (default ∅ (local !! i)) (len (chosen i adds)) (entries_bytes (chosen i adds))) ->
  let st1 := release_locals 0 local st in
  let st2 := if bool_decide (drops = ∅) then st1 else remove drops st1 in
  Acct_st st2 /\ Link (stored st2) (owner st2) (subscribers st2) /\ same_frame st st2
  /\ (forall k, core <$> get k (stored st2) = core <$> get k (outside drops (stored st)))
  /\ owner st2 = List.filter (fun k => negb (bool_decide (k ∈ drops))) (owner st)
  /\ forall i s, subscribers st !! i = Some (Some s) -> exists s2, subscribers st2 !! i = Some (Some s2)
       /\ scope s2 = scope s /\ limits s2 = limits s /\ sub_next s2 = sub_next s
       /\ (forall q, q ∈ queue s2 -> q ∈ queue s) /\ slot_room s2 i adds.
Proof.
  intros HA HL Hlen Hab Hfits st1 st2.
  destruct (release_locals_spec 0 local st ltac:(lia) HA HL) as [A1 L1 F1 O1 S1 G1 Q1].
  fold st1 in A1, L1, F1, O1, S1, G1, Q1.
  assert (H2 : Acct_st st2 /\ Link (stored st2) (owner st2) (subscribers st2) /\ same_frame st1 st2
    /\ (forall k, get k (stored st2) = if bool_decide (k ∈ drops) then None else get k (stored st1))
    /\ owner st2 = List.filter (fun k => negb (bool_decide (k ∈ drops))) (owner st1)
    /\ forall i s, subscribers st1 !! i = Some (Some s) -> exists s2, subscribers st2 !! i = Some (Some s2)
         /\ requeued s s2 (kept drops s)).
  { unfold st2. case_bool_decide as He.
    - subst drops. split_and!; try done.
      + clear. induction (owner st1) as [|x l IH]; [done|]. cbn. by rewrite <-IH.
      + intros i s Hs. exists s. split; [done|]. split_and!; try done. by rewrite kept_empty.
    - destruct (remove_spec drops st1 A1 L1) as (R1 & R2 & R3 & R4 & R5 & R6).
      split_and!; try done. intros i s Hs. exists (retain_queue (stored st1) drops s).
      split; [|done]. rewrite R5. apply lookup_map_retain. by exists s. }
  destruct H2 as (A2 & L2 & F2 & G2 & O2 & Q2).
  assert (Hcore : forall k, core <$> get k (stored st2) = core <$> get k (outside drops (stored st))).
  { intros k. rewrite G2, get_outside. case_bool_decide as Hk; [done|].
    destruct (get k (stored st1)) as [e'|] eqn:He'.
    - destruct (S1 k e' He') as (e & -> & Hc & _). cbn. by rewrite Hc.
    - destruct (get k (stored st)) as [e|] eqn:He; [|done]. exfalso. apply Hk, (Hab k e He).
      destruct (G1 k e He He') as [Ho Hs]. unfold abandoned. rewrite Ho. cbn [negb andb].
      apply forallb_Forall, Forall_forall. intros i Hi. unfold slots in Hi.
      apply list_elem_of_In, in_seq in Hi. destruct (has_slot (claims e) i) eqn:Hb; [|done].
      destruct (Hs i ltac:(lia) Hb) as [_ Hin]. cbn. apply bool_decide_eq_true.
      by rewrite Nat.sub_0_r in Hin. }
  split_and!; try done.
  - destruct F1 as (?&?&?&?&?), F2 as (?&?&?&?&?). repeat split; congruence.
  - by rewrite O2, O1.
  - intros i s Hs. destruct (Q1 i s Hs) as (s1 & Hs1 & (B1 & B2 & B3 & B4)).
    destruct (Q2 i s1 Hs1) as (s2 & Hs2 & (C1 & C2 & C3 & C4)).
    rewrite decide_True, Nat.sub_0_r in B4 by lia.
    exists s2. split_and!; try done; try congruence.
    + intros q Hq. rewrite C4 in Hq. unfold kept in Hq.
      apply list_elem_of_In, filter_In in Hq as [Hq _]. rewrite B4 in Hq. unfold kept in Hq.
      apply filter_In in Hq as [Hq _]. by apply list_elem_of_In.
    + destruct (Hfits i s Hs) as [Hc|[Hf1 Hf2]]; [by left|right].
      rewrite C2, B2. unfold kept in C4 at 1.
      pose proof (len_filter_le (fun x => negb (bool_decide (x.2 ∈ drops))) (queue s1)) as Hle.
      rewrite C4. rewrite B4 in Hle |- *. split; [lia|].
      rewrite (so_bytes _ _ (lk_subs _ _ _ L2 i s2 Hs2)).
      rewrite <-(queue_bytes_ext (stored st2) (stored st)).
      * rewrite C4, B4.
        pose proof (queue_bytes_filter_le (stored st)
          (fun x => negb (bool_decide (x.2 ∈ drops))) (kept (default ∅ (local !! i)) s)
          (fun k => acct_size_st st k HA)). lia.
      * intros x Hx. pose proof (so_present _ _ (lk_subs _ _ _ L2 i s2 Hs2)) as Hp.
        rewrite Forall_forall in Hp. destruct (Hp x Hx) as (e & He & _).
        rewrite Hcore, get_outside. rewrite G2 in He. by case_bool_decide.
Qed.

(** ** The batch *)

(** The deliveries a batch adds to slot [i]. *)
Fixpoint slot_new (i : nat) (adds : list Stored) (dels : list (list (option Z))) : list (Z * Z) :=
  match adds, dels with
  | a :: adds, sel :: dels =>
      match sel !! i with
      | Some (Some d) => (d, event_id (record a)) :: slot_new i adds dels
      | _ => slot_new i adds dels
      end
  | _, _ => []
  end.

Lemma append_all_queue i adds dels st s : Forall2 aligned adds dels ->
  length (subscribers st) = 16%nat -> subscribers st !! i = Some (Some s) ->
  exists s', subscribers (append_all adds dels st) !! i = Some (Some s')
    /\ scope s' = scope s /\ queue s' = queue s ++ slot_new i adds dels.
Proof.
  intros H. revert st s; induction H as [|a sel adds dels (Hl & _) HF IH]; intros st s Hlen Hs;
    cbn [append_all slot_new]; [exists s; by rewrite app_nil_r|].
  assert (Hl' : length sel = length (subscribers st)) by congruence.
  assert (Hs1 : exists s1, subscribers (append a sel st) !! i = Some (Some s1) /\ scope s1 = scope s
    /\ queue s1 = queue s ++ match sel !! i with Some (Some d) => [(d, event_id (record a))] | _ => [] end).
  { cbn. rewrite enqueue_lookup, Hs by done.
    destruct (sel !! i) as [[d|]|]; eexists; split; try done; by rewrite app_nil_r. }
  destruct Hs1 as (s1 & Hs1 & Hsc1 & Hq1).
  destruct (IH (append a sel st) s1) as (s2 & Hs2 & Hsc2 & Hq2); [cbn; by rewrite enqueue_length|done|].
  exists s2. split; [done|]. split; [congruence|]. rewrite Hq2, Hq1, <-app_assoc.
  by destruct (sel !! i) as [[d|]|].
Qed.

Lemma assign_all_permits events vsubs vsubs' dels : assign_all events vsubs = (vsubs', Some dels) ->
  forall j e sel i v, events !! j = Some e -> dels !! j = Some sel -> vsubs !! i = Some (Some v) ->
    permits (scope v) e = true -> exists d, sel !! i = Some (Some d).
Proof.
  revert vsubs dels; induction events as [|e0 events IH]; intros vsubs dels Ha j e sel i v He Hd Hv Hp;
    cbn in Ha; [done|].
  destruct (assign e0 vsubs) as [vsubs1 [sel0|]] eqn:E0; [|done].
  destruct (assign_all events vsubs1) as [vsubs2 [dels1|]] eqn:Hr; cbn in Ha; simplify_eq.
  destruct (assign_spec _ _ _ _ E0) as (Hb & Hl & Hsel).
  destruct (slots_lookup_l _ _ _ _ Hb Hv) as (v1 & Hv1 & (_ & Hsc & _)).
  destruct j as [|j]; cbn in He, Hd; simplify_eq.
  - destruct (lookup_lt_is_Some_2 sel i) as [[d|] Hi].
    { rewrite Hl. by eapply lookup_lt_Some. }
    + by exists d.
    + exfalso. clear -E0 Hv Hp Hi. revert vsubs vsubs1 sel i E0 Hv Hi.
      induction vsubs as [|o vsubs IH]; intros vsubs1 sel i E0 Hv Hi; [done|]. cbn in E0.
      destruct o as [s|].
      * destruct (permits (scope s) e) eqn:Hps.
        -- destruct (checked_add (sub_next s) 1); [|done].
           destruct (assign e vsubs) as [r [rs|]] eqn:Hr; cbn in E0; simplify_eq.
           destruct i as [|i]; [done|]. by apply (IH _ _ i eq_refl).
        -- destruct (assign e vsubs) as [r [rs|]] eqn:Hr; cbn in E0; simplify_eq.
           destruct i as [|i]; [cbn in Hv; congruence|]. by apply (IH _ _ i eq_refl).
      * destruct (assign e vsubs) as [r [rs|]] eqn:Hr; cbn in E0; simplify_eq.
        destruct i as [|i]; [done|]. by apply (IH _ _ i eq_refl).
  - eapply IH; [exact Hr|done..|]. by rewrite Hsc.
Qed.

Lemma slot_new_in i adds dels j a sel d : adds !! j = Some a -> dels !! j = Some sel ->
  sel !! i = Some (Some d) -> (d, event_id (record a)) ∈ slot_new i adds dels.
Proof.
  revert dels j; induction adds as [|a0 adds IH]; intros [|sel0 dels] j Ha Hs Hd; try done.
  destruct j as [|j]; cbn in Ha, Hs; simplify_eq.
  - cbn. rewrite Hd. set_solver.
  - cbn. specialize (IH dels j Ha Hs Hd). destruct (sel0 !! i) as [[|]|]; set_solver.
Qed.

Section Batch.
Context `{Base64} (record_size : Record_ -> option Z).
Context (record_size_pos : forall r b, record_size r = Some b -> 0 < b).

(** What an accepted batch does to the recorder. *)
Record batch_applied (st : State) (req : bool) (events : list Event) (st' : State) : Prop := {
  ba_inv : Inv st';
  ba_next : next st' = next st + len events;
  ba_lost : forall k e, get k (stored st) = Some e -> get k (stored st') = None ->
    req = false /\ required e = false;
  ba_queue : forall i s q e, subscribers st !! i = Some (Some s) -> q ∈ queue s ->
    get q.2 (stored st) = Some e -> req = true \/ required e = true ->
    exists s', subscribers st' !! i = Some (Some s') /\ q ∈ queue s';
  ba_new : forall j e, events !! j = Some e -> exists a,
    get (next st + Z.of_nat j) (stored st') = Some a /\ event (record a) = e
    /\ required a = req /\ owned a = true;
  ba_delivered : req = true -> forall j e i s, events !! j = Some e ->
    subscribers st !! i = Some (Some s) -> permits (scope s) e = true ->
    exists s' d, subscribers st' !! i = Some (Some s') /\ (d, next st + Z.of_nat j) ∈ queue s' }.

Lemma numbered_lookup first adds j a : numbered first adds -> adds !! j = Some a ->
  event_id (record a) = first + Z.of_nat j.
Proof.
  revert first j; induction adds as [|a0 adds IH]; intros first [|j] Hn Ha; try done;
    destruct Hn as [H1 H2]; cbn in Ha; simplify_eq; [lia|].
  rewrite (IH _ _ H2 Ha). lia.
Qed.

Lemma numbered_keys first adds : numbered first adds ->
  Forall (fun k => first <= k < first + len adds) (map (fun a => event_id (record a)) adds).
Proof.
  revert first; induction adds as [|a adds IH]; intros first; cbn; [constructor|].
  intros [H1 H2]. rewrite len_cons. pose proof (len_nonneg adds).
  constructor; [lia|]. eapply Forall_impl; [exact (IH _ H2)|]. intros; cbn in *; lia.
Qed.

(** The records that are gone, and the bounds they leave. *)
Lemma fits_budget st b c s : fits st b c s = true ->
  b <= max_bytes st /\ c <= max_events st /\ forall x, default 0 (s !! x) <= session_limit.
Proof.
  unfold fits. intros Hf. bool_hyps. split_and!; try done. intros x.
  match goal with H : forallb _ _ = true |- _ => apply forallb_Forall in H; rename H into HF end.
  destruct (s !! x) as [n|] eqn:Hx; [|done]. rewrite Forall_forall in HF. cbn.
  assert (Hn : n ∈ map snd (map_to_list s)).
  { apply list_elem_of_In, in_map_iff. exists (x, n). split; [done|].
    apply list_elem_of_In. by apply elem_of_map_to_list. }
  specialize (HF n Hn). cbn in HF. by bool_hyps.
Qed.

Lemma plan_batch_spec st req time first events dels adds' dels' local drops :
  Inv st -> length dels = length events -> Forall (fun sel => length sel = 16%nat) dels ->
  plan_batch record_size st req time first events dels = Plan (adds', dels', local, drops) ->
  length local = 16%nat
  /\ Forall2 narrowed_sel dels dels' /\ Forall2 aligned adds' dels'
  /\ Forall2 (entry_of req) adds' events /\ numbered first adds'
  /\ (req = true -> dels' = dels)
  /\ (forall i s, subscribers st !! i = Some (Some s) -> chosen i adds' = []
        \/ slot_fits (stored st) s (default ∅ (local !! i)) (len (chosen i adds')) (entries_bytes (chosen i adds')))
  /\ (forall k e, get k (stored st) = Some e -> abandoned local k e = true -> k ∈ drops)
  /\ (forall i k, k ∈ default ∅ (local !! i) ->
        req = false /\ from_option required false (get k (stored st)) = false)
  /\ (forall k, k ∈ drops -> req = false /\ exists e, get k (stored st) = Some e /\ required e = false)
  /\ sum_of everything (outside drops (stored st)) + entries_bytes adds' <= max_bytes st
  /\ len (outside drops (stored st)) + len adds' <= max_events st
  /\ forall x, sum_of (of_session x) (outside drops (stored st)) + session_of x adds' <= session_limit.
Proof.
  intros [HA HL HB] Hl HF. unfold plan_batch.
  destruct (build _ _ _ _ _ _ _ _ _) as [[[adds added] projected]| |] eqn:Hbuild; try done.
  eapply build_spec in Hbuild as (E1 & E2 & E3 & -> & E4 & E5); [|exact record_size_pos|done|done].
  destruct (plan_subscribers _ _ _ _ _ _) as [[[adds1 dels1] local1]|] eqn:Hplan; [|done].
  apply plan_subscribers_spec in Hplan as [P1 P2 P3 P4 P5 P6 P7];
    [|rewrite (lk_slots _ _ _ HL); lia|done|intros j s Hs; by eapply (lk_subs _ _ _ HL)].
  cbv zeta. pose proof (ac_sorted _ _ _ HA) as Hs. pose proof (sorted_NoDup _ Hs) as Hnd.
  destruct (drop_abandoned _ _ _ _) as [d1 t1] eqn:Hd1.
  destruct (totals_narrowed _ _ _ P2) as [Hb Hsn].
  assert (Hlen : len adds1 = len adds).
  { unfold len. apply Forall2_length in P2. by rewrite P2. }
  assert (HT : Totals (stored st) adds1 ∅
    (bytes st + (0 + entries_bytes adds), len (stored st) + len adds1, projected)).
  { constructor; cbn; rewrite ?outside_empty.
    - rewrite Hb, (ac_bytes _ _ _ HA). lia.
    - done.
    - intros x. rewrite E4, (ac_session _ _ _ HA), Hsn. done.
    - intros k e He. apply E5. destruct (session_bytes st !! stored_session e) eqn:Hx; [by eexists|].
      exfalso. pose proof (ac_session _ _ _ HA (stored_session e)) as Hse. rewrite Hx in Hse.
      rewrite (sum_of_delete _ k e _ Hnd He) in Hse. unfold of_session in Hse at 1.
      rewrite bool_decide_eq_true_2 in Hse by done. cbn in Hse.
      pose proof (ac_entries _ _ _ HA) as Hen. rewrite Forall_forall in Hen.
      apply get_Some_in in He. destruct (Hen _ He) as [_ Hp]. cbn in Hp.
      assert (0 <= sum_of (of_session (stored_session e))
                (List.filter (fun r => negb (r.1 =? k)) (stored st))); [|lia].
      apply sum_of_nonneg, Forall_filter_b, Forall_forall. intros r Hr. by apply Hen. }
  eapply (drop_abandoned_spec _ _ Hs) in Hd1 as [HT1 Hd1]; [|done|done|set_solver|exact HT].
  destruct (drop_oldest _ _ _ _ _) as [[d2 [[b c] s]]|] eqn:Hd2; [|done].
  eapply (drop_oldest_spec _ _ Hs) in Hd2 as (HT2 & Hsub & Hd2); [|done|done|exact HT1].
  destruct (fits st b c s) eqn:Hfit; [|done]. intros [= <- <- <- <-].
  apply fits_budget in Hfit as (F1 & F2 & F3). destruct HT2 as [T1 T2 T3 _]. cbn in T1, T2, T3.
  assert (Hab : forall k e, get k (stored st) = Some e -> abandoned local1 k e = true ->
    req = false /\ required e = false).
  { intros k e He Ha. unfold abandoned in Ha. apply andb_true_iff in Ha as [Ho Ha].
    apply forallb_Forall in Ha. rewrite Forall_forall in Ha.
    pose proof (lk_held _ _ _ HL k e He) as Hu. unfold unclaimed in Hu. rewrite Ho in Hu. cbn in Hu.
    apply Z.eqb_neq in Hu. pose proof (lk_mask _ _ _ HL k e He) as Hm.
    assert (Hex : exists i, (i < 16)%nat /\ has_slot (claims e) i = true).
    { destruct (decide (Exists (fun i => has_slot (claims e) i = true) slots)) as [Hx|Hx].
      - apply Exists_exists in Hx as (i & Hi & ?). exists i. split; [|done].
        apply list_elem_of_In, in_seq in Hi. lia.
      - exfalso. apply Hu, (mask_zero _ Hm). intros i Hi. apply not_true_is_false. intros Ht. apply Hx.
        apply Exists_exists. exists i. split; [|done]. apply list_elem_of_In, in_seq. lia. }
    destruct Hex as (i & Hi & Ht).
    assert (Hin : i ∈ slots) by (apply list_elem_of_In, in_seq; lia).
    specialize (Ha i Hin). cbn beta in Ha. rewrite Ht in Ha. cbn [negb orb] in Ha. apply bool_decide_eq_true in Ha.
    destruct (P6 i k Ha) as [? Hr]. rewrite He in Hr. done. }
  split_and!; try done.
  - rewrite P1. apply (lk_slots _ _ _ HL).
  - by eapply entries_narrowed.
  - by eapply numbered_narrowed.
  - intros Ht. by destruct (P7 Ht).
  - intros k e He Ha. apply Hsub, Hd1. right. by exists e.
  - intros k Hk. destruct (Hd2 k Hk) as [Hk1|[? (e & ? & ?)]]; [|split; [done|by exists e]].
    apply Hd1 in Hk1 as [?|(e & He & Ha)]; [set_solver|].
    destruct (Hab k e He Ha). split; [done|]. by exists e.
  - lia.
  - lia.
  - intros x. rewrite <-T3. apply F3.
Qed.
End Batch.

Section Apply.
Context `{Base64} (record_size : Record_ -> option Z).
Context (record_size_pos : forall r b, record_size r = Some b -> 0 < b).

Lemma apply_plan_spec st req time events subs dels adds' dels' local drops :
  Inv st -> assign_all events (subscribers st) = (subs, Some dels) ->
  let counted := set_subscribers (set_next st (next st + len events)) subs in
  plan_batch record_size counted req time (next st) events dels = Plan (adds', dels', local, drops) ->
  batch_applied st req events (apply_plan adds' dels' local drops counted).
Proof.
  intros HI Has counted Hplan.
  pose proof (assign_all_bumps events (subscribers st)) as Hb. rewrite Has in Hb. cbn in Hb.
  destruct (assign_all_lengths _ _ _ _ Has) as [Hdl HdF].
  assert (HIc : Inv counted).
  { apply inv_counted; [done| |done]. pose proof (len_nonneg events). lia. }
  destruct HI as [HA HL HB]. pose proof (lk_slots _ _ _ HL) as H16.
  eapply plan_batch_spec in Hplan
    as (Hlen & Hns & Hal & Hen & Hnum & Hreqd & Hfit & Hab & Hloc & Hdrop & Bb & Bc & Bs);
    [|exact record_size_pos|exact HIc|done|by rewrite H16 in HdF].
  unfold apply_plan. destruct HIc as [HAc HLc HBc].
  destruct (drops_spec counted local drops adds' HAc HLc Hlen Hab Hfit)
    as (A2 & L2 & F2 & C2 & O2 & Q2).
  set (st2 := if bool_decide (drops = ∅) then release_locals 0 local counted
              else remove drops (release_locals 0 local counted)) in *.
  assert (Hk2 : Forall (fun k => k < next st) (keys (stored st2))).
  { apply Forall_forall. intros k Hk. apply get_is_Some in Hk as [e2 He2].
    pose proof (C2 k) as Hc. rewrite He2, get_outside in Hc.
    case_bool_decide; [done|]. destruct (get k (stored counted)) as [e|] eqn:He; [|done].
    pose proof (bd_keys _ HB) as Hbk. rewrite Forall_forall in Hbk. apply Hbk.
    apply get_is_Some. by exists e. }
  assert (Htr : tracks (subscribers st) subs (subscribers st2) adds').
  { split; [by rewrite (lk_slots _ _ _ L2), H16|]. intros i v Hv.
    destruct (slots_lookup_l _ _ _ _ Hb Hv) as (v' & Hv' & Hbv).
    destruct (Q2 i v' Hv') as (s2 & Hs2 & Hsc & Hlm & Hnx & Hqs & Hroom).
    destruct Hbv as (_ & Hsc' & _ & _ & Hq' & _ & Hle).
    pose proof (lk_subs _ _ _ HL i v Hv) as Hok.
    exists s2, v'. split_and!; try done; [congruence| |].
    - apply Forall_forall. intros q Hq. apply Hqs in Hq. rewrite Hq' in Hq.
      pose proof (so_range _ _ Hok) as Hr. rewrite Forall_forall in Hr. specialize (Hr q Hq).
      cbn in Hr. lia.
    - pose proof (so_issued _ _ Hok). lia. }
  destruct (append_all_spec events (subscribers st) subs dels dels' adds' st2 (next st) req)
    as (R1 & R2 & R3 & R4 & R5); try done.
  assert (Hget : forall k, get k (stored (append_all adds' dels' st2)) =
    match get k (stored st2) with Some e => Some e
    | None => get k (map (fun a => (event_id (record a), a)) adds') end).
  { intros k. by rewrite R4, get_app. }
  assert (Hold : forall k e, get k (stored st) = Some e -> k ∉ drops ->
    exists e', get k (stored st2) = Some e' /\ core e' = core e).
  { intros k e He Hk. pose proof (C2 k) as Hc. rewrite get_outside, bool_decide_eq_false_2 in Hc by done.
    change (stored counted) with (stored st) in Hc. rewrite He in Hc.
    destruct (get k (stored st2)) as [e'|]; [|done]. cbn in Hc.
    exists e'. split; [done|]. by apply (inj Some). }
  assert (Hsum : forall P, (forall e e', core e = core e' -> P e = P e') ->
    sum_of P (stored st2) = sum_of P (outside drops (stored st))).
  { intros P HP. apply sum_of_cores; [done|]. apply (ordered_ext core).
    - apply (ac_sorted _ _ _ A2).
    - apply outside_sorted, (ac_sorted _ _ _ HA).
    - exact C2. }
  assert (Hadds : forall P, sum_of P (map (fun a => (event_id (record a), a)) adds')
    = foldr (fun e n => (if P e then stored_bytes e else 0) + n) 0 adds').
  { intros P. clear. induction adds' as [|a l IH]; cbn; [done|]. by rewrite IH. }
  assert (Hcount : len (stored st2) = len (outside drops (stored st))).
  { assert (Heq : map (fun r => (r.1, core r.2)) (stored st2)
      = map (fun r => (r.1, core r.2)) (outside drops (stored st))).
    { apply (ordered_ext core); [apply (ac_sorted _ _ _ A2)
        |apply outside_sorted, (ac_sorted _ _ _ HA)|exact C2]. }
    apply (f_equal length) in Heq. rewrite !length_map in Heq. unfold len. by rewrite Heq. }
  destruct F2 as (Fe & Fn & Fme & Fmb & Fav), R3 as (Ge & Gn & Gme & Gmb & Gav).
  cbn in Fn, Fme, Fmb, Bb, Bc, Bs. clear Fe Ge Fav Gav.
  assert (Hlen' : len adds' = len events).
  { unfold len. apply Forall2_length in Hen. by rewrite Hen. }
  constructor.
  - split; [exact R1|exact R2|]. pose proof (bd_next _ HB). pose proof (len_nonneg events).
    constructor.
    + rewrite Gn, Fn. lia.
    + rewrite Gn, Fn, R4. unfold keys. rewrite map_app, map_map. apply Forall_app. split.
      * rewrite Forall_forall in Hk2. apply Forall_forall. intros k Hk.
        specialize (Hk2 k Hk) as Hlt. apply get_is_Some in Hk as [e2 He2].
        pose proof (C2 k) as Hc. rewrite He2, get_outside in Hc. case_bool_decide; [done|].
        change (stored counted) with (stored st) in Hc.
        destruct (get k (stored st)) as [e|] eqn:He; [|done].
        pose proof (bd_keys _ HB) as Hbk. rewrite Forall_forall in Hbk.
        specialize (Hbk k ltac:(apply get_is_Some; by exists e)). lia.
      * eapply Forall_impl; [exact (numbered_keys _ _ Hnum)|]. intros; cbn in *; lia.
    + assert (Hml : len (map (fun a => (event_id (record a), a)) adds') = len adds').
      { unfold len. by rewrite length_map. }
      rewrite Gme, Fme, R4, len_app, Hcount, Hml. exact Bc.
    + rewrite Gmb, Fmb, (ac_bytes _ _ _ R1), R4, sum_of_app, Hadds, Hsum by done.
      exact Bb.
    + intros x. rewrite R4, sum_of_app, Hadds, Hsum.
      * exact (Bs x).
      * intros e e' Hc. unfold of_session. by rewrite (core_session _ _ Hc).
  - by rewrite Gn, Fn.
  - intros k e He Hnone. rewrite Hget in Hnone.
    destruct (decide (k ∈ drops)) as [Hk|Hk].
    + destruct (Hdrop k Hk) as (? & e1 & He1 & ?). change (stored counted) with (stored st) in He1.
      split; [done|]. congruence.
    + destruct (Hold k e He Hk) as (e' & He' & _). by rewrite He' in Hnone.
  - intros i s q e Hs Hq He Hkeep.
    destruct (slots_lookup_l _ _ _ _ Hb Hs) as (v' & Hv' & Hbv).
    destruct Hbv as (_ & _ & _ & _ & Hq' & _ & _).
    (* neither a local nor a global drop concerns it *)
    assert (Hnl : q.2 ∉ default ∅ (local !! i)).
    { intros Hin. destruct (Hloc i q.2 Hin) as [Hr1 Hr2]. change (stored counted) with (stored st) in Hr2.
      rewrite He in Hr2. cbn in Hr2. destruct Hkeep; congruence. }
    assert (Hng : q.2 ∉ drops).
    { intros Hin. destruct (Hdrop q.2 Hin) as [Hr1 (e1 & He1 & Hr2)].
      change (stored counted) with (stored st) in He1. destruct Hkeep; congruence. }
    assert (Hq2 : exists s2, subscribers st2 !! i = Some (Some s2) /\ q ∈ queue s2).
    { destruct (release_locals_spec 0 local counted ltac:(lia) HAc HLc) as [A1 L1 _ _ _ _ Q1].
      destruct (Q1 i v' Hv') as (s1 & Hs1 & (_ & _ & _ & B4)).
      rewrite decide_True, Nat.sub_0_r in B4 by lia.
      assert (Hqk : q ∈ queue s1).
      { rewrite B4. unfold kept. apply list_elem_of_In, filter_In. rewrite Hq'.
        split; [by apply list_elem_of_In|]. by rewrite bool_decide_eq_false_2. }
      unfold st2. case_bool_decide; [by exists s1|].
      destruct (remove_spec drops _ A1 L1) as (_ & _ & _ & _ & R6 & _).
      exists (retain_queue (stored (release_locals 0 local counted)) drops s1). split.
      - rewrite R6. apply lookup_map_retain. by exists s1.
      - cbn. apply list_elem_of_In, filter_In. split; [by apply list_elem_of_In|].
        by rewrite bool_decide_eq_false_2. }
    destruct Hq2 as (s2 & Hs2 & Hqs2).
    destruct (append_all_queue i adds' dels' st2 s2 Hal (lk_slots _ _ _ L2) Hs2)
      as (s' & Hs' & _ & Hqq). exists s'. split; [done|]. rewrite Hqq. set_solver.
  - intros j e Hj. destruct (Forall2_lookup_r _ _ _ _ _ Hen Hj) as (a & Ha & (Ea & Oa & Ra & _)).
    exists a. pose proof (numbered_lookup _ _ _ _ Hnum Ha) as Hid. split_and!; try done.
    apply in_get; [apply sorted_NoDup, (ac_sorted _ _ _ R1)|]. rewrite R4, elem_of_app. right.
    apply list_elem_of_In, in_map_iff. exists a. rewrite Hid. split; [done|].
    apply list_elem_of_In. by eapply list_elem_of_lookup_2.
  - intros Ht j e i s Hj Hs Hp. rewrite (Hreqd Ht) in *.
    destruct (Forall2_lookup_r _ _ _ _ _ Hen Hj) as (a & Ha & _).
    destruct (Forall2_lookup_l _ _ _ _ _ Hal Ha) as (sel & Hsel & _).
    destruct (assign_all_permits _ _ _ _ Has j e sel i s Hj Hsel Hs Hp) as (d & Hd).
    destruct (slots_lookup_l _ _ _ _ Hb Hs) as (v' & Hv' & _).
    destruct (Q2 i v' Hv') as (s2 & Hs2 & _).
    destruct (append_all_queue i adds' dels st2 s2 Hal (lk_slots _ _ _ L2) Hs2)
      as (s' & Hs' & _ & Hqq).
    exists s', d. split; [done|]. rewrite Hqq, elem_of_app. right.
    rewrite <-(numbered_lookup _ _ _ _ Hnum Ha). by eapply slot_new_in.
Qed.
End Apply.
