(* ===== verification/Observation.v ===== *)
(** * Guarantees of the recorder

    Every operation of [Recorder] preserves the invariant of [Retention]; accepted
    batches, losses, rejections and pages are characterized. *)
From Stdlib Require Import Sorted.
From S2P Require Import Prelude Protocol Ids Observe Recorder Retention Recording.

(** ** The operations as steps *)

Section Steps.
Context `{Base64} (record_size : Record_ -> option Z) (delivery_size : Delivery -> option Z).

(** A call of a public method of the recorder or of a subscription handle.
    [rc_record] is the batch of one flow, with its caller's commit. *)
Inductive call :=
  | rc_record (events : list Event) (required : bool) (now : option Z)
      (commit : Z -> Z * Result unit)
  | rc_acknowledge (c : Cursor)
  | rc_available (a : bool)
  | rc_subscribe (s : Scope) (l : SubscriptionLimits) (random : option string)
  | rc_read (h : Subscription) (c : option SubscriptionCursor) (limit max_bytes : Z)
  | rc_sub_acknowledge (h : Subscription) (c : SubscriptionCursor)
  | rc_close (h : Subscription).

Definition run (st : State) (c : call) : State :=
  match c with
  | rc_record events req now commit => (record_batch_with record_size st events req now commit 0).1.1
  | rc_acknowledge c => (acknowledge st c).1
  | rc_available a => set_available st a
  | rc_subscribe s l random => (subscribe st s l random).1
  | rc_read h c limit max_bytes => (sub_read delivery_size st h c limit max_bytes).1
  | rc_sub_acknowledge h c => (sub_acknowledge st h c).1
  | rc_close h => (close st h).1
  end.

(** The [usize] arguments of a call. *)
Definition well_typed (c : call) : Prop :=
  match c with rc_subscribe _ l _ => 0 <= limit_events l | _ => True end.

Fixpoint run_all (st : State) (calls : list call) : State :=
  match calls with
  | [] => st
  | c :: rest => run_all (run st c) rest
  end.
End Steps.

(** ** Preservation *)

Lemma position_Some {A} (f : A -> bool) l n : position f l = Some n ->
  exists x, l !! n = Some x /\ f x = true.
Proof.
  revert n; induction l as [|x l IH]; intros n Hp; cbn in Hp; [done|].
  destruct (f x) eqn:Hf; [simplify_eq; by exists x|].
  destruct (position f l) as [k|]; [|done]. cbn in Hp. simplify_eq.
  destruct (IH k eq_refl) as (y & ? & ?). by exists y.
Qed.

(** Changing one subscriber without touching its queue. *)
Lemma inv_slot st i s s' : Inv st -> subscribers st !! i = Some (Some s) ->
  queue s' = queue s -> sub_ok (stored st) s' ->
  Inv (set_subscribers st (<[ i := Some s' ]> (subscribers st))).
Proof.
  intros [HA HL HB] Hs Hq Hok. split; [done| |by destruct HB; constructor].
  assert (Hi : (i < length (subscribers st))%nat) by by eapply lookup_lt_Some.
  destruct HL as [L1 L2 L3 L4 L5 L6 L7]. constructor; cbn; try done.
  - by rewrite length_insert.
  - intros k e j He Hj. rewrite (L5 k e j He Hj). unfold queued.
    destruct (decide (i = j)) as [<-|Hne].
    + rewrite list_lookup_insert_eq by done. rewrite Hs. split.
      * intros (? & [= <-] & Hk). exists s'. by rewrite Hq.
      * intros (? & [= <-] & Hk). exists s. by rewrite <-Hq.
    + by rewrite list_lookup_insert_ne.
  - intros j s1 Hs1. destruct (decide (i = j)) as [<-|Hne].
    + rewrite list_lookup_insert_eq in Hs1 by done. by simplify_eq.
    + rewrite list_lookup_insert_ne in Hs1 by done. by eapply L7.
Qed.

(** Filling an empty slot, or emptying one whose queue is empty. *)
Lemma inv_vacant st i o : Inv st -> (i < 16)%nat ->
  (forall s, subscribers st !! i = Some (Some s) -> queue s = []) ->
  (forall s, o = Some s -> queue s = [] /\ sub_ok (stored st) s) ->
  Inv (set_subscribers st (<[ i := o ]> (subscribers st))).
Proof.
  intros [HA HL HB] Hi Hold Hnew. split; [done| |by destruct HB; constructor].
  destruct HL as [L1 L2 L3 L4 L5 L6 L7]. constructor; cbn; try done.
  - by rewrite length_insert.
  - intros k e j He Hj. rewrite (L5 k e j He Hj). unfold queued.
    destruct (decide (i = j)) as [<-|Hne].
    + rewrite list_lookup_insert_eq by lia. split.
      * intros (s & Hs & Hk). rewrite (Hold s Hs) in Hk. cbn in Hk. set_solver.
      * intros (s & [= ->] & Hk). destruct (Hnew s eq_refl) as [Hq _]. rewrite Hq in Hk. cbn in Hk.
        set_solver.
    + by rewrite list_lookup_insert_ne.
  - intros j s1 Hs1. destruct (decide (i = j)) as [<-|Hne].
    + rewrite list_lookup_insert_eq in Hs1 by lia. injection Hs1 as ->. by apply Hnew.
    + rewrite list_lookup_insert_ne in Hs1 by done. by eapply L7.
Qed.

Lemma subscriber_Ok st id i : subscriber st id = Ok i ->
  exists s, subscribers st !! i = Some (Some s) /\ sub_id s = id.
Proof.
  unfold subscriber. rewrite ok_or_Ok. intros Hp. apply position_Some in Hp as ([s|] & Hs & Hb);
    [|done]. exists s. by bool_hyps.
Qed.

Lemma sub_page_position delivery_size m limit mb first p used out q ds p' :
  Forall (fun x => x.1 < p \/ p <= x.1) q ->
  sub_page delivery_size m limit mb first p used out q = Ok (ds, p') -> p <= p' /\
    (p' = p \/ exists x, x ∈ q /\ p' - 1 = x.1).
Proof.
  revert p used out; induction q as [|[id source] q IH]; intros p used out HF Hp; cbn in Hp.
  { simplify_eq. split; [lia|by left]. }
  apply Forall_cons in HF as [_ HF].
  destruct (id <? first).
  { apply IH in Hp as [? Hx]; [|done]. split; [done|]. destruct Hx as [?|(x & ? & ?)]; [by left|right].
    exists x. split; [set_solver|done]. }
  destruct (_ || _) eqn:Hb in Hp; [simplify_eq; split; [lia|by left]|]. bool_hyps. subst id.
  destruct (get source m); [|simplify_eq; split; [lia|by left]].
  destruct (delivery_size _) as [size|]; [|done].
  destruct (mb <? _).
  { case_bool_decide; [done|]. simplify_eq. split; [lia|by left]. }
  apply IH in Hp as [? Hx]; [|eapply Forall_impl; [exact HF|]; intros; lia].
  split; [lia|]. right. destruct Hx as [->|(x & ? & ?)].
  - exists (p, source). split; [set_solver|cbn; lia].
  - exists x. split; [set_solver|done].
Qed.

Section Preservation.
Context `{Base64} (record_size : Record_ -> option Z) (delivery_size : Delivery -> option Z).
Context (record_size_pos : forall r b, record_size r = Some b -> 0 < b).

(** The three outcomes of a batch whose caller's commit accepts or does not run. *)
Lemma record_batch_outcome {S} st events req now (commit : S -> S * Result unit) s st' s' r :
  Inv st -> record_batch_with record_size st events req now commit s = (st', s', r) ->
  Inv st' /\ (r = Ok tt -> batch_applied st req events st'
    \/ req = false /\ stored st' = stored st /\ owner st' = owner st /\ next st' = next st + len events).
Proof.
  intros HI Hr. pose proof (record_batch_committed record_size st events req now commit s st' s' r Hr) as Hc.
  unfold record_batch_with in Hr. destruct (_ || _) eqn:Hb in Hr; [by simplify_eq|].
  destruct (checked_add _ _) as [n|] eqn:Hn in Hr; [|by simplify_eq].
  apply checked_add_Some in Hn as [-> _].
  pose proof (assign_all_bumps events (subscribers st)) as Hbp.
  destruct (assign_all events (subscribers st)) as [subs dels] eqn:Has. cbn in Hbp. cbv zeta in Hr.
  set (counted := set_subscribers (set_next st (next st + len events)) subs) in *.
  assert (HIc : Inv counted).
  { apply inv_counted; [done| |done]. pose proof (len_nonneg events). lia. }
  (* whichever function accepts, its outcome is [Inv], and the rejection restores [st] *)
  assert (Hrun : forall f, (Inv (f counted) /\ (batch_applied st req events (f counted)
      \/ req = false /\ stored (f counted) = stored st /\ owner (f counted) = owner st
         /\ next (f counted) = next st + len events)) ->
    match commit s with
    | (s, Ok _) => (f counted, s, Ok tt)
    | (s, Err e) => (set_subscribers (set_next counted (next st)) (restore subs (subscribers st)), s, Err e)
    end = (st', s', r) ->
    Inv st' /\ (r = Ok tt -> batch_applied st req events st'
      \/ req = false /\ stored st' = stored st /\ owner st' = owner st /\ next st' = next st + len events)).
  { intros f [Hf1 Hf2] Hm. destruct (commit s) as [s2 [[]|e]]; simplify_eq; [done|].
    rewrite (restore_exact _ _ Hbp).
    change (set_subscribers (set_next counted (next st)) (subscribers st))
      with (set_subscribers (set_next st (next st)) (subscribers st)).
    by rewrite state_eta. }
  assert (Hun : (if req then (counted, s, fail ObservationUnavailable)
     else match commit s with
          | (s, Ok _) => (counted, s, Ok tt)
          | (s, Err e) =>
              (set_subscribers (set_next counted (next st)) (restore subs (subscribers st)), s, Err e)
          end) = (st', s', r) ->
    Inv st' /\ (r = Ok tt -> batch_applied st req events st'
      \/ req = false /\ stored st' = stored st /\ owner st' = owner st /\ next st' = next st + len events)).
  { destruct req; [intros Hx; injection Hx as <- <- <-; by split|]. intros Hx. apply (Hrun (fun st => st)); [|done].
    split; [done|]. by right. }
  destruct dels as [dels|]; [|simplify_eq; done].
  destruct (_ || _) in Hr; [by apply Hun|]. destruct now as [time|]; [|by simplify_eq].
  destruct (plan_batch _ _ _ _ _ _ _) as [[[[a d] l] g]| |] eqn:Hp in Hr;
    [|by apply Hun|by simplify_eq].
  apply (Hrun (apply_plan a d l g)); [|done].
  assert (Hba : batch_applied st req events (apply_plan a d l g counted)).
  { by eapply (apply_plan_spec record_size record_size_pos). }
  split; [apply Hba|by left].
Qed.

Lemma acknowledge_inv st c : Inv st -> Inv (acknowledge st c).1.
Proof. intros HI. unfold acknowledge. destruct (_ || _); [done|]. by apply release_inv. Qed.

Lemma subscribe_inv st s l random : 0 <= limit_events l -> Inv st -> Inv (subscribe st s l random).1.
Proof.
  intros Hu HI. unfold subscribe. destruct (Scope_validate s); [|done].
  destruct (_ || _) eqn:Hb; [done|]. bool_hyps.
  destruct (position _ _) as [i|] eqn:Hp; [|done]. destruct random as [id|]; [|done]. cbn.
  apply position_Some in Hp as ([?|] & Hi & Hf); [done|].
  apply inv_vacant; [done| |congruence|].
  - rewrite <-(lk_slots _ _ _ (inv_link _ HI)). by eapply lookup_lt_Some.
  - intros s1 [= <-]. split; [done|].
    constructor; cbn; try done; try constructor; try lia.
Qed.

Lemma sub_read_inv st h c limit mb : Inv st -> Inv (sub_read delivery_size st h c limit mb).1.
Proof.
  intros HI. unfold sub_read. cbv zeta.
  destruct (_ ≫= _) as [[[i s] batch]|e] eqn:Hr; [|done]. cbn.
  apply bind_Ok in Hr as ([] & _ & Hr). apply bind_Ok in Hr as ([] & _ & Hr).
  apply bind_Ok in Hr as (i' & Hi & Hr). apply bind_Ok in Hr as (s' & Hs & Hr).
  apply ok_or_Ok in Hs. destruct (_ || _) eqn:Hb in Hr; [done|]. bool_hyps.
  apply bind_Ok in Hr as ([ds p] & Hp & Hr). apply (inj Ok) in Hr. simplify_eq.
  assert (Hs' : subscribers st !! i = Some (Some s)).
  { destruct (subscribers st !! i) as [[]|]; cbn in Hs; by simplify_eq. }
  pose proof (lk_subs _ _ _ (inv_link _ HI) i s Hs') as Hok.
  eapply (inv_slot st i s); [done|done|done|].
  destruct Hok as [[O1 O2] O3 O4 O5 O6 O7 O8 O9]. constructor; cbn; try done.
  split; [lia|]. apply Z.max_lub_lt; [done|].
  pose proof Hp as Hpos. apply sub_page_position in Hpos as [Hge Hpos].
  2:{ apply Forall_forall. intros x _. lia. }
  set (after := match c with Some c => cursor_after c | None => 0 end) in *.
  assert (Hfst : first_after after (sub_next s) (map fst (queue s)) <= sub_next s).
  { unfold first_after. destruct (find_first _ _) as [id|] eqn:Hf; cbn; [|lia].
    apply find_first_Some in Hf as [Hf _]. apply list_elem_of_In, in_map_iff in Hf as (x & <- & Hx).
    rewrite Forall_forall in O4. apply list_elem_of_In in Hx. specialize (O4 x Hx). cbn in O4. lia. }
  destruct Hpos as [->|(x & Hx & Heq)]; [lia|].
  rewrite Forall_forall in O4. specialize (O4 x Hx). cbn in O4. lia.
Qed.

Lemma sub_acknowledge_inv st h c : Inv st -> Inv (sub_acknowledge st h c).1.
Proof.
  intros HI. unfold sub_acknowledge. cbv zeta.
  destruct (_ ≫= _) as [[i sources]|e] eqn:Hr; [|done]. cbn.
  apply bind_Ok in Hr as ([] & _ & Hr). apply bind_Ok in Hr as (i' & Hi & Hr).
  apply bind_Ok in Hr as (s' & _ & Hr). destruct (_ || _) in Hr; [done|].
  apply (inj Ok) in Hr. simplify_eq. apply release_inv; [done|]. intros j [= <-].
  apply subscriber_Ok in Hi as (s & Hs & _).
  rewrite <-(lk_slots _ _ _ (inv_link _ HI)). by eapply lookup_lt_Some.
Qed.

Lemma close_inv st h : Inv st -> Inv (close st h).1.
Proof.
  intros HI. unfold close. cbv zeta. destruct (subscriber st _) as [i|] eqn:Hi; [|done]. cbn.
  apply subscriber_Ok in Hi as (s & Hs & _). rewrite Hs. cbn.
  assert (Hlt : (i < 16)%nat).
  { rewrite <-(lk_slots _ _ _ (inv_link _ HI)). by eapply lookup_lt_Some. }
  set (sources := list_to_set _).
  assert (Hsub : forall j, Some i = Some j -> (j < 16)%nat) by by intros j [= <-].
  pose proof (release_inv sources (Some i) st HI Hsub) as HI'.
  destruct (release_spec sources (Some i) st (inv_acct _ HI) (inv_link _ HI) Hsub)
    as (_ & _ & _ & _ & Hq & _).
  apply inv_vacant; [done|done| |done].
  intros s1 Hs1. rewrite Hq, (lookup_released_subs _ _ _ _ _ s Hs), decide_True in Hs1 by done.
  simplify_eq. cbn. unfold sources. clear.
  assert (Hall : forall q, (forall x, x ∈ q -> x ∈ queue s) ->
    List.filter (fun q => negb (bool_decide (q.2 ∈ (list_to_set (map snd (queue s)) : gset Z)))) q = []).
  { induction q as [|x q IH]; [done|]. intros Hq. cbn. rewrite bool_decide_eq_true_2.
    - cbn. apply IH. intros y Hy. apply Hq. set_solver.
    - apply elem_of_list_to_set, list_elem_of_In, in_map, list_elem_of_In, Hq. set_solver. }
  by apply Hall.
Qed.

Lemma new_inv epoch me mb st : 0 <= me -> new epoch me mb = Ok st -> Inv st.
Proof.
  unfold new. intros Hme Hn. destruct (_ || _) eqn:Hb; [done|]. bool_hyps. apply (inj Ok) in Hn. subst st.
  assert (Hslots : forall i s, replicate 16 (@None Subscriber) !! i = Some (Some s) -> False).
  { intros i s Hs. apply lookup_replicate in Hs. naive_solver. }
  split.
  - constructor; cbn; [constructor|constructor|done|done|done].
  - constructor; cbn; try done; [constructor| |].
    + intros k. split; [set_solver|]. by intros (? & ? & _).
    + intros i s Hs. exfalso. by eapply Hslots.
  - constructor; cbn; [lia|constructor|change (len []) with 0; lia|lia|].
    intros x. unfold session_limit. lia.
Qed.

Lemma run_inv st c : well_typed c -> Inv st -> Inv (run record_size delivery_size st c).
Proof.
  destruct c; cbn; intros Hw HI.
  - destruct (record_batch_with _ _ _ _ _ _ _) as [[st' s'] r] eqn:Hr.
    by eapply record_batch_outcome in Hr as [? _].
  - by apply acknowledge_inv.
  - destruct HI as [HA HL []]. split; [exact HA|exact HL|by constructor].
  - by apply subscribe_inv.
  - by apply sub_read_inv.
  - by apply sub_acknowledge_inv.
  - by apply close_inv.
Qed.

(** C34: every state a new recorder reaches, by any sequence of batches (required
    or not, whatever their callers' commits answer), acknowledgments,
    subscriptions, reads, closures and availability changes, satisfies the whole
    invariant: the global, session and subscriber byte counters are exact and
    within their budgets, claims, ownership and queues agree, queues are ordered
    and in scope, and nothing unclaimed is retained. *)
Theorem recorder_invariant epoch me mb st calls :
  0 <= me -> new epoch me mb = Ok st -> Forall well_typed calls ->
  Inv (run_all record_size delivery_size st calls).
Proof.
  intros Hme Hn HF. apply new_inv in Hn; [|done]. revert st Hn.
  induction HF as [|c calls Hc HF IH]; intros st HI; cbn; [done|].
  by apply IH, run_inv.
Qed.

(** A required batch that is accepted is recorded whole: each event is
    retained for the owner under consecutive identities and delivered to every
    subscriber whose scope permits it, and no retained record is lost. *)
Lemma required_batch_recorded {S} st events now (commit : S -> S * Result unit) s st' s' :
  Inv st -> record_batch_with record_size st events true now commit s = (st', s', Ok tt) ->
  commit s = (s', Ok tt) /\ batch_applied st true events st'.
Proof.
  intros HI Hr. split.
  - apply record_batch_committed in Hr. by inversion Hr.
  - apply record_batch_outcome in Hr as [_ Ho]; [|done]. by destruct (Ho eq_refl) as [?|[? _]].
Qed.

(** No batch, required or not and whatever its outcome, loses a required
    record: it stays retained until its consumers release it. *)
Lemma required_record_survives {S} st events req now (commit : S -> S * Result unit) s st' s' r k e :
  Inv st -> record_batch_with record_size st events req now commit s = (st', s', r) ->
  get k (stored st) = Some e -> required e = true -> is_Some (get k (stored st')).
Proof.
  intros HI Hr Hk He. destruct r as [[]|err].
  - apply record_batch_outcome in Hr as [_ Ho]; [|done].
    destruct (Ho eq_refl) as [Hba|(_ & -> & _)]; [|by eexists].
    destruct (get k (stored st')) eqn:Hk'; [by eexists|].
    destruct (ba_lost _ _ _ _ Hba k e Hk Hk') as [_ ?]. congruence.
  - assert (Hs : stored st' = stored st); [|rewrite Hs; by eexists].
    clear HI. unfold record_batch_with in Hr. repeat (case_match; simplify_eq; try done).
Qed.
End Preservation.

(** ** Pages *)

(** The bytes a page of entries takes in its budget. *)
Definition page_cost (m : list (Z * Stored)) (rs : list Record_) : Z :=
  foldr (fun r n => size_of m (event_id r) + 1 + n) 0 rs.

(** Records under consecutive identities from [p]. *)
Fixpoint consecutive (p : Z) (rs : list Record_) : Prop :=
  match rs with
  | [] => True
  | r :: rest => event_id r = p /\ consecutive (p + 1) rest
  end.

Lemma page_spec m limit mb first p used out sources out' p' :
  (forall k e, get k m = Some e -> event_id (record e) = k) ->
  page m limit mb first p used out sources = Ok (out', p') -> first <= p ->
  len out <= limit -> used <= mb ->
  exists rs, out' = out ++ rs /\ p' = p + len rs /\ consecutive p rs
    /\ Forall (fun r => event_id r ∈ sources
         /\ exists e, get (event_id r) m = Some e /\ record e = r) rs
    /\ len out' <= limit /\ used + page_cost m rs <= mb.
Proof.
  intros Hids. revert p used out; induction sources as [|source sources IH]; intros p used out Hp Hf Hl Hu;
    cbn in Hp.
  { simplify_eq. exists []. rewrite app_nil_r. change (len []) with 0. cbn.
    split_and!; try done; lia. }
  assert (Hstop : (out', p') = (out, p) -> exists rs, out' = out ++ rs /\ p' = p + len rs
    /\ consecutive p rs /\ Forall (fun r => event_id r ∈ source :: sources
         /\ exists e, get (event_id r) m = Some e /\ record e = r) rs
    /\ len out' <= limit /\ used + page_cost m rs <= mb).
  { intros [= -> ->]. exists []. rewrite app_nil_r. change (len []) with 0. cbn.
    split_and!; try done; lia. }
  assert (Hweak : forall rs, Forall (fun r => event_id r ∈ sources
         /\ exists e, get (event_id r) m = Some e /\ record e = r) rs ->
    Forall (fun r => event_id r ∈ source :: sources
         /\ exists e, get (event_id r) m = Some e /\ record e = r) rs).
  { intros rs HF. eapply Forall_impl; [exact HF|]. intros r [? ?]. split; [set_solver|done]. }
  destruct (source <? first).
  { apply IH in Hp as (rs & -> & -> & Hc & HF & ?); try done. exists rs. split_and!; try tauto.
    by apply Hweak. }
  destruct (_ || _) eqn:Hb in Hp; [apply Hstop; congruence|]. bool_hyps. subst source.
  destruct (get p m) as [e|] eqn:He; [|apply Hstop; congruence].
  destruct (mb <? _) eqn:Hlt in Hp.
  { case_bool_decide; [done|]. apply Hstop. congruence. }
  bool_hyps. assert (Hid : event_id (record e) = p) by by apply Hids.
  apply IH in Hp as (rs & -> & -> & Hc & HF & Hlen & Hcost); try lia.
  2:{ rewrite len_app, len_cons. change (len []) with 0. lia. }
  exists (record e :: rs). rewrite <-app_assoc. split_and!; try done.
  - rewrite len_cons. lia.
  - constructor; [|by apply Hweak]. rewrite Hid. split; [set_solver|]. by exists e.
  - by rewrite <-app_assoc in Hlen.
  - cbn. rewrite Hid. unfold size_of at 1. rewrite He. cbn. unfold page_cost in Hcost. lia.
Qed.

Lemma consecutive_in p rs k : consecutive p rs -> p <= k < p + len rs ->
  exists r, r ∈ rs /\ event_id r = k.
Proof.
  revert p; induction rs as [|r rs IH]; intros p Hc Hk; [change (len []) with 0 in Hk; lia|].
  destruct Hc as [H1 H2]. rewrite len_cons in Hk. destruct (decide (k = p)) as [->|Hne].
  - exists r. split; [set_solver|done].
  - destruct (IH (p + 1) H2) as (r' & ? & ?); [lia|]. exists r'. split; [set_solver|done].
Qed.

Lemma first_after_spec after n ids : StronglySorted Z.lt ids -> Forall (fun k => k < n) ids ->
  after < n -> let f := first_after after n ids in
  after < f <= n /\ forall k, k ∈ ids -> after < k -> f <= k.
Proof.
  intros Hs HF Hn. unfold first_after, find_first.
  induction ids as [|x ids IH]; cbn; [split; [lia|set_solver]|].
  apply Forall_cons in HF as [Hx HF]. inversion Hs as [|? ? Hs' Hall]; subst.
  destruct (Z.ltb_spec after x); cbn.
  - split; [lia|]. intros k Hk Hak. apply elem_of_cons in Hk as [->|Hk]; [lia|].
    rewrite Forall_forall in Hall. specialize (Hall k Hk). lia.
  - destruct (IH Hs' HF) as [H1 H2]. split; [done|]. intros k Hk Hak.
    apply elem_of_cons in Hk as [->|Hk]; [lia|]. by apply H2.
Qed.

(** The position a cursor resumes after: its own in the current epoch, none of
    another epoch's. *)
Definition resume_after (st : State) (c : option Cursor) : Z :=
  match c with
  | Some c => if bool_decide (epoch c = st_epoch st) then after c else 0
  | None => 0
  end.

(** a page the owner reads is complete: it holds at most [limit] retained
    records within the byte budget, and every identity between the cursor and the
    returned cursor is either one of its records or in the gap it reports; an
    identity in the gap is not retained for the owner. *)
Lemma page_complete st c limit mb b : Inv st -> 0 <= resume_after st c -> 0 <= limit ->
  read_bounded st c limit mb = Ok b ->
  resume_after st c <= after (cursor b) < next st
  /\ len (records b) <= limit /\ 512 + page_cost (stored st) (records b) <= mb
  /\ Forall (fun r => event_id r ∈ owner st
       /\ exists e, get (event_id r) (stored st) = Some e /\ record e = r) (records b)
  /\ (forall k, resume_after st c < k <= after (cursor b) ->
        (exists r, r ∈ records b /\ event_id r = k)
        \/ exists g, gap b = Some g /\ gap_first g <= k <= gap_last g /\ k ∉ owner st).
Proof.
  intros [HA HL HB] Hc Hlim. unfold read_bounded. intros Hr. apply bind_Ok in Hr as ([] & Hpb & Hr).
  unfold page_bounds in Hpb. destruct (_ || _) eqn:Hbounds in Hpb; [done|]. bool_hyps.
  cbv zeta in Hr.
  set (prev := match c with Some c => negb (bool_decide (epoch c = st_epoch st)) | None => false end) in *.
  assert (Hafter : (match c with Some c => if prev then 0 else after c | None => 0 end) = resume_after st c).
  { unfold resume_after, prev. destruct c as [c|]; [|done]. by case_bool_decide. }
  rewrite Hafter in Hr. destruct (next st <=? _) eqn:Hn in Hr; [done|]. bool_hyps.
  apply bind_Ok in Hr as ([rs p] & Hp & Hr). apply (inj Ok) in Hr. subst b. cbn.
  assert (Hown : Forall (fun k => k < next st) (owner st)).
  { apply Forall_forall. intros k Hk. apply (lk_owner _ _ _ HL) in Hk as (e & He & _).
    pose proof (bd_keys _ HB) as Hk. rewrite Forall_forall in Hk. apply Hk, get_is_Some. by exists e. }
  destruct (first_after_spec (resume_after st c) (next st) (owner st) (lk_order _ _ _ HL) Hown)
    as [Hf1 Hf2]; [lia|].
  set (first := first_after _ _ _) in *.
  apply page_spec in Hp as (rs' & -> & -> & Hcon & HF & Hlen & Hcost); try lia; try exact Hlim.
  2:{ intros k e He. pose proof (ac_entries _ _ _ HA) as Hen. rewrite Forall_forall in Hen.
      apply get_Some_in in He. by destruct (Hen _ He). }
  cbn [app] in *.
  assert (Hpos : forall k, first <= k <= first + len rs' - 1 -> exists r, r ∈ rs' /\ event_id r = k).
  { intros k Hk. apply (consecutive_in first); [done|lia]. }
  pose proof (len_nonneg rs') as Hrs. split_and!; try done; try lia.
  - (* the last record of the page is retained, hence below the next identity *)
    destruct (decide (len rs' = 0)) as [Hz|Hz]; [lia|].
    destruct (Hpos (first + len rs' - 1)) as (r & Hr & Hid); [lia|].
    rewrite Forall_forall in HF. destruct (HF r Hr) as [Ho _]. rewrite Hid in Ho.
    rewrite Forall_forall in Hown. specialize (Hown _ Ho). cbn in Hown. lia.
  - intros k Hk. destruct (Z.ltb_spec k first) as [Hlt|Hge].
    + right. rewrite (proj2 (Z.ltb_lt (resume_after st c + 1) first)), orb_true_r by lia.
      eexists. split; [done|]. cbn. split; [lia|]. intros Hin.
      specialize (Hf2 k Hin ltac:(lia)). lia.
    + left. apply Hpos. lia.
Qed.
