(* ===== verification/Flow.v ===== *)
(** * Flows ([aap-observe/src/flow.rs])

    A flow numbers the events of its four streams and hands batches to the
    recorder. [Observer] is the interface the engine relies on; a flow over a
    recorder implements it. *)
From S2P Require Import Prelude Protocol Ids Observe Recorder Retention Recording.

(** ** State *)

(** `aap-observe/src/flow.rs:29-36`, `FlowContext` *)
Record FlowContext := mkContext {
  context_session : string;
  context_request : option string;
  context_parent : option string;
  context_policy : Z;
  context_protocol : Protocol }.

(** `aap-observe/src/flow.rs:37-43`, `Emission` *)
Record Emission := mkEmission {
  e_direction : Direction; e_view : View; e_inspection : Inspection; e_redaction : Redaction;
  e_data : Data }.

(** `aap-observe/src/flow.rs:46-52`, `Inner`: the recorder is passed beside the flow *)
Record Flow := mkFlow {
  context : FlowContext; id : string; flow_required : bool; sequences : list Z }.

Definition set_sequences (f : Flow) (s : list Z) : Flow :=
  mkFlow (context f) (id f) (flow_required f) s.

(** `aap-observe/src/flow.rs:82-103`, `Flow::record_batch_with` (slot and stream of an
    emission) *)
Definition slot (d : Direction) (v : View) : nat :=
  match d, v with
  | Outbound, Agent => 0 | Outbound, Upstream => 1 | Inbound, Agent => 2 | Inbound, Upstream => 3
  end.
Definition stream_name (d : Direction) (v : View) : string :=
  match d, v with
  | Outbound, Agent => "outbound.agent" | Outbound, Upstream => "outbound.upstream"
  | Inbound, Agent => "inbound.agent" | Inbound, Upstream => "inbound.upstream"
  end.

Section Flows.
Context `{Base64} (record_size : Record_ -> option Z).

(** `aap-observe/src/flow.rs:131-153`, `Flow::new`; [random] is the fresh identifier *)
Definition Flow_new (c : FlowContext) (required : bool) (random : option string) : Result Flow :=
  if negb (valid_id (context_session c) 16)
     || match context_request c with Some i => negb (valid_id i 16) | None => false end
     || match context_parent c with Some i => negb (valid_id i 16) | None => false end
     || (context_policy c =? 0)
  then fail RequestInvalid
  else
    match random with
    | None => fail ObservationUnavailable
    | Some i => Ok (mkFlow c i required [0; 0; 0; 0])
    end.

(** `aap-observe/src/flow.rs:73-113`, `Flow::record_batch_with` (the events): the
    counters, and [None] when one would overflow *)
Fixpoint number (f : Flow) (seqs : list Z) (emissions : list Emission) : list Z * option (list Event) :=
  match emissions with
  | [] => (seqs, Some [])
  | m :: rest =>
      let i := slot (e_direction m) (e_view m) in
      let sequence := nth i seqs 0 in
      match checked_add sequence 1 with
      | None => (seqs, None)
      | Some n =>
          let c := context f in
          let event := mkEvent (context_session c) (context_request c) (context_parent c) (id f)
            (stream_name (e_direction m) (e_view m)) sequence (context_protocol c)
            (e_inspection m) (e_redaction m) (context_policy c) (e_direction m) (e_view m)
            (e_data m) in
          let (seqs, events) := number f (<[ i := n ]> seqs) rest in
          (seqs, (event ::.) <$> events)
      end
  end.

(** `aap-observe/src/flow.rs:58-127`, `Flow::record_batch_with`: the boolean beside
    the caller's state is the closure's [rejected] *)
Definition flow_record {S : Type} (f : Flow) (st : State) (emissions : list Emission)
    (now : option Z) (commit : S -> S * Result unit) (s : S) : Flow * State * S * Result unit :=
  if bool_decide (emissions = []) || (16 <? len emissions) then (f, st, s, fail RequestInvalid)
  else
    match number f (sequences f) emissions with
    | (seqs, None) => (set_sequences f seqs, st, s, fail ObservationUnavailable)
    | (seqs, Some events) =>
        let '(st, (s, was_rejected), r) :=
          record_batch_with record_size st events (flow_required f) now
            (fun '(s, _) => let (s, r) := commit s in ((s, is_err r), r)) (s, false) in
        (set_sequences f (if was_rejected then sequences f else seqs), st, s, r)
    end.
End Flows.

(** ** The interface of the engine *)

(** What a user of observation may do: offer a batch with a commit of its own
    state. [F] is the observing state. *)
Class Observer (F : Type) := {
  observe : forall {S : Type}, F -> list Emission -> (S -> S * Result unit) -> S -> F * S * Result unit }.

(** The outcomes of offering a batch: the commit did not run, it ran and the batch
    counts as recorded, or it ran, was refused, and no evidence changed. *)
Inductive observed {F S : Type} (f : F) (s : S) (commit : S -> S * Result unit)
    : F -> S -> Result unit -> Prop :=
  | obs_not_run f' e : observed f s commit f' s (Err e)
  | obs_accepted f' s' : commit s = (s', Ok tt) -> observed f s commit f' s' (Ok tt)
  | obs_rejected s' e : commit s = (s', Err e) -> observed f s commit f s' (Err e).

Class ObserverLaws (F : Type) `{Observer F} : Prop := {
  observe_outcome {S : Type} (f : F) es (commit : S -> S * Result unit) s f' s' r :
    observe f es commit s = (f', s', r) -> observed f s commit f' s' r }.

(** A flow, its recorder and the readings the clock will give. *)
Record Observing := mkObserving { flow : Flow; recorder : State; clock : list (option Z) }.

Section Instances.
Context `{Base64} (record_size : Record_ -> option Z).

Definition observing : Observer Observing := {|
  observe S o es commit s :=
    let '(f, st, s, r) :=
      flow_record record_size (flow o) (recorder o) es (default None (head (clock o))) commit s in
    (mkObserving f st (match r with Ok _ => tail (clock o) | Err _ => clock o end), s, r) |}.

Lemma flow_record_outcome {S : Type} f st es now (commit : S -> S * Result unit) s f' st' s' r :
  flow_record record_size f st es now commit s = (f', st', s', r) ->
  observed (f, st) s commit (f', st') s' r.
Proof.
  unfold flow_record. destruct (_ || _); [intros; simplify_eq; constructor|].
  destruct (number f (sequences f) es) as [seqs [events|]]; [|intros; simplify_eq; constructor].
  destruct (record_batch_with _ _ _ _ _ _ _) as [[st1 [s1 rej]] r1] eqn:Hr.
  apply record_batch_committed in Hr. intros Heq. simplify_eq.
  inversion Hr as [? e|? ? Hc|? e Hc]; subst.
  - apply obs_not_run.
  - destruct (commit s) as [s2 [[]|e]] eqn:Hs; cbn in Hc; simplify_eq. by apply obs_accepted.
  - destruct (commit s) as [s2 [[]|e2]] eqn:Hs; cbn in Hc; simplify_eq.
    replace (set_sequences f (sequences f)) with f by by destruct f.
    by apply obs_rejected.
Qed.

(** A flow over a recorder keeps the observer's contract: a batch either does
    not run the caller's commit and reports an error, or reports exactly what the
    commit answered; when the commit refuses, neither the flow's counters nor any
    record, queue, identity or byte counter of the recorder has changed. *)
Lemma observing_laws : @ObserverLaws Observing observing.
Proof.
  constructor. intros S o es commit s o' s' r. cbn.
  destruct (flow_record _ _ _ _ _ _ _) as [[[f1 st1] s1] r1] eqn:Hf. intros Ho. simplify_eq.
  apply flow_record_outcome in Hf. inversion Hf as [? e|? ? Hc|? e Hc]; subst.
  - apply obs_not_run.
  - by apply obs_accepted.
  - replace (mkObserving (flow o) (recorder o) (clock o)) with o by by destruct o.
    by apply obs_rejected.
Qed.
End Instances.

(** ** Numbering *)

Lemma number_spec f seqs es seqs' events : length seqs = 4%nat ->
  number f seqs es = (seqs', Some events) ->
  length seqs' = 4%nat
  /\ Forall2 (fun m e => direction e = e_direction m /\ view e = e_view m /\ data e = e_data m
       /\ stream_id e = stream_name (e_direction m) (e_view m)) es events
  /\ forall d v, let mine := List.filter (fun e => bool_decide (direction e = d) && bool_decide (view e = v)) events in
       nth (slot d v) seqs' 0 = nth (slot d v) seqs 0 + len mine
       /\ forall j e, mine !! j = Some e -> sequence e = nth (slot d v) seqs 0 + Z.of_nat j.
Proof.
  revert seqs seqs' events; induction es as [|m es IH]; intros seqs seqs' events Hl Hn; cbn in Hn.
  { simplify_eq. split_and!; [done|constructor|]. intros d v. cbn. change (len []) with 0.
    split; [lia|]. intros j e Hj. done. }
  destruct (checked_add _ _) as [n|] eqn:Hc; [|done]. apply checked_add_Some in Hc as [-> _].
  destruct (number _ _ es) as [s2 [evs|]] eqn:Hr; cbn in Hn; simplify_eq.
  apply IH in Hr as (H1 & H2 & H3); [|by rewrite length_insert].
  split_and!; [done|by constructor|]. intros d v. specialize (H3 d v). cbn zeta in H3 |- *.
  set (i := slot (e_direction m) (e_view m)) in *.
  assert (Hi : (i < 4)%nat) by (unfold i; destruct (e_direction m), (e_view m); cbn; lia).
  assert (Hnth : forall j x, nth j (<[ i := x ]> seqs) 0 = if decide (j = i) then x else nth j seqs 0).
  { intros j x. rewrite !nth_lookup. case_decide as Hj.
    - subst j. rewrite list_lookup_insert_eq by lia. done.
    - by rewrite list_lookup_insert_ne. }
  rewrite Hnth in H3. cbn [List.filter direction view].
  assert (Hslot : slot d v = i <-> e_direction m = d /\ e_view m = v).
  { unfold i. destruct d, v, (e_direction m), (e_view m); cbn; naive_solver. }
  destruct (decide (slot d v = i)) as [Hd|Hd].
  - apply Hslot in Hd as Hd'. destruct Hd' as [Hdd Hvv].
    rewrite !bool_decide_eq_true_2 by done. cbn [andb]. rewrite len_cons. destruct H3 as [H3' H3].
    rewrite Hd in *. rewrite H3'. split; [lia|]. intros [|j] e Hj; cbn in Hj; simplify_eq; [cbn; lia|].
    rewrite (H3 j e Hj). lia.
  - assert (Hf : bool_decide (e_direction m = d) && bool_decide (e_view m = v) = false).
    { apply not_true_is_false. rewrite andb_true_iff, !bool_decide_eq_true. by rewrite <-Hslot. }
    by rewrite Hf.
Qed.

(** A flow numbers each of its four streams without gaps or repetition: the
    events of an accepted batch continue their stream's counter, and a refused
    commit leaves the counters as they were. *)
Lemma flow_sequences `{Base64} record_size {S : Type} f st es now (commit : S -> S * Result unit) s f' st' s' r :
  length (sequences f) = 4%nat ->
  flow_record record_size f st es now commit s = (f', st', s', r) ->
  (r = Ok tt -> exists events,
     number f (sequences f) es = (sequences f', Some events)
     /\ forall d v, let mine := List.filter (fun e => bool_decide (direction e = d) && bool_decide (view e = v)) events in
          nth (slot d v) (sequences f') 0 = nth (slot d v) (sequences f) 0 + len mine
          /\ forall j e, mine !! j = Some e -> sequence e = nth (slot d v) (sequences f) 0 + Z.of_nat j)
  /\ (s' <> s -> is_err r = true -> f' = f).
Proof.
  intros Hl Hf. split.
  - intros ->. unfold flow_record in Hf. destruct (_ || _); [done|].
    destruct (number f (sequences f) es) as [seqs [events|]] eqn:Hn; [|done].
    destruct (record_batch_with _ _ _ _ _ _ _) as [[st1 [s1 rej]] r1] eqn:Hr.
    apply record_batch_committed in Hr. simplify_eq. exists events.
    inversion Hr as [|? ? Hc|]; subst.
    destruct (commit s) as [s2 [[]|e]] eqn:Hs; cbn in Hc; simplify_eq. cbn.
    split; [done|]. by apply number_spec in Hn as (_ & _ & ?).
  - intros Hs He. apply flow_record_outcome in Hf. inversion Hf; subst; done.
Qed.
