(* ===== verification/Relay.v ===== *)
(** * The duplex relay ([aap-transport/src/tcp/relay.rs])

    The bounded copy loop between the agent's attachment (socket 0) and the
    upstream connection (socket 1). Sockets, the clock and the cancellation token
    are the environment: a [Tick] holds what one [step] observes of them. The
    effects on the sockets are a log. *)
From S2P Require Import Prelude Protocol Stream Observe.

(** ** State *)

(** `aap-transport/src/tcp/relay.rs:26-33`, `Limits`; instants and durations in
    nanoseconds *)
Record Limits := mkLimits_ {
  max_chunk : Z; out_limit : Z; in_limit : Z; idle_timeout : Z; idle_deadline : Z; lifetime : Z }.

(** `aap-transport/src/tcp/relay.rs:36-40`, `Outcome` *)
Record Outcome := mkOutcome { cause_of : Cause; outcome_sent : Z; outcome_received : Z }.

(** `aap-transport/src/tcp/relay.rs:67-76`, `CopyState`; [buffer] is the filled part *)
Record CopyState := mkCopy {
  buffer : list byte; filled : Z; written : Z; admitted : Z; forwarded : Z;
  read_end : bool; write_end : bool; stalled : option Z }.

(** `aap-transport/src/tcp/relay.rs:77-90`, `CopyState::new` *)
Definition CopyState_new : CopyState := mkCopy [] 0 0 0 0 false false None.

(** `aap-transport/src/tcp/relay.rs:56-65`, `Duplex`: [open] is whether the sockets
    are held, direction 0 is outbound *)
Record Duplex := mkDuplex {
  sockets : bool;
  outbound : CopyState;
  inbound : CopyState;
  limits_ : Limits;
  outcome : option Outcome;
  first : Direction }.

Definition flip (d : Direction) : Direction := match d with Outbound => Inbound | Inbound => Outbound end.
Definition copy (d : Duplex) (i : Direction) : CopyState :=
  match i with Outbound => outbound d | Inbound => inbound d end.
Definition set_copy (d : Duplex) (i : Direction) (c : CopyState) : Duplex :=
  match i with
  | Outbound => mkDuplex (sockets d) c (inbound d) (limits_ d) (outcome d) (first d)
  | Inbound => mkDuplex (sockets d) (outbound d) c (limits_ d) (outcome d) (first d)
  end.
Definition set_idle (d : Duplex) (deadline : Z) : Duplex :=
  let l := limits_ d in
  mkDuplex (sockets d) (outbound d) (inbound d)
    (mkLimits_ (max_chunk l) (out_limit l) (in_limit l) (idle_timeout l) deadline (lifetime l))
    (outcome d) (first d).

(** ** The environment *)

(** An I/O error; the local adapter may classify it. *)
Definition io_failure : Type := option AttachmentError.

(** One reading of the token and of the clock. *)
Record Reading := mkReading { is_cancelled : bool; now : Z }.

(** What one step observes: the readings in order, the result of the one socket
    call it makes, and the clock after the I/O. *)
Record Tick := mkTick {
  before_io : Reading;
  on_write : poll (result io_failure Z);
  on_shutdown : poll (result io_failure unit);
  on_read : poll (result io_failure (list byte));
  after_io : Reading;
  idle_from : Z;
  after_gate : Reading;
  stall_from : Z }.

(** `aap-transport/src/tcp/relay.rs:44-51`, `Gate` *)
Class Gate (G : Type) := {
  before_forward : G -> Direction -> list byte -> G * result Cause unit;
  before_end : G -> Direction -> G * result Cause unit }.

(** The effects of a step: bytes read from a direction's source, accepted by the
    gate, written to its destination, and the ends. *)
Inductive Effect :=
  | Took (i : Direction) (bytes : list byte)
  | Passed (i : Direction) (bytes : list byte)
  | Wrote (i : Direction) (bytes : list byte)
  | PassedEnd (i : Direction)
  | Shut (i : Direction).

(** ** Operations *)

(** `aap-transport/src/tcp/relay.rs:343-349`, `io_cause`, by whether the socket is the
    local one *)
Definition io_cause (local : bool) : Cause := if local then AttachmentLost else CauseUpstreamUnavailable.
(** `aap-transport/src/tcp/relay.rs:331-342`, `io_error` *)
Definition io_error (local : bool) (e : io_failure) : Cause :=
  match e with
  | Some error => if local then error_cause error else io_cause local
  | None => io_cause local
  end.
(** `aap-transport/src/tcp/relay.rs:350-357`, `gate_cause` *)
Definition gate_cause (c : Cause) : Cause :=
  if bool_decide (c = OrderlyEnd) then CauseInternalError else c.

(** `aap-transport/src/tcp/relay.rs:185-195`, `Duplex::deadline` *)
Definition deadline (d : Duplex) : Z :=
  foldl (fun m s => Z.min m (default m (stalled s)))
    (Z.min (lifetime (limits_ d)) (idle_deadline (limits_ d))) [outbound d; inbound d].

(** `aap-transport/src/tcp/relay.rs:197-205`, `Duplex::check` *)
Definition check (d : Duplex) (r : Reading) : result Cause unit :=
  if is_cancelled r then Err CauseCancelled
  else if deadline d <=? now r then Err Timeout
  else Ok tt.

(** `aap-transport/src/tcp/relay.rs:310-328`, `Duplex::close` *)
Definition shut_copy (c : CopyState) : CopyState :=
  mkCopy [] 0 0 (admitted c) (forwarded c) (read_end c) (write_end c) None.
Definition close (d : Duplex) (cause : Cause) : Duplex * Outcome :=
  match outcome d with
  | Some o => (d, o)
  | None =>
      let o := mkOutcome cause (forwarded (outbound d)) (forwarded (inbound d)) in
      (mkDuplex false (shut_copy (outbound d)) (shut_copy (inbound d)) (limits_ d) (Some o) (first d), o)
  end.

(** `aap-transport/src/tcp/relay.rs:181-183`, `Duplex::terminate` *)
Definition terminate (d : Duplex) (cause : Cause) : Duplex * Outcome := close d (gate_cause cause).

(** [Duration::from_millis], in nanoseconds. *)
Definition from_millis (ms : Z) : Z := ms * 1000000.

(** `aap-transport/src/tcp/relay.rs:97-134`, `Duplex::new` at instant [now] *)
Definition Duplex_new (l : Limits) (now : Z) : Result Duplex :=
  if (max_chunk l =? 0)
     || (MAX_DATA_BYTES <? max_chunk l)
     || (out_limit l =? 0)
     || (MAX_DIRECTION_BYTES <? out_limit l)
     || (in_limit l =? 0)
     || (MAX_DIRECTION_BYTES <? in_limit l)
     || (idle_timeout l =? 0)
     || (from_millis MAX_IDLE_MS <? idle_timeout l)
     || (idle_timeout l <? saturating_sub (idle_deadline l) now)
     || (from_millis MAX_LIFETIME_MS <? saturating_sub (lifetime l) now)
  then fail RequestInvalid
  else Ok (mkDuplex true CopyState_new CopyState_new l None Outbound).

Definition limit_of (d : Duplex) (i : Direction) : Z :=
  match i with Outbound => out_limit (limits_ d) | Inbound => in_limit (limits_ d) end.
Definition is_local (i : Direction) : bool := bool_decide (i = Outbound).

(** The slice [buffer[from..to]]. *)
Definition slice (l : list byte) (from to : Z) : list byte :=
  take (Z.to_nat (to - from)) (drop (Z.to_nat from) l).

Section Relay.
Context {G : Type} `{Gate G}.

Definition outcome_t : Type := Duplex * G * list Effect * result Cause bool.

(** `aap-transport/src/tcp/relay.rs:222-252`, `Duplex::step` (pending bytes: one
    write to the destination) *)
Definition write_step (d : Duplex) (g : G) (i : Direction) (t : Tick) : outcome_t :=
  let s := copy d i in
  let dest_local := is_local (flip i) in
  match on_write t with
  | PollPending => (d, g, [], Ok false)
  | PollReady (Err e) => (d, g, [], Err (io_error dest_local e))
  | PollReady (Ok count) =>
      if count =? 0 then (d, g, [], Err (io_cause dest_local))
      else if filled s - written s <? count then (d, g, [], Err CauseInternalError)
      else
        let log := [Wrote i (slice (buffer s) (written s) (written s + count))] in
        let s := mkCopy (buffer s) (filled s) (written s + count) (admitted s)
                   (forwarded s + count) (read_end s) (write_end s) (stalled s) in
        let d := set_copy d i s in
        match check d (after_io t) with
        | Err c => (d, g, log, Err c)
        | Ok _ =>
            let d := set_idle d (idle_from t + idle_timeout (limits_ d)) in
            let s :=
              if written s =? filled s
              then mkCopy [] 0 0 (admitted s) (forwarded s) (read_end s) (write_end s) None
              else mkCopy (buffer s) (filled s) (written s) (admitted s) (forwarded s)
                     (read_end s) (write_end s) (Some (idle_from t + idle_timeout (limits_ d))) in
            (set_copy d i s, g, log, Ok true)
        end
  end.

(** `aap-transport/src/tcp/relay.rs:253-263`, `Duplex::step` (source ended: shut the
    destination down) *)
Definition shutdown_step (d : Duplex) (g : G) (i : Direction) (t : Tick) : outcome_t :=
  let s := copy d i in
  match on_shutdown t with
  | PollPending => (d, g, [], Ok false)
  | PollReady (Err e) => (d, g, [], Err (io_error (is_local (flip i)) e))
  | PollReady (Ok _) =>
      match check d (after_io t) with
      | Err c => (d, g, [Shut i], Err c)
      | Ok _ =>
          (set_copy d i (mkCopy (buffer s) (filled s) (written s) (admitted s) (forwarded s)
                           (read_end s) true None), g, [Shut i], Ok true)
      end
  end.

(** `aap-transport/src/tcp/relay.rs:264-303`, `Duplex::step` (one read from the source) *)
Definition read_step (d : Duplex) (g : G) (i : Direction) (t : Tick) : outcome_t :=
  let s := copy d i in
  let remaining := limit_of d i - admitted s in
  match on_read t with
  | PollPending => (d, g, [], Ok false)
  | PollReady (Err e) => (d, g, [], Err (io_error (is_local i) e))
  | PollReady (Ok bytes) =>
      let took := Took i bytes in
      match check d (after_io t) with
      | Err c => (d, g, [took], Err c)
      | Ok _ =>
          if len bytes =? 0 then
            match before_end g i with
            | (g, Err c) => (d, g, [took], Err (gate_cause c))
            | (g, Ok _) =>
                match check d (after_gate t) with
                | Err c => (d, g, [took; PassedEnd i], Err c)
                | Ok _ =>
                    (set_copy d i (mkCopy (buffer s) (filled s) (written s) (admitted s) (forwarded s)
                                     true (write_end s) (Some (stall_from t + idle_timeout (limits_ d)))),
                     g, [took; PassedEnd i], Ok true)
                end
            end
          else if remaining <? len bytes then (d, g, [took], Err CauseLimitExceeded)
          else
            let d := set_copy d i (mkCopy bytes (len bytes) (written s) (admitted s + len bytes)
                       (forwarded s) (read_end s) (write_end s)
                       (Some (stall_from t + idle_timeout (limits_ d)))) in
            match before_forward g i bytes with
            | (g, Err c) => (d, g, [took], Err (gate_cause c))
            | (g, Ok _) =>
                match check d (after_gate t) with
                | Err c => (d, g, [took; Passed i bytes], Err c)
                | Ok _ => (d, g, [took; Passed i bytes], Ok true)
                end
            end
      end
  end.

(** `aap-transport/src/tcp/relay.rs:207-221`, `Duplex::step` *)
Definition step (d : Duplex) (g : G) (i : Direction) (t : Tick) : outcome_t :=
  match check d (before_io t) with
  | Err c => (d, g, [], Err c)
  | Ok _ =>
      let s := copy d i in
      if write_end s then (d, g, [], Ok false)
      else if written s <? filled s then write_step d g i t
      else if read_end s then shutdown_step d g i t
      else read_step d g i t
  end.

(** The room of a read: the buffer the source may fill. *)
Definition room (d : Duplex) (i : Direction) : Z :=
  Z.min (max_chunk (limits_ d)) (Z.max 1 (limit_of d i - admitted (copy d i))).

(** What one poll observes: the cancellation future, the first reading, two
    ticks for each round, and the timer of an idle round. *)
Record Env := mkEnv {
  cancelled_ready : bool; entry : Reading; tick : nat -> Tick; timer_ready : bool }.

Definition result_t : Type := Duplex * G * list Effect * poll Outcome.

Definition finish (d : Duplex) (g : G) (log : list Effect) (c : Cause) : result_t :=
  let (d, o) := close d c in (d, g, log, PollReady o).

(** The rounds of a poll, [n] left; round [k] takes ticks [2 k] and [2 k + 1]. *)
Fixpoint rounds (n k : nat) (d : Duplex) (g : G) (env : Env) (log : list Effect) : result_t :=
  match n with
  | O => (d, g, log, PollPending)
  | S n =>
      match step d g (first d) (tick env (2 * k)) with
      | (d, g, l, Err c) => finish d g (log ++ l) c
      | (d, g, l, Ok progress) =>
          let log := log ++ l in
          match step d g (flip (first d)) (tick env (2 * k + 1)) with
          | (d, g, l, Err c) => finish d g (log ++ l) c
          | (d, g, l, Ok progress') =>
              let log := log ++ l in
              if write_end (outbound d) && write_end (inbound d) then finish d g log OrderlyEnd
              else if negb (progress || progress') then
                if timer_ready env then finish d g log Timeout else (d, g, log, PollPending)
              else rounds n (S k) d g env log
          end
      end
  end.

(** `aap-transport/src/tcp/relay.rs:140-176`, `Duplex::poll` *)
Definition Duplex_poll (d : Duplex) (g : G) (env : Env) : result_t :=
  match outcome d with
  | Some o => (d, g, [], PollReady o)
  | None =>
      if cancelled_ready env then finish d g [] CauseCancelled
      else
        match check d (entry env) with
        | Err c => finish d g [] c
        | Ok _ =>
            let d := mkDuplex (sockets d) (outbound d) (inbound d) (limits_ d) (outcome d)
                       (flip (first d)) in
            rounds 8 0 d g env []
        end
  end.
End Relay.

(** ** The effects, direction by direction *)

Definition bytes_of (f : Effect -> list byte) (log : list Effect) : list byte := concat (map f log).
Definition wrote (i : Direction) : list Effect -> list byte :=
  bytes_of (fun e => match e with Wrote j b => if decide (j = i) then b else [] | _ => [] end).
Definition passed (i : Direction) : list Effect -> list byte :=
  bytes_of (fun e => match e with Passed j b => if decide (j = i) then b else [] | _ => [] end).

Definition taken (i : Direction) : list Effect -> list byte :=
  bytes_of (fun e => match e with Took j b => if decide (j = i) then b else [] | _ => [] end).

Lemma bytes_of_app f l1 l2 : bytes_of f (l1 ++ l2) = bytes_of f l1 ++ bytes_of f l2.
Proof. unfold bytes_of. by rewrite map_app, concat_app. Qed.

Lemma wrote_app i l1 l2 : wrote i (l1 ++ l2) = wrote i l1 ++ wrote i l2.
Proof. apply bytes_of_app. Qed.
Lemma passed_app i l1 l2 : passed i (l1 ++ l2) = passed i l1 ++ passed i l2.
Proof. apply bytes_of_app. Qed.
Lemma taken_app i l1 l2 : taken i (l1 ++ l2) = taken i l1 ++ taken i l2.
Proof. apply bytes_of_app. Qed.

(** ** The invariant *)

(** One direction of a relay that is still open, after the effects [log]: the
    destination got what the gate passed, except the unwritten rest of the chunk. *)
Record open_copy (d : Duplex) (i : Direction) (c : CopyState) (log : list Effect) : Prop := {
  oc_filled : 0 <= written c <= filled c /\ filled c = len (buffer c) /\ filled c <= max_chunk (limits_ d);
  oc_reset : written c < filled c \/ filled c = 0;
  oc_passed : passed i log = wrote i log ++ drop (Z.to_nat (written c)) (buffer c);
  oc_taken : passed i log = taken i log;
  oc_admitted : admitted c = len (passed i log);
  oc_forwarded : forwarded c = len (wrote i log);
  oc_limit : admitted c <= limit_of d i;
  oc_read_end : read_end c = true -> PassedEnd i ∈ log;
  oc_write_end : write_end c = true -> read_end c = true /\ filled c = 0 /\ Shut i ∈ log }.

Definition open_relay (d : Duplex) (log : list Effect) : Prop :=
  outcome d = None /\ forall i, open_copy d i (copy d i) log.

(** A direction of a relay that stopped: what was written is a prefix of what the
    gate passed, within the limit, and is counted. *)
Record stopped_copy (limit : Z) (i : Direction) (c : CopyState) (log : list Effect) : Prop := {
  sc_prefix : wrote i log `prefix_of` passed i log;
  sc_taken : passed i log `prefix_of` taken i log;
  sc_forwarded : forwarded c = len (wrote i log);
  sc_limit : len (passed i log) <= limit }.

Definition stopped (d : Duplex) (log : list Effect) : Prop :=
  forall i, stopped_copy (limit_of d i) i (copy d i) log.

(** A direction that ended in order: everything passed was written, then shut. *)
Definition delivered_all (i : Direction) (log : list Effect) : Prop :=
  wrote i log = passed i log /\ PassedEnd i ∈ log /\ Shut i ∈ log.

(** What the answers of the sockets may be: a read fills at most the buffer, a
    written count is not negative. *)
Definition wf_tick (chunk : Z) (t : Tick) : Prop :=
  (forall bytes, on_read t = PollReady (Ok bytes) -> len bytes <= chunk)
  /\ (forall n, on_write t = PollReady (Ok n) -> 0 <= n).

Lemma open_stopped d log : open_relay d log -> stopped d log.
Proof.
  intros [_ Ho] i. destruct (Ho i) as [_ _ Hp Ht Ha Hf Hl _ _]. constructor; [|by rewrite Ht|done|lia].
  rewrite Hp. by eexists.
Qed.

Lemma copy_set_eq d i c : copy (set_copy d i c) i = c.
Proof. by destruct i. Qed.
Lemma copy_set_ne d i j c : i <> j -> copy (set_copy d i c) j = copy d j.
Proof. by destruct i, j. Qed.
Lemma set_copy_frame d i c : limits_ (set_copy d i c) = limits_ d /\ outcome (set_copy d i c) = outcome d
  /\ first (set_copy d i c) = first d /\ sockets (set_copy d i c) = sockets d.
Proof. by destruct i. Qed.

Lemma check_not_orderly d r c : check d r = Err c -> c <> OrderlyEnd.
Proof. unfold check. repeat case_match; intros [= <-]; done. Qed.
Lemma io_error_not_orderly b e : io_error b e <> OrderlyEnd.
Proof. by destruct b, e as [[]|]. Qed.
Lemma io_cause_not_orderly b : io_cause b <> OrderlyEnd.
Proof. by destruct b. Qed.
Lemma gate_cause_not_orderly c : gate_cause c <> OrderlyEnd.
Proof. unfold gate_cause. by case_bool_decide. Qed.

Lemma slice_drop (l : list byte) (a n : Z) : 0 <= a -> 0 <= n -> a + n <= len l ->
  slice l a (a + n) ++ drop (Z.to_nat (a + n)) l = drop (Z.to_nat a) l /\ len (slice l a (a + n)) = n.
Proof.
  intros. unfold slice. replace (a + n - a) with n by lia.
  assert (Hd : drop (Z.to_nat (a + n)) l = drop (Z.to_nat n) (drop (Z.to_nat a) l)).
  { rewrite drop_drop. f_equal. lia. }
  rewrite Hd, take_drop. split; [done|]. unfold len in *. rewrite length_take, length_drop. lia.
Qed.

Section Steps.
Context {G : Type} `{Gate G}.

(** What a step may do to an open relay. *)
Definition step_ok (d : Duplex) (log : list Effect) (o : Duplex * G * list Effect * result Cause bool) : Prop :=
  let '(d', _, l, r) := o in
  max_chunk (limits_ d') = max_chunk (limits_ d) /\ (forall i, limit_of d' i = limit_of d i)
  /\ outcome d' = None
  /\ match r with
     | Ok _ => open_relay d' (log ++ l)
     | Err c => stopped d' (log ++ l) /\ c <> OrderlyEnd
     end.

(** An error that leaves the relay as it was, after effects that move no
    accepted byte. *)
Lemma step_stop d log l g c : open_relay d log -> c <> OrderlyEnd ->
  (forall i, wrote i l = [] /\ passed i l = []) -> step_ok d log (d, g, l, Err c).
Proof.
  intros Ho Hc Hl. split_and!; try done; [apply Ho|]. intros i.
  destruct (open_stopped _ _ Ho i) as [Hp Ht Hf Hm]. destruct (Hl i) as [Hw Hps].
  constructor; rewrite ?wrote_app, ?passed_app, ?taken_app, ?Hw, ?Hps, ?app_nil_r; try done.
  by apply prefix_app_r.
Qed.

(** [d'] is [d] with the copy of direction [i] replaced. *)
Record replaced (d d' : Duplex) (i : Direction) : Prop := {
  rp_chunk : max_chunk (limits_ d') = max_chunk (limits_ d);
  rp_limit : forall j, limit_of d' j = limit_of d j;
  rp_outcome : outcome d' = outcome d;
  rp_other : forall j, j <> i -> copy d' j = copy d j }.

Lemma replaced_set d i c : replaced d (set_copy d i c) i.
Proof. destruct i; constructor; try done; by intros []. Qed.
Lemma replaced_idle d d' i z : replaced d d' i -> replaced d (set_idle d' z) i.
Proof. by intros []. Qed.
Lemma replaced_trans d d1 d2 i : replaced d d1 i -> replaced d1 d2 i -> replaced d d2 i.
Proof.
  intros [A1 A2 A3 A4] [B1 B2 B3 B4]. constructor; [congruence| |congruence|].
  - intros j. by rewrite B2.
  - intros j Hj. by rewrite B4, A4.
Qed.

(** The effects of direction [i] only. *)
Definition only (i : Direction) (l : list Effect) : Prop :=
  forall j, j <> i -> wrote j l = [] /\ passed j l = [] /\ taken j l = [].

(** A step that replaces one copy by one that fits the effects keeps the relay. *)
Lemma update_ok d d' i log l g b : open_relay d log -> replaced d d' i -> only i l ->
  open_copy d i (copy d' i) (log ++ l) -> step_ok d log (d', g, l, Ok b).
Proof.
  intros [Hn Ho] [R1 R2 R3 R4] Hl Hc. split_and!; [done|done|congruence|]. split; [congruence|].
  intros j. destruct (decide (j = i)) as [->|Hj].
  - destruct Hc. constructor; rewrite ?R1, ?R2; done.
  - rewrite R4 by done. destruct (Hl j Hj) as (Hw & Hp & Ht). destruct (Ho j) as [O1 Or O2 Ot O3 O4 O5 O6 O7].
    constructor; rewrite ?wrote_app, ?passed_app, ?taken_app, ?Hw, ?Hp, ?Ht, ?app_nil_r, ?R1, ?R2; try done.
    + intros Hr. apply elem_of_app. left. by apply O6.
    + intros Hr. destruct (O7 Hr) as (? & ? & ?). rewrite elem_of_app. auto.
Qed.

Lemma update_stop d d' i log l g c : open_relay d log -> replaced d d' i -> only i l ->
  stopped_copy (limit_of d i) i (copy d' i) (log ++ l) -> c <> OrderlyEnd ->
  step_ok d log (d', g, l, Err c).
Proof.
  intros Hopen [R1 R2 R3 R4] Hl Hc Hne. pose proof (open_stopped _ _ Hopen) as Hs.
  destruct Hopen as [Hn _]. split_and!; [done|done|congruence| |done].
  intros j. rewrite R2. destruct (decide (j = i)) as [->|Hj]; [done|].
  rewrite R4 by done. destruct (Hl j Hj) as (Hw & Hp & Ht). destruct (Hs j) as [S1 S2 S3 S4].
  constructor; rewrite ?wrote_app, ?passed_app, ?taken_app, ?Hw, ?Hp, ?Ht, ?app_nil_r; done.
Qed.

Lemma only_wrote i b : only i [Wrote i b] /\ wrote i [Wrote i b] = b /\ passed i [Wrote i b] = [].
Proof.
  split_and!; cbn; [|by rewrite decide_True, app_nil_r|done].
  intros j Hj. cbn. by rewrite decide_False.
Qed.

Lemma seen_earlier (b : bool) (e : Effect) log l : (b = true -> e ∈ log) -> b = true -> e ∈ log ++ l.
Proof. intros Hb Ht. apply elem_of_app. auto. Qed.

Ltac copy_field := first [done | lia | by apply seen_earlier | change (len []) with 0; lia | idtac].

(** The chunk after [count] more bytes were written. *)
Lemma advance d i c log count : open_copy d i c log -> 0 <= count <= filled c - written c ->
  let w := slice (buffer c) (written c) (written c + count) in
  passed i (log ++ [Wrote i w])
    = wrote i (log ++ [Wrote i w]) ++ drop (Z.to_nat (written c + count)) (buffer c)
  /\ len (wrote i (log ++ [Wrote i w])) = forwarded c + count
  /\ admitted c = len (passed i (log ++ [Wrote i w]))
  /\ passed i (log ++ [Wrote i w]) = taken i (log ++ [Wrote i w]).
Proof.
  intros [[O0 [O1 _]] _ O2 Ot O3 O4 _ _ _] Hc w.
  destruct (slice_drop (buffer c) (written c) count) as [Hs Hsl]; [lia..|].
  destruct (only_wrote i w) as (_ & Hw & Hp). rewrite wrote_app, passed_app, taken_app, Hw, Hp, app_nil_r.
  split_and!; [by rewrite O2, <-app_assoc; unfold w; rewrite Hs|rewrite len_app; unfold w; lia|done|].
  cbn. by rewrite app_nil_r.
Qed.

Lemma write_step_ok d g i t log : open_relay d log -> wf_tick (max_chunk (limits_ d)) t ->
  write_end (copy d i) = false -> step_ok d log (write_step d g i t).
Proof.
  intros Hopen [_ Hwf] Hwe. unfold write_step. destruct (on_write t) as [|[count|e]] eqn:Ht.
  { split_and!; try done; [apply Hopen|]. by rewrite app_nil_r. }
  2: { apply step_stop; [done|apply io_error_not_orderly|done]. }
  destruct (Z.eqb_spec count 0) as [Hz|Hz].
  { apply step_stop; [done|apply io_cause_not_orderly|done]. }
  destruct (_ <? count) eqn:Hlt; [by apply step_stop|]. bool_hyps. specialize (Hwf count eq_refl).
  pose proof (proj2 Hopen i) as Hi.
  destruct (advance d i (copy d i) log count Hi) as (A1 & A2 & A3 & A4); [lia|].
  destruct (only_wrote i (slice (buffer (copy d i)) (written (copy d i)) (written (copy d i) + count)))
    as (Hl & _ & _).
  pose proof Hi as [[O0 [O1 O1']] Or O2 Ot O3 O4 O5 O6 O7].
  destruct (check _ _) as [[]|cause] eqn:Hck; cbn [written filled].
  - eapply update_ok; [done| |done|].
    + eapply replaced_trans; [apply replaced_idle, replaced_set|apply replaced_set].
    + rewrite copy_set_eq. destruct (_ =? _) eqn:Heq; bool_hyps.
      * rewrite (drop_ge (buffer _)) in A1 by (unfold len in O1; lia).
        constructor; cbn; rewrite ?Hwe; copy_field.
      * constructor; cbn; rewrite ?Hwe; copy_field.
  - eapply update_stop; [done|apply replaced_set|done| |by eapply check_not_orderly].
    rewrite copy_set_eq. constructor; cbn; [rewrite A1; by eexists|by rewrite A4|done|lia].
Qed.

Lemma shutdown_step_ok d g i t log : open_relay d log -> write_end (copy d i) = false ->
  read_end (copy d i) = true -> filled (copy d i) <= written (copy d i) ->
  step_ok d log (shutdown_step d g i t).
Proof.
  intros Hopen Hwe Hre Hfw. unfold shutdown_step. destruct (on_shutdown t) as [|[[]|e]].
  { split_and!; try done; [apply Hopen|]. by rewrite app_nil_r. }
  2: { apply step_stop; [done|apply io_error_not_orderly|done]. }
  destruct (check _ _) as [[]|c] eqn:Hc.
  2: { apply step_stop; [done|by eapply check_not_orderly|done]. }
  pose proof (proj2 Hopen i) as [[O0 [O1 O1']] Or O2 Ot O3 O4 O5 O6 O7].
  eapply update_ok; [done|apply replaced_set|done|]. rewrite copy_set_eq.
  constructor; cbn; rewrite ?wrote_app, ?passed_app, ?taken_app, ?app_nil_r; copy_field.
  intros _. split_and!; [done|lia|apply elem_of_app; right; by apply list_elem_of_singleton].
Qed.

Lemma only_read i b : only i [Took i b] /\ only i [Took i b; Passed i b] /\ only i [Took i b; PassedEnd i].
Proof. by split_and!; intros j Hj; cbn; rewrite ?decide_False. Qed.

Lemma read_bytes i b : passed i [Took i b; Passed i b] = b
  /\ taken i [Took i b] = b /\ taken i [Took i b; Passed i b] = b /\ taken i [Took i b; PassedEnd i] = b.
Proof. by split_and!; cbn; rewrite decide_True, ?app_nil_r. Qed.

Lemma read_step_ok d g i t log : open_relay d log -> wf_tick (max_chunk (limits_ d)) t ->
  write_end (copy d i) = false -> read_end (copy d i) = false -> filled (copy d i) <= written (copy d i) ->
  step_ok d log (read_step d g i t).
Proof.
  intros Hopen [Hwf _] Hwe Hre Hfw. unfold read_step. destruct (on_read t) as [|[bytes|e]] eqn:Ht.
  { split_and!; try done; [apply Hopen|]. by rewrite app_nil_r. }
  2: { apply step_stop; [done|apply io_error_not_orderly|done]. }
  specialize (Hwf bytes eq_refl). pose proof (only_read i bytes) as (L1 & L2 & L3).
  pose proof (read_bytes i bytes) as (Hpass & Ht1 & Ht2 & Ht3).
  pose proof (proj2 Hopen i) as [[O0 [O1 O1']] Or O2 Ot O3 O4 O5 O6 O7].
  assert (Hw0 : written (copy d i) = 0) by lia.
  assert (Hb : buffer (copy d i) = []) by (apply len_0; lia). rewrite Hw0, Hb in O2. cbn in O2.
  rewrite app_nil_r in O2.
  assert (Hstop : forall c l, only i l -> passed i l = [] -> wrote i l = [] -> c <> OrderlyEnd ->
    forall g, step_ok d log (d, g, l, Err c)).
  { intros c l Hl Hp Hw Hc g'. apply step_stop; [done..|]. intros j.
    destruct (decide (j = i)) as [->|Hj]; [done|]. by destruct (Hl j Hj) as (? & ? & _). }
  destruct (check _ _) as [[]|c] eqn:Hc; [|by apply Hstop; [..|eapply check_not_orderly]].
  destruct (Z.eqb_spec (len bytes) 0) as [Hz|Hz].
  - destruct (before_end g i) as [g' [[]|c]]; [|apply Hstop; try done; apply gate_cause_not_orderly].
    destruct (check d (after_gate t)) as [[]|c] eqn:Hc2; [|by apply Hstop; [..|eapply check_not_orderly]].
    eapply update_ok; [done|apply replaced_set|done|]. rewrite copy_set_eq.
    apply len_0 in Hz as ->.
    constructor; cbn; rewrite ?wrote_app, ?passed_app, ?taken_app, ?Ht3, ?app_nil_r, ?Hw0, ?Hb, ?Hwe; copy_field.
    + cbn. by rewrite !app_nil_r.
    + intros _. apply elem_of_app. right. set_solver.
  - destruct (_ <? len bytes) eqn:Hlim; [by apply Hstop|]. bool_hyps.
    destruct (before_forward g i bytes) as [g' [[]|c]].
    + destruct (check _ (after_gate t)) as [[]|c] eqn:Hc2.
      * eapply update_ok; [done|apply replaced_set|done|]. rewrite copy_set_eq.
        pose proof (len_nonneg bytes).
        constructor; cbn; rewrite ?wrote_app, ?passed_app, ?taken_app, ?Hpass, ?Ht2, ?app_nil_r, ?Hw0, ?Hwe, ?len_app; copy_field.
        -- by rewrite O2.
        -- by rewrite Ot.
      * eapply update_stop; [done|apply replaced_set|done| |by eapply check_not_orderly].
        rewrite copy_set_eq. constructor; cbn; rewrite ?wrote_app, ?passed_app, ?taken_app, ?Hpass, ?Ht2; cbn;
          rewrite ?app_nil_r, ?len_app; [|by rewrite Ot|done|lia].
        rewrite O2. by eexists.
    + eapply update_stop; [done|apply replaced_set|done| |apply gate_cause_not_orderly].
      rewrite copy_set_eq. constructor; cbn; rewrite ?wrote_app, ?passed_app, ?taken_app, ?Ht1; cbn;
        rewrite ?app_nil_r; [by rewrite O2| |done|lia].
      rewrite Ot. by eexists.
Qed.

Lemma step_keeps d g i t log : open_relay d log -> wf_tick (max_chunk (limits_ d)) t -> step_ok d log (step d g i t).
Proof.
  intros Hopen Hwf. unfold step. destruct (check _ _) as [[]|c] eqn:Hc.
  2: { apply step_stop; [done|by eapply check_not_orderly|done]. }
  destruct (write_end _) eqn:Hwe.
  { split_and!; try done; [apply Hopen|]. by rewrite app_nil_r. }
  destruct (_ <? _) eqn:Hlt; [by apply write_step_ok|]. bool_hyps.
  destruct (read_end _) eqn:Hre; [by apply shutdown_step_ok|by apply read_step_ok].
Qed.

(** *** Polls *)

Definition wf_env (chunk : Z) (env : Env) : Prop := forall k, wf_tick chunk (tick env k).

(** A closed relay: the outcome reports the bytes that were written, and an
    orderly end means that both directions were delivered. *)
Record closed (d : Duplex) (o : Outcome) (log : list Effect) : Prop := {
  cl_stopped : stopped d log;
  cl_sent : outcome_sent o = len (wrote Outbound log);
  cl_received : outcome_received o = len (wrote Inbound log);
  cl_orderly : cause_of o = OrderlyEnd -> forall i, delivered_all i log }.

Definition relay_ok (d : Duplex) (log : list Effect) : Prop :=
  match outcome d with None => open_relay d log | Some o => closed d o log end.

Definition same_limits (d d' : Duplex) : Prop :=
  max_chunk (limits_ d') = max_chunk (limits_ d) /\ forall i, limit_of d' i = limit_of d i.

Lemma same_trans d1 d2 d3 : same_limits d1 d2 -> same_limits d2 d3 -> same_limits d1 d3.
Proof. intros [A1 A2] [B1 B2]. split; [congruence|]. intros i. by rewrite B2. Qed.

(** What a poll may answer. *)
Definition answer_ok (d : Duplex) (log : list Effect) (r : Duplex * G * list Effect * poll Outcome) : Prop :=
  let '(d', _, l, p) := r in
  same_limits d d' /\ relay_ok d' (log ++ l)
  /\ outcome d' = match p with PollReady o => Some o | PollPending => None end.

Lemma close_closed d log c d' o : stopped d log -> outcome d = None ->
  (c = OrderlyEnd -> forall i, delivered_all i log) -> close d c = (d', o) ->
  same_limits d d' /\ outcome d' = Some o /\ relay_ok d' log.
Proof.
  intros Hs Hn Hc. unfold close. rewrite Hn. intros [= <- <-]. split; [done|]. split; [done|].
  split; cbn; [|apply (Hs Outbound)|apply (Hs Inbound)|done].
  intros i. destruct (Hs i). by destruct i.
Qed.

Lemma finish_ok d d0 g log l c : same_limits d0 d -> stopped d (log ++ l) -> outcome d = None ->
  (c = OrderlyEnd -> forall i, delivered_all i (log ++ l)) -> answer_ok d0 log (finish d g l c).
Proof.
  intros Hd Hs Hn Hc. unfold finish. destruct (close d c) as [d' o] eqn:He.
  eapply close_closed in He as (H1 & H2 & H3); [|done..]. split; [by eapply same_trans|done].
Qed.

Lemma both_delivered d log : open_relay d log -> write_end (outbound d) && write_end (inbound d) = true ->
  forall i, delivered_all i log.
Proof.
  intros [_ Ho] Hw i. bool_hyps. assert (Hwe : write_end (copy d i) = true) by (by destruct i).
  destruct (Ho i) as [[O0 [O1 _]] _ O2 _ _ _ _ O6 O7]. destruct (O7 Hwe) as (Hr & Hf & Hsh).
  split; [|by auto]. rewrite O2. assert (Hb : buffer (copy d i) = []) by (apply len_0; lia).
  rewrite Hb, drop_nil. by rewrite app_nil_r.
Qed.

Lemma rounds_ok n k d0 d g env pre l : wf_env (max_chunk (limits_ d0)) env -> same_limits d0 d ->
  open_relay d (pre ++ l) -> answer_ok d0 pre (rounds n k d g env l).
Proof.
  intros Hwf. revert k d g l. induction n as [|n IH]; intros k d g l Hd Hopen; cbn [rounds].
  { split; [done|]. unfold relay_ok. by rewrite (proj1 Hopen). }
  pose proof Hd as [Hchunk _].
  pose proof (step_keeps d g (first d) (tick env (2 * k)) _ Hopen) as Hs.
  destruct (step d g (first d) _) as [[[d1 g1] l1] [p1|c]]; destruct Hs as (S1 & S2 & S3 & S4);
    [rewrite Hchunk; apply Hwf| |rewrite Hchunk; apply Hwf|];
    assert (Hd1 : same_limits d0 d1) by (by eapply same_trans); rewrite <-app_assoc in S4.
  2: { destruct S4. apply finish_ok; done. }
  pose proof (step_keeps d1 g1 (flip (first d1)) (tick env (2 * k + 1)) _ S4) as Hs.
  destruct (step d1 g1 _ _) as [[[d2 g2] l2] [p2|c]]; destruct Hs as (T1 & T2 & T3 & T4);
    [rewrite S1, Hchunk; apply Hwf| |rewrite S1, Hchunk; apply Hwf|];
    assert (Hd2 : same_limits d0 d2) by (by eapply same_trans); rewrite <-app_assoc in T4.
  2: { destruct T4. apply finish_ok; done. }
  destruct (_ && _) eqn:Hw.
  { apply finish_ok; [done|by apply open_stopped|done|]. intros _. by eapply both_delivered. }
  destruct (negb _); [|by apply IH].
  destruct (timer_ready env); [apply finish_ok; [done|by apply open_stopped|done|done]|].
  split; [done|]. unfold relay_ok. by rewrite (proj1 T4).
Qed.

Lemma poll_ok d g env log : wf_env (max_chunk (limits_ d)) env -> relay_ok d log ->
  answer_ok d log (Duplex_poll d g env).
Proof.
  intros Hwf Hok. unfold Duplex_poll. destruct (outcome d) as [o|] eqn:Ho.
  { split; [done|]. rewrite app_nil_r. done. }
  unfold relay_ok in Hok. rewrite Ho in Hok.
  assert (Hopen : open_relay d (log ++ [])) by by rewrite app_nil_r.
  destruct (cancelled_ready env).
  { apply finish_ok; [done|by apply open_stopped|done|done]. }
  destruct (check d (entry env)) as [[]|c] eqn:Hc.
  2: { apply finish_ok; [done|by apply open_stopped|done|]. intros ->. by apply check_not_orderly in Hc. }
  apply rounds_ok; [done|done|]. split; [by cbn|]. intros i.
  destruct (proj2 Hopen i). by destruct i; constructor.
Qed.

(** *** Whole lives of a relay *)

(** What its owner does with a relay. *)
Inductive Action := PollWith (env : Env) | TerminateWith (cause : Cause).

(** A sequence of actions: the final relay, the effects, and the outcomes reported. *)
Fixpoint relay_run (d : Duplex) (g : G) (acts : list Action) : Duplex * G * list Effect * list Outcome :=
  match acts with
  | [] => (d, g, [], [])
  | a :: acts =>
      let '(d, g, l, p) :=
        match a with
        | PollWith env => Duplex_poll d g env
        | TerminateWith c => let (d, o) := terminate d c in (d, g, [], PollReady o)
        end in
      let '(d, g, ls, os) := relay_run d g acts in
      (d, g, l ++ ls, match p with PollReady o => o :: os | PollPending => os end)
  end.

Definition wf_action (chunk : Z) (a : Action) : Prop :=
  match a with PollWith env => wf_env chunk env | TerminateWith _ => True end.

Lemma action_ok d g a log : wf_action (max_chunk (limits_ d)) a -> relay_ok d log ->
  answer_ok d log (match a with
                   | PollWith env => Duplex_poll d g env
                   | TerminateWith c => let (d, o) := terminate d c in (d, g, [], PollReady o)
                   end).
Proof.
  intros Hwf Hok. destruct a as [env|c]; [by apply poll_ok|].
  unfold terminate. destruct (close d (gate_cause c)) as [d' o] eqn:Hc.
  destruct (outcome d) as [o'|] eqn:Ho.
  { unfold close in Hc. rewrite Ho in Hc. simplify_eq. split; [done|]. rewrite app_nil_r. done. }
  unfold relay_ok in Hok. rewrite Ho in Hok.
  apply (close_closed d log) in Hc as (H1 & H2 & H3); [|by apply open_stopped|done|].
  - split; [done|]. by rewrite app_nil_r.
  - intros Hg. by apply gate_cause_not_orderly in Hg.
Qed.

Lemma action_fixed d g a o : outcome d = Some o ->
  (match a with
   | PollWith env => Duplex_poll d g env
   | TerminateWith c => let (d, o) := terminate d c in (d, g, [], PollReady o)
   end) = (d, g, [], PollReady o).
Proof. intros Ho. destruct a; unfold Duplex_poll, terminate, close; by rewrite Ho. Qed.

Lemma run_fixed acts d g o d' g' l os : outcome d = Some o -> relay_run d g acts = (d', g', l, os) ->
  d' = d /\ g' = g /\ l = [] /\ Forall (eq o) os.
Proof.
  revert d g d' g' l os. induction acts as [|a acts IH]; intros d g d' g' l os Ho; cbn [relay_run].
  { intros [= <- <- <- <-]. done. }
  rewrite (action_fixed _ _ _ _ Ho). destruct (relay_run d g acts) as [[[d1 g1] l1] os1] eqn:Hr.
  intros [= <- <- <- <-]. destruct (IH _ _ _ _ _ _ Ho Hr) as (-> & -> & -> & ?). by auto.
Qed.

Lemma run_ok acts d g log d' g' l os : Forall (wf_action (max_chunk (limits_ d))) acts -> relay_ok d log ->
  relay_run d g acts = (d', g', l, os) ->
  same_limits d d' /\ relay_ok d' (log ++ l) /\ Forall (fun o => outcome d' = Some o) os.
Proof.
  revert d g log d' g' l os. induction acts as [|a acts IH]; intros d g log d' g' l os Hwf Hok; cbn [relay_run].
  { intros [= <- <- <- <-]. by rewrite app_nil_r. }
  apply Forall_cons in Hwf as [Ha Hwf]. pose proof (action_ok d g a log Ha Hok) as Hans.
  destruct (match a with PollWith _ => _ | TerminateWith _ => _ end) as [[[d1 g1] l1] p].
  destruct Hans as (H1 & H2 & H3).
  destruct (relay_run d1 g1 acts) as [[[d2 g2] l2] os2] eqn:Hr. intros [= <- <- <- <-].
  destruct (IH _ _ (log ++ l1) _ _ _ _ ltac:(by rewrite (proj1 H1)) H2 Hr) as (I1 & I2 & I3).
  split; [by eapply same_trans|]. rewrite app_assoc. split; [done|].
  destruct p as [|o]; [done|]. apply Forall_cons. split; [|done].
  by destruct (run_fixed _ _ _ _ _ _ _ _ H3 Hr) as (-> & _).
Qed.
End Steps.

(** A new relay is open, with the limits it was given. *)
Lemma Duplex_new_ok l now d : 0 <= max_chunk l -> 0 <= out_limit l -> 0 <= in_limit l ->
  Duplex_new l now = Ok d -> relay_ok d [] /\ limits_ d = l.
Proof.
  intros Hc0 Ho0 Hi0 Hnew. unfold Duplex_new in Hnew. destruct (_ || _) eqn:Hb; [done|].
  apply (inj Ok) in Hnew. subst d. split; [|done]. split; [done|].
  intros i. destruct i; constructor; cbn; done || (change (len []) with 0; lia).
Qed.

(** C32: a TCP relay is transparent and honest about it. However its sockets, clock,
    cancellation and gate behave, in each direction the bytes written to the
    destination are a prefix of the bytes the gate passed, those are a prefix of
    the bytes read from the source, and no more than the direction's limit pass.
    Every outcome it ever reports is the same one, its counters are exactly the
    bytes written, and it says [OrderlyEnd] only when in both directions the
    source ended, the gate accepted the end, every byte passed was written and
    the destination was shut down. *)
Theorem relay_transparent {G : Type} `{Gate G} l now d (g : G) acts d' g' log os :
  0 <= max_chunk l -> 0 <= out_limit l -> 0 <= in_limit l ->
  Duplex_new l now = Ok d -> Forall (wf_action (max_chunk l)) acts ->
  relay_run d g acts = (d', g', log, os) ->
  (forall i, wrote i log `prefix_of` passed i log /\ passed i log `prefix_of` taken i log
     /\ len (passed i log) <= limit_of d i)
  /\ forall o, o ∈ os ->
       outcome d' = Some o
       /\ outcome_sent o = len (wrote Outbound log) /\ outcome_received o = len (wrote Inbound log)
       /\ (cause_of o = OrderlyEnd -> forall i, delivered_all i log).
Proof.
  intros Hc0 Ho0 Hi0 Hnew Hwf Hrun. destruct (Duplex_new_ok l now d Hc0 Ho0 Hi0 Hnew) as (Hok & Hd).
  assert (Hm : max_chunk (limits_ d) = max_chunk l) by by rewrite Hd. rewrite <-Hm in Hwf.
  destruct (run_ok acts d g [] d' g' log os Hwf Hok Hrun) as ([_ Hl] & Hr & Hos).
  assert (Hst : stopped d' log).
  { unfold relay_ok in Hr. destruct (outcome d'); [apply Hr|by apply open_stopped]. }
  split.
  - intros i. destruct (Hst i). by rewrite <-Hl.
  - intros o Ho. rewrite Forall_forall in Hos. specialize (Hos o Ho). split; [done|].
    unfold relay_ok in Hr. rewrite Hos in Hr. destruct Hr. done.
Qed.
