(* ===== verification/Secrets.v ===== *)
(** * Secret custody vocabulary ([aap-secrets/src/lib.rs])

    Snapshots, leases, item metadata and store errors. Stores themselves are
    behind the trait and answer through the environment of the operations that
    call them. *)
From S2P Require Import Prelude Protocol Ids.

(** `aap-secrets/src/lib.rs:16-26`, `SecretBytes::new` *)
Definition SecretBytes_new (bytes : list byte) : option (list byte) :=
  if bool_decide (bytes = []) || (65536 <? len bytes) then None else Some bytes.

(** `aap-secrets/src/lib.rs:157-169`, `StoreError` *)
Inductive StoreError :=
  | StoreLocked | StoreUnavailable | NotFound | AccessDenied | Changed | InteractionRequired
  | InvalidData | Unsupported.

(** `aap-secrets/src/lib.rs:178-189`, `From<StoreError> for aap_types::Error` *)
Definition store_error (e : StoreError) : Error :=
  Error_new match e with
            | StoreLocked => VaultLocked
            | AccessDenied | NotFound => PolicyDenied
            | InteractionRequired => InteractionUnavailable
            | _ => VaultUnavailable
            end.

(** `aap-secrets/src/lib.rs:30-42`, `ItemRef::new` *)
Definition ItemRef_new (value : string) : result StoreError string :=
  if bool_decide (value = EmptyString) || (16384 <? slen value) || any_control value
  then Err InvalidData else Ok value.

(** `aap-secrets/src/lib.rs:65-73`, `Field` *)
Inductive Field := Username | Password | KApiKey | AccessToken | RefreshToken | PrivateKey.
#[export] Instance Field_eq_dec : EqDecision Field.
Proof. solve_decision. Defined.

(** `aap-secrets/src/lib.rs:75-85`, `Field::as_str` *)
Definition field_as_str (f : Field) : string :=
  match f with
  | Username => "username" | Password => "password" | KApiKey => "api_key"
  | AccessToken => "access_token" | RefreshToken => "refresh_token" | PrivateKey => "private_key"
  end.
(** `aap-secrets/src/lib.rs:86-97`, `Field::parse` *)
Definition field_parse (value : string) : result StoreError Field :=
  if bool_decide (value = "username") then Ok Username
  else if bool_decide (value = "password") then Ok Password
  else if bool_decide (value = "api_key") then Ok KApiKey
  else if bool_decide (value = "access_token") then Ok AccessToken
  else if bool_decide (value = "refresh_token") then Ok RefreshToken
  else if bool_decide (value = "private_key") then Ok PrivateKey
  else Err InvalidData.

(** `aap-secrets/src/lib.rs:101-106`, `Lease` *)
Record Lease := mkLease { version : string; generation : string }.
#[export] Instance Lease_eq_dec : EqDecision Lease.
Proof. solve_decision. Defined.

(** `aap-secrets/src/lib.rs:108-113`, `ItemMetadata` *)
Record ItemMetadata := mkMetadata {
  lease : Lease; metadata_fields : list Field; valid_until : option Z }.

(** `aap-secrets/src/lib.rs:115-118`, `Snapshot`; the fields as an association list
    without duplicate keys *)
Record Snapshot := mkSnapshot { snapshot_metadata : ItemMetadata; secrets : list (Field * list byte) }.

(** `aap-secrets/src/lib.rs:120-134`, `Snapshot::new` *)
Definition Snapshot_new (m : ItemMetadata) (fields : list (Field * list byte)) (now : Z)
    : result StoreError Snapshot :=
  let kinds := remove_dups (metadata_fields m) in
  if bool_decide (fields = [])
     || negb (len kinds =? len (metadata_fields m))
     || negb (len kinds =? len fields)
     || negb (forallb (fun f => bool_decide (fst f ∈ kinds)) fields)
     || match valid_until m with Some d => d <=? now | None => false end
  then Err InvalidData else Ok (mkSnapshot m fields).

(** `aap-secrets/src/lib.rs:138-141`, `Snapshot::field` *)
Definition snapshot_field (s : Snapshot) (f : Field) : result StoreError (list byte) :=
  match find_first (fun p => bool_decide (fst p = f)) (secrets s) with
  | Some (_, bytes) => Ok bytes
  | None => Err InvalidData
  end.

Lemma field_round_trip f : field_parse (field_as_str f) = Ok f.
Proof. by destruct f. Qed.

(** A snapshot holds exactly the fields its metadata declares. *)
Lemma snapshot_fields m fs now s : NoDup fs.*1 -> Snapshot_new m fs now = Ok s ->
  NoDup (metadata_fields m) /\ forall f, f ∈ fs.*1 <-> f ∈ metadata_fields m.
Proof.
  intros Hnd H. unfold Snapshot_new in H. destruct (_ || _) eqn:E; [done|]. bool_hyps.
  assert (Hlen : length (remove_dups (metadata_fields m)) = length (metadata_fields m)) by (unfold len in *; lia).
  assert (Hsub : fs.*1 ⊆ remove_dups (metadata_fields m)).
  { intros f (p & -> & Hp)%list_elem_of_fmap. match goal with HF : forallb _ _ = true |- _ =>
      apply forallb_Forall in HF; rewrite Forall_forall in HF;
      by apply (HF p), bool_decide_eq_true in Hp end. }
  assert (Hperm : fs.*1 ≡ₚ remove_dups (metadata_fields m)).
  { apply submseteq_length_Permutation; [by apply NoDup_submseteq|].
    rewrite length_fmap. unfold len in *. lia. }
  assert (Hnd2 : NoDup (metadata_fields m)).
  { assert (Hp : remove_dups (metadata_fields m) ≡ₚ metadata_fields m).
    { apply submseteq_length_Permutation; [|lia]. apply NoDup_submseteq; [apply NoDup_remove_dups|].
      intros f. by rewrite elem_of_remove_dups. }
    rewrite <-Hp. apply NoDup_remove_dups. }
  split; [done|]. intros f. by rewrite Hperm, elem_of_remove_dups.
Qed.
