(* ===== verification/Redaction.v ===== *)
(** * Streaming redaction ([aap-auth/src/lib.rs], [aap-auth/src/placeholders.rs])

    [Redactor] replaces every known representation of a credential in a byte
    stream; [PlaceholderRedactor] every recognizable placeholder. Both are the
    same bounded-lookahead scan, so the scan and its theory are shared. *)
From Stdlib Require Import Sorting.Sorted.
From S2P Require Import Prelude Protocol Ids Catalog Profile Secrets.

(** ** The scan *)

Definition MARKER : list byte := as_bytes "[redacted]".

(** The loop of both [feed]s: while the pending bytes allow a decision ([need] of
    them, or the stream ended), a match is replaced and skipped, and a byte where
    nothing matches is passed on. Returns the output and the undecided suffix. *)
Fixpoint scan (m : list byte -> option nat) (need : nat) (fin : bool) (fuel : nat)
    (pending : list byte) : list byte * list byte :=
  match fuel, pending with
  | S fuel, b :: rest =>
      if fin || (need <=? length pending)%nat then
        match m pending with
        | Some n => let (o, r) := scan m need fin fuel (drop n pending) in (MARKER ++ o, r)
        | None => let (o, r) := scan m need fin fuel rest in (b :: o, r)
        end
      else ([], pending)
  | _, _ => ([], pending)
  end.

Definition MAX_FEED : Z := 256 * 1024.

(** ** Redactor *)

(** `aap-auth/src/lib.rs:48-53`, `Redactor` *)
Record Redactor := mkRedactor {
  patterns : list (list byte); pending : list byte; longest : nat; done_ : bool }.

(** `aap-auth/src/lib.rs:157-160`, `Redactor::feed` (the match at a position) *)
Definition find_pattern (ps : list (list byte)) (input : list byte) : option nat :=
  length <$> find_first (fun p => starts_with input p) ps.

(** `aap-auth/src/lib.rs:147-172`, `Redactor::feed` *)
Definition feed (r : Redactor) (chunk : list byte) (fin : bool) : Redactor * Result (list byte) :=
  if done_ r || (MAX_FEED <? len chunk) then (r, fail LimitExceeded)
  else
    let input := pending r ++ chunk in
    let (o, rest) := scan (find_pattern (patterns r)) (longest r) fin (length input) input in
    (mkRedactor (patterns r) rest (longest r) fin, Ok o).

(** `aap-auth/src/lib.rs:55-63`, `Redactor::fresh` *)
Definition fresh (r : Redactor) : Redactor := mkRedactor (patterns r) [] (longest r) false.

(** [slice.sort], [dedup] and [sort_by_key(Reverse(len))]: insertion sorts, stable. *)
Fixpoint insert_by {A} (le : A -> A -> bool) (x : A) (l : list A) : list A :=
  match l with
  | [] => [x]
  | y :: rest => if le x y then x :: l else y :: insert_by le x rest
  end.
Definition sort_by {A} (le : A -> A -> bool) (l : list A) : list A := foldr (insert_by le) [] l.
Fixpoint bytes_le (x y : list byte) : bool :=
  match x, y with
  | [], _ => true
  | _ :: _, [] => false
  | a :: x, b :: y => if byte_val a =? byte_val b then bytes_le x y else byte_val a <? byte_val b
  end.
Fixpoint dedup (l : list (list byte)) : list (list byte) :=
  match l with
  | x :: ((y :: _) as rest) => if bool_decide (x = y) then dedup rest else x :: dedup rest
  | _ => l
  end.
Definition longer (x y : list byte) : bool := (length y <=? length x)%nat.
Definition total (ps : list (list byte)) : Z := foldr (fun p n => len p + n) 0 ps.

(** The patterns, longest first, and the length of the longest. *)
Definition ordered (ps : list (list byte)) : list (list byte) := sort_by longer (dedup (sort_by bytes_le ps)).
Definition longest_of (ps : list (list byte)) : nat := match ps with p :: _ => length p | [] => 1 end.

(** [str::from_utf8(..).is_ok()]: well-formed UTF-8, surrogates and overlong forms
    excluded. *)
Fixpoint utf8_valid (fuel : nat) (l : list byte) : bool :=
  match fuel, l with
  | _, [] => true
  | O, _ => false
  | S fuel, b :: rest =>
      if byte_val b <? 128 then utf8_valid fuel rest
      else
        match rest with
        | c :: r1 =>
            if in_range 194 223 b then in_range 128 191 c && utf8_valid fuel r1
            else
              match r1 with
              | d :: r2 =>
                  if in_range 224 239 b then
                    in_range (if byte_val b =? 224 then 160 else 128) (if byte_val b =? 237 then 159 else 191) c
                    && in_range 128 191 d && utf8_valid fuel r2
                  else
                    match r2 with
                    | e :: r3 =>
                        in_range 240 244 b
                        && in_range (if byte_val b =? 240 then 144 else 128) (if byte_val b =? 244 then 143 else 191) c
                        && in_range 128 191 d && in_range 128 191 e && utf8_valid fuel r3
                    | [] => false
                    end
              | [] => false
              end
        | [] => false
        end
  end.
Definition from_utf8 (l : list byte) : bool := utf8_valid (length l) l.

(** `aap-auth/src/lib.rs:103-124`, `Redactor::new` (percent and form encoding) *)
Definition hex_digit (uppercase : bool) (n : Z) : byte :=
  nth (Z.to_nat n) (as_bytes (if uppercase then "0123456789ABCDEF" else "0123456789abcdef")) "0"%char.
Definition plain_octet (b : byte) : bool :=
  is_ascii_alphanumeric b || bool_decide (b ∈ as_bytes "-._~").
Definition percent_octet (uppercase : bool) (b : byte) : list byte :=
  ["%"%char; hex_digit uppercase (Z.shiftr (byte_val b) 4); hex_digit uppercase (Z.land (byte_val b) 15)].
Definition percent (uppercase : bool) (value : list byte) : list byte :=
  flat_map (fun b => if plain_octet b then [b] else percent_octet uppercase b) value.
Definition form (uppercase : bool) (value : list byte) : list byte :=
  flat_map (fun b => if plain_octet b then [b]
                     else if bool_decide (b = " "%char) then ["+"%char] else percent_octet uppercase b) value.

Section Patterns.
Context `{Base64} (json_string : list byte -> option (list byte)).

(** `aap-auth/src/lib.rs:92-132`, `Redactor::new` (the representations of one value);
    [json_string] is [serde_json::to_vec] of a string *)
Definition representations (value : list byte) : option (list (list byte)) :=
  let ps := value
    :: map (fun e => encode e value) [STANDARD; STANDARD_NO_PAD; URL_SAFE; URL_SAFE_NO_PAD]
    ++ flat_map (fun u => [percent u value; form u value]) [false; true] in
  if from_utf8 value then
    json ← json_string value;
    Some (ps ++ [take (length json - 2) (drop 1 json)])
  else Some ps.

(** `aap-auth/src/lib.rs:84-146`, `Redactor::new` *)
Definition Redactor_new (values : list (list byte)) : Result Redactor :=
  if (16 <? len values) || existsb (fun v => bool_decide (v = []) || (4096 <? len v)) values
  then fail LimitExceeded
  else
    match mapM representations values with
    | None => fail InternalError
    | Some pss =>
        let ps := ordered (mjoin pss) in
        if 1024 * 1024 <? total ps then fail LimitExceeded
        else Ok (mkRedactor ps [] (longest_of ps) false)
    end.
End Patterns.

(** `aap-auth/src/lib.rs:64-83`, `Redactor::merged` *)
Definition merged (r other : Redactor) : Result Redactor :=
  let unique := dedup (sort_by bytes_le (patterns r ++ patterns other)) in
  if (1024 <? len unique) || (1024 * 1024 <? total unique) then fail LimitExceeded
  else
    let ps := sort_by longer unique in
    Ok (mkRedactor ps [] (longest_of ps) false).

(** ** What a scan does *)

(** A piece of the input: a byte passed on, or a replaced match. *)
Inductive Span := Shown (b : byte) | Hidden (bytes : list byte).
Definition source (s : Span) : list byte := match s with Shown b => [b] | Hidden l => l end.
Definition render (s : Span) : list byte := match s with Shown b => [b] | Hidden _ => MARKER end.

(** The pieces of a whole input. *)
Fixpoint spans (m : list byte -> option nat) (fuel : nat) (l : list byte) : list Span :=
  match fuel, l with
  | S fuel, b :: rest =>
      match m l with
      | Some n => Hidden (take n l) :: spans m fuel (drop n l)
      | None => Shown b :: spans m fuel rest
      end
  | _, _ => []
  end.
Definition pieces (m : list byte -> option nat) (l : list byte) : list Span := spans m (length l) l.

(** A matcher that decides on [need] bytes, and never matches the empty word. *)
Record Matcher (m : list byte -> option nat) (need : nat) : Prop := {
  m_local x y : (need <= length x)%nat -> m (x ++ y) = m x;
  m_consumes x n : m x = Some n -> (0 < n <= length x)%nat }.

Section Scan.
Context {m : list byte -> option nat} {need : nat} (Hm : Matcher m need).

(** Fuel for every pending byte is enough. *)
Lemma scan_fuel fin f1 f2 l : (length l <= f1)%nat -> (length l <= f2)%nat ->
  scan m need fin f1 l = scan m need fin f2 l.
Proof.
  revert f2 l. induction f1 as [|f1 IH]; intros f2 l H1 H2.
  { destruct l; [|cbn in H1; lia]. by destruct f2. }
  destruct l as [|b l]; [by destruct f2|]. destruct f2 as [|f2]; [cbn in H2; lia|]. cbn [scan].
  destruct (fin || _); [|done]. destruct (m (b :: l)) as [n|] eqn:E.
  - apply (m_consumes _ _ Hm) in E. rewrite (IH f2); [done|..]; rewrite length_drop; cbn in *; lia.
  - rewrite (IH f2); [done|..]; cbn in *; lia.
Qed.

(** An undecided scan composes with the bytes that follow. *)
Lemma scan_resume fin f l k o r : (length l <= f)%nat -> scan m need false f l = (o, r) ->
  scan m need fin (length (l ++ k)) (l ++ k)
  = let (o', r') := scan m need fin (length (r ++ k)) (r ++ k) in (o ++ o', r').
Proof.
  revert l o r. induction f as [|f IH]; intros l o r Hf Hs.
  { destruct l; [|cbn in Hf; lia]. cbn in Hs. simplify_eq. by destruct (scan _ _ _ _ _). }
  destruct l as [|b l]; [cbn in Hs; simplify_eq; by destruct (scan _ _ _ _ _)|].
  cbn [scan] in Hs. cbn [orb] in Hs.
  destruct (Nat.leb_spec need (length (b :: l))) as [Hle|]; [|simplify_eq; by destruct (scan _ _ _ _ _)].
  cbn [app length scan]. rewrite (proj2 (Nat.leb_le need _)), orb_true_r by (cbn in *; rewrite length_app; lia).
  change (b :: l ++ k) with ((b :: l) ++ k). rewrite (m_local _ _ Hm) by done.
  destruct (m (b :: l)) as [n|] eqn:E.
  - destruct (m_consumes _ _ Hm _ _ E) as [? Hn].
    destruct (scan m need false f (drop n (b :: l))) as [o1 r1] eqn:Hs1. simplify_eq.
    rewrite drop_app_le by done.
    rewrite (scan_fuel _ (length (l ++ k)) (length (drop n (b :: l) ++ k)));
      [|rewrite ?length_app, ?length_drop; cbn in *; lia|done].
    apply IH in Hs1; [|rewrite length_drop; cbn in *; lia]. rewrite Hs1.
    destruct (scan m need fin _ (r ++ k)). by rewrite <-app_assoc.
  - destruct (scan m need false f l) as [o1 r1] eqn:Hs1. simplify_eq.
    apply IH in Hs1; [|cbn in *; lia]. rewrite Hs1. by destruct (scan m need fin _ (r ++ k)).
Qed.

Lemma spans_fuel f1 f2 l : (length l <= f1)%nat -> (length l <= f2)%nat -> spans m f1 l = spans m f2 l.
Proof.
  revert f2 l. induction f1 as [|f1 IH]; intros f2 l H1 H2.
  { destruct l; [|cbn in H1; lia]. by destruct f2. }
  destruct l as [|b l]; [by destruct f2|]. destruct f2 as [|f2]; [cbn in H2; lia|]. cbn [spans].
  destruct (m (b :: l)) as [n|] eqn:E.
  - apply (m_consumes _ _ Hm) in E. rewrite (IH f2); [done|..]; rewrite length_drop; cbn in *; lia.
  - rewrite (IH f2); [done|..]; cbn in *; lia.
Qed.

(** A finished scan leaves nothing, and its output is the rendering of the pieces. *)
Lemma scan_finished f l : (length l <= f)%nat ->
  scan m need true f l = (flat_map render (spans m f l), []).
Proof.
  revert l. induction f as [|f IH]; intros [|b l] Hf; [done|cbn in Hf; lia|done|]. cbn [scan spans orb].
  destruct (m (b :: l)) as [n|] eqn:E.
  - apply (m_consumes _ _ Hm) in E. rewrite IH; [done|]. rewrite length_drop. cbn in *. lia.
  - rewrite IH; [done|]. cbn in Hf. lia.
Qed.

Lemma spans_source f l : (length l <= f)%nat -> flat_map source (spans m f l) = l.
Proof.
  revert l. induction f as [|f IH]; intros [|b l] Hf; [done|cbn in Hf; lia|done|]. cbn [spans].
  destruct (m (b :: l)) as [n|] eqn:E; cbn [flat_map source].
  - apply (m_consumes _ _ Hm) in E. rewrite IH by (rewrite length_drop; cbn in *; lia). apply take_drop.
  - rewrite IH; [done|]. cbn in Hf. lia.
Qed.

(** Where a byte is passed on, nothing matches. *)
Lemma spans_shown f l i c : (length l <= f)%nat -> spans m f l !! i = Some (Shown c) ->
  m (flat_map source (drop i (spans m f l))) = None.
Proof.
  revert l i. induction f as [|f IH]; intros [|b l] i Hf; [done|cbn in Hf; lia|done|]. cbn [spans].
  destruct (m (b :: l)) as [n|] eqn:E.
  - destruct i as [|i]; [done|]. cbn [lookup list_lookup drop]. apply IH.
    apply (m_consumes _ _ Hm) in E. rewrite length_drop. cbn in *. lia.
  - destruct i as [|i]; cbn [lookup list_lookup drop].
    + intros _. cbn [flat_map source]. rewrite spans_source by (cbn in Hf; lia). done.
    + apply IH. cbn in Hf. lia.
Qed.

(** What a scan decided are the first pieces of every continuation of its input. *)
Lemma scan_pieces fin f l o r : (length l <= f)%nat -> scan m need fin f l = (o, r) ->
  exists ss, o = flat_map render ss /\ l = flat_map source ss ++ r
    /\ (fin = true -> r = []) /\ (fin = false -> (length r < need)%nat \/ r = [])
    /\ forall k, (fin = true -> k = []) -> pieces m (l ++ k) = ss ++ pieces m (r ++ k).
Proof.
  revert l o r. induction f as [|f IH]; intros l o r Hf Hs.
  { destruct l; [|cbn in Hf; lia]. cbn in Hs. simplify_eq. exists []. by split_and!; auto. }
  destruct l as [|b l]; [cbn in Hs; simplify_eq; exists []; by split_and!; auto|].
  cbn [scan] in Hs. destruct (fin || (need <=? length (b :: l))%nat) eqn:Hd.
  2: { apply orb_false_iff in Hd as [-> Hd]. apply Nat.leb_gt in Hd. simplify_eq. exists []. by split_and!; auto. }
  assert (Hm' : forall k, (fin = true -> k = []) -> m ((b :: l) ++ k) = m (b :: l)).
  { intros k Hk. destruct fin; [by rewrite Hk, app_nil_r|]. apply (m_local _ _ Hm). by apply Nat.leb_le. }
  destruct (m (b :: l)) as [n|] eqn:E.
  - destruct (m_consumes _ _ Hm _ _ E) as [? Hn].
    destruct (scan m need fin f (drop n (b :: l))) as [o1 r1] eqn:Hs1. simplify_eq.
    apply IH in Hs1 as (ss & -> & Hl & Hr & Hr' & Hk); [|rewrite length_drop; cbn in *; lia].
    exists (Hidden (take n (b :: l)) :: ss). split_and!; [done| |done|done|].
    + cbn [flat_map source]. rewrite <-app_assoc, <-Hl. by rewrite take_drop.
    + intros k Hk0. rewrite <-(app_comm_cons ss), <-(Hk k Hk0). rewrite <-drop_app_le by done.
      change ((b :: l) ++ k) with (b :: (l ++ k)). unfold pieces at 1. cbn [length spans].
      change (b :: l ++ k) with ((b :: l) ++ k). rewrite (Hm' k Hk0). rewrite take_app_le by done. f_equal.
      apply spans_fuel; rewrite length_drop; cbn in *; rewrite ?length_app in *; lia.
  - destruct (scan m need fin f l) as [o1 r1] eqn:Hs1. simplify_eq.
    apply IH in Hs1 as (ss & -> & Hl & Hr & Hr' & Hk); [|cbn in *; lia].
    exists (Shown b :: ss). split_and!; [done|cbn; by rewrite <-Hl|done|done|].
    intros k Hk0. rewrite <-(app_comm_cons ss), <-(Hk k Hk0). change ((b :: l) ++ k) with (b :: (l ++ k)).
    unfold pieces at 1. cbn [length spans]. change (b :: l ++ k) with ((b :: l) ++ k). by rewrite (Hm' k Hk0).
Qed.

(** Feeding chunk by chunk gives the pieces of the whole. *)
Lemma scan_chunks l k o r : scan m need false (length l) l = (o, r) ->
  o ++ flat_map render (pieces m (r ++ k)) = flat_map render (pieces m (l ++ k)).
Proof.
  intros Hs. pose proof (scan_resume true (length l) l k o r (le_n _) Hs) as H.
  rewrite !scan_finished in H by lia. unfold pieces. by simplify_eq/=.
Qed.
End Scan.

(** ** The redactor's matcher *)

Definition wf_patterns (ps : list (list byte)) (longest : nat) : Prop :=
  Forall (fun p => p <> [] /\ (length p <= longest)%nat) ps.

Lemma starts_with_app x y p : (length p <= length x)%nat -> starts_with (x ++ y) p = starts_with x p.
Proof.
  revert x; induction p as [|c p IH]; intros [|b x] Hl; cbn in *; [by destruct y|done|lia|].
  rewrite IH by lia. done.
Qed.

Lemma find_pattern_matcher ps n : wf_patterns ps n -> Matcher (find_pattern ps) n.
Proof.
  intros Hwf. split.
  - intros x y Hx. unfold find_pattern, find_first. f_equal. induction Hwf as [|p ps [_ Hp] _ IH]; [done|].
    cbn. rewrite starts_with_app by lia. by rewrite IH.
  - intros x k Hf. unfold find_pattern in Hf. destruct (find_first _ ps) as [p|] eqn:E; [|done].
    apply find_first_Some in E as [Hp Hs]. cbn in Hf. injection Hf as <-.
    destruct (proj1 (Forall_forall _ _) Hwf p Hp) as [Hne _].
    apply starts_with_spec in Hs as [k ->]. rewrite length_app. destruct p; [done|cbn; lia].
Qed.

Lemma find_pattern_None ps x p : find_pattern ps x = None -> p ∈ ps -> starts_with x p = false.
Proof.
  unfold find_pattern, find_first. destruct (List.find _ ps) eqn:E; [done|]. intros _ Hp.
  apply (List.find_none _ _ E). by apply list_elem_of_In.
Qed.

(** ** The order of the patterns *)

Lemma elem_insert_by {A} (le : A -> A -> bool) x y l : y ∈ insert_by le x l <-> y = x \/ y ∈ l.
Proof.
  induction l as [|z l IH]; cbn; [set_solver|]. destruct (le x z); rewrite ?elem_of_cons, ?IH; set_solver.
Qed.
Lemma elem_sort_by {A} (le : A -> A -> bool) y l : y ∈ sort_by le l <-> y ∈ l.
Proof. induction l as [|x l IH]; cbn; [done|]. rewrite elem_insert_by, IH. set_solver. Qed.
Lemma elem_dedup y l : y ∈ dedup l <-> y ∈ l.
Proof.
  induction l as [|x [|z l] IH]; [done|done|]. cbn [dedup]. case_bool_decide as Hx.
  - rewrite IH. subst. set_solver.
  - rewrite elem_of_cons, IH. set_solver.
Qed.
Lemma elem_ordered y ps : y ∈ ordered ps <-> y ∈ ps.
Proof. unfold ordered. by rewrite elem_sort_by, elem_dedup, elem_sort_by. Qed.


Definition shorter_after (x y : list byte) : Prop := (length y <= length x)%nat.

Lemma insert_longer_sorted p l : StronglySorted shorter_after l -> StronglySorted shorter_after (insert_by longer p l).
Proof.
  induction 1 as [|q l Hl IHl Hq]; cbn; [repeat constructor|].
  rewrite Forall_forall in Hq. unfold shorter_after in *. destruct (longer p q) eqn:Hpq; unfold longer in Hpq.
  - apply Nat.leb_le in Hpq. constructor; [constructor; [done|by apply Forall_forall]|].
    apply Forall_forall. intros y [->|Hy]%elem_of_cons; [done|]. specialize (Hq y Hy). lia.
  - apply Nat.leb_gt in Hpq. constructor; [done|]. apply Forall_forall.
    intros y [->|Hy]%elem_insert_by; [lia|by apply Hq].
Qed.

Lemma sort_longer_first ps : StronglySorted shorter_after (sort_by longer ps).
Proof. induction ps; [constructor|]. by apply insert_longer_sorted. Qed.

Lemma longest_of_sorted ps : Forall (fun p => (length p <= longest_of (sort_by longer ps))%nat) (sort_by longer ps).
Proof.
  pose proof (sort_longer_first ps) as Hs. destruct (sort_by longer ps) as [|q l]; [constructor|].
  inversion Hs; subst. constructor; cbn; [lia|done].
Qed.

Section Redactors.
Context `{Base64Laws} (json_string : list byte -> option (list byte)).
(** A JSON string of a nonempty text has its two quotes and something between. *)
Hypothesis json_nonempty : forall v j, json_string v = Some j -> v <> [] -> (2 < length j)%nat.

Lemma encode_nonempty e v : e ∈ [URL_SAFE_NO_PAD; STANDARD; URL_SAFE; STANDARD_NO_PAD] ->
  v <> [] -> encode e v <> [].
Proof.
  intros He Hv Hn. pose proof (encode_nil e He) as Hnil.
  assert (Hr : forall x, decode e (encode e x) = Some x).
  { intros x. repeat (apply elem_of_cons in He as [->|He]); [..|by apply elem_of_nil in He].
    - apply url_safe_no_pad_round.
    - apply standard_round.
    - apply url_safe_round.
    - apply standard_no_pad_round. }
  pose proof (Hr v) as Hv1. pose proof (Hr []) as Hv2. rewrite Hn in Hv1. rewrite Hnil in Hv2. congruence.
Qed.

Lemma representations_nonempty v ps p : representations json_string v = Some ps -> v <> [] -> p ∈ ps -> p <> [].
Proof.
  intros Hr Hv. unfold representations in Hr.
  set (base := v :: _ ++ _) in Hr. assert (Hbase : forall q, q ∈ base -> q <> []).
  { intros q Hq. unfold base in Hq. rewrite elem_of_cons, elem_of_app in Hq.
    destruct Hq as [->|[Hq|Hq]]; [done| |].
    - apply list_elem_of_fmap in Hq as (e & -> & He). apply encode_nonempty; [set_solver|done].
    - destruct v as [|b v]; [done|]. cbn in Hq.
      repeat (apply elem_of_cons in Hq as [->|Hq]); [..|by apply elem_of_nil in Hq];
        repeat case_match; done. }
  clearbody base. destruct (from_utf8 v); [|simplify_eq; by apply Hbase].
  destruct (json_string v) as [j|] eqn:Hj; cbn in Hr; [|done]. simplify_eq.
  rewrite elem_of_app, list_elem_of_singleton. intros [Hp| ->]; [by apply Hbase|].
  pose proof (json_nonempty _ _ Hj Hv). intros Hn%(f_equal length).
  rewrite length_take, length_drop in Hn. cbn in Hn. lia.
Qed.

Lemma Redactor_new_Ok values r : Redactor_new json_string values = Ok r ->
  wf_patterns (patterns r) (longest r) /\ pending r = [] /\ done_ r = false
  /\ forall v, v ∈ values -> exists ps, representations json_string v = Some ps /\ ps ⊆ patterns r.
Proof.
  unfold Redactor_new. destruct (_ || _) eqn:Hb; [done|]. bool_hyps.
  destruct (mapM _ values) as [pss|] eqn:Hm; [|done]. destruct (_ <? _); [done|].
  intros [= <-]. cbn. apply mapM_Some in Hm. split_and!; [|done|done|].
  - pose proof (longest_of_sorted (dedup (sort_by bytes_le (mjoin pss)))) as Hlong.
    apply Forall_forall. intros p Hp. split; [|by apply (proj1 (Forall_forall _ _) Hlong)].
    rewrite elem_ordered in Hp. apply list_elem_of_join in Hp as (ps & Hp & Hps).
    apply list_elem_of_lookup in Hps as [i Hi]. destruct (Forall2_lookup_r _ _ _ _ _ Hm Hi) as (v & Hv & Hr).
    apply (representations_nonempty v ps); [done| |done].
    match goal with HE : existsb _ _ = false |- _ => apply existsb_false in HE;
      apply (Forall_lookup_1 _ _ _ _ HE) in Hv end. bool_hyps. done.
  - intros v Hv. apply list_elem_of_lookup in Hv as [i Hi].
    destruct (Forall2_lookup_l _ _ _ _ _ Hm Hi) as (ps & Hps & Hr). exists ps. split; [done|].
    intros p Hp. apply elem_ordered, list_elem_of_join. exists ps. split; [done|].
    apply list_elem_of_lookup. by exists i.
Qed.
End Redactors.

(** ** Whole streams *)

(** The chunks of a stream, then its end: [None] when a [feed] refused. *)
Fixpoint feed_all (r : Redactor) (chunks : list (list byte)) : option (list byte) :=
  match chunks with
  | [] => ok (feed r [] true).2
  | c :: chunks =>
      match feed r c false with
      | (r, Ok o) => (o ++.) <$> feed_all r chunks
      | (_, Err _) => None
      end
  end.

Lemma feed_all_spec chunks r : wf_patterns (patterns r) (longest r) -> done_ r = false ->
  Forall (fun c => len c <= MAX_FEED) chunks ->
  feed_all r chunks = Some (flat_map render (pieces (find_pattern (patterns r)) (pending r ++ mjoin chunks))).
Proof.
  intros Hwf Hd Hc. revert r Hwf Hd. induction Hc as [|c chunks Hc _ IH]; intros r Hwf Hd; cbn [feed_all].
  - unfold feed. rewrite Hd. cbn [orb]. change (len []) with 0. cbn [Z.ltb]. cbn [MAX_FEED].
    rewrite (scan_finished (find_pattern_matcher _ _ Hwf)) by lia. cbn. done.
  - unfold feed. rewrite Hd. rewrite (proj2 (Z.ltb_ge _ _) Hc). cbn [orb].
    destruct (scan _ _ false _ _) as [o rest] eqn:Hs.
    rewrite IH by done. cbn [patterns pending]. cbn. f_equal.
    rewrite (scan_chunks (find_pattern_matcher _ _ Hwf) _ _ _ _ Hs). by rewrite <-app_assoc.
Qed.

(** Credentials do not survive redaction. Whatever the chunking of a stream, a
    redactor built for some credential values accepts it and produces the same
    output: the input cut into pieces, each a byte passed on or a replaced match,
    where no byte is passed on at which any of the values, or its base64, percent,
    form or JSON representation, begins. *)
Lemma redactor_hides `{Base64Laws} json_string values r chunks :
  (forall v j, json_string v = Some j -> v <> [] -> (2 < length j)%nat) ->
  Redactor_new json_string values = Ok r ->
  Forall (fun c => len c <= MAX_FEED) chunks ->
  exists ss, ss = pieces (find_pattern (patterns r)) (mjoin chunks)
    /\ feed_all r chunks = Some (flat_map render ss)
    /\ flat_map source ss = mjoin chunks
    /\ forall i b v ps p, ss !! i = Some (Shown b) ->
         v ∈ values -> representations json_string v = Some ps -> p ∈ ps ->
         starts_with (flat_map source (drop i ss)) p = false.
Proof.
  intros Hj Hnew Hc. destruct (Redactor_new_Ok _ Hj _ _ Hnew) as (Hwf & Hp & Hd & Hin).
  pose proof (find_pattern_matcher _ _ Hwf) as Hm. eexists; split; [done|].
  rewrite feed_all_spec, Hp by done. split; [done|]. split; [by apply (spans_source Hm)|].
  intros i b v ps p Hi Hv Hr Hps. apply (spans_shown Hm) in Hi; [|done].
  eapply find_pattern_None; [done|]. destruct (Hin v Hv) as (ps' & Hr' & Hsub).
  simplify_eq. by apply Hsub.
Qed.

(** ** Placeholders *)

(** `aap-auth/src/placeholders.rs:10-11`, `DECODED_LEN` and `MAX_ENCODED` *)
Definition DECODED_LEN : nat := 51.
Definition MAX_ENCODED : nat := DECODED_LEN * 6.

(** `aap-auth/src/placeholders.rs:14-18`, `PlaceholderRedactor` *)
Record PlaceholderRedactor := mkPlaceholders { p_pending : list byte; p_done : bool }.

(** `aap-auth/src/placeholders.rs:85-92`, `hex` *)
Definition hex (b : byte) : option Z := to_digit16 b.

(** `aap-auth/src/placeholders.rs:65-72`, `recognizable` (one spelled byte: its value
    and the bytes of the spelling) *)
Definition octet (next : list byte) : option (byte * nat) :=
  match next with
  | [] => None
  | b :: rest =>
      if bool_decide (b = "%"%char) then
        h ← rest !! 0%nat; h ← hex h; l ← rest !! 1%nat; l ← hex l;
        Some (byte_of (h * 16 + l), 3%nat)
      else if bool_decide (b = "\"%char) && starts_with next (as_bytes "\u00") then
        h ← next !! 4%nat; h ← hex h; l ← next !! 5%nat; l ← hex l;
        Some (byte_of (h * 16 + l), 6%nat)
      else Some (b, 1%nat)
  end.

Definition token_octet (b : byte) : bool :=
  is_ascii_alphanumeric b || bool_decide (b = "_"%char) || bool_decide (b = "-"%char).

(** `aap-auth/src/placeholders.rs:62-78`, `recognizable` (the decoding loop: the token
    and the bytes it was spelled with) *)
Fixpoint decode_token (n : nat) (next : list byte) : option (list byte * nat) :=
  match n with
  | O => Some ([], 0%nat)
  | S n =>
      '(b, count) ← octet next;
      if token_octet b then
        '(bs, k) ← decode_token n (drop count next);
        Some (b :: bs, (count + k)%nat)
      else None
  end.

Section Placeholders.
Context `{Base64}.

(** `aap-auth/src/placeholders.rs:81-84`, `valid` *)
Definition valid_token (value : list byte) : bool :=
  bool_decide (take 8 value ∈ map as_bytes ["aap_un1_"; "aap_pw1_"; "aap_cs1_"])
  && from_utf8 (drop 8 value) && valid_id (from_bytes (drop 8 value)) 32.

(** `aap-auth/src/placeholders.rs:49-58`, `recognizable` (a base64-encoded token) *)
Definition encoded_token (input : list byte) : bool :=
  starts_with input (as_bytes "YWFw") && (68 <=? length input)%nat
  && existsb (fun e => match decode e (take 68 input) with
                       | Some v => (length v =? DECODED_LEN)%nat && valid_token v
                       | None => false
                       end) [STANDARD; URL_SAFE].

(** `aap-auth/src/placeholders.rs:46-80`, `recognizable` *)
Definition recognizable (input : list byte) : option nat :=
  if encoded_token input then Some 68%nat
  else
    match input with
    | b :: _ =>
        if bool_decide (b ∈ as_bytes "a%\") then
          '(token, count) ← decode_token DECODED_LEN input;
          if valid_token token then Some count else None
        else None
    | [] => None
    end.

(** `aap-auth/src/placeholders.rs:23-43`, `PlaceholderRedactor::feed`: the safe bytes
    and the source bytes they stand for *)
Definition feed_placeholders (r : PlaceholderRedactor) (chunk : list byte) (fin : bool)
    : PlaceholderRedactor * Result (list byte * Z) :=
  if p_done r || (MAX_FEED <? len chunk) then (r, fail LimitExceeded)
  else
    let input := p_pending r ++ chunk in
    let (o, rest) := scan recognizable MAX_ENCODED fin (length input) input in
    (mkPlaceholders rest fin, Ok (o, len input - len rest)).

Lemma octet_app x y : (6 <= length x)%nat -> octet (x ++ y) = octet x.
Proof.
  intros Hx. destruct x as [|b0 [|b1 [|b2 [|b3 [|b4 [|b5 x]]]]]]; cbn in Hx; try lia. reflexivity.
Qed.
Lemma octet_count x b n : octet x = Some (b, n) -> (0 < n <= 6)%nat /\ (n <= length x)%nat.
Proof.
  destruct x as [|b0 x]; [done|]. cbn [octet]. destruct (bool_decide _).
  - destruct (x !! 0%nat); [|done]. cbn. destruct (hex _); [|done]. cbn.
    destruct (x !! 1%nat) eqn:E; [|done]. cbn. destruct (hex _); [|done]. cbn. intros [= _ <-].
    apply lookup_lt_Some in E. lia.
  - destruct (_ && _).
    + cbn. destruct (x !! 3%nat); [|done]. cbn. destruct (hex _); [|done]. cbn.
      destruct (x !! 4%nat) eqn:E; [|done]. apply lookup_lt_Some in E.
      cbn. destruct (hex _); [|done]. cbn. intros [= _ <-]. lia.
    + intros [= _ <-]. cbn. lia.
Qed.

Lemma decode_token_app n x y : (6 * n <= length x)%nat -> decode_token n (x ++ y) = decode_token n x.
Proof.
  revert x. induction n as [|n IH]; intros x Hx; [done|]. cbn [decode_token].
  rewrite octet_app by lia. destruct (octet x) as [[b k]|] eqn:E; [|done]. cbn.
  apply octet_count in E. rewrite drop_app_le by lia. rewrite IH by (rewrite length_drop; lia). done.
Qed.
Lemma decode_token_count n x bs k : decode_token n x = Some (bs, k) -> (n <= k <= length x)%nat /\ length bs = n.
Proof.
  revert x bs k. induction n as [|n IH]; intros x bs k Hd; cbn [decode_token] in Hd; [by simplify_eq/=; split; [lia|]|].
  destruct (octet x) as [[b c]|] eqn:E; [|done]. cbn in Hd. destruct (token_octet b); [|done].
  destruct (decode_token n (drop c x)) as [[bs' k']|] eqn:E2; [|done]. cbn in Hd. simplify_eq.
  apply octet_count in E. apply IH in E2. rewrite length_drop in E2. cbn. lia.
Qed.

Lemma encoded_token_app x y : (68 <= length x)%nat -> encoded_token (x ++ y) = encoded_token x.
Proof.
  intros Hx. unfold encoded_token. rewrite starts_with_app by (cbn; lia). rewrite take_app_le by done.
  rewrite (proj2 (Nat.leb_le _ _) Hx), length_app, (proj2 (Nat.leb_le 68 (length x + length y))) by lia.
  done.
Qed.

Lemma recognizable_matcher : Matcher recognizable MAX_ENCODED.
Proof.
  split.
  - unfold MAX_ENCODED, DECODED_LEN. intros x y Hx. unfold recognizable.
    rewrite encoded_token_app by lia. destruct (encoded_token x); [done|].
    destruct x as [|b x]; [cbn in Hx; lia|]. cbn [app]. destruct (bool_decide _); [|done].
    change (b :: x ++ y) with ((b :: x) ++ y). rewrite decode_token_app; [done|]. unfold DECODED_LEN. lia.
  - intros x n. unfold recognizable. destruct (encoded_token x) eqn:E.
    { intros [= <-]. unfold encoded_token in E. bool_hyps.
      match goal with HL : (68 <=? _)%nat = true |- _ => apply Nat.leb_le in HL end. lia. }
    destruct x as [|b x]; [done|]. destruct (bool_decide _); [|done].
    destruct (decode_token _ _) as [[t k]|] eqn:Hd; [|done]. cbn. destruct (valid_token t); [|done].
    intros [= <-]. apply decode_token_count in Hd. unfold DECODED_LEN in Hd. cbn in Hd |- *. lia.
Qed.

(** A spelling of a byte: itself, percent encoded, or a JSON escape. *)
Inductive spelled : byte -> list byte -> Prop :=
  | as_itself b : spelled b [b]
  | as_percent b h l x y : hex h = Some x -> hex l = Some y -> b = byte_of (x * 16 + y) ->
      spelled b ["%"%char; h; l]
  | as_escape b h l x y : hex h = Some x -> hex l = Some y -> b = byte_of (x * 16 + y) ->
      spelled b (as_bytes "\u00" ++ [h; l]).

Lemma octet_spelled b s rest : token_octet b = true -> spelled b s -> octet (s ++ rest) = Some (b, length s).
Proof.
  intros Ht Hs. inversion Hs as [?|? h l x y Hh Hl Hb|? h l x y Hh Hl Hb]; subst; cbn [app as_bytes].
  - cbn [octet]. rewrite bool_decide_eq_false_2 by (by intros ->).
    destruct (bool_decide_reflect (b = "\"%char)) as [->|_]; [done|]. done.
  - cbn. by rewrite Hh; cbn; rewrite Hl.
  - cbn. by rewrite Hh; cbn; rewrite Hl.
Qed.

Lemma decode_token_spelled bs ss rest : Forall (fun b => token_octet b = true) bs -> Forall2 spelled bs ss ->
  decode_token (length bs) (mjoin ss ++ rest) = Some (bs, length (mjoin ss)).
Proof.
  intros Ht Hs. induction Hs as [|b s bs ss Hb Hs IH]; [done|]. apply Forall_cons in Ht as [Htb Ht].
  cbn [length decode_token]. change (mjoin (s :: ss)) with (s ++ mjoin ss).
  rewrite <-app_assoc, (octet_spelled b s) by done. cbn [mbind option_bind]. rewrite Htb.
  rewrite drop_app_length, IH by done. cbn [mbind option_bind]. by rewrite length_app.
Qed.

(** Every spelling of a valid token is recognized, whatever follows it, unless the
    text also reads as a base64-encoded token. *)
Lemma recognizes_spellings bs ss rest : length bs = DECODED_LEN -> Forall (fun b => token_octet b = true) bs ->
  valid_token bs = true -> Forall2 spelled bs ss -> recognizable (mjoin ss ++ rest) = Some (length (mjoin ss)).
Proof.
  intros Hl Ht Hv Hs. pose proof (decode_token_spelled bs ss rest Ht Hs) as Hd. rewrite Hl in Hd.
  destruct bs as [|b bs]; [done|]. inversion Hs as [|? s ? ss' Hb Hs']; subst.
  assert (Ha : b = "a"%char).
  { unfold valid_token in Hv. bool_hyps.
    match goal with HT : take 8 _ ∈ _ |- _ => cbn in HT; rewrite !elem_of_cons, elem_of_nil in HT end.
    naive_solver. }
  subst b. unfold recognizable.
  assert (Hfirst : exists c r, mjoin (s :: ss') ++ rest = c :: r /\ c ∈ as_bytes "a%\" /\ c <> "Y"%char).
  { inversion Hb; subst; cbn; eexists _, _; (split; [reflexivity|split; [set_solver|done]]). }
  destruct Hfirst as (c & r & Hc & Hin & Hy). rewrite Hc in Hd |- *.
  assert (He : encoded_token (c :: r) = false).
  { unfold encoded_token. cbn. rewrite bool_decide_eq_false_2 by (intros <-; done). done. }
  rewrite He, bool_decide_eq_true_2, Hd by done. cbn [mbind option_bind]. by rewrite Hv.
Qed.

(** The chunks of a stream, then its end: the safe bytes and the bytes released. *)
Fixpoint placeholders_all (r : PlaceholderRedactor) (chunks : list (list byte)) : option (list byte * Z) :=
  match chunks with
  | [] => ok (feed_placeholders r [] true).2
  | c :: chunks =>
      match feed_placeholders r c false with
      | (r, Ok (o, n)) => '(os, k) ← placeholders_all r chunks; Some (o ++ os, n + k)
      | (_, Err _) => None
      end
  end.

Lemma placeholders_all_spec chunks r : p_done r = false -> Forall (fun c => len c <= MAX_FEED) chunks ->
  placeholders_all r chunks
  = Some (flat_map render (pieces recognizable (p_pending r ++ mjoin chunks)), len (p_pending r ++ mjoin chunks)).
Proof.
  intros Hd Hc. revert r Hd. induction Hc as [|c chunks Hc _ IH]; intros r Hd; cbn [placeholders_all].
  - unfold feed_placeholders. rewrite Hd. cbn [orb]. change (len []) with 0. cbn [Z.ltb]. cbn [MAX_FEED].
    rewrite (scan_finished recognizable_matcher) by lia. cbn. by rewrite Z.sub_0_r.
  - unfold feed_placeholders. rewrite Hd, (proj2 (Z.ltb_ge _ _) Hc). cbn [orb].
    destruct (scan _ _ false _ _) as [o rest] eqn:Hs.
    rewrite IH by done. cbn [mbind option_bind p_pending]. f_equal.
    change (mjoin (c :: chunks)) with (c ++ mjoin chunks).
    rewrite (scan_chunks recognizable_matcher _ _ _ _ Hs), <-app_assoc. f_equal.
    rewrite app_assoc, !len_app. lia.
Qed.
End Placeholders.

(** Placeholders do not reach observation. Whatever the chunking of a stream, the
    observing redactor accepts it, releases exactly its bytes, and shows it cut into
    pieces of which no passed byte begins a recognizable placeholder; every spelling
    of a placeholder by raw, percent-encoded and JSON-escaped bytes is recognizable. *)
Lemma placeholders_hidden `{Base64} chunks : Forall (fun c => len c <= MAX_FEED) chunks ->
  exists ss, ss = pieces recognizable (mjoin chunks)
    /\ placeholders_all (mkPlaceholders [] false) chunks = Some (flat_map render ss, len (mjoin chunks))
    /\ flat_map source ss = mjoin chunks
    /\ forall i b bs spelling rest, ss !! i = Some (Shown b) ->
         length bs = DECODED_LEN -> Forall (fun b => token_octet b = true) bs -> valid_token bs = true ->
         Forall2 spelled bs spelling -> flat_map source (drop i ss) <> mjoin spelling ++ rest.
Proof.
  intros Hc. eexists; split; [done|]. rewrite placeholders_all_spec by done. split; [done|].
  split; [by apply (spans_source recognizable_matcher)|].
  intros i b bs sp rest Hi Hl Ht Hv Hs Heq. apply (spans_shown recognizable_matcher) in Hi; [|done].
  unfold pieces in *. rewrite Heq, (recognizes_spellings bs) in Hi by done. done.
Qed.
