(* ===== verification/Injection.v ===== *)
(** * Credential injection and response sanitation ([aap-auth/src/lib.rs])

    A prepared key enters exactly one header of an outgoing request and comes back
    only as a redactor; a response is rebuilt from its status and media type, with
    every credential and cookie value of the exchange redacted from its body. The
    [http] crate's messages are records; its parsers are the classes [Http],
    [Urls] and [HttpMessage]. *)
From S2P Require Import Prelude Protocol Ids Catalog Profile Secrets Redaction.

(** ** Messages *)

(** What the code asks the [http] crate beyond header names: whether a method and a
    header value parse, the text of a value, and the classes of status codes. *)
Class HttpMessage := {
  Method_from_bytes : string -> bool;
  HeaderValue_from_bytes : list byte -> bool;
  to_str : list byte -> option (list byte);
  is_redirection : Z -> bool;
  is_informational : Z -> bool }.

(** A request under construction and a response; headers in insertion order under
    their canonical names. *)
Record HttpRequest := mkHttpRequest {
  http_method : string; http_uri : string; http_headers : list (string * list byte); http_body : list byte }.
Record HttpResponse := mkHttpResponse {
  http_status : Z; response_headers : list (string * list byte); frames : list (list byte) }.

Definition get_all (name : string) (hs : list (string * list byte)) : list (list byte) :=
  map snd (List.filter (fun h => bool_decide (h.1 = name)) hs).

(** [str::trim] on ASCII, [split(c).next()] and [split_once(c)]. *)
Definition is_space (b : byte) : bool := in_range 9 13 b || (byte_val b =? 32).
Fixpoint trim_start (l : list byte) : list byte :=
  match l with b :: rest => if is_space b then trim_start rest else l | [] => [] end.
Definition trim (l : list byte) : list byte := reverse (trim_start (reverse (trim_start l))).
Fixpoint before (c : byte) (l : list byte) : list byte :=
  match l with b :: rest => if bool_decide (b = c) then [] else b :: before c rest | [] => [] end.
Fixpoint split_once (c : byte) (l : list byte) : option (list byte * list byte) :=
  match l with
  | [] => None
  | b :: rest =>
      if bool_decide (b = c) then Some ([], rest)
      else '(x, y) ← split_once c rest; Some (b :: x, y)
  end.

Definition guard_ (b : bool) (c : ErrorCode) : Result unit := if b then Ok tt else fail c.

Section Injection.
Context `{Base64} `{Http} `{Urls} `{HttpMessage} (json_string : list byte -> option (list byte)).

(** The [http::Request] builder with [Bytes] as its body. *)
Fixpoint build_headers (hs : list (string * string)) : option (list (string * list byte)) :=
  match hs with
  | [] => Some []
  | (name, value) :: hs =>
      n ← HeaderName_from_bytes name;
      if HeaderValue_from_str value then rest ← build_headers hs; Some ((n, as_bytes value) :: rest) else None
  end.
Definition build_request (method uri : string) (hs : list (string * string)) (body : list byte)
    : option HttpRequest :=
  if Method_from_bytes method && bool_decide (is_Some (Uri_parse uri))
  then hs ← build_headers hs; Some (mkHttpRequest method uri hs body)
  else None.

(** `aap-auth/src/lib.rs:18-21`, `PreparedKey` *)
Record PreparedKey := mkPreparedKey { key_value : list byte; key_redactor : Redactor }.

(** `aap-auth/src/lib.rs:23-36`, `PreparedKey::new` *)
Definition PreparedKey_new (s : Snapshot) (prefix : string) : Result PreparedKey :=
  match snapshot_field s KApiKey with
  | Err e => Err (store_error e)
  | Ok key =>
      if (4096 <? len key) || (128 <? slen prefix) || negb (str_is_ascii prefix)
      then fail AuthProfileUnsupported
      else
        let value := as_bytes prefix ++ key in
        if HeaderValue_from_bytes value
        then r ← Redactor_new json_string [key]; Ok (mkPreparedKey value r)
        else fail AuthFailed
  end.

(** `aap-auth/src/lib.rs:37-45`, `PreparedKey::inject` *)
Definition inject (k : PreparedKey) (request : HttpRequest) (header : string) : Result (HttpRequest * Redactor) :=
  match HeaderName_from_bytes header with
  | None => fail RequestInvalid
  | Some name =>
      if bool_decide (name ∈ (http_headers request).*1) then fail PolicyDenied
      else Ok (mkHttpRequest (http_method request) (http_uri request)
                 (http_headers request ++ [(name, key_value k)]) (http_body request), key_redactor k)
  end.

(** `aap-auth/src/lib.rs:220-232`, `sanitize_inner` (the media type) *)
Definition media_type (value : list byte) : option string :=
  text ← to_str value;
  let m := from_bytes (trim (before ";"%char text)) in
  if bool_decide (m ∈ ["application/json"; "text/event-stream"; "text/plain"]) then Some m else None.

(** `aap-auth/src/lib.rs:251-260`, `sanitize_inner` (a cookie value without its
    quotes, and whether its bytes are allowed) *)
Definition unquoted (value : list byte) : list byte :=
  if starts_with value ["034"%char] && bool_decide (last value = Some "034"%char) && (2 <=? len value)
  then take (length value - 2) (drop 1 value) else value.
Definition cookie_octet (b : byte) : bool :=
  in_range 33 126 b && negb (bool_decide (b ∈ ["034"; ","; ";"; "\"]%char)).

(** `aap-auth/src/lib.rs:233-264`, `sanitize_inner` (the cookie values) *)
Fixpoint cookie_values (headers : list (list byte)) (cookies : list (list byte)) : option (list (list byte)) :=
  match headers with
  | [] => Some cookies
  | header :: headers =>
      if (len cookies =? 16) || (8192 <? len header) then None
      else
        text ← to_str header;
        '(name, value) ← split_once "="%char (before ";"%char text);
        if negb (bool_decide (is_Some (HeaderName_from_bytes (from_bytes (trim name))))) then None
        else
          let value := unquoted (trim value) in
          if negb (forallb cookie_octet value) then None
          else cookie_values headers (if bool_decide (value = []) then cookies else cookies ++ [value])
  end.

(** A sanitized response: what the rebuilt message and its body reader hold. *)
Record Sanitized := mkSanitized {
  s_status : Z; s_media : string; s_location : option string; s_redactor : Redactor;
  s_frames : list (list byte) }.

(** `aap-auth/src/lib.rs:199-298`, `sanitize_inner` *)
Definition sanitize_inner (response : HttpResponse) (r : Redactor) (redirect : option string) : Result Sanitized :=
  let hs := response_headers response in
  if (is_redirection (http_status response) && negb (bool_decide (is_Some redirect)))
     || is_informational (http_status response)
     || negb (len (get_all "content-type" hs) =? 1)
     || (1 <? len (get_all "content-encoding" hs))
     || match head (get_all "content-encoding" hs) with
        | Some v => negb (bool_decide (v = as_bytes "identity"))
        | None => false
        end
  then fail InspectionUnavailable
  else
    match head (get_all "content-type" hs) ≫= media_type with
    | None => fail InspectionUnavailable
    | Some media =>
        match cookie_values (get_all "set-cookie" hs) [] with
        | None => fail InspectionUnavailable
        | Some cookies =>
            cookie_redactor ← Redactor_new json_string cookies;
            let ps := ordered (patterns r ++ patterns cookie_redactor) in
            if 1024 * 1024 <? total ps then fail LimitExceeded
            else
              let r := mkRedactor ps (pending r) (longest_of ps) (done_ r) in
              match redirect with
              | Some target =>
                  match (feed (fresh r) (as_bytes target) true).2 with
                  | Err e => Err e
                  | Ok bytes =>
                      if bool_decide (bytes = as_bytes target)
                      then Ok (mkSanitized (http_status response) media (Some target) r (frames response))
                      else fail InspectionUnavailable
                  end
              | None => Ok (mkSanitized (http_status response) media None r (frames response))
              end
        end
    end.

(** `aap-auth/src/lib.rs:195-197`, `sanitize_response` *)
Definition sanitize_response (response : HttpResponse) (r : Redactor) : Result Sanitized :=
  sanitize_inner response r None.

(** `aap-auth/src/lib.rs:175-193`, `sanitize_login_redirect` *)
Definition sanitize_login_redirect (response : HttpResponse) (r : Redactor) (target : string) : Result Sanitized :=
  parsed ← Target_parse target;
  let locations := get_all "location" (response_headers response) in
  if negb (bool_decide (target_as_str parsed = target))
     || bool_decide (is_Some (query parsed))
     || negb (http_status response =? 303)
     || negb (len locations =? 1)
     || match head locations with
        | Some l => negb (bool_decide (l = as_bytes target)) && negb (bool_decide (l = as_bytes (path parsed)))
        | None => true
        end
  then fail InspectionUnavailable
  else sanitize_inner response r (Some target).
End Injection.

(** ** The reader of a sanitized body *)

(** `aap-auth/src/lib.rs:305-344`, `Sanitized::poll_frame` (of a body that is there
    as a whole: each data frame fed in turn, then the end) *)
Definition sanitized_body (s : Sanitized) : option (list byte) := feed_all (s_redactor s) (s_frames s).

(** A frame of the upstream body, and what that body answers to a poll. *)
Inductive SourceFrame := SourceData (bytes : list byte) | SourceTrailers.
Definition source_answer : Type := poll (option (Result SourceFrame)).

(** `aap-auth/src/lib.rs:300-304`, `Sanitized` (the body beneath is a list of answers) *)
Record SanitizedBody := mkSanitizedBody { sb_redactor : Redactor; sb_done : bool }.
Definition sanitized_reader (s : Sanitized) : SanitizedBody := mkSanitizedBody (s_redactor s) false.

(** `aap-auth/src/lib.rs:316-338`, `Sanitized::poll_frame` (the rounds of one poll, [n]
    left); a body that has no answer left is pending *)
Fixpoint sanitized_rounds (n : nat) (t : SanitizedBody) (script : list source_answer)
    : SanitizedBody * list source_answer * poll (option (Result (list byte))) :=
  match n with
  | O => (t, script, PollPending)
  | S n =>
      match script with
      | [] => (t, [], PollPending)
      | PollPending :: script => (t, script, PollPending)
      | PollReady (Some (Ok SourceTrailers)) :: script => sanitized_rounds n t script
      | PollReady (Some (Err e)) :: script => (mkSanitizedBody (sb_redactor t) true, script, PollReady (Some (Err e)))
      | PollReady (Some (Ok (SourceData chunk))) :: script =>
          match feed (sb_redactor t) chunk false with
          | (r, Ok []) => sanitized_rounds n (mkSanitizedBody r false) script
          | (r, Ok bytes) => (mkSanitizedBody r false, script, PollReady (Some (Ok bytes)))
          | (r, Err e) => (mkSanitizedBody r true, script, PollReady (Some (Err e)))
          end
      | PollReady None :: script =>
          match feed (sb_redactor t) [] true with
          | (r, Ok []) => (mkSanitizedBody r true, script, PollReady None)
          | (r, Ok bytes) => (mkSanitizedBody r true, script, PollReady (Some (Ok bytes)))
          | (r, Err e) => (mkSanitizedBody r true, script, PollReady (Some (Err e)))
          end
      end
  end.

(** `aap-auth/src/lib.rs:308-341`, `Sanitized::poll_frame` *)
Definition sanitized_poll (t : SanitizedBody) (script : list source_answer)
    : SanitizedBody * list source_answer * poll (option (Result (list byte))) :=
  if sb_done t then (t, script, PollReady None) else sanitized_rounds 32 t script.

(** A reader that polls [n] times. *)
Fixpoint sanitized_read (n : nat) (t : SanitizedBody) (script : list source_answer)
    : SanitizedBody * list source_answer * list (poll (option (Result (list byte)))) :=
  match n with
  | O => (t, script, [])
  | S n =>
      let '(t, script, a) := sanitized_poll t script in
      let '(t, script, answers) := sanitized_read n t script in
      (t, script, a :: answers)
  end.

(** The bytes of the frames the reader took, and the bytes it handed on. *)
Definition data_of : list source_answer -> list byte :=
  flat_map (fun a => match a with PollReady (Some (Ok (SourceData b))) => b | _ => [] end).
Definition handed : list (poll (option (Result (list byte)))) -> list byte :=
  flat_map (fun a => match a with PollReady (Some (Ok b)) => b | _ => [] end).

(** ** What sanitation guarantees *)

Section Sanitation.
Context `{Base64Laws} `{Http} `{Urls} `{HttpMessage} (json_string : list byte -> option (list byte)).
Hypothesis json_nonempty : forall v j, json_string v = Some j -> v <> [] -> (2 < length j)%nat.

(** A redactor that starts a stream and knows every representation of [values]. *)
Record covers (r : Redactor) (values : list (list byte)) : Prop := {
  cv_wf : wf_patterns (patterns r) (longest r);
  cv_fresh : pending r = [] /\ done_ r = false;
  cv_values v : v ∈ values -> exists ps, representations json_string v = Some ps /\ ps ⊆ patterns r }.

Lemma new_covers values r : Redactor_new json_string values = Ok r -> covers r values.
Proof. intros Hn. by destruct (Redactor_new_Ok _ json_nonempty _ _ Hn) as (? & ? & ? & ?). Qed.

Lemma combined_covers r q vs ws : covers r vs -> covers q ws ->
  let ps := ordered (patterns r ++ patterns q) in
  covers (mkRedactor ps (pending r) (longest_of ps) (done_ r)) (vs ++ ws).
Proof.
  intros [Rw Rf Rv] [Qw Qf Qv] ps. split; [|done|].
  - pose proof (longest_of_sorted (dedup (sort_by bytes_le (patterns r ++ patterns q)))) as Hlong.
    apply Forall_forall. intros p Hp. split; [|by apply (proj1 (Forall_forall _ _) Hlong)].
    cbn in Hp. unfold ps in Hp. rewrite elem_ordered, elem_of_app in Hp.
    destruct Hp as [Hp|Hp]; [by apply (proj1 (Forall_forall _ _) Rw)|by apply (proj1 (Forall_forall _ _) Qw)].
  - cbn. intros v [Hv|Hv]%elem_of_app; [destruct (Rv v Hv) as (l & Hl & Hsub)|destruct (Qv v Hv) as (l & Hl & Hsub)];
      (exists l; split; [done|]; intros p Hp; unfold ps; rewrite elem_ordered, elem_of_app; auto).
Qed.

(** A covering redactor passes no byte at which a representation begins. *)
Lemma covers_hides r values chunks : covers r values -> Forall (fun c => len c <= MAX_FEED) chunks ->
  let ss := pieces (find_pattern (patterns r)) (mjoin chunks) in
  feed_all r chunks = Some (flat_map render ss) /\ flat_map source ss = mjoin chunks
  /\ forall i b v ps p, ss !! i = Some (Shown b) ->
       v ∈ values -> representations json_string v = Some ps -> p ∈ ps ->
       starts_with (flat_map source (drop i ss)) p = false.
Proof.
  intros [Hwf [Hp Hd] Hv] Hc ss. pose proof (find_pattern_matcher _ _ Hwf) as Hm.
  rewrite feed_all_spec, Hp by done. split; [done|]. split; [by apply (spans_source Hm)|].
  intros i b v ps p Hi Hin Hr Hps. apply (spans_shown Hm) in Hi; [|done].
  eapply find_pattern_None; [done|]. destruct (Hv v Hin) as (ps' & Hr' & Hsub). simplify_eq. by apply Hsub.
Qed.

(** What is handed on of [data] hides [values]: it is the rendering of first pieces of it
    ([whole]: of all of them), and none of the bytes shown is one at which a
    representation of a value begins. *)
Definition hides (values : list (list byte)) (data out : list byte) (whole : bool) : Prop :=
  exists ss more, out = flat_map render ss /\ flat_map source (ss ++ more) = data /\ (whole = true -> more = [])
    /\ forall i b v ps p, ss !! i = Some (Shown b) ->
         v ∈ values -> representations json_string v = Some ps -> p ∈ ps ->
         starts_with (flat_map source (drop i (ss ++ more))) p = false.

Lemma hides_pieces r values data ss more (whole : bool) : covers r values ->
  pieces (find_pattern (patterns r)) data = ss ++ more -> (whole = true -> more = []) ->
  hides values data (flat_map render ss) whole.
Proof.
  intros [Hwf _ Hv] Hp Hm0. pose proof (find_pattern_matcher _ _ Hwf) as Hm. exists ss, more.
  split; [done|]. rewrite <-Hp. split; [by apply (spans_source Hm)|]. split; [done|].
  intros i b v ps p Hi Hin Hr Hps. assert (Hi' : pieces (find_pattern (patterns r)) data !! i = Some (Shown b)).
  { rewrite Hp. by apply lookup_app_l_Some. }
  apply (spans_shown Hm) in Hi'; [|done].
  eapply find_pattern_None; [done|]. destruct (Hv v Hin) as (ps' & Hr' & Hsub). simplify_eq. by apply Hsub.
Qed.

(** *** The reader *)

Section Reader.
Context (r0 : Redactor) (wf0 : wf_patterns (patterns r0) (longest r0)).
Abbreviation m := (find_pattern (patterns r0)).

(** A reader that is not over, after [seen] was taken and [out] handed on. *)
Record reading (t : SanitizedBody) (seen : list source_answer) (out : list byte) : Prop := {
  rg_open : sb_done t = false /\ done_ (sb_redactor t) = false;
  rg_same : patterns (sb_redactor t) = patterns r0 /\ longest (sb_redactor t) = longest r0;
  rg_pieces : exists ss, out = flat_map render ss
    /\ forall k, pieces m (data_of seen ++ k) = ss ++ pieces m (pending (sb_redactor t) ++ k) }.

(** One that is over: the body ended and all of it was handed on, or an error was told. *)
Definition ended (t : SanitizedBody) (seen : list source_answer) (out : list byte) : Prop :=
  sb_done t = true /\ PollReady None ∈ seen /\ out = flat_map render (pieces m (data_of seen)).
Definition broken (t : SanitizedBody) (seen : list source_answer) (out : list byte) (e : Error) : Prop :=
  sb_done t = true /\ (exists ss, out = flat_map render ss /\ ss `prefix_of` pieces m (data_of seen))
  /\ (PollReady (Some (Err e)) ∈ seen
      \/ e = Error_new LimitExceeded /\ exists b, PollReady (Some (Ok (SourceData b))) ∈ seen /\ MAX_FEED < len b).

Lemma data_app seen used : data_of (seen ++ used) = data_of seen ++ data_of used.
Proof. unfold data_of. by rewrite flat_map_app. Qed.

Lemma reading_other t seen out a : reading t seen out -> data_of [a] = [] -> reading t (seen ++ [a]) out.
Proof. intros [? ? (ss & -> & Hk)] Ha. split; [done..|]. exists ss. split; [done|]. intros k. by rewrite data_app, Ha, app_nil_r. Qed.

Lemma reading_broken t t' seen out used e : reading t seen out -> sb_done t' = true ->
  (PollReady (Some (Err e)) ∈ used
   \/ e = Error_new LimitExceeded /\ exists b, PollReady (Some (Ok (SourceData b))) ∈ used /\ MAX_FEED < len b) ->
  broken t' (seen ++ used) out e.
Proof.
  intros [_ _ (ss & -> & Hk)] Hd He. split; [done|]. split.
  - exists ss. split; [done|]. rewrite data_app, Hk. by eexists.
  - setoid_rewrite elem_of_app. destruct He as [|(-> & b & ? & ?)]; [by left; right|]. right. split; [done|]. exists b. auto.
Qed.

(** A frame of data. *)
Lemma reading_data t seen out chunk r x : reading t seen out -> feed (sb_redactor t) chunk false = (r, x) ->
  match x with
  | Ok bytes => reading (mkSanitizedBody r false) (seen ++ [PollReady (Some (Ok (SourceData chunk)))]) (out ++ bytes)
  | Err e => e = Error_new LimitExceeded /\ MAX_FEED < len chunk
  end.
Proof.
  intros [[Hd Hd'] [Hp Hl] (ss & -> & Hk)] Hf. unfold feed in Hf. rewrite Hd' in Hf. cbn [orb] in Hf.
  destruct (Z.ltb_spec MAX_FEED (len chunk)) as [Hlt|_]; [by injection Hf as <- <-|]. rewrite Hp, Hl in Hf.
  destruct (scan m (longest r0) false _ _) as [o rest] eqn:Hs. injection Hf as <- <-.
  apply (scan_pieces (find_pattern_matcher _ _ wf0)) in Hs as (ss2 & -> & _ & _ & _ & Hk2); [|done].
  split; [done..|]. exists (ss ++ ss2). split; [by rewrite flat_map_app|]. intros k. cbn.
  rewrite data_app, <-app_assoc. cbn. rewrite app_nil_r, Hk, app_assoc, Hk2 by done. by rewrite app_assoc.
Qed.

(** The end of the body. *)
Lemma reading_end t seen out r x : reading t seen out -> feed (sb_redactor t) [] true = (r, x) ->
  exists bytes, x = Ok bytes /\ ended (mkSanitizedBody r true) (seen ++ [PollReady None]) (out ++ bytes).
Proof.
  intros [[Hd Hd'] [Hp Hl] (ss & -> & Hk)] Hf. unfold feed in Hf. rewrite Hd', Hp, Hl in Hf. cbn [orb] in Hf.
  change (MAX_FEED <? len []) with false in Hf. cbv iota in Hf. rewrite app_nil_r in Hf.
  rewrite (scan_finished (find_pattern_matcher _ _ wf0)) in Hf by lia. injection Hf as <- <-. eexists. split; [done|].
  split; [done|]. split; [apply elem_of_app; right; left|]. rewrite data_app. cbn. rewrite Hk, app_nil_r, flat_map_app. done.
Qed.

(** How one poll leaves the reader. *)
Definition polled (t : SanitizedBody) (seen : list source_answer) (out : list byte) (a : poll (option (Result (list byte)))) : Prop :=
  match a with
  | PollPending => reading t seen out
  | PollReady (Some (Ok b)) => reading t seen (out ++ b) \/ ended t seen (out ++ b)
  | PollReady (Some (Err e)) => broken t seen out e
  | PollReady None => ended t seen out
  end.

Lemma rounds_polled n : forall t seen out script t' rest a, reading t seen out ->
  sanitized_rounds n t script = (t', rest, a) ->
  exists used, script = used ++ rest /\ polled t' (seen ++ used) out a.
Proof.
  induction n as [|n IH]; intros t seen out script t' rest a Hr Hs; cbn [sanitized_rounds] in Hs.
  { injection Hs as <- <- <-. exists []. by rewrite app_nil_r. }
  destruct script as [|x script]; [injection Hs as <- <- <-; exists []; split; [done|by rewrite app_nil_r]|].
  assert (Hnext : forall t1 out1, reading t1 (seen ++ [x]) out1 -> out1 = out -> sanitized_rounds n t1 script = (t', rest, a) ->
    exists used, x :: script = used ++ rest /\ polled t' (seen ++ used) out a).
  { intros t1 out1 Hr1 -> Hr2. destruct (IH _ _ _ _ _ _ _ Hr1 Hr2) as (used & -> & Hp). exists (x :: used).
    split; [done|]. by rewrite <-app_assoc in Hp. }
  destruct x as [|[[[chunk|]|e]|]].
  - injection Hs as <- <- <-. exists [PollPending]. split; [done|]. by apply reading_other.
  - destruct (feed (sb_redactor t) chunk false) as [r x] eqn:Hf. apply (reading_data t seen out) in Hf; [|done].
    destruct x as [[|b bytes]|e].
    + rewrite app_nil_r in Hf. by apply (Hnext _ _ Hf).
    + injection Hs as <- <- <-. eexists [_]. split; [done|]. by left.
    + injection Hs as <- <- <-. eexists [_]. split; [done|]. apply (reading_broken t); [done|done|]. right.
      destruct Hf as [-> Hlen]. split; [done|]. exists chunk. split; [left|done].
  - apply (Hnext t out); [by apply reading_other|done|done].
  - injection Hs as <- <- <-. eexists [_]. split; [done|]. apply (reading_broken t); [done|done|]. left. left.
  - destruct (feed (sb_redactor t) [] true) as [r x] eqn:Hf. apply (reading_end t seen out) in Hf as (bytes & -> & He); [|done].
    destruct bytes as [|b bytes]; injection Hs as <- <- <-; (eexists [_]; split; [done|]); [|by right].
    by rewrite app_nil_r in He.
Qed.

Lemma over_read n : forall t script, sb_done t = true ->
  sanitized_read n t script = (t, script, replicate n (PollReady None)).
Proof. induction n as [|n IH]; intros t script Hd; [done|]. cbn. unfold sanitized_poll. rewrite Hd. by rewrite IH. Qed.

Lemma handed_over n : handed (replicate n (PollReady None)) = [].
Proof. by induction n. Qed.

(** What a reader has handed on, and told. *)
Record told (seen : list source_answer) (out : list byte) (answers : list (poll (option (Result (list byte))))) : Prop := {
  td_pieces : exists ss, out = flat_map render ss /\ ss `prefix_of` pieces m (data_of seen);
  td_end : PollReady None ∈ answers ->
    (exists e, PollReady (Some (Err e)) ∈ answers) \/ PollReady None ∈ seen /\ out = flat_map render (pieces m (data_of seen));
  td_error e : PollReady (Some (Err e)) ∈ answers -> PollReady (Some (Err e)) ∈ seen
    \/ e = Error_new LimitExceeded /\ exists b, PollReady (Some (Ok (SourceData b))) ∈ seen /\ MAX_FEED < len b }.

Lemma not_told_errors n e : PollReady (Some (Err e)) ∈ replicate n (PollReady (None : option (Result (list byte)))) -> False.
Proof. by intros [? _]%elem_of_replicate. Qed.

Lemma ended_told t seen out n a : ended t seen out -> (forall e, a <> PollReady (Some (Err e))) ->
  told seen out (a :: replicate n (PollReady None)).
Proof.
  intros (_ & Hn & ->) Ha. split.
  - by eexists.
  - intros _. by right.
  - intros e [He|He]%elem_of_cons; [by destruct (Ha e)|by apply not_told_errors in He].
Qed.

Lemma read_told n : forall t seen out script t' rest answers, reading t seen out ->
  sanitized_read n t script = (t', rest, answers) ->
  exists used, script = used ++ rest /\ told (seen ++ used) (out ++ handed answers) answers.
Proof.
  induction n as [|n IH]; intros t seen out script t' rest answers Hr Hs; cbn [sanitized_read] in Hs.
  { injection Hs as <- <- <-. exists []. split; [done|]. rewrite !app_nil_r. destruct Hr as [_ _ (ss & -> & Hk)].
    split; [|by intros []%elem_of_nil|by intros ? []%elem_of_nil].
    exists ss. split; [done|]. rewrite <-(app_nil_r (data_of seen)), Hk. by eexists. }
  unfold sanitized_poll in Hs. rewrite (proj1 (rg_open _ _ _ Hr)) in Hs.
  destruct (sanitized_rounds 32 t script) as [[t1 rest1] a] eqn:Hr1. apply (rounds_polled _ _ seen out) in Hr1 as (used & -> & Hp); [|done].
  destruct (sanitized_read n t1 rest1) as [[t2 rest2] answers2] eqn:Hr2. injection Hs as <- <- <-.
  assert (Hon : forall b, handed (a :: answers2) = b ++ handed answers2 -> (forall e, a <> PollReady (Some (Err e))) -> a <> PollReady None ->
    reading t1 (seen ++ used) (out ++ b) ->
    exists used', used ++ rest1 = used' ++ rest2 /\ told (seen ++ used') (out ++ handed (a :: answers2)) (a :: answers2)).
  { intros b Hb Hne Hnn Hr1. destruct (IH _ _ _ _ _ _ _ Hr1 Hr2) as (used2 & -> & [T1 T2 T3]). exists (used ++ used2).
    rewrite Hb. rewrite <-!app_assoc in *. split; [done|]. split; [done| |].
    - intros [|Hin]%elem_of_cons; [by subst a|]. destruct (T2 Hin) as [(e & He)|]; [|by right]. left. exists e. by right.
    - intros e [|Hin]%elem_of_cons; [by destruct (Hne e)|by apply T3]. }
  assert (Hover : sb_done t1 = true -> rest2 = rest1 /\ answers2 = replicate n (PollReady None)).
  { intros Hd. rewrite over_read in Hr2 by done. by injection Hr2 as <- <- <-. }
  destruct a as [|[[b|e]|]]; cbn in Hp.
  - apply (Hon []); [done..|by rewrite app_nil_r].
  - destruct Hp as [Hp|Hp]; [by apply (Hon b)|]. destruct (Hover (proj1 Hp)) as [-> ->]. exists used. split; [done|].
    cbn. rewrite handed_over, app_nil_r. by eapply ended_told.
  - destruct Hp as (Hd & Hss & He). destruct (Hover Hd) as [-> ->]. exists used. split; [done|].
    cbn. rewrite handed_over, app_nil_r. split; [done| |].
    + intros _. left. exists e. left.
    + intros e' [Heq|Hin]%elem_of_cons; [by injection Heq as ->|by apply not_told_errors in Hin].
  - destruct (Hover (proj1 Hp)) as [-> ->]. exists used. split; [done|]. cbn. rewrite handed_over, app_nil_r. by eapply ended_told.
Qed.
End Reader.

(** The reader of a covering redactor. *)
Lemma reader_hides r values n script t rest answers : covers r values ->
  sanitized_read n (mkSanitizedBody r false) script = (t, rest, answers) ->
  exists seen, script = seen ++ rest /\ hides values (data_of seen) (handed answers) false
    /\ (PollReady None ∈ answers -> (exists e, PollReady (Some (Err e)) ∈ answers)
         \/ PollReady None ∈ seen /\ hides values (data_of seen) (handed answers) true)
    /\ forall e, PollReady (Some (Err e)) ∈ answers -> PollReady (Some (Err e)) ∈ seen
         \/ e = Error_new LimitExceeded /\ exists b, PollReady (Some (Ok (SourceData b))) ∈ seen /\ MAX_FEED < len b.
Proof.
  intros Hc Hr. pose proof (cv_fresh _ _ Hc) as [Hp Hd].
  assert (Hr0 : reading r (mkSanitizedBody r false) [] []).
  { split; [done..|]. exists []. split; [done|]. intros k. cbn. by rewrite Hp. }
  destruct (read_told r (cv_wf _ _ Hc) _ _ _ _ _ _ _ _ Hr0 Hr) as (seen & Hs & [(ss & Hout & more & Hss) T2 T3]).
  cbn [app] in *. exists seen. split; [done|]. split; [|split; [|done]].
  - rewrite Hout. by apply (hides_pieces r values _ ss more).
  - intros Hn. destruct (T2 Hn) as [|[Hin ->]]; [by left|right]. split; [done|].
    apply (hides_pieces r values _ _ []); [done|by rewrite app_nil_r|done].
Qed.

Lemma media_listed (hs : list (string * list byte)) m : head (get_all "content-type" hs) ≫= media_type = Some m ->
  m ∈ ["application/json"; "text/event-stream"; "text/plain"].
Proof.
  intros (v & _ & Hm)%bind_Some. unfold media_type in Hm. apply bind_Some in Hm as (t & _ & Hm).
  case_bool_decide; [by injection Hm as <-|done].
Qed.
Lemma sanitize_inner_Ok response r redirect s values :
  covers r values -> sanitize_inner json_string response r redirect = Ok s ->
  s_status s = http_status response /\ s_frames s = frames response /\ s_location s = redirect
  /\ (is_redirection (http_status response) = true -> is_Some redirect)
  /\ is_informational (http_status response) = false
  /\ head (get_all "content-type" (response_headers response)) ≫= media_type = Some (s_media s)
  /\ exists cookies, cookie_values (get_all "set-cookie" (response_headers response)) [] = Some cookies
       /\ covers (s_redactor s) (values ++ cookies).
Proof.
  intros Hr Hs. unfold sanitize_inner in Hs. destruct (_ || _) eqn:Hb; [done|]. bool_hyps.
  destruct (_ ≫= media_type) as [media|] eqn:Hm; [|done].
  destruct (cookie_values _ []) as [cookies|] eqn:Hc; [|done].
  apply bind_Ok in Hs as (q & Hq & Hs). apply new_covers in Hq.
  destruct (_ <? _); [done|].
  assert (Hred : is_redirection (http_status response) = true -> is_Some redirect).
  { intros Hi. rewrite Hi in *. cbn in *. by bool_hyps. }
  pose proof (combined_covers _ _ _ _ Hr Hq) as Hcov. cbn zeta in Hcov.
  destruct redirect as [t|].
  - destruct (feed _ _ _) as [r' [bytes|]]; [|done]. cbn [snd] in Hs. case_bool_decide; [|done].
    apply (inj Ok) in Hs as <-. split_and!; try done. by exists cookies.
  - apply (inj Ok) in Hs as <-. split_and!; try done. by exists cookies.
Qed.
End Sanitation.

(** C33: the credential of an exchange and its cookies do not come back. When a key
    prepared from a snapshot was injected and the upstream response is accepted, the
    response handed on has the upstream's status and media type, one of three, and nothing
    else of its head; it is neither a redirect nor informational. However the upstream
    body answers and however often its reader polls, what is handed on of the bytes taken
    from it is their rendering, in order, with no byte shown at which the key or any
    cookie value set by the response, or one of their encodings, begins. The end is told
    only after an error or when the whole body was handed on, and an error only when the
    upstream body failed or gave a frame of more than 256 KiB. *)
Theorem response_sanitized `{Base64Laws} `{Http} `{Urls} `{HttpMessage} json_string
    snapshot prefix k request header out r response s :
  (forall v j, json_string v = Some j -> v <> [] -> (2 < length j)%nat) ->
  PreparedKey_new json_string snapshot prefix = Ok k -> inject k request header = Ok (out, r) ->
  sanitize_response json_string response r = Ok s ->
  exists key cookies,
    snapshot_field snapshot KApiKey = Ok key
    /\ cookie_values (get_all "set-cookie" (response_headers response)) [] = Some cookies
    /\ s_status s = http_status response /\ is_redirection (s_status s) = false /\ is_informational (s_status s) = false
    /\ head (get_all "content-type" (response_headers response)) ≫= media_type = Some (s_media s)
    /\ s_media s ∈ ["application/json"; "text/event-stream"; "text/plain"] /\ s_location s = None
    /\ forall n script t rest answers, sanitized_read n (sanitized_reader s) script = (t, rest, answers) ->
         exists seen, script = seen ++ rest
           /\ hides json_string (key :: cookies) (data_of seen) (handed answers) false
           /\ (PollReady None ∈ answers -> (exists e, PollReady (Some (Err e)) ∈ answers)
                \/ PollReady None ∈ seen /\ hides json_string (key :: cookies) (data_of seen) (handed answers) true)
           /\ forall e, PollReady (Some (Err e)) ∈ answers -> PollReady (Some (Err e)) ∈ seen
                \/ e = Error_new LimitExceeded
                    /\ exists b, PollReady (Some (Ok (SourceData b))) ∈ seen /\ MAX_FEED < len b.
Proof.
  intros Hj Hk Hi Hs. unfold PreparedKey_new in Hk.
  destruct (snapshot_field snapshot KApiKey) as [key|] eqn:Hkey; [|done].
  destruct (_ || _); [done|]. destruct (HeaderValue_from_bytes _); [|done].
  apply bind_Ok in Hk as (r0 & Hr0 & Hk). apply (inj Ok) in Hk as <-.
  unfold inject in Hi. destruct (HeaderName_from_bytes header); [|done].
  case_bool_decide; [done|]. apply (inj Ok) in Hi. simplify_eq/=.
  apply (new_covers _ Hj) in Hr0.
  destruct (sanitize_inner_Ok _ Hj _ _ _ _ _ Hr0 Hs) as (S1 & S2 & S3 & S4 & S5 & S6 & cookies & S7 & S8).
  exists key, cookies. rewrite S1. split_and!; try done.
  - apply not_true_is_false. intros Hred. by destruct (S4 Hred).
  - by eapply media_listed.
  - intros n script t rest answers Hread. by apply (reader_hides json_string (s_redactor s) _ n script t).
Qed.
