(* ===== verification/Cookies.v ===== *)
(** * Cookie custody ([aap-auth/src/cookies.rs])

    The private jar of one authentication context: strict parsing of [set-cookie],
    capture with bounded storage and history, and the outgoing [cookie] header. A
    [SystemTime] is a number of nanoseconds; [httpdate] is a parameter. *)
From S2P Require Import Prelude Protocol Ids Catalog Profile Secrets Redaction Injection.

(** `aap-auth/src/cookies.rs:17-23`, `Cookie` *)
Record Cookie := mkCookie { c_name : string; c_value : string; c_path : string; c_expires : option Z }.
#[export] Instance Cookie_eq_dec : EqDecision Cookie.
Proof. solve_decision. Defined.

(** `aap-auth/src/cookies.rs:12-16`, `CookieJar` *)
Record CookieJar := mkJar { jar_origin : string; cookies : list Cookie; history : list string }.

(** `aap-auth/src/cookies.rs:27-33`, `CookieJar::new` *)
Definition CookieJar_new (t : Target) : CookieJar := mkJar (origin t) [] [].
(** `aap-auth/src/cookies.rs:161-164`, `CookieJar::clear` *)
Definition jar_clear (j : CookieJar) : CookieJar := mkJar (jar_origin j) [] [].
(** `aap-auth/src/cookies.rs:165-171`, `CookieJar::check_origin` *)
Definition check_origin (j : CookieJar) (t : Target) : Result unit :=
  if bool_decide (origin t = jar_origin j) then Ok tt else fail PolicyDenied.
(** `aap-auth/src/cookies.rs:172-175`, `CookieJar::expire` *)
Definition live (now : Z) (c : Cookie) : bool := match c_expires c with Some e => now <? e | None => true end.
Definition jar_expire (j : CookieJar) (now : Z) : CookieJar :=
  mkJar (jar_origin j) (List.filter (live now) (cookies j)) (history j).

(** `aap-auth/src/cookies.rs:177-182`, `path_matches` *)
Definition path_matches (cookie request : string) : bool :=
  bool_decide (request = cookie)
  || match strip_prefix (as_bytes request) (as_bytes cookie) with
     | Some suffix => ends_with_char cookie slash || starts_with suffix [slash]
     | None => false
     end.

(** [str::parse::<u64>] on decimal digits. *)
Fixpoint digits_value (acc : Z) (l : list byte) : Z :=
  match l with [] => acc | b :: rest => digits_value (acc * 10 + (byte_val b - 48)) rest end.
Definition parse_u64 (l : list byte) : option Z :=
  let v := digits_value 0 l in if v <=? u64_max then Some v else None.
Definition all_digits (l : list byte) : bool := negb (bool_decide (l = [])) && forallb is_ascii_digit l.
(** [SystemTime::checked_add] of whole seconds. *)
Definition i64_max : Z := 9223372036854775807.
Definition add_seconds (now seconds : Z) : option Z :=
  let t := now + seconds * 1000000000 in
  if t / 1000000000 <=? i64_max then Some t else None.

(** What the attributes of a [set-cookie] header said. *)
Record Attributes := mkAttributes {
  a_secure : bool; a_path : option string; a_expires : option Z; a_max_age : option Z }.

(** `aap-auth/src/cookies.rs:201-203`, `parse` (the bytes of a value) *)
Definition value_octet (b : byte) : bool :=
  let v := byte_val b in
  (v =? 33) || in_range 35 43 b || in_range 45 58 b || in_range 60 91 b || in_range 93 126 b.

Section Jar.
Context `{Base64} `{Http} `{Urls} `{HttpMessage} (json_string : list byte -> option (list byte))
  (parse_http_date : list byte -> option Z).

(** `aap-auth/src/cookies.rs:232-248`, `parse` ([max-age]) *)
Definition parse_max_age (value : list byte) (now : Z) : Result Z :=
  match strip_prefix value ["-"%char] with
  | Some digits => if all_digits digits then Ok now else fail AuthProfileUnsupported
  | None =>
      if all_digits value then
        match parse_u64 value with
        | Some s => ok_or (add_seconds now s) (Error_new LimitExceeded)
        | None => fail AuthProfileUnsupported
        end
      else fail AuthProfileUnsupported
  end.

(** `aap-auth/src/cookies.rs:207-253`, `parse` (the attributes) *)
Fixpoint parse_attributes (now : Z) (seen : list string) (a : Attributes) (parts : list (list byte))
    : Result Attributes :=
  match parts with
  | [] => Ok a
  | part :: parts =>
      let part := trim part in
      let (name, value) := match split_once "="%char part with
                           | Some (n, v) => (n, Some v)
                           | None => (part, None)
                           end in
      let name := str_to_ascii_lowercase (from_bytes name) in
      if bool_decide (name ∈ seen) then fail AuthProfileUnsupported
      else
        let next a := parse_attributes now (name :: seen) a parts in
        match value with
        | None =>
            if bool_decide (name = "secure") then
              next (mkAttributes true (a_path a) (a_expires a) (a_max_age a))
            else if bool_decide (name = "httponly") then next a
            else fail AuthProfileUnsupported
        | Some value =>
            if bool_decide (name = "path") && starts_with value [slash] && (len value <=? 2048) then
              next (mkAttributes (a_secure a) (Some (from_bytes value)) (a_expires a) (a_max_age a))
            else if bool_decide (name = "samesite")
                    && (eq_ignore_ascii_case (from_bytes value) "strict"
                        || eq_ignore_ascii_case (from_bytes value) "lax") then next a
            else if bool_decide (name = "expires") then
              match parse_http_date value with
              | Some t => next (mkAttributes (a_secure a) (a_path a) (Some t) (a_max_age a))
              | None => fail AuthProfileUnsupported
              end
            else if bool_decide (name = "max-age") then
              t ← parse_max_age value now;
              next (mkAttributes (a_secure a) (a_path a) (a_expires a) (Some t))
            else fail AuthProfileUnsupported
        end
  end.

(** `aap-auth/src/cookies.rs:258-261`, `parse` (the default path): [rfind] of a slash
    that is not the first byte *)
Definition default_path (request_path : string) : string :=
  let l := as_bytes request_path in
  match List.filter (fun n => bool_decide (l !! n = Some slash)) (reverse (seq 1 (length l - 1))) with
  | position :: _ => from_bytes (take position l)
  | [] => "/"
  end.

(** `aap-auth/src/cookies.rs:183-268`, `parse` *)
Definition parse_cookie (header : list byte) (request_path : string) (now : Z) : Result Cookie :=
  if 4096 <? len header then fail LimitExceeded
  else
    match to_str header with
    | None => fail AuthProfileUnsupported
    | Some raw =>
        if negb (forallb is_ascii raw) || bytes_any_control raw then fail AuthProfileUnsupported
        else
          match split_on ";"%char raw with
          | [] => fail AuthProfileUnsupported
          | first :: parts =>
              match split_once "="%char first with
              | None => fail AuthProfileUnsupported
              | Some (name, value) =>
                  if bool_decide (name = []) || (256 <? len name)
                     || negb (bool_decide (is_Some (HeaderName_from_bytes (from_bytes name))))
                     || negb (forallb value_octet value)
                  then fail AuthProfileUnsupported
                  else
                    a ← parse_attributes now [] (mkAttributes false None None None) parts;
                    if negb (a_secure a)
                       || (str_starts_with (str_to_ascii_lowercase (from_bytes name)) "__host-"
                           && negb (bool_decide (a_path a = Some "/")))
                    then fail AuthProfileUnsupported
                    else
                      Ok (mkCookie (from_bytes name) (from_bytes value)
                            (default (default_path request_path) (a_path a))
                            (match a_max_age a with Some t => Some t | None => a_expires a end))
              end
          end
    end.

(** `aap-auth/src/cookies.rs:94-111`, `CookieJar::capture_inner` (one parsed cookie) *)
Definition same_cookie (c old : Cookie) : bool :=
  bool_decide (c_name old = c_name c) && bool_decide (c_path old = c_path c).
Fixpoint replace_first (f : Cookie -> bool) (new : list Cookie) (l : list Cookie) : list Cookie :=
  match l with
  | [] => []
  | x :: rest => if f x then new ++ rest else x :: replace_first f new rest
  end.
Definition store_cookie (now : Z) (c : Cookie) (candidate : list Cookie) : Result (list Cookie) :=
  let known := existsb (same_cookie c) candidate in
  if negb (live now c) then
    Ok (if known then replace_first (same_cookie c) [] candidate else candidate)
  else if known then Ok (replace_first (same_cookie c) [c] candidate)
  else if len candidate =? 8 then fail LimitExceeded
  else Ok (candidate ++ [c]).

(** `aap-auth/src/cookies.rs:79-112`, `CookieJar::capture_inner` (the loop) *)
Fixpoint capture_all (path_ : string) (now : Z) (seen : list (string * string)) (candidate : list Cookie)
    (history : list string) (raw : list (list byte)) : Result (list Cookie * list string) :=
  match raw with
  | [] => Ok (candidate, history)
  | header :: raw =>
      c ← parse_cookie header path_ now;
      if bool_decide ((c_name c, c_path c) ∈ seen) then fail AuthProfileUnsupported
      else
        let fresh_value := negb (bool_decide (c_value c = EmptyString)) && negb (bool_decide (c_value c ∈ history)) in
        if fresh_value && (len history =? 16) then fail LimitExceeded
        else
          let history := if fresh_value then history ++ [c_value c] else history in
          candidate ← store_cookie now c candidate;
          capture_all path_ now ((c_name c, c_path c) :: seen) candidate history raw
  end.

(** `aap-auth/src/cookies.rs:69-121`, `CookieJar::capture_inner` *)
Definition capture_inner (j : CookieJar) (t : Target) (raw : list (list byte)) (now : Z)
    : Result (CookieJar * Redactor) :=
  _ ← check_origin j t;
  '(candidate, history) ←
    capture_all (path t) now [] (List.filter (live now) (cookies j)) (history j) raw;
  r ← Redactor_new json_string (map as_bytes history);
  Ok (mkJar (jar_origin j) candidate history, r).

(** `aap-auth/src/cookies.rs:37-68`, `CookieJar::capture`: the jar, the headers left and
    the redactor *)
Definition capture (j : CookieJar) (t : Target) (hs : list (string * list byte)) (now : Z)
    : CookieJar * list (string * list byte) * Result Redactor :=
  let raw := get_all "set-cookie" hs in
  let rest := List.filter (fun h => negb (bool_decide (h.1 = "set-cookie")) && negb (bool_decide (h.1 = "set-cookie2"))) hs in
  let result :=
    if 8 <? len raw then fail LimitExceeded
    else if bool_decide ("set-cookie2" ∈ hs.*1) then fail AuthProfileUnsupported
    else capture_inner j t raw now in
  match result with
  | Ok (j, r) => (j, rest, Ok r)
  | Err e => (jar_clear j, rest, Err e)
  end.

(** `aap-auth/src/cookies.rs:124-138`, `CookieJar::header` *)
Definition pair_text (c : Cookie) : list byte := as_bytes (c_name c) ++ ["="%char] ++ as_bytes (c_value c).
Fixpoint join_pairs (cs : list Cookie) : list byte :=
  match cs with
  | [] => []
  | [c] => pair_text c
  | c :: cs => pair_text c ++ as_bytes "; " ++ join_pairs cs
  end.
Definition longer_path (x y : Cookie) : bool := slen (c_path y) <=? slen (c_path x).
Definition selected (j : CookieJar) (t : Target) : list Cookie :=
  sort_by longer_path (List.filter (fun c => path_matches (c_path c) (path t)) (cookies j)).
Definition cookie_header (j : CookieJar) (t : Target) (now : Z) : CookieJar * Result (option (list byte)) :=
  match check_origin j t with
  | Err e => (j, Err e)
  | Ok _ =>
      let j := jar_expire j now in
      let cs := selected j t in
      if bool_decide (cs = []) then (j, Ok None)
      else
        let joined := join_pairs cs in
        if 32 * 1024 <? len joined then (j, fail LimitExceeded)
        else if HeaderValue_from_str (from_bytes joined) then (j, Ok (Some joined))
        else (j, fail InternalError)
  end.

(** `aap-auth/src/cookies.rs:139-149`, `CookieJar::has_all` *)
Definition has_all (j : CookieJar) (names : list string) (now : Z) : CookieJar * Result bool :=
  if bool_decide (names = []) || (8 <? len names) then (j, fail AuthProfileUnsupported)
  else
    let j := jar_expire j now in
    (j, Ok (forallb (fun name => existsb (fun c => bool_decide (c_name c = name)
                                            && negb (bool_decide (c_value c = EmptyString))) (cookies j)) names)).

(** `aap-auth/src/cookies.rs:152-160`, `CookieJar::redactor` *)
Definition jar_redactor (j : CookieJar) : Result Redactor := Redactor_new json_string (map as_bytes (history j)).
End Jar.

(** ** The invariant of a jar *)

Definition cookie_key (c : Cookie) : string * string := (c_name c, c_path c).

Record stored_ok (cs : list Cookie) (hist : list string) : Prop := {
  so_count : len cs <= 8;
  so_keys : NoDup (map cookie_key cs);
  so_values : forall c, c ∈ cs -> c_value c <> EmptyString -> c_value c ∈ hist;
  so_history : len hist <= 16 /\ NoDup hist /\ EmptyString ∉ hist }.

Definition jar_ok (j : CookieJar) : Prop := stored_ok (cookies j) (history j).

Lemma jar_new_ok t : jar_ok (CookieJar_new t).
Proof.
  split; cbn; [done|by constructor|set_solver|]. split; [done|]. split; [by constructor|set_solver].
Qed.

Lemma same_cookie_key c old : same_cookie c old = true <-> cookie_key old = cookie_key c.
Proof.
  unfold same_cookie, cookie_key. rewrite andb_true_iff, !bool_decide_eq_true.
  split; [by intros [-> ->]|by intros [= -> ->]].
Qed.

Lemma known_key c l : existsb (same_cookie c) l = true <-> cookie_key c ∈ map cookie_key l.
Proof.
  rewrite existsb_Exists, Exists_exists. setoid_rewrite same_cookie_key.
  change (map cookie_key l) with (cookie_key <$> l). rewrite list_elem_of_fmap.
  split; [intros (old & Hin & Hk)|intros (old & Hk & Hin)]; by exists old.
Qed.

Lemma replace_first_in f new l x : x ∈ replace_first f new l -> x ∈ new \/ x ∈ l.
Proof. induction l as [|y l IH]; cbn; [auto|]. destruct (f y); set_solver. Qed.

Lemma replace_same_keys c l : map cookie_key (replace_first (same_cookie c) [c] l) = map cookie_key l.
Proof.
  induction l as [|y l IH]; cbn; [done|]. destruct (same_cookie c y) eqn:E; cbn; [|by rewrite IH].
  apply same_cookie_key in E. by rewrite E.
Qed.
Lemma remove_keys f l : sublist (map cookie_key (replace_first f [] l)) (map cookie_key l).
Proof.
  induction l as [|y l IH]; cbn; [constructor|]. destruct (f y); cbn; [by apply sublist_cons|by apply sublist_skip].
Qed.

Lemma filter_keys f l : sublist (map cookie_key (List.filter f l)) (map cookie_key l).
Proof. induction l as [|y l IH]; cbn; [constructor|]. destruct (f y); cbn; [by apply sublist_skip|by apply sublist_cons]. Qed.

Lemma keys_count l k : sublist (map cookie_key l) (map cookie_key k) -> len l <= len k.
Proof. intros Hs%sublist_length. rewrite !length_map in Hs. unfold len. lia. Qed.

Lemma filter_live_in now c l : c ∈ List.filter (live now) l <-> c ∈ l /\ live now c = true.
Proof. by rewrite !list_elem_of_In, filter_In. Qed.

(** Dropping expired cookies keeps the invariant. *)
Lemma stored_filter cs hist f : stored_ok cs hist -> stored_ok (List.filter f cs) hist.
Proof.
  intros [S1 S2 S3 S4]. pose proof (filter_keys f cs) as Hsub. split; [|by eapply sublist_NoDup| |done].
  - apply keys_count in Hsub. lia.
  - intros c Hc. apply S3. rewrite !list_elem_of_In in *. by apply filter_In in Hc as [? _].
Qed.

(** Storing one cookie whose value is in the history keeps the invariant. *)
Lemma stored_store now c cs hist cs' : stored_ok cs hist ->
  (c_value c <> EmptyString -> c_value c ∈ hist) -> store_cookie now c cs = Ok cs' ->
  stored_ok cs' hist /\ forall x, x ∈ cs' -> x ∈ cs \/ (x = c /\ live now c = true).
Proof.
  intros [S1 S2 S3 S4] Hv Hs. unfold store_cookie in Hs.
  destruct (live now c) eqn:Hl; cbn [negb] in Hs.
  - destruct (existsb _ cs) eqn:Hk.
    + apply (inj Ok) in Hs as <-. split.
      * pose proof (replace_same_keys c cs) as Hkeys. split; [|by rewrite Hkeys| |done].
        -- pose proof (f_equal length Hkeys) as Hlen. rewrite !length_map in Hlen. unfold len in *. lia.
        -- intros x [->%list_elem_of_singleton|Hx]%replace_first_in; auto.
      * intros x [->%list_elem_of_singleton|Hx]%replace_first_in; auto.
    + destruct (Z.eqb_spec (len cs) 8); [done|]. apply (inj Ok) in Hs as <-. split.
      * split; [rewrite len_app; unfold len in *; cbn; lia| |set_solver|done].
        rewrite map_app. apply NoDup_app. split_and!; [done| |apply NoDup_singleton].
        cbn. intros k Hk1 ->%list_elem_of_singleton. apply known_key in Hk1. congruence.
      * set_solver.
  - destruct (existsb _ cs).
    + apply (inj Ok) in Hs as <-. pose proof (remove_keys (same_cookie c) cs) as Hsub. split.
      * split; [apply keys_count in Hsub; lia|by eapply sublist_NoDup| |done].
        intros x [Hx%elem_of_nil|Hx]%replace_first_in; [done|auto].
      * intros x [Hx%elem_of_nil|Hx]%replace_first_in; [done|auto].
    + apply (inj Ok) in Hs as <-. split; [by split|auto].
Qed.

Section Custody.
Context `{Base64Laws} `{Http} `{Urls} `{HttpMessage} (json_string : list byte -> option (list byte))
  (parse_http_date : list byte -> option Z).
Hypothesis json_nonempty : forall v j, json_string v = Some j -> v <> [] -> (2 < length j)%nat.

(** The loop of a capture keeps the invariant, only extends the history, and
    keeps live cookies live. *)
Lemma capture_all_ok p now seen cs hist raw cs' hist' : stored_ok cs hist ->
  (forall c, c ∈ cs -> live now c = true) ->
  capture_all parse_http_date p now seen cs hist raw = Ok (cs', hist') ->
  stored_ok cs' hist' /\ (forall c, c ∈ cs' -> live now c = true) /\ hist `prefix_of` hist'.
Proof.
  revert seen cs hist. induction raw as [|h raw IH]; intros seen cs hist Hok Hlive; cbn [capture_all].
  { intros [= <- <-]. done. }
  intros Hc. apply bind_Ok in Hc as (c & _ & Hc). case_bool_decide; [done|].
  destruct (_ && _) eqn:Hfull; [done|].
  set (fv := negb _ && negb _) in *. set (hist1 := if fv then _ else _) in *.
  apply bind_Ok in Hc as (cs1 & Hs & Hc). destruct Hok as [S1 S2 S3 (S4 & S5 & S6)].
  assert (Hok1 : stored_ok cs hist1 /\ (c_value c <> EmptyString -> c_value c ∈ hist1) /\ hist `prefix_of` hist1).
  { unfold hist1. destruct fv eqn:Hfv; unfold fv in Hfv; bool_hyps.
    - cbn in Hfull. bool_hyps. split_and!; [|set_solver|by eexists].
      split; [done..|set_solver|]. split_and!.
      + rewrite len_app. unfold len in *. cbn. lia.
      + apply NoDup_app. split_and!; [done|set_solver|apply NoDup_singleton].
      + set_solver.
    - split_and!; [by split| |done]. intros Hne. apply andb_false_iff in Hfv as [Hf|Hf]; bool_hyps; done. }
  destruct Hok1 as (Hok1 & Hv & Hpre). destruct (stored_store _ _ _ _ _ Hok1 Hv Hs) as [Hok2 Hin].
  apply IH in Hc as (I1 & I2 & I3); [|done|].
  - split_and!; [done..|by etrans].
  - intros x Hx. by destruct (Hin x Hx) as [?|[-> ?]]; [apply Hlive|].
Qed.

Lemma capture_inner_Ok j t raw now j' r : jar_ok j ->
  capture_inner json_string parse_http_date j t raw now = Ok (j', r) ->
  jar_ok j' /\ origin t = jar_origin j /\ jar_origin j' = jar_origin j
  /\ history j `prefix_of` history j' /\ (forall c, c ∈ cookies j' -> live now c = true)
  /\ covers json_string r (map as_bytes (history j')).
Proof.
  intros Hok Hc. unfold capture_inner in Hc. apply bind_Ok in Hc as ([] & Ho & Hc).
  apply bind_Ok in Hc as ([cs hist] & Hall & Hc). apply bind_Ok in Hc as (q & Hq & Hc).
  apply (inj Ok) in Hc. simplify_eq/=. unfold check_origin in Ho. case_bool_decide as Hor; [|done].
  apply capture_all_ok in Hall as (A1 & A2 & A3); [|by apply stored_filter|].
  - split_and!; try done. by apply new_covers.
  - by intros c [_ ?]%filter_live_in.
Qed.
End Custody.

(** A jar keeps its cookies private and bounded. Capturing a response always
    removes every cookie-setting header; a rejected batch leaves the jar empty;
    an accepted one comes from the jar's own origin, keeps at most eight cookies,
    one per name and path and none expired, remembers every value it ever held
    (at most sixteen) and returns a redactor that covers all of them. *)
Lemma capture_custody `{Base64Laws} `{Http} `{Urls} `{HttpMessage} json_string parse_http_date
    j t hs now j' rest r :
  (forall v l, json_string v = Some l -> v <> [] -> (2 < length l)%nat) ->
  jar_ok j -> capture json_string parse_http_date j t hs now = (j', rest, r) ->
  jar_ok j' /\ jar_origin j' = jar_origin j
  /\ (forall h, h ∈ rest <-> h ∈ hs /\ h.1 <> "set-cookie" /\ h.1 <> "set-cookie2")
  /\ match r with
     | Ok q => origin t = jar_origin j /\ len (get_all "set-cookie" hs) <= 8
               /\ history j `prefix_of` history j' /\ (forall c, c ∈ cookies j' -> live now c = true)
               /\ covers json_string q (map as_bytes (history j'))
     | Err _ => cookies j' = [] /\ history j' = []
     end.
Proof.
  intros Hj Hok Hc. unfold capture in Hc.
  assert (Hrest : forall h, h ∈ List.filter (fun h => negb (bool_decide (h.1 = "set-cookie"))
      && negb (bool_decide (h.1 = "set-cookie2"))) hs <-> h ∈ hs /\ h.1 <> "set-cookie" /\ h.1 <> "set-cookie2").
  { intros h. rewrite !list_elem_of_In, filter_In, andb_true_iff, !negb_true_iff, !bool_decide_eq_false. done. }
  assert (Hempty : jar_ok (jar_clear j)).
  { split; cbn; [unfold len; cbn; lia|constructor|set_solver|]. split_and!; [unfold len; cbn; lia|constructor|set_solver]. }
  destruct (Z.ltb_spec 8 (len (get_all "set-cookie" hs))) as [Hn|Hn]; [unfold fail in Hc; simplify_eq/=; by split_and!|].
  case_bool_decide; [unfold fail in Hc; simplify_eq/=; by split_and!|].
  destruct (capture_inner _ _ _ _ _ _) as [[j1 q]|e] eqn:Hi; [|simplify_eq; by split_and!].
  apply (capture_inner_Ok _ _ Hj) in Hi as (I1 & I2 & I3 & I4 & I5 & I6); [|done].
  simplify_eq. by split_and!.
Qed.

(** The cookie header is scoped. It is built only for a target of the jar's own
    origin, from exactly the unexpired cookies whose path matches the target,
    more specific paths first, and is at most 32 KiB; nothing else is sent. *)
Lemma cookie_header_scoped `{Base64} `{Http} `{Urls} `{HttpMessage} j t now j' v :
  cookie_header j t now = (j', Ok (Some v)) ->
  origin t = jar_origin j /\ len v <= 32 * 1024
  /\ exists cs, v = join_pairs cs /\ cs <> []
       /\ (forall c, c ∈ cs <-> c ∈ cookies j /\ live now c = true /\ path_matches (c_path c) (path t) = true)
       /\ forall i k x y, cs !! i = Some x -> cs !! k = Some y -> (i < k)%nat -> slen (c_path y) <= slen (c_path x).
Proof.
  unfold cookie_header, check_origin. case_bool_decide as Ho; [|done]. case_bool_decide as Hne; [done|].
  destruct (Z.ltb_spec (32 * 1024) (len (join_pairs (selected (jar_expire j now) t)))) as [|Hlen]; [done|].
  destruct (HeaderValue_from_str _); [|done]. intros [= _ <-]. split; [done|]. split; [done|].
  eexists. split; [done|]. split; [done|]. split.
  - intros c. unfold selected. rewrite elem_sort_by, list_elem_of_In, filter_In, <-list_elem_of_In.
    cbn. rewrite filter_live_in. naive_solver.
  - unfold selected. set (l := List.filter _ _). clearbody l. clear.
    induction l as [|c l IH]; [done|]. change (sort_by longer_path (c :: l)) with (insert_by longer_path c (sort_by longer_path l)).
    set (s := sort_by longer_path l) in *. clearbody s. clear l.
    assert (Hins : forall s, (forall i k x y, s !! i = Some x -> s !! k = Some y -> (i < k)%nat -> slen (c_path y) <= slen (c_path x)) ->
      forall i k x y, insert_by longer_path c s !! i = Some x -> insert_by longer_path c s !! k = Some y -> (i < k)%nat ->
      slen (c_path y) <= slen (c_path x)); [|by apply Hins].
    clear. intros s. induction s as [|z s IHs]; intros Hs i k x y; cbn [insert_by].
    { destruct i, k; cbn; intros; lia || done. }
    unfold longer_path at 1 3. destruct (Z.leb_spec (slen (c_path z)) (slen (c_path c))) as [Hz|Hz].
    + destruct i as [|i], k as [|k]; cbn [lookup list_lookup]; intros Hi Hk Hlt; try lia; simplify_eq.
      * destruct k as [|k]; [cbn in Hk; simplify_eq; done|]. specialize (Hs 0%nat (S k) z y eq_refl Hk). lia.
      * apply (Hs i k x y Hi Hk). lia.
    + destruct i as [|i], k as [|k]; cbn [lookup list_lookup]; intros Hi Hk Hlt; try lia; simplify_eq.
      * apply list_elem_of_lookup_2 in Hk. apply elem_insert_by in Hk as [->|Hk]; [lia|].
        apply list_elem_of_lookup in Hk as [n Hn]. apply (Hs 0%nat (S n) x y eq_refl Hn). lia.
      * apply (IHs (fun i k x y Hi Hk Hlt => Hs (S i) (S k) x y Hi Hk ltac:(lia)) i k x y Hi Hk). lia.
Qed.
