(* ===== verification/Operation.v ===== *)
(** * Authentication contexts, operations and authority ([aap-engine/src/vault.rs], [aap-engine/src/lib.rs])

    A binding is a session's grant on one enrolled item: its placeholders, private
    cookies and CSRF token, its expiry and its cancellation token. An issuance is
    the tracked request that creates one.

    The status of a tracked operation, the session's authority, the boundary at
    which a state change is committed under it, and what other actors may do to
    both between the steps of an operation. An instant is a [Z]; a section of code
    that runs under a lock reads one instant. Mutexes are not poisoned. *)
From S2P Require Import Prelude Protocol Ids Catalog Profile Secrets Redaction Injection Cookies.

(** `aap-auth/src/login.rs:14-17`, `Placeholders` *)
Record Placeholders := mkValues { ph_username : string; ph_password : string }.

(** `aap-auth/src/login.rs:18-30`, `Placeholders::new`; [r1], [r2] are fresh identifiers *)
Definition Placeholders_new (r1 r2 : option string) : Result Placeholders :=
  match r1, r2 with
  | Some u, Some p => Ok (mkValues ("aap_un1_" ++ u) ("aap_pw1_" ++ p))
  | _, _ => fail InternalError
  end.

(** `aap-auth/src/login.rs:40-43`, `CsrfToken` *)
Record CsrfToken := mkCsrf { csrf_placeholder : string; csrf_value : string }.

(** `aap-engine/src/vault.rs:32-38`, `BindingState` *)
Record BindingState := mkBindingState {
  b_status : AuthState;
  values : option Placeholders;
  jar : CookieJar;
  csrf_token : option CsrfToken;
  template : Redactor }.

(** `aap-engine/src/vault.rs:22-31`, `Binding` *)
Record Binding := mkBinding {
  b_id : string; b_item : Item; b_lease : Lease; b_expires : Z; b_cancelled : bool; b_state : BindingState }.

(** [Redactor::new(&[])] *)
Definition empty_redactor : Redactor := mkRedactor [] [] 1 false.

(** `aap-engine/src/vault.rs:40-49`, `Binding::invalidate` (the state it leaves) *)
Definition retired (s : BindingState) (status : AuthState) : BindingState :=
  mkBindingState status None (jar_clear (jar s)) None empty_redactor.

(** `aap-engine/src/vault.rs:40-53`, `Binding::invalidate` *)
Definition invalidate (b : Binding) (status : AuthState) : Binding :=
  mkBinding (b_id b) (b_item b) (b_lease b) (b_expires b) true (retired (b_state b) status).

(** `aap-engine/src/vault.rs:54-73`, `Binding::check` *)
Definition Binding_check (b : Binding) (now : Z) : Binding * Result unit :=
  let b :=
    if (b_expires b <=? now) && negb (bool_decide (b_status (b_state b) = AuthRevoked))
    then invalidate b AuthExpired else b in
  (b, if b_cancelled b then fail PlaceholderInvalid else Ok tt).

(** `aap-engine/src/vault.rs:75-83`, `Issuance` and `IssuanceState` *)
Record Issuance := mkIssuance {
  i_request : GetLogin; i_status : OperationStatus; i_result : option (Result string); i_cancelled : bool }.

(** `aap-engine/src/vault.rs:91-99`, `Issuance::cancel` *)
Definition issuance_cancel (i : Issuance) : Issuance :=
  if terminal (state (i_status i)) then i
  else mkIssuance (i_request i) (mkStatus (status_request_id (i_status i)) Cancelled (status (i_status i)))
         (Some (fail RequestConflict)) true.

(** `aap-engine/src/vault.rs:101-111`, `IssueGuard::drop` *)
Definition issue_guard_drop (finished : bool) (i : Issuance) : Issuance :=
  if finished then i else issuance_cancel i.

(** ** A binding that lost its authority holds no private material *)

(** The placeholders, cookies, CSRF token and redaction template are gone. *)
Definition bare (s : BindingState) : Prop :=
  values s = None /\ cookies (jar s) = [] /\ history (jar s) = [] /\ csrf_token s = None
  /\ patterns (template s) = [].

(** The invariant: a retired status means cancelled. *)
Definition binding_ok (b : Binding) : Prop :=
  b_status (b_state b) = AuthRevoked \/ b_status (b_state b) = AuthExpired ->
  b_cancelled b = true /\ bare (b_state b).

Lemma invalidate_bare b status : b_cancelled (invalidate b status) = true /\ bare (b_state (invalidate b status)).
Proof. done. Qed.

Lemma invalidate_ok b status : binding_ok (invalidate b status).
Proof. intros _. apply invalidate_bare. Qed.

Lemma Binding_check_ok b now b' r : binding_ok b -> Binding_check b now = (b', r) ->
  binding_ok b' /\ (r = Ok tt <-> b_cancelled b' = false)
  /\ (b_expires b <= now -> r <> Ok tt /\ bare (b_state b'))
  /\ (r = Ok tt -> b' = b /\ now < b_expires b /\ b_cancelled b = false).
Proof.
  intros Hok. unfold Binding_check. destruct (_ && _) eqn:E; intros [= <- <-]; bool_hyps.
  - by split_and!.
  - split_and!; [done|by destruct (b_cancelled b)| |].
    + intros He. apply andb_false_iff in E as [E|E]; bool_hyps; [lia|].
      destruct Hok as [Hc Hb]; [by left|]. by rewrite Hc.
    + destruct (b_cancelled b) eqn:Hc; [done|]. intros _. split_and!; try done.
      apply andb_false_iff in E as [E|E]; bool_hyps; [lia|].
      destruct Hok as [Hc' _]; [by left|]. congruence.
Qed.

(** ** Operations and authority *)


(** ** Operations *)

(** `aap-engine/src/lib.rs:138-142`, `Operation`; [op_cancelled] is its token *)
Record Operation := mkOperation {
  op_request : ExecuteRequest; op_status : OperationStatus; op_cancelled : bool }.

Definition op_state (o : Operation) : OperationState := state (op_status o).
Definition set_state (o : Operation) (s : OperationState) : Operation :=
  mkOperation (op_request o) (mkStatus (status_request_id (op_status o)) s (status (op_status o))) (op_cancelled o).

(** `aap-engine/src/lib.rs:150-160`, `Operation::transition` *)
Definition transition (o : Operation) (next : OperationState) (code : option Z) : Operation * Result unit :=
  if terminal (op_state o) then (o, fail RequestConflict)
  else
    (mkOperation (op_request o)
       (mkStatus (status_request_id (op_status o)) next
          (match code with Some _ => code | None => status (op_status o) end))
       (op_cancelled o), Ok tt).

(** `aap-engine/src/lib.rs:161-172`, `Operation::cancel` *)
Definition op_cancel (o : Operation) : Operation :=
  if terminal (op_state o) then o
  else
    let next := if bool_decide (op_state o = Dispatching) then OpOutcomeUnknown else Cancelled in
    let o := set_state o next in
    mkOperation (op_request o) (op_status o) true.

(** [self.operation.cancelled.cancel()] *)
Definition cancel_token (o : Operation) : Operation := mkOperation (op_request o) (op_status o) true.

(** ** Authority *)

(** `aap-engine/src/lib.rs:486-496`, `Session::check` (what it reads): the broker's
    flag, the session's flag, token and expiry, and the clock *)
Record Authority := mkAuthority {
  auth_closed : bool; auth_revoked : bool; auth_cancelled : bool; auth_expires : Z; auth_now : Z }.

(** `aap-engine/src/lib.rs:486-496`, `Session::check` *)
Definition Session_check (a : Authority) : Result unit :=
  if auth_closed a || auth_revoked a || auth_cancelled a || (auth_expires a <=? auth_now a)
  then fail SessionInvalid else Ok tt.

(** `aap-engine/src/lib.rs:502-511`, `Session::commit_authority` *)
Definition commit_authority {S A : Type} (a : Authority) (commit : S -> S * Result A) (s : S) : S * Result A :=
  match Session_check a with
  | Err e => (s, Err e)
  | Ok _ => commit s
  end.

(** ** Other actors *)

(** What happens to an operation and its session's authority from elsewhere:
    broker closure, session retirement, its token, the clock, cancellation, and
    the loss of the authentication context it uses. *)
Inductive Other := OClose | ORetire | ONotify | OClock (instant : Z) | OCancel | OInvalidate (status : AuthState).

Record Shared := mkShared { authority : Authority; op : Operation; binding : option Binding }.

Definition set_op (s : Shared) (o : Operation) : Shared := mkShared (authority s) o (binding s).
Definition set_binding (s : Shared) (b : option Binding) : Shared := mkShared (authority s) (op s) b.
Definition set_authority (s : Shared) (a : Authority) : Shared := mkShared a (op s) (binding s).

Definition other (o : Other) (s : Shared) : Shared :=
  let a := authority s in
  match o with
  | OClose => set_authority s (mkAuthority true (auth_revoked a) (auth_cancelled a) (auth_expires a) (auth_now a))
  | ORetire => set_authority s (mkAuthority (auth_closed a) true (auth_cancelled a) (auth_expires a) (auth_now a))
  | ONotify => set_authority s (mkAuthority (auth_closed a) (auth_revoked a) true (auth_expires a) (auth_now a))
  | OClock t => set_authority s (mkAuthority (auth_closed a) (auth_revoked a) (auth_cancelled a) (auth_expires a)
                                   (Z.max (auth_now a) t))
  | OCancel => set_op s (op_cancel (op s))
  | OInvalidate status => set_binding s ((fun b => invalidate b status) <$> binding s)
  end.

Definition others (os : list Other) (s : Shared) : Shared := foldl (fun s o => other o s) s os.

(** ** Facts *)

Lemma transition_terminal o next code : terminal (op_state o) = true -> transition o next code = (o, fail RequestConflict).
Proof. intros Ht. unfold transition. by rewrite Ht. Qed.
Lemma cancel_terminal o : terminal (op_state o) = true -> op_cancel o = o.
Proof. intros Ht. unfold op_cancel. by rewrite Ht. Qed.
Lemma cancel_is_terminal o : terminal (op_state (op_cancel o)) = true.
Proof. unfold op_cancel. destruct (terminal (op_state o)) eqn:E; [done|]. cbn. by case_bool_decide. Qed.

(** Once authority is gone it stays gone, whatever the other actors do. *)
Lemma other_check o s : Session_check (authority s) <> Ok tt -> Session_check (authority (other o s)) <> Ok tt.
Proof.
  unfold Session_check. destruct s as [[c r k e n] o0 b]; cbn.
  destruct o; cbn; destruct c, r, k; cbn; try done;
    destruct (Z.leb_spec e n); cbn; intros Hc; try done.
  destruct (Z.leb_spec e (n `max` instant)); [done|lia].
Qed.

Lemma others_check os s : Session_check (authority s) <> Ok tt -> Session_check (authority (others os s)) <> Ok tt.
Proof.
  revert s. induction os as [|o os IH]; intros s Hs; [done|]. by apply IH, other_check.
Qed.

Lemma other_operation o s : op (other o s) = op s \/ op (other o s) = op_cancel (op s).
Proof. destruct o; cbn; auto. Qed.

Lemma op_cancel_idem o : op_cancel (op_cancel o) = op_cancel o.
Proof. apply cancel_terminal, cancel_is_terminal. Qed.

Lemma others_operation os s : op (others os s) = op s \/ op (others os s) = op_cancel (op s).
Proof.
  revert s. induction os as [|o os IH]; intros s; [by left|]. cbn.
  destruct (IH (other o s)) as [Hi|Hi]; unfold others in Hi; rewrite Hi;
    destruct (other_operation o s) as [Ho|Ho]; rewrite Ho; auto using op_cancel_idem.
Qed.

(** Others never move an operation that has not finished, except to cancel it. *)
Lemma others_state os s : terminal (op_state (op (others os s))) = false ->
  op (others os s) = op s.
Proof.
  intros Ht. destruct (others_operation os s) as [Ho|Ho]; [done|].
  rewrite Ho, cancel_is_terminal in Ht. done.
Qed.
Lemma others_terminal os s : terminal (op_state (op s)) = true -> op (others os s) = op s.
Proof. intros Ht. destruct (others_operation os s) as [Ho|Ho]; [done|]. by rewrite Ho, cancel_terminal. Qed.
