(* ===== verification/Guard.v ===== *)
(** * The guard of a tracked request ([aap-engine/src/pipeline.rs],
    [aap-engine/src/observation.rs])

    Owns one operation from tracking to its terminal state: it offers the evidence,
    commits dispatch and completion under the session's authority, and turns every
    other end into an honest terminal state. The flow is any [Observer]; a remote
    MCP exchange is any [RemoteContext]. *)
From S2P Require Import Prelude Protocol Ids Observe Recorder Flow Catalog Redaction Cookies Operation.

(** ** Sanitized evidence *)

(** `aap-engine/src/observation.rs:7-13`, `StreamState` *)
Record StreamState := mkStreamState {
  bytes : Z; started : bool; ended : bool; media : option string }.
Definition StreamState_default : StreamState := mkStreamState 0 false false None.

(** `aap-engine/src/observation.rs:22-45`, `emission` *)
Definition metadata_only (d : Data) : bool :=
  match d with FlowOpen | FlowClose _ _ _ _ | PolicyDecision _ _ | AuthTransition _ _ => true | _ => false end.
Definition emission (d : Direction) (v : View) (x : Data) : Emission :=
  if metadata_only x then mkEmission d v MetadataOnly Complete x else mkEmission d v Parsed Transformed x.

(** `aap-engine/src/observation.rs:235-252`, `safe_headers` (one header) *)
Definition content_types : list string :=
  ["application/json"; "application/x-www-form-urlencoded"; "text/event-stream"; "text/plain"].
Definition redacted_names : list string :=
  ["authorization"; "x-api-key"; "cookie"; "set-cookie"; "location"; "anthropic-version";
   "content-encoding"; "accept"].
Definition dropped_names : list string :=
  ["content-length"; "transfer-encoding"; "connection"; "keep-alive"; "host"].
Definition safe_header (h : string * string) : option (string * string) :=
  let name := str_to_ascii_lowercase h.1 in
  if bool_decide (name = "content-type") then
    let m := from_bytes (Injection.trim (Injection.before ";"%char (as_bytes h.2))) in
    Some (name, if bool_decide (m ∈ content_types) then m else "[redacted]")
  else if bool_decide (name = "anthropic-version") && bool_decide (h.2 = "2023-06-01") then Some (name, "2023-06-01")
  else if bool_decide (name = "content-encoding") && bool_decide (h.2 = "identity") then Some (name, "identity")
  else if bool_decide (name ∈ redacted_names) then Some (name, "[redacted]")
  else if bool_decide (name ∈ dropped_names) then None
  else Some ("[withheld]", "[withheld]").
(** `aap-engine/src/observation.rs:217-255`, `safe_headers` *)
Definition safe_headers (hs : list (string * string)) : list (string * string) := omap safe_header hs.

Section Evidence.
Context `{Base64} {F : Type} `{Observer F}.

(** `aap-engine/src/observation.rs:134-168`, `record_with` (the effect of one event on
    its stream) *)
Definition note (x : Data) (s : StreamState) : option StreamState :=
  match x with
  | RequestStart _ _ hs | ResponseStart _ hs =>
      if started s then None
      else Some (mkStreamState (bytes s) true (ended s)
                   (snd <$> find_first (fun h => bool_decide (h.1 = "content-type")
                                             && negb (bool_decide (h.2 = "[redacted]"))) hs))
  | ContentChunk offset body _ _ =>
      if negb (started s) || ended s || negb (offset =? bytes s) then None
      else
        decoded ← decode STANDARD (as_bytes body);
        Some (mkStreamState (bytes s + len decoded) (started s) (ended s) (media s))
  | ContentEnd _ n _ =>
      if ended s || negb (n =? bytes s) then None
      else Some (mkStreamState (bytes s) (started s) true (media s))
  | _ => Some s
  end.
Fixpoint note_all (es : list Emission) (states : list StreamState) : option (list StreamState) :=
  match es with
  | [] => Some states
  | e :: es =>
      let i := slot (e_direction e) (e_view e) in
      s ← note (e_data e) (nth i states StreamState_default);
      note_all es (<[ i := s ]> states)
  end.

(** `aap-engine/src/observation.rs:124-172`, `record_with` *)
Definition record_with {S : Type} (f : F) (states : list StreamState) (es : list Emission)
    (commit : S -> S * Result unit) (s : S) : F * list StreamState * S * Result unit :=
  match note_all es states with
  | None => (f, states, s, fail ObservationUnavailable)
  | Some next =>
      match observe f es commit s with
      | (f, s, Ok _) => (f, next, s, Ok tt)
      | (f, s, Err e) => (f, states, s, Err e)
      end
  end.

(** `aap-engine/src/observation.rs:181-213`, `finish_with` (the events) *)
Definition closing_events (states : list StreamState) (complete : bool) (reason : option ErrorCode) : list Emission :=
  flat_map (fun v =>
    flat_map (fun d =>
      let s := nth (slot d v) states StreamState_default in
      if started s && negb (ended s) then [emission d v (ContentEnd complete (bytes s) reason)] else [])
      [Outbound; Inbound]
    ++ [emission Inbound v (FlowClose complete
          (bytes (nth (slot Outbound v) states StreamState_default))
          (bytes (nth (slot Inbound v) states StreamState_default)) reason)]) [Agent; Upstream].

(** `aap-engine/src/observation.rs:174-215`, `finish_with` *)
Definition finish_with {S : Type} (f : F) (states : list StreamState) (complete : bool)
    (reason : option ErrorCode) (commit : S -> S * Result unit) (s : S)
    : F * list StreamState * S * Result unit :=
  record_with f states (closing_events states complete reason) commit s.
End Evidence.

(** ** The guard *)

(** `aap-engine/src/website.rs:25-29`, `ResponseState` *)
Record ResponseState := mkResponseState { rs_jar : CookieJar; rs_csrf : option CsrfToken; rs_template : Redactor }.
(** `aap-engine/src/website.rs:17-22`, `Exchange`; the binding is in [Shared] *)
Record Exchange := mkExchange { final_state : AuthState; held : option ResponseState }.

(** What the pipeline asks of a remote MCP exchange ([Exchange] of
    [aap-engine/src/remote_mcp.rs]): the check, the commit under the authority
    boundary, abandonment, and why its select ends a wait. *)
Class RemoteContext (R : Type) := {
  remote_gone : R -> option ErrorCode;
  remote_check : R -> Z -> R * Result unit;
  remote_commit : R -> Z -> R * Result unit;
  remote_abandon : R -> Z -> R }.

(** `aap-engine/src/pipeline.rs:431-442`, `Guard`, with what it shares *)
Record Guard (F R : Type) := mkGuard {
  shared : Shared;
  guard_flow : F;
  observed : list StreamState;
  active : bool;
  finished : bool;
  dispatched : bool;
  website : option Exchange;
  remote : option R;
  response_recorded : bool }.
Arguments mkGuard {F R}. Arguments shared {F R}. Arguments guard_flow {F R}. Arguments observed {F R}.
Arguments active {F R}. Arguments finished {F R}. Arguments dispatched {F R}. Arguments website {F R}.
Arguments remote {F R}. Arguments response_recorded {F R}.

Section Guards.
Context `{Base64} {F : Type} `{Observer F} {R : Type} `{RemoteContext R}.
Abbreviation G := (Guard F R).

Definition with_shared (g : G) (s : Shared) : G :=
  mkGuard s (guard_flow g) (observed g) (active g) (finished g) (dispatched g) (website g) (remote g) (response_recorded g).
Definition with_evidence (g : G) (f : F) (states : list StreamState) : G :=
  mkGuard (shared g) f states (active g) (finished g) (dispatched g) (website g) (remote g) (response_recorded g).
Definition with_finished (g : G) : G :=
  mkGuard (shared g) (guard_flow g) (observed g) (active g) true (dispatched g) (website g) (remote g) (response_recorded g).
Definition with_dispatched (g : G) : G :=
  mkGuard (shared g) (guard_flow g) (observed g) (active g) (finished g) true (website g) (remote g) (response_recorded g).
Definition with_active (g : G) : G :=
  mkGuard (shared g) (guard_flow g) (observed g) true (finished g) (dispatched g) (website g) (remote g) (response_recorded g).
Definition with_recorded (g : G) : G :=
  mkGuard (shared g) (guard_flow g) (observed g) (active g) (finished g) (dispatched g) (website g) (remote g) true.
Definition with_website (g : G) (w : option Exchange) : G :=
  mkGuard (shared g) (guard_flow g) (observed g) (active g) (finished g) (dispatched g) w (remote g) (response_recorded g).
Definition with_remote (g : G) (r : option R) : G :=
  mkGuard (shared g) (guard_flow g) (observed g) (active g) (finished g) (dispatched g) (website g) r (response_recorded g).
Definition with_op (g : G) (o : Operation) : G := with_shared g (set_op (shared g) o).
Definition guard_op (g : G) : Operation := op (shared g).
Definition guard_now (g : G) : Z := auth_now (authority (shared g)).

(** `aap-engine/src/observation.rs:59-61`, `Guard::record_many` *)
Definition record_many (g : G) (es : list Emission) : G * Result unit :=
  let '(f, states, _, r) := record_with (guard_flow g) (observed g) es (fun u => (u, Ok tt)) tt in
  (with_evidence g f states, r).
(** `aap-engine/src/observation.rs:50-52`, `Guard::record_view` *)
Definition record_view (g : G) (d : Direction) (v : View) (x : Data) : G * Result unit :=
  record_many g [emission d v x].
(** `aap-engine/src/observation.rs:47-49`, `Guard::record` *)
Definition record_agent (g : G) (d : Direction) (x : Data) : G * Result unit := record_view g d Agent x.
(** `aap-engine/src/observation.rs:53-58`, `Guard::record_both` *)
Definition record_both (g : G) (d : Direction) (x : Data) : G * Result unit :=
  record_many g [emission d Agent x; emission d Upstream x].

(** `aap-engine/src/observation.rs:69-93`, `Guard::content_views` (one chunk) *)
Definition content_event (g : G) (d : Direction) (chunk : list byte) (v : View) : Emission :=
  let s := nth (slot d v) (observed g) StreamState_default in
  emission d v (ContentChunk (bytes s) (from_bytes (encode STANDARD chunk)) (media s) "base64").
(** `aap-engine/src/observation.rs:68-95`, `Guard::content_views` *)
Fixpoint content_views (g : G) (d : Direction) (vs : list View) (cs : list (list byte)) : G * Result unit :=
  match cs with
  | [] => (g, Ok tt)
  | c :: cs =>
      match record_many g (map (content_event g d c) vs) with
      | (g, Ok _) => content_views g d vs cs
      | (g, Err e) => (g, Err e)
      end
  end.
(** `aap-engine/src/observation.rs:62-64`, `Guard::content` *)
Definition content (g : G) (d : Direction) (v : View) (l : list byte) : G * Result unit :=
  content_views g d [v] (chunks (length l) (Z.to_nat (32 * 1024)) l).
(** `aap-engine/src/observation.rs:65-67`, `Guard::content_both` *)
Definition content_both (g : G) (d : Direction) (l : list byte) : G * Result unit :=
  content_views g d [Agent; Upstream] (chunks (length l) (Z.to_nat (32 * 1024)) l).
(** `aap-engine/src/observation.rs:96-118`, `Guard::end_content` *)
Definition end_content (g : G) (d : Direction) (vs : list View) : G * Result unit :=
  record_many g (map (fun v => emission d v
    (ContentEnd true (bytes (nth (slot d v) (observed g) StreamState_default)) None)) vs).
(** `aap-engine/src/observation.rs:119-121`, `Guard::finish_observation` *)
Definition finish_observation (g : G) (complete : bool) (reason : option ErrorCode) : G * Result unit :=
  let '(f, states, _, r) :=
    finish_with (guard_flow g) (observed g) complete reason (fun u => (u, Ok tt)) tt in
  (with_evidence g f states, r).

(** `aap-engine/src/pipeline.rs:461-474`, `Guard::begin_dispatch` (the commit) *)
Definition commit_dispatch (o : Operation) : Operation * Result unit :=
  if negb (bool_decide (op_state o = Ready)) || op_cancelled o then (o, fail RequestConflict)
  else (set_state o Dispatching, Ok tt).

(** `aap-engine/src/pipeline.rs:457-485`, `Guard::begin_dispatch` *)
Definition begin_dispatch (g : G) : G * Result unit :=
  match commit_authority (authority (shared g)) commit_dispatch (guard_op g) with
  | (o, Err e) =>
      (with_op g (if bool_decide (code e = SessionInvalid) then op_cancel o else o), Err e)
  | (o, Ok _) => (with_dispatched (with_op g o), Ok tt)
  end.

(** `aap-engine/src/pipeline.rs:539-547`, `Guard::complete_local` (the commit) *)
Definition commit_local (code : Z) (o : Operation) : Operation * Result unit :=
  if terminal (op_state o) || op_cancelled o then (o, fail RequestConflict)
  else (mkOperation (op_request o) (mkStatus (status_request_id (op_status o)) Completed (Some code)) (op_cancelled o), Ok tt).

(** `aap-engine/src/pipeline.rs:528-557`, `Guard::complete_local` *)
Definition complete_local (g : G) (status : Z) : G * Result unit :=
  let '(f, states, o, r) :=
    finish_with (guard_flow g) (observed g) true None
      (commit_authority (authority (shared g)) (commit_local status)) (guard_op g) in
  let g := with_evidence (with_op g o) f states in
  match r with
  | Err e => (if bool_decide (code e = SessionInvalid) then with_op g (op_cancel (guard_op g)) else g, Err e)
  | Ok _ => (with_finished g, Ok tt)
  end.

(** `aap-engine/src/pipeline.rs:608-634`, `Guard::complete` (the commit: the operation,
    its binding and its remote exchange) *)
Definition commit_complete (now : Z) (pending : option (ResponseState * AuthState))
    (s : Operation * option Binding * option R) : Operation * option Binding * option R * Result unit :=
  let '(o, b, r) := s in
  if op_cancelled o || negb (bool_decide (op_state o = Dispatching))
     || match b with
        | Some b => bool_decide (is_Some pending) && (b_cancelled b || (b_expires b <=? now))
        | None => false
        end
  then (o, b, r, fail OutcomeUnknown)
  else
    let '(r, res) := match r with
                     | Some r => let (r, x) := remote_commit r now in (Some r, x)
                     | None => (None, Ok tt)
                     end in
    match res with
    | Err e => (o, b, r, Err e)
    | Ok _ =>
        let b :=
          match b, pending with
          | Some b, Some (p, status) =>
              Some (mkBinding (b_id b) (b_item b) (b_lease b) (b_expires b) (b_cancelled b)
                      (mkBindingState status (values (b_state b)) (rs_jar p) (rs_csrf p) (rs_template p)))
          | b, _ => b
          end in
        (set_state o Completed, b, r, Ok tt)
    end.

Definition unknown_if_invalid (r : Result unit) : Result unit :=
  match r with
  | Err e => if bool_decide (code e = SessionInvalid) then fail OutcomeUnknown else Err e
  | Ok _ => Ok tt
  end.

(** `aap-engine/src/pipeline.rs:571-573`, `Guard::complete` (the check of the website's
    binding) *)
Definition check_website (g : G) : G * Result unit :=
  match website g, binding (shared g) with
  | Some _, Some b =>
      let (b, r) := Binding_check b (guard_now g) in (with_shared g (set_binding (shared g) (Some b)), r)
  | _, _ => (g, Ok tt)
  end.
(** `aap-engine/src/pipeline.rs:574-576`, `Guard::complete` (the check of the remote
    exchange) *)
Definition check_remote (g : G) : G * Result unit :=
  match remote g with
  | Some r => let (r, x) := remote_check r (guard_now g) in (with_remote g (Some r), x)
  | None => (g, Ok tt)
  end.

(** `aap-engine/src/pipeline.rs:593-602`, `Guard::complete` (the pending state taken) *)
Definition take_pending (g : G) : G * Result (option (ResponseState * AuthState)) :=
  match website g with
  | None => (g, Ok None)
  | Some w =>
      (with_website g (Some (mkExchange (final_state w) None)),
       match held w with Some p => Ok (Some (p, final_state w)) | None => fail InternalError end)
  end.

(** `aap-engine/src/pipeline.rs:606-644`, `Guard::complete` (evidence and commit) *)
Definition commit_evidence (g : G) (pending : option (ResponseState * AuthState)) : G * Result unit :=
  let sh := shared g in
  let '(f, states, (o, b, r), res) :=
    finish_with (guard_flow g) (observed g) true None
      (fun s => let (s, x) := commit_authority (authority sh) (commit_complete (guard_now g) pending) s in
                (s, unknown_if_invalid x))
      (op sh, binding sh, remote g) in
  let g := with_remote (with_evidence (with_shared g (set_binding (set_op sh o) b)) f states) r in
  match res with Ok _ => (with_finished g, Ok tt) | Err e => (g, Err e) end.

(** `aap-engine/src/pipeline.rs:558-646`, `Guard::complete` *)
Definition complete (g : G) : G * Result unit :=
  if is_err (Session_check (authority (shared g))) || op_cancelled (guard_op g)
     || negb (bool_decide (op_state (guard_op g) = Dispatching))
  then (g, fail OutcomeUnknown)
  else
    match check_website g with
    | (g, Err e) => (g, Err e)
    | (g, Ok _) =>
        match check_remote g with
        | (g, Err e) => (g, Err e)
        | (g, Ok _) =>
            match take_pending g with
            | (g, Err e) => (g, Err e)
            | (g, Ok pending) => commit_evidence g pending
            end
        end
    end.

(** `aap-engine/src/pipeline.rs:651-657`, `Guard::fail` (the exchanges) *)
Definition release_exchanges (g : G) : G :=
  let g :=
    match website g with
    | Some w =>
        with_shared (with_website g (Some (mkExchange (final_state w) None)))
          (set_binding (shared g) ((fun b => invalidate b AuthRevoked) <$> binding (shared g)))
    | None => g
    end in
  with_remote g ((fun r => remote_abandon r (guard_now g)) <$> remote g).

(** `aap-engine/src/pipeline.rs:658-664`, `Guard::fail` (the state) *)
Definition failed_state (dispatched : bool) (reason : ErrorCode) : OperationState :=
  if dispatched then OpOutcomeUnknown
  else if bool_decide (reason = PolicyDenied) then Denied else Failed.

(** `aap-engine/src/pipeline.rs:647-678`, `Guard::fail` *)
Definition guard_fail (g : G) (reason : ErrorCode) : G :=
  if finished g then g
  else
    let g := release_exchanges g in
    let (o, _) := transition (guard_op g) (failed_state (dispatched g) reason) None in
    let g := with_op g (cancel_token o) in
    let g := if dispatched g then g
             else (record_both g Outbound (PolicyDecision Deny (Some reason))).1 in
    let g := (finish_observation g false (Some reason)).1 in
    with_finished g.

(** `aap-engine/src/pipeline.rs:680-691`, `Guard::drop` *)
Definition guard_drop (g : G) : G :=
  if finished g then g
  else
    guard_fail (with_op g (op_cancel (guard_op g)))
      (if dispatched g then OutcomeUnknown else RequestConflict).
End Guards.
