(* ===== verification/Lifecycle.v ===== *)
(** * The life of a tracked request

    What [Guard] guarantees over whole lives: every sequence of moves the pipeline
    and the other actors can make, ended by the drop of the guard. *)
From S2P Require Import Prelude Protocol Ids Observe Recorder Flow Operation Guard.

(** ** Moves *)

(** A move of the pipeline or of the other actors; [MExchange] attaches or replaces
    what a request holds, [MElsewhere] is what other flows do to the shared
    recorder. *)
Inductive Move (F R : Type) :=
  | MOthers (os : list Other)
  | MElsewhere (f : F -> F)
  | MActive
  | MRecorded
  | MTransition (next : OperationState) (code : option Z)
  | MRecord (es : list Emission)
  | MContent (d : Direction) (l : list byte)
  | MExchange (w : option Exchange) (b : option Binding) (r : option R)
  | MBegin
  | MComplete
  | MLocal (code : Z)
  | MFail (reason : ErrorCode).
Arguments MOthers {F R}. Arguments MElsewhere {F R}. Arguments MActive {F R}. Arguments MRecorded {F R}.
Arguments MTransition {F R}. Arguments MRecord {F R}. Arguments MContent {F R}. Arguments MExchange {F R}.
Arguments MBegin {F R}. Arguments MComplete {F R}. Arguments MLocal {F R}. Arguments MFail {F R}.

Section Lives.
Context `{Base64} {F : Type} `{Observer F} {R : Type} `{RemoteContext R}.
Abbreviation G := (Guard F R).

Definition do_move (g : G) (m : Move F R) : G :=
  match m with
  | MOthers os => with_shared g (others os (shared g))
  | MElsewhere f => with_evidence g (f (guard_flow g)) (observed g)
  | MActive => with_active g
  | MRecorded => with_recorded g
  | MTransition next code => with_op g (transition (guard_op g) next code).1
  | MRecord es => (record_many g es).1
  | MContent d l => (content_both g d l).1
  | MExchange w b r => with_remote (with_website (with_shared g (set_binding (shared g) b)) w) r
  | MBegin => (begin_dispatch g).1
  | MComplete => (complete g).1
  | MLocal code => (complete_local g code).1
  | MFail reason => guard_fail g reason
  end.

(** The pipeline's own transitions: before dispatch it prepares, after it only
    stores the upstream status. *)
Definition disciplined (g : G) (m : Move F R) : Prop :=
  match m with
  | MTransition next _ =>
      if dispatched g then next = Dispatching else next ∈ [Validated; PendingApproval; Ready]
  | _ => True
  end.

Fixpoint lives (g : G) (ms : list (Move F R)) : Prop :=
  match ms with [] => True | m :: ms => disciplined g m /\ lives (do_move g m) ms end.
Definition life (g : G) (ms : list (Move F R)) : G := foldl do_move g ms.

(** ** What each operation does to the operation's state *)

Lemma record_frame (g : G) es g' r : record_many g es = (g', r) ->
  shared g' = shared g /\ finished g' = finished g /\ dispatched g' = dispatched g
  /\ website g' = website g /\ remote g' = remote g.
Proof. unfold record_many. destruct (record_with _ _ _ _ _) as [[[f st] u] r']. by intros [= <- <-]. Qed.

Lemma content_frame d cs (g : G) vs g' r : content_views g d vs cs = (g', r) ->
  shared g' = shared g /\ finished g' = finished g /\ dispatched g' = dispatched g.
Proof.
  revert g. induction cs as [|c cs IH]; intros g; cbn [content_views]; [by intros [= <- <-]|].
  destruct (record_many g _) as [g1 [[]|e]] eqn:Hr; apply record_frame in Hr as (R1 & R2 & R3 & _).
  - intros (C1 & C2 & C3)%IH. split_and!; congruence.
  - by intros [= <- <-].
Qed.

Lemma finish_frame (g : G) c reason g' r : finish_observation g c reason = (g', r) ->
  shared g' = shared g /\ finished g' = finished g /\ dispatched g' = dispatched g.
Proof. unfold finish_observation. destruct (finish_with _ _ _ _ _ _) as [[[f st] u] r']. by intros [= <- <-]. Qed.

(** [finish_with] under an observer that keeps its laws. *)
Lemma finish_with_outcome `{!ObserverLaws F} {S : Type} f st c reason (commit : S -> S * Result unit) s f' st' s' r :
  finish_with f st c reason commit s = (f', st', s', r) ->
  (s' = s /\ is_err r = true)
  \/ (commit s = (s', r) /\ is_err r = true /\ f' = f)
  \/ (commit s = (s', Ok tt) /\ r = Ok tt
      /\ observe f (closing_events st c reason) commit s = (f', s', Ok tt)).
Proof.
  unfold finish_with, record_with. destruct (note_all _ _) as [next|]; [|intros; simplify_eq; by left].
  destruct (observe f _ commit s) as [[f1 s1] [[]|e]] eqn:Ho; intros; simplify_eq.
  - right; right. apply observe_outcome in Ho as Ho'. inversion Ho'; subst. done.
  - apply observe_outcome in Ho. inversion Ho; subst; [by left|]. right; left. done.
Qed.

Lemma begin_dispatch_spec (g : G) g' r : begin_dispatch g = (g', r) ->
  finished g' = finished g /\ authority (shared g') = authority (shared g)
  /\ match r with
     | Ok _ => Session_check (authority (shared g)) = Ok tt /\ op_state (guard_op g) = Ready
               /\ op_cancelled (guard_op g) = false
               /\ guard_op g' = set_state (guard_op g) Dispatching /\ dispatched g' = true
     | Err e => dispatched g' = dispatched g
                /\ (guard_op g' = guard_op g \/ guard_op g' = op_cancel (guard_op g))
     end.
Proof.
  unfold begin_dispatch, commit_authority. destruct (Session_check _) as [[]|e] eqn:Hc.
  - unfold commit_dispatch. destruct (_ || _) eqn:E.
    + intros [= <- <-]. cbn. auto.
    + bool_hyps. by intros [= <- <-].
  - intros [= <- <-]. cbn. case_bool_decide; auto.
Qed.

Lemma commit_authority_Ok {S A : Type} a (commit : S -> S * Result A) s s' r :
  commit_authority a commit s = (s', r) ->
  (s' = s /\ is_err r = true /\ Session_check a <> Ok tt) \/ (Session_check a = Ok tt /\ commit s = (s', r)).
Proof.
  unfold commit_authority. destruct (Session_check a) as [[]|e]; [by right|].
  intros [= <- <-]. by left.
Qed.

Lemma complete_local_spec `{!ObserverLaws F} (g : G) code g' r : complete_local g code = (g', r) ->
  authority (shared g') = authority (shared g) /\ dispatched g' = dispatched g
  /\ match r with
     | Ok _ => Session_check (authority (shared g)) = Ok tt /\ terminal (op_state (guard_op g)) = false
               /\ op_cancelled (guard_op g) = false
               /\ op_state (guard_op g') = Completed /\ finished g' = true
     | Err e => finished g' = finished g
                /\ (guard_op g' = guard_op g \/ guard_op g' = op_cancel (guard_op g))
     end.
Proof.
  unfold complete_local.
  destruct (finish_with _ _ _ _ _ _) as [[[f st] o] res] eqn:Hf. apply finish_with_outcome in Hf.
  assert (Herr : is_err res = true -> o = guard_op g).
  { intros He. destruct Hf as [[-> _]|[(Hc & _ & _)|(_ & -> & _)]]; [done| |done].
    apply commit_authority_Ok in Hc as [(-> & _)|(_ & Hc)]; [done|].
    unfold commit_local in Hc. destruct (_ || _); by simplify_eq. }
  destruct res as [[]|e].
  - intros [= <- <-]. destruct Hf as [[_ ?]|[(_ & ? & _)|(Hc & _ & _)]]; [done..|].
    apply commit_authority_Ok in Hc as [(_ & ? & _)|(Hs & Hc)]; [done|].
    unfold commit_local in Hc. destruct (_ || _) eqn:E; [done|]. bool_hyps. simplify_eq. done.
  - rewrite Herr by done. intros [= <- <-]. case_bool_decide; cbn; auto.
Qed.

(** What [complete] does before the commit leaves the operation alone. *)
Lemma check_website_frame (g g' : G) r : check_website g = (g', r) ->
  guard_op g' = guard_op g /\ authority (shared g') = authority (shared g) /\ finished g' = finished g
  /\ dispatched g' = dispatched g /\ website g' = website g /\ guard_flow g' = guard_flow g
  /\ observed g' = observed g.
Proof.
  unfold check_website. destruct (website g) eqn:Hw, (binding (shared g)); try by intros [= <- <-].
Qed.
Lemma check_remote_frame (g g' : G) r : check_remote g = (g', r) ->
  shared g' = shared g /\ finished g' = finished g /\ dispatched g' = dispatched g /\ website g' = website g
  /\ guard_flow g' = guard_flow g /\ observed g' = observed g.
Proof.
  unfold check_remote. destruct (remote g); [|by intros [= <- <-]].
  destruct (remote_check _ _). by intros [= <- <-].
Qed.
Lemma take_pending_frame (g g' : G) r : take_pending g = (g', r) ->
  shared g' = shared g /\ finished g' = finished g /\ dispatched g' = dispatched g
  /\ guard_flow g' = guard_flow g /\ observed g' = observed g.
Proof. unfold take_pending. destruct (website g); by intros [= <- <-]. Qed.

Lemma commit_complete_Ok now pending (o o' : Operation) b b' (r r' : option R) res :
  commit_complete now pending (o, b, r) = (o', b', r', res) ->
  match res with
  | Ok _ => op_cancelled o = false /\ op_state o = Dispatching /\ o' = set_state o Completed
            /\ forall x p status, b = Some x -> pending = Some (p, status) ->
                 b_cancelled x = false /\ now < b_expires x
                 /\ exists y, b' = Some y /\ b_state y
                      = mkBindingState status (values (b_state x)) (rs_jar p) (rs_csrf p) (rs_template p)
  | Err _ => o' = o /\ b' = b
  end.
Proof.
  unfold commit_complete. destruct (_ || _) eqn:E; [by intros [= <- <- <- <-]|].
  destruct (match r with Some _ => _ | None => _ end) as [r1 [[]|e]]; [|by intros [= <- <- <- <-]].
  intros [= <- <- <- <-]. bool_hyps. split_and!; try done.
  intros x p status -> ->. bool_hyps.
  match goal with HB : bool_decide _ && _ = false |- _ => rewrite bool_decide_eq_true_2 in HB by done; cbn in HB end.
  bool_hyps. split_and!; try done. by eexists.
Qed.

Lemma commit_evidence_spec `{!ObserverLaws F} (g g' : G) pending r : commit_evidence g pending = (g', r) ->
  authority (shared g') = authority (shared g) /\ dispatched g' = dispatched g
  /\ match r with
     | Ok _ => Session_check (authority (shared g)) = Ok tt /\ finished g' = true
               /\ op_cancelled (guard_op g) = false /\ op_state (guard_op g) = Dispatching
               /\ op_state (guard_op g') = Completed
               /\ (exists (S : Type) (commit : S -> S * Result unit) s s',
                     observe (guard_flow g) (closing_events (observed g) true None) commit s = (guard_flow g', s', Ok tt))
               /\ forall x p status, binding (shared g) = Some x -> pending = Some (p, status) ->
                    b_cancelled x = false /\ guard_now g < b_expires x
                    /\ exists y, binding (shared g') = Some y /\ b_state y
                         = mkBindingState status (values (b_state x)) (rs_jar p) (rs_csrf p) (rs_template p)
     | Err e => finished g' = finished g /\ guard_op g' = guard_op g /\ binding (shared g') = binding (shared g)
     end.
Proof.
  unfold commit_evidence.
  destruct (finish_with _ _ _ _ _ _) as [[[f st] [[o b] r1]] res] eqn:Hf. apply finish_with_outcome in Hf.
  assert (Hcases : forall x, (let (s, y) := commit_authority (authority (shared g)) (commit_complete (guard_now g) pending)
      (op (shared g), binding (shared g), remote g) in (s, unknown_if_invalid y)) = (o, b, r1, x) ->
    (is_err x = true /\ o = op (shared g) /\ b = binding (shared g))
    \/ (x = Ok tt /\ Session_check (authority (shared g)) = Ok tt
        /\ commit_complete (guard_now g) pending (op (shared g), binding (shared g), remote g) = (o, b, r1, Ok tt))).
  { intros x. destruct (commit_authority _ _ _) as [s y] eqn:Hc. intros [= -> <-].
    apply commit_authority_Ok in Hc as [([= -> -> ->] & He & _)|(Hs & Hc)].
    - left. destruct y as [|e]; [done|]. cbn. by case_bool_decide.
    - destruct y as [[]|e]; [by right|]. left. apply commit_complete_Ok in Hc as [-> ->].
      cbn. by case_bool_decide. }
  destruct res as [[]|e]; intros [= <- <-].
  - destruct Hf as [[_ ?]|[(_ & ? & _)|(Hc & _ & Hobs)]]; [done..|].
    destruct (Hcases _ Hc) as [(? & _)|(_ & Hs & Hc')]; [done|].
    apply commit_complete_Ok in Hc' as (C1 & C2 & C3 & C4). subst o. cbn. split_and!; try done.
    by eexists _, _, _, _.
  - cbn. assert (Heq : o = op (shared g) /\ b = binding (shared g)).
    { destruct Hf as [[Hs _]|[(Hc & _ & _)|(_ & ? & _)]]; [by simplify_eq| |done].
      by destruct (Hcases _ Hc) as [(_ & ? & ?)|(? & _)]. }
    destruct Heq as [-> ->]. done.
Qed.

Lemma complete_spec `{!ObserverLaws F} (g g' : G) r : complete g = (g', r) ->
  authority (shared g') = authority (shared g) /\ dispatched g' = dispatched g
  /\ match r with
     | Ok _ => Session_check (authority (shared g)) = Ok tt /\ finished g' = true
               /\ op_cancelled (guard_op g) = false /\ op_state (guard_op g) = Dispatching
               /\ op_state (guard_op g') = Completed
     | Err e => finished g' = finished g /\ guard_op g' = guard_op g
     end.
Proof.
  unfold complete. destruct (_ || _) eqn:E; [by intros [= <- <-]|].
  destruct (check_website g) as [g1 [[]|e]] eqn:Hw; apply check_website_frame in Hw as (W1 & W2 & W3 & W4 & _).
  2: { intros [= <- <-]. done. }
  destruct (check_remote g1) as [g2 [[]|e]] eqn:Hr; apply check_remote_frame in Hr as (R1 & R2 & R3 & _);
    unfold guard_op in *; rewrite <-R1 in W1, W2.
  2: { intros [= <- <-]. split_and!; congruence. }
  destruct (take_pending g2) as [g3 [pending|e]] eqn:Hp; apply take_pending_frame in Hp as (P1 & P2 & P3 & _);
    rewrite <-P1 in W1, W2.
  2: { intros [= <- <-]. split_and!; congruence. }
  intros Hc. apply commit_evidence_spec in Hc as (C1 & C2 & C3). unfold guard_op in *.
  rewrite <-W2, <-W1. split_and!; [done|congruence|].
  destruct r as [[]|e]; [by destruct C3 as (? & ? & ? & ? & ? & _)|].
  destruct C3 as (? & ? & _). split; congruence.
Qed.

Lemma guard_fail_spec (g : G) reason : let g' := guard_fail g reason in
  authority (shared g') = authority (shared g) /\ dispatched g' = dispatched g
  /\ finished g' = true
  /\ (finished g = true -> g' = g)
  /\ (finished g = false -> op_state (guard_op g')
       = if terminal (op_state (guard_op g)) then op_state (guard_op g) else failed_state (dispatched g) reason).
Proof.
  cbn zeta. unfold guard_fail. destruct (finished g) eqn:Hfin; [by split_and!|].
  set (g1 := release_exchanges g).
  assert (Hg1 : guard_op g1 = guard_op g /\ authority (shared g1) = authority (shared g) /\ dispatched g1 = dispatched g).
  { unfold g1, release_exchanges. by destruct (website g). }
  destruct Hg1 as (O1 & A1 & D1).
  destruct (transition (guard_op g1) _ None) as [o r] eqn:Ht.
  set (g2 := with_op g1 (cancel_token o)). assert (D2 : dispatched g2 = dispatched g) by done. rewrite D2.
  assert (Hg3 : forall g3 : G, shared g3 = shared g2 -> dispatched g3 = dispatched g2 ->
    let g4 := with_finished (finish_observation g3 false (Some reason)).1 in
    authority (shared g4) = authority (shared g) /\ dispatched g4 = dispatched g /\ finished g4 = true
    /\ (false = true -> g4 = g)
    /\ (false = false -> op_state (guard_op g4)
         = if terminal (op_state (guard_op g)) then op_state (guard_op g) else failed_state (dispatched g) reason)).
  { intros g3 S3 D3. destruct (finish_observation g3 _ _) as [g4 r4] eqn:Hf.
    apply finish_frame in Hf as (F1 & F2 & F3). cbn. unfold guard_op. cbn. rewrite F1, F3, S3, D3, D2. cbn.
    split_and!; try done. intros _. unfold transition in Ht. rewrite O1, D1 in Ht.
    change (op (shared g)) with (guard_op g). destruct (terminal (op_state (guard_op g))); simplify_eq/=; done. }
  destruct (dispatched g) eqn:Hd; [by apply Hg3|].
  destruct (record_both g2 _ _) as [g3 r3] eqn:Hr. unfold record_both in Hr.
  apply record_frame in Hr as (R1 & R2 & R3 & _). cbn [fst]. by apply Hg3.
Qed.

(** ** The invariant *)

(** The state says whether a dispatch was committed, and a finished guard has a
    finished operation. *)
Record honest (g : G) : Prop := {
  h_dispatched : dispatched g = true -> op_state (guard_op g) ∈ [Dispatching; Completed; OpOutcomeUnknown];
  h_prepared : dispatched g = false -> op_state (guard_op g) ∉ [Dispatching; OpOutcomeUnknown];
  h_finished : finished g = true -> terminal (op_state (guard_op g)) = true }.

Lemma cancelled_state o : op_state (op_cancel o)
  = if terminal (op_state o) then op_state o
    else if bool_decide (op_state o = Dispatching) then OpOutcomeUnknown else Cancelled.
Proof. unfold op_cancel. by destruct (terminal (op_state o)). Qed.

(** A step that keeps or cancels the operation keeps the guard honest. *)
Lemma honest_keep (g g' : G) : honest g -> dispatched g' = dispatched g ->
  guard_op g' = guard_op g \/ guard_op g' = op_cancel (guard_op g) ->
  (finished g' = true -> finished g = true) -> honest g'.
Proof.
  intros [H1' H2' H3'] Hd Ho Hf. destruct Ho as [Ho|Ho]; split; rewrite ?Hd, ?Ho, ?cancelled_state; auto;
    destruct (terminal (op_state (guard_op g))) eqn:Ht; auto.
  - intros He. specialize (H1' He). destruct (op_state (guard_op g)); try done; cbn; set_solver.
  - intros He. specialize (H2' He). case_bool_decide as Hb; [rewrite Hb in H2'; set_solver|set_solver].
  - intros _. by case_bool_decide.
Qed.

Lemma honest_move `{!ObserverLaws F} (g : G) m : honest g -> disciplined g m -> honest (do_move g m).
Proof.
  intros Hg Hm. destruct m as [os|ff| | |next code|es|d l|w b r| | |code|reason]; cbn [do_move].
  - apply (honest_keep g); [done|done| |done]. cbn. apply others_operation.
  - by apply (honest_keep g); [..|left|].
  - by apply (honest_keep g); [..|left|].
  - by apply (honest_keep g); [..|left|].
  - unfold transition. destruct (terminal _) eqn:Ht.
    { apply (honest_keep g); [done|done|by left|done]. }
    destruct Hg as [H1' H2' H3']. cbn in Hm. cbn [fst]. set (g1 := with_op g _).
    assert (Hst : op_state (guard_op g1) = next /\ dispatched g1 = dispatched g /\ finished g1 = finished g) by done.
    destruct Hst as (Hst & Hd1 & Hf1). split; rewrite ?Hst, ?Hd1, ?Hf1.
    + intros Hd. rewrite Hd in Hm. subst. set_solver.
    + intros Hd. rewrite Hd in Hm. set_solver.
    + intros Hf. specialize (H3' Hf). congruence.
  - destruct (record_many g es) as [g1 r] eqn:E. apply record_frame in E as (E1 & E2 & E3 & _). cbn.
    apply (honest_keep g); [done|done|left; unfold guard_op; by rewrite E1|congruence].
  - unfold content_both. destruct (content_views _ _ _ _) as [g1 r] eqn:E.
    apply content_frame in E as (E1 & E2 & E3). cbn.
    apply (honest_keep g); [done|done|left; unfold guard_op; by rewrite E1|congruence].
  - by apply (honest_keep g); [..|left|].
  - destruct (begin_dispatch g) as [g1 r] eqn:E. apply begin_dispatch_spec in E as (E1 & _ & E2). cbn.
    destruct r as [[]|e].
    + destruct E2 as (_ & Hr & _ & Ho & Hd). destruct Hg as [_ _ H3'].
      split; rewrite ?Hd, ?Ho; cbn; [set_solver|done|]. rewrite E1. intros Hf. specialize (H3' Hf).
      by rewrite Hr in H3'.
    + destruct E2 as [Hd Ho]. apply (honest_keep g); [done..|congruence].
  - destruct (complete g) as [g1 r] eqn:E. apply complete_spec in E as (_ & E1 & E2). cbn.
    destruct r as [[]|e].
    + destruct E2 as (_ & Hf & _ & Hs & Hc). destruct Hg as [_ H2' _].
      split; rewrite ?E1, ?Hc; cbn; [set_solver| |done].
      intros Hd. specialize (H2' Hd). rewrite Hs in H2'. set_solver.
    + destruct E2 as [Hf Ho]. apply (honest_keep g); [done|done|by left|congruence].
  - destruct (complete_local g code) as [g1 r] eqn:E. apply complete_local_spec in E as (_ & E1 & E2). cbn.
    destruct r as [[]|e].
    + destruct E2 as (_ & _ & _ & Hc & Hf). split; rewrite ?Hc; cbn; set_solver.
    + destruct E2 as [Hf Ho]. apply (honest_keep g); [done..|congruence].
  - destruct (guard_fail_spec g reason) as (_ & Hd & Hf & Hfin & Hs).
    destruct (finished g) eqn:E; [by rewrite Hfin|]. specialize (Hs eq_refl). destruct Hg as [H1' H2' _].
    split; rewrite ?Hd, ?Hs; destruct (terminal (op_state (guard_op g))) eqn:Ht; auto; unfold failed_state.
    + intros ->. set_solver.
    + intros ->. case_bool_decide; set_solver.
    + intros _. destruct (dispatched g); [done|]. by case_bool_decide.
Qed.

Lemma honest_life `{!ObserverLaws F} ms (g : G) : honest g -> lives g ms -> honest (life g ms).
Proof.
  revert g. induction ms as [|m ms IH]; intros g Hg Hl; [done|]. destruct Hl as [Hm Hl].
  apply IH; [by apply honest_move|done].
Qed.

Lemma guard_drop_spec (g : G) : honest g ->
  dispatched (guard_drop g) = dispatched g /\ finished (guard_drop g) = true
  /\ op_state (guard_op (guard_drop g))
     = if finished g then op_state (guard_op g) else op_state (op_cancel (guard_op g)).
Proof.
  intros Hg. unfold guard_drop. destruct (finished g) eqn:Hf; [done|].
  set (g1 := with_op g _). destruct (guard_fail_spec g1 (if dispatched g then OutcomeUnknown else RequestConflict))
    as (_ & Hd & Hfin & _ & Hs). rewrite Hs by done. rewrite Hd, Hfin. split_and!; [done|done|].
  change (guard_op g1) with (op_cancel (guard_op g)). by rewrite cancel_is_terminal.
Qed.

(** ** Authority *)

(** The authority only shrinks along a life. *)
Lemma move_check `{!ObserverLaws F} (g : G) m : Session_check (authority (shared g)) <> Ok tt ->
  Session_check (authority (shared (do_move g m))) <> Ok tt /\ dispatched (do_move g m) = dispatched g
  /\ (op_state (guard_op g) <> Completed -> disciplined g m -> op_state (guard_op (do_move g m)) <> Completed).
Proof.
  intros Hc. assert (Hcancel : forall o, op_state o <> Completed -> op_state (op_cancel o) <> Completed).
  { intros o Ho. rewrite cancelled_state. destruct (terminal _); [done|]. by case_bool_decide. }
  destruct m as [os|ff| | |next code|es|d l|w b r| | |code|reason]; cbn [do_move].
  - split; [by apply others_check|]. split; [done|]. intros Hn _. cbn.
    change (guard_op (with_shared g (others os (shared g)))) with (op (others os (shared g))).
    destruct (others_operation os (shared g)) as [->| ->]; [done|by apply Hcancel].
  - done.
  - done.
  - done.
  - split; [done|]. split; [done|]. unfold transition. destruct (terminal _); [done|]. cbn. intros _ Hm.
    unfold guard_op, op_state. cbn. destruct (dispatched g); [by subst|]. set_solver.
  - destruct (record_many g es) as [g1 r] eqn:E. apply record_frame in E as (E1 & E2 & E3 & _). cbn.
    unfold guard_op. by rewrite E1, E3.
  - unfold content_both. destruct (content_views _ _ _ _) as [g1 r] eqn:E.
    apply content_frame in E as (E1 & E2 & E3). cbn. unfold guard_op. by rewrite E1, E3.
  - done.
  - destruct (begin_dispatch g) as [g1 r] eqn:E. apply begin_dispatch_spec in E as (_ & Ha & E2). cbn.
    rewrite Ha. destruct r as [[]|e]; [by destruct E2|]. destruct E2 as [-> [-> | ->]]; auto.
  - destruct (complete g) as [g1 r] eqn:E. apply complete_spec in E as (Ha & E1 & E2). cbn. rewrite Ha, E1.
    destruct r as [[]|e]; [by destruct E2|]. by destruct E2 as [_ ->].
  - destruct (complete_local g code) as [g1 r] eqn:E. apply complete_local_spec in E as (Ha & E1 & E2). cbn.
    rewrite Ha, E1. destruct r as [[]|e]; [by destruct E2|]. destruct E2 as [_ [-> | ->]]; auto.
  - destruct (guard_fail_spec g reason) as (Ha & Hd & _ & Hfin & Hs). rewrite Ha, Hd. split_and!; [done..|].
    intros Hn _. destruct (finished g) eqn:E; [by rewrite Hfin|]. rewrite Hs by done.
    destruct (terminal _); [done|]. unfold failed_state. destruct (dispatched g); [done|]. by case_bool_decide.
Qed.

Lemma life_check `{!ObserverLaws F} ms (g : G) : Session_check (authority (shared g)) <> Ok tt -> lives g ms ->
  dispatched (life g ms) = dispatched g
  /\ (op_state (guard_op g) <> Completed -> op_state (guard_op (life g ms)) <> Completed).
Proof.
  revert g. induction ms as [|m ms IH]; intros g Hc Hl; [done|]. destruct Hl as [Hm Hl].
  destruct (move_check g m Hc) as (M1 & M2 & M3). destruct (IH _ M1 Hl) as [I1 I2].
  split; [by rewrite <-M2|]. intros Hn. apply I2, M3; done.
Qed.

(** A finished operation never changes. *)
Lemma move_terminal `{!ObserverLaws F} (g : G) m : terminal (op_state (guard_op g)) = true ->
  op_status (guard_op (do_move g m)) = op_status (guard_op g).
Proof.
  intros Ht. destruct m as [os|ff| | |next code|es|d l|w b r| | |code|reason]; cbn [do_move].
  - change (guard_op (with_shared g (others os (shared g)))) with (op (others os (shared g))).
    by rewrite others_terminal.
  - done.
  - done.
  - done.
  - by rewrite transition_terminal.
  - destruct (record_many g es) as [g1 r] eqn:E. apply record_frame in E as (E1 & _). cbn.
    unfold guard_op. by rewrite E1.
  - unfold content_both. destruct (content_views _ _ _ _) as [g1 r] eqn:E. apply content_frame in E as (E1 & _).
    cbn. unfold guard_op. by rewrite E1.
  - done.
  - destruct (begin_dispatch g) as [g1 r] eqn:E. apply begin_dispatch_spec in E as (_ & _ & E2). cbn.
    destruct r as [[]|e]; [destruct E2 as (_ & Hr & _); by rewrite Hr in Ht|].
    destruct E2 as [_ [-> | ->]]; [done|by rewrite cancel_terminal].
  - destruct (complete g) as [g1 r] eqn:E. apply complete_spec in E as (_ & _ & E2). cbn.
    destruct r as [[]|e]; [destruct E2 as (_ & _ & _ & Hr & _); by rewrite Hr in Ht|]. by destruct E2 as [_ ->].
  - destruct (complete_local g code) as [g1 r] eqn:E. apply complete_local_spec in E as (_ & _ & E2). cbn.
    destruct r as [[]|e]; [destruct E2 as (_ & Hr & _); congruence|].
    destruct E2 as [_ [-> | ->]]; [done|by rewrite cancel_terminal].
  - unfold guard_fail. destruct (finished g); [done|].
    assert (Hrel : guard_op (release_exchanges g) = guard_op g /\ dispatched (release_exchanges g) = dispatched g).
    { unfold release_exchanges. by destruct (website g). }
    destruct Hrel as [Ho Hd]. rewrite Ho, transition_terminal by done.
    set (g2 := with_op _ _). assert (H2 : op_status (guard_op g2) = op_status (guard_op g)) by done.
    assert (H3 : forall g3 : G, shared g3 = shared g2 ->
      op_status (guard_op (with_finished (finish_observation g3 false (Some reason)).1)) = op_status (guard_op g)).
    { intros g3 S3. destruct (finish_observation g3 _ _) as [g4 r4] eqn:Hf. apply finish_frame in Hf as (F1 & _).
      cbn. unfold guard_op in *. cbn. by rewrite F1, S3. }
    destruct (dispatched g2); [by apply H3|].
    destruct (record_both g2 _ _) as [g3 r3] eqn:Hr. apply record_frame in Hr as (R1 & _). by apply H3.
Qed.
End Lives.

(** ** The guarantees *)

(** A freshly tracked request. *)
Definition tracked {F R : Type} (a : Authority) (request : ExecuteRequest) (f : F) : Guard F R :=
  mkGuard (mkShared a (mkOperation request (mkStatus (request_id request) Received None) false) None)
    f (replicate 4 StreamState_default) false false false None None false.

Lemma tracked_honest {F R : Type} a request (f : F) : honest (tracked (R := R) a request f).
Proof. split; cbn; [done|set_solver|done]. Qed.

(** The state an operation ends in, from any life of its guard. *)
Lemma tracked_outcome `{Base64} {F : Type} `{Observer F} `{!ObserverLaws F} {R : Type} `{RemoteContext R}
    a request (f : F) (ms : list (Move F R)) :
  lives (tracked a request f) ms ->
  let g := life (tracked a request f) ms in
  let o := guard_op (guard_drop g) in
  terminal (op_state o) = true
  /\ (dispatched g = true -> op_state o = Completed \/ op_state o = OpOutcomeUnknown)
  /\ (dispatched g = false -> op_state o <> OpOutcomeUnknown).
Proof.
  intros Hl g o. assert (Hg : honest g) by (apply honest_life; [apply tracked_honest|done]).
  destruct (guard_drop_spec g Hg) as (Hd & _ & Hs). unfold o. rewrite Hs, cancelled_state.
  destruct Hg as [H1' H2' H3']. destruct (finished g).
  - specialize (H3' eq_refl). split; [done|]. split.
    + intros Hdis. specialize (H1' Hdis). destruct (op_state (guard_op g)); try done; set_solver.
    + intros Hdis Heq. apply (H2' Hdis). rewrite Heq. set_solver.
  - destruct (terminal (op_state (guard_op g))) eqn:Ht.
    + split; [done|]. split.
      * intros Hdis. specialize (H1' Hdis). destruct (op_state (guard_op g)); try done; set_solver.
      * intros Hdis Heq. apply (H2' Hdis). rewrite Heq. set_solver.
    + split; [by case_bool_decide|]. split.
      * intros Hdis. specialize (H1' Hdis). destruct (op_state (guard_op g)); try done; cbn; first [by right|set_solver].
      * intros Hdis. case_bool_decide as Hb; [|done]. destruct (H2' Hdis). rewrite Hb. set_solver.
Qed.

(** The outcome of a request is honest. However the pipeline's steps, the
    observer, cancellation, expiry, revocation, broker closure and the loss of its
    context interleave, when its guard is gone the operation is terminal; if its
    dispatch was ever committed, the operation is [Completed] or its outcome is
    reported unknown, never [Failed], [Denied], [Expired] or [Cancelled]; and if it
    was not, the outcome is never reported unknown. *)
Lemma honest_outcome `{Base64} {F : Type} `{Observer F} `{!ObserverLaws F} {R : Type} `{RemoteContext R}
    a request (f : F) (ms : list (Move F R)) :
  lives (tracked a request f) ms ->
  let g := life (tracked a request f) ms in
  let o := guard_op (guard_drop g) in
  terminal (op_state o) = true
  /\ (dispatched g = true -> op_state o = Completed \/ op_state o = OpOutcomeUnknown)
  /\ (dispatched g = false -> op_state o <> OpOutcomeUnknown).
Proof. apply tracked_outcome. Qed.

(** Authority that is gone stays gone. From the moment a session's authority does
    not hold (its broker closed, it was revoked or cancelled, or it expired), no
    later step of any of its requests commits a dispatch or a completion, whatever
    the steps and the other actors do. *)
Lemma authority_is_final `{Base64} {F : Type} `{Observer F} `{!ObserverLaws F} {R : Type} `{RemoteContext R}
    (g : Guard F R) (ms : list (Move F R)) :
  Session_check (authority (shared g)) <> Ok tt -> lives g ms ->
  dispatched (life g ms) = dispatched g
  /\ (op_state (guard_op g) <> Completed -> op_state (guard_op (life g ms)) <> Completed)
  /\ forall g', g' = life g ms -> is_err (begin_dispatch g').2 = true /\ is_err (complete g').2 = true
       /\ forall code, is_err (complete_local g' code).2 = true.
Proof.
  intros Hc Hl. destruct (life_check ms g Hc Hl) as [L1 L2]. split_and!; [done..|].
  intros g' ->.
  assert (Hc' : Session_check (authority (shared (life g ms))) <> Ok tt).
  { clear -Hc H1 Hl ObserverLaws0. revert g Hc Hl. induction ms as [|m ms IH]; intros g Hc Hl; [done|].
    destruct Hl as [Hm Hl]. apply IH; [by apply move_check|done]. }
  split_and!.
  - destruct (begin_dispatch _) as [g1 [[]|e]] eqn:E; [|done]. by apply begin_dispatch_spec in E as (_ & _ & ? & _).
  - destruct (complete _) as [g1 [[]|e]] eqn:E; [|done]. by apply complete_spec in E as (_ & _ & ? & _).
  - intros code. destruct (complete_local _ _) as [g1 [[]|e]] eqn:E; [|done].
    by apply complete_local_spec in E as (_ & _ & ? & _).
Qed.

(** a terminal status is final. Once a request's operation is terminal, its whole
    status, upstream code included, is the same after any further steps of the
    pipeline and of the other actors, and after the drop of its guard. *)
Lemma status_is_final `{Base64} {F : Type} `{Observer F} `{!ObserverLaws F} {R : Type} `{RemoteContext R}
    (g : Guard F R) (ms : list (Move F R)) :
  terminal (op_state (guard_op g)) = true ->
  op_status (guard_op (life g ms)) = op_status (guard_op g)
  /\ op_status (guard_op (guard_drop (life g ms))) = op_status (guard_op g).
Proof.
  intros Ht. assert (Hlife : op_status (guard_op (life g ms)) = op_status (guard_op g)).
  { revert g Ht. induction ms as [|m ms IH]; intros g Ht; [done|]. change (life g (m :: ms)) with (life (do_move g m) ms).
    pose proof (move_terminal g m Ht) as Hm. rewrite IH; [done|]. unfold op_state in *. by rewrite Hm. }
  split; [done|]. rewrite <-Hlife.
  assert (Ht' : terminal (op_state (guard_op (life g ms))) = true) by (unfold op_state in *; by rewrite Hlife).
  unfold guard_drop. destruct (finished (life g ms)); [done|]. rewrite cancel_terminal by done.
  set (g1 := with_op _ _).
  pose proof (move_terminal g1 (MFail (if dispatched (life g ms) then OutcomeUnknown else RequestConflict)) Ht') as Hm.
  exact Hm.
Qed.

(** Completion is one commit. A request completes exactly when, in one step, its
    session's authority holds, it is dispatched and not cancelled, the closing
    evidence is accepted, and the cookies, CSRF token and status its website
    exchange held become its context's; a completion that is refused changes
    neither the operation nor, unless the context expired, the context. *)
Lemma completion_atomic `{Base64} {F : Type} `{Observer F} `{!ObserverLaws F} {R : Type} `{RemoteContext R}
    (g g' : Guard F R) r :
  complete g = (g', r) ->
  match r with
  | Ok _ =>
      Session_check (authority (shared g)) = Ok tt
      /\ op_state (guard_op g) = Dispatching /\ op_cancelled (guard_op g) = false
      /\ op_state (guard_op g') = Completed
      /\ (exists (S : Type) (commit : S -> S * Result unit) s s',
            observe (guard_flow g) (closing_events (observed g) true None) commit s = (guard_flow g', s', Ok tt))
      /\ forall w b, website g = Some w -> binding (shared g) = Some b ->
           b_cancelled b = false /\ guard_now g < b_expires b
           /\ exists p y, held w = Some p /\ binding (shared g') = Some y
                /\ b_state y = mkBindingState (final_state w) (values (b_state b)) (rs_jar p) (rs_csrf p) (rs_template p)
  | Err _ =>
      guard_op g' = guard_op g
      /\ (binding (shared g') = binding (shared g)
          \/ exists b, binding (shared g) = Some b /\ b_expires b <= guard_now g
               /\ binding (shared g') = Some (invalidate b AuthExpired))
  end.
Proof.
  unfold complete. destruct (_ || _) eqn:E; [intros [= <- <-]; cbn; auto|]. bool_hyps.
  destruct (check_website g) as [g1 rw] eqn:Hw. pose proof (check_website_frame _ _ _ Hw) as (W1 & W2 & W3 & W4 & W5 & W6 & W7).
  assert (Hb : binding (shared g1) = binding (shared g)
    \/ exists b, binding (shared g) = Some b /\ b_expires b <= guard_now g
         /\ binding (shared g1) = Some (invalidate b AuthExpired) /\ is_err rw = true).
  { unfold check_website in Hw. destruct (website g), (binding (shared g)) as [b|] eqn:Hb; simplify_eq; auto.
    unfold Binding_check in Hw. destruct (_ && _) eqn:Hx; simplify_eq/=.
    - bool_hyps. right. by exists b.
    - left. by rewrite <-Hb. }
  destruct rw as [[]|e].
  2: { intros [= <- <-]. split; [done|]. destruct Hb as [Hb|(b & ? & ? & ? & _)]; [by left|right; by exists b]. }
  destruct Hb as [Hb|(b & _ & _ & _ & ?)]; [|done].
  destruct (check_remote g1) as [g2 [[]|e]] eqn:Hr; apply check_remote_frame in Hr as (R1 & R2 & R3 & R4 & R5 & R6).
  2: { intros [= <- <-]. unfold guard_op in *. rewrite R1. auto. }
  destruct (take_pending g2) as [g3 [pending|e]] eqn:Hp; pose proof (take_pending_frame _ _ _ Hp) as (P1 & P2 & P3 & P4 & P5).
  2: { intros [= <- <-]. unfold guard_op in *. rewrite P1, R1. auto. }
  assert (Hsh : shared g3 = shared g1) by congruence.
  intros Hc. apply commit_evidence_spec in Hc as (C1 & C2 & C3). unfold guard_op, guard_now in *.
  rewrite Hsh in *. destruct r as [[]|e].
  - destruct C3 as (D1 & D2 & D3 & D4 & D5 & (S & commit & s & s' & D6) & D7). split_and!; try congruence.
    + exists S, commit, s, s'. congruence.
    + intros w b Hw' Hb'. unfold take_pending in Hp. rewrite R4, W5, Hw' in Hp.
      destruct (held w) as [p|] eqn:Hh; simplify_eq/=.
      destruct (D7 b p (final_state w)) as (X1 & X2 & y & X3 & X4); [congruence|done|].
      rewrite W2 in X2. split_and!; [done|done|]. by exists p, y.
  - destruct C3 as (_ & D2 & D3). split; [congruence|]. left. congruence.
Qed.
