(* ===== verification/Endpoint.v ===== *)
(** * Authorities of raw connections ([aap-types/src/proxy.rs])

    [ConnectAuthority]: an explicit [host:port], and the standard library's textual
    addresses it is read with. *)
From stdpp Require Import pretty.
From S2P Require Import Prelude Protocol Address Profile.

(** ** Textual addresses: [std::net::parser] and [Display] *)

(** [Parser::read_number]: at most [width] digits, no leading zero if [strict], below
    [bound]; the value and what is left. *)
Fixpoint read_digits (digit : byte -> option Z) (radix : Z) (l : list byte) (n count : Z) : Z * Z * list byte :=
  match l with
  | [] => (n, count, [])
  | b :: rest =>
      match digit b with
      | Some d => read_digits digit radix rest (n * radix + d) (count + 1)
      | None => (n, count, l)
      end
  end.
Definition read_number (digit : byte -> option Z) (radix width bound : Z) (strict : bool) (l : list byte)
    : option (Z * list byte) :=
  let '(n, count, rest) := read_digits digit radix l 0 0 in
  if (count =? 0) || (width <? count) || (bound <=? n)
     || (strict && bool_decide (head l = Some "0"%char) && (1 <? count))
  then None else Some (n, rest).
Definition to_digit10 (b : byte) : option Z := if is_ascii_digit b then Some (byte_val b - 48) else None.
Definition read_char (c : byte) (l : list byte) : option (list byte) :=
  match l with b :: rest => if bool_decide (b = c) then Some rest else None | [] => None end.

(** [Parser::read_ipv4_addr]. *)
Definition read_octet : list byte -> option (Z * list byte) := read_number to_digit10 10 3 256 true.
Definition read_ipv4 (l : list byte) : option ((Z * Z * Z * Z) * list byte) :=
  '(a, l) ← read_octet l; l ← read_char "." l;
  '(b, l) ← read_octet l; l ← read_char "." l;
  '(c, l) ← read_octet l; l ← read_char "." l;
  '(d, l) ← read_octet l;
  Some ((a, b, c, d), l).

(** [Parser::read_ipv6_addr] (the groups): [first] is whether no separator is due,
    [n] the groups left; the groups, whether they end in an IPv4 address. *)
Fixpoint read_groups (n : nat) (first : bool) (l : list byte) : list Z * bool * list byte :=
  match n with
  | O => ([], false, l)
  | S n' =>
      let due := if first then Some l else read_char ":" l in
      match (if (n' =? 0)%nat then None else l ← due; read_ipv4 l) with
      | Some ((a, b, c, d), rest) => ([a * 256 + b; c * 256 + d], true, rest)
      | None =>
          match (l ← due; read_number to_digit16 16 4 65536 false l) with
          | Some (g, rest) => let '(gs, v4, rest) := read_groups n' false rest in (g :: gs, v4, rest)
          | None => ([], false, l)
          end
      end
  end.
Definition segments (gs : list Z) : option IpAddr :=
  match gs with
  | [a; b; c; d; e; f; g; h] => Some (V6 a b c d e f g h)
  | _ => None
  end.
(** [Parser::read_ipv6_addr]. *)
Definition read_ipv6 (l : list byte) : option (IpAddr * list byte) :=
  let '(hs, v4, l) := read_groups 8 true l in
  if (length hs =? 8)%nat then ip ← segments hs; Some (ip, l)
  else if v4 then None
  else
    l ← read_char ":" l; l ← read_char ":" l;
    let '(ts, _, l) := read_groups (7 - length hs) true l in
    ip ← segments (hs ++ replicate (8 - length hs - length ts) 0 ++ ts);
    Some (ip, l).

(** [Parser::parse_with]: the whole text. *)
Definition whole {A} (r : option (A * list byte)) : option A :=
  match r with Some (x, []) => Some x | _ => None end.
(** [Ipv4Addr::from_str], [Ipv6Addr::from_str], [IpAddr::from_str]. *)
Definition Ipv4_parse (s : string) : option IpAddr :=
  if 15 <? slen s then None else '(a, b, c, d) ← whole (read_ipv4 (as_bytes s)); Some (V4 a b c d).
Definition Ipv6_parse (s : string) : option IpAddr := whole (read_ipv6 (as_bytes s)).
Definition IpAddr_parse (s : string) : option IpAddr :=
  match whole (read_ipv4 (as_bytes s)) with
  | Some (a, b, c, d) => Some (V4 a b c d)
  | None => Ipv6_parse s
  end.

(** [Display] of integers: decimal, and [{:x}]. *)
Definition decimal (z : Z) : string := pretty z.
Definition hex_symbol (z : Z) : byte := nth (Z.to_nat z) (as_bytes "0123456789abcdef") "0"%char.
Definition hex_text (z : Z) : string :=
  let ds := map hex_symbol [z / 4096; z / 256 mod 16; z / 16 mod 16; z mod 16] in
  from_bytes (if z <? 16 then drop 3 ds else if z <? 256 then drop 2 ds else if z <? 4096 then drop 1 ds else ds).

(** [Display for Ipv6Addr]: the first longest run of zeros, of two or more. *)
Fixpoint zero_run (gs : list Z) : nat :=
  match gs with g :: gs => if g =? 0 then S (zero_run gs) else 0%nat | [] => 0%nat end.
Fixpoint longest_zeros (i : nat) (gs : list Z) : nat * nat :=
  match gs with
  | [] => (0, 0)%nat
  | _ :: rest =>
      let here := zero_run gs in
      let (start, n) := longest_zeros (S i) rest in
      if (n <=? here)%nat then (i, here) else (start, n)
  end.
Fixpoint colon_separated (gs : list Z) : string :=
  match gs with
  | [] => EmptyString
  | [g] => hex_text g
  | g :: gs => hex_text g +:+ ":" +:+ colon_separated gs
  end.
Definition dotted (a b c d : Z) : string :=
  decimal a +:+ "." +:+ decimal b +:+ "." +:+ decimal c +:+ "." +:+ decimal d.
Definition IpAddr_to_string (ip : IpAddr) : string :=
  match ip with
  | V4 a b c d => dotted a b c d
  | V6 a b c d e f g h =>
      if bool_decide ([a; b; c; d; e; f] = [0; 0; 0; 0; 0; 65535])
      then "::ffff:" +:+ dotted (g / 256) (g mod 256) (h / 256) (h mod 256)
      else
        let gs := [a; b; c; d; e; f; g; h] in
        let (start, n) := longest_zeros 0 gs in
        if (1 <? n)%nat
        then colon_separated (take start gs) +:+ "::" +:+ colon_separated (drop (start + n) gs)
        else colon_separated gs
  end.

(** [u16::from_str]. *)
Definition u16_parse (s : string) : option Z :=
  let l := as_bytes s in
  let l := match l with b :: (_ :: _) as r => if bool_decide (b = "+"%char) then drop 1 l else l | _ => l end in
  n ← whole (Some (read_digits to_digit10 10 l 0 0));
  if (n.2 =? 0) || (65535 <? n.1) then None else Some n.1.

(** ** ConnectAuthority *)

(** `aap-types/src/proxy.rs:6-9`, `ConnectAuthority` *)
Record ConnectAuthority := mkConnect { connect_host : string; connect_port : Z }.

(** [str.rsplit_once(c)], [str.split(c)]. *)
Fixpoint rsplit_once (c : byte) (l : list byte) : option (list byte * list byte) :=
  match l with
  | [] => None
  | b :: rest =>
      match rsplit_once c rest with
      | Some (x, y) => Some (b :: x, y)
      | None => if bool_decide (b = c) then Some ([], rest) else None
      end
  end.
Fixpoint split (c : byte) (l : list byte) : list (list byte) :=
  match l with
  | [] => [[]]
  | b :: rest =>
      if bool_decide (b = c) then [] :: split c rest
      else match split c rest with x :: xs => (b :: x) :: xs | [] => [[b]] end
  end.

(** `aap-types/src/proxy.rs:32-49`, `ConnectAuthority::parse` (a host name) *)
Definition bad_label (l : list byte) : bool :=
  bool_decide (l = []) || (63 <? len l)
  || bool_decide (head l = Some "-"%char) || bool_decide (last l = Some "-"%char)
  || negb (forallb (fun b => is_ascii_alphanumeric b || bool_decide (b = "-"%char)) l).
Definition bad_host (host : list byte) : bool :=
  bool_decide (host = []) || (253 <? len host)
  || match last (split "." host) with None => true | Some label => forallb is_ascii_digit label end
  || existsb bad_label (split "." host).

(** `aap-types/src/proxy.rs:21-51`, `ConnectAuthority::parse` (the host) *)
Definition parse_host (host : list byte) : Result string :=
  if bool_decide (head host = Some "["%char) && bool_decide (last host = Some "]"%char) then
    ip ← ok_or (Ipv6_parse (from_bytes (take (length host - 2) (drop 1 host)))) (Error_new RequestInvalid);
    Ok (IpAddr_to_string ip)
  else
    match Ipv4_parse (from_bytes host) with
    | Some ip =>
        if negb (bool_decide (IpAddr_to_string ip = from_bytes host)) then fail RequestInvalid
        else Ok (IpAddr_to_string ip)
    | None => if bad_host host then fail RequestInvalid else Ok (str_to_ascii_lowercase (from_bytes host))
    end.

(** `aap-types/src/proxy.rs:11-56`, `ConnectAuthority::parse` *)
Definition ConnectAuthority_parse (authority : string) : Result ConnectAuthority :=
  if (512 <? slen authority) || negb (str_is_ascii authority) then fail RequestInvalid
  else
    '(host, port) ← ok_or (rsplit_once ":" (as_bytes authority)) (Error_new RequestInvalid);
    parsed_port ← ok_or (u16_parse (from_bytes port)) (Error_new RequestInvalid);
    if (parsed_port =? 0) || negb (bool_decide (decimal parsed_port = from_bytes port)) then fail RequestInvalid
    else host ← parse_host host; Ok (mkConnect host parsed_port).

(** `aap-types/src/proxy.rs:73-79`, `ConnectAuthority::uri_host` *)
Definition uri_host (c : ConnectAuthority) : string :=
  if contains_char (connect_host c) ":" then "[" +:+ connect_host c +:+ "]" else connect_host c.
(** `aap-types/src/proxy.rs:63-65`, `ConnectAuthority::authority` *)
Definition authority_text (c : ConnectAuthority) : string := uri_host c +:+ ":" +:+ decimal (connect_port c).
(** `aap-types/src/proxy.rs:66-72`, `ConnectAuthority::origin` *)
Definition connect_origin (c : ConnectAuthority) : string :=
  if connect_port c =? 443 then "https://" +:+ uri_host c else "https://" +:+ authority_text c.

(** ** Checks against the tests of the source *)

Definition parsed (s : string) : option (string * Z * string * string) :=
  c ← ok (ConnectAuthority_parse s); Some (connect_host c, connect_port c, authority_text c, connect_origin c).
Example parse_name : parsed "Example.Test:443" = Some ("example.test", 443, "example.test:443", "https://example.test").
Proof. vm_compute. reflexivity. Qed.
Example parse_v4 : parsed "127.0.0.1:8443" = Some ("127.0.0.1", 8443, "127.0.0.1:8443", "https://127.0.0.1:8443").
Proof. vm_compute. reflexivity. Qed.
Example parse_v6 : parsed "[::1]:443" = Some ("::1", 443, "[::1]:443", "https://[::1]").
Proof. vm_compute. reflexivity. Qed.
Example parse_refuses : forallb (fun s => match parsed s with None => true | Some _ => false end)
  ["example.test"; "example.test:"; "example.test:0"; "example.test:0443"; "example.test:65536";
   "https://example.test:443"; "example.test:443/path"; "user@example.test:443"; "example.test.:443";
   "*.example.test:443"; "example..test:443"; "-example.test:443"; "127.1:443"; "2130706433:443";
   "[fe80::1%eth0]:443"; "::1:443"; "[::1]:+443"] = true.
Proof. vm_compute. reflexivity. Qed.
Example parse_v6_forms : map (fun s => IpAddr_to_string <$> Ipv6_parse s)
  ["1:0:0:2:0:0:0:3"; "::ffff:1.2.3.4"; "2001:DB8::"; "0:0:1:0:0:1:0:0"; "::1.2.3.4"; "1::2::3"; "1:2:3:4:5:6:7::"]
  = [Some "1:0:0:2::3"; Some "::ffff:1.2.3.4"; Some "2001:db8::"; Some "::1:0:0:1:0:0"; Some "::102:304"; None; Some "1:2:3:4:5:6:7:0"].
Proof. vm_compute. reflexivity. Qed.
