(* ===== verification/TcpPolicy.v ===== *)
(** * Raw connection policy ([aap-policy/src/tcp.rs])

    Enrollment of credential-free TCP endpoints, kept apart from inspected HTTPS, and
    the admission of the one address that is dialled. *)
From S2P Require Import Prelude Protocol Json Tools Address Catalog Profile Endpoint.
From S2P Require Stream.

(** ** Data *)

(** `aap-policy/src/tcp.rs:28-38`, `TcpLimits` *)
Record TcpLimits := mkTcpLimits {
  tcp_max_data_bytes : Z; tcp_send_limit : Z; tcp_receive_limit : Z; tcp_idle_timeout_ms : Z;
  tcp_lifetime_ms : Z; max_active_streams : Z }.

(** `aap-policy/src/tcp.rs:40-51`, `TcpLimits::default` *)
Definition TcpLimits_default : TcpLimits :=
  mkTcpLimits Stream.MAX_DATA_BYTES Stream.MAX_DIRECTION_BYTES Stream.MAX_DIRECTION_BYTES
    Stream.MAX_IDLE_MS Stream.MAX_LIFETIME_MS 8.

(** `aap-policy/src/tcp.rs:12-26`, `TcpProfile` *)
Record TcpProfile := mkTcpProfile {
  tcp_id : string; endpoint : string; tcp_addresses : AddressPolicy; tcp_limits : TcpLimits;
  tcp_inspection : Stream.Inspection; tcp_require_approval : bool; tcp_require_observation : bool }.

(** [std::net::SocketAddr]: the flow information and scope of an IPv4 address are 0. *)
Record NetAddr := mkNetAddr { c_ip : IpAddr; c_port : Z; c_flowinfo : Z; c_scope : Z }.

(** ** Operations *)

(** `aap-policy/src/tcp.rs:53-76`, `TcpProfile::validate` (the limits) *)
Definition limits_invalid (l : TcpLimits) : bool :=
  (tcp_max_data_bytes l =? 0)
  || (Stream.MAX_DATA_BYTES <? tcp_max_data_bytes l)
  || (tcp_send_limit l =? 0)
  || (Stream.MAX_DIRECTION_BYTES <? tcp_send_limit l)
  || (tcp_receive_limit l =? 0)
  || (Stream.MAX_DIRECTION_BYTES <? tcp_receive_limit l)
  || (tcp_idle_timeout_ms l =? 0)
  || (Stream.MAX_IDLE_MS <? tcp_idle_timeout_ms l)
  || (tcp_lifetime_ms l =? 0)
  || (Stream.MAX_LIFETIME_MS <? tcp_lifetime_ms l)
  || (max_active_streams l =? 0)
  || (8 <? max_active_streams l).

(** `aap-policy/src/tcp.rs:53-93`, `TcpProfile::validate` *)
Definition tcp_validate (p : TcpProfile) : Result unit :=
  e ← ConnectAuthority_parse (endpoint p);
  if negb (valid_alias (tcp_id p)) || negb (bool_decide (authority_text e = endpoint p)) || limits_invalid (tcp_limits p)
  then fail RequestInvalid
  else
    _ ← match tcp_addresses p with
        | Pinned pins => if valid_pins pins then Ok tt else fail RequestInvalid
        | Public => Ok tt
        end;
    match IpAddr_parse (connect_host e) with
    | Some literal => if permits_all (tcp_addresses p) [literal] then Ok tt else fail RequestInvalid
    | None => Ok tt
    end.

(** `aap-policy/src/tcp.rs:99-104`, `TcpProfile::admit_addresses` (a candidate that
    cannot be dialled) *)
Definition candidate_refused (port : Z) (literal : option IpAddr) (c : NetAddr) : bool :=
  negb (c_port c =? port)
  || match literal with Some ip => negb (bool_decide (ip = c_ip c)) | None => false end
  || match c_ip c with
     | V6 _ _ _ _ _ _ _ _ => negb (c_scope c =? 0) || negb (c_flowinfo c =? 0)
     | V4 _ _ _ _ => false
     end.

(** `aap-policy/src/tcp.rs:95-113`, `TcpProfile::admit_addresses` *)
Definition tcp_admit_addresses (p : TcpProfile) (candidates : list NetAddr) : Result NetAddr :=
  _ ← tcp_validate p;
  e ← ConnectAuthority_parse (endpoint p);
  let literal := IpAddr_parse (connect_host e) in
  if (64 <? len candidates)
     || existsb (candidate_refused (connect_port e) literal) candidates
     || negb (permits_all (tcp_addresses p) (map c_ip candidates))
  then fail PolicyDenied
  else match candidates with c :: _ => Ok c | [] => fail PolicyDenied end.

Section Profiles.
Context `{Urls}.

(** `aap-policy/src/tcp.rs:121-133`, `validate_tcp_profiles` (the inspected profiles) *)
Fixpoint check_inspected (http : list ResourceProfile) (aliases inspected : list string)
    : Result (list string * list string) :=
  match http with
  | [] => Ok (aliases, inspected)
  | p :: http =>
      t ← Target_parse (profile_origin p);
      if negb (valid_alias (profile_id p)) || bool_decide (profile_id p ∈ aliases)
         || negb (bool_decide (origin t = profile_origin p))
      then fail RequestInvalid
      else check_inspected http (profile_id p :: aliases) (origin t :: inspected)
  end.

(** `aap-policy/src/tcp.rs:134-146`, `validate_tcp_profiles` (the raw endpoints) *)
Fixpoint check_endpoints (tcp : list TcpProfile) (aliases inspected endpoints : list string) : Result unit :=
  match tcp with
  | [] => Ok tt
  | p :: tcp =>
      _ ← tcp_validate p;
      e ← ConnectAuthority_parse (endpoint p);
      if bool_decide (tcp_id p ∈ aliases) || bool_decide (endpoint p ∈ endpoints)
         || bool_decide (connect_origin e ∈ inspected)
      then fail RequestInvalid
      else check_endpoints tcp (tcp_id p :: aliases) inspected (endpoint p :: endpoints)
  end.

(** `aap-policy/src/tcp.rs:116-148`, `validate_tcp_profiles` *)
Definition validate_tcp_profiles (tcp : list TcpProfile) (http : list ResourceProfile) : Result unit :=
  if 256 <? saturating_add (len tcp) (len http) then fail LimitExceeded
  else
    '(aliases, inspected) ← check_inspected http [] [];
    check_endpoints tcp aliases inspected [].

(** ** What validation guarantees *)

Lemma check_inspected_Ok http aliases inspected aliases' inspected' :
  check_inspected http aliases inspected = Ok (aliases', inspected') -> NoDup aliases ->
  (forall p, p ∈ http -> exists t, Target_parse (profile_origin p) = Ok t /\ origin t = profile_origin p)
  /\ NoDup aliases' /\ NoDup (map profile_id http) /\ (forall p, p ∈ http -> profile_id p ∉ aliases)
  /\ (forall a, a ∈ aliases' <-> a ∈ aliases \/ a ∈ map profile_id http)
  /\ (forall o, o ∈ inspected' <-> o ∈ inspected \/ o ∈ map profile_origin http).
Proof.
  revert aliases inspected. induction http as [|p http IH]; intros aliases inspected Hc Hn; cbn [check_inspected] in Hc.
  { simplify_eq. split_and!; [set_solver|done|constructor|set_solver..]. }
  apply bind_Ok in Hc as (t & Ht & Hc). destruct (_ || _) eqn:Hb; [done|]. bool_hyps.
  apply IH in Hc as (K0 & K1 & K2 & K3 & K4 & K5); [|by constructor].
  split_and!; [|done| | |cbn [map]; set_solver..].
  - intros q [->|Hq]%elem_of_cons; [by exists t|by apply K0].
  - cbn [map]. constructor; [|done]. rewrite list_elem_of_fmap. intros (q & Hq & Hin). apply K3 in Hin. set_solver.
  - intros q [->|Hq]%elem_of_cons; [done|]. apply K3 in Hq. set_solver.
Qed.

(** An enrolled endpoint: canonical, limited, with admissible pins. *)
Record valid_endpoint (p : TcpProfile) (c : ConnectAuthority) : Prop := {
  ve_parse : ConnectAuthority_parse (endpoint p) = Ok c;
  ve_canonical : authority_text c = endpoint p;
  ve_alias : valid_alias (tcp_id p) = true;
  ve_limits : limits_invalid (tcp_limits p) = false;
  ve_pins : forall pins, tcp_addresses p = Pinned pins -> valid_pins pins = true;
  ve_literal : forall ip, IpAddr_parse (connect_host c) = Some ip -> permits_all (tcp_addresses p) [ip] = true }.

Lemma tcp_validate_Ok p : tcp_validate p = Ok tt <-> exists c, valid_endpoint p c.
Proof.
  unfold tcp_validate. split.
  - intros Hv. apply bind_Ok in Hv as (c & Hc & Hv). destruct (_ || _) eqn:Hb; [done|]. bool_hyps.
    apply bind_Ok in Hv as ([] & Hp & Hv). exists c. constructor; try done.
    + intros pins Hpins. rewrite Hpins in Hp. by destruct (valid_pins pins).
    + intros ip Hip. rewrite Hip in Hv. by destruct (permits_all _ _).
  - intros (c & [E1 E2 E3 E4 E5 E6]). rewrite E1. cbn [mbind result_bind].
    rewrite E3, bool_decide_eq_true_2, E4 by done. cbn [negb orb].
    destruct (tcp_addresses p) as [|pins]; [|rewrite (E5 pins eq_refl)]; cbn [mbind result_bind];
      (destruct (IpAddr_parse _) as [ip|]; [by rewrite (E6 ip eq_refl)|done]).
Qed.

Lemma check_endpoints_Ok tcp aliases inspected endpoints :
  check_endpoints tcp aliases inspected endpoints = Ok tt ->
  Forall (fun p => exists c, valid_endpoint p c /\ connect_origin c ∉ inspected) tcp
  /\ NoDup (map tcp_id tcp) /\ (forall p, p ∈ tcp -> tcp_id p ∉ aliases)
  /\ NoDup (map endpoint tcp) /\ (forall p, p ∈ tcp -> endpoint p ∉ endpoints).
Proof.
  revert aliases endpoints. induction tcp as [|p tcp IH]; intros aliases endpoints Hc; cbn [check_endpoints] in Hc.
  { split_and!; [constructor..|set_solver|constructor|set_solver]. }
  apply bind_Ok in Hc as ([] & Hv & Hc). apply bind_Ok in Hc as (e & He & Hc).
  destruct (_ || _) eqn:Hb; [done|]. bool_hyps. apply IH in Hc as (K1 & K2 & K3 & K4 & K5).
  split_and!; cbn [map].
  - constructor; [|done]. apply tcp_validate_Ok in Hv as (c & Hv). exists c. split; [done|].
    pose proof (ve_parse _ _ Hv) as Hp. rewrite He in Hp. by injection Hp as <-.
  - constructor; [|done]. rewrite list_elem_of_fmap. intros (q & Hq & Hin). apply K3 in Hin. set_solver.
  - intros q [->|Hq]%elem_of_cons; [done|]. apply K3 in Hq. set_solver.
  - constructor; [|done]. rewrite list_elem_of_fmap. intros (q & Hq & Hin). apply K5 in Hin. set_solver.
  - intros q [->|Hq]%elem_of_cons; [done|]. apply K5 in Hq. set_solver.
Qed.

(** *** Where a connection goes *)

(** An IPv4-mapped IPv6 address. *)
Definition ipv4_mapped (ip : IpAddr) : bool :=
  match ip with
  | V6 a b c d e f _ _ => bool_decide ([a; b; c; d; e; f] = [0; 0; 0; 0; 0; 65535])
  | V4 _ _ _ _ => false
  end.

(** What the policy relies on of the [url] crate: the origin of an [https] URL is its host
    and, when it is not the default one, its port; and [url_text], the host it shows for
    an address, is the standard library's text of it (in brackets for IPv6), except for
    IPv4-mapped addresses, which only the standard library shows in dotted form. *)
Definition https_origins : Prop := forall s u host port,
  str_starts_with s "https://" = true -> Url_parse s = Some u -> host_str u = Some host -> url_port u = Some port ->
  url_origin u = "https://" +:+ host +:+ (if port =? 443 then EmptyString else ":" +:+ decimal port).
Definition url_addresses (url_text : IpAddr -> string) : Prop := forall ip,
  ipv4_mapped ip = false -> url_text ip = uri_host (mkConnect (IpAddr_to_string ip) 0).

(** The host and port of a raw endpoint are those of an inspected origin: the same port,
    and the same host, in the same text or as the same address. *)
Definition same_place (url_text : IpAddr -> string) (c : ConnectAuthority) (t : Target) : Prop :=
  url_port (url t) = Some (connect_port c)
  /\ (host_str (url t) = Some (uri_host c)
      \/ exists ip, ipv4_mapped ip = false /\ connect_host c = IpAddr_to_string ip /\ host_str (url t) = Some (url_text ip)).

Lemma same_place_origin url_text c s t : https_origins -> url_addresses url_text -> Target_parse s = Ok t ->
  same_place url_text c t -> origin t = connect_origin c.
Proof.
  intros Ho Ha Ht [Hp Hh]. assert (Hhost : host_str (url t) = Some (uri_host c)).
  { destruct Hh as [?|(ip & Hm & Hc & Hu)]; [done|]. rewrite Hu, Ha by done. unfold uri_host. cbn. by rewrite Hc. }
  unfold Target_parse in Ht. destruct (_ || _) eqn:Hb; [done|]. bool_hyps.
  apply bind_Ok in Ht as (uri & _ & Ht). apply bind_Ok in Ht as (auth & _ & Ht).
  apply bind_Ok in Ht as (u & Hu & Ht). apply bind_Ok in Ht as (host & _ & Ht).
  destruct (_ || _); [done|]. cbv zeta in Ht. destruct (_ || _); [done|]. injection Ht as <-. cbn in *.
  destruct (Url_parse s) as [u'|] eqn:Hurl; [|done]. injection Hu as ->.
  assert (Hs : str_starts_with s "https://" = true) by by match goal with H : _ = true |- _ => apply H end.
  unfold origin. cbn. rewrite (Ho _ _ _ _ Hs Hurl Hhost Hp). unfold connect_origin, authority_text.
  destruct (connect_port c =? 443); [|done]. assert (Hnil : forall x : string, x +:+ EmptyString = x).
  { induction x as [|b x IH]; [done|]. change (String b (x +:+ EmptyString) = String b x). by rewrite IH. }
  by rewrite Hnil.
Qed.
End Profiles.

(** C39: raw connections and inspected HTTPS do not overlap, with one exception. When the
    TCP profiles are accepted beside the HTTPS ones, all aliases are pairwise different,
    every raw endpoint is canonical, limited and allowed by its own address policy, no two
    raw profiles name the same host and port, and no raw endpoint is the host and port of
    an inspected origin, be it in the same text or as the same address. The exception are
    IPv4-mapped IPv6 addresses: the two sides write them differently and only texts are
    compared, so that such an overlap is accepted ([mapped_overlap_accepted]). Of the
    [url] crate this takes how it writes the origin of an [https] URL and the host of
    other addresses. *)
Theorem tcp_isolation `{Urls} url_text tcp http : https_origins -> url_addresses url_text ->
  validate_tcp_profiles tcp http = Ok tt ->
  len tcp + len http <= 256 /\ NoDup (map tcp_id tcp ++ map profile_id http)
  /\ Forall (fun p => exists c, valid_endpoint p c
       /\ forall q, q ∈ http -> connect_origin c <> profile_origin q
            /\ exists t, Target_parse (profile_origin q) = Ok t /\ ~ same_place url_text c t) tcp
  /\ forall i j p q c, tcp !! i = Some p -> tcp !! j = Some q ->
       ConnectAuthority_parse (endpoint p) = Ok c -> ConnectAuthority_parse (endpoint q) = Ok c -> i = j.
Proof.
  unfold validate_tcp_profiles. intros Ho Ha Hv. destruct (_ <? _) eqn:Hl; [done|]. apply Z.ltb_ge in Hl.
  apply bind_Ok in Hv as ([aliases inspected] & Hi & Hv).
  apply check_inspected_Ok in Hi as (I0 & _ & I4 & _ & I2 & I3); [|constructor].
  apply check_endpoints_Ok in Hv as (E1 & E2 & E3 & E4 & E5). split_and!.
  - unfold saturating_add, u64_max in Hl. lia.
  - apply NoDup_app. split_and!; [done| |].
    + intros a Hin' Hin. apply list_elem_of_fmap in Hin' as (p & -> & Hp). apply (E3 p Hp). set_solver.
    + exact I4.
  - eapply Forall_impl; [exact E1|]. intros p (c & Hc & Hn). exists c. split; [done|]. intros q Hq.
    assert (Hne : connect_origin c <> profile_origin q).
    { intros Heq. apply Hn, I3. right. apply list_elem_of_fmap. by exists q. }
    split; [done|]. destruct (I0 q Hq) as (t & Ht & Hot). exists t. split; [done|]. intros Hs.
    apply Hne. rewrite <-Hot. symmetry. by apply (same_place_origin url_text c (profile_origin q)).
  - intros i j p q c Hp Hq Hcp Hcq.
    pose proof (Forall_lookup_1 _ _ _ _ E1 Hp) as (c1 & [A1 B1 _ _ _ _] & _).
    pose proof (Forall_lookup_1 _ _ _ _ E1 Hq) as (c2 & [A2 B2 _ _ _ _] & _).
    rewrite Hcp in A1. rewrite Hcq in A2. injection A1 as <-. injection A2 as <-.
    eapply NoDup_lookup; [exact E4|rewrite list_lookup_fmap, Hp; cbn; by rewrite <-B1|rewrite list_lookup_fmap, Hq; cbn; by rewrite <-B2].
Qed.

(** the one address that is dialled is the first of a resolver answer that is
    admissible as a whole: exactly when the profile is valid and the answer has between
    one and 64 candidates, each with the endpoint's port, the endpoint's address when it
    is a literal, no IPv6 scope or flow label, and allowed by the address policy. *)
Lemma dial_admitted p candidates a : tcp_admit_addresses p candidates = Ok a <->
  exists c rest, valid_endpoint p c /\ candidates = a :: rest /\ len candidates <= 64
    /\ permits_all (tcp_addresses p) (map c_ip candidates) = true
    /\ Forall (fun x => c_port x = connect_port c
         /\ (forall ip, IpAddr_parse (connect_host c) = Some ip -> c_ip x = ip)
         /\ (forall s0 s1 s2 s3 s4 s5 s6 s7, c_ip x = V6 s0 s1 s2 s3 s4 s5 s6 s7 -> c_scope x = 0 /\ c_flowinfo x = 0))
         candidates.
Proof.
  assert (Hx : forall port literal x, candidate_refused port literal x = false <->
    c_port x = port /\ (forall ip, literal = Some ip -> c_ip x = ip)
    /\ (forall s0 s1 s2 s3 s4 s5 s6 s7, c_ip x = V6 s0 s1 s2 s3 s4 s5 s6 s7 -> c_scope x = 0 /\ c_flowinfo x = 0)).
  { intros port literal x. unfold candidate_refused. rewrite !orb_false_iff, negb_false_iff, Z.eqb_eq. split.
    - intros [[E1 E2] E3]. split_and!; [done| |].
      + intros ip ->. by bool_hyps.
      + intros * Hip. rewrite Hip in E3. by bool_hyps.
    - intros (E1 & E2 & E3). split_and!; [done| |].
      + destruct literal as [ip|]; [|done]. by rewrite bool_decide_eq_true_2 by (symmetry; auto).
      + destruct (c_ip x) eqn:Hip; [done|]. by destruct (E3 _ _ _ _ _ _ _ _ eq_refl) as [-> ->]. }
  unfold tcp_admit_addresses. split.
  - intros Ha. apply bind_Ok in Ha as ([] & Hv & Ha). apply tcp_validate_Ok in Hv as (c & Hc).
    rewrite (ve_parse _ _ Hc) in Ha. cbn [mbind result_bind] in Ha. destruct (_ || _) eqn:Hb; [done|]. bool_hyps.
    destruct candidates as [|x rest]; [done|]. injection Ha as ->. exists c, rest. split_and!; try done.
    match goal with HE : existsb _ _ = false |- _ => apply existsb_false in HE; eapply Forall_impl; [exact HE|] end.
    intros y. apply Hx.
  - intros (c & rest & Hc & -> & Hl & Hp & Hf).
    rewrite (proj2 (tcp_validate_Ok p)) by by exists c. cbn [mbind result_bind].
    rewrite (ve_parse _ _ Hc). cbn [mbind result_bind]. rewrite (proj2 (Z.ltb_ge _ _) Hl), Hp.
    rewrite (proj2 (existsb_false _ _)); [done|]. eapply Forall_impl; [exact Hf|]. intros y. apply Hx.
Qed.

(** A resolver answer that may be dialled: between one and 64 candidates, its first the
    one chosen, and each of them at the endpoint's port, at the endpoint's address when
    that is a literal, without IPv6 scope or flow label, and a public unicast address or
    one of the enrolled pins. *)
Definition allowed_address (p : AddressPolicy) (ip : IpAddr) : Prop :=
  match p with Public => wf_addr ip -> public_unicast ip | Pinned pins => ip ∈ pins end.
Record dial_answer (p : TcpProfile) (c : ConnectAuthority) (found : list NetAddr) (address : NetAddr) : Prop := {
  da_endpoint : valid_endpoint p c;
  da_first : head found = Some address;
  da_bound : len found <= 64;
  da_each : Forall (fun x => allowed_address (tcp_addresses p) (c_ip x) /\ c_port x = connect_port c
    /\ (forall ip, IpAddr_parse (connect_host c) = Some ip -> c_ip x = ip)
    /\ (forall s0 s1 s2 s3 s4 s5 s6 s7, c_ip x = V6 s0 s1 s2 s3 s4 s5 s6 s7 -> c_scope x = 0 /\ c_flowinfo x = 0))
    found }.

Lemma tcp_admit_answer p found address : tcp_admit_addresses p found = Ok address -> exists c, dial_answer p c found address.
Proof.
  intros (c & rest & Hc & -> & Hl & Hp & Hf)%dial_admitted. exists c. constructor; [done|done|done|].
  apply permits_all_spec in Hp as [_ Hp]. rewrite Forall_map in Hp. apply Forall_and. split; [|done].
  eapply Forall_impl; [exact Hp|]. intros x Hx. unfold allowed_address. cbn in Hx.
  destruct (tcp_addresses p); [|done]. intros Hw. by apply public_address_blocks.
Qed.
