(* ===== verification/Config.v ===== *)
(** * Configuration and sessions' options ([aap-engine/src/lib.rs],
    [aap-transport/src/lib.rs])

    What an operator configured, what a session was granted, and the endpoints an
    admitted target may be dialed at. *)
From S2P Require Import Prelude Protocol Address Catalog Profile.
From S2P Require TcpPolicy.

(** `aap-engine/src/lib.rs:29-41`, `Configuration`; stores by name, and whether an
    approval provider is present *)
Record Configuration := mkConfiguration {
  catalog : Catalog;
  profiles : list ResourceProfile;
  tcp_profiles : list TcpPolicy.TcpProfile;
  stores : list string;
  has_approval : bool;
  host_require_approval : bool }.

(** `aap-engine/src/lib.rs:42-50`, `SessionOptions`; the lifetime in nanoseconds *)
Record SessionOptions := mkOptions {
  o_resources : list string;
  o_items : option (list string);
  o_lifetime : Z;
  o_require_approval : bool;
  o_require_observation : bool }.

(** `aap-engine/src/vault.rs:114-122`, `Session::item_allowed` *)
Definition item_allowed (o : SessionOptions) (i : Item) : bool :=
  bool_decide (item_profile i ∈ o_resources o)
  && match o_items o with Some ids => bool_decide (item_id i ∈ ids) | None => true end.

(** A socket address: the IP and the port. *)
Definition SocketAddr : Type := IpAddr * Z.

(** `aap-transport/src/lib.rs:73-76`, `Endpoint` *)
Record Endpoint := mkEndpoint { endpoint_origin : Uri; endpoint_address : SocketAddr }.

Section Endpoints.
Context `{Urls}.

(** `aap-policy/src/target.rs:55-62`, `Target::host` and `port`; a parsed target has
    both *)
Definition target_host (t : Target) : string := default EmptyString (host_str (url t)).
Definition target_port (t : Target) : Z := default 443 (url_port (url t)).

(** [str::trim_start_matches('[').trim_end_matches(']')] *)
Fixpoint skip_byte (c : byte) (l : list byte) : list byte :=
  match l with b :: rest => if bool_decide (b = c) then skip_byte c rest else l | [] => [] end.
Definition trim_brackets (s : string) : string :=
  from_bytes (reverse (skip_byte "]"%char (reverse (skip_byte "["%char (as_bytes s))))).

(** `aap-transport/src/lib.rs:77-102`, `Endpoint::new` *)
Definition Endpoint_new (origin : string) (address : SocketAddr) : Result Endpoint :=
  uri ← ok_or (Uri_parse origin) (Error_new RequestInvalid);
  authority ← ok_or (authority uri) (Error_new RequestInvalid);
  if (4096 <? slen origin)
     || negb (str_is_ascii origin)
     || contains_char origin "#"
     || negb (bool_decide (uri_scheme uri = Some "https"))
     || contains_char authority.1 "@"
     || ends_with_char authority.1 ":"
     || bool_decide (authority.2 = EmptyString)
     || (negb (bool_decide (authority.1 = authority.2)) && bool_decide (uri_port uri = None))
     || ends_with_char authority.2 "."
     || negb (bool_decide (uri_path uri ∈ [EmptyString; "/"]))
     || bool_decide (is_Some (uri_query uri))
     || negb (default 443 (uri_port uri) =? address.2)
     || (address.2 =? 0)
  then fail RequestInvalid
  else Ok (mkEndpoint uri address).
End Endpoints.
