(* ===== verification/Dispatch.v ===== *)
(** * Dispatch of an API-key request ([aap-engine/src/pipeline.rs])

    The whole admission path of [Session::dispatch] as a program over the guard:
    policy, addresses, custody, approval, injection, evidence, commit and hand-off,
    in the order of the code. Stores, resolver, provider, transport and inspector
    answer through [Env]; other actors move between any two steps, and the caller's
    [select] may end the program at every await. The log holds the calls made to
    the outside and the commits, in order; a request made on behalf of another has a log
    of its own, which is one call of the other's. [logs], [within] and [upon] are the
    logics in which programs over a guard are walked through. *)
From S2P Require Import Prelude Protocol Ids Address Observe Catalog Profile Secrets Redaction Injection Cookies Flow.
From S2P Require Import Operation Guard Lifecycle Config.

(** What a dispatch did to the outside, and the evidence it had accepted. *)
Inductive Call :=
  | Evidence (es : list Emission)
  | Resolved (host : string) (port : Z) (addresses : list SocketAddr)
  | Described (store reference : string) (m : ItemMetadata)
  | Approved (item : string) (l : Lease)
  | Revalidated (store reference : string) (l : Lease)
  | Attempted (item : string)
  | Released (store reference : string) (l : Lease) (s : Snapshot)
  | Committed (a : Authority)
  | Executed (e : Endpoint) (request : HttpRequest)
  | Stopped (operation : string)
  | Controlled (calls : list Call).

(** The outside, by the number of the step that asks it. *)
Record Env (F R : Type) := mkEnv {
  between : nat -> list Other;
  elsewhere : nat -> F -> F;
  beside : nat -> R -> R;
  timed_out : nat -> bool;
  on_resolve : nat -> string -> Z -> Result (list SocketAddr);
  on_metadata : nat -> string -> string -> result StoreError ItemMetadata;
  on_revalidate : nat -> string -> string -> Lease -> result StoreError unit;
  on_secret : nat -> string -> string -> Lease -> result StoreError Snapshot;
  on_reserve : nat -> bool;
  on_permit : nat -> bool;
  on_random : nat -> option string;
  on_approve : nat -> option (Result bool);
  on_execute : nat -> HttpRequest -> Result HttpResponse;
  on_inspect : ProviderKind -> list byte -> Result unit }.
Arguments between {F R}. Arguments elsewhere {F R}. Arguments beside {F R}. Arguments timed_out {F R}. Arguments on_resolve {F R}.
Arguments on_metadata {F R}. Arguments on_revalidate {F R}. Arguments on_secret {F R}. Arguments on_reserve {F R}.
Arguments on_permit {F R}. Arguments on_random {F R}. Arguments on_approve {F R}. Arguments on_execute {F R}.
Arguments on_inspect {F R}.

Record World (F R : Type) := mkWorld { guard : Guard F R; steps : nat; log : list Call }.
Arguments mkWorld {F R}. Arguments guard {F R}. Arguments steps {F R}. Arguments log {F R}.

(** A program over the world: it always returns the world it leaves. *)
Definition Prog (F R A : Type) : Type := World F R -> World F R * Result A.
#[export] Instance prog_ret {F R} : MRet (Prog F R) := fun A a w => (w, Ok a).
#[export] Instance prog_bind {F R} : MBind (Prog F R) := fun A B k m w =>
  match m w with
  | (w, Ok a) => k a w
  | (w, Err e) => (w, Err e)
  end.

Section Dispatch.
Context `{Base64} `{Http} `{Urls} `{HttpMessage} (json_string : list byte -> option (list byte)).
Context {F : Type} `{Observer F} {R : Type} `{RemoteContext R}.
Context (env : Env F R) (cfg : Configuration) (opts : SessionOptions).
Abbreviation W := (World F R).
Abbreviation P := (Prog F R).

(** ** Steps *)

Definition lift {A} (r : Result A) : P A := fun w => (w, r).
Definition reject {A} (c : ErrorCode) : P A := lift (fail c).
Definition ask {A} (f : nat -> A) : P A := fun w => (w, Ok (f (steps w))).
Definition get_guard : P (Guard F R) := fun w => (w, Ok (guard w)).
Definition put (c : Call) : P unit := fun w => (mkWorld (guard w) (steps w) (log w ++ [c]), Ok tt).

(** Other actors move. *)
Definition pass : P unit := fun w =>
  let g := guard w in
  let g := with_shared g (others (between env (steps w)) (shared g)) in
  let g := with_evidence g (elsewhere env (steps w) (guard_flow g)) (observed g) in
  let g := with_remote g (beside env (steps w) <$> remote g) in
  (mkWorld g (S (steps w)) (log w), Ok tt).

(** `aap-engine/src/website.rs:143-147`, `Session::dispatch_website` (the inner [select]'s
    first branch: the context of a website exchange was cancelled) *)
Definition context_gone (g : Guard F R) : bool :=
  match website g, binding (shared g) with Some _, Some b => b_cancelled b | _, _ => false end.

(** `aap-engine/src/pipeline.rs:72-77`, `Session::execute_inner` (the biased [select]
    around the dispatch, at an await, and the one inside it around a website exchange) *)
Definition await : P unit :=
  _ ← pass; g ← get_guard; late ← ask (timed_out env);
  if auth_cancelled (authority (shared g)) then reject SessionInvalid
  else if op_cancelled (guard_op g) then reject RequestConflict
  else if context_gone g then reject PlaceholderInvalid
  else match remote g ≫= remote_gone with
       | Some c => reject c
       | None => if late : bool then reject OutcomeUnknown else mret tt
       end.

(** An operation of the guard. *)
Definition run_guard {A} (f : Guard F R -> Guard F R * Result A) : P A :=
  fun w => let (g, r) := f (guard w) in (mkWorld g (steps w) (log w), r).
Definition check_session : P unit :=
  _ ← pass; g ← get_guard; lift (Session_check (authority (shared g))).
Definition move_to (next : OperationState) (code : option Z) : P unit :=
  _ ← pass; run_guard (fun g => let (o, r) := transition (guard_op g) next code in (with_op g o, r)).
Definition evidence (es : list Emission) : P unit :=
  _ ← pass; _ ← run_guard (fun g => record_many g es); put (Evidence es).
Definition evidence_both (d : Direction) (x : Data) : P unit :=
  evidence [emission d Agent x; emission d Upstream x].

Definition from_store {A} (r : result StoreError A) : P A :=
  match r with Ok a => mret a | Err e => lift (Err (store_error e)) end.

Definition revalidate (store reference : string) (l : Lease) : P unit :=
  _ ← await; r ← ask (fun n => on_revalidate env n store reference l);
  _ ← from_store r; put (Revalidated store reference l).

(** `aap-engine/src/lib.rs:515-525`, `Session::resolve_current` *)
Definition resolve_current (store reference : string) (l : Lease) : P Snapshot :=
  _ ← check_session; _ ← await; r ← ask (fun n => on_secret env n store reference l);
  _ ← check_session; s ← from_store r; _ ← put (Released store reference l s); mret s.

(** `aap-engine/src/pipeline.rs:392-406`, `Session::dispatch` (the hand-off) *)
Definition execute (e : Endpoint) (request : HttpRequest) : P HttpResponse :=
  _ ← put (Executed e request); _ ← await; r ← ask (fun n => on_execute env n request); lift r.

(** `aap-engine/src/pipeline.rs:391`, `Session::dispatch` ([begin_dispatch]) *)
Definition commit : P unit :=
  _ ← pass; g ← get_guard; _ ← run_guard begin_dispatch; put (Committed (authority (shared g))).

(** ** Approval *)

(** `aap-engine/src/approval.rs:38-93`, `Session::approve_operation` *)
Definition approve_operation (item : string) (l : Lease) : P unit :=
  if negb (has_approval cfg) then reject InteractionUnavailable
  else
    _ ← pass; room ← ask (on_reserve env);
    if negb room then reject LimitExceeded
    else
      id ← ask (on_random env);
      match id with
      | None => reject InternalError
      | Some _ =>
          _ ← move_to PendingApproval None;
          _ ← evidence_both Outbound (PolicyDecision Pending None);
          _ ← await;
          answer ← ask (on_approve env);
          match answer with
          | None => reject InteractionUnavailable
          | Some r => granted ← lift r; if granted : bool then put (Approved item l) else reject PolicyDenied
          end
      end.

(** ** The outgoing request *)

(** `aap-engine/src/observation.rs:217-223`, `headers` *)
Definition observed_headers (hs : list (string * list byte)) : list (string * string) :=
  safe_headers (map (fun h => (h.1, from_bytes (default [] (to_str h.2)))) hs).

(** `aap-engine/src/pipeline.rs:356-366`, `Session::dispatch` (the redacted body as
    evidence, chunk by chunk) *)
Fixpoint record_body (r : Redactor) (p : PlaceholderRedactor) (cs : list (list byte * bool)) : P unit :=
  match cs with
  | [] => mret tt
  | (chunk, fin) :: cs =>
      let (r, safe) := feed r chunk fin in
      safe ← lift safe;
      let (p, safe) := feed_placeholders p safe fin in
      safe ← lift safe;
      _ ← pass; _ ← run_guard (fun g => content_both g Outbound safe.1);
      record_body r p cs
  end.
Definition body_chunks (body : list byte) : list (list byte * bool) :=
  map (fun c => (c, false)) (chunks (length body) (Z.to_nat (32 * 1024)) body) ++ [([], true)].

(** `aap-engine/src/pipeline.rs:334-345`, `Session::dispatch` (the request before
    injection) *)
Definition outgoing_request (req : ExecuteRequest) (t : Target) (provider : ProviderKind) (body : list byte)
    : Result HttpRequest :=
  let extra := if bool_decide (provider = AnthropicMessages) then [("anthropic-version", "2023-06-01")] else [] in
  ok_or (build_request (method req) (target_as_str t) (headers req ++ extra) body) (Error_new RequestInvalid).

(** ** Admission *)

(** `aap-engine/src/pipeline.rs:211-216`, `Session::dispatch` (the body) *)
Definition decode_body (req : ExecuteRequest) : Result (list byte) :=
  body ← ok_or (decode STANDARD (as_bytes (body_base64 req))) (Error_new RequestInvalid);
  if bool_decide (encode STANDARD body = as_bytes (body_base64 req)) then Ok body else fail RequestInvalid.

(** `aap-engine/src/pipeline.rs:203-219`, `Session::dispatch` (resource, target, body,
    route and headers) *)
Definition admit_request (req : ExecuteRequest) : Result (ResourceProfile * Target * list byte * Route) :=
  if negb (bool_decide (resource req ∈ o_resources opts)) then fail PolicyDenied
  else
    p ← ok_or (find_first (fun p => bool_decide (profile_id p = resource req)) (profiles cfg)) (Error_new PolicyDenied);
    t ← Target_parse (target req);
    body ← decode_body req;
    r ← authorize p (method req) t (len body);
    _ ← authorize_headers r (headers req);
    Ok (p, t, body, r).

(** `aap-engine/src/pipeline.rs:230-275`, `Session::dispatch` (the request against an
    API-key profile) *)
Definition admit_key (req : ExecuteRequest) (p : ResourceProfile) (body : list byte)
    : Result (string * string * string * ProviderKind * Item) :=
  if bool_decide (is_Some (auth_context req)) then fail PolicyDenied
  else
    match auth p with
    | ApiKey id header prefix provider =>
        if bool_decide (provider = AnthropicMessages)
           && existsb (fun h => eq_ignore_ascii_case h.1 "anthropic-version") (headers req)
        then fail PolicyDenied
        else if negb (bool_decide (provider = Generic))
                && negb (existsb (fun h => eq_ignore_ascii_case h.1 "content-type"
                                            && bool_decide (h.2 = "application/json")) (headers req))
        then fail InspectionUnavailable
        else
          _ ← on_inspect env provider body;
          item ← ok_or (find_first (fun i => bool_decide (item_id i = id)) (items (catalog cfg))) (Error_new PolicyDenied);
          if item_allowed opts item then Ok (id, header, prefix, provider, item) else fail PolicyDenied
    | _ => fail AuthProfileUnsupported
    end.

(** `aap-engine/src/pipeline.rs:286-305`, `Session::dispatch` (the resolver's whole
    answer) *)
Definition admit_addresses (p : ResourceProfile) (t : Target) (found : list SocketAddr) : Result Endpoint :=
  if existsb (fun a => negb (a.2 =? target_port t)) found || negb (permits_all (addresses p) (map fst found))
  then fail PolicyDenied
  else
    match found with
    | a :: _ => Endpoint_new (profile_origin p) a
    | [] => fail InternalError
    end.

(** `aap-engine/src/pipeline.rs:310-317`, `Session::dispatch` (approval) *)
Definition approve_if_needed (r : Route) (item : Item) (id : string) (l : Lease) : P unit :=
  if requires_approval (host_require_approval cfg) (o_require_approval opts) (require_approval r) (approval item) true
  then approve_operation id l else mret tt.

(** `aap-engine/src/pipeline.rs:329-391`, `Session::dispatch` (from custody to the
    commit) *)
Definition prepare (req : ExecuteRequest) (p : ResourceProfile) (t : Target) (body : list byte)
    (id header prefix : string) (provider : ProviderKind) (item : Item) (reference : string)
    (m : ItemMetadata) : P (HttpRequest * Redactor) :=
  let store := store (credential item) in
  _ ← revalidate store reference (lease m);
  s ← resolve_current store reference (lease m);
  k ← lift (PreparedKey_new json_string s prefix);
  out ← lift (outgoing_request req t provider body);
  '(out, redactor) ← lift (inject k out header);
  _ ← evidence [emission Outbound Upstream
                  (RequestStart (method req) (profile_origin p ++ path t) (observed_headers (http_headers out)))];
  _ ← record_body (fresh redactor) (mkPlaceholders [] false) (body_chunks (http_body out));
  _ ← evidence_both Outbound (AuthTransition id true);
  _ ← (_ ← pass; run_guard (fun g => end_content g Outbound [Agent; Upstream]));
  _ ← revalidate store reference (lease m);
  _ ← check_session;
  g ← get_guard;
  if match valid_until m with Some e => e <=? guard_now g | None => false end then reject VaultUnavailable
  else
    _ ← evidence_both Outbound (PolicyDecision Allow None);
    _ ← move_to Ready None;
    _ ← commit;
    mret (out, redactor).

(** `aap-engine/src/pipeline.rs:407-429`, `Session::dispatch` (the response) *)
Definition receive (response : HttpResponse) (redactor : Redactor) : P Sanitized :=
  _ ← evidence [emission Inbound Upstream
                  (ResponseStart (http_status response) (observed_headers (response_headers response)))];
  s ← lift (sanitize_response json_string response redactor);
  _ ← evidence [emission Inbound Agent
                  (ResponseStart (s_status s) (observed_headers [("content-type", as_bytes (s_media s))]))];
  _ ← move_to Dispatching (Some (s_status s));
  mret s.

(** `aap-engine/src/pipeline.rs:203-430`, `Session::dispatch` (an API-key profile) *)
Definition dispatch (req : ExecuteRequest) : P Sanitized :=
  '(p, t, body, r) ← lift (admit_request req);
  '(id, header, prefix, provider, item) ← lift (admit_key req p body);
  _ ← move_to Validated None;
  _ ← evidence [emission Outbound Agent
                  (RequestStart (method req) (profile_origin p ++ path t) (safe_headers (headers req)))];
  _ ← await;
  found ← ask (fun n => on_resolve env n (trim_brackets (target_host t)) (target_port t));
  found ← lift found;
  _ ← put (Resolved (trim_brackets (target_host t)) (target_port t) found);
  endpoint ← lift (admit_addresses p t found);
  let store := store (credential item) in
  if negb (bool_decide (store ∈ stores cfg)) then reject VaultUnavailable
  else
    reference ← from_store (ItemRef_new (key (credential item)));
    _ ← await;
    m ← ask (fun n => on_metadata env n store reference);
    m ← from_store m;
    _ ← put (Described store reference m);
    _ ← approve_if_needed r item id (lease m);
    _ ← check_session;
    body ← lift (ok_or (decode STANDARD (as_bytes (body_base64 req))) (Error_new RequestInvalid));
    room ← ask (on_permit env);
    if negb room then reject LimitExceeded
    else
      _ ← run_guard (fun g => (with_active g, Ok tt));
      '(out, redactor) ← prepare req p t body id header prefix provider item reference m;
      response ← execute endpoint out;
      receive response redactor.
End Dispatch.

Create HintDb guided.
Create HintDb logs.

(** ** Programs are lives of the guard *)

Section Lives.
Context `{Base64} `{Http} `{Urls} `{HttpMessage} (json_string : list byte -> option (list byte)).
Context {F : Type} `{Observer F} {R : Type} `{RemoteContext R}.
Context (env : Env F R) (cfg : Configuration) (opts : SessionOptions).
Abbreviation W := (World F R).
Abbreviation P := (Prog F R).

(** A program that moves the guard by disciplined moves, from a guard whose
    dispatch is committed or not ([d]) to one whose dispatch is ([d']). *)
Definition guided {A} (d d' : bool) (m : P A) : Prop :=
  forall w w' r, dispatched (guard w) = d -> m w = (w', r) ->
    exists ms, lives (guard w) ms /\ guard w' = life (guard w) ms
      /\ (is_ok r = true -> dispatched (guard w') = d').

Lemma life_app (g : Guard F R) ms ms' : life g (ms ++ ms') = life (life g ms) ms'.
Proof. apply foldl_app. Qed.
Lemma lives_app (g : Guard F R) ms ms' : lives g ms -> lives (life g ms) ms' -> lives g (ms ++ ms').
Proof.
  revert g. induction ms as [|m ms IH]; intros g Hl Hl'; [done|]. destruct Hl. split; [done|]. by apply IH.
Qed.

Lemma guided_bind {A B} d1 d2 d3 (m : P A) (k : A -> P B) :
  guided d1 d2 m -> (forall a, guided d2 d3 (k a)) -> guided d1 d3 (m ≫= k).
Proof.
  intros Hm Hk w w' r Hd Hr. unfold mbind, prog_bind in Hr. destruct (m w) as [w1 [a|e]] eqn:E.
  - destruct (Hm _ _ _ Hd E) as (ms & L1 & L2 & L3).
    destruct (Hk a _ _ _ (L3 eq_refl) Hr) as (ms' & K1 & K2 & K3).
    exists (ms ++ ms'). rewrite life_app, <-L2. split; [|done]. apply lives_app; [done|by rewrite <-L2].
  - injection Hr as <- <-. destruct (Hm _ _ _ Hd E) as (ms & L1 & L2 & L3). by exists ms.
Qed.

(** Programs that leave the guard alone. *)
Lemma guided_still {A} d (m : P A) : (forall w, guard (m w).1 = guard w) -> guided d d m.
Proof.
  intros Hm w w' r Hd Hr. specialize (Hm w). rewrite Hr in Hm. cbn in Hm. exists [].
  split; [done|]. split; [done|]. by rewrite Hm.
Qed.
Lemma guided_lift {A} d (r : Result A) : guided d d (lift r : P A).
Proof. by apply guided_still. Qed.
Lemma guided_ret {A} d (a : A) : guided d d (mret a : P A).
Proof. by apply guided_still. Qed.
Lemma guided_ask {A} d (f : nat -> A) : guided d d (ask f : P A).
Proof. by apply guided_still. Qed.
Lemma guided_get d : guided d d (get_guard : P (Guard F R)).
Proof. by apply guided_still. Qed.
Lemma guided_put d c : guided d d (put c : P unit).
Proof. by apply guided_still. Qed.
Lemma guided_store {A} d (r : result StoreError A) : guided d d (from_store r : P A).
Proof. destruct r; by apply guided_still. Qed.
Lemma guided_reject {A} d d' c : guided d d' (reject c : P A).
Proof. intros w w' r Hd [= <- <-]. by exists []. Qed.

(** One move. *)
Lemma guided_move {A} d d' (f : Guard F R -> Guard F R * Result A) (m : Guard F R -> Move F R) :
  (forall g, dispatched g = d -> disciplined g (m g) /\ do_move g (m g) = (f g).1
     /\ (is_ok (f g).2 = true -> dispatched (f g).1 = d')) ->
  guided d d' (run_guard f : P A).
Proof.
  intros Hf w w' r Hd Hr. unfold run_guard in Hr. destruct (Hf _ Hd) as (H1' & H2' & H3').
  destruct (f (guard w)) as [g1 r1]. simplify_eq/=. exists [m (guard w)]. done.
Qed.

Lemma guided_pass d : guided d d (pass env : P unit).
Proof.
  intros w w' r Hd [= <- <-]. exists [MOthers (between env (steps w)); MElsewhere (elsewhere env (steps w));
    MExchange (website (guard w)) (binding (others (between env (steps w)) (shared (guard w))))
      (beside env (steps w) <$> remote (guard w))].
  cbn. destruct (others (between env (steps w)) (shared (guard w))). by split_and!.
Qed.

Lemma guided_record d es : guided d d (run_guard (fun g => record_many g es) : P unit).
Proof.
  apply (guided_move _ _ _ (fun _ => MRecord es)). intros g Hd. split; [done|]. split; [done|].
  destruct (record_many g es) as [g1 r] eqn:E. apply record_frame in E as (_ & _ & E & _). cbn. by rewrite E.
Qed.
Lemma guided_content d dir l : guided d d (run_guard (fun g => content_both g dir l) : P unit).
Proof.
  apply (guided_move _ _ _ (fun _ => MContent dir l)). intros g Hd. split; [done|]. split; [done|].
  unfold content_both. destruct (content_views _ _ _ _) as [g1 r] eqn:E.
  apply content_frame in E as (_ & _ & E). cbn. by rewrite E.
Qed.
Lemma views_moves dir vs cs (g : Guard F R) :
  exists ms, lives g ms /\ (content_views g dir vs cs).1 = life g ms /\ dispatched (life g ms) = dispatched g.
Proof.
  revert g. induction cs as [|c cs IH]; intros g; cbn [content_views]; [by exists []|].
  destruct (record_many g _) as [g1 r] eqn:E. apply record_frame in E as Hf. destruct Hf as (_ & _ & Hd & _).
  assert (Hg1 : g1 = do_move g (MRecord (map (content_event g dir c) vs))) by (cbn; by rewrite E).
  destruct r as [[]|e].
  - destruct (IH g1) as (ms & L1 & L2 & L3). exists (MRecord (map (content_event g dir c) vs) :: ms).
    unfold life in *. cbn [lives foldl]. rewrite <- Hg1. by rewrite L2, L3, Hd.
  - exists [MRecord (map (content_event g dir c) vs)]. unfold life. cbn [lives foldl]. by rewrite <- Hg1.
Qed.
Lemma guided_views d dir vs cs : guided d d (run_guard (fun g => content_views g dir vs cs) : P unit).
Proof.
  intros w w' r Hd Hr. unfold run_guard in Hr.
  destruct (views_moves dir vs cs (guard w)) as (ms & L1 & L2 & L3).
  destruct (content_views _ _ _ _) as [g1 r1]. injection Hr as <- <-. cbn in L2 |- *. exists ms. subst g1. by rewrite L3.
Qed.
Lemma guided_end d dir vs : guided d d (run_guard (fun g => end_content g dir vs) : P unit).
Proof.
  apply (guided_move _ _ _ (fun g => MRecord (map (fun v => emission dir v
    (ContentEnd true (bytes (nth (slot dir v) (observed g) StreamState_default)) None)) vs))).
  intros g Hd. split; [done|]. split; [done|]. unfold end_content.
  cbn beta.
  match goal with |- context [record_many g ?es] => destruct (record_many g es) as [g1 r] eqn:E end.
  apply record_frame in E as (_ & _ & E & _). cbn. by rewrite E.
Qed.
Lemma guided_transition (d : bool) next code :
  (if d then next = Dispatching else next ∈ [Validated; PendingApproval; Ready]) ->
  guided d d (run_guard (fun g => let (o, r) := transition (guard_op g) next code in (with_op g o, r)) : P unit).
Proof.
  intros Hn. apply (guided_move _ _ _ (fun _ => MTransition next code)). intros g Hd.
  split; [cbn; by rewrite Hd|]. cbn. by destruct (transition _ _ _).
Qed.
Lemma guided_begin : guided false true (run_guard begin_dispatch : P unit).
Proof.
  apply (guided_move _ _ _ (fun _ => MBegin)). intros g Hd. split; [done|]. split; [done|].
  destruct (begin_dispatch g) as [g1 [[]|e]] eqn:E; [|done]. by apply begin_dispatch_spec in E as (_ & _ & _ & _ & _ & _ & ?).
Qed.

Lemma guided_move_to (d : bool) next code : (if d then next = Dispatching else next ∈ [Validated; PendingApproval; Ready]) ->
  guided d d (move_to env next code : P unit).
Proof. intros Hn. unfold move_to. eapply guided_bind; [apply guided_pass|]. intros _. by apply guided_transition. Qed.
End Lives.

#[export] Hint Resolve guided_lift guided_ret guided_ask guided_get guided_put guided_store guided_reject
  guided_pass guided_record guided_content guided_views guided_end guided_begin : guided.
Ltac guide :=
  repeat first
    [ match goal with |- forall _, _ => intro end
    | solve [eauto with guided]
    | match goal with
      | |- guided _ _ (move_to _ _ _) => apply guided_move_to; cbn; first [done | set_solver]
      | |- guided _ _ (mbind _ _) =>
          first [ eapply guided_bind; [solve [eauto with guided]|]
                | eapply guided_bind; [apply guided_move_to; cbn; first [done | set_solver]|]
                | eapply guided_bind ]
      | |- guided _ _ (if ?b then _ else _) => destruct b
      | |- guided _ _ (match ?x with _ => _ end) => destruct x
      end ].

Section Programs.
Context `{Base64} `{Http} `{Urls} `{HttpMessage} (json_string : list byte -> option (list byte)).
Context {F : Type} `{Observer F} {R : Type} `{RemoteContext R}.
Context (env : Env F R) (cfg : Configuration) (opts : SessionOptions).
Abbreviation P := (Prog F R).

Lemma guided_await d : guided d d (await env : P unit).
Proof. unfold await. guide. Qed.
Lemma guided_check d : guided d d (check_session env : P unit).
Proof. unfold check_session. guide. Qed.
#[local] Hint Resolve guided_await guided_check : guided.
Lemma guided_evidence d es : guided d d (evidence env es : P unit).
Proof. unfold evidence. guide. Qed.
#[local] Hint Resolve guided_evidence : guided.
Lemma guided_both d dir x : guided d d (evidence_both env dir x : P unit).
Proof. apply guided_evidence. Qed.
Lemma guided_revalidate d st re l : guided d d (revalidate env st re l : P unit).
Proof. unfold revalidate. guide. Qed.
Lemma guided_resolve d st re l : guided d d (resolve_current env st re l : P Snapshot).
Proof. unfold resolve_current. guide. Qed.
Lemma guided_execute d e q : guided d d (execute env e q : P HttpResponse).
Proof. unfold execute. guide. Qed.
Lemma guided_commit : guided false true (commit env : P unit).
Proof. unfold commit. guide. Qed.
#[local] Hint Resolve guided_both guided_revalidate guided_resolve guided_execute guided_commit : guided.
Lemma guided_approve item l : guided false false (approve_operation env cfg item l : P unit).
Proof.
  unfold approve_operation. guide.
Qed.
Lemma guided_body d r p cs : guided d d (record_body env r p cs : P unit).
Proof.
  revert r p. induction cs as [|[c fin] cs IH]; intros r p; cbn [record_body]; [apply guided_ret|].
  destruct (feed r c fin) as [r1 s1]. eapply guided_bind; [apply guided_lift|]. intros safe.
  destruct (feed_placeholders p safe fin) as [p1 s2]. guide.
Qed.
#[local] Hint Resolve guided_approve guided_body : guided.
Lemma guided_prepare req p t body id header prefix provider item reference m :
  guided false true (prepare json_string env req p t body id header prefix provider item reference m
    : P (HttpRequest * Redactor)).
Proof. unfold prepare. guide. Qed.
Lemma guided_receive response redactor : guided true true (receive json_string env response redactor : P Sanitized).
Proof. unfold receive. guide. Qed.
Lemma guided_active d : guided d d (run_guard (fun g => (with_active g, Ok tt)) : P unit).
Proof. by apply (guided_move _ _ _ (fun _ => MActive)). Qed.
Lemma guided_if_needed r item id l : guided false false (approve_if_needed env cfg opts r item id l : P unit).
Proof. unfold approve_if_needed. guide. Qed.
#[local] Hint Resolve guided_prepare guided_receive guided_active guided_if_needed : guided.
Lemma guided_dispatch req : guided false true (dispatch json_string env cfg opts req : P Sanitized).
Proof. unfold dispatch. guide. Qed.
End Programs.
#[export] Hint Resolve guided_await guided_check guided_evidence guided_both guided_revalidate guided_resolve
  guided_execute guided_commit guided_approve guided_body guided_active : guided.

(** ** What a program logs *)

Definition executes (c : Call) : bool := match c with Executed _ _ => true | _ => false end.
Definition no_execution (l : list Call) : Prop := Forall (fun c => executes c = false) l.

Section Logs.
Context `{Base64} `{Http} `{Urls} `{HttpMessage} (json_string : list byte -> option (list byte)).
Context {F : Type} `{Observer F} {R : Type} `{RemoteContext R}.
Context (env : Env F R) (cfg : Configuration) (opts : SessionOptions).
Abbreviation P := (Prog F R).

(** A program that hands nothing off, and what it logged when it succeeds. *)
Definition logs {A} (m : P A) (post : A -> list Call -> Prop) : Prop :=
  forall w w' r, m w = (w', r) ->
    exists l, log w' = log w ++ l /\ no_execution l /\ forall a, r = Ok a -> post a l.

(** A program that hands off at most in the way [Q] says of its log. *)
Definition hands_off {A} (m : P A) (Q : list Call -> Prop) : Prop :=
  forall w w' r, m w = (w', r) -> exists l, log w' = log w ++ l /\ (no_execution l \/ Q l).

Lemma logs_bind {A B} (m : P A) (k : A -> P B) (p : A -> list Call -> Prop) (q : B -> list Call -> Prop) :
  logs m p -> (forall a l, p a l -> logs (k a) (fun b l' => q b (l ++ l'))) -> logs (m ≫= k) q.
Proof.
  intros Hm Hk w w' r Hr. unfold mbind, prog_bind in Hr. destruct (m w) as [w1 [a|e]] eqn:E.
  - destruct (Hm _ _ _ E) as (l & L1 & L2 & L3).
    destruct (Hk a l (L3 a eq_refl) _ _ _ Hr) as (l' & K1 & K2 & K3).
    exists (l ++ l'). rewrite K1, L1, <-app_assoc. split; [done|]. split; [by apply Forall_app|done].
  - injection Hr as <- <-. destruct (Hm _ _ _ E) as (l & L1 & L2 & _). by exists l.
Qed.
Lemma hands_off_bind {A B} (m : P A) (k : A -> P B) (p : A -> list Call -> Prop) Q :
  logs m p -> (forall a l, p a l -> hands_off (k a) (fun l' => Q (l ++ l'))) -> hands_off (m ≫= k) Q.
Proof.
  intros Hm Hk w w' r Hr. unfold mbind, prog_bind in Hr. destruct (m w) as [w1 [a|e]] eqn:E.
  - destruct (Hm _ _ _ E) as (l & L1 & L2 & L3).
    destruct (Hk a l (L3 a eq_refl) _ _ _ Hr) as (l' & K1 & K2).
    exists (l ++ l'). rewrite K1, L1, <-app_assoc. split; [done|].
    destruct K2 as [K2|K2]; [left; by apply Forall_app|by right].
  - injection Hr as <- <-. destruct (Hm _ _ _ E) as (l & L1 & L2 & _). exists l. auto.
Qed.
Lemma logs_weaken {A} (m : P A) (p q : A -> list Call -> Prop) : logs m p -> (forall a l, p a l -> q a l) -> logs m q.
Proof. intros Hm Hpq w w' r Hr. destruct (Hm _ _ _ Hr) as (l & ? & ? & ?). exists l. auto. Qed.

Lemma logs_still {A} (m : P A) (p : A -> Prop) : (forall w, log (m w).1 = log w) ->
  (forall w a, (m w).2 = Ok a -> p a) -> logs m (fun a l => l = [] /\ p a).
Proof.
  intros Hm Hp w w' r Hr. specialize (Hm w). specialize (Hp w). rewrite Hr in Hm, Hp. exists [].
  rewrite app_nil_r. split; [done|]. split; [by apply Forall_nil_2|]. intros a ->. split; [done|]. by apply Hp.
Qed.

Lemma logs_lift {A} (r : Result A) : logs (lift r) (fun a l => l = [] /\ r = Ok a).
Proof. by apply logs_still. Qed.
Lemma logs_ret {A} (a : A) : logs (mret a) (fun b l => l = [] /\ a = b).
Proof. apply logs_still; [done|]. by intros w b [= ->]. Qed.
Lemma logs_ask {A} (f : nat -> A) : logs (ask f) (fun a l => l = [] /\ exists n, a = f n).
Proof. apply logs_still; [done|]. intros w a [= <-]. eauto. Qed.
Lemma logs_guard : logs get_guard (fun a l => l = [] /\ True).
Proof. by apply logs_still. Qed.
Lemma logs_pass : logs (pass env) (fun a l => l = [] /\ True).
Proof. by apply logs_still. Qed.
Lemma logs_run {A} (f : Guard F R -> Guard F R * Result A) : logs (run_guard f) (fun a l => l = [] /\ True).
Proof. apply logs_still; [|done]. intros w. unfold run_guard. by destruct (f (guard w)). Qed.
Lemma logs_store {A} (r : result StoreError A) : logs (from_store r) (fun a l => l = [] /\ r = Ok a).
Proof. destruct r; (apply logs_still; [done|]); intros w a; [by intros [= ->]|done]. Qed.
Lemma logs_put c : executes c = false -> logs (put c) (fun a l => l = [c]).
Proof. intros Hc w w' r [= <- <-]. exists [c]. split; [done|]. split; [by apply Forall_singleton|done]. Qed.
Lemma logs_reject {A} c p : logs (reject c : P A) p.
Proof. intros w w' r [= <- <-]. exists []. rewrite app_nil_r. split; [done|]. by split; [apply Forall_nil_2|]. Qed.

Lemma hands_off_weaken {A} (m : P A) (Q Q' : list Call -> Prop) : hands_off m Q -> (forall l, Q l -> Q' l) -> hands_off m Q'.
Proof. intros Hm HQ w w' r Hr. destruct (Hm _ _ _ Hr) as (l & ? & [?|?]); exists l; auto. Qed.
Lemma hands_off_reject {A} c Q : hands_off (reject c : P A) Q.
Proof. intros w w' r [= <- <-]. exists []. rewrite app_nil_r. split; [done|]. left. by apply Forall_nil_2. Qed.
End Logs.

#[export] Hint Resolve logs_lift logs_ret logs_ask logs_guard logs_pass logs_run logs_store logs_put : logs.

(** Chain the specifications of the steps of a program. *)
Ltac chain :=
  repeat first
    [ match goal with |- forall _, _ => intro; cbn beta in * end
    | match goal with
      | H : _ /\ _ |- _ => destruct H
      | H : exists _, _ |- _ => destruct H
      | H : ?l = [] |- _ => subst l
      | |- logs (reject _) _ => apply logs_reject
      | |- logs (mbind _ _) _ => eapply logs_bind; [solve [eauto with logs]|]
      | |- logs (if ?b then _ else _) _ => destruct b eqn:?
      | |- logs (match ?x with _ => _ end) _ => destruct x eqn:?
      end
    | eapply logs_weaken; [solve [eauto with logs]|]
    | progress cbn [app] ].
Ltac chained := chain; subst; rewrite ?app_nil_r; try done.

Section Logged.
Context `{Base64} `{Http} `{Urls} `{HttpMessage} (json_string : list byte -> option (list byte)).
Context {F : Type} `{Observer F} {R : Type} `{RemoteContext R}.
Context (env : Env F R) (cfg : Configuration) (opts : SessionOptions).
Abbreviation P := (Prog F R).
Abbreviation logs := (logs (F:=F) (R:=R)).

Lemma logs_await : logs (await env) (fun _ l => l = []).
Proof. unfold await. chained. Qed.
Lemma logs_check : logs (check_session env) (fun _ l => l = []).
Proof. unfold check_session. chained. Qed.
Lemma logs_move next code : logs (move_to env next code) (fun _ l => l = []).
Proof. unfold move_to. chained. Qed.
Lemma logs_evidence es : logs (evidence env es) (fun _ l => l = [Evidence es]).
Proof. unfold evidence. chained. Qed.
#[local] Hint Resolve logs_await logs_check logs_move logs_evidence : logs.
Lemma logs_both d x : logs (evidence_both env d x) (fun _ l => l = [Evidence [emission d Agent x; emission d Upstream x]]).
Proof. apply logs_evidence. Qed.
Lemma logs_revalidate st re l : logs (revalidate env st re l) (fun _ l' => l' = [Revalidated st re l]).
Proof. unfold revalidate. chained. Qed.
Lemma logs_resolve st re l : logs (resolve_current env st re l) (fun s l' => l' = [Released st re l s]).
Proof. unfold resolve_current. chained. Qed.
Lemma logs_commit : logs (commit env) (fun _ l => exists a, l = [Committed a] /\ Session_check a = Ok tt).
Proof.
  intros w w' r Hr. unfold commit, mbind, prog_bind, pass, get_guard, run_guard in Hr. cbn in Hr.
  destruct (begin_dispatch _) as [g1 [[]|e]] eqn:E; unfold put in Hr; injection Hr as <- <-; cbn.
  - eexists. split; [done|]. split; [by apply Forall_singleton|]. intros _ _. eexists. split; [done|].
    by apply begin_dispatch_spec in E as (_ & _ & ? & _).
  - exists []. rewrite app_nil_r. split; [done|]. by split; [apply Forall_nil_2|].
Qed.
Lemma logs_step {A} (f : Guard F R -> Guard F R * Result A) :
  logs (_ ← pass env; run_guard f) (fun _ l => l = []).
Proof. chained. Qed.
Lemma logs_body r p cs : logs (record_body env r p cs) (fun _ l => l = []).
Proof.
  revert r p. induction cs as [|[c fin] cs IH]; intros r p; cbn [record_body]; [by chained|].
  destruct (feed r c fin) as [r1 s1]. eapply logs_bind; [apply logs_lift|]. intros safe l [-> _].
  destruct (feed_placeholders p safe fin) as [p1 s2].
  eapply logs_bind; [apply logs_lift|]. intros safe2 l [-> _].
  eapply logs_bind; [apply logs_pass|]. intros [] l [-> _].
  eapply logs_bind; [apply logs_run|]. intros [] l [-> _]. apply IH.
Qed.
#[local] Hint Resolve logs_step logs_both logs_revalidate logs_resolve logs_commit logs_body : logs.

(** The calls of an approval. *)
Definition approval_calls (id : string) (l : Lease) : list Call :=
  [Evidence [emission Outbound Agent (PolicyDecision Pending None);
             emission Outbound Upstream (PolicyDecision Pending None)]; Approved id l].
Lemma logs_approve id l : logs (approve_operation env cfg id l) (fun _ l' => l' = approval_calls id l).
Proof. unfold approve_operation. chained. Qed.
#[local] Hint Resolve logs_approve : logs.

Lemma logs_if_needed r item id l : logs (approve_if_needed env cfg opts r item id l) (fun _ l' => l' =
  if requires_approval (host_require_approval cfg) (o_require_approval opts) (require_approval r) (approval item) true
  then approval_calls id l else []).
Proof. unfold approve_if_needed. destruct (requires_approval _ _ _ _ _); chained. Qed.
#[local] Hint Resolve logs_if_needed : logs.

End Logged.
#[export] Hint Resolve logs_await logs_check logs_move logs_evidence logs_step logs_both logs_revalidate logs_resolve
  logs_commit logs_body logs_approve logs_if_needed : logs.

Ltac hand :=
  repeat first
    [ match goal with |- forall _, _ => intro; cbn beta in * end
    | match goal with
      | H : _ /\ _ |- _ => destruct H
      | H : exists _, _ |- _ => destruct H
      | H : ?l = [] |- _ => subst l
      | |- hands_off (reject _) _ => apply hands_off_reject
      | |- hands_off (execute _ _ _ ≫= _) _ => fail 2
      | |- hands_off (mbind _ _) _ => eapply hands_off_bind; [solve [eauto with logs]|]
      | |- hands_off (if ?b then _ else _) _ => destruct b eqn:?
      | |- hands_off (match ?x with _ => _ end) _ => destruct x eqn:?
      end ].

(** ** What a program finds and leaves in its guard *)

(** What a later guard keeps of an earlier one: the session it is of, whose authority only
    fades, and the request. *)
Record ages (a a' : Authority) : Prop := {
  ag_expires : auth_expires a' = auth_expires a; ag_now : auth_now a <= auth_now a';
  ag_closed : auth_closed a = true -> auth_closed a' = true;
  ag_revoked : auth_revoked a = true -> auth_revoked a' = true;
  ag_cancelled : auth_cancelled a = true -> auth_cancelled a' = true }.
#[export] Instance ages_preorder : PreOrder ages.
Proof. split; [by split|]. intros x y z [] []. split; try lia; try congruence; auto. Qed.
Lemma others_keep os s : ages (authority s) (authority (others os s))
  /\ op_request (op (others os s)) = op_request (op s)
  /\ forall b, binding s = Some b -> exists b', binding (others os s) = Some b' /\ (b' = b \/ b_cancelled b' = true).
Proof.
  revert s. induction os as [|o os IH]; intros s; [split; [done|split; [done|eauto]]|].
  change (others (o :: os) s) with (others os (other o s)). destruct (IH (other o s)) as (A & O & B).
  assert (ages (authority s) (authority (other o s))) as A1 by (destruct o; split; cbn; done || lia).
  assert (op_request (op (other o s)) = op_request (op s)) as O1
    by (destruct o; try done; cbn; unfold op_cancel; by destruct (terminal _)).
  split; [by etransitivity|]. split; [congruence|]. intros b Hb.
  assert (exists b1, binding (other o s) = Some b1 /\ (b1 = b \/ b_cancelled b1 = true)) as (b1 & Hb1 & Hc).
  { destruct o; try (exists b; auto; done). eexists. cbn. rewrite Hb. split; [done|by right]. }
  destruct (B b1 Hb1) as (b2 & Hb2 & Hc2). exists b2. split; [done|]. destruct Hc as [->|Hc]; [done|].
  right. destruct Hc2 as [->|]; done.
Qed.

Section Upon.
Context `{Base64} `{Http} `{Urls} `{HttpMessage}.
Context {F : Type} `{Observer F} {R : Type} `{RemoteContext R}.
Abbreviation P := (Prog F R).
Abbreviation G := (Guard F R).
Abbreviation logs := (logs (F:=F) (R:=R)).

(** A program on a guard of which [I] holds: it hands nothing off, and what holds of its
    answer, its log and the guard it leaves when it succeeds. *)
Definition upon {A} (I : G -> Prop) (m : P A) (post : A -> list Call -> G -> Prop) : Prop :=
  forall w w' r, I (guard w) -> m w = (w', r) ->
    exists l, log w' = log w ++ l /\ no_execution l /\ forall a, r = Ok a -> post a l (guard w').
Definition hands_upon {A} (I : G -> Prop) (m : P A) (Q : list Call -> Prop) : Prop :=
  forall w w' r, I (guard w) -> m w = (w', r) -> exists l, log w' = log w ++ l /\ (no_execution l \/ Q l).

Lemma upon_bind {A B} I (m : P A) (k : A -> P B) p q :
  upon I m p -> (forall a l, upon (p a l) (k a) (fun b l' => q b (l ++ l'))) -> upon I (m ≫= k) q.
Proof.
  intros Hm Hk w w' r Hi Hr. unfold mbind, prog_bind in Hr. destruct (m w) as [w1 [a|e]] eqn:E.
  - destruct (Hm _ _ _ Hi E) as (l & L1 & L2 & L3). destruct (Hk a l _ _ _ (L3 a eq_refl) Hr) as (l' & K1 & K2 & K3).
    exists (l ++ l'). rewrite K1, L1, <-app_assoc. split; [done|]. split; [by apply Forall_app|done].
  - injection Hr as <- <-. destruct (Hm _ _ _ Hi E) as (l & L1 & L2 & _). by exists l.
Qed.
Lemma hands_upon_bind {A B} I (m : P A) (k : A -> P B) p Q :
  upon I m p -> (forall a l, hands_upon (p a l) (k a) (fun l' => Q (l ++ l'))) -> hands_upon I (m ≫= k) Q.
Proof.
  intros Hm Hk w w' r Hi Hr. unfold mbind, prog_bind in Hr. destruct (m w) as [w1 [a|e]] eqn:E.
  - destruct (Hm _ _ _ Hi E) as (l & L1 & L2 & L3). destruct (Hk a l _ _ _ (L3 a eq_refl) Hr) as (l' & K1 & K2).
    exists (l ++ l'). rewrite K1, L1, <-app_assoc. split; [done|].
    destruct K2 as [K2|K2]; [left; by apply Forall_app|by right].
  - injection Hr as <- <-. destruct (Hm _ _ _ Hi E) as (l & L1 & L2 & _). exists l. auto.
Qed.
Lemma upon_weaken {A} (I I' : G -> Prop) (m : P A) (p q : A -> list Call -> G -> Prop) :
  upon I m p -> (forall g, I' g -> I g) -> (forall a l g, p a l g -> q a l g) -> upon I' m q.
Proof. intros Hm HI Hp w w' r Hi Hr. destruct (Hm _ _ _ (HI _ Hi) Hr) as (l & ? & ? & ?). exists l. auto. Qed.
Lemma upon_pure {A} (φ : Prop) I (m : P A) p : (φ -> upon I m p) -> upon (fun g => φ /\ I g) m p.
Proof. intros Hm w w' r [Hf Hi]. by apply Hm. Qed.
Lemma hands_upon_pure {A} (φ : Prop) I (m : P A) Q : (φ -> hands_upon I m Q) -> hands_upon (fun g => φ /\ I g) m Q.
Proof. intros Hm w w' r [Hf Hi]. by apply Hm. Qed.
Lemma hands_upon_weaken {A} (I I' : G -> Prop) (m : P A) (Q Q' : list Call -> Prop) :
  hands_upon I m Q -> (forall g, I' g -> I g) -> (forall l, Q l -> Q' l) -> hands_upon I' m Q'.
Proof. intros Hm HI HQ w w' r Hi Hr. destruct (Hm _ _ _ (HI _ Hi) Hr) as (l & ? & [?|?]); exists l; auto. Qed.
Lemma upon_ex {A X} (I : X -> G -> Prop) (m : P A) p : (forall x, upon (I x) m p) -> upon (fun g => exists x, I x g) m p.
Proof. intros Hm w w' r [x Hi]. by apply (Hm x). Qed.
Lemma hands_upon_ex {A X} (I : X -> G -> Prop) (m : P A) Q : (forall x, hands_upon (I x) m Q) -> hands_upon (fun g => exists x, I x g) m Q.
Proof. intros Hm w w' r [x Hi]. by apply (Hm x). Qed.
Lemma upon_reject {A} I c p : upon I (reject c : P A) p.
Proof. intros w w' r _ [= <- <-]. exists []. rewrite app_nil_r. split; [done|]. by split; [apply Forall_nil_2|]. Qed.
Lemma hands_upon_reject {A} I c Q : hands_upon I (reject c : P A) Q.
Proof. intros w w' r _ [= <- <-]. exists []. rewrite app_nil_r. split; [done|]. left. apply Forall_nil_2. Qed.
Lemma upon_logs {A} I (m : P A) p : logs m p -> upon I m (fun a l _ => p a l).
Proof. intros Hm w w' r _ Hr. by apply Hm. Qed.
Lemma upon_true {A} I (m : P A) p : logs m p -> upon I m (fun a l _ => p a l /\ True).
Proof. intros Hm w w' r _ Hr. destruct (Hm _ _ _ Hr) as (l & ? & ? & ?). exists l. auto. Qed.
Lemma hands_upon_off {A} I (m : P A) Q : hands_off m Q -> hands_upon I m Q.
Proof. intros Hm w w' r _ Hr. by apply (Hm _ _ _ Hr). Qed.

(** A program that succeeds only with a guard that stands in [rel] to the one it had. *)
Definition within {A} (rel : relation G) (m : P A) : Prop :=
  forall w w' a, m w = (w', Ok a) -> rel (guard w) (guard w').
Lemma upon_within {A} rel I (m : P A) p : logs m p -> within rel m -> (forall g g', rel g g' -> I g -> I g') ->
  upon I m (fun a l g => p a l /\ I g).
Proof.
  intros Hm Hw Hi w w' r Hg Hr. destruct (Hm _ _ _ Hr) as (l & L1 & L2 & L3). exists l. split; [done|]. split; [done|].
  intros a ->. split; [by apply L3|]. eapply Hi; [by eapply Hw|done].
Qed.

Section Steps.
Context (rel : relation G) `{!PreOrder rel}.
Abbreviation inside := (within rel).

Lemma within_bind {A B} (m : P A) (k : A -> P B) : inside m -> (forall a, inside (k a)) -> inside (m ≫= k).
Proof.
  intros Hm Hk w w' b Hr. unfold mbind, prog_bind in Hr. destruct (m w) as [w1 [a|e]] eqn:E; [|done].
  etransitivity; [by eapply Hm|by eapply Hk].
Qed.
Lemma within_still {A} (m : P A) : (forall w, guard (m w).1 = guard w) -> inside m.
Proof. intros Hm w w' a Hr. specialize (Hm w). rewrite Hr in Hm. cbn in Hm. by rewrite Hm. Qed.
Lemma within_lift {A} (r : Result A) : inside (lift r).
Proof. by apply within_still. Qed.
Lemma within_reject {A} c : inside (reject c : P A).
Proof. by apply within_still. Qed.
Lemma within_ret {A} (a : A) : inside (mret a).
Proof. by apply within_still. Qed.
Lemma within_ask {A} (f : nat -> A) : inside (ask f).
Proof. by apply within_still. Qed.
Lemma within_get : inside get_guard.
Proof. by apply within_still. Qed.
Lemma within_put c : inside (put c).
Proof. by apply within_still. Qed.
Lemma within_store {A} (r : result StoreError A) : inside (from_store r).
Proof. destruct r; by apply within_still. Qed.
Lemma within_run {A} (f : G -> G * Result A) : (forall g a, (f g).2 = Ok a -> rel g (f g).1) -> inside (run_guard f).
Proof.
  intros Hf w w' a Hr. unfold run_guard in Hr. specialize (Hf (guard w)). destruct (f (guard w)) as [g r].
  injection Hr as <- ->. by eapply Hf.
Qed.
End Steps.

Context (env : Env F R).

(** A relation that the steps of any program keep: the guard may change what it records,
    its operation's state and its own flags, and other actors may move. *)
Class Steady (rel : relation G) : Prop := {
  steady_preorder :: PreOrder rel;
  steady_same : forall g g', binding (shared g') = binding (shared g) -> remote g' = remote g -> website g' = website g ->
    authority (shared g') = authority (shared g) -> op_request (guard_op g') = op_request (guard_op g) -> rel g g' }.
Class Calm (rel : relation G) : Prop := {
  calm_steady :: Steady rel;
  calm_pass : forall w, rel (guard w) (guard (pass env w).1) }.
Lemma within_pass (rel : relation G) `{!Calm rel} : within rel (pass env).
Proof. intros w w' a Hr. pose proof (calm_pass w) as Hc. by rewrite Hr in Hc. Qed.
End Upon.
Create HintDb within.
#[export] Hint Extern 0 (PreOrder _) => exact _ : within.
#[export] Hint Resolve within_lift within_reject within_ret within_ask within_get within_put within_store within_pass : within.
Ltac inward :=
  repeat first
    [ match goal with |- forall _, _ => intro end
    | solve [eauto with within]
    | match goal with
      | |- within _ (mbind _ _) => eapply within_bind; [exact _| |]
      | |- within _ (if ?b then _ else _) => destruct b
      | |- within _ (match ?x with _ => _ end) => destruct x
      end ].

(** What is known of the guard besides its state. *)
Ltac stage :=
  repeat (cbn beta in *; first
    [ match goal with
      | |- forall _, _ => intro
      | H : ?l = [] |- _ => subst l
      | |- upon (fun g => _ /\ _) _ _ => apply upon_pure; intro
      | |- upon (fun g => exists _, _) _ _ => apply upon_ex; intro
      | |- hands_upon (fun g => _ /\ _) _ _ => apply hands_upon_pure; intro
      | |- hands_upon (fun g => exists _, _) _ _ => apply hands_upon_ex; intro
      | H : _ /\ _ |- _ => destruct H
      end ]).

(** A step within a relation that what is known of the guard survives ([kept] says so), and
    what it logs. *)
Ltac walk_by kept :=
  repeat (stage; match goal with
    | |- upon _ (reject _) _ => apply upon_reject
    | |- hands_upon _ (reject _) _ => apply hands_upon_reject
    | |- upon _ (mbind _ _) _ => eapply upon_bind; [kept (); [solve [eauto with logs]|solve [inward]]|]
    | |- hands_upon _ (mbind _ _) _ => eapply hands_upon_bind; [kept (); [solve [eauto with logs]|solve [inward]]|]
    | |- upon _ (if ?b then _ else _) _ => destruct b eqn:?
    | |- hands_upon _ (if ?b then _ else _) _ => destruct b eqn:?
    end); stage.

Section Within.
Context `{Base64} `{Http} `{Urls} `{HttpMessage}.
Context {F : Type} `{Observer F} {R : Type} `{RemoteContext R}.
Context (env : Env F R) (cfg : Configuration) (opts : SessionOptions).
Abbreviation P := (Prog F R).
Abbreviation G := (Guard F R).
Context (rel : relation G).
Abbreviation inside := (within rel).

Section Same.
Context `{!Steady rel}.

Lemma record_same (g : G) es : rel g (record_many g es).1.
Proof.
  destruct (record_many g es) as [g' r] eqn:E. apply record_frame in E as (Hs & _ & _ & Hw & Hr).
  apply steady_same; cbn; unfold guard_op; by rewrite ?Hs.
Qed.
Lemma views_same (g : G) d vs cs : rel g (content_views g d vs cs).1.
Proof.
  revert g. induction cs as [|c cs IH]; intros g; cbn [content_views]; [done|].
  pose proof (record_same g (map (content_event g d c) vs)) as Hr.
  destruct (record_many g _) as [g1 [[]|e]]; [|done]. etransitivity; [exact Hr|apply IH].
Qed.
Lemma within_record es : inside (run_guard (fun g => record_many g es)).
Proof. apply within_run. intros g [] _. apply record_same. Qed.
Lemma within_views d vs cs : inside (run_guard (fun g => content_views g d vs cs)).
Proof. apply within_run. intros g [] _. apply views_same. Qed.
Lemma within_end d vs : inside (run_guard (fun g => end_content g d vs)).
Proof. apply within_run. intros g [] _. apply record_same. Qed.
Lemma within_active : inside (run_guard (fun g => (with_active g, Ok tt))).
Proof. apply within_run. intros g a _. by apply steady_same. Qed.
Lemma within_recorded : inside (run_guard (fun g => (with_recorded g, Ok tt))).
Proof. apply within_run. intros g a _. by apply steady_same. Qed.
Lemma within_transition next code :
  inside (run_guard (fun g => let (o, r) := transition (guard_op g) next code in (with_op g o, r))).
Proof.
  apply within_run. intros g a _. apply steady_same; unfold transition; by destruct (terminal _).
Qed.
Lemma within_begin : inside (run_guard begin_dispatch).
Proof.
  apply within_run. intros g a _. apply steady_same; unfold begin_dispatch, commit_authority, commit_dispatch;
    destruct (Session_check _) as [[]|]; cbn; try (destruct (_ || _)); cbn; try done; unfold op_cancel;
    repeat (case_bool_decide || destruct (terminal _) || done).
Qed.
End Same.
Context `{!Calm env rel}.
#[local] Hint Resolve within_record within_views within_end within_active within_recorded within_transition within_begin : within.
#[local] Hint Extern 0 (Calm _ _) => eassumption : within.
#[local] Instance inside_steady : Steady rel := calm_steady env.
#[local] Hint Extern 0 (Steady _) => exact _ : within.

Lemma within_await : inside (await env).
Proof. unfold await. inward. Qed.
Lemma within_check : inside (check_session env).
Proof. unfold check_session. inward. Qed.
Lemma within_move next code : inside (move_to env next code).
Proof. unfold move_to. inward. Qed.
Lemma within_evidence es : inside (evidence env es).
Proof. unfold evidence. inward. Qed.
#[local] Hint Resolve within_await within_check within_move within_evidence : within.
Lemma within_both d x : inside (evidence_both env d x).
Proof. apply within_evidence. Qed.
Lemma within_resolve st re l : inside (resolve_current env st re l).
Proof. unfold resolve_current. inward. Qed.
Lemma within_commit : inside (commit env).
Proof. unfold commit. inward. Qed.
#[local] Hint Resolve within_both : within.
Lemma within_approve id l : inside (approve_operation env cfg id l).
Proof. unfold approve_operation. inward. Qed.
End Within.
#[export] Hint Extern 0 (Calm _ _) => exact _ : within.
#[export] Hint Extern 0 (Steady _) => exact _ : within.
#[export] Hint Resolve within_record within_views within_end within_active within_recorded within_transition
  within_await within_check within_move within_evidence within_both within_resolve within_commit within_approve : within.

(** ** The hand-off *)

Section Handoff.
Context `{Base64} `{Http} `{Urls} `{HttpMessage} (json_string : list byte -> option (list byte)).
Context {F : Type} `{Observer F} {R : Type} `{RemoteContext R}.
Context (env : Env F R) (cfg : Configuration) (opts : SessionOptions).
Abbreviation P := (Prog F R).
Abbreviation hands_off := (hands_off (F:=F) (R:=R)).
Abbreviation logs := (logs (F:=F) (R:=R)).

(** What one hand-off was decided on. *)
Record Grant := mkGrant {
  g_profile : ResourceProfile; g_target : Target; g_body : list byte; g_route : Route;
  g_id : string; g_header : string; g_prefix : string; g_provider : ProviderKind; g_item : Item;
  g_found : list SocketAddr; g_endpoint : Endpoint;
  g_reference : string; g_metadata : ItemMetadata; g_snapshot : Snapshot;
  g_request : HttpRequest; g_redactor : Redactor; g_authority : Authority }.

(** The policy of the host, the session and the profile admits the request. *)
Record admitted (req : ExecuteRequest) (g : Grant) : Prop := {
  in_session : resource req ∈ o_resources opts;
  of_host : find_first (fun p => bool_decide (profile_id p = resource req)) (profiles cfg) = Some (g_profile g);
  to_target : Target_parse (target req) = Ok (g_target g);
  with_body : decode_body req = Ok (g_body g);
  by_route : authorize (g_profile g) (method req) (g_target g) (len (g_body g)) = Ok (g_route g);
  by_headers : authorize_headers (g_route g) (headers req) = Ok tt;
  no_context : auth_context req = None;
  by_key : auth (g_profile g) = ApiKey (g_id g) (g_header g) (g_prefix g) (g_provider g);
  inspected : on_inspect env (g_provider g) (g_body g) = Ok tt;
  of_catalog : find_first (fun i => bool_decide (item_id i = g_id g)) (items (catalog cfg)) = Some (g_item g);
  of_options : item_allowed opts (g_item g) = true;
  to_addresses : permits_all (addresses (g_profile g)) (map fst (g_found g)) = true;
  to_port : Forall (fun a => a.2 = target_port (g_target g)) (g_found g);
  to_first : exists a rest, g_found g = a :: rest /\ Endpoint_new (profile_origin (g_profile g)) a = Ok (g_endpoint g);
  of_store : store (credential (g_item g)) ∈ stores cfg;
  of_reference : ItemRef_new (key (credential (g_item g))) = Ok (g_reference g) }.

(** The credential was inserted into that request and no other. *)
Definition inserted (req : ExecuteRequest) (g : Grant) : Prop :=
  exists k out, PreparedKey_new json_string (g_snapshot g) (g_prefix g) = Ok k
    /\ outgoing_request req (g_target g) (g_provider g) (g_body g) = Ok out
    /\ inject k out (g_header g) = Ok (g_request g, g_redactor g).

(** The calls up to the commit, from the first custody check. *)
Definition custody_calls (req : ExecuteRequest) (g : Grant) : list Call :=
  let held := Revalidated (store (credential (g_item g))) (g_reference g) (lease (g_metadata g)) in
  [held; Released (store (credential (g_item g))) (g_reference g) (lease (g_metadata g)) (g_snapshot g);
   Evidence [emission Outbound Upstream
     (RequestStart (method req) (profile_origin (g_profile g) ++ path (g_target g))
        (observed_headers (http_headers (g_request g))))];
   Evidence [emission Outbound Agent (AuthTransition (g_id g) true);
             emission Outbound Upstream (AuthTransition (g_id g) true)];
   held;
   Evidence [emission Outbound Agent (PolicyDecision Allow None);
             emission Outbound Upstream (PolicyDecision Allow None)];
   Committed (g_authority g)].

(** All of them, in order, when the request is handed off. *)
Definition granted_calls (req : ExecuteRequest) (g : Grant) : list Call :=
  let host := trim_brackets (target_host (g_target g)) in
  [Evidence [emission Outbound Agent
     (RequestStart (method req) (profile_origin (g_profile g) ++ path (g_target g)) (safe_headers (headers req)))];
   Resolved host (target_port (g_target g)) (g_found g);
   Described (store (credential (g_item g))) (g_reference g) (g_metadata g)]
  ++ (if requires_approval (host_require_approval cfg) (o_require_approval opts)
           (require_approval (g_route g)) (approval (g_item g)) true
      then approval_calls (g_id g) (lease (g_metadata g)) else [])
  ++ custody_calls req g.

Lemma decode_body_again req body : decode_body req = Ok body ->
  ok_or (decode STANDARD (as_bytes (body_base64 req))) (Error_new RequestInvalid) = Ok body.
Proof.
  unfold decode_body. destruct (ok_or _ _) as [b|e]; [|done]. cbn. by case_bool_decide; intros [= ->].
Qed.

Lemma admit_ok req p t body r : admit_request cfg opts req = Ok (p, t, body, r) ->
  resource req ∈ o_resources opts
  /\ find_first (fun p => bool_decide (profile_id p = resource req)) (profiles cfg) = Some p
  /\ Target_parse (target req) = Ok t /\ decode_body req = Ok body
  /\ authorize p (method req) t (len body) = Ok r /\ authorize_headers r (headers req) = Ok tt.
Proof.
  unfold admit_request. case_bool_decide; [|done]. cbn.
  destruct (find_first _ _); [|done]. cbn. destruct (Target_parse _); [|done]. cbn.
  destruct (decode_body _); [|done]. cbn. destruct (authorize _ _ _ _) eqn:E1; [|done]. cbn.
  destruct (authorize_headers _ _) as [[]|] eqn:E2; [|done]. cbn. intros [= <- <- <- <-]. done.
Qed.

Lemma admit_key_ok req p body id header prefix provider item :
  admit_key env cfg opts req p body = Ok (id, header, prefix, provider, item) ->
  auth_context req = None /\ auth p = ApiKey id header prefix provider
  /\ on_inspect env provider body = Ok tt
  /\ find_first (fun i => bool_decide (item_id i = id)) (items (catalog cfg)) = Some item
  /\ item_allowed opts item = true.
Proof.
  unfold admit_key. case_bool_decide as Hc; [done|]. apply eq_None_not_Some in Hc.
  destruct (auth p); try done. destruct (_ && _); [done|]. destruct (_ && _); [done|].
  destruct (on_inspect _ _ _) as [[]|] eqn:E1; [|done]. cbn.
  destruct (find_first _ _) eqn:E2; [|done]. cbn. destruct (item_allowed _ _) eqn:E3; [|done].
  by intros [= <- <- <- <- <-].
Qed.

Lemma admit_addresses_ok p t found e : admit_addresses p t found = Ok e ->
  permits_all (addresses p) (map fst found) = true /\ Forall (fun a => a.2 = target_port t) found
  /\ exists a rest, found = a :: rest /\ Endpoint_new (profile_origin p) a = Ok e.
Proof.
  unfold admit_addresses. destruct (existsb _ _) eqn:E1; [done|]. cbn.
  destruct (permits_all _ _); [|done]. cbn. intros He. split; [done|]. split.
  - apply Forall_forall. intros a Ha. destruct (Z.eq_dec a.2 (target_port t)) as [->|Hn]; [done|].
    exfalso. apply not_true_iff_false in E1. apply E1. apply existsb_exists. exists a.
    split; [by apply list_elem_of_In|]. by apply negb_true_iff, Z.eqb_neq.
  - destruct found as [|a rest]; [done|]. by exists a, rest.
Qed.


Lemma logs_prepare req p t body r id header prefix provider item found e reference m :
  logs (prepare json_string env req p t body id header prefix provider item reference m) (fun x l =>
    exists s a, let g := mkGrant p t body r id header prefix provider item found e reference m s x.1 x.2 a in
      inserted req g /\ l = custody_calls req g /\ Session_check a = Ok tt).
Proof.
  unfold prepare. chain. subst. cbn [fst snd]. unfold custody_calls; cbn.
  do 2 eexists. split; [|split; [|done]]; [|reflexivity].
  do 2 eexists. by split_and!.
Qed.

Lemma logs_prepared req p t body id header prefix provider item reference m :
  logs (prepare json_string env req p t body id header prefix provider item reference m) (fun _ _ => True).
Proof. unfold prepare. by chain. Qed.
Lemma logs_receive response redactor : logs (receive json_string env response redactor) (fun _ _ => True).
Proof. unfold receive. by chain. Qed.
#[local] Hint Resolve logs_prepare logs_receive : logs.

(** The hand-off is the first call of its step, and nothing after it is one. *)
Lemma hands_off_execute {A} e out (k : HttpResponse -> P A) :
  (forall x, logs (k x) (fun _ _ => True)) ->
  hands_off (execute env e out ≫= k) (fun l => exists rest, l = Executed e out :: rest /\ no_execution rest).
Proof.
  intros Hk w w' r Hr. unfold execute in Hr.
  assert (Ht : logs (await env ≫= fun _ => ask (fun n => on_execute env n out) ≫= lift) (fun _ _ => True)) by (by chain).
  set (w0 := mkWorld (guard w) (steps w) (log w ++ [Executed e out])).
  assert (Hl : exists l, log w' = log w0 ++ l /\ no_execution l).
  { assert (Hb : logs ((await env ≫= fun _ => ask (fun n => on_execute env n out) ≫= lift) ≫= k) (fun _ _ => True)).
    { eapply logs_bind; [exact Ht|]. intros a l _. apply Hk. }
    destruct (Hb w0 w' r) as (l & ? & ? & _); [exact Hr|by exists l]. }
  destruct Hl as (l & E & Hn). exists (Executed e out :: l). rewrite E. cbn. rewrite <-app_assoc. eauto 10.
Qed.

(** C1: a request leaves the broker only when the session, the catalog and the profile
    admit_request resource, target, body, route, headers and item, every resolved address
    and port is allowed and the first one is dialled; and by then, in this order:
    the request was recorded, the name resolved, the item described, approval
    obtained when any of the four switches asks for it, the lease revalidated, the
    secret released under that lease and inserted into the one outgoing request,
    the insertion and the Allow decision accepted as evidence after a second
    revalidation, and the dispatch committed under a live session. It leaves once. *)
Theorem dispatch_authorized req (w w' : World F R) res :
  dispatch json_string env cfg opts req w = (w', res) ->
  exists l, log w' = log w ++ l /\ (no_execution l \/
    exists g rest, l = granted_calls req g ++ Executed (g_endpoint g) (g_request g) :: rest
      /\ admitted req g /\ inserted req g /\ Session_check (g_authority g) = Ok tt /\ no_execution rest).
Proof.
  assert (Hd : hands_off (dispatch json_string env cfg opts req) (fun l =>
    exists g rest, l = granted_calls req g ++ Executed (g_endpoint g) (g_request g) :: rest
      /\ admitted req g /\ inserted req g /\ Session_check (g_authority g) = Ok tt /\ no_execution rest)).
  { unfold dispatch. hand. match goal with H : let _ := _ in _ |- _ => destruct H as (Hi & -> & Hs) end. cbn [fst snd] in *.
    subst. cbn [app]. eapply hands_off_weaken; [apply hands_off_execute; intros; apply logs_receive|].
    intros l' (rest & -> & Hn). eexists _, rest. split; [|split; [|split; [exact Hi|by split]]].
    - unfold granted_calls. cbn. rewrite <-app_assoc. reflexivity.
    - repeat match goal with
      | H : admit_request _ _ _ = Ok _ |- _ => apply admit_ok in H
      | H : admit_key _ _ _ _ _ _ = Ok _ |- _ => apply admit_key_ok in H
      | H : admit_addresses _ _ _ = Ok _ |- _ => apply admit_addresses_ok in H
      | H : decode_body _ = Ok ?b, H' : ok_or (decode _ _) _ = Ok _ |- _ =>
          rewrite (decode_body_again _ _ H) in H'; injection H' as <-
      | H : negb (bool_decide _) = false |- _ => apply negb_false_iff, bool_decide_eq_true_1 in H
      | H : _ /\ _ |- _ => destruct H
      end.
      by constructor. }
  intros Hr. exact (Hd _ _ _ Hr).
Qed.
End Handoff.

(** ** The outcome of a dispatched request *)

Section Outcome.
Context `{Base64} `{Http} `{Urls} `{HttpMessage} (json_string : list byte -> option (list byte)).
Context {F : Type} `{Observer F} {R : Type} `{RemoteContext R}.
Context (env : Env F R) (cfg : Configuration) (opts : SessionOptions).
Abbreviation W := (World F R).
Abbreviation P := (Prog F R).

(** Nothing takes a committed dispatch back. *)
Lemma move_dispatched `{!ObserverLaws F} (g : Guard F R) m : dispatched g = true -> dispatched (do_move g m) = true.
Proof.
  intros Hd. destruct m as [os|ff| | |next code|es|d l|w b r| | |code|reason]; cbn [do_move]; try done.
  - destruct (record_many g es) as [g1 r] eqn:E. apply record_frame in E as (_ & _ & E & _). cbn; congruence.
  - unfold content_both. destruct (content_views _ _ _ _) as [g1 r] eqn:E. apply content_frame in E as (_ & _ & E).
    cbn; congruence.
  - destruct (begin_dispatch g) as [g1 r] eqn:E. apply begin_dispatch_spec in E as (_ & _ & E). cbn.
    destruct r; destruct E as (? & ?); [|congruence]. by destruct_and!.
  - destruct (complete g) as [g1 r] eqn:E. apply complete_spec in E as (_ & E & _). cbn; congruence.
  - destruct (complete_local g code) as [g1 r] eqn:E. apply complete_local_spec in E as (_ & E & _). cbn; congruence.
  - destruct (guard_fail_spec g reason) as (_ & E & _). cbn; congruence.
Qed.
Lemma life_dispatched `{!ObserverLaws F} ms (g : Guard F R) : dispatched g = true -> dispatched (life g ms) = true.
Proof. revert g. induction ms as [|m ms IH]; intros g Hd; [done|]. by apply IH, move_dispatched. Qed.

(** A program that hands off only once its dispatch is committed. *)
Definition committed {A} (d : bool) (m : P A) : Prop :=
  forall w w' r, dispatched (guard w) = d -> m w = (w', r) ->
    exists l, log w' = log w ++ l /\ (no_execution l \/ dispatched (guard w') = true).

Lemma committed_bind {A B} d (m : P A) (k : A -> P B) d' p :
  guided d d' m -> logs m p -> (forall a, committed d' (k a)) -> committed d (m ≫= k).
Proof.
  intros Hg Hm Hk w w' r Hd Hr. unfold mbind, prog_bind in Hr. destruct (m w) as [w1 [a|e]] eqn:E.
  - destruct (Hm _ _ _ E) as (l & L1 & L2 & _). destruct (Hg _ _ _ Hd E) as (_ & _ & _ & Hd').
    destruct (Hk a _ _ _ (Hd' eq_refl) Hr) as (l' & K1 & K2). exists (l ++ l').
    rewrite K1, L1, <-app_assoc. split; [done|]. destruct K2; [left; by apply Forall_app|by right].
  - injection Hr as <- <-. destruct (Hm _ _ _ E) as (l & L1 & L2 & _). eauto.
Qed.
Lemma committed_tail `{!ObserverLaws F} {A} d (m : P A) Q : guided true d m -> hands_off m Q -> committed true m.
Proof.
  intros Hg Hm w w' r Hd Hr. destruct (Hm _ _ _ Hr) as (l & L & _). exists l. split; [done|]. right.
  destruct (Hg _ _ _ Hd Hr) as (ms & _ & -> & _). by apply life_dispatched.
Qed.
Lemma committed_reject {A} d c : committed d (reject c : P A).
Proof. intros w w' r _ [= <- <-]. exists []. rewrite app_nil_r. split; [done|]. left. by apply Forall_nil_2. Qed.

#[local] Hint Resolve guided_lift guided_ask guided_put guided_store guided_active guided_evidence guided_await
  guided_check guided_if_needed guided_prepare guided_move_to : guided.
#[local] Hint Resolve logs_lift logs_ask logs_put logs_store logs_run logs_evidence logs_await logs_check
  logs_if_needed logs_prepared logs_move : logs.

Lemma committed_dispatch `{!ObserverLaws F} req : committed false (dispatch json_string env cfg opts req : P Sanitized).
Proof.
  unfold dispatch. repeat first
    [ match goal with |- forall _, _ => intro end
    | match goal with
      | |- committed _ (reject _) => apply committed_reject
      | |- committed true _ => eapply committed_tail;
          [eapply guided_bind; [apply guided_execute|intros; apply guided_receive]
          |apply hands_off_execute; intros; apply logs_receive]
      | |- committed _ (mbind _ _) => eapply committed_bind; [solve [eauto with guided]|solve [eauto with logs]|]
      | |- committed _ (mbind _ _) => eapply committed_bind; [apply guided_move_to; cbn; set_solver|solve [eauto with logs]|]
      | |- committed _ (if ?b then _ else _) => destruct b
      | |- committed _ (match ?x with _ => _ end) => destruct x
      end ].
Qed.

(** C2: what a request is reported as never contradicts what was done with it.
    Whatever the stores, resolver, inspector, transport and approver answer, and
    whatever other actors, cancellation and expiry do at every step: once a tracked
    request's dispatch and everything after it are over and its guard is gone, its
    operation is terminal; if the request may have left the broker it is [Completed]
    or of unknown outcome, and a request whose dispatch succeeded did commit. *)
Theorem dispatch_outcome `{!ObserverLaws F} a req (f : F) n (w' : W) res (ms : list (Move F R)) :
  dispatch json_string env cfg opts req (mkWorld (tracked a req f) n []) = (w', res) ->
  lives (guard w') ms ->
  let o := guard_op (guard_drop (life (guard w') ms)) in
  terminal (op_state o) = true
  /\ (is_ok res = true \/ ~ no_execution (log w') -> op_state o = Completed \/ op_state o = OpOutcomeUnknown)
  /\ (dispatched (life (guard w') ms) = false -> op_state o <> OpOutcomeUnknown).
Proof.
  intros Hr Hl o.
  destruct (guided_dispatch json_string env cfg opts req _ _ _ (eq_refl : dispatched (guard (mkWorld (tracked a req f) n [])) = false) Hr)
    as (ms0 & L0 & E0 & D0).
  destruct (committed_dispatch req _ _ _ (eq_refl : dispatched (guard (mkWorld (tracked a req f) n [])) = false) Hr)
    as (l & El & Hx). cbn in L0, E0, El.
  destruct (tracked_outcome a req f (ms0 ++ ms)) as (O1 & O2 & O3).
  { apply lives_app; [done|]. by rewrite <-E0. }
  rewrite life_app, <-E0 in O1, O2, O3. split; [done|]. split; [|done].
  intros Hs. apply O2, life_dispatched. destruct Hs as [Hs|Hs]; [by apply D0|].
  destruct Hx as [Hx|Hx]; [|done]. destruct Hs. by rewrite El.
Qed.
End Outcome.
