(* ===== verification/Immediate.v ===== *)
(** * Immediate placeholder redaction ([aap-auth/src/placeholders/immediate.rs])

    The redactor of interactive streams: it withholds no byte of a chunk from its
    output, so a token that may continue in the next chunk is masked at once and
    never shown again. Its output is compared with the cutting of the whole stream. *)
From S2P Require Import Prelude Protocol Ids Redaction.

(** ** Candidates *)

(** `aap-auth/src/placeholders/immediate.rs:58-62`, `Candidate` *)
Inductive Candidate := No | Partial | CompleteAt (count : nat).

(** `aap-auth/src/placeholders/immediate.rs:136-140`, `candidate` (the prefixes of a token) *)
Definition token_prefixes : list (list byte) := map as_bytes ["aap_un1_"; "aap_pw1_"; "aap_cs1_"].
Definition token_prefix (l : list byte) : bool := existsb (fun p => starts_with p l) token_prefixes.

Definition is_hex (b : byte) : bool := match hex b with Some _ => true | None => false end.

(** `aap-auth/src/placeholders/immediate.rs:102-134`, `candidate` (one spelled byte:
    its value and its length, or the answer) *)
Definition candidate_octet (next : list byte) : Candidate + byte * nat :=
  match next with
  | [] => inl Partial
  | b :: rest =>
      if bool_decide (b = "%"%char) then
        if (length next <? 3)%nat then inl (if forallb is_hex rest then Partial else No)
        else
          match rest with
          | h :: l :: _ =>
              match hex h, hex l with
              | Some high, Some low => inr (byte_of (high * 16 + low), 3%nat)
              | _, _ => inl No
              end
          | _ => inl No
          end
      else if bool_decide (b = "\"%char) then
        if (length next <? 4)%nat then inl (if starts_with (as_bytes "\u00") next then Partial else No)
        else if negb (starts_with next (as_bytes "\u00")) then inl No
        else if (length next <? 6)%nat then inl (if forallb is_hex (drop 4 next) then Partial else No)
        else
          match drop 4 next with
          | h :: l :: _ =>
              match hex h, hex l with
              | Some high, Some low => inr (byte_of (high * 16 + low), 6%nat)
              | _, _ => inl No
              end
          | _ => inl No
          end
      else inr (b, 1%nat)
  end.

(** `aap-auth/src/placeholders/immediate.rs:75-82`, `candidate` (an octet of base64) *)
Definition base64_octet (b : byte) : bool := is_ascii_alphanumeric b || bool_decide (b ∈ as_bytes "+/-_").

(** What is relied on of the padded engines: text that decodes without padding, four
    symbols to three bytes, consists of symbols of the alphabet. *)
Class Base64Symbols `{Base64} : Prop := {
  decoded_symbols e x v : e ∈ [STANDARD; URL_SAFE] -> decode e x = Some v ->
    (4 * length v = 3 * length x)%nat -> forallb base64_octet x = true }.

Section Immediate.
Context `{Base64}.

(** `aap-auth/src/placeholders/immediate.rs:93-152`, `candidate` (the decoding loop, with
    [n] bytes to decode) *)
Fixpoint candidate_token (n : nat) (decoded next : list byte) (position : nat) : Candidate :=
  match n with
  | O => if valid_token decoded then CompleteAt position else No
  | S n =>
      match candidate_octet next with
      | inl c => c
      | inr (value, count) =>
          let decoded := decoded ++ [value] in
          if (length decoded <=? 8)%nat
          then if token_prefix decoded then candidate_token n decoded (drop count next) (position + count) else No
          else if token_octet value then candidate_token n decoded (drop count next) (position + count)
          else No
      end
  end.

(** `aap-auth/src/placeholders/immediate.rs:64-152`, `candidate` *)
Definition candidate (input : list byte) : Candidate :=
  match input with
  | [] => No
  | b :: _ =>
      if bool_decide (b = "Y"%char) then
        if (length input <? 4)%nat then if starts_with (as_bytes "YWFw") input then Partial else No
        else if negb (starts_with input (as_bytes "YWFw")) then No
        else if (length input <? 68)%nat then if forallb base64_octet input then Partial else No
        else match recognizable input with Some n => CompleteAt n | None => No end
      else if negb (bool_decide (b ∈ as_bytes "a%\")) then No
      else candidate_token DECODED_LEN [] input 0
  end.

(** ** The redactor *)

(** `aap-auth/src/placeholders/immediate.rs:4-8`, `ImmediatePlaceholderRedactor` *)
Record Immediate := mkImmediate { m_pending : list byte; m_done : bool }.
Definition Immediate_default : Immediate := mkImmediate [] false.

(** `aap-auth/src/placeholders/immediate.rs:27-51`, `ImmediatePlaceholderRedactor::feed` (the
    loop from [position], where [rest] is what is left of the input) *)
Fixpoint immediate_scan (fuel hidden position : nat) (rest : list byte) (fin : bool) : list byte * list byte :=
  match fuel, rest with
  | S fuel, b :: tail =>
      let marker := if (hidden <=? position)%nat then MARKER else [] in
      match candidate rest with
      | CompleteAt n =>
          let (o, p) := immediate_scan fuel hidden (position + n) (drop n rest) fin in (marker ++ o, p)
      | Partial => (marker, if fin then [] else rest)
      | No =>
          let (o, p) := immediate_scan fuel hidden (position + 1) tail fin in
          ((if (hidden <=? position)%nat then [b] else []) ++ o, p)
      end
  | _, _ => ([], [])
  end.

(** `aap-auth/src/placeholders/immediate.rs:18-55`, `ImmediatePlaceholderRedactor::feed` *)
Definition feed_immediate (r : Immediate) (chunk : list byte) (fin : bool) : Immediate * Result (list byte) :=
  if m_done r || (MAX_FEED <? len chunk) then (r, fail LimitExceeded)
  else
    let input := m_pending r ++ chunk in
    let (o, p) := immediate_scan (length input) (length (m_pending r)) 0 input fin in
    (mkImmediate p fin, Ok o).

(** ** What a candidate decides *)

(** What does not begin a word never does. *)
Lemma mismatch_stays p x y : starts_with p x = false -> starts_with p (x ++ y) = false.
Proof.
  intros Hx. apply not_true_is_false. rewrite starts_with_spec. intros [k ->].
  rewrite (proj2 (starts_with_spec _ x)) in Hx; [done|]. exists (y ++ k). by rewrite app_assoc.
Qed.
Lemma mismatch_final p x y : (length x <= length p)%nat -> starts_with p x = false -> starts_with (x ++ y) p = false.
Proof.
  intros Hl Hx. apply not_true_is_false. rewrite starts_with_spec. intros [k Hk].
  assert (Hp : p = x ++ drop (length x) p).
  { rewrite <-(take_drop (length x) p) at 1. f_equal. apply (f_equal (take (length x))) in Hk.
    rewrite take_app_length, take_app_le in Hk by lia. done. }
  rewrite (proj2 (starts_with_spec p x)) in Hx; [done|]. by eexists.
Qed.
Lemma not_hex b : is_hex b = false -> hex b = None.
Proof. unfold is_hex. by destruct (hex b). Qed.

(** A decision holds whatever follows. *)
Lemma octet_decided x y : candidate_octet x <> inl Partial -> candidate_octet (x ++ y) = candidate_octet x.
Proof.
  destruct x as [|b x]; [done|]. cbn [candidate_octet app]. change (b :: x ++ y) with ((b :: x) ++ y).
  rewrite !length_app. destruct (bool_decide (b = "%"%char)).
  { destruct x as [|h [|l x]]; cbn [length Nat.add Nat.ltb Nat.leb forallb app andb]; [done| |done].
    destruct (is_hex h) eqn:Hh; [done|]. rewrite (not_hex _ Hh). intros _. by destruct y. }
  destruct (bool_decide (b = "\"%char)); [|done].
  destruct (Nat.ltb_spec (length (b :: x)) 4) as [Hl|Hl].
  { destruct (starts_with (as_bytes "\u00") (b :: x)) eqn:Hs; [done|]. intros _.
    rewrite mismatch_stays, mismatch_final by (done || (cbn in *; lia)). by destruct (_ <? _)%nat. }
  rewrite (proj2 (Nat.ltb_ge _ 4)) by lia. rewrite starts_with_app by done.
  destruct (starts_with (b :: x) _); cbn [negb]; [|done]. rewrite drop_app_le by done.
  assert (Hd : length (drop 4 (b :: x)) = (length (b :: x) - 4)%nat) by apply length_drop.
  destruct (drop 4 (b :: x)) as [|h [|l r]]; cbn [length app forallb andb] in *.
  - rewrite (proj2 (Nat.ltb_lt _ 6)) by lia. done.
  - rewrite (proj2 (Nat.ltb_lt (S (length x)) 6)) by lia.
    destruct (is_hex h) eqn:Hh; [done|]. intros _. rewrite (not_hex _ Hh). destruct (_ <? _)%nat; by destruct y.
  - rewrite !(proj2 (Nat.ltb_ge _ 6)) by lia. done.
Qed.

(** An octet of a candidate is the octet of the recognizer. *)
Lemma octet_is x v k : candidate_octet x = inr (v, k) -> octet x = Some (v, k).
Proof.
  destruct x as [|b x]; [done|]. cbn [candidate_octet octet]. destruct (bool_decide (b = "%"%char)) eqn:Hb.
  { destruct x as [|h [|l x]]; cbn [length Nat.ltb Nat.leb lookup list_lookup]; [done..|].
    cbn. destruct (hex h), (hex l); cbn; naive_solver. }
  destruct (bool_decide (b = "\"%char)); cbn [andb]; [|naive_solver].
  destruct (_ <? 4)%nat; [done|]. destruct (starts_with (b :: x) _); cbn [negb]; [|done].
  destruct (_ <? 6)%nat; [done|]. destruct (drop 4 (b :: x)) as [|h [|l r]] eqn:Hd; [done..|].
  assert (H4 : (b :: x) !! 4%nat = Some h) by (by rewrite <-(Nat.add_0_r 4), <-lookup_drop, Hd).
  assert (H5 : (b :: x) !! 5%nat = Some l) by (by change 5%nat with (4 + 1)%nat; rewrite <-lookup_drop, Hd).
  rewrite H4, H5. cbn. destruct (hex h), (hex l); cbn; naive_solver.
Qed.
Lemma octet_no x c : candidate_octet x = inl c ->
  (c = No \/ c = Partial) /\ forall v k, octet x = Some (v, k) -> token_octet v = false.
Proof.
  destruct x as [|b x]; [naive_solver|]. cbn [candidate_octet octet]. destruct (bool_decide (b = "%"%char)) eqn:Hb.
  { destruct x as [|h [|l x]]; cbn [length Nat.ltb Nat.leb].
    - intros [= <-]. naive_solver.
    - intros [= <-]. split; [case_match; auto|]. cbn. by destruct (hex h).
    - cbn. destruct (hex h), (hex l); cbn; naive_solver. }
  destruct (bool_decide (b = "\"%char)) eqn:Hs; [|done]. apply bool_decide_eq_true in Hs as ->. cbn [andb].
  destruct (Nat.ltb_spec (length ("\"%char :: x)) 4) as [Hl|_].
  { intros [= <-]. split; [case_match; auto|]. intros v k.
    destruct (starts_with ("\"%char :: x) _) eqn:Hu; [|by intros [= <- _]].
    apply starts_with_spec in Hu as [r Hr]. rewrite Hr in Hl. cbn in Hl. lia. }
  destruct (starts_with ("\"%char :: x) _); cbn [negb]; [|naive_solver].
  destruct (Nat.ltb_spec (length ("\"%char :: x)) 6) as [Hl|_].
  { intros [= <-]. split; [case_match; auto|]. rewrite (lookup_ge_None_2 _ 5) by lia.
    destruct (_ !! 4%nat); cbn; [|done]. by destruct (hex _). }
  destruct (drop 4 ("\"%char :: x)) as [|h [|l r]] eqn:Hd.
  1,2: intros [= <-]; split; [by left|]; rewrite (lookup_ge_None_2 _ 5);
    [destruct (_ !! 4%nat); cbn; [|done]; by destruct (hex _)
    |apply (f_equal length) in Hd; rewrite length_drop in Hd; cbn in Hd; cbn; lia].
  assert (H4 : ("\"%char :: x) !! 4%nat = Some h) by (by rewrite <-(Nat.add_0_r 4), <-lookup_drop, Hd).
  assert (H5 : ("\"%char :: x) !! 5%nat = Some l) by (by change 5%nat with (4 + 1)%nat; rewrite <-lookup_drop, Hd).
  rewrite H4, H5. cbn. destruct (hex h), (hex l); cbn; naive_solver.
Qed.

Lemma token_decided n decoded x y position : candidate_token n decoded x position <> Partial ->
  candidate_token n decoded (x ++ y) position = candidate_token n decoded x position.
Proof.
  revert decoded x position. induction n as [|n IH]; intros decoded x position; [done|]. cbn [candidate_token].
  intros Hc. assert (Ho : candidate_octet x <> inl Partial) by (intros Ho; by rewrite Ho in Hc).
  rewrite octet_decided by done. destruct (candidate_octet x) as [c|[v k]] eqn:E; [done|].
  apply octet_is in E as E'. apply octet_count in E'. rewrite drop_app_le by lia.
  destruct (_ <=? _)%nat; [destruct (token_prefix _)|destruct (token_octet _)]; [by apply IH|done|by apply IH|done].
Qed.

Lemma token_prefix_octets l : token_prefix l = true -> Forall (fun b => token_octet b = true) l.
Proof.
  unfold token_prefix. intros Hp. apply existsb_exists in Hp as (p & Hp & Hs). apply starts_with_spec in Hs as [k Hk].
  assert (Ha : Forall (fun b => token_octet b = true) p).
  { destruct Hp as [<-|[<-|[<-|[]]]]; cbn; by repeat constructor. }
  rewrite Hk in Ha. by apply Forall_app in Ha as [? _].
Qed.
Lemma valid_prefix l k : (length l <= 8)%nat -> valid_token (l ++ k) = true -> token_prefix l = true.
Proof.
  unfold valid_token. intros Hl Hv. bool_hyps. apply existsb_exists. exists (take 8 (l ++ k)).
  match goal with HT : take 8 _ ∈ _ |- _ => split; [by apply list_elem_of_In|] end.
  apply starts_with_spec. rewrite take_app_ge by done. by eexists.
Qed.

(** The decoding loop finds what the recognizer finds. *)
Lemma candidate_token_spec n decoded next position k : (length decoded + n = DECODED_LEN)%nat ->
  candidate_token n decoded next position = CompleteAt k <->
  exists bs c, decode_token n next = Some (bs, c) /\ valid_token (decoded ++ bs) = true /\ k = (position + c)%nat.
Proof.
  revert decoded next position. induction n as [|n IH]; intros decoded next position Hn; cbn [candidate_token decode_token].
  { rewrite <-(app_nil_r decoded) at 1. split.
    - destruct (valid_token _) eqn:Hv; [|done]. intros [= <-]. exists [], 0%nat. split_and!; [done|done|lia].
    - intros (bs & c & [= <- <-] & -> & ->). f_equal. lia. }
  destruct (candidate_octet next) as [c|[v m]] eqn:E.
  { apply octet_no in E as [Hc Hv]. split; [by destruct Hc as [-> | ->]|]. intros (bs & m & Hd & _).
    destruct (octet next) as [[v w]|]; [|done]. cbn in Hd. by rewrite (Hv v w eq_refl) in Hd. }
  apply octet_is in E as ->. cbn [mbind option_bind].
  assert (Hgo : candidate_token n (decoded ++ [v]) (drop m next) (position + m) = CompleteAt k <->
    exists bs c, ('(bs, k0) ← decode_token n (drop m next); Some (v :: bs, (m + k0)%nat)) = Some (bs, c)
      /\ valid_token (decoded ++ bs) = true /\ k = (position + c)%nat).
  { rewrite IH by (rewrite length_app; cbn; lia). split.
    - intros (bs & c & Hd & Hv & ->). exists (v :: bs), (m + c)%nat. rewrite Hd. cbn.
      rewrite <-app_assoc in Hv. split_and!; [done|done|lia].
    - intros (bs & c & Hd & Hv & ->). destruct (decode_token n (drop m next)) as [[bs' c']|]; [|done].
      cbn in Hd. simplify_eq. exists bs', c'. rewrite <-app_assoc. split_and!; [done|done|lia]. }
  assert (Hno : (forall bs, valid_token (decoded ++ v :: bs) <> true) \/ token_octet v = false ->
    No = CompleteAt k <->
    exists bs c, (if token_octet v then '(bs, k0) ← decode_token n (drop m next); Some (v :: bs, (m + k0)%nat) else None) = Some (bs, c)
      /\ valid_token (decoded ++ bs) = true /\ k = (position + c)%nat).
  { intros Hx. split; [done|]. intros (bs & c & Hd & Hv & _).
    destruct (token_octet v); [|done]. destruct Hx as [Hx|]; [|done].
    destruct (decode_token n _) as [[bs' c']|]; [|done]. cbn in Hd. simplify_eq. by destruct (Hx bs'). }
  destruct (Nat.leb_spec (length (decoded ++ [v])) 8) as [Hl|Hl].
  - destruct (token_prefix (decoded ++ [v])) eqn:Hp.
    + apply token_prefix_octets, Forall_app in Hp as [_ Hp]. apply Forall_cons in Hp as [-> _]. exact Hgo.
    + apply Hno. left. intros bs Hv. change (v :: bs) with ([v] ++ bs) in Hv. rewrite app_assoc in Hv.
      by rewrite (valid_prefix _ _ Hl Hv) in Hp.
  - destruct (token_octet v) eqn:Hv; [exact Hgo|]. apply Hno. by right.
Qed.

(** A candidate is complete exactly where a placeholder is recognizable. *)
Lemma candidate_complete x n : candidate x = CompleteAt n <-> recognizable x = Some n.
Proof.
  destruct x as [|b x]; [done|]. unfold candidate.
  destruct (bool_decide_reflect (b = "Y"%char)) as [->|Hb].
  - assert (Hr : forall y : list byte, bool_decide ("Y"%char ∈ as_bytes "a%\") = false) by done.
    destruct (Nat.ltb_spec (length ("Y"%char :: x)) 4) as [Hl|Hl].
    + unfold recognizable, encoded_token. rewrite (proj2 (Nat.leb_gt _ _)) by lia. rewrite andb_false_r. cbn [andb].
      rewrite Hr by exact []. destruct (starts_with _ _); by split.
    + destruct (starts_with ("Y"%char :: x) (as_bytes "YWFw")) eqn:Hs; cbn [negb].
      2: { unfold recognizable, encoded_token. rewrite Hs. cbn [andb]. by rewrite Hr by exact []. }
      destruct (Nat.ltb_spec (length ("Y"%char :: x)) 68) as [Hl'|Hl'].
      * unfold recognizable, encoded_token. rewrite (proj2 (Nat.leb_gt _ _)) by lia. rewrite andb_false_r. cbn [andb].
        rewrite Hr by exact []. destruct (forallb _ _); by split.
      * destruct (recognizable _); split; congruence.
  - assert (He : encoded_token (b :: x) = false).
    { unfold encoded_token. cbn. rewrite bool_decide_eq_false_2 by (by intros <-). done. }
    unfold recognizable. rewrite He. destruct (bool_decide (b ∈ _)); cbn [negb]; [|done].
    rewrite candidate_token_spec by done. cbn [app]. destruct (decode_token DECODED_LEN (b :: x)) as [[t c]|]; cbn.
    + split; [intros (bs & k & [= <- <-] & -> & ->); done|]. destruct (valid_token t) eqn:Hv; [|done].
      intros [= <-]. by exists t, c.
    + split; [by intros (? & ? & ? & _)|done].
Qed.

Lemma encoded_octets `{!Base64Symbols} x : encoded_token x = true -> forallb base64_octet (take 68 x) = true.
Proof.
  unfold encoded_token. intros He. bool_hyps. match goal with HE : existsb _ _ = true |- _ => apply existsb_exists in HE end.
  match goal with HE : exists _, _ |- _ => destruct HE as (e & He & Hd) end.
  destruct (decode e (take 68 x)) as [v|] eqn:Hv; [|done]. bool_hyps. apply (decoded_symbols e _ v); [by apply list_elem_of_In|done|].
  match goal with HL : (length v =? _)%nat = true |- _ => apply Nat.eqb_eq in HL; rewrite HL end.
  match goal with HL : (68 <=? _)%nat = true |- _ => apply Nat.leb_le in HL end. rewrite length_take. unfold DECODED_LEN. lia.
Qed.

Lemma candidate_decided `{!Base64Symbols} x y : x <> [] -> candidate x <> Partial -> candidate (x ++ y) = candidate x.
Proof.
  destruct x as [|b x]; [done|]. intros _. unfold candidate. change ((b :: x) ++ y) with (b :: x ++ y). cbv iota.
  change (b :: x ++ y) with ((b :: x) ++ y). rewrite length_app. destruct (bool_decide_reflect (b = "Y"%char)) as [Hb|].
  2: { destruct (negb _); [done|]. apply token_decided. }
  assert (HY : bool_decide (b ∈ as_bytes "a%\") = false) by by subst b.
  destruct (Nat.ltb_spec (length (b :: x)) 4) as [Hl|Hl].
  { destruct (starts_with (as_bytes "YWFw") (b :: x)) eqn:Hs; [done|]. intros _.
    rewrite mismatch_stays, mismatch_final by (done || (cbn in *; lia)). by destruct (_ <? _)%nat. }
  rewrite (proj2 (Nat.ltb_ge _ 4)), starts_with_app by (done || lia).
  destruct (starts_with (b :: x) _); cbn [negb]; [|done].
  destruct (Nat.ltb_spec (length (b :: x)) 68) as [Hl'|Hl'].
  - destruct (forallb base64_octet (b :: x)) eqn:Hf; [done|]. intros _. rewrite forallb_app, Hf. cbn [andb].
    destruct (Nat.ltb_spec (length (b :: x) + length y) 68); [done|].
    destruct (recognizable ((b :: x) ++ y)) as [n|] eqn:Hr; [|done]. exfalso. unfold recognizable in Hr.
    destruct (encoded_token ((b :: x) ++ y)) eqn:He.
    + apply encoded_octets in He. rewrite firstn_app, forallb_app, (firstn_all2 (n := 68)) in He by lia.
      rewrite Hf in He. done.
    + cbn [app] in Hr. by rewrite HY in Hr.
  - intros _. rewrite (proj2 (Nat.ltb_ge _ 68)) by lia.
    replace (recognizable ((b :: x) ++ y)) with (recognizable (b :: x)); [done|]. unfold recognizable.
    rewrite encoded_token_app by done. destruct (encoded_token (b :: x)); [done|]. cbn [app]. by rewrite HY.
Qed.

Lemma candidate_count x n : candidate x = CompleteAt n -> (DECODED_LEN <= n <= length x)%nat.
Proof.
  rewrite candidate_complete. intros Hr. split; [|by apply (m_consumes _ _ recognizable_matcher) in Hr as [_ ?]].
  unfold recognizable in Hr. destruct (encoded_token x); [injection Hr as <-; unfold DECODED_LEN; lia|].
  destruct x as [|b x]; [done|]. destruct (bool_decide _); [|done].
  destruct (decode_token _ _) as [[t k]|] eqn:Hd; [|done]. cbn in Hr. destruct (valid_token t); [|done].
  injection Hr as <-. apply decode_token_count in Hd. lia.
Qed.

(** What may still become a token is shorter than the longest spelling of one. *)
Lemma octet_partial x : candidate_octet x = inl Partial -> (length x < 6)%nat.
Proof.
  destruct x as [|b x]; [cbn; lia|]. cbn [candidate_octet]. destruct (bool_decide _).
  { destruct (Nat.ltb_spec (length (b :: x)) 3); [lia|]. destruct x as [|h [|l x]]; [done..|].
    by destruct (hex h), (hex l). }
  destruct (bool_decide _); [|done]. destruct (Nat.ltb_spec (length (b :: x)) 4); [lia|].
  destruct (negb _); [done|]. destruct (Nat.ltb_spec (length (b :: x)) 6); [done|].
  destruct (drop 4 (b :: x)) as [|h [|l r]]; [done..|]. by destruct (hex h), (hex l).
Qed.
Lemma token_partial n decoded x position : candidate_token n decoded x position = Partial -> (length x < 6 * n)%nat.
Proof.
  revert decoded x position. induction n as [|n IH]; intros decoded x position; cbn [candidate_token]; [by case_match|].
  destruct (candidate_octet x) as [c|[v k]] eqn:E; [intros ->; apply octet_partial in E; lia|].
  apply octet_is, octet_count in E. intros Hc.
  assert (Hd : candidate_token n (decoded ++ [v]) (drop k x) (position + k) = Partial) by by repeat case_match.
  apply IH in Hd. rewrite length_drop in Hd. lia.
Qed.
Lemma candidate_partial x : candidate x = Partial -> x <> [] /\ (length x < MAX_ENCODED)%nat.
Proof.
  destruct x as [|b x]; [done|]. intros Hc. split; [done|]. unfold candidate in Hc. unfold MAX_ENCODED, DECODED_LEN.
  destruct (bool_decide (b = "Y"%char)).
  - destruct (Nat.ltb_spec (length (b :: x)) 4); [lia|]. destruct (negb _); [done|].
    destruct (Nat.ltb_spec (length (b :: x)) 68); [lia|]. by destruct (recognizable _).
  - destruct (negb _); [done|]. apply token_partial in Hc. unfold DECODED_LEN in Hc. lia.
Qed.

(** ** The pieces of a stream *)

(** A stream cut at its tokens: an unfinished one at the end is hidden too. *)
Fixpoint cuts (fuel : nat) (l : list byte) : list Span :=
  match fuel, l with
  | S fuel, b :: rest =>
      match candidate l with
      | CompleteAt n => Hidden (take n l) :: cuts fuel (drop n l)
      | Partial => [Hidden l]
      | No => Shown b :: cuts fuel rest
      end
  | _, _ => []
  end.
Definition cut_pieces (l : list byte) : list Span := cuts (length l) l.

Lemma cuts_fuel f1 f2 l : (length l <= f1)%nat -> (length l <= f2)%nat -> cuts f1 l = cuts f2 l.
Proof.
  revert f2 l. induction f1 as [|f1 IH]; intros f2 l H1 H2.
  { destruct l; [|cbn in H1; lia]. by destruct f2. }
  destruct l as [|b l]; [by destruct f2|]. destruct f2 as [|f2]; [cbn in H2; lia|]. cbn [cuts].
  destruct (candidate (b :: l)) as [| |n] eqn:E; [|done|].
  - f_equal. apply IH; cbn in *; lia.
  - apply candidate_count in E. unfold DECODED_LEN in E. f_equal. apply IH; rewrite length_drop; cbn in *; lia.
Qed.
Lemma cut_step b l : cut_pieces (b :: l) =
  match candidate (b :: l) with
  | CompleteAt n => Hidden (take n (b :: l)) :: cut_pieces (drop n (b :: l))
  | Partial => [Hidden (b :: l)]
  | No => Shown b :: cut_pieces l
  end.
Proof.
  unfold cut_pieces at 1. cbn [cuts length]. destruct (candidate (b :: l)) as [| |n] eqn:E; [done..|].
  apply candidate_count in E. unfold DECODED_LEN in E. f_equal. apply cuts_fuel; rewrite length_drop; cbn in *; lia.
Qed.

(** The cutting of a continuation, and where a byte is shown. *)
Lemma cut_source l : flat_map source (cut_pieces l) = l.
Proof.
  induction l as [l IH] using (induction_ltof1 _ length). unfold ltof in IH.
  destruct l as [|b l]; [done|]. rewrite cut_step. destruct (candidate (b :: l)) as [| |n] eqn:E; cbn [flat_map source].
  - rewrite IH by (cbn; lia). done.
  - by rewrite app_nil_r.
  - apply candidate_count in E. unfold DECODED_LEN in E. rewrite IH by (rewrite length_drop; cbn in *; lia). apply take_drop.
Qed.
Lemma cut_shown l i c : cut_pieces l !! i = Some (Shown c) -> 
  exists r, flat_map source (drop i (cut_pieces l)) = c :: r /\ candidate (c :: r) = No.
Proof.
  revert i. induction l as [l IH] using (induction_ltof1 _ length). unfold ltof in IH. intros i.
  destruct l as [|b l]; [done|]. rewrite cut_step. destruct (candidate (b :: l)) as [| |n] eqn:E.
  - destruct i as [|i]; cbn [lookup list_lookup drop].
    + intros [= <-]. exists l. cbn [flat_map source app]. by rewrite cut_source.
    + apply IH. cbn. lia.
  - by destruct i as [|[|i]].
  - destruct i as [|i]; [done|]. cbn [lookup list_lookup drop]. apply IH.
    apply candidate_count in E. unfold DECODED_LEN in E. rewrite length_drop. cbn in *. lia.
Qed.
Lemma cut_render l : (length (flat_map render (cut_pieces l)) <= length l + 9)%nat.
Proof.
  induction l as [l IH] using (induction_ltof1 _ length). unfold ltof in IH.
  destruct l as [|b l]; [cbn; lia|]. rewrite cut_step.
  destruct (candidate (b :: l)) as [| |n] eqn:E; cbn [flat_map render]; rewrite length_app.
  - specialize (IH l). cbn in *. lia.
  - cbn. lia.
  - apply candidate_count in E. unfold DECODED_LEN in E. specialize (IH (drop n (b :: l))).
    rewrite length_drop in IH. cbn in *. lia.
Qed.

(** ** What a feed shows *)

Context `{!Base64Symbols}.

(** A decided piece stays a piece of every continuation. *)
Lemma cut_decided b l k : candidate (b :: l) <> Partial ->
  cut_pieces ((b :: l) ++ k) =
  match candidate (b :: l) with
  | CompleteAt n => Hidden (take n (b :: l)) :: cut_pieces (drop n (b :: l) ++ k)
  | _ => Shown b :: cut_pieces (l ++ k)
  end.
Proof.
  intros Hc. change ((b :: l) ++ k) with (b :: (l ++ k)) at 1. rewrite cut_step.
  change (b :: (l ++ k)) with ((b :: l) ++ k). rewrite candidate_decided by done.
  destruct (candidate (b :: l)) as [| |n] eqn:E; [done..|]. apply candidate_count in E.
  by rewrite take_app_le, drop_app_le by lia.
Qed.

(** What the loop makes of the rest of its input: the pieces [ss1] that begin in what
    was masked before, the pieces [ss2] it renders, and the undecided suffix [p], for
    which it writes a marker unless it was masked before. *)
Record scanned (hidden position : nat) (rest : list byte) (o p : list byte) (ss1 ss2 : list Span) (mark : bool) : Prop := {
  sn_source : rest = flat_map source ss1 ++ flat_map source ss2 ++ p;
  sn_output : o = flat_map render ss2 ++ (if mark then MARKER else []);
  sn_pieces k : cut_pieces (rest ++ k) = ss1 ++ ss2 ++ cut_pieces (p ++ k);
  sn_partial : p = [] \/ candidate p = Partial;
  sn_mark : mark = true -> p <> [];
  sn_visible : ss2 <> [] \/ mark = true -> (hidden <= position + length (flat_map source ss1))%nat;
  sn_hidden : p <> [] -> mark = false -> ss2 = [] /\ (position + length (flat_map source ss1) < hidden)%nat;
  sn_first : (hidden <= position)%nat -> ss1 = [] }.

Lemma scanned_nil hidden position : scanned hidden position [] [] [] [] [] false.
Proof. constructor; try done; [by left|]. by intros [|]. Qed.
Lemma scanned_cons_hidden hidden position rest o p ss1 ss2 mark s n :
  scanned hidden (position + n) rest o p ss1 ss2 mark -> length (source s) = n -> (position < hidden)%nat ->
  (forall k, cut_pieces ((source s ++ rest) ++ k) = s :: cut_pieces (rest ++ k)) ->
  scanned hidden position (source s ++ rest) o p (s :: ss1) ss2 mark.
Proof.
  intros [] Hn Hp Hk. constructor; cbn [flat_map]; rewrite ?length_app, ?Hn; try done.
  - by rewrite sn_source0, <-!app_assoc.
  - intros k. by rewrite Hk, sn_pieces0.
  - intros Hv. specialize (sn_visible0 Hv). lia.
  - intros H1 H2. destruct (sn_hidden0 H1 H2). split; [done|lia].
  - intros; lia.
Qed.
Lemma scanned_cons_shown hidden position rest o p ss1 ss2 mark s n :
  scanned hidden (position + n) rest o p ss1 ss2 mark -> (hidden <= position)%nat ->
  (forall k, cut_pieces ((source s ++ rest) ++ k) = s :: cut_pieces (rest ++ k)) ->
  scanned hidden position (source s ++ rest) (render s ++ o) p [] (s :: ss2) mark.
Proof.
  intros [] Hp Hk. rewrite sn_first0 in * by lia. constructor; cbn [flat_map app] in *; try done.
  - by rewrite sn_source0, <-!app_assoc.
  - by rewrite sn_output0, <-app_assoc.
  - intros k. by rewrite Hk, sn_pieces0.
  - intros _. cbn. lia.
  - intros H1 H2. destruct (sn_hidden0 H1 H2). cbn in *. lia.
Qed.

Lemma immediate_scan_spec fuel hidden position rest o p : (length rest <= fuel)%nat ->
  immediate_scan fuel hidden position rest false = (o, p) ->
  exists ss1 ss2 mark, scanned hidden position rest o p ss1 ss2 mark.
Proof.
  revert position rest o p. induction fuel as [|fuel IH]; intros position rest o p Hf Hs.
  { destruct rest; [|cbn in Hf; lia]. cbn in Hs. simplify_eq. exists [], [], false. apply scanned_nil. }
  destruct rest as [|b l]; [cbn in Hs; simplify_eq; exists [], [], false; apply scanned_nil|].
  cbn [immediate_scan] in Hs. destruct (candidate (b :: l)) as [| |n] eqn:E.
  - destruct (immediate_scan fuel hidden (position + 1) l false) as [o1 p1] eqn:Hs1. simplify_eq.
    apply IH in Hs1 as (ss1 & ss2 & mark & Hs1); [|cbn in Hf; lia].
    assert (Hk : forall k, cut_pieces ((source (Shown b) ++ l) ++ k) = Shown b :: cut_pieces (l ++ k)).
    { intros k. cbn [source app]. change (b :: l ++ k) with ((b :: l) ++ k). rewrite cut_decided; by rewrite E. }
    destruct (Nat.leb_spec hidden position).
    + exists [], (Shown b :: ss2), mark. by apply (scanned_cons_shown hidden position l o1 _ ss1 ss2 mark (Shown b) 1).
    + exists (Shown b :: ss1), ss2, mark. by apply (scanned_cons_hidden hidden position l _ _ ss1 ss2 mark (Shown b) 1).
  - simplify_eq. exists [], [], (hidden <=? position)%nat. constructor; try done.
    + by right.
    + intros [|Hm]; [done|]. apply Nat.leb_le in Hm. cbn. lia.
    + intros _ Hm. apply Nat.leb_gt in Hm. cbn. split; [done|lia].
  - destruct (immediate_scan fuel hidden (position + n) (drop n (b :: l)) false) as [o1 p1] eqn:Hs1. simplify_eq.
    apply candidate_count in E as Hn. unfold DECODED_LEN in Hn.
    apply IH in Hs1 as (ss1 & ss2 & mark & Hs1); [|rewrite length_drop; cbn in *; lia].
    assert (Hk : forall k, cut_pieces ((source (Hidden (take n (b :: l))) ++ drop n (b :: l)) ++ k)
                 = Hidden (take n (b :: l)) :: cut_pieces (drop n (b :: l) ++ k)).
    { intros k. cbn [source]. rewrite take_drop, cut_decided; by rewrite E. }
    replace (b :: l) with (source (Hidden (take n (b :: l))) ++ drop n (b :: l)) by apply take_drop.
    destruct (Nat.leb_spec hidden position).
    + exists [], (Hidden (take n (b :: l)) :: ss2), mark.
      by apply (scanned_cons_shown hidden position _ o1 _ ss1 ss2 mark (Hidden (take n (b :: l))) n).
    + exists (Hidden (take n (b :: l)) :: ss1), ss2, mark.
      apply (scanned_cons_hidden hidden position _ _ _ ss1 ss2 mark (Hidden (take n (b :: l))) n); try done.
      cbn [source]. rewrite length_take. cbn in *. lia.
Qed.

(** The end of the stream only drops the undecided suffix. *)
Lemma immediate_scan_end fuel hidden position rest :
  immediate_scan fuel hidden position rest true = ((immediate_scan fuel hidden position rest false).1, []).
Proof.
  revert position rest. induction fuel as [|fuel IH]; intros position rest; [done|]. cbn [immediate_scan].
  destruct rest as [|b l]; [done|]. destruct (candidate (b :: l)) as [| |n]; [|done|]; rewrite IH;
    by destruct (immediate_scan _ _ _ _ false).
Qed.

(** An output is at most one marker longer than its chunk. *)
Lemma immediate_scan_bound fuel hidden position rest o p : immediate_scan fuel hidden position rest false = (o, p) ->
  (length o <= (length rest - (hidden - position)) + 9)%nat.
Proof.
  revert position rest o p. induction fuel as [|fuel IH]; intros position rest o p Hs; [cbn in Hs; simplify_eq; cbn; lia|].
  cbn [immediate_scan] in Hs. destruct rest as [|b l]; [simplify_eq; cbn; lia|].
  destruct (candidate (b :: l)) as [| |n] eqn:E.
  - destruct (immediate_scan _ _ _ _ _) as [o1 p1] eqn:Hs1. simplify_eq. apply IH in Hs1. rewrite length_app.
    destruct (Nat.leb_spec hidden position); cbn [length]; lia.
  - simplify_eq. destruct (Nat.leb_spec hidden position); cbn [length MARKER as_bytes list_ascii_of_string]; lia.
  - destruct (immediate_scan _ _ _ _ _) as [o1 p1] eqn:Hs1. simplify_eq. apply IH in Hs1.
    apply candidate_count in E. unfold DECODED_LEN in E. rewrite length_app. rewrite length_drop in Hs1.
    destruct (Nat.leb_spec hidden position); cbn [length MARKER as_bytes list_ascii_of_string] in *; lia.
Qed.

(** An output covers the pieces of its stream: a byte stands for itself, or a marker
    for a whole run of pieces; a hidden piece is never shown. *)
Inductive veil : list Span -> list byte -> Prop :=
  | veil_nil : veil [] []
  | veil_shown ss o b : veil ss o -> veil (ss ++ [Shown b]) (o ++ [b])
  | veil_run ss o run : veil ss o -> run <> [] -> veil (ss ++ run) (o ++ MARKER).

Lemma veil_render ss o ss2 : veil ss o -> veil (ss ++ ss2) (o ++ flat_map render ss2).
Proof.
  intros Hv. induction ss2 as [|s ss2 IH] using rev_ind; [by rewrite !app_nil_r|].
  rewrite flat_map_app. cbn [flat_map]. rewrite app_nil_r, !app_assoc.
  destruct s as [b|l]; [by apply veil_shown|]. by apply veil_run.
Qed.

(** What was shown while [p] is undecided: its marker has been written. *)
Definition shows (ss : list Span) (p o : list byte) : Prop :=
  match p with
  | [] => veil ss o
  | _ :: _ => exists ss0 run o0, ss = ss0 ++ run /\ veil ss0 o0 /\ o = o0 ++ MARKER
  end.

Lemma feed_immediate_spec r chunk ss acc : m_done r = false -> len chunk <= MAX_FEED ->
  shows ss (m_pending r) acc ->
  exists p o ss', feed_immediate r chunk false = (mkImmediate p false, Ok o)
    /\ shows (ss ++ ss') p (acc ++ o) /\ (forall k, cut_pieces (m_pending r ++ chunk ++ k) = ss' ++ cut_pieces (p ++ k))
    /\ len o <= len chunk + 9 /\ (p = [] \/ candidate p = Partial).
Proof.
  intros Hd Hc Hs. unfold feed_immediate. rewrite Hd, (proj2 (Z.ltb_ge _ _) Hc). cbn [orb].
  destruct (immediate_scan _ _ _ _ false) as [o p] eqn:Hscan. apply immediate_scan_bound in Hscan as Hb.
  apply immediate_scan_spec in Hscan as (ss1 & ss2 & mark & Hsc); [|done]. exists p, o, (ss1 ++ ss2).
  split; [done|]. split_and!.
  - destruct Hsc as [S1 S2 S3 S4 S5 S6 S7 S8]. rewrite S2.
    assert (Hend : forall ss acc, veil ss acc -> (p <> [] -> mark = true) ->
      shows (ss ++ ss2) p (acc ++ flat_map render ss2 ++ (if mark then MARKER else []))).
    { intros ss' acc' Hv Hm. apply (veil_render _ _ ss2) in Hv. destruct p as [|b p]; cbn.
      - destruct mark; [by destruct (S5 eq_refl)|]. by rewrite app_nil_r.
      - rewrite Hm by done. exists (ss' ++ ss2), [], (acc' ++ flat_map render ss2). by rewrite app_nil_r, <-app_assoc. }
    destruct (m_pending r) as [|b0 p0] eqn:Hp0.
    + rewrite S8 by (cbn; lia). apply Hend; [done|]. intros Hp. destruct mark; [done|].
      destruct (S7 Hp eq_refl) as [_ Hl]. cbn in Hl. lia.
    + destruct Hs as (ss0 & run & o0 & -> & Hv & ->). destruct ss1 as [|s1 ss1].
      * destruct mark; [cbn in S6; specialize (S6 (or_intror eq_refl)); lia|].
        destruct ss2 as [|s2 ss2]; [|cbn in S6; assert (S (length p0) <= 0)%nat by (apply S6; by left); lia].
        cbn in S1. rewrite !app_nil_r. destruct p as [|b p]; [done|]. by exists ss0, run, o0.
      * assert (Hv' : veil ((ss0 ++ run) ++ s1 :: ss1) (o0 ++ MARKER)).
        { rewrite <-app_assoc. apply veil_run; [done|]. by destruct run. }
        destruct (decide (p <> [] /\ mark = false)) as [[Hp ->]|Hn].
        -- destruct (S7 Hp eq_refl) as [-> _]. cbn [flat_map app]. rewrite !app_nil_r. destruct p as [|b p]; [done|].
           exists ss0, (run ++ s1 :: ss1), o0. by rewrite app_assoc.
        -- rewrite app_assoc. apply Hend; [done|]. intros Hp. destruct mark; [done|]. by destruct Hn.
  - intros k. by rewrite app_assoc, (sn_pieces _ _ _ _ _ _ _ _ Hsc), <-app_assoc.
  - rewrite length_app in Hb. unfold len. lia.
  - apply Hsc.
Qed.

(** A stream, chunk by chunk: [None] when a [feed] refused. *)
Fixpoint immediate_all (r : Immediate) (chunks : list (list byte)) : option (Immediate * list (list byte)) :=
  match chunks with
  | [] => Some (r, [])
  | c :: chunks =>
      match feed_immediate r c false with
      | (r, Ok o) => '(r, os) ← immediate_all r chunks; Some (r, o :: os)
      | (_, Err _) => None
      end
  end.

Lemma immediate_all_spec chunks r ss acc : m_done r = false -> Forall (fun c => len c <= MAX_FEED) chunks ->
  shows ss (m_pending r) acc -> m_pending r = [] \/ candidate (m_pending r) = Partial ->
  exists p os ss', immediate_all r chunks = Some (mkImmediate p false, os)
    /\ shows (ss ++ ss') p (acc ++ mjoin os)
    /\ cut_pieces (m_pending r ++ mjoin chunks) = ss' ++ cut_pieces p
    /\ Forall2 (fun c o => len o <= len c + 9) chunks os /\ (p = [] \/ candidate p = Partial).
Proof.
  intros Hd Hc. revert r ss acc Hd. induction Hc as [|c chunks Hc _ IH]; intros r ss acc Hd Hs Hp.
  { exists (m_pending r), [], []. destruct r as [p d]. cbn in *. subst d. cbn. rewrite !app_nil_r. by split_and!. }
  cbn [immediate_all]. destruct (feed_immediate_spec r c ss acc Hd Hc Hs) as (p & o & ss' & -> & Hs' & Hk & Hb & Hp').
  destruct (IH (mkImmediate p false) _ _ eq_refl Hs' Hp') as (p2 & os & ss2 & -> & Hs2 & Hk2 & Hb2 & Hp2).
  exists p2, (o :: os), (ss' ++ ss2). split; [done|]. split_and!; [|..|by constructor|done].
  - change (mjoin (o :: os)) with (o ++ mjoin os). by rewrite !app_assoc.
  - change (mjoin (c :: chunks)) with (c ++ mjoin chunks). cbn [m_pending] in Hk2. by rewrite Hk, Hk2, app_assoc.
Qed.
End Immediate.

(** ** The concrete engines have the symbols law *)

Lemma index_octet c62 c63 b i k : base64_octet c62 = true -> base64_octet c63 = true ->
  Rfc4648.index (Rfc4648.alphabet c62 c63) b i = Some k -> base64_octet b = true.
Proof.
  intros H2 H3. assert (Ht : Forall (fun c => base64_octet c = true) (Rfc4648.alphabet c62 c63)).
  { unfold Rfc4648.alphabet. apply Forall_app. split; [by repeat constructor|by repeat constructor]. }
  revert i. induction Ht as [|c t Hc _ IH]; intros i; [done|]. cbn [Rfc4648.index].
  destruct (bool_decide_reflect (c = b)) as [->|]; [done|]. apply IH.
Qed.

(** Decoding yields at most three bytes for four symbols; exactly that many only
    without padding. *)
Lemma dec_symbols c62 c63 n x v : base64_octet c62 = true -> base64_octet c63 = true -> (length x <= n)%nat ->
  Rfc4648.dec (Rfc4648.alphabet c62 c63) true x = Some v ->
  (4 * length v <= 3 * length x)%nat /\ ((4 * length v = 3 * length x)%nat -> forallb base64_octet x = true).
Proof.
  intros H2 H3. pose proof (index_octet c62 c63) as Hix. revert x v.
  induction n as [|n IH]; intros [|p [|q [|r [|s x]]]] v Hn Hd; cbn in Hn; try lia;
    cbn [Rfc4648.dec] in Hd; try done; try (simplify_eq; by split).
  destruct (Rfc4648.index _ p 0) as [i|] eqn:Ei; [|done]. cbn [mbind option_bind] in Hd.
  destruct (Rfc4648.index _ q 0) as [j|] eqn:Ej; [|done]. cbn [mbind option_bind andb] in Hd.
  destruct (bool_decide (s = "="%char) && bool_decide (x = [])).
  { destruct (bool_decide (r = "="%char)).
    - destruct (_ =? 0); [|done]. injection Hd as <-. cbn. lia.
    - destruct (Rfc4648.index _ r 0) as [k|]; [|done]. cbn [mbind option_bind] in Hd.
      destruct (_ =? 0); [|done]. injection Hd as <-. cbn. lia. }
  destruct (Rfc4648.index _ r 0) as [k|] eqn:Ek; [|done]. cbn [mbind option_bind] in Hd.
  destruct (Rfc4648.index _ s 0) as [m|] eqn:Em; [|done]. cbn [mbind option_bind] in Hd.
  destruct (Rfc4648.dec _ true x) as [t|] eqn:Et; [|done]. cbn [mbind option_bind] in Hd. injection Hd as <-.
  apply IH in Et as [E1 E2]; [|lia]. cbn [length]. split; [lia|]. intros Hl. cbn [forallb].
  rewrite (Hix _ _ _ H2 H3 Ei), (Hix _ _ _ H2 H3 Ej), (Hix _ _ _ H2 H3 Ek), (Hix _ _ _ H2 H3 Em). apply E2. lia.
Qed.
#[export] Instance symbols : @Base64Symbols Rfc4648.base64.
Proof.
  constructor. intros e x v He Hd Hl.
  apply elem_of_cons in He as [->|He]; [|apply elem_of_cons in He as [->|He]; [|by apply elem_of_nil in He]];
    (eapply dec_symbols in Hd; [by apply Hd|done|done|done]).
Qed.

(** An interactive stream is observed without delay and without placeholders.
    Whatever the chunking, every chunk is accepted and answered at once, by at most
    nine bytes more than it has; the outputs together cover the whole stream: each
    piece is shown as itself or masked by a marker, a token complete or still open is
    never shown, and no shown byte begins a placeholder, whatever follows. At most 305
    masked bytes are kept, and the end of the stream adds nothing. *)
Lemma immediate_hides `{Base64Symbols} chunks : Forall (fun c => len c <= MAX_FEED) chunks ->
  exists r os ss, immediate_all Immediate_default chunks = Some (r, os)
    /\ ss = cut_pieces (mjoin chunks) /\ flat_map source ss = mjoin chunks
    /\ veil ss (mjoin os) /\ Forall2 (fun c o => len o <= len c + 9) chunks os
    /\ (length (m_pending r) < MAX_ENCODED)%nat /\ (feed_immediate r [] true).2 = Ok []
    /\ forall i b more, ss !! i = Some (Shown b) -> recognizable (flat_map source (drop i ss) ++ more) = None.
Proof.
  intros Hc. destruct (immediate_all_spec chunks Immediate_default [] [] eq_refl Hc veil_nil (or_introl eq_refl))
    as (p & os & ss & -> & Hs & Hk & Hb & Hp).
  change (shows ss p (mjoin os)) in Hs. change (cut_pieces (mjoin chunks) = ss ++ cut_pieces p) in Hk.
  exists (mkImmediate p false), os, (cut_pieces (mjoin chunks)). split; [done|]. split; [done|].
  split; [apply cut_source|]. rewrite Hk. split_and!; [|done|..].
  - destruct p as [|b p]; cbn in Hs; [by rewrite app_nil_r|]. destruct Hp as [|Hp]; [done|]. rewrite cut_step, Hp.
    destruct Hs as (ss0 & run & o0 & -> & Hv & ->). rewrite <-app_assoc. apply veil_run; [done|]. by destruct run.
  - cbn [m_pending]. destruct Hp as [-> | Hp]; [cbn; lia|]. by apply candidate_partial in Hp as [_ ?].
  - unfold feed_immediate. cbn [m_done m_pending orb]. change (len []) with 0. rewrite app_nil_r.
    change (MAX_FEED <? 0) with false. cbv iota. rewrite immediate_scan_end.
    destruct p as [|b p]; [done|]. destruct Hp as [|Hp]; [done|]. cbn [length immediate_scan]. by rewrite Hp.
  - rewrite <-Hk. intros i b more Hi. apply cut_shown in Hi as (r & -> & Hr).
    assert (Hm : candidate ((b :: r) ++ more) = No) by (rewrite candidate_decided by (done || by rewrite Hr); exact Hr).
    destruct (recognizable _) as [n|] eqn:E; [|done]. apply candidate_complete in E. congruence.
Qed.
