(* ===== verification/TcpState.v ===== *)
(** * Raw connection operations ([aap-engine/src/tcp/state.rs], [tcp/observation.rs],
    [tcp/relay.rs], [tcp.rs])

    One TCP operation from its admission to its terminal outcome: the status under its
    lock, the observation of its relay, the transfer of the sockets, and the one
    critical section that ends it. The flow is any [Observer]; sockets and the clock
    are the environment of [Relay]. *)
From S2P Require Import Prelude Protocol Ids Address Catalog Profile Endpoint TcpPolicy.
From S2P Require Import Stream Observe Redaction Immediate Flow Relay Operation.

(** ** Causes *)

(** `aap-engine/src/tcp/state.rs:194-207`, `cause` *)
Definition tcp_cause (e : Error) : Cause :=
  match code e with
  | SessionInvalid => SessionEnded
  | RequestConflict => CauseCancelled
  | PolicyDenied => PolicyChanged
  | LimitExceeded => CapacityExhausted
  | InteractionUnavailable => CauseInteractionUnavailable
  | ObservationUnavailable => CauseObservationUnavailable
  | OutcomeUnknown | UpstreamUnavailable => CauseUpstreamUnavailable
  | _ => CauseInternalError
  end.
(** `aap-engine/src/tcp/state.rs:209-225`, `reason` *)
Definition tcp_reason (c : Cause) : ErrorCode :=
  match c with
  | ApprovalDenied | PolicyChanged => PolicyDenied
  | ApprovalTimeout | CauseInteractionUnavailable => InteractionUnavailable
  | CapacityExhausted | CauseLimitExceeded | Timeout => LimitExceeded
  | CauseObservationUnavailable => ObservationUnavailable
  | CauseUpstreamUnavailable => UpstreamUnavailable
  | SessionEnded => SessionInvalid
  | InvalidFrame => RequestInvalid
  | CauseInternalError => InternalError
  | _ => OutcomeUnknown
  end.
(** [map_err(cause)] *)
Definition with_cause {A} (r : Result A) : result Cause A :=
  match r with Ok a => Ok a | Err e => Err (tcp_cause e) end.

(** ** Observation of a relay *)

(** `aap-engine/src/tcp/observation.rs:11-16`, `Observed` *)
Record Observed := mkObserved { ob_redactor : Immediate; ob_offset : Z; ob_ended : bool }.
Definition Observed_default : Observed := mkObserved Immediate_default 0 false.

(** `aap-engine/src/tcp/observation.rs:6-10`, `Observation` *)
Record Watching (F : Type) := mkWatching {
  w_flow : F; w_inspection : Observe.Inspection; w_outbound : Observed; w_inbound : Observed }.
Arguments mkWatching {F}. Arguments w_flow {F}. Arguments w_inspection {F}.
Arguments w_outbound {F}. Arguments w_inbound {F}.

(** `aap-engine/src/tcp/observation.rs:18-28`, `Observation::new` (the inspection) *)
Definition observed_inspection (i : Stream.Inspection) : Observe.Inspection :=
  match i with
  | Stream.PlaintextBytes => Observe.PlaintextBytes
  | Stream.Opaque => Observe.Opaque
  | Stream.MetadataOnly => Observe.MetadataOnly
  end.

Section Watch.
Context `{Base64} {F : Type} `{Observer F}.

(** `aap-engine/src/tcp/observation.rs:29-44`, `Observation::emissions` *)
Definition tcp_emissions (i : Observe.Inspection) (d : Direction) (x : Data) : list Emission :=
  map (fun v => mkEmission d v i (if bool_decide (i = Observe.MetadataOnly) then Withheld else Transformed) x)
    [Agent; Upstream].
(** `aap-engine/src/tcp/state.rs:93-106`, `Operation::record_locked` (the events) *)
Definition metadata_emissions (x : Data) : list Emission :=
  map (fun v => mkEmission Outbound v Observe.MetadataOnly Complete x) [Agent; Upstream].

Definition side (w : Watching F) (d : Direction) : Observed :=
  match d with Outbound => w_outbound w | Inbound => w_inbound w end.
Definition set_side (w : Watching F) (d : Direction) (o : Observed) : Watching F :=
  match d with
  | Outbound => mkWatching (w_flow w) (w_inspection w) o (w_inbound w)
  | Inbound => mkWatching (w_flow w) (w_inspection w) (w_outbound w) o
  end.
Definition set_flow (w : Watching F) (f : F) : Watching F :=
  mkWatching f (w_inspection w) (w_outbound w) (w_inbound w).
(** [Flow::record_batch] *)
Definition offer (f : F) (es : list Emission) : F * Result unit :=
  let '(f, _, r) := observe f es (fun u : unit => (u, Ok tt)) tt in (f, r).

(** `aap-engine/src/tcp/observation.rs:94-128`, `Observation::before_forward` *)
Definition watch_forward (w : Watching F) (d : Direction) (bytes : list byte) : Watching F * result Cause unit :=
  let s := side w d in
  if ob_ended s then (w, Err CauseInternalError)
  else
    let '(s, safe) :=
      if bool_decide (w_inspection w = Observe.MetadataOnly) then (s, Ok [])
      else let (r, safe) := feed_immediate (ob_redactor s) bytes false in
           (mkObserved r (ob_offset s) (ob_ended s), safe) in
    let w := set_side w d s in
    match safe with
    | Err _ => (w, Err CauseObservationUnavailable)
    | Ok safe =>
        match offer (w_flow w) (tcp_emissions (w_inspection w) d
                (ContentChunk (ob_offset s) (from_bytes (encode STANDARD safe)) None "base64")) with
        | (f, Err _) => (set_flow w f, Err CauseObservationUnavailable)
        | (f, Ok _) =>
            (set_side (set_flow w f) d (mkObserved (ob_redactor s) (ob_offset s + len safe) (ob_ended s)), Ok tt)
        end
    end.

(** `aap-engine/src/tcp/observation.rs:129-148`, `Observation::before_end` *)
Definition watch_end (w : Watching F) (d : Direction) : Watching F * result Cause unit :=
  let s := side w d in
  if ob_ended s then (w, Err CauseInternalError)
  else
    let (r, done) := feed_immediate (ob_redactor s) [] true in
    let s := mkObserved r (ob_offset s) (ob_ended s) in
    let w := set_side w d s in
    match done with
    | Err _ => (w, Err CauseObservationUnavailable)
    | Ok _ =>
        match offer (w_flow w) (tcp_emissions (w_inspection w) d (ContentEnd true (ob_offset s) None)) with
        | (f, Err _) => (set_flow w f, Err CauseObservationUnavailable)
        | (f, Ok _) => (set_side (set_flow w f) d (mkObserved (ob_redactor s) (ob_offset s) true), Ok tt)
        end
    end.
#[export] Instance watching_gate : Gate (Watching F) := {| before_forward := watch_forward; before_end := watch_end |}.

(** `aap-engine/src/tcp/observation.rs:52-82`, `Observation::finish` (the events) *)
Definition final_events (w : Watching F) (complete : bool) (c : Cause) (sent received : Z) : list Emission :=
  let reason := if complete then None else Some (tcp_reason c) in
  flat_map (fun d => if ob_ended (side w d) then []
                     else tcp_emissions (w_inspection w) d (ContentEnd complete (ob_offset (side w d)) reason))
    [Outbound; Inbound]
  ++ metadata_emissions (FlowClose complete sent received reason).
(** `aap-engine/src/tcp/observation.rs:45-83`, `Observation::finish` *)
Definition watch_finish (w : Watching F) (complete : bool) (c : Cause) (sent received : Z) : F * Result unit :=
  offer (w_flow w) (final_events w complete c sent received).
End Watch.

(** ** The operation *)

(** `aap-engine/src/tcp/relay.rs:15-18`, `ActiveRelay`; the observation's flow is the
    operation's *)
Record ActiveRelay := mkActive { ar_io : Duplex; ar_outbound : Observed; ar_inbound : Observed }.

(** `aap-engine/src/tcp/state.rs:15-26`, `State`, and the operation around it
    (`tcp/state.rs:36-44`): the permits and the socket are whether they are held *)
Record Conn (F : Type) := mkConn {
  cn_request : Open; cn_profile : TcpProfile; cn_required : bool; cn_flow : F; cn_cancelled : bool;
  cn_status : OperationStatus; cn_cause : option Cause; cn_started : bool;
  cn_socket : bool; cn_capacity : bool; cn_attachments : bool;
  cn_relay : option ActiveRelay; cn_deadline : option Z; cn_sent : Z; cn_received : Z }.
Arguments mkConn {F}. Arguments cn_request {F}. Arguments cn_profile {F}. Arguments cn_required {F}.
Arguments cn_flow {F}. Arguments cn_cancelled {F}. Arguments cn_status {F}. Arguments cn_cause {F}.
Arguments cn_started {F}. Arguments cn_socket {F}. Arguments cn_capacity {F}. Arguments cn_attachments {F}.
Arguments cn_relay {F}. Arguments cn_deadline {F}. Arguments cn_sent {F}. Arguments cn_received {F}.

(** `aap-engine/src/tcp.rs:57-60`, `ConnectionTiming` *)
Record Timing := mkTiming { tm_lifetime : Z; tm_idle : Z }.

Section Operations.
Context `{Base64} {F : Type} `{Observer F}.
Abbreviation C := (Conn F).

Definition cn_state (c : C) : OperationState := state (cn_status c).
Definition set_cn_flow (c : C) (f : F) : C :=
  mkConn (cn_request c) (cn_profile c) (cn_required c) f (cn_cancelled c) (cn_status c) (cn_cause c) (cn_started c)
    (cn_socket c) (cn_capacity c) (cn_attachments c) (cn_relay c) (cn_deadline c) (cn_sent c) (cn_received c).
Definition set_cn_cancelled (c : C) : C :=
  mkConn (cn_request c) (cn_profile c) (cn_required c) (cn_flow c) true (cn_status c) (cn_cause c) (cn_started c)
    (cn_socket c) (cn_capacity c) (cn_attachments c) (cn_relay c) (cn_deadline c) (cn_sent c) (cn_received c).
Definition set_cn_state (c : C) (s : OperationState) : C :=
  mkConn (cn_request c) (cn_profile c) (cn_required c) (cn_flow c) (cn_cancelled c)
    (mkStatus (status_request_id (cn_status c)) s (status (cn_status c))) (cn_cause c) (cn_started c)
    (cn_socket c) (cn_capacity c) (cn_attachments c) (cn_relay c) (cn_deadline c) (cn_sent c) (cn_received c).
Definition set_cn_started (c : C) : C :=
  mkConn (cn_request c) (cn_profile c) (cn_required c) (cn_flow c) (cn_cancelled c) (cn_status c) (cn_cause c) true
    (cn_socket c) (cn_capacity c) (cn_attachments c) (cn_relay c) (cn_deadline c) (cn_sent c) (cn_received c).
Definition set_cn_relay (c : C) (r : option ActiveRelay) : C :=
  mkConn (cn_request c) (cn_profile c) (cn_required c) (cn_flow c) (cn_cancelled c) (cn_status c) (cn_cause c)
    (cn_started c) (cn_socket c) (cn_capacity c) (cn_attachments c) r (cn_deadline c) (cn_sent c) (cn_received c).
Definition take_socket (c : C) : C :=
  mkConn (cn_request c) (cn_profile c) (cn_required c) (cn_flow c) (cn_cancelled c) (cn_status c) (cn_cause c)
    (cn_started c) false (cn_capacity c) (cn_attachments c) (cn_relay c) (cn_deadline c) (cn_sent c) (cn_received c).
Definition watching (c : C) (r : ActiveRelay) : Watching F :=
  mkWatching (cn_flow c) (observed_inspection (tcp_inspection (cn_profile c))) (ar_outbound r) (ar_inbound r).

(** `aap-engine/src/tcp.rs:141-174`, `Session::admit_tcp` (the new operation) *)
Definition Conn_new (request : Open) (profile : TcpProfile) (required : bool) (f : F) : C :=
  mkConn request profile required f false (mkStatus (open_request_id request) Validated None) None false
    false false true None None 0 0.

(** `aap-engine/src/tcp/state.rs:56-63`, `Operation::transition` *)
Definition tcp_transition (c : C) (next : OperationState) : C * Result unit :=
  if terminal (cn_state c) || cn_cancelled c then (c, fail RequestConflict) else (set_cn_state c next, Ok tt).

(** `aap-engine/src/tcp/state.rs:65-76`, `Operation::commit_dispatch` *)
Definition tcp_commit_dispatch (a : Authority) (c : C) : C * Result unit :=
  commit_authority a (fun c =>
    if negb (bool_decide (cn_state c = Ready)) || cn_cancelled c then (c, fail RequestConflict)
    else (set_cn_state c Dispatching, Ok tt)) c.

(** `aap-engine/src/tcp/state.rs:93-106`, `Operation::record_locked` *)
Definition record_locked (c : C) (x : Data) : C * Result unit :=
  let (f, r) := offer (cn_flow c) (metadata_emissions x) in (set_cn_flow c f, r).
(** `aap-engine/src/tcp/state.rs:85-91`, `Operation::record` *)
Definition tcp_record (c : C) (x : Data) : C * Result unit :=
  if terminal (cn_state c) || cn_cancelled c then (c, fail RequestConflict) else record_locked c x.
(** `aap-engine/src/tcp/state.rs:78-84`, `Operation::begin_flow` *)
Definition begin_flow (c : C) : C * Result unit :=
  if terminal (cn_state c) || cn_cancelled c then (c, fail RequestConflict)
  else match record_locked c FlowOpen with
       | (c, Ok _) => (set_cn_started c, Ok tt)
       | (c, Err e) => (c, Err e)
       end.

(** `aap-engine/src/tcp/state.rs:158-173`, `Operation::finish_locked` (the state) *)
Definition ended_state (before : OperationState) (c : Cause) : OperationState :=
  if bool_decide (c = OrderlyEnd) then Completed
  else if bool_decide (before = Dispatching) then OpOutcomeUnknown
  else match c with
       | CauseCancelled | SessionEnded | AttachmentLost => Cancelled
       | ApprovalDenied | PolicyChanged => Denied
       | ApprovalTimeout | Timeout => Expired
       | _ => Failed
       end.

(** `aap-engine/src/tcp/state.rs:153-175`, `Operation::finish_locked` (the release) *)
Definition released (c : C) (cause : Cause) : C :=
  mkConn (cn_request c) (cn_profile c) (cn_required c) (cn_flow c) (cn_cancelled c)
    (mkStatus (status_request_id (cn_status c)) (ended_state (cn_state c) cause) (status (cn_status c)))
    (Some cause) (cn_started c) false false false None None (cn_sent c) (cn_received c).
Definition counted (c : C) (sent received : Z) : C :=
  mkConn (cn_request c) (cn_profile c) (cn_required c) (cn_flow c) (cn_cancelled c) (cn_status c) (cn_cause c)
    (cn_started c) (cn_socket c) (cn_capacity c) (cn_attachments c) None (cn_deadline c) sent received.

(** `aap-engine/src/tcp/state.rs:121-175`, `Operation::finish_locked` *)
Definition finish_locked (c : C) (cause : Cause) : C :=
  if terminal (cn_state c) then c
  else
    let c := set_cn_cancelled c in
    match cn_relay c with
    | Some r =>
        let (_, o) := terminate (ar_io r) cause in
        let c' := counted c (outcome_sent o) (outcome_received o) in
        let cause :=
          if bool_decide (cause = OrderlyEnd) && negb (bool_decide (cause_of o = OrderlyEnd))
          then CauseInternalError else cause in
        let orderly := bool_decide (cause = OrderlyEnd) in
        let (f, rec) := watch_finish (watching c r) orderly cause (outcome_sent o) (outcome_received o) in
        let cause := if is_err rec && orderly then CauseObservationUnavailable else cause in
        released (set_cn_flow c' f) cause
    | None =>
        let cause := if bool_decide (cause = OrderlyEnd) then CauseInternalError else cause in
        let c :=
          if cn_started c
          then (record_locked c (FlowClose false (cn_sent c) (cn_received c) (Some (tcp_reason cause)))).1 else c in
        released c cause
    end.

(** `aap-engine/src/tcp/state.rs:108-120`, `Operation::finish` *)
Definition tcp_finish (c : C) (cause : Cause) : C := finish_locked (set_cn_cancelled c) cause.

(** `aap-engine/src/tcp/state.rs:177-191`, `Operation::outcome_locked` *)
Definition outcome_locked (c : C) : Terminal :=
  mkTerminal (cn_status c) (default CauseInternalError (cn_cause c)) (cn_sent c) (cn_received c).

(** `aap-engine/src/tcp/state.rs:27-34`, `State::deadline` *)
Definition state_deadline (c : C) : option Z :=
  match cn_relay c with Some r => Some (deadline (ar_io r)) | None => cn_deadline c end.

(** `aap-engine/src/tcp/connect.rs:22-46`, `PendingTcp::connect` (the socket arrives) *)
Definition install (c : C) (a : Authority) (t : Timing) : C * bool :=
  let rejected :=
    if tm_idle t <=? auth_now a then Some Timeout
    else if is_err (Session_check a) then Some SessionEnded
    else if cn_cancelled c || terminal (cn_state c) then Some CauseCancelled
    else None in
  match rejected with
  | Some cause => (tcp_finish c cause, false)
  | None =>
      (mkConn (cn_request c) (cn_profile c) (cn_required c) (cn_flow c) (cn_cancelled c) (cn_status c) (cn_cause c)
         (cn_started c) true true false (cn_relay c) (Some (tm_idle t)) (cn_sent c) (cn_received c), true)
  end.

(** `aap-engine/src/tcp.rs:196-220`, `ConnectedTcp::opened`: the remaining lifetime in
    milliseconds *)
Definition opened (c : C) (a : Authority) (t : Timing) : C * Result Z :=
  let now := auth_now a in
  if tm_idle t <=? now then (tcp_finish c Timeout, fail RequestConflict)
  else match Session_check a with
       | Err e => (tcp_finish c SessionEnded, Err e)
       | Ok _ =>
           if cn_cancelled c || terminal (cn_state c) then (c, fail RequestConflict)
           else
             let remaining := saturating_sub (tm_lifetime t) now / 1000000 in
             if remaining =? 0 then (tcp_finish c Timeout, fail RequestConflict) else (c, Ok remaining)
       end.

(** `aap-engine/src/tcp/relay.rs:61-75`, `Operation::start_relay` (the limits) *)
Definition relay_limits (p : TcpProfile) (t : Timing) : Limits :=
  let l := tcp_limits p in
  mkLimits_ (Z.min (tcp_max_data_bytes l) (16 * 1024)) (tcp_send_limit l) (tcp_receive_limit l)
    (from_millis (tcp_idle_timeout_ms l)) (tm_idle t) (tm_lifetime t).
(** `aap-engine/src/tcp/relay.rs:40-83`, `Operation::start_relay`, with the two instants
    it reads *)
Definition start_relay (c : C) (now later : Z) (t : Timing) : C * result Cause unit :=
  if terminal (cn_state c) || cn_cancelled c then (c, Err CauseCancelled)
  else if tm_idle t <=? now then (c, Err Timeout)
  else if bool_decide (is_Some (cn_relay c)) || negb (cn_capacity c) then (c, Err CauseInternalError)
  else if negb (cn_socket c) then (c, Err CauseInternalError)
  else
    let c := take_socket c in
    match Duplex_new (relay_limits (cn_profile c) t) later with
    | Err _ => (c, Err CauseInternalError)
    | Ok d => (set_cn_relay c (Some (mkActive d Observed_default Observed_default)), Ok tt)
    end.

(** `aap-engine/src/tcp/relay.rs:19-31`, `ConnectedTcp::relay` *)
Definition relay (c : C) (a : Authority) (now later : Z) (t : Timing) : C :=
  match opened c a t with
  | (c, Err _) => c
  | (c, Ok _) =>
      match start_relay c now later t with
      | (c, Ok _) => c
      | (c, Err cause) => tcp_finish c cause
      end
  end.

(** `aap-engine/src/tcp/relay.rs:85-118`, `Operation::poll_relay`; [late] is whether the
    token is set when the relay has ended *)
Definition poll_relay (c : C) (env : Env) (late : bool) : C * list Effect * poll Terminal :=
  if terminal (cn_state c) then (c, [], PollReady (outcome_locked c))
  else
    match cn_relay c with
    | None => let c := finish_locked c CauseInternalError in (c, [], PollReady (outcome_locked c))
    | Some r =>
        let '(d, w, l, p) := Duplex_poll (ar_io r) (watching c r) env in
        let c := set_cn_relay (set_cn_flow c (w_flow w)) (Some (mkActive d (w_outbound w) (w_inbound w))) in
        let c := if late then set_cn_cancelled c else c in
        match p with
        | PollPending => (c, l, PollPending)
        | PollReady o =>
            let c := finish_locked c (if cn_cancelled c then CauseCancelled else cause_of o) in
            (c, l, PollReady (outcome_locked c))
        end
    end.

(** `aap-engine/src/tcp/relay.rs:32-41`, `TcpRelay::poll` *)
Definition TcpRelay_poll (c : C) (a : Authority) (env : Env) (late : bool) : C * list Effect * poll Terminal :=
  let c := if is_err (Session_check a) then tcp_finish c SessionEnded else c in
  poll_relay c env late.

(** `aap-engine/src/tcp/relay.rs:120-160`, `Operation::watch` (what it does at a wake-up) *)
Definition watch (c : C) (now : Z) : C :=
  if terminal (cn_state c) then c
  else match state_deadline c with
       | Some deadline => if deadline <=? now then finish_locked c Timeout else c
       | None => c
       end.

(** ** Lives *)

(** What happens to an operation: other records of its flow, its token, an end from
    any owner, the steps of its connection, its relay and its watchdog. *)
Inductive ConnMove :=
  | KElsewhere (f : F -> F)
  | KCancel
  | KFinish (cause : Cause)
  | KTransition (next : OperationState)
  | KBegin
  | KRecord (x : Data)
  | KCommit (a : Authority)
  | KInstall (a : Authority) (t : Timing)
  | KRelay (a : Authority) (now later : Z) (t : Timing)
  | KPoll (a : Authority) (env : Env) (late : bool)
  | KWatch (now : Z).

Definition conn_move (c : C) (m : ConnMove) : C * list Effect :=
  match m with
  | KElsewhere f => (set_cn_flow c (f (cn_flow c)), [])
  | KCancel => (set_cn_cancelled c, [])
  | KFinish cause => (tcp_finish c cause, [])
  | KTransition next => ((tcp_transition c next).1, [])
  | KBegin => ((begin_flow c).1, [])
  | KRecord x => ((tcp_record c x).1, [])
  | KCommit a => ((tcp_commit_dispatch a c).1, [])
  | KInstall a t => ((install c a t).1, [])
  | KRelay a now later t => (relay c a now later t, [])
  | KPoll a env late => ((TcpRelay_poll c a env late).1)
  | KWatch now => (watch c now, [])
  end.
Fixpoint conn_life (c : C) (ms : list ConnMove) : C * list Effect :=
  match ms with
  | [] => (c, [])
  | m :: ms =>
      let (c, l) := conn_move c m in
      let (c, ls) := conn_life c ms in
      (c, l ++ ls)
  end.

(** How the owner of an operation moves it: it changes the state only while it is
    preparing, hands over one socket once the dispatch is committed, and sockets read
    into the buffer they are given. *)
Definition conn_disciplined (c : C) (m : ConnMove) : Prop :=
  match m with
  | KTransition next => next ∈ [PendingApproval; Ready] /\ cn_state c <> Dispatching
  | KInstall _ _ => cn_state c = Dispatching \/ terminal (cn_state c) = true
  | KPoll _ env _ => wf_env (Z.min (tcp_max_data_bytes (tcp_limits (cn_profile c))) (16 * 1024)) env
  | _ => True
  end.
Fixpoint conn_lives (c : C) (ms : list ConnMove) : Prop :=
  match ms with
  | [] => True
  | m :: ms => conn_disciplined c m /\ conn_lives (conn_move c m).1 ms
  end.
(** Whether the dispatch was ever committed. *)
Fixpoint ever_dispatched (c : C) (ms : list ConnMove) : bool :=
  bool_decide (cn_state c = Dispatching)
  || match ms with [] => false | m :: ms => ever_dispatched (conn_move c m).1 ms end.

(** ** The invariant *)

Definition tcp_limit (p : TcpProfile) (i : Direction) : Z :=
  match i with Outbound => tcp_send_limit (tcp_limits p) | Inbound => tcp_receive_limit (tcp_limits p) end.

(** What passed through the relay, in both directions, once it stopped. *)
Definition traffic_ok (p : TcpProfile) (log : list Effect) : Prop :=
  forall i, wrote i log `prefix_of` passed i log /\ passed i log `prefix_of` taken i log
    /\ len (passed i log) <= tcp_limit p i.

(** An operation that is over: everything it held is given back. *)
Record over (c : C) (log : list Effect) : Prop := {
  ov_cancelled : cn_cancelled c = true;
  ov_socket : cn_socket c = false; ov_capacity : cn_capacity c = false; ov_attachments : cn_attachments c = false;
  ov_relay : cn_relay c = None; ov_deadline : cn_deadline c = None;
  ov_cause : exists cause, cn_cause c = Some cause /\ (cn_state c = Completed <-> cause = OrderlyEnd);
  ov_sent : cn_sent c = len (wrote Outbound log); ov_received : cn_received c = len (wrote Inbound log);
  ov_traffic : traffic_ok (cn_profile c) log;
  ov_orderly : cn_state c = Completed -> forall i, delivered_all i log }.

(** A relay of the operation, open or just ended. *)
Record relaying (p : TcpProfile) (r : ActiveRelay) (log : list Effect) : Prop := {
  rl_ok : relay_ok (ar_io r) log;
  rl_chunk : max_chunk (limits_ (ar_io r)) = Z.min (tcp_max_data_bytes (tcp_limits p)) (16 * 1024);
  rl_limit : forall i, limit_of (ar_io r) i = tcp_limit p i }.

(** An operation that is going on. *)
Record going (c : C) (log : list Effect) : Prop := {
  go_cause : cn_cause c = None;
  go_state : cn_state c ∈ [Validated; PendingApproval; Ready; Dispatching];
  go_quiet : cn_relay c = None -> log = [] /\ cn_sent c = 0 /\ cn_received c = 0;
  go_early : cn_state c <> Dispatching -> cn_relay c = None /\ cn_socket c = false /\ cn_capacity c = false;
  go_relay : forall r, cn_relay c = Some r -> relaying (cn_profile c) r log }.

Definition conn_ok (c : C) (log : list Effect) : Prop :=
  if terminal (cn_state c) then over c log else going c log.

(** ** Every move keeps the invariant *)

Definition sized (p : TcpProfile) : Prop :=
  0 <= tcp_max_data_bytes (tcp_limits p) /\ forall i, 0 <= tcp_limit p i.

Lemma quiet_traffic p : sized p -> traffic_ok p [].
Proof. intros [_ Hp] i. cbn. split; [done|]. split; [done|]. change (len []) with 0. apply Hp. Qed.

Lemma stopped_traffic p d log : stopped d log -> (forall i, limit_of d i = tcp_limit p i) -> traffic_ok p log.
Proof. intros Hs Hl i. destruct (Hs i). rewrite <-Hl. by split_and!. Qed.

Lemma going_live c log : going c log -> terminal (cn_state c) = false.
Proof. intros []. repeat (apply elem_of_cons in go_state0 as [->|go_state0]; [done|]). by apply elem_of_nil in go_state0. Qed.

(** The end, and which ends say that the connection may have had effects. *)
Definition told (c : C) : bool := bool_decide (cn_state c = Completed) || bool_decide (cn_state c = OpOutcomeUnknown).

Lemma ended_state_spec before cause : terminal (ended_state before cause) = true
  /\ (ended_state before cause = Completed <-> cause = OrderlyEnd)
  /\ (cause <> OrderlyEnd -> (ended_state before cause = OpOutcomeUnknown <-> before = Dispatching)).
Proof.
  unfold ended_state. case_bool_decide as Hc; [subst; done|]. case_bool_decide as Hb; [subst; naive_solver|].
  destruct cause; naive_solver.
Qed.

Lemma record_locked_frame c x c' r : record_locked c x = (c', r) -> exists f, c' = set_cn_flow c f.
Proof. unfold record_locked. destruct (offer _ _) as [f r0]. intros [= <- <-]. by exists f. Qed.

Lemma terminate_relaying p r log cause d o : relaying p r log -> terminate (ar_io r) cause = (d, o) ->
  closed d o log /\ (forall i, limit_of d i = tcp_limit p i).
Proof.
  intros [Hok _ Hl] Ht. pose proof (@action_ok (Watching F) _ (ar_io r)) as Ha.
  destruct (outcome (ar_io r)) as [o'|] eqn:Ho.
  - unfold terminate, close in Ht. rewrite Ho in Ht. simplify_eq. unfold relay_ok in Hok. rewrite Ho in Hok. by split.
  - unfold relay_ok in Hok. rewrite Ho in Hok. unfold terminate in Ht.
    apply (close_closed _ log) in Ht as ([_ K1] & K2 & K3);
      [|by apply open_stopped|done|intros Hg; by apply gate_cause_not_orderly in Hg].
    unfold relay_ok in K3. rewrite K2 in K3. split; [done|]. intros i. by rewrite K1.
Qed.

Lemma finish_over c log cause : sized (cn_profile c) -> going c log ->
  let c' := finish_locked c cause in
  over c' log /\ terminal (cn_state c') = true /\ told c' = bool_decide (cn_state c = Dispatching)
  /\ cn_profile c' = cn_profile c.
Proof.
  intros Hsz Hg. unfold finish_locked. rewrite (going_live _ _ Hg). destruct Hg as [G1 G2 G3 G4 G5].
  assert (Htold : forall k, (cn_state c <> Dispatching -> k <> OrderlyEnd) ->
    bool_decide (ended_state (cn_state c) k = Completed) || bool_decide (ended_state (cn_state c) k = OpOutcomeUnknown)
    = bool_decide (cn_state c = Dispatching)).
  { intros k Hk. destruct (ended_state_spec (cn_state c) k) as (_ & E1 & E2).
    destruct (decide (k = OrderlyEnd)) as [Hko|Hko].
    - rewrite (bool_decide_eq_true_2 _ (proj2 E1 Hko)). cbn [orb]. symmetry. apply bool_decide_eq_true.
      destruct (decide (cn_state c = Dispatching)); [done|by destruct Hk].
    - rewrite (bool_decide_eq_false_2 (_ = Completed)) by by rewrite E1. cbn [orb].
      by apply bool_decide_ext, E2. }
  cbv zeta. change (cn_relay (set_cn_cancelled c)) with (cn_relay c). destruct (cn_relay c) as [r|] eqn:Hr.
  - assert (Hd : cn_state c = Dispatching).
    { destruct (decide (cn_state c = Dispatching)) as [|Hn]; [done|]. by destruct (G4 Hn). }
    destruct (terminate (ar_io r) cause) as [d o] eqn:Ht.
    destruct (terminate_relaying _ _ _ _ _ _ (G5 r eq_refl) Ht) as [Hclosed Hlim].
    destruct (watch_finish _ _ _ _ _) as [f rec].
    set (k := if is_err rec && _ then _ else _).
    assert (Hk : k = OrderlyEnd -> cause_of o = OrderlyEnd).
    { unfold k. destruct (bool_decide (cause = OrderlyEnd)) eqn:Hc; cbn [andb].
      - destruct (negb (bool_decide (cause_of o = OrderlyEnd))) eqn:Hn.
        + rewrite bool_decide_eq_false_2 by done. rewrite andb_false_r. done.
        + intros _. by apply negb_false_iff, bool_decide_eq_true in Hn.
      - rewrite Hc, andb_false_r. intros ->. by rewrite bool_decide_eq_true_2 in Hc. }
    destruct (ended_state_spec (cn_state c) k) as (S1 & S2 & _).
    split_and!; [|done|by apply Htold|done].
    destruct Hclosed as [C1 C2 C3 C4]. constructor; cbn; try done.
    + exists k. split; [done|]. exact S2.
    + by apply (stopped_traffic _ d).
    + intros Hcomp. apply C4, Hk, S2, Hcomp.
  - destruct (G3 eq_refl) as (-> & Z1 & Z2).
    set (k := if bool_decide (cause = OrderlyEnd) then _ else _).
    assert (Hk : k <> OrderlyEnd) by (unfold k; by destruct (bool_decide_reflect (cause = OrderlyEnd))).
    destruct (ended_state_spec (cn_state c) k) as (S1 & S2 & _).
    set (c1 := if cn_started _ then _ else _).
    assert (Hc1 : exists f, c1 = set_cn_flow (set_cn_cancelled c) f).
    { unfold c1. destruct (cn_started _); [|exists (cn_flow c); destruct c; reflexivity].
      destruct (record_locked _ _) as [c2 r2] eqn:E. apply record_locked_frame in E as [f ->]. by exists f. }
    destruct Hc1 as [f ->]. split_and!; [|done|by apply Htold|done].
    constructor; cbn; rewrite ?Z1, ?Z2; try done.
    + exists k. split; [done|]. exact S2.
    + by apply quiet_traffic.
    + intros Hcomp. by apply S2 in Hcomp.
Qed.

(** The dispatch was committed, and what a move that does not commit it does. *)
Definition committed (c : C) : bool := bool_decide (cn_state c = Dispatching) || told c.
Record moved (c : C) (log : list Effect) (c' : C) (l : list Effect) : Prop := {
  mv_ok : conn_ok c' (log ++ l);
  mv_profile : cn_profile c' = cn_profile c;
  mv_final : terminal (cn_state c) = true -> l = [] /\ c' = set_cn_flow c (cn_flow c');
  mv_committed : committed c' = committed c }.

Lemma moved_refl c log : conn_ok c log -> moved c log c [].
Proof. intros Hc. constructor; [by rewrite app_nil_r|done| |done]. intros _. split; [done|]. by destruct c. Qed.
Lemma moved_trans c log c1 l1 c2 l2 : moved c log c1 l1 -> moved c1 (log ++ l1) c2 l2 -> moved c log c2 (l1 ++ l2).
Proof.
  intros [A1 A2 A3 A4] [B1 B2 B3 B4]. constructor; [by rewrite app_assoc|congruence| |congruence].
  intros Ht. destruct (A3 Ht) as [-> E1]. rewrite E1 in B3. destruct (B3 Ht) as [-> E2]. split; [done|].
  rewrite E2. by destruct c.
Qed.

Lemma told_live c : terminal (cn_state c) = false -> told c = false.
Proof. unfold told. by destruct (cn_state c). Qed.

(** A change of the flow, of the token, and of the evidence. *)
Lemma moved_flow c log f : conn_ok c log -> moved c log (set_cn_flow c f) [].
Proof.
  intros Hc. constructor; [rewrite app_nil_r|done|done|done]. unfold conn_ok in *. cbn.
  change (cn_state (set_cn_flow c f)) with (cn_state c). destruct (terminal _); destruct Hc; by constructor.
Qed.
Lemma moved_cancel c log : conn_ok c log -> moved c log (set_cn_cancelled c) [].
Proof.
  intros Hc. constructor; [rewrite app_nil_r|done| |done]; unfold conn_ok in *;
    change (cn_state (set_cn_cancelled c)) with (cn_state c) in *.
  - destruct (terminal _); destruct Hc; by constructor.
  - intros Ht. rewrite Ht in Hc. split; [done|]. pose proof (ov_cancelled _ _ Hc) as Hx. clear Hc.
    destruct c. cbn in Hx. by subst.
Qed.

Lemma moved_finish c log cause : sized (cn_profile c) -> conn_ok c log -> moved c log (finish_locked c cause) [].
Proof.
  intros Hsz Hc. unfold conn_ok in Hc. destruct (terminal (cn_state c)) eqn:Ht.
  { unfold finish_locked. rewrite Ht. apply moved_refl. unfold conn_ok. by rewrite Ht. }
  destruct (finish_over c log cause Hsz Hc) as (F1 & F2 & F3 & F4).
  constructor; [|done|congruence|].
  - unfold conn_ok. by rewrite F2, app_nil_r.
  - unfold committed. rewrite F3, (told_live c Ht), orb_false_r. rewrite (bool_decide_eq_false_2 (cn_state (finish_locked c cause) = _)); [done|].
    intros Hd. by rewrite Hd in F2.
Qed.
Lemma moved_tcp_finish c log cause : sized (cn_profile c) -> conn_ok c log -> moved c log (tcp_finish c cause) [].
Proof.
  intros Hsz Hc. apply (moved_trans _ _ (set_cn_cancelled c) [] _ []); [by apply moved_cancel|].
  rewrite app_nil_r. apply moved_finish; [done|]. apply moved_cancel in Hc as [Hc _ _ _]. by rewrite app_nil_r in Hc.
Qed.

Lemma moved_record c log x : conn_ok c log -> moved c log (record_locked c x).1 [].
Proof.
  intros Hc. destruct (record_locked c x) as [c' r] eqn:E. apply record_locked_frame in E as [f ->]. by apply moved_flow.
Qed.
Lemma moved_begin c log : conn_ok c log -> moved c log (begin_flow c).1 [].
Proof.
  intros Hc. unfold begin_flow. destruct (_ || _) eqn:Hb; [by apply moved_refl|]. apply orb_false_iff in Hb as [Ht _].
  destruct (record_locked c FlowOpen) as [c' r] eqn:E. apply record_locked_frame in E as [f ->].
  destruct r; [|by apply moved_flow]. apply (moved_flow _ _ f) in Hc as [Hc _ _ _]. rewrite app_nil_r in Hc.
  constructor; [rewrite app_nil_r|done|intros Hx; cbn in *; congruence|done].
  unfold conn_ok in *. cbn [fst] in *. change (cn_state (set_cn_started (set_cn_flow c f))) with (cn_state c) in *.
  change (cn_state (set_cn_flow c f)) with (cn_state c) in *. rewrite Ht in *. destruct Hc; by constructor.
Qed.
Lemma moved_transition c log next : conn_ok c log -> next ∈ [PendingApproval; Ready] -> cn_state c <> Dispatching ->
  moved c log (tcp_transition c next).1 [].
Proof.
  intros Hc Hn Hd. unfold tcp_transition. destruct (_ || _) eqn:Hb; [by apply moved_refl|]. apply orb_false_iff in Hb as [Ht _].
  unfold conn_ok in Hc. rewrite Ht in Hc. destruct Hc as [G1 G2 G3 G4 G5].
  assert (Hnext : next <> Dispatching /\ terminal next = false /\ next ∈ [Validated; PendingApproval; Ready; Dispatching]).
  { repeat (apply elem_of_cons in Hn as [->|Hn]; [set_solver|]). by apply elem_of_nil in Hn. }
  destruct Hnext as (N1 & N2 & N3). destruct (G4 Hd) as (R1 & R2 & R3).
  constructor; cbn; [rewrite app_nil_r|done|congruence|].
  - unfold conn_ok. change (cn_state (set_cn_state c next)) with next. rewrite N2. constructor; cbn; done.
  - unfold committed. rewrite !told_live by (cbn; done). rewrite !bool_decide_eq_false_2 by (cbn; done). done.
Qed.
Lemma moved_install c log a t : sized (cn_profile c) -> conn_ok c log -> cn_state c = Dispatching \/ terminal (cn_state c) = true ->
  moved c log (install c a t).1 [].
Proof.
  intros Hsz Hc Hd. unfold install.
  assert (Hf : forall k, moved c log (tcp_finish c k) []) by (intros; by apply moved_tcp_finish).
  destruct (_ <=? _); [apply Hf|]. destruct (is_err _); [apply Hf|]. destruct (_ || _) eqn:Hb; [apply Hf|].
  apply orb_false_iff in Hb as [_ Ht]. destruct Hd as [Hd|Hd]; [|congruence].
  unfold conn_ok in Hc. rewrite Ht in Hc. destruct Hc as [G1 G2 G3 G4 G5].
  constructor; cbn; [rewrite app_nil_r|done|congruence|done].
  unfold conn_ok. match goal with |- context [terminal ?s] => change s with (cn_state c) end. rewrite Ht.
  by constructor.
Qed.
Lemma moved_opened c log a t : sized (cn_profile c) -> conn_ok c log -> moved c log (opened c a t).1 [].
Proof.
  intros Hsz Hc. unfold opened.
  assert (Hf : forall k, moved c log (tcp_finish c k) []) by (intros; by apply moved_tcp_finish).
  destruct (_ <=? _); [apply Hf|]. destruct (Session_check a); [|apply Hf].
  destruct (_ || _); [by apply moved_refl|]. destruct (_ =? 0); [apply Hf|by apply moved_refl].
Qed.
Lemma moved_start c log now later t : sized (cn_profile c) -> conn_ok c log -> moved c log (start_relay c now later t).1 [].
Proof.
  intros Hsz Hc. unfold start_relay. destruct (_ || _) eqn:Hb; [by apply moved_refl|]. apply orb_false_iff in Hb as [Ht _].
  destruct (_ <=? now); [by apply moved_refl|]. destruct (bool_decide _ || negb (cn_capacity c)) eqn:Hb; [by apply moved_refl|].
  destruct (negb (cn_socket c)); [by apply moved_refl|]. unfold conn_ok in Hc. rewrite Ht in Hc. bool_hyps.
  assert (Hr : cn_relay c = None) by (destruct (cn_relay c); [exfalso; eauto|done]).
  destruct Hc as [G1 G2 G3 G4 G5]. destruct (G3 Hr) as (-> & Z1 & Z2).
  assert (Hd : cn_state c = Dispatching).
  { destruct (decide (cn_state c = Dispatching)) as [|Hn]; [done|]. destruct (G4 Hn) as (_ & _ & ?). congruence. }
  destruct (Duplex_new _ _) as [d|e] eqn:Hnew; cbn.
  - constructor; cbn; [|done|congruence|done]. unfold conn_ok. match goal with |- context [terminal ?s] => change s with (cn_state c) end.
    rewrite Ht. destruct Hsz as [Hs1 Hs2].
    apply Duplex_new_ok in Hnew as (Hok & Hl); [|cbn; lia|apply (Hs2 Outbound)|apply (Hs2 Inbound)].
    constructor; cbn; try done. intros r [= <-]. constructor; cbn; [done|by rewrite Hl|]. intros i. unfold limit_of. rewrite Hl. by destruct i.
  - constructor; cbn; [|done|congruence|done]. unfold conn_ok. match goal with |- context [terminal ?s] => change s with (cn_state c) end.
    rewrite Ht. constructor; cbn; try done.
Qed.
Lemma moved_relay c log a now later t : sized (cn_profile c) -> conn_ok c log -> moved c log (relay c a now later t) [].
Proof.
  intros Hsz Hc. unfold relay. pose proof (moved_opened c log a t Hsz Hc) as Ho.
  destruct (opened c a t) as [c1 [ms|e]]; cbn [fst] in Ho; [|done].
  assert (H1' : conn_ok c1 log) by (pose proof (mv_ok _ _ _ _ Ho) as Hx; by rewrite app_nil_r in Hx).
  assert (Hs1 : sized (cn_profile c1)) by by rewrite (mv_profile _ _ _ _ Ho).
  pose proof (moved_start c1 log now later t Hs1 H1') as Hst.
  destruct (start_relay c1 now later t) as [c2 [[]|cause]]; cbn [fst] in Hst.
  - apply (moved_trans _ _ c1 [] _ []); [done|by rewrite app_nil_r].
  - apply (moved_trans _ _ c1 [] _ []); [done|]. rewrite app_nil_r. apply (moved_trans _ _ c2 [] _ []); [done|].
    rewrite app_nil_r. apply moved_tcp_finish; [by rewrite (mv_profile _ _ _ _ Hst)|].
    pose proof (mv_ok _ _ _ _ Hst) as Hx. by rewrite app_nil_r in Hx.
Qed.

Lemma moved_poll c log env late : sized (cn_profile c) -> conn_ok c log ->
  wf_env (Z.min (tcp_max_data_bytes (tcp_limits (cn_profile c))) (16 * 1024)) env ->
  moved c log (poll_relay c env late).1.1 (poll_relay c env late).1.2.
Proof.
  intros Hsz Hc Hwf. unfold poll_relay. destruct (terminal (cn_state c)) eqn:Ht; [by apply moved_refl|].
  destruct (cn_relay c) as [r|] eqn:Hr; [|by apply moved_finish].
  pose proof Hc as Hgo. unfold conn_ok in Hgo. rewrite Ht in Hgo. destruct Hgo as [G1 G2 G3 G4 G5].
  destruct (G5 r Hr) as [R1 R2 R3]. rewrite <-R2 in Hwf.
  pose proof (poll_ok (ar_io r) (watching c r) env log Hwf R1) as Hp.
  destruct (Duplex_poll _ _ _) as [[[d w] l] p]. destruct Hp as ([P1 P2] & P3 & P4).
  set (c1 := set_cn_relay _ _).
  assert (Hm : moved c log c1 l).
  { constructor; cbn; [|done|congruence|done]. unfold conn_ok. change (cn_state c1) with (cn_state c). rewrite Ht.
    constructor; cbn; try done.
    - intros Hn. destruct (G4 Hn). congruence.
    - intros r' [= <-]. constructor; cbn; [done|congruence|]. intros i. by rewrite P2. }
  set (c2 := if late then set_cn_cancelled c1 else c1).
  assert (Hm2 : moved c log c2 l).
  { unfold c2. destruct late; [|done]. rewrite <-(app_nil_r l). apply (moved_trans _ _ c1 l _ []); [done|]. apply moved_cancel, Hm. }
  destruct p as [|o]; [done|]. cbn [fst snd]. rewrite <-(app_nil_r l). apply (moved_trans _ _ c2 l _ []); [done|].
  apply moved_finish; [by rewrite (mv_profile _ _ _ _ Hm2)|]. apply Hm2.
Qed.

(** The commit is the one move that changes whether the dispatch is committed. *)
Lemma commit_spec c log a : conn_ok c log -> let c' := (tcp_commit_dispatch a c).1 in
  moved c log c' [] \/ (conn_ok c' log /\ cn_profile c' = cn_profile c /\ terminal (cn_state c) = false
                       /\ committed c = false /\ cn_state c' = Dispatching).
Proof.
  intros Hc. unfold tcp_commit_dispatch, commit_authority. destruct (Session_check a); [|left; by apply moved_refl].
  destruct (_ || _) eqn:Hb; [left; by apply moved_refl|]. bool_hyps. cbn. right.
  match goal with HR : cn_state c = Ready |- _ => rename HR into Hr end.
  unfold conn_ok in Hc. rewrite Hr in Hc. destruct Hc as [G1 G2 G3 G4 G5]. split_and!; try done.
  - unfold conn_ok. cbn. change (cn_state (set_cn_state c Dispatching)) with Dispatching. cbn. constructor; cbn; try done.
    change (cn_state (set_cn_state c Dispatching)) with Dispatching. set_solver.
  - by rewrite Hr.
  - unfold committed, told. by rewrite Hr.
Qed.

Lemma move_spec c log m : sized (cn_profile c) -> conn_ok c log -> conn_disciplined c m ->
  let c' := (conn_move c m).1 in let l := (conn_move c m).2 in
  moved c log c' l \/ (exists a, m = KCommit a) /\ (conn_ok c' (log ++ l) /\ cn_profile c' = cn_profile c /\ terminal (cn_state c) = false
                      /\ committed c = false /\ cn_state c' = Dispatching).
Proof.
  intros Hsz Hc Hd. destruct m; cbn [conn_move fst snd conn_disciplined] in *.
  - left. by apply moved_flow.
  - left. by apply moved_cancel.
  - left. by apply moved_tcp_finish.
  - left. destruct Hd. by apply moved_transition.
  - left. by apply moved_begin.
  - left. unfold tcp_record. destruct (_ || _); [by apply moved_refl|by apply moved_record].
  - rewrite app_nil_r. destruct (commit_spec c log a Hc); [by left|right; split; [by eexists|done]].
  - left. by apply moved_install.
  - left. by apply moved_relay.
  - left. unfold TcpRelay_poll. set (c1 := if is_err _ then _ else _).
    assert (Hm : moved c log c1 []) by (unfold c1; destruct (is_err _); [by apply moved_tcp_finish|by apply moved_refl]).
    change (poll_relay c1 env late).1.2 with ([] ++ (poll_relay c1 env late).1.2).
    apply (moved_trans _ _ c1 [] _ _); [done|]. rewrite app_nil_r. pose proof (mv_ok _ _ _ _ Hm) as Hx. rewrite app_nil_r in Hx.
    apply moved_poll; rewrite ?(mv_profile _ _ _ _ Hm); done.
  - left. unfold watch. destruct (terminal _); [by apply moved_refl|]. destruct (state_deadline c) as [dl|]; [|by apply moved_refl].
    destruct (_ <=? _); [by apply moved_finish|by apply moved_refl].
Qed.

Lemma life_spec ms c log : sized (cn_profile c) -> conn_ok c log -> conn_lives c ms ->
  let c' := (conn_life c ms).1 in let l := (conn_life c ms).2 in
  conn_ok c' (log ++ l) /\ cn_profile c' = cn_profile c
  /\ (terminal (cn_state c) = true -> l = [] /\ c' = set_cn_flow c (cn_flow c'))
  /\ committed c' = committed c || ever_dispatched c ms.
Proof.
  revert c log. induction ms as [|m ms IH]; intros c log Hsz Hc Hl; cbn [conn_life fst snd ever_dispatched].
  { rewrite app_nil_r, orb_false_r. split_and!; [done|done| |unfold committed; by destruct (bool_decide _), (told c)].
    intros _. split; [done|]. by destruct c. }
  destruct Hl as [Hd Hl]. pose proof (move_spec c log m Hsz Hc Hd) as Hm.
  destruct (conn_move c m) as [c1 l1]. cbn [fst snd] in *.
  assert (Hdis : bool_decide (cn_state c = Dispatching) = true -> committed c = true) by (unfold committed; by intros ->).
  destruct Hm as [[M1 M2 M3 M4]|(_ & M1 & M2 & M3 & M4 & M5)]; (destruct (IH c1 (log ++ l1)) as (I1 & I2 & I3 & I4);
    [by rewrite M2|done|done|]); destruct (conn_life c1 ms) as [c2 l2]; cbn [fst snd] in *;
    rewrite app_assoc; (split_and!; [done|congruence| |]).
  - intros Ht. destruct (M3 Ht) as [-> E1]. rewrite E1 in I3. destruct (I3 Ht) as [-> E2]. split; [done|]. rewrite E2. by destruct c.
  - rewrite I4, M4. destruct (bool_decide _) eqn:Hb; [by rewrite (Hdis eq_refl)|done].
  - congruence.
  - rewrite I4, M4. cbn [orb]. assert (H1' : committed c1 = true) by (unfold committed; by rewrite bool_decide_eq_true_2).
    rewrite H1'. symmetry. apply orb_true_iff. right. destruct ms; cbn; by rewrite bool_decide_eq_true_2.
Qed.

Lemma Conn_new_ok request p required (f : F) : conn_ok (Conn_new request p required f) [].
Proof. unfold conn_ok. cbn. constructor; try done. cbn. set_solver. Qed.
Lemma conn_ok_traffic c l : sized (cn_profile c) -> conn_ok c l -> traffic_ok (cn_profile c) l.
Proof.
  intros Hsz Hc. unfold conn_ok in Hc. destruct (terminal (cn_state c)); [apply Hc|].
  destruct Hc as [G1 G2 G3 G4 G5]. destruct (cn_relay c) as [r|]; [|destruct (G3 eq_refl) as [-> _]; by apply quiet_traffic].
  destruct (G5 r eq_refl) as [R1 R2 R3]. apply (stopped_traffic _ (ar_io r)); [|done].
  unfold relay_ok in R1. destruct (outcome _); [apply R1|by apply open_stopped].
Qed.
End Operations.

(** A raw connection tells the truth about itself. Whatever its owner, other owners
    of an end, its token, session, evidence, sockets and clock do: the bytes written in
    each direction are a prefix of those its observation let pass, and these of those
    read, within the limit of the profile. Once its status is terminal it stays so, with
    the same cause, counts and no further traffic; token set, socket, permits and relay
    are given back; its counters are exactly the bytes written; it is [Completed] only
    if both directions ended in order, with everything delivered; and it is [Completed]
    or of unknown outcome exactly when its dispatch was ever committed. *)
Lemma connection_outcome `{Base64} {F : Type} `{Observer F} request p required (f : F) ms more c l :
  sized p -> conn_lives (Conn_new request p required f) ms ->
  conn_life (Conn_new request p required f) ms = (c, l) ->
  traffic_ok p l
  /\ (terminal (cn_state c) = true ->
       over c l /\ told c = ever_dispatched (Conn_new request p required f) ms
       /\ (conn_lives c more ->
            conn_life c more = (set_cn_flow c (cn_flow (conn_life c more).1), []))).
Proof.
  intros Hsz Hl Hrun. set (c0 := Conn_new request p required f) in *.
  assert (H0' : conn_ok c0 []) by apply Conn_new_ok.
  destruct (life_spec ms c0 [] Hsz H0' Hl) as (L1 & L2 & _ & L4). rewrite Hrun in *. cbn [fst snd app] in *.
  change (cn_profile c0) with p in L2. split.
  - rewrite <-L2. apply conn_ok_traffic; [by rewrite L2|done].
  - intros Ht. pose proof L1 as Hov. unfold conn_ok in Hov. rewrite Ht in Hov. split; [done|]. split.
    + change (committed c0) with false in L4. cbn [orb] in L4. rewrite <-L4. unfold committed.
      rewrite bool_decide_eq_false_2; [done|]. intros Hd. by rewrite Hd in Ht.
    + intros Hm. destruct (life_spec more c l) as (_ & _ & F3 & _); [by rewrite L2|done|done|].
      destruct (F3 Ht) as [F4 F5]. destruct (conn_life c more) as [c2 l2]. cbn [fst snd] in *. by rewrite F4, <-F5.
Qed.
