(* ===== verification/TcpConnect.v ===== *)
(** * Connecting a raw stream ([aap-engine/src/tcp/connect.rs])

    [PendingTcp::connect] as a program over its operation: evidence, approval,
    resolution, address admission, capacity, commit and the one dial, in the order of
    the code. Resolver, approver, connector and semaphores answer through
    [ConnectEnv]; other owners move between any two steps, and the caller's [select]
    may end the program at every await. *)
From S2P Require Import Prelude Protocol Ids Address Catalog Profile Endpoint TcpPolicy.
From S2P Require Import Stream Observe Redaction Immediate Flow Relay Operation TcpState Config.

(** `aap-transport/src/tcp.rs:17-20`, `TcpEndpoint` *)
Record TcpEndpoint := mkTcpEndpoint { te_authority : string; te_address : NetAddr }.

(** `aap-transport/src/tcp.rs:22-44`, `TcpEndpoint::new` *)
Definition TcpEndpoint_new (authority : string) (address : NetAddr) : Result TcpEndpoint :=
  parsed ← ConnectAuthority_parse authority;
  if negb (bool_decide (authority_text parsed = authority))
     || negb (connect_port parsed =? c_port address)
     || is_unspecified (c_ip address)
     || is_multicast (c_ip address)
     || match IpAddr_parse (connect_host parsed) with
        | Some ip => negb (bool_decide (ip = c_ip address)) | None => false end
     || match c_ip address with
        | V6 _ _ _ _ _ _ _ _ => negb (c_scope address =? 0) || negb (c_flowinfo address =? 0)
        | V4 _ _ _ _ => false
        end
  then fail RequestInvalid
  else Ok (mkTcpEndpoint authority address).

(** What a connection did to the outside, and the evidence it had accepted. *)
Inductive TcpCall :=
  | TcpEvidence (x : Data)
  | TcpApproved
  | TcpResolved (host : string) (port : Z) (candidates : list NetAddr)
  | TcpReserved
  | TcpCommitted (a : Authority)
  | TcpDialled (e : TcpEndpoint).

(** The outside, by the number of the step that asks it. *)
Record ConnectEnv (F : Type) := mkConnectEnv {
  authority_at : nat -> Authority;
  cancels : nat -> bool;
  ends : nat -> option Cause;
  records_between : nat -> F -> F;
  expired : nat -> bool;
  has_room : nat -> bool;
  approval_id : nat -> option string;
  on_approval : nat -> option (Result bool);
  on_resolution : nat -> string -> Z -> Result (list NetAddr);
  has_active : nat -> bool;
  has_global : nat -> bool;
  has_resource : nat -> option bool;
  has_payload : nat -> bool;
  on_connect : nat -> TcpEndpoint -> Result unit }.
Arguments mkConnectEnv {F}. Arguments authority_at {F}. Arguments cancels {F}. Arguments ends {F}.
Arguments records_between {F}. Arguments expired {F}. Arguments has_room {F}. Arguments approval_id {F}.
Arguments on_approval {F}. Arguments on_resolution {F}. Arguments has_active {F}. Arguments has_global {F}.
Arguments has_resource {F}. Arguments has_payload {F}. Arguments on_connect {F}.

Record TcpWorld (F : Type) := mkTcpWorld { conn : Conn F; tcp_steps : nat; tcp_log : list TcpCall }.
Arguments mkTcpWorld {F}. Arguments conn {F}. Arguments tcp_steps {F}. Arguments tcp_log {F}.

(** A program over the world: it always returns the world it leaves. *)
Definition TcpProg (F A : Type) : Type := TcpWorld F -> TcpWorld F * result Cause A.
#[export] Instance tcp_ret {F} : MRet (TcpProg F) := fun A a w => (w, Ok a).
#[export] Instance tcp_bind {F} : MBind (TcpProg F) := fun A B k m w =>
  match m w with
  | (w, Ok a) => k a w
  | (w, Err e) => (w, Err e)
  end.

Section Connect.
Context `{Base64} {F : Type} `{Observer F}.
Context (env : ConnectEnv F) (cfg : Configuration) (opts : SessionOptions) (expires : Z).
Abbreviation P := (TcpProg F).

(** ** Steps *)

Definition give {A} (r : result Cause A) : P A := fun w => (w, r).
Definition query {A} (f : nat -> A) : P A := fun w => (w, Ok (f (tcp_steps w))).
Definition note_call (c : TcpCall) : P unit := fun w => (mkTcpWorld (conn w) (tcp_steps w) (tcp_log w ++ [c]), Ok tt).
Definition on_conn {A} (f : Conn F -> Conn F * Result A) : P A :=
  fun w => let (c, r) := f (conn w) in (mkTcpWorld c (tcp_steps w) (tcp_log w), with_cause r).
Definition the_conn : P (Conn F) := fun w => (w, Ok (conn w)).

(** What the other owners do before a step. *)
Definition other_moves (n : nat) : list ConnMove :=
  KElsewhere (records_between env n) :: (if cancels env n then [KCancel] else [])
  ++ match ends env n with Some cause => [KFinish cause] | None => [] end.
Definition tcp_pass : P unit := fun w =>
  (mkTcpWorld (conn_life (conn w) (other_moves (tcp_steps w))).1 (S (tcp_steps w)) (tcp_log w), Ok tt).

(** `aap-engine/src/tcp/connect.rs:8-14`, `PendingTcp::connect` (the biased [select], at
    an await) *)
Definition tcp_await : P unit :=
  _ ← tcp_pass; a ← query (authority_at env); c ← the_conn; late ← query (expired env);
  if auth_cancelled a then give (Err SessionEnded)
  else if cn_cancelled c then give (Err CauseCancelled)
  else if late : bool then give (Err Timeout)
  else mret tt.

(** `aap-engine/src/tcp/connect.rs:244-253`, `PendingTcp::check_preparation` *)
Definition check_preparation (deadline : Z) : P unit :=
  _ ← tcp_pass; a ← query (authority_at env); c ← the_conn;
  if deadline <=? auth_now a then give (Err Timeout)
  else
    _ ← give (with_cause (Session_check a));
    if cn_cancelled c then give (Err CauseCancelled) else mret tt.

Definition tcp_move_to (next : OperationState) : P unit := _ ← tcp_pass; on_conn (fun c => tcp_transition c next).
Definition tcp_evidence (x : Data) : P unit := _ ← tcp_pass; _ ← on_conn (fun c => tcp_record c x); note_call (TcpEvidence x).

(** `aap-engine/src/tcp/connect.rs:78-134`, `PendingTcp::approve` *)
Definition approval_due (p : TcpProfile) : bool :=
  host_require_approval cfg || o_require_approval opts || tcp_require_approval p.
Definition approve (p : TcpProfile) : P unit :=
  if negb (approval_due p) then mret tt
  else if negb (has_approval cfg) then give (Err CauseInteractionUnavailable)
  else
    room ← query (has_room env);
    if negb room then give (Err CapacityExhausted)
    else
      _ ← tcp_pass; a ← query (authority_at env);
      let until := Z.min expires (auth_now a + 300 * 1000000000) in
      id ← query (approval_id env);
      match id with
      | None => give (Err CauseInternalError)
      | Some _ =>
          _ ← tcp_move_to PendingApproval;
          _ ← tcp_evidence (PolicyDecision Pending None);
          _ ← tcp_await;
          answer ← query (on_approval env);
          a ← query (authority_at env);
          match answer with
          | None => give (Err ApprovalTimeout)
          | Some r =>
              if until <=? auth_now a then give (Err ApprovalTimeout)
              else
                granted ← give (with_cause r);
                if granted : bool then note_call TcpApproved else give (Err ApprovalDenied)
          end
      end.

(** `aap-engine/src/tcp/connect.rs:157-184`, `PendingTcp::dial` (the capacity) *)
Definition reserve (p : TcpProfile) : P unit :=
  active ← query (has_active env); global ← query (has_global env);
  resource ← query (has_resource env); payload ← query (has_payload env);
  if negb active then give (Err CapacityExhausted)
  else if negb global then give (Err CapacityExhausted)
  else match resource with
       | None => give (Err PolicyChanged)
       | Some free =>
           if negb free then give (Err CapacityExhausted)
           else if negb payload then give (Err CapacityExhausted)
           else note_call TcpReserved
       end.

(** `aap-engine/src/tcp/connect.rs:200-205`, `PendingTcp::dial` (the commit and the one
    attempt) *)
Definition hand_off (target : TcpEndpoint) : P unit :=
  _ ← tcp_pass; a ← query (authority_at env);
  _ ← on_conn (tcp_commit_dispatch a);
  _ ← note_call (TcpCommitted a);
  note_call (TcpDialled target).

(** `aap-engine/src/tcp/connect.rs:209-241`, `PendingTcp::dial` (what the opening says) *)
Definition opening (p : TcpProfile) (request : Open) (required : bool) (now : Z) : result Cause (Opened * Timing) :=
  let l := tcp_limits p in
  let lifetime := Z.min expires (now + from_millis (tcp_lifetime_ms l)) in
  let details := mkOpened (open_request_id request) (tcp_id p) (tcp_max_data_bytes l) (tcp_send_limit l)
    (tcp_receive_limit l) (tcp_idle_timeout_ms l) (saturating_sub lifetime now / 1000000) (tcp_inspection p)
    (if required then Required else BestEffort) in
  _ ← with_cause (Opened_validate details);
  Ok (details, mkTiming lifetime (Z.min lifetime (now + from_millis (tcp_idle_timeout_ms l)))).

(** `aap-engine/src/tcp/connect.rs:136-242`, `PendingTcp::dial` *)
Definition dial (p : TcpProfile) (request : Open) (required : bool) (deadline : Z) : P (Opened * Timing) :=
  _ ← check_preparation deadline;
  e ← give (with_cause (ConnectAuthority_parse (endpoint p)));
  _ ← tcp_await;
  candidates ← query (fun n => on_resolution env n (connect_host e) (connect_port e));
  _ ← check_preparation deadline;
  candidates ← give (with_cause candidates);
  _ ← note_call (TcpResolved (connect_host e) (connect_port e) candidates);
  address ← give (with_cause (tcp_admit_addresses p candidates));
  target ← give (with_cause (TcpEndpoint_new (endpoint p) address));
  _ ← reserve p;
  _ ← check_preparation deadline;
  _ ← tcp_move_to Ready;
  _ ← tcp_evidence (PolicyDecision Allow None);
  _ ← tcp_evidence (ConnectAdmission (endpoint p));
  _ ← check_preparation deadline;
  _ ← hand_off target;
  _ ← tcp_await;
  socket ← query (fun n => on_connect env n target);
  _ ← check_preparation deadline;
  _ ← give (with_cause socket);
  a ← query (authority_at env);
  give (opening p request required (auth_now a)).

(** `aap-engine/src/tcp/connect.rs:60-76`, `PendingTcp::prepare` *)
Definition prepare (p : TcpProfile) (request : Open) (required : bool) : P (Opened * Timing) :=
  _ ← tcp_pass; a ← query (authority_at env); _ ← give (with_cause (Session_check a));
  _ ← tcp_pass; _ ← on_conn begin_flow; _ ← note_call (TcpEvidence FlowOpen);
  _ ← approve p;
  a ← query (authority_at env);
  dial p request required (Z.min expires (auth_now a + 10 * 1000000000)).

(** `aap-engine/src/tcp/connect.rs:7-58`, `PendingTcp::connect`: the opening and its
    timing, or the terminal outcome *)
Definition connect (w : TcpWorld F) : TcpWorld F * (Opened * Timing + Terminal) :=
  let c := conn w in
  match prepare (cn_profile c) (cn_request c) (cn_required c) w with
  | (w, Err cause) =>
      let c := tcp_finish (conn w) cause in
      (mkTcpWorld c (tcp_steps w) (tcp_log w), inr (outcome_locked c))
  | (w, Ok (details, t)) =>
      let w := (tcp_pass w).1 in
      match install (conn w) (authority_at env (tcp_steps w)) t with
      | (c, true) => (mkTcpWorld c (tcp_steps w) (tcp_log w), inl (details, t))
      | (c, false) => (mkTcpWorld c (tcp_steps w) (tcp_log w), inr (outcome_locked c))
      end
  end.
End Connect.

Create HintDb steered.
Create HintDb called.

(** ** Connecting is a life of the operation *)

Definition dials (c : TcpCall) : bool := match c with TcpDialled _ => true | _ => false end.

Section Lives.
Context `{Base64} {F : Type} `{Observer F}.
Context (env : ConnectEnv F) (cfg : Configuration) (opts : SessionOptions) (expires : Z).
Abbreviation P := (TcpProg F).

Lemma conn_life_app (c : Conn F) ms ms' : conn_life c (ms ++ ms') =
  let (c1, l1) := conn_life c ms in let (c2, l2) := conn_life c1 ms' in (c2, l1 ++ l2).
Proof.
  revert c. induction ms as [|m ms IH]; intros c; cbn [app conn_life]; [by destruct (conn_life c ms')|].
  destruct (conn_move c m) as [c0 l0]. rewrite IH. destruct (conn_life c0 ms) as [c1 l1].
  destruct (conn_life c1 ms') as [c2 l2]. by rewrite app_assoc.
Qed.
Lemma conn_lives_app (c : Conn F) ms ms' : conn_lives c ms -> conn_lives (conn_life c ms).1 ms' -> conn_lives c (ms ++ ms').
Proof.
  revert c. induction ms as [|m ms IH]; intros c Hl Hl'; [done|]. destruct Hl as [Hd Hl]. split; [done|]. apply IH; [done|].
  cbn [conn_life] in Hl'. destruct (conn_move c m) as [c0 l0]. cbn in *. by destruct (conn_life c0 ms).
Qed.

(** An operation whose dispatch is committed or not, before any traffic. *)
Definition steady (c : Conn F) (d : bool) : Prop := sized (cn_profile c) /\ conn_ok c [] /\ committed c = d.

(** A program that moves the operation by disciplined moves without traffic, and dials
    exactly when the dispatch becomes committed: from [d] to [d']. *)
Definition steered {A} (d d' : bool) (m : P A) : Prop :=
  forall w w' r, steady (conn w) d -> m w = (w', r) ->
    exists l ms, tcp_log w' = tcp_log w ++ l /\ conn_lives (conn w) ms /\ conn_life (conn w) ms = (conn w', [])
      /\ steady (conn w') (d || existsb dials l) /\ (is_ok r = true -> d || existsb dials l = d').

Lemma steered_bind {A B} d1 d2 d3 (m : P A) (k : A -> P B) :
  steered d1 d2 m -> (forall a, steered d2 d3 (k a)) -> steered d1 d3 (m ≫= k).
Proof.
  intros Hm Hk w w' r Hd Hr. unfold mbind, tcp_bind in Hr. destruct (m w) as [w1 [a|e]] eqn:E.
  - destruct (Hm _ _ _ Hd E) as (l & ms & L1 & L2 & L3 & L4 & L5). rewrite (L5 eq_refl) in L4.
    destruct (Hk a _ _ _ L4 Hr) as (l' & ms' & K1 & K2 & K3 & K4 & K5).
    assert (Hb : d1 || existsb dials (l ++ l') = d2 || existsb dials l').
    { by rewrite existsb_app, orb_assoc, (L5 eq_refl). }
    exists (l ++ l'), (ms ++ ms'). rewrite Hb. split_and!; [by rewrite K1, L1, app_assoc| | |done|done].
    + apply conn_lives_app; [done|by rewrite L3].
    + by rewrite conn_life_app, L3, K3.
  - injection Hr as <- <-. destruct (Hm _ _ _ Hd E) as (l & ms & L). exists l, ms. destruct_and!. by split_and!.
Qed.
Lemma steered_still {A} d (m : P A) : (forall w, (m w).1 = w) -> steered d d m.
Proof.
  intros Hm w w' r Hd Hr. specialize (Hm w). rewrite Hr in Hm. cbn in Hm. subst w'. exists [], [].
  rewrite app_nil_r, orb_false_r. by split_and!.
Qed.
Lemma steered_give {A} d (r : result Cause A) : steered d d (give r : P A).
Proof. by apply steered_still. Qed.
Lemma steered_stop {A} d d' c : steered d d' (give (Err c) : P A).
Proof. intros w w' r Hd [= <- <-]. exists [], []. rewrite app_nil_r, orb_false_r. by split_and!. Qed.
Lemma steered_query {A} d (f : nat -> A) : steered d d (query f : P A).
Proof. by apply steered_still. Qed.
Lemma steered_conn d : steered d d (the_conn : P (Conn F)).
Proof. by apply steered_still. Qed.
Lemma steered_ret {A} d (a : A) : steered d d (mret a : P A).
Proof. by apply steered_still. Qed.
Lemma steered_note d c : dials c = false -> steered d d (note_call c : P unit).
Proof. intros Hc w w' r Hd [= <- <-]. exists [c], []. cbn. rewrite Hc, !orb_false_r. by split_and!. Qed.

(** Disciplined moves that are no commit and no poll. *)
Lemma steady_life ms (c : Conn F) d : steady c d -> conn_lives c ms ->
  Forall (fun m => match m with KCommit _ | KPoll _ _ _ => False | _ => True end) ms ->
  steady (conn_life c ms).1 d /\ (conn_life c ms).2 = [].
Proof.
  revert c. induction ms as [|m ms IH]; intros c Hs Hl Hm; [done|]. destruct Hl as [Hd Hl].
  apply Forall_cons in Hm as [Hm Hms]. destruct Hs as (S1 & S2 & S3).
  assert (H1' : steady (conn_move c m).1 d /\ (conn_move c m).2 = []).
  { pose proof (move_spec c [] m S1 S2 Hd) as Hmv.
    assert (Hn : (conn_move c m).2 = []) by by destruct m. rewrite Hn in Hmv. split; [|done].
    destruct Hmv as [[M1 M2 M3 M4]|[[a ->] _]]; [|done]. unfold steady. by rewrite M2, M4. }
  cbn [conn_life]. destruct (conn_move c m) as [c1 l1]. cbn [fst snd] in *. destruct H1' as [H1' ->].
  destruct (IH c1 H1' Hl Hms) as [I1 I2]. destruct (conn_life c1 ms) as [c2 l2]. cbn in *. by subst.
Qed.

Lemma steered_moves {A} d (m : P A) (f : TcpWorld F -> list ConnMove) :
  (forall w, conn (m w).1 = (conn_life (conn w) (f w)).1 /\ tcp_log (m w).1 = tcp_log w) ->
  (forall w, steady (conn w) d -> conn_lives (conn w) (f w)
     /\ Forall (fun m => match m with KCommit _ | KPoll _ _ _ => False | _ => True end) (f w)) ->
  steered d d m.
Proof.
  intros Hm Hf w w' r Hs Hr. destruct (Hm w) as [E1 E2]. rewrite Hr in E1, E2. cbn in E1, E2.
  destruct (Hf w Hs) as [Hl Hn]. destruct (steady_life _ _ _ Hs Hl Hn) as [K1 K2].
  exists [], (f w). rewrite app_nil_r, orb_false_r. split_and!; try done.
  - destruct (conn_life _ _). cbn in *. by subst.
  - by rewrite E1.
Qed.
Lemma steered_pass d : steered d d (tcp_pass env : P unit).
Proof.
  apply (steered_moves _ _ (fun w => other_moves env (tcp_steps w))); [done|]. intros w _. unfold other_moves.
  destruct (cancels env (tcp_steps w)), (ends env (tcp_steps w)); cbn; split; try done; by repeat constructor.
Qed.
Lemma steered_on d (f : Conn F -> Conn F * Result unit) m : (forall c, (conn_move c m).1 = (f c).1) ->
  (forall c, steady c d -> conn_disciplined c m) ->
  match m with KCommit _ | KPoll _ _ _ => False | _ => True end -> steered d d (on_conn f : P unit).
Proof.
  intros Hf Hd Hm. apply (steered_moves _ _ (fun _ => [m])).
  - intros w. unfold on_conn. specialize (Hf (conn w)). destruct (f (conn w)) as [c r]. cbn in *.
    destruct (conn_move (conn w) m) as [c' l]. cbn in *. by subst.
  - intros w Hs. cbn. split; [by split; [apply Hd|]|by constructor].
Qed.
Lemma steered_transition next : next ∈ [PendingApproval; Ready] ->
  steered false false (on_conn (fun c => tcp_transition c next) : P unit).
Proof.
  intros Hn. apply (steered_on _ _ (KTransition next)); [done| |done]. intros c (_ & _ & Hc). split; [done|].
  intros Hd. unfold committed in Hc. by rewrite bool_decide_eq_true_2 in Hc.
Qed.
Lemma steered_begin d : steered d d (on_conn begin_flow : P unit).
Proof. by apply (steered_on _ _ KBegin). Qed.
Lemma steered_record d x : steered d d (on_conn (fun c => tcp_record c x) : P unit).
Proof. by apply (steered_on _ _ (KRecord x)). Qed.

Lemma hand_off_commit target : steered false true (hand_off env target : P unit).
Proof.
  unfold hand_off. eapply steered_bind; [apply steered_pass|]. intros _.
  eapply steered_bind; [apply steered_query|]. intros a w w' r Hs Hr.
  destruct Hs as (S1 & S2 & S3). unfold mbind, tcp_bind, on_conn in Hr.
  destruct (tcp_commit_dispatch a (conn w)) as [c [[]|e]] eqn:E.
  - pose proof (commit_spec (conn w) [] a S2) as Hc. rewrite E in Hc. cbn in Hr. unfold note_call in Hr. cbn in Hr. injection Hr as <- <-.
    exists [TcpCommitted a; TcpDialled target], [KCommit a]. split_and!; [cbn; by rewrite <-app_assoc|done|cbn; by rewrite E| |done].
    destruct Hc as [[_ _ _ Hc]|(C1 & C2 & C3 & C4 & C5)].
    + exfalso. assert (Hd : cn_state c = Dispatching).
      { unfold tcp_commit_dispatch, commit_authority in E. destruct (Session_check a); [|done].
        destruct (_ || _); [done|]. by simplify_eq. }
      rewrite S3 in Hc. unfold committed in Hc. cbn in Hc. by rewrite bool_decide_eq_true_2 in Hc.
    + unfold steady. cbn in C2 |- *. rewrite C2. split_and!; [done|done|]. unfold committed. by rewrite bool_decide_eq_true_2.
  - assert (Hc : c = conn w).
    { unfold tcp_commit_dispatch, commit_authority in E. destruct (Session_check a); [|by simplify_eq].
      destruct (_ || _); by simplify_eq. }
    subst c. cbn in Hr. simplify_eq. exists [], []. cbn. rewrite app_nil_r. by split_and!.
Qed.

#[local] Hint Resolve steered_give steered_query steered_conn steered_ret steered_pass steered_begin steered_record : steered.
#[local] Hint Extern 2 (steered _ _ (note_call _)) => apply steered_note; reflexivity : steered.
#[local] Hint Extern 3 (steered _ _ (give (Err _))) => apply steered_stop : steered.
Ltac steer :=
  repeat first
    [ match goal with |- forall _, _ => intro end
    | match goal with |- steered _ _ (give (Err _)) => apply steered_stop end
    | solve [eauto with steered]
    | match goal with
      | |- steered _ _ (on_conn (fun c => tcp_transition c _)) => apply steered_transition; set_solver
      | |- steered _ _ (mbind _ _) => first [eapply steered_bind; [solve [eauto with steered]|] | eapply steered_bind]
      | |- steered _ _ (if ?b then _ else _) => destruct b
      | |- steered _ _ (match ?x with _ => _ end) => destruct x
      end ].

Lemma steered_await d : steered d d (tcp_await env : P unit).
Proof. unfold tcp_await. steer. Qed.
Lemma steered_check d deadline : steered d d (check_preparation env deadline : P unit).
Proof. unfold check_preparation. steer. Qed.
Lemma steered_evidence d x : steered d d (tcp_evidence env x : P unit).
Proof. unfold tcp_evidence. steer. Qed.
Lemma steered_move_to next : next ∈ [PendingApproval; Ready] -> steered false false (tcp_move_to env next : P unit).
Proof. intros Hn. unfold tcp_move_to. eapply steered_bind; [apply steered_pass|]. intros _. by apply steered_transition. Qed.
#[local] Hint Resolve steered_await steered_check steered_evidence hand_off_commit : steered.
#[local] Hint Extern 2 (steered _ _ (tcp_move_to _ _)) => apply steered_move_to; set_solver : steered.
Lemma steered_approve p : steered false false (approve env cfg opts expires p : P unit).
Proof. unfold approve. steer. Qed.
Lemma steered_reserve d p : steered d d (reserve env p : P unit).
Proof. unfold reserve. steer. Qed.
#[local] Hint Resolve steered_approve steered_reserve : steered.
Lemma steered_dial p q b deadline : steered false true (dial env expires p q b deadline : P (Opened * Timing)).
Proof. unfold dial. steer. Qed.
#[local] Hint Resolve steered_dial : steered.
Lemma steered_prepare p q b : steered false true (prepare env cfg opts expires p q b : P (Opened * Timing)).
Proof. unfold prepare. steer. Qed.

Lemma finish_terminal (c : Conn F) cause : terminal (cn_state (tcp_finish c cause)) = true.
Proof.
  unfold tcp_finish, finish_locked. destruct (terminal (cn_state (set_cn_cancelled c))) eqn:Ht; [done|].
  destruct (cn_relay _) as [r|].
  - destruct (terminate _ _) as [d o]. destruct (watch_finish _ _ _ _ _) as [f rec]. apply ended_state_spec.
  - apply ended_state_spec.
Qed.
Lemma install_answer (c : Conn F) a t : (install c a t).2 = false -> terminal (cn_state (install c a t).1) = true.
Proof.
  unfold install. destruct (_ <=? _); [intros _; apply finish_terminal|]. destruct (is_err _); [intros _; apply finish_terminal|].
  destruct (_ || _); [intros _; apply finish_terminal|done].
Qed.

(** The whole connection, whose last move is the installation or the end. *)
Lemma connect_life w w' r : steady (conn w) false -> connect env cfg opts expires w = (w', r) ->
  exists l ms, tcp_log w' = tcp_log w ++ l /\ conn_lives (conn w) ms /\ conn_life (conn w) ms = (conn w', [])
    /\ steady (conn w') (existsb dials l)
    /\ match r with
       | inl _ => existsb dials l = true
       | inr t => terminal (cn_state (conn w')) = true /\ t = outcome_locked (conn w')
       end.
Proof.
  intros Hs Hr. unfold connect in Hr.
  destruct (prepare _ _ _ _ _ _ _ w) as [w1 [[details t]|cause]] eqn:Hp;
    apply steered_prepare in Hp as (l & ms & L1 & L2 & L3 & L4 & L5); try done; cbn [orb] in *.
  - specialize (L5 eq_refl). rewrite L5 in L4. exists l.
    destruct (steered_pass true w1 (tcp_pass env w1).1 (Ok tt) L4) as (l2 & ms2 & K1 & K2 & K3 & K4 & _); [done|].
    set (w2 := (tcp_pass env w1).1) in *. assert (Hl2 : tcp_log w2 = tcp_log w1) by done.
    assert (Hin : conn_disciplined (conn w2) (KInstall (authority_at env (tcp_steps w2)) t)).
    { destruct K4 as (_ & _ & Hc). revert Hc. cbn [conn_disciplined]. unfold committed, told. destruct (cn_state (conn w2)); naive_solver. }
    destruct (steady_life [KInstall (authority_at env (tcp_steps w2)) t] (conn w2) true) as [I1 _];
      [exact K4|by split|by constructor|].
    exists (ms ++ ms2 ++ [KInstall (authority_at env (tcp_steps w2)) t]). cbn [conn_life conn_move] in I1.
    assert (Hlives : conn_lives (conn w) (ms ++ ms2 ++ [KInstall (authority_at env (tcp_steps w2)) t])).
    { apply conn_lives_app; [done|]. rewrite L3. cbn [fst]. apply conn_lives_app; [done|]. rewrite K3. by split. }
    assert (Hlife : conn_life (conn w) (ms ++ ms2 ++ [KInstall (authority_at env (tcp_steps w2)) t])
                    = ((install (conn w2) (authority_at env (tcp_steps w2)) t).1, [])).
    { rewrite conn_life_app, L3, conn_life_app, K3. done. }
    pose proof (install_answer (conn w2) (authority_at env (tcp_steps w2)) t) as Ha.
    destruct (install (conn w2) _ t) as [c [|]]; injection Hr as <- <-; cbn [fst conn tcp_log] in *;
      rewrite L5; split_and!; first [done|by rewrite Hl2|by apply Ha].
  - exists l, (ms ++ [KFinish cause]). injection Hr as <- <-. cbn [conn tcp_log].
    assert (Hlives : conn_lives (conn w1) [KFinish cause]) by done.
    destruct (steady_life [KFinish cause] (conn w1) _ L4 Hlives) as [I1 _]; [by constructor|].
    split_and!; [done| | |done|by apply finish_terminal|done].
    + apply conn_lives_app; [done|by rewrite L3].
    + by rewrite conn_life_app, L3.
Qed.
End Lives.

(** ** What a connection does to the outside *)

Section Calls.
Context `{Base64} {F : Type} `{Observer F}.
Context (env : ConnectEnv F) (cfg : Configuration) (opts : SessionOptions) (expires : Z).
Abbreviation P := (TcpProg F).

(** A program that makes the calls [p] when it succeeds, and never dials. *)
Definition called {A} (m : P A) (p : A -> list TcpCall -> Prop) : Prop :=
  forall w w' r, m w = (w', r) ->
    exists l, tcp_log w' = tcp_log w ++ l /\ existsb dials l = false /\ forall a, r = Ok a -> p a l.
(** A program that dials at most once, and if so after and before calls as [Q] says. *)
Definition dials_by {A} (m : P A) (Q : list TcpCall -> Prop) : Prop :=
  forall w w' r, m w = (w', r) -> exists l, tcp_log w' = tcp_log w ++ l /\ (existsb dials l = false \/ Q l).

Lemma called_bind {A B} (m : P A) (k : A -> P B) p q :
  called m p -> (forall a, called (k a) (q a)) ->
  called (m ≫= k) (fun b l => exists a l1 l2, l = l1 ++ l2 /\ p a l1 /\ q a b l2).
Proof.
  intros Hm Hk w w' r Hr. unfold mbind, tcp_bind in Hr. destruct (m w) as [w1 [a|e]] eqn:E.
  - destruct (Hm _ _ _ E) as (l & L1 & L2 & L3). destruct (Hk a _ _ _ Hr) as (l' & K1 & K2 & K3).
    exists (l ++ l'). rewrite existsb_app, L2, K2, K1, L1, app_assoc. split_and!; [done|done|].
    intros b Hb. exists a, l, l'. auto.
  - injection Hr as <- <-. destruct (Hm _ _ _ E) as (l & L1 & L2 & _). exists l. by split_and!.
Qed.
Lemma called_quiet {A} (m : P A) (p : A -> Prop) : (forall w, tcp_log (m w).1 = tcp_log w) ->
  (forall w a, (m w).2 = Ok a -> p a) -> called m (fun a l => l = [] /\ p a).
Proof.
  intros Hm Hp w w' r Hr. specialize (Hm w). specialize (Hp w). rewrite Hr in Hm, Hp. cbn in Hm, Hp.
  exists []. rewrite app_nil_r. split_and!; [done|done|]. intros a ->. auto.
Qed.
Lemma called_weaken {A} (m : P A) (p q : A -> list TcpCall -> Prop) :
  called m p -> (forall a l, p a l -> q a l) -> called m q.
Proof. intros Hm Hp w w' r Hr. destruct (Hm _ _ _ Hr) as (l & ? & ? & ?). exists l. auto. Qed.
Lemma called_note c : dials c = false -> called (note_call c : P unit) (fun _ l => l = [c]).
Proof. intros Hc w w' r [= <- <-]. exists [c]. cbn. by rewrite Hc. Qed.

(** Programs that make no call. *)
Definition silent {A} (m : P A) : Prop := forall w, tcp_log (m w).1 = tcp_log w.
Lemma silent_bind {A B} (m : P A) (k : A -> P B) : silent m -> (forall a, silent (k a)) -> silent (m ≫= k).
Proof.
  intros Hm Hk w. specialize (Hm w). unfold mbind, tcp_bind. destruct (m w) as [w1 [a|e]]; [|done].
  cbn in Hm. by rewrite Hk, Hm.
Qed.
Lemma silent_on {A} (f : Conn F -> Conn F * Result A) : silent (on_conn f).
Proof. intros w. unfold on_conn. by destruct (f (conn w)). Qed.
Lemma silent_await : silent (tcp_await env).
Proof.
  unfold tcp_await. repeat (apply silent_bind; [done|]; intros ?). repeat case_match; done.
Qed.
Lemma silent_check deadline : silent (check_preparation env deadline).
Proof.
  unfold check_preparation. repeat (apply silent_bind; [done|]; intros ?). case_match; [done|].
  apply silent_bind; [done|]. intros _. by case_match.
Qed.
Lemma called_silent {A} (m : P A) : silent m -> called m (fun _ l => l = []).
Proof. intros Hm. eapply called_weaken; [apply (called_quiet m (fun _ => True)); auto|]. by intros a l [-> _]. Qed.
Lemma called_give {A} (r : result Cause A) : called (give r : P A) (fun a l => l = [] /\ r = Ok a).
Proof. by apply called_quiet. Qed.

(** Sequencing where the first program makes no call. *)
Lemma called_after {A B} (m : P A) (k : A -> P B) p : silent m -> (forall a, called (k a) p) -> called (m ≫= k) p.
Proof.
  intros Hm Hk. eapply called_weaken; [apply called_bind; [by apply called_silent|exact Hk]|].
  intros b l (a & l1 & l2 & -> & -> & Hp). done.
Qed.
Lemma called_given {A B} (r : result Cause A) (k : A -> P B) p : (forall a, r = Ok a -> called (k a) p) -> called (give r ≫= k) p.
Proof.
  intros Hk w w' r' Hr. destruct r as [a|e]; [by apply (Hk a eq_refl) in Hr|]. cbn in Hr. injection Hr as <- <-.
  exists []. rewrite app_nil_r. by split_and!.
Qed.
Lemma called_err {A} c p : called (give (Err c) : P A) p.
Proof. intros w w' r [= <- <-]. exists []. rewrite app_nil_r. by split_and!. Qed.
Lemma evidence_calls x : called (tcp_evidence env x) (fun _ l => l = [TcpEvidence x]).
Proof.
  apply called_after; [done|]. intros _. apply called_after; [apply silent_on|]. intros _. by apply called_note.
Qed.

(** The calls of an approval. *)
Definition approval_calls (p : TcpProfile) : list TcpCall :=
  if approval_due cfg opts p then [TcpEvidence (PolicyDecision Pending None); TcpApproved] else [].
Lemma approve_calls p : called (approve env cfg opts expires p) (fun _ l => l = approval_calls p).
Proof.
  unfold approve, approval_calls. destruct (approval_due cfg opts p); cbn [negb]; [|by apply called_silent].
  destruct (negb _); [apply called_err|]. apply called_after; [done|]. intros room.
  destruct (negb room); [apply called_err|]. do 3 (apply called_after; [done|]; intros ?).
  destruct (_ : option string); [|apply called_err]. apply called_after; [unfold tcp_move_to; apply silent_bind; [done|]; intros; apply silent_on|].
  intros ?. eapply called_weaken.
  { apply called_bind; [apply evidence_calls|]. intros ?. apply called_after; [apply silent_await|]. intros _.
    do 2 (apply called_after; [done|]; intros ?). instantiate (1 := fun _ _ l => l = [TcpApproved]).
    case_match; [|apply called_err]. case_match; [apply called_err|]. apply called_given. intros granted _.
    destruct granted; [by apply called_note|apply called_err]. }
  by intros [] l (u0 & l1 & l2 & -> & -> & ->).
Qed.
Lemma reserve_calls p : called (reserve env p) (fun _ l => l = [TcpReserved]).
Proof.
  unfold reserve. do 4 (apply called_after; [done|]; intros ?).
  do 2 (case_match; [apply called_err|]). case_match; [|apply called_err].
  do 2 (case_match; [apply called_err|]). by apply called_note.
Qed.

(** What a dial is preceded by. *)
Record dialled (p : TcpProfile) (l : list TcpCall) : Prop := {
  dl_shape : exists c found address a rest,
    dial_answer p c found address /\ Session_check a = Ok tt /\ existsb dials rest = false
    /\ l = TcpEvidence FlowOpen :: approval_calls p
         ++ [TcpResolved (connect_host c) (connect_port c) found; TcpReserved;
             TcpEvidence (PolicyDecision Allow None); TcpEvidence (ConnectAdmission (endpoint p));
             TcpCommitted a; TcpDialled (mkTcpEndpoint (endpoint p) address)] ++ rest }.

Lemma dials_after {A B} (m : P A) (k : A -> P B) p Q : called m p ->
  (forall a l, p a l -> dials_by (k a) (fun l' => Q (l ++ l'))) -> dials_by (m ≫= k) Q.
Proof.
  intros Hm Hk w w' r Hr. unfold mbind, tcp_bind in Hr. destruct (m w) as [w1 [a|e]] eqn:E.
  - destruct (Hm _ _ _ E) as (l & L1 & L2 & L3). destruct (Hk a l (L3 a eq_refl) _ _ _ Hr) as (l' & K1 & K2).
    exists (l ++ l'). rewrite existsb_app, L2, K1, L1, app_assoc. auto.
  - injection Hr as <- <-. destruct (Hm _ _ _ E) as (l & L1 & L2 & _). exists l. auto.
Qed.
Lemma dials_skip {A B} (m : P A) (k : A -> P B) Q : silent m -> (forall a, dials_by (k a) Q) -> dials_by (m ≫= k) Q.
Proof. intros Hm Hk. eapply dials_after; [by apply called_silent|]. by intros a l ->. Qed.
Lemma dials_given {A B} (r : result Cause A) (k : A -> P B) Q : (forall a, r = Ok a -> dials_by (k a) Q) -> dials_by (give r ≫= k) Q.
Proof. intros Hk. eapply dials_after; [apply called_give|]. intros a l [-> Hr]. by apply Hk. Qed.
Lemma dials_last {A B} (m : P A) (k : A -> P B) (Q : list TcpCall -> Prop) :
  dials_by m (fun l => forall rest, existsb dials rest = false -> Q (l ++ rest)) -> (forall a, called (k a) (fun _ _ => True)) -> dials_by (m ≫= k) Q.
Proof.
  intros Hm Hk w w' r Hr. unfold mbind, tcp_bind in Hr. destruct (m w) as [w1 [a|e]] eqn:E.
  - destruct (Hm _ _ _ E) as (l & L1 & L2). destruct (Hk a _ _ _ Hr) as (l' & K1 & K2 & _).
    exists (l ++ l'). rewrite existsb_app, K1, L1, app_assoc. split; [done|]. destruct L2 as [->|L2]; [by left|right; auto].
  - injection Hr as <- <-. destruct (Hm _ _ _ E) as (l & L1 & L2). exists l. split; [done|].
    destruct L2 as [|L2]; [by left|right]. specialize (L2 [] eq_refl). by rewrite app_nil_r in L2.
Qed.

Lemma hand_off_calls target : dials_by (hand_off env target)
  (fun l => exists a, Session_check a = Ok tt /\ l = [TcpCommitted a; TcpDialled target]).
Proof.
  unfold hand_off. apply dials_skip; [done|]. intros _. apply dials_skip; [done|]. intros a.
  intros w w' r Hr. unfold mbind, tcp_bind, on_conn in Hr. destruct (tcp_commit_dispatch a (conn w)) as [c [[]|e]] eqn:E.
  - cbn in Hr. unfold note_call in Hr. cbn in Hr. injection Hr as <- <-. exists [TcpCommitted a; TcpDialled target].
    cbn. rewrite <-app_assoc. split; [done|]. right. exists a. split; [|done].
    unfold tcp_commit_dispatch, commit_authority in E. by destruct (Session_check a) as [[]|].
  - cbn in Hr. injection Hr as <- <-. exists []. rewrite app_nil_r. auto.
Qed.

Lemma check_called {B} deadline (k : unit -> P B) p : (forall u, called (k u) p) -> called (check_preparation env deadline ≫= k) p.
Proof. intros Hk. apply called_after; [apply silent_check|done]. Qed.
Lemma check_dials {B} deadline (k : unit -> P B) Q : (forall u, dials_by (k u) Q) -> dials_by (check_preparation env deadline ≫= k) Q.
Proof. intros Hk. apply dials_skip; [apply silent_check|done]. Qed.

Lemma prepare_dials p request required : dials_by (prepare env cfg opts expires p request required) (dialled p).
Proof.
  unfold prepare. do 2 (apply dials_skip; [done|]; intros ?). apply dials_given. intros _ _.
  apply dials_skip; [done|]. intros _. apply dials_skip; [apply silent_on|]. intros _.
  eapply dials_after; [by apply (called_note (TcpEvidence FlowOpen))|]. intros _ l ->.
  eapply dials_after; [apply approve_calls|]. intros _ l ->. apply dials_skip; [done|]. intros start.
  unfold dial. apply check_dials. intros _. apply dials_given. intros c Hc. apply dials_skip; [apply silent_await|]. intros _.
  apply dials_skip; [done|]. intros answer. apply check_dials. intros _. apply dials_given. intros found _.
  eapply dials_after; [by apply called_note|]. intros _ l ->. apply dials_given. intros address Ha.
  apply dials_given. intros target Ht. eapply dials_after; [apply reserve_calls|]. intros _ l ->. apply check_dials. intros _.
  apply dials_skip; [unfold tcp_move_to; apply silent_bind; [done|]; intros; apply silent_on|]. intros _.
  eapply dials_after; [apply evidence_calls|]. intros _ l ->. eapply dials_after; [apply evidence_calls|]. intros _ l ->.
  apply check_dials. intros _. apply dials_last.
  - intros w w' r Hr. destruct (hand_off_calls target _ _ _ Hr) as (l & L1 & L2). exists l. split; [done|].
    destruct L2 as [|(auth & Hs & ->)]; [by left|right]. intros rest Hrest.
    assert (Htarget : target = mkTcpEndpoint (endpoint p) address).
    { unfold TcpEndpoint_new in Ht. destruct (ConnectAuthority_parse (endpoint p)); [|done]. cbn in Ht.
      destruct (_ || _); [done|]. by injection Ht as <-. }
    subst target. constructor. exists c, found, address, auth, rest.
    assert (Hok : forall {A} (r : Result A) x, with_cause r = Ok x -> r = Ok x) by by intros A [] x; cbn; congruence.
    apply Hok in Hc, Ha. destruct (tcp_admit_answer _ _ _ Ha) as (c' & Hd).
    assert (c' = c) as -> by (pose proof (ve_parse _ _ (da_endpoint _ _ _ _ Hd)); congruence).
    by split_and!.
  - intros _. apply called_after; [apply silent_await|]. intros _. apply called_after; [done|]. intros socket.
    apply check_called. intros _. apply called_given. intros _ _. apply called_after; [done|]. intros now.
    eapply called_weaken; [apply called_give|]. done.
Qed.
End Calls.

(** C6: a raw connection is dialled once, and only in full order: its opening is
    evidence, approval was obtained if the operator, the session or the profile asks for
    it, the host and port of the enrolled endpoint were resolved, the whole answer is
    admissible (at most 64 addresses, every one a public unicast address or an enrolled
    pin, at that port, at that address when the endpoint is a literal) and its first
    address is the one dialled, the permits were taken, the Allow decision and the
    admission are evidence, and the dispatch was committed under a live session. *)
Theorem dial_authorized `{Base64} {F : Type} `{Observer F} env cfg opts expires (w w' : TcpWorld F) r :
  connect env cfg opts expires w = (w', r) ->
  exists l, tcp_log w' = tcp_log w ++ l
    /\ (existsb dials l = false \/ dialled cfg opts (cn_profile (conn w)) l).
Proof.
  intros Hr. unfold connect in Hr. destruct (prepare _ _ _ _ _ _ _ w) as [w1 res] eqn:Hp.
  destruct (prepare_dials _ _ _ _ _ _ _ _ _ _ Hp) as (l & L1 & L2). exists l. split; [|done].
  destruct res as [[details t]|cause]; [|by injection Hr as <- _].
  destruct (install _ _ _) as [c []]; by injection Hr as <- _.
Qed.

(** C5: what a raw connection is reported as never contradicts what was done: however
    the connection goes, and whatever its owner, other owners, evidence, session,
    sockets and clock do afterwards, once its status is terminal it is [Completed] or of
    unknown outcome exactly when it was dialled, everything it held is given back, and
    its counters are exactly the bytes written; and a connection that failed is over. *)
Theorem raw_connection_honest `{Base64} {F : Type} `{Observer F} env cfg opts expires request p required (f : F) n w r ms c l :
  sized p -> connect env cfg opts expires (mkTcpWorld (Conn_new request p required f) n []) = (w, r) ->
  conn_lives (conn w) ms -> conn_life (conn w) ms = (c, l) ->
  traffic_ok p l
  /\ (terminal (cn_state c) = true -> over c l /\ told c = existsb dials (tcp_log w))
  /\ match r with
     | inl _ => existsb dials (tcp_log w) = true
     | inr t => terminal (cn_state (conn w)) = true /\ t = outcome_locked (conn w) /\ l = []
     end.
Proof.
  intros Hsz Hc Hl Hrun. assert (Hs : steady (Conn_new request p required f) false).
  { split; [done|]. split; [apply Conn_new_ok|done]. }
  destruct (connect_life env cfg opts expires (mkTcpWorld (Conn_new request p required f) n []) w r Hs Hc) as (k & ms0 & K1 & K2 & K3 & (K4 & K5 & K6) & K7).
  cbn [tcp_log conn app] in *. rewrite K1 in *.
  assert (Hp : cn_profile (conn w) = p).
  { destruct (life_spec ms0 (Conn_new request p required f) [] Hsz (Conn_new_ok _ _ _ _) K2) as (_ & Hp & _). by rewrite K3 in Hp. }
  destruct (life_spec ms (conn w) [] K4 K5 Hl) as (L1 & L2 & L3 & L4). rewrite Hrun in *. cbn [fst snd app] in *.
  rewrite Hp in L2. split_and!.
  - rewrite <-L2. apply conn_ok_traffic; [by rewrite L2|done].
  - intros Ht. split; [unfold conn_ok in L1; by rewrite Ht in L1|].
    assert (Htold : told c = committed c).
    { unfold committed. rewrite bool_decide_eq_false_2; [done|]. intros Hd. by rewrite Hd in Ht. }
    rewrite Htold, L4, K6. destruct (existsb dials k) eqn:Hk; [done|]. cbn [orb].
    destruct r as [?|t]; [congruence|]. destruct K7 as [K7 _]. destruct (L3 K7) as [_ E].
    destruct (ever_dispatched (conn w) ms) eqn:He; [|done]. rewrite K6 in L4. cbn in L4.
    assert (Hx : committed c = committed (conn w)) by by rewrite E. congruence.
  - destruct r as [?|t]; [done|]. destruct K7 as [K7 ->]. split_and!; [done|done|]. by apply L3.
Qed.
