(* ===== verification/Delivery.v ===== *)
(** * Delivery of a response ([TrackedBody] of [aap-engine/src/pipeline.rs])

    The body of a dispatched request, as its reader polls it: every byte is offered
    as evidence, with placeholders redacted, before it is handed on, and the end of
    the body is the completion of the request. A poll meets an environment that says,
    round by round, what the futures it polls answer and what other actors did. *)
From S2P Require Import Prelude Protocol Ids Observe Redaction Flow Operation Guard Lifecycle.

(** ** State *)

(** A frame of a body: data, or trailers. *)
Inductive Frame := Data_ (bytes : list byte) | Trailers.

(** `aap-engine/src/pipeline.rs:692-702`, `TrackedBody`: the two checks are whether
    they are still to be awaited *)
Record Tracked (F R : Type) := mkTracked {
  tb_guard : Guard F R; tb_observer : PlaceholderRedactor; tb_unobserved : list byte;
  tb_eof : bool; observation_ended : bool; delivery_check : bool; completion_check : bool }.
Arguments mkTracked {F R}. Arguments tb_guard {F R}. Arguments tb_observer {F R}. Arguments tb_unobserved {F R}.
Arguments tb_eof {F R}. Arguments observation_ended {F R}. Arguments delivery_check {F R}.
Arguments completion_check {F R}.

(** What one round of a poll meets: other actors before it and before a completion,
    the cancellation future, the two checks and the body. *)
Record Turn (F : Type) := mkTurn {
  t_others : list Other; t_elsewhere : F -> F;
  t_cancelled : bool;
  t_delivery : poll (Result unit);
  t_body : poll (option (Result Frame));
  t_completion : poll (Result unit);
  t_late : list Other }.
Arguments t_others {F}. Arguments t_elsewhere {F}. Arguments t_cancelled {F}. Arguments t_delivery {F}.
Arguments t_body {F}. Arguments t_completion {F}. Arguments t_late {F}. Arguments mkTurn {F}.

(** The passage of bytes: taken from the body, accepted as evidence, handed on. *)
Inductive Passage := Got (bytes : list byte) | Recorded (bytes : list byte) | Gave (bytes : list byte).

Section Delivery.
Context `{Base64} {F : Type} `{Observer F} {R : Type} `{RemoteContext R}.
Abbreviation T := (Tracked F R).

Definition with_guard (t : T) (g : Guard F R) : T :=
  mkTracked g (tb_observer t) (tb_unobserved t) (tb_eof t) (observation_ended t) (delivery_check t) (completion_check t).
Definition with_observer (t : T) (p : PlaceholderRedactor) : T :=
  mkTracked (tb_guard t) p (tb_unobserved t) (tb_eof t) (observation_ended t) (delivery_check t) (completion_check t).
Definition with_unobserved (t : T) (l : list byte) : T :=
  mkTracked (tb_guard t) (tb_observer t) l (tb_eof t) (observation_ended t) (delivery_check t) (completion_check t).
Definition with_eof (t : T) : T :=
  mkTracked (tb_guard t) (tb_observer t) (tb_unobserved t) true (observation_ended t) (delivery_check t) (completion_check t).
Definition with_ended (t : T) : T :=
  mkTracked (tb_guard t) (tb_observer t) (tb_unobserved t) (tb_eof t) true (delivery_check t) (completion_check t).
Definition delivery_checked (t : T) : T :=
  mkTracked (tb_guard t) (tb_observer t) (tb_unobserved t) (tb_eof t) (observation_ended t) false (completion_check t).
Definition completion_checked (t : T) : T :=
  mkTracked (tb_guard t) (tb_observer t) (tb_unobserved t) (tb_eof t) (observation_ended t) (delivery_check t) false.

(** `aap-engine/src/pipeline.rs:116-127`, `Session::execute_inner` (the body of an
    accepted response; [custody] is whether the guard has a custody check) *)
Definition tracked_body (g : Guard F R) (custody : bool) : T :=
  mkTracked g (mkPlaceholders [] false) [] false false custody custody.

(** ** Operations *)

(** `aap-engine/src/pipeline.rs:704-715`, `TrackedBody::observe` *)
Definition observe_body (t : T) (bytes : list byte) (fin : bool) : T * list Passage * Result (option (list byte)) :=
  let t := with_unobserved t (tb_unobserved t ++ bytes) in
  match feed_placeholders (tb_observer t) bytes fin with
  | (p, Err e) => (with_observer t p, [Got bytes], Err e)
  | (p, Ok (safe, consumed)) =>
      let t := with_observer t p in
      if len (tb_unobserved t) <? consumed then (t, [Got bytes], fail ObservationUnavailable)
      else
        match content_both (tb_guard t) Inbound safe with
        | (g, Err e) => (with_guard t g, [Got bytes], Err e)
        | (g, Ok _) =>
            let t := with_guard t g in
            let out := take (Z.to_nat consumed) (tb_unobserved t) in
            let t := with_unobserved t (drop (Z.to_nat consumed) (tb_unobserved t)) in
            (t, [Got bytes; Recorded safe], Ok (if consumed =? 0 then None else Some out))
        end
  end.

Definition answer : Type := poll (option (Result Frame)).
Definition outcome_t : Type := T * list Passage * answer.

(** [this.guard.fail(error.code); return Poll::Ready(Some(Err(error)))] *)
Definition refuse (t : T) (log : list Passage) (e : Error) : outcome_t :=
  (with_guard t (guard_fail (tb_guard t) (code e)), log, PollReady (Some (Err e))).

(** Other actors move. *)
Definition others_move (t : T) (os : list Other) (f : F -> F) : T :=
  let g := tb_guard t in
  let g := with_shared g (others os (shared g)) in
  with_guard t (with_evidence g (f (guard_flow g)) (observed g)).

(** A check that is still to be awaited. *)
Definition awaited (due : bool) (p : poll (Result unit)) : poll (Result unit) := if due then p else PollReady (Ok tt).

(** `aap-engine/src/pipeline.rs:743-770`, `TrackedBody::poll_frame` (after the end of
    the body) *)
Definition finish_turn (t : T) (turn : Turn F) (log : list Passage) : outcome_t :=
  let '(t, l, r) :=
    if negb (response_recorded (tb_guard t)) && negb (observation_ended t)
    then observe_body (with_ended t) [] true
    else (t, [], Ok None) in
  match r with
  | Err e => refuse t (log ++ l) e
  | Ok (Some out) => (t, log ++ l ++ [Gave out], PollReady (Some (Ok (Data_ out))))
  | Ok None =>
      match awaited (completion_check t) (t_completion turn) with
      | PollPending => (t, log ++ l, PollPending)
      | PollReady (Err e) => refuse t (log ++ l) e
      | PollReady (Ok _) =>
          let t := others_move (completion_checked t) (t_late turn) (fun f => f) in
          match complete (tb_guard t) with
          | (g, Err e) => refuse (with_guard t g) (log ++ l) e
          | (g, Ok _) => (with_guard t g, log ++ l, PollReady None)
          end
      end
  end.

(** `aap-engine/src/pipeline.rs:728-796`, `TrackedBody::poll_frame` (the rounds of one
    poll, [n] left) *)
Fixpoint turns (n k : nat) (t : T) (env : nat -> Turn F) (log : list Passage) : outcome_t :=
  match n with
  | O => (t, log, PollPending)
  | S n =>
      let turn := env k in
      let t := others_move t (t_others turn) (t_elsewhere turn) in
      if t_cancelled turn then refuse t log (Error_new OutcomeUnknown)
      else
        match awaited (delivery_check t) (t_delivery turn) with
        | PollPending => (t, log, PollPending)
        | PollReady (Err e) => refuse t log e
        | PollReady (Ok _) =>
            let t := delivery_checked t in
            if tb_eof t then finish_turn t turn log
            else
              match t_body turn with
              | PollPending => (t, log, PollPending)
              | PollReady None => turns n (S k) (with_eof t) env log
              | PollReady (Some (Err e)) => refuse t log e
              | PollReady (Some (Ok frame)) =>
                  if response_recorded (tb_guard t) then (t, log, PollReady (Some (Ok frame)))
                  else
                    match frame with
                    | Trailers => refuse t log (Error_new InspectionUnavailable)
                    | Data_ bytes =>
                        match observe_body t bytes false with
                        | (t, l, Err e) => refuse t (log ++ l) e
                        | (t, l, Ok (Some out)) => (t, log ++ l ++ [Gave out], PollReady (Some (Ok (Data_ out))))
                        | (t, l, Ok None) => turns n (S k) t env (log ++ l)
                        end
                    end
              end
        end
  end.

(** `aap-engine/src/pipeline.rs:720-799`, `TrackedBody::poll_frame` *)
Definition poll_frame (t : T) (env : nat -> Turn F) : outcome_t :=
  if finished (tb_guard t) then (t, [], PollReady None) else turns 16 0 t env [].

(** A reader that polls again and again: the passages and the answers, in order. *)
Fixpoint read_body (t : T) (envs : list (nat -> Turn F)) : T * list Passage * list answer :=
  match envs with
  | [] => (t, [], [])
  | env :: envs =>
      let '(t, l, a) := poll_frame t env in
      let '(t, ls, rest) := read_body t envs in
      (t, l ++ ls, a :: rest)
  end.
End Delivery.

(** ** What has passed *)

Definition got : list Passage -> list byte := flat_map (fun p => match p with Got b => b | _ => [] end).
Definition recorded : list Passage -> list byte := flat_map (fun p => match p with Recorded b => b | _ => [] end).
Definition gave : list Passage -> list byte := flat_map (fun p => match p with Gave b => b | _ => [] end).

Section Facts.
Context `{Base64} {F : Type} `{Observer F} `{!ObserverLaws F} {R : Type} `{RemoteContext R}.
Abbreviation T := (Tracked F R).

Lemma passage_app (f : Passage -> list byte) l k : flat_map f (l ++ k) = flat_map f l ++ flat_map f k.
Proof. induction l as [|x l IH]; [done|]. cbn. by rewrite IH, app_assoc. Qed.

(** At every moment the bytes handed on are among the bytes whose rendering was
    accepted as evidence, and these are first pieces of everything taken. *)
Definition evidenced (log : list Passage) (k : list byte) : Prop :=
  forall l1 l2, log = l1 ++ l2 -> exists ss,
    recorded l1 = flat_map render ss /\ gave l1 `prefix_of` flat_map source ss
    /\ ss `prefix_of` pieces recognizable (got log ++ k).

(** A body that may still be polled. *)
Record open_body (t : T) (log : list Passage) : Prop := {
  lv_open : finished (tb_guard t) = false;
  lv_raw : response_recorded (tb_guard t) = false;
  lv_pending : p_pending (tb_observer t) = tb_unobserved t;
  lv_done : p_done (tb_observer t) = observation_ended t;
  lv_ended : observation_ended t = true -> tb_eof t = true /\ tb_unobserved t = [];
  lv_bound : (length (tb_unobserved t) < MAX_ENCODED)%nat;
  lv_got : got log = gave log ++ tb_unobserved t;
  lv_pieces : exists ss, recorded log = flat_map render ss /\ gave log = flat_map source ss
    /\ forall k, (observation_ended t = true -> k = []) ->
         pieces recognizable (got log ++ k) = ss ++ pieces recognizable (tb_unobserved t ++ k);
  lv_evidenced k : (observation_ended t = true -> k = []) -> evidenced log k }.

(** Splitting a log that grew by one passage. *)
Lemma split_snoc (log l1 l2 : list Passage) x : log ++ [x] = l1 ++ l2 ->
  l1 = log ++ [x] \/ exists l, log = l1 ++ l.
Proof.
  destruct l2 as [|y l2] using rev_ind; [rewrite app_nil_r; by left|].
  rewrite app_assoc. intros [-> ->]%app_inj_2; [|done]. right. by exists l2.
Qed.

Lemma evidenced_got log b k : evidenced log (b ++ k) -> evidenced (log ++ [Got b]) k.
Proof.
  intros He l1 l2 Hl. assert (Hg : got (log ++ [Got b]) ++ k = got log ++ b ++ k).
  { unfold got. rewrite passage_app. cbn. by rewrite app_nil_r, <-app_assoc. }
  rewrite Hg. apply split_snoc in Hl as [->|[l Hl]]; [|by eapply He].
  destruct (He log [] (eq_sym (app_nil_r _))) as (ss & E1 & E2 & E3). exists ss.
  unfold recorded, gave in *. rewrite !passage_app. cbn. by rewrite !app_nil_r.
Qed.

Lemma evidenced_recorded log s k ss : evidenced log k -> recorded (log ++ [Recorded s]) = flat_map render ss ->
  gave log `prefix_of` flat_map source ss -> ss `prefix_of` pieces recognizable (got log ++ k) ->
  evidenced (log ++ [Recorded s]) k.
Proof.
  intros He Hr Hg Hs l1 l2 Hl. assert (Hgot : got (log ++ [Recorded s]) = got log).
  { unfold got. rewrite passage_app. cbn. by rewrite app_nil_r. }
  rewrite Hgot. apply split_snoc in Hl as [->|[l Hl]]; [|by eapply He].
  exists ss. split; [done|]. split; [|done]. unfold gave in *. rewrite passage_app. cbn. by rewrite app_nil_r.
Qed.

Lemma evidenced_gave log b k ss : evidenced log k -> recorded log = flat_map render ss ->
  gave (log ++ [Gave b]) `prefix_of` flat_map source ss -> ss `prefix_of` pieces recognizable (got log ++ k) ->
  evidenced (log ++ [Gave b]) k.
Proof.
  intros He Hr Hg Hs l1 l2 Hl. assert (Hgot : got (log ++ [Gave b]) = got log).
  { unfold got. rewrite passage_app. cbn. by rewrite app_nil_r. }
  rewrite Hgot. apply split_snoc in Hl as [->|[l Hl]]; [|by eapply He].
  exists ss. split; [|by split]. unfold recorded in *. rewrite passage_app. cbn. by rewrite app_nil_r.
Qed.

Lemma content_both_frame (g g' : Guard F R) d l r : content_both g d l = (g', r) ->
  finished g' = finished g /\ response_recorded g' = response_recorded g.
Proof.
  unfold content_both. generalize (chunks (length l) (Z.to_nat (32 * 1024)) l). intros cs.
  revert g. induction cs as [|c cs IH]; intros g; cbn [content_views]; [by intros [= <- <-]|].
  destruct (record_many g _) as [g1 [[]|e]] eqn:Hr; unfold record_many in Hr;
    destruct (record_with _ _ _ _ _) as [[[f st] u] r'].
  - intros Hc. apply IH in Hc as [-> ->]. by simplify_eq.
  - intros Hc. by simplify_eq.
Qed.

(** [observe_body] on an open body, before its observation ended. *)
Definition next_body (t : T) (fin : bool) : T := if fin then with_ended t else t.
Lemma observe_spec t log bytes fin t' l r : open_body t log -> observation_ended t = false -> (fin = true -> tb_eof t = true) ->
  observe_body (next_body t fin) bytes fin = (t', l, r) ->
  match r with
  | Ok o =>
      open_body t' (log ++ l ++ match o with Some out => [Gave out] | None => [] end)
      /\ tb_eof t' = tb_eof t /\ observation_ended t' = fin /\ completion_check t' = completion_check t
  | Err e => evidenced (log ++ l) [] /\ finished (tb_guard t') = false
  end.
Proof.
  intros [L1 L2 L3 L4 L5 L6 L7 (ss & P1 & P2 & P3) L8] Hend Heof Ho. unfold observe_body in Ho.
  rewrite Hend in *.
  assert (Hn : tb_observer (next_body t fin) = tb_observer t /\ tb_unobserved (next_body t fin) = tb_unobserved t
     /\ tb_guard (next_body t fin) = tb_guard t /\ tb_eof (next_body t fin) = tb_eof t
     /\ observation_ended (next_body t fin) = fin /\ completion_check (next_body t fin) = completion_check t).
  { destruct fin; cbn; by rewrite ?Hend. }
  destruct Hn as (N1 & N2 & N3 & N4 & N5 & N6).
  assert (Hfail : evidenced (log ++ [Got bytes]) []) by (apply evidenced_got, L8; done).
  unfold feed_placeholders in Ho. cbn [tb_observer with_unobserved] in Ho. rewrite N1, L3, L4 in Ho.
  destruct (false || (MAX_FEED <? len bytes)).
  { unfold fail in Ho. simplify_eq. split; [exact Hfail|]. by rewrite <-L1, <-N3. }
  destruct (scan recognizable MAX_ENCODED fin _ _) as [o rest] eqn:Hs.
  apply (scan_pieces recognizable_matcher) in Hs as (ss2 & -> & Hl & Hr & Hr' & Hk); [|lia].
  cbn [with_observer with_unobserved tb_unobserved tb_guard] in Ho. rewrite N2, N3 in Ho.
  assert (Hlen : len (tb_unobserved t ++ bytes) - len rest = len (flat_map source ss2)).
  { rewrite Hl at 1. rewrite len_app. lia. }
  rewrite Hlen in Ho. destruct (Z.ltb_spec (len (tb_unobserved t ++ bytes)) (len (flat_map source ss2))) as [Hlt|_].
  { pose proof (len_nonneg rest). lia. }
  destruct (content_both (tb_guard t) Inbound _) as [g1 [[]|e]] eqn:Hc; apply content_both_frame in Hc as [C1 C2].
  2: { simplify_eq. split; [exact Hfail|]. cbn. by rewrite C1. }
  unfold len in Ho. rewrite Nat2Z.id in Ho. fold (len (flat_map source ss2)) in Ho.
  assert (Htake : take (length (flat_map source ss2)) (tb_unobserved t ++ bytes) = flat_map source ss2)
    by (rewrite Hl at 1; by rewrite take_app_length).
  assert (Hdrop : drop (length (flat_map source ss2)) (tb_unobserved t ++ bytes) = rest)
    by (rewrite Hl at 1; by rewrite drop_app_length).
  cbn [with_observer with_unobserved with_guard tb_unobserved tb_guard] in Ho. rewrite ?N2 in Ho.
  rewrite Htake, Hdrop in Ho. injection Ho as <- <- <-.
  set (give := match _ with Some out => [Gave out] | None => [] end).
  assert (Hgive : gave give = flat_map source ss2 /\ got give = [] /\ recorded give = []).
  { unfold give. destruct (Z.eqb_spec (len (flat_map source ss2)) 0) as [Hz|]; cbn; rewrite ?app_nil_r; [|done].
    apply len_0 in Hz. by rewrite Hz. }
  destruct Hgive as (G1 & G2 & G3).
  assert (Hgot : got (log ++ [Got bytes; Recorded (flat_map render ss2)] ++ give) = got log ++ bytes).
  { unfold got in *. rewrite !passage_app, G2. cbn. by rewrite !app_nil_r. }
  assert (Hgave : gave (log ++ [Got bytes; Recorded (flat_map render ss2)] ++ give) = gave log ++ flat_map source ss2).
  { unfold gave in *. rewrite !passage_app, G1. done. }
  assert (Hrec : recorded (log ++ [Got bytes; Recorded (flat_map render ss2)] ++ give) = recorded log ++ flat_map render ss2).
  { unfold recorded in *. rewrite !passage_app, G3. cbn. by rewrite !app_nil_r. }
  assert (Hkk : forall k, (fin = true -> k = []) ->
     pieces recognizable ((got log ++ bytes) ++ k) = (ss ++ ss2) ++ pieces recognizable (rest ++ k)).
  { intros k Hk0. rewrite <-app_assoc, P3 by done. rewrite app_assoc, Hk by done. by rewrite app_assoc. }
  split; [|by split_and!].
  constructor; cbn [tb_guard tb_observer tb_unobserved tb_eof observation_ended with_guard with_observer
    with_unobserved p_pending p_done]; rewrite ?C1, ?C2, ?N4, ?N5; try done.
  - intros Hfin. split; [by rewrite Heof|by apply Hr].
  - destruct fin; [rewrite Hr by done; unfold MAX_ENCODED, DECODED_LEN; cbn; lia|].
    destruct Hr' as [Hr'| ->]; [done|done|]. unfold MAX_ENCODED, DECODED_LEN; cbn; lia.
  - rewrite Hgot, Hgave, L7, <-!app_assoc. by rewrite Hl.
  - exists (ss ++ ss2). rewrite Hgot, Hgave, Hrec, P1, P2, !flat_map_app. split_and!; [done..|]. exact Hkk.
  - intros k Hk0. assert (H1' : evidenced (log ++ [Got bytes]) k) by (apply evidenced_got, L8; done).
    assert (Hp : ss ++ ss2 `prefix_of` pieces recognizable (got (log ++ [Got bytes]) ++ k)).
    { unfold got. rewrite passage_app. cbn. rewrite app_nil_r. fold (got log). rewrite Hkk by done. by eexists. }
    assert (H2' : evidenced (log ++ [Got bytes; Recorded (flat_map render ss2)]) k).
    { change (log ++ [Got bytes; Recorded (flat_map render ss2)]) with (log ++ [Got bytes] ++ [Recorded (flat_map render ss2)]).
      rewrite app_assoc. apply (evidenced_recorded _ _ _ (ss ++ ss2)); [done| | |done].
      - unfold recorded in *. rewrite !passage_app. cbn. rewrite !app_nil_r, P1. by rewrite flat_map_app.
      - unfold gave in *. rewrite !passage_app. cbn. rewrite !app_nil_r, P2, flat_map_app. by eexists. }
    unfold give in *. destruct (_ =? 0); [by rewrite app_nil_r|]. rewrite app_assoc.
    apply (evidenced_gave _ _ _ (ss ++ ss2)); [done| | |].
    + unfold recorded in *. rewrite !passage_app. cbn. rewrite !app_nil_r, P1. by rewrite flat_map_app.
    + unfold gave in *. rewrite !passage_app. cbn. rewrite !app_nil_r, P2, flat_map_app. done.
    + unfold got in *. rewrite !passage_app in *. cbn in *. by rewrite !app_nil_r in *.
Qed.

(** What only concerns the checks or other actors keeps a body open. *)
Lemma live_same t t' log : open_body t log -> finished (tb_guard t') = finished (tb_guard t) ->
  response_recorded (tb_guard t') = response_recorded (tb_guard t) -> tb_observer t' = tb_observer t ->
  tb_unobserved t' = tb_unobserved t -> observation_ended t' = observation_ended t ->
  (tb_eof t = true -> tb_eof t' = true) -> open_body t' log.
Proof.
  intros [] E1 E2 E3 E4 E5 E6. constructor; rewrite ?E1, ?E2, ?E3, ?E4, ?E5; try done.
  intros He. destruct (lv_ended0 He). auto.
Qed.

(** How a poll may leave the body. *)
Definition settled (t : T) (log : list Passage) (a : answer) : Prop :=
  match a with
  | PollPending | PollReady (Some (Ok _)) => open_body t log
  | PollReady (Some (Err _)) =>
      finished (tb_guard t) = true /\ evidenced log [] /\ terminal (op_state (guard_op (tb_guard t))) = true
  | PollReady None =>
      finished (tb_guard t) = true /\ evidenced log []
      /\ op_state (guard_op (tb_guard t)) = Completed /\ tb_eof t = true
      /\ gave log = got log /\ recorded log = flat_map render (pieces recognizable (got log))
  end.

Lemma settled_refuse t log log' e : evidenced log [] -> finished (tb_guard t) = false -> refuse t log e = log' ->
  settled log'.1.1 log'.1.2 log'.2.
Proof.
  intros He Hf <-. cbn. destruct (guard_fail_spec (tb_guard t) (code e)) as (_ & _ & ? & _ & Hs).
  split_and!; [done..|]. rewrite (Hs Hf). destruct (terminal _) eqn:Ht; [done|].
  unfold failed_state. by repeat case_match.
Qed.

Lemma live_evidenced t log : open_body t log -> evidenced log [].
Proof. intros []. by apply lv_evidenced0. Qed.

Lemma finish_spec t turn log t' log' a : open_body t log -> tb_eof t = true -> finish_turn t turn log = (t', log', a) ->
  settled t' log' a.
Proof.
  intros Hl Heof Hf. unfold finish_turn in Hf.
  destruct (if negb (response_recorded (tb_guard t)) && negb (observation_ended t)
            then observe_body (with_ended t) [] true else (t, [], Ok None)) as [[t1 l] r] eqn:Ho.
  assert (Hs : match r with
               | Ok o => open_body t1 (log ++ l ++ match o with Some out => [Gave out] | None => [] end)
                         /\ tb_eof t1 = true /\ observation_ended t1 = true
               | Err e => evidenced (log ++ l) [] /\ finished (tb_guard t1) = false
               end).
  { rewrite (lv_raw _ _ Hl) in Ho. cbn [negb andb] in Ho. destruct (observation_ended t) eqn:He; cbn [negb] in Ho.
    - simplify_eq. cbn. by rewrite app_nil_r.
    - apply (observe_spec t log [] true t1 l r Hl He) in Ho; [|done]. destruct r; [|done].
      destruct Ho as (? & E1 & E2 & _). by rewrite E1. }
  destruct r as [[out|]|e].
  - simplify_eq. apply Hs.
  - destruct Hs as (Hs & He & Hd). rewrite app_nil_r in Hs.
    destruct (awaited _ _) as [|[[]|e]].
    + by simplify_eq.
    + set (t2 := others_move (completion_checked t1) (t_late turn) (fun f => f)) in Hf.
      assert (H2' : open_body t2 (log ++ l)) by by apply (live_same t1).
      destruct (complete (tb_guard t2)) as [g [[]|e]] eqn:Hc.
      * simplify_eq. apply complete_spec in Hc as (_ & _ & _ & Hfin & _ & _ & Hcomp). cbn.
        destruct (lv_ended _ _ Hs Hd) as [_ Hnil]. destruct (lv_pieces _ _ Hs) as (ss & P1 & P2 & P3).
        specialize (P3 [] (fun _ => eq_refl)). rewrite !app_nil_r, Hnil in P3.
        split_and!; [done|by apply (live_evidenced t1)|done|done| |].
        -- by rewrite (lv_got _ _ Hs), Hnil, app_nil_r.
        -- by rewrite P1, P3, app_nil_r.
      * assert (Hg : finished g = false) by (apply complete_spec in Hc as (_ & _ & -> & _); apply (lv_open _ _ H2')).
        by apply (settled_refuse _ _ (t', log', a) e) in Hf; [|apply (live_evidenced t1)|].
    + by apply (settled_refuse _ _ (t', log', a) e) in Hf; [|apply (live_evidenced t1)|apply (lv_open _ _ Hs)].
  - destruct Hs. by apply (settled_refuse _ _ (t', log', a) e) in Hf.
Qed.

Lemma turns_spec n k t env log t' log' a : open_body t log -> turns n k t env log = (t', log', a) -> settled t' log' a.
Proof.
  revert k t log. induction n as [|n IH]; intros k t log Hl Ht; cbn [turns] in Ht; [by simplify_eq|].
  set (t1 := others_move t _ _) in Ht. assert (H1' : open_body t1 log) by by apply (live_same t).
  destruct (t_cancelled _).
  { by eapply (settled_refuse _ _ (t', log', a)) in Ht; [|apply (live_evidenced t1)|eapply lv_open]. }
  destruct (awaited _ _) as [|[[]|e]].
  { by simplify_eq. }
  2: { by eapply (settled_refuse _ _ (t', log', a)) in Ht; [|apply (live_evidenced t1)|eapply lv_open]. }
  set (t2 := delivery_checked t1) in Ht. assert (H2' : open_body t2 log) by by apply (live_same t1).
  destruct (tb_eof t2) eqn:He; [by apply finish_spec in Ht|].
  destruct (t_body _) as [|[[frame|e]|]].
  - by simplify_eq.
  - rewrite (lv_raw _ _ H2') in Ht. destruct frame as [bytes|].
    2: { by eapply (settled_refuse _ _ (t', log', a)) in Ht; [|apply (live_evidenced t2)|eapply lv_open]. }
    destruct (observe_body t2 bytes false) as [[t3 l] r] eqn:Ho.
    assert (Hend : observation_ended t2 = false).
    { destruct (observation_ended t2) eqn:Hx; [|done]. destruct (lv_ended _ _ H2' Hx). congruence. }
    apply (observe_spec t2 log bytes false t3 l r H2' Hend) in Ho; [|done]. destruct r as [[out|]|e].
    + simplify_eq. apply Ho.
    + rewrite app_nil_r in Ho. eapply IH; [apply Ho|done].
    + destruct Ho. by eapply (settled_refuse _ _ (t', log', a)) in Ht.
  - by eapply (settled_refuse _ _ (t', log', a)) in Ht; [|apply (live_evidenced t2)|eapply lv_open].
  - eapply IH; [|done]. by apply (live_same t2).
Qed.

(** A poll only adds passages to the earlier ones. *)
Definition after (log : list Passage) (o : @outcome_t F R) : outcome_t := let '(t, l, a) := o in (t, log ++ l, a).

Lemma finish_log t turn log acc : finish_turn t turn (log ++ acc) = after log (finish_turn t turn acc).
Proof.
  unfold finish_turn. destruct (if _ : bool then _ else _) as [[t1 l] [[out|]|e]].
  - cbn [after]. by rewrite !app_assoc.
  - destruct (awaited _ _) as [|[[]|e]]; [|destruct (complete _) as [g [[]|e]]|]; cbn [after refuse]; by rewrite app_assoc.
  - cbn [after refuse]. by rewrite app_assoc.
Qed.

Lemma turns_log n k t env log acc : turns n k t env (log ++ acc) = after log (turns n k t env acc).
Proof.
  revert k t acc. induction n as [|n IH]; intros k t acc; cbn [turns]; [done|].
  destruct (t_cancelled _); [done|]. destruct (awaited _ _) as [|[[]|e]]; [done| |done].
  destruct (tb_eof _); [apply finish_log|]. destruct (t_body _) as [|[[frame|e]|]]; [done| |done|apply IH].
  destruct (response_recorded _); [done|]. destruct frame as [bytes|]; [|done].
  destruct (observe_body _ _ _) as [[t1 l] [[out|]|e]]; cbn [after refuse];
    [by rewrite !app_assoc|by rewrite <-app_assoc, IH|by rewrite !app_assoc].
Qed.

Lemma poll_spec t env log t' l a : open_body t log -> poll_frame t env = (t', l, a) -> settled t' (log ++ l) a.
Proof.
  intros Hl Hp. unfold poll_frame in Hp. rewrite (lv_open _ _ Hl) in Hp.
  apply (turns_spec 16 0 t env log); [done|]. rewrite <-(app_nil_r log) at 1. by rewrite turns_log, Hp.
Qed.

(** What a reader leaves: a body that may still be polled, or one that is over. *)
Definition left (t : T) (log : list Passage) : Prop :=
  open_body t log \/ finished (tb_guard t) = true /\ evidenced log [].

Lemma read_over t envs : finished (tb_guard t) = true ->
  read_body t envs = (t, [], map (fun _ => PollReady None) envs).
Proof.
  intros Hf. induction envs as [|env envs IH]; [done|]. cbn [read_body map]. unfold poll_frame. rewrite Hf. by rewrite IH.
Qed.

Lemma read_spec envs t log t' l answers : left t log -> read_body t envs = (t', l, answers) -> left t' (log ++ l).
Proof.
  revert t log l answers. induction envs as [|env envs IH]; intros t log l answers Hl Hr.
  { cbn in Hr. simplify_eq. by rewrite app_nil_r. }
  destruct Hl as [Hl|[Hf He]]; [|rewrite read_over in Hr by done; simplify_eq; rewrite app_nil_r; by right].
  cbn [read_body] in Hr. destruct (poll_frame t env) as [[t1 l1] a] eqn:Hp. apply (poll_spec t env log) in Hp; [|done].
  destruct (read_body t1 envs) as [[t2 l2] as2] eqn:Hr2. simplify_eq. rewrite app_assoc. eapply IH; [|done].
  destruct a as [|[[f|e]|]]; cbn in Hp; [by left..|right; by destruct_and!|right; by destruct_and!].
Qed.
Lemma left_evidenced t log : left t log -> evidenced log [].
Proof. intros [?|[]]; [by apply (live_evidenced t)|done]. Qed.

Lemma live_track (g : Guard F R) custody : finished g = false -> response_recorded g = false -> open_body (tracked_body g custody) [].
Proof.
  intros Hf Hr. constructor; try done; cbn.
  - unfold MAX_ENCODED, DECODED_LEN; cbn; lia.
  - by exists [].
  - intros k _ [|] l2 Hl; [|done]. exists []. split; [done|]. split; [done|]. by eexists.
Qed.
Lemma left_track g custody envs t log answers : finished g = false -> response_recorded g = false ->
  read_body (tracked_body g custody) envs = (t, log, answers) -> left t log.
Proof. intros Hf Hr Hd. by apply (read_spec _ _ []) in Hd; [|left; apply live_track]. Qed.

(** C3: the broker's caller never sees a byte of a response ahead of its evidence.
    Whatever the body, the observer, the custody checks, cancellation and other actors
    do: at every moment of reading, the bytes handed on are a prefix of the source of
    some first pieces of the bytes received (a placeholder is one piece), and the
    evidence accepted so far is exactly the rendering of these pieces, placeholders
    hidden. While the body is open nothing received is lost: it was handed on, in
    order, or is held back, fewer than 306 bytes. *)
Theorem delivery_observed g custody envs t log answers :
  finished g = false -> response_recorded g = false -> read_body (tracked_body g custody) envs = (t, log, answers) ->
  (forall l1 l2, log = l1 ++ l2 -> exists ss,
    recorded l1 = flat_map render ss /\ gave l1 `prefix_of` flat_map source ss
    /\ ss `prefix_of` pieces recognizable (got log))
  /\ (finished (tb_guard t) = false ->
      got log = gave log ++ tb_unobserved t /\ (length (tb_unobserved t) < MAX_ENCODED)%nat).
Proof.
  intros Hf Hr Hd. pose proof (left_track _ _ _ _ _ _ Hf Hr Hd) as Hl. split.
  - intros l1 l2 Hs. destruct (left_evidenced _ _ Hl _ _ Hs) as (ss & ?). exists ss. by rewrite app_nil_r in *.
  - destruct Hl as [[]|[Hx _]]; [done|congruence].
Qed.

(** What a poll of an open body tells: whatever it answers decides whether the body is
    over, and a body that is over is never anything else again. *)
Definition told_once (t : T) (log : list Passage) (a : answer) : Prop :=
  let over := forall later, read_body t later = (t, [], map (fun _ => PollReady None) later) in
  match a with
  | PollPending | PollReady (Some (Ok _)) => finished (tb_guard t) = false
  | PollReady (Some (Err _)) => terminal (op_state (guard_op (tb_guard t))) = true /\ over
  | PollReady None =>
      op_state (guard_op (tb_guard t)) = Completed /\ tb_eof t = true
      /\ gave log = got log /\ recorded log = flat_map render (pieces recognizable (got log)) /\ over
  end.

(** C4: whatever a poll of an open body answers. Data, or nothing yet, leaves the body
    open. The reader is told that the response ended only when it is whole: the operation
    is then [Completed], the body itself had ended, every byte received has been handed
    on in order, and the rendering of all of it was accepted as evidence. After an error
    the operation has settled. An end or an error is told once: every later poll reports
    the end without any effect. *)
Theorem delivery_complete g custody envs t log answers env t' l a :
  finished g = false -> response_recorded g = false -> read_body (tracked_body g custody) envs = (t, log, answers) ->
  finished (tb_guard t) = false -> poll_frame t env = (t', l, a) -> told_once t' (log ++ l) a.
Proof.
  intros Hf Hr Hd Ho Hp. destruct (left_track _ _ _ _ _ _ Hf Hr Hd) as [Hl|[Hx _]]; [|congruence].
  apply (poll_spec t env log) in Hp; [|done]. destruct a as [|[[f|e]|]]; cbn in Hp |- *.
  - apply (lv_open _ _ Hp).
  - apply (lv_open _ _ Hp).
  - destruct Hp as (? & _ & ?). split; [done|]. intros later. by apply read_over.
  - destruct Hp as (? & _ & ? & ? & ? & ?). split_and!; [done..|]. intros later. by apply read_over.
Qed.
End Facts.
