(* ===== verification/Session.v ===== *)
(** * Broker and sessions ([aap-engine/src/lib.rs], the admission of
    [aap-engine/src/pipeline.rs], [aap-engine/src/vault.rs] and [aap-engine/src/tcp.rs])

    One host with its registry of sessions, and the private state of each session: what
    it tracks under request identifiers, its authentication contexts and search
    cursors, and its approval reservations. A [SessionCore] is an allocation with an
    address: the registry holds weak references to addresses, and an upgrade succeeds
    while the allocation is live. A tracked [Arc] is never removed from its map, so the
    entry of the map is the shared cell. Each function is one critical section. *)
From S2P Require Import Prelude Protocol Ids Json Tools Address Catalog Profile Observe.
From S2P Require Import Flow Operation Endpoint TcpPolicy.
From S2P Require Import Stream Relay TcpState Config.

(** ** State *)

(** `aap-engine/src/vault.rs:17-21`, `SearchCursor` *)
Record SearchCursor := mkCursor { cur_uri : string; cur_query : option string; cur_offset : Z }.
#[export] Instance SearchCursor_eq_dec : EqDecision SearchCursor.
Proof. solve_decision. Defined.

(** `aap-engine/src/vault.rs:11-16`, `Vault` *)
Record Vault := mkVault { v_contexts : gmap string Binding; v_cursors : gmap string SearchCursor }.

(** `aap-engine/src/lib.rs:127-132`, `Operations` *)
Record Operations (F : Type) := mkOperations {
  ops_items : gmap string Operation;
  ops_issuances : gmap string Issuance;
  ops_streams : gmap string (Conn F);
  ops_bytes : Z }.
Arguments mkOperations {F}. Arguments ops_items {F}. Arguments ops_issuances {F}.
Arguments ops_streams {F}. Arguments ops_bytes {F}.

(** `aap-engine/src/lib.rs:108-126`, `SessionCore`; the semaphore [pending] is the
    bytes of the reservations that hold one of its permits *)
Record Core (F : Type) := mkCore {
  core_id : string;
  core_options : SessionOptions;
  core_expires : Z;
  core_revoked : bool;
  core_cancelled : bool;
  core_operations : Operations F;
  core_vault : Vault;
  core_pending_bytes : Z;
  core_reservations : list Z }.
Arguments mkCore {F}. Arguments core_id {F}. Arguments core_options {F}. Arguments core_expires {F}.
Arguments core_revoked {F}. Arguments core_cancelled {F}. Arguments core_operations {F}.
Arguments core_vault {F}. Arguments core_pending_bytes {F}. Arguments core_reservations {F}.

(** `aap-engine/src/lib.rs:87-107`, `Host`: the live allocations, the next address and
    the clock beside it *)
Record Host (F : Type) := mkHost {
  host_configuration : Configuration;
  host_sessions : gmap string nat;
  host_closed : bool;
  host_bytes : Z;
  host_cores : gmap nat (Core F);
  host_next : nat;
  host_now : Z }.
Arguments mkHost {F}. Arguments host_configuration {F}. Arguments host_sessions {F}. Arguments host_closed {F}.
Arguments host_bytes {F}. Arguments host_cores {F}. Arguments host_next {F}. Arguments host_now {F}.

Definition session_bytes : Z := 8 * 1024 * 1024.
Definition broker_bytes : Z := 64 * 1024 * 1024.
Definition approval_bytes : Z := 4 * 1024 * 1024.

Section Sessions.
Context `{Base64} {F : Type} `{Observer F}.
Abbreviation Ht := (Host F).
Abbreviation Cr := (Core F).
Abbreviation Ops := (Operations F).

(** `aap-engine/src/lib.rs:133-137`, `Operations::len` *)
Definition ops_len (o : Ops) : Z :=
  Z.of_nat (size (ops_items o)) + Z.of_nat (size (ops_issuances o)) + Z.of_nat (size (ops_streams o)).

Definition with_items (o : Ops) (m : gmap string Operation) : Ops :=
  mkOperations m (ops_issuances o) (ops_streams o) (ops_bytes o).
Definition with_issuances (o : Ops) (m : gmap string Issuance) : Ops :=
  mkOperations (ops_items o) m (ops_streams o) (ops_bytes o).
Definition with_streams (o : Ops) (m : gmap string (Conn F)) : Ops :=
  mkOperations (ops_items o) (ops_issuances o) m (ops_bytes o).
Definition with_bytes (o : Ops) (n : Z) : Ops :=
  mkOperations (ops_items o) (ops_issuances o) (ops_streams o) n.

Definition with_operations (c : Cr) (o : Ops) : Cr :=
  mkCore (core_id c) (core_options c) (core_expires c) (core_revoked c) (core_cancelled c) o (core_vault c)
    (core_pending_bytes c) (core_reservations c).
Definition with_vault (c : Cr) (v : Vault) : Cr :=
  mkCore (core_id c) (core_options c) (core_expires c) (core_revoked c) (core_cancelled c) (core_operations c) v
    (core_pending_bytes c) (core_reservations c).
Definition with_flags (c : Cr) (revoked cancelled : bool) : Cr :=
  mkCore (core_id c) (core_options c) (core_expires c) revoked cancelled (core_operations c) (core_vault c)
    (core_pending_bytes c) (core_reservations c).
Definition with_pending (c : Cr) (bytes : Z) (rs : list Z) : Cr :=
  mkCore (core_id c) (core_options c) (core_expires c) (core_revoked c) (core_cancelled c) (core_operations c)
    (core_vault c) bytes rs.
Definition with_contexts (c : Cr) (m : gmap string Binding) : Cr :=
  with_vault c (mkVault m (v_cursors (core_vault c))).
Definition with_cursors (c : Cr) (m : gmap string SearchCursor) : Cr :=
  with_vault c (mkVault (v_contexts (core_vault c)) m).

Definition with_cores (h : Ht) (m : gmap nat Cr) : Ht :=
  mkHost (host_configuration h) (host_sessions h) (host_closed h) (host_bytes h) m (host_next h) (host_now h).
Definition with_core (h : Ht) (a : nat) (c : Cr) : Ht := with_cores h (<[a := c]> (host_cores h)).
Definition with_host_bytes (h : Ht) (n : Z) : Ht :=
  mkHost (host_configuration h) (host_sessions h) (host_closed h) n (host_cores h) (host_next h) (host_now h).
Definition with_now (h : Ht) (t : Z) : Ht :=
  mkHost (host_configuration h) (host_sessions h) (host_closed h) (host_bytes h) (host_cores h) (host_next h) t.

(** What a session's authority is at this instant ([Session::check] reads it). *)
Definition core_authority (h : Ht) (c : Cr) : Authority :=
  mkAuthority (host_closed h) (core_revoked c) (core_cancelled c) (core_expires c) (host_now h).
Definition core_check (h : Ht) (c : Cr) : Result unit := Session_check (core_authority h c).

(** ** The broker *)

Section New.
Context `{Http, Urls} (to_writer : list Value -> list (list byte)).

(** `aap-engine/src/lib.rs:209-217`, `Broker::new` (remote profiles) *)
Fixpoint check_remote_profiles (ps : list ResourceProfile) : Result unit :=
  match ps with
  | [] => Ok tt
  | p :: ps =>
      _ ← match auth p with McpAuth _ _ _ tools => validate_tools to_writer tools | _ => Ok tt end;
      check_remote_profiles ps
  end.

(** `aap-engine/src/lib.rs:198-240`, `Broker::new`; [epoch] is a fresh identifier, the
    semaphores are full *)
Definition Broker_new (cfg : Configuration) (epoch : option string) (now : Z) : Result Ht :=
  _ ← catalog_validate to_writer (catalog cfg) (profiles cfg) (stores cfg) (configuration_revision (catalog cfg));
  _ ← validate_tcp_profiles (tcp_profiles cfg) (profiles cfg);
  _ ← check_remote_profiles (profiles cfg);
  _ ← ok_or epoch (Error_new InternalError);
  Ok (mkHost cfg ∅ false 0 ∅ 0 now).
End New.

(** `aap-engine/src/lib.rs:245-276`, `Broker::create_session` (the options) *)
Definition enrolled (cfg : Configuration) (r : string) : bool :=
  bool_decide (r ∈ map profile_id (profiles cfg)) || bool_decide (r ∈ map tcp_id (tcp_profiles cfg)).
Definition item_granted (cfg : Configuration) (o : SessionOptions) (id : string) : bool :=
  existsb (fun i => bool_decide (item_id i = id) && bool_decide (item_profile i ∈ o_resources o))
    (items (catalog cfg)).
Definition valid_options (cfg : Configuration) (o : SessionOptions) : bool :=
  negb (o_lifetime o =? 0)
  && (o_lifetime o <=? 3600 * 1000000000)
  && (len (o_resources o) <=? 256)
  && all_distinct (o_resources o)
  && forallb (enrolled cfg) (o_resources o)
  && match o_items o with
     | Some ids => (len ids <=? 1000) && all_distinct ids && forallb (item_granted cfg o) ids
     | None => true
     end.

(** [sessions.retain(|_, session| session.strong_count() > 0)] *)
Definition retain_live (h : Ht) : gmap string nat :=
  filter (fun e => is_Some (host_cores h !! e.2)) (host_sessions h).

(** `aap-engine/src/lib.rs:305-322`, `Broker::create_session` (the session) *)
Definition Core_new (id : string) (o : SessionOptions) (now : Z) : Cr :=
  mkCore id o (now + o_lifetime o) false false (mkOperations ∅ ∅ ∅ 0) (mkVault ∅ ∅) 0 [].

(** `aap-engine/src/lib.rs:277-325`, `Broker::create_session` (under the registry's lock) *)
Definition publish_session (h : Ht) (o : SessionOptions) (random : option string) : Ht * Result nat :=
  if host_closed h then (h, fail SessionInvalid)
  else
    let sessions := retain_live h in
    let h := mkHost (host_configuration h) sessions (host_closed h) (host_bytes h) (host_cores h)
               (host_next h) (host_now h) in
    if 64 <=? Z.of_nat (size sessions) then (h, fail LimitExceeded)
    else match random with
         | None => (h, fail InternalError)
         | Some id =>
             let a := host_next h in
             (mkHost (host_configuration h) (<[id := a]> sessions) (host_closed h) (host_bytes h)
                (<[a := Core_new id o (host_now h)]> (host_cores h)) (S a) (host_now h), Ok a)
         end.

(** `aap-engine/src/lib.rs:241-325`, `Broker::create_session`; [early] is what the check
    before the lock read *)
Definition create_session (h : Ht) (early : bool) (o : SessionOptions) (random : option string) : Ht * Result nat :=
  if early then (h, fail SessionInvalid)
  else if negb (valid_options (host_configuration h) o) then (h, fail RequestInvalid)
  else publish_session h o random.

(** `aap-engine/src/lib.rs:338-345`, `Broker::close_admission` *)
Definition close_admission (h : Ht) : Ht :=
  mkHost (host_configuration h) (host_sessions h) true (host_bytes h) (host_cores h) (host_next h) (host_now h).

(** `aap-engine/src/lib.rs:361-373`, `Broker::close` (the sessions to revoke): upgraded
    under the lock that closes admission *)
Definition registered (h : Ht) : list nat :=
  omap (fun e => (fun _ => e.2) <$> host_cores h !! e.2) (map_to_list (host_sessions h)).

(** `aap-engine/src/lib.rs:185-196`, `SessionCore::drop` (after the token) *)
Definition drop_core (h : Ht) (a : nat) : Ht :=
  match host_cores h !! a with
  | Some c => with_host_bytes (with_cores h (delete a (host_cores h))) (host_bytes h - ops_bytes (core_operations c))
  | None => h
  end.

(** ** Retirement *)

(** A section of one session: nothing happens once its allocation is gone. *)
Definition on_core (h : Ht) (a : nat) (f : Cr -> Cr) : Ht :=
  match host_cores h !! a with Some c => with_core h a (f c) | None => h end.

(** `aap-engine/src/lib.rs:402-411`, `Broker::revoke` (under the registry's lock) *)
Definition retire (c : Cr) : Cr := with_flags c true (core_cancelled c).
(** `aap-engine/src/lib.rs:412-412`, `Broker::revoke` (the session's token) *)
Definition notify (c : Cr) : Cr := with_flags c (core_revoked c) true.
(** `aap-engine/src/lib.rs:413-422`, `Broker::revoke` (operations) *)
Definition cancel_items (c : Cr) : Cr :=
  with_operations c (with_items (core_operations c) (op_cancel <$> ops_items (core_operations c))).
(** `aap-engine/src/lib.rs:423-432`, `Broker::revoke` (issuances) *)
Definition cancel_issuances (c : Cr) : Cr :=
  with_operations c (with_issuances (core_operations c) (issuance_cancel <$> ops_issuances (core_operations c))).
(** `aap-engine/src/lib.rs:433-442`, `Broker::revoke` (contexts) *)
Definition revoke_contexts (c : Cr) : Cr :=
  with_contexts c ((fun b => invalidate b AuthRevoked) <$> v_contexts (core_vault c)).
(** `aap-engine/src/lib.rs:444-453`, `Broker::revoke` (streams) *)
Definition finish_streams (c : Cr) : Cr :=
  with_operations c (with_streams (core_operations c)
    ((fun s => tcp_finish s SessionEnded) <$> ops_streams (core_operations c))).

(** The sections of [Broker::revoke], in its order. *)
Definition revoke_sections : list (Cr -> Cr) :=
  [retire; notify; cancel_items; cancel_issuances; revoke_contexts; finish_streams].
(** `aap-engine/src/lib.rs:398-459`, `Broker::revoke`; [own] is whether the session is of
    this broker *)
Definition revoke (h : Ht) (own : bool) (a : nat) : Ht * Result unit :=
  if negb own then (h, fail PolicyDenied)
  else (foldl (fun h f => on_core h a f) h revoke_sections, Ok tt).

(** `aap-engine/src/lib.rs:360-391`, `Broker::close` *)
Definition close (h : Ht) : Ht :=
  let l := registered h in
  let h := close_admission h in
  let h := foldl (fun h a => on_core h a notify) h l in
  foldl (fun h a => (revoke h true a).1) h l.

(** ** Tracking *)

(** [operation_bytes.fetch_update(..)]: the new total, if it is within the bound *)
Definition reserve_bytes (h : Ht) (n : Z) : option Z :=
  match checked_add (host_bytes h) n with
  | Some next => if next <=? broker_bytes then Some next else None
  | None => None
  end.
(** [operations.len() >= 4096 || operations.bytes + bytes > 8 * 1024 * 1024] *)
Definition full (o : Ops) (n : Z) : bool := (4096 <=? ops_len o) || (session_bytes <? ops_bytes o + n).

Definition large_request (r : ExecuteRequest) : bool :=
  (1398104 <? slen (body_base64 r))
  || (64 <? len (headers r))
  || (16384 <? slen (target r))
  || (64 <? slen (resource r))
  || (16 <? slen (method r))
  || match auth_context r with Some c => 64 <? slen c | None => false end
  || (65536 <? foldr (fun h n => slen h.1 + slen h.2 + n) 0 (headers r)).

Section Track.
(** [serde_json::to_vec(&request)]: the length of the text *)
Context (request_size : ExecuteRequest -> option N).

(** `aap-engine/src/pipeline.rs:137-201`, `Session::track_operation`; the value is
    whether the operation existed *)
Definition track_operation (h : Ht) (a : nat) (c : Cr) (r : ExecuteRequest) : Ht * Result bool :=
  let o := core_operations c in
  let id := request_id r in
  if bool_decide (is_Some (ops_issuances o !! id)) || bool_decide (is_Some (ops_streams o !! id))
  then (h, fail RequestConflict)
  else match ops_items o !! id with
  | Some existing => (h, if bool_decide (op_request existing = r) then Ok true else fail RequestConflict)
  | None =>
      if large_request r then (h, fail LimitExceeded)
      else match request_size r with
      | None => (h, fail RequestInvalid)
      | Some size =>
          let n := Z.of_N size + 512 in
          if full o n then (h, fail LimitExceeded)
          else match reserve_bytes h n with
          | None => (h, fail LimitExceeded)
          | Some total =>
              let item := mkOperation r (mkStatus id Received None) false in
              let o := with_items (with_bytes o (ops_bytes o + n)) (<[id := item]> (ops_items o)) in
              (with_core (with_host_bytes h total) a (with_operations c o), Ok false)
          end
      end
  end.

(** `aap-engine/src/pipeline.rs:19-35`, `Session::execute_inner` (up to the guard);
    [early] is what the first check read, [flow] what [Flow::new] returned *)
Definition begin_execute (h : Ht) (a : nat) (c : Cr) (early : Result unit) (flow : Result F) (r : ExecuteRequest)
    : Ht * Result bool :=
  match early with
  | Err e => (h, Err e)
  | Ok _ =>
      if negb (valid_id (request_id r) 16) then (h, fail RequestInvalid)
      else match flow with
           | Err e => (h, Err e)
           | Ok _ => track_operation h a c r
           end
  end.
End Track.

(** Permits of a semaphore that are held: the attachments of a session's streams. *)
Definition attached (c : Cr) : Z := map_sum (fun s => if cn_attachments s then 1 else 0) (ops_streams (core_operations c)).
Definition all_attached (h : Ht) : Z := map_sum attached (host_cores h).

Definition granted_profile (h : Ht) (c : Cr) (id : string) : option TcpProfile :=
  find_first (fun p => bool_decide (tcp_id p = id) && bool_decide (tcp_id p ∈ o_resources (core_options c)))
    (tcp_profiles (host_configuration h)).

(** `aap-engine/src/tcp.rs:62-166`, `Session::admit_tcp`; [early] is what the first check
    read, [flow] what [Flow::new] returned, and the value is the status of an operation
    that existed *)
Definition admit_tcp (h : Ht) (a : nat) (c : Cr) (early : Result unit) (flow : Result F) (r : Open)
    : Ht * Result (option OperationStatus) :=
  let o := core_operations c in
  let id := open_request_id r in
  match (_ ← early; Open_validate r) with
  | Err e => (h, Err e)
  | Ok _ =>
      if bool_decide (is_Some (ops_items o !! id)) || bool_decide (is_Some (ops_issuances o !! id))
      then (h, fail RequestConflict)
      else match ops_streams o !! id with
      | Some s => (h, if bool_decide (cn_request s = r) then Ok (Some (cn_status s)) else fail RequestConflict)
      | None =>
          match granted_profile h c (open_resource r) with
          | None => (h, fail PolicyDenied)
          | Some p =>
              let n := 4096 + slen id + slen (tcp_id p) + slen (endpoint p) in
              if full o n then (h, fail LimitExceeded)
              else if (16 <=? attached c) || (128 <=? all_attached h) then (h, fail LimitExceeded)
              else match (f ← flow; _ ← core_check h c; Ok f) with
              | Err e => (h, Err e)
              | Ok f =>
                  match reserve_bytes h n with
                  | None => (h, fail LimitExceeded)
                  | Some total =>
                      let required := o_require_observation (core_options c) || tcp_require_observation p in
                      let s := Conn_new r p required f in
                      let o := with_streams (with_bytes o (ops_bytes o + n)) (<[id := s]> (ops_streams o)) in
                      (with_core (with_host_bytes h total) a (with_operations c o), Ok None)
                  end
              end
          end
      end
  end.

(** `aap-engine/src/vault.rs:216-271`, `Session::get_login_inner` (tracking); [early] is
    what the first check read, and the value is whether the issuance is fresh *)
Definition begin_issue (h : Ht) (a : nat) (c : Cr) (early : Result unit) (r : GetLogin) : Ht * Result bool :=
  let o := core_operations c in
  let id := get_login_request_id r in
  match early with
  | Err e => (h, Err e)
  | Ok _ =>
      if negb (valid_id id 16) || (64 <? slen (get_login_item_id r)) || (16384 <? slen (get_login_uri r))
      then (h, fail RequestInvalid)
      else if bool_decide (is_Some (ops_items o !! id)) || bool_decide (is_Some (ops_streams o !! id))
      then (h, fail RequestConflict)
      else match ops_issuances o !! id with
      | Some i => (h, if bool_decide (i_request i = r) then Ok false else fail RequestConflict)
      | None =>
          let n := slen (get_login_uri r) + slen (get_login_item_id r) + 2048 in
          if full o n then (h, fail LimitExceeded)
          else match reserve_bytes h n with
          | None => (h, fail LimitExceeded)
          | Some total =>
              let i := mkIssuance r (mkStatus id Received None) None false in
              let o := with_issuances (with_bytes o (ops_bytes o + n)) (<[id := i]> (ops_issuances o)) in
              (with_core (with_host_bytes h total) a (with_operations c o), Ok true)
          end
      end
  end.

(** ** Issuance *)

(** `aap-engine/src/vault.rs:294-315`, `Session::get_login_inner` (the checks of the
    publication): the binding that is published *)
Definition publish_binding (h : Ht) (c : Cr) (i : Issuance) (b : Binding) : Result Binding :=
  _ ← core_check h c;
  let (b, r) := Binding_check b (host_now h) in
  _ ← r;
  if 16 <=? Z.of_nat (size (v_contexts (core_vault c))) then fail LimitExceeded
  else
    _ ← core_check h c;
    if i_cancelled i then fail RequestConflict
    else if b_cancelled b || (b_expires b <=? host_now h) then fail PlaceholderInvalid
    else Ok b.

(** `aap-engine/src/vault.rs:321-328`, `Session::get_login_inner` (a refused preparation) *)
Definition refused_state (c : ErrorCode) : OperationState :=
  match c with SessionInvalid => Cancelled | PolicyDenied => Denied | _ => Failed end.

Definition issuance_end (i : Issuance) (s : OperationState) (r : Result string) : Issuance :=
  mkIssuance (i_request i) (mkStatus (status_request_id (i_status i)) s (status (i_status i))) (Some r) (i_cancelled i).
Definition set_issuance (c : Cr) (id : string) (i : Issuance) : Cr :=
  let o := core_operations c in with_operations c (with_issuances o (<[id := i]> (ops_issuances o))).

(** `aap-engine/src/vault.rs:287-330`, `Session::get_login_inner` (the publication of a
    prepared binding, under the issuance's lock) *)
Definition publish (h : Ht) (a : nat) (c : Cr) (id : string) (prepared : Result Binding) : Ht * Result string :=
  match ops_issuances (core_operations c) !! id with
  | None => (h, fail InternalError)
  | Some i =>
      if terminal (state (i_status i)) then (h, fail RequestConflict)
      else match b ← prepared; publish_binding h c i b with
      | Ok b =>
          let c := with_contexts c (<[b_id b := b]> (v_contexts (core_vault c))) in
          (with_core h a (set_issuance c id (issuance_end i Completed (Ok (b_id b)))), Ok (b_id b))
      | Err e => (with_core h a (set_issuance c id (issuance_end i (refused_state (code e)) (Err e))), Err e)
      end
  end.

(** `aap-engine/src/vault.rs:105-111`, `IssueGuard::drop` (of an unfinished issuance) *)
Definition abandon (c : Cr) (id : string) : Cr :=
  match ops_issuances (core_operations c) !! id with
  | Some i => set_issuance c id (issue_guard_drop false i)
  | None => c
  end.

(** ** Status and cancellation *)

(** `aap-engine/src/lib.rs:573-583`, `Session::request_status` *)
Definition request_status (h : Ht) (c : Cr) (id : string) : Result OperationStatus :=
  _ ← core_check h c;
  let o := core_operations c in
  match ops_streams o !! id, ops_issuances o !! id, ops_items o !! id with
  | Some s, _, _ => Ok (cn_status s)
  | None, Some i, _ => Ok (i_status i)
  | None, None, Some x => Ok (op_status x)
  | None, None, None => fail ResultUnavailable
  end.

(** `aap-engine/src/lib.rs:584-598`, `Session::cancel` *)
Definition cancel (h : Ht) (a : nat) (c : Cr) (id : string) : Ht * Result OperationStatus :=
  match core_check h c with
  | Err e => (h, Err e)
  | Ok _ =>
      let o := core_operations c in
      match ops_streams o !! id, ops_issuances o !! id, ops_items o !! id with
      | Some s, _, _ =>
          let s := tcp_finish s CauseCancelled in
          (with_core h a (with_operations c (with_streams o (<[id := s]> (ops_streams o)))), Ok (cn_status s))
      | None, Some i, _ =>
          let i := issuance_cancel i in
          (with_core h a (set_issuance c id i), Ok (i_status i))
      | None, None, Some x =>
          let x := op_cancel x in
          (with_core h a (with_operations c (with_items o (<[id := x]> (ops_items o)))), Ok (op_status x))
      | None, None, None => (h, fail ResultUnavailable)
      end
  end.

(** ** Approval reservations *)

(** `aap-engine/src/approval.rs:18-37`, `Session::reserve_approval` *)
Definition reserve_approval (c : Cr) (n : Z) : Cr * Result unit :=
  if 16 <=? len (core_reservations c) then (c, fail LimitExceeded)
  else match checked_add (core_pending_bytes c) n with
       | Some next =>
           if next <=? approval_bytes then (with_pending c next (n :: core_reservations c), Ok tt)
           else (c, fail LimitExceeded)
       | None => (c, fail LimitExceeded)
       end.
(** `aap-engine/src/approval.rs:10-16`, `ApprovalReservation::drop` *)
Definition release_approval (c : Cr) (i : nat) : Cr :=
  match core_reservations c !! i with
  | Some n => with_pending c (core_pending_bytes c - n) (delete i (core_reservations c))
  | None => c
  end.
End Sessions.
