(* ===== verification/Vault.v ===== *)
(** * The vault of a session ([aap-engine/src/vault.rs])

    Discovery of the items a session was granted, page by page; the preparation of an
    authentication context from an item's metadata, never its secrets; its
    revalidation with the store, and what it tells the agent. Stores answer through
    [IssueEnv] and [Woken]. *)
From S2P Require Import Prelude Protocol Ids Json Tools Address Catalog Profile Observe.
From S2P Require Import Secrets Redaction Cookies Flow Operation Endpoint TcpPolicy.
From S2P Require Import Stream Relay TcpState Config Session.

(** ** Responses *)

(** `aap-types/src/protocol.rs:109-118`, `CredentialKind` and `CredentialValue` *)
Inductive CredentialKind := Placeholder | PlainValue.
Record CredentialValue := mkCredential { cv_value : string; cv_kind : CredentialKind }.
(** `aap-types/src/protocol.rs:104-107`, `Credentials` *)
Record Credentials := mkCredentials { cr_username : CredentialValue; cr_password : CredentialValue }.
(** `aap-types/src/protocol.rs:120-125`, `Submission` *)
Record Submission := mkSubmission { sub_uri : string; sub_method : string; sub_content_type : string; sub_fields : CredentialFields }.
(** `aap-types/src/protocol.rs:95-102`, `Login` *)
Record Login := mkLogin {
  login_item : string; login_context : string; login_credentials : Credentials; login_submission : Submission;
  login_expires_in : Z; login_reusable : bool }.
(** `aap-types/src/protocol.rs:142-146`, `AuthStatus` *)
Record AuthStatus := mkAuthStatus { as_item : string; as_alias : string; as_state : AuthState }.

(** [str::contains] of a string. *)
Fixpoint bytes_contain (l p : list byte) : bool :=
  starts_with l p || match l with [] => false | _ :: l => bytes_contain l p end.
Definition str_contains (s p : string) : bool := bytes_contain (as_bytes s) (as_bytes p).

Section Vault.
Context `{Base64} `{Urls} {F : Type} `{Observer F}.
Abbreviation Ht := (Host F).
Abbreviation Cr := (Core F).

(** ** Discovery *)

(** `aap-engine/src/vault.rs:163-178`, `Session::search_inner` (one item) *)
Definition item_shown (cfg : Configuration) (o : SessionOptions) (q : option string) (t : Target) (i : Item) : bool :=
  item_allowed o i
  && match q with Some q => str_contains (label i) q || str_contains (account_alias i) q | None => true end
  && existsb (fun p => bool_decide (profile_id p = item_profile i)
                       && bool_decide (profile_origin p = origin t)
                       && existsb (fun r => bool_decide (route_path r = path t) && bool_decide (route_query r = query t))
                            (routes p)) (profiles cfg).
Definition matching (cfg : Configuration) (o : SessionOptions) (q : option string) (t : Target) : list Item :=
  List.filter (item_shown cfg o q t) (items (catalog cfg)).

(** [configuration.profiles.iter().find(|profile| profile.id == id)] *)
Definition find_profile (cfg : Configuration) (id : string) : option ResourceProfile :=
  find_first (fun p => bool_decide (profile_id p = id)) (profiles cfg).

(** `aap-engine/src/vault.rs:183-186`, `Session::search_inner` (one summary); [None] is
    the panic of [expect] *)
Definition summary (cfg : Configuration) (i : Item) : option ItemSummary :=
  p ← find_profile cfg (item_profile i);
  Some {| summary_item_id := item_id i; summary_label := label i; summary_account_alias := account_alias i;
          summary_origins := [profile_origin p];
          login_supported := match auth p with FormAuth l => negb (username_visible l) | _ => false end |}.

(** `aap-engine/src/vault.rs:152-161`, `Session::search_inner` (the offset) *)
Definition search_offset (v : Vault) (r : SearchItems) : Result Z :=
  match search_cursor r with
  | None => Ok 0
  | Some id =>
      match v_cursors v !! id with
      | None => fail PolicyDenied
      | Some c =>
          if bool_decide (cur_uri c = search_uri r) && bool_decide (cur_query c = search_query r)
          then Ok (cur_offset c) else fail PolicyDenied
      end
  end.

(** `aap-engine/src/vault.rs:187-211`, `Session::search_inner` (the next cursor) *)
Definition next_page (v : Vault) (c : SearchCursor) (random : option string) : gmap string SearchCursor * Result string :=
  match find_first (fun e => bool_decide (e.2 = c)) (map_to_list (v_cursors v)) with
  | Some (id, _) => (v_cursors v, Ok id)
  | None =>
      if 64 <=? Z.of_nat (size (v_cursors v)) then (v_cursors v, fail LimitExceeded)
      else match random with
           | None => (v_cursors v, fail InternalError)
           | Some id => (<[id := c]> (v_cursors v), Ok id)
           end
  end.

Definition page_size : Z := 50.

(** `aap-engine/src/vault.rs:136-146`, `Session::search_inner` (the request) *)
Definition search_invalid (r : SearchItems) : bool :=
  match search_query r with Some q => 256 <? slen q | None => false end
  || match search_cursor r with Some i => negb (valid_id i 32) | None => false end.

(** `aap-engine/src/vault.rs:134-215`, `Session::search_inner`; [early] is what the
    first check read *)
Definition search_inner (h : Ht) (a : nat) (c : Cr) (early : Result unit) (r : SearchItems) (random : option string)
    : Ht * Result SearchResult :=
  let cfg := host_configuration h in
  match (_ ← early;
         t ← if search_invalid r then fail RequestInvalid else Target_parse (search_uri r);
         offset ← search_offset (core_vault c) r;
         Ok (t, offset)) with
  | Err e => (h, Err e)
  | Ok (t, offset) =>
      let all := matching cfg (core_options c) (search_query r) t in
      let page := omap (summary cfg) (take (Z.to_nat page_size) (drop (Z.to_nat offset) all)) in
      let next := offset + len page in
      if next <? len all then
        match next_page (core_vault c) (mkCursor (search_uri r) (search_query r) next) random with
        | (_, Err e) => (h, Err e)
        | (m, Ok id) => (with_core h a (with_cursors c m),
                         _ ← core_check h c; Ok {| result_items := page; next_cursor := Some id |})
        end
      else (h, _ ← core_check h c; Ok {| result_items := page; next_cursor := None |})
  end.

(** ** Preparation of a context *)

(** What the outside answers a preparation: the permits, the evidence of the request,
    the store's metadata and revalidation, two readings of the clock, the session at the
    end and fresh identifiers. *)
Record IssueEnv := mkIssueEnv {
  ie_active : bool; ie_context : bool; ie_evidence : Result unit;
  ie_metadata : string -> string -> result StoreError ItemMetadata;
  ie_now : Z; ie_later : Z;
  ie_revalidate : string -> string -> Lease -> result StoreError unit;
  ie_check : Result unit;
  ie_id : option string; ie_username : option string; ie_password : option string }.

Definition stored {A} (r : result StoreError A) : Result A :=
  match r with Ok x => Ok x | Err e => Err (store_error e) end.
Definition permit (b : bool) : Result unit := if b then Ok tt else fail LimitExceeded.

(** `aap-engine/src/vault.rs:351-357`, `Session::prepare_binding` (the item) *)
Definition granted_item (cfg : Configuration) (o : SessionOptions) (id : string) : option Item :=
  find_first (fun i => bool_decide (item_id i = id) && item_allowed o i) (items (catalog cfg)).

(** `aap-engine/src/vault.rs:345-373`, `Session::prepare_binding` (the item, its login and
    the target) *)
Definition admit_login (cfg : Configuration) (o : SessionOptions) (r : GetLogin) : Result (Item * LoginProfile * Target) :=
  i ← ok_or (granted_item cfg o (get_login_item_id r)) (Error_new PolicyDenied);
  p ← ok_or (find_profile cfg (item_profile i)) (Error_new PolicyDenied);
  match auth p with
  | FormAuth l =>
      if username_visible l then fail AuthProfileUnsupported
      else
        t ← Target_parse (get_login_uri r);
        page ← Target_parse (login_page l);
        if bool_decide (target_as_str t = target_as_str page) then Ok (i, l, t) else fail PolicyDenied
  | _ => fail AuthProfileUnsupported
  end.

(** `aap-engine/src/vault.rs:345-441`, `Session::prepare_binding` *)
Definition prepare_binding (cfg : Configuration) (o : SessionOptions) (expires : Z) (env : IssueEnv) (r : GetLogin)
    : Result Binding :=
  _ ← permit (ie_active env);
  '(i, l, t) ← admit_login cfg o r;
  _ ← permit (ie_context env);
  _ ← ie_evidence env;
  _ ← if bool_decide (store (credential i) ∈ stores cfg) then Ok tt else fail VaultUnavailable;
  reference ← stored (ItemRef_new (key (credential i)));
  m ← stored (ie_metadata env (store (credential i)) reference);
  if negb (bool_decide (Username ∈ metadata_fields m)) || negb (bool_decide (Password ∈ metadata_fields m))
  then fail AuthProfileUnsupported
  else
    let until := Z.min expires (ie_now env + 600 * 1000000000) in
    let until := match valid_until m with Some d => Z.min until d | None => until end in
    if until <=? ie_later env then fail VaultUnavailable
    else
      _ ← stored (ie_revalidate env (store (credential i)) reference (lease m));
      _ ← ie_check env;
      id ← ok_or (ie_id env) (Error_new InternalError);
      values ← Placeholders_new (ie_username env) (ie_password env);
      Ok (mkBinding id i (lease m) until false
            (mkBindingState Unauthenticated (Some values) (CookieJar_new t) None empty_redactor)).

(** ** A published context *)

Definition set_context (c : Cr) (id : string) (b : Binding) : Cr :=
  with_contexts c (<[id := b]> (v_contexts (core_vault c))).

(** `aap-engine/src/vault.rs:442-455`, `Session::binding` *)
Definition find_binding (h : Ht) (c : Cr) (id : string) : Result Binding :=
  _ ← core_check h c;
  if negb (valid_id id 32) then fail PolicyDenied
  else ok_or (v_contexts (core_vault c) !! id) (Error_new PolicyDenied).

(** [binding.check()] on a published context. *)
Definition check_context (h : Ht) (c : Cr) (id : string) : Cr * Result unit :=
  match v_contexts (core_vault c) !! id with
  | Some b => let (b, r) := Binding_check b (host_now h) in (set_context c id b, r)
  | None => (c, fail PolicyDenied)
  end.

(** `aap-engine/src/vault.rs:456-466`, `Session::revalidate_binding` (before the store is
    asked): the store and the reference *)
Definition revalidate_begin (h : Ht) (c : Cr) (id : string) : Cr * Result (string * string) :=
  match core_check h c with
  | Err e => (c, Err e)
  | Ok _ =>
      match check_context h c id with
      | (c, Err e) => (c, Err e)
      | (c, Ok _) =>
          (c, b ← ok_or (v_contexts (core_vault c) !! id) (Error_new PolicyDenied);
              _ ← if bool_decide (store (credential (b_item b)) ∈ stores (host_configuration h))
                  then Ok tt else fail VaultUnavailable;
              reference ← stored (ItemRef_new (key (credential (b_item b))));
              Ok (store (credential (b_item b)), reference))
      end
  end.

(** `aap-engine/src/vault.rs:467-472`, `Session::revalidate_binding` (which branch of the
    [select] was ready first) *)
Inductive Woken := SessionGone | ContextGone | TimedOut | Answered (r : result StoreError unit).
Definition woken (w : Woken) : Result unit :=
  match w with
  | SessionGone => fail SessionInvalid
  | ContextGone => fail PlaceholderInvalid
  | TimedOut => fail VaultUnavailable
  | Answered (Ok _) => Ok tt
  | Answered (Err e) => fail (code (store_error e))
  end.

(** `aap-engine/src/vault.rs:473-481`, `Session::revalidate_binding` (the answers that
    take the item back) *)
Definition custody_lost (r : Result unit) : bool :=
  match r with
  | Err e => match code e with VaultLocked | VaultUnavailable | PolicyDenied | InteractionUnavailable => true | _ => false end
  | Ok _ => false
  end.

(** `aap-engine/src/vault.rs:488-502`, `Session::invalidate_item` *)
Definition invalidate_item (c : Cr) (item : string) : Cr :=
  with_contexts c ((fun b => if bool_decide (item_id (b_item b) = item) then invalidate b AuthRevoked else b)
                     <$> v_contexts (core_vault c)).

(** `aap-engine/src/vault.rs:473-487`, `Session::revalidate_binding` (after the answer) *)
Definition revalidate_end (h : Ht) (c : Cr) (id : string) (w : Woken) : Cr * Result unit :=
  let r := woken w in
  let c :=
    match v_contexts (core_vault c) !! id with
    | Some b => if custody_lost r then invalidate_item c (item_id (b_item b)) else c
    | None => c
    end in
  match (_ ← r; core_check h c) with
  | Err e => (c, Err e)
  | Ok _ => check_context h c id
  end.

(** `aap-engine/src/vault.rs:503-549`, `Session::login_result` *)
Definition login_result (h : Ht) (c : Cr) (id : string) : Cr * Result Login :=
  match core_check h c with
  | Err e => (c, Err e)
  | Ok _ =>
      match check_context h c id with
      | (c, Err e) => (c, Err e)
      | (c, Ok _) =>
          (c, b ← ok_or (v_contexts (core_vault c) !! id) (Error_new PolicyDenied);
              p ← ok_or (find_profile (host_configuration h) (item_profile (b_item b))) (Error_new PolicyDenied);
              match auth p with
              | FormAuth l =>
                  vs ← ok_or (values (b_state b)) (Error_new PlaceholderInvalid);
                  Ok (mkLogin (item_id (b_item b)) (b_id b)
                        (mkCredentials (mkCredential (ph_username vs) Placeholder) (mkCredential (ph_password vs) Placeholder))
                        (mkSubmission (login_target l) "POST"
                           (match encoding l with Form_ => "application/x-www-form-urlencoded"
                            | Json_ => "application/json" end) (fields l))
                        (Z.max 1 (saturating_sub (b_expires b) (host_now h) / 1000000000)) true)
              | _ => fail AuthProfileUnsupported
              end)
      end
  end.

(** `aap-engine/src/vault.rs:555-562`, `Session::auth_status_inner` (the answer) *)
Definition auth_status (h : Ht) (c : Cr) (id : string) : Result AuthStatus :=
  _ ← core_check h c;
  b ← ok_or (v_contexts (core_vault c) !! id) (Error_new PolicyDenied);
  Ok (mkAuthStatus (item_id (b_item b)) (account_alias (b_item b)) (b_status (b_state b))).

(** `aap-engine/src/vault.rs:563-570`, `Session::logout_inner`: the state it leaves *)
Definition logout_inner (h : Ht) (c : Cr) (id : string) : Cr * Result AuthState :=
  match find_binding h c id with
  | Err e => (c, Err e)
  | Ok b => (set_context c id (invalidate b AuthRevoked), Ok AuthRevoked)
  end.

(** ** Facts *)

(** What a publication that succeeds has checked. *)
Lemma publish_binding_Ok (h : Ht) (c : Cr) i b b' : publish_binding h c i b = Ok b' ->
  core_check h c = Ok tt /\ b' = b /\ b_cancelled b = false /\ host_now h < b_expires b
  /\ i_cancelled i = false /\ Z.of_nat (size (v_contexts (core_vault c))) < 16.
Proof.
  unfold publish_binding. intros Hp. apply bind_Ok in Hp as ([] & Hc & Hp).
  destruct (Binding_check b (host_now h)) as [b1 r] eqn:Hb. apply bind_Ok in Hp as ([] & -> & Hp).
  destruct (16 <=? _) eqn:Hl; [done|]. apply bind_Ok in Hp as ([] & _ & Hp).
  destruct (i_cancelled i) eqn:Hi; [done|]. destruct (_ || _) eqn:Hx; [done|]. simplify_eq. bool_hyps.
  unfold Binding_check in Hb. destruct (_ && _) eqn:E; simplify_eq/=.
  split_and!; try done; lia.
Qed.
End Vault.
