(* ===== verification/VaultFacts.v ===== *)
(** * What the vault guarantees

    Discovery shows every granted item of a target once, in bounded pages; a login is
    issued from what the store says of the item, under live authority, or not at all. *)
From S2P Require Import Prelude Protocol Ids Json Tools Address Catalog Profile Observe.
From S2P Require Import Secrets Redaction Cookies Flow Operation Endpoint TcpPolicy.
From S2P Require Import Stream Relay TcpState Config Session Vault.

Section Discovery.
Context `{Base64} `{Urls} {F : Type} `{Observer F}.
Abbreviation Ht := (Host F).
Abbreviation Cr := (Core F).

(** An item that is shown has a profile: its summary never panics. *)
Lemma shown_summary cfg o q t i : item_shown cfg o q t i = true -> is_Some (summary cfg i).
Proof.
  unfold item_shown. intros [_ Hx]%andb_true_iff. apply existsb_exists in Hx as (p & Hp & Hb). bool_hyps.
  unfold summary, find_profile, find_first.
  destruct (List.find _ (profiles cfg)) as [p'|] eqn:Hf; [by eexists|].
  exfalso. apply (find_none _ _ Hf p) in Hp. cbn in Hp. by apply bool_decide_eq_false in Hp.
Qed.
Lemma shown_summaries cfg o q t l : Forall (fun i => item_shown cfg o q t i = true) l ->
  length (omap (summary cfg) l) = length l.
Proof.
  induction 1 as [|i l Hi Hl IH]; [done|]. cbn. destruct (shown_summary _ _ _ _ _ Hi) as [s ->]. cbn. by rewrite IH.
Qed.
Lemma matching_shown cfg o q t : Forall (fun i => item_shown cfg o q t i = true) (matching cfg o q t).
Proof. apply Forall_forall. intros i Hi. unfold matching in Hi. apply list_elem_of_In, filter_In in Hi. apply Hi. Qed.

(** Following the cursors from the first page; the second result is what was left of
    the fuel. *)
Fixpoint walk (fuel : nat) (h : Ht) (a : nat) (c : Cr) (uri : string) (q cursor : option string) (randoms : list string)
    : option (Result (list ItemSummary)) :=
  match fuel with
  | O => None
  | S fuel =>
      let r := {| search_uri := uri; search_query := q; search_cursor := cursor |} in
      match search_inner h a c (core_check h c) r (head randoms) with
      | (_, Err e) => Some (Err e)
      | (h, Ok page) =>
          match next_cursor page, host_cores h !! a with
          | Some k, Some c =>
              match walk fuel h a c uri q (Some k) (tail randoms) with
              | Some (Ok rest) => Some (Ok (result_items page ++ rest))
              | r => r
              end
          | _, _ => Some (Ok (result_items page))
          end
      end
  end.

(** Fresh cursor identifiers, and room for them. *)
Record walkable (c : Cr) (randoms : list string) : Prop := {
  wk_keys k : is_Some (v_cursors (core_vault c) !! k) -> valid_id k 32 = true;
  wk_valid : Forall (fun k => valid_id k 32 = true) randoms;
  wk_distinct : NoDup randoms;
  wk_fresh : Forall (fun k => v_cursors (core_vault c) !! k = None) randoms;
  wk_room : (size (v_cursors (core_vault c)) + length randoms <= 64)%nat }.

(** The cursor a page leaves: its key is valid and leads to the next offset. *)
Lemma next_page_ok (c : Cr) x k randoms m r : walkable c (k :: randoms) -> next_page (core_vault c) x (Some k) = (m, r) ->
  exists id, r = Ok id /\ m !! id = Some x /\ valid_id id 32 = true /\ walkable (with_cursors c m) randoms.
Proof.
  intros [W1 W2 W3 W4 W5]. apply Forall_cons in W2 as [V1 V2]. apply NoDup_cons in W3 as [D1 D2].
  apply Forall_cons in W4 as [N1 N2]. cbn [length] in W5. unfold next_page.
  destruct (find_first _ _) as [[id y]|] eqn:Hf.
  - apply find_first_Some in Hf as [Hin%elem_of_map_to_list Hx]. cbn in Hx. bool_hyps. subst y.
    intros [= <- <-]. exists id. split_and!; [done|done|apply W1; by eexists|]. constructor; cbn; try done. lia.
  - destruct (64 <=? _) eqn:Hl; [bool_hyps; lia|]. intros [= <- <-]. exists k.
    split_and!; [done|apply lookup_insert_eq|done|]. constructor; cbn; try done.
    + intros j [y Hy]. destruct (decide (k = j)) as [<-|Hn]; [done|]. rewrite lookup_insert_ne in Hy by done.
      apply W1. by exists y.
    + rewrite Forall_forall in N2 |- *. intros j Hj. rewrite lookup_insert_ne; [by apply N2|]. by intros <-.
    + rewrite map_size_insert, N1. lia.
Qed.

Definition cursor_at (c : Cr) (uri : string) (q cursor : option string) (offset : nat) : Prop :=
  match cursor with
  | None => offset = 0%nat
  | Some k => valid_id k 32 = true /\ v_cursors (core_vault c) !! k = Some (mkCursor uri q (Z.of_nat offset))
  end.

Lemma walk_S fuel h a c uri q cursor randoms : walk (S fuel) h a c uri q cursor randoms =
  match search_inner h a c (core_check h c) {| search_uri := uri; search_query := q; search_cursor := cursor |} (head randoms) with
  | (_, Err e) => Some (Err e)
  | (h, Ok page) =>
      match next_cursor page, host_cores h !! a with
      | Some k, Some c =>
          match walk fuel h a c uri q (Some k) (tail randoms) with
          | Some (Ok rest) => Some (Ok (result_items page ++ rest))
          | r => r
          end
      | _, _ => Some (Ok (result_items page))
      end
  end.
Proof. reflexivity. Qed.

(** One page. *)
Lemma search_at (h : Ht) a (c : Cr) uri q t cursor offset random :
  let all := matching (host_configuration h) (core_options c) q t in
  let page := omap (summary (host_configuration h)) (take 50 (drop offset all)) in
  core_check h c = Ok tt -> Target_parse uri = Ok t -> match q with Some q => slen q <= 256 | None => True end ->
  cursor_at c uri q cursor offset -> (offset <= length all)%nat ->
  search_inner h a c (core_check h c) {| search_uri := uri; search_query := q; search_cursor := cursor |} random
  = if bool_decide (offset + 50 < length all)%nat then
      match next_page (core_vault c) (mkCursor uri q (Z.of_nat (offset + 50))) random with
      | (_, Err e) => (h, Err e)
      | (m, Ok id) => (with_core h a (with_cursors c m), Ok {| result_items := page; next_cursor := Some id |})
      end
    else (h, Ok {| result_items := page; next_cursor := None |}).
Proof.
  cbn zeta. intros Hc Ht Hq Hcur Hle. unfold search_inner. rewrite Hc. cbn [mbind result_bind].
  assert (search_invalid {| search_uri := uri; search_query := q; search_cursor := cursor |} = false) as ->.
  { unfold search_invalid. cbn. apply orb_false_iff. split; [destruct q; [by apply Z.ltb_ge|done]|].
    destruct cursor as [j|]; [destruct Hcur as [-> _]; done|done]. }
  cbn [mbind result_bind search_uri search_query search_cursor]. rewrite Ht. cbn [mbind result_bind].
  assert (search_offset (core_vault c) {| search_uri := uri; search_query := q; search_cursor := cursor |}
    = Ok (Z.of_nat offset)) as ->.
  { unfold search_offset. cbn. destruct cursor as [j|]; [|by rewrite Hcur].
    destruct Hcur as [_ ->]. cbn. by rewrite !bool_decide_eq_true_2. }
  cbn [mbind result_bind]. rewrite Nat2Z.id. change (Z.to_nat page_size) with 50%nat.
  set (all := matching _ _ _ _) in *. set (page := omap _ _).
  assert (Hpage : len page = Z.of_nat (Nat.min 50 (length all - offset))).
  { unfold len, page. rewrite (shown_summaries _ (core_options c) q t); [by rewrite length_take, length_drop|].
    apply Forall_take, Forall_drop, matching_shown. }
  rewrite Hpage. unfold len. case_bool_decide as Hlt.
  - rewrite (proj2 (Z.ltb_lt _ _)) by lia.
    replace (Z.of_nat offset + Z.of_nat (Nat.min 50 (length all - offset))) with (Z.of_nat (offset + 50)) by lia. done.
  - by rewrite (proj2 (Z.ltb_ge _ _)) by lia.
Qed.

Lemma walk_complete randoms (h : Ht) a (c : Cr) uri q t cursor offset :
  let all := matching (host_configuration h) (core_options c) q t in
  host_cores h !! a = Some c -> core_check h c = Ok tt -> Target_parse uri = Ok t ->
  match q with Some q => slen q <= 256 | None => True end ->
  walkable c randoms -> cursor_at c uri q cursor offset -> (offset <= length all)%nat ->
  (length all <= offset + 50 * S (length randoms))%nat ->
  walk (S (length randoms)) h a c uri q cursor randoms
  = Some (Ok (omap (summary (host_configuration h)) (drop offset all))).
Proof.
  cbn zeta. revert h c cursor offset. induction randoms as [|k randoms IH];
    intros h c cursor offset Ha Hc Ht Hq Hw Hcur Hle Hlen; rewrite walk_S; cbn [length head tail];
    rewrite (search_at h a c uri q t cursor offset) by done; case_bool_decide as Hlt; cbn [length] in Hlen;
    try (cbn [next_cursor result_items]; rewrite take_ge; [done|rewrite length_drop; lia]); [lia|].
  destruct (next_page _ _ _) as [m r] eqn:Hn. eapply next_page_ok in Hn as (id & -> & Hm & Hid & Hw'); [|exact Hw].
  cbn [next_cursor result_items]. unfold with_core at 1. cbn [host_cores with_cores]. rewrite lookup_insert_eq.
  rewrite (IH (with_core h a (with_cursors c m)) (with_cursors c m) (Some id) (offset + 50)%nat);
    [|apply lookup_insert_eq|done|done|done|done|by split|cbn; lia|cbn; lia].
  cbn [with_core with_cores host_configuration with_cursors with_vault core_options].
  rewrite <-omap_app. do 3 f_equal. rewrite <-drop_drop. apply take_drop.
Qed.
End Discovery.

(** C12: discovery is complete and ends. Under live authority, with fresh cursor
    identifiers and room for them, following the cursors from the first page returns
    after at most one page per fifty items, and the pages are together the summaries of
    exactly the catalog's items the session was granted that match the query and have a
    route at the target, each once and in the catalog's order. *)
Theorem search_complete `{Base64} `{Urls} {F : Type} `{Observer F} (h : Host F) a (c : Core F) uri q t randoms :
  host_cores h !! a = Some c -> core_check h c = Ok tt -> Target_parse uri = Ok t ->
  match q with Some q => slen q <= 256 | None => True end -> walkable c randoms ->
  let all := matching (host_configuration h) (core_options c) q t in
  (length all <= 50 * S (length randoms))%nat ->
  exists pages, walk (S (length randoms)) h a c uri q None randoms = Some (Ok pages)
    /\ length pages = length all
    /\ pages = omap (summary (host_configuration h)) all
    /\ forall i, i ∈ all <-> i ∈ items (catalog (host_configuration h))
                           /\ item_shown (host_configuration h) (core_options c) q t i = true.
Proof.
  intros Ha Hc Ht Hq Hw all Hlen. eexists. split_and!.
  - by apply (walk_complete _ _ _ _ _ _ t None 0); [..|lia|].
  - rewrite drop_0. apply (shown_summaries _ (core_options c) q t), matching_shown.
  - done.
  - intros i. unfold all, matching. by rewrite !list_elem_of_In, filter_In.
Qed.

(** ** Logins *)

Section Logins.
Context `{Base64} `{Urls} {F : Type} `{Observer F}.

(** What a prepared context is: of a granted item with a form login at the requested
    page, from the store's metadata and a revalidated lease, with nothing private in it,
    and no longer lived than the session, ten minutes and the credential. *)
Record prepared (cfg : Configuration) (o : SessionOptions) (expires : Z) (env : IssueEnv) (r : GetLogin) (b : Binding) : Prop := {
  pr_item : b_item b ∈ items (catalog cfg) /\ item_id (b_item b) = get_login_item_id r /\ item_allowed o (b_item b) = true;
  pr_login : exists p l t page, find_profile cfg (item_profile (b_item b)) = Some p /\ auth p = FormAuth l
    /\ username_visible l = false /\ Target_parse (get_login_uri r) = Ok t /\ Target_parse (login_page l) = Ok page
    /\ target_as_str t = target_as_str page /\ jar (b_state b) = CookieJar_new t;
  pr_store : store (credential (b_item b)) ∈ stores cfg /\ exists reference m,
    ItemRef_new (key (credential (b_item b))) = Ok reference
    /\ ie_metadata env (store (credential (b_item b))) reference = Ok m
    /\ Username ∈ metadata_fields m /\ Password ∈ metadata_fields m /\ b_lease b = lease m
    /\ ie_revalidate env (store (credential (b_item b))) reference (lease m) = Ok tt
    /\ forall d, valid_until m = Some d -> b_expires b <= d;
  pr_expires : ie_later env < b_expires b /\ b_expires b <= expires /\ b_expires b <= ie_now env + 600 * 1000000000;
  pr_values : exists u p, ie_username env = Some u /\ ie_password env = Some p
    /\ values (b_state b) = Some (mkValues ("aap_un1_" ++ u) ("aap_pw1_" ++ p));
  pr_fresh : ie_id env = Some (b_id b) /\ b_cancelled b = false /\ b_status (b_state b) = Unauthenticated
    /\ csrf_token (b_state b) = None /\ patterns (template (b_state b)) = [];
  pr_evidence : ie_evidence env = Ok tt /\ ie_check env = Ok tt }.

Lemma stored_Ok {A} (r : result StoreError A) x : stored r = Ok x -> r = Ok x.
Proof. destruct r; by intros [= ->]. Qed.

Lemma admit_login_Ok cfg o r i l t : admit_login cfg o r = Ok (i, l, t) ->
  (i ∈ items (catalog cfg) /\ item_id i = get_login_item_id r /\ item_allowed o i = true)
  /\ exists p page, find_profile cfg (item_profile i) = Some p /\ auth p = FormAuth l /\ username_visible l = false
       /\ Target_parse (get_login_uri r) = Ok t /\ Target_parse (login_page l) = Ok page
       /\ target_as_str t = target_as_str page.
Proof.
  unfold admit_login. intros Ha. apply bind_Ok in Ha as (i0 & Hi%ok_or_Ok & Ha). apply bind_Ok in Ha as (p & Hp%ok_or_Ok & Ha).
  destruct (auth p) as [| |l0|] eqn:Hauth; try done. destruct (username_visible l0) eqn:Hv; [done|].
  apply bind_Ok in Ha as (t0 & Ht & Ha). apply bind_Ok in Ha as (page & Hg & Ha). case_bool_decide; [|done]. simplify_eq.
  apply find_first_Some in Hi as [Hin Hb]. bool_hyps. split; [done|]. by exists p, page.
Qed.

Lemma prepare_binding_Ok cfg o expires env r b : prepare_binding cfg o expires env r = Ok b -> prepared cfg o expires env r b.
Proof.
  unfold prepare_binding. intros Hb. apply bind_Ok in Hb as ([] & _ & Hb). apply bind_Ok in Hb as ([[i l] t] & Ha & Hb).
  apply admit_login_Ok in Ha as (Hi & p & page & L1 & L2 & L3 & L4 & L5 & L6).
  apply bind_Ok in Hb as ([] & _ & Hb). apply bind_Ok in Hb as ([] & He & Hb).
  apply bind_Ok in Hb as ([] & Hs & Hb). case_bool_decide; [|done].
  apply bind_Ok in Hb as (reference & Hr%stored_Ok & Hb). apply bind_Ok in Hb as (m & Hm%stored_Ok & Hb).
  destruct (_ || _) eqn:Hf; [done|]. bool_hyps. set (until := match valid_until m with Some _ => _ | None => _ end) in *.
  destruct (until <=? ie_later env) eqn:Hu; [done|]. bool_hyps.
  apply bind_Ok in Hb as ([] & Hv%stored_Ok & Hb). apply bind_Ok in Hb as ([] & Hc & Hb).
  apply bind_Ok in Hb as (id & Hid%ok_or_Ok & Hb). apply bind_Ok in Hb as (vs & Hvs & Hb). simplify_eq.
  assert (Hun : until <= expires /\ until <= ie_now env + 600 * 1000000000 /\ forall d, valid_until m = Some d -> until <= d).
  { unfold until. destruct (valid_until m) as [d|]; split_and!; try lia; intros d' [=]; lia. }
  destruct Hun as (U1 & U2 & U3). constructor; cbn; try done.
  - by exists p, l, t, page.
  - split; [done|]. by exists reference, m.
  - unfold Placeholders_new in Hvs. destruct (ie_username env) as [u|]; [|done].
    destruct (ie_password env) as [q|]; [|done]. injection Hvs as <-. by exists u, q.
Qed.
End Logins.

(** A login is issued whole or not at all. Publishing what a preparation returned
    succeeds only for a pending, uncancelled issuance of a session with authority, and
    then the new context is the prepared one - of the requested item the session was
    granted, at its login page, from the store's metadata and a revalidated lease, with
    placeholders for credentials, no cookie, token or secret, and a bounded life - and
    the issuance is completed with its identifier; otherwise the issuance ends as not
    completed with that error, and no context changes. *)
Lemma login_issued `{Base64} `{Urls} {F : Type} `{Observer F} (h h' : Host F) a (c : Core F) id i env r res :
  ops_issuances (core_operations c) !! id = Some i -> terminal (state (i_status i)) = false ->
  publish h a c id (prepare_binding (host_configuration h) (core_options c) (core_expires c) env r) = (h', res) ->
  exists c' i', host_cores h' !! a = Some c' /\ ops_issuances (core_operations c') !! id = Some i'
    /\ terminal (state (i_status i')) = true
    /\ match res with
       | Ok k => exists b, prepared (host_configuration h) (core_options c) (core_expires c) env r b
           /\ core_check h c = Ok tt /\ i_cancelled i = false /\ host_now h < b_expires b /\ k = b_id b
           /\ state (i_status i') = Completed /\ i_result i' = Some (Ok k)
           /\ v_contexts (core_vault c') = <[k := b]> (v_contexts (core_vault c))
       | Err e => state (i_status i') <> Completed /\ i_result i' = Some (Err e)
           /\ v_contexts (core_vault c') = v_contexts (core_vault c)
       end.
Proof.
  intros Hi Ht. unfold publish. rewrite Hi, Ht.
  destruct (prepare_binding _ _ _ env r) as [b|e] eqn:Hp; cbn [mbind result_bind].
  2: { intros [= <- <-]. eexists _, _. split; [apply lookup_insert_eq|]. cbn. split; [apply lookup_insert_eq|].
       cbn. by destruct (code e). }
  destruct (publish_binding h c i b) as [b'|e] eqn:Hb.
  - intros [= <- <-]. eexists _, _. split; [apply lookup_insert_eq|]. cbn. split; [apply lookup_insert_eq|]. cbn.
    split; [done|]. apply publish_binding_Ok in Hb as (K1 & -> & K2 & K3 & K4 & K5). exists b.
    split; [by apply prepare_binding_Ok|]. done.
  - intros [= <- <-]. eexists _, _. split; [apply lookup_insert_eq|]. cbn. split; [apply lookup_insert_eq|].
    cbn. by destruct (code e).
Qed.
