(* ===== verification/Broker.v ===== *)
(** * The life of a broker

    Everything that can happen to a host and its sessions, as one step relation: the
    critical sections of [Session] and [Vault], the steps of the guards of tracked
    requests and of raw connections on the cells they share with their session, the
    sections of a revocation one by one, the clock, and the drop of a session. A run is
    any sequence of them, so any interleaving of the threads that take the locks. *)
From S2P Require Import Prelude Protocol Ids Json Tools Address Catalog Profile Observe.
From S2P Require Import Secrets Redaction Cookies Flow Operation Guard Lifecycle.
From S2P Require Import Endpoint TcpPolicy.
From S2P Require Import Stream Relay TcpState Config Session Vault.

(** What happens inside one session. [early] is what a check before the section read,
    [flow] what [Flow::new] returned, [prepared] what the preparation of a context
    returned, and a guard comes with everything it does not share. *)
Inductive CoreMove (F R : Type) :=
  | CExecute (early : Result unit) (flow : Result F) (r : ExecuteRequest)
  | CAdmit (early : Result unit) (flow : Result F) (r : Open)
  | CIssue (early : Result unit) (r : GetLogin)
  | CPublish (id : string) (prepared : Result Binding)
  | CAbandon (id : string)
  | CCancel (id : string)
  | CReserve (n : N)
  | CRelease (i : nat)
  | CSearch (early : Result unit) (r : SearchItems) (random : option string)
  | CCheck (context : string)
  | CTakeBack (item : string)
  | CLogout (context : string)
  | CGuard (id : string) (context : option string) (g : Guard F R) (m : Move F R)
  | CGuardDrop (id : string) (context : option string) (g : Guard F R)
  | CStream (id : string) (m : ConnMove (F := F)).
Arguments CExecute {F R}. Arguments CAdmit {F R}. Arguments CIssue {F R}. Arguments CPublish {F R}.
Arguments CAbandon {F R}. Arguments CCancel {F R}. Arguments CReserve {F R}. Arguments CRelease {F R}.
Arguments CSearch {F R}. Arguments CCheck {F R}. Arguments CTakeBack {F R}. Arguments CLogout {F R}.
Arguments CGuard {F R}. Arguments CGuardDrop {F R}. Arguments CStream {F R}.

(** What happens to a host; a revocation is its sections, by number. *)
Inductive BrokerMove (F R : Type) :=
  | BTick (t : Z)
  | BCreate (early : bool) (o : SessionOptions) (random : option string)
  | BClose
  | BDrop (a : nat)
  | BRevoke (a : nat) (section : nat)
  | BCore (a : nat) (m : CoreMove F R).
Arguments BTick {F R}. Arguments BCreate {F R}. Arguments BClose {F R}. Arguments BDrop {F R}.
Arguments BRevoke {F R}. Arguments BCore {F R}.

Section Lives.
Context `{Base64} `{Urls} {F : Type} `{Observer F} {R : Type} `{RemoteContext R}.
Context (request_size : ExecuteRequest -> option N).
Abbreviation Ht := (Host F).
Abbreviation Cr := (Core F).

(** The steps a guard takes itself: it prepares its operation, and after the commit it
    only stores the upstream status. *)
Definition own_step (o : Operation) (m : Move F R) : bool :=
  match m with
  | MOthers _ | MExchange _ _ _ => false
  | MTransition next _ =>
      bool_decide (next ∈ [Validated; PendingApproval; Ready])
      || (bool_decide (next = Dispatching) && bool_decide (op_state o = Dispatching))
  | _ => true
  end.
(** The steps an owner of a raw connection takes, under the session's authority. *)
Definition under (a : Authority) (m : ConnMove (F := F)) : ConnMove :=
  match m with
  | KCommit _ => KCommit a
  | KInstall _ t => KInstall a t
  | KRelay _ now later t => KRelay a now later t
  | KPoll _ env late => KPoll a env late
  | m => m
  end.
Definition own_conn_step (m : ConnMove (F := F)) : bool :=
  match m with KTransition next => bool_decide (next ∈ [PendingApproval; Ready]) | _ => true end.

(** A step of a guard on the cells it shares: its operation and its context. *)
Definition on_guard (h : Ht) (c : Cr) (id : string) (context : option string) (g : Guard F R)
    (f : Operation -> Guard F R -> Guard F R) : Cr :=
  match ops_items (core_operations c) !! id with
  | None => c
  | Some o =>
      let b := k ← context; v_contexts (core_vault c) !! k in
      let g := f o (with_shared g (mkShared (core_authority h c) o b)) in
      let c := with_operations c (with_items (core_operations c) (<[id := guard_op g]> (ops_items (core_operations c)))) in
      match context, binding (shared g) with
      | Some k, Some b => set_context c k b
      | _, _ => c
      end
  end.

Definition core_move (h : Ht) (a : nat) (c : Cr) (m : CoreMove F R) : Ht :=
  match m with
  | CExecute early flow r => (begin_execute request_size h a c early flow r).1
  | CAdmit early flow r => (admit_tcp h a c early flow r).1
  | CIssue early r => (begin_issue h a c early r).1
  | CPublish id prepared => (publish h a c id prepared).1
  | CAbandon id => with_core h a (abandon c id)
  | CCancel id => (cancel h a c id).1
  | CReserve n => with_core h a (reserve_approval c (Z.of_N n)).1
  | CRelease i => with_core h a (release_approval c i)
  | CSearch early r random => (search_inner h a c early r random).1
  | CCheck k => with_core h a (check_context h c k).1
  | CTakeBack item => with_core h a (invalidate_item c item)
  | CLogout k => with_core h a (logout_inner h c k).1
  | CGuard id k g m => with_core h a (on_guard h c id k g (fun o g => if own_step o m then do_move g m else g))
  | CGuardDrop id k g => with_core h a (on_guard h c id k g (fun _ => guard_drop))
  | CStream id m =>
      match ops_streams (core_operations c) !! id with
      | Some s =>
          if own_conn_step m then
            let s := (conn_move s (under (core_authority h c) m)).1 in
            with_core h a (with_operations c (with_streams (core_operations c) (<[id := s]> (ops_streams (core_operations c)))))
          else h
      | None => h
      end
  end.

Definition broker_move (h : Ht) (m : BrokerMove F R) : Ht :=
  match m with
  | BTick t => with_now h (Z.max (host_now h) t)
  | BCreate early o random => (create_session h early o random).1
  | BClose => close_admission h
  | BDrop a => drop_core h a
  | BRevoke a i => match revoke_sections !! i with Some f => on_core h a f | None => h end
  | BCore a m => match host_cores h !! a with Some c => core_move h a c m | None => h end
  end.
Definition run (h : Ht) (ms : list (BrokerMove F R)) : Ht := foldl broker_move h ms.

(** Session identifiers are 128 random bits: a fresh one is not in use. *)
Definition fresh_move (h : Ht) (m : BrokerMove F R) : Prop :=
  match m with BCreate _ _ (Some id) => host_sessions h !! id = None | _ => True end.
Fixpoint fresh_run (h : Ht) (ms : list (BrokerMove F R)) : Prop :=
  match ms with [] => True | m :: ms => fresh_move h m /\ fresh_run (broker_move h m) ms end.

Lemma run_app h l k : run h (l ++ k) = run (run h l) k.
Proof. apply foldl_app. Qed.
Lemma fresh_app h l k : fresh_run h (l ++ k) <-> fresh_run h l /\ fresh_run (run h l) k.
Proof. revert h. induction l as [|m l IH]; intros h; cbn; [tauto|]. rewrite IH. unfold run. tauto. Qed.

(** A property that every move keeps holds along every run. *)
Lemma run_keeps (P : Ht -> Prop) ms h :
  (forall h m, P h -> P (broker_move h m)) -> P h -> P (run h ms).
Proof. intros Hm. revert h. induction ms as [|m ms IH]; intros h Hp; [done|]. by apply IH, Hm. Qed.
Lemma fresh_run_keeps (P : Ht -> Prop) ms h :
  (forall h m, P h -> fresh_move h m -> P (broker_move h m)) -> P h -> fresh_run h ms -> P (run h ms).
Proof.
  intros Hm. revert h. induction ms as [|m ms IH]; intros h Hp Hf; [done|]. destruct Hf as [K1 K2].
  apply IH; [by apply Hm|done].
Qed.

(** The operations of the broker are runs of their sections. *)
Definition revocation (a : nat) : list (BrokerMove F R) := map (BRevoke a) (seq 0 6).
Lemma revoke_run h a : (revoke h true a).1 = run h (revocation a).
Proof. reflexivity. Qed.

Definition closure (h : Ht) : list (BrokerMove F R) :=
  BClose :: map (fun a => BRevoke a 1) (registered h) ++ concat (map revocation (registered h)).
Lemma close_run h : close h = run h (closure h).
Proof.
  unfold close, closure. cbn [run foldl broker_move]. fold (run (close_admission h)). rewrite run_app.
  assert (Hn : forall l h, foldl (fun h a => on_core h a notify) h l = run h (map (fun a => BRevoke a 1) l)).
  { clear. induction l as [|a l IH]; intros h; [done|]. apply IH. }
  assert (Hr : forall l h, foldl (fun h a => (revoke h true a).1) h l = run h (concat (map revocation l))).
  { clear. induction l as [|a l IH]; intros h; [done|]. cbn [foldl map concat]. rewrite run_app, <-revoke_run. apply IH. }
  unfold run in *. rewrite <-Hn, <-Hr. reflexivity.
Qed.
End Lives.
