(* ===== verification/Evolution.v ===== *)
(** * How the cells of a session and its sessions evolve

    The tracked requests, issuances and raw connections of a session and its contexts:
    what any step may do to one of them, and what it may not once the session's
    authority is gone. Every move of a broker only lets its sessions evolve: identifiers
    keep what they name, terminal things stay as they are, authority that is gone stays
    gone, and without authority nothing is dispatched, completed or published. *)
From S2P Require Import Prelude Protocol Ids Json Tools Address Catalog Profile Observe.
From S2P Require Import Secrets Redaction Cookies Flow Operation Guard Lifecycle.
From S2P Require Import Endpoint TcpPolicy.
From S2P Require Import Stream Relay TcpState Config Session Vault Broker.

(** ** Maps of cells *)

Section Cells.
Context {A : Type}.

(** A cell keeps its key; a new one is born; none disappears. *)
Definition cells_step (R : A -> A -> Prop) (born : string -> A -> Prop) (m m' : gmap string A) : Prop :=
  forall i, match m !! i, m' !! i with
       | Some x, Some y => R x y
       | None, Some y => born i y
       | None, None => True
       | Some _, None => False
       end.

Lemma cells_refl (R : A -> A -> Prop) born m : (forall x, R x x) -> cells_step R born m m.
Proof. intros Hr i. by destruct (m !! i). Qed.

Lemma cells_trans (R1 R2 R : A -> A -> Prop) (b1 b2 b : string -> A -> Prop) m1 m2 m3 :
  (forall x y z, R1 x y -> R2 y z -> R x z) -> (forall i x y, b1 i x -> R2 x y -> b i y) ->
  (forall i x, b2 i x -> b i x) ->
  cells_step R1 b1 m1 m2 -> cells_step R2 b2 m2 m3 -> cells_step R b m1 m3.
Proof.
  intros Ht Hb1 Hb2 K1 K2 i. specialize (K1 i). specialize (K2 i).
  destruct (m1 !! i), (m2 !! i), (m3 !! i); naive_solver.
Qed.

Lemma cells_insert (R : A -> A -> Prop) (born : string -> A -> Prop) m i y : (forall x, R x x) ->
  match m !! i with Some x => R x y | None => born i y end -> cells_step R born m (<[i := y]> m).
Proof.
  intros Hr Hi j. destruct (decide (i = j)) as [<-|Hn].
  - rewrite lookup_insert_eq. by destruct (m !! i).
  - rewrite lookup_insert_ne by done. by destruct (m !! j).
Qed.

Lemma cells_fmap (R : A -> A -> Prop) born m f : (forall x, R x (f x)) -> cells_step R born m (f <$> m).
Proof. intros Hf i. rewrite lookup_fmap. by destruct (m !! i); cbn. Qed.

Lemma cells_Some (R : A -> A -> Prop) born m m' i x : cells_step R born m m' -> m !! i = Some x ->
  exists y, m' !! i = Some y /\ R x y.
Proof. intros K Hx. specialize (K i). rewrite Hx in K. destruct (m' !! i) as [y|]; [by exists y|done]. Qed.
End Cells.

Section Steps.
Context (alive : bool).

(** ** One cell *)

(** A request keeps its identity and a terminal status; only under authority is it
    dispatched or completed. *)
Record item_step (o o' : Operation) : Prop := {
  is_request : op_request o' = op_request o;
  is_id : status_request_id (op_status o') = status_request_id (op_status o);
  is_final : terminal (op_state o) = true -> op_status o' = op_status o;
  is_authority : op_state o' ∈ [Dispatching; Completed] -> op_state o' = op_state o \/ alive = true }.
Record item_born (id : string) (o : Operation) : Prop := {
  ib_id : request_id (op_request o) = id;
  ib_status : status_request_id (op_status o) = id;
  ib_state : op_state o ∈ [Dispatching; Completed] -> alive = true }.

(** What an issuance says is what it has: a result exactly when it is over, and a
    context exactly when it completed. *)
Definition issuance_says (i : Issuance) : Prop :=
  (terminal (state (i_status i)) = true <-> is_Some (i_result i))
  /\ (state (i_status i) = Completed <-> exists k, i_result i = Some (Ok k)).
Record issuance_step (i i' : Issuance) : Prop := {
  ss_request : i_request i' = i_request i;
  ss_id : status_request_id (i_status i') = status_request_id (i_status i);
  ss_final : terminal (state (i_status i)) = true -> i' = i;
  ss_says : issuance_says i -> issuance_says i';
  ss_authority : state (i_status i') = Completed -> i' = i \/ alive = true }.
Record issuance_born (id : string) (i : Issuance) : Prop := {
  sb_id : get_login_request_id (i_request i) = id;
  sb_status : status_request_id (i_status i) = id;
  sb_says : issuance_says i;
  sb_state : state (i_status i) = Completed -> alive = true }.

(** A context that lost its authority stays as bare as it is. *)
Definition binding_step (b b' : Binding) : Prop :=
  b' = b \/ (b_cancelled b' = true /\ bare (b_state b')) \/ (alive = true /\ b_cancelled b' = false).
Definition binding_born (k : string) (b : Binding) : Prop :=
  alive = true /\ (b_cancelled b = true -> bare (b_state b)).

Section Streams.
Context {F : Type}.
(** A raw connection keeps its identity, its end and what it gave back. *)
Record stream_step (s s' : Conn F) : Prop := {
  ts_request : cn_request s' = cn_request s;
  ts_profile : cn_profile s' = cn_profile s;
  ts_id : status_request_id (cn_status s') = status_request_id (cn_status s);
  ts_final : terminal (cn_state s) = true -> cn_status s' = cn_status s /\ cn_cause s' = cn_cause s;
  ts_attachments : cn_attachments s' = true -> cn_attachments s = true;
  ts_authority : cn_state s' = Dispatching -> cn_state s = Dispatching \/ alive = true }.
Record stream_born (cfg : Configuration) (opts : SessionOptions) (id : string) (s : Conn F) : Prop := {
  tb_id : open_request_id (cn_request s) = id;
  tb_status : status_request_id (cn_status s) = id;
  tb_profile : cn_profile s ∈ tcp_profiles cfg;
  tb_granted : tcp_id (cn_profile s) ∈ o_resources opts;
  tb_resource : tcp_id (cn_profile s) = open_resource (cn_request s);
  tb_state : cn_state s = Dispatching -> alive = true }.
End Streams.
End Steps.

Lemma item_step_trans al al' x y z : (al' = true -> al = true) ->
  item_step al x y -> item_step al' y z -> item_step al x z.
Proof.
  intros Hal [A1 A2 A3 A4] [B1 B2 B3 B4]. constructor; [congruence|congruence| |].
  - intros Ht. rewrite <-(A3 Ht). apply B3. unfold op_state in *. by rewrite (A3 Ht).
  - intros Hs. destruct (B4 Hs) as [E|E]; [|by right; apply Hal]. rewrite E in *. by apply A4.
Qed.
Lemma item_step_refl al o : item_step al o o.
Proof. by constructor; [| | |left]. Qed.
Lemma item_born_step al al' id x y : (al' = true -> al = true) ->
  item_born al id x -> item_step al' x y -> item_born al id y.
Proof.
  intros Hal [A1 A2 A3] [B1 B2 B3 B4]. constructor; [congruence|congruence|].
  intros Hs. destruct (B4 Hs) as [E|E]; [rewrite E in Hs; by apply A3|by apply Hal].
Qed.

Lemma issuance_step_refl al i : issuance_step al i i.
Proof. constructor; try done. by left. Qed.
Lemma issuance_step_trans al al' x y z : (al' = true -> al = true) ->
  issuance_step al x y -> issuance_step al' y z -> issuance_step al x z.
Proof.
  intros Hal [A1 A2 A3 A4 A5] [B1 B2 B3 B4 B5]. constructor; [congruence|congruence| |by auto|].
  - intros Ht. pose proof (A3 Ht); subst y. by apply B3.
  - intros Hs. destruct (B5 Hs) as [->|E]; [by apply A5|right; by apply Hal].
Qed.
Lemma issuance_born_step al al' id x y : (al' = true -> al = true) ->
  issuance_born al id x -> issuance_step al' x y -> issuance_born al id y.
Proof.
  intros Hal [A1 A2 A3 A4] [B1 B2 B3 B4 B5]. constructor; [congruence|congruence|by auto|].
  intros Hs. destruct (B5 Hs) as [->|E]; [by apply A4|by apply Hal].
Qed.

Lemma binding_step_refl al b : binding_step al b b.
Proof. by left. Qed.
Lemma binding_step_trans al al' x y z : (al' = true -> al = true) ->
  binding_step al x y -> binding_step al' y z -> binding_step al x z.
Proof. unfold binding_step. naive_solver. Qed.
Lemma binding_step_bare al b b' : binding_step al b b' -> (b_cancelled b = true -> bare (b_state b)) ->
  b_cancelled b' = true -> bare (b_state b').
Proof. intros [->|[[_ ?]|[_ E]]] Hb; [done|done|congruence]. Qed.
Lemma binding_born_step al al' k x y : (al' = true -> al = true) ->
  binding_born al k x -> binding_step al' x y -> binding_born al k y.
Proof. intros _ [A1 A2] Hs. split; [done|]. by apply (binding_step_bare _ _ _ Hs). Qed.
Lemma invalidate_step al b s : binding_step al b (invalidate b s).
Proof. right; left. apply invalidate_bare. Qed.

Lemma stream_step_refl {F} al (s : Conn F) : stream_step al s s.
Proof. constructor; try done. by left. Qed.
Lemma stream_step_trans {F} al al' (x y z : Conn F) : (al' = true -> al = true) ->
  stream_step al x y -> stream_step al' y z -> stream_step al x z.
Proof.
  intros Hal [A1 A2 A3 A4 A5 A6] [B1 B2 B3 B4 B5 B6]. constructor; [congruence|congruence|congruence| |by auto|].
  - intros Ht. destruct (A4 Ht) as [E1 E2]. rewrite <-E1, <-E2. apply B4. unfold cn_state in *. by rewrite E1.
  - intros Hs. destruct (B6 Hs) as [E|E]; [by apply A6|right; by apply Hal].
Qed.
Lemma stream_born_step {F} al al' cfg opts id (x y : Conn F) : (al' = true -> al = true) ->
  stream_born al cfg opts id x -> stream_step al' x y -> stream_born al cfg opts id y.
Proof.
  intros Hal [A1 A2 A3 A4 A5 A6] [B1 B2 B3 B4 B5 B6]. constructor; [congruence..|].
  intros Hs. destruct (B6 Hs) as [E|E]; [by apply A6|by apply Hal].
Qed.
#[export] Hint Resolve item_step_refl issuance_step_refl binding_step_refl stream_step_refl invalidate_step : aap.

(** ** The operations on one cell *)

Lemma op_cancel_step al o : item_step al o (op_cancel o).
Proof.
  constructor; [by unfold op_cancel; destruct (terminal _)..| |].
  - intros Ht. by rewrite cancel_terminal.
  - rewrite cancelled_state. destruct (terminal _); [by left|]. case_bool_decide; set_solver.
Qed.
Lemma cancel_token_step al o : item_step al o (cancel_token o).
Proof. by constructor; [| | |left]. Qed.
Lemma transition_step al o next code : next ∉ [Dispatching; Completed] \/ next = op_state o \/ al = true ->
  item_step al o (transition o next code).1.
Proof.
  intros Hn. unfold transition. destruct (terminal (op_state o)) eqn:Ht; [apply item_step_refl|].
  constructor; cbn; [done|done|congruence|]. intros Hs.
  destruct Hn as [Hn|[?|?]]; [by destruct Hn|by left|by right].
Qed.
Lemma set_state_step al o s : terminal (op_state o) = false -> al = true -> item_step al o (set_state o s).
Proof. intros Ht Ha. by constructor; [| |congruence|right]. Qed.

Lemma issuance_cancel_step al i : issuance_step al i (issuance_cancel i).
Proof.
  unfold issuance_cancel. destruct (terminal _) eqn:Ht; [apply issuance_step_refl|].
  constructor; cbn; [done|done|congruence| |done].
  intros _. split; cbn; [split; [by eexists|done]|]. split; [done|]. by intros [k [=]].
Qed.
Lemma issuance_end_step al i s r : terminal (state (i_status i)) = false -> terminal s = true ->
  (s = Completed <-> exists k, r = Ok k) -> (s = Completed -> al = true) -> issuance_step al i (issuance_end i s r).
Proof.
  intros Ht Hs Hr Ha. constructor; cbn; [done|done|congruence| |by right; apply Ha].
  intros _. split; cbn; [by split; [eexists|]|]. rewrite Hr. split; intros [k Hk]; exists k; congruence.
Qed.

Lemma Binding_check_step al b now : binding_step al b (Binding_check b now).1.
Proof. unfold Binding_check. destruct (_ && _); cbn; [apply invalidate_step|apply binding_step_refl]. Qed.

(** ** The steps of a guard *)

Section GuardSteps.
Context `{Base64} {F : Type} `{Observer F} `{!ObserverLaws F} {R : Type} `{RemoteContext R}.
Abbreviation G := (Guard F R).

Definition guard_alive (g : G) : bool := is_ok (Session_check (authority (shared g))).

(** What a batch with a commit keeps, when the commit keeps it. *)
Lemma finish_with_keeps {S : Type} (P : S -> Prop) f st c reason (commit : S -> S * Result unit) s f' st' s' r :
  finish_with (F := F) f st c reason commit s = (f', st', s', r) -> P s -> P (commit s).1 -> P s'.
Proof.
  intros Hf Hs Hc. apply finish_with_outcome in Hf as [[-> _]|[(E & _)|(E & _)]]; [done|by rewrite E in Hc..].
Qed.

Lemma commit_complete_cells now pending (o : Operation) b (r : option R) :
  let '(o', b', _, _) := commit_complete now pending (o, b, r) in
  (o' = o \/ (op_state o = Dispatching /\ o' = set_state o Completed))
  /\ match b, b' with
     | Some x, Some y => y = x \/ b_cancelled y = false
     | None, None => True
     | _, _ => False
     end.
Proof.
  unfold commit_complete. destruct (_ || _) eqn:E; [split; [by left|]; destruct b; auto|]. bool_hyps.
  destruct (match r with Some _ => _ | None => _ end) as [r1 [[]|e]]; [|split; [by left|]; destruct b; auto].
  split; [by right|]. destruct b as [b|]; [|done]. destruct pending as [[p st]|]; [|by left].
  right. cbn. bool_hyps. rewrite bool_decide_eq_true_2 in * by done. cbn [andb] in *. by bool_hyps.
Qed.

(** The two cells a guard shares. *)
Record guard_step (g g' : G) : Prop := {
  gs_item : item_step (guard_alive g) (guard_op g) (guard_op g');
  gs_binding : match binding (shared g), binding (shared g') with
               | Some b, Some b' => binding_step (guard_alive g) b b'
               | None, None => True
               | _, _ => False
               end }.

Lemma guard_step_op (g g' : G) : item_step (guard_alive g) (guard_op g) (guard_op g') ->
  binding (shared g') = binding (shared g) -> guard_step g g'.
Proof. intros Ho Hb. split; [done|]. rewrite Hb. destruct (binding (shared g)); auto with aap. Qed.
Lemma guard_step_shared (g g' : G) : shared g' = shared g -> guard_step g g'.
Proof. intros Hs. apply guard_step_op; unfold guard_op; rewrite Hs; auto with aap. Qed.
Lemma guard_step_trans (g g1 g2 : G) : (guard_alive g1 = true -> guard_alive g = true) ->
  guard_step g g1 -> guard_step g1 g2 -> guard_step g g2.
Proof.
  intros Hal [A1 A2] [B1 B2]. split; [by eapply item_step_trans|].
  destruct (binding (shared g)), (binding (shared g1)), (binding (shared g2)); try done.
  by eapply binding_step_trans.
Qed.

Lemma begin_dispatch_step (g : G) : guard_step g (begin_dispatch g).1.
Proof.
  unfold begin_dispatch. destruct (commit_authority _ _ _) as [o [[]|e]] eqn:E; cbn; apply guard_step_op; try done; cbn.
  - apply commit_authority_Ok in E as [(_ & ? & _)|(Hs & E)]; [done|]. unfold commit_dispatch in E.
    destruct (_ || _) eqn:Hb; simplify_eq. bool_hyps. apply set_state_step; [by match goal with HR : _ = Ready |- _ => rewrite HR end|].
    unfold guard_alive. by rewrite Hs.
  - assert (Ho : o = guard_op g).
    { apply commit_authority_Ok in E as [(-> & _)|(_ & E)]; [done|]. unfold commit_dispatch in E. destruct (_ || _); by simplify_eq. }
    subst o. case_bool_decide; cbn; [apply op_cancel_step|apply item_step_refl].
Qed.

Lemma complete_local_step (g : G) code : guard_step g (complete_local g code).1.
Proof.
  unfold complete_local. destruct (finish_with _ _ _ _ _ _) as [[[f st] o] res] eqn:Hf.
  assert (Ho : item_step (guard_alive g) (guard_op g) o).
  { apply (finish_with_keeps (item_step (guard_alive g) (guard_op g))) in Hf; [done|apply item_step_refl|].
    unfold commit_authority, guard_alive. destruct (Session_check _); [|apply item_step_refl].
    unfold commit_local. destruct (_ || _) eqn:Hb; [apply item_step_refl|]. bool_hyps.
    constructor; cbn; [done|done|congruence|by right]. }
  destruct res as [[]|e]; cbn; [by apply guard_step_op|].
  apply guard_step_op; case_bool_decide; cbn; try done.
  eapply item_step_trans; [|exact Ho|apply op_cancel_step]. done.
Qed.

Lemma check_website_step (g : G) : guard_step g (check_website g).1.
Proof.
  unfold check_website. destruct (website g); [|by apply guard_step_shared].
  destruct (binding (shared g)) as [b|] eqn:Hb; [|by apply guard_step_shared].
  pose proof (Binding_check_step (guard_alive g) b (guard_now g)) as Hs.
  destruct (Binding_check b (guard_now g)) as [b' r]. split; [apply item_step_refl|]. rewrite Hb. by cbn.
Qed.

Lemma commit_evidence_step (g : G) pending : guard_step g (commit_evidence g pending).1.
Proof.
  unfold commit_evidence. destruct (finish_with _ _ _ _ _ _) as [[[f st] [[o b] r]] res] eqn:Hf.
  apply (finish_with_keeps (fun s => item_step (guard_alive g) (op (shared g)) s.1.1
    /\ match binding (shared g), s.1.2 with
       | Some b, Some b' => binding_step (guard_alive g) b b' | None, None => True | _, _ => False end)) in Hf.
  - destruct Hf as [Ho Hb]. destruct res; cbn; by split.
  - cbn. split; [apply item_step_refl|]. destruct (binding (shared g)); auto with aap.
  - unfold commit_authority. destruct (Session_check (authority (shared g))) as [[]|e] eqn:Hs; cbn [fst].
    + pose proof (commit_complete_cells (guard_now g) pending (op (shared g)) (binding (shared g)) (remote g)) as Hc.
      destruct (commit_complete _ _ _) as [[[o' b'] r'] x]. cbn. destruct Hc as [Ho Hb].
      assert (Ha : guard_alive g = true) by (unfold guard_alive; by rewrite Hs). split.
      * destruct Ho as [->|[Hd ->]]; [apply item_step_refl|]. apply set_state_step; [by rewrite Hd|done].
      * destruct (binding (shared g)), b'; try done. destruct Hb as [->|?]; [apply binding_step_refl|]. by right; right.
    + cbn. split; [apply item_step_refl|]. destruct (binding (shared g)); auto with aap.
Qed.

Lemma complete_step (g : G) : guard_step g (complete g).1.
Proof.
  unfold complete. destruct (_ || _); [by apply guard_step_shared|].
  pose proof (check_website_step g) as S1. destruct (check_website g) as [g1 [[]|e]] eqn:E1; [|done].
  pose proof (check_website_frame _ _ _ E1) as (_ & A1 & _).
  destruct (check_remote g1) as [g2 rr] eqn:E2. pose proof (check_remote_frame _ _ _ E2) as (A2 & _).
  assert (S2 : guard_step g g2).
  { eapply guard_step_trans; [|exact S1|by apply guard_step_shared]. unfold guard_alive. cbn [fst]. by rewrite A1. }
  destruct rr as [[]|e]; [|done]. destruct (take_pending g2) as [g3 rp] eqn:E3.
  pose proof (take_pending_frame _ _ _ E3) as (A3 & _).
  assert (Hal : guard_alive g3 = true -> guard_alive g = true) by (unfold guard_alive; by rewrite A3, A2, A1).
  assert (Hal2 : guard_alive g2 = true -> guard_alive g = true) by (unfold guard_alive; by rewrite A2, A1).
  assert (S3 : guard_step g g3) by (eapply guard_step_trans; [exact Hal2|exact S2|by apply guard_step_shared]).
  destruct rp as [pending|e]; [|done].
  eapply guard_step_trans; [exact Hal|exact S3|apply commit_evidence_step].
Qed.

Lemma release_exchanges_step (g : G) : guard_step g (release_exchanges g).
Proof.
  unfold release_exchanges. destruct (website g); [|by apply guard_step_shared].
  split; cbn; [apply item_step_refl|]. destruct (binding (shared g)); cbn; auto with aap.
Qed.

Lemma failed_state_quiet d reason : failed_state d reason ∉ [Dispatching; Completed].
Proof. unfold failed_state. destruct d; [set_solver|]. case_bool_decide; set_solver. Qed.

Lemma guard_fail_step (g : G) reason : guard_step g (guard_fail g reason).
Proof.
  unfold guard_fail. destruct (finished g); [by apply guard_step_shared|].
  pose proof (release_exchanges_step g) as S1. set (g1 := release_exchanges g) in *.
  assert (A1 : authority (shared g1) = authority (shared g)) by (unfold g1, release_exchanges; by destruct (website g)).
  destruct (transition (guard_op g1) _ None) as [o r] eqn:Ht.
  set (g2 := with_op g1 (cancel_token o)).
  assert (S2 : guard_step g g2).
  { eapply guard_step_trans; [|exact S1|]; [by unfold guard_alive; rewrite A1|]. apply guard_step_op; [|done].
    apply (item_step_trans _ (guard_alive g1) _ o); [done| |apply cancel_token_step].
    change o with (o, r).1. rewrite <-Ht. apply transition_step. left. apply failed_state_quiet. }
  assert (S3 : forall g3 : G, shared g3 = shared g2 ->
    guard_step g (with_finished (finish_observation g3 false (Some reason)).1)).
  { intros g3 E3. destruct (finish_observation g3 _ _) as [g4 r4] eqn:E4. apply finish_frame in E4 as (F1 & _).
    eapply guard_step_trans; [|exact S2|apply guard_step_shared; exact (eq_trans F1 E3)].
    unfold guard_alive. change (authority (shared g2)) with (authority (shared g1)). by rewrite A1. }
  destruct (dispatched g2); [by apply S3|]. destruct (record_both g2 _ _) as [g3 r3] eqn:Hr.
  apply record_frame in Hr as (R1 & _). by apply S3.
Qed.

Lemma guard_drop_step (g : G) : guard_step g (guard_drop g).
Proof.
  unfold guard_drop. destruct (finished g); [by apply guard_step_shared|].
  apply (guard_step_trans _ (with_op g (op_cancel (guard_op g)))); [done| |apply guard_fail_step].
  apply guard_step_op; [apply op_cancel_step|done].
Qed.

Lemma do_move_step (g : G) m : own_step (guard_op g) m = true -> guard_step g (do_move g m).
Proof.
  destruct m as [os|ff| | |next code|es|d l|w b r| | |code|reason]; cbn [own_step do_move]; intros Hm; try done.
  - by apply guard_step_shared.
  - by apply guard_step_shared.
  - by apply guard_step_shared.
  - apply guard_step_op; [|done]. apply transition_step.
    apply orb_true_iff in Hm as [Hm|Hm]; bool_hyps; [left; set_solver|right; left; congruence].
  - destruct (record_many g es) as [g1 r] eqn:E. apply record_frame in E as (E1 & _). by apply guard_step_shared.
  - unfold content_both. destruct (content_views _ _ _ _) as [g1 r] eqn:E. apply content_frame in E as (E1 & _).
    by apply guard_step_shared.
  - apply begin_dispatch_step.
  - apply complete_step.
  - apply complete_local_step.
  - apply guard_fail_step.
Qed.
End GuardSteps.

(** ** The steps of a raw connection *)

Section StreamSteps.
Context `{Base64} {F : Type} `{Observer F}.
Abbreviation C := (Conn F).

Lemma stream_step_frame al (s s' : C) : cn_request s' = cn_request s -> cn_profile s' = cn_profile s ->
  cn_status s' = cn_status s -> cn_cause s' = cn_cause s ->
  (cn_attachments s' = true -> cn_attachments s = true) -> stream_step al s s'.
Proof.
  intros K1 K2 K3 K4 K5. constructor; [done|done|by rewrite K3|done|done|].
  unfold cn_state. rewrite K3. by left.
Qed.

Lemma stream_step_record al (s : C) x : stream_step al s (record_locked s x).1.
Proof.
  destruct (record_locked s x) as [s' r] eqn:E. apply record_locked_frame in E as [f ->]. by apply stream_step_frame.
Qed.

Lemma stream_step_end al (s : C) f k sent received : terminal (cn_state s) = false ->
  stream_step al s (released (set_cn_flow (counted (set_cn_cancelled s) sent received) f) k).
Proof.
  intros Ht. constructor; cbn; try done; [congruence|]. intros Hd.
  pose proof (ended_state_spec (cn_state s) k) as (E & _). unfold cn_state in Hd, E. cbn in Hd. by rewrite Hd in E.
Qed.
Lemma finish_locked_step al (s : C) cause : stream_step al s (finish_locked s cause).
Proof.
  unfold finish_locked. destruct (terminal (cn_state s)) eqn:Ht; [apply stream_step_refl|].
  change (cn_relay (set_cn_cancelled s)) with (cn_relay s). destruct (cn_relay s) as [r|].
  - destruct (terminate _ _) as [d o]. destruct (watch_finish _ _ _ _ _) as [f rec]. by apply stream_step_end.
  - set (k := if bool_decide (cause = OrderlyEnd) then _ else _).
    assert (Hs1 : forall s1 : C, (exists f, s1 = set_cn_flow (set_cn_cancelled s) f) -> stream_step al s (released s1 k)).
    { intros s1 [f ->]. constructor; cbn; try done; [congruence|]. intros Hd.
      pose proof (ended_state_spec (cn_state s) k) as (E & _). unfold cn_state in Hd, E. cbn in Hd. by rewrite Hd in E. }
    apply Hs1. destruct (cn_started _); [|exists (cn_flow s); destruct s; reflexivity].
    destruct (record_locked _ _) as [s2 r2] eqn:E. by apply record_locked_frame in E.
Qed.
Lemma tcp_finish_step al (s : C) cause : stream_step al s (tcp_finish s cause).
Proof.
  apply (stream_step_trans al al _ (set_cn_cancelled s)); [done|by apply stream_step_frame|apply finish_locked_step].
Qed.
Lemma tcp_finish_ends (s : C) cause : terminal (cn_state (tcp_finish s cause)) = true.
Proof.
  unfold tcp_finish, finish_locked. change (cn_state (set_cn_cancelled s)) with (cn_state s).
  destruct (terminal (cn_state s)) eqn:Ht; [done|].
  destruct (cn_relay _); [destruct (terminate _ _); destruct (watch_finish _ _ _ _ _)|];
    refine (proj1 (ended_state_spec _ _)).
Qed.

Lemma opened_step al (s : C) a t : stream_step al s (opened s a t).1.
Proof.
  unfold opened. destruct (_ <=? _); [apply tcp_finish_step|]. destruct (Session_check a); [|apply tcp_finish_step].
  destruct (_ || _); [apply stream_step_refl|]. destruct (_ =? 0); [apply tcp_finish_step|apply stream_step_refl].
Qed.
Lemma install_step al (s : C) a t : stream_step al s (install s a t).1.
Proof.
  unfold install. destruct (_ <=? _); [apply tcp_finish_step|]. destruct (is_err _); [apply tcp_finish_step|].
  destruct (_ || _); [apply tcp_finish_step|]. by apply stream_step_frame.
Qed.
Lemma relay_step al (s : C) a now later t : stream_step al s (relay s a now later t).
Proof.
  unfold relay. pose proof (opened_step al s a t) as S1. destruct (opened s a t) as [s1 [ms|e]]; [|done].
  eapply stream_step_trans; [|exact S1|]; [done|]. cbn [fst].
  assert (S2 : stream_step al s1 (start_relay s1 now later t).1).
  { unfold start_relay. destruct (_ || _); [apply stream_step_refl|]. destruct (_ <=? now); [apply stream_step_refl|].
    destruct (bool_decide _ || _); [apply stream_step_refl|]. destruct (negb _); [apply stream_step_refl|].
    destruct (Duplex_new _ _); by apply stream_step_frame. }
  destruct (start_relay s1 now later t) as [s2 [[]|cause]]; [done|].
  eapply stream_step_trans; [|exact S2|apply tcp_finish_step]. done.
Qed.
Lemma poll_step al (s : C) a env late : stream_step al s (TcpRelay_poll s a env late).1.1.
Proof.
  unfold TcpRelay_poll. set (s1 := if is_err _ then _ else _).
  assert (S1 : stream_step al s s1) by (unfold s1; destruct (is_err _); [apply tcp_finish_step|apply stream_step_refl]).
  eapply stream_step_trans; [|exact S1|]; [done|]. unfold poll_relay.
  destruct (terminal (cn_state s1)); [apply stream_step_refl|].
  destruct (cn_relay s1) as [r|]; [|apply finish_locked_step].
  destruct (Duplex_poll _ _ _) as [[[d w] l] p]. set (s2 := set_cn_relay _ _).
  assert (S2 : stream_step al s1 (if late then set_cn_cancelled s2 else s2)) by (destruct late; by apply stream_step_frame).
  destruct p as [|o]; [done|]. cbn [fst]. eapply stream_step_trans; [|exact S2|apply finish_locked_step]. done.
Qed.

Lemma conn_move_step (s : C) a m : own_conn_step m = true ->
  stream_step (is_ok (Session_check a)) s (conn_move s (under a m)).1.
Proof.
  intros Hm. destruct m as [f| |cause|next| |x|a0|a0 t|a0 now later t|a0 env late|now]; cbn [under conn_move fst own_conn_step] in *.
  - by apply stream_step_frame.
  - by apply stream_step_frame.
  - apply tcp_finish_step.
  - unfold tcp_transition. destruct (_ || _) eqn:Hb; [apply stream_step_refl|]. bool_hyps.
    constructor; cbn; try done; [congruence|]. unfold cn_state. cbn. set_solver.
  - unfold begin_flow. destruct (_ || _); [apply stream_step_refl|]. pose proof (stream_step_record (is_ok (Session_check a)) s FlowOpen) as S1.
    destruct (record_locked s FlowOpen) as [s1 [[]|e]]; [|done]. eapply stream_step_trans; [|exact S1|]; [done|]. by apply stream_step_frame.
  - unfold tcp_record. destruct (_ || _); [apply stream_step_refl|apply stream_step_record].
  - unfold tcp_commit_dispatch, commit_authority. destruct (Session_check a) eqn:Hs; [|apply stream_step_refl].
    destruct (_ || _) eqn:Hb; [apply stream_step_refl|]. bool_hyps. constructor; cbn; try done; [|by right].
    intros Ht. match goal with HR : cn_state s = Ready |- _ => by rewrite HR in Ht end.
  - apply install_step.
  - apply relay_step.
  - apply poll_step.
  - unfold watch. destruct (terminal _); [apply stream_step_refl|]. destruct (state_deadline s); [|apply stream_step_refl].
    destruct (_ <=? _); [apply finish_locked_step|apply stream_step_refl].
Qed.
End StreamSteps.



Section Evolution.
Context `{Base64} `{Urls} {F : Type} `{Observer F} `{!ObserverLaws F} {R : Type} `{RemoteContext R}.
Context (request_size : ExecuteRequest -> option N).
Abbreviation Ht := (Host F).
Abbreviation Cr := (Core F).
Abbreviation ops c := (core_operations c).
Abbreviation contexts c := (v_contexts (core_vault c)).

Definition core_alive (h : Ht) (c : Cr) : bool := is_ok (core_check h c).

Record core_step (cfg : Configuration) (alive : bool) (c c' : Cr) : Prop := {
  cs_id : core_id c' = core_id c;
  cs_options : core_options c' = core_options c;
  cs_expires : core_expires c' = core_expires c;
  cs_revoked : core_revoked c = true -> core_revoked c' = true;
  cs_cancelled : core_cancelled c = true -> core_cancelled c' = true;
  cs_items : cells_step (item_step alive) (item_born alive) (ops_items (ops c)) (ops_items (ops c'));
  cs_issuances : cells_step (issuance_step alive) (issuance_born alive) (ops_issuances (ops c)) (ops_issuances (ops c'));
  cs_streams : cells_step (stream_step alive) (stream_born alive cfg (core_options c)) (ops_streams (ops c)) (ops_streams (ops c'));
  cs_contexts : cells_step (binding_step alive) (binding_born alive) (contexts c) (contexts c') }.

#[local] Hint Extern 1 (cells_step _ _ ?m ?m) => apply cells_refl; auto with aap : aap.

Lemma core_step_refl cfg al c : core_step cfg al c c.
Proof. constructor; auto with aap. Qed.

Lemma core_step_trans cfg al al' c c1 c2 : (al' = true -> al = true) ->
  core_step cfg al c c1 -> core_step cfg al' c1 c2 -> core_step cfg al c c2.
Proof.
  intros Hal [A1 A2 A3 A4 A5 A6 A7 A8 A9] [B1 B2 B3 B4 B5 B6 B7 B8 B9]. rewrite A2 in B8.
  constructor; [congruence|congruence|congruence|auto|auto|..].
  - eapply cells_trans; [| | |exact A6|exact B6].
    + intros x y z. by apply item_step_trans.
    + intros i x y. by apply item_born_step.
    + intros i x [? ? E]. constructor; auto.
  - eapply cells_trans; [| | |exact A7|exact B7].
    + intros x y z. by apply issuance_step_trans.
    + intros i x y. by apply issuance_born_step.
    + intros i x [? ? ? E]. constructor; auto.
  - eapply cells_trans; [| | |exact A8|exact B8].
    + intros x y z. by apply stream_step_trans.
    + intros i x y. by apply stream_born_step.
    + intros i x [? ? ? ? ? E]. constructor; auto.
  - eapply cells_trans; [| | |exact A9|exact B9].
    + intros x y z. by apply binding_step_trans.
    + intros i x y. by apply binding_born_step.
    + intros i x [E ?]. split; auto.
Qed.

(** ** One component at a time *)

Lemma step_flags cfg al c r k : (core_revoked c = true -> r = true) -> (core_cancelled c = true -> k = true) ->
  core_step cfg al c (with_flags c r k).
Proof. intros Hr Hk. constructor; cbn; auto with aap. Qed.
Lemma step_items cfg al c n m : cells_step (item_step al) (item_born al) (ops_items (ops c)) m ->
  core_step cfg al c (with_operations c (with_items (with_bytes (ops c) n) m)).
Proof. intros Hm. constructor; cbn; auto with aap. Qed.
Lemma step_issuances cfg al c n m : cells_step (issuance_step al) (issuance_born al) (ops_issuances (ops c)) m ->
  core_step cfg al c (with_operations c (with_issuances (with_bytes (ops c) n) m)).
Proof. intros Hm. constructor; cbn; auto with aap. Qed.
Lemma step_streams cfg al c n m :
  cells_step (stream_step al) (stream_born al cfg (core_options c)) (ops_streams (ops c)) m ->
  core_step cfg al c (with_operations c (with_streams (with_bytes (ops c) n) m)).
Proof. intros Hm. constructor; cbn; auto with aap. Qed.
Lemma step_contexts cfg al c m : cells_step (binding_step al) (binding_born al) (contexts c) m ->
  core_step cfg al c (with_contexts c m).
Proof. intros Hm. constructor; cbn; auto with aap. Qed.
Lemma step_cursors cfg al c m : core_step cfg al c (with_cursors c m).
Proof. constructor; cbn; auto with aap. Qed.
Lemma step_pending cfg al c n l : core_step cfg al c (with_pending c n l).
Proof. constructor; cbn; auto with aap. Qed.

Lemma step_item cfg al c id o o' : ops_items (ops c) !! id = Some o -> item_step al o o' ->
  core_step cfg al c (with_operations c (with_items (ops c) (<[id := o']> (ops_items (ops c))))).
Proof.
  intros Ho Hs. apply (step_items cfg al c (ops_bytes (ops c))). apply cells_insert; [auto with aap|]. by rewrite Ho.
Qed.
Lemma step_issuance cfg al c id i i' : ops_issuances (ops c) !! id = Some i -> issuance_step al i i' ->
  core_step cfg al c (set_issuance c id i').
Proof.
  intros Ho Hs. apply (step_issuances cfg al c (ops_bytes (ops c))). apply cells_insert; [auto with aap|]. by rewrite Ho.
Qed.
Lemma step_stream cfg al c id s s' : ops_streams (ops c) !! id = Some s -> stream_step al s s' ->
  core_step cfg al c (with_operations c (with_streams (ops c) (<[id := s']> (ops_streams (ops c))))).
Proof.
  intros Ho Hs. apply (step_streams cfg al c (ops_bytes (ops c))). apply cells_insert; [auto with aap|]. by rewrite Ho.
Qed.
Lemma step_context cfg al c k b b' : contexts c !! k = Some b -> binding_step al b b' -> core_step cfg al c (set_context c k b').
Proof. intros Hb Hs. apply step_contexts, cells_insert; [auto with aap|]. by rewrite Hb. Qed.

(** ** The sections of a session *)

Lemma revoke_section_step cfg al c i f : revoke_sections !! i = Some f -> core_step cfg al c (f c).
Proof.
  intros Hi. apply list_elem_of_lookup_2 in Hi. unfold revoke_sections in Hi.
  repeat (apply elem_of_cons in Hi as [->|Hi]); [| | | | | |by apply elem_of_nil in Hi].
  - by apply step_flags.
  - by apply step_flags.
  - apply (step_items cfg al c (ops_bytes (ops c))), cells_fmap, op_cancel_step.
  - apply (step_issuances cfg al c (ops_bytes (ops c))), cells_fmap, issuance_cancel_step.
  - apply step_contexts, cells_fmap. auto with aap.
  - apply (step_streams cfg al c (ops_bytes (ops c))), cells_fmap. intros s. apply tcp_finish_step.
Qed.

Lemma check_context_step (h : Ht) cfg al c k : core_step cfg al c (check_context h c k).1.
Proof.
  unfold check_context. destruct (contexts c !! k) as [b|] eqn:Hb; [|apply core_step_refl].
  pose proof (Binding_check_step al b (host_now h)) as Hs. destruct (Binding_check b (host_now h)) as [b' r].
  by apply (step_context _ _ _ _ b).
Qed.
Lemma invalidate_item_step cfg al c item : core_step cfg al c (invalidate_item c item).
Proof. apply step_contexts, cells_fmap. intros b. case_bool_decide; auto with aap. Qed.
Lemma logout_step (h : Ht) cfg al c k : core_step cfg al c (logout_inner h c k).1.
Proof.
  unfold logout_inner. destruct (find_binding h c k) as [b|e] eqn:Hb; [|apply core_step_refl].
  unfold find_binding in Hb. apply bind_Ok in Hb as ([] & _ & Hb). destruct (negb _); [done|].
  apply ok_or_Ok in Hb. apply (step_context _ _ _ _ b); auto with aap.
Qed.
Lemma revalidate_end_step (h : Ht) cfg al c k w : core_step cfg al c (revalidate_end h c k w).1.
Proof.
  unfold revalidate_end. set (c1 := match contexts c !! k with Some _ => _ | None => _ end).
  assert (S1 : core_step cfg al c c1).
  { unfold c1. destruct (contexts c !! k); [|apply core_step_refl].
    destruct (custody_lost _); [apply invalidate_item_step|apply core_step_refl]. }
  destruct (_ ≫= _); [|done]. eapply core_step_trans; [|exact S1|apply check_context_step]. done.
Qed.
Lemma abandon_step cfg al c id : core_step cfg al c (abandon c id).
Proof.
  unfold abandon. destruct (ops_issuances (ops c) !! id) as [i|] eqn:Hi; [|apply core_step_refl].
  apply (step_issuance _ _ _ _ i); [done|]. apply issuance_cancel_step.
Qed.
Lemma reserve_step cfg al c n : core_step cfg al c (reserve_approval c n).1.
Proof.
  unfold reserve_approval. destruct (_ <=? _); [apply core_step_refl|]. destruct (checked_add _ _); [|apply core_step_refl].
  destruct (_ <=? _); [apply step_pending|apply core_step_refl].
Qed.
Lemma release_step cfg al c i : core_step cfg al c (release_approval c i).
Proof. unfold release_approval. destruct (_ !! i); [apply step_pending|apply core_step_refl]. Qed.

Lemma on_guard_step (h : Ht) cfg c id k g f :
  (forall o b, guard_step (with_shared g (mkShared (core_authority h c) o b)) (f o (with_shared g (mkShared (core_authority h c) o b)))) ->
  core_step cfg (core_alive h c) c (on_guard (R := R) h c id k g f).
Proof.
  intros Hf. unfold on_guard. destruct (ops_items (ops c) !! id) as [o|] eqn:Ho; [|apply core_step_refl].
  set (b := k ≫= _). destruct (Hf o b) as [G1 G2]. unfold guard_alive in G1, G2. cbn in G1, G2.
  fold (core_check h c) in G1, G2. fold (core_alive h c) in G1, G2.
  set (g' := f o _) in *. pose proof (step_item cfg (core_alive h c) c id o (guard_op g') Ho G1) as S1.
  destruct k as [k|]; [|done]. cbn in b.
  destruct (binding (shared g')) as [b'|]; [|done]. destruct b as [b0|] eqn:Hb; [|done].
  eapply core_step_trans; [|exact S1|]; [exact (fun x => x)|]. by apply (step_context _ _ _ _ b0).
Qed.

(** ** The sections of a host *)

(** One session evolves, and the broker's counter. *)
Definition evolves (h : Ht) (a : nat) (c : Cr) (h' : Ht) : Prop :=
  exists c' n, h' = with_core (with_host_bytes h n) a c' /\ core_step (host_configuration h) (core_alive h c) c c'.

Lemma evolves_core (h : Ht) a c c' : core_step (host_configuration h) (core_alive h c) c c' -> evolves h a c (with_core h a c').
Proof. intros Hs. exists c', (host_bytes h). split; [|done]. by destruct h. Qed.
Lemma evolves_refl (h : Ht) a c : host_cores h !! a = Some c -> evolves h a c h.
Proof.
  intros Ha. exists c, (host_bytes h). split; [|apply core_step_refl].
  destruct h. unfold with_core, with_cores, with_host_bytes. cbn in *. by rewrite insert_id.
Qed.

Lemma free_name {A} (m : gmap string A) i : bool_decide (is_Some (m !! i)) = false -> m !! i = None.
Proof. rewrite bool_decide_eq_false. apply eq_None_not_Some. Qed.

(** A request is tracked under a free name and a reservation, or nothing happens. *)
Lemma begin_execute_cases (h : Ht) a (c : Cr) early (flow : Result F) r : (begin_execute request_size h a c early flow r).1 = h
  \/ exists n t, 0 <= n /\ ops_issuances (ops c) !! request_id r = None /\ ops_streams (ops c) !! request_id r = None
       /\ ops_items (ops c) !! request_id r = None /\ full (ops c) n = false /\ reserve_bytes h n = Some t
       /\ (begin_execute request_size h a c early flow r).1
          = with_core (with_host_bytes h t) a (with_operations c (with_items (with_bytes (ops c) (ops_bytes (ops c) + n))
              (<[request_id r := mkOperation r (mkStatus (request_id r) Received None) false]> (ops_items (ops c))))).
Proof.
  unfold begin_execute. destruct early; [|by left]. destruct (negb _); [by left|]. destruct flow; [|by left].
  unfold track_operation. destruct (_ || _) eqn:Hb; [by left|]. apply orb_false_iff in Hb as [K1%free_name K2%free_name].
  destruct (ops_items (ops c) !! request_id r) as [o|] eqn:Ho; [by left|]. destruct (large_request r); [by left|].
  destruct (request_size r) as [size|]; [|by left]. destruct (full _ _) eqn:Hf; [by left|].
  destruct (reserve_bytes _ _) as [t|] eqn:Ht; [|by left].
  right. exists (Z.of_N size + 512), t. split_and!; (done || lia).
Qed.
Lemma begin_issue_cases (h : Ht) a (c : Cr) early r : (begin_issue h a c early r).1 = h
  \/ exists n t, 0 <= n /\ ops_items (ops c) !! get_login_request_id r = None
       /\ ops_streams (ops c) !! get_login_request_id r = None /\ ops_issuances (ops c) !! get_login_request_id r = None
       /\ full (ops c) n = false /\ reserve_bytes h n = Some t
       /\ (begin_issue h a c early r).1
          = with_core (with_host_bytes h t) a (with_operations c (with_issuances (with_bytes (ops c) (ops_bytes (ops c) + n))
              (<[get_login_request_id r := mkIssuance r (mkStatus (get_login_request_id r) Received None) None false]>
                 (ops_issuances (ops c))))).
Proof.
  unfold begin_issue. destruct early; [|by left]. destruct (negb _ || _ || _); [by left|].
  destruct (_ || _) eqn:Hb; [by left|]. apply orb_false_iff in Hb as [K1%free_name K2%free_name].
  destruct (ops_issuances (ops c) !! get_login_request_id r) as [o|] eqn:Ho; [by left|].
  destruct (full _ _) eqn:Hf; [by left|]. destruct (reserve_bytes _ _) as [t|] eqn:Ht; [|by left].
  right. eexists _, t. split_and!; [|done..].
  pose proof (slen_nonneg (get_login_uri r)). pose proof (slen_nonneg (get_login_item_id r)). lia.
Qed.

Lemma granted_profile_Some (h : Ht) c id p : granted_profile h c id = Some p ->
  p ∈ tcp_profiles (host_configuration h) /\ tcp_id p ∈ o_resources (core_options c) /\ tcp_id p = id.
Proof. intros [Hp Hb]%find_first_Some. by bool_hyps. Qed.

Lemma admit_tcp_cases (h : Ht) a (c : Cr) early (flow : Result F) r : (admit_tcp h a c early flow r).1 = h
  \/ exists n t p required f, 0 <= n /\ ops_items (ops c) !! open_request_id r = None
       /\ ops_issuances (ops c) !! open_request_id r = None /\ ops_streams (ops c) !! open_request_id r = None
       /\ full (ops c) n = false /\ reserve_bytes h n = Some t /\ granted_profile h c (open_resource r) = Some p
       /\ attached c < 16 /\ all_attached h < 128
       /\ (admit_tcp h a c early flow r).1
          = with_core (with_host_bytes h t) a (with_operations c (with_streams (with_bytes (ops c) (ops_bytes (ops c) + n))
              (<[open_request_id r := Conn_new r p required f]> (ops_streams (ops c))))).
Proof.
  unfold admit_tcp. destruct (_ ≫= _); [|by left]. destruct (_ || _) eqn:Hb; [by left|].
  apply orb_false_iff in Hb as [K1%free_name K2%free_name].
  destruct (ops_streams (ops c) !! open_request_id r) as [s|] eqn:Hs; [by left|].
  destruct (granted_profile _ _ _) as [p|] eqn:Hp; [|by left].
  destruct (full _ _) eqn:Hf; [by left|]. destruct ((16 <=? attached c) || _) eqn:Hat; [by left|].
  destruct (_ ≫= _) as [f|]; [|by left]. destruct (reserve_bytes _ _) as [t|] eqn:Ht; [|by left].
  right. bool_hyps. eexists _, t, p, _, f. split_and!; [|done..].
  pose proof (slen_nonneg (open_request_id r)). pose proof (slen_nonneg (tcp_id p)). pose proof (slen_nonneg (endpoint p)). lia.
Qed.

Lemma begin_execute_evolves h a c early (flow : Result F) r : host_cores h !! a = Some c ->
  evolves h a c (begin_execute request_size h a c early flow r).1.
Proof.
  intros Ha. destruct (begin_execute_cases h a c early flow r) as [->|(n & t & _ & _ & _ & Ho & _ & _ & ->)]; [by apply evolves_refl|].
  eexists _, _. split; [done|]. apply step_items, cells_insert; [auto with aap|]. rewrite Ho.
  by constructor; cbn; [| |set_solver].
Qed.
Lemma begin_issue_evolves h a c early r : host_cores h !! a = Some c -> evolves h a c (begin_issue h a c early r).1.
Proof.
  intros Ha. destruct (begin_issue_cases h a c early r) as [->|(n & t & _ & _ & _ & Ho & _ & _ & ->)]; [by apply evolves_refl|].
  eexists _, _. split; [done|]. apply step_issuances, cells_insert; [auto with aap|]. rewrite Ho.
  constructor; cbn; [done|done| |done]. split; cbn; [split; [done|by intros [? [=]]]|]. split; [done|by intros [? [=]]].
Qed.
Lemma admit_tcp_evolves h a c early (flow : Result F) r : host_cores h !! a = Some c ->
  evolves h a c (admit_tcp h a c early flow r).1.
Proof.
  intros Ha. destruct (admit_tcp_cases h a c early flow r)
    as [->|(n & t & p & required & f & _ & _ & _ & Hs & _ & _ & Hp & _ & _ & ->)]; [by apply evolves_refl|].
  eexists _, _. split; [done|]. apply step_streams, cells_insert; [auto with aap|]. rewrite Hs.
  apply granted_profile_Some in Hp as (P1 & P2 & P3). by constructor.
Qed.

Lemma refused_state_ends c : terminal (refused_state c) = true /\ refused_state c <> Completed.
Proof. by destruct c. Qed.

Lemma publish_evolves h a c id prepared : host_cores h !! a = Some c -> evolves h a c (publish h a c id prepared).1.
Proof.
  intros Ha. unfold publish. destruct (ops_issuances (ops c) !! id) as [i|] eqn:Hi; [|by apply evolves_refl].
  destruct (terminal _) eqn:Ht; [by apply evolves_refl|].
  destruct (prepared ≫= _) as [b|e] eqn:Hp; apply evolves_core.
  - apply bind_Ok in Hp as (b0 & _ & Hp). apply publish_binding_Ok in Hp as (Hc & -> & Hb & _).
    assert (Hal : core_alive h c = true) by (unfold core_alive; by rewrite Hc).
    apply (core_step_trans _ _ (core_alive h c) _ (with_contexts c (<[b_id b0 := b0]> (contexts c)))); [done| |].
    + apply step_contexts, cells_insert; [auto with aap|]. destruct (contexts c !! b_id b0); [right; right; by split|]. split; [done|congruence].
    + apply (step_issuance _ _ _ _ i); [done|]. apply issuance_end_step; [done|done| |done].
      split; [intros _; by exists (b_id b0)|done].
  - apply (step_issuance _ _ _ _ i); [done|]. destruct (refused_state_ends (code e)) as [R1 R2].
    apply issuance_end_step; [done|done| |done]. split; [done|by intros [k [=]]].
Qed.

Lemma cancel_evolves h a c id : host_cores h !! a = Some c -> evolves h a c (cancel h a c id).1.
Proof.
  intros Ha. unfold cancel. destruct (core_check h c); [|by apply evolves_refl].
  destruct (ops_streams (ops c) !! id) as [s|] eqn:Hs; [|destruct (ops_issuances (ops c) !! id) as [i|] eqn:Hi;
    [|destruct (ops_items (ops c) !! id) as [o|] eqn:Ho; [|by apply evolves_refl]]]; apply evolves_core.
  - apply (step_stream _ _ _ _ s); [done|apply tcp_finish_step].
  - apply (step_issuance _ _ _ _ i); [done|apply issuance_cancel_step].
  - apply (step_item _ _ _ _ o); [done|apply op_cancel_step].
Qed.

Lemma search_evolves h a c early r random : host_cores h !! a = Some c -> evolves h a c (search_inner h a c early r random).1.
Proof.
  intros Ha. unfold search_inner. destruct (_ ≫= _) as [[t offset]|e]; [|by apply evolves_refl].
  destruct (_ <? _); [|by apply evolves_refl]. destruct (next_page _ _ _) as [m [id|e]]; [|by apply evolves_refl].
  apply evolves_core, step_cursors.
Qed.

Lemma core_move_evolves h a c m : host_cores h !! a = Some c -> evolves h a c (core_move (R := R) request_size h a c m).
Proof.
  intros Ha. destruct m as [early flow r|early flow r|early r|id prepared|id|id|n|i|early r random|k|item|k|id k g m|id k g|id m];
    cbn [core_move].
  - by apply begin_execute_evolves.
  - by apply admit_tcp_evolves.
  - by apply begin_issue_evolves.
  - by apply publish_evolves.
  - apply evolves_core, abandon_step.
  - by apply cancel_evolves.
  - apply evolves_core, reserve_step.
  - apply evolves_core, release_step.
  - by apply search_evolves.
  - apply evolves_core, check_context_step.
  - apply evolves_core, invalidate_item_step.
  - apply evolves_core, logout_step.
  - apply evolves_core, on_guard_step. intros o b. destruct (own_step o m) eqn:Hm; [by apply do_move_step|by apply guard_step_shared].
  - apply evolves_core, on_guard_step. intros o b. apply guard_drop_step.
  - destruct (ops_streams (ops c) !! id) as [s|] eqn:Hs; [|by apply evolves_refl].
    destruct (own_conn_step m) eqn:Hm; [|by apply evolves_refl].
    apply evolves_core, (step_stream _ _ _ _ s); [done|]. by apply conn_move_step.
Qed.

(** ** Hosts *)

Record host_step (h h' : Ht) : Prop := {
  hs_configuration : host_configuration h' = host_configuration h;
  hs_closed : host_closed h = true -> host_closed h' = true;
  hs_now : host_now h <= host_now h';
  hs_next : (host_next h <= host_next h')%nat;
  hs_sealed : host_closed h = true -> host_next h' = host_next h;
  hs_cores a c' : host_cores h' !! a = Some c' -> (a < host_next h)%nat ->
    exists c, host_cores h !! a = Some c /\ core_step (host_configuration h) (core_alive h c) c c' }.

Lemma core_alive_step h h1 c c1 : host_step h h1 -> core_step (host_configuration h) (core_alive h c) c c1 ->
  core_alive h1 c1 = true -> core_alive h c = true.
Proof.
  intros Hh Hc. unfold core_alive, core_check, Session_check, core_authority. cbn.
  destruct (host_closed h) eqn:E1; [by rewrite (hs_closed _ _ Hh E1)|].
  destruct (core_revoked c) eqn:E2; [by rewrite (cs_revoked _ _ _ _ Hc E2), orb_true_r|].
  destruct (core_cancelled c) eqn:E3; [by rewrite (cs_cancelled _ _ _ _ Hc E3), !orb_true_r|].
  rewrite (cs_expires _ _ _ _ Hc). cbn [orb]. destruct (Z.leb_spec (core_expires c) (host_now h)); [|done].
  pose proof (hs_now _ _ Hh). destruct (Z.leb_spec (core_expires c) (host_now h1)); [by rewrite orb_true_r|lia].
Qed.

Lemma host_step_refl h : host_step h h.
Proof. constructor; try done. intros a c' Hc _. exists c'. split; [done|apply core_step_refl]. Qed.
Lemma host_step_trans h h1 h2 : host_step h h1 -> host_step h1 h2 -> host_step h h2.
Proof.
  intros HA HB. pose proof HA as [A1 A2 A3 A4 A5 A6]. pose proof HB as [B1 B2 B3 B4 B5 B6].
  constructor; [congruence|auto|lia|lia|intros Hc; rewrite B5 by auto; auto|].
  intros a c' Hc Ha. destruct (B6 a c' Hc) as (c1 & E1 & S1); [lia|]. destruct (A6 a c1 E1 Ha) as (c & E & S0).
  exists c. split; [done|]. rewrite A1 in S1. eapply core_step_trans; [|exact S0|exact S1].
  by eapply core_alive_step.
Qed.

Lemma evolves_host h a c h' : host_cores h !! a = Some c -> evolves h a c h' -> host_step h h'.
Proof.
  intros Ha (c' & n & -> & Hs). constructor; cbn; try done. intros b d Hd _.
  destruct (decide (a = b)) as [<-|Hn].
  - rewrite lookup_insert_eq in Hd. simplify_eq. by exists c.
  - rewrite lookup_insert_ne in Hd by done. exists d. split; [done|apply core_step_refl].
Qed.

(** Every move of a broker lets its sessions evolve. *)
Lemma move_step h m : host_step h (broker_move (R := R) request_size h m).
Proof.
  destruct m as [t|early o random| |a|a i|a m]; cbn [broker_move].
  - constructor; cbn; try done; try lia; try congruence. intros a c' Hc _. exists c'. split; [done|apply core_step_refl].
  - unfold create_session. destruct early; [apply host_step_refl|]. destruct (negb _); [apply host_step_refl|].
    unfold publish_session. destruct (host_closed h) eqn:Hcl; [apply host_step_refl|].
    cbn [host_configuration host_closed host_bytes host_cores host_next host_now].
    destruct (64 <=? _); [|destruct random as [id|]].
    + constructor; cbn; try done; try lia; try congruence. intros a c' Hc _. exists c'. split; [done|apply core_step_refl].
    + constructor; cbn; try done; try lia; try congruence. intros a c' Hc Ha. rewrite lookup_insert_ne in Hc by lia.
      exists c'. split; [done|apply core_step_refl].
    + constructor; cbn; try done; try lia; try congruence. intros a c' Hc _. exists c'. split; [done|apply core_step_refl].
  - constructor; cbn; try done; try lia; try congruence. intros a c' Hc _. exists c'. split; [done|apply core_step_refl].
  - unfold drop_core. destruct (host_cores h !! a) as [c|]; [|apply host_step_refl].
    constructor; cbn; try done; try lia; try congruence. intros b d Hd _. apply lookup_delete_Some in Hd as [_ Hd].
    exists d. split; [done|apply core_step_refl].
  - destruct (revoke_sections !! i) as [f|] eqn:Hi; [|apply host_step_refl].
    unfold on_core. destruct (host_cores h !! a) as [c|] eqn:Ha; [|apply host_step_refl].
    eapply evolves_host; [exact Ha|]. apply evolves_core. by eapply revoke_section_step.
  - destruct (host_cores h !! a) as [c|] eqn:Ha; [|apply host_step_refl].
    eapply evolves_host; [exact Ha|]. by apply core_move_evolves.
Qed.

Lemma run_step h ms : host_step h (run (R := R) request_size h ms).
Proof.
  revert h. induction ms as [|m ms IH]; intros h; [apply host_step_refl|].
  eapply host_step_trans; [apply move_step|apply IH].
Qed.
End Evolution.
