(* ===== verification/Ledger.v ===== *)
(** * The broker's ledger

    What a host and its sessions keep count of: tracked bytes and entries, permits,
    contexts, cursors and approval reservations, and the registry; and that every move
    of a broker keeps the counts right. *)
From S2P Require Import Prelude Protocol Ids Json Tools Address Catalog Profile Observe.
From S2P Require Import Secrets Redaction Cookies Flow Operation Guard Lifecycle.
From S2P Require Import Endpoint TcpPolicy.
From S2P Require Import Stream Relay TcpState Config Session Vault Broker Evolution.

Lemma map_sum_le {K A} `{Countable K} (f : A -> Z) (m m' : gmap K A) :
  (forall i, match m !! i, m' !! i with Some x, Some y => f y <= f x | None, None => True | _, _ => False end) ->
  map_sum f m' <= map_sum f m.
Proof.
  revert m'. induction m as [|i x m Hi IH] using map_ind; intros m' Hm.
  - assert (m' = ∅) as ->; [|done]. apply map_empty. intros i. specialize (Hm i). rewrite lookup_empty in Hm. by destruct (m' !! i).
  - pose proof (Hm i) as Hx. rewrite lookup_insert_eq in Hx. destruct (m' !! i) as [y|] eqn:Hy; [|done].
    rewrite map_sum_insert, (map_sum_delete f m' i y) by done.
    assert (map_sum f (delete i m') <= map_sum f m); [|lia]. apply IH. intros j. destruct (decide (i = j)) as [<-|Hn].
    + by rewrite Hi, lookup_delete_eq.
    + specialize (Hm j). rewrite lookup_insert_ne in Hm by done. by rewrite lookup_delete_ne.
Qed.

Section Ledger.
Context `{Base64} `{Urls} {F : Type} `{Observer F} `{!ObserverLaws F} {R : Type} `{RemoteContext R}.
Context (request_size : ExecuteRequest -> option N).
Abbreviation Ht := (Host F).
Abbreviation Cr := (Core F).
Abbreviation ops c := (core_operations c).
Abbreviation contexts c := (v_contexts (core_vault c)).
Abbreviation cursors c := (v_cursors (core_vault c)).

(** ** One session *)

(** Every name is filed once, under what it names, and completed issuances name
    contexts. *)
Record filed (cfg : Configuration) (c : Cr) : Prop := {
  fl_items id o : ops_items (ops c) !! id = Some o -> item_born true id o;
  fl_issuances id i : ops_issuances (ops c) !! id = Some i -> issuance_born true id i;
  fl_streams id s : ops_streams (ops c) !! id = Some s -> stream_born true cfg (core_options c) id s;
  fl_contexts k b : contexts c !! k = Some b -> b_cancelled b = true -> bare (b_state b) }.

Record counted_ok (c : Cr) : Prop := {
  ct_bytes : 0 <= ops_bytes (ops c) <= session_bytes;
  ct_len : ops_len (ops c) <= 4096;
  ct_items_issuances : dom (ops_items (ops c)) ## dom (ops_issuances (ops c));
  ct_items_streams : dom (ops_items (ops c)) ## dom (ops_streams (ops c));
  ct_issuances_streams : dom (ops_issuances (ops c)) ## dom (ops_streams (ops c));
  ct_contexts : Z.of_nat (size (contexts c)) <= 16;
  ct_cursors : Z.of_nat (size (cursors c)) <= 64;
  ct_published id i k : ops_issuances (ops c) !! id = Some i -> i_result i = Some (Ok k) -> is_Some (contexts c !! k);
  ct_reservations : len (core_reservations c) <= 16;
  ct_reserved : Forall (fun n => 0 <= n) (core_reservations c);
  ct_pending : core_pending_bytes c = foldr Z.add 0 (core_reservations c);
  ct_approval : core_pending_bytes c <= approval_bytes;
  ct_attached : attached c <= 16 }.

Lemma filed_step cfg al (c c' : Cr) : core_step cfg al c c' -> filed cfg c -> filed cfg c'.
Proof.
  intros [A1 A2 A3 A4 A5 A6 A7 A8 A9] [B1 B2 B3 B4]. constructor.
  - intros id o Ho. specialize (A6 id). rewrite Ho in A6. destruct (_ !! id) as [o0|] eqn:Ho0.
    + by eapply item_born_step; [| |exact A6]; [done|apply B1].
    + destruct A6. by constructor.
  - intros id i Hi. specialize (A7 id). rewrite Hi in A7. destruct (_ !! id) as [i0|] eqn:Hi0.
    + by eapply issuance_born_step; [| |exact A7]; [done|apply B2].
    + destruct A7. by constructor.
  - intros id s Hs. specialize (A8 id). rewrite Hs in A8. rewrite A2. destruct (_ !! id) as [s0|] eqn:Hs0.
    + by eapply stream_born_step; [| |exact A8]; [done|apply B3].
    + destruct A8. by constructor.
  - intros k b Hb. specialize (A9 k). rewrite Hb in A9. destruct (_ !! k) as [b0|] eqn:Hb0.
    + apply (binding_step_bare _ _ _ A9). by apply (B4 k).
    + by destruct A9.
Qed.

(** Changes that leave every count as it is. *)
Record same_counts (c c' : Cr) : Prop := {
  sc_bytes : ops_bytes (ops c') = ops_bytes (ops c);
  sc_items : dom (ops_items (ops c')) = dom (ops_items (ops c));
  sc_issuances : dom (ops_issuances (ops c')) = dom (ops_issuances (ops c));
  sc_streams : dom (ops_streams (ops c')) = dom (ops_streams (ops c));
  sc_contexts : dom (contexts c') = dom (contexts c);
  sc_cursors : cursors c' = cursors c;
  sc_results id i k : ops_issuances (ops c') !! id = Some i -> i_result i = Some (Ok k) ->
    exists i0, ops_issuances (ops c) !! id = Some i0 /\ i_result i0 = Some (Ok k);
  sc_pending : core_pending_bytes c' = core_pending_bytes c;
  sc_reservations : core_reservations c' = core_reservations c }.

Lemma ops_len_dom (o : Operations F) : ops_len o =
  Z.of_nat (size (dom (ops_items o))) + Z.of_nat (size (dom (ops_issuances o))) + Z.of_nat (size (dom (ops_streams o))).
Proof. unfold ops_len. by rewrite !size_dom. Qed.

(** Attachments are only given back. *)
Lemma attached_step cfg al (c c' : Cr) : core_step cfg al c c' -> dom (ops_streams (ops c')) = dom (ops_streams (ops c)) ->
  attached c' <= attached c.
Proof.
  intros Hs Hd. apply map_sum_le. intros i. pose proof (cs_streams _ _ _ _ Hs i) as Hi.
  destruct (ops_streams (ops c) !! i) as [s|] eqn:E, (ops_streams (ops c') !! i) as [s'|] eqn:E'; try done.
  - pose proof (ts_attachments _ _ _ Hi) as Ha. destruct (cn_attachments s'); [by rewrite Ha|]. by destruct (cn_attachments s).
  - apply not_elem_of_dom in E. apply E. rewrite <-Hd. apply elem_of_dom. by exists s'.
Qed.

Lemma counted_same cfg al (c c' : Cr) : core_step cfg al c c' -> same_counts c c' -> counted_ok c -> counted_ok c'.
Proof.
  intros Hs [S1 S2 S3 S4 S5 S6 S7 S8 S9] [B1 B2 B3 B4 B5 B6 B7 B8 B9 B10 B11 B12 B13]. constructor.
  - by rewrite S1.
  - by rewrite ops_len_dom, S2, S3, S4, <-ops_len_dom.
  - by rewrite S2, S3.
  - by rewrite S2, S4.
  - by rewrite S3, S4.
  - by rewrite <-size_dom, S5, size_dom.
  - by rewrite S6.
  - intros id i k Hi Hr. destruct (S7 _ _ _ Hi Hr) as (i0 & E0 & R0). pose proof (B8 _ _ _ E0 R0) as Hk.
    apply elem_of_dom. rewrite S5. by apply elem_of_dom.
  - by rewrite S9.
  - by rewrite S9.
  - by rewrite S8, S9.
  - by rewrite S8.
  - pose proof (attached_step _ _ _ _ Hs S4). lia.
Qed.

(** ** Which sections leave the counts *)

Lemma same_counts_refl (c : Cr) : same_counts c c.
Proof. constructor; try done. intros id i k Hi Hr. by exists i. Qed.
Lemma same_counts_trans (c c1 c2 : Cr) : same_counts c c1 -> same_counts c1 c2 -> same_counts c c2.
Proof.
  intros [A1 A2 A3 A4 A5 A6 A7 A8 A9] [B1 B2 B3 B4 B5 B6 B7 B8 B9]. constructor; try congruence.
  intros id i k Hi Hr. destruct (B7 _ _ _ Hi Hr) as (i1 & E1 & R1). by apply (A7 _ _ _ E1).
Qed.
Lemma same_items (c : Cr) m : dom m = dom (ops_items (ops c)) -> same_counts c (with_operations c (with_items (ops c) m)).
Proof. intros Hm. constructor; try done. intros id i k Hi Hr. by exists i. Qed.
Lemma same_issuances (c : Cr) m : dom m = dom (ops_issuances (ops c)) ->
  (forall id i k, m !! id = Some i -> i_result i = Some (Ok k) ->
     exists i0, ops_issuances (ops c) !! id = Some i0 /\ i_result i0 = Some (Ok k)) ->
  same_counts c (with_operations c (with_issuances (ops c) m)).
Proof. intros Hm Hr. by constructor. Qed.
Lemma same_streams (c : Cr) m : dom m = dom (ops_streams (ops c)) -> same_counts c (with_operations c (with_streams (ops c) m)).
Proof. intros Hm. constructor; try done. intros id i k Hi Hr. by exists i. Qed.
Lemma same_contexts (c : Cr) m : dom m = dom (contexts c) -> same_counts c (with_contexts c m).
Proof. intros Hm. constructor; try done. intros id i k Hi Hr. by exists i. Qed.

Lemma same_context (c : Cr) k b b' : contexts c !! k = Some b -> same_counts c (set_context c k b').
Proof. intros Hb. apply same_contexts. by apply dom_insert_lookup_L; exists b. Qed.
Lemma same_issuance (c : Cr) id i i' : ops_issuances (ops c) !! id = Some i ->
  (forall k, i_result i' = Some (Ok k) -> i_result i = Some (Ok k)) -> same_counts c (set_issuance c id i').
Proof.
  intros Hi Hr. apply same_issuances; [by apply dom_insert_lookup_L; exists i|]. intros j x k Hx Hk.
  destruct (decide (id = j)) as [<-|Hn].
  - rewrite lookup_insert_eq in Hx. simplify_eq. exists i. auto.
  - rewrite lookup_insert_ne in Hx by done. by exists x.
Qed.

Lemma cancel_result i k : i_result (issuance_cancel i) = Some (Ok k) -> i_result i = Some (Ok k).
Proof. unfold issuance_cancel. by destruct (terminal _). Qed.

Lemma revoke_section_same (c : Cr) i f : revoke_sections !! i = Some f -> same_counts c (f c).
Proof.
  intros Hi. apply list_elem_of_lookup_2 in Hi. unfold revoke_sections in Hi.
  repeat (apply elem_of_cons in Hi as [->|Hi]); [| | | | | |by apply elem_of_nil in Hi].
  - constructor; try done. intros id x k Hx Hr. by exists x.
  - constructor; try done. intros id x k Hx Hr. by exists x.
  - apply same_items, dom_fmap_L.
  - apply same_issuances; [apply dom_fmap_L|]. intros id x k Hx Hr.
    apply lookup_fmap_Some in Hx as (y & <- & Hy). exists y. split; [done|]. by apply cancel_result.
  - apply same_contexts, dom_fmap_L.
  - apply same_streams, dom_fmap_L.
Qed.
Lemma check_context_same (h : Ht) c k : same_counts c (check_context h c k).1.
Proof.
  unfold check_context. destruct (contexts c !! k) as [b|] eqn:Hb; [|apply same_counts_refl].
  destruct (Binding_check b (host_now h)) as [b' r]. by eapply same_context.
Qed.
Lemma logout_same (h : Ht) c k : same_counts c (logout_inner h c k).1.
Proof.
  unfold logout_inner. destruct (find_binding h c k) as [b|e] eqn:Hb; [|apply same_counts_refl].
  unfold find_binding in Hb. apply bind_Ok in Hb as ([] & _ & Hb). destruct (negb _); [done|].
  apply ok_or_Ok in Hb. by eapply same_context.
Qed.
Lemma abandon_same (c : Cr) id : same_counts c (abandon c id).
Proof.
  unfold abandon. destruct (_ !! id) as [i|] eqn:Hi; [|apply same_counts_refl].
  eapply same_issuance; [done|]. intros k. apply cancel_result.
Qed.
Lemma on_guard_same (h : Ht) c id k g f :
  (forall o b, guard_step (with_shared g (mkShared (core_authority h c) o b)) (f o (with_shared g (mkShared (core_authority h c) o b)))) ->
  same_counts c (on_guard (R := R) h c id k g f).
Proof.
  intros Hf. unfold on_guard. destruct (ops_items (ops c) !! id) as [o|] eqn:Ho; [|apply same_counts_refl].
  set (b := k ≫= _). destruct (Hf o b) as [_ G2]. set (g' := f o _) in *. cbn in G2.
  set (c1 := with_operations c _).
  assert (S1 : same_counts c c1) by (apply same_items, dom_insert_lookup_L; by exists o).
  destruct k as [k|]; [|done]. cbn in b. destruct (binding (shared g')) as [b'|]; [|done].
  destruct b as [b0|] eqn:Hb; [|done]. eapply same_counts_trans; [exact S1|]. by apply (same_context c1 k b0).
Qed.

(** ** Sections that count *)

Lemma full_false (o : Operations F) n : full o n = false -> ops_len o < 4096 /\ ops_bytes o + n <= session_bytes.
Proof. unfold full. intros Hf. bool_hyps. lia. Qed.
Lemma reserve_bytes_Some (h : Ht) n t : reserve_bytes h n = Some t -> t = host_bytes h + n /\ t <= broker_bytes.
Proof.
  unfold reserve_bytes. destruct (checked_add _ _) as [k|] eqn:E; [|done]. apply checked_add_Some in E as [-> _].
  destruct (_ <=? _) eqn:E; [|done]. intros [= <-]. by bool_hyps.
Qed.
Lemma size_insert_new {A} (m : gmap string A) i x : m !! i = None -> Z.of_nat (size (<[i := x]> m)) = Z.of_nat (size m) + 1.
Proof. intros Hi. rewrite map_size_insert_None by done. lia. Qed.
Lemma size_insert_old {A} (m : gmap string A) i x y : m !! i = Some y -> size (<[i := x]> m) = size m.
Proof. intros Hi. rewrite map_size_insert, Hi. done. Qed.

Lemma counted_item (c : Cr) id o n : counted_ok c -> 0 <= n -> full (ops c) n = false ->
  ops_items (ops c) !! id = None -> ops_issuances (ops c) !! id = None -> ops_streams (ops c) !! id = None ->
  counted_ok (with_operations c (with_items (with_bytes (ops c) (ops_bytes (ops c) + n)) (<[id := o]> (ops_items (ops c))))).
Proof.
  intros [B1 B2 B3 B4 B5 B6 B7 B8 B9 B10 B11 B12 B13] Hn [L1 L2]%full_false K1 K2%not_elem_of_dom K3%not_elem_of_dom. constructor; cbn; try done.
  - lia.
  - unfold ops_len in *. cbn. rewrite size_insert_new by done. lia.
  - rewrite dom_insert_L. set_solver.
  - rewrite dom_insert_L. set_solver.
Qed.
Lemma counted_issuance (c : Cr) id i n : counted_ok c -> 0 <= n -> full (ops c) n = false -> i_result i = None ->
  ops_issuances (ops c) !! id = None -> ops_items (ops c) !! id = None -> ops_streams (ops c) !! id = None ->
  counted_ok (with_operations c (with_issuances (with_bytes (ops c) (ops_bytes (ops c) + n)) (<[id := i]> (ops_issuances (ops c))))).
Proof.
  intros [B1 B2 B3 B4 B5 B6 B7 B8 B9 B10 B11 B12 B13] Hn [L1 L2]%full_false Hi K1 K2%not_elem_of_dom K3%not_elem_of_dom. constructor; cbn; try done.
  - lia.
  - unfold ops_len in *. cbn. rewrite size_insert_new by done. lia.
  - rewrite dom_insert_L. set_solver.
  - rewrite dom_insert_L. set_solver.
  - intros j x k Hx Hk. destruct (decide (id = j)) as [<-|Hj].
    + rewrite lookup_insert_eq in Hx. congruence.
    + rewrite lookup_insert_ne in Hx by done. by eapply B8.
Qed.
Lemma counted_stream (c : Cr) id s n : counted_ok c -> 0 <= n -> full (ops c) n = false -> attached c < 16 ->
  ops_streams (ops c) !! id = None -> ops_items (ops c) !! id = None -> ops_issuances (ops c) !! id = None ->
  let c' := with_operations c (with_streams (with_bytes (ops c) (ops_bytes (ops c) + n)) (<[id := s]> (ops_streams (ops c)))) in
  counted_ok c' /\ attached c' <= attached c + 1.
Proof.
  intros [B1 B2 B3 B4 B5 B6 B7 B8 B9 B10 B11 B12 B13] Hn [L1 L2]%full_false Ha K1 K2%not_elem_of_dom K3%not_elem_of_dom. cbn zeta.
  set (c' := with_operations c _). assert (Hat : attached c' <= attached c + 1).
  { unfold attached. cbn. rewrite map_sum_insert by done. destruct (cn_attachments s); lia. }
  split; [|done]. constructor; cbn; try done.
  - lia.
  - unfold ops_len in *. cbn. rewrite size_insert_new by done. lia.
  - rewrite dom_insert_L. set_solver.
  - rewrite dom_insert_L. set_solver.
  - lia.
Qed.

(** ** The host *)

Record host_ok (h : Ht) : Prop := {
  hk_core a c : host_cores h !! a = Some c ->
    filed (host_configuration h) c /\ counted_ok c /\ valid_options (host_configuration h) (core_options c) = true;
  hk_bytes : host_bytes h = map_sum (fun c => ops_bytes (ops c)) (host_cores h);
  hk_bound : host_bytes h <= broker_bytes;
  hk_sessions : Z.of_nat (size (host_sessions h)) <= 64;
  hk_registered a c : host_cores h !! a = Some c -> host_sessions h !! core_id c = Some a;
  hk_addresses a c : host_cores h !! a = Some c -> (a < host_next h)%nat;
  hk_attached : all_attached h <= 128 }.

(** What a section does to the ledger. *)
Record accounts (h : Ht) (c c' : Cr) (n : Z) : Prop := {
  ac_step : core_step (host_configuration h) (core_alive h c) c c';
  ac_counted : counted_ok c';
  ac_bytes : n = host_bytes h + (ops_bytes (ops c') - ops_bytes (ops c));
  ac_bound : n <= broker_bytes;
  ac_attached : attached c' <= attached c \/ (all_attached h < 128 /\ attached c' <= attached c + 1) }.
Definition accounted (h : Ht) (a : nat) (c : Cr) (h' : Ht) : Prop :=
  exists c' n, h' = with_core (with_host_bytes h n) a c' /\ accounts h c c' n.

Lemma accounted_ok h a c h' : host_ok h -> host_cores h !! a = Some c -> accounted h a c h' -> host_ok h'.
Proof.
  intros [B1 B2 B3 B4 B5 B6 B7] Ha (c' & n & -> & [A1 A2 A3 A4 A5]). constructor; cbn; try done.
  - intros b d. destruct (decide (a = b)) as [<-|Hn].
    + rewrite lookup_insert_eq. intros [= <-]. destruct (B1 a c Ha) as (K1 & K2 & K3).
      split; [by eapply filed_step|]. split; [done|]. by rewrite (cs_options _ _ _ _ A1).
    + rewrite lookup_insert_ne by done. apply B1.
  - rewrite (map_sum_update _ _ _ c c') by done. lia.
  - intros b d. destruct (decide (a = b)) as [<-|Hn].
    + rewrite lookup_insert_eq. intros [= <-]. rewrite (cs_id _ _ _ _ A1). by apply B5.
    + rewrite lookup_insert_ne by done. apply B5.
  - intros b d. destruct (decide (a = b)) as [<-|Hn]; [intros _; by eapply B6|].
    rewrite lookup_insert_ne by done. apply B6.
  - unfold all_attached in *. cbn. rewrite (map_sum_update _ _ _ c c') by done. lia.
Qed.

Lemma accounted_same h a c c' : host_ok h -> host_cores h !! a = Some c ->
  core_step (host_configuration h) (core_alive h c) c c' -> same_counts c c' -> accounted h a c (with_core h a c').
Proof.
  intros Hh Ha Hs Hc. exists c', (host_bytes h). split; [by destruct h|].
  destruct (hk_core _ Hh _ _ Ha) as (_ & Hct & _). constructor; [done|by eapply counted_same| | |].
  - rewrite (sc_bytes _ _ Hc). lia.
  - apply Hh.
  - left. eapply attached_step; [done|apply Hc].
Qed.
Lemma accounted_refl h a c : host_ok h -> host_cores h !! a = Some c -> accounted h a c h.
Proof.
  intros Hh Ha. pose proof (accounted_same h a c c Hh Ha (core_step_refl _ _ _) (same_counts_refl c)) as Hs.
  replace h with (with_core h a c) at 2; [done|].
  destruct h. unfold with_core, with_cores. cbn in *. by rewrite insert_id.
Qed.

(** A new name: the step, the counts and the reservation. *)
Lemma accounted_new h a c c' n t : host_ok h -> core_step (host_configuration h) (core_alive h c) c c' -> counted_ok c' ->
  ops_bytes (ops c') = ops_bytes (ops c) + n -> reserve_bytes h n = Some t ->
  (attached c' <= attached c \/ (all_attached h < 128 /\ attached c' <= attached c + 1)) ->
  accounted h a c (with_core (with_host_bytes h t) a c').
Proof.
  intros Hh Hs Hc Hb [-> Ht]%reserve_bytes_Some Hat. eexists _, _. split; [done|]. constructor; try done. lia.
Qed.

Lemma core_at {h h' : Ht} {a c c' n m} : h' = with_core (with_host_bytes h n) a c -> h' = with_core (with_host_bytes h m) a c' -> c = c'.
Proof. intros -> E. apply (f_equal (fun h => host_cores h !! a)) in E. cbn in E. rewrite !lookup_insert_eq in E. congruence. Qed.

Lemma begin_execute_accounted h a c early (flow : Result F) r : host_ok h -> host_cores h !! a = Some c ->
  accounted h a c (begin_execute request_size h a c early flow r).1.
Proof.
  intros Hh Ha. destruct (hk_core _ Hh _ _ Ha) as (_ & Hct & _).
  destruct (begin_execute_evolves request_size h a c early flow r Ha) as (c1 & n1 & E1 & Hs).
  destruct (begin_execute_cases request_size h a c early flow r) as [->|(n & t & Hn & K1 & K2 & K3 & Hf & Ht & E)];
    [by apply accounted_refl|].
  rewrite (core_at E1 E) in Hs. rewrite E. apply (accounted_new _ _ _ _ n); [done|done| |done|done|by left].
  by apply counted_item.
Qed.
Lemma begin_issue_accounted h a c early r : host_ok h -> host_cores h !! a = Some c ->
  accounted h a c (begin_issue h a c early r).1.
Proof.
  intros Hh Ha. destruct (hk_core _ Hh _ _ Ha) as (_ & Hct & _).
  destruct (begin_issue_evolves h a c early r Ha) as (c1 & n1 & E1 & Hs).
  destruct (begin_issue_cases h a c early r) as [->|(n & t & Hn & K1 & K2 & K3 & Hf & Ht & E)]; [by apply accounted_refl|].
  rewrite (core_at E1 E) in Hs. rewrite E. apply (accounted_new _ _ _ _ n); [done|done| |done|done|by left].
  by apply counted_issuance.
Qed.
Lemma admit_tcp_accounted h a c early (flow : Result F) r : host_ok h -> host_cores h !! a = Some c ->
  accounted h a c (admit_tcp h a c early flow r).1.
Proof.
  intros Hh Ha. destruct (hk_core _ Hh _ _ Ha) as (_ & Hct & _).
  destruct (admit_tcp_evolves h a c early flow r Ha) as (c1 & n1 & E1 & Hs).
  destruct (admit_tcp_cases h a c early flow r)
    as [->|(n & t & p & required & f & Hn & K1 & K2 & K3 & Hf & Ht & _ & A1 & A2 & E)]; [by apply accounted_refl|].
  rewrite (core_at E1 E) in Hs. rewrite E.
  destruct (counted_stream c (open_request_id r) (Conn_new r p required f) n Hct Hn Hf A1 K3 K1 K2) as [C1 C2].
  by apply (accounted_new _ _ _ _ n); [..|right].
Qed.

(** ** Contexts, cursors and reservations *)

Lemma publish_accounted h a c id prepared : host_ok h -> host_cores h !! a = Some c ->
  accounted h a c (publish h a c id prepared).1.
Proof.
  intros Hh Ha. destruct (publish_evolves h a c id prepared Ha) as (c1 & n1 & E1 & Hs). revert E1.
  destruct (hk_core _ Hh _ _ Ha) as (_ & Hct & _).
  unfold publish. destruct (ops_issuances (ops c) !! id) as [i|] eqn:Hi; [|intros _; by apply accounted_refl].
  destruct (terminal _) eqn:Ht; [intros _; by apply accounted_refl|].
  destruct (prepared ≫= _) as [b|e] eqn:Hp; cbn [fst]; intros E1.
  - apply bind_Ok in Hp as (b0 & _ & Hp). apply publish_binding_Ok in Hp as (_ & -> & _ & _ & _ & Hl).
    set (c2 := set_issuance _ id _) in *.
    assert (Hc : c1 = c2) by (symmetry; eapply (core_at (h := h) (n := host_bytes h)); [|exact E1]; by destruct h).
    subst c1. exists c2, (host_bytes h). split; [by destruct h|]. destruct Hct as [B1 B2 B3 B4 B5 B6 B7 B8 B9 B10 B11 B12 B13].
    assert (Hdom : dom (<[id := issuance_end i Completed (Ok (b_id b0))]> (ops_issuances (ops c))) = dom (ops_issuances (ops c)))
      by (apply dom_insert_lookup_L; by exists i).
    constructor; [done| |cbn; lia|apply Hh|by left]. constructor; cbn; try done.
    + rewrite ops_len_dom. cbn. by rewrite Hdom, <-ops_len_dom.
    + by rewrite Hdom.
    + by rewrite Hdom.
    + destruct (contexts c !! b_id b0) as [x|] eqn:Hx; [|rewrite size_insert_new by done; lia].
      rewrite (size_insert_old _ _ _ _ Hx). lia.
    + intros j x k Hx Hk. destruct (decide (id = j)) as [<-|Hj].
      * rewrite lookup_insert_eq in Hx. simplify_eq/=. rewrite lookup_insert_eq. by eexists.
      * rewrite lookup_insert_ne in Hx by done. apply lookup_insert_is_Some'. right. by eapply B8.
  - set (c2 := set_issuance c id _) in *.
    assert (Hc : c1 = c2) by (symmetry; eapply (core_at (h := h) (n := host_bytes h)); [|exact E1]; by destruct h).
    subst c1. apply accounted_same; [done|done|done|]. eapply same_issuance; [done|]. by intros k [=].
Qed.

Lemma next_page_size v x random m r : Z.of_nat (size (v_cursors v)) <= 64 -> next_page v x random = (m, r) ->
  Z.of_nat (size m) <= 64.
Proof.
  intros Hs. unfold next_page. destruct (find_first _ _) as [[k y]|]; [by intros [= <- _]|].
  destruct (64 <=? _) eqn:Hl; [by intros [= <- _]|]. destruct random as [k|]; intros [= <- _]; [|done]. bool_hyps.
  destruct (v_cursors v !! k) as [y|] eqn:Hk; [rewrite (size_insert_old _ _ _ _ Hk); lia|].
  rewrite size_insert_new by done. lia.
Qed.
Lemma search_accounted h a c early r random : host_ok h -> host_cores h !! a = Some c ->
  accounted h a c (search_inner h a c early r random).1.
Proof.
  intros Hh Ha. destruct (hk_core _ Hh _ _ Ha) as (_ & [B1 B2 B3 B4 B5 B6 B7 B8 B9 B10 B11 B12 B13] & _).
  unfold search_inner. destruct (_ ≫= _) as [[t offset]|e]; [|by apply accounted_refl].
  destruct (_ <? _); [|by apply accounted_refl].
  destruct (next_page _ _ _) as [m [id|e]] eqn:Hm; [|by apply accounted_refl]. apply next_page_size in Hm; [|done].
  exists (with_cursors c m), (host_bytes h). split; [by destruct h|].
  constructor; [apply step_cursors| |cbn; lia|apply Hh|by left]. by constructor.
Qed.
Lemma reserve_accounted h a c n : host_ok h -> host_cores h !! a = Some c ->
  accounted h a c (with_core h a (reserve_approval c (Z.of_N n)).1).
Proof.
  intros Hh Ha. destruct (hk_core _ Hh _ _ Ha) as (_ & Hct & _).
  exists (reserve_approval c (Z.of_N n)).1, (host_bytes h). split; [by destruct h|].
  assert (Hsame : counted_ok (reserve_approval c (Z.of_N n)).1 /\ ops (reserve_approval c (Z.of_N n)).1 = ops c).
  { unfold reserve_approval. destruct (16 <=? _) eqn:Hl; [done|]. destruct (checked_add _ _) as [k|] eqn:Hk; [|done].
    apply checked_add_Some in Hk as [-> _]. destruct (_ <=? approval_bytes) eqn:Hb; [|done]. bool_hyps. split; [|done].
    destruct Hct as [B1 B2 B3 B4 B5 B6 B7 B8 B9 B10 B11 B12 B13]. constructor; cbn; try done.
    - rewrite len_cons. lia.
    - constructor; [lia|done].
    - lia. }
  destruct Hsame as [C1 C2]. constructor; [apply reserve_step|done|rewrite C2; lia|apply Hh|left].
  unfold attached. by rewrite C2.
Qed.
Lemma foldr_delete l i (n : Z) : l !! i = Some n -> foldr Z.add 0 l = n + foldr Z.add 0 (delete i l).
Proof.
  revert i. induction l as [|x l IH]; intros [|i] Hi; cbn in *; [done|done|by simplify_eq|]. rewrite (IH i Hi). apply Z.add_shuffle3.
Qed.
Lemma release_accounted h a c i : host_ok h -> host_cores h !! a = Some c ->
  accounted h a c (with_core h a (release_approval c i)).
Proof.
  intros Hh Ha. destruct (hk_core _ Hh _ _ Ha) as (_ & Hct & _).
  unfold release_approval. destruct (core_reservations c !! i) as [n|] eqn:Hi.
  2: { apply accounted_same; [done|done|apply core_step_refl|apply same_counts_refl]. }
  eexists _, (host_bytes h). split; [by destruct h|].
  destruct Hct as [B1 B2 B3 B4 B5 B6 B7 B8 B9 B10 B11 B12 B13].
  constructor; [apply step_pending| |cbn; lia|apply Hh|by left].
  pose proof (foldr_delete _ _ _ Hi) as Hd. pose proof (proj1 (Forall_lookup _ _) B10 i n Hi) as Hn. cbn in Hn.
  constructor; cbn; try done; [|by apply Forall_delete|lia|lia].
  apply lookup_lt_Some in Hi as Hlt. unfold len in *. rewrite length_delete by by exists n. lia.
Qed.

(** ** Moves *)

Lemma cancel_accounted h a c id : host_ok h -> host_cores h !! a = Some c -> accounted h a c (cancel h a c id).1.
Proof.
  intros Hh Ha. unfold cancel. destruct (core_check h c); [|by apply accounted_refl].
  destruct (ops_streams (ops c) !! id) as [s|] eqn:Hs; [|destruct (ops_issuances (ops c) !! id) as [i|] eqn:Hi;
    [|destruct (ops_items (ops c) !! id) as [o|] eqn:Ho; [|by apply accounted_refl]]]; (apply accounted_same; [done|done|..]).
  - apply (step_stream _ _ _ _ s); [done|apply tcp_finish_step].
  - apply same_streams, dom_insert_lookup_L. by exists s.
  - apply (step_issuance _ _ _ _ i); [done|apply issuance_cancel_step].
  - eapply same_issuance; [done|]. intros k. apply cancel_result.
  - apply (step_item _ _ _ _ o); [done|apply op_cancel_step].
  - apply same_items, dom_insert_lookup_L. by exists o.
Qed.

Lemma core_move_accounted h a c m : host_ok h -> host_cores h !! a = Some c ->
  accounted h a c (core_move (R := R) request_size h a c m).
Proof.
  intros Hh Ha. destruct m as [early flow r|early flow r|early r|id prepared|id|id|n|i|early r random|k|item|k|id k g m|id k g|id m];
    cbn [core_move].
  - by apply begin_execute_accounted.
  - by apply admit_tcp_accounted.
  - by apply begin_issue_accounted.
  - by apply publish_accounted.
  - apply accounted_same; [done|done|apply abandon_step|apply abandon_same].
  - by apply cancel_accounted.
  - by apply reserve_accounted.
  - by apply release_accounted.
  - by apply search_accounted.
  - apply accounted_same; [done|done|apply check_context_step|apply check_context_same].
  - apply accounted_same; [done|done|apply invalidate_item_step|apply same_contexts, dom_fmap_L].
  - apply accounted_same; [done|done|apply logout_step|apply logout_same].
  - assert (Hg : forall o b, let g0 := with_shared g (mkShared (core_authority h c) o b) in
      guard_step g0 (if own_step o m then do_move g0 m else g0)).
    { intros o b g0. destruct (own_step o m) eqn:Hm; [by apply do_move_step|by apply guard_step_shared]. }
    apply accounted_same; [done|done|by apply on_guard_step|by apply on_guard_same].
  - apply accounted_same; [done|done|apply on_guard_step|apply on_guard_same]; intros o b; apply guard_drop_step.
  - destruct (ops_streams (ops c) !! id) as [s|] eqn:Hs; [|by apply accounted_refl].
    destruct (own_conn_step m) eqn:Hm; [|by apply accounted_refl].
    apply accounted_same; [done|done| |apply same_streams, dom_insert_lookup_L; by exists s].
    apply (step_stream _ _ _ _ s); [done|]. by apply conn_move_step.
Qed.

Lemma Core_new_ok (h : Ht) id o : valid_options (host_configuration h) o = true ->
  let c := Core_new (F := F) id o (host_now h) in
  filed (host_configuration h) c /\ counted_ok c /\ valid_options (host_configuration h) (core_options c) = true.
Proof.
  intros Ho. cbn zeta. split; [by constructor|]. split; [|done].
  constructor; cbn; try done; unfold session_bytes, approval_bytes; try lia; by rewrite !dom_empty_L.
Qed.

(** Dead sessions leave the registry, live ones stay. *)
Lemma retain_live_Some (h : Ht) id a : retain_live h !! id = Some a <-> host_sessions h !! id = Some a /\ is_Some (host_cores h !! a).
Proof. unfold retain_live. by rewrite map_lookup_filter_Some. Qed.
Lemma retain_live_size (h : Ht) : (size (retain_live h) <= size (host_sessions h))%nat.
Proof. apply map_size_filter. Qed.

Lemma create_session_ok (h : Ht) early o random : host_ok h ->
  match random with Some id => host_sessions h !! id = None | None => True end ->
  host_ok (create_session h early o random).1.
Proof.
  intros Hh Hid. unfold create_session. destruct early; [done|]. destruct (negb _) eqn:Ho; [done|]. apply negb_false_iff in Ho.
  unfold publish_session. destruct (host_closed h); [done|]. cbn [host_configuration host_closed host_bytes host_cores host_next host_now].
  pose proof (retain_live_size h) as Hsz. destruct Hh as [B1 B2 B3 B4 B5 B6 B7].
  assert (Hreg : forall a c, host_cores h !! a = Some c -> retain_live h !! core_id c = Some a).
  { intros a c Hc. apply retain_live_Some. split; [by apply B5|by exists c]. }
  destruct (64 <=? _) eqn:Hl; [constructor; cbn; try done; lia|]. bool_hyps.
  destruct random as [id|]; [|constructor; cbn; try done; lia].
  assert (Hnew : host_cores h !! host_next h = None).
  { destruct (host_cores h !! host_next h) as [c|] eqn:Hc; [|done]. apply B6 in Hc. lia. }
  assert (Hfree : retain_live h !! id = None).
  { destruct (retain_live h !! id) as [a|] eqn:Hr; [|done]. apply retain_live_Some in Hr as [Hr _]. congruence. }
  constructor; cbn.
  - intros a c. destruct (decide (host_next h = a)) as [<-|Hn]; [|rewrite lookup_insert_ne by done; apply B1].
    rewrite lookup_insert_eq. intros [= <-]. by apply Core_new_ok.
  - rewrite map_sum_insert by done. cbn. lia.
  - done.
  - rewrite size_insert_new by done. lia.
  - intros a c. destruct (decide (host_next h = a)) as [<-|Hn].
    + rewrite lookup_insert_eq. intros [= <-]. cbn. apply lookup_insert_eq.
    + rewrite lookup_insert_ne by done. intros Hc. apply Hreg in Hc. rewrite lookup_insert_ne; [done|].
      intros ->. congruence.
  - intros a c. destruct (decide (host_next h = a)) as [<-|Hn]; [lia|]. rewrite lookup_insert_ne by done.
    intros Hc. apply B6 in Hc. lia.
  - unfold all_attached in *. cbn. by rewrite map_sum_insert by done.
Qed.

Lemma map_size_live (h : Ht) : host_ok h -> Z.of_nat (size (host_cores h)) <= 64.
Proof.
  intros Hh. pose proof (hk_sessions _ Hh) as Hs.
  assert (size (host_cores h) <= size (host_sessions h))%nat; [|lia].
  rewrite <-!length_map_to_list, <-(length_fmap (fun e => (core_id e.2, e.1)) (map_to_list (host_cores h))).
  apply submseteq_length, NoDup_submseteq.
  - apply NoDup_fmap_2_strong; [|apply NoDup_map_to_list].
    intros [a c] [b d] Hx%elem_of_map_to_list Hy%elem_of_map_to_list [= E1 E2]. cbn in *. congruence.
  - intros [id a] Hx. apply list_elem_of_fmap in Hx as ([b c] & [= -> ->] & Hc%elem_of_map_to_list).
    apply elem_of_map_to_list. by apply (hk_registered _ Hh).
Qed.

Lemma move_ok h m : host_ok h -> fresh_move h m -> host_ok (broker_move (R := R) request_size h m).
Proof.
  intros Hh Hf. destruct m as [t|early o random| |a|a i|a m]; cbn [broker_move].
  - destruct Hh as [B1 B2 B3 B4 B5 B6 B7]. by constructor.
  - apply create_session_ok; [done|]. by destruct random.
  - destruct Hh as [B1 B2 B3 B4 B5 B6 B7]. by constructor.
  - unfold drop_core. destruct (host_cores h !! a) as [c|] eqn:Ha; [|done].
    destruct Hh as [B1 B2 B3 B4 B5 B6 B7]. destruct (B1 a c Ha) as (_ & Hct & _).
    constructor; cbn; try done.
    + intros b d [_ Hd]%lookup_delete_Some. by apply (B1 b).
    + rewrite B2, (map_sum_delete _ _ a c) by done. lia.
    + pose proof (ct_bytes _ Hct). lia.
    + intros b d [_ Hd]%lookup_delete_Some. by apply B5.
    + intros b d [_ Hd]%lookup_delete_Some. by apply (B6 b d).
    + unfold all_attached in *. cbn. rewrite (map_sum_delete _ _ a c) in B7 by done.
      assert (0 <= attached c); [|lia]. apply map_sum_nonneg. intros i x _. destruct (cn_attachments x); lia.
  - destruct (revoke_sections !! i) as [f|] eqn:Hi; [|done]. unfold on_core.
    destruct (host_cores h !! a) as [c|] eqn:Ha; [|done]. eapply accounted_ok; [done|exact Ha|].
    apply accounted_same; [done|done|by eapply revoke_section_step|by eapply revoke_section_same].
  - destruct (host_cores h !! a) as [c|] eqn:Ha; [|done]. eapply accounted_ok; [done|exact Ha|]. by apply core_move_accounted.
Qed.

Lemma host_run_ok ms h : host_ok h -> fresh_run (R := R) request_size h ms -> host_ok (run request_size h ms).
Proof. intros Hh Hf. apply (fresh_run_keeps request_size host_ok); [|done|done]. intros. by apply move_ok. Qed.
End Ledger.
