(* ===== verification/BrokerSafety.v ===== *)
(** * What a broker guarantees

    Over every run of a host and its sessions: the ledger is right, an identifier names
    one thing for ever, authority that is gone is gone for good, and a retired session
    is settled. *)
From S2P Require Import Prelude Protocol Ids Json Tools Address Catalog Profile Observe.
From S2P Require Import Secrets Redaction Cookies Flow Operation Guard Lifecycle.
From S2P Require Import Endpoint TcpPolicy.
From S2P Require Import Stream Relay TcpState Config Session Vault Broker Evolution Ledger.

(** What an identifier names in a session. *)
Inductive Named := NRequest (r : ExecuteRequest) | NIssuance (r : GetLogin) | NStream (r : Open).
#[export] Instance Named_eq_dec : EqDecision Named.
Proof. solve_decision. Defined.

Section Safety.
Context `{Base64} `{Urls} {F : Type} `{Observer F} `{!ObserverLaws F} {R : Type} `{RemoteContext R}.
Context (request_size : ExecuteRequest -> option N).
Abbreviation Ht := (Host F).
Abbreviation Cr := (Core F).
Abbreviation Moves := (list (BrokerMove F R)).
Abbreviation ops c := (core_operations c).
Abbreviation contexts c := (v_contexts (core_vault c)).
Abbreviation run := (run (R := R) request_size).

(** ** Settled sessions *)

(** Everything that was tracked is over, and no context holds private material. *)
Record settled (c c' : Cr) : Prop := {
  st_items id o : ops_items (ops c) !! id = Some o ->
    exists o', ops_items (ops c') !! id = Some o' /\ terminal (op_state o') = true;
  st_issuances id i : ops_issuances (ops c) !! id = Some i ->
    exists i', ops_issuances (ops c') !! id = Some i' /\ terminal (state (i_status i')) = true;
  st_streams id s : ops_streams (ops c) !! id = Some s ->
    exists s', ops_streams (ops c') !! id = Some s' /\ terminal (cn_state s') = true;
  st_contexts k b : contexts c' !! k = Some b -> b_cancelled b = true /\ bare (b_state b) }.

(** What the later life of a session keeps of an earlier moment. *)
Lemma run_core h ms a c c' : host_ok h -> host_cores h !! a = Some c -> host_cores (run h ms) !! a = Some c' ->
  core_step (host_configuration h) (core_alive h c) c c'.
Proof.
  intros Hh Ha Hc. destruct (hs_cores _ _ (run_step (R := R) request_size h ms) a c' Hc) as (c0 & E & Hs).
  { by apply (hk_addresses _ Hh a c). }
  by simplify_eq.
Qed.
Lemma run_back h ms a c' : host_cores (run h ms) !! a = Some c' -> (a < host_next h)%nat ->
  exists c, host_cores h !! a = Some c /\ core_step (host_configuration h) (core_alive h c) c c'.
Proof. apply (hs_cores _ _ (run_step (R := R) request_size h ms)). Qed.

Lemma items_terminal cfg al (c c' : Cr) id o : core_step cfg al c c' -> ops_items (ops c) !! id = Some o ->
  terminal (op_state o) = true -> exists o', ops_items (ops c') !! id = Some o' /\ terminal (op_state o') = true.
Proof.
  intros Hs Ho Ht. destruct (cells_Some _ _ _ _ _ _ (cs_items _ _ _ _ Hs) Ho) as (o' & E & S).
  exists o'. split; [done|]. unfold op_state. by rewrite (is_final _ _ _ S Ht).
Qed.
Lemma issuances_terminal cfg al (c c' : Cr) id i : core_step cfg al c c' -> ops_issuances (ops c) !! id = Some i ->
  terminal (state (i_status i)) = true -> exists i', ops_issuances (ops c') !! id = Some i' /\ terminal (state (i_status i')) = true.
Proof.
  intros Hs Hi Ht. destruct (cells_Some _ _ _ _ _ _ (cs_issuances _ _ _ _ Hs) Hi) as (i' & E & S).
  exists i'. split; [done|]. by rewrite (ss_final _ _ _ S Ht).
Qed.
Lemma streams_terminal cfg al (c c' : Cr) id s : core_step cfg al c c' -> ops_streams (ops c) !! id = Some s ->
  terminal (cn_state s) = true -> exists s', ops_streams (ops c') !! id = Some s' /\ terminal (cn_state s') = true.
Proof.
  intros Hs Hi Ht. destruct (cells_Some _ _ _ _ _ _ (cs_streams _ _ _ _ Hs) Hi) as (s' & E & S).
  exists s'. split; [done|]. unfold cn_state. by rewrite (proj1 (ts_final _ _ _ S Ht)).
Qed.
(** Without authority, bare contexts stay bare and none is published. *)
Lemma contexts_bare cfg (c c' : Cr) : core_step cfg false c c' ->
  (forall k b, contexts c !! k = Some b -> b_cancelled b = true /\ bare (b_state b)) ->
  forall k b, contexts c' !! k = Some b -> b_cancelled b = true /\ bare (b_state b).
Proof.
  intros Hs Hc k b Hb. pose proof (cs_contexts _ _ _ _ Hs k) as Hk. rewrite Hb in Hk.
  destruct (contexts c !! k) as [b0|] eqn:E; [|by destruct Hk].
  destruct Hk as [->|[?|[? _]]]; [by eapply Hc|done|done].
Qed.

(** A section of a revocation at its place in a run. *)
Lemma settled_later h ms a c c1 c2 : host_ok h -> host_cores h !! a = Some c1 -> core_alive h c1 = false ->
  settled c c1 -> host_cores (run h ms) !! a = Some c2 -> settled c c2.
Proof.
  intros Hh Ha Hal [S1 S2 S3 S4] Hc2. pose proof (run_core _ _ _ _ _ Hh Ha Hc2) as Hs. rewrite Hal in Hs. constructor.
  - intros id o Ho. destruct (S1 _ _ Ho) as (o1 & E & Ht). by eapply items_terminal.
  - intros id i Hi. destruct (S2 _ _ Hi) as (i1 & E & Ht). by eapply issuances_terminal.
  - intros id s Hx. destruct (S3 _ _ Hx) as (s1 & E & Ht). by eapply streams_terminal.
  - by eapply contexts_bare.
Qed.

(** The state after a section: the session, if it is still live, has had it. *)
Lemma section_done h l1 l2 a i f c c' : host_ok h -> fresh_run request_size h (l1 ++ BRevoke a i :: l2) ->
  revoke_sections !! i = Some f -> host_cores h !! a = Some c -> host_cores (run h (l1 ++ BRevoke a i :: l2)) !! a = Some c' ->
  exists c1, let h1 := run h l1 in let h2 := with_core h1 a (f c1) in
    host_cores h1 !! a = Some c1 /\ core_step (host_configuration h) (core_alive h c) c c1
    /\ host_ok h2 /\ fresh_run request_size h2 l2 /\ core_step (host_configuration h) (core_alive h2 (f c1)) (f c1) c'
    /\ run h (l1 ++ BRevoke a i :: l2) = run h2 l2.
Proof.
  intros Hh Hf Hi Ha Hc. rewrite fresh_app in Hf. destruct Hf as [F1 [_ F2]].
  assert (Hh1 : host_ok (run h l1)) by by apply host_run_ok.
  rewrite run_app in Hc. cbn [foldl broker_move] in Hc. unfold Broker.run in Hc at 1. cbn [foldl] in Hc.
  change (foldl _ ?x l2) with (run x l2) in Hc. cbn [broker_move] in Hc, F2. rewrite Hi in Hc, F2.
  assert (Hh2 : host_ok (on_core (run h l1) a f)).
  { pose proof (move_ok (R := R) request_size (run h l1) (BRevoke a i) Hh1 I) as Hm. cbn [broker_move] in Hm. by rewrite Hi in Hm. }
  unfold on_core in *. destruct (host_cores (run h l1) !! a) as [c1|] eqn:E1.
  - exists c1. cbn zeta. split_and!; try done.
    + by eapply run_core.
    + assert (Hlook : host_cores (with_core (run h l1) a (f c1)) !! a = Some (f c1)) by apply lookup_insert_eq.
      pose proof (run_core _ l2 _ _ _ Hh2 Hlook Hc) as Hs. cbn in Hs.
      by rewrite (hs_configuration _ _ (run_step (R := R) request_size h l1)) in Hs.
    + rewrite run_app. cbn [Broker.run foldl broker_move]. rewrite Hi. unfold on_core. by rewrite E1.
  - exfalso. apply run_back in Hc as (c1 & E & _); [congruence|].
    pose proof (hs_next _ _ (run_step (R := R) request_size h l1)). pose proof (hk_addresses _ Hh _ _ Ha). lia.
Qed.

Lemma retired_dead (h : Ht) (c c' : Cr) cfg al : core_step cfg al c c' -> core_revoked c = true -> core_alive h c' = false.
Proof.
  intros Hs Hr. unfold core_alive, core_check, Session_check. cbn. rewrite (cs_revoked _ _ _ _ Hs Hr). by rewrite orb_true_r.
Qed.

(** A section somewhere in a run: what the session was before it and became of it. *)
Lemma after_section h ms a i f c c' : host_ok h -> fresh_run request_size h ms -> BRevoke a i ∈ ms ->
  revoke_sections !! i = Some f -> host_cores h !! a = Some c -> host_cores (run h ms) !! a = Some c' ->
  exists c1 al, core_step (host_configuration h) (core_alive h c) c c1 /\ core_step (host_configuration h) al (f c1) c'.
Proof.
  intros Hh Hf (l1 & l2 & ->)%list_elem_of_split Hi Ha Hc.
  destruct (section_done h l1 l2 a i f c c' Hh Hf Hi Ha Hc) as (c1 & _ & S1 & _ & _ & S2 & _). by eexists c1, _.
Qed.

Lemma revoked_contexts h a ms c c' : host_ok h -> fresh_run request_size h ms -> host_cores h !! a = Some c ->
  sublist (revocation a) ms -> host_cores (run h ms) !! a = Some c' ->
  forall k b, contexts c' !! k = Some b -> b_cancelled b = true /\ bare (b_state b).
Proof.
  intros Hh Hf Ha (l0 & k0 & -> & Hs)%sublist_cons_l Hc.
  assert (H4 : BRevoke a 4 ∈ k0) by (apply (sublist_subseteq _ _ Hs); set_solver).
  apply list_elem_of_split in H4 as (m1 & m2 & ->).
  change (l0 ++ BRevoke a 0 :: m1 ++ BRevoke a 4 :: m2) with (l0 ++ (BRevoke a 0 :: m1) ++ BRevoke a 4 :: m2) in *.
  rewrite app_assoc in *.
  destruct (section_done h _ _ a 4 revoke_contexts c c' Hh Hf eq_refl Ha Hc) as (c4 & E4 & _ & _ & _ & S4 & _).
  cbn zeta in E4. assert (Hr : core_revoked c4 = true).
  { rewrite fresh_app in Hf. destruct Hf as [Hf _].
    destruct (section_done h l0 m1 a 0 retire c c4 Hh Hf eq_refl Ha E4) as (x & _ & _ & _ & _ & Sx & _).
    by apply (cs_revoked _ _ _ _ Sx). }
  rewrite (retired_dead _ (revoke_contexts c4) _ (host_configuration h) true (core_step_refl _ _ _) Hr) in S4.
  eapply contexts_bare; [exact S4|]. intros k b Hb. cbn in Hb.
  apply lookup_fmap_Some in Hb as (b0 & <- & _). apply invalidate_bare.
Qed.

Lemma issuance_cancel_ends i : terminal (state (i_status (issuance_cancel i))) = true.
Proof. unfold issuance_cancel. by destruct (terminal (state (i_status i))) eqn:Ht. Qed.

Lemma revoked_settles h a ms c c' : host_ok h -> fresh_run request_size h ms -> host_cores h !! a = Some c ->
  sublist (revocation a) ms -> host_cores (run h ms) !! a = Some c' ->
  settled c c' /\ core_alive (run h ms) c' = false.
Proof.
  intros Hh Hf Ha Hs Hc. pose proof (sublist_subseteq _ _ Hs) as Hin.
  assert (Hat : forall i f, (i < 6)%nat -> revoke_sections !! i = Some f ->
    exists c1 al, core_step (host_configuration h) (core_alive h c) c c1 /\ core_step (host_configuration h) al (f c1) c').
  { intros i f Hi Hsec. eapply after_section; [done|done| |done|done|done]. apply Hin.
    apply list_elem_of_fmap. exists i. split; [done|]. apply elem_of_seq. lia. }
  split; [constructor|].
  - intros id o Ho. destruct (Hat 2%nat cancel_items) as (c1 & al & S1 & S2); [lia|done|].
    destruct (cells_Some _ _ _ _ _ _ (cs_items _ _ _ _ S1) Ho) as (o1 & E & _).
    apply (items_terminal _ _ _ _ _ (op_cancel o1) S2); [cbn; by rewrite lookup_fmap, E|apply cancel_is_terminal].
  - intros id i Hi. destruct (Hat 3%nat cancel_issuances) as (c1 & al & S1 & S2); [lia|done|].
    destruct (cells_Some _ _ _ _ _ _ (cs_issuances _ _ _ _ S1) Hi) as (i1 & E & _).
    apply (issuances_terminal _ _ _ _ _ (issuance_cancel i1) S2); [cbn; by rewrite lookup_fmap, E|apply issuance_cancel_ends].
  - intros id s Hx. destruct (Hat 5%nat finish_streams) as (c1 & al & S1 & S2); [lia|done|].
    destruct (cells_Some _ _ _ _ _ _ (cs_streams _ _ _ _ S1) Hx) as (s1 & E & _).
    apply (streams_terminal _ _ _ _ _ (tcp_finish s1 SessionEnded) S2); [cbn; by rewrite lookup_fmap, E|apply tcp_finish_ends].
  - by eapply revoked_contexts.
  - destruct (Hat 0%nat retire) as (c1 & al & S1 & S2); [lia|done|]. by eapply retired_dead.
Qed.

(** ** Closure *)

Lemma closure_fresh (h : Ht) : fresh_run request_size h (closure (R := R) h).
Proof.
  assert (Hq : forall ms h, Forall (fun m => match m : BrokerMove F R with BCreate _ _ _ => False | _ => True end) ms -> fresh_run request_size h ms).
  { clear. induction ms as [|m ms IH]; intros h Hm; [done|]. apply Forall_cons in Hm as [Hm Hms].
    split; [by destruct m|by apply IH]. }
  apply Hq. unfold closure. constructor; [done|]. apply Forall_app. split.
  - apply Forall_fmap, Forall_true. done.
  - apply Forall_concat, Forall_fmap, Forall_true. intros a. unfold revocation. apply Forall_fmap, Forall_true. done.
Qed.
Lemma closure_revokes (h : Ht) a : a ∈ registered h -> sublist (revocation a) (closure (R := R) h).
Proof.
  intros Ha. unfold closure. apply sublist_cons, sublist_inserts_l.
  apply list_elem_of_split in Ha as (l1 & l2 & ->). rewrite map_app. cbn [map]. rewrite concat_app. cbn [concat].
  by apply sublist_inserts_l, sublist_inserts_r.
Qed.
Lemma registered_live (h : Ht) a : host_ok h -> is_Some (host_cores h !! a) -> a ∈ registered h.
Proof.
  intros Hh [c Hc]. unfold registered. apply list_elem_of_omap. exists (core_id c, a). split.
  - apply elem_of_map_to_list. by apply (hk_registered _ Hh).
  - cbn. by rewrite Hc.
Qed.

(** ** Identifiers *)

Definition named (c : Cr) (id : string) : option Named :=
  match ops_items (ops c) !! id, ops_issuances (ops c) !! id, ops_streams (ops c) !! id with
  | Some o, _, _ => Some (NRequest (op_request o))
  | None, Some i, _ => Some (NIssuance (i_request i))
  | None, None, Some s => Some (NStream (cn_request s))
  | None, None, None => None
  end.

Lemma named_later cfg al c c' id n : core_step cfg al c c' -> counted_ok c' -> named c id = Some n -> named c' id = Some n.
Proof.
  intros Hs Hc. pose proof (ct_items_issuances _ Hc) as D1. pose proof (ct_items_streams _ Hc) as D2.
  pose proof (ct_issuances_streams _ Hc) as D3. unfold named.
  pose proof (cs_items _ _ _ _ Hs id) as K1. pose proof (cs_issuances _ _ _ _ Hs id) as K2.
  pose proof (cs_streams _ _ _ _ Hs id) as K3.
  assert (E1 : forall o, ops_items (ops c') !! id = Some o -> id ∈ dom (ops_items (ops c'))) by (intros; apply elem_of_dom; by eexists).
  assert (E2 : forall i, ops_issuances (ops c') !! id = Some i -> id ∈ dom (ops_issuances (ops c'))) by (intros; apply elem_of_dom; by eexists).
  assert (E3 : forall s, ops_streams (ops c') !! id = Some s -> id ∈ dom (ops_streams (ops c'))) by (intros; apply elem_of_dom; by eexists).
  destruct (ops_items (ops c) !! id) as [o|].
  { destruct (ops_items (ops c') !! id) as [o'|]; [|done]. by rewrite (is_request _ _ _ K1). }
  destruct (ops_issuances (ops c) !! id) as [i|].
  { destruct (ops_issuances (ops c') !! id) as [i'|]; [|done].
    destruct (ops_items (ops c') !! id) as [o'|]; [|by rewrite (ss_request _ _ _ K2)].
    exfalso. by apply (D1 id); [eapply E1|eapply E2]. }
  destruct (ops_streams (ops c) !! id) as [s|]; [|done].
  destruct (ops_streams (ops c') !! id) as [s'|]; [|done].
  destruct (ops_items (ops c') !! id) as [o'|]; [exfalso; by apply (D2 id); [eapply E1|eapply E3]|].
  destruct (ops_issuances (ops c') !! id) as [i'|]; [exfalso; by apply (D3 id); [eapply E2|eapply E3]|].
  by rewrite (ts_request _ _ _ K3).
Qed.

Lemma names (c : Cr) id : counted_ok c ->
  match named c id with
  | Some (NRequest r) => exists o, ops_items (ops c) !! id = Some o /\ op_request o = r
      /\ ops_issuances (ops c) !! id = None /\ ops_streams (ops c) !! id = None
  | Some (NIssuance r) => exists i, ops_issuances (ops c) !! id = Some i /\ i_request i = r
      /\ ops_items (ops c) !! id = None /\ ops_streams (ops c) !! id = None
  | Some (NStream r) => exists s, ops_streams (ops c) !! id = Some s /\ cn_request s = r
      /\ ops_items (ops c) !! id = None /\ ops_issuances (ops c) !! id = None
  | None => ops_items (ops c) !! id = None /\ ops_issuances (ops c) !! id = None /\ ops_streams (ops c) !! id = None
  end.
Proof.
  intros Hc. pose proof (ct_items_issuances _ Hc id) as D1. pose proof (ct_items_streams _ Hc id) as D2.
  pose proof (ct_issuances_streams _ Hc id) as D3. rewrite !elem_of_dom in D1. rewrite !elem_of_dom in D2. rewrite !elem_of_dom in D3. unfold named.
  destruct (ops_items (ops c) !! id) as [o|], (ops_issuances (ops c) !! id) as [i|], (ops_streams (ops c) !! id) as [s|]; eauto 10;
    exfalso; eauto.
Qed.
End Safety.

(** ** The guarantees *)

(** A new broker: an empty ledger over a validated configuration. *)
Lemma Broker_new_ok `{Http, Urls} {F : Type} to_writer cfg epoch now (h : Host F) :
  Broker_new to_writer cfg epoch now = Ok h -> host_ok h /\ host_configuration h = cfg.
Proof.
  intros Hn. unfold Broker_new in Hn. do 4 apply bind_Ok in Hn as (? & _ & Hn). injection Hn as <-.
  split; [|done]. constructor; cbn; try done; unfold broker_bytes; lia.
Qed.

(** C10: the ledger of a broker is right after any history of creations, requests,
    connections, logins, searches, revocations, closure and drops, in any interleaving
    of their critical sections: at most 64 sessions live; the broker's byte counter is
    the sum of its sessions' and at most 64 MiB, each session's at most 8 MiB over at
    most 4096 names; permits, contexts, cursors and approval reservations are within
    their bounds; each name is filed once, under the request it came with, and a
    completed issuance names a context; a cancelled context holds nothing private. *)
Theorem broker_invariant `{Base64} `{Http, Urls} `{ObserverLaws F} `{RemoteContext R} request_size to_writer
    cfg epoch now (h : Host F) (ms : list (BrokerMove F R)) :
  Broker_new to_writer cfg epoch now = Ok h -> fresh_run request_size h ms ->
  let h' := run request_size h ms in
  Z.of_nat (size (host_cores h')) <= 64
  /\ host_bytes h' = map_sum (fun c => ops_bytes (core_operations c)) (host_cores h') /\ host_bytes h' <= broker_bytes
  /\ all_attached h' <= 128
  /\ forall a c, host_cores h' !! a = Some c ->
       counted_ok c /\ filed cfg c /\ valid_options cfg (core_options c) = true.
Proof.
  intros Hn Hf. cbn zeta.
  apply Broker_new_ok in Hn as [Hh Hcfg].
  pose proof (host_run_ok request_size ms h Hh Hf) as Hok.
  split_and!; [by apply map_size_live|apply Hok|apply Hok|apply Hok|].
  intros a c Hc. destruct (hk_core _ Hok a c Hc) as (K1 & K2 & K3).
  rewrite (hs_configuration _ _ (run_step request_size h ms)), Hcfg in K1, K3. done.
Qed.

(** C11: an identifier names one thing in a session, for ever. What a request, a login or
    a raw connection was first filed under it stays filed under it, whatever happens;
    submitting the same again finds it and changes nothing, and submitting anything else
    under it, of whatever kind, is a conflict and changes nothing. *)
Theorem identifiers_name_once `{Base64} `{Urls} `{ObserverLaws F} `{RemoteContext R} request_size
    (h : Host F) (ms : list (BrokerMove F R)) a c c' id n :
  host_ok h -> fresh_run request_size h ms ->
  host_cores h !! a = Some c -> host_cores (run request_size h ms) !! a = Some c' -> named c id = Some n ->
  named c' id = Some n
  /\ (forall h' r, request_id r = id ->
        track_operation request_size h' a c' r = (h', if decide (n = NRequest r) then Ok true else fail RequestConflict))
  /\ (forall h' r flow, open_request_id r = id -> Open_validate r = Ok tt ->
        exists v, admit_tcp h' a c' (Ok tt) flow r = (h', v)
          /\ if decide (n = NStream r) then exists status, v = Ok (Some status) else v = fail RequestConflict)
  /\ (forall h' r, get_login_request_id r = id -> valid_id id 16 = true -> slen (get_login_item_id r) <= 64 ->
        slen (get_login_uri r) <= 16384 ->
        begin_issue h' a c' (Ok tt) r = (h', if decide (n = NIssuance r) then Ok false else fail RequestConflict)).
Proof.
  intros Hh Hf Ha Hc Hn. pose proof (host_run_ok request_size ms h Hh Hf) as Hok.
  destruct (hk_core _ Hok a c' Hc) as (_ & Hct & _).
  pose proof (named_later _ _ _ _ _ _ (run_core request_size h ms a c c' Hh Ha Hc) Hct Hn) as Hn'.
  pose proof (names c' id Hct) as Hnames. rewrite Hn' in Hnames. split; [done|]. split_and!.
  - intros h' r Hr. unfold track_operation. rewrite Hr.
    destruct n as [r0|r0|r0]; destruct Hnames as (x & -> & <- & -> & ->); cbn;
      rewrite ?bool_decide_eq_true_2, ?bool_decide_eq_false_2 by (done || by intros [? ?]); cbn; [|done..].
    destruct (decide (op_request x = r)) as [->|Hx].
    + by rewrite bool_decide_eq_true_2, decide_True.
    + rewrite bool_decide_eq_false_2, decide_False; [done|congruence|done].
  - intros h' r flow Hr Hv. unfold admit_tcp. rewrite Hr. cbn [mbind result_bind]. rewrite Hv.
    destruct n as [r0|r0|r0]; destruct Hnames as (x & -> & <- & -> & ->);
      (eexists; split; [reflexivity|]); case_decide as Hd; try done; cbn.
    + injection Hd as ->. rewrite bool_decide_eq_true_2 by done. by eexists.
    + rewrite bool_decide_eq_false_2 by congruence. done.
  - intros h' r Hr Hv K1 K2. unfold begin_issue. rewrite Hr, Hv. cbn [negb orb].
    rewrite (proj2 (Z.ltb_ge _ _) K1), (proj2 (Z.ltb_ge _ _) K2). cbn [orb].
    destruct n as [r0|r0|r0]; destruct Hnames as (x & -> & <- & -> & ->); cbn; try done.
    destruct (decide (i_request x = r)) as [->|Hx].
    + by rewrite bool_decide_eq_true_2, decide_True.
    + rewrite bool_decide_eq_false_2, decide_False; [done|congruence|done].
Qed.

(** C9: authority that is gone never comes back, and without it nothing happens. Once a
    session's check fails (the broker closed, the session was revoked, its token is set
    or it expired), it fails for ever; no request is dispatched or completed, no raw
    connection is dispatched, no login completes that had not before, and its contexts
    are those it had, each as it was or bare. *)
Theorem session_authority_final `{Base64} `{Urls} `{ObserverLaws F} `{RemoteContext R} request_size
    (h : Host F) (ms : list (BrokerMove F R)) a c c' :
  host_ok h -> host_cores h !! a = Some c -> core_check h c <> Ok tt ->
  host_cores (run request_size h ms) !! a = Some c' ->
  core_check (run request_size h ms) c' <> Ok tt
  /\ (forall id o', ops_items (core_operations c') !! id = Some o' -> op_state o' ∈ [Dispatching; Completed] ->
        exists o, ops_items (core_operations c) !! id = Some o /\ op_state o = op_state o')
  /\ (forall id s', ops_streams (core_operations c') !! id = Some s' -> cn_state s' = Dispatching ->
        exists s, ops_streams (core_operations c) !! id = Some s /\ cn_state s = Dispatching)
  /\ (forall id i', ops_issuances (core_operations c') !! id = Some i' -> state (i_status i') = Completed ->
        ops_issuances (core_operations c) !! id = Some i')
  /\ (forall k b', v_contexts (core_vault c') !! k = Some b' ->
        exists b, v_contexts (core_vault c) !! k = Some b /\ (b' = b \/ (b_cancelled b' = true /\ bare (b_state b')))).
Proof.
  intros Hh Ha Hd Hc. pose proof (run_core request_size h ms a c c' Hh Ha Hc) as Hs.
  assert (Hdead : forall (h : Host F) c, core_check h c <> Ok tt <-> core_alive h c = false).
  { intros h0 c0. unfold core_alive. destruct (core_check h0 c0) as [[]|e]; split; done. }
  pose proof (proj1 (Hdead h c) Hd) as Hal. split.
  { apply Hdead. destruct (core_alive _ c') eqn:E; [|done].
    rewrite (core_alive_step _ _ _ _ (run_step request_size h ms) Hs E) in Hal. done. }
  rewrite Hal in Hs. destruct Hs as [_ _ _ _ _ S1 S2 S3 S4]. split_and!.
  - intros id o' Ho Hst. specialize (S1 id). rewrite Ho in S1. destruct (_ !! id) as [o|].
    + exists o. split; [done|]. by destruct (is_authority _ _ _ S1 Hst).
    + by pose proof (ib_state _ _ _ S1 Hst).
  - intros id s' Hx Hst. specialize (S3 id). rewrite Hx in S3. destruct (_ !! id) as [s|].
    + exists s. split; [done|]. by destruct (ts_authority _ _ _ S3 Hst).
    + by pose proof (tb_state _ _ _ _ _ S3 Hst).
  - intros id i' Hi Hst. specialize (S2 id). rewrite Hi in S2. destruct (_ !! id) as [i|].
    + by destruct (ss_authority _ _ _ S2 Hst) as [->|].
    + by pose proof (sb_state _ _ _ S2 Hst).
  - intros k b' Hb. specialize (S4 k). rewrite Hb in S4. destruct (_ !! k) as [b|]; [|by destruct S4].
    exists b. split; [done|]. destruct S4 as [?|[?|[? _]]]; [by left|by right|done].
Qed.

(** C8: a revoked session is settled. Whenever the sections of a revocation have run in
    order, whatever the other threads did between, before and after them: the session
    has no authority; every request, login and raw connection it had tracked is over;
    and none of its contexts, whenever it was published, holds private material. *)
Theorem revocation_settles `{Base64} `{Urls} `{ObserverLaws F} `{RemoteContext R} request_size
    (h : Host F) (ms : list (BrokerMove F R)) a c c' :
  host_ok h -> fresh_run request_size h ms -> host_cores h !! a = Some c ->
  sublist (revocation a) ms -> host_cores (run request_size h ms) !! a = Some c' ->
  settled c c' /\ core_check (run request_size h ms) c' <> Ok tt.
Proof.
  intros Hh Hf Ha Hs Hc. destruct (revoked_settles request_size h a ms c c' Hh Hf Ha Hs Hc) as [K1 K2].
  split; [done|]. intros E. unfold core_alive in K2. by rewrite E in K2.
Qed.

(** C7: closing a broker settles everything for good. After [Broker::close], whatever
    happens later, no session can be created, every session still live is one that was
    live when it closed, none has authority, and each is settled. *)
Theorem closure_settles `{Base64} `{Urls} `{ObserverLaws F} `{RemoteContext R} request_size
    (h : Host F) (ms : list (BrokerMove F R)) :
  host_ok h -> fresh_run request_size (close h) ms ->
  let h' := run request_size (close h) ms in
  (forall early o random, (create_session h' early o random).2 = fail SessionInvalid
                          \/ (create_session h' early o random).2 = fail RequestInvalid)
  /\ forall a c', host_cores h' !! a = Some c' ->
       exists c, host_cores h !! a = Some c /\ settled c c' /\ core_check h' c' <> Ok tt.
Proof.
  intros Hh Hf. cbn zeta. assert (Hcl : host_closed (run request_size (close h) ms) = true).
  { apply (hs_closed _ _ (run_step request_size (close h) ms)). rewrite (close_run (R := R) request_size h).
    apply (hs_closed _ _ (run_step request_size (close_admission h) _)). done. }
  split.
  - intros early o random. unfold create_session. destruct early; [by left|]. destruct (negb _); [by right|].
    left. unfold publish_session. by rewrite Hcl.
  - rewrite (close_run (R := R) request_size h) in *. rewrite <-run_app in *. intros a c' Hc.
    assert (Hf' : fresh_run request_size h (closure h ++ ms)).
    { apply fresh_app. split; [|done]. apply closure_fresh. }
    destruct (decide (a < host_next h)%nat) as [Hlt|Hge].
    + destruct (run_back request_size h _ a c' Hc Hlt) as (c & Ha & _). exists c. split; [done|].
      assert (Hsub : sublist (revocation a) (closure (R := R) h ++ ms)).
      { apply sublist_inserts_r, closure_revokes. apply registered_live; [done|by exists c]. }
      destruct (revoked_settles request_size h a _ c c' Hh Hf' Ha Hsub Hc) as [K1 K2]. split; [done|].
      intros E. unfold core_alive in K2. by rewrite E in K2.
    + exfalso. pose proof (host_run_ok request_size _ h Hh Hf') as Hok. pose proof (hk_addresses _ Hok a c' Hc) as Hlt.
      unfold closure in Hlt. cbn [app] in Hlt. change (run request_size h (BClose :: ?l)) with (run request_size (close_admission h) l) in Hlt.
      rewrite (hs_sealed _ _ (run_step request_size (close_admission h) _)) in Hlt by done. cbn in Hlt. lia.
Qed.
