(* ===== verification/Sse.v ===== *)
(** * Server-sent events ([aap-mcp-upstream/src/sse.rs])

    The incremental decoder of an upstream's event stream, and a reference reading of
    a whole text: its lines, the blocks they form and the message of each block. The
    decoder accepts exactly the texts within its limits, and yields the messages of
    the reference whatever the chunking. *)
From S2P Require Import Prelude Protocol Tools Redaction Injection.

(** ** The decoder *)

(** `aap-mcp-upstream/src/sse.rs:8-18`, `SseDecoder` *)
Record SseDecoder := mkSse {
  sse_cur : list byte; sse_data : list byte; sse_event : bool; sse_unsupported : bool;
  sse_seen : bool; sse_cr : bool; sse_bytes : Z; sse_events : Z; sse_failed : bool }.

(** `aap-mcp-upstream/src/sse.rs:7`, `SseDecoder::default` *)
Definition SseDecoder_default : SseDecoder := mkSse [] [] false false false false 0 0 false.

Definition CR : byte := byte_of 13.
Definition LF : byte := byte_of 10.
(** The UTF-8 bytes of U+FEFF. *)
Definition BOM : list byte := map byte_of [239; 187; 191].
Definition strip (prefix l : list byte) : list byte := default l (strip_prefix l prefix).
(** [Vec::pop]. *)
Definition pop (l : list byte) : list byte := removelast l.

(** `aap-mcp-upstream/src/sse.rs:93-94`, `SseDecoder::line` (the field of a line and
    its value) *)
Definition field_of (l : list byte) : list byte * list byte :=
  let (field, value) := default (l, []) (split_once ":"%char l) in
  (field, strip [" "%char] value).

(** `aap-mcp-upstream/src/sse.rs:64-112`, `SseDecoder::line` *)
Definition sse_line (d : SseDecoder) : SseDecoder * Result (option (list byte)) :=
  let '(mkSse l data event unsupported seen cr bytes events failed) := d in
  if negb (from_utf8 l)
  then (mkSse [] data event unsupported seen cr bytes events failed, fail InspectionUnavailable)
  else
    let l := if seen then l else strip BOM l in
    if bool_decide (l = []) then
      let events := events + 1 in
      if 128 <? events
      then (mkSse [] data event unsupported true cr bytes events failed, fail LimitExceeded)
      else if unsupported
      then (mkSse [] data false unsupported true cr bytes events failed, fail InspectionUnavailable)
      else
        let data := pop data in
        (mkSse [] [] false unsupported true cr bytes events failed,
         Ok (if bool_decide (data = []) then None else Some data))
    else if starts_with l [":"%char]
    then (mkSse [] data event unsupported true cr bytes events failed, Ok None)
    else
      let (field, value) := field_of l in
      if bool_decide (field = as_bytes "data") then
        if MAX_RESPONSE - len data <? len value + 1
        then (mkSse [] data event unsupported true cr bytes events failed, fail LimitExceeded)
        else (mkSse [] (data ++ value ++ [LF]) event unsupported true cr bytes events failed, Ok None)
      else if bool_decide (field = as_bytes "event") then
        (mkSse [] data true (negb (bool_decide (value = [])) && negb (bool_decide (value = as_bytes "message")))
           true cr bytes events failed, Ok None)
      else (mkSse [] data event unsupported true cr bytes events failed, Ok None).

Definition with_cr (d : SseDecoder) (cr : bool) : SseDecoder :=
  let '(mkSse l data event unsupported seen _ bytes events failed) := d in
  mkSse l data event unsupported seen cr bytes events failed.
Definition with_cur (d : SseDecoder) (l : list byte) : SseDecoder :=
  let '(mkSse _ data event unsupported seen cr bytes events failed) := d in
  mkSse l data event unsupported seen cr bytes events failed.
Definition with_bytes (d : SseDecoder) (n : Z) : SseDecoder :=
  let '(mkSse l data event unsupported seen cr _ events failed) := d in
  mkSse l data event unsupported seen cr n events failed.

(** `aap-mcp-upstream/src/sse.rs:43-59`, `SseDecoder::push_inner` (one byte) *)
Definition sse_byte (d : SseDecoder) (b : byte) : SseDecoder * Result (option (list byte)) :=
  if sse_cr d && bool_decide (b = LF) then (with_cr d false, Ok None)
  else
    let d := with_cr d false in
    if bool_decide (b = CR) || bool_decide (b = LF) then sse_line (with_cr d (bool_decide (b = CR)))
    else if len (sse_cur d) =? MAX_REQUEST then (d, fail LimitExceeded)
    else (with_cur d (sse_cur d ++ [b]), Ok None).

(** `aap-mcp-upstream/src/sse.rs:42-60`, `SseDecoder::push_inner` (the loop) *)
Fixpoint sse_loop (d : SseDecoder) (l : list byte) : SseDecoder * Result (list (list byte)) :=
  match l with
  | [] => (d, Ok [])
  | b :: rest =>
      match sse_byte d b with
      | (d, Ok m) =>
          match sse_loop d rest with
          | (d, Ok ms) => (d, Ok (option_list m ++ ms))
          | (d, Err e) => (d, Err e)
          end
      | (d, Err e) => (d, Err e)
      end
  end.

(** `aap-mcp-upstream/src/sse.rs:33-62`, `SseDecoder::push_inner` *)
Definition sse_push_inner (d : SseDecoder) (l : list byte) : SseDecoder * Result (list (list byte)) :=
  if sse_failed d then (d, fail InspectionUnavailable)
  else if (MAX_REQUEST <? len l) || (MAX_RESPONSE - sse_bytes d <? len l) then (d, fail LimitExceeded)
  else sse_loop (with_bytes d (sse_bytes d + len l)) l.

Definition poisoned (d : SseDecoder) : SseDecoder :=
  let '(mkSse _ _ event unsupported seen cr bytes events _) := d in
  mkSse [] [] event unsupported seen cr bytes events true.

(** `aap-mcp-upstream/src/sse.rs:23-31`, `SseDecoder::push` *)
Definition sse_push (d : SseDecoder) (l : list byte) : SseDecoder * Result (list (list byte)) :=
  let (d, result) := sse_push_inner d l in (if is_err result then poisoned d else d, result).

(** `aap-mcp-upstream/src/sse.rs:116-121`, `SseDecoder::finish` *)
Definition sse_finish (d : SseDecoder) : Result unit :=
  if sse_failed d || negb (bool_decide (sse_cur d = [])) || negb (bool_decide (sse_data d = [])) || sse_event d
  then fail InspectionUnavailable else Ok tt.

(** A stream pushed chunk by chunk: the messages, when every push succeeds. *)
Fixpoint sse_run (d : SseDecoder) (chunks : list (list byte)) : option (SseDecoder * list (list byte)) :=
  match chunks with
  | [] => Some (d, [])
  | c :: chunks =>
      match sse_push d c with
      | (d, Ok ms) => '(d, ms') ← sse_run d chunks; Some (d, ms ++ ms')
      | (_, Err _) => None
      end
  end.

(** ** The reference *)

(** The lines of a text that are ended by CR, LF or CR LF, and what follows them. *)
Fixpoint text_lines (cur l : list byte) : list (list byte) * list byte :=
  match l with
  | [] => ([], cur)
  | b :: rest =>
      if bool_decide (b = LF) then let (ls, tail) := text_lines [] rest in (cur :: ls, tail)
      else if bool_decide (b = CR) then
        let (ls, tail) := match rest with
                          | c :: rest' => if bool_decide (c = LF) then text_lines [] rest' else text_lines [] rest
                          | [] => ([], [])
                          end in
        (cur :: ls, tail)
      else text_lines (cur ++ [b]) rest
  end.

(** The mark of a UTF-8 text is not part of its first line. *)
Definition unmarked (ls : list (list byte)) : list (list byte) :=
  match ls with l :: ls => strip BOM l :: ls | [] => [] end.

(** Blank lines end blocks. *)
Fixpoint blocks (cur ls : list (list byte)) : list (list (list byte)) * list (list byte) :=
  match ls with
  | [] => ([], cur)
  | l :: ls =>
      if bool_decide (l = []) then let (bs, tail) := blocks [] ls in (cur :: bs, tail)
      else blocks (cur ++ [l]) ls
  end.

(** The values of a field in a block, and the message of a block: its data lines
    joined by newlines. *)
Definition values (name : string) (block : list (list byte)) : list (list byte) :=
  omap (fun l => let (field, value) := field_of l in
                 if bool_decide (field = as_bytes name) then Some value else None) block.
Fixpoint join (sep : list byte) (l : list (list byte)) : list byte :=
  match l with
  | [] => []
  | [x] => x
  | x :: l => x ++ sep ++ join sep l
  end.
Definition message (block : list (list byte)) : option (list byte) :=
  let m := join [LF] (values "data" block) in if bool_decide (m = []) then None else Some m.
(** The last type of a block is the default one or "message". *)
Definition supported (block : list (list byte)) : bool :=
  match last (values "event" block) with
  | None => true
  | Some v => bool_decide (v = []) || bool_decide (v = as_bytes "message")
  end.

Definition text_blocks (text : list byte) : list (list (list byte)) * list (list byte) :=
  blocks [] (unmarked (text_lines [] text).1).
Definition text_messages (text : list byte) : list (list byte) := omap message (text_blocks text).1.

(** A text within the limits of the decoder. *)
Record Acceptable (text : list byte) : Prop := {
  acc_total : len text <= MAX_RESPONSE;
  acc_lines : Forall (fun l => len l <= MAX_REQUEST /\ from_utf8 l = true) (text_lines [] text).1;
  acc_tail : len (text_lines [] text).2 <= MAX_REQUEST;
  acc_blocks : len (text_blocks text).1 <= 128;
  acc_types : Forall (fun b => supported b = true) (text_blocks text).1 }.

(** ** The decoder reads as the reference does *)

#[local] Arguments from_utf8 : simpl never.
#[local] Arguments strip : simpl never.
#[local] Arguments BOM : simpl never.
#[local] Arguments as_bytes : simpl never.
#[local] Arguments LF : simpl never.
#[local] Arguments CR : simpl never.
#[local] Arguments field_of : simpl never.
#[local] Arguments starts_with : simpl never.

(** The open block, as the decoder keeps it. *)
Record Reading (d : SseDecoder) (block : list (list byte)) : Prop := {
  rd_data : sse_data d = flat_map (fun v => v ++ [LF]) (values "data" block);
  rd_event : sse_event d = negb (bool_decide (values "event" block = []));
  rd_type : sse_unsupported d = negb (supported block) }.

Lemma Reading_nil l seen cr bytes events failed :
  Reading (mkSse l [] false false seen cr bytes events failed) [].
Proof. done. Qed.

Lemma joined_values vs : join [LF] vs = pop (flat_map (fun v => v ++ [LF]) vs).
Proof.
  unfold pop. induction vs as [|v [|w vs] IH]; [done| |].
  - cbn. rewrite app_nil_r, removelast_last. done.
  - change (join [LF] (v :: w :: vs)) with (v ++ [LF] ++ join [LF] (w :: vs)). rewrite IH.
    change (flat_map ?f (v :: ?r)) with ((v ++ [LF]) ++ flat_map f r).
    rewrite removelast_app; [by rewrite app_assoc|]. cbn. by destruct w.
Qed.

Lemma message_spec block :
  message block = let m := pop (flat_map (fun v => v ++ [LF]) (values "data" block)) in
                  if bool_decide (m = []) then None else Some m.
Proof. unfold message. by rewrite joined_values. Qed.

Lemma values_snoc name block l :
  values name (block ++ [l])
  = values name block ++ (if bool_decide ((field_of l).1 = as_bytes name) then [(field_of l).2] else []).
Proof.
  unfold values. rewrite omap_app. f_equal. cbn. destruct (field_of l) as [f v]. cbn. by case_bool_decide.
Qed.

Lemma strip_length p l : len (strip p l) <= len l.
Proof.
  unfold strip, strip_prefix. case_match; cbn; [|done]. unfold len. rewrite length_drop. lia.
Qed.

Lemma field_of_length l f v : field_of l = (f, v) -> len v <= len l.
Proof.
  unfold field_of. destruct (split_once _ l) as [[x y]|] eqn:E; cbn.
  - assert (len y <= len l) as Hy.
    { clear - E. revert x y E. induction l as [|b l IH]; intros x y E; [done|]. cbn in E.
      rewrite len_cons. case_bool_decide; [simplify_eq; lia|].
      destruct (split_once _ l) as [[x' y']|]; [|done]. cbn in E. simplify_eq.
      specialize (IH _ _ eq_refl). lia. }
    intros [= _ <-]. pose proof (strip_length [" "%char] y). lia.
  - intros [= _ <-]. apply (len_nonneg l).
Qed.

Lemma comment_field l : starts_with l [":"%char] = true -> (field_of l).1 = [].
Proof.
  intros (k & ->)%starts_with_spec. unfold field_of. cbn. done.
Qed.

(** The decoder's view of the line it just ended. *)
Definition logical (d : SseDecoder) : list byte :=
  if sse_seen d then sse_cur d else strip BOM (sse_cur d).

Definition next_line (d d' : SseDecoder) (n : Z) : Prop :=
  sse_cur d' = [] /\ sse_seen d' = true /\ sse_cr d' = sse_cr d /\ sse_bytes d' = sse_bytes d
  /\ sse_failed d' = sse_failed d /\ sse_events d' = n.

Lemma logical_length d : len (logical d) <= len (sse_cur d).
Proof. unfold logical. destruct (sse_seen d); [done|apply strip_length]. Qed.

Lemma supported_snoc block l :
  supported (block ++ [l])
  = if bool_decide ((field_of l).1 = as_bytes "event")
    then bool_decide ((field_of l).2 = []) || bool_decide ((field_of l).2 = as_bytes "message")
    else supported block.
Proof.
  unfold supported. rewrite values_snoc. case_bool_decide; [by rewrite last_snoc|by rewrite app_nil_r].
Qed.

(** A line that is not blank extends the open block. *)
Lemma sse_line_field d block : Reading d block -> from_utf8 (sse_cur d) = true -> logical d <> [] ->
  len (sse_data d) + len (sse_cur d) < MAX_RESPONSE ->
  exists d', sse_line d = (d', Ok None) /\ Reading d' (block ++ [logical d]) /\ next_line d d' (sse_events d)
    /\ len (sse_data d') <= len (sse_data d) + len (sse_cur d) + 1.
Proof.
  intros [Hd He Ht] Hu Hb Hroom. pose proof (logical_length d) as Hll.
  destruct d as [l data event unsupported seen cr bytes events failed]. cbn in *.
  unfold logical in *. cbn in *. rewrite Hu. cbn [negb].
  set (l' := if seen then l else strip BOM l) in *. rewrite bool_decide_false by done.
  pose proof (len_nonneg l).
  destruct (starts_with l' _) eqn:Hc.
  { eexists; split; [done|]. split; [|by split_and!; cbn; try done; lia].
    pose proof (comment_field _ Hc) as Hf.
    split; cbn; rewrite ?values_snoc, ?supported_snoc, Hf; cbn; rewrite ?app_nil_r; done. }
  pose proof (fun f v => field_of_length l' f v) as Hlen. destruct (field_of l') as [f v] eqn:Hf.
  specialize (Hlen f v eq_refl).
  assert (forall name, values name (block ++ [l'])
            = values name block ++ (if bool_decide (f = as_bytes name) then [v] else [])) as Hv.
  { intros name. by rewrite values_snoc, Hf. }
  assert (supported (block ++ [l'])
          = if bool_decide (f = as_bytes "event") then bool_decide (v = []) || bool_decide (v = as_bytes "message")
            else supported block) as Hs.
  { by rewrite supported_snoc, Hf. }
  pose proof (Hv "data"%string) as Hvd. pose proof (Hv "event"%string) as Hve.
  destruct (decide (f = as_bytes "data")) as [Hdata|Hdata];
    [|destruct (decide (f = as_bytes "event")) as [Hevent|Hevent]].
  - subst f. rewrite bool_decide_true in Hvd |- * by done. rewrite bool_decide_false in Hve, Hs by done.
    rewrite app_nil_r in Hve. rewrite (proj2 (Z.ltb_ge _ _)) by lia. eexists; split; [done|].
    split; [|split_and!; cbn; try done; rewrite !len_app, len_cons, len_nil; lia].
    split; cbn; rewrite ?Hvd, ?Hve, ?Hs; [|done..].
    by rewrite flat_map_app, Hd; cbn; rewrite app_nil_r.
  - subst f. rewrite bool_decide_false in Hvd |- * by done. rewrite bool_decide_true in Hve, Hs |- * by done.
    rewrite app_nil_r in Hvd. eexists; split; [done|]. split; [|split_and!; cbn; done || lia].
    split; cbn; rewrite ?Hvd, ?Hve, ?Hs; [done| |by rewrite negb_orb].
    rewrite bool_decide_false; [done|]. by destruct (values "event" block).
  - rewrite bool_decide_false in Hvd, Hve, Hs by done. rewrite app_nil_r in Hvd, Hve.
    rewrite !bool_decide_false by done. eexists; split; [done|]. split; [|split_and!; cbn; done || lia].
    split; cbn; rewrite ?Hvd, ?Hve, ?Hs; done.
Qed.

(** A blank line ends the open block. *)
Lemma sse_line_blank d block : Reading d block -> from_utf8 (sse_cur d) = true -> logical d = [] ->
  sse_events d + 1 <= 128 -> supported block = true ->
  exists d', sse_line d = (d', Ok (message block)) /\ Reading d' [] /\ next_line d d' (sse_events d + 1)
    /\ sse_data d' = [].
Proof.
  intros [Hd He Ht] Hu Hb Hn Hs. destruct d as [l data event unsupported seen cr bytes events failed].
  cbn in *. unfold logical in *. cbn in *. rewrite Hu. cbn [negb]. rewrite Hb, bool_decide_true by done.
  rewrite (proj2 (Z.ltb_ge _ _)) by lia. rewrite Ht, Hs. cbn [negb]. rewrite message_spec, <-Hd.
  eexists; split; [reflexivity|]. by split_and!.
Qed.

Lemma sse_line_refused d block : Reading d block ->
  from_utf8 (sse_cur d) = false
  \/ logical d = [] /\ (128 < sse_events d + 1 \/ supported block = false) ->
  exists d' e, sse_line d = (d', Err e).
Proof.
  intros [Hd He Ht] Hc. destruct d as [l data event unsupported seen cr bytes events failed].
  cbn in *. unfold logical in *. cbn in *. destruct (from_utf8 l); cbn [negb]; [|by do 2 eexists].
  destruct Hc as [?|[Hb Hc]]; [done|]. rewrite Hb, bool_decide_true by done.
  destruct (Z.ltb_spec 128 (events + 1)); [by do 2 eexists|]. destruct Hc as [?|Hs]; [lia|].
  rewrite Ht, Hs. by do 2 eexists.
Qed.

(** What a decoder reads of a text: a line feed right after a carriage return belongs
    to the line that one ended. *)
Definition after (cr : bool) (l : list byte) : list byte :=
  if cr then match l with c :: rest => if bool_decide (c = LF) then rest else l | [] => [] end else l.

Definition line_ended (b : byte) : bool := bool_decide (b = CR) || bool_decide (b = LF).

Lemma text_lines_cons cur b rest :
  text_lines cur (b :: rest)
  = if line_ended b
    then let (ls, tail) := text_lines [] (after (bool_decide (b = CR)) rest) in (cur :: ls, tail)
    else text_lines (cur ++ [b]) rest.
Proof.
  unfold line_ended. cbn [text_lines]. destruct (decide (b = LF)) as [->|Hlf].
  { by rewrite (bool_decide_true (LF = LF)), orb_true_r, (bool_decide_false (LF = CR)) by done. }
  rewrite (bool_decide_false (b = LF)), orb_false_r by done.
  case_bool_decide; [|done]. cbn [after]. destruct rest as [|c rest]; [done|]. by case_bool_decide.
Qed.

(** The blocks of a list of lines read after some blocks and an open one: the messages,
    the number of blocks and the open block. *)
Fixpoint read_lines (n : Z) (block ls : list (list byte)) : option (list (list byte) * Z * list (list byte)) :=
  match ls with
  | [] => Some ([], n, block)
  | l :: ls =>
      if bool_decide (l = []) then
        if (128 <? n + 1) || negb (supported block) then None
        else '(ms, n, block') ← read_lines (n + 1) [] ls; Some (option_list (message block) ++ ms, n, block')
      else read_lines n (block ++ [l]) ls
  end.

Lemma read_lines_blocks n block ls : n <= 128 ->
  read_lines n block ls
  = let (bs, tail) := blocks block ls in
    if (n + len bs <=? 128) && forallb supported bs then Some (omap message bs, n + len bs, tail) else None.
Proof.
  revert n block. induction ls as [|l ls IH]; intros n block Hn; cbn [read_lines blocks].
  { rewrite len_nil, Z.add_0_r, (proj2 (Z.leb_le _ _)) by done. done. }
  case_bool_decide; [|by rewrite IH].
  destruct (blocks [] ls) as [bs tail] eqn:Hb. pose proof (len_nonneg bs). rewrite len_cons. cbn [forallb].
  destruct (supported block); cbn [negb andb]; rewrite ?orb_true_r, ?orb_false_r, ?andb_false_r; [|done].
  destruct (Z.ltb_spec 128 (n + 1)); [rewrite (proj2 (Z.leb_gt _ _)) by lia; done|].
  rewrite IH, Hb by lia. rewrite Z.add_assoc. destruct (_ && _); [|done]. cbn. by destruct (message block).
Qed.

(** What a decoder with an open block reads in a text. *)
Definition fair_line (l : list byte) : bool := (len l <=? MAX_REQUEST) && from_utf8 l.
Definition lines_from (d : SseDecoder) (text : list byte) : list (list byte) * list byte :=
  text_lines (sse_cur d) (after (sse_cr d) text).
Definition read_text (d : SseDecoder) (block : list (list byte)) (text : list byte)
    : option (list (list byte) * Z * list (list byte)) :=
  let (ls, tail) := lines_from d text in
  if forallb fair_line ls && (len tail <=? MAX_REQUEST)
  then read_lines (sse_events d) block (if sse_seen d then ls else unmarked ls) else None.

(** The state of a decoder between two bytes, with room for some more. *)
Record Between (d : SseDecoder) (block : list (list byte)) (room : Z) : Prop := {
  bt_reading : Reading d block;
  bt_cur : len (sse_cur d) <= MAX_REQUEST;
  bt_room : len (sse_data d) + len (sse_cur d) + room <= MAX_RESPONSE }.

Lemma text_lines_long cur l : MAX_REQUEST < len cur ->
  forallb fair_line (text_lines cur l).1 && (len (text_lines cur l).2 <=? MAX_REQUEST) = false.
Proof.
  revert cur. induction l as [|b l IH]; intros cur Hc.
  - cbn. by apply Z.leb_gt.
  - rewrite text_lines_cons. destruct (line_ended b).
    + destruct (text_lines [] _). cbn. unfold fair_line at 1. by rewrite (proj2 (Z.leb_gt _ _)).
    + apply IH. rewrite len_app, len_cons. pose proof (len_nonneg (@nil byte)). lia.
Qed.

Definition at_line (d : SseDecoder) (b : byte) : SseDecoder := with_cr d (bool_decide (b = CR)).

Lemma at_line_fields d b :
  sse_cur (at_line d b) = sse_cur d /\ sse_events (at_line d b) = sse_events d
  /\ logical (at_line d b) = logical d /\ sse_data (at_line d b) = sse_data d
  /\ sse_cr (at_line d b) = bool_decide (b = CR) /\ sse_bytes (at_line d b) = sse_bytes d
  /\ sse_failed (at_line d b) = sse_failed d
  /\ forall block, Reading d block -> Reading (at_line d b) block.
Proof. destruct d. split_and!; try done. by intros block []. Qed.

Lemma read_text_refused d block b rest : line_ended b = true -> after (sse_cr d) (b :: rest) = b :: rest ->
  from_utf8 (sse_cur d) = false
  \/ logical d = [] /\ (128 < sse_events d + 1 \/ supported block = false) ->
  read_text d block (b :: rest) = None.
Proof.
  intros Hend Hafter Hc. unfold read_text, lines_from. rewrite Hafter, text_lines_cons, Hend.
  destruct (text_lines [] _) as [ls tail]. cbn [forallb]. unfold fair_line at 1.
  destruct (from_utf8 (sse_cur d)); [|by rewrite andb_false_r]. destruct Hc as [?|[Hb Hc]]; [done|].
  destruct (_ && (len tail <=? _)); [|done]. unfold logical in Hb.
  replace (if sse_seen d then _ else unmarked _) with ([] :: ls); [|destruct (sse_seen d); cbn [unmarked]; by rewrite Hb].
  cbn [read_lines]. rewrite bool_decide_true by done.
  destruct Hc as [Hc| ->]; [rewrite (proj2 (Z.ltb_lt _ _)) by lia; done|]. by rewrite orb_true_r.
Qed.

Lemma read_text_line d d' block b rest n : line_ended b = true -> after (sse_cr d) (b :: rest) = b :: rest ->
  len (sse_cur d) <= MAX_REQUEST -> from_utf8 (sse_cur d) = true -> next_line (at_line d b) d' n ->
  (logical d = [] -> n = sse_events d + 1 -> n <= 128 -> supported block = true ->
   read_text d block (b :: rest)
   = '(ms, k, bl) ← read_text d' [] rest; Some (option_list (message block) ++ ms, k, bl))
  /\ (logical d <> [] -> n = sse_events d ->
      read_text d block (b :: rest) = read_text d' (block ++ [logical d]) rest).
Proof.
  intros Hend Hafter Hlen Hu (Hcur & Hseen & Hcr & _ & _ & Hev).
  destruct (at_line_fields d b) as (_ & _ & _ & _ & Hcr' & _). rewrite Hcr' in Hcr.
  unfold read_text, lines_from. rewrite Hafter, text_lines_cons, Hend, Hcur, Hcr, Hseen, Hev.
  destruct (text_lines [] _) as [ls tail]. cbn [forallb].
  assert (fair_line (sse_cur d) = true) as -> by (unfold fair_line; by rewrite Hu, (proj2 (Z.leb_le _ _))).
  cbn [andb].
  replace (if sse_seen d then _ else unmarked _) with (logical d :: ls)
    by (unfold logical; by destruct (sse_seen d)).
  cbn [read_lines]. split.
  - intros Hb -> Hn Hs. rewrite bool_decide_true, (proj2 (Z.ltb_ge _ _)), Hs by (done || lia). cbn [orb negb].
    destruct (_ && (len tail <=? _)); done.
  - intros Hb ->. by rewrite bool_decide_false by done.
Qed.

Definition loop_reads (d : SseDecoder) (block : list (list byte)) (text : list byte)
    (out : SseDecoder * Result (list (list byte))) : Prop :=
  match out with
  | (d', Ok ms) => exists block', read_text d block text = Some (ms, sse_events d', block')
      /\ Between d' block' 0 /\ sse_cur d' = (lines_from d text).2
  | (_, Err _) => read_text d block text = None
  end.

Lemma lines_from_line d d' b rest n : line_ended b = true -> after (sse_cr d) (b :: rest) = b :: rest ->
  next_line (at_line d b) d' n -> (lines_from d (b :: rest)).2 = (lines_from d' rest).2.
Proof.
  intros Hend Hafter (Hcur & _ & Hcr & _). unfold lines_from. rewrite Hafter, text_lines_cons, Hend, Hcur, Hcr.
  destruct (at_line_fields d b) as (_ & _ & _ & _ & -> & _). by destruct (text_lines [] _).
Qed.

(** The byte that ends a line. *)
Lemma sse_line_reads d block b rest : line_ended b = true -> after (sse_cr d) (b :: rest) = b :: rest ->
  Between d block (1 + len rest) ->
  match sse_line (at_line d b) with
  | (d', Ok m) => exists block', Between d' block' (len rest)
      /\ (lines_from d (b :: rest)).2 = (lines_from d' rest).2
      /\ read_text d block (b :: rest)
         = '(ms, k, bl) ← read_text d' block' rest; Some (option_list m ++ ms, k, bl)
  | (_, Err _) => read_text d block (b :: rest) = None
  end.
Proof.
  intros Hend Hafter [Hr Hc Hm]. destruct (at_line_fields d b) as (Hcur & Hev & Hlog & Hdat & _ & _ & _ & Hread).
  specialize (Hread _ Hr). pose proof (len_nonneg rest). pose proof (len_nonneg (sse_cur d)).
  pose proof (len_nonneg (sse_data d)).
  destruct (from_utf8 (sse_cur d)) eqn:Hu; [destruct (decide (logical d = [])) as [Hb|Hb]|].
  - destruct (decide (sse_events d + 1 <= 128 /\ supported block = true)) as [[Hn Hs]|Hn].
    + destruct (sse_line_blank (at_line d b) block) as (d' & -> & Hr' & Hnl & Hd'); [done|congruence..|lia|done|].
      exists []. split_and!; [|by eapply lines_from_line|].
      * destruct Hnl as (K & _). split; rewrite ?K, ?Hd'; try change (len (@nil byte)) with 0; [done|done|lia].
      * apply (read_text_line d d' block b rest _ Hend Hafter Hc Hu Hnl); [done|by rewrite Hev|lia|done].
    + destruct (sse_line_refused (at_line d b) block Hread) as (d' & e & ->);
        [|apply read_text_refused; [done..|]]; right; rewrite ?Hlog, ?Hev; (split; [done|]);
        destruct (supported block); auto; left; destruct (Z.le_gt_cases (sse_events d + 1) 128); naive_solver lia.
  - destruct (sse_line_field (at_line d b) block) as (d' & -> & Hr' & Hnl & Hd'); [done|congruence..|rewrite Hcur, Hdat; lia|].
    rewrite Hlog in Hr'. exists (block ++ [logical d]). split_and!; [|by eapply lines_from_line|].
    + destruct Hnl as (K & _). rewrite Hdat, Hcur in Hd'. split; rewrite ?K; try change (len (@nil byte)) with 0; [done|done|lia].
    + rewrite (proj2 (read_text_line d d' block b rest _ Hend Hafter Hc Hu Hnl) Hb Hev).
      by destruct (read_text d' _ rest) as [[[]]|].
  - destruct (sse_line_refused (at_line d b) block Hread) as (d' & e & ->); [left; congruence|].
    apply read_text_refused; auto.
Qed.

Lemma sse_loop_reads text : forall d block, Between d block (len text) -> loop_reads d block text (sse_loop d text).
Proof.
  induction text as [|b rest IH]; intros d block Hbt.
  { unfold loop_reads. cbn [sse_loop]. exists block. unfold read_text, lines_from.
    replace (after (sse_cr d) []) with (@nil byte) by (by destruct (sse_cr d)). cbn [text_lines forallb].
    destruct Hbt as [? Hc Hm]. rewrite (proj2 (Z.leb_le _ _) Hc). by destruct (sse_seen d). }
  cbn [sse_loop]. unfold sse_byte. destruct (sse_cr d && bool_decide (b = LF)) eqn:Hskip.
  - apply andb_true_iff in Hskip as [Hcr Hb]. apply bool_decide_eq_true in Hb as ->.
    assert (Between (with_cr d false) block (len rest)) as Hbt'.
    { destruct Hbt as [[] ? Hm]. rewrite len_cons in Hm. destruct d. split; [by split|done|]. cbn in *. lia. }
    specialize (IH _ _ Hbt'). unfold loop_reads, read_text, lines_from in *.
    destruct d as [cur data event unsupported seen cr bytes events failed]. cbn in Hcr. subst cr. cbn -[text_lines read_lines] in *.
    rewrite bool_decide_true by done. by destruct (sse_loop _ rest) as [d' [ms|e]].
  - assert (after (sse_cr d) (b :: rest) = b :: rest) as Hafter.
    { unfold after. destruct (sse_cr d); [|done]. cbn in Hskip. by rewrite Hskip. }
    rewrite len_cons in Hbt. fold (line_ended b).
    replace (with_cr (with_cr d false) (bool_decide (b = CR))) with (at_line d b) by (by destruct d).
    destruct (line_ended b) eqn:Hend.
    + pose proof (sse_line_reads d block b rest Hend Hafter Hbt) as Hl.
      destruct (sse_line (at_line d b)) as [d' [m|e]]; [|done]. destruct Hl as (block' & Hbt' & Htail & Heq).
      specialize (IH _ _ Hbt'). unfold loop_reads in *. rewrite Heq, Htail.
      destruct (sse_loop d' rest) as [d2 [ms|e]]; [|by rewrite IH].
      destruct IH as (block2 & -> & IH). exists block2. split; [done|exact IH].
    + assert (lines_from d (b :: rest) = text_lines (sse_cur d ++ [b]) rest) as Hlines.
      { unfold lines_from. by rewrite Hafter, text_lines_cons, Hend. }
      destruct Hbt as [Hr Hc Hm]. destruct (Z.eqb_spec (len (sse_cur (with_cr d false))) MAX_REQUEST) as [Hfull|Hfull].
      * unfold loop_reads, read_text. rewrite Hlines.
        pose proof (text_lines_long (sse_cur d ++ [b]) rest) as Hlong.
        destruct (text_lines _ rest) as [ls tail]. cbn [fst snd] in Hlong. rewrite Hlong; [done|].
        destruct d. cbn in *. rewrite len_app, len_cons, len_nil. lia.
      * set (d1 := with_cur _ _). assert (Between d1 block (len rest)) as Hbt'.
        { destruct d. destruct Hr. split; [by split|..]; cbn in *; rewrite ?len_app, ?len_cons, ?len_nil; lia. }
        specialize (IH _ _ Hbt'). assert (lines_from d1 rest = lines_from d (b :: rest)) as Hsame.
        { rewrite Hlines. by destruct d. }
        unfold loop_reads, read_text in *. rewrite Hsame in IH.
        replace (sse_events d1) with (sse_events d) in IH by (by destruct d).
        replace (sse_seen d1) with (sse_seen d) in IH by (by destruct d).
        by destruct (sse_loop d1 rest) as [d2 [ms|e]].
Qed.

(** ** Whole streams *)

Lemma sse_line_bytes d n :
  sse_line (with_bytes d n) = (with_bytes (sse_line d).1 n, (sse_line d).2)
  /\ sse_bytes (sse_line d).1 = sse_bytes d /\ sse_failed (sse_line d).1 = sse_failed d.
Proof.
  destruct d as [cur data event unsupported seen cr bytes events failed]. cbn.
  destruct (from_utf8 cur); [|done]. cbn [negb].
  destruct (field_of _) as [f v]. repeat case_match; done.
Qed.

Lemma sse_byte_bytes d b n :
  sse_byte (with_bytes d n) b = (with_bytes (sse_byte d b).1 n, (sse_byte d b).2)
  /\ sse_bytes (sse_byte d b).1 = sse_bytes d /\ sse_failed (sse_byte d b).1 = sse_failed d.
Proof.
  unfold sse_byte.
  replace (sse_cr (with_bytes d n)) with (sse_cr d) by (by destruct d).
  replace (sse_cur (with_cr (with_bytes d n) false)) with (sse_cur (with_cr d false)) by (by destruct d).
  destruct (_ && _); [by destruct d|]. destruct (_ || _).
  - pose proof (sse_line_bytes (with_cr (with_cr d false) (bool_decide (b = CR))) n) as (Hl & Hb & Hf).
    replace (with_cr (with_cr (with_bytes d n) false) _)
      with (with_bytes (with_cr (with_cr d false) (bool_decide (b = CR))) n) by (by destruct d).
    rewrite Hl, Hb, Hf. by destruct d.
  - destruct (_ =? _); by destruct d.
Qed.

Lemma sse_loop_bytes l d n :
  sse_loop (with_bytes d n) l = (with_bytes (sse_loop d l).1 n, (sse_loop d l).2)
  /\ sse_bytes (sse_loop d l).1 = sse_bytes d /\ sse_failed (sse_loop d l).1 = sse_failed d.
Proof.
  revert d. induction l as [|b l IH]; intros d; [done|]. cbn [sse_loop].
  destruct (sse_byte_bytes d b n) as (-> & Hb & Hf). destruct (sse_byte d b) as [d1 [m|e]]; [|done]. cbn in *.
  destruct (IH d1) as (-> & Hb1 & Hf1). destruct (sse_loop d1 l) as [d2 [ms|e]]; cbn in *; split_and!; congruence.
Qed.

Lemma sse_loop_app l k d :
  sse_loop d (l ++ k)
  = match sse_loop d l with
    | (d, Ok ms) => match sse_loop d k with (d, Ok ms') => (d, Ok (ms ++ ms')) | (d, Err e) => (d, Err e) end
    | (d, Err e) => (d, Err e)
    end.
Proof.
  revert d. induction l as [|b l IH]; intros d; cbn [app sse_loop]; [by destruct (sse_loop d k) as [? []]|].
  destruct (sse_byte d b) as [d1 [m|e]]; [|done]. rewrite IH.
  destruct (sse_loop d1 l) as [d2 [ms|e]]; [|done].
  destruct (sse_loop d2 k) as [d3 [ms'|e]]; [|done]. by rewrite app_assoc.
Qed.

(** Pushing chunks is one loop over their bytes, while their sizes are within the limits. *)
Lemma sse_run_loop chunks d : sse_failed d = false ->
  sse_run d chunks
  = if forallb (fun c => len c <=? MAX_REQUEST) chunks && (bool_decide (chunks = []) || (sse_bytes d + len (mjoin chunks) <=? MAX_RESPONSE))
    then match sse_loop d (mjoin chunks) with
         | (d', Ok ms) => Some (with_bytes d' (sse_bytes d + len (mjoin chunks)), ms)
         | (_, Err _) => None
         end
    else None.
Proof.
  revert d. induction chunks as [|c chunks IH]; intros d Hf.
  { cbn. change (len []) with 0. rewrite Z.add_0_r. by destruct d. }
  change (mjoin (c :: chunks)) with (c ++ mjoin chunks). rewrite bool_decide_false by done.
  cbn [sse_run forallb orb]. unfold sse_push, sse_push_inner. rewrite Hf, !Z.ltb_antisym.
  destruct (Z.leb_spec (len c) MAX_REQUEST); cbn [negb orb andb]; [|by destruct d].
  pose proof (len_nonneg (mjoin chunks)). rewrite len_app.
  destruct (Z.leb_spec (len c) (MAX_RESPONSE - sse_bytes d)); cbn [negb].
  2: { rewrite (proj2 (Z.leb_gt _ _)), andb_false_r by lia. by destruct d. }
  destruct (sse_loop_bytes c d (sse_bytes d + len c)) as (-> & Hb & Hf'). rewrite sse_loop_app.
  destruct (sse_loop d c) as [d1 [ms|e]]; cbn [fst snd] in *.
  2: { destruct (_ && _); by destruct d1. }
  assert (sse_failed (with_bytes d1 (sse_bytes d + len c)) = false) as Hf1 by (destruct d1; cbn in *; congruence).
  cbn [is_err is_ok negb]. rewrite (IH _ Hf1).
  replace (sse_bytes (with_bytes d1 _)) with (sse_bytes d + len c) by (by destruct d1).
  rewrite <-Z.add_assoc. destruct (forallb _ chunks); cbn [andb]; [|done].
  destruct (bool_decide (chunks = [])) eqn:Hn; cbn [orb].
  - bool_hyps. subst chunks. assert (len (mjoin (@nil (list byte))) = 0) as -> by done.
    rewrite (proj2 (Z.leb_le _ _)) by lia. cbn. rewrite app_nil_r. by destruct d1.
  - destruct (_ <=? _); [|done].
    destruct (sse_loop_bytes (mjoin chunks) d1 (sse_bytes d + len c)) as (-> & Hb1 & _).
    destruct (sse_loop d1 (mjoin chunks)) as [d2 [ms'|e]]; [|done]. by destruct d2.
Qed.

Lemma default_between (text : list byte) : len text <= MAX_RESPONSE -> Between SseDecoder_default [] (len text).
Proof. intros Ht. split; [apply Reading_nil|done|done]. Qed.

Lemma acceptable_read text :
  Acceptable text <-> len text <= MAX_RESPONSE /\ is_Some (read_text SseDecoder_default [] text).
Proof.
  unfold read_text, lines_from. cbn [SseDecoder_default sse_cur sse_cr after sse_events sse_seen].
  split.
  - intros [Ht Hl Htl Hb Hs]. unfold text_blocks in *. split; [done|].
    destruct (text_lines [] text) as [ls tail]. cbn [fst snd] in *. rewrite read_lines_blocks by done.
    destruct (blocks _ _) as [bs tl]. cbn [fst] in *.
    rewrite (proj2 (Z.leb_le (len tail) _)), (proj2 (Z.leb_le (0 + _) _)), (proj2 (forallb_Forall supported bs)) by done.
    rewrite (proj2 (forallb_Forall fair_line ls)); [by eexists|].
    eapply Forall_impl; [exact Hl|]. intros l [? ?]. unfold fair_line. by rewrite andb_true_iff, Z.leb_le.
  - intros [Ht Hs]. destruct (text_lines [] text) as [ls tail] eqn:Hls. rewrite read_lines_blocks in Hs by done.
    destruct (blocks [] (unmarked ls)) as [bs tl] eqn:Hbs.
    destruct (forallb fair_line ls && _) eqn:Hg; [|by destruct Hs]. destruct (_ && forallb _ _) eqn:Hg'; [|by destruct Hs].
    apply andb_true_iff in Hg as [Hg ?], Hg' as [? Hg']. apply forallb_Forall in Hg, Hg'. bool_hyps.
    split; unfold text_blocks; rewrite ?Hls; cbn [fst snd]; rewrite ?Hbs; try done.
    eapply Forall_impl; [exact Hg|]. intros l Hl. unfold fair_line in Hl. bool_hyps. done.
Qed.

Lemma read_text_default text ms n block : read_text SseDecoder_default [] text = Some (ms, n, block) ->
  ms = text_messages text /\ block = (text_blocks text).2.
Proof.
  unfold read_text, lines_from, text_messages, text_blocks.
  cbn [SseDecoder_default sse_cur sse_cr after sse_events sse_seen].
  destruct (text_lines [] text) as [ls tail]. rewrite read_lines_blocks by done. cbn [fst].
  destruct (blocks [] _) as [bs tl]. repeat (case_match; [|done]). by intros [= <- _ <-].
Qed.

Lemma sse_finish_ok d block : Reading d block -> sse_failed d = false ->
  sse_finish d = Ok tt <-> sse_cur d = [] /\ values "data" block = [] /\ values "event" block = [].
Proof.
  intros [Hd He _] Hf. unfold sse_finish. rewrite Hf, Hd, He.
  assert (flat_map (fun v => v ++ [LF]) (values "data" block) = [] <-> values "data" block = []) as <-.
  { destruct (values "data" block) as [|[|b v] vs]; [done|split; done..]. }
  repeat case_bool_decide; cbn; naive_solver.
Qed.

(** C31: the decoder of an upstream's event stream reads what the format says. However
    a stream is chunked, every push succeeds exactly when no chunk is too large and the
    text is within the limits of the decoder; the messages are then those of the blocks
    of the whole text, and the stream is complete exactly when nothing follows its last
    block but comments and unknown fields. *)
Theorem sse_reads_text chunks :
  match sse_run SseDecoder_default chunks with
  | Some (d, ms) =>
      Forall (fun c => len c <= MAX_REQUEST) chunks /\ Acceptable (mjoin chunks)
      /\ ms = text_messages (mjoin chunks)
      /\ (sse_finish d = Ok tt <->
          (text_lines [] (mjoin chunks)).2 = []
          /\ values "data" (text_blocks (mjoin chunks)).2 = []
          /\ values "event" (text_blocks (mjoin chunks)).2 = [])
  | None => ~ (Forall (fun c => len c <= MAX_REQUEST) chunks /\ Acceptable (mjoin chunks))
  end.
Proof.
  rewrite sse_run_loop by done. set (text := mjoin chunks). cbn [SseDecoder_default sse_bytes].
  destruct (forallb _ chunks) eqn:Hc; cbn [andb].
  2: { intros [Hall _]. apply not_true_iff_false in Hc. apply Hc, forallb_Forall.
       eapply Forall_impl; [exact Hall|]. intros c ?. by apply Z.leb_le. }
  apply forallb_Forall in Hc.
  replace (bool_decide (chunks = []) || _) with (len text <=? MAX_RESPONSE).
  2: { destruct chunks; [done|]. by rewrite bool_decide_false. }
  destruct (Z.leb_spec (len text) MAX_RESPONSE) as [Ht|Ht]; [|intros [_ [? _ _ _ _]]; lia].
  pose proof (sse_loop_reads text _ _ (default_between text Ht)) as Hr. unfold loop_reads in Hr.
  pose proof (sse_loop_bytes text SseDecoder_default 0) as (_ & _ & Hf).
  destruct (sse_loop SseDecoder_default text) as [d [ms|e]].
  2: { intros [_ Ha]. apply acceptable_read in Ha as [_ Ha]. rewrite Hr in Ha. by destruct Ha. }
  destruct Hr as (block & Hread & [Hrd _ _] & Hcur). split; [|split; [|split]].
  - eapply Forall_impl; [exact Hc|]. intros c ?. by apply Z.leb_le.
  - apply acceptable_read. split; [done|]. by rewrite Hread.
  - by apply read_text_default in Hread as [-> _].
  - apply read_text_default in Hread as [_ ->].
    replace (sse_finish (with_bytes d _)) with (sse_finish d) by (by destruct d).
    rewrite (sse_finish_ok _ _ Hrd), Hcur; [done|exact Hf].
Qed.
