(* ===== verification/McpWire.v ===== *)
(** * Remote MCP messages: the wire ([aap-mcp-upstream/src/wire.rs])

    Bounded strict decoding, member checks, identifiers, bounded encoding. [serde_json]
    is the class [JsonText]; what the sources deserialize into the [rmcp] crate's types
    is the class [Rmcp]. *)
From S2P Require Import Prelude Protocol Json Tools.

(** The JSON parser (with its end-of-input check), the buffers [to_writer] hands to its
    writer, and [Value::to_string]. *)
Class JsonText := {
  json_parse : list byte -> option raw;
  json_buffers : Value -> list (list byte) }.

Definition json_text `{JsonText} (v : Value) : list byte := mjoin (json_buffers v).

(** [Value::as_object], [get], [as_str], [as_array]. *)
Definition as_object (v : Value) : option (list (string * Value)) :=
  match v with Object m => Some m | _ => None end.
Definition get (v : Value) (key : string) : option Value := as_object v ≫= map_get key.
Definition value_str (v : Value) : option string := match v with Str s => Some s | _ => None end.
Definition as_array (v : Value) : option (list Value) := match v with Array l => Some l | _ => None end.

(** The structural scan: depth, tokens, whether in a string, whether escaped. *)
Record Scan := mkScan { sc_depth : Z; sc_tokens : Z; sc_string : bool; sc_escaped : bool }.

(** `aap-mcp-upstream/src/wire.rs:13-35`, `decode` (one byte of the scan) *)
Definition scan_byte (s : Scan) (b : byte) : Result Scan :=
  let '(mkScan depth tokens string escaped) := s in
  if string then
    Ok (if escaped then mkScan depth tokens true false
        else if bool_decide (b = "\"%char) then mkScan depth tokens true true
        else if byte_val b =? 34 then mkScan depth tokens false false
        else s)
  else
    let s :=
      if byte_val b =? 34 then mkScan depth tokens true escaped
      else if bool_decide (b ∈ as_bytes "{[") then mkScan (depth + 1) (tokens + 1) false escaped
      else if bool_decide (b ∈ as_bytes "}]") then mkScan (saturating_sub depth 1) tokens false escaped
      else if bool_decide (b ∈ as_bytes ",:") then mkScan depth (tokens + 1) false escaped
      else s in
    if (64 <? sc_depth s) || (32768 <? sc_tokens s) then fail LimitExceeded else Ok s.

Fixpoint scan_bytes (s : Scan) (l : list byte) : Result unit :=
  match l with
  | [] => Ok tt
  | b :: l => s ← scan_byte s b; scan_bytes s l
  end.

Section Wire.
Context `{JsonText}.

(** `aap-mcp-upstream/src/wire.rs:5-38`, `decode` *)
Definition decode (bytes : list byte) (limit : Z) : Result Value :=
  if limit <? len bytes then fail LimitExceeded
  else
    _ ← scan_bytes (mkScan 0 0 false false) bytes;
    ok_or (Json.decode json_parse Some bytes) (Error_new RequestInvalid).

(** `aap-mcp-upstream/src/wire.rs:40-46`, `object` *)
Definition object_with (value : Value) (keys : list string) : Result (list (string * Value)) :=
  object ← ok_or (as_object value) (Error_new RequestInvalid);
  if existsb (fun kv => negb (bool_decide (kv.1 ∈ keys))) object then fail RequestInvalid else Ok object.

(** `aap-mcp-upstream/src/wire.rs:48-56`, `empty_meta` *)
Definition empty_meta (value : Value) : Result unit :=
  match get value "_meta" with
  | Some (Object []) | None => Ok tt
  | Some _ => fail AuthProfileUnsupported
  end.

(** `aap-mcp-upstream/src/wire.rs:58-66`, `valid_id` *)
Definition max_safe : Z := 9007199254740991.
Definition valid_rpc_id (value : Value) : bool :=
  match value with
  | Str id => negb (bool_decide (id = EmptyString)) && (slen id <=? 128)
  | Num _ => match as_i64 value with
             | Some id => (- max_safe <=? id) && (id <=? max_safe)
             | None => false
             end
  | _ => false
  end.

(** `aap-mcp-upstream/src/wire.rs:68-91`, `encode`: the writer takes each buffer whole
    or refuses it *)
Fixpoint write_buffers (written : list byte) (limit : Z) (buffers : list (list byte)) : option (list byte) :=
  match buffers with
  | [] => Some written
  | b :: rest => if limit - len written <? len b then None else write_buffers (written ++ b) limit rest
  end.
Definition encode (value : Value) (limit : Z) : Result (list byte) :=
  ok_or (write_buffers [] limit (json_buffers value)) (Error_new LimitExceeded).

(** ** Facts *)

Lemma write_buffers_spec written limit buffers : len written <= limit ->
  write_buffers written limit buffers
  = if len written + len (mjoin buffers) <=? limit then Some (written ++ mjoin buffers) else None.
Proof.
  revert written. induction buffers as [|b buffers IH]; intros written Hw; cbn [write_buffers].
  - change (mjoin []) with (@nil byte). rewrite app_nil_r. change (len []) with 0.
    rewrite Z.add_0_r. by rewrite (proj2 (Z.leb_le _ _)).
  - change (mjoin (b :: buffers)) with (b ++ mjoin buffers). rewrite len_app.
    pose proof (len_nonneg (mjoin buffers)).
    destruct (Z.ltb_spec (limit - len written) (len b)); [by rewrite (proj2 (Z.leb_gt _ _)) by lia|].
    rewrite IH, len_app, <-Z.add_assoc, app_assoc by (rewrite len_app; lia). done.
Qed.

Lemma encode_spec value limit : 0 <= limit ->
  encode value limit
  = if len (json_text value) <=? limit then Ok (json_text value) else fail LimitExceeded.
Proof.
  intros Hl. unfold encode, json_text. rewrite write_buffers_spec by done. change (len []) with 0.
  rewrite Z.add_0_l. by destruct (_ <=? _).
Qed.

Lemma object_with_Ok value keys m :
  object_with value keys = Ok m <-> value = Object m /\ Forall (fun k => k ∈ keys) m.*1.
Proof.
  unfold object_with. rewrite bind_Ok. setoid_rewrite ok_or_Ok. split.
  - intros (o & Ho & Hm). destruct value; cbn in Ho; simplify_eq. destruct (existsb _ _) eqn:He; [done|].
    simplify_eq. split; [done|]. apply existsb_false in He. rewrite Forall_fmap.
    eapply Forall_impl; [exact He|]. intros [k v] Hk. bool_hyps. done.
  - intros [-> Hk]. exists m. split; [done|]. rewrite Forall_fmap in Hk.
    rewrite (proj2 (existsb_false _ _)); [done|]. eapply Forall_impl; [exact Hk|].
    intros [k v] ?. cbn in *. by rewrite bool_decide_true.
Qed.

Lemma empty_meta_Ok value :
  empty_meta value = Ok tt <-> get value "_meta" = None \/ get value "_meta" = Some (Object []).
Proof. unfold empty_meta. destruct (get value _) as [[| | | | |[]]|]; naive_solver. Qed.
End Wire.
