(* ===== verification/McpMessage.v ===== *)
(** * Remote MCP messages ([aap-mcp-upstream/src/profile.rs], [request.rs], [response.rs])

    An agent's message is validated against the enrolled tools and rebuilt for the
    upstream; an upstream's message is validated, rebuilt for the agent and redacted. *)
From S2P Require Import Prelude Protocol Ids Json Tools Catalog Profile Secrets Redaction McpWire.

(** ** Data *)

(** What the sources deserialize into the types of the [rmcp] crate, and read of them:
    the protocol version of an initialization, whether a server has tools, and whether
    a call result and a tool are well-formed. *)
Class Rmcp := {
  rmcp_initialize_params : Value -> option string;
  rmcp_initialize_result : Value -> option (string * bool);
  rmcp_call_result : Value -> bool;
  rmcp_tool : Value -> bool }.

(** `aap-types/src/mcp.rs:7`, `VERSION` *)
Definition VERSION : string := "2025-11-25".

(** `aap-mcp-upstream/src/lib.rs:34-41`, `Method` *)
Inductive Method := Initialize | Initialized | Ping | List | Call | Cancel.
#[export] Instance Method_eq_dec : EqDecision Method.
Proof. solve_decision. Defined.

(** `aap-mcp-upstream/src/lib.rs:19-22`, `Profile`; an [Arc<()>] is the identity of its
    allocation *)
Record McpProfile := mkProfile { p_tools : list (string * Tool); p_binding : nat }.
(** `aap-mcp-upstream/src/lib.rs:25-31`, `Request` *)
Record Request := mkRequest {
  rq_method : Method; rq_id : option Value; rq_params : Value; rq_cancellation : option Value; rq_binding : nat }.
(** `aap-mcp-upstream/src/lib.rs:49-53`, `Ping` *)
Record PingReply := mkPing { ping_id : Value; ping_owner : option nat; ping_used : bool }.
(** `aap-mcp-upstream/src/lib.rs:45-48`, `Message` *)
Inductive Message := Response (body : list byte) | PingMessage (ping : PingReply).

(** [value[key] = v] on an object. *)
Definition set_member (key : string) (v : Value) (value : Value) : Value :=
  match value with Object m => Object (map_insert key v m) | _ => value end.

(** [null] for [None]. *)
Definition json_option (o : option Z) : Value := match o with Some n => num n | None => Null end.

(** `aap-mcp-upstream/src/request.rs:144-146`, `implementation` *)
Definition implementation : Value := object [("name", Str "agent-auth-proxy"); ("version", Str "0.1.0")].

Section Messages.
Context `{Base64} `{JsonText} `{Rmcp} (to_writer : list Value -> list (list byte)).

(** ** Profile *)

(** `aap-mcp-upstream/src/profile.rs:10-19`, `Profile::new`; [binding] is the fresh
    allocation *)
Definition Profile_new (tools : list Tool) (binding : nat) : Result McpProfile :=
  _ ← validate_tools to_writer tools;
  Ok (mkProfile (foldl (fun m t => btree_insert (tool_name t) t m) [] tools) binding).

(** `aap-mcp-upstream/src/profile.rs:20-22`, `Profile::definitions` *)
Definition definitions (p : McpProfile) : list Value := map (fun kt => definition kt.2) (p_tools p).

(** ** Requests *)

(** [value.get(key).cloned().unwrap_or_else(|| json!({}))] *)
Definition member_or_empty (v : option Value) : Value := default (Object []) v.

(** `aap-mcp-upstream/src/request.rs:22-86`, `Profile::request` (the method, its
    rebuilt parameters and the identifier it cancels) *)
Definition request_params (p : McpProfile) (method : string) (params : Value)
    : Result (Method * Value * option Value) :=
  if bool_decide (method = "initialize") then
    _ ← object_with params ["protocolVersion"; "capabilities"; "clientInfo"; "_meta"];
    version ← ok_or (rmcp_initialize_params params) (Error_new RequestInvalid);
    if negb (bool_decide (version = VERSION)) then fail AuthProfileUnsupported
    else Ok (Initialize, object [("protocolVersion", Str VERSION); ("capabilities", Object []);
                                 ("clientInfo", implementation)], None)
  else if bool_decide (method ∈ ["ping"; "notifications/initialized"; "tools/list"]) then
    _ ← object_with params ["_meta"];
    Ok (if bool_decide (method = "ping") then Ping
        else if bool_decide (method = "tools/list") then List else Initialized, Object [], None)
  else if bool_decide (method = "tools/call") then
    _ ← object_with params ["name"; "arguments"; "_meta"];
    name ← ok_or (get params "name" ≫= value_str) (Error_new RequestInvalid);
    tool ← ok_or (btree_get name (p_tools p)) (Error_new PolicyDenied);
    let arguments := member_or_empty (get params "arguments") in
    if negb (accepts tool arguments) then fail PolicyDenied
    else Ok (Call, object [("name", Str name); ("arguments", arguments)], None)
  else if bool_decide (method = "notifications/cancelled") then
    _ ← object_with params ["requestId"; "reason"; "_meta"];
    target ← ok_or (id ← get params "requestId"; if valid_rpc_id id then Some id else None) (Error_new RequestInvalid);
    match get params "reason" with
    | Some (Str _) | None => Ok (Cancel, Object [], Some target)
    | Some _ => fail RequestInvalid
    end
  else fail AuthProfileUnsupported.

Definition notification (m : Method) : bool := bool_decide (m ∈ [Initialized; Cancel]).

(** `aap-mcp-upstream/src/request.rs:7-97`, `Profile::request` *)
Definition request (p : McpProfile) (body : list byte) : Result Request :=
  message ← decode body MAX_REQUEST;
  object ← object_with message ["jsonrpc"; "id"; "method"; "params"];
  if negb (bool_decide (map_get "jsonrpc" object = Some (Str "2.0")))
     || match map_get "id" object with Some id => negb (valid_rpc_id id) | None => false end
  then fail RequestInvalid
  else
    method ← ok_or (map_get "method" object ≫= value_str) (Error_new RequestInvalid);
    let id := map_get "id" object in
    let params := member_or_empty (map_get "params" object) in
    _ ← empty_meta params;
    '(method, params, cancellation_id) ← request_params p method params;
    if negb (Bool.eqb (bool_decide (id = None)) (notification method)) then fail RequestInvalid
    else Ok (mkRequest method id params cancellation_id (p_binding p)).

(** `aap-mcp-upstream/src/request.rs:119-126`, `Request::encode` (the method's name) *)
Definition method_name (m : Method) : string :=
  match m with
  | Initialize => "initialize" | Initialized => "notifications/initialized" | Ping => "ping"
  | List => "tools/list" | Call => "tools/call" | Cancel => "notifications/cancelled"
  end.

(** `aap-mcp-upstream/src/request.rs:113-141`, `Request::encode` *)
Definition encode_request (r : Request) (mapped_id : option Z) : Result (list byte) :=
  if match mapped_id with Some id => (id =? 0) || (max_safe <? id) | None => false end
     || negb (Bool.eqb (bool_decide (mapped_id = None)) (bool_decide (rq_method r = Initialized)))
  then fail RequestInvalid
  else
    let message := object [("jsonrpc", Str "2.0"); ("method", Str (method_name (rq_method r)))] in
    let message := match rq_id r with Some _ => set_member "id" (json_option mapped_id) message | None => message end in
    let message :=
      if bool_decide (rq_method r = Cancel)
      then set_member "params" (object [("requestId", json_option mapped_id)]) message
      else match as_object (rq_params r) with
           | Some (_ :: _) => set_member "params" (rq_params r) message
           | _ => message
           end in
    McpWire.encode message MAX_REQUEST.

(** ** Redaction of a message *)

(** `aap-mcp-upstream/src/response.rs:242-255`, `text` (the loop) *)
Fixpoint feed_text (r : Redactor) (pieces : list (list byte)) (budget : Z) (output : list byte)
    : Result (list byte * Z) :=
  match pieces with
  | [] => Ok (output, budget)
  | chunk :: rest =>
      let (r, fed) := feed r chunk (bool_decide (chunk = [])) in
      bytes ← fed;
      if budget <? len bytes then fail LimitExceeded
      else feed_text r rest (budget - len bytes) (output ++ bytes)
  end.

(** `aap-mcp-upstream/src/response.rs:241-257`, `text` *)
Definition text (value : string) (template : Redactor) (budget : Z) : Result (string * Z) :=
  let bytes := as_bytes value in
  '(output, budget) ← feed_text (fresh template) (chunks (length bytes) (Z.to_nat (16 * 1024)) bytes ++ [[]]) budget [];
  if from_utf8 output then Ok (from_bytes output, budget) else fail InspectionUnavailable.

(** [Value::to_string]. *)
Definition to_string (v : Value) : string := from_bytes (json_text v).

(** `aap-mcp-upstream/src/response.rs:259-289`, `sanitize`; the budget is threaded *)
Fixpoint sanitize (value : Value) (redactor : Redactor) (budget : Z) : Result (Value * Z) :=
  match value with
  | Str s => '(s, budget) ← text s redactor budget; Ok (Str s, budget)
  | Array values =>
      '(values, budget) ← (fix sanitize_all (values : list Value) (budget : Z) : Result (list Value * Z) :=
        match values with
        | [] => Ok ([], budget)
        | value :: rest =>
            '(value, budget) ← sanitize value redactor budget;
            '(rest, budget) ← sanitize_all rest budget;
            Ok (value :: rest, budget)
        end) values budget;
      Ok (Array values, budget)
  | Object values =>
      '(safe, budget) ← (fix sanitize_members (values safe : list (string * Value)) (budget : Z)
          : Result (list (string * Value) * Z) :=
        match values with
        | [] => Ok (safe, budget)
        | (key, value) :: rest =>
            '(key, budget) ← text key redactor budget;
            '(value, budget) ← sanitize value redactor budget;
            if contains_key safe key then fail InspectionUnavailable
            else sanitize_members rest (map_insert key value safe) budget
        end) values [] budget;
      Ok (Object safe, budget)
  | value =>
      let original := to_string value in
      '(safe, budget) ← text original redactor budget;
      Ok (if bool_decide (safe = original) then value else Str "[redacted]", budget)
  end.

(** ** Responses *)

(** `aap-mcp-upstream/src/response.rs:162-183`, `Profile::list` (the loop over the tools) *)
Fixpoint list_tools (p : McpProfile) (tools : list Value) (seen : gset string) : Result (gset string) :=
  match tools with
  | [] => Ok seen
  | tool :: rest =>
      if negb (rmcp_tool tool) then fail RequestInvalid
      else
        name ← ok_or (name ← get tool "name" ≫= value_str; if valid_name name 128 then Some name else None)
                 (Error_new RequestInvalid);
        if bool_decide (name ∈ seen) then fail RequestInvalid
        else
          match btree_get name (p_tools p) with
          | Some enrolled =>
              if negb (bool_decide (get tool "inputSchema" = Some (schema enrolled)))
                 || bool_decide (is_Some (get tool "outputSchema"))
                 || bool_decide (is_Some (get tool "execution"))
              then fail AuthProfileUnsupported
              else list_tools p rest ({[ name ]} ∪ seen)
          | None => list_tools p rest ({[ name ]} ∪ seen)
          end
  end.

(** `aap-mcp-upstream/src/response.rs:155-188`, `Profile::list` *)
Definition list_result (p : McpProfile) (result : Value) : Result Value :=
  _ ← object_with result ["tools"; "_meta"];
  tools ← ok_or (tools ← get result "tools" ≫= as_array; if len tools <=? 64 then Some tools else None)
            (Error_new RequestInvalid);
  seen ← list_tools p tools ∅;
  if existsb (fun kt => negb (bool_decide (kt.1 ∈ seen))) (p_tools p) then fail AuthProfileUnsupported
  else Ok (object [("tools", Array (definitions p))]).

(** `aap-mcp-upstream/src/response.rs:203-214`, `call_result` (the content blocks) *)
Fixpoint content_blocks (content : list Value) : Result (list Value) :=
  match content with
  | [] => Ok []
  | block :: rest =>
      _ ← object_with block ["type"; "text"; "annotations"; "_meta"];
      if negb (bool_decide (get block "type" = Some (Str "text"))) then fail AuthProfileUnsupported
      else
        text ← ok_or (get block "text" ≫= value_str) (Error_new RequestInvalid);
        rest ← content_blocks rest;
        Ok (object [("type", Str "text"); ("text", Str text)] :: rest)
  end.

(** `aap-mcp-upstream/src/response.rs:191-229`, `call_result` *)
Definition call_result (result : Value) : Result Value :=
  _ ← object_with result ["content"; "structuredContent"; "isError"; "_meta"];
  if negb (rmcp_call_result result) then fail RequestInvalid
  else
    content ← ok_or (content ← get result "content" ≫= as_array; if len content <=? 64 then Some content else None)
                (Error_new RequestInvalid);
    safe ← content_blocks content;
    let result_safe := object [("content", Array safe)] in
    result_safe ← match get result "structuredContent" with
                  | Some (Object m) => Ok (set_member "structuredContent" (Object m) result_safe)
                  | Some _ => fail RequestInvalid
                  | None => Ok result_safe
                  end;
    match get result "isError" with
    | Some (Bool b) => Ok (set_member "isError" (Bool b) result_safe)
    | Some _ => fail RequestInvalid
    | None => Ok result_safe
    end.

Definition upstream_id_valid (n : Z) : bool := negb ((n =? 0) || (max_safe <? n)).

(** `aap-mcp-upstream/src/response.rs:46-65`, `Profile::response_inner` (a server's ping) *)
Definition response_ping (message : Value) : Result Message :=
  _ ← object_with message ["jsonrpc"; "id"; "method"; "params"];
  if negb (bool_decide (get message "jsonrpc" = Some (Str "2.0")))
     || negb (bool_decide (get message "method" = Some (Str "ping")))
  then fail AuthProfileUnsupported
  else
    id ← ok_or (id ← get message "id"; if valid_rpc_id id then Some id else None) (Error_new RequestInvalid);
    let params := member_or_empty (get message "params") in
    _ ← object_with params ["_meta"];
    _ ← empty_meta params;
    Ok (PingMessage (mkPing id None false)).

(** `aap-mcp-upstream/src/response.rs:79-92`, `Profile::response_inner` (an error) *)
Definition response_error (agent_id error : Value) (redactor : Redactor) (budget : Z) : Result Value :=
  error ← object_with error ["code"; "message"; "data"];
  code ← ok_or (n ← map_get "code" error ≫= as_i64;
                if (- 2147483648 <=? n) && (n <=? 2147483647) then Some n else None) (Error_new RequestInvalid);
  if negb (bool_decide (is_Some (map_get "message" error ≫= value_str))) then fail RequestInvalid
  else
    '(safe, _) ← sanitize (num code) redactor budget;
    if negb (bool_decide (safe = num code)) then fail InspectionUnavailable
    else Ok (object [("jsonrpc", Str "2.0"); ("id", agent_id);
                     ("error", object [("code", num code); ("message", Str "upstream MCP request failed")])]).

(** `aap-mcp-upstream/src/response.rs:94-123`, `Profile::response_inner` (the rebuilt
    result) *)
Definition response_result (p : McpProfile) (method : Method) (result : Value) : Result Value :=
  match method with
  | Initialize =>
      _ ← object_with result ["protocolVersion"; "capabilities"; "serverInfo"; "instructions"; "_meta"];
      '(version, tools) ← ok_or (rmcp_initialize_result result) (Error_new RequestInvalid);
      if negb (bool_decide (version = VERSION)) || negb tools then fail AuthProfileUnsupported
      else Ok (object [("protocolVersion", Str VERSION); ("capabilities", object [("tools", Object [])]);
                       ("serverInfo", implementation)])
  | Ping => _ ← object_with result ["_meta"]; Ok (Object [])
  | List => list_result p result
  | Call => call_result result
  | _ => fail RequestInvalid
  end.

(** `aap-mcp-upstream/src/response.rs:129-149`, `Profile::response_inner` (the redacted
    result is still of its method) *)
Definition response_revalidate (p : McpProfile) (method : Method) (safe : Value) : Result unit :=
  match method with
  | Call => _ ← call_result safe; Ok tt
  | List => _ ← list_result p safe; Ok tt
  | Initialize =>
      '(version, tools) ← ok_or (rmcp_initialize_result safe) (Error_new InspectionUnavailable);
      if negb (bool_decide (version = VERSION)) || negb tools then fail InspectionUnavailable else Ok tt
  | Ping => _ ← object_with safe []; Ok tt
  | _ => fail InspectionUnavailable
  end.

(** `aap-mcp-upstream/src/response.rs:31-153`, `Profile::response_inner` *)
Definition response_inner (p : McpProfile) (r : Request) (upstream_id : Z) (body : list byte) (redactor : Redactor)
    : Result Message :=
  if negb (bool_decide (p_binding p = rq_binding r)) || bool_decide (rq_id r = None)
     || negb (upstream_id_valid upstream_id)
  then fail RequestInvalid
  else
    message ← decode body MAX_RESPONSE;
    if bool_decide (is_Some (get message "method")) then response_ping message
    else
      object ← object_with message ["jsonrpc"; "id"; "result"; "error"];
      if negb (bool_decide (map_get "jsonrpc" object = Some (Str "2.0")))
         || negb (bool_decide (map_get "id" object = Some (num upstream_id)))
         || Bool.eqb (contains_key object "result") (contains_key object "error")
      then fail RequestInvalid
      else
        agent_id ← ok_or (rq_id r) (Error_new RequestInvalid);
        '(safe, budget) ← sanitize agent_id redactor MAX_RESPONSE;
        if negb (bool_decide (safe = agent_id)) then fail InspectionUnavailable
        else
          reply ← match map_get "error" object with
                  | Some error => response_error agent_id error redactor budget
                  | None =>
                      result ← ok_or (map_get "result" object) (Error_new RequestInvalid);
                      safe ← response_result p (rq_method r) result;
                      '(safe, _) ← sanitize safe redactor budget;
                      _ ← response_revalidate p (rq_method r) safe;
                      Ok (Tools.object [("jsonrpc", Str "2.0"); ("id", agent_id); ("result", safe)])
                  end;
          bytes ← McpWire.encode reply MAX_RESPONSE;
          Ok (Response bytes).

(** `aap-mcp-upstream/src/response.rs:14-29`, `Profile::response` *)
Definition response (p : McpProfile) (r : Request) (upstream_id : Z) (body : list byte) (redactor : Redactor)
    : Result Message :=
  match response_inner p r upstream_id body redactor with
  | Ok m => Ok m
  | Err e => if bool_decide (code e = LimitExceeded) then Err e else fail InspectionUnavailable
  end.

(** `aap-mcp-upstream/src/response.rs:231-239`, `Ping::response` *)
Definition ping_response (ping : PingReply) : Result (list byte) :=
  McpWire.encode (object [("jsonrpc", Str "2.0"); ("id", ping_id ping); ("result", Object [])]) MAX_RESPONSE.
End Messages.
