(* ===== verification/McpCustody.v ===== *)
(** * Remote MCP messages: what reaches the upstream and the agent

    What the agent's message becomes, and that no known form of a credential or of a
    private session survives in what the agent gets back. *)
From S2P Require Import Prelude Protocol Ids Json Tools Catalog Profile Secrets Redaction McpWire McpMessage.

(** ** Redacted values *)

(** A text made of pieces of which no passed byte begins a known pattern. *)
Definition hidden (ps : list (list byte)) (s : string) : Prop :=
  exists ss, as_bytes s = flat_map render ss
    /\ forall i b p, ss !! i = Some (Shown b) -> p ∈ ps -> starts_with (flat_map source (drop i ss)) p = false.

Definition scalar (v : Value) : Prop :=
  match v with Null | Bool _ | Num _ => True | _ => False end.

(** Every text of a value is hidden, the spelling of its scalars and its keys included. *)
Inductive Redacted `{JsonText} (ps : list (list byte)) : Value -> Prop :=
  | RdText s : hidden ps s -> Redacted ps (Str s)
  | RdMark : Redacted ps (Str "[redacted]")
  | RdScalar v : scalar v -> hidden ps (to_string v) -> Redacted ps v
  | RdArray l : Forall (Redacted ps) l -> Redacted ps (Array l)
  | RdObject m : Forall (fun kv => hidden ps kv.1 /\ Redacted ps kv.2) m -> Redacted ps (Object m).

(** Induction on [Value] through the nested lists. *)
Section ValueInd.
Variable P : Value -> Prop.
Hypothesis HScalar : forall v, scalar v -> P v.
Hypothesis HText : forall s, P (Str s).
Hypothesis HArray : forall l, Forall P l -> P (Array l).
Hypothesis HObject : forall m, Forall (fun kv => P kv.2) m -> P (Object m).
Fixpoint value_ind' (v : Value) : P v.
Proof.
  destruct v as [| | | |l|m]; [by apply HScalar..|apply HText| |].
  - apply HArray. induction l as [|x l IH]; constructor; [apply value_ind'|apply IH].
  - apply HObject. induction m as [|[k x] m IH]; constructor; [apply value_ind'|apply IH].
Qed.
End ValueInd.

Lemma map_insert_Forall (P : string * Value -> Prop) k v m :
  P (k, v) -> Forall P m -> Forall P (map_insert k v m).
Proof.
  intros Hk. induction 1 as [|[k' v'] m Hx Hm IH]; cbn; [by constructor|].
  destruct (String.compare k k'); by repeat constructor.
Qed.

Section Custody.
Context `{Base64} `{JsonText} `{Rmcp}.

(** The named inner loops of [sanitize]. *)
Fixpoint sanitize_all (values : list Value) (redactor : Redactor) (budget : Z) : Result (list Value * Z) :=
  match values with
  | [] => Ok ([], budget)
  | value :: rest =>
      '(value, budget) ← sanitize value redactor budget;
      '(rest, budget) ← sanitize_all rest redactor budget;
      Ok (value :: rest, budget)
  end.
Fixpoint sanitize_members (values safe : list (string * Value)) (redactor : Redactor) (budget : Z)
    : Result (list (string * Value) * Z) :=
  match values with
  | [] => Ok (safe, budget)
  | (key, value) :: rest =>
      '(key, budget) ← text key redactor budget;
      '(value, budget) ← sanitize value redactor budget;
      if contains_key safe key then fail InspectionUnavailable
      else sanitize_members rest (map_insert key value safe) redactor budget
  end.

Lemma sanitize_Array l r b :
  sanitize (Array l) r b = '(l, b) ← sanitize_all l r b; Ok (Array l, b).
Proof.
  cbn [sanitize]. f_equal. revert b. induction l as [|v l IH]; intros b; [done|].
  cbn [sanitize_all]. destruct (sanitize v r b) as [[v' b']|e]; [|done]. cbn. by rewrite IH.
Qed.
Lemma sanitize_Object m r b :
  sanitize (Object m) r b = '(m, b) ← sanitize_members m [] r b; Ok (Object m, b).
Proof.
  cbn [sanitize]. f_equal. generalize (@nil (string * Value)). revert b.
  induction m as [|[k v] m IH]; intros b safe; [done|]. cbn [sanitize_members].
  destruct (text k r b) as [[k' b1]|e]; [|done]. cbn. destruct (sanitize v r b1) as [[v' b2]|e]; [|done]. cbn.
  destruct (contains_key safe k'); [done|]. by rewrite IH.
Qed.

(** ** The text of one string *)

Lemma feed_text_spec cs r budget output out left : done_ r = false -> Forall (fun c => c <> []) cs ->
  feed_text r (cs ++ [[]]) budget output = Ok (out, left) ->
  exists o, feed_all r cs = Some o /\ out = output ++ o /\ left = budget - len o.
Proof.
  intros Hd Hc. revert r budget output Hd. induction Hc as [|c cs Hne _ IH]; intros r budget output Hd.
  - cbn [app feed_text]. rewrite bool_decide_true by done. cbn [feed_all].
    destruct (feed r [] true) as [r' [bytes|e]]; [|done]. cbn [mbind result_bind snd ok].
    destruct (_ <? _); [done|]. intros [= <- <-]. by exists bytes.
  - cbn [app feed_text feed_all]. rewrite bool_decide_false by done.
    destruct (feed r c false) as [r' [bytes|e]] eqn:Hf; [|done]. cbn [mbind result_bind].
    destruct (_ <? _); [done|]. intros Hrun.
    assert (done_ r' = false) as Hd'.
    { unfold feed in Hf. destruct (_ || _); [done|]. destruct (scan _ _ _ _ _). by simplify_eq. }
    destruct (IH _ _ _ Hd' Hrun) as (o & -> & -> & ->). exists (bytes ++ o).
    split_and!; [done|by rewrite app_assoc|rewrite len_app; lia].
Qed.

Lemma text_spec value r budget s left : wf_patterns (patterns r) (longest r) ->
  text value r budget = Ok (s, left) ->
  as_bytes s = flat_map render (pieces (find_pattern (patterns r)) (as_bytes value))
  /\ left = budget - slen s.
Proof.
  intros Hwf Ht. unfold text in Ht.
  destruct (chunks_spec (length (as_bytes value)) (Z.to_nat (16 * 1024)) (as_bytes value)) as [Hj Hs]; [done|lia|].
  set (cs := chunks _ _ _) in *. apply bind_Ok in Ht as ([out left'] & E & Ht). destruct (from_utf8 out); [|done].
  simplify_eq. apply feed_text_spec in E as (o & Hf & -> & ->); [|done|].
  2: { eapply Forall_impl; [exact Hs|]. intros [|] ? ?; cbn in *; [lia|done]. }
  rewrite (feed_all_spec cs (fresh r)) in Hf; [|done|done|].
  2: { eapply Forall_impl; [exact Hs|]. intros c [_ Hc]. unfold len, MAX_FEED. lia. }
  cbn in Hf. simplify_eq. rewrite Hj, as_from_bytes. split; [done|].
  by rewrite <-len_as_bytes, as_from_bytes.
Qed.

Lemma text_hidden value r budget s left : wf_patterns (patterns r) (longest r) ->
  text value r budget = Ok (s, left) -> hidden (patterns r) s.
Proof.
  intros Hwf Ht. apply text_spec in Ht as [Hs _]; [|done].
  pose proof (find_pattern_matcher _ _ Hwf) as Hm. eexists. split; [exact Hs|].
  intros i b p Hi Hp. apply (spans_shown Hm) in Hi; [|done]. eapply find_pattern_None; done.
Qed.

(** ** Values *)

Lemma sanitize_redacts value r budget safe left : wf_patterns (patterns r) (longest r) ->
  sanitize value r budget = Ok (safe, left) -> Redacted (patterns r) safe.
Proof.
  intros Hwf. revert budget safe left. induction value as [v Hv|s|l IH|m IH] using value_ind'; intros budget safe left.
  - intros Hs. assert (exists t b, text (to_string v) r budget = Ok (t, b)
        /\ safe = if bool_decide (t = to_string v) then v else Str "[redacted]") as (t & b & Ht & ->).
    { destruct v; try done; cbn [sanitize] in Hs; apply bind_Ok in Hs as ([t b'] & Ht & Hs);
        exists t, b'; (split; [exact Ht|congruence]). }
    case_bool_decide; [|apply RdMark]. subst t. apply RdScalar; [done|by eapply text_hidden].
  - cbn [sanitize]. intros ([t b'] & E & Hs)%bind_Ok. simplify_eq.
    apply RdText. by eapply text_hidden.
  - rewrite sanitize_Array. intros ([l' b'] & E & Hs)%bind_Ok. simplify_eq. apply RdArray.
    revert budget l' left E. induction IH as [|v l Hv _ IHl]; intros budget l' left E; cbn [sanitize_all] in E.
    { simplify_eq. constructor. }
    apply bind_Ok in E as ([v' b1] & E1 & E). apply bind_Ok in E as ([l1 b2] & E2 & E). simplify_eq.
    constructor; eauto.
  - rewrite sanitize_Object. intros ([m' b'] & E & Hs)%bind_Ok. simplify_eq. apply RdObject.
    assert (Forall (fun kv => hidden (patterns r) kv.1 /\ Redacted (patterns r) kv.2) (@nil (string * Value))) as Hsafe
      by constructor.
    revert Hsafe budget E. generalize (@nil (string * Value)).
    induction IH as [|[k v] m Hv _ IHm]; intros safe Hsafe budget E; cbn [sanitize_members] in E; [by simplify_eq|].
    apply bind_Ok in E as ([k' b1] & E1 & E). apply bind_Ok in E as ([v' b2] & E2 & E).
    destruct (contains_key safe k'); [done|]. eapply IHm; [|done].
    apply map_insert_Forall; [|done]. split; [by eapply text_hidden|by eapply Hv].
Qed.

(** A merged redactor knows what both know. *)
Lemma merged_Ok r other r' : merged r other = Ok r' ->
  wf_patterns (patterns r) (longest r) -> wf_patterns (patterns other) (longest other) ->
  wf_patterns (patterns r') (longest r') /\ patterns r ⊆ patterns r' /\ patterns other ⊆ patterns r'.
Proof.
  unfold merged. intros Hm Hr Ho. destruct (_ || _); [done|]. injection Hm as <-. cbn.
  assert (forall p, p ∈ sort_by longer (dedup (sort_by bytes_le (patterns r ++ patterns other)))
            <-> p ∈ patterns r \/ p ∈ patterns other) as Hin.
  { intros p. by rewrite elem_sort_by, elem_dedup, elem_sort_by, elem_of_app. }
  split_and!; [|intros p Hp; apply Hin; auto..]. apply Forall_forall. intros p Hp. split.
  - apply Hin in Hp as [Hp|Hp]; [eapply Forall_forall in Hr as [? _]|eapply Forall_forall in Ho as [? _]]; done.
  - exact (proj1 (Forall_forall _ _) (longest_of_sorted _) p Hp).
Qed.

(** ** Requests *)

(** The members besides the version and the method of a message to the upstream. *)
Definition reviewed (p : McpProfile) (m : Method) (mapped : option Z) (members : list (string * Value)) : Prop :=
  match m with
  | Initialized => mapped = None /\ members = []
  | Cancel => exists n, mapped = Some n /\ 1 <= n <= max_safe /\ members = [("params", object [("requestId", num n)])]
  | Initialize => exists n, mapped = Some n /\ 1 <= n <= max_safe
      /\ members = [("id", num n); ("params", object [("protocolVersion", Str VERSION); ("capabilities", Object []);
                                                       ("clientInfo", implementation)])]
  | Ping | List => exists n, mapped = Some n /\ 1 <= n <= max_safe /\ members = [("id", num n)]
  | Call => exists n name tool arguments, mapped = Some n /\ 1 <= n <= max_safe
      /\ (name, tool) ∈ p_tools p /\ accepts tool arguments = true
      /\ members = [("id", num n); ("params", object [("name", Str name); ("arguments", arguments)])]
  end.

(** The parameters a request keeps of the agent's message. *)
Definition kept (p : McpProfile) (m : Method) (params : Value) (cancellation : option Value) : Prop :=
  match m with
  | Initialize => params = object [("protocolVersion", Str VERSION); ("capabilities", Object []);
                                   ("clientInfo", implementation)]
  | Call => exists name tool arguments, (name, tool) ∈ p_tools p /\ accepts tool arguments = true
      /\ params = object [("name", Str name); ("arguments", arguments)]
  | _ => params = Object []
  end
  /\ match m with
     | Cancel => exists id, cancellation = Some id /\ valid_rpc_id id = true
     | _ => cancellation = None
     end.

Lemma request_params_kept p method params m params' cancellation :
  request_params p method params = Ok (m, params', cancellation) -> kept p m params' cancellation.
Proof.
  unfold request_params. case_bool_decide.
  { intros (? & _ & Hs)%bind_Ok. apply bind_Ok in Hs as (? & _ & Hs). destruct (negb _); [done|]. by simplify_eq. }
  case_bool_decide.
  { intros (? & _ & Hs)%bind_Ok. simplify_eq. repeat case_bool_decide; done. }
  case_bool_decide.
  { intros (? & _ & Hs)%bind_Ok. apply bind_Ok in Hs as (name & _ & Hs). apply bind_Ok in Hs as (tool & Ht & Hs).
    apply ok_or_Ok, btree_get_elem in Ht. destruct (negb _) eqn:Ha; [done|]. bool_hyps. simplify_eq.
    split; [|done]. by exists name, tool, (member_or_empty (get params "arguments")). }
  case_bool_decide; [|done].
  intros (? & _ & Hs)%bind_Ok. apply bind_Ok in Hs as (target & Ht & Hs). apply ok_or_Ok in Ht.
  destruct (get params "requestId") as [id|]; cbn in Ht; [|done]. destruct (valid_rpc_id id) eqn:Hid; simplify_eq.
  destruct (get params "reason") as [[]|]; simplify_eq; split; eauto.
Qed.

Lemma request_Ok p body r : request p body = Ok r ->
  rq_binding r = p_binding p /\ kept p (rq_method r) (rq_params r) (rq_cancellation r)
  /\ (rq_id r = None <-> notification (rq_method r) = true)
  /\ forall id, rq_id r = Some id -> valid_rpc_id id = true.
Proof.
  unfold request. intros (message & _ & Hs)%bind_Ok. apply bind_Ok in Hs as (obj & _ & Hs).
  destruct (_ || _) eqn:Hb; [done|]. bool_hyps.
  apply bind_Ok in Hs as (method & _ & Hs). apply bind_Ok in Hs as (? & _ & Hs).
  apply bind_Ok in Hs as ([[m params] cancellation] & Hk & Hs). apply request_params_kept in Hk.
  destruct (negb (Bool.eqb _ _)) eqn:Hn; [done|]. bool_hyps. apply Bool.eqb_prop in Hn. simplify_eq. cbn.
  split_and!; [done|done| |].
  - rewrite <-Hn. by rewrite bool_decide_eq_true.
  - intros id Hid. rewrite Hid in *. by bool_hyps.
Qed.

(** The message a request is sent as. *)
Lemma encode_request_message r mapped bytes : encode_request r mapped = Ok bytes ->
  (forall n, mapped = Some n -> 0 <= n) ->
  exists message, len (json_text message) <= MAX_REQUEST /\ bytes = json_text message
    /\ (if decide (rq_method r = Initialized) then mapped = None
        else exists n, mapped = Some n /\ 1 <= n <= max_safe)
    /\ message =
       let message := object [("jsonrpc", Str "2.0"); ("method", Str (method_name (rq_method r)))] in
       let message := match rq_id r with Some _ => set_member "id" (json_option mapped) message | None => message end in
       if decide (rq_method r = Cancel) then set_member "params" (object [("requestId", json_option mapped)]) message
       else match as_object (rq_params r) with
            | Some (_ :: _) => set_member "params" (rq_params r) message
            | _ => message
            end.
Proof.
  intros He Hpos. unfold encode_request in He. destruct (_ || negb _) eqn:Hb; [done|].
  apply orb_false_iff in Hb as [Hrange Hsome]. apply negb_false_iff, Bool.eqb_prop in Hsome.
  rewrite encode_spec in He by done. match type of He with context [json_text ?m] => set (message := m) in He end.
  destruct (Z.leb_spec (len (json_text message)) MAX_REQUEST); [|done]. injection He as <-.
  exists message. split; [done|]. split; [done|]. split; [|unfold message; by repeat case_bool_decide; repeat case_decide].
  case_decide as Hi.
  - rewrite (bool_decide_true (rq_method r = _)) in Hsome by done. by bool_hyps.
  - rewrite (bool_decide_false (rq_method r = _)) in Hsome by done. bool_hyps.
    destruct mapped as [n|]; [|done]. exists n. bool_hyps. specialize (Hpos n eq_refl). split; [done|lia].
Qed.


(** ** Responses *)

Definition error_reply (agent_id : Value) (code : Z) : Value :=
  object [("jsonrpc", Str "2.0"); ("id", agent_id);
          ("error", object [("code", num code); ("message", Str "upstream MCP request failed")])].
Definition result_reply (agent_id safe : Value) : Value :=
  object [("jsonrpc", Str "2.0"); ("id", agent_id); ("result", safe)].

(** What a result is rebuilt as, before it is redacted. *)
Definition rebuilt (p : McpProfile) (m : Method) (v : Value) : Prop :=
  match m with
  | Initialize => v = object [("protocolVersion", Str VERSION); ("capabilities", object [("tools", Object [])]);
                              ("serverInfo", implementation)]
  | Ping => v = Object []
  | List => v = object [("tools", Array (definitions p))]
  | Call => exists texts m, v = Object m /\ len texts <= 64
      /\ map_get "content" m = Some (Array (map (fun t => object [("type", Str "text"); ("text", Str t)]) texts))
      /\ Forall (fun k => k ∈ ["content"; "structuredContent"; "isError"]) m.*1
  | _ => False
  end.

Lemma content_blocks_Ok content safe : content_blocks content = Ok safe ->
  exists texts, len texts = len content
    /\ safe = map (fun t => object [("type", Str "text"); ("text", Str t)]) texts.
Proof.
  revert safe. induction content as [|b rest IH]; intros safe; cbn [content_blocks].
  { intros [= <-]. by exists []. }
  intros (m & _ & Hs)%bind_Ok. destruct (negb _); [done|].
  apply bind_Ok in Hs as (t & _ & Hs). apply bind_Ok in Hs as (safe' & Hr & Hs). simplify_eq.
  destruct (IH _ Hr) as (texts & Hl & ->). exists (t :: texts). by rewrite !len_cons, Hl.
Qed.

Lemma call_result_rebuilt result v p : call_result result = Ok v -> rebuilt p Call v.
Proof.
  unfold call_result. intros (m & _ & Hs)%bind_Ok. destruct (negb _); [done|].
  apply bind_Ok in Hs as (content & Hc & Hs). apply bind_Ok in Hs as (safe & Hb & Hs).
  apply bind_Ok in Hs as (v1 & Hv1 & Hs). apply content_blocks_Ok in Hb as (texts & Hl & ->).
  assert (len texts <= 64) as Hlen.
  { apply ok_or_Ok in Hc. destruct (_ ≫= as_array) as [l|]; cbn in Hc; [|done].
    destruct (Z.leb_spec (len l) 64); simplify_eq. lia. }
  cbn [rebuilt]. exists texts. set (blocks := Array _) in *.
  assert (v1 = Object [("content", blocks)]
    \/ exists s, v1 = Object [("content", blocks); ("structuredContent", s)]) as Hcases.
  { destruct (get result "structuredContent") as [[]|]; simplify_eq; [right; by eexists|by left]. }
  assert (exists m1, v1 = Object m1 /\ map_get "content" m1 = Some blocks
            /\ Forall (fun k => k ∈ ["content"; "structuredContent"; "isError"]) m1.*1) as (m1 & -> & Hg & Hk).
  { destruct Hcases as [->|[s ->]]; (eexists; split; [reflexivity|split; [done|]]); repeat constructor; set_solver. }
  destruct (get result "isError") as [[]|]; simplify_eq; [|by exists m1].
  eexists. cbn [set_member]. split_and!; [done..| |].
  - rewrite map_get_insert. by rewrite decide_False.
  - rewrite Forall_fmap in *. apply map_insert_Forall; [|done]. cbn. set_solver.
Qed.

Lemma response_result_rebuilt p m result v : response_result p m result = Ok v -> rebuilt p m v.
Proof.
  destruct m; cbn [response_result]; [| done | | | |done].
  - intros (x & _ & Hs)%bind_Ok. apply bind_Ok in Hs as ([version tools] & _ & Hs).
    destruct (_ || _); [done|]. by simplify_eq.
  - intros (x & _ & Hs)%bind_Ok. by simplify_eq.
  - unfold list_result. intros (x & _ & Hs)%bind_Ok. apply bind_Ok in Hs as (tools & _ & Hs).
    apply bind_Ok in Hs as (seen & _ & Hs). destruct (existsb _ _); [done|]. by simplify_eq.
  - apply call_result_rebuilt.
Qed.

(** A delivered message: of the profile that read the request, within the limit, with the
    agent's own identifier, an error with a fixed text or a rebuilt and redacted result. *)
Definition answers (p : McpProfile) (r : Request) (rd : Redactor) (bytes : list byte) : Prop :=
  exists agent_id reply, rq_id r = Some agent_id /\ p_binding p = rq_binding r
    /\ bytes = json_text reply /\ len bytes <= MAX_RESPONSE
    /\ Redacted (patterns rd) agent_id
    /\ ((exists code, reply = error_reply agent_id code /\ Redacted (patterns rd) (num code))
        \/ exists whole budget safe left, reply = result_reply agent_id safe
             /\ rebuilt p (rq_method r) whole /\ sanitize whole rd budget = Ok (safe, left)
             /\ Redacted (patterns rd) safe).

(** A response delivered for a request is of the profile that read the request, and the
    upstream's identifier in it was the proxy's. *)
Lemma response_answers p r upstream_id body rd bytes :
  wf_patterns (patterns rd) (longest rd) ->
  response p r upstream_id body rd = Ok (Response bytes) ->
  answers p r rd bytes
  /\ exists message, McpWire.decode body MAX_RESPONSE = Ok message /\ get message "id" = Some (num upstream_id).
Proof.
  intros Hwf Hr. unfold response in Hr. destruct (response_inner _ _ _ _ _) as [m|e] eqn:Hin; [|by case_match].
  injection Hr as ->. unfold response_inner in Hin. destruct (_ || _) eqn:Hb; [done|]. bool_hyps.
  apply bind_Ok in Hin as (message & Hmsg & Hin).
  case_bool_decide.
  { unfold response_ping in Hin. apply bind_Ok in Hin as (? & _ & Hin). destruct (_ || _); [done|].
    repeat (apply bind_Ok in Hin as (? & _ & Hin)). done. }
  apply bind_Ok in Hin as (obj & Hobj & Hin). apply object_with_Ok in Hobj as [-> _].
  destruct (_ || _) eqn:Hfields; [done|]. bool_hyps.
  apply bind_Ok in Hin as (agent_id & Hid & Hin). apply ok_or_Ok in Hid.
  apply bind_Ok in Hin as ([safe_id budget] & Hs & Hin).
  destruct (negb (bool_decide (safe_id = agent_id))) eqn:Hsame; [done|]. bool_hyps. subst safe_id.
  apply bind_Ok in Hin as (reply & Hreply & Hin). apply bind_Ok in Hin as (out & Hout & Hin). simplify_eq.
  rewrite encode_spec in Hout by done. destruct (Z.leb_spec (len (json_text reply)) MAX_RESPONSE); [|done].
  injection Hout as <-. split; [|by eexists].
  exists agent_id, reply. split_and!; [done..|by eapply sanitize_redacts|].
  destruct (map_get "error" obj) as [error|].
  - left. unfold response_error in Hreply. apply bind_Ok in Hreply as (? & _ & Hreply).
    apply bind_Ok in Hreply as (code & _ & Hreply). destruct (negb _); [done|].
    apply bind_Ok in Hreply as ([safe left] & Hsafe & Hreply).
    destruct (negb (bool_decide (safe = num code))) eqn:Hcode; [done|]. bool_hyps. subst safe. simplify_eq.
    exists code. split; [done|by eapply sanitize_redacts].
  - right. apply bind_Ok in Hreply as (result & _ & Hreply). apply bind_Ok in Hreply as (whole & Hw & Hreply).
    apply bind_Ok in Hreply as ([safe left] & Hsafe & Hreply). apply bind_Ok in Hreply as (? & _ & Hreply).
    simplify_eq. exists whole, budget, safe, left.
    split_and!; [done|by eapply response_result_rebuilt|done|by eapply sanitize_redacts].
Qed.
End Custody.
