(* ===== verification/McpHeaders.v ===== *)
(** * Remote MCP: response headers ([aap-mcp-upstream/src/context/headers.rs])

    Which headers and statuses of an upstream's response are admitted, in which format
    its body is read, and the redactor that reads it; the acknowledgments of control
    requests and of a session's end ([context.rs]). *)
From S2P Require Import Prelude Protocol Ids Json Tools Catalog Profile Secrets Redaction Injection Endpoint.
From S2P Require Import McpWire McpMessage McpCustody.

(** A [HeaderMap]: its values in order, under canonical names. *)
Abbreviation Headers := (list (string * list byte)).

(** `aap-mcp-upstream/src/context/headers.rs:7-11`, `Format` *)
Inductive Format := FormatEmpty | FormatJson | FormatSse.
#[export] Instance Format_eq_dec : EqDecision Format.
Proof. solve_decision. Defined.

(** `aap-mcp-upstream/src/context/headers.rs:12-16`, `Admitted` *)
Record AdmittedResponse := mkAdmitted { format : Format; native : option (list byte); redactor : Redactor }.

(** `aap-mcp-upstream/src/context/headers.rs:18-50`, `validate` *)
Definition validate_headers (hs : Headers) : Result unit :=
  if (64 <? len hs) || (16 * 1024 <? foldr (fun h n => slen h.1 + len h.2 + n) 0 hs) then fail LimitExceeded
  else if existsb (fun name => 1 <? len (get_all name hs))
            ["content-type"; "content-encoding"; "mcp-session-id"; "mcp-protocol-version"]
  then fail InspectionUnavailable
  else if negb (bool_decide (get_all "set-cookie" hs = [])) || negb (bool_decide (get_all "trailer" hs = []))
     || match head (get_all "content-encoding" hs) with
        | Some v => negb (bool_decide (v = as_bytes "identity")) | None => false end
     || match head (get_all "mcp-protocol-version" hs) with
        | Some v => negb (bool_decide (v = as_bytes VERSION)) | None => false end
  then fail InspectionUnavailable
  else Ok tt.

Section Headers.
Context `{Base64} `{HttpMessage} `{JsonText}.

(** [serde_json::to_vec] of a text. *)
Definition json_string (v : list byte) : option (list byte) := Some (json_text (Str (from_bytes v))).

(** `aap-mcp-upstream/src/context/headers.rs:98-118`, `admit` (the format of the body) *)
Definition media_format (hs : Headers) : Result Format :=
  media ← ok_or (head (get_all "content-type" hs) ≫= to_str) (Error_new InspectionUnavailable);
  let parts := split ";"%char media in
  let media := from_bytes (trim (default [] (head parts))) in
  if match tail parts with
     | p :: _ => negb (eq_ignore_ascii_case (from_bytes (trim p)) "charset=utf-8")
     | [] => false
     end
     || negb (bool_decide (drop 2 parts = []))
  then fail InspectionUnavailable
  else if eq_ignore_ascii_case media "application/json" then Ok FormatJson
  else if eq_ignore_ascii_case media "text/event-stream" then Ok FormatSse
  else fail InspectionUnavailable.

(** `aap-mcp-upstream/src/context/headers.rs:78-94`, `admit` (the session identifier) *)
Definition native_session (method : Method) (hs : Headers) : Result (option (list byte)) :=
  match head (get_all "mcp-session-id" hs) with
  | Some value =>
      if negb (bool_decide (method = Initialize)) || bool_decide (value = []) || (1024 <? len value)
         || negb (forallb (in_range 33 126) value)
      then fail InspectionUnavailable
      else Ok (Some value)
  | None => Ok None
  end.

(** `aap-mcp-upstream/src/context/headers.rs:52-129`, `admit` *)
Definition admit_response (method : Method) (status : Z) (hs : Headers) (previous : option (list byte)) (template : Redactor)
    : Result AdmittedResponse :=
  _ ← validate_headers hs;
  let empty := notification method in
  if negb (status =? (if empty then 202 else 200)) then
    fail (if bool_decide (status ∈ [401; 403; 404]) then AuthFailed else InspectionUnavailable)
  else
    native ← native_session method hs;
    format ← (if empty then Ok FormatEmpty else media_format hs);
    redactor ← match (match native with Some v => Some v | None => previous end) with
               | Some value =>
                   known ← Redactor_new json_string [value];
                   merged (fresh template) known
               | None => Ok (fresh template)
               end;
    Ok (mkAdmitted format native redactor).

(** `aap-mcp-upstream/src/context.rs:23-26`, `validate_control_ack` *)
Definition validate_control_ack (status : Z) (hs : Headers) : Result unit :=
  template ← Redactor_new json_string [];
  _ ← admit_response Cancel status hs None template;
  Ok tt.

(** `aap-mcp-upstream/src/context.rs:30-44`, `validate_cleanup_ack` *)
Definition validate_cleanup_ack (status : Z) (hs : Headers) : Result CleanupOutcome :=
  _ ← validate_headers hs;
  if negb (bool_decide (get_all "mcp-session-id" hs = [])) then fail InspectionUnavailable
  else if bool_decide (status ∈ [200; 204]) then Ok Confirmed
  else if status =? 405 then Ok NotSupported
  else fail InspectionUnavailable.

(** ** Facts *)

(** A JSON string of a nonempty text has its two quotes and something between. *)
Class JsonTextLaws : Prop := {
  json_nonempty v : v <> [] -> (2 < length (json_text (Str (from_bytes v))))%nat }.

Lemma native_session_Ok method hs v : native_session method hs = Ok (Some v) ->
  method = Initialize /\ v <> [] /\ len v <= 1024 /\ Forall (fun b => in_range 33 126 b = true) v
  /\ head (get_all "mcp-session-id" hs) = Some v.
Proof.
  unfold native_session. destruct (head _) as [value|] eqn:Hh; [|done]. destruct (_ || _) eqn:Hb; [done|].
  intros [= ->]. bool_hyps. by rewrite <-forallb_Forall.
Qed.

Lemma fresh_wf r : wf_patterns (patterns r) (longest r) -> wf_patterns (patterns (fresh r)) (longest (fresh r)).
Proof. done. Qed.

(** An admitted response is read with a redactor that knows all the given one knows and
    every representation of the session identifier in force. *)
Lemma admit_Ok `{!Base64Laws} `{!JsonTextLaws} method status hs previous template a :
  admit_response method status hs previous template = Ok a -> wf_patterns (patterns template) (longest template) ->
  status = (if notification method then 202 else 200)
  /\ (notification method = true <-> format a = FormatEmpty)
  /\ (forall v, native a = Some v -> method = Initialize /\ v <> [])
  /\ wf_patterns (patterns (redactor a)) (longest (redactor a))
  /\ patterns template ⊆ patterns (redactor a)
  /\ forall v, native a = Some v \/ native a = None /\ previous = Some v ->
       exists ps, representations json_string v = Some ps /\ ps ⊆ patterns (redactor a).
Proof.
  unfold admit_response. intros Ha Hwf. apply bind_Ok in Ha as (? & _ & Ha). destruct (negb _) eqn:Hs; [done|]. bool_hyps.
  apply bind_Ok in Ha as (nat & Hn & Ha). apply bind_Ok in Ha as (f & Hf & Ha). apply bind_Ok in Ha as (r & Hr & Ha).
  simplify_eq. cbn [format native redactor]. split; [done|]. split.
  { destruct (notification method); [by simplify_eq|]. split; [done|]. intros ->. unfold media_format in Hf.
    apply bind_Ok in Hf as (? & _ & Hf). repeat (case_match; try done). }
  split. { intros v ->. apply native_session_Ok in Hn as (? & ? & _). done. }
  destruct (match nat with Some _ => _ | None => _ end) as [value|] eqn:Hv.
  - apply bind_Ok in Hr as (known & Hk & Hr).
    assert (forall v j, json_string v = Some j -> v <> [] -> (2 < length j)%nat) as Hj.
    { intros v j [= <-]. apply json_nonempty. }
    destruct (Redactor_new_Ok _ Hj _ _ Hk) as (Hwk & _ & _ & Hin).
    apply merged_Ok in Hr as (Hw & Ht & Hk'); [|done|done]. split_and!; [done|done|].
    intros v Hc. assert (v = value) as -> by (destruct nat; naive_solver).
    destruct (Hin value) as (ps & Hps & Hsub); [left|]. exists ps. split; [done|]. by etrans.
  - simplify_eq. split_and!; [done|done|]. intros v Hc. destruct nat; naive_solver.
Qed.
End Headers.
