(* ===== verification/McpContext.v ===== *)
(** * Remote MCP: one upstream conversation ([aap-mcp-upstream/src/context.rs])

    The owner of a private session with an upstream, its pending exchanges and the
    operations on them. An [Arc<AtomicBool>] is the address of a flag in a shared heap,
    since the context, its exchanges and its decoders see the same ones; an [Arc<()>] is
    the identity of its allocation. *)
From S2P Require Import Prelude Protocol Ids Json Tools Catalog Profile Secrets Redaction Injection.
From S2P Require Import Sse McpWire McpMessage McpCustody McpHeaders.

(** ** Shared flags *)

Record Heap := mkHeap { flags : gmap nat bool; fresh_id : nat }.
Definition flag_load (h : Heap) (a : nat) : bool := default false (flags h !! a).
Definition flag_store (h : Heap) (a : nat) (b : bool) : Heap := mkHeap (<[a := b]> (flags h)) (fresh_id h).
Definition flag_new (h : Heap) : Heap * nat := (mkHeap (<[fresh_id h := false]> (flags h)) (S (fresh_id h)), fresh_id h).
Definition identity_new (h : Heap) : Heap * nat := (mkHeap (flags h) (S (fresh_id h)), fresh_id h).

(** ** Data *)

(** `aap-mcp-upstream/src/context.rs:46-54`, `State` *)
Inductive State := SNew | SInitializing | SAwaitingInitialized | SReady | SInvalid | SClosed.
#[export] Instance State_eq_dec : EqDecision State.
Proof. solve_decision. Defined.

(** `aap-mcp-upstream/src/context.rs:69-75`, `Pending` *)
Record Pending := mkPending {
  pd_method : Method; pd_id : option Value; pd_operation : string; pd_cancelled : nat; pd_started : bool }.

(** `aap-mcp-upstream/src/context.rs:58-68`, `Context`; the pending exchanges in the order
    of their serials *)
Record Context := mkContext {
  cx_profile : McpProfile; cx_binding : nat; cx_fault : nat; cx_state : State; cx_expires : Z; cx_handshake : Z;
  cx_native : option (list byte); cx_next : Z; cx_pending : list (Z * Pending) }.

(** `aap-mcp-upstream/src/context.rs:80-87`, `Exchange` *)
Record Exchange := mkExchange {
  ex_binding : nat; ex_serial : Z; ex_request : Request; ex_mapped : option Z; ex_target : option string;
  ex_cancelled : nat }.
(** `aap-mcp-upstream/src/context.rs:89-92`, `Outgoing` *)
Record Outgoing := mkOutgoing { out_headers : Headers; out_body : list byte }.
(** `aap-mcp-upstream/src/context.rs:96-99`, `CancellationRequest` *)
Record CancellationRequest := mkCancellation { cr_operation : string; cr_outgoing : Outgoing }.

(** `aap-mcp-upstream/src/context/decoder.rs:17-21`, `SafeResponse` *)
Record SafeResponse := mkSafe { sr_status : Z; sr_content_type : option string; sr_body : list byte }.
(** `aap-mcp-upstream/src/context/decoder.rs:23-29`, `Completion` *)
Record Completion := mkCompletion {
  cm_binding : nat; cm_serial : Z; cm_native : option (list byte); cm_success : bool; cm_response : SafeResponse }.
(** `aap-mcp-upstream/src/context/decoder.rs:38-56`, `ResponseDecoder` *)
Record ResponseDecoder := mkDecoder {
  rd_binding : nat; rd_identity : nat; rd_serial : Z; rd_native : option (list byte); rd_failed : bool;
  rd_fault : nat; rd_cancelled : nat; rd_profile : McpProfile; rd_request : Request; rd_format : Format;
  rd_status : Z; rd_redactor : Redactor; rd_framer : SseDecoder; rd_body : list byte;
  rd_final : option (list byte); rd_seen : gset string; rd_bytes : Z }.

(** ** The map of pending exchanges *)

Fixpoint pending_get (k : Z) (m : list (Z * Pending)) : option Pending :=
  match m with
  | [] => None
  | (k', p) :: rest => if k =? k' then Some p else pending_get k rest
  end.
Fixpoint pending_insert (k : Z) (p : Pending) (m : list (Z * Pending)) : list (Z * Pending) :=
  match m with
  | [] => [(k, p)]
  | (k', p') :: rest =>
      if k <? k' then (k, p) :: m else if k =? k' then (k, p) :: rest else (k', p') :: pending_insert k p rest
  end.
Definition pending_remove (k : Z) (m : list (Z * Pending)) : list (Z * Pending) :=
  List.filter (fun kp => negb (kp.1 =? k)) m.
Definition set_started (p : Pending) : Pending :=
  mkPending (pd_method p) (pd_id p) (pd_operation p) (pd_cancelled p) true.

(** ** Helpers *)

Definition cx_with_state (c : Context) (s : State) : Context :=
  mkContext (cx_profile c) (cx_binding c) (cx_fault c) s (cx_expires c) (cx_handshake c) (cx_native c) (cx_next c) (cx_pending c).
Definition cx_with_native (c : Context) (n : option (list byte)) : Context :=
  mkContext (cx_profile c) (cx_binding c) (cx_fault c) (cx_state c) (cx_expires c) (cx_handshake c) n (cx_next c) (cx_pending c).
Definition cx_with_next (c : Context) (n : Z) : Context :=
  mkContext (cx_profile c) (cx_binding c) (cx_fault c) (cx_state c) (cx_expires c) (cx_handshake c) (cx_native c) n (cx_pending c).
Definition cx_with_pending (c : Context) (m : list (Z * Pending)) : Context :=
  mkContext (cx_profile c) (cx_binding c) (cx_fault c) (cx_state c) (cx_expires c) (cx_handshake c) (cx_native c) (cx_next c) m.

Definition over (s : State) : bool := bool_decide (s ∈ [SInvalid; SClosed]).

(** `aap-mcp-upstream/src/context.rs:487-489`, `is_control` *)
Definition is_control (m : Method) : bool := bool_decide (m ∈ [Ping; Initialized; Cancel]).

(** `aap-mcp-upstream/src/context.rs:490-504`, `outgoing_headers` *)
Definition outgoing_headers (native : option (list byte)) (version : bool) : Headers :=
  [("content-type", as_bytes "application/json"); ("accept", as_bytes "application/json, text/event-stream")]
  ++ (if version then [("mcp-protocol-version", as_bytes VERSION)] else [])
  ++ match native with Some v => [("mcp-session-id", v)] | None => [] end.

(** [Duration::from_secs], in nanoseconds. *)
Definition seconds (n : Z) : Z := n * 1000000000.

(** ** Operations *)

(** `aap-mcp-upstream/src/context.rs:398-405`, `Context::invalidate` *)
Definition invalidate (h : Heap) (c : Context) : Heap * Context :=
  let c := if bool_decide (cx_state c = SClosed) then c else cx_with_state c SInvalid in
  (flag_store h (cx_fault c) true, cx_with_pending (cx_with_native c None) []).

(** `aap-mcp-upstream/src/context.rs:452-460`, `Context::expire` *)
Definition expire (h : Heap) (c : Context) (now : Z) : Heap * Context :=
  if negb (over (cx_state c))
     && (flag_load h (cx_fault c) || (cx_expires c <=? now)
         || (negb (bool_decide (cx_state c = SReady)) && (cx_handshake c <=? now)))
  then invalidate h c else (h, c).

(** `aap-mcp-upstream/src/context.rs:461-475`, `Context::check` *)
Definition check (h : Heap) (c : Context) (e : Exchange) (now : Z) : Heap * Context * Result unit :=
  if negb (cx_binding c =? ex_binding e)%nat then (h, c, fail RequestConflict)
  else
    let (h, c) := expire h c now in
    (h, c,
     if over (cx_state c) then fail SessionInvalid
     else if bool_decide (pending_get (ex_serial e) (cx_pending c) = None) || flag_load h (ex_cancelled e)
     then fail RequestConflict else Ok tt).

(** `aap-mcp-upstream/src/context.rs:171-186`, `Context::new` *)
Definition Context_new (h : Heap) (profile : McpProfile) (now expires : Z) : Heap * Result Context :=
  if expires <=? now then (h, fail SessionInvalid)
  else
    let (h, binding) := identity_new h in
    let (h, fault) := flag_new h in
    (h, Ok (mkContext profile binding fault SNew (Z.min expires (now + seconds 600))
              (Z.min expires (now + seconds 30)) None 1 [])).

(** `aap-mcp-upstream/src/context.rs:188-191`, `Context::state` *)
Definition state_at (h : Heap) (c : Context) (now : Z) : Heap * Context * State :=
  let (h, c) := expire h c now in (h, c, cx_state c).

Section Context.
Context `{Base64} `{HttpMessage} `{JsonText} `{Rmcp}.

(** `aap-mcp-upstream/src/context.rs:211-223`, `Context::begin` (what the state admits) *)
Definition method_admitted (c : Context) (m : Method) : bool :=
  match m with
  | Initialize => bool_decide (cx_state c = SNew)
  | Initialized =>
      bool_decide (cx_state c = SAwaitingInitialized)
      && negb (existsb (fun kp => bool_decide (pd_method kp.2 = Initialized)) (cx_pending c))
  | Ping | Cancel => negb (bool_decide (cx_state c = SNew))
  | List | Call => bool_decide (cx_state c = SReady)
  end.

(** `aap-mcp-upstream/src/context.rs:227-232`, `Context::begin` (a live name or
    identifier) *)
Definition conflicting (c : Context) (r : Request) (operation : string) : bool :=
  existsb (fun kp => bool_decide (pd_operation kp.2 = operation)
                     || (bool_decide (is_Some (rq_id r)) && bool_decide (pd_id kp.2 = rq_id r))) (cx_pending c).

(** `aap-mcp-upstream/src/context.rs:233-249`, `Context::begin` (what a cancellation
    targets) *)
Definition cancel_target (h : Heap) (c : Context) (r : Request) : option (Z * Pending) :=
  find_first (fun kp => bool_decide (pd_id kp.2 = rq_cancellation r) && bool_decide (is_Some (pd_id kp.2))
                        && negb (bool_decide (pd_method kp.2 = Initialize)) && negb (flag_load h (pd_cancelled kp.2)))
    (cx_pending c).

(** `aap-mcp-upstream/src/context.rs:250-260`, `Context::begin` (the capacity) *)
Definition exhausted (c : Context) (m : Method) : bool :=
  let control := is_control m in
  (4096 <? cx_next c)
  || ((if control then 2 else 8)
      <=? len (List.filter (fun kp => Bool.eqb (is_control (pd_method kp.2)) control) (cx_pending c))).

(** `aap-mcp-upstream/src/context.rs:261-291`, `Context::begin` (the admitted exchange) *)
Definition admit_exchange (h : Heap) (c : Context) (r : Request) (operation : string) (target : option (Z * Pending))
    : Heap * Context * Exchange :=
  let serial := cx_next c in
  let c := cx_with_next c (serial + 1) in
  let (h, cancelled) := flag_new h in
  let (h, mapped) :=
    match target with
    | Some (t, p) => (flag_store h (pd_cancelled p) true, Some t)
    | None => (h, match rq_id r with Some _ => Some serial | None => None end)
    end in
  let c := if bool_decide (rq_method r = Initialize) then cx_with_state c SInitializing else c in
  let p := mkPending (rq_method r) (rq_id r) operation cancelled false in
  (h, cx_with_pending c (pending_insert serial p (cx_pending c)),
   mkExchange (cx_binding c) serial r mapped ((fun tp => pd_operation tp.2) <$> target) cancelled).

(** `aap-mcp-upstream/src/context.rs:195-292`, `Context::begin` *)
Definition begin (h : Heap) (c : Context) (r : Request) (operation : string) (now : Z)
    : Heap * Context * Result (option Exchange) :=
  let (h, c) := expire h c now in
  if negb (rq_binding r =? p_binding (cx_profile c))%nat || negb (valid_id operation 16)
  then (h, c, fail RequestInvalid)
  else if over (cx_state c) then (h, c, fail SessionInvalid)
  else if negb (method_admitted c (rq_method r)) then (h, c, fail RequestConflict)
  else if conflicting c r operation then (h, c, fail RequestConflict)
  else
    let begin_one target :=
      if exhausted c (rq_method r) then (h, c, fail LimitExceeded)
      else let '(h, c, e) := admit_exchange h c r operation target in (h, c, Ok (Some e)) in
    if bool_decide (rq_method r = Cancel) then
      match cancel_target h c r with
      | None => (h, c, Ok None)
      | Some target => begin_one (Some target)
      end
    else begin_one None.

(** `aap-mcp-upstream/src/context.rs:296-309`, `Context::outgoing` *)
Definition outgoing (h : Heap) (c : Context) (e : Exchange) (now : Z) : Heap * Context * Result Outgoing :=
  match check h c e now with
  | (h, c, Err x) => (h, c, Err x)
  | (h, c, Ok _) =>
      let initial := bool_decide (rq_method (ex_request e) = Initialize) in
      (h, c, body ← encode_request (ex_request e) (ex_mapped e);
             Ok (mkOutgoing (outgoing_headers (if initial then None else cx_native c) (negb initial)) body))
  end.

(** `aap-mcp-upstream/src/context/decoder.rs:58-83`, `ResponseDecoder::new` *)
Definition ResponseDecoder_new (identity : nat) (c : Context) (e : Exchange) (status : Z) (a : AdmittedResponse)
    : ResponseDecoder :=
  mkDecoder (cx_binding c) identity (ex_serial e) (native a) false (cx_fault c) (ex_cancelled e) (cx_profile c)
    (ex_request e) (format a) status (redactor a) SseDecoder_default [] None ∅ 0.

(** `aap-mcp-upstream/src/context.rs:316-347`, `Context::start_response` *)
Definition start_response (h : Heap) (c : Context) (e : Exchange) (status : Z) (hs : Headers) (template : Redactor)
    (now : Z) : Heap * Context * Result ResponseDecoder :=
  match check h c e now with
  | (h, c, Err x) => (h, c, Err x)
  | (h, c, Ok _) =>
      match pending_get (ex_serial e) (cx_pending c) with
      | None => (h, c, fail InternalError) (* checked exchange *)
      | Some p =>
          if pd_started p then (h, c, fail RequestConflict)
          else
            match admit_response (rq_method (ex_request e)) status hs (cx_native c) template with
            | Err x => let (h, c) := invalidate h c in (h, c, Err x)
            | Ok a =>
                let c := cx_with_pending c (pending_insert (ex_serial e) (set_started p) (cx_pending c)) in
                let (h, identity) := identity_new h in
                (h, c, Ok (ResponseDecoder_new identity c e status a))
            end
      end
  end.

(** `aap-mcp-upstream/src/context.rs:371-381`, `Context::complete` (the commit) *)
Definition commit_response (h : Heap) (c : Context) (m : Method) (cm : Completion) : Heap * Context :=
  match m with
  | Initialize =>
      if cm_success cm then (h, cx_with_state (cx_with_native c (cm_native cm)) SAwaitingInitialized)
      else invalidate h c
  | Initialized => (h, cx_with_state c SReady)
  | _ => (h, c)
  end.

(** `aap-mcp-upstream/src/context.rs:352-382`, `Context::complete`; the exchange and the
    completion are consumed *)
Definition complete (h : Heap) (c : Context) (e : Exchange) (cm : Completion) (now : Z)
    : Heap * Context * Result SafeResponse :=
  if negb (cx_binding c =? ex_binding e)%nat || negb (cx_binding c =? cm_binding cm)%nat
     || negb (ex_serial e =? cm_serial cm)
  then (h, c, fail RequestConflict)
  else
    match check h c e now with
    | (h, c, Err x) => (h, cx_with_pending c (pending_remove (ex_serial e) (cx_pending c)), Err x)
    | (h, c, Ok _) =>
        if negb (from_option pd_started false (pending_get (ex_serial e) (cx_pending c)))
        then (h, c, fail RequestConflict)
        else
          let c := cx_with_pending c (pending_remove (ex_serial e) (cx_pending c)) in
          let (h, c) := commit_response h c (rq_method (ex_request e)) cm in
          (h, c, Ok (cm_response cm))
    end.

(** `aap-mcp-upstream/src/context.rs:386-396`, `Context::abandon` *)
Definition abandon (h : Heap) (c : Context) (e : Exchange) : Heap * Context :=
  if negb (cx_binding c =? ex_binding e)%nat then (h, c)
  else
    match pending_get (ex_serial e) (cx_pending c) with
    | None => (h, c)
    | Some p =>
        let c := cx_with_pending c (pending_remove (ex_serial e) (cx_pending c)) in
        let h := flag_store h (pd_cancelled p) true in
        if bool_decide (pd_method p ∈ [Initialize; Initialized]) then invalidate h c else (h, c)
    end.

(** `aap-mcp-upstream/src/context.rs:409-419`, `Context::close` *)
Definition close (h : Heap) (c : Context) (now : Z) : Heap * Context * Headers :=
  let (h, c) := expire h c now in
  let headers := match cx_native c with Some v => outgoing_headers (Some v) true | None => [] end in
  let (h, c) := invalidate h c in
  (h, cx_with_state c SClosed, headers).

(** `aap-mcp-upstream/src/context.rs:482-486`, `Context::drop` *)
Definition Context_drop (h : Heap) (c : Context) : Heap := (invalidate h c).1.

(** `aap-mcp-upstream/src/context.rs:424-450`, `Context::ping_reply`; the ping's flag is
    its own *)
Definition ping_reply (h : Heap) (c : Context) (e : Exchange) (d : ResponseDecoder) (ping : PingReply) (now : Z)
    : Heap * Context * PingReply * Result Outgoing :=
  match check h c e now with
  | (h, c, Err x) => (h, c, ping, Err x)
  | (h, c, Ok _) =>
      if negb (cx_binding c =? rd_binding d)%nat || negb (rd_serial d =? ex_serial e) || rd_failed d
         || match ping_owner ping with None => true | Some owner => negb (owner =? rd_identity d)%nat end
         || ping_used ping
      then (h, c, ping, fail RequestConflict)
      else
        let native := match rd_native d with Some v => Some v | None => cx_native c end in
        (h, c, mkPing (ping_id ping) (ping_owner ping) true,
         body ← ping_response ping; Ok (mkOutgoing (outgoing_headers native true) body))
  end.

(** `aap-mcp-upstream/src/context.rs:152-169`, `Context::cancel_serial` *)
Definition cancel_serial (h : Heap) (c : Context) (serial : Z) : Heap * Result (option CancellationRequest) :=
  match pending_get serial (cx_pending c) with
  | None => (h, fail RequestConflict)
  | Some p =>
      if bool_decide (pd_id p = None) then (h, Ok None)
      else
        let before := flag_load h (pd_cancelled p) in
        let h := flag_store h (pd_cancelled p) true in
        if before then (h, Ok None)
        else
          let body := object [("jsonrpc", Str "2.0"); ("method", Str "notifications/cancelled");
                              ("params", object [("requestId", num serial)])] in
          (h, Ok (Some (mkCancellation (pd_operation p) (mkOutgoing (outgoing_headers (cx_native c) true) (json_text body)))))
  end.

(** `aap-mcp-upstream/src/context.rs:104-128`, `Context::cancel_request` *)
Definition cancel_request (h : Heap) (c : Context) (r : Request) (now : Z)
    : Heap * Context * Result (option CancellationRequest) :=
  if negb (bool_decide (rq_method r = Cancel)) || negb (rq_binding r =? p_binding (cx_profile c))%nat
  then (h, c, fail RequestInvalid)
  else
    let (h, c) := expire h c now in
    match find_first (fun kp => bool_decide (is_Some (pd_id kp.2)) && bool_decide (pd_id kp.2 = rq_cancellation r)
                                && negb (bool_decide (pd_method kp.2 = Initialize))) (cx_pending c) with
    | Some (serial, _) => let (h, out) := cancel_serial h c serial in (h, c, out)
    | None => (h, c, Ok None)
    end.

(** `aap-mcp-upstream/src/context.rs:132-150`, `Context::cancel_operation` *)
Definition cancel_operation (h : Heap) (c : Context) (operation : string) (now : Z)
    : Heap * Context * Result (option CancellationRequest) :=
  let (h, c) := expire h c now in
  match find_first (fun kp => bool_decide (pd_operation kp.2 = operation)) (cx_pending c) with
  | None => (h, c, Ok None)
  | Some (serial, p) =>
      if bool_decide (pd_method p ∈ [Initialize; Initialized])
      then let (h, c) := invalidate h c in (h, c, Ok None)
      else let (h, out) := cancel_serial h c serial in (h, c, out)
  end.

(** ** The decoder of a response *)

(** `aap-mcp-upstream/src/context/decoder.rs:193-201`, `ResponseDecoder::live` *)
Definition live (h : Heap) (d : ResponseDecoder) : Result unit :=
  if rd_failed d || flag_load h (rd_fault d) then fail SessionInvalid
  else if flag_load h (rd_cancelled d) then fail RequestConflict
  else Ok tt.

Definition rd_with (d : ResponseDecoder) (framer : SseDecoder) (body : list byte) (final : option (list byte))
    (seen : gset string) (bytes : Z) : ResponseDecoder :=
  mkDecoder (rd_binding d) (rd_identity d) (rd_serial d) (rd_native d) (rd_failed d) (rd_fault d) (rd_cancelled d)
    (rd_profile d) (rd_request d) (rd_format d) (rd_status d) (rd_redactor d) framer body final seen bytes.
Definition rd_fail (d : ResponseDecoder) : ResponseDecoder :=
  mkDecoder (rd_binding d) (rd_identity d) (rd_serial d) (rd_native d) true (rd_fault d) (rd_cancelled d)
    (rd_profile d) (rd_request d) (rd_format d) (rd_status d) (rd_redactor d) (rd_framer d) [] None (rd_seen d) (rd_bytes d).

(** `aap-mcp-upstream/src/context/decoder.rs:109-129`, `ResponseDecoder::push_inner` (the
    loop over the events) *)
Fixpoint take_messages (d : ResponseDecoder) (messages : list (list byte)) : ResponseDecoder * Result (list PingReply) :=
  match messages with
  | [] => (d, Ok [])
  | message :: rest =>
      if bool_decide (is_Some (rd_final d)) then (d, fail InspectionUnavailable)
      else
        match response (rd_profile d) (rd_request d) (rd_serial d) message (rd_redactor d) with
        | Err x => (d, Err x)
        | Ok (Response body) =>
            take_messages (rd_with d (rd_framer d) (rd_body d) (Some body) (rd_seen d) (rd_bytes d)) rest
        | Ok (PingMessage ping) =>
            let key := to_string (ping_id ping) in
            if bool_decide (key ∈ rd_seen d) then (d, fail InspectionUnavailable)
            else
              let d := rd_with d (rd_framer d) (rd_body d) (rd_final d) ({[ key ]} ∪ rd_seen d) (rd_bytes d) in
              match take_messages d rest with
              | (d, Ok pings) => (d, Ok (mkPing (ping_id ping) (Some (rd_identity d)) (ping_used ping) :: pings))
              | (d, Err x) => (d, Err x)
              end
        end
  end.

(** `aap-mcp-upstream/src/context/decoder.rs:95-132`, `ResponseDecoder::push_inner` *)
Definition rd_push_inner (d : ResponseDecoder) (l : list byte) : ResponseDecoder * Result (list PingReply) :=
  if (MAX_REQUEST <? len l) || (MAX_RESPONSE - rd_bytes d <? len l) then (d, fail LimitExceeded)
  else
    let d := rd_with d (rd_framer d) (rd_body d) (rd_final d) (rd_seen d) (rd_bytes d + len l) in
    match rd_format d with
    | FormatEmpty => if bool_decide (l = []) then (d, Ok []) else (d, fail InspectionUnavailable)
    | FormatJson => (rd_with d (rd_framer d) (rd_body d ++ l) (rd_final d) (rd_seen d) (rd_bytes d), Ok [])
    | FormatSse =>
        let (framer, result) := sse_push (rd_framer d) l in
        let d := rd_with d framer (rd_body d) (rd_final d) (rd_seen d) (rd_bytes d) in
        match result with
        | Err x => (d, Err x)
        | Ok messages => take_messages d messages
        end
    end.

(** `aap-mcp-upstream/src/context/decoder.rs:84-94`, `ResponseDecoder::push` *)
Definition rd_push (h : Heap) (d : ResponseDecoder) (l : list byte) : Heap * ResponseDecoder * Result (list PingReply) :=
  match live h d with
  | Err x => (h, d, Err x)
  | Ok _ =>
      match rd_push_inner d l with
      | (d, Ok pings) => (h, d, Ok pings)
      | (d, Err x) => (flag_store h (rd_fault d) true, rd_fail d, Err x)
      end
  end.

(** `aap-mcp-upstream/src/context/decoder.rs:143-166`, `ResponseDecoder::finish_inner`
    (the media type and the message) *)
Definition final_message (d : ResponseDecoder) : Result (option string * list byte) :=
  match rd_format d with
  | FormatEmpty => Ok (None, [])
  | FormatJson =>
      m ← response (rd_profile d) (rd_request d) (rd_serial d) (rd_body d) (rd_redactor d);
      match m with
      | Response body => Ok (Some "application/json"%string, body)
      | PingMessage _ => fail InspectionUnavailable
      end
  | FormatSse =>
      _ ← sse_finish (rd_framer d);
      body ← ok_or (rd_final d) (Error_new InspectionUnavailable);
      Ok (Some "text/event-stream"%string, body)
  end.

(** `aap-mcp-upstream/src/context/decoder.rs:142-192`, `ResponseDecoder::finish_inner` *)
Definition finish_inner (d : ResponseDecoder) : Result Completion :=
  '(content_type, message) ← final_message d;
  success ← (if bool_decide (message = []) then Ok true
             else v ← McpWire.decode message MAX_RESPONSE; Ok (bool_decide (is_Some (get v "result"))));
  body ← (if bool_decide (rd_format d = FormatSse) then
            if MAX_RESPONSE - 8 <? len message then fail LimitExceeded
            else Ok (as_bytes "data: " ++ message ++ [LF; LF])
          else Ok message);
  Ok (mkCompletion (rd_binding d) (rd_serial d) (rd_native d) success (mkSafe (rd_status d) content_type body)).

(** `aap-mcp-upstream/src/context/decoder.rs:133-141`, `ResponseDecoder::finish`; the
    decoder is consumed *)
Definition rd_finish (h : Heap) (d : ResponseDecoder) : Heap * Result Completion :=
  match live h d with
  | Err x => (h, Err x)
  | Ok _ =>
      match finish_inner d with
      | Ok cm => (h, Ok cm)
      | Err x => (flag_store h (rd_fault d) true, Err x)
      end
  end.
End Context.
