(* ===== verification/McpSession.v ===== *)
(** * Remote MCP: the life of a session and its contract

    What a private upstream session promises its owner, without headers, bodies, flags
    or clocks: which exchanges may begin in which phase, how each one ends, and what the
    end of the session leaves.

    The implementation that keeps it: a context with what its owner holds (exchanges,
    decoders, completions, pings), under any sequence of its operations, and a ghost log
    of what each did in the terms of the contract. *)
From S2P Require Import Prelude Protocol McpMessage McpContext.

(** ** The contract *)

(** The phase, the live exchanges with their methods and whether they were stopped, in
    the order of their serials, and the next serial. *)
Record Conversation := mkConversation {
  phase : State; live_exchanges : list (Z * (Method * bool)); issued : Z }.

Inductive Event :=
  | Began (serial : Z) (method : Method)
  | Stopped (serial : Z)
  | Committed (serial : Z) (method : Method)
  | Refused (serial : Z)
  | Retired (serial : Z)
  | Ended
  | ClosedBy (cleanup : bool).

Definition handshake (m : Method) : bool := bool_decide (m ∈ [Initialize; Initialized]).

(** Who may begin: the handshake once and in order, tools only after it, control
    messages at any time after its start. *)
Definition admits (v : Conversation) (m : Method) : Prop :=
  match m with
  | Initialize => phase v = SNew
  | Initialized => phase v = SAwaitingInitialized /\ Forall (fun x => x.2.1 <> Initialized) (live_exchanges v)
  | Ping | Cancel => phase v <> SNew /\ over (phase v) = false
  | List | Call => phase v = SReady
  end.

Definition busy (v : Conversation) (control : bool) : Z :=
  len (List.filter (fun x => Bool.eqb (is_control x.2.1) control) (live_exchanges v)).
Definition room (v : Conversation) (m : Method) : Prop :=
  busy v (is_control m) < (if is_control m then 2 else 8).

Definition stop (s : Z) (l : list (Z * (Method * bool))) : list (Z * (Method * bool)) :=
  map (fun x => if x.1 =? s then (x.1, (x.2.1, true)) else x) l.
Definition retire (s : Z) (l : list (Z * (Method * bool))) : list (Z * (Method * bool)) :=
  List.filter (fun x => negb (x.1 =? s)) l.

Definition phase_after (m : Method) (p : State) : State :=
  match m with Initialize => SAwaitingInitialized | Initialized => SReady | _ => p end.
Definition ended (v : Conversation) : Conversation :=
  mkConversation (if bool_decide (phase v = SClosed) then SClosed else SInvalid) [] (issued v).

Inductive Converse : Conversation -> Event -> Conversation -> Prop :=
  | CvBegin v m : admits v m -> issued v <= 4096 -> room v m ->
      Converse v (Began (issued v) m)
        (mkConversation (if bool_decide (m = Initialize) then SInitializing else phase v)
           (live_exchanges v ++ [(issued v, (m, false))]) (issued v + 1))
  | CvStop v s m : (s, (m, false)) ∈ live_exchanges v -> handshake m = false ->
      Converse v (Stopped s) (mkConversation (phase v) (stop s (live_exchanges v)) (issued v))
  | CvCommit v s m : (s, (m, false)) ∈ live_exchanges v ->
      Converse v (Committed s m) (mkConversation (phase_after m (phase v)) (retire s (live_exchanges v)) (issued v))
  | CvRefuse v s : (s, (Initialize, false)) ∈ live_exchanges v -> Converse v (Refused s) (ended v)
  | CvRetire v s m b : (s, (m, b)) ∈ live_exchanges v -> handshake m = false ->
      Converse v (Retired s) (mkConversation (phase v) (retire s (live_exchanges v)) (issued v))
  | CvEnd v : Converse v Ended (ended v)
  | CvClose v cleanup : (cleanup = true -> phase v = SAwaitingInitialized \/ phase v = SReady) ->
      Converse v (ClosedBy cleanup) (mkConversation SClosed [] (issued v)).

Inductive Conversing : Conversation -> list Event -> Conversation -> Prop :=
  | Conversing_nil v : Conversing v [] v
  | Conversing_snoc v es v1 e v2 : Conversing v es v1 -> Converse v1 e v2 -> Conversing v (es ++ [e]) v2.

Definition fresh_conversation : Conversation := mkConversation SNew [] 1.

Lemma Conversing_app v es v1 fs v2 : Conversing v es v1 -> Conversing v1 fs v2 -> Conversing v (es ++ fs) v2.
Proof.
  intros Hv Hw. induction Hw as [|v1 fs w e v2 _ IH Hs]; [by rewrite app_nil_r|].
  rewrite app_assoc. econstructor; eauto.
Qed.
Lemma Conversing_one v e v' : Converse v e v' -> Conversing v [e] v'.
Proof. intros Hs. apply (Conversing_snoc v [] v e v'); [constructor|done]. Qed.

(** ** Live exchanges *)

Lemma elem_stop s l s' m b :
  (s', (m, b)) ∈ stop s l <->
  (s' = s /\ b = true /\ exists b0, (s, (m, b0)) ∈ l) \/ (s' <> s /\ (s', (m, b)) ∈ l).
Proof.
  unfold stop. rewrite list_elem_of_fmap. split.
  - intros ([s0 [m0 b0]] & Heq & Hin). cbn in Heq. destruct (Z.eqb_spec s0 s); simplify_eq; eauto 6.
  - intros [(-> & -> & b0 & Hin)|[Hne Hin]].
    + exists (s, (m, b0)). cbn. by rewrite Z.eqb_refl.
    + exists (s', (m, b)). cbn. by rewrite (proj2 (Z.eqb_neq _ _)).
Qed.
Lemma elem_retire s l x : x ∈ retire s l <-> x.1 <> s /\ x ∈ l.
Proof.
  unfold retire. rewrite !list_elem_of_In, filter_In, negb_true_iff, Z.eqb_neq. tauto.
Qed.
Lemma NoDup_fst_unique {A} (l : list (Z * A)) s x y : NoDup l.*1 -> (s, x) ∈ l -> (s, y) ∈ l -> x = y.
Proof.
  induction l as [|[k z] l IH]; cbn; [by intros _ ?%elem_of_nil|]. intros [Hk Hl]%NoDup_cons.
  intros [Hx|Hx]%elem_of_cons [Hy|Hy]%elem_of_cons; simplify_eq; try done; try by apply IH.
  all: destruct Hk; apply list_elem_of_fmap; eexists; (split; [|eassumption]); done.
Qed.
Lemma stop_serials s l : (stop s l).*1 = l.*1.
Proof. unfold stop. induction l as [|x l IH]; cbn; [done|]. rewrite IH. by destruct (x.1 =? s). Qed.
Lemma retire_NoDup s l : NoDup l.*1 -> NoDup (retire s l).*1.
Proof.
  unfold retire. induction l as [|x l IH]; cbn; [done|]. intros [Hx Hl]%NoDup_cons. destruct (negb _); [|by apply IH].
  cbn. apply NoDup_cons. split; [|by apply IH]. intros (y & Hy & Hin)%list_elem_of_fmap. apply Hx.
  apply list_elem_of_fmap. exists y. split; [done|]. apply (elem_retire s l y) in Hin. tauto.
Qed.
Lemma stop_busy p s l i control :
  busy (mkConversation p (stop s l) i) control = busy (mkConversation p l i) control.
Proof.
  unfold busy, stop. cbn. induction l as [|x l IH]; cbn; [done|].
  destruct (x.1 =? s); cbn; destruct (Bool.eqb _ _); rewrite ?len_cons; lia.
Qed.
Lemma retire_busy p p' s l i control :
  busy (mkConversation p (retire s l) i) control <= busy (mkConversation p' l i) control.
Proof.
  unfold busy, retire. cbn. induction l as [|x l IH]; cbn; [done|].
  destruct (negb _); cbn; destruct (Bool.eqb _ _); rewrite ?len_cons; lia.
Qed.
Lemma busy_snoc p l s m i control :
  busy (mkConversation p (l ++ [(s, (m, false))]) i) control
  = busy (mkConversation p l i) control + (if Bool.eqb (is_control m) control then 1 else 0).
Proof.
  unfold busy. cbn. rewrite List.filter_app, len_app. cbn. by destruct (Bool.eqb _ _).
Qed.

(** ** What every conversation keeps *)

Definition finished (es : list Event) : Prop :=
  Ended ∈ es \/ (exists c, ClosedBy c ∈ es) \/ (exists s, Refused s ∈ es).
Definition settled (s : Z) (es : list Event) : Prop :=
  (exists m, Committed s m ∈ es) \/ Retired s ∈ es \/ Refused s ∈ es.

(** Serials are used once; a live exchange was begun and is not settled; the capacity
    holds. *)
Record Kept (es : list Event) (v : Conversation) : Prop := {
  kp_issued : 1 <= issued v <= 4097;
  kp_begun s m : Began s m ∈ es -> 1 <= s < issued v;
  kp_settled s : settled s es \/ Stopped s ∈ es -> 1 <= s < issued v;
  kp_distinct : NoDup (live_exchanges v).*1;
  kp_live s m b : (s, (m, b)) ∈ live_exchanges v -> Began s m ∈ es /\ ~ settled s es;
  kp_unstopped s m : (s, (m, false)) ∈ live_exchanges v -> Stopped s ∉ es;
  kp_over : over (phase v) = true -> live_exchanges v = [];
  kp_finished : finished es -> over (phase v) = true;
  kp_busy control : busy v control <= (if control : bool then 2 else 8) }.

(** The phase says how far the handshake came. *)
Definition is_tool (m : Method) : bool := match m with List | Call => true | _ => false end.
Definition negotiated (es : list Event) : Prop :=
  exists l1 a l2 b l3, es = l1 ++ Committed a Initialize :: l2 ++ Committed b Initialized :: l3.
Record Phased (es : list Event) (v : Conversation) : Prop := {
  ph_new : phase v = SNew -> live_exchanges v = [];
  ph_initialize s b : (s, (Initialize, b)) ∈ live_exchanges v -> phase v = SInitializing;
  ph_initialized s b : (s, (Initialized, b)) ∈ live_exchanges v -> phase v = SAwaitingInitialized;
  ph_unique s s' m b b' : handshake m = true ->
    (s, (m, b)) ∈ live_exchanges v -> (s', (m, b')) ∈ live_exchanges v -> s = s';
  ph_tool s m b : is_tool m = true -> (s, (m, b)) ∈ live_exchanges v -> phase v = SReady;
  ph_awaiting : phase v = SAwaitingInitialized -> exists a, Committed a Initialize ∈ es;
  ph_ready : phase v = SReady -> negotiated es }.

Lemma elem_snoc {A} (x : A) l y : x ∈ l ++ [y] <-> x ∈ l \/ x = y.
Proof. by rewrite elem_of_app, list_elem_of_singleton. Qed.

Lemma settled_snoc s es e : settled s (es ++ [e]) <->
  settled s es \/ (exists m, e = Committed s m) \/ e = Retired s \/ e = Refused s.
Proof.
  unfold settled. split.
  - intros [[m [Hm|Hm%list_elem_of_singleton]%elem_of_app]|[[Hm|Hm%list_elem_of_singleton]%elem_of_app
      |[Hm|Hm%list_elem_of_singleton]%elem_of_app]]; eauto 6.
  - intros [[[m Hm]|[Hm|Hm]]|[[m ->]|[->| ->]]]; [left; exists m|right; left|right; right|left; exists m|right; left|right; right];
      apply elem_of_app; first [by left|right; by left].
Qed.
Lemma finished_snoc es e : finished (es ++ [e]) <->
  finished es \/ e = Ended \/ (exists c, e = ClosedBy c) \/ (exists s, e = Refused s).
Proof.
  unfold finished. split.
  - intros [[Hm|Hm%list_elem_of_singleton]%elem_of_app|[[m [Hm|Hm%list_elem_of_singleton]%elem_of_app]
      |[m [Hm|Hm%list_elem_of_singleton]%elem_of_app]]]; eauto 6.
  - intros [[Hm|[[m Hm]|[m Hm]]]|[->|[[m ->]|[m ->]]]]; [left|right; left; exists m|right; right; exists m|left|right; left; exists m|right; right; exists m];
      apply elem_of_app; first [by left|right; by left].
Qed.

Lemma kept_fresh : Kept [] fresh_conversation.
Proof.
  split; cbn; try done; try by (intros ? ? Hx; apply elem_of_nil in Hx).
  - intros s [[[m Hm]|[Hm|Hm]]|Hm]; by apply elem_of_nil in Hm.
  - constructor.
  - by intros ? ? ? Hx%elem_of_nil.
  - intros [Hm|[[c Hm]|[c Hm]]]; by apply elem_of_nil in Hm.
  - by intros [].
Qed.
Lemma phased_fresh : Phased [] fresh_conversation.
Proof.
  split; cbn; try done; try by (intros ? ? Hx; apply elem_of_nil in Hx).
  - by intros ? ? ? ? ? ? Hx%elem_of_nil.
  - by intros ? ? ? ? Hx%elem_of_nil.
Qed.

(** A step that leaves no exchange live. *)
Lemma kept_end es v e p : Kept es v ->
  over p = true -> (forall s m, e <> Began s m) ->
  (forall s, e = Stopped s \/ e = Retired s \/ (exists m, e = Committed s m) \/ e = Refused s -> 1 <= s < issued v) ->
  Kept (es ++ [e]) (mkConversation p [] (issued v)).
Proof.
  intros [Ki Kb Ks _ _ _ _ _ _] Hp He Hs. split; cbn; try done.
  - intros s m [Hb|Hb]%elem_snoc; [by eapply Kb|by destruct (He s m)].
  - intros s Hc. rewrite settled_snoc, elem_snoc in Hc.
    destruct Hc as [[Hc|[[m Hc]|[Hc|Hc]]]|[Hc|Hc]]; try (apply Ks; by auto); apply Hs; eauto.
  - constructor.
  - by intros ? ? ? Hx%elem_of_nil.
  - by intros ? ? Hx%elem_of_nil.
  - by intros [].
Qed.

(** A step on exchanges that are live already. *)
Lemma kept_on es v e p l : Kept es v -> over p = false -> over (phase v) = false ->
  (exists s m b, (s, (m, b)) ∈ live_exchanges v /\ e ∈ [Stopped s; Committed s m; Retired s]
     /\ forall s' m' b', (s', (m', b')) ∈ l -> (s' = s -> e = Stopped s /\ m' = m /\ b' = true)
          /\ (s' <> s -> (s', (m', b')) ∈ live_exchanges v)) ->
  NoDup l.*1 -> (forall control, busy (mkConversation p l (issued v)) control <= busy v control) ->
  Kept (es ++ [e]) (mkConversation p l (issued v)).
Proof.
  intros [Ki Kb Ks Kd Kl Ku Ko Kf Kz] Hp Hv (s & m & b & Hin & He & Hl) Hd Hz.
  rewrite !elem_of_cons, elem_of_nil in He. apply Kl in Hin as [Hbegan Hopen]. pose proof (Kb _ _ Hbegan) as Hs.
  split; cbn.
  - done.
  - intros s0 m0 [Hb|Hb]%elem_snoc; [by eapply Kb|]. subst e. by destruct He as [?|[?|[?|[]]]].
  - intros s0 Hc. rewrite settled_snoc, elem_snoc in Hc.
    destruct Hc as [[Hc|[[m0 Hc]|[Hc|Hc]]]|[Hc|Hc]]; try (apply Ks; by auto); subst e;
      destruct He as [?|[?|[?|[]]]]; by simplify_eq.
  - done.
  - intros s0 m0 b0 Hx. destruct (Hl _ _ _ Hx) as [Hsame Hother]. rewrite elem_snoc, settled_snoc.
    destruct (decide (s0 = s)) as [->|Hne].
    + destruct (Hsame eq_refl) as (-> & -> & ->). split; [by left|].
      by intros [Hc|[[m1 Hc]|[Hc|Hc]]].
    + destruct (Kl _ _ _ (Hother Hne)) as [? Hns]. split; [by left|].
      intros [Hc|[[m1 Hc]|[Hc|Hc]]]; [done|..]; subst e; destruct He as [?|[?|[?|[]]]]; by simplify_eq.
  - intros s0 m0 Hx. destruct (Hl _ _ _ Hx) as [Hsame Hother]. rewrite elem_snoc.
    destruct (decide (s0 = s)) as [->|Hne]; [by destruct (Hsame eq_refl) as (_ & _ & ?)|].
    intros [Hc|Hc]; [by eapply Ku in Hc; [|by apply Hother]|]. subst e. destruct He as [?|[?|[?|[]]]]; by simplify_eq.
  - rewrite Hp. done.
  - rewrite finished_snoc. intros [Hx|[Hx|[[c Hx]|[c Hx]]]]; [apply Kf in Hx; congruence|..]; subst e;
      destruct He as [?|[?|[?|[]]]]; done.
  - intros control. specialize (Hz control). specialize (Kz control). lia.
Qed.

Lemma kept_begin es v m : Kept es v -> admits v m -> issued v <= 4096 -> room v m ->
  Kept (es ++ [Began (issued v) m])
    (mkConversation (if bool_decide (m = Initialize) then SInitializing else phase v)
       (live_exchanges v ++ [(issued v, (m, false))]) (issued v + 1)).
Proof.
  intros [Ki Kb Ks Kd Kl Ku Ko Kf Kz] Ha Hn Hr.
  assert (over (phase v) = false) as Hp.
  { destruct m; cbn in Ha; [by rewrite Ha|by destruct Ha as [-> _]|by destruct Ha|by rewrite Ha|by rewrite Ha|by destruct Ha]. }
  assert (~ settled (issued v) es /\ Stopped (issued v) ∉ es) as [Hnew Hnew'].
  { split; intros Hc; [specialize (Ks (issued v) (or_introl Hc))|specialize (Ks (issued v) (or_intror Hc))]; lia. }
  split; cbn.
  - lia.
  - intros s m0 [Hb|Hb]%elem_snoc; [apply Kb in Hb; lia|simplify_eq; lia].
  - intros s Hc. rewrite settled_snoc, elem_snoc in Hc. assert (1 <= s < issued v); [|lia].
    apply Ks. destruct Hc as [[Hc|[[m0 Hc]|[Hc|Hc]]]|[Hc|Hc]]; try done; auto.
  - rewrite fmap_app. apply NoDup_app. split; [done|]. split; [|apply NoDup_singleton].
    intros s (x & -> & Hx)%list_elem_of_fmap Hs%list_elem_of_singleton. destruct x as [s1 [m1 b1]].
    apply Kl in Hx as [Hx _]. apply Kb in Hx. cbn in *. lia.
  - intros s m0 b Hx. rewrite elem_snoc, settled_snoc. apply elem_snoc in Hx as [Hx|Hx].
    + apply Kl in Hx as [Hb Hx]. split; [by left|]. by intros [?|[[??]|[?|?]]].
    + simplify_eq. split; [by right|]. by intros [?|[[??]|[?|?]]].
  - intros s m0 Hx. rewrite elem_snoc. apply elem_snoc in Hx as [Hx|Hx].
    + apply Ku in Hx. by intros [?|?].
    + simplify_eq. by intros [?|?].
  - case_bool_decide; [done|]. congruence.
  - rewrite finished_snoc. intros [Hx|[?|[[? ?]|[? ?]]]]; try done. apply Kf in Hx. congruence.
  - intros control. rewrite busy_snoc. specialize (Kz control). unfold room in Hr.
    replace (busy (mkConversation _ (live_exchanges v) _) control) with (busy v control) by done.
    destruct (is_control m), control; cbn in *; lia.
Qed.

Lemma Converse_kept es v e v' : Kept es v -> Converse v e v' -> Kept (es ++ [e]) v'.
Proof.
  intros Hk Hs. pose proof Hk as [_ Kb Ks Kd Kl _ Ko _ _].
  assert (forall s m b, (s, (m, b)) ∈ live_exchanges v -> over (phase v) = false) as Hp.
  { intros s m b Hin. destruct (over (phase v)); [|done]. rewrite (Ko eq_refl) in Hin. by apply elem_of_nil in Hin. }
  assert (over (phase (ended v)) = true) as Hend by (cbn; by case_bool_decide).
  inversion Hs as [w m Ha Hn Hr|w s m Hin Hh|w s m Hin|w s Hin|w s m b Hin Hh|w|w c Hc]; subst.
  - by apply kept_begin.
  - apply kept_on; [done|by eapply Hp..| |by rewrite stop_serials|intros control; by rewrite stop_busy; destruct v].
    exists s, m, false. split; [done|]. split; [left|]. intros s' m' b' [(-> & -> & b0 & Hx)|[Hne Hx]]%elem_stop.
    + split; [|done]. intros _. split_and!; [done| |done].
      assert ((m', b0) = (m, false)) as [= -> _]; [|done].
      eapply NoDup_fst_unique; [exact Kd|exact Hx|exact Hin].
    + done.
  - apply kept_on; [done| |by eapply Hp| |by apply retire_NoDup|intros control; by destruct v; apply retire_busy].
    { destruct m; try done; by eapply Hp. }
    exists s, m, false. split; [done|]. split; [right; left|].
    intros s' m' b' [Hne Hx]%elem_retire. done.
  - apply kept_end; [done|done|done|]. intros s' Hc. apply Kl in Hin as [Hin _]. apply Kb in Hin.
    destruct Hc as [?|[?|[[??]|?]]]; by simplify_eq.
  - apply kept_on; [done|by eapply Hp..| |by apply retire_NoDup|intros control; by destruct v; apply retire_busy].
    exists s, m, b. split; [done|]. split; [right; right; left|].
    intros s' m' b' [Hne Hx]%elem_retire. done.
  - apply kept_end; [done|done|done|]. by intros s' [?|[?|[[??]|?]]].
  - apply kept_end; [done|done|done|]. by intros s' [?|[?|[[??]|?]]].
Qed.

Lemma handshake_cases m : handshake m = true -> m = Initialize \/ m = Initialized.
Proof. destruct m; vm_compute; auto; done. Qed.

Lemma negotiated_snoc es e : negotiated es -> negotiated (es ++ [e]).
Proof. intros (l1 & a & l2 & b & l3 & ->). exists l1, a, l2, b, (l3 ++ [e]). rewrite <-app_assoc. cbn. by rewrite <-app_assoc. Qed.

(** A step that keeps the phase and begins nothing. *)
Lemma phased_same es v e l : Phased es v ->
  (forall s m b, (s, (m, b)) ∈ l -> exists b', (s, (m, b')) ∈ live_exchanges v) ->
  Phased (es ++ [e]) (mkConversation (phase v) l (issued v)).
Proof.
  intros [Pn Pi Pd Pu Pt Pa Pr] Hl. split; cbn.
  - intros Hp. specialize (Pn Hp). destruct l as [|[s [m b]] l]; [done|]. destruct (Hl s m b) as [b' Hb]; [left|].
    rewrite Pn in Hb. by apply elem_of_nil in Hb.
  - intros s b Hx. apply Hl in Hx as [b' Hx]. by eapply Pi.
  - intros s b Hx. apply Hl in Hx as [b' Hx]. by eapply Pd.
  - intros s s' m b b' Hh [c Hx]%Hl [c' Hy]%Hl. by eapply Pu.
  - intros s m b Ht [c Hx]%Hl. by eapply Pt.
  - intros Hp. destruct (Pa Hp) as [a Ha]. exists a. apply elem_snoc. by left.
  - intros Hp. by apply negotiated_snoc, Pr.
Qed.

Lemma phased_over es p i : over p = true -> Phased es (mkConversation p [] i).
Proof.
  intros Hp. split; cbn; try done; try by (intros ? ? Hx; apply elem_of_nil in Hx).
  - by intros ? ? ? ? ? ? Hx%elem_of_nil.
  - by intros ? ? ? ? Hx%elem_of_nil.
  - by intros ->.
  - by intros ->.
Qed.

Lemma phased_begin es v m : Kept es v -> Phased es v -> admits v m ->
  Phased (es ++ [Began (issued v) m])
    (mkConversation (if bool_decide (m = Initialize) then SInitializing else phase v)
       (live_exchanges v ++ [(issued v, (m, false))]) (issued v + 1)).
Proof.
  intros [_ Kb _ _ Kl _ _ _ _] [Pn Pi Pd Pu Pt Pa Pr] Ha. case_bool_decide as Hm; [subst m|].
  - rewrite (Pn Ha). cbn [app]. split; cbn; try done.
    + intros s b [= _ _]%list_elem_of_singleton.
    + intros s s' m b b' _ [= -> _ _]%list_elem_of_singleton [= -> _ _]%list_elem_of_singleton. done.
    + by intros s m b Ht [= _ -> _]%list_elem_of_singleton.
  - assert (phase v <> SNew) as Hnew by (destruct m; cbn in Ha; try done; destruct_and?; congruence).
    split; cbn.
    + done.
    + intros s b [Hx|Hx]%elem_snoc; [by eapply Pi|by simplify_eq].
    + intros s b [Hx|Hx]%elem_snoc; [by eapply Pd|]. simplify_eq. by destruct Ha.
    + intros s s' m0 b b' Hh [Hx|Hx]%elem_snoc [Hy|Hy]%elem_snoc; [by eapply Pu|simplify_eq..|by simplify_eq].
      all: apply handshake_cases in Hh as [?| ->]; [done|]; destruct Ha as [_ Ha]; rewrite Forall_forall in Ha;
        exfalso; eapply Ha; [eassumption|done].
    + intros s m0 b Ht [Hx|Hx]%elem_snoc; [by eapply Pt|]. simplify_eq. by destruct m.
    + intros Hp. destruct (Pa Hp) as [a Hc]. exists a. apply elem_snoc. by left.
    + intros Hp. by apply negotiated_snoc, Pr.
Qed.

Lemma phased_commit es v s m : Kept es v -> Phased es v -> (s, (m, false)) ∈ live_exchanges v ->
  Phased (es ++ [Committed s m])
    (mkConversation (phase_after m (phase v)) (retire s (live_exchanges v)) (issued v)).
Proof.
  intros [_ _ _ Kd _ _ _ _ _] Hph Hin. pose proof Hph as [Pn Pi Pd Pu Pt Pa Pr].
  assert (handshake m = false -> phase_after m (phase v) = phase v) as Hsame by (by destruct m).
  destruct (handshake m) eqn:Hh.
  2: { rewrite Hsame by done. apply phased_same; [done|]. intros s' m' b' [_ Hx]%elem_retire. by exists b'. }
  assert (forall s' b', (s', (m, b')) ∉ retire s (live_exchanges v)) as Hgone.
  { intros s' b' [Hne Hx]%elem_retire. apply Hne. cbn. by eapply Pu. }
  apply handshake_cases in Hh as [-> | ->]; cbn [phase_after].
  - apply Pi in Hin. split; cbn; try done.
    + intros s' b' Hx. by apply Hgone in Hx.
    + intros s' s2 m' b' b2 Hm' [_ Hx]%elem_retire [_ Hy]%elem_retire. by eapply Pu.
    + intros s' m' b' Ht [_ Hx]%elem_retire. apply (Pt _ _ _ Ht) in Hx. congruence.
    + intros _. exists s. apply elem_snoc. by right.
  - pose proof (Pd _ _ Hin) as Hp. split; cbn; try done.
    + intros s' b' [_ Hx]%elem_retire. apply Pi in Hx. congruence.
    + intros s' b' Hx. by apply Hgone in Hx.
    + intros s' s2 m' b' b2 Hm' [_ Hx]%elem_retire [_ Hy]%elem_retire. by eapply Pu.
    + intros _. destruct (Pa Hp) as [a Ha]. apply list_elem_of_split in Ha as (l1 & l2 & ->).
      exists l1, a, l2, s, []. by rewrite <-app_assoc.
Qed.

Lemma Converse_phased es v e v' : Kept es v -> Phased es v -> Converse v e v' -> Phased (es ++ [e]) v'.
Proof.
  intros Hk Hph Hs. assert (over (phase (ended v)) = true) as Hend by (cbn; by case_bool_decide).
  inversion Hs as [w m Ha Hn Hr|w s m Hin Hh|w s m Hin|w s Hin|w s m b Hin Hh|w|w c Hc]; subst.
  - by apply phased_begin.
  - apply phased_same; [done|]. intros s' m' b' [(-> & -> & b0 & Hx)|[_ Hx]]%elem_stop; by eexists.
  - by apply phased_commit.
  - by apply phased_over.
  - apply phased_same; [done|]. intros s' m' b' [_ Hx]%elem_retire. by exists b'.
  - by apply phased_over.
  - by apply phased_over.
Qed.

Lemma Conversing_kept es v : Conversing fresh_conversation es v -> Kept es v /\ Phased es v.
Proof.
  remember fresh_conversation as v0 eqn:Hv0. induction 1 as [|v0 es v1 e v2 _ IH Hs]; subst.
  - split; [apply kept_fresh|apply phased_fresh].
  - destruct (IH eq_refl) as [Hk Hp]. split; [by eapply Converse_kept|by eapply Converse_phased].
Qed.

Lemma Conversing_last v es e w : Conversing v (es ++ [e]) w -> exists v1, Conversing v es v1 /\ Converse v1 e w.
Proof.
  remember (es ++ [e]) as fs eqn:Hf. destruct 1 as [|v fs v1 e' v2 Hp Hs]; [by destruct es|].
  apply app_inj_tail in Hf as [-> ->]. by exists v1.
Qed.
Lemma Conversing_split v l1 e l2 w : Conversing v (l1 ++ e :: l2) w ->
  exists v1 v2, Conversing v l1 v1 /\ Converse v1 e v2.
Proof.
  revert w. induction l2 as [|x l2 IH] using rev_ind; intros w Hc.
  - apply Conversing_last in Hc as (v1 & ? & ?). by exists v1, w.
  - rewrite app_comm_cons, app_assoc in Hc. apply Conversing_last in Hc as (v1 & Hc & _). by eapply IH.
Qed.

(** What came before an exchange began, was committed, or the session was closed with
    its cleanup. *)
Lemma began_after l1 s m l2 w : Conversing fresh_conversation (l1 ++ Began s m :: l2) w ->
  1 <= s <= 4096 /\ (forall m', Began s m' ∉ l1) /\ ~ finished l1
  /\ match m with
     | Initialized => exists a, Committed a Initialize ∈ l1
     | List | Call => negotiated l1
     | _ => True
     end.
Proof.
  intros (v1 & v2 & Hc & Hs)%Conversing_split. apply Conversing_kept in Hc as [[Ki Kb _ _ _ _ _ Kf _] [_ _ _ _ _ Pa Pr]].
  inversion Hs as [v m0 Ha Hn Hr| | | | | |]; subst. split_and!; [lia|lia|..].
  - intros m' Hb%Kb. lia.
  - intros Hf%Kf. destruct m; cbn in Ha; [by rewrite Ha in Hf|destruct Ha as [Ha _]; by rewrite Ha in Hf|by destruct Ha; congruence
      |by rewrite Ha in Hf..|by destruct Ha; congruence].
  - destruct m; cbn in Ha; try done; [apply Pa; by destruct Ha|by apply Pr..].
Qed.

Lemma committed_after l1 s m l2 w : Conversing fresh_conversation (l1 ++ Committed s m :: l2) w ->
  Began s m ∈ l1 /\ ~ settled s l1 /\ (Stopped s ∉ l1) /\ ~ finished l1.
Proof.
  intros (v1 & v2 & Hc & Hs)%Conversing_split. apply Conversing_kept in Hc as [[_ _ _ _ Kl Ku Ko Kf _] _].
  inversion Hs as [| |v s0 m0 Hin| | | |]; subst. destruct (Kl _ _ _ Hin). split_and!; [done|done|by eapply Ku|].
  intros Hf%Kf. rewrite (Ko Hf) in Hin. by apply elem_of_nil in Hin.
Qed.

Lemma cleanup_after l1 l2 w : Conversing fresh_conversation (l1 ++ ClosedBy true :: l2) w ->
  ~ finished l1 /\ exists a, Committed a Initialize ∈ l1.
Proof.
  intros (v1 & v2 & Hc & Hs)%Conversing_split. apply Conversing_kept in Hc as [[_ _ _ _ _ _ _ Kf _] [_ _ _ _ _ Pa Pr]].
  inversion Hs as [| | | | | |v c Hp]; subst. specialize (Hp eq_refl). split.
  - intros Hf%Kf. destruct Hp as [Hp|Hp]; rewrite Hp in Hf; done.
  - destruct Hp as [Hp|Hp]; [by apply Pa|]. destruct (Pr Hp) as (k1 & a & k2 & b & k3 & ->). exists a.
    apply elem_of_app. right. left.
Qed.

(** ** The life of a session *)

From S2P Require Import Prelude Protocol Ids Json Tools Catalog Profile Secrets Redaction Injection.
From S2P Require Import Sse McpWire McpMessage McpCustody McpHeaders McpContext.

(** ** The world *)

(** What the owner got for an exchange, and the private session in force at that instant. *)
Record Delivery := mkDelivery {
  dv_exchange : Exchange; dv_response : SafeResponse; dv_native : option (list byte); dv_at : Z }.

Record World := mkWorld {
  w_heap : Heap; w_cx : Context; w_exchanges : list Exchange; w_decoders : list ResponseDecoder;
  w_completions : list Completion; w_pings : list PingReply;
  w_log : list Event; w_delivered : list Delivery; w_pongs : list (nat * Value) }.

(** An operation of the owner on the tokens at some positions, at some instant. *)
Inductive SessionMove :=
  | OBegin (body : list byte) (operation : string) (now : Z)
  | OOutgoing (e : nat) (now : Z)
  | OStart (e : nat) (status : Z) (hs : Headers) (template : Redactor) (now : Z)
  | OPush (d : nat) (bytes : list byte)
  | OFinish (d : nat)
  | OComplete (e k : nat) (now : Z)
  | OAbandon (e : nat)
  | OInvalidate
  | OClose (now : Z)
  | OPing (e d p : nat) (now : Z)
  | OCancelRequest (body : list byte) (now : Z)
  | OCancelOperation (operation : string) (now : Z)
  | OState (now : Z).

(** ** What an operation did *)

Definition ended_by (c c' : Context) : list Event :=
  if negb (over (cx_state c)) && over (cx_state c') then [Ended] else [].
Definition retired_by (c c' : Context) (s : Z) : list Event :=
  if negb (over (cx_state c')) && bool_decide (is_Some (pending_get s (cx_pending c)))
     && negb (bool_decide (is_Some (pending_get s (cx_pending c')))) then [Retired s] else [].
Definition stopped_by (h h' : Heap) (c : Context) : list Event :=
  flat_map (fun kp => if negb (flag_load h (pd_cancelled kp.2)) && flag_load h' (pd_cancelled kp.2)
                      then [Stopped kp.1] else []) (cx_pending c).

Definition w_with (w : World) (h : Heap) (c : Context) (es : list Event) : World :=
  mkWorld h c (w_exchanges w) (w_decoders w) (w_completions w) (w_pings w) (w_log w ++ es) (w_delivered w) (w_pongs w).
Definition w_with_exchanges (w : World) (exs : list Exchange) : World :=
  mkWorld (w_heap w) (w_cx w) exs (w_decoders w) (w_completions w) (w_pings w) (w_log w) (w_delivered w) (w_pongs w).
Definition w_with_decoders (w : World) (ds : list ResponseDecoder) (cms : list Completion) (ps : list PingReply) : World :=
  mkWorld (w_heap w) (w_cx w) (w_exchanges w) ds cms ps (w_log w) (w_delivered w) (w_pongs w).
Definition w_deliver (w : World) (x : Delivery) : World :=
  mkWorld (w_heap w) (w_cx w) (w_exchanges w) (w_decoders w) (w_completions w) (w_pings w) (w_log w)
    (w_delivered w ++ [x]) (w_pongs w).
Definition w_pong (w : World) (owner : nat) (id : Value) : World :=
  mkWorld (w_heap w) (w_cx w) (w_exchanges w) (w_decoders w) (w_completions w) (w_pings w) (w_log w)
    (w_delivered w) (w_pongs w ++ [(owner, id)]).

Section Session.
Context `{Base64} `{HttpMessage} `{JsonText} `{Rmcp}.

Definition do_begin (w : World) (body : list byte) (operation : string) (now : Z) : World :=
  match request (cx_profile (w_cx w)) body with
  | Err _ => w
  | Ok r =>
      let '(h, c, result) := begin (w_heap w) (w_cx w) r operation now in
      let es := ended_by (w_cx w) c in
      match result with
      | Ok (Some e) =>
          let es := es ++ match ex_target e, ex_mapped e with Some _, Some t => [Stopped t] | _, _ => [] end
                       ++ [Began (ex_serial e) (rq_method r)] in
          w_with_exchanges (w_with w h c es) (w_exchanges w ++ [e])
      | _ => w_with w h c es
      end
  end.

Definition do_complete (w : World) (i k : nat) (now : Z) : World :=
  match w_exchanges w !! i, w_completions w !! k with
  | Some e, Some cm =>
      let '(h, c, result) := complete (w_heap w) (w_cx w) e cm now in
      let es :=
        match result with
        | Ok _ => if bool_decide (rq_method (ex_request e) = Initialize) && negb (cm_success cm)
                  then [Refused (ex_serial e)] else [Committed (ex_serial e) (rq_method (ex_request e))]
        | Err _ => ended_by (w_cx w) c ++ retired_by (w_cx w) c (ex_serial e)
        end in
      let w' := w_with_exchanges (w_with w h c es) (delete i (w_exchanges w)) in
      let w' := w_with_decoders w' (w_decoders w) (delete k (w_completions w)) (w_pings w) in
      match result with Ok r => w_deliver w' (mkDelivery e r (cx_native (w_cx w)) now) | Err _ => w' end
  | _, _ => w
  end.

Definition do_start (w : World) (i : nat) (status : Z) (hs : Headers) (template : Redactor) (now : Z) : World :=
  match w_exchanges w !! i with
  | Some e =>
      let '(h, c, result) := start_response (w_heap w) (w_cx w) e status hs template now in
      let w' := w_with w h c (ended_by (w_cx w) c) in
      match result with
      | Ok d => w_with_decoders w' (w_decoders w ++ [d]) (w_completions w) (w_pings w)
      | Err _ => w'
      end
  | None => w
  end.

Definition do_push (w : World) (j : nat) (bytes : list byte) : World :=
  match w_decoders w !! j with
  | Some d =>
      let '(h, d, result) := rd_push (w_heap w) d bytes in
      w_with_decoders (w_with w h (w_cx w) []) (<[ j := d ]> (w_decoders w)) (w_completions w)
        (match result with Ok pings => w_pings w ++ pings | Err _ => w_pings w end)
  | None => w
  end.

Definition do_finish (w : World) (j : nat) : World :=
  match w_decoders w !! j with
  | Some d =>
      let (h, result) := rd_finish (w_heap w) d in
      w_with_decoders (w_with w h (w_cx w) []) (delete j (w_decoders w))
        (match result with Ok cm => w_completions w ++ [cm] | Err _ => w_completions w end) (w_pings w)
  | None => w
  end.

Definition do_ping (w : World) (i j n : nat) (now : Z) : World :=
  match w_exchanges w !! i, w_decoders w !! j, w_pings w !! n with
  | Some e, Some d, Some ping =>
      let '(h, c, ping, result) := ping_reply (w_heap w) (w_cx w) e d ping now in
      let w' := w_with_decoders (w_with w h c (ended_by (w_cx w) c)) (w_decoders w) (w_completions w) (<[ n := ping ]> (w_pings w)) in
      match result with Ok _ => w_pong w' (rd_identity d) (ping_id ping) | Err _ => w' end
  | _, _, _ => w
  end.

Definition do_move_session (w : World) (m : SessionMove) : World :=
  match m with
  | OBegin body operation now => do_begin w body operation now
  | OOutgoing i now =>
      match w_exchanges w !! i with
      | Some e => let '(h, c, _) := outgoing (w_heap w) (w_cx w) e now in w_with w h c (ended_by (w_cx w) c)
      | None => w
      end
  | OStart i status hs template now => do_start w i status hs template now
  | OPush j bytes => do_push w j bytes
  | OFinish j => do_finish w j
  | OComplete i k now => do_complete w i k now
  | OAbandon i =>
      match w_exchanges w !! i with
      | Some e =>
          let (h, c) := abandon (w_heap w) (w_cx w) e in
          w_with_exchanges (w_with w h c (ended_by (w_cx w) c ++ retired_by (w_cx w) c (ex_serial e)))
            (delete i (w_exchanges w))
      | None => w
      end
  | OInvalidate => let (h, c) := invalidate (w_heap w) (w_cx w) in w_with w h c (ended_by (w_cx w) c)
  | OClose now =>
      let c1 := (expire (w_heap w) (w_cx w) now).2 in
      let '(h, c, _) := close (w_heap w) (w_cx w) now in
      w_with w h c (ended_by (w_cx w) c1 ++ [ClosedBy (bool_decide (is_Some (cx_native c1)))])
  | OPing i j n now => do_ping w i j n now
  | OCancelRequest body now =>
      match request (cx_profile (w_cx w)) body with
      | Ok r => let '(h, c, _) := cancel_request (w_heap w) (w_cx w) r now in
                w_with w h c (ended_by (w_cx w) c ++ stopped_by (w_heap w) h c)
      | Err _ => w
      end
  | OCancelOperation operation now =>
      let '(h, c, _) := cancel_operation (w_heap w) (w_cx w) operation now in
      w_with w h c (ended_by (w_cx w) c ++ stopped_by (w_heap w) h c)
  | OState now =>
      let '(h, c, _) := state_at (w_heap w) (w_cx w) now in w_with w h c (ended_by (w_cx w) c)
  end.

Definition run_session (w : World) (ms : list SessionMove) : World := foldl do_move_session w ms.

(** A session as it is created. *)
Definition opened (h : Heap) (profile : McpProfile) (now expires : Z) : option World :=
  match Context_new h profile now expires with
  | (h, Ok c) => Some (mkWorld h c [] [] [] [] [] [] [])
  | (_, Err _) => None
  end.

(** ** The conversation a session is *)

Definition live_of (h : Heap) (c : Context) : list (Z * (Method * bool)) :=
  map (fun kp => (kp.1, (pd_method kp.2, flag_load h (pd_cancelled kp.2)))) (cx_pending c).
Definition conversation (h : Heap) (c : Context) : Conversation :=
  mkConversation (cx_state c) (live_of h c) (cx_next c).
End Session.
