(* ===== verification/McpSafety.v ===== *)
(** * Remote MCP: a session is a conversation

    The invariant of a session with its exchanges, and the refinement: what the log says
    an operation did is what the contract of [McpSession] allows. *)
From Stdlib Require Import Sorting.Sorted.
From S2P Require Import Prelude Protocol Ids Json Tools Catalog Profile Secrets Redaction Injection.
From S2P Require Import Sse McpWire McpMessage McpCustody McpHeaders McpContext McpSession.

(** ** The map of pending exchanges *)

Lemma pending_get_elem s m p : pending_get s m = Some p -> (s, p) ∈ m.
Proof.
  induction m as [|[k q] m IH]; cbn; [done|]. destruct (Z.eqb_spec s k); [intros [= ->]; subst; left|].
  intros Hg. right. by apply IH.
Qed.
Lemma pending_get_Some s m p : NoDup m.*1 -> (s, p) ∈ m -> pending_get s m = Some p.
Proof.
  induction m as [|[k q] m IH]; cbn; [by intros _ ?%elem_of_nil|]. intros [Hk Hm]%NoDup_cons [Hx|Hx]%elem_of_cons.
  - simplify_eq. by rewrite Z.eqb_refl.
  - rewrite (proj2 (Z.eqb_neq _ _)); [by apply IH|]. intros ->. apply Hk. apply list_elem_of_fmap. by exists (k, p).
Qed.
Lemma pending_get_remove k s m :
  pending_get k (pending_remove s m) = if k =? s then None else pending_get k m.
Proof.
  unfold pending_remove. induction m as [|[j q] m IH]; cbn; [by destruct (k =? s)|].
  destruct (Z.eqb_spec j s) as [->|Hj]; cbn; rewrite IH.
  - by destruct (k =? s).
  - destruct (Z.eqb_spec k s) as [->|Hk]; [|done]. by rewrite (proj2 (Z.eqb_neq s j)).
Qed.
Lemma elem_pending_remove x s m : x ∈ pending_remove s m <-> x.1 <> s /\ x ∈ m.
Proof. unfold pending_remove. rewrite !list_elem_of_In, filter_In, negb_true_iff, Z.eqb_neq. tauto. Qed.
Lemma pending_insert_new s p m : Forall (fun k => k < s) m.*1 -> pending_insert s p m = m ++ [(s, p)].
Proof.
  induction m as [|[k q] m IH]; cbn; [done|]. intros [Hk Hm]%Forall_cons.
  rewrite (proj2 (Z.ltb_ge _ _)), (proj2 (Z.eqb_neq _ _)) by lia. by rewrite IH.
Qed.
Lemma pending_insert_old s p q m : StronglySorted Z.lt m.*1 -> pending_get s m = Some q ->
  pending_insert s p m = map (fun kp => if kp.1 =? s then (s, p) else kp) m.
Proof.
  induction m as [|[k r] m IH]; cbn [fmap list_fmap fst pending_get pending_insert map]; [done|].
  inversion 1 as [|? ? Hs Hf]; subst. rewrite (Z.eqb_sym k s).
  destruct (Z.eqb_spec s k) as [->|Hne].
  - intros _. rewrite Z.ltb_irrefl. f_equal. transitivity (map (fun kp => kp) m); [by rewrite map_id|]. apply map_ext_in.
    intros [j r'] Hin%list_elem_of_In. cbn. rewrite (proj2 (Z.eqb_neq _ _)); [done|].
    rewrite Forall_forall in Hf. specialize (Hf j). assert (k < j); [|lia]. apply Hf.
    apply list_elem_of_fmap. by exists (j, r').
  - intros Hg. rewrite (proj2 (Z.ltb_ge _ _)); [by rewrite IH|].
    apply pending_get_elem in Hg. rewrite Forall_forall in Hf. specialize (Hf s).
    assert (k < s); [|lia]. apply Hf. apply list_elem_of_fmap. by exists (s, q).
Qed.
Lemma serials_NoDup (l : list Z) : StronglySorted Z.lt l -> NoDup l.
Proof.
  induction 1 as [|x l _ IH Hx]; constructor; [|done]. rewrite Forall_forall in Hx. intros Hin%Hx. lia.
Qed.
Lemma sorted_remove s m : StronglySorted Z.lt m.*1 -> StronglySorted Z.lt (pending_remove s m).*1.
Proof.
  unfold pending_remove. induction m as [|[k p] m IH]; cbn [fmap list_fmap List.filter fst]; [done|].
  inversion 1 as [|? ? Hs Hf]; subst. destruct (negb _); [|by apply IH]. cbn. constructor; [by apply IH|].
  rewrite Forall_forall in *. intros j (x & -> & Hx)%list_elem_of_fmap. apply Hf, list_elem_of_fmap.
  exists x. split; [done|]. by apply (elem_pending_remove x s m) in Hx as [_ ?].
Qed.
Lemma sorted_snoc (l : list Z) s : StronglySorted Z.lt l -> Forall (fun k => k < s) l -> StronglySorted Z.lt (l ++ [s]).
Proof.
  induction 1 as [|x l Hl IH Hx]; cbn; intros Hs; [by repeat constructor|].
  apply Forall_cons in Hs as [? Hs]. constructor; [by apply IH|]. apply Forall_app. by split; [|repeat constructor].
Qed.

(** ** The invariant *)

(** An exchange held for a context is bound to it, and shares its flag and its method
    with its pending entry while there is one. *)
Record Owned (c : Context) (e : Exchange) : Prop := {
  ow_binding : ex_binding e = cx_binding c;
  ow_serial : 1 <= ex_serial e < cx_next c;
  ow_request : rq_binding (ex_request e) = p_binding (cx_profile c);
  ow_pending p : pending_get (ex_serial e) (cx_pending c) = Some p ->
    ex_cancelled e = pd_cancelled p /\ rq_method (ex_request e) = pd_method p }.

(** A pending entry: its flag is its own, an entry of the handshake is never stopped, and
    notifications have no identifier. *)
Record Entry (h : Heap) (c : Context) (kp : Z * Pending) : Prop := {
  en_serial : 1 <= kp.1 < cx_next c;
  en_fresh : (pd_cancelled kp.2 < fresh_id h)%nat;
  en_fault : pd_cancelled kp.2 <> cx_fault c;
  en_handshake : handshake (pd_method kp.2) = true -> flag_load h (pd_cancelled kp.2) = false;
  en_id : pd_id kp.2 = None <-> notification (pd_method kp.2) = true }.

Record Sound (h : Heap) (c : Context) (exs : list Exchange) : Prop := {
  so_fault : (cx_fault c < fresh_id h)%nat;
  so_next : 1 <= cx_next c;
  so_sorted : StronglySorted Z.lt (cx_pending c).*1;
  so_entries : Forall (Entry h c) (cx_pending c);
  so_flags : NoDup (map (fun kp => pd_cancelled kp.2) (cx_pending c));
  so_over : over (cx_state c) = true -> cx_pending c = [] /\ flag_load h (cx_fault c) = true;
  so_native : is_Some (cx_native c) -> cx_state c = SAwaitingInitialized \/ cx_state c = SReady;
  so_owned : Forall (Owned c) exs;
  so_serials : NoDup (map ex_serial exs) }.

(** ** What operations are made of *)

Lemma over_cases s : over s = true <-> s = SInvalid \/ s = SClosed.
Proof. destruct s; vm_compute; naive_solver. Qed.

Lemma invalidate_spec h c :
  over (cx_state (invalidate h c).2) = true /\ cx_pending (invalidate h c).2 = [] /\ cx_native (invalidate h c).2 = None
  /\ cx_fault (invalidate h c).2 = cx_fault c /\ cx_next (invalidate h c).2 = cx_next c
  /\ cx_binding (invalidate h c).2 = cx_binding c /\ cx_profile (invalidate h c).2 = cx_profile c
  /\ (invalidate h c).1 = flag_store h (cx_fault c) true
  /\ conversation (invalidate h c).1 (invalidate h c).2 = ended (conversation h c).
Proof.
  unfold invalidate, conversation, live_of, ended. cbn. case_bool_decide; destruct c; cbn in *; subst; by split_and!.
Qed.

Lemma load_store h a b a' : flag_load (flag_store h a b) a' = if decide (a = a') then b else flag_load h a'.
Proof.
  unfold flag_load, flag_store. cbn. case_decide; subst; [by rewrite lookup_insert_eq|by rewrite lookup_insert_ne].
Qed.

Lemma Sound_invalidate h c exs : Sound h c exs -> Sound (invalidate h c).1 (invalidate h c).2 exs.
Proof.
  intros [Sf Sn Ss Se Sl So Sv Sw Sd]. destruct (invalidate_spec h c) as (Hov & Hp & Hn & Hf & Hx & Hb & Hpr & Hh & _).
  rewrite Hh. split; rewrite ?Hp, ?Hn, ?Hf, ?Hx; try done; try by constructor.
  - intros _. split; [done|]. rewrite load_store. by rewrite decide_True.
  - eapply Forall_impl; [exact Sw|]. intros e [? ? ? ?]. split; rewrite ?Hb, ?Hx, ?Hp, ?Hpr; try done.
Qed.

Lemma ended_step h c : ended_by c (invalidate h c).2 = (if over (cx_state c) then [] else [Ended]).
Proof.
  unfold ended_by. destruct (invalidate_spec h c) as (-> & _). by destruct (over (cx_state c)).
Qed.

Lemma conv_over h c exs : Sound h c exs -> over (cx_state c) = true -> ended (conversation h c) = conversation h c.
Proof.
  intros Hs Ho. destruct (so_over _ _ _ Hs Ho) as [Hp _]. unfold ended, conversation, live_of. rewrite Hp. cbn.
  apply over_cases in Ho as [-> | ->]; done.
Qed.

Lemma invalidate_conversing h c exs : Sound h c exs ->
  Conversing (conversation h c) (ended_by c (invalidate h c).2) (conversation (invalidate h c).1 (invalidate h c).2).
Proof.
  intros Hs. rewrite ended_step. destruct (invalidate_spec h c) as (_ & _ & _ & _ & _ & _ & _ & _ & ->).
  destruct (over (cx_state c)) eqn:Ho.
  - rewrite (conv_over _ _ _ Hs Ho). constructor.
  - apply Conversing_one. constructor.
Qed.

(** Expiry: the context is over, or nothing happened. *)
Definition same_or_over (h : Heap) (c : Context) (h' : Heap) (c' : Context) : Prop :=
  (h', c') = (h, c) \/ (h', c') = invalidate h c.

Lemma expire_cases h c now : same_or_over h c (expire h c now).1 (expire h c now).2.
Proof. unfold expire, same_or_over. destruct (_ && _); [right|left]; by destruct (invalidate h c). Qed.

Lemma same_or_over_sound h c h' c' exs : Sound h c exs -> same_or_over h c h' c' ->
  Sound h' c' exs /\ Conversing (conversation h c) (ended_by c c') (conversation h' c').
Proof.
  intros Hs [[= -> ->]|Heq].
  - split; [done|]. unfold ended_by. destruct (over (cx_state c)); constructor.
  - pose proof (Sound_invalidate _ _ _ Hs) as Hs'. pose proof (invalidate_conversing _ _ _ Hs) as Hc.
    rewrite <-Heq in Hs', Hc. by split.
Qed.

(** A checked exchange is pending, unstopped, in a session that is not over. *)
Lemma check_cases h c e now : let '(h', c', r) := check h c e now in
  same_or_over h c h' c' /\ (r = Ok tt -> (h', c') = (h, c) /\ ex_binding e = cx_binding c
    /\ over (cx_state c) = false /\ flag_load h (ex_cancelled e) = false
    /\ flag_load h (cx_fault c) = false /\ now < cx_expires c
    /\ exists p, pending_get (ex_serial e) (cx_pending c) = Some p).
Proof.
  unfold check. destruct (Nat.eqb_spec (cx_binding c) (ex_binding e)) as [Hb|Hb]; cbn [negb].
  2: { split; [by left|done]. }
  pose proof (expire_cases h c now) as Hx. destruct (expire h c now) as [h' c'] eqn:He. split; [done|].
  destruct (over (cx_state c')) eqn:Ho; [done|]. destruct (_ || _) eqn:Hp; [done|]. intros _. bool_hyps.
  assert ((h', c') = (h, c)) as [= -> ->].
  { destruct Hx as [?|Hx]; [done|]. exfalso. destruct (invalidate_spec h c) as (Ho' & _).
    cbn [fst snd] in Hx. rewrite <-Hx in Ho'. cbn in Ho'. congruence. }
  unfold expire in He. destruct (_ && _) eqn:Hexp.
  { destruct (invalidate_spec h c) as (Ho' & _). rewrite He in Ho'. cbn in Ho'. congruence. }
  rewrite Ho in Hexp. cbn [negb andb] in Hexp. bool_hyps. split_and!; try done.
  destruct (pending_get _ _) as [p|]; [by exists p|done].
Qed.

Lemma Entries_ext h c c' m : cx_next c <= cx_next c' -> cx_fault c = cx_fault c' ->
  Forall (Entry h c) m -> Forall (Entry h c') m.
Proof.
  intros Hn Hf He. eapply Forall_impl; [exact He|]. intros kp [? ? ? ? ?]. split; try done; [lia|congruence].
Qed.

(** Entries that keep their serial, method, identifier and flag. *)
Definition alike (kp kq : Z * Pending) : Prop :=
  kp.1 = kq.1 /\ pd_method kp.2 = pd_method kq.2 /\ pd_id kp.2 = pd_id kq.2 /\ pd_cancelled kp.2 = pd_cancelled kq.2.

Lemma started_alike s p m : StronglySorted Z.lt m.*1 -> pending_get s m = Some p ->
  Forall2 alike m (pending_insert s (set_started p) m).
Proof.
  intros Hs Hg. rewrite (pending_insert_old _ _ _ _ Hs Hg).
  assert (forall x, x ∈ m -> x.1 = s -> x = (s, p)) as Hsame.
  { intros [k q] Hx Hk. cbn in Hk. subst k. apply (pending_get_Some s m q) in Hx; [congruence|by apply serials_NoDup]. }
  clear Hs Hg. induction m as [|x m IH]; cbn; constructor.
  - destruct (Z.eqb_spec x.1 s) as [Hk|Hk]; [|done]. rewrite (Hsame x); [done|left|done].
  - apply IH. intros y Hy. apply Hsame. by right.
Qed.

Lemma alike_serials m m' : Forall2 alike m m' -> m'.*1 = m.*1.
Proof. induction 1 as [|x y m m' (Hk & _) _ IH]; cbn; congruence. Qed.
Lemma alike_flags m m' : Forall2 alike m m' -> map (fun kp => pd_cancelled kp.2) m' = map (fun kp => pd_cancelled kp.2) m.
Proof. induction 1 as [|x y m m' (_ & _ & _ & Hk) _ IH]; cbn; congruence. Qed.
Lemma alike_get m m' s : Forall2 alike m m' ->
  match pending_get s m, pending_get s m' with
  | Some p, Some q => pd_method p = pd_method q /\ pd_cancelled p = pd_cancelled q
  | None, None => True
  | _, _ => False
  end.
Proof.
  induction 1 as [|[k p] [k' q] m m' (Hk & ? & ? & ?) _ IH]; cbn in *; [done|]. subst k'. by destruct (s =? k).
Qed.

Lemma alike_sound h c exs m : Sound h c exs -> Forall2 alike (cx_pending c) m ->
  Sound h (cx_with_pending c m) exs /\ conversation h (cx_with_pending c m) = conversation h c.
Proof.
  intros [Sf Sn Ss Se Sl So Sv Sw Sd] Hm. split.
  - split; cbn; try done.
    + by rewrite (alike_serials _ _ Hm).
    + apply (Entries_ext h c); [done..|]. clear - Se Hm.
      induction Hm as [|[k p] [k' q] m m' (Hk & Hmt & Hi & Hc) _ IH]; [constructor|].
      apply Forall_cons in Se as [[? ? ? ? ?] Se]. constructor; [|by apply IH]. cbn in *. subst k'.
      split; cbn; rewrite <-?Hmt, <-?Hi, <-?Hc; done.
    + by rewrite (alike_flags _ _ Hm).
    + intros Ho. destruct (So Ho) as [Hp ?]. rewrite Hp in Hm. by inversion Hm.
    + eapply Forall_impl; [exact Sw|]. intros e [? ? ? Hown]. split; cbn; try done.
      intros q Hq. pose proof (alike_get _ _ (ex_serial e) Hm) as Hg. rewrite Hq in Hg.
      destruct (pending_get _ (cx_pending c)) as [p|]; [|done]. destruct Hg as [<- <-]. by apply Hown.
  - unfold conversation, live_of. cbn. f_equal.
    clear - Hm. induction Hm as [|[k p] [k' q] m m' (Hk & Hmt & Hi & Hc) _ IH]; cbn in *; congruence.
Qed.

(** Raising a flag that no entry of the handshake has. *)
Lemma raise_sound h c exs a : Sound h c exs ->
  Forall (fun kp => handshake (pd_method kp.2) = true -> pd_cancelled kp.2 <> a) (cx_pending c) ->
  Sound (flag_store h a true) c exs.
Proof.
  intros [Sf Sn Ss Se Sl So Sv Sw Sd] Ha. split; try done.
  - rewrite Forall_forall in *. intros kp Hin. destruct (Se kp Hin) as [? ? ? Hh ?]. split; try done.
    intros Hhs. rewrite load_store. rewrite decide_False; [by apply Hh|]. intros ->. by eapply Ha.
  - intros Ho. destruct (So Ho) as [? Hf]. split; [done|]. rewrite load_store. by case_decide.
Qed.

Lemma raise_stop h c exs s p : Sound h c exs -> pending_get s (cx_pending c) = Some p ->
  conversation (flag_store h (pd_cancelled p) true) c
  = mkConversation (cx_state c) (stop s (live_of h c)) (cx_next c).
Proof.
  intros [_ _ Ss _ Sl _ _ _ _] Hg. unfold conversation, live_of, stop. f_equal. rewrite map_map.
  apply pending_get_elem in Hg. apply serials_NoDup in Ss. revert Ss Sl Hg.
  generalize (cx_pending c) as m. intros m Hd Hl Hg. apply map_ext_in. intros [k q] Hin%list_elem_of_In. cbn.
  rewrite load_store. destruct (Z.eqb_spec k s) as [->|Hk].
  - assert (q = p) as ->. { eapply NoDup_fst_unique; eassumption. } by rewrite decide_True.
  - rewrite decide_False; [done|]. intros Hc. apply Hk.
    apply list_elem_of_lookup in Hg as [i Hi], Hin as [j Hj].
    assert (i = j) as ->; [|congruence].
    apply (NoDup_lookup _ i j (pd_cancelled p) Hl); by rewrite list_lookup_fmap, ?Hi, ?Hj; cbn; rewrite ?Hc.
Qed.

Lemma raise_other h c a : Forall (fun kp => pd_cancelled kp.2 <> a) (cx_pending c) ->
  conversation (flag_store h a true) c = conversation h c.
Proof.
  intros Ha. unfold conversation, live_of. f_equal. apply map_ext_in. intros kp Hin%list_elem_of_In.
  rewrite load_store, decide_False; [done|]. rewrite Forall_forall in Ha. intros ->. by eapply Ha.
Qed.

(** Removing an entry. *)
Lemma remove_sound h c exs s : Sound h c exs ->
  Sound h (cx_with_pending c (pending_remove s (cx_pending c))) exs
  /\ conversation h (cx_with_pending c (pending_remove s (cx_pending c)))
     = mkConversation (cx_state c) (retire s (live_of h c)) (cx_next c).
Proof.
  intros [Sf Sn Ss Se Sl So Sv Sw Sd]. split.
  - split; cbn; try done.
    + by apply sorted_remove.
    + rewrite Forall_forall in *. intros kp Hin. apply elem_pending_remove in Hin as [_ Hin].
      destruct (Se kp Hin). by split.
    + unfold pending_remove. clear - Sl. induction (cx_pending c) as [|[k p] m IH]; cbn in *; [done|].
      apply NoDup_cons in Sl as [Hn Sl]. destruct (negb _); cbn; [|by apply IH]. constructor; [|by apply IH].
      intros (x & Hx & Hin)%list_elem_of_fmap. apply Hn, list_elem_of_fmap. exists x. split; [done|].
      by apply (elem_pending_remove x s m) in Hin as [_ ?].
    + intros Ho. destruct (So Ho) as [-> ?]. done.
    + eapply Forall_impl; [exact Sw|]. intros e [? ? ? Hown]. split; cbn; try done.
      intros q. rewrite pending_get_remove. destruct (_ =? s); [done|]. apply Hown.
  - unfold conversation, live_of, retire, pending_remove. cbn. f_equal.
    clear. induction (cx_pending c) as [|[k p] m IH]; cbn; [done|]. destruct (k =? s); cbn; [apply IH|by rewrite IH].
Qed.

(** Fewer exchanges, more fresh addresses. *)
Lemma fewer_sound h c exs exs' : Sound h c exs -> exs' `sublist_of` exs -> Sound h c exs'.
Proof.
  intros [Sf Sn Ss Se Sl So Sv Sw Sd] Hsub. split; try done.
  - rewrite Forall_forall in *. intros e He. apply Sw. by eapply elem_of_submseteq, sublist_submseteq.
  - eapply sublist_NoDup; [done|]. by apply fmap_sublist.
Qed.

Lemma fresher_sound h c exs h' : Sound h c exs -> (fresh_id h <= fresh_id h')%nat ->
  (forall a, (a < fresh_id h)%nat -> flag_load h' a = flag_load h a) ->
  Sound h' c exs /\ conversation h' c = conversation h c.
Proof.
  intros [Sf Sn Ss Se Sl So Sv Sw Sd] Hle Hsame. split.
  - split; try done; [lia| |].
    + eapply Forall_impl; [exact Se|]. intros kp [? ? ? ? ?]. split; try done; [lia|]. by rewrite Hsame.
    + intros Ho. destruct (So Ho). by rewrite Hsame.
  - unfold conversation, live_of. f_equal. apply map_ext_in. intros kp Hin%list_elem_of_In.
    rewrite Forall_forall in Se. destruct (Se kp Hin). by rewrite Hsame.
Qed.

(** ** Beginning an exchange *)

Lemma flag_new_spec h : let (h', a) := flag_new h in
  a = fresh_id h /\ fresh_id h' = S a /\ flag_load h' a = false
  /\ forall a', (a' < fresh_id h)%nat -> flag_load h' a' = flag_load h a'.
Proof.
  unfold flag_new, flag_load. cbn. split_and!; [done|done|by rewrite lookup_insert_eq|].
  intros a' Ha. rewrite lookup_insert_ne; [done|lia].
Qed.

Definition begun (c : Context) (r : Request) (operation : string) (a : nat) : Context :=
  let p := mkPending (rq_method r) (rq_id r) operation a false in
  mkContext (cx_profile c) (cx_binding c) (cx_fault c)
    (if bool_decide (rq_method r = Initialize) then SInitializing else cx_state c) (cx_expires c) (cx_handshake c)
    (cx_native c) (cx_next c + 1) (cx_pending c ++ [(cx_next c, p)]).

Lemma serials_below h c exs : Sound h c exs -> Forall (fun k => k < cx_next c) (cx_pending c).*1.
Proof.
  intros Hs. rewrite Forall_fmap. eapply Forall_impl; [exact (so_entries _ _ _ Hs)|]. intros kp [? _ _ _ _]. cbn. lia.
Qed.

(** A new entry under a flag that nothing else uses. *)
Lemma begun_sound h c exs r operation a mapped target : Sound h c exs ->
  rq_binding r = p_binding (cx_profile c) -> (rq_id r = None <-> notification (rq_method r) = true) ->
  (a < fresh_id h)%nat -> flag_load h a = false -> a <> cx_fault c ->
  Forall (fun kp => pd_cancelled kp.2 <> a) (cx_pending c) -> over (cx_state c) = false ->
  (rq_method r = Initialize -> cx_native c = None) ->
  Sound h (begun c r operation a) (exs ++ [mkExchange (cx_binding c) (cx_next c) r mapped target a])
  /\ conversation h (begun c r operation a)
     = mkConversation (if bool_decide (rq_method r = Initialize) then SInitializing else cx_state c)
         (live_of h c ++ [(cx_next c, (rq_method r, false))]) (cx_next c + 1).
Proof.
  intros Hs Hb Hid Hfresh Hflag Hfault Hnew Ho Hnat. pose proof (serials_below _ _ _ Hs) as Hbelow.
  destruct Hs as [Sf Sn Ss Se Sl So Sv Sw Sd]. split.
  - split; cbn; try done; [lia|..].
    + rewrite fmap_app. by apply sorted_snoc.
    + apply Forall_app. split; [by apply (Entries_ext h c); cbn; [lia|..]|]. constructor; [|constructor].
      split; cbn; [lia|done..].
    + rewrite map_app. apply NoDup_app. split; [done|]. split; [|apply NoDup_singleton].
      intros b (kp & -> & Hin)%list_elem_of_fmap Hx%list_elem_of_singleton. rewrite Forall_forall in Hnew. by eapply Hnew.
    + intros Hov. case_bool_decide; [done|congruence].
    + intros Hn. case_bool_decide as Hi; [|by apply Sv]. rewrite (Hnat Hi) in Hn. by destruct Hn.
    + apply Forall_app. split.
      * eapply Forall_impl; [exact Sw|]. intros e [? Hser ? Hown]. split; cbn; try done; [lia|].
        intros q Hq. apply Hown. revert Hq. clear - Hser.
        induction (cx_pending c) as [|[k p] m IH]; cbn in *.
        -- rewrite (proj2 (Z.eqb_neq _ _)) by lia. done.
        -- destruct (_ =? k); [done|]. by apply IH.
      * constructor; [|constructor]. split; cbn; try done; [lia|].
        intros q Hq. apply pending_get_elem, elem_of_app in Hq as [Hq|Hq].
        -- rewrite Forall_forall in Hbelow. assert (cx_next c < cx_next c); [|lia]. apply Hbelow, list_elem_of_fmap.
           by exists (cx_next c, q).
        -- apply list_elem_of_singleton in Hq. by simplify_eq.
    + rewrite map_app. apply NoDup_app. split; [done|]. split; [|apply NoDup_singleton].
      intros s (e & -> & Hin)%list_elem_of_fmap Hx%list_elem_of_singleton. cbn in Hx.
      rewrite Forall_forall in Sw. destruct (Sw e Hin). lia.
  - unfold conversation, live_of. cbn. rewrite map_app. cbn. by rewrite Hflag.
Qed.

(** ** The operations *)

Section Operations.
Context `{Base64} `{HttpMessage} `{JsonText} `{Rmcp}.

(** An operation keeps the invariant, and its part of the log is a conversation. *)
Definition kept_by (h : Heap) (c : Context) (h' : Heap) (c' : Context) (exs' : list Exchange) (es : list Event) : Prop :=
  Sound h' c' exs' /\ Conversing (conversation h c) es (conversation h' c')
  /\ cx_profile c' = cx_profile c /\ cx_fault c' = cx_fault c /\ cx_binding c' = cx_binding c.

Lemma same_or_over_kept h c h' c' exs : Sound h c exs -> same_or_over h c h' c' ->
  kept_by h c h' c' exs (ended_by c c').
Proof.
  intros Hs Hc. destruct (same_or_over_sound _ _ _ _ _ Hs Hc) as [Hs' Hv]. split; [done|]. split; [done|].
  destruct Hc as [[= -> ->]|Hi]; [done|]. destruct (invalidate_spec h c) as (_ & _ & _ & Hf & _ & Hb & Hp & _).
  rewrite <-Hi in Hf, Hb, Hp. done.
Qed.

Lemma expire_alive h c now : over (cx_state (expire h c now).2) = false ->
  expire h c now = (h, c) /\ over (cx_state c) = false.
Proof.
  intros Ho. destruct (expire_cases h c now) as [Hx|Hx].
  - destruct (expire h c now) as [h' c']. cbn in *. by simplify_eq.
  - destruct (invalidate_spec h c) as (Hov & _). rewrite <-Hx in Hov. cbn in Hov. congruence.
Qed.

Lemma busy_pending h c control :
  busy (conversation h c) control = len (List.filter (fun kp => Bool.eqb (is_control (pd_method kp.2)) control) (cx_pending c)).
Proof.
  unfold busy, conversation, live_of. cbn. induction (cx_pending c) as [|[k p] m IH]; cbn; [done|].
  destruct (Bool.eqb _ _); rewrite ?len_cons; lia.
Qed.

Lemma exhausted_false h c m : exhausted c m = false ->
  issued (conversation h c) <= 4096 /\ room (conversation h c) m.
Proof.
  unfold exhausted, room. rewrite busy_pending. cbn. intros Hx. bool_hyps. destruct (is_control m); lia.
Qed.

Lemma admitted_admits h c m : method_admitted c m = true -> over (cx_state c) = false -> admits (conversation h c) m.
Proof.
  intros Ha Ho. destruct m; cbn in *; bool_hyps; try done. split; [done|].
  unfold live_of. rewrite Forall_fmap. cbn.
  match goal with HE : existsb _ _ = false |- _ => apply existsb_false in HE; eapply Forall_impl; [exact HE|] end.
  intros kp Hk. cbn in *. by bool_hyps.
Qed.

(** What a cancellation targets is live, not stopped, and not of the handshake. *)
Lemma cancel_target_spec h c exs r s p : Sound h c exs -> cancel_target h c r = Some (s, p) ->
  pending_get s (cx_pending c) = Some p /\ handshake (pd_method p) = false
  /\ flag_load h (pd_cancelled p) = false /\ is_Some (pd_id p).
Proof.
  intros Hs (Hin & Hf)%find_first_Some. cbn in Hf. apply andb_true_iff in Hf as [Hf Hstop].
  apply andb_true_iff in Hf as [Hf Hinit]. apply andb_true_iff in Hf as [_ Hsome]. bool_hyps.
  pose proof (so_entries _ _ _ Hs) as He. rewrite Forall_forall in He. destruct (He _ Hin) as [_ _ _ _ Hid]. cbn in Hid.
  split_and!; try done.
  - apply pending_get_Some; [|done]. apply serials_NoDup. apply Hs.
  - destruct (handshake (pd_method p)) eqn:Hh; [|done]. apply handshake_cases in Hh as [Hh|Hh]; [done|].
    rewrite Hh in Hid. pose proof (proj2 Hid eq_refl) as Hnone. rewrite Hnone in Hsome. by destruct Hsome.
Qed.

Lemma stop_step h c exs s p : Sound h c exs -> pending_get s (cx_pending c) = Some p ->
  handshake (pd_method p) = false -> flag_load h (pd_cancelled p) = false ->
  Sound (flag_store h (pd_cancelled p) true) c exs
  /\ Conversing (conversation h c) [Stopped s] (conversation (flag_store h (pd_cancelled p) true) c).
Proof.
  intros Hs Hg Hh Hf. split.
  - apply raise_sound; [done|]. apply Forall_forall. intros [k q] Hin Hq Hc. cbn in *.
    pose proof (so_flags _ _ _ Hs) as Hd. apply pending_get_elem in Hg.
    assert (q = p) as ->; [|congruence].
    apply list_elem_of_lookup in Hg as [i Hi], Hin as [j Hj].
    assert (i = j) as ->; [|congruence].
    apply (NoDup_lookup _ i j (pd_cancelled p) Hd); by rewrite list_lookup_fmap, ?Hi, ?Hj; cbn; rewrite ?Hc.
  - rewrite (raise_stop _ _ _ _ _ Hs Hg). apply Conversing_one.
    apply (CvStop (conversation h c) s (pd_method p)); [|done].
    cbn. unfold live_of. apply list_elem_of_fmap. exists (s, p). cbn. rewrite Hf. split; [done|]. by apply pending_get_elem.
Qed.

(** The target and the new exchange. *)
Definition target_events (target : option (Z * Pending)) : list Event :=
  match target with Some (t, _) => [Stopped t] | None => [] end.

Lemma admit_exchange_kept h c exs r operation target : Sound h c exs ->
  rq_binding r = p_binding (cx_profile c) -> (rq_id r = None <-> notification (rq_method r) = true) ->
  over (cx_state c) = false -> method_admitted c (rq_method r) = true -> exhausted c (rq_method r) = false ->
  match target with
  | Some (s, p) => pending_get s (cx_pending c) = Some p /\ handshake (pd_method p) = false
      /\ flag_load h (pd_cancelled p) = false
  | None => True
  end ->
  let '(h', c', e) := admit_exchange h c r operation target in
  kept_by h c h' c' (exs ++ [e]) (target_events target ++ [Began (ex_serial e) (rq_method r)])
  /\ over (cx_state c') = false /\ ex_serial e = cx_next c /\ ex_request e = r
  /\ match ex_target e, ex_mapped e with Some _, Some t => [Stopped t] | _, _ => [] end = target_events target.
Proof.
  intros Hs Hb Hid Ho Hadm Hex Ht. unfold admit_exchange.
  pose proof (flag_new_spec h) as Hnew. destruct (flag_new h) as [h1 a]. destruct Hnew as (-> & Hf1 & Hl1 & Hsame1).
  assert (Hinit : rq_method r = Initialize -> cx_native c = None).
  { intros Hm. rewrite Hm in Hadm. cbn in Hadm. bool_hyps. destruct (cx_native c) eqn:Hn; [|done].
    destruct (so_native _ _ _ Hs); [by rewrite Hn|congruence..]. }
  destruct (fresher_sound _ _ _ h1 Hs) as [Hs1 Hv1]; [lia|done|].
  set (h2 := match target with Some _ => _ | None => _ end).
  assert (exists hm, h2 = (hm, match target with Some (t, _) => Some t | None => match rq_id r with Some _ => Some (cx_next c) | None => None end end)
    /\ Sound hm c exs /\ Conversing (conversation h1 c) (target_events target) (conversation hm c)
    /\ fresh_id hm = fresh_id h1 /\ flag_load hm (fresh_id h) = false
    /\ (exists l, live_exchanges (conversation hm c) = l)) as (hm & Hh2 & Hs2 & Hv2 & Hf2 & Hl2 & _).
  { unfold h2. destruct target as [[t p]|]; [|exists h1; split_and!; try done; [constructor|by eexists]].
    destruct Ht as (Hg & Hh & Hfl). pose proof (so_entries _ _ _ Hs) as He. rewrite Forall_forall in He.
    destruct (He (t, p) (pending_get_elem _ _ _ Hg)) as [_ Hfr _ _ _]. cbn in Hfr.
    destruct (stop_step h1 c exs t p Hs1 Hg Hh) as [Hs2 Hv2]; [by rewrite Hsame1|].
    eexists. split; [reflexivity|]. split_and!; try done; [|by eexists]. rewrite load_store, decide_False; [done|lia]. }
  rewrite Hh2. clear h2 Hh2.
  pose proof (so_entries _ _ _ Hs) as He.
  assert (Forall (fun kp => pd_cancelled kp.2 <> fresh_id h) (cx_pending c)) as Hfresh.
  { eapply Forall_impl; [exact He|]. intros kp [_ Hfr _ _ _]. lia. }
  pose proof (so_fault _ _ _ Hs) as Hfault.
  destruct (begun_sound hm c exs r operation (fresh_id h)
    (match target with Some (t, _) => Some t | None => match rq_id r with Some _ => Some (cx_next c) | None => None end end)
    ((fun tp => pd_operation tp.2) <$> target) Hs2 Hb Hid) as [Hs3 Hv3]; [lia|done|lia|done..|].
  assert (Hctx : cx_with_pending (if bool_decide (rq_method r = Initialize) then cx_with_state (cx_with_next c (cx_next c + 1)) SInitializing
                                  else cx_with_next c (cx_next c + 1))
      (pending_insert (cx_next c) (mkPending (rq_method r) (rq_id r) operation (fresh_id h) false)
         (cx_pending (if bool_decide (rq_method r = Initialize) then cx_with_state (cx_with_next c (cx_next c + 1)) SInitializing
                      else cx_with_next c (cx_next c + 1))))
    = begun c r operation (fresh_id h)).
  { pose proof (serials_below _ _ _ Hs) as Hbelow. unfold begun.
    case_bool_decide; cbn; by rewrite pending_insert_new. }
  cbn zeta. rewrite Hctx.
  replace (cx_binding (if bool_decide _ then _ else _)) with (cx_binding c) by (by case_bool_decide).
  split_and!; [split; [exact Hs3|split; [|done]]|..].
  - rewrite <-Hv1. eapply Conversing_app; [exact Hv2|]. rewrite Hv3. apply Conversing_one.
    destruct (exhausted_false hm c (rq_method r) Hex). cbn [ex_serial].
    apply (CvBegin (conversation hm c) (rq_method r)); [by apply admitted_admits|done..].
  - cbn. case_bool_decide; done.
  - done.
  - done.
  - by destruct target as [[]|]; [|destruct (rq_id r)].
Qed.

Lemma ended_by_alive c c' : over (cx_state c') = false -> ended_by c c' = [].
Proof. intros Ho. unfold ended_by. by rewrite Ho, andb_false_r. Qed.

Lemma begin_kept h c exs r operation now : Sound h c exs ->
  (rq_id r = None <-> notification (rq_method r) = true) ->
  let '(h', c', result) := begin h c r operation now in
  match result with
  | Ok (Some e) =>
      kept_by h c h' c' (exs ++ [e])
        (ended_by c c' ++ match ex_target e, ex_mapped e with Some _, Some t => [Stopped t] | _, _ => [] end
           ++ [Began (ex_serial e) (rq_method r)])
  | _ => kept_by h c h' c' exs (ended_by c c')
  end.
Proof.
  intros Hs Hid. unfold begin. pose proof (same_or_over_kept _ _ _ _ _ Hs (expire_cases h c now)) as Hexp.
  pose proof (expire_alive h c now) as Halive. destruct (expire h c now) as [h1 c1]. cbn [fst snd] in *.
  destruct (negb _ || _) eqn:Hb; [done|]. destruct (over (cx_state c1)) eqn:Ho; [done|].
  destruct (Halive eq_refl) as [[= -> ->] _].
  destruct (negb (method_admitted c (rq_method r))) eqn:Hadm; [done|]. destruct (conflicting _ _ _); [done|].
  apply orb_false_iff in Hb as [Hb _]. apply negb_false_iff, Nat.eqb_eq in Hb. apply negb_false_iff in Hadm.
  assert (forall target, match target with
            | Some (s, p) => pending_get s (cx_pending c) = Some p /\ handshake (pd_method p) = false
                /\ flag_load h (pd_cancelled p) = false
            | None => True end ->
          let '(h', c', result) :=
            if exhausted c (rq_method r) then (h, c, fail LimitExceeded)
            else let '(h, c, e) := admit_exchange h c r operation target in (h, c, Ok (Some e)) in
          match result with
          | Ok (Some e) =>
              kept_by h c h' c' (exs ++ [e])
                (ended_by c c' ++ match ex_target e, ex_mapped e with Some _, Some t => [Stopped t] | _, _ => [] end
                   ++ [Began (ex_serial e) (rq_method r)])
          | _ => kept_by h c h' c' exs (ended_by c c')
          end) as Hadmit.
  { intros target Ht. destruct (exhausted c (rq_method r)) eqn:Hex; [done|].
    pose proof (admit_exchange_kept h c exs r operation target Hs Hb Hid Ho Hadm Hex Ht) as Hk.
    destruct (admit_exchange h c r operation target) as [[h' c'] e]. destruct Hk as (Hk & Ho' & _ & _ & ->).
    by rewrite (ended_by_alive _ _ Ho'). }
  case_bool_decide as Hc; [|by apply (Hadmit None)].
  destruct (cancel_target h c r) as [[t p]|] eqn:Ht; [|done].
  apply (cancel_target_spec _ _ _ _ _ _ Hs) in Ht as (? & ? & ? & _). by apply (Hadmit (Some (t, p))).
Qed.

Lemma check_kept h c exs e now : Sound h c exs ->
  let '(h', c', _) := check h c e now in kept_by h c h' c' exs (ended_by c c').
Proof.
  intros Hs. pose proof (check_cases h c e now) as Hc. destruct (check h c e now) as [[h' c'] r].
  destruct Hc as [Hc _]. by apply same_or_over_kept.
Qed.

Lemma outgoing_kept h c exs e now : Sound h c exs ->
  let '(h', c', _) := outgoing h c e now in kept_by h c h' c' exs (ended_by c c').
Proof.
  intros Hs. unfold outgoing. pose proof (check_kept h c exs e now Hs) as Hk.
  destruct (check h c e now) as [[h' c'] [[]|x]]; done.
Qed.

Lemma ping_kept h c exs e d ping now : Sound h c exs ->
  let '(h', c', _, _) := ping_reply h c e d ping now in kept_by h c h' c' exs (ended_by c c').
Proof.
  intros Hs. unfold ping_reply. pose proof (check_kept h c exs e now Hs) as Hk.
  destruct (check h c e now) as [[h' c'] [[]|x]]; [|done]. by destruct (_ || _).
Qed.

Lemma kept_refl h c exs : Sound h c exs -> kept_by h c h c exs [].
Proof. intros Hs. split; [done|]. split; [constructor|done]. Qed.

(** An admitted response marks its entry; a refused one ends the session. *)
Lemma start_kept h c exs e status hs template now : Sound h c exs ->
  let '(h', c', result) := start_response h c e status hs template now in
  kept_by h c h' c' exs (ended_by c c')
  /\ forall d, result = Ok d -> over (cx_state c) = false /\ cx_state c' = cx_state c
       /\ cx_native c' = cx_native c /\ ex_binding e = cx_binding c
       /\ exists p a, pending_get (ex_serial e) (cx_pending c) = Some p /\ pd_started p = false
            /\ c' = cx_with_pending c (pending_insert (ex_serial e) (set_started p) (cx_pending c))
            /\ admit_response (rq_method (ex_request e)) status hs (cx_native c) template = Ok a
            /\ fresh_id h' = S (fresh_id h) /\ flags h' = flags h
            /\ d = ResponseDecoder_new (fresh_id h) c' e status a.
Proof.
  intros Hs. unfold start_response. pose proof (check_cases h c e now) as Hc. pose proof (check_kept h c exs e now Hs) as Hk.
  destruct (check h c e now) as [[h' c'] [[]|x]]; [|by split].
  destruct (proj2 Hc eq_refl) as ([= -> ->] & Hb & Ho & _ & _ & _ & p & Hp). rewrite Hp.
  destruct (pd_started p) eqn:Hst; [by split|].
  destruct (admit_response _ _ _ _ _) as [a|x] eqn:Ha.
  - cbn. pose proof (started_alike _ _ _ (so_sorted _ _ _ Hs) Hp) as Hal.
    destruct (alike_sound _ _ _ _ Hs Hal) as [Hs' Hv].
    destruct (fresher_sound _ _ _ (mkHeap (flags h) (S (fresh_id h))) Hs') as [Hs2 Hv2]; [cbn; lia|done|].
    split.
    + split; [done|]. split; [|done]. rewrite ended_by_alive by done. rewrite Hv2, Hv. constructor.
    + intros d [= <-]. split_and!; try done. by exists p, a.
  - split; [|done]. pose proof (same_or_over_kept h c (invalidate h c).1 (invalidate h c).2 exs Hs) as Hi.
    exact (Hi (or_intror eq_refl)).
Qed.

Lemma remove_absent s m : pending_get s m = None -> pending_remove s m = m.
Proof.
  unfold pending_remove. induction m as [|[k p] m IH]; cbn; [done|]. rewrite (Z.eqb_sym k s).
  destruct (s =? k); [done|]. cbn. intros Hn. by rewrite IH.
Qed.
Lemma with_pending_self c : cx_with_pending c (cx_pending c) = c.
Proof. by destruct c. Qed.

Lemma ended_by_self c : ended_by c c = [].
Proof. unfold ended_by. by destruct (over _). Qed.
Lemma retired_by_self c s : retired_by c c s = [].
Proof. unfold retired_by. destruct (bool_decide _); by rewrite ?andb_false_r. Qed.

Lemma live_elem h c s p : pending_get s (cx_pending c) = Some p ->
  (s, (pd_method p, flag_load h (pd_cancelled p))) ∈ live_exchanges (conversation h c).
Proof.
  intros Hg. cbn. unfold live_of. apply list_elem_of_fmap. exists (s, p). split; [done|]. by apply pending_get_elem.
Qed.

(** An entry that is not of the handshake is dropped. *)
Lemma drop_kept h c exs s : Sound h c exs -> 
  (forall p, pending_get s (cx_pending c) = Some p -> handshake (pd_method p) = false) ->
  let c' := cx_with_pending c (pending_remove s (cx_pending c)) in
  kept_by h c h c' exs (ended_by c c' ++ retired_by c c' s).
Proof.
  intros Hs Hh c'. destruct (remove_sound h c exs s Hs) as [Hs' Hv]. split; [done|]. split; [|done].
  assert (ended_by c c' = []) as ->. { unfold ended_by. cbn. by destruct (over _). }
  unfold retired_by. cbn [cx_state cx_pending cx_with_pending c'].
  destruct (over (cx_state c)) eqn:Ho; cbn [negb andb app].
  { destruct (so_over _ _ _ Hs Ho) as [Hp _]. unfold c'. rewrite Hp. cbn. rewrite <-Hp, with_pending_self. constructor. }
  rewrite pending_get_remove, Z.eqb_refl. rewrite (bool_decide_false (is_Some None)) by (by intros []).
  destruct (pending_get s (cx_pending c)) as [p|] eqn:Hg.
  - rewrite bool_decide_true by eauto. cbn. unfold c'. rewrite Hv. apply Conversing_one.
    eapply (CvRetire (conversation h c)); [by apply live_elem|by apply Hh].
  - rewrite bool_decide_false by (by intros []). cbn. unfold c'. rewrite remove_absent, with_pending_self by done. constructor.
Qed.

Lemma restate_sound h c exs p n : Sound h c exs -> over p = false ->
  (is_Some n -> p = SAwaitingInitialized \/ p = SReady) ->
  Sound h (cx_with_state (cx_with_native c n) p) exs.
Proof.
  intros [Sf Sn Ss Se Sl So Sv Sw Sd] Hp Hn. split; cbn; try done; [by apply (Entries_ext h c)|congruence|].
  eapply Forall_impl; [exact Sw|]. intros e [? ? ? ?]. by split.
Qed.

Definition commit_event (e : Exchange) (cm : Completion) : Event :=
  if bool_decide (rq_method (ex_request e) = Initialize) && negb (cm_success cm)
  then Refused (ex_serial e) else Committed (ex_serial e) (rq_method (ex_request e)).

Lemma commit_kept h c exs e cm p : Sound h c exs -> over (cx_state c) = false ->
  pending_get (ex_serial e) (cx_pending c) = Some p -> rq_method (ex_request e) = pd_method p ->
  flag_load h (pd_cancelled p) = false ->
  let c1 := cx_with_pending c (pending_remove (ex_serial e) (cx_pending c)) in
  let (h', c') := commit_response h c1 (rq_method (ex_request e)) cm in
  kept_by h c h' c' exs [commit_event e cm]
  /\ match rq_method (ex_request e) with
     | Initialize => cm_success cm = true -> cx_native c' = cm_native cm
     | _ => cx_native c' = cx_native c
     end.
Proof.
  intros Hs Ho Hg Hm Hf c1. destruct (remove_sound h c exs (ex_serial e) Hs) as [Hs1 Hv1]. fold c1 in Hs1, Hv1.
  pose proof (live_elem h c _ _ Hg) as Hlive. rewrite Hf, <-Hm in Hlive.
  assert (forall c', cx_pending c' = cx_pending c1 -> cx_next c' = cx_next c1 ->
      cx_state c' = phase_after (rq_method (ex_request e)) (cx_state c) ->
      Conversing (conversation h c) [Committed (ex_serial e) (rq_method (ex_request e))] (conversation h c')) as Hcommit.
  { intros c' Hp Hn Hst. apply Conversing_one. replace (conversation h c') with
      (mkConversation (phase_after (rq_method (ex_request e)) (phase (conversation h c)))
        (retire (ex_serial e) (live_exchanges (conversation h c))) (issued (conversation h c))); [by constructor|].
    unfold conversation at 4. unfold live_of at 1. rewrite Hp, Hn, Hst. unfold conversation in Hv1. injection Hv1 as Hv1.
    cbn. f_equal. symmetry. exact Hv1. }
  unfold commit_response, commit_event. destruct (rq_method (ex_request e)) eqn:Hmethod; cbn [negb];
    try (rewrite bool_decide_false by done; cbn [andb]).
  - rewrite bool_decide_true by done. cbn [andb]. destruct (cm_success cm) eqn:Hsuc; cbn [negb].
    + split; [|done]. split; [by apply restate_sound; [|done|auto]|]. split; [by apply Hcommit|done].
    + split; [|done]. split; [by apply Sound_invalidate|]. split.
      * assert (Conversing (conversation h c) [Refused (ex_serial e)]
                  (conversation (invalidate h c1).1 (invalidate h c1).2)) as Hv; [|exact Hv].
        destruct (invalidate_spec h c1) as (_ & _ & _ & _ & _ & _ & _ & _ & ->).
        replace (ended (conversation h c1)) with (ended (conversation h c)) by done.
        apply Conversing_one. by constructor.
      * destruct (invalidate_spec h c1) as (_ & _ & _ & Hfa & _ & Hb & Hp & _). done.
  - split; [|done]. split; [|split; [by apply Hcommit|done]].
    replace (cx_with_state c1 SReady) with (cx_with_state (cx_with_native c1 (cx_native c1)) SReady) by done.
    apply restate_sound; [done|done|auto].
  - split; [|done]. split; [done|]. split; [by apply Hcommit|done].
  - split; [|done]. split; [done|]. split; [by apply Hcommit|done].
  - split; [|done]. split; [done|]. split; [by apply Hcommit|done].
  - split; [|done]. split; [done|]. split; [by apply Hcommit|done].
Qed.

Lemma complete_kept h c exs e cm now : Sound h c exs -> e ∈ exs ->
  let '(h', c', result) := complete h c e cm now in
  match result with
  | Ok _ => kept_by h c h' c' exs [commit_event e cm]
  | Err _ => kept_by h c h' c' exs (ended_by c c' ++ retired_by c c' (ex_serial e))
  end.
Proof.
  intros Hs He. pose proof (so_owned _ _ _ Hs) as Hown. rewrite Forall_forall in Hown. destruct (Hown e He) as [_ _ _ Hpend].
  assert (kept_by h c h c exs (ended_by c c ++ retired_by c c (ex_serial e))) as Hsame.
  { rewrite ended_by_self, retired_by_self. by apply kept_refl. }
  unfold complete. destruct (_ || _) eqn:Hbind; [done|]. pose proof (check_cases h c e now) as Hc.
  destruct (check h c e now) as [[h1 c1] [[]|x]] eqn:Hchk.
  - destruct (proj2 Hc eq_refl) as ([= -> ->] & Hb & Ho & Hf & _ & _ & p & Hp).
    destruct (negb (from_option _ _ _)); [done|].
    destruct (Hpend p Hp) as [Hfl Hm]. rewrite Hfl in Hf.
    pose proof (commit_kept h c exs e cm p Hs Ho Hp Hm Hf) as Hk. cbv zeta in Hk.
    destruct (commit_response _ _ _ _) as [h' c']. apply Hk.
  - destruct Hc as [Hc _].
    destruct Hc as [[= -> ->]|Hi].
    + apply drop_kept; [done|]. intros p Hp. destruct (Hpend p Hp) as [Hfl Hm].
      destruct (handshake (pd_method p)) eqn:Hh; [|done]. exfalso.
      pose proof (so_entries _ _ _ Hs) as Hen. rewrite Forall_forall in Hen.
      destruct (Hen _ (pending_get_elem _ _ _ Hp)) as [_ _ _ Hnot _]. specialize (Hnot Hh). cbn in Hnot.
      apply orb_false_iff in Hbind as [Hbind _]. apply orb_false_iff in Hbind as [Hbind _].
      unfold check in Hchk. rewrite Hbind in Hchk. destruct (expire h c now) as [h2 c2]. injection Hchk as -> -> Hr.
      destruct (over (cx_state c)) eqn:Ho; [destruct (so_over _ _ _ Hs Ho) as [Hnil _]; by rewrite Hnil in Hp|].
      rewrite Hp, Hfl, Hnot in Hr. done.
    + destruct (invalidate_spec h c) as (Hov & Hpn & _). rewrite <-Hi in Hov, Hpn. cbn in Hov, Hpn.
      replace (cx_with_pending c1 (pending_remove (ex_serial e) (cx_pending c1))) with c1.
      2: { rewrite Hpn. cbn. rewrite <-Hpn. by rewrite with_pending_self. }
      unfold retired_by. rewrite Hov. cbn. rewrite app_nil_r. apply same_or_over_kept; [done|by right].
Qed.

Lemma abandon_kept h c exs e : Sound h c exs -> e ∈ exs ->
  let (h', c') := abandon h c e in
  kept_by h c h' c' exs (ended_by c c' ++ retired_by c c' (ex_serial e)).
Proof.
  intros Hs He. pose proof (so_owned _ _ _ Hs) as Hown. rewrite Forall_forall in Hown. destruct (Hown e He) as [Hb _ _ _].
  assert (kept_by h c h c exs (ended_by c c ++ retired_by c c (ex_serial e))) as Hsame.
  { rewrite ended_by_self, retired_by_self. by apply kept_refl. }
  unfold abandon. destruct (negb _); [done|]. destruct (pending_get (ex_serial e) (cx_pending c)) as [p|] eqn:Hp; [|done].
  destruct (over (cx_state c)) eqn:Ho; [destruct (so_over _ _ _ Hs Ho) as [Hnil _]; by rewrite Hnil in Hp|].
  set (c1 := cx_with_pending c _). set (h1 := flag_store h _ true).
  destruct (remove_sound h c exs (ex_serial e) Hs) as [Hs1 Hv1]. fold c1 in Hs1, Hv1.
  assert (Forall (fun kp => pd_cancelled kp.2 <> pd_cancelled p) (cx_pending c1)) as Hother.
  { apply Forall_forall. intros [k q] [Hk Hin]%elem_pending_remove Hc. cbn in *. apply Hk.
    apply pending_get_elem in Hp. pose proof (so_flags _ _ _ Hs) as Hd.
    apply list_elem_of_lookup in Hp as [i Hi], Hin as [j Hj]. assert (i = j) as ->; [|congruence].
    apply (NoDup_lookup _ i j (pd_cancelled p) Hd); by rewrite list_lookup_fmap, ?Hi, ?Hj; cbn; rewrite ?Hc. }
  assert (Sound h1 c1 exs) as Hs2.
  { apply raise_sound; [done|]. eapply Forall_impl; [exact Hother|]. intros kp Hne _. exact Hne. }
  assert (conversation h1 c1 = conversation h c1) as Hv2 by (by apply raise_other).
  replace (bool_decide (pd_method p ∈ [Initialize; Initialized])) with (handshake (pd_method p)) by done.
  destruct (handshake (pd_method p)) eqn:Hh.
  - pose proof (Sound_invalidate _ _ _ Hs2) as Hs3.
    destruct (invalidate_spec h1 c1) as (Hov & _ & _ & Hfa & _ & Hbi & Hpr & _ & Hv3).
    destruct (invalidate h1 c1) as [h2 c2]. cbn [fst snd] in *. split; [done|]. split; [|done].
    unfold ended_by, retired_by. rewrite Hov, Ho. cbn [negb andb app]. apply Conversing_one. rewrite Hv3, Hv2.
    replace (ended (conversation h c1)) with (ended (conversation h c)) by done. constructor.
  - destruct (drop_kept h c exs (ex_serial e) Hs) as (_ & Hv & _).
    { intros q Hq. rewrite Hp in Hq. by simplify_eq. }
    fold c1 in Hv. split; [done|]. split; [|done]. by rewrite Hv2.
Qed.

Lemma close_kept h c exs now : Sound h c exs ->
  let c1 := (expire h c now).2 in
  let '(h', c', _) := close h c now in
  kept_by h c h' c' exs (ended_by c c1 ++ [ClosedBy (bool_decide (is_Some (cx_native c1)))]).
Proof.
  intros Hs. unfold close. pose proof (same_or_over_kept _ _ _ _ _ Hs (expire_cases h c now)) as Hexp.
  destruct (expire h c now) as [h1 c1]. cbn [fst snd] in *. destruct Hexp as (Hs1 & Hv1 & Hp1 & Hf1 & Hb1).
  pose proof (Sound_invalidate _ _ _ Hs1) as Hs2.
  destruct (invalidate_spec h1 c1) as (Hov & Hpn & Hnn & Hfa & Hnx & Hbi & Hpr & Hh2 & _).
  destruct (invalidate h1 c1) as [h2 c2]. cbn [fst snd] in *. subst h2.
  assert (conversation (flag_store h1 (cx_fault c1) true) (cx_with_state c2 SClosed)
          = mkConversation SClosed [] (issued (conversation h1 c1))) as Hv2.
  { unfold conversation, live_of. cbn. by rewrite Hpn, Hnx. }
  split; [|split; [|by rewrite <-Hp1, <-Hf1, <-Hb1]].
  - destruct Hs2 as [Sf Sn Ss Se Sl So Sv Sw Sd]. destruct (So Hov) as [_ Hfl].
    split; cbn; try done; rewrite ?Hpn, ?Hnn; try done; try (by constructor).
    eapply Forall_impl; [exact Sw|]. intros e [? ? ? ?]. by split.
  - eapply Conversing_app; [exact Hv1|]. rewrite Hv2. apply Conversing_one. constructor.
    intros Hn. bool_hyps. by apply (so_native _ _ _ Hs1).
Qed.

(** Raising the flag of one entry stops it, unless it was stopped. *)
Lemma stopped_by_raise h c exs s p : Sound h c exs -> pending_get s (cx_pending c) = Some p ->
  stopped_by h (flag_store h (pd_cancelled p) true) c = if flag_load h (pd_cancelled p) then [] else [Stopped s].
Proof.
  intros [_ _ Ss _ Sl _ _ _ _] Hg. unfold stopped_by. revert Ss Sl Hg. generalize (cx_pending c) as m.
  induction m as [|[k q] m IH]; cbn [pending_get flat_map fst snd]; [done|].
  intros Hss Hnd Hg. inversion Hss as [|? ? Hs Hlt]; subst. apply NoDup_cons in Hnd as [Hn Hnd]. rewrite load_store.
  assert (forall x, x ∈ m -> pd_cancelled x.2 <> pd_cancelled q) as Hx.
  { intros x Hin Hc. apply Hn, list_elem_of_fmap. by exists x. }
  destruct (Z.eqb_spec s k) as [->|Hne].
  - simplify_eq. rewrite decide_True by done.
    assert (flat_map (fun kp => if negb (flag_load h (pd_cancelled kp.2)) && flag_load (flag_store h (pd_cancelled p) true) (pd_cancelled kp.2)
              then [Stopped kp.1] else []) m = []) as ->.
    { clear - Hx. induction m as [|x m IH]; cbn; [done|]. rewrite load_store, decide_False.
      - rewrite andb_negb_l. cbn. apply IH. intros y Hy. apply Hx. by right.
      - intros Hc. apply (Hx x); [left|done]. }
    by destruct (flag_load h (pd_cancelled p)).
  - rewrite decide_False.
    + rewrite andb_negb_l. cbn. by apply IH.
    + intros Hc. apply pending_get_elem in Hg. by apply (Hx (s, p)).
Qed.
Lemma stopped_by_self h c : stopped_by h h c = [].
Proof. unfold stopped_by. induction (cx_pending c) as [|x m IH]; cbn; [done|]. by rewrite andb_negb_l. Qed.

Lemma cancel_serial_kept h c exs s : Sound h c exs -> over (cx_state c) = false ->
  (forall p, pending_get s (cx_pending c) = Some p -> pd_id p <> None -> handshake (pd_method p) = false) ->
  let (h', _) := cancel_serial h c s in kept_by h c h' c exs (ended_by c c ++ stopped_by h h' c).
Proof.
  intros Hs Ho Hh.
  assert (kept_by h c h c exs (ended_by c c ++ stopped_by h h c)) as Hsame.
  { rewrite ended_by_self, stopped_by_self. by apply kept_refl. }
  unfold cancel_serial. destruct (pending_get s (cx_pending c)) as [p|] eqn:Hp; [|done].
  case_bool_decide as Hid; [done|]. specialize (Hh p eq_refl Hid).
  pose proof (stopped_by_raise h c exs s p Hs Hp) as Hst.
  assert (kept_by h c (flag_store h (pd_cancelled p) true) c exs (ended_by c c ++ stopped_by h (flag_store h (pd_cancelled p) true) c)) as Hk.
  { rewrite ended_by_self, Hst. cbn [app]. destruct (flag_load h (pd_cancelled p)) eqn:Hf.
    - split; [|split; [|done]].
      + apply raise_sound; [done|]. apply Forall_forall. intros [k q] Hin Hq Hc. cbn in *.
        pose proof (so_entries _ _ _ Hs) as He. rewrite Forall_forall in He. destruct (He _ Hin) as [_ _ _ Hnot _].
        specialize (Hnot Hq). cbn in Hnot. congruence.
      + replace (conversation (flag_store h _ true) c) with (conversation h c); [constructor|].
        unfold conversation, live_of. f_equal. apply map_ext. intros kp. rewrite load_store.
        case_decide as Hd; [|done]. by rewrite <-Hd, Hf.
    - destruct (stop_step h c exs s p Hs Hp Hh Hf) as [Hs' Hv]. by split. }
  by destruct (flag_load h (pd_cancelled p)).
Qed.

Lemma over_no_pending h c exs : Sound h c exs -> over (cx_state c) = true -> cx_pending c = [].
Proof. intros Hs Ho. apply (so_over _ _ _ Hs Ho). Qed.

(** A cancellation after expiry stops at most one entry. *)
Lemma cancelled_kept h c exs h1 c1 (find : Z * Pending -> bool) : Sound h c exs ->
  same_or_over h c h1 c1 ->
  (forall s p, find_first find (cx_pending c1) = Some (s, p) -> pd_id p <> None -> handshake (pd_method p) = false) ->
  match find_first find (cx_pending c1) with
  | Some (s, _) => let (h2, _) := cancel_serial h1 c1 s in kept_by h c h2 c1 exs (ended_by c c1 ++ stopped_by h h2 c1)
  | None => kept_by h c h1 c1 exs (ended_by c c1 ++ stopped_by h h1 c1)
  end.
Proof.
  intros Hs Hc Hh. destruct Hc as [[= -> ->]|Hi].
  - destruct (find_first find (cx_pending c)) as [[s p]|] eqn:Hf.
    + pose proof (find_first_Some _ _ _ Hf) as [Hin _].
      assert (over (cx_state c) = false) as Ho.
      { destruct (over (cx_state c)) eqn:Ho; [|done]. rewrite (over_no_pending _ _ _ Hs Ho) in Hin. by apply elem_of_nil in Hin. }
      apply cancel_serial_kept; [done|done|]. intros q Hq Hid.
      assert (q = p) as ->; [|by apply (Hh s p)].
      apply pending_get_Some in Hin; [congruence|]. apply serials_NoDup, Hs.
    + rewrite ended_by_self, stopped_by_self. by apply kept_refl.
  - destruct (invalidate_spec h c) as (_ & Hn & _). rewrite <-Hi in Hn. cbn in Hn. rewrite Hn. cbn.
    unfold stopped_by. rewrite Hn. cbn. rewrite app_nil_r. apply same_or_over_kept; [done|by right].
Qed.

Lemma cancel_request_kept h c exs r now : Sound h c exs ->
  let '(h', c', _) := cancel_request h c r now in kept_by h c h' c' exs (ended_by c c' ++ stopped_by h h' c').
Proof.
  intros Hs. unfold cancel_request. destruct (_ || _).
  { rewrite ended_by_self, stopped_by_self. by apply kept_refl. }
  pose proof (expire_cases h c now) as Hx. pose proof (same_or_over_sound _ _ _ _ _ Hs Hx) as [Hs1 _].
  destruct (expire h c now) as [h1 c1]. cbn [fst snd] in *.
  match goal with |- context [find_first ?f (cx_pending c1)] => pose proof (cancelled_kept h c exs h1 c1 f Hs Hx) as Hk;
    destruct (find_first f (cx_pending c1)) as [[s p]|] eqn:Hf end.
  - destruct (cancel_serial h1 c1 s) as [h2 o]. apply Hk. intros s' p' [= <- <-] Hid.
    apply find_first_Some in Hf as [Hin Hf]. apply andb_true_iff in Hf as [_ Hf]. bool_hyps. cbn in Hf.
    pose proof (so_entries _ _ _ Hs1) as He. rewrite Forall_forall in He. destruct (He _ Hin) as [_ _ _ _ Hn]. cbn in Hn.
    destruct (handshake (pd_method p)) eqn:Hh; [|done]. apply handshake_cases in Hh as [Hh|Hh]; [done|].
    rewrite Hh in Hn. by destruct Hid; apply Hn.
  - by apply Hk.
Qed.

Lemma cancel_operation_kept h c exs operation now : Sound h c exs ->
  let '(h', c', _) := cancel_operation h c operation now in
  kept_by h c h' c' exs (ended_by c c' ++ stopped_by h h' c').
Proof.
  intros Hs. unfold cancel_operation.
  pose proof (expire_cases h c now) as Hx. pose proof (same_or_over_sound _ _ _ _ _ Hs Hx) as [Hs1 _].
  destruct (expire h c now) as [h1 c1]. cbn [fst snd] in *.
  match goal with |- context [find_first ?f (cx_pending c1)] => pose proof (cancelled_kept h c exs h1 c1 f Hs Hx) as Hk;
    destruct (find_first f (cx_pending c1)) as [[s p]|] eqn:Hf end; [|by apply Hk].
  pose proof (find_first_Some _ _ _ Hf) as [Hin _].
  replace (bool_decide (pd_method p ∈ [Initialize; Initialized])) with (handshake (pd_method p)) by done.
  destruct (handshake (pd_method p)) eqn:Hh.
  - destruct Hx as [[= -> ->]|Hi].
    2: { destruct (invalidate_spec h c) as (_ & Hn & _). rewrite <-Hi in Hn. cbn in Hn. rewrite Hn in Hin. by apply elem_of_nil in Hin. }
    pose proof (same_or_over_kept _ _ _ _ _ Hs (or_intror (eq_sym (surjective_pairing (invalidate h c))))) as Hki.
    destruct (invalidate_spec h c) as (_ & Hn & _). destruct (invalidate h c) as [h2 c2]. cbn [fst snd] in *.
    unfold stopped_by. rewrite Hn. cbn. rewrite app_nil_r. exact Hki.
  - destruct (cancel_serial h1 c1 s) as [h2 o]. apply Hk. by intros s' p' [= <- <-].
Qed.

(** ** The session *)

(** The owner's decoders share the fault flag of the context. *)
Definition Safe (w : World) : Prop :=
  Sound (w_heap w) (w_cx w) (w_exchanges w) /\ Forall (fun d => rd_fault d = cx_fault (w_cx w)) (w_decoders w).
Definition conversed (w : World) : Conversation := conversation (w_heap w) (w_cx w).

Definition steps (w w' : World) : Prop :=
  Safe w' /\ exists es, w_log w' = w_log w ++ es /\ Conversing (conversed w) es (conversed w').

Lemma steps_refl w : Safe w -> steps w w.
Proof. intros Hs. split; [done|]. exists []. split; [by rewrite app_nil_r|constructor]. Qed.

(** An operation on the context, the decoders staying the same or fewer. *)
Lemma steps_kept w w' h c exs es : Safe w -> kept_by (w_heap w) (w_cx w) h c exs es ->
  w_heap w' = h -> w_cx w' = c -> w_exchanges w' `sublist_of` exs -> w_log w' = w_log w ++ es ->
  (Forall (fun d => rd_fault d = cx_fault (w_cx w)) (w_decoders w) -> Forall (fun d => rd_fault d = cx_fault c) (w_decoders w')) ->
  steps w w'.
Proof.
  intros [Hs Hd] (Hs' & Hv & _) Hh Hc Hex Hl Hds. split.
  - split; [|rewrite Hc; by apply Hds]. rewrite Hh, Hc. by eapply fewer_sound.
  - exists es. split; [done|]. unfold conversed. by rewrite Hh, Hc.
Qed.

(** A decoder that fails raises the fault flag, and nothing else. *)
Lemma fault_kept h c exs a : Sound h c exs -> a = cx_fault c -> kept_by h c (flag_store h a true) c exs [].
Proof.
  intros Hs ->. assert (Forall (fun kp => pd_cancelled kp.2 <> cx_fault c) (cx_pending c)) as Hf.
  { eapply Forall_impl; [exact (so_entries _ _ _ Hs)|]. by intros kp [_ _ ? _ _]. }
  split; [|split; [|done]].
  - apply raise_sound; [done|]. eapply Forall_impl; [exact Hf|]. by intros kp ? _.
  - rewrite raise_other by done. constructor.
Qed.

Lemma rd_push_spec h d l : let '(h', d', _) := rd_push h d l in
  rd_fault d' = rd_fault d /\ (h' = h \/ h' = flag_store h (rd_fault d) true).
Proof.
  assert (forall ms d, rd_fault (take_messages d ms).1 = rd_fault d) as Htake.
  { induction ms as [|m ms IH]; intros d0; cbn [take_messages]; [done|].
    destruct (bool_decide _); [done|]. destruct (response _ _ _ _ _) as [[b|p]|x]; [by rewrite IH| |done].
    destruct (bool_decide _); [done|]. match goal with |- context [take_messages ?d1 ms] => specialize (IH d1);
      destruct (take_messages d1 ms) as [d2 [ps|x]] end; done. }
  unfold rd_push. destruct (live h d) as [[]|x]; [|by split; [|left]].
  assert (rd_fault (rd_push_inner d l).1 = rd_fault d) as Hin.
  { unfold rd_push_inner. destruct (_ || _); [done|]. cbn [rd_format rd_with]. destruct (rd_format d); [by case_bool_decide|done|].
    destruct (sse_push _ _) as [f [ms|x]]; [|done]. by rewrite Htake. }
  destruct (rd_push_inner d l) as [d1 [ps|x]]; cbn in *; [by split; [|left]|]. split; [done|]. right. by rewrite Hin.
Qed.

Lemma rd_finish_spec h d : (rd_finish h d).1 = h \/ (rd_finish h d).1 = flag_store h (rd_fault d) true.
Proof. unfold rd_finish. destruct (live h d) as [[]|x]; [|by left]. destruct (finish_inner d); [by left|by right]. Qed.

Lemma raised_kept h c exs h' a : Sound h c exs -> a = cx_fault c -> h' = h \/ h' = flag_store h a true ->
  kept_by h c h' c exs [].
Proof. intros Hs Ha [->| ->]; [by apply kept_refl|by apply fault_kept]. Qed.

Lemma decoders_kept w c : cx_fault c = cx_fault (w_cx w) ->
  Forall (fun d => rd_fault d = cx_fault (w_cx w)) (w_decoders w) -> Forall (fun d => rd_fault d = cx_fault c) (w_decoders w).
Proof. by intros ->. Qed.

(** An operation that leaves the decoders alone. *)
Ltac context_step w h c Hk :=
  eapply (steps_kept w _ h c);
    [done|exact Hk|done|done|first [done|apply sublist_delete]|try done
    |intros Hall; apply (decoders_kept w c); [apply Hk|exact Hall]].

Lemma session_step w m : Safe w -> steps w (do_move_session w m).
Proof.
  intros Hw. pose proof Hw as [Hs Hd]. destruct m; cbn [do_move_session].
  - unfold do_begin. destruct (request _ body) as [r|x] eqn:Hr; [|by apply steps_refl].
    apply request_Ok in Hr as (_ & _ & Hid & _). pose proof (begin_kept _ _ _ r operation now Hs Hid) as Hk.
    destruct (begin _ _ r operation now) as [[h c] [[e|]|x]];
      (context_step w h c Hk).
  - destruct (w_exchanges w !! e) as [ex|]; [|by apply steps_refl].
    pose proof (outgoing_kept _ _ _ ex now Hs) as Hk. destruct (outgoing _ _ ex now) as [[h c] x].
    context_step w h c Hk.
  - unfold do_start. destruct (w_exchanges w !! e) as [ex|]; [|by apply steps_refl].
    pose proof (start_kept _ _ _ ex status hs template now Hs) as Hst.
    destruct (start_response _ _ ex status hs template now) as [[h c] [d|x]]; destruct Hst as [Hk Hdec].
    + eapply (steps_kept _ _ h c); [done|exact Hk|done|done|done|done|]. intros Hall. apply Forall_app.
      destruct Hk as (_ & _ & _ & Hf & _). split; [by rewrite Hf|]. constructor; [|constructor].
      destruct (Hdec d eq_refl) as (_ & _ & _ & _ & p & a & _ & _ & _ & _ & _ & _ & ->). done.
    + context_step w h c Hk.
  - unfold do_push. destruct (w_decoders w !! d) as [dec|] eqn:Hdec; [|by apply steps_refl].
    rewrite Forall_forall in Hd. pose proof (Hd dec (list_elem_of_lookup_2 _ _ _ Hdec)) as Hf.
    pose proof (rd_push_spec (w_heap w) dec bytes) as Hp. destruct (rd_push _ dec bytes) as [[h d'] r].
    destruct Hp as [Hf' Hh]. eapply (steps_kept _ _ h (w_cx w)); [done|eapply raised_kept; [exact Hs|exact Hf|exact Hh]|done|done|done|done|].
    intros Hall. cbn. apply Forall_insert; [done|congruence].
  - unfold do_finish. destruct (w_decoders w !! d) as [dec|] eqn:Hdec; [|by apply steps_refl].
    rewrite Forall_forall in Hd. pose proof (Hd dec (list_elem_of_lookup_2 _ _ _ Hdec)) as Hf.
    pose proof (rd_finish_spec (w_heap w) dec) as Hh. destruct (rd_finish _ dec) as [h r]. cbn in Hh.
    eapply (steps_kept _ _ h (w_cx w)); [done|eapply raised_kept; [exact Hs|exact Hf|exact Hh]|done|done|done|done|].
    intros Hall. cbn. by apply Forall_delete.
  - unfold do_complete. destruct (w_exchanges w !! e) as [ex|] eqn:Hex; [|by apply steps_refl].
    destruct (w_completions w !! k) as [cm|]; [|by apply steps_refl].
    pose proof (complete_kept _ _ _ ex cm now Hs (list_elem_of_lookup_2 _ _ _ Hex)) as Hk.
    destruct (complete _ _ ex cm now) as [[h c] [r|x]].
    + context_step w h c Hk.
      cbn. unfold commit_event. by destruct (_ && _).
    + context_step w h c Hk.
  - destruct (w_exchanges w !! e) as [ex|] eqn:Hex; [|by apply steps_refl].
    pose proof (abandon_kept _ _ _ ex Hs (list_elem_of_lookup_2 _ _ _ Hex)) as Hk.
    destruct (abandon _ _ ex) as [h c].
    context_step w h c Hk.
  - pose proof (same_or_over_kept _ _ _ _ _ Hs (or_intror (eq_sym (surjective_pairing (invalidate (w_heap w) (w_cx w)))))) as Hk.
    destruct (invalidate _ _) as [h c].
    context_step w h c Hk.
  - pose proof (close_kept _ _ _ now Hs) as Hk. cbv zeta in Hk. destruct (close _ _ now) as [[h c] x].
    context_step w h c Hk.
  - unfold do_ping. destruct (w_exchanges w !! e) as [ex|]; [|by apply steps_refl].
    destruct (w_decoders w !! d) as [dec|]; [|by apply steps_refl]. destruct (w_pings w !! p) as [ping|]; [|by apply steps_refl].
    pose proof (ping_kept _ _ _ ex dec ping now Hs) as Hk. destruct (ping_reply _ _ ex dec ping now) as [[[h c] ping'] [o|x]];
      (context_step w h c Hk).
  - destruct (request _ body) as [r|x]; [|by apply steps_refl].
    pose proof (cancel_request_kept _ _ _ r now Hs) as Hk. destruct (cancel_request _ _ r now) as [[h c] x].
    context_step w h c Hk.
  - pose proof (cancel_operation_kept _ _ _ operation now Hs) as Hk. destruct (cancel_operation _ _ operation now) as [[h c] x].
    context_step w h c Hk.
  - unfold state_at. pose proof (same_or_over_kept _ _ _ _ _ Hs (expire_cases (w_heap w) (w_cx w) now)) as Hk.
    destruct (expire _ _ now) as [h c].
    context_step w h c Hk.
Qed.
End Operations.
