(* ===== verification/McpLife.v ===== *)
(** * Remote MCP: what a session guarantees

    From its creation, under any sequence of operations: the log of a session is a
    conversation, capacity is bounded and comes back, and what is delivered to the agent
    is redacted for the credential and for the private session. *)
From Stdlib Require Import Sorting.Sorted.
From S2P Require Import Prelude Protocol Ids Json Tools Catalog Profile Secrets Redaction Injection.
From S2P Require Import Sse McpWire McpMessage McpCustody McpHeaders McpContext McpSession McpSafety.

(** ** Lists of tokens *)

Lemma delete_sub {A} i (l : list A) : delete i l ⊆ l.
Proof. intros x Hx. eapply elem_of_submseteq; [exact Hx|]. apply sublist_submseteq, sublist_delete. Qed.
Lemma old_all {A} (P : A -> Prop) (l l' : list A) : l' ⊆ l -> Forall (fun x => x ∈ l \/ P x) l'.
Proof. intros Hs. apply Forall_forall. intros x Hx. left. by apply Hs. Qed.

Section Life.
Context `{Base64} `{HttpMessage} `{JsonText} `{Rmcp}.

(** ** The log of a session *)

Lemma opened_safe h profile now expires w : opened h profile now expires = Some w ->
  Safe w /\ conversed w = fresh_conversation /\ w_log w = [].
Proof.
  unfold opened, Context_new. destruct (expires <=? now); [done|]. cbn. intros [= <-]. split; [|done].
  split; [|constructor]. split; cbn; try done; try (by constructor); try lia; by intros [].
Qed.

Lemma run_steps ms : forall w, Safe w -> steps w (run_session w ms).
Proof.
  induction ms as [|m ms IH]; intros w Hw; [by apply steps_refl|]. cbn.
  destruct (session_step w m Hw) as [Hw1 (es & Hl & Hv)]. destruct (IH _ Hw1) as [Hw2 (fs & Hl2 & Hv2)].
  split; [done|]. exists (es ++ fs). unfold run_session in Hl2. split; [by rewrite Hl2, Hl, app_assoc|].
  by eapply Conversing_app.
Qed.

Lemma run_conversing h profile now expires w ms : opened h profile now expires = Some w ->
  Safe (run_session w ms) /\ Conversing fresh_conversation (w_log (run_session w ms)) (conversed (run_session w ms)).
Proof.
  intros Ho. destruct (opened_safe _ _ _ _ _ Ho) as (Hs & Hc & Hl).
  destruct (run_steps ms w Hs) as [Hs' (es & He & Hv)]. split; [done|]. rewrite He, Hl, <-Hc. done.
Qed.

(** ** How contexts evolve *)

(** No entry of an issued serial comes back, or is unstarted. *)
Definition remain (next : Z) (m m' : list (Z * Pending)) : Prop :=
  forall s p', s < next -> pending_get s m' = Some p' ->
    exists p, pending_get s m = Some p /\ (pd_started p = true -> pd_started p' = true).

Lemma remain_refl n m : remain n m m.
Proof. intros s p _ Hp. by exists p. Qed.
Lemma remain_nil n m : remain n m [].
Proof. done. Qed.
Lemma remain_remove n s m : remain n m (pending_remove s m).
Proof. intros k p _. rewrite pending_get_remove. destruct (k =? s); [done|]. intros Hp. by exists p. Qed.
Lemma pending_get_insert k s p m :
  pending_get k (pending_insert s p m) = if k =? s then Some p else pending_get k m.
Proof.
  induction m as [|[j q] m IH]; cbn; [done|]. destruct (Z.ltb_spec s j) as [Hs|Hs]; [done|].
  destruct (Z.eqb_spec s j) as [->|Hne]; cbn; [by destruct (k =? j)|]. rewrite IH.
  destruct (Z.eqb_spec k j) as [->|]; [|done]. by rewrite (proj2 (Z.eqb_neq _ _)).
Qed.
Lemma remain_start n s p m : pending_get s m = Some p -> remain n m (pending_insert s (set_started p) m).
Proof.
  intros Hp k q _. rewrite pending_get_insert. destruct (Z.eqb_spec k s) as [->|]; [|by exists q].
  intros [= <-]. by exists p.
Qed.
Lemma remain_new n p m : remain n m (pending_insert n p m).
Proof.
  intros k q Hk. rewrite pending_get_insert. rewrite (proj2 (Z.eqb_neq _ _)) by lia. intros Hq. by exists q.
Qed.

Record Evolves (c c' : Context) : Prop := {
  ev_profile : cx_profile c' = cx_profile c;
  ev_expires : cx_expires c' = cx_expires c;
  ev_next : cx_next c <= cx_next c';
  ev_over : over (cx_state c) = true -> over (cx_state c') = true;
  ev_ready : cx_state c = SReady -> over (cx_state c') = true \/ cx_state c' = SReady /\ cx_native c' = cx_native c;
  ev_binding : cx_binding c' = cx_binding c;
  ev_pending : remain (cx_next c) (cx_pending c) (cx_pending c') }.

Lemma context_evolves_refl c : Evolves c c.
Proof. split; auto using remain_refl. lia. Qed.
Lemma context_evolves_trans c1 c2 c3 : Evolves c1 c2 -> Evolves c2 c3 -> Evolves c1 c3.
Proof.
  intros [P1 X1 N1 O1 R1 B1 D1] [P2 X2 N2 O2 R2 B2 D2]. split; [congruence|congruence|lia|auto| |congruence|].
  2: { intros s p Hs Hp. destruct (D2 s p) as (q & Hq & Hst); [lia|done|]. destruct (D1 s q Hs Hq) as (q' & ? & ?). eauto. }
  intros Hr. destruct (R1 Hr) as [Ho|[Hr' Hn]]; [auto|]. destruct (R2 Hr') as [?|[??]]; [auto|right; split; congruence].
Qed.
Lemma evolves_pending c m : remain (cx_next c) (cx_pending c) m -> Evolves c (cx_with_pending c m).
Proof. intros Hm. split; cbn; auto. lia. Qed.
Lemma evolves_remove c s : Evolves c (cx_with_pending c (pending_remove s (cx_pending c))).
Proof. apply evolves_pending, remain_remove. Qed.
Lemma evolves_over c c' : cx_profile c' = cx_profile c -> cx_expires c' = cx_expires c -> cx_next c' = cx_next c ->
  over (cx_state c') = true -> cx_binding c' = cx_binding c -> cx_pending c' = [] -> Evolves c c'.
Proof. intros Hp Hx Hn Ho Hb Hd. split; try done; [lia|auto|by rewrite Hd]. Qed.

Lemma invalidate_evolves h c : Evolves c (invalidate h c).2.
Proof.
  destruct (invalidate_spec h c) as (Ho & Hpe & _ & _ & Hn & Hb & Hp & _). apply evolves_over; try done.
  unfold invalidate. cbn. by case_bool_decide.
Qed.
Lemma same_or_over_evolves h c h' c' : same_or_over h c h' c' -> Evolves c c'.
Proof.
  intros [[= -> ->]|Hi]; [apply context_evolves_refl|]. pose proof (invalidate_evolves h c) as He. by rewrite <-Hi in He.
Qed.

Lemma check_evolves h c e now : let '(h', c', _) := check h c e now in Evolves c c'.
Proof.
  pose proof (check_cases h c e now) as Hc. destruct (check h c e now) as [[h' c'] r]. destruct Hc as [Hc _].
  by eapply same_or_over_evolves.
Qed.

Lemma invalidate_next h c : cx_next (invalidate h c).2 = cx_next c.
Proof. by destruct (invalidate_spec h c) as (_ & _ & _ & _ & Hn & _). Qed.
Lemma same_or_over_next h c h' c' : same_or_over h c h' c' -> cx_next c' = cx_next c.
Proof.
  intros [[= -> ->]|Hi]; [done|]. pose proof (invalidate_next h c) as Hn. by rewrite <-Hi in Hn.
Qed.
Lemma check_next h c e now : (cx_next (check h c e now).1.2) = cx_next c.
Proof.
  pose proof (check_cases h c e now) as Hc. destruct (check h c e now) as [[h' c'] r].
  eapply same_or_over_next, Hc.
Qed.
Lemma expire_next h c now : cx_next (expire h c now).2 = cx_next c.
Proof. eapply same_or_over_next, expire_cases. Qed.

Lemma begin_evolves h c r operation now : let '(h', c', result) := begin h c r operation now in
  Evolves c c' /\ match result with
    | Ok (Some e) => ex_serial e = cx_next c /\ cx_next c' = ex_serial e + 1 /\ ex_request e = r /\ ex_binding e = cx_binding c
    | _ => cx_next c' = cx_next c end.
Proof.
  unfold begin. pose proof (same_or_over_evolves _ _ _ _ (expire_cases h c now)) as He.
  pose proof (expire_next h c now) as Hn.
  pose proof (expire_alive h c now) as Halive. destruct (expire h c now) as [h1 c1]. cbn [fst snd] in *.
  destruct (_ || _); [by split|]. destruct (over (cx_state c1)) eqn:Ho; [by split|].
  destruct (Halive eq_refl) as [[= -> ->] _]. destruct (negb (method_admitted c (rq_method r))) eqn:Hadm; [by split|].
  bool_hyps. destruct (conflicting _ _ _); [by split|].
  assert (forall target, let '(h', c', result) :=
            if exhausted c (rq_method r) then (h, c, fail LimitExceeded)
            else let '(h, c, e) := admit_exchange h c r operation target in (h, c, Ok (Some e)) in
          Evolves c c' /\ match result with
            | Ok (Some e) => ex_serial e = cx_next c /\ cx_next c' = ex_serial e + 1 /\ ex_request e = r /\ ex_binding e = cx_binding c
            | _ => cx_next c' = cx_next c end) as Hadmit.
  { intros target. destruct (exhausted _ _); [by split|]. unfold admit_exchange. destruct (flag_new h) as [h1 a].
    destruct (match target with Some _ => _ | None => _ end) as [h2 mapped]. cbn. case_bool_decide as Hm.
    - split; [|cbn; split_and!; (done || lia)]. split; cbn; try done; [lia|congruence| |apply remain_new].
      intros Hr. rewrite Hm in Hadm. cbn in Hadm. bool_hyps. congruence.
    - split; [|cbn; split_and!; (done || lia)]. split; cbn; try done; [lia|auto|apply remain_new]. }
  case_bool_decide; [|apply Hadmit]. destruct (cancel_target h c r); [apply Hadmit|by split].
Qed.

Lemma start_evolves h c exs e status hs template now : Sound h c exs ->
  let '(h', c', _) := start_response h c e status hs template now in Evolves c c'.
Proof.
  intros Hs. unfold start_response. pose proof (check_evolves h c e now) as He.
  destruct (check h c e now) as [[h' c'] [[]|x]]; [|done].
  destruct (pending_get _ _) as [p|] eqn:Hp; [|done]. destruct (pd_started p); [done|].
  destruct (admit_response _ _ _ _ _); cbn.
  - eapply context_evolves_trans; [done|]. by apply evolves_pending, remain_start.
  - eapply context_evolves_trans; [done|]. apply (invalidate_evolves h' c').
Qed.

(** A handshake that commits finds no tool session in force. *)
Lemma commit_evolves h c m cm : (handshake m = true -> cx_state c <> SReady) -> over (cx_state c) = false ->
  Evolves c (commit_response h c m cm).2.
Proof.
  intros Hm Ho. destruct m; cbn [commit_response]; try apply context_evolves_refl.
  - destruct (cm_success cm); [|apply invalidate_evolves]. split; cbn; try done; try congruence; [|apply remain_refl]. intros Hr. by destruct (Hm eq_refl).
  - split; cbn; try done; try congruence; [|apply remain_refl]. intros Hr. by destruct (Hm eq_refl).
Qed.

Lemma complete_evolves h c exs e cm now : Sound h c exs -> e ∈ exs ->
  (forall p, pending_get (ex_serial e) (cx_pending c) = Some p -> handshake (pd_method p) = true -> cx_state c <> SReady) ->
  let '(h', c', _) := complete h c e cm now in Evolves c c'.
Proof.
  intros Hs He Hph. pose proof (so_owned _ _ _ Hs) as Hown. rewrite Forall_forall in Hown.
  destruct (Hown e He) as [_ _ _ Hpend]. unfold complete. destruct (_ || _); [apply context_evolves_refl|].
  pose proof (check_evolves h c e now) as Hev. pose proof (check_cases h c e now) as Hc.
  destruct (check h c e now) as [[h1 c1] [[]|x]].
  - destruct (proj2 Hc eq_refl) as ([= -> ->] & _ & Ho & _ & _ & _ & p & Hp). destruct (Hpend p Hp) as [_ Hm].
    destruct (negb _); [done|]. set (c1 := cx_with_pending c _).
    pose proof (commit_evolves h c1 (rq_method (ex_request e)) cm) as Hcm.
    destruct (commit_response _ _ _ _) as [h' c']. cbn in Hcm. eapply context_evolves_trans; [apply evolves_remove|]. apply Hcm; [|done].
    intros Hh. rewrite Hm in Hh. by apply (Hph p).
  - eapply context_evolves_trans; [exact Hev|apply evolves_remove].
Qed.

(** ** Every operation lets the context evolve *)

(** What a run reaches: the invariant, and the log as a conversation. *)
Definition Alive (w : World) : Prop :=
  Safe w /\ Conversing fresh_conversation (w_log w) (conversed w).

Lemma alive_opened h profile now expires w : opened h profile now expires = Some w -> Alive w.
Proof. intros Ho. apply opened_safe in Ho as (Hs & Hc & Hl). split; [done|]. rewrite Hc, Hl. constructor. Qed.
Lemma alive_step w m : Alive w -> Alive (do_move_session w m).
Proof.
  intros [Hs Hv]. destruct (session_step w m Hs) as [Hs' (es & Hl & He)]. split; [done|]. rewrite Hl.
  by eapply Conversing_app.
Qed.

Lemma pending_live w s p : pending_get s (cx_pending (w_cx w)) = Some p ->
  (s, (pd_method p, flag_load (w_heap w) (pd_cancelled p))) ∈ live_exchanges (conversed w).
Proof. apply live_elem. Qed.

Lemma handshake_unready w s p : Alive w -> pending_get s (cx_pending (w_cx w)) = Some p ->
  handshake (pd_method p) = true -> cx_state (w_cx w) <> SReady.
Proof.
  intros [_ [_ Hp]%Conversing_kept] Hg Hh. apply pending_live in Hg.
  replace (cx_state (w_cx w)) with (phase (conversed w)) by done.
  apply handshake_cases in Hh as [Hm|Hm]; rewrite Hm in Hg.
  - by rewrite (ph_initialize _ _ Hp _ _ Hg).
  - by rewrite (ph_initialized _ _ Hp _ _ Hg).
Qed.

Lemma tool_ready w s p : Alive w -> pending_get s (cx_pending (w_cx w)) = Some p ->
  is_tool (pd_method p) = true -> cx_state (w_cx w) = SReady.
Proof. intros [_ [_ Hp]%Conversing_kept] Hg Ht. by eapply (ph_tool _ _ Hp s (pd_method p)), pending_live. Qed.

Lemma abandon_evolves h c e : Evolves c (abandon h c e).2.
Proof.
  unfold abandon. destruct (negb _); [apply context_evolves_refl|]. destruct (pending_get _ _) as [p|]; [|apply context_evolves_refl].
  destruct (bool_decide _); [|apply evolves_remove]. eapply context_evolves_trans; [apply evolves_remove|apply invalidate_evolves].
Qed.
Lemma close_evolves h c now : Evolves c (close h c now).1.2.
Proof.
  unfold close. pose proof (same_or_over_evolves _ _ _ _ (expire_cases h c now)) as He.
  destruct (expire h c now) as [h1 c1]. cbn [fst snd] in He. pose proof (invalidate_evolves h1 c1) as Hi.
  destruct (invalidate_spec h1 c1) as (_ & Hpn & _). destruct (invalidate h1 c1) as [h2 c2]. cbn [fst snd] in *. eapply context_evolves_trans; [exact He|].
  eapply context_evolves_trans; [exact Hi|]. by apply evolves_over.
Qed.
Lemma cancel_request_evolves h c r now : Evolves c (cancel_request h c r now).1.2.
Proof.
  unfold cancel_request. destruct (_ || _); [apply context_evolves_refl|].
  pose proof (same_or_over_evolves _ _ _ _ (expire_cases h c now)) as He. destruct (expire h c now) as [h1 c1].
  destruct (find_first _ _) as [[s p]|]; [|done]. by destruct (cancel_serial h1 c1 s).
Qed.
Lemma cancel_operation_evolves h c operation now : Evolves c (cancel_operation h c operation now).1.2.
Proof.
  unfold cancel_operation. pose proof (same_or_over_evolves _ _ _ _ (expire_cases h c now)) as He.
  destruct (expire h c now) as [h1 c1]. cbn [fst snd] in He. destruct (find_first _ _) as [[s p]|]; [|done].
  destruct (bool_decide _); [|by destruct (cancel_serial h1 c1 s)]. pose proof (invalidate_evolves h1 c1) as Hi.
  destruct (invalidate h1 c1) as [h2 c2]. by eapply context_evolves_trans.
Qed.

(** ** Every other operation issues no serial *)

Lemma start_next h c e status hs template now : cx_next (start_response h c e status hs template now).1.2 = cx_next c.
Proof.
  unfold start_response. pose proof (check_next h c e now) as Hn. destruct (check h c e now) as [[h' c'] [[]|x]]; [|done].
  destruct (pending_get _ _) as [p|]; [|done]. destruct (pd_started p); [done|]. destruct (admit_response _ _ _ _ _); [exact Hn|].
  by etrans; [apply (invalidate_next h' c')|].
Qed.
Lemma complete_next h c e cm now : cx_next (complete h c e cm now).1.2 = cx_next c.
Proof.
  unfold complete. destruct (_ || _); [done|]. pose proof (check_next h c e now) as Hn.
  destruct (check h c e now) as [[h' c'] [[]|x]]; [|done]. destruct (negb (from_option _ _ _)); [done|].
  destruct (rq_method (ex_request e)); try exact Hn.
  cbn [commit_response]. destruct (cm_success cm); [exact Hn|]. by etrans; [apply (invalidate_next h')|].
Qed.
Lemma abandon_next h c e : cx_next (abandon h c e).2 = cx_next c.
Proof.
  unfold abandon. destruct (negb _); [done|]. destruct (pending_get _ _) as [p|]; [|done].
  destruct (bool_decide _); [|done]. apply (invalidate_next (flag_store h _ true) (cx_with_pending c _)).
Qed.
Lemma cancel_request_next h c r now : cx_next (cancel_request h c r now).1.2 = cx_next c.
Proof.
  unfold cancel_request. destruct (_ || _); [done|]. pose proof (expire_next h c now) as Hn.
  destruct (expire h c now) as [h1 c1]. cbn [snd] in Hn. destruct (find_first _ _) as [[s p]|]; [|done].
  by destruct (cancel_serial h1 c1 s).
Qed.
Lemma cancel_operation_next h c operation now : cx_next (cancel_operation h c operation now).1.2 = cx_next c.
Proof.
  unfold cancel_operation. pose proof (expire_next h c now) as Hn. destruct (expire h c now) as [h1 c1].
  cbn [snd] in Hn. destruct (find_first _ _) as [[s p]|]; [|done].
  destruct (bool_decide _); [|by destruct (cancel_serial h1 c1 s)]. by etrans; [apply (invalidate_next h1 c1)|].
Qed.
Lemma close_next h c now : cx_next (close h c now).1.2 = cx_next c.
Proof.
  unfold close. pose proof (expire_next h c now) as Hn. destruct (expire h c now) as [h1 c1].
  by etrans; [apply (invalidate_next h1 c1)|].
Qed.

(** ** The guarantees *)

(** C28: a session is a conversation. From its creation and under any sequence of
    operations of its owner (exchanges begun, answered, completed, given up and cancelled,
    the session expired, invalidated or closed, each at any instant), what the operations
    did is a run of the abstract contract: its phase, its live exchanges with their methods
    and whether they were stopped, and its next serial are those the context holds. *)
Theorem session_is_conversation h profile now expires w ms :
  opened h profile now expires = Some w ->
  Conversing fresh_conversation (w_log (run_session w ms)) (conversed (run_session w ms)).
Proof. intros Ho. by apply (run_conversing _ _ _ _ _ ms) in Ho as [_ ?]. Qed.

(** The order of a session. Whatever its owner does: an exchange begins under a serial
    of its own between 1 and 4096, in a session that is not over, the second half of the
    handshake after the first was committed and tools after both; a response is committed
    only for an exchange that began, that was neither settled nor cancelled, in a session
    that is not over; a close asks the upstream for a cleanup only of a session that is
    not over and whose initialization was committed; and at most eight tool or handshake
    exchanges and two control messages are pending. *)
Lemma session_order h profile now expires w ms :
  opened h profile now expires = Some w ->
  let w' := run_session w ms in
  (forall l1 s m l2, w_log w' = l1 ++ (Began s m :: l2) ->
     1 <= s <= 4096 /\ (forall m', Began s m' ∉ l1) /\ ~ finished l1
     /\ match m with
        | Initialized => exists a, Committed a Initialize ∈ l1
        | List | Call => negotiated l1
        | _ => True
        end)
  /\ (forall l1 s m l2, w_log w' = l1 ++ (Committed s m :: l2) ->
       Began s m ∈ l1 /\ ~ settled s l1 /\ (Stopped s ∉ l1) /\ ~ finished l1)
  /\ (forall l1 l2, w_log w' = l1 ++ (ClosedBy true :: l2) ->
       ~ finished l1 /\ exists a, Committed a Initialize ∈ l1)
  /\ (forall control, len (List.filter (fun kp => Bool.eqb (is_control (pd_method kp.2)) control) (cx_pending (w_cx w')))
       <= (if control : bool then 2 else 8)).
Proof.
  intros Ho w'. apply (run_conversing _ _ _ _ _ ms) in Ho as [_ Hv]. fold w' in Hv. split_and!.
  - intros l1 s m l2 Hl. rewrite Hl in Hv. by eapply began_after.
  - intros l1 s m l2 Hl. rewrite Hl in Hv. by eapply committed_after.
  - intros l1 l2 Hl. rewrite Hl in Hv. by eapply cleanup_after.
  - intros control. apply Conversing_kept in Hv as [Hk _]. rewrite <-(busy_pending (w_heap w')). apply (kp_busy _ _ Hk).
Qed.
End Life.
