(* ===== verification/McpDelivery.v ===== *)
(** * Remote MCP: what reaches the agent

    Along any run of a session, what every decoder, completion and delivery holds is
    redacted for the given credential and for the private session in force, and is an
    answer to the exchange it is delivered for. *)
From S2P Require Import Prelude Protocol Ids Json Tools Catalog Profile Secrets Redaction Injection.
From S2P Require Import Sse McpWire McpMessage McpCustody McpHeaders McpContext McpSession McpSafety McpLife.

Section Delivery.
Context `{Base64} `{HttpMessage} `{JsonText} `{Rmcp}.

(** ** What is known of what is read *)

(** Every representation of the private session identifier is a pattern. *)
Definition session_known (n : option (list byte)) (rd : Redactor) : Prop :=
  forall v, n = Some v -> exists ps, representations json_string v = Some ps /\ ps ⊆ patterns rd.

(** The body of a delivered response: nothing for a notification, otherwise an answer,
    as it is or as one event of a stream. *)
Definition body_of (p : McpProfile) (r : Request) (rd : Redactor) (body : list byte) : Prop :=
  (body = [] /\ notification (rq_method r) = true)
  \/ exists m, answers p r rd m /\ (body = m \/ body = as_bytes "data: " ++ m ++ [LF; LF]).

(** A redactor of the credential, and for a tool of the session it is in. *)
Record Knows (K : list (list byte)) (c : Context) (r : Request) (rd : Redactor) : Prop := {
  kn_wf : wf_patterns (patterns rd) (longest rd);
  kn_given : K ⊆ patterns rd;
  kn_session : is_tool (rq_method r) = true ->
    over (cx_state c) = true \/ cx_state c = SReady /\ session_known (cx_native c) rd }.

(** A request is that of the held exchange with its serial, if there is one. *)
Definition Serves (c : Context) (exs : list Exchange) (s : Z) (r : Request) : Prop :=
  s < cx_next c /\ forall e, e ∈ exs -> ex_serial e = s -> ex_request e = r.

Record Reading (K : list (list byte)) (p : McpProfile) (c : Context) (exs : list Exchange) (d : ResponseDecoder) : Prop := {
  rg_profile : rd_profile d = p;
  rg_serves : Serves c exs (rd_serial d) (rd_request d);
  rg_knows : Knows K c (rd_request d) (rd_redactor d);
  rg_empty : rd_format d = FormatEmpty -> notification (rq_method (rd_request d)) = true;
  rg_final m : rd_final d = Some m -> answers p (rd_request d) (rd_redactor d) m }.

Definition Completed (K : list (list byte)) (p : McpProfile) (c : Context) (exs : list Exchange) (cm : Completion) : Prop :=
  exists r rd, Serves c exs (cm_serial cm) r /\ Knows K c r rd /\ body_of p r rd (sr_body (cm_response cm)).

(** A delivery: of the redactor that knows the credential and, for a tool, the session in
    force at its instant; to an exchange committed once, before the session's deadline. *)
Record Delivered (K : list (list byte)) (p : McpProfile) (X : Z) (x : Delivery) : Prop := {
  dl_body : exists rd, wf_patterns (patterns rd) (longest rd) /\ K ⊆ patterns rd
    /\ (is_tool (rq_method (ex_request (dv_exchange x))) = true -> session_known (dv_native x) rd)
    /\ body_of p (ex_request (dv_exchange x)) rd (sr_body (dv_response x));
  dl_time : dv_at x < X }.

(** ** Contexts evolve, exchanges come and go *)

Definition newer (c : Context) (exs exs' : list Exchange) : Prop :=
  forall e, e ∈ exs' -> e ∈ exs \/ cx_next c <= ex_serial e.

Lemma knows_evolves K c c' r rd : Evolves c c' -> Knows K c r rd -> Knows K c' r rd.
Proof.
  intros [_ _ _ Ho Hr _ _] [Hw Hk Hs]. split; [done|done|]. intros Ht. destruct (Hs Ht) as [?|[Hrd Hn]]; [auto|].
  destruct (Hr Hrd) as [?|[? ->]]; auto.
Qed.
Lemma serves_evolves c c' exs exs' s r : Evolves c c' -> newer c exs exs' -> Serves c exs s r -> Serves c' exs' s r.
Proof.
  intros He Hn [Hlt Hs]. split; [pose proof (ev_next _ _ He); lia|]. intros e Hin Hser.
  destruct (Hn e Hin) as [?|?]; [by apply Hs|lia].
Qed.
Lemma reading_evolves K p c c' exs exs' d : Evolves c c' -> newer c exs exs' ->
  Reading K p c exs d -> Reading K p c' exs' d.
Proof.
  intros He Hn [Hp Hs Hk Hm Hf]. split; [done|by eapply serves_evolves|by eapply knows_evolves|done|done].
Qed.
Lemma completed_evolves K p c c' exs exs' cm : Evolves c c' -> newer c exs exs' ->
  Completed K p c exs cm -> Completed K p c' exs' cm.
Proof.
  intros He Hn (r & rd & Hs & Hk & Hb). exists r, rd. split; [by eapply serves_evolves|]. split; [by eapply knows_evolves|done].
Qed.

Lemma newer_refl c exs : newer c exs exs.
Proof. intros e He. by left. Qed.
Lemma newer_sub c exs exs' : exs' ⊆ exs -> newer c exs exs'.
Proof. intros Hs e He. left. by apply Hs. Qed.
Lemma newer_snoc c exs e : cx_next c <= ex_serial e -> newer c exs (exs ++ [e]).
Proof. intros He x [Hx| ->%list_elem_of_singleton]%elem_of_app; auto. Qed.
(** ** Decoders *)

Lemma reading_with K p c exs d framer body seen bytes : Reading K p c exs d ->
  Reading K p c exs (rd_with d framer body (rd_final d) seen bytes).
Proof. intros [Hp Hs Hk Hm Hf]. by split. Qed.

Lemma take_messages_reading K p c exs ms d : Reading K p c exs d -> Reading K p c exs (take_messages d ms).1.
Proof.
  revert d. induction ms as [|m ms IH]; intros d Hd; cbn [take_messages]; [done|].
  destruct (bool_decide _); [done|]. destruct Hd as [Hp Hs Hk Hm Hf].
  destruct (response _ _ _ _ _) as [[b|ping]|x] eqn:Hr; [| |by split].
  - apply IH. split; cbn; try done. intros m' [= <-]. rewrite <-Hp. apply response_answers in Hr; [apply Hr|apply Hk].
  - destruct (bool_decide _); [by split|].
    match goal with |- context [take_messages ?d1 ms] => specialize (IH d1); destruct (take_messages d1 ms) as [d2 [ps|x]] end;
      apply IH; by split.
Qed.

Lemma rd_push_reading K p c exs h d l : Reading K p c exs d -> Reading K p c exs (rd_push h d l).1.2.
Proof.
  intros Hd. unfold rd_push. destruct (live h d); [|done].
  assert (Reading K p c exs (rd_push_inner d l).1) as Hi.
  { unfold rd_push_inner. destruct (_ || _); [done|]. cbn [rd_format rd_with]. destruct (rd_format d).
    - case_bool_decide; by apply reading_with.
    - by apply (reading_with K p c exs (rd_with d _ _ _ _ _)), reading_with.
    - destruct (sse_push _ _) as [framer [ms|x]]; [apply take_messages_reading|];
        by apply (reading_with K p c exs (rd_with d _ _ _ _ _)), reading_with. }
  destruct (rd_push_inner d l) as [d' [ps|x]]; [done|]. destruct Hi as [Hp Hs Hk Hm Hf]. by split.
Qed.

Lemma final_message_body K p c exs d t m : Reading K p c exs d -> final_message d = Ok (t, m) ->
  (m = [] /\ rd_format d = FormatEmpty /\ notification (rq_method (rd_request d)) = true) \/ answers p (rd_request d) (rd_redactor d) m.
Proof.
  intros [Hp Hs Hk Hm Hf] Hfm. unfold final_message in Hfm. destruct (rd_format d) eqn:Hfmt.
  - simplify_eq. left. auto.
  - apply bind_Ok in Hfm as ([body|ping] & Hr & Hfm); [|done]. simplify_eq. right.
    apply response_answers in Hr; [apply Hr|apply Hk].
  - apply bind_Ok in Hfm as (? & _ & Hfm). apply bind_Ok in Hfm as (body & Hb & Hfm). simplify_eq. right.
    apply ok_or_Ok in Hb. by apply Hf.
Qed.

Lemma finish_inner_completed K p c exs d cm : Reading K p c exs d -> finish_inner d = Ok cm -> Completed K p c exs cm.
Proof.
  intros Hd Hfi. unfold finish_inner in Hfi. apply bind_Ok in Hfi as ([t m] & Hm & Hfi).
  apply bind_Ok in Hfi as (success & _ & Hfi). apply bind_Ok in Hfi as (body & Hb & Hfi). simplify_eq.
  pose proof (final_message_body _ _ _ _ _ _ _ Hd Hm) as Hbody. destruct Hd as [Hp Hs Hk He Hf].
  exists (rd_request d), (rd_redactor d). split; [done|]. split; [done|]. cbn.
  destruct (bool_decide _) eqn:Hsse in Hb; bool_hyps.
  - destruct (_ <? _); simplify_eq. destruct Hbody as [(_ & Hfmt & _)|Ha]; [congruence|]. right. eauto.
  - simplify_eq. destruct Hbody as [(-> & _ & Hn)|Ha]; [by left|right; eauto].
Qed.

(** ** The invariant of a run *)

(** The template of every response knows the credential. *)
Definition templated (K : list (list byte)) (m : SessionMove) : Prop :=
  match m with
  | OStart _ _ _ template _ => wf_patterns (patterns template) (longest template) /\ K ⊆ patterns template
  | _ => True
  end.

Record Held (K : list (list byte)) (p : McpProfile) (X : Z) (w : World) : Prop := {
  hd_alive : Alive w;
  hd_profile : cx_profile (w_cx w) = p;
  hd_expires : cx_expires (w_cx w) = X;
  hd_decoders : Forall (Reading K p (w_cx w) (w_exchanges w)) (w_decoders w);
  hd_completions : Forall (Completed K p (w_cx w) (w_exchanges w)) (w_completions w);
  hd_delivered : Forall (Delivered K p X) (w_delivered w);
  hd_settled x : x ∈ w_delivered w -> settled (ex_serial (dv_exchange x)) (w_log w);
  hd_once : NoDup (map (fun x => ex_serial (dv_exchange x)) (w_delivered w)) }.

Lemma settled_app s es fs : settled s es -> settled s (es ++ fs).
Proof.
  intros [[m Hm]|[Hm|Hm]]; [left; exists m|right; left|right; right]; apply elem_of_app; by left.
Qed.

(** An operation that delivers nothing. *)
Lemma held_by K p X w m : let w' := do_move_session w m in Held K p X w ->
  Evolves (w_cx w) (w_cx w') -> newer (w_cx w) (w_exchanges w) (w_exchanges w') ->
  Forall (fun d => d ∈ w_decoders w \/ Reading K p (w_cx w') (w_exchanges w') d) (w_decoders w') ->
  Forall (fun k => k ∈ w_completions w \/ Completed K p (w_cx w') (w_exchanges w') k) (w_completions w') ->
  w_delivered w' = w_delivered w -> Held K p X w'.
Proof.
  intros w' [Ha Hp Hx Hd Hc Hv Hs Hn] He Hnew Hd' Hc' Hv'. pose proof (session_step w m (proj1 Ha)) as [_ (es & Hl & _)].
  fold w' in Hl. rewrite Forall_forall in Hd. rewrite Forall_forall in Hc. split.
  - by apply alive_step.
  - by rewrite (ev_profile _ _ He).
  - by rewrite (ev_expires _ _ He).
  - eapply Forall_impl; [exact Hd'|]. intros d [Hin|?]; [|done]. eapply reading_evolves; [done..|]. by apply Hd.
  - eapply Forall_impl; [exact Hc'|]. intros k [Hin|?]; [|done]. eapply completed_evolves; [done..|]. by apply Hc.
  - by rewrite Hv'.
  - rewrite Hv', Hl. intros x Hin. by apply settled_app, Hs.
  - by rewrite Hv'.
Qed.

(** The decoder of an admitted response. *)
Lemma started_reading `{!Base64Laws} `{!JsonTextLaws} K p X w e h c d status hs template now :
  Held K p X w -> e ∈ w_exchanges w ->
  wf_patterns (patterns template) (longest template) -> K ⊆ patterns template ->
  start_response (w_heap w) (w_cx w) e status hs template now = (h, c, Ok d) ->
  Reading K p c (w_exchanges w) d.
Proof.
  intros [Ha Hp _ _ _ _ _ _] He Hwf HK Hst. pose proof Ha as [[Hs _] _].
  pose proof (start_kept _ _ _ e status hs template now Hs) as Hk. rewrite Hst in Hk. destruct Hk as [_ Hk].
  destruct (Hk d eq_refl) as (Ho & Hstate & Hnative & Hb & q & a & Hg & _ & Hc & Hadm & _ & _ & ->). clear Hk.
  apply admit_Ok in Hadm as (_ & Hfmt & Hnat & Hwfa & Hta & Hrep); [|done].
  pose proof (so_owned _ _ _ Hs) as Hown. rewrite Forall_forall in Hown. destruct (Hown e He) as [_ Hser _ Hpend].
  destruct (Hpend q Hg) as [_ Hm]. split; cbn.
  - by rewrite Hc.
  - split; [rewrite Hc; cbn; lia|]. intros e' He' Hsame. apply list_elem_of_lookup in He as [i Hi], He' as [j Hj].
    assert (j = i) as ->; [|congruence]. apply (NoDup_lookup _ j i (ex_serial e) (so_serials _ _ _ Hs));
      by rewrite list_lookup_fmap, ?Hi, ?Hj; cbn; rewrite ?Hsame.
  - split; [done|by etrans|]. intros Ht. right. rewrite Hstate, Hnative. rewrite Hm in Ht. split; [by eapply tool_ready|].
    intros v Hv. apply Hrep. right. split; [|done]. destruct (native a) as [n|]; [|done].
    destruct (Hnat n eq_refl) as [Hi _]. rewrite <-Hm in Ht. by rewrite Hi in Ht.
  - by apply Hfmt.
  - done.
Qed.

(** A commit is that of a pending exchange before the deadline. *)
Lemma complete_Ok h c e cm now h' c' r : complete h c e cm now = (h', c', Ok r) ->
  r = cm_response cm /\ ex_serial e = cm_serial cm /\ over (cx_state c) = false /\ now < cx_expires c
  /\ exists p, pending_get (ex_serial e) (cx_pending c) = Some p.
Proof.
  unfold complete. destruct (_ || _) eqn:Hb; [done|]. pose proof (check_cases h c e now) as Hc.
  destruct (check h c e now) as [[h1 c1] [[]|x]]; [|done]. destruct (proj2 Hc eq_refl) as ([= -> ->] & _ & Ho & _ & _ & Hx & p & Hp).
  destruct (negb (from_option _ _ _)); [done|]. destruct (commit_response _ _ _ _). intros Hr. bool_hyps. simplify_eq.
  split_and!; [done|lia|done|done|by exists p].
Qed.

Lemma completed_delivered K p X w e cm now h' c' r : Held K p X w -> e ∈ w_exchanges w -> cm ∈ w_completions w ->
  complete (w_heap w) (w_cx w) e cm now = (h', c', Ok r) ->
  Delivered K p X (mkDelivery e r (cx_native (w_cx w)) now) /\ ~ settled (ex_serial e) (w_log w).
Proof.
  intros [Ha Hp Hx _ Hc _ _ _] He Hcm Hr. apply complete_Ok in Hr as (-> & Hser & Ho & Hnow & q & Hg).
  rewrite Forall_forall in Hc. destruct (Hc cm Hcm) as (r0 & rd & [_ Hserves] & [Hwf HK Hs] & Hbody).
  specialize (Hserves e He Hser). subst r0. split.
  - split; cbn; [|lia]. exists rd. split_and!; [done..| |done]. intros Ht. destruct (Hs Ht) as [?|[_ ?]]; [congruence|done].
  - destruct Ha as [_ [Hk _]%Conversing_kept]. eapply (kp_live _ _ Hk). by apply pending_live.
Qed.

(** An operation on the context alone. *)
Lemma held_context K p X w m : let w' := do_move_session w m in Held K p X w ->
  Evolves (w_cx w) (w_cx w') -> w_exchanges w' ⊆ w_exchanges w -> w_decoders w' = w_decoders w ->
  w_completions w' = w_completions w -> w_delivered w' = w_delivered w -> Held K p X w'.
Proof.
  intros w' Hw He Hx Hd Hc Hv. apply held_by; [done|exact He|by apply newer_sub|..|exact Hv];
    apply old_all; [change (w_decoders w' ⊆ w_decoders w); by rewrite Hd|change (w_completions w' ⊆ w_completions w); by rewrite Hc].
Qed.

Lemma held_begin K p X w body operation now : Held K p X w -> Held K p X (do_move_session w (OBegin body operation now)).
Proof.
  intros Hw. pose proof (fun r => begin_evolves (w_heap w) (w_cx w) r operation now) as Hb.
  apply held_by; [done|..]; cbn [do_move_session]; unfold do_begin;
    (destruct (request _ body) as [r|x]; [|first [apply context_evolves_refl|apply newer_refl|apply old_all; done|done]]);
    specialize (Hb r); (destruct (begin _ _ r operation now) as [[h c] [[e|]|x]]); destruct Hb as [He Hs]; cbn;
    try done; try apply newer_refl; try by apply old_all.
  apply newer_snoc. destruct Hs as [-> _]. lia.
Qed.

Lemma held_start `{!Base64Laws} `{!JsonTextLaws} K p X w i status hs template now : Held K p X w ->
  wf_patterns (patterns template) (longest template) -> K ⊆ patterns template ->
  Held K p X (do_move_session w (OStart i status hs template now)).
Proof.
  intros Hw Hwf HK. pose proof Hw as [[[Hs _] _] _ _ _ _ _ _ _].
  assert (do_move_session w (OStart i status hs template now) = do_start w i status hs template now) as Hd by done.
  unfold do_start in Hd. destruct (w_exchanges w !! i) as [e|] eqn:Hi; [|by rewrite Hd].
  pose proof (start_evolves _ _ _ e status hs template now Hs) as He.
  destruct (start_response _ _ e status hs template now) as [[h c] [d|x]] eqn:Hst.
  - apply held_by; rewrite ?Hd; [done|done|apply newer_refl| |by apply old_all|done].
    apply Forall_app. split; [by apply old_all|]. constructor; [|constructor]. right.
    exact (started_reading _ _ _ _ _ _ _ _ _ _ _ _ Hw (list_elem_of_lookup_2 _ _ _ Hi) Hwf HK Hst).
  - apply held_context; rewrite ?Hd; done.
Qed.

Lemma held_push K p X w j bytes : Held K p X w -> Held K p X (do_move_session w (OPush j bytes)).
Proof.
  intros Hw. assert (do_move_session w (OPush j bytes) = do_push w j bytes) as Hd by done.
  unfold do_push in Hd. destruct (w_decoders w !! j) as [d|] eqn:Hj; [|by rewrite Hd].
  pose proof (hd_decoders _ _ _ _ Hw) as Hall. rewrite Forall_forall in Hall.
  pose proof (rd_push_reading _ _ _ _ (w_heap w) d bytes (Hall d (list_elem_of_lookup_2 _ _ _ Hj))) as Hr.
  destruct (rd_push _ d bytes) as [[h d'] r]. cbn in Hr.
  apply held_by; rewrite ?Hd; [done|apply context_evolves_refl|apply newer_refl| |by apply old_all|done].
  cbn. apply Forall_insert; [by apply old_all|by right].
Qed.

Lemma held_finish K p X w j : Held K p X w -> Held K p X (do_move_session w (OFinish j)).
Proof.
  intros Hw. assert (do_move_session w (OFinish j) = do_finish w j) as Hd by done.
  unfold do_finish in Hd. destruct (w_decoders w !! j) as [d|] eqn:Hj; [|by rewrite Hd].
  pose proof (hd_decoders _ _ _ _ Hw) as Hall. rewrite Forall_forall in Hall.
  pose proof (Hall d (list_elem_of_lookup_2 _ _ _ Hj)) as Hr.
  destruct (rd_finish (w_heap w) d) as [h r] eqn:Hf.
  apply held_by; rewrite ?Hd; [done|apply context_evolves_refl|apply newer_refl|apply old_all, delete_sub| |done].
  destruct r as [cm|x]; [|by apply old_all]. apply Forall_app. split; [by apply old_all|]. constructor; [|constructor].
  right. unfold rd_finish in Hf. destruct (live _ d); [|done]. destruct (finish_inner d) as [cm'|x] eqn:Hin; [|done].
  simplify_eq. by eapply finish_inner_completed.
Qed.

Lemma held_complete K p X w i k now : Held K p X w -> Held K p X (do_move_session w (OComplete i k now)).
Proof.
  intros Hw. assert (do_move_session w (OComplete i k now) = do_complete w i k now) as Hd by done.
  unfold do_complete in Hd. destruct (w_exchanges w !! i) as [e|] eqn:Hi; [|by rewrite Hd].
  destruct (w_completions w !! k) as [cm|] eqn:Hk; [|by rewrite Hd].
  pose proof (list_elem_of_lookup_2 _ _ _ Hi) as He. pose proof (list_elem_of_lookup_2 _ _ _ Hk) as Hcm.
  pose proof Hw as [Ha _ _ Hds Hcs Hv Hset Hn].
  pose proof (complete_evolves _ _ _ e cm now (proj1 (proj1 Ha)) He (fun q Hq => handshake_unready w _ q Ha Hq)) as Hev.
  destruct (complete _ _ e cm now) as [[h c] [r|x]] eqn:Hc.
  2: { apply held_by; rewrite ?Hd; [done|done|apply newer_sub, delete_sub|by apply old_all|apply old_all, delete_sub|done]. }
  apply (completed_delivered _ _ _ _ _ _ _ _ _ _ Hw He Hcm) in Hc as [Hdel Hnew].
  pose proof (alive_step w (OComplete i k now) Ha) as Ha'. rewrite Hd in Ha' |- *.
  rewrite Forall_forall in Hds. rewrite Forall_forall in Hcs. split; cbn.
  - done.
  - by rewrite (ev_profile _ _ Hev), <-(hd_profile _ _ _ _ Hw).
  - by rewrite (ev_expires _ _ Hev), <-(hd_expires _ _ _ _ Hw).
  - apply Forall_forall. intros d Hin. eapply reading_evolves; [exact Hev|apply newer_sub, delete_sub|by apply Hds].
  - apply Forall_forall. intros q Hin. eapply completed_evolves; [exact Hev|apply newer_sub, delete_sub|]. by apply Hcs, (delete_sub k).
  - apply Forall_app. split; [done|by constructor].
  - intros x [Hin| ->%list_elem_of_singleton]%elem_of_app; [by apply settled_app, Hset|]. cbn.
    destruct (_ && _); apply settled_snoc; right; [by right; right|left; by eexists].
  - rewrite map_app. apply NoDup_app. split; [done|]. split; [|apply NoDup_singleton].
    intros s (x & -> & Hin)%list_elem_of_fmap Hx%list_elem_of_singleton. cbn in Hx. apply Hnew. rewrite <-Hx. by apply Hset.
Qed.

(** An operation that only checks, expires or cancels. *)
Lemma held_checks K p X w m h c es exs ps : Held K p X w ->
  do_move_session w m = w_with_decoders (w_with_exchanges (w_with w h c es) exs) (w_decoders w) (w_completions w) ps ->
  Evolves (w_cx w) c -> exs ⊆ w_exchanges w -> Held K p X (do_move_session w m).
Proof. intros Hw Hd He Hx. by apply held_context; rewrite ?Hd. Qed.

Lemma held_ping K p X w i j n now : Held K p X w -> Held K p X (do_move_session w (OPing i j n now)).
Proof.
  intros Hw. assert (do_move_session w (OPing i j n now) = do_ping w i j n now) as Hd by done. unfold do_ping in Hd.
  destruct (w_exchanges w !! i) as [e|]; [|by rewrite Hd]. destruct (w_decoders w !! j) as [d|]; [|by rewrite Hd].
  destruct (w_pings w !! n) as [ping|]; [|by rewrite Hd].
  pose proof (check_evolves (w_heap w) (w_cx w) e now) as He. unfold ping_reply in Hd.
  destruct (check _ _ e now) as [[h c] [[]|x]]; [|by apply held_context; rewrite ?Hd].
  destruct (_ || _); [by apply held_context; rewrite ?Hd|].
  apply held_context; rewrite ?Hd; destruct (mbind _ _); done.
Qed.

Lemma held_step `{!Base64Laws} `{!JsonTextLaws} K p X w m : templated K m -> Held K p X w -> Held K p X (do_move_session w m).
Proof.
  intros Ht Hw. destruct m; [by apply held_begin| |apply held_start; [done|apply Ht..]|by apply held_push
    |by apply held_finish|by apply held_complete| | | |by apply held_ping| | |].
  - destruct (w_exchanges w !! e) as [ex|] eqn:Hi; [|cbn [do_move_session]; by rewrite Hi].
    pose proof (check_evolves (w_heap w) (w_cx w) ex now) as He.
    assert (Evolves (w_cx w) (outgoing (w_heap w) (w_cx w) ex now).1.2) as Hev.
    { unfold outgoing. by destruct (check _ _ ex now) as [[h c] [[]|x]]. }
    destruct (outgoing _ _ ex now) as [[h c] x] eqn:Ho. eapply (held_checks K p X w (OOutgoing e now) h c _ (w_exchanges w)); [done| |exact Hev|done].
    cbn [do_move_session]. by rewrite Hi, Ho.
  - destruct (w_exchanges w !! e) as [ex|] eqn:Hi; [|cbn [do_move_session]; by rewrite Hi].
    pose proof (abandon_evolves (w_heap w) (w_cx w) ex) as Hev. destruct (abandon _ _ ex) as [h c] eqn:Ho.
    eapply (held_checks K p X w (OAbandon e) h c); [done| |exact Hev|apply (delete_sub e)].
    cbn [do_move_session]. by rewrite Hi, Ho.
  - pose proof (invalidate_evolves (w_heap w) (w_cx w)) as Hev. destruct (invalidate _ _) as [h c] eqn:Ho.
    eapply (held_checks K p X w OInvalidate h c _ (w_exchanges w)); [done| |exact Hev|done]. cbn [do_move_session]. by rewrite Ho.
  - pose proof (close_evolves (w_heap w) (w_cx w) now) as Hev. destruct (close _ _ now) as [[h c] x] eqn:Ho.
    eapply (held_checks K p X w (OClose now) h c _ (w_exchanges w)); [done| |exact Hev|done]. cbn [do_move_session]. by rewrite Ho.
  - destruct (request (cx_profile (w_cx w)) body) as [r|x] eqn:Hr; [|cbn [do_move_session]; by rewrite Hr].
    pose proof (cancel_request_evolves (w_heap w) (w_cx w) r now) as Hev. destruct (cancel_request _ _ r now) as [[h c] x] eqn:Ho.
    eapply (held_checks K p X w (OCancelRequest body now) h c _ (w_exchanges w)); [done| |exact Hev|done].
    cbn [do_move_session]. by rewrite Hr, Ho.
  - pose proof (cancel_operation_evolves (w_heap w) (w_cx w) operation now) as Hev. destruct (cancel_operation _ _ operation now) as [[h c] x] eqn:Ho.
    eapply (held_checks K p X w (OCancelOperation operation now) h c _ (w_exchanges w)); [done| |exact Hev|done].
    cbn [do_move_session]. by rewrite Ho.
  - pose proof (same_or_over_evolves _ _ _ _ (expire_cases (w_heap w) (w_cx w) now)) as Hev.
    destruct (expire _ _ now) as [h c] eqn:Ho. eapply (held_checks K p X w (OState now) h c _ (w_exchanges w)); [done| |exact Hev|done].
    cbn [do_move_session]. unfold state_at. by rewrite Ho.
Qed.

Lemma held_opened K h profile now expires w : opened h profile now expires = Some w ->
  Held K profile (Z.min expires (now + seconds 600)) w.
Proof.
  intros Ho. pose proof (alive_opened _ _ _ _ _ Ho) as Ha. unfold opened, Context_new in Ho.
  destruct (expires <=? now); [done|]. cbn in Ho. simplify_eq. split; cbn; [done..|constructor|constructor|constructor| |constructor].
  by intros y Hy%elem_of_nil.
Qed.
Lemma held_run `{!Base64Laws} `{!JsonTextLaws} K p X ms : forall w, Forall (templated K) ms -> Held K p X w ->
  Held K p X (run_session w ms).
Proof.
  induction ms as [|m ms IH]; intros w Ht Hw; [done|]. apply Forall_cons in Ht as [Ht Hts]. cbn. apply IH; [done|].
  by apply held_step.
Qed.

(** C27: the custody of a session. When every response is read with a redactor that knows
    the patterns [K] of the upstream's credential, then whatever the owner does, what is
    delivered to the agent is: nothing for a notification, otherwise an answer rebuilt for
    the request of the exchange and redacted by a redactor that knows [K] and, for a tool,
    every representation of the private session identifier in force when it is delivered;
    delivered before the session's deadline, once for an exchange, and only for one the log
    says is settled. *)
Theorem session_custody `{!Base64Laws} `{!JsonTextLaws} K h profile now expires w ms :
  opened h profile now expires = Some w -> Forall (templated K) ms ->
  let w' := run_session w ms in
  Forall (Delivered K profile (Z.min expires (now + seconds 600))) (w_delivered w')
  /\ NoDup (map (fun x => ex_serial (dv_exchange x)) (w_delivered w'))
  /\ forall x, x ∈ w_delivered w' -> settled (ex_serial (dv_exchange x)) (w_log w').
Proof.
  intros Ho Ht w'. destruct (held_run K _ _ ms w Ht (held_opened K _ _ _ _ _ Ho)). by split_and!.
Qed.
End Delivery.
