(* ===== verification/McpCapacity.v ===== *)
(** * Remote MCP: capacity comes back, pings are answered once

    Every pending exchange of a session is one its owner holds, so that an owner who
    gives its exchanges up has the whole capacity of the session again. Along any run of
    a session, the pings read from a response carry the identity of its decoder and
    pairwise different identifiers, and an answered ping is not answered again. *)
From S2P Require Import Prelude Protocol Ids Json Tools Catalog Profile Secrets Redaction Injection.
From S2P Require Import Sse McpWire McpMessage McpCustody McpHeaders McpContext McpSession McpSafety McpLife.

(** The owner completes an exchange with its own completion. *)
Definition paired `{Base64} `{HttpMessage} `{JsonText} `{Rmcp} (w : World) (m : SessionMove) : bool :=
  match m with
  | OComplete i k _ =>
      match w_exchanges w !! i, w_completions w !! k with
      | Some e, Some cm => ex_serial e =? cm_serial cm
      | _, _ => true
      end
  | _ => true
  end.
Fixpoint paired_run `{Base64} `{HttpMessage} `{JsonText} `{Rmcp} (w : World) (ms : list SessionMove) : bool :=
  match ms with
  | [] => true
  | m :: rest => paired w m && paired_run (do_move_session w m) rest
  end.

Section Capacity.
Context `{Base64} `{HttpMessage} `{JsonText} `{Rmcp}.

(** The entry of a serial, if it is still pending, is of a response that started. *)
Definition started_at (c : Context) (binding : nat) (s : Z) : Prop :=
  binding = cx_binding c /\ s < cx_next c /\ forall p, pending_get s (cx_pending c) = Some p -> pd_started p = true.

Record Tracked (w : World) : Prop := {
  tk_alive : Alive w;
  tk_held s p : pending_get s (cx_pending (w_cx w)) = Some p -> exists e, e ∈ w_exchanges w /\ ex_serial e = s;
  tk_decoders : Forall (fun d => started_at (w_cx w) (rd_binding d) (rd_serial d)) (w_decoders w);
  tk_completions : Forall (fun k => started_at (w_cx w) (cm_binding k) (cm_serial k)) (w_completions w) }.

Lemma started_evolves c c' binding s : Evolves c c' -> started_at c binding s -> started_at c' binding s.
Proof.
  intros He (Hb & Hs & Hp). split; [by rewrite (ev_binding _ _ He)|]. split; [pose proof (ev_next _ _ He); lia|].
  intros p Hg. destruct (ev_pending _ _ He s p Hs Hg) as (q & Hq & Himp). by apply Himp, Hp.
Qed.

Lemma tracked_by w m : let w' := do_move_session w m in Tracked w ->
  Evolves (w_cx w) (w_cx w') ->
  (forall s, cx_next (w_cx w) <= s < cx_next (w_cx w') -> exists e, e ∈ w_exchanges w' /\ ex_serial e = s) ->
  (forall e, e ∈ w_exchanges w -> e ∈ w_exchanges w' \/ pending_get (ex_serial e) (cx_pending (w_cx w')) = None) ->
  Forall (fun d => d ∈ w_decoders w \/ started_at (w_cx w') (rd_binding d) (rd_serial d)) (w_decoders w') ->
  Forall (fun k => k ∈ w_completions w \/ started_at (w_cx w') (cm_binding k) (cm_serial k)) (w_completions w') ->
  Tracked w'.
Proof.
  intros w' [Ha Hh Hd Hk] He Hnew Hold Hd' Hk'. pose proof (alive_step w m Ha) as Ha'. split.
  - exact Ha'.
  - intros s p Hg. destruct Ha' as [[Hs' _] _]. pose proof (so_entries _ _ _ Hs') as Hen. rewrite Forall_forall in Hen.
    pose proof (en_serial _ _ _ (Hen _ (pending_get_elem _ _ _ Hg))) as Hser. cbn [fst] in Hser.
    destruct (Z.lt_ge_cases s (cx_next (w_cx w))) as [Hlt|Hge]; [|apply Hnew; unfold w'; lia].
    destruct (ev_pending _ _ He s p Hlt Hg) as (q & Hq & _). destruct (Hh s q Hq) as (e & Hin & <-).
    destruct (Hold e Hin) as [?|Hnone]; [by exists e|]. fold w' in Hnone. congruence.
  - rewrite Forall_forall in Hd. eapply Forall_impl; [exact Hd'|]. intros d [Hin|?]; [|done].
    eapply started_evolves; [exact He|]. by apply Hd.
  - rewrite Forall_forall in Hk. eapply Forall_impl; [exact Hk'|]. intros k [Hin|?]; [|done].
    eapply started_evolves; [exact He|]. by apply Hk.
Qed.

Lemma delete_none {A} i (l : list A) : l !! i = None -> delete i l = l.
Proof. revert i. induction l as [|x l IH]; intros [|i]; cbn; try done. intros Hi. f_equal. by apply IH. Qed.
Lemma delete_all {A} i (l : list A) (P : A -> Prop) e : l !! i = Some e -> P e -> forall x, x ∈ l -> x ∈ delete i l \/ P x.
Proof.
  intros Hi He x Hx. rewrite (delete_Permutation l i e Hi) in Hx. apply elem_of_cons in Hx as [->|Hx]; auto.
Qed.

(** An operation that begins nothing and consumes nothing. *)
Lemma tracked_same w m : let w' := do_move_session w m in Tracked w ->
  Evolves (w_cx w) (w_cx w') -> cx_next (w_cx w') = cx_next (w_cx w) -> w_exchanges w' = w_exchanges w ->
  w_decoders w' = w_decoders w -> w_completions w' = w_completions w -> Tracked w'.
Proof.
  intros w' Hw He Hn Hx Hd Hc. apply tracked_by; [done|exact He|..]; fold w'.
  - intros s Hs. lia.
  - intros e Hin. left. by rewrite Hx.
  - rewrite Hd. by apply old_all.
  - rewrite Hc. by apply old_all.
Qed.

(** ** Consuming an exchange *)

Lemma abandon_settles c e h : ex_binding e = cx_binding c ->
  pending_get (ex_serial e) (cx_pending (abandon h c e).2) = None.
Proof.
  intros Hb. unfold abandon. rewrite Hb, Nat.eqb_refl. cbn [negb].
  destruct (pending_get (ex_serial e) (cx_pending c)) as [p|] eqn:Hp; [|done]. destruct (bool_decide _); cbn [snd].
  - by destruct (invalidate_spec (flag_store h (pd_cancelled p) true) (cx_with_pending c (pending_remove (ex_serial e) (cx_pending c)))) as (_ & -> & _).
  - cbn. by rewrite pending_get_remove, Z.eqb_refl.
Qed.

Lemma complete_settles c e cm now h : ex_binding e = cx_binding c -> started_at c (cm_binding cm) (cm_serial cm) ->
  ex_serial e = cm_serial cm -> pending_get (ex_serial e) (cx_pending (complete h c e cm now).1.2) = None.
Proof.
  intros Hb (Hkb & _ & Hst) Hser. unfold complete. rewrite Hb, Hkb, !Nat.eqb_refl, Hser, Z.eqb_refl. cbn [negb orb].
  rewrite <-Hser in Hst |- *. pose proof (check_cases h c e now) as Hc. destruct (check h c e now) as [[h1 c1] [[]|x]].
  2: { cbn. by rewrite pending_get_remove, Z.eqb_refl. }
  destruct (proj2 Hc eq_refl) as ([= -> ->] & _ & _ & _ & _ & _ & p & Hp). rewrite Hp. cbn [from_option]. rewrite (Hst p Hp).
  cbn [negb]. set (c1 := cx_with_pending c _).
  assert (pending_get (ex_serial e) (cx_pending c1) = None) as Hn by (cbn; by rewrite pending_get_remove, Z.eqb_refl).
  destruct (rq_method (ex_request e)); try exact Hn. cbn [commit_response]. destruct (cm_success cm); [exact Hn|].
  destruct (invalidate_spec h c1) as (_ & Hpn & _). destruct (invalidate h c1) as [h2 c2]. cbn [fst snd] in *. by rewrite Hpn.
Qed.

(** ** The invariant of a run *)

Lemma tracked_begin w body operation now : Tracked w -> Tracked (do_move_session w (OBegin body operation now)).
Proof.
  intros Hw. assert (do_move_session w (OBegin body operation now) = do_begin w body operation now) as Hd by done.
  unfold do_begin in Hd. destruct (request _ body) as [r|x]; [|by rewrite Hd].
  pose proof (begin_evolves (w_heap w) (w_cx w) r operation now) as Hb.
  destruct (begin _ _ r operation now) as [[h c] [[e|]|x]]; destruct Hb as [He Hs].
  - destruct Hs as (Hser & Hn & _ & _). apply tracked_by; rewrite ?Hd; [done|exact He|..].
    + cbn. intros s Hs. exists e. split; [|lia]. apply elem_of_app. right. left.
    + cbn. intros e' Hin. left. apply elem_of_app. by left.
    + by apply old_all.
    + by apply old_all.
  - apply tracked_same; rewrite ?Hd; done.
  - apply tracked_same; rewrite ?Hd; done.
Qed.

Lemma tracked_start w i status hs template now : Tracked w -> Tracked (do_move_session w (OStart i status hs template now)).
Proof.
  intros Hw. pose proof (tk_alive _ Hw) as [[Hs _] _].
  assert (do_move_session w (OStart i status hs template now) = do_start w i status hs template now) as Hd by done.
  unfold do_start in Hd. destruct (w_exchanges w !! i) as [e|] eqn:Hi; [|by rewrite Hd].
  pose proof (start_evolves _ _ _ e status hs template now Hs) as He.
  pose proof (start_next (w_heap w) (w_cx w) e status hs template now) as Hn.
  pose proof (start_kept _ _ _ e status hs template now Hs) as Hk.
  destruct (start_response _ _ e status hs template now) as [[h c] [d|x]]; cbn [fst snd] in Hn.
  2: { apply tracked_same; rewrite ?Hd; done. }
  destruct Hk as [_ Hk]. destruct (Hk d eq_refl) as (_ & _ & _ & _ & q & a & Hg & _ & Hc & _ & _ & _ & ->). clear Hk.
  pose proof (so_owned _ _ _ Hs) as Hown. rewrite Forall_forall in Hown.
  pose proof (ow_serial _ _ (Hown e (list_elem_of_lookup_2 _ _ _ Hi))) as Hser.
  apply tracked_by; rewrite ?Hd; [done|exact He|..].
  - cbn. intros s Hs'. lia.
  - cbn. intros e' Hin. by left.
  - cbn [w_decoders w_with_decoders]. apply Forall_app. split; [by apply old_all|]. constructor; [|constructor]. right.
    split; [done|]. cbn. split; [lia|]. rewrite Hc. cbn. intros p. rewrite pending_get_insert, Z.eqb_refl. by intros [= <-].
  - by apply old_all.
Qed.

Lemma rd_push_same h d l : let d' := (rd_push h d l).1.2 in rd_binding d' = rd_binding d /\ rd_serial d' = rd_serial d.
Proof.
  assert (forall ms d, rd_binding (take_messages d ms).1 = rd_binding d /\ rd_serial (take_messages d ms).1 = rd_serial d) as Htake.
  { induction ms as [|m ms IH]; intros d0; cbn [take_messages]; [done|].
    destruct (bool_decide _); [done|]. destruct (response _ _ _ _ _) as [[b|p]|x]; [| |done].
    { match goal with |- context [take_messages ?d1 ms] => by destruct (IH d1) as [-> ->] end. }
   
    destruct (bool_decide _); [done|]. match goal with |- context [take_messages ?d1 ms] => specialize (IH d1);
      destruct (take_messages d1 ms) as [d2 [ps|x]] end; done. }
  unfold rd_push. destruct (live h d) as [[]|x]; [|done].
  assert (rd_binding (rd_push_inner d l).1 = rd_binding d /\ rd_serial (rd_push_inner d l).1 = rd_serial d) as Hin.
  { unfold rd_push_inner. destruct (_ || _); [done|]. cbn [rd_format rd_with]. destruct (rd_format d); [by case_bool_decide|done|].
    destruct (sse_push _ _) as [f [ms|x]]; [|done].
    match goal with |- context [take_messages ?d1 ms] => by destruct (Htake ms d1) as [-> ->] end. }
  destruct (rd_push_inner d l) as [d1 [ps|x]]; done.
Qed.

Lemma tracked_push w j bytes : Tracked w -> Tracked (do_move_session w (OPush j bytes)).
Proof.
  intros Hw. assert (do_move_session w (OPush j bytes) = do_push w j bytes) as Hd by done.
  unfold do_push in Hd. destruct (w_decoders w !! j) as [d|] eqn:Hj; [|by rewrite Hd].
  pose proof (tk_decoders _ Hw) as Hall. rewrite Forall_forall in Hall. specialize (Hall d (list_elem_of_lookup_2 _ _ _ Hj)).
  pose proof (rd_push_same (w_heap w) d bytes) as Hr. destruct (rd_push _ d bytes) as [[h d'] r]. cbn in Hr. destruct Hr as [Hb Hser].
  apply tracked_by; rewrite ?Hd; [done|apply context_evolves_refl|..].
  - cbn. intros s Hs. lia.
  - cbn. intros e Hin. by left.
  - cbn. apply Forall_insert; [by apply old_all|]. right. by rewrite Hb, Hser.
  - by apply old_all.
Qed.

Lemma tracked_finish w j : Tracked w -> Tracked (do_move_session w (OFinish j)).
Proof.
  intros Hw. assert (do_move_session w (OFinish j) = do_finish w j) as Hd by done.
  unfold do_finish in Hd. destruct (w_decoders w !! j) as [d|] eqn:Hj; [|by rewrite Hd].
  pose proof (tk_decoders _ Hw) as Hall. rewrite Forall_forall in Hall. specialize (Hall d (list_elem_of_lookup_2 _ _ _ Hj)).
  destruct (rd_finish (w_heap w) d) as [h r] eqn:Hf. apply tracked_by; rewrite ?Hd; [done|apply context_evolves_refl|..].
  - cbn. intros s Hs. lia.
  - cbn. intros e Hin. by left.
  - apply old_all, (delete_sub j).
  - destruct r as [cm|x]; [|by apply old_all]. apply Forall_app. split; [by apply old_all|]. constructor; [|constructor]. right.
    unfold rd_finish in Hf. destruct (live _ d); [|done]. destruct (finish_inner d) as [cm'|x] eqn:Hin; [|done]. simplify_eq.
    unfold finish_inner in Hin. apply bind_Ok in Hin as ([t m] & _ & Hin). apply bind_Ok in Hin as (? & _ & Hin).
    apply bind_Ok in Hin as (body & _ & Hin). by simplify_eq.
Qed.

(** A consumed exchange is no longer pending. *)
Lemma tracked_consumed w m i e : let w' := do_move_session w m in Tracked w -> w_exchanges w !! i = Some e ->
  Evolves (w_cx w) (w_cx w') -> cx_next (w_cx w') = cx_next (w_cx w) -> w_exchanges w' = delete i (w_exchanges w) ->
  pending_get (ex_serial e) (cx_pending (w_cx w')) = None ->
  w_decoders w' ⊆ w_decoders w -> w_completions w' ⊆ w_completions w -> Tracked w'.
Proof.
  intros w' Hw Hi He Hn Hx Hnone Hd Hc. apply tracked_by; [done|exact He|..]; fold w'.
  - intros s Hs. lia.
  - rewrite Hx. by apply (delete_all i _ (fun e => pending_get (ex_serial e) (cx_pending (w_cx w')) = None) e).
  - by apply old_all.
  - by apply old_all.
Qed.

Lemma tracked_complete w i k now : paired w (OComplete i k now) = true -> Tracked w ->
  Tracked (do_move_session w (OComplete i k now)).
Proof.
  intros Hpair Hw. assert (do_move_session w (OComplete i k now) = do_complete w i k now) as Hd by done.
  unfold do_complete in Hd. cbn [paired] in Hpair. destruct (w_exchanges w !! i) as [e|] eqn:Hi; [|by rewrite Hd].
  destruct (w_completions w !! k) as [cm|] eqn:Hk; [|by rewrite Hd]. apply Z.eqb_eq in Hpair.
  pose proof (list_elem_of_lookup_2 _ _ _ Hi) as He. pose proof (tk_alive _ Hw) as Ha. pose proof (proj1 (proj1 Ha)) as Hs.
  pose proof (complete_evolves _ _ _ e cm now Hs He (fun q Hq => handshake_unready w _ q Ha Hq)) as Hev.
  pose proof (complete_next (w_heap w) (w_cx w) e cm now) as Hn.
  pose proof (so_owned _ _ _ Hs) as Hown. rewrite Forall_forall in Hown.
  pose proof (tk_completions _ Hw) as Hall. rewrite Forall_forall in Hall.
  pose proof (complete_settles (w_cx w) e cm now (w_heap w) (ow_binding _ _ (Hown e He)) (Hall cm (list_elem_of_lookup_2 _ _ _ Hk)) Hpair) as Hnone.
  destruct (complete _ _ e cm now) as [[h c] r]. cbn [fst snd] in *.
  apply (tracked_consumed _ _ i e); rewrite ?Hd; try done; destruct r; try done; apply (delete_sub k).
Qed.

Lemma tracked_abandon w i : Tracked w -> Tracked (do_move_session w (OAbandon i)).
Proof.
  intros Hw. destruct (w_exchanges w !! i) as [e|] eqn:Hi; [|cbn [do_move_session]; by rewrite Hi].
  pose proof (tk_alive _ Hw) as [[Hs _] _]. pose proof (so_owned _ _ _ Hs) as Hown. rewrite Forall_forall in Hown.
  pose proof (abandon_settles (w_cx w) e (w_heap w) (ow_binding _ _ (Hown e (list_elem_of_lookup_2 _ _ _ Hi)))) as Hnone.
  pose proof (abandon_evolves (w_heap w) (w_cx w) e) as Hev. pose proof (abandon_next (w_heap w) (w_cx w) e) as Hn.
  apply (tracked_consumed _ _ i e); [done|done|..]; cbn [do_move_session]; rewrite Hi; by destruct (abandon _ _ e) as [h c].
Qed.

Lemma tracked_ping w i j n now : Tracked w -> Tracked (do_move_session w (OPing i j n now)).
Proof.
  intros Hw. assert (do_move_session w (OPing i j n now) = do_ping w i j n now) as Hd by done. unfold do_ping in Hd.
  destruct (w_exchanges w !! i) as [e|]; [|by rewrite Hd]. destruct (w_decoders w !! j) as [d|]; [|by rewrite Hd].
  destruct (w_pings w !! n) as [ping|]; [|by rewrite Hd].
  pose proof (check_evolves (w_heap w) (w_cx w) e now) as He. pose proof (check_next (w_heap w) (w_cx w) e now) as Hn.
  unfold ping_reply in Hd. destruct (check _ _ e now) as [[h c] [[]|x]]; cbn [fst snd] in Hn; [|by apply tracked_same; rewrite ?Hd].
  destruct (_ || _); [by apply tracked_same; rewrite ?Hd|].
  apply tracked_same; rewrite ?Hd; destruct (mbind _ _); done.
Qed.

(** An operation that only checks, expires or cancels. *)
Lemma tracked_checks w m h c es : Tracked w -> do_move_session w m = w_with w h c es ->
  Evolves (w_cx w) c -> cx_next c = cx_next (w_cx w) -> Tracked (do_move_session w m).
Proof. intros Hw Hd He Hn. by apply tracked_same; rewrite ?Hd. Qed.

Lemma tracked_step w m : paired w m = true -> Tracked w -> Tracked (do_move_session w m).
Proof.
  intros Hp Hw. pose proof (proj1 (proj1 (tk_alive _ Hw))) as Hs.
  destruct m; [by apply tracked_begin| |by apply tracked_start|by apply tracked_push|by apply tracked_finish
    |by apply tracked_complete|by apply tracked_abandon| | |by apply tracked_ping| | |].
  - destruct (w_exchanges w !! e) as [ex|] eqn:Hi; [|cbn [do_move_session]; by rewrite Hi].
    pose proof (check_evolves (w_heap w) (w_cx w) ex now) as He. pose proof (check_next (w_heap w) (w_cx w) ex now) as Hn.
    destruct (outgoing (w_heap w) (w_cx w) ex now) as [[h c] x] eqn:Ho.
    apply (tracked_checks w (OOutgoing e now) h c (ended_by (w_cx w) c)); [done|cbn [do_move_session]; by rewrite Hi, Ho|..];
      unfold outgoing in Ho; destruct (check _ _ ex now) as [[h1 c1] [[]|y]]; by simplify_eq.
  - pose proof (invalidate_evolves (w_heap w) (w_cx w)) as He. pose proof (invalidate_next (w_heap w) (w_cx w)) as Hn.
    destruct (invalidate _ _) as [h c] eqn:Ho. eapply (tracked_checks w OInvalidate h c); [done| |done..].
    cbn [do_move_session]. by rewrite Ho.
  - pose proof (close_evolves (w_heap w) (w_cx w) now) as He. pose proof (close_next (w_heap w) (w_cx w) now) as Hn.
    destruct (close _ _ now) as [[h c] x] eqn:Ho. eapply (tracked_checks w (OClose now) h c); [done| |done..].
    cbn [do_move_session]. by rewrite Ho.
  - destruct (request (cx_profile (w_cx w)) body) as [r|x] eqn:Hr; [|cbn [do_move_session]; by rewrite Hr].
    pose proof (cancel_request_evolves (w_heap w) (w_cx w) r now) as He.
    pose proof (cancel_request_next (w_heap w) (w_cx w) r now) as Hn. destruct (cancel_request _ _ r now) as [[h c] x] eqn:Ho.
    eapply (tracked_checks w (OCancelRequest body now) h c); [done| |done..]. cbn [do_move_session]. by rewrite Hr, Ho.
  - pose proof (cancel_operation_evolves (w_heap w) (w_cx w) operation now) as He.
    pose proof (cancel_operation_next (w_heap w) (w_cx w) operation now) as Hn. destruct (cancel_operation _ _ operation now) as [[h c] x] eqn:Ho.
    eapply (tracked_checks w (OCancelOperation operation now) h c); [done| |done..]. cbn [do_move_session]. by rewrite Ho.
  - pose proof (same_or_over_evolves _ _ _ _ (expire_cases (w_heap w) (w_cx w) now)) as He.
    pose proof (expire_next (w_heap w) (w_cx w) now) as Hn. destruct (expire _ _ now) as [h c] eqn:Ho.
    eapply (tracked_checks w (OState now) h c); [done| |done..]. cbn [do_move_session]. unfold state_at. by rewrite Ho.
Qed.

Lemma tracked_opened h profile now expires w : opened h profile now expires = Some w -> Tracked w.
Proof.
  intros Ho. pose proof (alive_opened _ _ _ _ _ Ho) as Ha. unfold opened, Context_new in Ho.
  destruct (expires <=? now); [done|]. cbn in Ho. simplify_eq. split; [done|done|constructor..].
Qed.
Lemma tracked_run ms : forall w, paired_run w ms = true -> Tracked w -> Tracked (run_session w ms).
Proof.
  induction ms as [|m ms IH]; intros w Hp Hw; [done|]. cbn in Hp. bool_hyps. cbn. apply IH; [done|]. by apply tracked_step.
Qed.

(** ** Giving every exchange up *)

Lemma abandon_ready w i : Alive w -> cx_state (w_cx w) = SReady -> let w' := do_move_session w (OAbandon i) in
  cx_state (w_cx w') = SReady /\ cx_next (w_cx w') = cx_next (w_cx w) /\ w_exchanges w' = delete i (w_exchanges w).
Proof.
  intros Ha Hr. cbn [do_move_session]. destruct (w_exchanges w !! i) as [e|] eqn:Hi.
  2: { split_and!; [done..|]. by rewrite delete_none. }
  pose proof (abandon_next (w_heap w) (w_cx w) e) as Hn.
  assert (cx_state (abandon (w_heap w) (w_cx w) e).2 = SReady) as Hs.
  { unfold abandon. destruct (negb _); [done|].
    destruct (pending_get (ex_serial e) (cx_pending (w_cx w))) as [p|] eqn:Hp; [|done].
    case_bool_decide as Hh; [|done]. exfalso. apply (handshake_unready w _ p Ha Hp); [|done]. by apply bool_decide_eq_true. }
  by destruct (abandon _ _ e) as [h c].
Qed.

Definition give_back (n : nat) : list SessionMove := replicate n (OAbandon 0).

Lemma give_up_all n : forall w, Tracked w -> length (w_exchanges w) = n ->
  cx_pending (w_cx (run_session w (give_back n))) = [].
Proof.
  induction n as [|n IH]; intros w Hw Hl.
  - cbn. destruct (cx_pending (w_cx w)) as [|[s p] rest] eqn:Hp; [done|]. destruct (tk_held _ Hw s p) as (e & He & _).
    + rewrite Hp. cbn. by rewrite Z.eqb_refl.
    + destruct (w_exchanges w); [by apply elem_of_nil in He|done].
  - cbn. apply IH; [by apply tracked_abandon|]. cbn [do_move_session].
    destruct (w_exchanges w) as [|e exs]; [done|]. cbn in *. destruct (abandon _ _ e) as [h c]. cbn. lia.
Qed.

Lemma give_up_ready n : forall w, Tracked w -> cx_state (w_cx w) = SReady ->
  let w' := run_session w (give_back n) in cx_state (w_cx w') = SReady /\ cx_next (w_cx w') = cx_next (w_cx w).
Proof.
  induction n as [|n IH]; intros w Hw Hr; [done|]. cbn. destruct (abandon_ready w 0 (tk_alive _ Hw) Hr) as (Hs & Hn & _).
  destruct (IH _ (tracked_abandon w 0 Hw) Hs) as [Hs' Hn']. split; [done|]. by etrans.
Qed.

(** What a session in use, with nothing pending, answers to a call. It is invalid once a
    decoder of it has failed (its fault is raised) or its deadline has come; without
    serials left it refuses; otherwise the call has the next serial. *)
Definition call_answered (w : World) (r : Request) (operation : string) (now : Z) : Prop :=
  let '(h, c, x) := begin (w_heap w) (w_cx w) r operation now in
  if flag_load (w_heap w) (cx_fault (w_cx w)) || (cx_expires (w_cx w) <=? now)
  then x = fail SessionInvalid /\ cx_state c = SInvalid
  else if 4096 <? cx_next (w_cx w) then x = fail LimitExceeded /\ c = w_cx w
  else exists e, x = Ok (Some e) /\ ex_serial e = cx_next (w_cx w) /\ ex_request e = r /\ cx_state c = SReady.

Lemma call_admitted w r operation now : cx_pending (w_cx w) = [] -> cx_state (w_cx w) = SReady ->
  rq_binding r = p_binding (cx_profile (w_cx w)) -> valid_id operation 16 = true -> is_tool (rq_method r) = true ->
  call_answered w r operation now.
Proof.
  intros Hnil Hs Hb Hid Ht. unfold call_answered, begin, expire. rewrite Hs. change (over SReady) with false.
  rewrite (bool_decide_true (SReady = SReady)) by done. cbn [negb andb orb]. rewrite orb_false_r.
  destruct (_ || _) eqn:Hf.
  { destruct (invalidate_spec (w_heap w) (w_cx w)) as (Hover & _). destruct (invalidate _ _) as [h c] eqn:Hi.
    unfold invalidate in Hi. rewrite Hs in Hi. injection Hi as <- <-. cbn. by rewrite Hb, Nat.eqb_refl, Hid. }
  rewrite Hb, Nat.eqb_refl, Hid, Hs. change (over SReady) with false. cbn [negb orb].
  assert (method_admitted (w_cx w) (rq_method r) = true) as ->.
  { destruct (rq_method r); try done; cbn; by rewrite Hs. }
  unfold conflicting. rewrite Hnil. cbn [existsb negb].
  assert (rq_method r <> Cancel) as Hc by (by intros Hc; rewrite Hc in Ht).
  rewrite bool_decide_false by done. unfold exhausted. rewrite Hnil.
  assert (is_control (rq_method r) = false) as -> by (by destruct (rq_method r)). cbn [List.filter].
  change (8 <=? len []) with false. rewrite orb_false_r. destruct (4096 <? _); [done|].
  destruct (admit_exchange (w_heap w) (w_cx w) r operation None) as [[h' c'] e] eqn:He.
  unfold admit_exchange in He. destruct (flag_new _) as [h1 a]. injection He as <- <- <-. eexists. split; [done|].
  split; [done|]. split; [done|]. rewrite bool_decide_false by (by intros Hm; rewrite Hm in Ht). exact Hs.
Qed.

(** C30: capacity comes back. Whatever its owner did with a session, completing each
    exchange with its own completion: when it gives up the exchanges it holds, none is
    pending any more; and if tools were in use they are still in use, no serial was spent,
    and a well-formed call is answered by the session's lifetime alone: admitted under the
    next serial, unless its deadline has come or a response of it failed to decode (then
    the session ends) or its 4096 serials are spent. *)
Theorem capacity_recovers h profile now expires w0 ms :
  opened h profile now expires = Some w0 -> paired_run w0 ms = true ->
  let w := run_session w0 ms in
  let w' := run_session w (give_back (length (w_exchanges w))) in
  cx_pending (w_cx w') = []
  /\ (cx_state (w_cx w) = SReady ->
        cx_state (w_cx w') = SReady /\ cx_next (w_cx w') = cx_next (w_cx w)
        /\ forall r operation at_, rq_binding r = p_binding (cx_profile (w_cx w')) -> valid_id operation 16 = true ->
             is_tool (rq_method r) = true -> call_answered w' r operation at_).
Proof.
  intros Ho Hp w w'. pose proof (tracked_run ms w0 Hp (tracked_opened _ _ _ _ _ Ho)) as Hw.
  pose proof (give_up_all _ w Hw eq_refl) as Hnil. fold w' in Hnil. split; [done|]. intros Hr.
  destruct (give_up_ready (length (w_exchanges w)) w Hw Hr) as [Hs Hn]. fold w' in Hs, Hn. split; [done|]. split; [done|].
  intros r operation at_ Hb Hid Ht. by apply call_admitted.
Qed.
End Capacity.



Section Pings.
Context `{Base64} `{HttpMessage} `{JsonText} `{Rmcp}.

(** ** Identities are fresh *)

Lemma invalidate_fresh h c : fresh_id (invalidate h c).1 = fresh_id h.
Proof. by destruct (invalidate_spec h c) as (_ & _ & _ & _ & _ & _ & _ & -> & _). Qed.
Lemma expire_fresh h c now : fresh_id (expire h c now).1 = fresh_id h.
Proof. unfold expire. destruct (_ && _); [apply invalidate_fresh|done]. Qed.
Lemma check_fresh h c e now : fresh_id (check h c e now).1.1 = fresh_id h.
Proof.
  unfold check. destruct (negb (_ =? _)%nat); [done|]. pose proof (expire_fresh h c now) as Hf.
  by destruct (expire h c now).
Qed.
Lemma cancel_serial_fresh h c s : fresh_id (cancel_serial h c s).1 = fresh_id h.
Proof.
  unfold cancel_serial. destruct (pending_get _ _) as [p|]; [|done]. destruct (bool_decide _); [done|].
  by destruct (flag_load h (pd_cancelled p)).
Qed.
Lemma begin_fresh h c r operation now : (fresh_id h <= fresh_id (begin h c r operation now).1.1)%nat.
Proof.
  unfold begin. pose proof (expire_fresh h c now) as Hf. destruct (expire h c now) as [h1 c1]. cbn [fst] in Hf.
  repeat match goal with |- context [if ?b then (h1, c1, fail _) else _] => destruct b; [cbn; lia|] end.
  assert (forall target, fresh_id (admit_exchange h1 c1 r operation target).1.1 = S (fresh_id h1)) as Ha.
  { intros target. unfold admit_exchange. cbn. destruct target as [[t p]|]; done. }
  assert (forall target, (fresh_id h <= fresh_id (if exhausted c1 (rq_method r) then (h1, c1, fail LimitExceeded)
    else let '(h, c, e) := admit_exchange h1 c1 r operation target in (h, c, Ok (Some e))).1.1)%nat) as Hadmit.
  { intros target. destruct (exhausted _ _); [cbn; lia|]. specialize (Ha target).
    destruct (admit_exchange _ _ _ _ _) as [[h2 c2] e]. cbn in *. lia. }
  destruct (bool_decide _); [|apply (Hadmit None)]. destruct (cancel_target h1 c1 r); [apply (Hadmit (Some _))|cbn; lia].
Qed.
Lemma start_fresh h c e status hs template now : let '(h', _, result) := start_response h c e status hs template now in
  (fresh_id h <= fresh_id h')%nat /\ forall d, result = Ok d -> rd_identity d = fresh_id h /\ (fresh_id h < fresh_id h')%nat.
Proof.
  unfold start_response. pose proof (check_fresh h c e now) as Hf. destruct (check h c e now) as [[h1 c1] [[]|x]]; cbn in Hf.
  2: { split; [lia|done]. }
  destruct (pending_get _ _) as [p|]; [|split; [lia|done]]. destruct (pd_started p); [split; [lia|done]|].
  destruct (admit_response _ _ _ _ _); cbn; (split; [lia|]); [|done]. intros d [= <-]. cbn. lia.
Qed.
Lemma complete_fresh h c e cm now : fresh_id (complete h c e cm now).1.1 = fresh_id h.
Proof.
  unfold complete. destruct (_ || _); [done|]. pose proof (check_fresh h c e now) as Hf.
  destruct (check h c e now) as [[h1 c1] [[]|x]]; [|done]. destruct (negb (from_option _ _ _)); [done|].
  destruct (rq_method (ex_request e)); try done. cbn [commit_response]. by destruct (cm_success cm).
Qed.
Lemma abandon_fresh h c e : fresh_id (abandon h c e).1 = fresh_id h.
Proof.
  unfold abandon. destruct (negb (_ =? _)%nat); [done|]. destruct (pending_get _ _) as [p|]; [|done]. by destruct (bool_decide _).
Qed.
Lemma cancel_request_fresh h c r now : fresh_id (cancel_request h c r now).1.1 = fresh_id h.
Proof.
  unfold cancel_request. destruct (_ || _); [done|]. pose proof (expire_fresh h c now) as Hf.
  destruct (expire h c now) as [h1 c1]. cbn [fst] in Hf. destruct (find_first _ _) as [[s p]|]; [|done].
  pose proof (cancel_serial_fresh h1 c1 s) as Hs. destruct (cancel_serial h1 c1 s). cbn in *. lia.
Qed.
Lemma cancel_operation_fresh h c operation now : fresh_id (cancel_operation h c operation now).1.1 = fresh_id h.
Proof.
  unfold cancel_operation. pose proof (expire_fresh h c now) as Hf. destruct (expire h c now) as [h1 c1]. cbn [fst] in Hf.
  destruct (find_first _ _) as [[s p]|]; [|done]. destruct (bool_decide _); [done|].
  pose proof (cancel_serial_fresh h1 c1 s) as Hs. destruct (cancel_serial h1 c1 s). cbn in *. lia.
Qed.
Lemma outgoing_fresh h c e now : fresh_id (outgoing h c e now).1.1 = fresh_id h.
Proof.
  unfold outgoing. pose proof (check_fresh h c e now) as Hf. by destruct (check h c e now) as [[h1 c1] [[]|x]].
Qed.
Lemma close_fresh h c now : fresh_id (close h c now).1.1 = fresh_id h.
Proof.
  unfold close. pose proof (expire_fresh h c now) as Hf. destruct (expire h c now) as [h1 c1]. cbn [fst] in Hf.
  pose proof (invalidate_fresh h1 c1) as Hi. destruct (invalidate h1 c1). cbn in *. lia.
Qed.

(** ** The invariant *)

Definition ping_key (p : PingReply) : option nat * string := (ping_owner p, to_string (ping_id p)).

Record Pinged (fresh : nat) (ds : list ResponseDecoder) (ps : list PingReply) (pongs : list (nat * Value)) : Prop := {
  pg_decoders : Forall (fun d => rd_identity d < fresh)%nat ds;
  pg_identities : NoDup (map rd_identity ds);
  pg_owner p : p ∈ ps -> exists a, ping_owner p = Some a /\ (a < fresh)%nat;
  pg_seen d p : d ∈ ds -> p ∈ ps -> ping_owner p = Some (rd_identity d) -> to_string (ping_id p) ∈ rd_seen d;
  pg_keys : NoDup (map ping_key ps);
  pg_used x : x ∈ pongs -> exists p, p ∈ ps /\ ping_used p = true /\ ping_owner p = Some x.1 /\ ping_id p = x.2;
  pg_once : NoDup pongs }.

(** Fewer decoders, fresher identities. *)
Lemma pinged_less f f' ds ds' ps pongs : Pinged f ds ps pongs -> (f <= f')%nat -> ds' `sublist_of` ds -> Pinged f' ds' ps pongs.
Proof.
  intros [Gd Gi Go Gs Gk Gu Gn] Hf Hds.
  assert (forall d, d ∈ ds' -> d ∈ ds) as Hin by (intros d Hd; eapply elem_of_submseteq; [exact Hd|by apply sublist_submseteq]).
  split; try done.
  - rewrite Forall_forall in *. intros d Hd. specialize (Gd d (Hin d Hd)). lia.
  - eapply sublist_NoDup; [exact Gi|]. by apply fmap_sublist.
  - intros p Hp. destruct (Go p Hp) as (a & ? & ?). exists a. split; [done|lia].
  - intros d p Hd. by apply Gs, Hin.
Qed.

Lemma pinged_started f f' ds ps pongs d : Pinged f ds ps pongs -> rd_identity d = f -> (f < f')%nat ->
  Pinged f' (ds ++ [d]) ps pongs.
Proof.
  intros [Gd Gi Go Gs Gk Gu Gn] Hd Hf. split; try done.
  - apply Forall_app. split; [eapply Forall_impl; [exact Gd|]; cbn; lia|]. constructor; [lia|constructor].
  - rewrite map_app. apply NoDup_app. split; [done|]. split; [|apply NoDup_singleton].
    intros a (x & -> & Hx)%list_elem_of_fmap Ha%list_elem_of_singleton. rewrite Forall_forall in Gd. specialize (Gd x Hx). lia.
  - intros p Hp. destruct (Go p Hp) as (a & ? & ?). exists a. split; [done|lia].
  - intros x p [Hx| ->%list_elem_of_singleton]%elem_of_app Hp; [by apply Gs|]. intros Ho. destruct (Go p Hp) as (a & ? & ?).
    rewrite Hd in Ho. simplify_eq. lia.
Qed.

(** What a push gives: pings of the decoder, under identifiers it had not seen. *)
Definition new_pings (d d' : ResponseDecoder) (ps : list PingReply) : Prop :=
  Forall (fun p => ping_owner p = Some (rd_identity d) /\ to_string (ping_id p) ∈ rd_seen d' /\ to_string (ping_id p) ∉ rd_seen d) ps
  /\ NoDup (map (fun p => to_string (ping_id p)) ps).
Definition pushed (d d' : ResponseDecoder) (r : Result (list PingReply)) : Prop :=
  rd_identity d' = rd_identity d /\ rd_seen d ⊆ rd_seen d' /\ forall ps, r = Ok ps -> new_pings d d' ps.

Lemma pushed_nothing d d' r : rd_identity d' = rd_identity d -> rd_seen d' = rd_seen d ->
  (forall ps, r = Ok ps -> ps = []) -> pushed d d' r.
Proof. intros Hi Hs Hr. split; [done|]. split; [by rewrite Hs|]. intros ps ->%Hr. by split; constructor. Qed.

Lemma take_pushed ms : forall d, pushed d (take_messages d ms).1 (take_messages d ms).2.
Proof.
  induction ms as [|m ms IH]; intros d; cbn [take_messages]; [by apply pushed_nothing; [..|intros ps [= <-]]|].
  destruct (bool_decide _); [by apply pushed_nothing|].
  destruct (response _ _ _ _ _) as [[b|p]|x]; [exact (IH (rd_with d (rd_framer d) (rd_body d) (Some b) (rd_seen d) (rd_bytes d)))| |by apply pushed_nothing].
  case_bool_decide as Hseen; [by apply pushed_nothing|].
  set (d1 := rd_with _ _ _ _ _ _). destruct (IH d1) as (Hi & Hsub & Hnew).
  assert (rd_seen d1 = {[ to_string (ping_id p) ]} ∪ rd_seen d) as Hs1 by done.
  destruct (take_messages d1 ms) as [d2 [ps|x]]; cbn [fst snd] in *.
  - split; [done|]. rewrite Hs1 in Hsub. split; [set_solver|]. intros ps' [= <-].
    destruct (Hnew ps eq_refl) as [Hall Hnd]. rewrite Hs1 in Hall. split.
    + constructor; [cbn; split_and!; [by rewrite Hi|apply Hsub; set_solver|done]|].
      eapply Forall_impl; [exact Hall|]. intros q (? & ? & Hq). split_and!; [done..|set_solver].
    + cbn. constructor; [|done]. intros (q & Hq & Hin)%list_elem_of_fmap. rewrite Forall_forall in Hall.
      destruct (Hall q Hin) as (_ & _ & Hno). apply Hno. rewrite <-Hq. set_solver.
  - split; [done|]. rewrite Hs1 in Hsub. split; [set_solver|done].
Qed.

Lemma rd_push_pushed h d l : pushed d (rd_push h d l).1.2 (rd_push h d l).2.
Proof.
  unfold rd_push. destruct (live h d) as [[]|x]; [|by apply pushed_nothing].
  assert (pushed d (rd_push_inner d l).1 (rd_push_inner d l).2) as Hp.
  { unfold rd_push_inner. destruct (_ || _); [by apply pushed_nothing|]. cbn [rd_format rd_with]. destruct (rd_format d).
    - case_bool_decide; apply pushed_nothing; try done. by intros ps [= <-].
    - apply pushed_nothing; [done..|]. by intros ps [= <-].
    - destruct (sse_push _ _) as [f [ms|x]]; [|by apply pushed_nothing].
      match goal with |- context [take_messages ?d1 ms] => exact (take_pushed ms d1) end. }
  destruct (rd_push_inner d l) as [d1 [ps|x]]; [done|]. destruct Hp as (Hi & Hs & _). by split_and!.
Qed.

Lemma pinged_pushed f ds ps pongs j d d' new : Pinged f ds ps pongs -> ds !! j = Some d ->
  rd_identity d' = rd_identity d -> rd_seen d ⊆ rd_seen d' -> new_pings d d' new ->
  Pinged f (<[ j := d' ]> ds) (ps ++ new) pongs.
Proof.
  intros [Gd Gi Go Gs Gk Gu Gn] Hj Hi Hsub [Hall Hnd]. pose proof (list_elem_of_lookup_2 _ _ _ Hj) as Hd.
  rewrite Forall_forall in Hall. rewrite Forall_forall in Gd.
  assert (map rd_identity (<[ j := d' ]> ds) = map rd_identity ds) as Hids.
  { change (rd_identity <$> <[ j := d' ]> ds = rd_identity <$> ds). rewrite list_fmap_insert, Hi.
    apply list_insert_id. by rewrite list_lookup_fmap, Hj. }
  split.
  - apply Forall_insert; [by apply Forall_forall|]. rewrite Hi. by apply Gd.
  - by rewrite Hids.
  - intros p [Hp|Hp]%elem_of_app; [by apply Go|]. destruct (Hall p Hp) as (-> & _). exists (rd_identity d). split; [done|]. by apply Gd.
  - intros x p Hx Hp Ho. apply list_elem_of_lookup in Hx as [i Hx].
    destruct (decide (i = j)) as [->|Hne].
    + rewrite list_lookup_insert_eq in Hx by (by eapply lookup_lt_Some). simplify_eq.
      apply elem_of_app in Hp as [Hp|Hp]; [|by apply Hall]. apply Hsub, Gs; [done..|]. by rewrite <-Hi.
    + rewrite list_lookup_insert_ne in Hx by done. apply elem_of_app in Hp as [Hp|Hp].
      * by apply Gs; [eapply list_elem_of_lookup_2|..].
      * exfalso. destruct (Hall p Hp) as (Ho' & _). rewrite Ho in Ho'. simplify_eq. apply Hne.
        apply (NoDup_lookup _ i j (rd_identity d) Gi); by rewrite list_lookup_fmap, ?Hx, ?Hj; cbn; rewrite ?Ho'.
  - rewrite map_app. apply NoDup_app. split; [done|]. split.
    + intros k (p & -> & Hp)%list_elem_of_fmap (q & Hk & Hq)%list_elem_of_fmap. unfold ping_key in Hk.
      destruct (Hall q Hq) as (Ho & _ & Hno). injection Hk as Hko Hks. apply Hno. rewrite <-Hks. apply Gs; [done..|congruence].
    + apply (NoDup_fmap_1 snd). change (NoDup (map snd (map ping_key new))). by rewrite map_map.
  - intros x Hx. destruct (Gu x Hx) as (p & Hp & ?). exists p. split; [|done]. apply elem_of_app. by left.
  - done.
Qed.

(** An answered ping had not been used. *)
Lemma ping_reply_ok h c e d ping now h' c' ping' out : ping_reply h c e d ping now = (h', c', ping', out) ->
  fresh_id h' = fresh_id h /\ ping_id ping' = ping_id ping /\ ping_owner ping' = ping_owner ping
  /\ (ping_used ping = true -> ping_used ping' = true)
  /\ forall o, out = Ok o -> ping_used ping = false /\ ping_used ping' = true /\ ping_owner ping = Some (rd_identity d).
Proof.
  unfold ping_reply. pose proof (check_fresh h c e now) as Hf. destruct (check h c e now) as [[h1 c1] [[]|x]]; cbn in Hf.
  2: { intros [= <- <- <- <-]. by split_and!. }
  destruct (_ || ping_used ping) eqn:Hb; [intros [= <- <- <- <-]; by split_and!|]. bool_hyps.
  intros [= <- <- <- <-]. split_and!; [done..|]. intros o _. split_and!; [done..|].
  destruct (ping_owner ping) as [a|]; [|done]. bool_hyps. f_equal. by apply Nat.eqb_eq.
Qed.

Lemma pinged_answered f ds ps pongs n ping ping' : Pinged f ds ps pongs -> ps !! n = Some ping ->
  ping_id ping' = ping_id ping -> ping_owner ping' = ping_owner ping -> (ping_used ping = true -> ping_used ping' = true) ->
  Pinged f ds (<[ n := ping' ]> ps) pongs
  /\ (forall a, ping_used ping = false -> ping_used ping' = true -> ping_owner ping = Some a ->
       Pinged f ds (<[ n := ping' ]> ps) (pongs ++ [(a, ping_id ping)])).
Proof.
  intros [Gd Gi Go Gs Gk Gu Gn] Hn Hid Ho Hu. pose proof (lookup_lt_Some _ _ _ Hn) as Hlt.
  pose proof (list_elem_of_lookup_2 _ _ _ Hn) as Hin.
  assert (forall p, p ∈ <[ n := ping' ]> ps -> exists q, q ∈ ps /\ ping_owner p = ping_owner q /\ ping_id p = ping_id q) as Hold.
  { intros p [i Hp]%list_elem_of_lookup. destruct (decide (i = n)) as [->|Hne].
    - rewrite list_lookup_insert_eq in Hp by done. simplify_eq. by exists ping.
    - rewrite list_lookup_insert_ne in Hp by done. exists p. split; [by eapply list_elem_of_lookup_2|done]. }
  assert (forall x, (exists p, p ∈ ps /\ ping_used p = true /\ ping_owner p = Some x.1 /\ ping_id p = x.2) ->
            exists p, p ∈ <[ n := ping' ]> ps /\ ping_used p = true /\ ping_owner p = Some x.1 /\ ping_id p = x.2) as Hused.
  { intros x (p & [i Hp]%list_elem_of_lookup & Hpu & Hpo & Hpi). destruct (decide (i = n)) as [->|Hne].
    - simplify_eq. exists ping'. split; [eapply list_elem_of_lookup_2; by apply list_lookup_insert_eq|]. rewrite Ho, Hid. auto.
    - exists p. split; [|done]. eapply list_elem_of_lookup_2. by rewrite list_lookup_insert_ne by done. }
  assert (Pinged f ds (<[ n := ping' ]> ps) pongs) as Hp.
  { split; try done.
    - intros p Hp. destruct (Hold p Hp) as (q & Hq & -> & _). by apply Go.
    - intros d p Hd Hp. destruct (Hold p Hp) as (q & Hq & -> & ->). by apply Gs.
    - replace (map ping_key (<[ n := ping' ]> ps)) with (map ping_key ps); [done|]. symmetry.
      change (ping_key <$> <[ n := ping' ]> ps = ping_key <$> ps). rewrite list_fmap_insert.
      apply list_insert_id. rewrite list_lookup_fmap, Hn. cbn. unfold ping_key. by rewrite Ho, Hid.
    - intros x Hx. by apply Hused, Gu. }
  split; [done|]. intros a Hnot Hyes Hown. destruct Hp as [Gd' Gi' Go' Gs' Gk' Gu' Gn']. split; try done.
  - intros x [Hx| ->%list_elem_of_singleton]%elem_of_app; [by apply Gu'|]. exists ping'. cbn.
    split; [eapply list_elem_of_lookup_2; by apply list_lookup_insert_eq|]. by rewrite Ho, Hid.
  - apply NoDup_app. split; [done|]. split; [|apply NoDup_singleton]. intros x Hx ->%list_elem_of_singleton.
    destruct (Gu _ Hx) as (p & [i Hp]%list_elem_of_lookup & Hpu & Hpo & Hpi). cbn in *.
    assert (i = n) as ->; [|congruence]. apply (NoDup_lookup _ i n (ping_key ping) Gk); rewrite list_lookup_fmap, ?Hp, ?Hn; [|done].
    cbn. unfold ping_key. by rewrite Hpo, Hpi, Hown.
Qed.

(** ** The run *)

Definition pinged (w : World) : Prop := Pinged (fresh_id (w_heap w)) (w_decoders w) (w_pings w) (w_pongs w).

(** An operation that only makes identities fresher. *)
Lemma pinged_fresher w w' : pinged w -> (fresh_id (w_heap w) <= fresh_id (w_heap w'))%nat ->
  w_decoders w' = w_decoders w -> w_pings w' = w_pings w -> w_pongs w' = w_pongs w -> pinged w'.
Proof. unfold pinged. intros Hp Hf -> -> ->. by eapply pinged_less. Qed.

Lemma pinged_context w h c es exs : pinged w -> (fresh_id (w_heap w) <= fresh_id h)%nat ->
  pinged (w_with_exchanges (w_with w h c es) exs).
Proof. intros Hp Hf. by apply (pinged_fresher w). Qed.

Lemma pinged_push w j bytes : pinged w -> pinged (do_push w j bytes).
Proof.
  intros Hp. unfold do_push. destruct (w_decoders w !! j) as [d|] eqn:Hj; [|done].
  pose proof (rd_push_pushed (w_heap w) d bytes) as (Hi & Hs & Hn). pose proof (rd_push_spec (w_heap w) d bytes) as Hh.
  destruct (rd_push _ d bytes) as [[h d'] r]. cbn [fst snd] in *.
  assert (fresh_id h = fresh_id (w_heap w)) as Hf by (by destruct Hh as [_ [->| ->]]).
  unfold pinged. cbn. rewrite Hf. destruct r as [ps|x].
  - by apply (pinged_pushed _ _ _ _ j d d'); [..|by apply Hn].
  - rewrite <-(app_nil_r (w_pings w)). apply (pinged_pushed _ _ _ _ j d d'); try done. by split; constructor.
Qed.

Lemma pinged_ping w i j n now : pinged w -> pinged (do_ping w i j n now).
Proof.
  intros Hp. unfold do_ping. destruct (w_exchanges w !! i) as [e|]; [|done]. destruct (w_decoders w !! j) as [d|]; [|done].
  destruct (w_pings w !! n) as [ping|] eqn:Hn; [|done].
  destruct (ping_reply (w_heap w) (w_cx w) e d ping now) as [[[h c] ping'] out] eqn:Hr.
  apply ping_reply_ok in Hr as (Hf & Hid & Ho & Hu & Hok).
  destruct (pinged_answered _ _ _ _ _ _ _ Hp Hn Hid Ho Hu) as [Hsame Hnew]. unfold pinged.
  destruct out as [o|x]; cbn; rewrite Hf; [|done]. destruct (Hok o eq_refl) as (? & ? & ?). rewrite Hid. by apply Hnew.
Qed.

Lemma pinged_step w m : pinged w -> pinged (do_move_session w m).
Proof.
  intros Hp. destruct m; cbn [do_move_session]; [| | |by apply pinged_push| | | | | |by apply pinged_ping| | |].
  - unfold do_begin. destruct (request _ body) as [r|x]; [|done].
    pose proof (begin_fresh (w_heap w) (w_cx w) r operation now) as Hf.
    destruct (begin _ _ r operation now) as [[h c] [[e|]|x]]; by apply (pinged_fresher w).
  - destruct (w_exchanges w !! e) as [ex|]; [|done]. pose proof (outgoing_fresh (w_heap w) (w_cx w) ex now) as Hf.
    destruct (outgoing _ _ ex now) as [[h c] x]. cbn in Hf. apply (pinged_fresher w); try done. cbn. lia.
  - unfold do_start. destruct (w_exchanges w !! e) as [ex|]; [|done].
    pose proof (start_fresh (w_heap w) (w_cx w) ex status hs template now) as Hf.
    destruct (start_response _ _ ex status hs template now) as [[h c] [d|x]]; destruct Hf as [Hf Hd].
    + destruct (Hd d eq_refl) as [Hi Hlt]. by apply (pinged_started (fresh_id (w_heap w))).
    + by apply (pinged_fresher w).
  - unfold do_finish. destruct (w_decoders w !! d) as [dec|]; [|done].
    pose proof (rd_finish_spec (w_heap w) dec) as Hh. destruct (rd_finish _ dec) as [h r]. cbn in Hh.
    unfold pinged. cbn. eapply pinged_less; [exact Hp|by destruct Hh as [->| ->]|apply sublist_delete].
  - unfold do_complete. destruct (w_exchanges w !! e) as [ex|]; [|done]. destruct (w_completions w !! k) as [cm|]; [|done].
    pose proof (complete_fresh (w_heap w) (w_cx w) ex cm now) as Hf. destruct (complete _ _ ex cm now) as [[h c] r]. cbn in Hf.
    destruct r; apply (pinged_fresher w); try done; cbn; lia.
  - destruct (w_exchanges w !! e) as [ex|]; [|done]. pose proof (abandon_fresh (w_heap w) (w_cx w) ex) as Hf.
    destruct (abandon _ _ ex) as [h c]. cbn in Hf. apply (pinged_fresher w); try done. cbn. lia.
  - by apply (pinged_fresher w).
  - pose proof (close_fresh (w_heap w) (w_cx w) now) as Hf. destruct (close _ _ now) as [[h c] x]. cbn in Hf.
    apply (pinged_fresher w); try done. cbn. lia.
  - destruct (request _ body) as [r|x]; [|done]. pose proof (cancel_request_fresh (w_heap w) (w_cx w) r now) as Hf.
    destruct (cancel_request _ _ r now) as [[h c] x]. cbn in Hf. apply (pinged_fresher w); try done. cbn. lia.
  - pose proof (cancel_operation_fresh (w_heap w) (w_cx w) operation now) as Hf.
    destruct (cancel_operation _ _ operation now) as [[h c] x]. cbn in Hf. apply (pinged_fresher w); try done. cbn. lia.
  - unfold state_at. pose proof (expire_fresh (w_heap w) (w_cx w) now) as Hf. destruct (expire _ _ now) as [h c]. cbn in Hf.
    apply (pinged_fresher w); try done. cbn. lia.
Qed.

(** A server's ping is answered once. Whatever the owner of a session does with the
    pings it reads, each answer is to a ping of the response being read, and no two answers
    are to the same ping of the same response. *)
Lemma pings_answered_once h profile now expires w ms :
  opened h profile now expires = Some w -> let w' := run_session w ms in
  NoDup (w_pongs w')
  /\ forall owner id, (owner, id) ∈ w_pongs w' ->
       exists ping, ping ∈ w_pings w' /\ ping_owner ping = Some owner /\ ping_id ping = id.
Proof.
  intros Ho w'. assert (pinged w') as Hp.
  { assert (pinged w) as Hw.
    { unfold opened, Context_new in Ho. destruct (expires <=? now); [done|]. cbn in Ho. simplify_eq.
      split; cbn; [by constructor|by constructor| | |by constructor| |by constructor].
      - by intros p Hx%elem_of_nil.
      - by intros d p Hx%elem_of_nil.
      - by intros x Hx%elem_of_nil. }
    unfold w', run_session. clear Ho w'. revert w Hw. induction ms as [|m ms IH]; intros w Hw; [done|]. by apply IH, pinged_step. }
  split; [apply Hp|]. intros owner id Hx. destruct (pg_used _ _ _ _ Hp _ Hx) as (ping & Hin & _ & ? & ?). by exists ping.
Qed.
End Pings.
