(* ===== verification/Login.v ===== *)
(** * Login substitution ([aap-auth/src/login.rs])

    A login the agent wrote with placeholders, parsed strictly, virtualized for
    observation, and filled with the credential. The form serializer and the JSON
    pointers are third-party. *)
From S2P Require Import Prelude Protocol Ids Json Catalog Profile Secrets Redaction Injection Cookies Operation Endpoint McpWire.

(** [form_urlencoded::Serializer] on pairs, [serde_json::Value::pointer], and an
    assignment through [pointer_mut]. *)
Class Selectors := {
  form_serialize : list (string * string) -> list byte;
  pointer : Value -> string -> option Value;
  pointer_put : Value -> string -> Value -> option Value }.

(** Two places that writes to one leave alone at the other. *)
Definition apart `{Selectors} (p q : string) : Prop :=
  (forall v x w, pointer_put v p x = Some w -> pointer w q = pointer v q) /\
  (forall v x y, (pointer_put v p x ≫= fun v => pointer_put v q y) = (pointer_put v q y ≫= fun v => pointer_put v p x)).

(** A pointer names one place: what is put there is found there, the last value put there
    stays, a value put back changes nothing, and a text still found once a null has been
    put elsewhere is apart from that place. *)
Class SelectorLaws `{Selectors} : Prop := {
  put_defined v p x : is_Some (pointer v p) -> is_Some (pointer_put v p x);
  put_same v p x : pointer v p = Some x -> pointer_put v p x = Some v;
  put_twice v p x y w : pointer_put v p x = Some w -> pointer_put w p y = pointer_put v p y;
  put_apart v p q w s : pointer_put v p Null = Some w -> pointer w q = Some (Str s) -> apart p q }.

Definition MAX_LOGIN : Z := 256 * 1024.

(** ** Reserved text *)

(** [str::contains] *)
Definition contains_text (s sub : string) : bool :=
  existsb (fun n => starts_with (drop n (as_bytes s)) (as_bytes sub)) (seq 0 (S (String.length s))).
(** `aap-auth/src/login.rs:250-254`, `reserved` *)
Definition reserved (value : string) : bool :=
  existsb (contains_text value) ["aap_pw1_"; "aap_un1_"; "aap_cs1_"].
(** `aap-auth/src/login.rs:255-264`, `json_reserved` *)
Fixpoint json_reserved (value : Value) : bool :=
  match value with
  | Str s => reserved s
  | Array l => existsb json_reserved l
  | Object m => existsb (fun kv => reserved kv.1 || json_reserved kv.2) m
  | _ => false
  end.

(** ** Forms *)

(** `aap-auth/src/login.rs:287-307`, `decode_component` (the loop) *)
Fixpoint decode_octets (l : list byte) : option (list byte) :=
  match l with
  | [] => Some []
  | b :: rest =>
      if bool_decide (b = "+"%char) then cons " "%char <$> decode_octets rest
      else if bool_decide (b = "%"%char) then
        match rest with
        | h :: l :: rest =>
            high ← to_digit16 h; low ← to_digit16 l; cons (byte_of (high * 16 + low)) <$> decode_octets rest
        | _ => None
        end
      else cons b <$> decode_octets rest
  end.
(** `aap-auth/src/login.rs:284-309`, `decode_component` *)
Definition decode_component (input : list byte) : Result string :=
  output ← ok_or (decode_octets input) (Error_new RequestInvalid);
  if from_utf8 output then Ok (from_bytes output) else fail RequestInvalid.

(** `aap-auth/src/login.rs:268-281`, `parse_form` (the loop over the pairs) *)
Fixpoint parse_pairs (pairs : list (list byte)) (fields : list (string * string)) : Result (list (string * string)) :=
  match pairs with
  | [] => Ok fields
  | p :: rest =>
      if len fields =? 128 then fail LimitExceeded
      else
        '(name, value) ← ok_or (split_once "="%char p) (Error_new RequestInvalid);
        name ← decode_component name;
        if bool_decide (name = EmptyString) || (1024 <? slen name) || bool_decide (name ∈ fields.*1)
        then fail RequestInvalid
        else value ← decode_component value; parse_pairs rest (fields ++ [(name, value)])
  end.
(** `aap-auth/src/login.rs:265-283`, `parse_form` *)
Definition parse_form (body : list byte) : Result (list (string * string)) := parse_pairs (split "&"%char body) [].

(** ** Documents *)

(** `aap-auth/src/login.rs:171-175`, `Document` *)
Inductive Document := FormDoc (fields : list (string * string)) | JsonDoc (value : Value).

(** The value of the first field of a name, replaced. *)
Fixpoint field_get {A} (name : string) (fields : list (string * A)) : option A :=
  match fields with
  | [] => None
  | (n, v) :: rest => if bool_decide (n = name) then Some v else field_get name rest
  end.
Fixpoint field_put {A} (name : string) (value : A) (fields : list (string * A)) : list (string * A) :=
  match fields with
  | [] => []
  | (n, v) :: rest => if bool_decide (n = name) then (n, value) :: rest else (n, v) :: field_put name value rest
  end.

Section Login.
Context `{Base64} `{JsonText} `{Selectors} (json_string : list byte -> option (list byte)).

(** `aap-auth/src/login.rs:177-191`, `Document::encode` *)
Definition doc_encode (d : Document) : Result (list byte) :=
  let bytes := match d with FormDoc fields => form_serialize fields | JsonDoc value => json_text value end in
  if MAX_LOGIN <? len bytes then fail LimitExceeded else Ok bytes.

(** `aap-auth/src/login.rs:192-221`, `Document::take_expected` *)
Definition take_expected (d : Document) (selector expected : string) : Result Document :=
  if bool_decide (selector = EmptyString) then fail RequestInvalid
  else
    match d with
    | FormDoc fields =>
        value ← ok_or (field_get selector fields) (Error_new PlaceholderInvalid);
        if bool_decide (value = expected) then Ok (FormDoc (field_put selector EmptyString fields))
        else fail PlaceholderInvalid
    | JsonDoc document =>
        if negb (str_starts_with selector "/") then fail RequestInvalid
        else
          value ← ok_or (pointer document selector) (Error_new PlaceholderInvalid);
          if bool_decide (value = Str expected)
          then JsonDoc <$> ok_or (pointer_put document selector Null) (Error_new PlaceholderInvalid)
          else fail PlaceholderInvalid
    end.

(** `aap-auth/src/login.rs:222-238`, `Document::put` *)
Definition doc_put (d : Document) (selector value : string) : Result Document :=
  match d with
  | FormDoc fields =>
      if bool_decide (is_Some (field_get selector fields)) then Ok (FormDoc (field_put selector value fields))
      else fail InternalError
  | JsonDoc document => JsonDoc <$> ok_or (pointer_put document selector (Str value)) (Error_new InternalError)
  end.

(** `aap-auth/src/login.rs:239-246`, `Document::has_reserved_value` *)
Definition has_reserved_value (d : Document) : bool :=
  match d with
  | FormDoc fields => existsb (fun f => reserved f.1 || reserved f.2) fields
  | JsonDoc value => json_reserved value
  end.

(** ** Page tokens *)

(** `aap-auth/src/login.rs:47-74`, `CsrfToken::from_page`; [random] is a fresh identifier *)
Definition from_page (profile : CsrfProfile) (body : list byte) (random : option string) : Result (CsrfToken * list byte) :=
  if MAX_LOGIN <? len body then fail LimitExceeded
  else
    document ← ok_or (Json.decode json_parse Some body) (Error_new RequestInvalid);
    if negb (str_starts_with (response_pointer profile) "/") then fail RequestInvalid
    else
      target ← ok_or (pointer document (response_pointer profile)) (Error_new RequestInvalid);
      value ← ok_or (v ← value_str target; if negb (bool_decide (v = EmptyString)) && (slen v <=? 4096) then Some v else None)
                (Error_new RequestInvalid);
      random ← ok_or random (Error_new InternalError);
      let placeholder := ("aap_cs1_" ++ random)%string in
      document ← ok_or (pointer_put document (response_pointer profile) (Str placeholder)) (Error_new RequestInvalid);
      let body := json_text document in
      if MAX_LOGIN <? len body then fail LimitExceeded else Ok (mkCsrf placeholder value, body).

(** `aap-auth/src/login.rs:78-80`, `CsrfToken::redactor` *)
Definition csrf_redactor (t : CsrfToken) : Result Redactor := Redactor_new json_string [as_bytes (csrf_value t)].

(** ** Logins *)

(** `aap-auth/src/login.rs:85-90`, `ValidatedLogin` *)
Record ValidatedLogin := mkLoginBody {
  vl_document : Document; vl_username : string; vl_password : string; vl_csrf : option (string * string) }.

(** `aap-auth/src/login.rs:118-126`, `ValidatedLogin::parse` (the document) *)
Definition parse_document (e : LoginEncoding) (content_type : string) (body : list byte) : Result Document :=
  match e with
  | Form_ => if bool_decide (content_type = "application/x-www-form-urlencoded") then FormDoc <$> parse_form body
             else fail AuthProfileUnsupported
  | Json_ => if bool_decide (content_type = "application/json")
             then JsonDoc <$> ok_or (Json.decode json_parse Some body) (Error_new RequestInvalid)
             else fail AuthProfileUnsupported
  end.

(** `aap-auth/src/login.rs:105-146`, `ValidatedLogin::parse` *)
Definition login_parse (profile : LoginProfile) (content_type : string) (body : list byte) (values : Placeholders)
    (token : option CsrfToken) : Result ValidatedLogin :=
  if MAX_LOGIN <? len body then fail LimitExceeded
  else if username_visible profile then fail AuthProfileUnsupported
  else
    document ← parse_document (encoding profile) content_type body;
    document ← take_expected document (field_username (fields profile)) (ph_username values);
    document ← take_expected document (field_password (fields profile)) (ph_password values);
    '(document, taken) ←
      match csrf profile, token with
      | Some p, Some t =>
          document ← take_expected document (submit_field p) (csrf_placeholder t);
          Ok (document, Some (submit_field p, csrf_value t))
      | None, None => Ok (document, None)
      | _, _ => fail PlaceholderInvalid
      end;
    if has_reserved_value document then fail PlaceholderInvalid
    else Ok (mkLoginBody document (field_username (fields profile)) (field_password (fields profile)) taken).

(** `aap-auth/src/login.rs:94-102`, `ValidatedLogin::observation` *)
Definition login_observation (l : ValidatedLogin) : Result (list byte) :=
  document ← doc_put (vl_document l) (vl_username l) "[redacted]";
  document ← doc_put document (vl_password l) "[redacted]";
  document ← match vl_csrf l with Some (selector, _) => doc_put document selector "[redacted]" | None => Ok document end;
  doc_encode document.

(** `aap-auth/src/login.rs:150-168`, `ValidatedLogin::substitute`; the login is consumed *)
Definition login_substitute (l : ValidatedLogin) (s : Snapshot) : Result (list byte * Redactor) :=
  match snapshot_field s Username, snapshot_field s Password with
  | Err e, _ | Ok _, Err e => Err (store_error e)
  | Ok username, Ok password =>
      let secrets := [username; password] ++ match vl_csrf l with Some (_, value) => [as_bytes value] | None => [] end in
      redactor ← Redactor_new json_string secrets;
      if negb (from_utf8 username) || negb (from_utf8 password) then fail AuthProfileUnsupported
      else
        document ← doc_put (vl_document l) (vl_username l) (from_bytes username);
        document ← doc_put document (vl_password l) (from_bytes password);
        document ← match vl_csrf l with Some (selector, value) => doc_put document selector value | None => Ok document end;
        bytes ← doc_encode document;
        Ok (bytes, redactor)
  end.
End Login.
