(* ===== verification/LoginFacts.v ===== *)
(** * What a parsed login fixes

    A document with places taken out of it and put back: the facts behind the claim that
    the observation and the wire body of a login are the agent's own document with the
    declared places rewritten. The strict form parser reads back what the standard
    serializer writes, and keeps the shape the serializer needs; a form login sent
    upstream is therefore the agent's fields with the three values replaced. *)
From Stdlib Require Import Sorting.Sorted.
From S2P Require Import Prelude Protocol Ids Json Catalog Profile Secrets Redaction Injection Cookies Operation Endpoint McpWire Login.

(** ** Places of a document *)

Section Places.
Context {D V : Type} (get : D -> string -> option V) (put : D -> string -> V -> option D) (hole : V).
Context (good : V -> Prop) (apart : string -> string -> Prop).
Context (put_some : forall d s x, is_Some (get d s) -> is_Some (put d s x)).
Context (put_id : forall d s x, get d s = Some x -> put d s x = Some d).
Context (put_again : forall d s x y d', put d s x = Some d' -> put d' s y = put d s y).
Context (found_apart : forall d p q d' x, put d p hole = Some d' -> get d' q = Some x -> good x -> apart p q).
Context (frame : forall p q d x d', apart p q -> put d p x = Some d' -> get d' q = get d q).
Context (comm : forall p q d x y, apart p q ->
  (put d p x ≫= fun d => put d q y) = (put d q y ≫= fun d => put d p x)).

Fixpoint fill (d : D) (ws : list (string * V)) : option D :=
  match ws with [] => Some d | (s, x) :: ws => d ← put d s x; fill d ws end.
(** Each value found at its place when the earlier places are already emptied. *)
Fixpoint taken (d : D) (ws : list (string * V)) (d' : D) : Prop :=
  match ws with
  | [] => d' = d
  | (s, x) :: ws => get d s = Some x /\ exists d1, put d s hole = Some d1 /\ taken d1 ws d'
  end.
Definition emptied (ws : list (string * V)) : list (string * V) := map (fun w => (w.1, hole)) ws.
Definition spread (ws : list (string * V)) : Prop := StronglySorted (fun a b => apart a.1 b.1) ws.

Lemma taken_facts ws d d' : taken d ws d' -> Forall (fun w => good w.2) ws ->
  spread ws /\ Forall (fun w => get d w.1 = Some w.2) ws /\ fill d (emptied ws) = Some d'.
Proof.
  revert d. induction ws as [|[s x] ws IH]; intros d; cbn.
  - intros -> _. repeat split; constructor.
  - intros (Hx & d1 & Hput & Ht) [Hg Hgs]%Forall_cons. destruct (IH d1 Ht Hgs) as (Hs & Hall & Hf).
    assert (Hap : Forall (fun b => apart s b.1) ws).
    { rewrite Forall_forall in Hall |- *. rewrite Forall_forall in Hgs. intros w Hw.
      exact (found_apart _ _ _ _ _ Hput (Hall _ Hw) (Hgs _ Hw)). }
    repeat split.
    + by constructor.
    + constructor; [done|]. rewrite Forall_forall in Hall, Hap |- *. intros w Hw.
      by rewrite <- (frame _ _ _ _ _ (Hap _ Hw) Hput); apply Hall.
    + by rewrite Hput.
Qed.

Lemma fill_same ws d : Forall (fun w => get d w.1 = Some w.2) ws -> fill d ws = Some d.
Proof.
  induction ws as [|[s x] ws IH]; cbn; [done|]. intros [Hx Hws]%Forall_cons. cbn in Hx.
  rewrite (put_id _ _ _ Hx). cbn. by apply IH.
Qed.

Lemma fill_defined ws d : spread ws -> Forall (fun w => is_Some (get d w.1)) ws -> is_Some (fill d ws).
Proof.
  revert d. induction ws as [|[s x] ws IH]; intros d; cbn; [by eexists|].
  intros [Hs Hap]%StronglySorted_inv [Hx Hws]%Forall_cons.
  destruct (put_some d s x Hx) as [d1 Hput]. rewrite Hput. cbn. apply IH; [done|].
  rewrite Forall_forall in Hap, Hws |- *. intros w Hw.
  rewrite (frame _ _ _ _ _ (Hap _ Hw) Hput). by apply Hws.
Qed.

Lemma fill_put ws d s x : Forall (fun b => apart s b.1) ws ->
  (put d s x ≫= fun d => fill d ws) = (fill d ws ≫= fun d => put d s x).
Proof.
  revert d. induction ws as [|[q y] ws IH]; intros d; cbn.
  - intros _. by destruct (put d s x).
  - intros [Hq Hws]%Forall_cons. specialize (comm s q d x y Hq).
    destruct (put d s x) as [d1|] eqn:E1, (put d q y) as [d2|] eqn:E2; cbn in *.
    + rewrite comm. by apply IH.
    + by rewrite comm.
    + rewrite <- IH by done. by rewrite <- comm.
    + done.
Qed.

Lemma spread_selectors ws xs : map fst xs = map fst ws -> spread ws -> spread xs.
Proof.
  revert xs. induction ws as [|[s x] ws IH]; intros [|[q y] xs]; cbn; try done.
  intros [= -> Hrest] [Hs Hap]%StronglySorted_inv. apply SSorted_cons; [by apply IH|].
  rewrite Forall_forall in Hap |- *. intros [q z] Hin.
  apply (list_elem_of_fmap_2 fst) in Hin. change (fst <$> xs) with (map fst xs) in Hin. rewrite Hrest in Hin.
  apply list_elem_of_fmap in Hin as ([q' z'] & -> & Hin). exact (Hap _ Hin).
Qed.

Lemma refill ws xs d d' : spread ws -> map fst xs = map fst ws -> Forall (fun w => is_Some (get d w.1)) ws ->
  fill d ws = Some d' -> fill d' xs = fill d xs.
Proof.
  revert xs d d'. induction ws as [|[s x] ws IH]; intros [|[q y] xs] d d'; cbn; try done;
    try by intros _ ? _ [= ->].
  intros [Hs Hap]%StronglySorted_inv [= -> Hsel] [Hx Hws]%Forall_cons.
  destruct (put d s x) as [d1|] eqn:E1; cbn; [|done]. intros Hf.
  pose proof (fill_put ws d1 s y Hap) as Hc. rewrite Hf in Hc. cbn in Hc.
  rewrite (put_again _ _ _ y _ E1) in Hc.
  destruct (put_some d s y Hx) as [e He]. rewrite He in Hc |- *. cbn in Hc |- *.
  assert (Hes : Forall (fun w => is_Some (get e w.1)) ws).
  { rewrite Forall_forall in Hap, Hws |- *. intros w Hw. rewrite (frame _ _ _ _ _ (Hap _ Hw) He). by apply Hws. }
  destruct (fill_defined ws e Hs Hes) as [e' He']. rewrite <- Hc, He'. cbn.
  by apply (IH xs e e').
Qed.

(** Emptying places and filling them is writing them in the original. *)
Lemma taken_refill ws xs d d' : taken d ws d' -> Forall (fun w => good w.2) ws -> map fst xs = map fst ws ->
  fill d ws = Some d /\ is_Some (fill d xs) /\ fill d' xs = fill d xs.
Proof.
  intros Ht Hg Hsel. destruct (taken_facts ws d d' Ht Hg) as (Hs & Hall & Hf).
  assert (Hsome : Forall (fun w => is_Some (get d w.1)) ws).
  { eapply Forall_impl; [exact Hall|]. cbn. intros w ->. by eexists. }
  assert (Hhole : map fst (emptied ws) = map fst ws) by (unfold emptied; rewrite map_map; done).
  repeat split.
  - by apply fill_same.
  - apply fill_defined; [by eapply spread_selectors|].
    clear -Hsel Hsome. revert ws Hsel Hsome. induction xs as [|[q y] xs IH]; intros [|[s x] ws]; cbn; try done.
    intros [= -> Hsel] [Hx Hws]%Forall_cons. constructor; [done|]. by eapply IH.
  - apply (refill (emptied ws)); [by eapply spread_selectors|by rewrite Hhole| |done].
    unfold emptied. apply Forall_map. exact Hsome.
Qed.
End Places.

(** ** Fields of a form *)

Definition form_put (fields : list (string * string)) (name value : string) : option (list (string * string)) :=
  if bool_decide (is_Some (field_get name fields)) then Some (field_put name value fields) else None.

Section Members.
Context {A : Type}.
Implicit Types (fields : list (string * A)) (p q : string) (x y : A).

Lemma field_get_put p q x fields :
  field_get q (field_put p x fields) =
    if bool_decide (p = q) then (fun _ => x) <$> field_get q fields else field_get q fields.
Proof.
  induction fields as [|[n v] fields IH]; cbn; [by case_bool_decide|].
  destruct (bool_decide_reflect (n = p)) as [->|Hp]; cbn.
  - destruct (bool_decide_reflect (p = q)); done.
  - rewrite IH. destruct (bool_decide_reflect (p = q)) as [->|Hq]; [|done].
    rewrite (bool_decide_false (n = q)) by done. done.
Qed.
Lemma field_put_id p x fields : field_get p fields = Some x -> field_put p x fields = fields.
Proof.
  induction fields as [|[n v] fields IH]; cbn; [done|].
  destruct (bool_decide_reflect (n = p)); [by intros [= ->]|]. intros. by rewrite IH.
Qed.
Lemma field_put_again p x y fields : field_put p y (field_put p x fields) = field_put p y fields.
Proof.
  induction fields as [|[n v] fields IH]; cbn; [done|].
  destruct (bool_decide_reflect (n = p)) as [->|Hp]; cbn.
  - by rewrite bool_decide_true.
  - rewrite bool_decide_false by done. by rewrite IH.
Qed.
Lemma field_put_comm p q x y fields : p <> q ->
  field_put q y (field_put p x fields) = field_put p x (field_put q y fields).
Proof.
  intros Hne. induction fields as [|[n v] fields IH]; cbn; [done|].
  destruct (bool_decide_reflect (n = p)) as [->|Hp]; cbn.
  - rewrite (bool_decide_false (p = q)) by done. cbn. by rewrite bool_decide_true.
  - destruct (bool_decide_reflect (n = q)) as [->|Hq]; cbn.
    + by rewrite bool_decide_false.
    + rewrite (bool_decide_false (n = p)) by done. by rewrite IH.
Qed.
Lemma field_put_names p x fields : (field_put p x fields).*1 = fields.*1.
Proof.
  induction fields as [|[n v] fields IH]; cbn; [done|]. destruct (bool_decide (n = p)); cbn; [done|]. by f_equal.
Qed.

End Members.

Section Fields.
Implicit Types (fields : list (string * string)) (p q x y : string).

Lemma form_put_Some fields p x fields' : form_put fields p x = Some fields' <->
  is_Some (field_get p fields) /\ fields' = field_put p x fields.
Proof. unfold form_put. case_bool_decide; naive_solver. Qed.
Lemma form_put_frame p q fields x fields' : p <> q -> form_put fields p x = Some fields' ->
  field_get q fields' = field_get q fields.
Proof. intros Hne [_ ->]%form_put_Some. rewrite field_get_put. by rewrite bool_decide_false. Qed.
Lemma form_put_comm p q fields x y : p <> q ->
  (form_put fields p x ≫= fun d => form_put d q y) = (form_put fields q y ≫= fun d => form_put d p x).
Proof.
  intros Hne. unfold form_put.
  destruct (bool_decide_reflect (is_Some (field_get p fields))) as [Hp|Hp],
    (bool_decide_reflect (is_Some (field_get q fields))) as [Hq|Hq]; cbn; rewrite ?field_get_put;
    rewrite ?(bool_decide_false (p = q)), ?(bool_decide_false (q = p)) by done;
    rewrite ?(bool_decide_true _ Hp), ?(bool_decide_true _ Hq), ?(bool_decide_false _ Hp), ?(bool_decide_false _ Hq); try done.
  by rewrite field_put_comm.
Qed.
Lemma form_put_again fields p x y fields' : form_put fields p x = Some fields' -> form_put fields' p y = form_put fields p y.
Proof.
  intros [Hs ->]%form_put_Some. unfold form_put. rewrite field_get_put, field_put_again.
  rewrite (bool_decide_true (p = p)) by done. rewrite !bool_decide_true; [done..|].
  destruct Hs as [? ->]. by eexists.
Qed.
Lemma form_put_apart fields p q fields' x : form_put fields p EmptyString = Some fields' ->
  field_get q fields' = Some x -> x <> EmptyString -> p <> q.
Proof.
  intros [_ ->]%form_put_Some Hq Hx ->. rewrite field_get_put, bool_decide_true in Hq by done.
  destruct (field_get q fields); cbn in Hq; naive_solver.
Qed.

Definition form_taken := taken (fun d s => field_get s d) form_put EmptyString.
Lemma form_refill ws xs d d' : form_taken d ws d' -> Forall (fun w => w.2 <> EmptyString) ws -> map fst xs = map fst ws ->
  fill form_put d ws = Some d /\ is_Some (fill form_put d xs) /\ fill form_put d' xs = fill form_put d xs.
Proof.
  apply (taken_refill (fun d s => field_get s d) form_put EmptyString (fun x => x <> EmptyString) (fun p q => p <> q)).
  - intros ds s x Hs. unfold form_put. rewrite bool_decide_true by done. by eexists.
  - intros ds s x Hs. apply form_put_Some. split; [by eexists|]. by rewrite field_put_id.
  - intros ds s x y ds'. apply form_put_again.
  - intros ds p q ds' x. apply form_put_apart.
  - intros p q ds x ds'. apply form_put_frame.
  - intros p q ds x y. apply form_put_comm.
Qed.
End Fields.

(** ** Documents *)

Section Documents.
Context `{Base64} `{JsonText} `{SelectorLaws} (json_string : list byte -> option (list byte)).

Fixpoint doc_fill (d : Document) (ws : list (string * string)) : Result Document :=
  match ws with [] => Ok d | (s, x) :: ws => d ← doc_put d s x; doc_fill d ws end.
Fixpoint doc_takes (d : Document) (ws : list (string * string)) : Result Document :=
  match ws with [] => Ok d | (s, x) :: ws => d ← take_expected d s x; doc_takes d ws end.

Definition texts (ws : list (string * string)) : list (string * Value) := map (fun w => (w.1, Str w.2)) ws.

Lemma doc_fill_form ws fields :
  doc_fill (FormDoc fields) ws = FormDoc <$> ok_or (fill form_put fields ws) (Error_new InternalError).
Proof.
  revert fields. induction ws as [|[s x] ws IH]; intros fields; cbn -[form_put]; [done|].
  destruct (form_put fields s x) as [fields'|] eqn:Hput; cbn -[form_put].
  - apply form_put_Some in Hput as [Hs ->]. rewrite bool_decide_true by done. apply IH.
  - unfold form_put in Hput. by destruct (bool_decide (is_Some (field_get s fields))).
Qed.
Lemma doc_fill_json ws v :
  doc_fill (JsonDoc v) ws = JsonDoc <$> ok_or (fill pointer_put v (texts ws)) (Error_new InternalError).
Proof.
  revert v. induction ws as [|[s x] ws IH]; intros v; cbn; [done|].
  destruct (pointer_put v s (Str x)); cbn; [apply IH|done].
Qed.

Lemma doc_takes_form ws fields d' : doc_takes (FormDoc fields) ws = Ok d' ->
  exists fields', d' = FormDoc fields' /\ form_taken fields ws fields'.
Proof.
  revert fields. induction ws as [|[s x] ws IH]; intros fields; cbn -[form_put]; [intros [= <-]; by eexists|].
  unfold take_expected at 1. destruct (bool_decide (s = EmptyString)); cbn -[form_put]; [done|].
  destruct (field_get s fields) as [v|] eqn:Hv; cbn -[form_put]; [|done].
  destruct (bool_decide_reflect (v = x)) as [->|]; cbn -[form_put]; [|done].
  intros (fields' & -> & Ht)%IH. exists fields'. split; [done|]. split; [done|].
  exists (field_put s EmptyString fields). split; [|done]. apply form_put_Some. split; [by eexists|done].
Qed.
Lemma doc_takes_json ws v d' : doc_takes (JsonDoc v) ws = Ok d' ->
  exists v', d' = JsonDoc v' /\ taken pointer pointer_put Null v (texts ws) v'.
Proof.
  revert v. induction ws as [|[s x] ws IH]; intros v; cbn; [intros [= <-]; by eexists|].
  unfold take_expected at 1. destruct (bool_decide (s = EmptyString)); cbn -[str_starts_with]; [done|].
  destruct (negb (str_starts_with s "/")); cbn; [done|].
  destruct (pointer v s) as [w|] eqn:Hw; cbn; [|done].
  destruct (bool_decide_reflect (w = Str x)) as [->|]; cbn; [|done].
  destruct (pointer_put v s Null) as [v1|] eqn:Hput; cbn; [|done].
  intros (v' & -> & Ht)%IH. exists v'. split; [done|]. split; [done|]. by exists v1.
Qed.

Lemma json_refill ws xs v v' : taken pointer pointer_put Null v ws v' ->
  Forall (fun w => exists s, w.2 = Str s) ws -> map fst xs = map fst ws ->
  fill pointer_put v ws = Some v /\ is_Some (fill pointer_put v xs) /\ fill pointer_put v' xs = fill pointer_put v xs.
Proof.
  apply (taken_refill pointer pointer_put Null (fun x => exists s, x = Str s) apart).
  - intros d s x. apply put_defined.
  - intros d s x. apply put_same.
  - intros d s x y d'. by apply put_twice.
  - intros d p q d' x Hput Hg [s ->]. by eapply put_apart.
  - intros p q d x d' [Hf _]. apply Hf.
  - intros p q d x y [_ Hc]. apply Hc.
Qed.

(** What was taken out of a document can be put back, and whatever is put in its places
    is what would be written into the original. *)
Lemma takes_refill ws xs d d' : doc_takes d ws = Ok d' -> Forall (fun w => w.2 <> EmptyString) ws ->
  map fst xs = map fst ws ->
  doc_fill d ws = Ok d /\ exists e, doc_fill d xs = Ok e /\ doc_fill d' xs = Ok e.
Proof.
  intros Ht Hg Hsel. destruct d as [fields|v].
  - destruct (doc_takes_form _ _ _ Ht) as (fields' & -> & Hf).
    destruct (form_refill ws xs _ _ Hf Hg Hsel) as (Hsame & [e He] & Heq).
    rewrite !doc_fill_form, Heq, Hsame, He. cbn. split; [done|]. by eexists.
  - destruct (doc_takes_json _ _ _ Ht) as (v' & -> & Hf).
    assert (Hg' : Forall (fun w => exists s, w.2 = Str s) (texts ws)).
    { unfold texts. apply Forall_map, Forall_forall. intros w _. by eexists. }
    assert (Hsel' : map fst (texts xs) = map fst (texts ws)) by (unfold texts; rewrite !map_map; exact Hsel).
    destruct (json_refill (texts ws) (texts xs) _ _ Hf Hg' Hsel') as (Hsame & [e He] & Heq).
    rewrite !doc_fill_json, Heq, Hsame, He. cbn. split; [done|]. by eexists.
Qed.

(** ** Logins *)

(** What a login writes in its three places. *)
Definition written (l : ValidatedLogin) (username password token : string) : list (string * string) :=
  (vl_username l, username) :: (vl_password l, password)
  :: match vl_csrf l with Some (selector, _) => [(selector, token)] | None => [] end.

Definition token_text (token : option CsrfToken) : string := from_option csrf_placeholder EmptyString token.
Definition token_value (l : ValidatedLogin) : string := from_option snd EmptyString (vl_csrf l).

Lemma login_parse_takes profile content_type body values token l :
  login_parse profile content_type body values token = Ok l ->
  exists d, parse_document (encoding profile) content_type body = Ok d /\
    doc_takes d (written l (ph_username values) (ph_password values) (token_text token)) = Ok (vl_document l) /\
    has_reserved_value (vl_document l) = false /\
    vl_csrf l = (t ← token; p ← csrf profile; Some (submit_field p, csrf_value t)) /\
    vl_username l = field_username (fields profile) /\ vl_password l = field_password (fields profile) /\
    (is_Some token <-> is_Some (csrf profile)).
Proof.
  unfold login_parse. destruct (MAX_LOGIN <? len body); [done|]. destruct (username_visible profile); [done|].
  destruct (parse_document _ _ _) as [d|]; cbn -[take_expected]; [|done].
  destruct (take_expected d _ _) as [d1|] eqn:E1; cbn -[take_expected]; [|done].
  destruct (take_expected d1 _ _) as [d2|] eqn:E2; cbn -[take_expected]; [|done].
  destruct (csrf profile) as [p|], token as [t|]; cbn -[take_expected]; try done.
  - destruct (take_expected d2 _ _) as [d3|] eqn:E3; cbn -[take_expected]; [|done].
    destruct (has_reserved_value d3) eqn:Hr; [done|]. intros [= <-]. exists d. unfold written.
    cbn -[take_expected]. rewrite E1. cbn -[take_expected]. rewrite E2. cbn -[take_expected]. rewrite E3.
    repeat split; first [done | by eexists].
  - destruct (has_reserved_value d2) eqn:Hr; [done|]. intros [= <-]. exists d. unfold written.
    cbn -[take_expected]. rewrite E1. cbn -[take_expected]. rewrite E2.
    repeat split; first [done | by intros []].
Qed.

(** What a profile has written in the places it declares. *)
Definition declared (profile : LoginProfile) (username password token : string) : list (string * string) :=
  (field_username (fields profile), username) :: (field_password (fields profile), password)
  :: match csrf profile with Some p => [(submit_field p, token)] | None => [] end.
(** The token the page gave. *)
Definition page_token (token : option CsrfToken) : string := from_option csrf_value EmptyString token.

(** The places of a parsed login are the declared ones, its token is the page's, and there
    is one exactly when the profile declares one. *)
Lemma login_declared profile content_type body values token l :
  login_parse profile content_type body values token = Ok l ->
  (forall u p c, written l u p c = declared profile u p c) /\ token_value l = page_token token
  /\ (is_Some token <-> is_Some (csrf profile))
  /\ option_map snd (vl_csrf l) = option_map csrf_value token.
Proof.
  intros Hl. destruct (login_parse_takes _ _ _ _ _ _ Hl) as (d & _ & _ & _ & Hc & Hu & Hp & Hiff).
  unfold written, declared, token_value, page_token. rewrite Hc, Hu, Hp.
  destruct token as [t|], (csrf profile) as [p|]; try done.
  - by destruct (proj1 Hiff (mk_is_Some _ _ eq_refl)).
  - by destruct (proj2 Hiff (mk_is_Some _ _ eq_refl)).
Qed.

Lemma observation_fill l : login_observation l =
  (doc_fill (vl_document l) (written l "[redacted]" "[redacted]" "[redacted]") ≫= doc_encode).
Proof.
  unfold login_observation, written. cbn. destruct (doc_put _ _ _) as [d|]; cbn; [|done].
  destruct (doc_put _ _ _) as [d1|]; cbn; [|done]. destruct (vl_csrf l) as [[s v]|]; cbn; [|done].
  by destruct (doc_put d1 s _).
Qed.

Lemma substitute_fill l s bytes r : login_substitute json_string l s = Ok (bytes, r) ->
  exists u p, snapshot_field s Username = Ok u /\ snapshot_field s Password = Ok p /\
    from_utf8 u = true /\ from_utf8 p = true /\
    (doc_fill (vl_document l) (written l (from_bytes u) (from_bytes p) (token_value l)) ≫= doc_encode) = Ok bytes /\
    Redactor_new json_string ([u; p] ++ match vl_csrf l with Some (_, v) => [as_bytes v] | None => [] end) = Ok r.
Proof.
  unfold login_substitute. destruct (snapshot_field s Username) as [u|]; [|done].
  destruct (snapshot_field s Password) as [p|]; [|done].
  destruct (Redactor_new _ _) as [r'|] eqn:Hr; cbn; [|done].
  destruct (from_utf8 u) eqn:Hu; cbn; [|done]. destruct (from_utf8 p) eqn:Hp; cbn; [|done].
  intros Hs. exists u, p.
  assert (Hb : (doc_fill (vl_document l) (written l (from_bytes u) (from_bytes p) (token_value l)) ≫= doc_encode) = Ok bytes /\ r' = r).
  { clear Hr. unfold written, token_value. revert Hs.
    cbn. destruct (doc_put (vl_document l) _ _) as [d|]; cbn; [|done]. destruct (doc_put d _ _) as [d1|]; cbn; [|done].
    destruct (vl_csrf l) as [[sel v]|]; cbn; [destruct (doc_put d1 sel _) as [d2|]; cbn; [|done]|];
      destruct (doc_encode _) as [b|]; cbn; try done; by intros [= <- <-]. }
  destruct Hb as [Hb <-]. repeat split; first [done | exact Hb | exact Hr].
Qed.

Lemma substitute_filled l s u p r e : snapshot_field s Username = Ok u -> snapshot_field s Password = Ok p ->
  from_utf8 u = true -> from_utf8 p = true ->
  Redactor_new json_string ([u; p] ++ match vl_csrf l with Some (_, v) => [as_bytes v] | None => [] end) = Ok r ->
  doc_fill (vl_document l) (written l (from_bytes u) (from_bytes p) (token_value l)) = Ok e ->
  login_substitute json_string l s = (fun bytes => (bytes, r)) <$> doc_encode e.
Proof.
  intros Hu Hp Hvu Hvp Hr He. unfold login_substitute. rewrite Hu, Hp, Hr. cbn. rewrite Hvu, Hvp. cbn. clear Hr.
  unfold written, token_value in He. cbn in He. revert He.
  destruct (doc_put (vl_document l) _ _) as [d|]; cbn; [|done]. destruct (doc_put d _ _) as [d1|]; cbn; [|done].
  destruct (vl_csrf l) as [[sel v]|]; cbn; [destruct (doc_put d1 sel _) as [d2|]; cbn; [|done]|];
    intros [= <-]; by destruct (doc_encode _).
Qed.
End Documents.



(** ** The standard serialization *)

(** [application/x-www-form-urlencoded] text as [form_urlencoded::Serializer] documents it *)
Definition url_octet (b : byte) : list byte :=
  if is_ascii_alphanumeric b || bool_decide (b ∈ as_bytes "*-._") then [b]
  else if bool_decide (b = " "%char) then ["+"%char] else percent_octet true b.
Definition url_text (s : string) : list byte := flat_map url_octet (as_bytes s).
Definition pair_text (f : string * string) : list byte := url_text f.1 ++ "="%char :: url_text f.2.
Fixpoint form_text (fields : list (string * string)) : list byte :=
  match fields with
  | [] => []
  | [f] => pair_text f
  | f :: fields => pair_text f ++ "&"%char :: form_text fields
  end.

Definition wf_value (s : string) : Prop := from_utf8 (as_bytes s) = true.
Definition wf_field (f : string * string) : Prop :=
  f.1 <> EmptyString /\ slen f.1 <= 1024 /\ wf_value f.1 /\ wf_value f.2.
(** The forms the parser accepts. *)
Definition wf_form (fields : list (string * string)) : Prop :=
  fields <> [] /\ len fields <= 128 /\ NoDup fields.*1 /\ Forall wf_field fields.

Lemma url_octet_decodes b rest : decode_octets (url_octet b ++ rest) = cons b <$> decode_octets rest.
Proof. destruct b as [[] [] [] [] [] [] [] []]; reflexivity. Qed.
Lemma url_octet_plain b : Forall (fun c => c <> "&"%char /\ c <> "="%char) (url_octet b).
Proof. destruct b as [[] [] [] [] [] [] [] []]; repeat constructor; discriminate. Qed.

Lemma url_text_decodes s : wf_value s -> decode_component (url_text s) = Ok s.
Proof.
  intros Hs. unfold decode_component, url_text.
  assert (Hd : forall l, decode_octets (flat_map url_octet l) = Some l).
  { induction l as [|b l IH]; cbn [flat_map]; [done|]. by rewrite url_octet_decodes, IH. }
  rewrite Hd. cbn. unfold wf_value in Hs. rewrite Hs. by rewrite from_as_bytes.
Qed.
Lemma url_text_plain s : Forall (fun c => c <> "&"%char /\ c <> "="%char) (url_text s).
Proof.
  unfold url_text. induction (as_bytes s) as [|b l IH]; cbn [flat_map]; [constructor|].
  apply Forall_app. split; [apply url_octet_plain|exact IH].
Qed.

(** ** Splitting *)

Lemma split_once_at c l rest : Forall (fun b => b <> c) l -> split_once c (l ++ c :: rest) = Some (l, rest).
Proof.
  induction l as [|b l IH]; cbn; [by rewrite bool_decide_true|].
  intros [Hb Hl]%Forall_cons. rewrite bool_decide_false by done. by rewrite IH.
Qed.
Lemma split_at c l rest : Forall (fun b => b <> c) l -> split c (l ++ c :: rest) = l :: split c rest.
Proof.
  induction l as [|b l IH]; cbn; [by rewrite bool_decide_true|].
  intros [Hb Hl]%Forall_cons. rewrite bool_decide_false by done. by rewrite IH.
Qed.
Lemma split_none c l : Forall (fun b => b <> c) l -> split c l = [l].
Proof.
  induction l as [|b l IH]; cbn; [done|].
  intros [Hb Hl]%Forall_cons. rewrite bool_decide_false by done. by rewrite IH.
Qed.

Lemma pair_text_plain f : Forall (fun b => b <> "&"%char) (pair_text f).
Proof.
  unfold pair_text. apply Forall_app. split; [|constructor; [discriminate|]];
    (eapply Forall_impl; [apply url_text_plain|naive_solver]).
Qed.
Lemma pair_text_splits f : split_once "="%char (pair_text f) = Some (url_text f.1, url_text f.2).
Proof. apply split_once_at. eapply Forall_impl; [apply url_text_plain|naive_solver]. Qed.
Lemma form_text_splits fields : fields <> [] -> split "&"%char (form_text fields) = map pair_text fields.
Proof.
  induction fields as [|f fields IH]; [done|]. intros _.
  destruct fields as [|g fields]; [by apply split_none, pair_text_plain|].
  change (form_text (f :: g :: fields)) with (pair_text f ++ "&"%char :: form_text (g :: fields)).
  rewrite split_at by apply pair_text_plain. by rewrite IH.
Qed.

(** ** The parser *)

Lemma parse_pairs_reads rest fields : len fields + len rest <= 128 -> NoDup (fields ++ rest).*1 ->
  Forall wf_field rest -> parse_pairs (map pair_text rest) fields = Ok (fields ++ rest).
Proof.
  revert fields. induction rest as [|[n v] rest IH]; intros fields Hlen Hnd Hwf; cbn [map parse_pairs].
  - by rewrite app_nil_r.
  - apply Forall_cons in Hwf as ((Hne & Hln & Hn & Hv) & Hwf). cbn in Hne, Hln, Hn, Hv.
    rewrite (proj2 (Z.eqb_neq _ _)) by (unfold len in *; cbn in Hlen; lia).
    rewrite pair_text_splits. cbn [ok_or fst snd]. cbn [mbind result_bind]. rewrite (url_text_decodes n) by done.
    cbn [mbind result_bind]. rewrite bool_decide_false by done. rewrite (proj2 (Z.ltb_ge _ _)) by lia.
    rewrite bool_decide_false.
    2:{ intros Hin. rewrite fmap_app in Hnd. apply NoDup_app in Hnd as (_ & Hd & _). apply (Hd n Hin). cbn. left. }
    cbn [orb]. rewrite (url_text_decodes v) by done. cbn [mbind result_bind].
    rewrite IH; [by rewrite <- app_assoc| | |done].
    + unfold len in *. rewrite length_app. cbn in *. lia.
    + by rewrite <- app_assoc.
Qed.

Lemma parse_form_reads fields : wf_form fields -> parse_form (form_text fields) = Ok fields.
Proof.
  intros (Hne & Hlen & Hnd & Hwf). unfold parse_form. rewrite form_text_splits by done.
  by apply (parse_pairs_reads fields []).
Qed.

Lemma decode_component_wf l s : decode_component l = Ok s -> wf_value s.
Proof.
  unfold decode_component. destruct (decode_octets l) as [o|]; cbn; [|done].
  destruct (from_utf8 o) eqn:Ho; [|done]. intros [= <-]. unfold wf_value. by rewrite as_from_bytes.
Qed.
Lemma parse_pairs_wf ps fields out : parse_pairs ps fields = Ok out -> len fields <= 128 -> NoDup fields.*1 ->
  Forall wf_field fields ->
  len out <= 128 /\ NoDup out.*1 /\ Forall wf_field out /\ (length fields + length ps <= length out)%nat.
Proof.
  revert fields. induction ps as [|p ps IH]; intros fields; cbn [parse_pairs].
  - intros [= <-] ???. cbn. repeat split; try done. lia.
  - destruct (len fields =? 128) eqn:Hfull; [done|].
    destruct (split_once "="%char p) as [[n v]|]; cbn [ok_or mbind result_bind]; [|done].
    destruct (decode_component n) as [name|] eqn:Hname; cbn [mbind result_bind]; [|done].
    destruct (bool_decide_reflect (name = EmptyString)); cbn [orb]; [done|].
    destruct (1024 <? slen name) eqn:Hlong; cbn [orb]; [done|].
    destruct (bool_decide_reflect (name ∈ fields.*1)) as [|Hfresh]; [done|].
    destruct (decode_component v) as [value|] eqn:Hvalue; cbn [mbind result_bind]; [|done].
    intros Hp Hlen Hnd Hwf. apply Z.eqb_neq in Hfull. apply Z.ltb_ge in Hlong.
    assert (Happ : (length (fields ++ [(name, value)]) = S (length fields))%nat) by (rewrite length_app; cbn; lia).
    apply IH in Hp as (Ho & Hn & Hf & Hlo).
    + repeat split; try done. rewrite Happ in Hlo. cbn. lia.
    + unfold len in *. rewrite Happ. lia.
    + rewrite fmap_app. cbn. apply NoDup_app. split; [done|]. split; [|apply NoDup_singleton].
      intros x Hx Hin. apply list_elem_of_singleton in Hin as ->. done.
    + apply Forall_app. split; [done|]. constructor; [|constructor].
      repeat split; cbn; try done; by eapply decode_component_wf.
Qed.
Lemma split_nonempty c l : split c l <> [].
Proof. destruct l as [|b l]; cbn; [done|]. destruct (bool_decide (b = c)); [done|]. by destruct (split c l). Qed.
Lemma parse_form_wf body fields : parse_form body = Ok fields -> wf_form fields.
Proof.
  intros Hp. unfold parse_form in Hp. apply parse_pairs_wf in Hp as (Hlen & Hnd & Hwf & Hlo).
  - pose proof (split_nonempty "&"%char body). destruct (split "&"%char body); [done|].
    repeat split; try done. intros ->. cbn in Hlo. lia.
  - unfold len. cbn. lia.
  - constructor.
  - constructor.
Qed.

(** ** Filling *)

Lemma field_put_wf p x fields : wf_value x -> Forall wf_field fields -> Forall wf_field (field_put p x fields).
Proof.
  intros Hx. induction 1 as [|[n v] fields (? & ? & ? & ?) Hwf IH]; cbn; [constructor|].
  destruct (bool_decide (n = p)); constructor; done.
Qed.
Lemma form_put_wf p x fields : wf_value x -> wf_form fields -> wf_form (field_put p x fields).
Proof.
  intros Hx (Hne & Hlen & Hnd & Hwf).
  assert (Hl : length (field_put p x fields) = length fields).
  { rewrite <- (length_fmap fst (field_put p x fields)), <- (length_fmap fst fields). by rewrite field_put_names. }
  repeat split.
  - intros He. rewrite He in Hl. by destruct fields.
  - unfold len in *. by rewrite Hl.
  - by rewrite field_put_names.
  - by apply field_put_wf.
Qed.
Lemma fill_wf ws fields fields' : Forall (fun w => wf_value w.2) ws -> wf_form fields ->
  fill form_put fields ws = Some fields' -> wf_form fields'.
Proof.
  revert fields. induction ws as [|[p x] ws IH]; intros fields; cbn -[form_put]; [by intros _ ? [= <-]|].
  intros [Hx Hws]%Forall_cons Hwf. destruct (form_put fields p x) as [f|] eqn:Hput; cbn -[form_put]; [|done].
  apply form_put_Some in Hput as [_ ->]. apply IH; [done|]. by apply form_put_wf.
Qed.

Lemma fill_names ws fields fields' : fill form_put fields ws = Some fields' -> fields'.*1 = fields.*1.
Proof.
  revert fields. induction ws as [|[p x] ws IH]; intros fields; cbn -[form_put]; [by intros [= <-]|].
  destruct (form_put fields p x) as [f|] eqn:Hput; cbn -[form_put]; [|done].
  apply form_put_Some in Hput as [_ ->]. intros Hf. rewrite (IH _ Hf). apply field_put_names.
Qed.

Lemma fill_others ws fields fields' name : fill form_put fields ws = Some fields' -> name ∉ ws.*1 ->
  field_get name fields' = field_get name fields.
Proof.
  revert fields. induction ws as [|[p x] ws IH]; intros fields; cbn -[form_put]; [by intros [= <-]|].
  destruct (form_put fields p x) as [f|] eqn:Hput; cbn -[form_put]; [|done].
  apply form_put_Some in Hput as [_ ->]. intros Hf [Hne Hn]%not_elem_of_cons.
  rewrite (IH _ Hf Hn), field_get_put. by rewrite bool_decide_false.
Qed.

(** ** Properties *)

Section Properties.
Context `{Base64} `{JsonText} `{SelectorLaws} (json_string : list byte -> option (list byte)).

Lemma redactor_covers values r v : Redactor_new json_string values = Ok r -> v ∈ values -> v ∈ patterns r.
Proof.
  unfold Redactor_new. destruct (_ || _); [done|].
  destruct (mapM _ values) as [pss|] eqn:Hm; [|done]. destruct (_ <? _); [done|].
  intros [= <-] Hv. cbn. apply mapM_Some in Hm. apply elem_ordered, list_elem_of_join.
  apply list_elem_of_lookup in Hv as [i Hi]. destruct (Forall2_lookup_l _ _ _ _ _ Hm Hi) as (ps & Hps & Hr).
  exists ps. split; [|apply list_elem_of_lookup; by exists i].
  unfold representations in Hr. destruct (from_utf8 v); [|injection Hr as <-; left].
  destruct (json_string v); [|done]. injection Hr as <-. left.
Qed.

Lemma written_selectors l u p c u' p' c' : map fst (written l u p c) = map fst (written l u' p' c').
Proof. unfold written. by destruct (vl_csrf l) as [[]|]. Qed.

Definition placed (values : Placeholders) (token : option CsrfToken) : Prop :=
  ph_username values <> EmptyString /\ ph_password values <> EmptyString /\
  forall t, token = Some t -> csrf_placeholder t <> EmptyString.

(** A parsed login is the agent's document with the placeholders taken out of it, and any
    values can be put in their places. *)
Lemma login_fills profile content_type body values token l :
  login_parse profile content_type body values token = Ok l -> placed values token ->
  exists d, parse_document (encoding profile) content_type body = Ok d /\
    doc_fill d (written l (ph_username values) (ph_password values) (token_text token)) = Ok d /\
    forall u p c, exists e, doc_fill d (written l u p c) = Ok e /\ doc_fill (vl_document l) (written l u p c) = Ok e.
Proof.
  intros Hl (Hu & Hp & Hc).
  destruct (login_parse_takes _ _ _ _ _ _ Hl) as (d & Hd & Ht & _ & Hcsrf & _ & _ & Hiff).
  assert (Hg : Forall (fun w => w.2 <> EmptyString)
                 (written l (ph_username values) (ph_password values) (token_text token))).
  { unfold written. constructor; [done|]. constructor; [done|].
    destruct token as [t|]; [|rewrite Hcsrf; constructor].
    rewrite Hcsrf. cbn. destruct (csrf profile); cbn; [|constructor]. constructor; [|constructor]. by apply Hc. }
  exists d. split; [done|]. split.
  - by destruct (takes_refill _ _ _ _ Ht Hg eq_refl).
  - intros u p c. apply (takes_refill _ (written l u p c) _ _ Ht Hg). apply written_selectors.
Qed.


(** C26: the wire body of a form login is the agent's own form with the values replaced: read
    back by the same strict parser it gives the fields the agent sent, in order, with the
    credential in the two fields the profile declares and the page's token in the one it
    declares for it, all of which the agent sent, and every other field as the agent sent
    it. Of the form serializer this takes that it writes the standard form encoding. *)
Theorem login_form_wire profile content_type body values token l s bytes r :
  (forall fields, form_serialize fields = form_text fields) ->
  encoding profile = Form_ -> login_parse profile content_type body values token = Ok l -> placed values token ->
  wf_value (page_token token) -> login_substitute json_string l s = Ok (bytes, r) ->
  exists fields u p filled, parse_form body = Ok fields /\
    snapshot_field s Username = Ok u /\ snapshot_field s Password = Ok p /\
    fill form_put fields (declared profile (from_bytes u) (from_bytes p) (page_token token)) = Some filled /\
    parse_form bytes = Ok filled /\ filled.*1 = fields.*1 /\
    (forall name, name ∉ (declared profile EmptyString EmptyString EmptyString).*1 ->
       field_get name filled = field_get name fields).
Proof.
  intros Hser He Hl Hp Hwf Hs. destruct (login_fills _ _ _ _ _ _ Hl Hp) as (d & Hd & _ & Hfill).
  destruct (substitute_fill _ _ _ _ _ Hs) as (u & p & Hu & Hpw & Hvu & Hvp & Hb & _).
  destruct (login_declared _ _ _ _ _ _ Hl) as (Hw & Htok & _).
  rewrite He in Hd. cbn in Hd. destruct (bool_decide (content_type = _)); [|done].
  destruct (parse_form body) as [fields|] eqn:Hparse; [|done]. injection Hd as <-.
  destruct (Hfill (from_bytes u) (from_bytes p) (token_value l)) as (e & He1 & He2).
  rewrite He2 in Hb. rewrite doc_fill_form, Hw, Htok in He1.
  destruct (fill form_put fields _) as [filled|] eqn:Hf; [|done]. injection He1 as <-.
  exists fields, u, p, filled. split_and!; try done.
  - cbn in Hb. unfold doc_encode in Hb. destruct (MAX_LOGIN <? _); [done|]. injection Hb as <-.
    rewrite Hser. apply parse_form_reads. apply (fill_wf _ _ _) with (3 := Hf).
    + unfold declared. unfold wf_value. repeat (constructor; [cbn; by rewrite as_from_bytes|]).
      destruct (csrf profile); repeat constructor. exact Hwf.
    + by eapply parse_form_wf.
  - by eapply fill_names.
  - intros name Hn. apply (fill_others _ _ _ _ Hf).
    unfold declared in *. by destruct (csrf profile).
Qed.
End Properties.
