(* ===== verification/Website.v ===== *)
(** * Website login and submission ([aap-engine/src/website.rs])

    A request made under an authentication context, as a program over the guard in the
    order of the code: the context is held exclusively, the submitted placeholders are
    replaced once custody, approval and the login rate allow it, the private cookies and
    page token travel only outside, and the response is inspected whole before the agent
    sees any of it. *)
From S2P Require Import Prelude Protocol Ids Json Address Observe Catalog Profile Secrets Redaction Injection Cookies Flow.
From S2P Require Import Operation Guard Lifecycle Endpoint Config Dispatch McpWire Login.
From S2P Require Vault.

(** ** Login attempts *)

Definition attempt_age : Z := 600 * 1000000000.
(** The attempts of each item, in the session's vault and in the host. *)
Record Attempts := mkAttempts { at_local : gmap string (list Z); at_global : gmap string (list Z) }.
Definition entry (m : gmap string (list Z)) (item : string) : list Z := default [] (m !! item).
(** [Vec::retain] with the saturating [Instant::duration_since]. *)
Definition recent (now : Z) (l : list Z) : list Z :=
  List.filter (fun previous => saturating_sub now previous <? attempt_age) l.

(** `aap-engine/src/website.rs:475-499`, `Session::login_attempt` *)
Definition login_attempt (a : Attempts) (item : string) (now : Z) : Attempts * Result unit :=
  let local := recent now (entry (at_local a) item) in
  let global := recent now (entry (at_global a) item) in
  if (5 <=? len local) || (20 <=? len global)
  then (mkAttempts (<[item := local]> (at_local a)) (<[item := global]> (at_global a)), fail LimitExceeded)
  else (mkAttempts (<[item := local ++ [now]]> (at_local a)) (<[item := global ++ [now]]> (at_global a)), Ok tt).

(** ** Redaction for observation *)

Section Redact.
Context `{Base64}.

(** `aap-engine/src/website.rs:504-514`, `redact` (the chunks) *)
Fixpoint redact_chunks (r : Redactor) (p : PlaceholderRedactor) (cs : list (list byte * bool)) (output : list byte)
    : Result (list byte) :=
  match cs with
  | [] => Ok output
  | (chunk, fin) :: cs =>
      let (r, safe) := feed r chunk fin in
      safe ← safe;
      let (p, safe) := feed_placeholders p safe fin in
      safe ← safe;
      let output := output ++ safe.1 in
      if 256 * 1024 <? len output then fail LimitExceeded else redact_chunks r p cs output
  end.
(** `aap-engine/src/website.rs:501-516`, `redact` *)
Definition redact (r : Redactor) (body : list byte) : Result (list byte) :=
  redact_chunks r (mkPlaceholders [] false) (body_chunks body) [].
End Redact.

(** ** The exchange *)

(** What the outside answers a website exchange beyond [Env]: the context registry, the
    exclusive permit, the attempts, a late custody answer, the wall clock, and how a
    response body ends. *)
Record WebEnv (F R : Type) := mkWebEnv {
  web : Env F R;
  on_context : nat -> string -> option Binding;
  on_exclusive : nat -> bool;
  on_attempts : nat -> Attempts;
  custody_late : nat -> bool;
  wall_clock : nat -> Z;
  body_fails : nat -> bool;
  body_trailers : nat -> bool }.
Arguments web {F R}. Arguments on_context {F R}. Arguments on_exclusive {F R}. Arguments on_attempts {F R}.
Arguments custody_late {F R}. Arguments wall_clock {F R}. Arguments body_fails {F R}. Arguments body_trailers {F R}.

(** `aap-engine/src/website.rs:30-38`, `Work`; the binding is in [Shared] *)
Record Work := mkWork {
  w_profile : ResourceProfile; w_login : LoginProfile; w_target : Target; w_route : Route; w_item : Item; w_lease : Lease;
  w_body : list byte; w_parsed : option ValidatedLogin; w_page : bool; w_submits : bool }.

(** The response the agent gets: the sanitized parts and the inspected body. *)
Record Inspected := mkInspected { in_status : Z; in_headers : list (string * list byte); in_body : list byte }.

Section Website.
Context `{Base64} `{Http} `{Urls} `{HttpMessage} `{JsonText} `{Selectors}
  (json_string : list byte -> option (list byte)) (parse_http_date : list byte -> option Z).
Context {F : Type} `{Observer F} {R : Type} `{RemoteContext R}.
Context (wenv : WebEnv F R) (cfg : Configuration) (opts : SessionOptions).
Abbreviation env := (web wenv).
Abbreviation P := (Prog F R).
Abbreviation G := (Guard F R).

(** ** The context *)

Definition with_context (g : G) (b : Binding) : G := with_shared g (set_binding (shared g) (Some b)).
Definition with_state (b : Binding) (s : BindingState) : Binding :=
  mkBinding (b_id b) (b_item b) (b_lease b) (b_expires b) (b_cancelled b) s.
(** A section of code that runs on the held context, under its lock. *)
Definition on_binding {A} (f : Z -> Binding -> Binding * Result A) : P A :=
  _ ← pass env;
  run_guard (fun g => match binding (shared g) with
                      | Some b => let (b, r) := f (guard_now g) b in (with_context g b, r)
                      | None => (g, fail InternalError)
                      end).
Definition check_binding : P unit := on_binding (fun now b => Binding_check b now).

Definition set_exchange (f : option Exchange -> option Exchange) : P unit :=
  run_guard (fun g => (with_website g (f (website g)), Ok tt)).

(** `aap-engine/src/vault.rs:473-483`, `Session::revalidate_binding` (the item is taken back) *)
Definition take_back (r : Result unit) : P unit :=
  if Vault.custody_lost r then on_binding (fun _ b => (invalidate b AuthRevoked, Ok tt)) else mret tt.

(** `aap-engine/src/vault.rs:456-487`, `Session::revalidate_binding`; of the item's contexts
    only the held one is in view *)
Definition revalidate_binding (item : Item) (l : Lease) : P unit :=
  _ ← check_session env; _ ← check_binding;
  if negb (bool_decide (store (credential item) ∈ stores cfg)) then reject VaultUnavailable
  else
    reference ← from_store (ItemRef_new (key (credential item)));
    _ ← await env;
    late ← ask (custody_late wenv); r ← ask (fun n => on_revalidate env n (store (credential item)) reference l);
    let r := if late : bool then fail VaultUnavailable
             else match r with Ok _ => Ok tt | Err e => fail (code (store_error e)) end in
    _ ← take_back r;
    _ ← lift r; _ ← check_session env; _ ← check_binding;
    put (Revalidated (store (credential item)) reference l).

(** ** Admission *)

(** `aap-engine/src/website.rs:57-66`, `Session::dispatch_website` (the context and the
    request's text) *)
Definition admit_context (req : ExecuteRequest) (p : ResourceProfile) (b : Binding) : Result unit :=
  if negb (bool_decide (item_profile (b_item b) = profile_id p)) || negb (item_allowed opts (b_item b))
     || reserved (target req) || existsb (fun h => reserved h.1 || reserved h.2) (headers req)
  then fail PolicyDenied else Ok tt.

(** `aap-engine/src/website.rs:67-73`, `Session::dispatch_website` (profile and route) *)
Definition admit_site (req : ExecuteRequest) (p : ResourceProfile) (t : Target) (body : list byte)
    : Result (LoginProfile * Route) :=
  match auth p with
  | FormAuth login =>
      route ← authorize p (method req) t (len body);
      if streaming route || (256 * 1024 <? max_response_bytes route) || (256 * 1024 <? len body)
      then fail AuthProfileUnsupported else Ok (login, route)
  | _ => fail AuthProfileUnsupported
  end.

(** `aap-engine/src/website.rs:81-86`, `Session::dispatch_website` (the media type) *)
Definition request_media (req : ExecuteRequest) : string :=
  match find_first (fun h => eq_ignore_ascii_case h.1 "content-type") (headers req) with
  | Some h => h.2
  | None => EmptyString
  end.

(** `aap-engine/src/website.rs:104-115`, `Session::dispatch_website` (a body that is not a
    login) *)
Definition plain_body (media : string) (body : list byte) : Result unit :=
  if bool_decide (body = []) then Ok tt
  else if negb (bool_decide (media = "application/json")) then fail AuthProfileUnsupported
  else
    value ← ok_or (Json.decode json_parse Some body) (Error_new RequestInvalid);
    if reserved (from_bytes (json_text value)) then fail PlaceholderInvalid else Ok tt.

(** `aap-engine/src/website.rs:87-119`, `Session::dispatch_website` (the submitted body
    against the context's state) *)
Definition admit_body (login : LoginProfile) (media : string) (body : list byte) (is_page is_login : bool)
    (s : BindingState) : Result (option ValidatedLogin * AuthState) :=
  if negb is_page && negb is_login && negb (bool_decide (b_status s = Authenticated)) then fail AuthFailed
  else if is_login then
    vs ← ok_or (values s) (Error_new PlaceholderInvalid);
    l ← login_parse login media body vs (csrf_token s);
    Ok (Some l, b_status s)
  else if is_page && negb (bool_decide (body = [])) then fail RequestInvalid
  else _ ← plain_body media body; Ok (None, b_status s).

(** ** Preparation *)

(** `aap-engine/src/website.rs:223-230`, `Session::website_exchange` (the private state
    leaves the context) *)
Definition take_state (t : Target) (_ : Z) (b : Binding) : Binding * Result ResponseState :=
  let s := b_state b in
  (with_state b (mkBindingState (b_status s) (values s) (CookieJar_new t) None empty_redactor),
   Ok (mkResponseState (jar s) (csrf_token s) (template s))).

(** `aap-engine/src/website.rs:231-246`, `Session::website_exchange` (the body) *)
Definition substituted (w : Work) (pending : ResponseState) : P (list byte * ResponseState) :=
  match w_parsed w with
  | None => mret (w_body w, pending)
  | Some parsed =>
      g ← get_guard; a ← ask (on_attempts wenv);
      _ ← lift (login_attempt a (item_id (w_item w)) (guard_now g)).2;
      _ ← put (Attempted (item_id (w_item w)));
      if negb (bool_decide (store (credential (w_item w)) ∈ stores cfg)) then reject VaultUnavailable
      else
        reference ← from_store (ItemRef_new (key (credential (w_item w))));
        s ← resolve_current env (store (credential (w_item w))) reference (w_lease w);
        '(body, redactor) ← lift (login_substitute json_string parsed s);
        template ← lift (merged (rs_template pending) redactor);
        mret (body, mkResponseState (rs_jar pending) (rs_csrf pending) template)
  end.

(** `aap-engine/src/website.rs:249-254`, `Session::website_exchange` (the placeholders of a
    context as a redactor), and `aap-engine/src/website.rs:405-410` *)
Definition hidden_values (s : BindingState) (token : option CsrfToken) : Result Redactor :=
  vs ← ok_or (values s) (Error_new PlaceholderInvalid);
  Redactor_new json_string ([as_bytes (ph_username vs); as_bytes (ph_password vs)]
                            ++ match token with Some t => [as_bytes (csrf_placeholder t)] | None => [] end).

(** `aap-engine/src/website.rs:247-256`, `Session::website_exchange` (the cookie and the
    template of the outgoing views) *)
Definition outbound (t : Target) (pending : ResponseState) (wall : Z) (_ : Z) (b : Binding)
    : Binding * Result (ResponseState * option (list byte) * Redactor) :=
  (b, hidden ← hidden_values (b_state b) (rs_csrf pending);
      template ← merged (rs_template pending) hidden;
      let (j, cookie) := cookie_header (rs_jar pending) t wall in
      cookie ← cookie;
      Ok (mkResponseState j (rs_csrf pending) (rs_template pending), cookie, template)).

(** `aap-engine/src/website.rs:258-267`, `Session::website_exchange` (the request) *)
Definition site_request (req : ExecuteRequest) (t : Target) (cookie : option (list byte)) (body : list byte)
    : Result HttpRequest :=
  let extra := match cookie with Some c => [("cookie", from_bytes c)] | None => [] end in
  ok_or (build_request (method req) (target_as_str t) (headers req ++ extra) body) (Error_new RequestInvalid).

(** `aap-engine/src/website.rs:277-286`, `Session::website_exchange` (one redacted view) *)
Definition record_content (d : Direction) (v : View) (l : list byte) : P unit :=
  _ ← pass env; run_guard (fun g => content_views g d [v] (chunks (length l) (Z.to_nat (32 * 1024)) l)).

(** `aap-engine/src/website.rs:202-211`, `Session::website_exchange` (approval) *)
Definition approve_site (w : Work) : P unit :=
  if requires_approval (host_require_approval cfg) (o_require_approval opts) (require_approval (w_route w))
       (approval (w_item w)) (w_submits w)
  then approve_operation env cfg (item_id (w_item w)) (w_lease w) else mret tt.

(** `aap-engine/src/website.rs:219-222`, `Session::website_exchange` (the agent's view of
    the body) *)
Definition agent_view (w : Work) : Result (list byte) :=
  match w_parsed w with Some l => login_observation l | None => Ok (w_body w) end.

Definition start_event (req : ExecuteRequest) (w : Work) (hs : list (string * string)) : Data :=
  RequestStart (method req) (profile_origin (w_profile w) ++ path (w_target w)) hs.

(** `aap-engine/src/website.rs:268-304`, `Session::website_exchange` (the evidence of the
    outgoing request and the commit) *)
Definition commit_site (req : ExecuteRequest) (w : Work) (view : list byte) (template : Redactor) (inserted : bool)
    (out : HttpRequest) : P unit :=
  _ ← evidence env [emission Outbound Upstream (start_event req w (observed_headers (http_headers out)))];
  agent ← lift (redact (fresh template) view);
  _ ← record_content Outbound Agent agent;
  upstream ← lift (redact (fresh template) (http_body out));
  _ ← record_content Outbound Upstream upstream;
  _ ← evidence_both env Outbound (AuthTransition (item_id (w_item w)) inserted);
  _ ← (_ ← pass env; run_guard (fun g => end_content g Outbound [Agent; Upstream]));
  _ ← revalidate_binding (w_item w) (w_lease w);
  _ ← evidence_both env Outbound (PolicyDecision Allow None);
  _ ← move_to env Ready None;
  commit env.

(** `aap-engine/src/website.rs:201-304`, `Session::website_exchange` (from custody to the
    commit) *)
Definition prepare_site (req : ExecuteRequest) (w : Work) : P (HttpRequest * ResponseState) :=
  _ ← revalidate_binding (w_item w) (w_lease w);
  _ ← approve_site w;
  _ ← revalidate_binding (w_item w) (w_lease w);
  room ← ask (on_permit env);
  if negb room then reject LimitExceeded
  else
    _ ← run_guard (fun g => (with_active g, Ok tt));
    view ← lift (agent_view w);
    pending ← on_binding (take_state (w_target w));
    '(body, pending) ← substituted w pending;
    wall ← ask (wall_clock wenv);
    '(pending, cookie, template) ← on_binding (outbound (w_target w) pending wall);
    out ← lift (site_request req (w_target w) cookie body);
    _ ← commit_site req w view template (w_submits w || bool_decide (is_Some cookie)) out;
    mret (out, pending).

(** ** The response *)

(** `aap-engine/src/website.rs:328-339`, `Session::website_exchange` (the encoding) *)
Definition inspectable (hs : list (string * list byte)) : bool :=
  (len (get_all "content-type" hs) =? 1)
  && bool_decide (head (get_all "content-type" hs) = Some (as_bytes "application/json"))
  && match head (get_all "content-encoding" hs) with
     | Some e => bool_decide (e = as_bytes "identity")
     | None => true
     end.

Definition limit_of (w : Work) : Z := Z.min (max_response_bytes (w_route w)) (256 * 1024).

(** `aap-engine/src/website.rs:340-347`, `Session::website_exchange` (the whole body) *)
Definition collected (w : Work) (response : HttpResponse) (fails trailers : bool) : Result (list byte) :=
  let body := mjoin (frames response) in
  if fails || (limit_of w <? len body) then fail OutcomeUnknown
  else if trailers then fail InspectionUnavailable
  else Ok body.

(** What a settled response leaves: the private state, the agent's body before redaction,
    the context's next state, and the two redactors. *)
Record Settled := mkSettled {
  st_pending : ResponseState; st_headers : list (string * list byte); st_body : list byte; st_final : AuthState;
  st_template : Redactor; st_observer : Redactor }.

(** `aap-engine/src/website.rs:368-373`, `Session::website_exchange` (a page's token) *)
Definition take_token (w : Work) (pending : ResponseState) (bytes : list byte) (random : option string)
    : Result (ResponseState * list byte) :=
  match csrf (w_login w) with
  | Some p =>
      if w_page w then
        '(token, page) ← from_page p bytes random;
        r ← csrf_redactor json_string token;
        template ← merged (rs_template pending) r;
        Ok (mkResponseState (rs_jar pending) (Some token) template, page)
      else Ok (pending, bytes)
  | None => Ok (pending, bytes)
  end.

(** `aap-engine/src/website.rs:375-379`, `Session::website_exchange` (whether a login
    succeeded) *)
Definition succeeded (w : Work) (status : Z) (parsed : Value) (j : CookieJar) (wall : Z) : CookieJar * Result bool :=
  let ok := success (w_login w) in
  if (status =? success_status ok) && bool_decide (pointer parsed (json_pointer ok) = Some (expected ok))
  then has_all j (cookie_names ok) wall else (j, Ok false).

Definition dropped (pending : ResponseState) : ResponseState :=
  mkResponseState (jar_clear (rs_jar pending)) None (rs_template pending).

(** `aap-engine/src/website.rs:374-404`, `Session::website_exchange` (the context's next
    state); an error ends the exchange with its context *)
Definition next_state (w : Work) (status : Z) (parsed : Value) (pending : ResponseState) (previous : AuthState) (wall : Z)
    : Result (ResponseState * AuthState) :=
  if w_submits w then
    let (j, ok) := succeeded w status parsed (rs_jar pending) wall in
    ok ← ok;
    let pending := mkResponseState j (rs_csrf pending) (rs_template pending) in
    if ok : bool then Ok (pending, Authenticated)
    else if is_redirection status then fail AuthFailed
    else Ok (dropped pending, Unauthenticated)
  else if bool_decide (status ∈ [401; 403]) then Ok (dropped pending, Unauthenticated)
  else Ok (pending, previous).

(** `aap-engine/src/website.rs:350-411`, `Session::website_exchange` (under the context's
    lock) *)
Definition settle (w : Work) (response : HttpResponse) (bytes : list byte) (pending : ResponseState)
    (previous : AuthState) (wall later : Z) (random : option string) (now : Z) (b : Binding) : Binding * Result Settled :=
  (b, if b_cancelled b || (b_expires b <=? now) then fail PlaceholderInvalid
      else
        let '(j, hs, cookies) := capture json_string parse_http_date (rs_jar pending) (w_target w) (response_headers response) wall in
        cookies ← cookies;
        template ← merged (rs_template pending) cookies;
        let pending := mkResponseState j (rs_csrf pending) template in
        if is_redirection (http_status response)
           && (negb (w_submits w) || negb (http_status response =? 303)
               || negb (bool_decide (is_Some (post_login_redirect (w_login w)))))
        then fail AuthProfileUnsupported
        else
          parsed ← ok_or (Json.decode json_parse Some bytes) (Error_new InspectionUnavailable);
          '(pending, bytes) ← take_token w pending bytes random;
          '(pending, final) ← next_state w (http_status response) parsed pending previous later;
          observer ← hidden_values (b_state b) (rs_csrf pending);
          Ok (mkSettled pending hs bytes final (fresh (rs_template pending)) observer)).

(** `aap-engine/src/website.rs:413-430`, `Session::website_exchange` (sanitation) *)
Definition sanitize_site (w : Work) (response : HttpResponse) (s : Settled) : Result Sanitized :=
  let private := mkHttpResponse (http_status response) (st_headers s) [st_body s] in
  if is_redirection (http_status response) then
    target ← ok_or (post_login_redirect (w_login w)) (Error_new AuthProfileUnsupported);
    sanitize_login_redirect json_string private (st_template s) target
  else sanitize_response json_string private (st_template s).

(** `aap-engine/src/website.rs:431-436`, `Session::website_exchange` (the agent's bytes) *)
Definition inspected_body (w : Work) (s : Sanitized) : Result (list byte) :=
  match sanitized_body s with
  | Some bytes => if limit_of w <? len bytes then fail InspectionUnavailable else Ok bytes
  | None => fail InspectionUnavailable
  end.
(** `aap-auth/src/lib.rs:282-287`, `sanitize_inner` (the headers of the rebuilt response) *)
Definition sanitized_headers (s : Sanitized) : list (string * list byte) :=
  ("content-type", as_bytes (s_media s))
  :: match s_location s with Some l => [("location", as_bytes l)] | None => [] end.

(** `aap-engine/src/website.rs:412-463`, `Session::website_exchange` (the observed and the
    delivered response) *)
Definition deliver_site (w : Work) (response : HttpResponse) (upstream : list byte) (s : Settled) : P Inspected :=
  both ← lift (merged (st_template s) (st_observer s));
  upstream_observed ← lift (redact both upstream);
  sanitized ← lift (sanitize_site w response s);
  bytes ← lift (inspected_body w sanitized);
  observed ← lift (redact (st_observer s) bytes);
  _ ← evidence env [emission Inbound Agent
                      (ResponseStart (s_status sanitized) (observed_headers (sanitized_headers sanitized)))];
  _ ← record_content Inbound Upstream upstream_observed;
  _ ← record_content Inbound Agent observed;
  _ ← run_guard (fun g => (with_recorded g, Ok tt));
  _ ← move_to env Dispatching (Some (s_status sanitized));
  _ ← set_exchange (fmap (fun _ => mkExchange (st_final s) (Some (st_pending s))));
  mret (mkInspected (s_status sanitized) (sanitized_headers sanitized) bytes).

(** `aap-engine/src/website.rs:319-463`, `Session::website_exchange` (the response) *)
Definition receive_site (w : Work) (response : HttpResponse) (pending : ResponseState) : P Inspected :=
  _ ← evidence env [emission Inbound Upstream
                      (ResponseStart (http_status response) (observed_headers (response_headers response)))];
  if negb (inspectable (response_headers response)) then reject InspectionUnavailable
  else
    _ ← await env;
    fails ← ask (body_fails wenv); trailers ← ask (body_trailers wenv);
    bytes ← lift (collected w response fails trailers);
    _ ← revalidate_binding (w_item w) (w_lease w);
    g ← get_guard;
    wall ← ask (wall_clock wenv); later ← ask (wall_clock wenv); random ← ask (on_random env);
    s ← on_binding (settle w response bytes pending (from_option final_state Unauthenticated (website g)) wall later random);
    deliver_site w response bytes s.

(** `aap-engine/src/website.rs:149-465`, `Session::website_exchange` *)
Definition website_exchange (req : ExecuteRequest) (w : Work) : P Inspected :=
  _ ← move_to env Validated None;
  _ ← evidence env [emission Outbound Agent (start_event req w (safe_headers (headers req)))];
  _ ← await env;
  found ← ask (fun n => on_resolve env n (trim_brackets (target_host (w_target w))) (target_port (w_target w)));
  found ← lift found;
  _ ← put (Resolved (trim_brackets (target_host (w_target w))) (target_port (w_target w)) found);
  endpoint ← lift (admit_addresses (w_profile w) (w_target w) found);
  '(out, pending) ← prepare_site req w;
  response ← execute env endpoint out;
  receive_site w response pending.

(** `aap-engine/src/website.rs:49-56`, `Session::dispatch_website` (the context), with
    `aap-engine/src/vault.rs:442-455`, `Session::binding` *)
Definition hold_context (req : ExecuteRequest) : P Binding :=
  id ← lift (ok_or (auth_context req) (Error_new PolicyDenied));
  _ ← check_session env;
  if negb (valid_id id 32) then reject PolicyDenied
  else
    b ← ask (fun n => on_context wenv n id);
    b ← lift (ok_or b (Error_new PolicyDenied));
    _ ← run_guard (fun g => (with_context g b, Ok tt));
    _ ← check_binding;
    mret b.

(** `aap-engine/src/website.rs:120-132`, `Session::dispatch_website` (the exchange holds
    the context) *)
Definition enter_context (previous : AuthState) (is_login : bool) : P unit :=
  _ ← set_exchange (fun _ => Some (mkExchange previous None));
  if is_login then
    on_binding (fun _ b => let s := b_state b in
      (with_state b (mkBindingState Authenticating (values s) (jar s) (csrf_token s) (template s)), Ok tt))
  else mret tt.

(** `aap-engine/src/website.rs:41-148`, `Session::dispatch_website` *)
Definition dispatch_website (req : ExecuteRequest) (p : ResourceProfile) (t : Target) (body : list byte) : P Inspected :=
  b ← hold_context req;
  _ ← lift (admit_context req p b);
  '(login, route) ← lift (admit_site req p t body);
  free ← ask (on_exclusive wenv);
  if negb free then reject AuthInProgress
  else
    let is_page := bool_decide (method req = "GET") && bool_decide (target_as_str t = login_page login) in
    let is_login := bool_decide (method req = "POST") && bool_decide (target_as_str t = login_target login) in
    '(parsed, previous) ← on_binding (fun _ b =>
      (b, admit_body login (request_media req) body is_page is_login (b_state b)));
    _ ← enter_context previous is_login;
    website_exchange req (mkWork p login t route (b_item b) (b_lease b) body parsed is_page is_login).

(** `aap-engine/src/pipeline.rs:203-229`, `Session::dispatch` (a website profile) *)
Definition dispatch_site (req : ExecuteRequest) : P Inspected :=
  '(p, t, body, _) ← lift (admit_request cfg opts req);
  dispatch_website req p t body.
End Website.
