(* ===== verification/WebsiteSafety.v ===== *)
(** * What a website exchange guarantees

    The programs of [Website] are lives of the guard, hand a request off at one place,
    and log what they did in a known order: the order in which a request of a context is
    decided and handed off, what it is reported as, what its response shows, and how often
    a login is tried. *)
From S2P Require Import Prelude Protocol Ids Json Address Observe Catalog Profile Secrets Redaction Injection Cookies Flow.
From S2P Require Import Operation Guard Lifecycle Endpoint Config Dispatch McpWire Login Website.

Section Guided.
Context `{Base64} `{Http} `{Urls} `{HttpMessage} `{JsonText} `{Selectors}
  (json_string : list byte -> option (list byte)) (parse_http_date : list byte -> option Z).
Context {F : Type} `{Observer F} {R : Type} `{RemoteContext R}.
Context (wenv : WebEnv F R) (cfg : Configuration) (opts : SessionOptions).
Abbreviation P := (Prog F R).
Abbreviation G := (Guard F R).

Lemma exchange_move (g : G) w b : do_move g (MExchange w b (remote g)) = with_website (with_shared g (set_binding (shared g) b)) w.
Proof. by destruct g. Qed.
Lemma binding_same (g : G) : with_shared g (set_binding (shared g) (binding (shared g))) = g.
Proof. by destruct g as [[]]. Qed.

Lemma guided_on_binding {A} d (f : Z -> Binding -> Binding * Result A) : guided d d (on_binding wenv f : P A).
Proof.
  unfold on_binding. eapply guided_bind; [apply guided_pass|]. intros _ w w' r Hd Hr. unfold run_guard in Hr.
  destruct (binding (shared (guard w))) as [b|]; [|injection Hr as <- <-; by exists []].
  destruct (f _ b) as [b' r']. injection Hr as <- <-. cbn. exists [MExchange (website (guard w)) (Some b') (remote (guard w))].
  split; [done|]. split; [|done]. unfold life. cbn [foldl]. rewrite exchange_move. by destruct (guard w).
Qed.
Lemma guided_context d b : guided d d (run_guard (fun g => (with_context g b, Ok tt)) : P unit).
Proof.
  apply (guided_move _ _ _ (fun g => MExchange (website g) (Some b) (remote g))). intros g Hd.
  rewrite exchange_move. split; [done|]. by destruct g.
Qed.
Lemma guided_exchange d f : guided d d (set_exchange f : P unit).
Proof.
  unfold set_exchange. apply (guided_move _ _ _ (fun g => MExchange (f (website g)) (binding (shared g)) (remote g))).
  intros g Hd. rewrite exchange_move. split; [done|]. by rewrite binding_same.
Qed.
Lemma guided_recorded d : guided d d (run_guard (fun g => (with_recorded g, Ok tt)) : P unit).
Proof. by apply (guided_move _ _ _ (fun _ => MRecorded)). Qed.

Lemma guided_record_content d dir v l : guided d d (record_content wenv dir v l : P unit).
Proof. unfold record_content. guide. Qed.

#[local] Hint Resolve guided_on_binding guided_context guided_exchange guided_recorded guided_record_content : guided.

Lemma guided_check_binding d : guided d d (check_binding wenv : P unit).
Proof. apply guided_on_binding. Qed.
#[local] Hint Resolve guided_check_binding : guided.
Lemma guided_take_back d r : guided d d (take_back wenv r : P unit).
Proof. unfold take_back. guide. Qed.
#[local] Hint Resolve guided_take_back : guided.
Lemma guided_revalidate_binding d i l : guided d d (revalidate_binding wenv cfg i l : P unit).
Proof. unfold revalidate_binding. guide. Qed.
#[local] Hint Resolve guided_revalidate_binding : guided.
Lemma guided_approve_site w : guided false false (approve_site wenv cfg opts w : P unit).
Proof. unfold approve_site. guide. Qed.
Lemma guided_substituted d w p : guided d d (substituted json_string wenv cfg w p : P (list byte * ResponseState)).
Proof. unfold substituted. guide. Qed.
Lemma guided_commit_site req w v t i out : guided false true (commit_site wenv cfg req w v t i out : P unit).
Proof. unfold commit_site. guide. Qed.
#[local] Hint Resolve guided_approve_site guided_substituted guided_commit_site : guided.
Lemma guided_prepare_site req w : guided false true (prepare_site json_string wenv cfg opts req w : P (HttpRequest * ResponseState)).
Proof. unfold prepare_site. guide. Qed.
Lemma guided_deliver_site w response upstream s : guided true true (deliver_site json_string wenv w response upstream s : P Inspected).
Proof. unfold deliver_site. guide. Qed.
#[local] Hint Resolve guided_prepare_site guided_deliver_site : guided.
Lemma guided_receive_site w response pending :
  guided true true (receive_site json_string parse_http_date wenv cfg w response pending : P Inspected).
Proof. unfold receive_site. guide. Qed.
#[local] Hint Resolve guided_receive_site : guided.
Lemma guided_website_exchange req w :
  guided false true (website_exchange json_string parse_http_date wenv cfg opts req w : P Inspected).
Proof. unfold website_exchange. guide. Qed.
Lemma guided_hold_context d req : guided d d (hold_context wenv req : P Binding).
Proof. unfold hold_context. guide. Qed.
Lemma guided_enter_context d s b : guided d d (enter_context wenv s b : P unit).
Proof. unfold enter_context. guide. Qed.
#[local] Hint Resolve guided_website_exchange guided_hold_context guided_enter_context : guided.
Lemma guided_dispatch_site req : guided false true (dispatch_site json_string parse_http_date wenv cfg opts req : P Inspected).
Proof. unfold dispatch_site, dispatch_website. guide. Qed.
End Guided.
#[export] Hint Resolve guided_on_binding guided_context guided_exchange guided_recorded guided_record_content
  guided_check_binding guided_revalidate_binding guided_approve_site guided_substituted guided_commit_site
  guided_prepare_site guided_deliver_site guided_receive_site guided_hold_context guided_enter_context : guided.

(** ** What the programs log *)

Section Logged.
Context `{Base64} `{Http} `{Urls} `{HttpMessage} `{JsonText} `{Selectors}
  (json_string : list byte -> option (list byte)) (parse_http_date : list byte -> option Z).
Context {F : Type} `{Observer F} {R : Type} `{RemoteContext R}.
Context (wenv : WebEnv F R) (cfg : Configuration) (opts : SessionOptions).
Abbreviation P := (Prog F R).
Abbreviation logs := (logs (F:=F) (R:=R)).

Lemma logs_on_binding {A} (f : Z -> Binding -> Binding * Result A) :
  logs (on_binding wenv f) (fun a l => l = [] /\ exists now b b', f now b = (b', Ok a)).
Proof.
  unfold on_binding. eapply logs_bind; [apply logs_pass|]. intros [] l [-> _]. apply logs_still.
  - intros w. unfold run_guard. destruct (binding (shared (guard w))) as [b|]; [|done]. by destruct (f _ b).
  - intros w a. unfold run_guard. destruct (binding (shared (guard w))) as [b|]; [|done].
    destruct (f (guard_now (guard w)) b) as [b' r] eqn:E. cbn. intros ->. eauto.
Qed.
Lemma logs_check_binding : logs (check_binding wenv) (fun _ l => l = []).
Proof. eapply logs_weaken; [apply logs_on_binding|]. by intros a l [-> _]. Qed.
Lemma logs_exchange f : logs (set_exchange f) (fun _ l => l = []).
Proof. eapply logs_weaken; [apply logs_run|]. by intros a l [-> _]. Qed.
Lemma logs_record_content d v l0 : logs (record_content wenv d v l0) (fun _ l => l = []).
Proof. apply logs_step. Qed.
#[local] Hint Resolve logs_on_binding logs_check_binding logs_exchange logs_record_content : logs.

Lemma logs_take_back r : logs (take_back wenv r) (fun _ l => l = []).
Proof. unfold take_back. chained. Qed.
#[local] Hint Resolve logs_take_back : logs.

Definition reference_of (i : Item) : string := key (credential i).
(** A revalidation of the held item. *)
Definition held_call (i : Item) (l : Lease) : Call := Revalidated (store (credential i)) (reference_of i) l.

Lemma reference_key i r : ItemRef_new (key (credential i)) = Ok r -> r = reference_of i.
Proof. unfold ItemRef_new, reference_of. destruct (_ || _); [done|]. by intros [= <-]. Qed.

Lemma logs_revalidate_binding i l : logs (revalidate_binding wenv cfg i l) (fun _ l' =>
  l' = [held_call i l] /\ store (credential i) ∈ stores cfg).
Proof.
  unfold revalidate_binding. chain; subst; cbn [app]; try done.
  all: match goal with H : negb (bool_decide _) = false |- _ => apply negb_false_iff, bool_decide_eq_true_1 in H end.
  all: match goal with H : ItemRef_new _ = Ok _ |- _ => apply reference_key in H; subst end; done.
Qed.
#[local] Hint Resolve logs_revalidate_binding : logs.

Lemma logs_approve_site w : logs (approve_site wenv cfg opts w) (fun _ l => l =
  if requires_approval (host_require_approval cfg) (o_require_approval opts) (require_approval (w_route w))
       (approval (w_item w)) (w_submits w)
  then approval_calls (item_id (w_item w)) (w_lease w) else []).
Proof. unfold approve_site. destruct (requires_approval _ _ _ _ _); chained. Qed.

(** The calls of a submission: the attempt, and the release of the credential. *)
Definition submission_calls (w : Work) (s : option Snapshot) : list Call :=
  match s with
  | Some s => [Attempted (item_id (w_item w)); Released (store (credential (w_item w))) (reference_of (w_item w)) (w_lease w) s]
  | None => []
  end.
(** The body that leaves: the agent's own, or its login with the released credential. *)
Definition submitted (w : Work) (s : option Snapshot) (body : list byte) : Prop :=
  match w_parsed w, s with
  | Some parsed, Some s => exists r, login_substitute json_string parsed s = Ok (body, r)
  | None, None => body = w_body w
  | _, _ => False
  end.
Lemma logs_substituted w p : logs (substituted json_string wenv cfg w p) (fun x l => exists s,
  l = submission_calls w s /\ submitted w s x.1 /\ rs_jar x.2 = rs_jar p /\ rs_csrf x.2 = rs_csrf p).
Proof.
  unfold substituted, submitted. destruct (w_parsed w) as [parsed|] eqn:Hp.
  - chain; subst; cbn [app]; try done.
    match goal with H : ItemRef_new _ = Ok _ |- _ => apply reference_key in H; subst end.
    match goal with H : login_substitute _ _ ?s = Ok _ |- _ => exists (Some s) end. cbn. split_and!; try done. by eexists.
  - chain. exists None. by subst.
Qed.

(** The evidence before the commit. *)
Definition commit_calls (req : ExecuteRequest) (w : Work) (inserted : bool) (out : HttpRequest) (a : Authority) : list Call :=
  [Evidence [emission Outbound Upstream (start_event req w (observed_headers (http_headers out)))];
   Evidence [emission Outbound Agent (AuthTransition (item_id (w_item w)) inserted);
             emission Outbound Upstream (AuthTransition (item_id (w_item w)) inserted)];
   held_call (w_item w) (w_lease w);
   Evidence [emission Outbound Agent (PolicyDecision Allow None); emission Outbound Upstream (PolicyDecision Allow None)];
   Committed a].
Lemma logs_commit_site req w v t i out : logs (commit_site wenv cfg req w v t i out) (fun _ l => exists a,
  l = commit_calls req w i out a /\ Session_check a = Ok tt).
Proof. unfold commit_site. chain. subst. eexists. split; [|done]. reflexivity. Qed.
#[local] Hint Resolve logs_approve_site logs_substituted logs_commit_site : logs.

(** The calls of a preparation. *)
Definition prepare_calls (req : ExecuteRequest) (w : Work) (s : option Snapshot) (cookie : option (list byte))
    (out : HttpRequest) (a : Authority) : list Call :=
  [held_call (w_item w) (w_lease w)]
  ++ (if requires_approval (host_require_approval cfg) (o_require_approval opts) (require_approval (w_route w))
           (approval (w_item w)) (w_submits w)
      then approval_calls (item_id (w_item w)) (w_lease w) else [])
  ++ [held_call (w_item w) (w_lease w)] ++ submission_calls w s
  ++ commit_calls req w (w_submits w || bool_decide (is_Some cookie)) out a.

Lemma outbound_cookie t pending wall now b b' pending' cookie template :
  outbound json_string t pending wall now b = (b', Ok (pending', cookie, template)) ->
  cookie_header (rs_jar pending) t wall = (rs_jar pending', Ok cookie).
Proof.
  unfold outbound. intros [= <- Ho]. revert Ho. destruct (hidden_values _ _ _) as [hidden|]; cbn; [|done].
  destruct (merged _ _) as [m|]; cbn; [|done]. destruct (cookie_header _ _ _) as [j [c|]]; cbn; [|done].
  by intros [= <- <- <-].
Qed.

Lemma logs_prepare_site req w : logs (prepare_site json_string wenv cfg opts req w) (fun _ _ => True).
Proof. unfold prepare_site. by chain. Qed.

Lemma logs_deliver_site w response upstream s : logs (deliver_site json_string wenv w response upstream s) (fun _ _ => True).
Proof. unfold deliver_site. by chain. Qed.
#[local] Hint Resolve logs_deliver_site : logs.
Lemma logs_receive_site w response pending :
  logs (receive_site json_string parse_http_date wenv cfg w response pending) (fun _ _ => True).
Proof. unfold receive_site. by chain. Qed.
Lemma logs_hold_context req : logs (hold_context wenv req) (fun b l => l = []
  /\ exists id n, auth_context req = Some id /\ valid_id id 32 = true /\ on_context wenv n id = Some b).
Proof.
  unfold hold_context. chain. subst. split; [done|].
  repeat match goal with H : ok_or ?x _ = Ok _ |- _ => destruct x eqn:?; [injection H as ->|done] end.
  match goal with H : negb _ = false |- _ => apply negb_false_iff in H end. by do 2 eexists.
Qed.
Lemma logs_enter_context s b : logs (enter_context wenv s b) (fun _ l => l = []).
Proof. unfold enter_context. chained. Qed.
End Logged.
#[export] Hint Resolve logs_on_binding logs_check_binding logs_exchange logs_record_content logs_take_back
  logs_revalidate_binding logs_approve_site logs_substituted logs_commit_site logs_prepare_site logs_deliver_site
  logs_receive_site logs_hold_context logs_enter_context : logs.

From S2P Require Import Operation Guard Lifecycle Endpoint Config Dispatch McpWire Login LoginFacts Website.

(** ** The held context *)

Section Held.
Context `{Base64} `{Http} `{Urls} `{HttpMessage} `{JsonText} `{Selectors}
  (json_string : list byte -> option (list byte)).
Context {F : Type} `{Observer F} {R : Type} `{RemoteContext R}.
Context (wenv : WebEnv F R) (cfg : Configuration) (opts : SessionOptions).
Abbreviation P := (Prog F R).
Abbreviation G := (Guard F R).
Abbreviation upon := (upon (F:=F) (R:=R)).

(** The guard holds this context, unless the context was cancelled meanwhile; what holds of
    it is known only while it was not. *)
Definition Holds (b : Binding) (φ : Prop) (g : G) : Prop :=
  exists b', binding (shared g) = Some b' /\ (b_cancelled b' = true \/ b' = b /\ φ).
(** The held context stays, unless it is cancelled. *)
Definition keeping : relation G := fun g g' =>
  forall b, binding (shared g) = Some b -> exists b', binding (shared g') = Some b' /\ (b' = b \/ b_cancelled b' = true).

Lemma holds_keeping b φ g g' : keeping g g' -> Holds b φ g -> Holds b φ g'.
Proof.
  intros Hk (b1 & Hb1 & Hc). destruct (Hk _ Hb1) as (b2 & Hb2 & Hc2). exists b2. split; [done|].
  destruct Hc2 as [->|]; [done|by left].
Qed.
#[export] Instance keeping_preorder : PreOrder keeping.
Proof.
  split.
  - intros g b Hb. eauto.
  - intros x y z Hxy Hyz b Hb. destruct (Hxy _ Hb) as (b1 & Hb1 & Hc1). destruct (Hyz _ Hb1) as (b2 & Hb2 & Hc2).
    exists b2. split; [done|]. destruct Hc2 as [->|]; [done|by right].
Qed.
#[export] Instance keeping_steady : Steady keeping.
Proof. split; [exact _|]. intros g g' Hb _ _ _ _ b Hg. exists b. rewrite Hb. auto. Qed.
#[export] Instance keeping_calm : Calm (web wenv) keeping.
Proof. split; [exact _|]. intros w b Hb. by apply (others_keep (between (web wenv) (steps w)) (shared (guard w))). Qed.

Lemma upon_kept {A} b φ (m : P A) p : logs m p -> within keeping m -> upon (Holds b φ) m (fun a l g => p a l /\ Holds b φ g).
Proof. intros Hm Hw. eapply upon_within; [done|done|]. intros g g'. apply holds_keeping. Qed.
Lemma upon_on_binding {A} (f : Z -> Binding -> Binding * Result A) b φ :
  (forall now x, b_cancelled x = true -> b_cancelled (f now x).1 = true) ->
  upon (Holds b φ) (on_binding wenv f) (fun a l g => l = [] /\ exists now b2, Holds b2 (φ /\ f now b = (b2, Ok a)) g).
Proof.
  intros Hf. unfold on_binding. eapply upon_bind; [apply upon_kept; [apply logs_pass|apply within_pass; exact _]|].
  intros [] l. apply upon_pure. intros [-> _] w w' r (b1 & Hb1 & Hc) Hr. unfold run_guard in Hr. rewrite Hb1 in Hr.
  destruct (f (guard_now (guard w)) b1) as [b2 x] eqn:E. injection Hr as <- <-. exists []. rewrite app_nil_r.
  split; [done|]. split; [apply Forall_nil_2|]. intros a ->. split; [done|]. exists (guard_now (guard w)), b2, b2.
  split; [done|]. destruct Hc as [Hc|[-> Hp]]; [left|by right]. specialize (Hf (guard_now (guard w)) b1 Hc). by rewrite E in Hf.
Qed.
Lemma Binding_check_live now b b' : Binding_check b now = (b', Ok tt) -> b' = b /\ b_cancelled b = false.
Proof.
  unfold Binding_check. destruct (_ && _); cbn; [done|]. destruct (b_cancelled b) eqn:Hc; [done|]. by intros [= <-].
Qed.
(** A check is passed only by the context itself, so what is known of it holds. *)
Lemma upon_check_binding b φ :
  upon (Holds b φ) (check_binding wenv) (fun _ l g => l = [] /\ (φ /\ b_cancelled b = false) /\ Holds b φ g).
Proof.
  unfold check_binding, on_binding. eapply upon_bind; [apply upon_kept; [apply logs_pass|apply within_pass; exact _]|].
  intros [] l. apply upon_pure. intros [-> _] w w' r (b1 & Hb1 & Hc) Hr. unfold run_guard in Hr. rewrite Hb1 in Hr.
  destruct (Binding_check b1 (guard_now (guard w))) as [b2 x] eqn:E. injection Hr as <- <-. exists []. rewrite app_nil_r.
  split; [done|]. split; [apply Forall_nil_2|]. intros [] ->. apply Binding_check_live in E as [-> E].
  destruct Hc as [Hc|[-> Hp]]; [congruence|]. split; [done|]. split; [done|]. exists b. auto.
Qed.

Lemma within_on_binding {A} (f : Z -> Binding -> Binding * Result A) :
  (forall now x a, (f now x).2 = Ok a -> (f now x).1 = x \/ b_cancelled (f now x).1 = true) -> within keeping (on_binding wenv f).
Proof.
  intros Hf. unfold on_binding. eapply within_bind; [exact _|apply within_pass; exact _|]. intros _. apply within_run.
  intros g a Ha b Hb. rewrite Hb in Ha |- *. specialize (Hf (guard_now g) b). destruct (f (guard_now g) b) as [b' r].
  exists b'. split; [done|]. by eapply Hf.
Qed.
Lemma within_take_back r : within keeping (take_back wenv r).
Proof. unfold take_back. destruct (Vault.custody_lost r); [|inward]. apply within_on_binding. intros. by right. Qed.
End Held.
#[export] Hint Resolve within_take_back : within.

Ltac walk := walk_by ltac:(fun _ => apply upon_kept).

Section Visits.
Context `{Base64} `{Http} `{Urls} `{HttpMessage} `{JsonText} `{Selectors}
  (json_string : list byte -> option (list byte)).
Context {F : Type} `{Observer F} {R : Type} `{RemoteContext R}.
Context (wenv : WebEnv F R) (cfg : Configuration) (opts : SessionOptions).
Abbreviation P := (Prog F R).
Abbreviation G := (Guard F R).
Abbreviation upon := (upon (F:=F) (R:=R)).

Lemma upon_revalidate_binding i l b φ : upon (Holds b φ) (revalidate_binding wenv cfg i l) (fun _ l' g =>
  l' = [held_call i l] /\ (store (credential i) ∈ stores cfg /\ φ /\ b_cancelled b = false) /\ Holds b φ g).
Proof.
  unfold revalidate_binding. walk. eapply upon_bind; [apply upon_check_binding|]. walk.
  eapply upon_bind; [apply upon_check_binding|]. stage.
  eapply upon_weaken; [apply upon_kept; [apply logs_put; done|inward]|done|]. cbn beta. intros [] l' g [-> Hg].
  match goal with Hn : negb (bool_decide _) = false |- _ => apply negb_false_iff, bool_decide_eq_true_1 in Hn end.
  match goal with Hr : ItemRef_new _ = Ok _ |- _ => apply reference_key in Hr; subst end. done.
Qed.
#[local] Hint Resolve within_on_binding : within.

(** The context that is held is the one the registry has under the request's name. *)
Lemma upon_hold_context I req : upon I (hold_context wenv req) (fun b l g => l = []
  /\ (exists id n, auth_context req = Some id /\ valid_id id 32 = true /\ on_context wenv n id = Some b) /\ Holds b True g).
Proof.
  unfold hold_context.
  eapply upon_bind; [apply upon_true, logs_lift|]. stage. eapply upon_bind; [apply upon_true, logs_check|]. stage.
  destruct (negb (valid_id _ 32)) eqn:Hid; [apply upon_reject|].
  eapply upon_bind; [apply upon_true, logs_ask|]. stage. eapply upon_bind; [apply upon_true, logs_lift|]. intros b l. stage.
  repeat match goal with H : ok_or ?x _ = Ok _ |- _ => destruct x eqn:?; [injection H as ->|done] end.
  eapply (upon_bind _ _ _ (fun _ l g => l = [] /\ Holds b True g)).
  { intros w w' r _ [= <- <-]. exists []. rewrite app_nil_r. split; [done|]. split; [apply Forall_nil_2|]. intros [] _.
    split; [done|]. exists b. auto. }
  stage. eapply upon_bind; [apply upon_check_binding|]. stage.
  eapply upon_weaken; [apply upon_kept; [apply logs_ret|inward]|done|]. cbn beta. intros x l g ([-> ->] & Hg).
  split; [done|]. split; [|done]. apply negb_false_iff in Hid.
  match goal with H : exists n, _ |- _ => destruct H as [n Hn] end. eauto 10.
Qed.
Lemma within_exchange f : within keeping (set_exchange f : P unit).
Proof. apply within_run. intros g a _ b Hb. eauto. Qed.
Lemma upon_enter_context s (is_login : bool) b φ : upon (Holds b φ) (enter_context wenv s is_login) (fun _ l g => l = []
  /\ exists b2, Holds b2 (φ /\ jar (b_state b2) = jar (b_state b) /\ b_cancelled b2 = b_cancelled b) g).
Proof.
  unfold enter_context. eapply upon_bind; [apply upon_kept; [apply logs_exchange|apply within_exchange]|]. stage.
  destruct is_login.
  - eapply upon_weaken; [apply upon_on_binding; by intros|done|]. cbn beta. intros [] l' g (-> & now & b2 & Hh).
    split; [done|]. exists b2. destruct Hh as (b' & Hb & Hc). exists b'. split; [done|].
    destruct Hc as [?|(-> & Hp & [= <-])]; [by left|by right].
  - eapply upon_weaken; [apply upon_kept; [apply logs_ret|inward]|done|]. cbn beta. intros [] l' g ([-> _] & Hh).
    split; [done|]. exists b. destruct Hh as (b' & Hb & Hc). exists b'. split; [done|]. naive_solver.
Qed.

(** The request that leaves: the agent's own with at most the cookies that this jar sends
    to the target. *)
Definition carries (req : ExecuteRequest) (w : Work) (j : CookieJar) (cookie : option (list byte)) (body : list byte)
    (out : HttpRequest) : Prop :=
  site_request req (w_target w) cookie body = Ok out
  /\ exists n j', cookie_header j (w_target w) (wall_clock wenv n) = (j', Ok cookie).

Lemma within_substituted w p : within keeping (substituted json_string wenv cfg w p).
Proof. unfold substituted. inward. Qed.
Lemma within_approve_site w : within keeping (approve_site wenv cfg opts w).
Proof. unfold approve_site. inward. Qed.
Lemma within_record_content d v l : within keeping (record_content wenv d v l : P unit).
Proof. unfold record_content. inward. Qed.
#[local] Hint Resolve within_substituted within_approve_site within_record_content : within.

Definition both_allow : Call :=
  Evidence [emission Outbound Agent (PolicyDecision Allow None); emission Outbound Upstream (PolicyDecision Allow None)].
(** Before the commit the context is checked once more. *)
Lemma upon_commit_site req w v t i out b φ : upon (Holds b φ) (commit_site wenv cfg req w v t i out) (fun _ l _ =>
  φ /\ exists a, l = commit_calls req w i out a /\ Session_check a = Ok tt).
Proof.
  unfold commit_site. walk. eapply upon_bind; [apply upon_revalidate_binding|]. stage.
  eapply upon_weaken; [apply (upon_logs _ _ (fun _ l => exists a,
    l = [both_allow; Committed a] /\ Session_check a = Ok tt))|done|].
  { chain. subst. eexists. split; [|done]. reflexivity. }
  cbn beta. intros [] l' _ (x & -> & Ha). split; [done|]. exists x. split; [|done]. subst. reflexivity.
Qed.

Lemma take_state_ok t now b b2 pending : take_state t now b = (b2, Ok pending) ->
  rs_jar pending = jar (b_state b) /\ b_cancelled b2 = b_cancelled b.
Proof. by intros [= <- <-]. Qed.

Lemma upon_prepare_site req w b φ : upon (Holds b φ) (prepare_site json_string wenv cfg opts req w) (fun x l _ =>
  exists s cookie body a, l = prepare_calls cfg opts req w s cookie x.1 a /\ Session_check a = Ok tt
    /\ submitted json_string w s body /\ carries req w (jar (b_state b)) cookie body x.1 /\ store (credential (w_item w)) ∈ stores cfg
    /\ (φ /\ b_cancelled b = false) /\ True).
Proof.
  unfold prepare_site. eapply upon_bind; [apply upon_revalidate_binding|]. walk.
  eapply upon_bind; [apply upon_revalidate_binding|]. walk.
  eapply upon_bind; [apply (upon_on_binding wenv (take_state _)); by intros|]. intros pending lp. stage.
  eapply upon_bind; [apply upon_kept; [apply logs_substituted|apply within_substituted]|]. intros [body pending2] ls. stage.
  eapply upon_bind; [apply upon_kept; [apply logs_ask|inward]|]. intros wall lw. stage.
  eapply upon_bind; [apply (upon_on_binding wenv (outbound _ _ _ _)); by intros|]. intros [[pending3 cookie] template] lo. stage.
  eapply upon_bind; [apply upon_kept; [apply logs_lift|inward]|]. intros out lr. stage.
  eapply upon_bind; [apply upon_commit_site|]. intros [] lc. stage.
  intros w0 w' r Hs [= <- <-]. exists []. rewrite app_nil_r. split; [done|]. split; [apply Forall_nil_2|]. intros y [= <-].
  repeat match goal with H : exists _, _ |- _ => destruct H | H : _ /\ _ |- _ => destruct H end. cbn [fst snd] in *.
  match goal with Ht : take_state _ _ _ = _, Ho : outbound _ _ _ _ _ _ = _ |- _ =>
    apply take_state_ok in Ht as [Hj _]; apply outbound_cookie in Ho end.
  subst. unfold prepare_calls. do 4 eexists. split; [|split; [eassumption|split; [eassumption|split; [|done]]]].
  - rewrite ?app_nil_r. cbn [app]. reflexivity.
  - split; [done|]. do 2 eexists. rewrite <-Hj. match goal with Hr : rs_jar _ = rs_jar _ |- _ => rewrite <-Hr end. eassumption.
Qed.
End Visits.
#[export] Hint Resolve within_on_binding within_substituted within_approve_site within_record_content : within.

Section Handoff.
Context `{Base64} `{Http} `{Urls} `{HttpMessage} `{JsonText} `{Selectors}
  (json_string : list byte -> option (list byte)) (parse_http_date : list byte -> option Z).
Context {F : Type} `{Observer F} {R : Type} `{RemoteContext R}.
Context (wenv : WebEnv F R) (cfg : Configuration) (opts : SessionOptions).
Abbreviation P := (Prog F R).
Abbreviation hands_off := (hands_off (F:=F) (R:=R)).

(** What one hand-off was decided on. *)
Record Visit := mkVisit {
  v_context : Binding; v_work : Work; v_found : list SocketAddr; v_endpoint : Endpoint;
  v_snapshot : option Snapshot; v_cookie : option (list byte); v_body : list byte;
  v_request : HttpRequest; v_authority : Authority }.

(** The calls of a hand-off, in order. *)
Definition site_calls (req : ExecuteRequest) (v : Visit) : list Call :=
  let w := v_work v in
  [Evidence [emission Outbound Agent (start_event req w (safe_headers (headers req)))];
   Resolved (trim_brackets (target_host (w_target w))) (target_port (w_target w)) (v_found v)]
  ++ prepare_calls cfg opts req w (v_snapshot v) (v_cookie v) (v_request v) (v_authority v).

(** The policy of the host, the session, the profile and the context admits the request. *)
Record visited (req : ExecuteRequest) (v : Visit) : Prop := {
  vs_session : resource req ∈ o_resources opts;
  vs_profile : find_first (fun p => bool_decide (profile_id p = resource req)) (profiles cfg) = Some (w_profile (v_work v));
  vs_target : Target_parse (target req) = Ok (w_target (v_work v));
  vs_body : decode_body req = Ok (w_body (v_work v));
  vs_route : authorize (w_profile (v_work v)) (method req) (w_target (v_work v)) (len (w_body (v_work v))) = Ok (w_route (v_work v));
  vs_headers : authorize_headers (w_route (v_work v)) (headers req) = Ok tt;
  vs_form : auth (w_profile (v_work v)) = FormAuth (w_login (v_work v));
  vs_bounds : streaming (w_route (v_work v)) = false /\ max_response_bytes (w_route (v_work v)) <= 256 * 1024
              /\ len (w_body (v_work v)) <= 256 * 1024;
  vs_context : exists id n, auth_context req = Some id /\ valid_id id 32 = true /\ on_context wenv n id = Some (v_context v);
  vs_item : w_item (v_work v) = b_item (v_context v) /\ w_lease (v_work v) = b_lease (v_context v);
  vs_granted : item_profile (b_item (v_context v)) = profile_id (w_profile (v_work v))
               /\ item_allowed opts (b_item (v_context v)) = true;
  vs_clean : reserved (target req) = false
             /\ existsb (fun h => reserved h.1 || reserved h.2) (headers req) = false;
  vs_page : w_page (v_work v) = bool_decide (method req = "GET")
              && bool_decide (target_as_str (w_target (v_work v)) = login_page (w_login (v_work v)));
  vs_submits : w_submits (v_work v) = bool_decide (method req = "POST")
              && bool_decide (target_as_str (w_target (v_work v)) = login_target (w_login (v_work v)));
  vs_live : b_cancelled (v_context v) = false;
  vs_state : exists previous, admit_body (w_login (v_work v)) (request_media req) (w_body (v_work v))
               (w_page (v_work v)) (w_submits (v_work v)) (b_state (v_context v)) = Ok (w_parsed (v_work v), previous);
  vs_addresses : permits_all (addresses (w_profile (v_work v))) (map fst (v_found v)) = true
                 /\ Forall (fun a => a.2 = target_port (w_target (v_work v))) (v_found v);
  vs_first : exists a rest, v_found v = a :: rest
             /\ Endpoint_new (profile_origin (w_profile (v_work v))) a = Ok (v_endpoint v);
  vs_store : store (credential (w_item (v_work v))) ∈ stores cfg }.

Lemma admit_context_ok req p b : admit_context opts req p b = Ok tt ->
  (item_profile (b_item b) = profile_id p /\ item_allowed opts (b_item b) = true)
  /\ reserved (target req) = false /\ existsb (fun h => reserved h.1 || reserved h.2) (headers req) = false.
Proof. unfold admit_context. destruct (_ || _) eqn:E; [done|]. intros _. bool_hyps. done. Qed.

Lemma admit_site_ok req p t body login route : admit_site req p t body = Ok (login, route) ->
  auth p = FormAuth login /\ authorize p (method req) t (len body) = Ok route
  /\ streaming route = false /\ max_response_bytes route <= 256 * 1024 /\ len body <= 256 * 1024.
Proof.
  unfold admit_site. destruct (auth p); try done. destruct (authorize _ _ _ _) as [r|] eqn:Hr; cbn; [|done].
  destruct (_ || _) eqn:E; [done|]. intros [= <- <-]. bool_hyps. split_and!; try done; lia.
Qed.

Lemma hands_upon_execute {A} I e out (k : HttpResponse -> P A) : (forall x, logs (F:=F) (R:=R) (k x) (fun _ _ => True)) ->
  hands_upon I (execute (web wenv) e out ≫= k) (fun l => exists rest, l = Executed e out :: rest /\ no_execution rest).
Proof. intros Hk. by apply hands_upon_off, hands_off_execute. Qed.
Lemma hands_upon_exchange req w b φ :
  hands_upon (Holds b φ) (website_exchange json_string parse_http_date wenv cfg opts req w) (fun l =>
    exists found e s cookie body out a rest,
      l = [Evidence [emission Outbound Agent (start_event req w (safe_headers (headers req)))];
           Resolved (trim_brackets (target_host (w_target w))) (target_port (w_target w)) found]
          ++ prepare_calls cfg opts req w s cookie out a ++ Executed e out :: rest
      /\ admit_addresses (w_profile w) (w_target w) found = Ok e /\ Session_check a = Ok tt
      /\ submitted json_string w s body /\ carries wenv req w (jar (b_state b)) cookie body out
      /\ store (credential (w_item w)) ∈ stores cfg /\ φ /\ b_cancelled b = false /\ no_execution rest).
Proof.
  unfold website_exchange. walk.
  eapply hands_upon_bind; [apply upon_prepare_site|]. intros [out pending] lp. stage. cbn [fst snd] in *. subst. cbn [app].
  eapply hands_upon_weaken; [apply (hands_upon_execute (fun _ => True)); intros; apply logs_receive_site|done|].
  intros l' (rest & -> & Hn). do 8 eexists. rewrite ?app_nil_r, <-?app_assoc. by split_and!.
Qed.

Lemma hands_upon_site req :
  hands_upon (fun _ => True) (dispatch_site json_string parse_http_date wenv cfg opts req) (fun l =>
    exists v rest, l = site_calls req v ++ Executed (v_endpoint v) (v_request v) :: rest
      /\ visited req v /\ submitted json_string (v_work v) (v_snapshot v) (v_body v)
      /\ carries wenv req (v_work v) (jar (b_state (v_context v))) (v_cookie v) (v_body v) (v_request v)
      /\ Session_check (v_authority v) = Ok tt /\ no_execution rest).
Proof.
  unfold dispatch_site, dispatch_website.
  eapply hands_upon_bind; [apply upon_true, logs_lift|]. intros [[[p t] body] r] l. stage.
  eapply hands_upon_bind; [apply upon_hold_context|]. intros b lb. stage.
  eapply hands_upon_bind; [apply upon_kept; [apply logs_lift|inward]|]. intros [] lc. stage.
  eapply hands_upon_bind; [apply upon_kept; [apply logs_lift|inward]|]. intros [login route] ls. stage.
  eapply hands_upon_bind; [apply upon_kept; [apply logs_ask|inward]|]. intros free lf. stage.
  destruct (negb free); [apply hands_upon_reject|].
  eapply hands_upon_bind; [apply (upon_on_binding wenv); by intros|]. intros [parsed previous] lo. stage.
  eapply hands_upon_bind; [apply upon_enter_context|]. stage.
  eapply hands_upon_weaken; [apply hands_upon_exchange|done|]. intros lx.
  intros (found & e & s & cookie & body' & out & a' & rest & -> & He & Ha & Hs & Hc & Hst & Hp & Hlive & Hn).
  destruct Hp as ((_ & Hb) & Hjar & Hcan). injection Hb as <- Hadm. cbn [w_profile w_target w_item] in He, Hst. rewrite Hjar in Hc.
  eexists (mkVisit _ _ found e s cookie body' out a'), rest.
  cbn [v_context v_work v_snapshot v_cookie v_request v_authority v_endpoint v_body].
  split; [unfold site_calls; cbn [v_work v_found v_snapshot v_cookie v_request v_authority]; cbn [app]; rewrite ?app_nil_r, <-?app_assoc; reflexivity|].
  split; [|done].
  repeat match goal with
  | H : admit_request _ _ _ = Ok _ |- _ => apply admit_ok in H
  | H : admit_context _ _ _ _ = Ok _ |- _ => apply admit_context_ok in H
  | H : admit_site _ _ _ _ = Ok _ |- _ => apply admit_site_ok in H
  | H : admit_addresses _ _ _ = Ok _ |- _ => apply admit_addresses_ok in H
  | H : _ /\ _ |- _ => destruct H
  end.
  match goal with Ha : authorize _ _ _ _ = Ok ?r, Hb : authorize _ _ _ _ = Ok ?r1 |- _ =>
    assert (r1 = r) as -> by congruence end.
  constructor; cbn [v_context v_work v_found v_endpoint w_profile w_login w_target w_route w_item w_lease w_body w_parsed w_page w_submits];
    first [eassumption | reflexivity | by split_and!; eassumption | by eexists | congruence | by do 2 eexists; split_and!; eassumption].
Qed.

End Handoff.

(** ** Outcome *)

Section Outcome.
Context `{Base64} `{Http} `{Urls} `{HttpMessage} `{JsonText} `{Selectors}
  (json_string : list byte -> option (list byte)) (parse_http_date : list byte -> option Z).
Context {F : Type} `{ObserverLaws F} {R : Type} `{RemoteContext R}.
Context (wenv : WebEnv F R) (cfg : Configuration) (opts : SessionOptions).
Abbreviation P := (Prog F R).
Abbreviation site req := (dispatch_site json_string parse_http_date wenv cfg opts req : P Inspected).

Lemma committed_exchange req w :
  committed false (website_exchange json_string parse_http_date wenv cfg opts req w : P Inspected).
Proof.
  unfold website_exchange. repeat first
    [ match goal with |- forall _, _ => intro end
    | match goal with
      | |- committed true _ => eapply committed_tail;
          [eapply guided_bind; [apply guided_execute|intros; apply guided_receive_site]
          |apply hands_off_execute; intros; apply logs_receive_site]
      | |- committed _ (mbind _ _) => eapply committed_bind; [solve [eauto with guided]|solve [eauto with logs]|]
      | |- committed _ (mbind _ _) => eapply committed_bind; [apply guided_move_to; cbn; set_solver|solve [eauto with logs]|]
      | |- committed _ (match ?x with _ => _ end) => destruct x
      end ].
Qed.
Lemma committed_site req : committed false (site req).
Proof.
  unfold dispatch_site, dispatch_website. repeat first
    [ match goal with |- forall _, _ => intro end
    | match goal with
      | |- committed _ (reject _) => apply committed_reject
      | |- committed _ (website_exchange _ _ _ _ _ _ _) => apply committed_exchange
      | |- committed _ (mbind _ _) => eapply committed_bind; [solve [eauto with guided]|solve [eauto with logs]|]
      | |- committed _ (if ?b then _ else _) => destruct b
      | |- committed _ (match ?x with _ => _ end) => destruct x
      end ].
Qed.

(** What a website request is reported as never contradicts what was done with it:
    whatever the store, the context registry, the transport and the approver answer, and
    whatever else cancels, expires or revokes at any step, once the exchange and everything
    after it are over and its guard is gone its operation is terminal; if the request may
    have left the broker it is [Completed] or of unknown outcome, never failed. *)
Lemma website_outcome a req (f : F) n (w' : World F R) res (ms : list (Move F R)) :
  site req (mkWorld (tracked a req f) n []) = (w', res) -> lives (guard w') ms ->
  let o := guard_op (guard_drop (life (guard w') ms)) in
  terminal (op_state o) = true
  /\ (is_ok res = true \/ ~ no_execution (log w') -> op_state o = Completed \/ op_state o = OpOutcomeUnknown)
  /\ (dispatched (life (guard w') ms) = false -> op_state o <> OpOutcomeUnknown).
Proof.
  intros Hr Hl o. set (w0 := mkWorld (tracked a req f) n []) in Hr.
  destruct (guided_dispatch_site json_string parse_http_date wenv cfg opts req w0 _ _ eq_refl Hr) as (ms0 & L0 & E0 & D0).
  destruct (committed_site req w0 _ _ eq_refl Hr) as (l & El & Hx). cbn in L0, E0, El.
  destruct (tracked_outcome a req f (ms0 ++ ms)) as (O1 & O2 & O3).
  { apply lives_app; [done|]. by rewrite <-E0. }
  rewrite life_app, <-E0 in O1, O2, O3. split; [done|]. split; [|done].
  intros Hs. apply O2, life_dispatched. destruct Hs as [Hs|Hs]; [by apply D0|].
  destruct Hx as [Hx|Hx]; [|done]. destruct Hs. by rewrite El.
Qed.
End Outcome.

(** ** Responses *)

Section Responses.
Context `{Base64Laws} `{Http} `{Urls} `{HttpMessage} `{JsonText} `{Selectors}
  (json_string : list byte -> option (list byte)) (parse_http_date : list byte -> option Z).
Hypothesis json_nonempty : forall v j, json_string v = Some j -> v <> [] -> (2 < length j)%nat.
Abbreviation covers := (covers json_string).

Lemma merged_covers r q m vs ws : covers r vs -> covers q ws -> merged r q = Ok m -> covers m (vs ++ ws).
Proof.
  intros Hr Hq Hm. unfold merged in Hm. destruct (_ || _); [done|]. injection Hm as <-.
  pose proof (combined_covers _ _ _ _ _ Hr Hq) as Hc. cbn in Hc.
  destruct Hr as [_ [Hp Hd] _]. rewrite Hp, Hd in Hc. exact Hc.
Qed.
Lemma fresh_covers r vs : covers r vs -> covers (fresh r) vs.
Proof. by intros [Hw Hf Hv]. Qed.

(** The values the private state of an exchange knows. *)
Lemma capture_covers j t hs wall j' rest r : capture json_string parse_http_date j t hs wall = (j', rest, Ok r) ->
  covers r (map as_bytes (history j')).
Proof.
  unfold capture. destruct (8 <? _); [done|]. destruct (bool_decide _); [done|].
  destruct (capture_inner _ _ _ _ _ _) as [[j1 r1]|] eqn:E; [|done]. intros [= <- <- <-].
  unfold capture_inner in E. destruct (check_origin _ _); [|done]. cbn in E.
  destruct (capture_all _ _ _ _ _ _ _) as [[cs hist]|]; [|done]. cbn in E.
  destruct (Redactor_new _ _) as [r0|] eqn:Hr; [|done]. cbn in E. injection E as <- <-. cbn.
  by apply (new_covers _ json_nonempty).
Qed.

(** The body before redaction, and the page token it no longer holds. *)
Definition page_secret (w : Work) (bytes : list byte) (random : option string) (body : list byte)
    (secrets : list (list byte)) : Prop :=
  match csrf (w_login w), w_page w with
  | Some p, true => exists t, from_page p bytes random = Ok (t, body) /\ secrets = [as_bytes (csrf_value t)]
  | _, _ => body = bytes /\ secrets = []
  end.
Lemma from_page_bound p bytes random t page : from_page p bytes random = Ok (t, page) -> len page <= MAX_FEED.
Proof.
  unfold from_page. destruct (MAX_LOGIN <? len bytes); [done|]. intros Hpage.
  apply bind_Ok in Hpage as (d & _ & Hpage). destruct (negb _); [done|].
  do 4 apply bind_Ok in Hpage as (? & _ & Hpage). destruct (MAX_LOGIN <? _) eqn:Hl; [done|].
  injection Hpage as _ <-. apply Z.ltb_ge in Hl. exact Hl.
Qed.
Lemma take_token_covers w pending bytes random pending' body vs :
  take_token json_string w pending bytes random = Ok (pending', body) -> covers (rs_template pending) vs ->
  len bytes <= MAX_FEED ->
  exists secrets, page_secret w bytes random body secrets /\ covers (rs_template pending') (vs ++ secrets)
    /\ rs_jar pending' = rs_jar pending /\ len body <= MAX_FEED.
Proof.
  unfold take_token, page_secret. intros Ht Hc Hl. destruct (csrf (w_login w)) as [p|]; [destruct (w_page w)|].
  2,3: injection Ht as <- <-; exists []; rewrite app_nil_r; done.
  destruct (from_page p bytes random) as [[token page]|] eqn:Hpage; cbn in Ht; [|done].
  apply from_page_bound in Hpage as Hb.
  destruct (csrf_redactor json_string token) as [r|] eqn:Hr; cbn in Ht; [|done].
  destruct (merged (rs_template pending) r) as [m|] eqn:Hm; cbn in Ht; [|done]. injection Ht as <- <-. cbn.
  exists [as_bytes (csrf_value token)]. split_and!; [by exists token| |done|done].
  eapply merged_covers; [exact Hc| |exact Hm]. by apply (new_covers _ json_nonempty).
Qed.

(** What makes a context authenticated that was [previous] before. *)
Definition authenticates (w : Work) (response : HttpResponse) (j : CookieJar) (previous : AuthState) : Prop :=
  if w_submits w then
    http_status response = success_status (success (w_login w))
    /\ (exists parsed, Json.decode json_parse Some (mjoin (frames response)) = Some parsed
          /\ pointer parsed (json_pointer (success (w_login w))) = Some (expected (success (w_login w))))
    /\ exists later j', has_all j (cookie_names (success (w_login w))) later = (j', Ok true)
  else http_status response ∉ [401; 403] /\ previous = Authenticated.

Lemma next_state_ok w response parsed pending previous later pending' final :
  next_state w (http_status response) parsed pending previous later = Ok (pending', final) ->
  Json.decode json_parse Some (mjoin (frames response)) = Some parsed ->
  rs_template pending' = rs_template pending
  /\ (final = Authenticated -> authenticates w response (rs_jar pending) previous).
Proof.
  unfold next_state, authenticates. intros Hn Hp. destruct (w_submits w).
  - unfold succeeded in Hn. destruct (_ && _) eqn:E.
    + bool_hyps. destruct (has_all _ _ _) as [j [ok|]] eqn:Ha; cbn in Hn; [|done]. destruct ok.
      * injection Hn as <- <-. cbn. split; [done|]. intros _. split_and!; [lia|by eexists|by do 2 eexists].
      * destruct (is_redirection _); [done|]. by injection Hn as <- <-.
    + cbn in Hn. destruct (is_redirection _); [done|]. by injection Hn as <- <-.
  - destruct (bool_decide_reflect (http_status response ∈ [401; 403])); by injection Hn as <- <-.
Qed.

(** What a settled response has fixed. *)
Record settled (w : Work) (response : HttpResponse) (pending : ResponseState) (vs : list (list byte)) (s : Settled)
    (j : CookieJar) (random : option string) (secrets : list (list byte)) (previous : AuthState) : Prop := {
  sd_jar : exists wall hs cookies, capture json_string parse_http_date (rs_jar pending) (w_target w)
             (response_headers response) wall = (j, hs, Ok cookies) /\ st_headers s = hs;
  sd_secret : page_secret w (mjoin (frames response)) random (st_body s) secrets;
  sd_covers : covers (st_template s) ((vs ++ map as_bytes (history j)) ++ secrets);
  sd_bound : len (st_body s) <= MAX_FEED;
  sd_redirect : is_redirection (http_status response) = true ->
    w_submits w = true /\ http_status response = 303 /\ is_Some (post_login_redirect (w_login w));
  sd_final : st_final s = Authenticated -> authenticates w response j previous }.

Lemma settle_ok w response pending previous wall later random now b b' s vs :
  settle json_string parse_http_date w response (mjoin (frames response)) pending previous wall later random now b = (b', Ok s) ->
  covers (rs_template pending) vs -> len (mjoin (frames response)) <= MAX_FEED ->
  exists j secrets, settled w response pending vs s j random secrets previous.
Proof.
  unfold settle. intros [= _ Hs] Hv Hl. revert Hs. destruct (_ || _); [done|].
  destruct (capture _ _ _ _ _ _) as [[j hs] [cookies|]] eqn:Hcap; cbn [mbind result_bind]; [|done].
  destruct (merged (rs_template pending) cookies) as [m|] eqn:Hm; cbn [mbind result_bind rs_template rs_csrf rs_jar]; [|done].
  destruct (is_redirection _ && _) eqn:Hred; [done|].
  intros (parsed & Hp & Hs)%bind_Ok. apply ok_or_Ok in Hp.
  apply bind_Ok in Hs as ([p2 body] & Ht & Hs). apply bind_Ok in Hs as ([p3 final] & Hn & Hs).
  apply bind_Ok in Hs as (obs & _ & Hs). injection Hs as <-.
  pose proof (merged_covers _ _ _ _ _ Hv (capture_covers _ _ _ _ _ _ _ Hcap) Hm) as Hc.
  destruct (take_token_covers _ _ _ _ _ _ _ Ht Hc Hl) as (secrets & Hsec & Hc2 & Hjar & Hb). cbn in Hjar.
  destruct (next_state_ok _ _ _ _ _ _ _ _ Hn Hp) as (Htmp & Hfin). rewrite Hjar in Hfin.
  exists j, secrets. constructor; cbn [st_headers st_body st_template st_final]; try done.
  - by exists wall, hs, cookies.
  - rewrite Htmp. by apply fresh_covers.
  - intros Hr. rewrite Hr in Hred. cbn in Hred. bool_hyps. split_and!; try done; lia.
Qed.

Context {F : Type} `{Observer F} {R : Type} `{RemoteContext R}.
Context (wenv : WebEnv F R) (cfg : Configuration).

Lemma prog_bind_Ok {A B} (m : Prog F R A) (k : A -> Prog F R B) w w' b : (m ≫= k) w = (w', Ok b) ->
  exists a w1, m w = (w1, Ok a) /\ k a w1 = (w', Ok b).
Proof. unfold mbind, prog_bind. destruct (m w) as [w1 [a|e]]; [|done]. intros Hk. by exists a, w1. Qed.
Lemma lift_Ok {A} (r : Result A) (w w' : World F R) a : lift r w = (w', Ok a) -> w' = w /\ r = Ok a.
Proof. by intros [= <- ->]. Qed.

Lemma deliver_ok w response upstream s (w0 w1 : World F R) r :
  deliver_site json_string wenv w response upstream s w0 = (w1, Ok r) ->
  exists z, sanitize_site json_string w response s = Ok z /\ inspected_body w z = Ok (in_body r)
    /\ in_status r = s_status z /\ in_headers r = sanitized_headers z
    /\ forall e, website (guard w1) = Some e -> e = mkExchange (st_final s) (Some (st_pending s)).
Proof.
  unfold deliver_site. intros Hd.
  apply prog_bind_Ok in Hd as (both & v1 & _ & Hd). apply prog_bind_Ok in Hd as (uo & v2 & _ & Hd).
  apply prog_bind_Ok in Hd as (z & v3 & [_ Hz]%lift_Ok & Hd). apply prog_bind_Ok in Hd as (bytes & v4 & [_ Hb]%lift_Ok & Hd).
  apply prog_bind_Ok in Hd as (ob & v5 & _ & Hd). do 5 apply prog_bind_Ok in Hd as (? & ? & _ & Hd).
  apply prog_bind_Ok in Hd as ([] & v6 & Hx & Hd). injection Hd as <- <-. injection Hx as <-. cbn.
  exists z. split_and!; try done. intros e. destruct (website _); [|done]. by intros [= <-].
Qed.

(** The steps before the response is settled leave the exchange's own state alone. *)
Definition same_exchange : relation (Guard F R) := fun g g' => website g' = website g.
#[local] Instance same_preorder : PreOrder same_exchange.
Proof. split; [done|]. unfold same_exchange. intros x y z. congruence. Qed.
#[local] Instance same_steady : Steady same_exchange.
Proof. split; [exact _|]. by intros g g' _ _ Hw _ _. Qed.
#[local] Instance same_calm : Calm (web wenv) same_exchange.
Proof. split; [exact _|done]. Qed.
Lemma same_on_binding {A} (f : Z -> Binding -> Binding * Result A) : within same_exchange (on_binding wenv f).
Proof.
  unfold on_binding. eapply within_bind; [exact _|apply within_pass; exact _|]. intros _. apply within_run.
  intros g a _. destruct (binding (shared g)); [|done]. by destruct (f _ _).
Qed.
#[local] Hint Resolve same_on_binding : within.
Lemma same_check_binding : within same_exchange (check_binding wenv).
Proof. apply same_on_binding. Qed.
Lemma same_take_back r : within same_exchange (take_back wenv r).
Proof. unfold take_back. inward. Qed.
#[local] Hint Resolve same_check_binding same_take_back : within.
Lemma same_revalidate i l : within same_exchange (revalidate_binding wenv cfg i l).
Proof. unfold revalidate_binding. inward. Qed.

(** The state that the context had when the exchange took it. *)
Definition entered_as (g : Guard F R) : AuthState := from_option final_state Unauthenticated (website g).

Lemma receive_ok w response pending (w0 w1 : World F R) r :
  receive_site json_string parse_http_date wenv cfg w response pending w0 = (w1, Ok r) ->
  len (mjoin (frames response)) <= MAX_FEED /\
  exists wall later random now b b' s v0,
    settle json_string parse_http_date w response (mjoin (frames response)) pending (entered_as (guard w0)) wall later random now b = (b', Ok s)
    /\ deliver_site json_string wenv w response (mjoin (frames response)) s v0 = (w1, Ok r).
Proof.
  unfold receive_site. intros Hr. apply prog_bind_Ok in Hr as ([] & w2 & E1 & Hr). destruct (negb _); [done|].
  apply prog_bind_Ok in Hr as ([] & w3 & E2 & Hr).
  apply prog_bind_Ok in Hr as (fails & ? & [= <- <-] & Hr). apply prog_bind_Ok in Hr as (trailers & ? & [= <- <-] & Hr).
  apply prog_bind_Ok in Hr as (bytes & ? & [-> Hc]%lift_Ok & Hr).
  assert (Hb : bytes = mjoin (frames response) /\ len bytes <= MAX_FEED).
  { unfold collected in Hc. destruct (_ || _) eqn:E; [done|]. destruct (body_trailers _ _); [done|]. injection Hc as <-.
    bool_hyps. unfold limit_of, MAX_FEED in *. split; [done|lia]. }
  destruct Hb as [-> Hl]. split; [done|].
  apply prog_bind_Ok in Hr as ([] & w4 & E3 & Hr). apply prog_bind_Ok in Hr as (g & ? & [= <- <-] & Hr).
  assert (Hw : website (guard w4) = website (guard w0)).
  { etransitivity; [eapply same_revalidate, E3|]. etransitivity; [eapply (within_await (web wenv) same_exchange), E2|].
    eapply (within_evidence (web wenv) same_exchange), E1. }
  do 3 apply prog_bind_Ok in Hr as (? & ? & [= <- <-] & Hr). apply prog_bind_Ok in Hr as (s & v0 & Hs & Hr).
  unfold on_binding in Hs. apply prog_bind_Ok in Hs as (? & v1 & _ & Hs). unfold run_guard in Hs.
  destruct (binding (shared (guard v1))) as [b|]; [|done]. destruct (settle _ _ _ _ _ _ _ _ _ _ _ _) as [b' r'] eqn:E.
  injection Hs as _ ->. unfold entered_as. rewrite <-Hw. do 8 eexists. by split.
Qed.

Lemma sanitize_site_ok w response s z vs : sanitize_site json_string w response s = Ok z -> covers (st_template s) vs ->
  s_status z = http_status response /\ s_frames z = [st_body s]
  /\ s_location z = (if is_redirection (http_status response) then post_login_redirect (w_login w) else None)
  /\ s_media z ∈ ["application/json"; "text/event-stream"; "text/plain"]
  /\ exists ws, covers (s_redactor z) (vs ++ ws).
Proof.
  unfold sanitize_site. intros Hz Hc. destruct (is_redirection (http_status response)).
  - apply bind_Ok in Hz as (target & Ht & Hz). apply ok_or_Ok in Ht. unfold sanitize_login_redirect in Hz.
    apply bind_Ok in Hz as (parsed & _ & Hz). destruct (_ || _); [done|].
    destruct (sanitize_inner_Ok _ json_nonempty _ _ _ _ _ Hc Hz) as (S1 & S2 & S3 & _ & _ & S6 & ws & _ & S8).
    rewrite Ht. split_and!; try done; [by eapply media_listed|by exists ws].
  - destruct (sanitize_inner_Ok _ json_nonempty _ _ _ _ _ Hc Hz) as (S1 & S2 & S3 & _ & _ & S6 & ws & _ & S8).
    split_and!; try done; [by eapply media_listed|by exists ws].
Qed.

Lemma inspected_hides w z bytes vs body : inspected_body w z = Ok bytes -> s_frames z = [body] -> len body <= MAX_FEED ->
  covers (s_redactor z) vs ->
  exists ss, bytes = flat_map render ss /\ flat_map source ss = body
    /\ forall i b v ps p, ss !! i = Some (Shown b) -> v ∈ vs -> representations json_string v = Some ps -> p ∈ ps ->
         starts_with (flat_map source (drop i ss)) p = false.
Proof.
  unfold inspected_body, sanitized_body. intros Hi Hf Hl Hc. rewrite Hf in Hi.
  destruct (covers_hides json_string (s_redactor z) vs [body] Hc) as (B1 & B2 & B3); [by constructor|].
  rewrite B1 in Hi. destruct (_ <? _); [done|]. injection Hi as <-.
  exists (pieces (find_pattern (patterns (s_redactor z))) (mjoin [body])).
  split; [reflexivity|]. split; [|exact B3]. rewrite B2. apply app_nil_r.
Qed.

End Responses.
