(* ===== verification/Attempts.v ===== *)
(** * How often a login is tried ([aap-engine/src/website.rs])

    Every submission of a credential is counted against its session and against the host;
    whatever the sessions do, the attempts of any 600 seconds are bounded for each. *)
From Stdlib Require Import Sorting.Sorted.
From S2P Require Import Prelude Protocol Website.

(** A try: the session, the item and the instant. *)
Record Try := mkTry { t_session : string; t_item : string; t_now : Z }.
(** The books of a host: one of each session's vault, and its own. *)
Record Books := mkBooks { b_sessions : gmap string (gmap string (list Z)); b_host : gmap string (list Z) }.

(** `aap-engine/src/website.rs:475-499`, `Session::login_attempt` (among the sessions of a host) *)
Definition attempt (b : Books) (x : Try) : Books * Result unit :=
  let (a, r) := login_attempt (mkAttempts (default ∅ (b_sessions b !! t_session x)) (b_host b)) (t_item x) (t_now x) in
  (mkBooks (<[t_session x := at_local a]> (b_sessions b)) (at_global a), r).
(** The tries that were let through. *)
Fixpoint let_through (b : Books) (xs : list Try) : list Try :=
  match xs with
  | [] => []
  | x :: xs => let (b, r) := attempt b x in (if is_ok r then [x] else []) ++ let_through b xs
  end.
Definition no_books : Books := mkBooks ∅ ∅.

Definition book (b : Books) (s i : string) : list Z := entry (default ∅ (b_sessions b !! s)) i.
Definition host_book (b : Books) (i : string) : list Z := entry (b_host b) i.

(** The instants of the chosen tries, and those of the 600 seconds up to [t]. *)
Definition instants (sel : Try -> bool) (g : list Try) : list Z := map t_now (List.filter sel g).
Definition window (t p : Z) : bool := (t - attempt_age <? p) && (p <=? t).
Definition tries_within (t : Z) (sel : Try -> bool) (g : list Try) : Z := len (List.filter (window t) (instants sel g)).
Definition of_session (s i : string) (x : Try) : bool := bool_decide (t_session x = s) && bool_decide (t_item x = i).
Definition of_item (i : string) (x : Try) : bool := bool_decide (t_item x = i).

(** ** One book *)

Section Book.
Context (sel : Try -> bool).

Definition tracks (last : Z) (l : list Z) (g : list Try) : Prop :=
  forall now, last <= now -> recent now l = recent now (instants sel g).

Lemma recent_again now now' l : now <= now' -> recent now' (recent now l) = recent now' l.
Proof.
  intros Hn. unfold recent. induction l as [|p l IH]; cbn; [done|].
  destruct (saturating_sub now p <? attempt_age) eqn:E1; cbn; [by rewrite IH|].
  destruct (saturating_sub now' p <? attempt_age) eqn:E2; [|done].
  unfold saturating_sub in *. lia.
Qed.
Lemma recent_app now l l' : recent now (l ++ l') = recent now l ++ recent now l'.
Proof. unfold recent. by rewrite List.filter_app. Qed.
Lemma instants_app g g' : instants sel (g ++ g') = instants sel g ++ instants sel g'.
Proof. unfold instants. by rewrite List.filter_app, map_app. Qed.

Lemma tracks_later last now l g : tracks last l g -> last <= now -> tracks now l g.
Proof. intros Ht Hl n Hn. apply Ht. lia. Qed.
Lemma tracks_kept last now l g : tracks last l g -> last <= now -> tracks now (recent now l) g.
Proof. intros Ht Hl n Hn. rewrite recent_again by done. apply Ht. lia. Qed.
Lemma tracks_more last l g x : tracks last l g -> last <= t_now x -> sel x = true ->
  tracks (t_now x) (recent (t_now x) l ++ [t_now x]) (g ++ [x]).
Proof.
  intros Ht Hl Hx n Hn. rewrite instants_app, !recent_app. f_equal.
  - rewrite recent_again by done. apply Ht. lia.
  - unfold instants. cbn. by rewrite Hx.
Qed.
Lemma tracks_other last l g x : tracks last l g -> sel x = false -> tracks last l (g ++ [x]).
Proof.
  intros Ht Hx n Hn. rewrite instants_app. unfold instants at 2. cbn. rewrite Hx. cbn. rewrite app_nil_r. by apply Ht.
Qed.

Lemma tries_app t g x : tries_within t sel (g ++ [x]) =
  tries_within t sel g + (if sel x && window t (t_now x) then 1 else 0).
Proof.
  unfold tries_within. rewrite instants_app, List.filter_app. unfold len. rewrite length_app.
  unfold instants at 2. cbn. destruct (sel x); cbn; [|lia]. destruct (window t (t_now x)); cbn; lia.
Qed.
Lemma window_recent t now l : now <= t -> Forall (fun p => p <= now) l ->
  len (List.filter (window t) l) <= len (recent now l).
Proof.
  intros Ht. unfold len, recent. induction 1 as [|p l Hp _ IH]; cbn; [lia|].
  destruct (window t p) eqn:E.
  - unfold window in E. apply andb_true_iff in E as [E _]. apply Z.ltb_lt in E.
    assert (Hs : (saturating_sub now p <? attempt_age) = true).
    { unfold saturating_sub. unfold attempt_age in *. lia. }
    rewrite Hs. cbn. lia.
  - destruct (_ <? _); cbn; lia.
Qed.
Lemma bounded_more n last l g x : tracks last l g -> last <= t_now x -> Forall (fun y => t_now y <= last) g ->
  len (recent (t_now x) l) < n -> (forall t, tries_within t sel g <= n) -> forall t, tries_within t sel (g ++ [x]) <= n.
Proof.
  intros Ht Hl Hg Hn Hb t. rewrite tries_app. specialize (Hb t). destruct (sel x && window t (t_now x)) eqn:E; [|lia].
  apply andb_true_iff in E as [_ E]. unfold window in E. apply andb_true_iff in E as [_ E]. apply Z.leb_le in E.
  rewrite (Ht _ Hl) in Hn. unfold tries_within.
  assert (Hi : Forall (fun p => p <= t_now x) (instants sel g)).
  { unfold instants. apply Forall_map. apply Forall_forall. intros y Hy. cbn.
    apply list_elem_of_In, List.filter_In in Hy as [Hy _]. apply list_elem_of_In in Hy.
    rewrite Forall_forall in Hg. specialize (Hg _ Hy). lia. }
  pose proof (window_recent t (t_now x) _ E Hi). lia.
Qed.
End Book.

(** ** All of them *)

Record kept (last : Z) (b : Books) (g : list Try) : Prop := {
  k_past : Forall (fun x => t_now x <= last) g;
  k_session s i : tracks (of_session s i) last (book b s i) g;
  k_host i : tracks (of_item i) last (host_book b i) g;
  k_five s i t : tries_within t (of_session s i) g <= 5;
  k_twenty i t : tries_within t (of_item i) g <= 20 }.

Lemma attempt_books b x b' r : attempt b x = (b', r) ->
  (forall s i, book b' s i = if of_session s i x then
      (if is_ok r then recent (t_now x) (book b s i) ++ [t_now x] else recent (t_now x) (book b s i)) else book b s i)
  /\ (forall i, host_book b' i = if of_item i x then
      (if is_ok r then recent (t_now x) (host_book b i) ++ [t_now x] else recent (t_now x) (host_book b i)) else host_book b i)
  /\ (is_ok r = true -> len (recent (t_now x) (book b (t_session x) (t_item x))) < 5
      /\ len (recent (t_now x) (host_book b (t_item x))) < 20).
Proof.
  destruct x as [s0 i0 now]. unfold attempt, login_attempt, book, host_book, of_session, of_item, entry.
  cbn [at_local at_global t_session t_item t_now].
  destruct (_ || _) eqn:E; intros [= <- <-]; cbn [b_sessions b_host is_ok at_local at_global]; split_and!.
  1,4: intros s i; destruct (decide (s = s0)) as [->|Hs];
    [rewrite lookup_insert_eq, (bool_decide_true (s0 = s0)) by done
    |rewrite lookup_insert_ne, (bool_decide_false (s0 = s)) by done; done]; cbn [default from_option id andb];
    (destruct (decide (i = i0)) as [->|Hi];
      [rewrite lookup_insert_eq, bool_decide_true by done|rewrite lookup_insert_ne, bool_decide_false by done]; done).
  1,3: intros i; destruct (decide (i = i0)) as [->|Hi];
    [rewrite lookup_insert_eq, bool_decide_true by done|rewrite lookup_insert_ne, bool_decide_false by done]; done.
  - done.
  - intros _. apply orb_false_iff in E as [E1 E2]. lia.
Qed.

Lemma kept_step last b g x b' r : kept last b g -> last <= t_now x -> attempt b x = (b', r) ->
  kept (t_now x) b' (g ++ if is_ok r then [x] else []).
Proof.
  intros [K1 K2 K3 K4 K5] Hl Ha. destruct (attempt_books _ _ _ _ Ha) as (A1 & A2 & A3).
  assert (K1' : Forall (fun y => t_now y <= t_now x) g) by (eapply Forall_impl; [exact K1|cbn; lia]).
  destruct (is_ok r) eqn:Hr.
  - destruct (A3 eq_refl) as [L5 L20]. constructor.
    + apply Forall_app. split; [done|]. by constructor.
    + intros s i. rewrite A1. destruct (of_session s i x) eqn:Hs; [by apply (tracks_more _ last)|].
      apply tracks_other; [|done]. by apply (tracks_later _ last).
    + intros i. rewrite A2. destruct (of_item i x) eqn:Hs; [by apply (tracks_more _ last)|].
      apply tracks_other; [|done]. by apply (tracks_later _ last).
    + intros s i. destruct (of_session s i x) eqn:Hs.
      * unfold of_session in Hs. apply andb_true_iff in Hs as [Hs Hi]. apply bool_decide_eq_true_1 in Hs, Hi. subst s i.
        eapply bounded_more; [apply K2|done|done|exact L5|apply K4].
      * intros t. rewrite tries_app, Hs. cbn. specialize (K4 s i t). lia.
    + intros i. destruct (of_item i x) eqn:Hs.
      * unfold of_item in Hs. apply bool_decide_eq_true_1 in Hs. subst i.
        eapply bounded_more; [apply K3|done|done|exact L20|apply K5].
      * intros t. rewrite tries_app, Hs. cbn. specialize (K5 i t). lia.
  - rewrite app_nil_r. constructor; try done.
    + intros s i. rewrite A1. destruct (of_session s i x); [by apply (tracks_kept _ last)|by apply (tracks_later _ last)].
    + intros i. rewrite A2. destruct (of_item i x); [by apply (tracks_kept _ last)|by apply (tracks_later _ last)].
Qed.

Lemma kept_run xs : forall last b g, kept last b g -> StronglySorted (fun x y => t_now x <= t_now y) xs ->
  Forall (fun x => last <= t_now x) xs -> exists last' b', kept last' b' (g ++ let_through b xs).
Proof.
  induction xs as [|x xs IH]; intros last b g Hk Hs Hf; cbn [let_through].
  { rewrite app_nil_r. by exists last, b. }
  apply StronglySorted_inv in Hs as [Hs Hx]. apply Forall_cons in Hf as [Hl Hf].
  destruct (attempt b x) as [b' r] eqn:Ha. rewrite app_assoc.
  apply (IH (t_now x)); [by eapply kept_step|done|exact Hx].
Qed.

(** Credentials are not guessed through the broker. Whatever sessions try whatever
    items in whatever order, of the tries let through in any 600 seconds at most five are of
    one session and item, and at most twenty of one item on the whole host. *)
Lemma attempts_bounded xs s i t :
  StronglySorted (fun x y => t_now x <= t_now y) xs ->
  tries_within t (of_session s i) (let_through no_books xs) <= 5
  /\ tries_within t (of_item i) (let_through no_books xs) <= 20.
Proof.
  intros Hs. destruct xs as [|x xs]; [cbn; unfold tries_within, instants, len; cbn; lia|].
  assert (Hk : kept (t_now x) no_books []).
  { constructor; [constructor|..]; intros; try (unfold tries_within, instants, len; cbn; lia);
      intros now Hn; unfold book, host_book, no_books, entry; cbn; rewrite ?lookup_empty; cbn; rewrite ?lookup_empty; done. }
  destruct (kept_run (x :: xs) _ _ _ Hk Hs) as (last' & b' & K).
  { constructor; [lia|]. by apply StronglySorted_inv in Hs as [_ Hx]. }
  cbn [app] in K. split; apply K.
Qed.
