(* ===== verification/RemoteVault.v ===== *)
(** * Remote MCP contexts of a session ([aap-engine/src/remote_mcp.rs],
    [remote_mcp/cancellation.rs], [remote_mcp/cleanup.rs])

    The vault of a session's remote contexts and the sections of code that run on it
    under its locks. The vault only grows, so an [Arc<Binding>] is an index into it, and
    whoever holds one sees what the others did to the context. Each context has a heap of
    its own for the flags it shares with its exchanges and decoders. *)
From S2P Require Import Prelude Protocol Ids Json Catalog Profile Secrets Redaction Injection Operation McpWire.
From S2P Require McpMessage McpHeaders McpContext.
#[export] Existing Instance McpContext.State_eq_dec.
#[export] Existing Instance McpMessage.Method_eq_dec.

(** ** Data *)

(** `aap-engine/src/remote_mcp.rs:21-32`, `Binding`; its permit is held while the session
    lives *)
Record RBinding := mkRBinding {
  rb_id : string; rb_heap : McpContext.Heap; rb_state : McpContext.Context; rb_lease : Lease;
  rb_reference : string; rb_store : string; rb_expires : Z; rb_handshake : Z;
  rb_cancelled : bool; rb_closing : bool }.

(** The contexts of a session with the names of their resources ([Vault]). *)
Abbreviation RVault := (list (string * RBinding)).

(** `aap-engine/src/remote_mcp.rs:37-43`, `Exchange`; its binding is an index, and
    [rx_response] says whether the response's buffers are reserved *)
Record RExchange := mkRExchange {
  rx_exchange : option McpContext.Exchange; rx_completion : option McpContext.Completion; rx_response : bool }.

Definition with_context (b : RBinding) (hc : McpContext.Heap * McpContext.Context) : RBinding :=
  mkRBinding (rb_id b) hc.1 hc.2 (rb_lease b) (rb_reference b) (rb_store b) (rb_expires b) (rb_handshake b)
    (rb_cancelled b) (rb_closing b).
Definition rb_cancel (b : RBinding) : RBinding :=
  mkRBinding (rb_id b) (rb_heap b) (rb_state b) (rb_lease b) (rb_reference b) (rb_store b) (rb_expires b)
    (rb_handshake b) true (rb_closing b).
Definition set_closing (c : bool) (b : RBinding) : RBinding :=
  mkRBinding (rb_id b) (rb_heap b) (rb_state b) (rb_lease b) (rb_reference b) (rb_store b) (rb_expires b)
    (rb_handshake b) (rb_cancelled b) c.

(** ** One context *)

(** `aap-engine/src/remote_mcp.rs:45-50`, `Binding::invalidate` *)
Definition rb_invalidate (b : RBinding) : RBinding :=
  with_context (rb_cancel b) (McpContext.invalidate (rb_heap b) (rb_state b)).

(** [state.state(now)], which expires the context. *)
Definition rb_state_at (now : Z) (b : RBinding) : RBinding * McpContext.State :=
  let '(h, c, s) := McpContext.state_at (rb_heap b) (rb_state b) now in (with_context b (h, c), s).
(** The context's owner follows a conversation that is over. *)
Definition rb_follow (now : Z) (b : RBinding) : RBinding :=
  let (b, s) := rb_state_at now b in if McpContext.over s then rb_cancel b else b.

(** `aap-engine/src/remote_mcp.rs:51-66`, `Binding::check` *)
Definition rb_check (now : Z) (b : RBinding) : RBinding * Result unit :=
  if rb_cancelled b || (rb_expires b <=? now) then (rb_invalidate b, fail SessionInvalid)
  else
    let (b, s) := rb_state_at now b in
    if McpContext.over s then (rb_cancel b, fail SessionInvalid) else (b, Ok tt).

(** `aap-engine/src/remote_mcp.rs:67-82`, `Binding::deadline` *)
Definition rb_deadline (now : Z) (b : RBinding) : RBinding * Result Z :=
  match rb_check now b with
  | (b, Err e) => (b, Err e)
  | (b, Ok _) =>
      let (b, s) := rb_state_at now b in
      (b, Ok (if bool_decide (s = McpContext.SReady) then rb_expires b else Z.min (rb_handshake b) (rb_expires b)))
  end.

(** `aap-engine/src/remote_mcp.rs:93-103`, `Exchange::check` *)
Definition exchange_check (x : RExchange) (now : Z) (b : RBinding) : RBinding * Result unit :=
  match rb_check now b with
  | (b, Err e) => (b, Err e)
  | (b, Ok _) =>
      match rx_exchange x with
      | None => (b, fail RequestConflict)
      | Some e => let '(h, c, r) := McpContext.check (rb_heap b) (rb_state b) e now in (with_context b (h, c), r)
      end
  end.

(** `aap-engine/src/remote_mcp.rs:110-120`, `Exchange::commit_locked` *)
Definition commit_locked (now : Z) (b : RBinding) (x : RExchange) : RBinding * RExchange * Result unit :=
  if rb_cancelled b || (rb_expires b <=? now) then (b, x, fail OutcomeUnknown)
  else
    match rx_exchange x, rx_completion x with
    | None, _ => (b, x, fail RequestConflict)
    | Some _, None => (b, mkRExchange None None (rx_response x), fail RequestConflict)
    | Some e, Some cm =>
        let '(h, c, r) := McpContext.complete (rb_heap b) (rb_state b) e cm now in
        (with_context b (h, c), mkRExchange None None (rx_response x), _ ← r; Ok tt)
    end.

(** `aap-engine/src/remote_mcp.rs:121-136`, `Exchange::abandon` *)
Definition rx_abandon (now : Z) (b : RBinding) (x : RExchange) : RBinding * RExchange :=
  match rx_exchange x with
  | None => (b, mkRExchange None None (rx_response x))
  | Some e =>
      (rb_follow now (with_context b (McpContext.abandon (rb_heap b) (rb_state b) e)), mkRExchange None None (rx_response x))
  end.

(** ** Control messages *)

(** `aap-engine/src/remote_mcp/control.rs:11-16`, `Kind` *)
Inductive Kind := KPing | KCancel | KDelete.
#[export] Instance Kind_eq_dec : EqDecision Kind.
Proof. solve_decision. Defined.

(** `aap-engine/src/remote_mcp/control.rs:18-36`, `Kind::check` *)
Definition kind_check (k : Kind) (now : Z) (b : RBinding) : RBinding * Result unit :=
  if negb (bool_decide (k = KDelete)) then rb_check now b
  else if negb (rb_closing b) || (rb_expires b <=? now) then (b, fail SessionInvalid)
  else
    let (b, s) := rb_state_at now b in
    (b, if bool_decide (s = McpContext.SClosed) then Ok tt else fail SessionInvalid).

(** ** The vault *)

(** `aap-engine/src/remote_mcp/cancellation.rs:8-19`, `Session::current_remote` (the last
    context of the resource) *)
Fixpoint current_remote (v : RVault) (resource : string) : option nat :=
  match v with
  | [] => None
  | (name, _) :: rest =>
      match current_remote rest resource with
      | Some i => Some (S i)
      | None => if bool_decide (name = resource) then Some 0%nat else None
      end
  end.
Definition binding_at (v : RVault) (i : nat) : option RBinding := snd <$> v !! i.
Definition alter_binding (f : RBinding -> RBinding) (i : nat) (v : RVault) : RVault :=
  alter (fun nb => (nb.1, f nb.2)) i v.
(** A section of code that runs on one context, under its lock. *)
Definition at_binding {A} (f : RBinding -> RBinding * Result A) (i : nat) (v : RVault) : RVault * Result A :=
  match binding_at v i with
  | Some b => let (b, r) := f b in (alter_binding (fun _ => b) i v, r)
  | None => (v, fail InternalError)
  end.

(** On the current context of a resource, if it has one. *)
Definition on_current {A} (v : RVault) (resource : string) (f : RBinding -> RBinding * Result (option A))
    : RVault * Result (option (nat * A)) :=
  match current_remote v resource with
  | None => (v, Ok None)
  | Some i =>
      match at_binding f i v with
      | (v, Ok (Some a)) => (v, Ok (Some (i, a)))
      | (v, Ok None) => (v, Ok None)
      | (v, Err e) => (v, Err e)
      end
  end.

(** `aap-engine/src/remote_mcp.rs:145-157`, `Session::invalidate_remote` *)
Definition invalidate_remote (resource : option string) (v : RVault) : RVault :=
  map (fun nb => (nb.1, if match resource with None => true | Some r => bool_decide (nb.1 = r) end
                        then rb_invalidate nb.2 else nb.2)) v.

Section Vault.
Context `{Base64} `{HttpMessage} `{JsonText} `{McpMessage.Rmcp}.

(** `aap-engine/src/remote_mcp.rs:206-216`, `Session::prepare_remote` (what is current is
    closing, or holds another lease) *)
Definition settle_current (v : RVault) (current : option nat) (l : Lease) : RVault * Result unit :=
  match current with
  | None => (v, Ok tt)
  | Some i =>
      at_binding (fun b =>
        if rb_closing b then (b, fail RequestConflict)
        else if bool_decide (rb_lease b = l) then (b, Ok tt) else (rb_invalidate b, Ok tt)) i v
  end.

(** `aap-engine/src/remote_mcp.rs:218-219`, `Session::prepare_remote` (the current context,
    if it is live) *)
Definition live_current (v : RVault) (current : option nat) (now : Z) : RVault * option nat :=
  match current with
  | None => (v, None)
  | Some i => let (v, r) := at_binding (rb_check now) i v in (v, if is_ok r then Some i else None)
  end.

(** `aap-engine/src/remote_mcp.rs:227-260`, `Session::prepare_remote` (a fresh context);
    [permit] and [random] are the host's permit and the system's entropy *)
Definition fresh_binding (a : Authority) (m : ItemMetadata) (reference store : string)
    (compiled : option McpMessage.McpProfile) (permit : bool) (random : option string) : Result RBinding :=
  if negb permit then fail LimitExceeded
  else
    let now := auth_now a in
    let expires := Z.min (Z.min (auth_expires a) (now + McpContext.seconds 600)) (default (auth_expires a) (valid_until m)) in
    profile ← ok_or compiled (Error_new PolicyDenied);
    id ← ok_or random (Error_new InternalError);
    let (h, c) := McpContext.Context_new (McpContext.mkHeap ∅ 0) profile now expires in
    c ← c;
    Ok (mkRBinding id h c (lease m) reference store expires (now + McpContext.seconds 30) false false).

(** `aap-engine/src/remote_mcp.rs:266-281`, `Session::prepare_remote` (the commit, on the
    context) *)
Definition begin_exchange (o : Operation) (message : McpMessage.Request) (now : Z) (b : RBinding)
    : RBinding * Result McpContext.Exchange :=
  if terminal (op_state o) || op_cancelled o then (b, fail RequestConflict)
  else if rb_cancelled b || (rb_expires b <=? now) then (b, fail SessionInvalid)
  else
    let '(h, c, r) := McpContext.begin (rb_heap b) (rb_state b) message (request_id (op_request o)) now in
    (with_context b (h, c), e ← r; ok_or e (Error_new RequestConflict)).

(** `aap-engine/src/remote_mcp.rs:217-289`, `Session::prepare_remote` (the context and the
    exchange it begins) *)
Definition enter_context (v : RVault) (live : option nat) (a : Authority) (o : Operation) (message : McpMessage.Request)
    (m : ItemMetadata) (reference store : string) (compiled : option McpMessage.McpProfile) (permit : bool)
    (random : option string) : RVault * Result (nat * McpContext.Exchange) :=
  match live with
  | Some i =>
      let (v, r) := commit_authority a (at_binding (begin_exchange o message (auth_now a)) i) v in
      (v, e ← r; Ok (i, e))
  | None =>
      if negb (bool_decide (McpMessage.rq_method message = McpMessage.Initialize)) then (v, fail RequestConflict)
      else if 16 <=? len v then (v, fail LimitExceeded)
      else
        match fresh_binding a m reference store compiled permit random with
        | Err e => (v, Err e)
        | Ok b =>
            match commit_authority a (begin_exchange o message (auth_now a)) b with
            | (b, Ok e) => (v ++ [(resource (op_request o), b)], Ok (length v, e))
            | (_, Err e) => (v, Err e)
            end
        end
  end.

(** `aap-engine/src/remote_mcp.rs:178-289`, `Session::prepare_remote` *)
Definition prepare_remote (v : RVault) (a : Authority) (o : Operation) (message : McpMessage.Request)
    (m : ItemMetadata) (reference store : string) (compiled : option McpMessage.McpProfile) (permit : bool)
    (random : option string) : RVault * Result (nat * McpContext.Exchange) :=
  let current := current_remote v (resource (op_request o)) in
  match settle_current v current (lease m) with
  | (v, Err e) => (v, Err e)
  | (v, Ok _) =>
      let (v, live) := live_current v current (auth_now a) in
      enter_context v live a o message m reference store compiled permit random
  end.

(** `aap-engine/src/remote_mcp/cleanup.rs:36-59`, `Session::prepare_remote_close` (on the
    context): the headers of the session it ends, and how long they may be used *)
Definition close_binding (deadline now : Z) (b : RBinding) : RBinding * Result (option (McpContext.Outgoing * Z)) :=
  let (b, s) := rb_state_at now b in
  let deadline := Z.min (Z.min deadline (rb_expires b))
                        (if bool_decide (s = McpContext.SReady) then rb_expires b else rb_handshake b) in
  let '(h, c, headers) := McpContext.close (rb_heap b) (rb_state b) now in
  let b := rb_cancel (with_context b (h, c)) in
  if bool_decide (headers = []) then (b, Ok None)
  else (set_closing true b, Ok (Some (McpContext.mkOutgoing headers [], deadline))).

(** `aap-engine/src/remote_mcp/cleanup.rs:16-60`, `Session::prepare_remote_close` *)
Definition prepare_remote_close (v : RVault) (resource : string) (deadline now : Z)
    : RVault * Result (option (nat * (McpContext.Outgoing * Z))) :=
  on_current v resource (close_binding deadline now).

(** `aap-engine/src/remote_mcp/cancellation.rs:30-40`, `Session::cancel_remote_message` (on the
    context) *)
Definition cancel_on_binding (message : McpMessage.Request) (now : Z) (b : RBinding)
    : RBinding * Result (option McpContext.CancellationRequest) :=
  match McpContext.cancel_request (rb_heap b) (rb_state b) message now with
  | (h, c, Ok r) => (rb_follow now (with_context b (h, c)), Ok r)
  | (h, c, Err e) => (with_context b (h, c), Err e)
  end.
(** `aap-engine/src/remote_mcp/cancellation.rs:29-44`, `Session::cancel_remote_message` (what
    it cancels) *)
Definition cancel_message (v : RVault) (resource : string) (message : McpMessage.Request) (now : Z)
    : RVault * Result (option (nat * McpContext.CancellationRequest)) :=
  on_current v resource (cancel_on_binding message now).

(** `aap-engine/src/remote_mcp/cancellation.rs:95-106`, `Session::prepare_operation_cancel` (on
    the context) *)
Definition cancel_operation_on (id : string) (now : Z) (b : RBinding)
    : RBinding * Result (option McpContext.CancellationRequest) :=
  match McpContext.cancel_operation (rb_heap b) (rb_state b) id now with
  | (h, c, Ok r) => (rb_follow now (with_context b (h, c)), Ok r)
  | (h, c, Err e) => (with_context b (h, c), Err e)
  end.
(** `aap-engine/src/remote_mcp/cancellation.rs:88-112`, `Session::prepare_operation_cancel` *)
Definition prepare_operation_cancel (v : RVault) (o : Operation) (now : Z)
    : RVault * Result (option (nat * McpContext.CancellationRequest)) :=
  if terminal (op_state o) then (v, Ok None)
  else on_current v (resource (op_request o)) (cancel_operation_on (request_id (op_request o)) now).
End Vault.
