(* ===== verification/RemoteLive.v ===== *)
(** * The remote contexts of a session over its life

    What the sections of [RemoteVault] do to the vault: it only grows and stays within its
    bound, a context keeps its lease and never comes back once it is cancelled, and a
    resource has at most one live context, in which alone exchanges begin. *)
From S2P Require Import Prelude Protocol Ids Json Catalog Profile Secrets Redaction Injection Operation McpWire RemoteVault.
From S2P Require McpMessage McpHeaders McpContext.

(** ** A context later in its life *)

Record tends (b b' : RBinding) : Prop := {
  td_id : rb_id b' = rb_id b; td_lease : rb_lease b' = rb_lease b; td_reference : rb_reference b' = rb_reference b;
  td_store : rb_store b' = rb_store b; td_expires : rb_expires b' = rb_expires b; td_handshake : rb_handshake b' = rb_handshake b;
  td_cancelled : rb_cancelled b = true -> rb_cancelled b' = true }.
#[export] Instance tends_preorder : PreOrder tends.
Proof. split; [by intros b; constructor|]. intros x y z [] []. constructor; first [congruence | auto]. Qed.
(** The same, with the barrier of a closure where it was. *)
Definition keeps (b b' : RBinding) : Prop := tends b b' /\ rb_closing b' = rb_closing b.
#[export] Instance keeps_preorder : PreOrder keeps.
Proof. split; [by intros b|]. intros x y z [T1 C1] [T2 C2]. split; [by transitivity y|congruence]. Qed.

Create HintDb remote.
Lemma keeps_context b hc : keeps b (with_context b hc).
Proof. by split. Qed.
Lemma keeps_cancel b : keeps b (rb_cancel b).
Proof. by split. Qed.
Lemma keeps_invalidate b : keeps b (rb_invalidate b).
Proof. by split. Qed.
Lemma keeps_state now b b' s : rb_state_at now b = (b', s) -> keeps b b' /\ rb_cancelled b' = rb_cancelled b.
Proof. unfold rb_state_at. destruct (McpContext.state_at _ _ _) as [[h c] x]. by intros [= <- <-]. Qed.
Lemma keeps_follow now b : keeps b (rb_follow now b).
Proof.
  unfold rb_follow. destruct (rb_state_at now b) as [b' s] eqn:E. apply keeps_state in E as [E _].
  destruct (McpContext.over s); [|done]. etransitivity; [done|apply keeps_cancel].
Qed.
Lemma check_spec now b b' r : rb_check now b = (b', r) ->
  keeps b b' /\ match r with
                | Ok _ => rb_cancelled b = false /\ rb_cancelled b' = false /\ now < rb_expires b
                | Err e => rb_cancelled b' = true /\ code e = SessionInvalid
                end.
Proof.
  unfold rb_check. destruct (_ || _) eqn:Ec; [intros [= <- <-]; split; [apply keeps_invalidate|done]|].
  apply orb_false_iff in Ec as [Ec Ee]. apply Z.leb_gt in Ee.
  destruct (rb_state_at now b) as [b1 s] eqn:E. apply keeps_state in E as [E Es].
  destruct (McpContext.over s); intros [= <- <-].
  - split; [etransitivity; [done|apply keeps_cancel]|done].
  - split; [done|]. split_and!; [done|congruence|done].
Qed.
Lemma keeps_deadline now b : keeps b (rb_deadline now b).1.
Proof.
  unfold rb_deadline. destruct (rb_check now b) as [b1 [[]|e]] eqn:E; apply check_spec in E as [E _]; [|done].
  destruct (rb_state_at now b1) as [b2 s] eqn:E2. apply keeps_state in E2 as [E2 _]. by etransitivity.
Qed.
Lemma keeps_exchange_check x now b : keeps b (exchange_check x now b).1.
Proof.
  unfold exchange_check. destruct (rb_check now b) as [b1 [[]|e]] eqn:E; apply check_spec in E as [E _]; [|done].
  destruct (rx_exchange x) as [e|]; [|done]. destruct (McpContext.check _ _ _ _) as [[h c] r]. cbn.
  etransitivity; [done|apply keeps_context].
Qed.
Lemma keeps_commit now b x : keeps b (commit_locked now b x).1.1.
Proof.
  unfold commit_locked. destruct (_ || _); [done|]. destruct (rx_exchange x), (rx_completion x); try done.
  by destruct (McpContext.complete _ _ _ _ _) as [[h1 c1] r1].
Qed.
Lemma keeps_abandon now b x : keeps b (rx_abandon now b x).1.
Proof.
  unfold rx_abandon. destruct (rx_exchange x); [|done]. cbn. etransitivity; [apply keeps_context|apply keeps_follow].
Qed.
Lemma keeps_kind k now b : keeps b (kind_check k now b).1.
Proof.
  unfold kind_check. destruct (negb _).
  - destruct (rb_check now b) as [b1 r] eqn:E. by apply check_spec in E as [E _].
  - destruct (_ || _); [done|]. destruct (rb_state_at now b) as [b1 s] eqn:E. by apply keeps_state in E as [E _].
Qed.

Section Contexts.
Context `{Base64} `{HttpMessage} `{JsonText} `{McpMessage.Rmcp}.

Lemma keeps_cancel_on m now b : keeps b (cancel_on_binding m now b).1.
Proof.
  unfold cancel_on_binding. destruct (McpContext.cancel_request _ _ _ _) as [[h c] [r|e]]; cbn; [|apply keeps_context].
  etransitivity; [apply keeps_context|apply keeps_follow].
Qed.
Lemma keeps_operation_on id now b : keeps b (cancel_operation_on id now b).1.
Proof.
  unfold cancel_operation_on. destruct (McpContext.cancel_operation _ _ _ _) as [[h c] [r|e]]; cbn; [|apply keeps_context].
  etransitivity; [apply keeps_context|apply keeps_follow].
Qed.
Lemma keeps_begin o m now b : keeps b (begin_exchange o m now b).1.
Proof.
  unfold begin_exchange. destruct (_ || _); [done|]. destruct (_ || _); [done|].
  by destruct (McpContext.begin _ _ _ _ _) as [[h c] r].
Qed.
(** Closure cancels the context and closes its conversation; the barrier holds exactly when
    there is a remote session left to end. *)
Lemma close_spec deadline now b b' r : close_binding deadline now b = (b', r) ->
  tends b b' /\ rb_cancelled b' = true /\ McpContext.cx_state (rb_state b') = McpContext.SClosed
  /\ McpContext.cx_native (rb_state b') = None
  /\ exists c, r = Ok c /\ (is_Some c -> rb_closing b' = true).
Proof.
  unfold close_binding. destruct (rb_state_at now b) as [b1 s] eqn:E. apply keeps_state in E as [[E _] _].
  destruct (McpContext.close _ _ _) as [[h c] headers] eqn:Ec.
  assert (Hc : McpContext.cx_state c = McpContext.SClosed /\ McpContext.cx_native c = None).
  { unfold McpContext.close in Ec. destruct (McpContext.expire _ _ _) as [h1 c1].
    destruct (McpContext.invalidate _ c1) as [h2 c2] eqn:Ei. injection Ec as _ <- _. split; [done|].
    unfold McpContext.invalidate in Ei. injection Ei as _ <-. done. }
  destruct Hc as [Hc Hn]. assert (Ht : tends b1 (rb_cancel (with_context b1 (h, c)))) by (by constructor).
  destruct (bool_decide _); intros [= <- <-]; (split; [by transitivity b1|]); (split; [done|]); (split; [done|]); (split; [done|]).
  - exists None. split; [done|]. by intros [].
  - eexists. by split.
Qed.

(** ** The vault later in its life *)

Lemma binding_name v i b : binding_at v i = Some b -> exists n, v !! i = Some (n, b).
Proof. unfold binding_at. destruct (v !! i) as [[n b']|]; cbn; [|done]. intros [= ->]. eauto. Qed.
Lemma name_binding v i n b : v !! i = Some (n, b) -> binding_at v i = Some b.
Proof. unfold binding_at. by intros ->. Qed.
Lemma alter_lookup f i j v n b : alter_binding f i v !! j = Some (n, b) ->
  exists b0, v !! j = Some (n, b0) /\ b = if decide (i = j) then f b0 else b0.
Proof.
  unfold alter_binding. destruct (decide (i = j)) as [->|Hn].
  - rewrite list_lookup_alter_eq. destruct (v !! j) as [[m b0]|]; cbn; [|done]. intros [= -> <-]. eauto.
  - rewrite list_lookup_alter_ne by done. eauto.
Qed.

(** A live context of the resource. *)
Definition live_in (v : RVault) (i : nat) (n : string) : Prop := exists b, v !! i = Some (n, b) /\ rb_cancelled b = false.
(** The vault is within its bound, and of the contexts of a resource only the last may be
    live. *)
Definition single (v : RVault) : Prop :=
  (length v <= 16)%nat /\ forall i j n b, (i < j)%nat -> v !! j = Some (n, b) -> ~ live_in v i n.
Lemma single_one v i j n : single v -> live_in v i n -> live_in v j n -> i = j.
Proof.
  intros [_ Hs] Hi Hj. destruct (lt_eq_lt_dec i j) as [[Hl|]|Hl]; [|done|]; exfalso.
  - destruct Hj as (b & Hj & _). by apply (Hs _ _ _ _ Hl Hj).
  - destruct Hi as (b & Hi & _). by apply (Hs _ _ _ _ Hl Hi).
Qed.
(** Every context is still there, and later in its life. *)
Definition grows (v v' : RVault) : Prop := forall i n b, v !! i = Some (n, b) -> exists b', v' !! i = Some (n, b') /\ tends b b'.
#[export] Instance grows_preorder : PreOrder grows.
Proof.
  split; [by intros v i n b Hv; exists b|]. intros x y z Hxy Hyz i n b Hv.
  destruct (Hxy _ _ _ Hv) as (b1 & Hy & H1'). destruct (Hyz _ _ _ Hy) as (b2 & Hz & H2'). exists b2. split; [done|by transitivity b1].
Qed.

(** A step that changes contexts in place. *)
Definition in_place (v v' : RVault) : Prop := length v' = length v /\ grows v v'.
#[export] Instance in_place_preorder : PreOrder in_place.
Proof. split; [by intros v|]. intros x y z [L1 G1] [L2 G2]. split; [congruence|by transitivity y]. Qed.
Lemma in_place_name v v' i n b : in_place v v' -> v' !! i = Some (n, b) -> exists b0, v !! i = Some (n, b0) /\ tends b0 b.
Proof.
  intros [Hl Hg] Hv'. assert (Hi : (i < length v)%nat) by (rewrite <-Hl; by apply lookup_lt_Some in Hv').
  apply lookup_lt_is_Some in Hi as [[m b0] Hv]. destruct (Hg _ _ _ Hv) as (b1 & Hv1 & Ht). rewrite Hv' in Hv1. injection Hv1 as <- <-.
  by exists b0.
Qed.
Lemma in_place_back v v' i n : in_place v v' -> live_in v' i n -> live_in v i n.
Proof.
  intros Hp (b' & Hv' & Hc). destruct (in_place_name _ _ _ _ _ Hp Hv') as (b & Hv & Ht).
  exists b. split; [done|]. destruct (rb_cancelled b) eqn:E; [|done]. by rewrite (td_cancelled _ _ Ht E) in Hc.
Qed.
Lemma in_place_single v v' : in_place v v' -> single v -> single v'.
Proof.
  intros Hp [Hl Hs]. split; [by rewrite (proj1 Hp)|]. intros i j n b Hij Hj Hi.
  assert (Hn : exists b0, v !! j = Some (n, b0) /\ tends b0 b) by (by apply (in_place_name v v')).
  destruct Hn as (b0 & Hn & _). apply (Hs i j n b0 Hij Hn). by apply (in_place_back v v').
Qed.
Lemma in_place_alter f i v : (forall b, tends b (f b)) -> in_place v (alter_binding f i v).
Proof.
  intros Hf. split; [apply length_alter|]. intros j n b Hv. unfold alter_binding.
  destruct (decide (i = j)) as [->|Hn].
  - rewrite list_lookup_alter_eq, Hv. cbn. eauto.
  - rewrite list_lookup_alter_ne by done. exists b. by split.
Qed.
Lemma at_binding_spec {A} (f : RBinding -> RBinding * Result A) i v v' r : at_binding f i v = (v', r) ->
  (binding_at v i = None /\ v' = v /\ r = fail InternalError)
  \/ exists n b b', v !! i = Some (n, b) /\ f b = (b', r) /\ v' = alter_binding (fun _ => b') i v /\ v' !! i = Some (n, b').
Proof.
  unfold at_binding. destruct (binding_at v i) as [b|] eqn:E; [|intros [= <- <-]; by left].
  apply binding_name in E as [n E]. destruct (f b) as [b' x] eqn:Ef. intros [= <- <-]. right. exists n, b, b'.
  split_and!; try done. unfold alter_binding. by rewrite list_lookup_alter_eq, E.
Qed.
Lemma in_place_at {A} (f : RBinding -> RBinding * Result A) i v :
  (forall b, tends b (f b).1) -> in_place v (at_binding f i v).1.
Proof.
  intros Hf. destruct (at_binding f i v) as [v' r] eqn:E. apply at_binding_spec in E as [(_ & -> & _)|(n & b & b' & Hv & Ef & -> & Hv')].
  - done.
  - split; [apply length_alter|]. intros j m c Hc. destruct (decide (i = j)) as [<-|Hn].
    + rewrite Hv in Hc. injection Hc as <- <-. exists b'. split; [done|]. specialize (Hf b). by rewrite Ef in Hf.
    + exists c. cbn [fst]. unfold alter_binding. by rewrite list_lookup_alter_ne.
Qed.

Lemma in_place_all resource v : in_place v (invalidate_remote resource v).
Proof.
  unfold invalidate_remote. split; [apply length_map|]. intros i n b Hv. rewrite list_lookup_fmap, Hv. cbn.
  eexists. split; [done|]. destruct (match resource with None => _ | Some _ => _ end); [apply keeps_invalidate|done].
Qed.
Lemma in_place_current {A} v resource (f : RBinding -> RBinding * Result (option A)) :
  (forall b, tends b (f b).1) -> in_place v (on_current v resource f).1.
Proof.
  intros Hf. unfold on_current. destruct (current_remote v resource) as [i|]; [|done].
  pose proof (in_place_at f i v Hf) as Hp. by destruct (at_binding f i v) as [v' [[a|]|e]].
Qed.

(** ** The current context *)

Lemma current_None v n : current_remote v n = None -> forall j b, v !! j = Some (n, b) -> False.
Proof.
  induction v as [|[m b] v IH]; cbn; [done|]. destruct (current_remote v n); [done|]. case_bool_decide as Hn; [done|].
  intros _ [|j] c; cbn; [|by apply IH]. intros [= -> ->]. done.
Qed.
Lemma current_Some v n i : current_remote v n = Some i ->
  (exists b, v !! i = Some (n, b)) /\ forall j b, v !! j = Some (n, b) -> (j <= i)%nat.
Proof.
  revert i. induction v as [|[m b] v IH]; intros i; cbn; [done|].
  destruct (current_remote v n) as [k|] eqn:E.
  - intros [= <-]. destruct (IH _ eq_refl) as [Hb Hm]. split; [done|]. intros [|j] c; [lia|]. cbn. intros Hc.
    specialize (Hm _ _ Hc). lia.
  - case_bool_decide; [|done]. intros [= <-]. subst. split; [by exists b|]. intros [|j] c; [lia|]. cbn. intros Hc.
    by destruct (current_None v n E j c).
Qed.

(** ** The context an exchange begins in *)

Lemma settle_spec v current l v' r : settle_current v current l = (v', r) ->
  in_place v v' /\ match current, r with
    | Some i, Ok _ => exists n b, v' !! i = Some (n, b) /\ rb_closing b = false /\ (rb_lease b = l \/ rb_cancelled b = true)
    | _, _ => True
    end.
Proof.
  unfold settle_current. destruct current as [i|]; [|by intros [= <- <-]]. intros E.
  assert (Hp : in_place v v').
  { match type of E with at_binding ?f _ _ = _ => pose proof (in_place_at f i v) as Hp end. rewrite E in Hp. apply Hp.
    intros b. destruct (rb_closing b); [done|]. destruct (bool_decide _); [done|]. apply keeps_invalidate. }
  split; [done|]. apply at_binding_spec in E as [(_ & -> & ->)|(n & b & b' & _ & Ef & _ & Hv)]; [done|].
  destruct (rb_closing b) eqn:Ec; [by injection Ef as <- <-|]. destruct (bool_decide_reflect (rb_lease b = l)); injection Ef as <- <-.
  - exists n, b. auto.
  - exists n, (rb_invalidate b). cbn. auto.
Qed.
Lemma live_spec v current now v' live : live_current v current now = (v', live) ->
  in_place v v' /\ (forall i n, current = Some i -> live = None -> ~ live_in v' i n)
  /\ forall i, live = Some i -> current = Some i /\
       exists n b b', v !! i = Some (n, b) /\ v' !! i = Some (n, b') /\ keeps b b' /\ rb_cancelled b = false
         /\ rb_cancelled b' = false /\ now < rb_expires b.
Proof.
  unfold live_current. destruct current as [i|]; [|by intros [= <- <-]].
  destruct (at_binding (rb_check now) i v) as [v1 r] eqn:E. intros [= <- <-].
  assert (Hp : in_place v v1).
  { pose proof (in_place_at (rb_check now) i v) as Hp. rewrite E in Hp. apply Hp. intros b.
    destruct (rb_check now b) as [b' x] eqn:Eb. by apply check_spec in Eb as [[? _] _]. }
  split; [done|]. apply at_binding_spec in E as [(Hn & -> & ->)|(n & b & b' & Hv & Ef & -> & Hv')].
  - split; [|done]. intros j m [= <-] _ (b & Hb & _). apply name_binding in Hb. congruence.
  - apply check_spec in Ef as [Hk Hr]. split.
    + intros j m [= <-] Hl (c & Hc & Hc'). rewrite Hv' in Hc. injection Hc as <- <-. destruct r as [[]|]; [done|]. destruct Hr. congruence.
    + intros j. destruct r as [[]|]; [|done]. intros [= <-]. split; [done|]. destruct Hr as (? & ? & ?). by exists n, b, b'.
Qed.

Lemma begin_spec o m now b b' r : begin_exchange o m now b = (b', r) ->
  keeps b b' /\ (rb_cancelled b = false -> rb_cancelled b' = false)
  /\ forall e, r = Ok e -> terminal (op_state o) = false /\ op_cancelled o = false.
Proof.
  intros E. pose proof (keeps_begin o m now b) as Hk. rewrite E in Hk. split; [done|]. unfold begin_exchange in E.
  destruct (terminal (op_state o)), (op_cancelled o); cbn in E; try by injection E as <- <-.
  destruct (_ || _); [by injection E as <- <-|]. destruct (McpContext.begin _ _ _ _ _) as [[h c] x].
  by injection E as <- <-.
Qed.

(** What a fresh context is. *)
Lemma fresh_spec a md reference st comp permit random b : fresh_binding a md reference st comp permit random = Ok b ->
  rb_lease b = lease md /\ rb_reference b = reference /\ rb_store b = st /\ rb_cancelled b = false /\ rb_closing b = false
  /\ rb_expires b <= auth_expires a /\ rb_expires b <= auth_now a + McpContext.seconds 600
  /\ (forall t, valid_until md = Some t -> rb_expires b <= t) /\ auth_now a < rb_expires b.
Proof.
  unfold fresh_binding. destruct (negb permit); [done|].
  destruct comp as [profile|]; cbn [ok_or mbind result_bind]; [|done]. destruct random as [id|]; cbn [ok_or mbind result_bind]; [|done].
  unfold McpContext.Context_new. set (x := Z.min _ (default _ _)). destruct (Z.leb_spec x (auth_now a)); [done|]. cbn.
  intros [= <-]. cbn. subst x. split_and!; try done; try lia. intros t ->. cbn. lia.
Qed.

(** A context an exchange may begin in. *)
Definition entered (n : string) (a : Authority) (o : Operation) (l : Lease) (v' : RVault) (i : nat) : Prop :=
  Session_check a = Ok tt /\ terminal (op_state o) = false /\ op_cancelled o = false
  /\ exists b, v' !! i = Some (n, b) /\ rb_lease b = l /\ rb_cancelled b = false /\ rb_closing b = false
       /\ auth_now a < rb_expires b.
(** What the preparation of an exchange does to the vault. *)
Definition prepared_vault (n : string) (v v' : RVault) : Prop :=
  in_place v v' \/ exists v1 b, in_place v v1 /\ v' = v1 ++ [(n, b)] /\ (length v1 < 16)%nat
    /\ (single v -> forall i, ~ live_in v1 i n).

Lemma enter_spec v live a o m md reference st comp permit random v' r :
  enter_context v live a o m md reference st comp permit random = (v', r) ->
  (in_place v v' \/ live = None /\ exists b, v' = v ++ [(resource (op_request o), b)] /\ (length v < 16)%nat)
  /\ forall i e, r = Ok (i, e) ->
       (live = None -> entered (resource (op_request o)) a o (lease md) v' i)
       /\ (forall n b, live = Some i -> v !! i = Some (n, b) -> rb_cancelled b = false -> rb_closing b = false ->
            auth_now a < rb_expires b -> rb_lease b = lease md -> entered n a o (lease md) v' i)
       /\ (live = None \/ live = Some i).
Proof.
  unfold enter_context. destruct live as [i|].
  - unfold commit_authority. destruct (Session_check a) as [[]|] eqn:Ha; [|intros [= <- <-]; by split; [left|]].
    destruct (at_binding _ i v) as [v1 x] eqn:E. intros [= <- <-]. split.
    { left. pose proof (in_place_at (begin_exchange o m (auth_now a)) i v) as Hp. rewrite E in Hp. apply Hp.
      intros b. apply keeps_begin. }
    intros j e Hr. destruct x as [e'|]; [|done]. injection Hr as <- <-. split; [done|]. split; [|by right].
    intros n b _ Hv Hc Hcl Hx Hl. apply at_binding_spec in E as [(_ & _ & ?)|(n' & b0 & b1 & Hv0 & Ef & _ & Hv1)]; [done|].
    rewrite Hv in Hv0. injection Hv0 as <- <-. apply begin_spec in Ef as ([Ht Hcl'] & Hc' & Ho). destruct (Ho _ eq_refl).
    split_and!; try done. exists b1. split; [done|]. destruct Ht. split_and!; try congruence; auto.
  - destruct (negb _); [intros [= <- <-]; by split; [left|]|]. destruct (Z.leb_spec 16 (len v)); [intros [= <- <-]; by split; [left|]|].
    destruct (fresh_binding _ _ _ _ _ _ _) as [b|] eqn:Ef; [|intros [= <- <-]; by split; [left|]].
    unfold commit_authority. destruct (Session_check a) as [[]|] eqn:Ha; [|intros [= <- <-]; by split; [left|]].
    destruct (begin_exchange o m (auth_now a) b) as [b1 [e|e]] eqn:Eb; intros [= <- <-]; [|by split; [left|]].
    split; [right; split; [done|]; exists b1; split; [done|unfold len in *; lia]|]. intros i e' [= <- <-]. split; [|by split; [|left]]. intros _.
    apply begin_spec in Eb as ([Ht Hcl] & Hc & Ho). destruct (Ho _ eq_refl). apply fresh_spec in Ef.
    destruct Ef as (F1 & _ & _ & F4 & F5 & _ & _ & _ & F9). split_and!; try done. exists b1.
    rewrite lookup_app_r, Nat.sub_diag by done. split; [done|]. destruct Ht. split_and!; try congruence; auto.
Qed.

Lemma prepare_spec v a o m md reference st comp permit random v' r :
  prepare_remote v a o m md reference st comp permit random = (v', r) ->
  prepared_vault (resource (op_request o)) v v'
  /\ forall i e, r = Ok (i, e) -> entered (resource (op_request o)) a o (lease md) v' i.
Proof.
  intros E. unfold prepare_remote in E. set (n := resource (op_request o)) in *.
  destruct (settle_current _ _ _) as [v1 [[]|e]] eqn:E1; apply settle_spec in E1 as [P1 S1];
    [|injection E as <- <-; split; [by left|done]].
  destruct (live_current v1 _ _) as [v2 live] eqn:E2. apply live_spec in E2 as (P2 & Hdead & Hlive).
  assert (P12 : in_place v v2) by (by transitivity v1).
  apply enter_spec in E as [Hv Hr]. fold n in Hv, Hr. split.
  - destruct Hv as [Hv|(-> & b & -> & Hl)]; [left; by transitivity v2|right]. exists v2, b. split_and!; try done.
    intros [_ Hs] i Hi. destruct (current_remote v n) as [c|] eqn:Ec.
    + apply current_Some in Ec as [[bc Hc] Hm]. destruct (in_place_back _ _ _ _ P12 Hi) as (bi & Hbi & Hci).
      specialize (Hm _ _ Hbi). destruct (Nat.eq_dec i c) as [->|]; [by apply (Hdead c n)|].
      apply (Hs i c n bc); [lia|done|by exists bi].
    + destruct (in_place_back _ _ _ _ P12 Hi) as (bi & Hbi & _). by apply (current_None v n Ec i bi).
  - intros i e ->. destruct (Hr _ _ eq_refl) as (R1 & R2 & [->| ->]); [by apply R1|].
    destruct (Hlive _ eq_refl) as (Hc & n' & b & b' & L1 & L2 & [T C] & L4 & L5 & L6). rewrite Hc in S1.
    destruct S1 as (n1 & b1 & S1 & S2 & S3). rewrite L1 in S1. injection S1 as <- <-.
    apply current_Some in Hc as [[bc Hc] _]. destruct (in_place_name _ _ _ _ _ P1 L1) as (b0 & Hb0 & _).
    rewrite Hc in Hb0. injection Hb0 as <- _. destruct S3 as [S3|S3]; [|congruence]. destruct T.
    apply (R2 n b'); congruence.
Qed.
Lemma prepared_single n v v' : prepared_vault n v v' -> single v -> single v'.
Proof.
  intros [Hp|(v1 & b & Hp & -> & Hl & Hd)] Hs; [by apply (in_place_single v)|]. specialize (Hd Hs).
  pose proof (in_place_single _ _ Hp Hs) as [_ Hs1].
  split; [rewrite length_app; cbn; lia|]. intros i j m c Hij Hj (c0 & Hi & Hc).
  assert (Hlen : (i < length v1)%nat) by (apply lookup_lt_Some in Hj; rewrite length_app in Hj; cbn in Hj; lia).
  rewrite lookup_app_l in Hi by done. destruct (Nat.lt_ge_cases j (length v1)) as [Hjl|Hjl].
  + rewrite lookup_app_l in Hj by done. apply (Hs1 i j m c Hij Hj). by exists c0.
  + rewrite lookup_app_r in Hj by done. destruct (j - length v1)%nat; [|done]. injection Hj as <- <-.
    apply (Hd i). by exists c0.
Qed.

(** The exchange is of the message it was prepared for. *)
Lemma begin_request o m now b b' e : begin_exchange o m now b = (b', Ok e) -> McpContext.ex_request e = m.
Proof.
  unfold begin_exchange. destruct (_ || _); [done|]. destruct (_ || _); [done|].
  destruct (McpContext.begin _ _ _ _ _) as [[h c] r] eqn:E. intros [= _ Hr]. destruct r as [[e'|]|]; try done.
  injection Hr as ->. unfold McpContext.begin in E. destruct (McpContext.expire _ _ _) as [h1 c1].
  do 4 (destruct (_ : bool) in E; [done|]).
  assert (forall target, (if McpContext.exhausted c1 (McpMessage.rq_method m) then (h1, c1, fail LimitExceeded)
            else let '(h, c, e) := McpContext.admit_exchange h1 c1 m (request_id (op_request o)) target in (h, c, Ok (Some e)))
          = (h, c, Ok (Some e)) -> McpContext.ex_request e = m) as Hone.
  { intros target. destruct (McpContext.exhausted _ _); [done|]. unfold McpContext.admit_exchange.
    destruct (McpContext.flag_new h1) as [h2 f]. destruct target as [[t p]|]; by intros [= _ _ <-]. }
  destruct (bool_decide _); [|by eapply Hone]. destruct (McpContext.cancel_target _ _ _); [by eapply Hone|done].
Qed.
Lemma prepare_request v a o m md reference st comp permit random v' i e :
  prepare_remote v a o m md reference st comp permit random = (v', Ok (i, e)) -> McpContext.ex_request e = m.
Proof.
  unfold prepare_remote. destruct (settle_current _ _ _) as [v1 [[]|]]; [|done]. destruct (live_current _ _ _) as [v2 live].
  unfold enter_context, commit_authority. destruct live as [j|].
  - destruct (Session_check a) as [[]|]; [|done]. destruct (at_binding _ j v2) as [v3 [e'|]] eqn:E; [|done]. intros [= _ _ <-].
    apply at_binding_spec in E as [(_ & _ & ?)|(n & b & b' & _ & Ef & _)]; [done|by eapply begin_request].
  - destruct (negb _); [done|]. destruct (16 <=? _); [done|]. destruct (fresh_binding _ _ _ _ _ _ _) as [b|]; [|done].
    destruct (Session_check a) as [[]|]; [|done]. destruct (begin_exchange _ _ _ _) as [b' [e'|]] eqn:E; [|done].
    intros [= _ _ <-]. by eapply begin_request.
Qed.

(** ** Closure *)

Lemma closed_spec v n deadline now v' r : prepare_remote_close v n deadline now = (v', r) ->
  in_place v v' /\ (single v -> forall i, ~ live_in v' i n)
  /\ forall i c, r = Ok (Some (i, c)) -> current_remote v' n = Some i /\ exists b, v' !! i = Some (n, b)
       /\ rb_cancelled b = true /\ rb_closing b = true
       /\ McpContext.cx_state (rb_state b) = McpContext.SClosed /\ McpContext.cx_native (rb_state b) = None.
Proof.
  intros E. assert (Hp : in_place v v').
  { pose proof (in_place_current v n (close_binding deadline now)) as Hp. unfold prepare_remote_close in E. rewrite E in Hp. apply Hp.
    intros b. destruct (close_binding deadline now b) as [b' x] eqn:Eb. by apply close_spec in Eb as [? _]. }
  split; [done|]. unfold prepare_remote_close, on_current in E. destruct (current_remote v n) as [i|] eqn:Ec.
  - pose proof (current_Some _ _ _ Ec) as [[b0 Hb0] Hm].
    destruct (at_binding _ i v) as [v1 x] eqn:Ea. assert (v1 = v') as -> by (by destruct x as [[?|]|]; injection E).
    apply at_binding_spec in Ea as [(Hn & _)|(m & b & b' & Hv & Ef & Hv1 & Hv')]; [apply name_binding in Hb0; congruence|].
    rewrite Hb0 in Hv. injection Hv as <- <-. apply close_spec in Ef as (_ & C1 & C2 & C3 & c & -> & C4). split.
    + intros Hs j Hj. pose proof (in_place_back _ _ _ _ Hp Hj) as (bj & Hbj & _). specialize (Hm _ _ Hbj).
      destruct (Nat.eq_dec j i) as [->|].
      * destruct Hj as (c' & Hc' & Hl). rewrite Hv' in Hc'. injection Hc' as <-. congruence.
      * destruct (in_place_single _ _ Hp Hs) as [_ Hs']. by apply (Hs' j i n b'); [lia|..].
    + intros j y Hr. destruct c as [c|]; [|congruence]. assert (j = i) as -> by congruence.
      split; [|exists b'; split_and!; try done; apply C4; by eexists].
      destruct (current_remote v' n) as [k|] eqn:Ek; [|by destruct (current_None _ _ Ek _ _ Hv')].
      apply current_Some in Ek as [[bk Hbk] Hmk]. destruct (in_place_name _ _ _ _ _ Hp Hbk) as (bk0 & Hbk0 & _).
      specialize (Hmk _ _ Hv'). specialize (Hm _ _ Hbk0). f_equal. lia.
  - injection E as <- <-. split; [|done]. intros _ i (b & Hb & _). by apply (current_None _ _ Ec i b).
Qed.
Lemma closing_barrier v n i b a o m md reference st comp permit random :
  current_remote v n = Some i -> v !! i = Some (n, b) -> rb_closing b = true -> resource (op_request o) = n ->
  (prepare_remote v a o m md reference st comp permit random).2 = fail RequestConflict.
Proof.
  intros Hc Hv Hb <-. unfold prepare_remote. rewrite Hc. unfold settle_current, at_binding.
  rewrite (name_binding _ _ _ _ Hv), Hb. done.
Qed.

(** ** The life of a vault *)

(** A section of code on the vault; [VConversation] is what the exchanges and decoders of a
    context do to its conversation and flags. *)
Inductive VaultMove :=
  | VPrepare (a : Authority) (o : Operation) (m : McpMessage.Request) (md : ItemMetadata) (reference store : string)
      (comp : option McpMessage.McpProfile) (permit : bool) (random : option string)
  | VCheck (i : nat) (now : Z)
  | VDeadline (i : nat) (now : Z)
  | VExchange (i : nat) (x : RExchange) (now : Z)
  | VCommit (i : nat) (x : RExchange) (now : Z)
  | VAbandon (i : nat) (x : RExchange) (now : Z)
  | VKind (i : nat) (k : Kind) (now : Z)
  | VConversation (i : nat) (f : McpContext.Heap -> McpContext.Context -> McpContext.Heap * McpContext.Context)
  | VInvalidate (i : nat)
  | VInvalidateAll (resource : option string)
  | VClose (resource : string) (deadline now : Z)
  | VReopen (i : nat)
  | VCancel (resource : string) (m : McpMessage.Request) (now : Z)
  | VCancelOperation (o : Operation) (now : Z).

Definition vault_move (v : RVault) (m : VaultMove) : RVault :=
  match m with
  | VPrepare a o m md reference st comp permit random => (prepare_remote v a o m md reference st comp permit random).1
  | VCheck i now => (at_binding (rb_check now) i v).1
  | VDeadline i now => (at_binding (rb_deadline now) i v).1
  | VExchange i x now => (at_binding (exchange_check x now) i v).1
  | VCommit i x now => alter_binding (fun b => (commit_locked now b x).1.1) i v
  | VAbandon i x now => alter_binding (fun b => (rx_abandon now b x).1) i v
  | VKind i k now => (at_binding (kind_check k now) i v).1
  | VConversation i f => alter_binding (fun b => with_context b (f (rb_heap b) (rb_state b))) i v
  | VInvalidate i => alter_binding rb_invalidate i v
  | VInvalidateAll resource => invalidate_remote resource v
  | VClose resource deadline now => (prepare_remote_close v resource deadline now).1
  | VReopen i => alter_binding (set_closing false) i v
  | VCancel resource m now => (cancel_message v resource m now).1
  | VCancelOperation o now => (prepare_operation_cancel v o now).1
  end.
Definition vault_run (v : RVault) (ms : list VaultMove) : RVault := foldl vault_move v ms.

Lemma prepared_grows n v v' : prepared_vault n v v' -> grows v v'.
Proof.
  intros [Hp|(v1 & b & Hp & -> & _)]; [apply Hp|]. intros i m c Hv. destruct (proj2 Hp _ _ _ Hv) as (c' & Hc & Ht). exists c'.
  split; [by apply lookup_app_l_Some|done].
Qed.
Lemma vault_move_step v m : in_place v (vault_move v m) \/ exists n, prepared_vault n v (vault_move v m).
Proof.
  destruct m; cbn [vault_move].
  - right. destruct (prepare_remote _ _ _ _ _ _ _ _ _ _) as [v' r] eqn:E. apply prepare_spec in E as [E _]. by eexists.
  - left. apply in_place_at. intros b. destruct (rb_check now b) as [b' r] eqn:E. by apply check_spec in E as [[? _] _].
  - left. apply in_place_at. intros b. apply keeps_deadline.
  - left. apply in_place_at. intros b. apply keeps_exchange_check.
  - left. apply in_place_alter. intros b. apply keeps_commit.
  - left. apply in_place_alter. intros b. apply keeps_abandon.
  - left. apply in_place_at. intros b. apply keeps_kind.
  - left. apply in_place_alter. intros b. apply keeps_context.
  - left. apply in_place_alter. intros b. apply keeps_invalidate.
  - left. apply in_place_all.
  - left. destruct (prepare_remote_close _ _ _ _) as [v' r] eqn:E. by apply closed_spec in E as [E _].
  - left. apply in_place_alter. intros b. by constructor.
  - left. apply in_place_current. intros b. apply keeps_cancel_on.
  - left. unfold prepare_operation_cancel. destruct (terminal _); [done|]. apply in_place_current. intros b. apply keeps_operation_on.
Qed.
Lemma move_grown v m : grows v (vault_move v m).
Proof. destruct (vault_move_step v m) as [Hp|[n Hp]]; [apply Hp|by eapply prepared_grows]. Qed.
Lemma run_grown v ms : grows v (vault_run v ms).
Proof.
  revert v. induction ms as [|m ms IH]; intros v; [done|]. etransitivity; [apply move_grown|apply IH].
Qed.
Lemma run_single v ms : single v -> single (vault_run v ms).
Proof.
  revert v. induction ms as [|m ms IH]; intros v Hs; [done|]. apply IH.
  destruct (vault_move_step v m) as [Hp|[n Hp]]; [by apply (in_place_single v)|by eapply prepared_single].
Qed.
Lemma vault_run_app v ms ms' : vault_run v (ms ++ ms') = vault_run (vault_run v ms) ms'.
Proof. apply foldl_app. Qed.
Lemma single_empty : single [].
Proof. split; [cbn; lia|]. intros i j n b _ Hj. done. Qed.

End Contexts.
