(* ===== verification/Remote.v ===== *)
(** * Remote MCP requests ([aap-engine/src/remote_mcp.rs] and [remote_mcp/])

    A request to a remote MCP server as a program over the guard in the order of the code:
    the message is reviewed, its exchange begun in the session's current context under the
    authority boundary, the credential inserted, the response decoded frame by frame and
    its completion left for the guard to commit. A ping reply, a cancellation and the end
    of a remote session are requests of their own, each with its own guard and log. *)
From S2P Require Import Prelude Protocol Ids Json Tools Address Observe Catalog Profile Secrets Redaction Injection Cookies.
From S2P Require Import Flow Operation Guard Lifecycle Endpoint Config Dispatch McpWire RemoteVault.
From S2P Require McpMessage McpHeaders McpContext.

(** ** What a guard holds *)

(** What the program of a guard holds in the session's vault: the exchange of a request
    ([Guard::remote]), or the context a control message is sent for, with whether the
    operation it belongs to was cancelled. *)
Inductive Hold := Owns (i : nat) (x : RExchange) | Serves (i : nat) (k : Kind) (parent_cancelled : bool).
Record Remote := mkRemote { r_vault : RVault; r_hold : option Hold }.

Definition held (r : Remote) : option nat :=
  match r_hold r with Some (Owns i _) | Some (Serves i _ _) => Some i | None => None end.
Definition gone_at (v : RVault) (i : nat) : bool := from_option rb_cancelled true (binding_at v i).

(** `aap-engine/src/remote_mcp.rs:648-652`, `Session::dispatch_remote` (the biased [select]),
    and `aap-engine/src/remote_mcp/control.rs:307-330`, `Session::dispatch_remote_control` *)
Definition remote_ended (r : Remote) : option ErrorCode :=
  match r_hold r with
  | Some (Owns i _) => if gone_at (r_vault r) i then Some SessionInvalid else None
  | Some (Serves i k parent) =>
      if negb (bool_decide (k = KCancel)) && parent then Some RequestConflict
      else if negb (bool_decide (k = KDelete)) && gone_at (r_vault r) i then Some SessionInvalid
      else None
  | None => None
  end.

(** An operation of a held exchange, on its context; nothing happens when none is held. *)
Definition with_exchange {A} (f : RBinding -> RExchange -> RBinding * RExchange * A) (a : A) (r : Remote) : Remote * A :=
  match r_hold r with
  | Some (Owns i x) =>
      match binding_at (r_vault r) i with
      | Some b =>
          let '(b, x, y) := f b x in
          (mkRemote (alter_binding (fun _ => b) i (r_vault r)) (Some (Owns i x)), y)
      | None => (r, a)
      end
  | _ => (r, a)
  end.

#[export] Instance remote_context : RemoteContext Remote := {|
  remote_gone := remote_ended;
  remote_check r now := with_exchange (fun b x => let (b, y) := exchange_check x now b in (b, x, y)) (Ok tt) r;
  remote_commit r now := with_exchange (commit_locked now) (Ok tt) r;
  remote_abandon r now :=
    (with_exchange (fun b x => let (b, x) := rx_abandon now b x in (b, x, tt)) tt r).1 |}.

(** How a response's body ends. *)
Inductive BodyEnd := EndClean | EndTrailers | EndError (c : ErrorCode).

(** What the outside answers a remote request beyond [Env]: the host's context permits and
    buffers, the tracking of a request made on its behalf with its flow, whether that
    request was dropped by its caller, the state of another operation of the session, and
    how a body ends. *)
Record RemEnv (F : Type) := mkRemEnv {
  rem : Env F Remote;
  on_context_permit : nat -> bool;
  on_buffers : nat -> Z -> bool;
  on_track : nat -> ExecuteRequest -> Result F;
  on_dropped : nat -> bool;
  on_operation : nat -> string -> Result bool;
  on_body_end : nat -> BodyEnd }.
Arguments rem {F}. Arguments on_context_permit {F}. Arguments on_buffers {F}. Arguments on_track {F}.
Arguments on_dropped {F}. Arguments on_operation {F}. Arguments on_body_end {F}.

(** What the agent gets. *)
Record Answer := mkAnswer { an_status : Z; an_headers : list (string * list byte); an_body : list byte }.

Section Remote.
Context `{Base64} `{Http} `{Urls} `{HttpMessage} `{JsonText} `{McpMessage.Rmcp}
  (json_string : list byte -> option (list byte)) (compiled : string -> option McpMessage.McpProfile).
Context {F : Type} `{Observer F}.
Context (renv : RemEnv F) (cfg : Configuration) (opts : SessionOptions).
Abbreviation env := (rem renv).
Abbreviation P := (Prog F Remote).
Abbreviation G := (Guard F Remote).

(** ** Sections of code on the vault *)

(** A section of code that changes what the guard sees of the vault. *)
Definition run_remote {A} (f : G -> Remote -> Remote * Result A) : P A :=
  run_guard (fun g => match remote g with
                      | Some r => let (r, x) := f g r in (with_remote g (Some r), x)
                      | None => (g, fail InternalError)
                      end).
Definition on_vault {A} (f : G -> RVault -> RVault * Result A) : P A :=
  _ ← pass env; run_remote (fun g r => let (v, x) := f g (r_vault r) in (mkRemote v (r_hold r), x)).
(** A section that runs on the held context, under its lock. *)
Definition on_held {A} (f : Z -> RBinding -> RBinding * Result A) : P A :=
  _ ← pass env;
  run_remote (fun g r =>
    match held r with
    | Some i => let (v, x) := at_binding (f (guard_now g)) i (r_vault r) in (mkRemote v (r_hold r), x)
    | None => (r, fail InternalError)
    end).
(** A section that runs on the held exchange and its context. *)
Definition on_exchange {A} (f : Z -> McpContext.Exchange -> RBinding -> RBinding * Result A) : P A :=
  _ ← pass env;
  run_remote (fun g r =>
    with_exchange (fun b x =>
      match rx_exchange x with
      | Some e => let (b, y) := f (guard_now g) e b in (b, x, y)
      | None => (b, x, fail RequestConflict)
      end) (fail InternalError) r).
Definition set_exchange (f : RExchange -> RExchange) : P unit :=
  run_remote (fun _ r => with_exchange (fun b x => (b, f x, Ok tt)) (fail InternalError) r).

Definition invalidate_held : P unit := on_held (fun _ b => (rb_invalidate b, Ok tt)).
Definition check_held : P unit := on_held rb_check.
Definition check_exchange : P unit :=
  _ ← pass env;
  run_remote (fun g r =>
    with_exchange (fun b x => let (b, y) := exchange_check x (guard_now g) b in (b, x, y)) (fail InternalError) r).

(** An error of the step ends the context. *)
Definition or_invalidate {A} (m : P A) : P A := fun w =>
  match m w with
  | (w, Ok a) => (w, Ok a)
  | (w, Err e) => ((invalidate_held w).1, Err e)
  end.

(** `aap-engine/src/remote_mcp.rs:83-90`, `Binding::revalidate`, with the check of the caller *)
Definition revalidate_held (check : Z -> RBinding -> RBinding * Result unit) (b : RBinding) : P unit :=
  _ ← on_held check; _ ← await env;
  r ← ask (fun n => on_revalidate env n (rb_store b) (rb_reference b) (rb_lease b));
  _ ← or_invalidate (from_store r);
  _ ← on_held check;
  put (Revalidated (rb_store b) (rb_reference b) (rb_lease b)).

(** `aap-engine/src/remote_mcp.rs:158-177`, `Session::reserve_remote` *)
Definition reserve_remote (bytes : Z) : P unit :=
  if 2 ^ 32 <=? bytes then reject LimitExceeded
  else room ← ask (fun n => on_buffers renv n bytes); if room : bool then mret tt else reject LimitExceeded.

(** `aap-engine/src/remote_mcp.rs:484-497`, `Session::dispatch_remote` (the credential), with
    `aap-engine/src/lib.rs:515-525`, `Session::resolve_current`; an error that is not the end
    of the wait ends the context *)
Definition authenticate (b : RBinding) (prefix header : string) (out : HttpRequest) : P (HttpRequest * Redactor) :=
  _ ← or_invalidate (check_session env); _ ← await env;
  r ← ask (fun n => on_secret env n (rb_store b) (rb_reference b) (rb_lease b));
  s ← or_invalidate (_ ← check_session env; from_store r);
  _ ← put (Released (rb_store b) (rb_reference b) (rb_lease b) s);
  or_invalidate (k ← lift (PreparedKey_new json_string s prefix); lift (inject k out header)).

(** `aap-engine/src/remote_mcp.rs:446-465`, `Session::dispatch_remote` (the address), and
    `aap-engine/src/remote_mcp/control.rs:187-206` *)
Definition resolve_endpoint (p : ResourceProfile) (t : Target) : P Endpoint :=
  _ ← await env;
  found ← ask (fun n => on_resolve env n (trim_brackets (target_host t)) (target_port t));
  found ← lift found;
  _ ← put (Resolved (trim_brackets (target_host t)) (target_port t) found);
  lift (admit_addresses p t found).

(** `aap-engine/src/remote_mcp.rs:476-482`, `Session::dispatch_remote` (the request), and
    `aap-engine/src/remote_mcp/control.rs:207-212` *)
Definition remote_request (method : string) (t : Target) (o : McpContext.Outgoing) : Result HttpRequest :=
  q ← ok_or (build_request method (target_as_str t) [] (McpContext.out_body o)) (Error_new RequestInvalid);
  Ok (mkHttpRequest (http_method q) (http_uri q) (McpContext.out_headers o) (http_body q)).

(** The item of a profile, granted to the session. *)
Definition granted_item (id : string) : Result Item :=
  item ← ok_or (find_first (fun i => bool_decide (item_id i = id)) (items (catalog cfg))) (Error_new PolicyDenied);
  if item_allowed opts item then Ok item else fail PolicyDenied.
Definition approval_needed (r : Route) (item : Item) : bool :=
  requires_approval (host_require_approval cfg) (o_require_approval opts) (require_approval r) (approval item) true.

(** [Guard::content] and [Guard::end_content] as steps. *)
Definition say (d : Direction) (v : View) (l : list byte) : P unit := _ ← pass env; run_guard (fun g => content g d v l).
Definition end_both (d : Direction) : P unit := _ ← pass env; run_guard (fun g => end_content g d [Agent; Upstream]).

(** `aap-engine/src/remote_mcp.rs:674-681`, `observe` (the chunks) *)
Fixpoint observe_chunks (d : Direction) (v : View) (r : Redactor) (p : PlaceholderRedactor) (cs : list (list byte * bool))
    : P unit :=
  match cs with
  | [] => mret tt
  | (chunk, fin) :: cs =>
      let (r, safe) := feed r chunk fin in
      safe ← lift safe;
      let (p, safe) := feed_placeholders p safe fin in
      safe ← lift safe;
      _ ← say d v safe.1;
      observe_chunks d v r p cs
  end.
(** `aap-engine/src/remote_mcp.rs:665-683`, `observe` *)
Definition observe_body (d : Direction) (v : View) (template : Redactor) (l : list byte) : P unit :=
  observe_chunks d v (fresh template) (mkPlaceholders [] false) (body_chunks l).

(** ** Control messages *)

(** A raw string literal, written with single quotes. *)
Definition quoted (s : string) : list byte :=
  map (fun b => if bool_decide (b = "'"%char) then "034"%char else b) (as_bytes s).
(** `aap-engine/src/remote_mcp/control.rs:8-9`, `SAFE_PING_REPLY` and `SAFE_CANCEL` *)
Definition SAFE_PING_REPLY : list byte := quoted "{'jsonrpc':'2.0','id':'[upstream-id-withheld]','result':{}}".
Definition SAFE_CANCEL : list byte :=
  quoted "{'jsonrpc':'2.0','method':'notifications/cancelled','params':{'requestId':'[upstream-id-withheld]'}}".

(** `aap-engine/src/remote_mcp/control.rs:99-108`, `Session::dispatch_remote_control` (the
    body of the record and the method) *)
Definition safe_body (k : Kind) : list byte :=
  match k with KPing => SAFE_PING_REPLY | KCancel => SAFE_CANCEL | KDelete => [] end.
Definition control_method (k : Kind) : string := if bool_decide (k = KDelete) then "DELETE" else "POST".

(** `aap-engine/src/remote_mcp/control.rs:112-124`, `Session::dispatch_remote_control` (the
    request that is tracked) *)
Definition control_request (p : ResourceProfile) (t : Target) (k : Kind) (id : string) : ExecuteRequest :=
  mkExecuteRequest id (profile_id p) None (control_method k) (target_as_str t)
    (if bool_decide (k = KDelete) then [] else [("content-type", "application/json")])
    (from_bytes (Ids.encode STANDARD (safe_body k))).

(** `aap-engine/src/remote_mcp/control.rs:138-165`, `Session::dispatch_remote_control`
    (admission) *)
Definition admit_control (p : ResourceProfile) (t : Target) (k : Kind) (prepared : McpContext.Outgoing)
    (req : ExecuteRequest) (id : string) : P (Route * Item) :=
  _ ← check_session env;
  if negb (bool_decide (profile_id p ∈ o_resources opts)) then reject PolicyDenied
  else
    route ← lift (authorize p (control_method k) t (len (McpContext.out_body prepared)));
    _ ← lift (authorize_headers route (headers req));
    item ← lift (granted_item id);
    _ ← move_to env Validated None;
    _ ← evidence env [emission Outbound Agent (RequestStart (control_method k) (target_as_str t) (safe_headers (headers req)))];
    mret (route, item).

(** `aap-engine/src/remote_mcp/control.rs:225-254`, `Session::dispatch_remote_control` (the
    evidence and the commit) *)
Definition commit_control (t : Target) (k : Kind) (b : RBinding) (id : string) (out : HttpRequest) : P unit :=
  _ ← evidence env [emission Outbound Upstream
                      (RequestStart (control_method k) (target_as_str t) (observed_headers (http_headers out)))];
  _ ← (_ ← pass env; run_guard (fun g => content_both g Outbound (safe_body k)));
  _ ← evidence_both env Outbound (AuthTransition id true);
  _ ← end_both Outbound;
  _ ← revalidate_held (kind_check k) b;
  _ ← check_session env;
  _ ← on_held (kind_check k);
  _ ← evidence_both env Outbound (PolicyDecision Allow None);
  _ ← move_to env Ready None;
  commit env.

(** `aap-engine/src/remote_mcp/control.rs:178-254`, `Session::dispatch_remote_control` (from
    custody to the commit) *)
Definition prepare_control (p : ResourceProfile) (t : Target) (k : Kind) (prepared : McpContext.Outgoing)
    (b : RBinding) (id header prefix : string) : P (Endpoint * HttpRequest) :=
  _ ← revalidate_held (kind_check k) b;
  room ← ask (on_permit env);
  if negb room then reject LimitExceeded
  else
    _ ← run_guard (fun g => (with_active g, Ok tt));
    _ ← reserve_remote (256 * 1024);
    endpoint ← resolve_endpoint p t;
    out ← lift (remote_request (control_method k) t prepared);
    '(out, _) ← authenticate b prefix header out;
    _ ← commit_control t k b id out;
    mret (endpoint, out).

(** `aap-engine/src/remote_mcp/control.rs:286-292`, `Session::dispatch_remote_control` (a body
    that must be empty) *)
Fixpoint read_empty (fs : list (list byte)) : P unit :=
  _ ← await env;
  match fs with
  | f :: fs => if bool_decide (f = []) then read_empty fs else reject InspectionUnavailable
  | [] =>
      e ← ask (on_body_end renv);
      match e with
      | EndClean => mret tt
      | EndTrailers => reject InspectionUnavailable
      | EndError c => reject c
      end
  end.

(** `aap-engine/src/remote_mcp/control.rs:280-285`, `Session::dispatch_remote_control` (the
    acknowledgment) *)
Definition acknowledged (k : Kind) (response : HttpResponse) : Result CleanupOutcome :=
  if bool_decide (k = KDelete) then McpHeaders.validate_cleanup_ack (http_status response) (response_headers response)
  else _ ← McpHeaders.validate_control_ack (http_status response) (response_headers response); Ok Confirmed.

(** `aap-engine/src/remote_mcp/control.rs:271-305`, `Session::dispatch_remote_control` (the
    response) *)
Definition receive_control (k : Kind) (b : RBinding) (response : HttpResponse) : P CleanupOutcome :=
  _ ← evidence env [emission Inbound Upstream
                      (ResponseStart (http_status response) (observed_headers (response_headers response)))];
  outcome ← lift (acknowledged k response);
  _ ← read_empty (frames response);
  _ ← revalidate_held (kind_check k) b;
  _ ← evidence env [emission Inbound Agent (ResponseStart (http_status response) [])];
  _ ← move_to env Dispatching (Some (http_status response));
  _ ← (_ ← pass env; run_guard complete);
  mret outcome.

(** `aap-engine/src/remote_mcp/control.rs:137-306`, `Session::dispatch_remote_control` (the
    attempt); [b] is the context it was made for *)
Definition control_attempt (p : ResourceProfile) (t : Target) (k : Kind) (prepared : McpContext.Outgoing)
    (b : RBinding) (req : ExecuteRequest) (id header prefix : string) : P CleanupOutcome :=
  '(route, item) ← admit_control p t k prepared req id;
  if approval_needed route item then
    _ ← run_guard (fun g => (guard_fail g InteractionUnavailable, Ok tt)); mret Skipped
  else
    '(endpoint, out) ← prepare_control p t k prepared b id header prefix;
    response ← execute env endpoint out;
    receive_control k b response.

(** `aap-engine/src/remote_mcp/control.rs:331-344`, `Session::dispatch_remote_control` (a failed
    attempt); [None] when its caller dropped it where it waited *)
Definition settle_control (k : Kind) (m : P CleanupOutcome) : P (option CleanupOutcome) := fun w =>
  match m w with
  | (w, Ok a) => (w, Ok (Some a))
  | (w, Err e) =>
      if on_dropped renv (steps w) then (w, Ok None)
      else
        let left := dispatched (guard w) in
        let w := if left then (invalidate_held w).1 else w in
        let w := (run_guard (fun g => (guard_fail g (code e), Ok tt)) w).1 in
        if bool_decide (k = KDelete) then (w, Ok (Some (if left then CleanupUnknown else Skipped))) else (w, Err e)
  end.

(** `aap-engine/src/pipeline.rs:521-525`, `Guard::child` (the opening of its flow) *)
Definition open_flow : P unit :=
  _ ← pass env;
  _ ← run_guard (fun g => match record_both g Outbound FlowOpen with
                          | (g, Ok _) => (g, Ok tt)
                          | (g, Err e) => (guard_fail g (code e), Err e)
                          end);
  put (Evidence [emission Outbound Agent FlowOpen; emission Outbound Upstream FlowOpen]).

(** `aap-engine/src/remote_mcp/control.rs:126-344`, `Session::dispatch_remote_control` (the
    program of a guard of its own) *)
Definition child_program (p : ResourceProfile) (t : Target) (k : Kind) (prepared : McpContext.Outgoing)
    (b : RBinding) (req : ExecuteRequest) : P (option CleanupOutcome) :=
  _ ← open_flow;
  match auth p with
  | McpAuth id header prefix _ => settle_control k (control_attempt p t k prepared b req id header prefix)
  | _ => reject AuthProfileUnsupported
  end.

(** `aap-engine/src/pipeline.rs:486-527`, `Guard::child` (the check, the tracking and the
    guard; its flow is opened by its own program) *)
Definition open_child (req : ExecuteRequest) : P F :=
  _ ← check_session env; f ← ask (fun n => on_track renv n req); lift f.

(** `aap-engine/src/remote_mcp/control.rs:109-125`, `Session::dispatch_remote_control` (the
    guard of its own: it is dropped when the program ends, and shares the vault; [Err] when
    the caller is gone) *)
Definition run_child (i : nat) (k : Kind) (req : ExecuteRequest) (f : F) (m : P (option CleanupOutcome))
    : P (Result CleanupOutcome) := fun w =>
  match remote (guard w) with
  | None => (w, fail InternalError)
  | Some r =>
      let child := with_remote (tracked (authority (shared (guard w))) req f)
                     (Some (mkRemote (r_vault r) (Some (Serves i k false)))) in
      let (c, res) := m (mkWorld child (steps w) []) in
      let vault := from_option r_vault (r_vault r) (remote (guard_drop (guard c))) in
      (mkWorld (with_remote (guard w) (Some (mkRemote vault (r_hold r)))) (steps c) (log w ++ [Controlled (log c)]),
       match res with
       | Ok (Some a) => Ok (Ok a)
       | Ok None => fail OutcomeUnknown
       | Err e => Ok (Err e)
       end)
  end.

(** The result of a step as a value. *)
Definition caught {A} (m : P A) : P (Result A) := fun w => let (w, r) := m w in (w, Ok r).

(** `aap-engine/src/remote_mcp/control.rs:86-346`, `Session::dispatch_remote_control` *)
Definition dispatch_remote_control (p : ResourceProfile) (t : Target) (i : nat) (k : Kind) (prepared : McpContext.Outgoing)
    : P (Result CleanupOutcome) :=
  b ← on_vault (fun _ v => (v, ok_or (binding_at v i) (Error_new InternalError)));
  id ← ask (on_random env);
  match id with
  | None => mret (fail InternalError)
  | Some id =>
      let req := control_request p t k id in
      f ← caught (open_child req);
      match f with
      | Err e => mret (Err e)
      | Ok f => run_child i k req f (child_program p t k prepared b req)
      end
  end.

(** `aap-engine/src/remote_mcp/control.rs:57-84`, `Session::reply_remote_ping` *)
Definition reply_remote_ping (p : ResourceProfile) (t : Target) (prepared : McpContext.Outgoing) : P unit :=
  g ← get_guard;
  i ← lift (ok_or (remote g ≫= held) (Error_new InternalError));
  r ← dispatch_remote_control p t i KPing prepared;
  _ ← lift r; mret tt.

(** ** A request *)

(** `aap-engine/src/remote_mcp.rs:299-325`, `Session::dispatch_remote` (what the request may
    carry): the item, header and prefix of the profile's credential *)
Definition admit_remote (req : ExecuteRequest) (p : ResourceProfile) : Result (string * string * string) :=
  if bool_decide (is_Some (auth_context req)) then fail PolicyDenied
  else if negb (bool_decide (method req ∈ ["POST"; "DELETE"])) then fail AuthProfileUnsupported
  else
    match auth p with
    | McpAuth id header prefix _ =>
        if existsb (fun h =>
             (eq_ignore_ascii_case h.1 "content-type" && negb (bool_decide (h.2 = "application/json")))
             || (eq_ignore_ascii_case h.1 "mcp-protocol-version" && negb (bool_decide (h.2 = McpMessage.VERSION)))
             || (eq_ignore_ascii_case h.1 "accept" && negb (bool_decide (h.2 = "application/json, text/event-stream"))))
             (headers req)
        then fail InspectionUnavailable
        else Ok (id, header, prefix)
    | _ => fail AuthProfileUnsupported
    end.

(** `aap-engine/src/remote_mcp.rs:334-359`, `Session::dispatch_remote` (route, message and
    item) *)
Definition admit_message (req : ExecuteRequest) (p : ResourceProfile) (t : Target) (body : list byte) (id : string)
    : P (Route * McpMessage.Request * Item) :=
  if negb (existsb (fun h => eq_ignore_ascii_case h.1 "content-type") (headers req)) then reject InspectionUnavailable
  else
    route ← lift (authorize p (method req) t (len body));
    _ ← reserve_remote (len body * 2 + 64 * 1024);
    profile ← lift (ok_or (compiled (profile_id p)) (Error_new PolicyDenied));
    message ← lift (McpMessage.request profile body);
    item ← lift (granted_item id);
    mret (route, message, item).

Definition control (m : McpMessage.Method) : bool := bool_decide (m ∈ [McpMessage.Ping; McpMessage.Initialized]).
(** `aap-engine/src/remote_mcp.rs:436-440`, `Session::dispatch_remote` (the largest response) *)
Definition maximum (r : Route) (m : McpMessage.Method) : Z :=
  if control m then Z.min (max_response_bytes r) (64 * 1024) else max_response_bytes r.

(** `aap-engine/src/remote_mcp.rs:376-388`, `Session::dispatch_remote` (custody) *)
Definition describe_item (p : ResourceProfile) (item : Item) : P (string * ItemMetadata) :=
  if negb (bool_decide (store (credential item) ∈ stores cfg)) then reject VaultUnavailable
  else
    reference ← from_store (ItemRef_new (key (credential item)));
    _ ← await env;
    m ← ask (fun n => on_metadata env n (store (credential item)) reference);
    match m with
    | Ok m => _ ← put (Described (store (credential item)) reference m); mret (reference, m)
    | Err e => _ ← on_vault (fun _ v => (invalidate_remote (Some (profile_id p)) v, Ok tt)); lift (Err (store_error e))
    end.

(** `aap-engine/src/remote_mcp.rs:389-406`, `Session::dispatch_remote` (the exchange begins) *)
Definition begin_remote (p : ResourceProfile) (message : McpMessage.Request) (m : ItemMetadata) (reference store : string)
    (permit : bool) (random : option string) (g : G) : G * Result RBinding :=
  match remote g with
  | None => (g, fail InternalError)
  | Some r =>
      match prepare_remote (r_vault r) (authority (shared g)) (guard_op g) message m reference store
              (compiled (profile_id p)) permit random with
      | (v, Ok (i, e)) =>
          (with_remote g (Some (mkRemote v (Some (Owns i (mkRExchange (Some e) None false))))),
           ok_or (binding_at v i) (Error_new InternalError))
      | (v, Err e) =>
          let g := with_remote g (Some (mkRemote v (r_hold r))) in
          (if bool_decide (code e = SessionInvalid) then with_op g (op_cancel (guard_op g)) else g, Err e)
      end
  end.

(** `aap-engine/src/remote_mcp.rs:498-538`, `Session::dispatch_remote` (the evidence and the
    commit) *)
Definition commit_remote (p : ResourceProfile) (t : Target) (body : list byte) (b : RBinding) (id : string)
    (redactor : Redactor) (out : HttpRequest) : P unit :=
  _ ← evidence env [emission Outbound Upstream
                      (RequestStart "POST" (profile_origin p ++ path t) (observed_headers (http_headers out)))];
  _ ← observe_body Outbound Agent redactor body;
  _ ← observe_body Outbound Upstream redactor (http_body out);
  _ ← evidence_both env Outbound (AuthTransition id true);
  _ ← end_both Outbound;
  _ ← revalidate_held rb_check b;
  _ ← check_session env;
  _ ← check_exchange;
  _ ← evidence_both env Outbound (PolicyDecision Allow None);
  _ ← move_to env Ready None;
  commit env.

(** `aap-engine/src/remote_mcp.rs:466-483`, `Session::dispatch_remote` (the reviewed request) *)
Definition outgoing_message : P McpContext.Outgoing :=
  on_exchange (fun now e b =>
    let '(h, c, r) := McpContext.outgoing (rb_heap b) (rb_state b) e now in (with_context b (h, c), r)).

(** `aap-engine/src/remote_mcp.rs:408-538`, `Session::dispatch_remote` (from approval to the
    commit) *)
Definition prepare_exchange (p : ResourceProfile) (t : Target) (body : list byte) (r : Route) (item : Item)
    (m : McpMessage.Method) (b : RBinding) (id header prefix : string) : P (Endpoint * HttpRequest * Redactor) :=
  _ ← (if approval_needed r item then approve_operation env cfg id (rb_lease b) else mret tt);
  _ ← check_session env;
  _ ← revalidate_held rb_check b;
  _ ← check_exchange;
  room ← ask (on_permit env);
  if negb room then reject LimitExceeded
  else
    _ ← run_guard (fun g => (with_active g, Ok tt));
    _ ← reserve_remote (maximum r m * 6);
    _ ← set_exchange (fun x => mkRExchange (rx_exchange x) (rx_completion x) true);
    endpoint ← resolve_endpoint p t;
    prepared ← outgoing_message;
    out ← lift (remote_request "POST" t prepared);
    '(out, redactor) ← authenticate b prefix header out;
    _ ← commit_remote p t body b id redactor out;
    mret (endpoint, out, redactor).

(** ** The response *)

(** `aap-engine/src/remote_mcp.rs:584-600`, `Session::dispatch_remote` (the pings of a chunk) *)
Fixpoint reply_pings (p : ResourceProfile) (t : Target) (d : McpContext.ResponseDecoder) (pings : list McpMessage.PingReply)
    : P unit :=
  match pings with
  | [] => mret tt
  | ping :: pings =>
      out ← on_exchange (fun now e b =>
        let '(h, c, _, r) := McpContext.ping_reply (rb_heap b) (rb_state b) e d ping now in (with_context b (h, c), r));
      _ ← reply_remote_ping p t out;
      reply_pings p t d pings
  end.
(** `aap-engine/src/remote_mcp.rs:583-601`, `Session::dispatch_remote` (the chunks of a frame) *)
Fixpoint push_chunks (p : ResourceProfile) (t : Target) (d : McpContext.ResponseDecoder) (cs : list (list byte))
    : P McpContext.ResponseDecoder :=
  match cs with
  | [] => mret d
  | c :: cs =>
      '(d, pings) ← on_exchange (fun _ _ b =>
        let '(h, d, r) := McpContext.rd_push (rb_heap b) d c in
        (with_context b (h, rb_state b), pings ← r; Ok (d, pings)));
      _ ← reply_pings p t d pings;
      push_chunks p t d cs
  end.
(** `aap-engine/src/remote_mcp.rs:575-602`, `Session::dispatch_remote` (the frames) *)
Fixpoint read_frames (p : ResourceProfile) (t : Target) (d : McpContext.ResponseDecoder) (fs : list (list byte))
    : P McpContext.ResponseDecoder :=
  _ ← await env;
  match fs with
  | f :: fs =>
      _ ← check_held;
      d ← push_chunks p t d (chunks (length f) (Z.to_nat MAX_REQUEST) f);
      read_frames p t d fs
  | [] =>
      e ← ask (on_body_end renv);
      match e with
      | EndClean => mret d
      | EndTrailers => _ ← check_held; _ ← invalidate_held; reject InspectionUnavailable
      | EndError c => _ ← check_held; reject c
      end
  end.

(** `aap-engine/src/remote_mcp.rs:606-617`, `Session::dispatch_remote` (the agent's response) *)
Definition safe_answer (s : McpContext.SafeResponse) : Answer :=
  mkAnswer (McpContext.sr_status s)
    (match McpContext.sr_content_type s with Some m => [("content-type", as_bytes m)] | None => [] end)
    (McpContext.sr_body s).

(** `aap-engine/src/remote_mcp.rs:603-646`, `Session::dispatch_remote` (the completion) *)
Definition finish_remote (b : RBinding) (d : McpContext.ResponseDecoder) : P Answer :=
  completion ← on_exchange (fun _ _ b =>
    let (h, r) := McpContext.rd_finish (rb_heap b) d in (with_context b (h, rb_state b), r));
  _ ← revalidate_held rb_check b;
  _ ← check_session env;
  let answer := safe_answer (McpContext.cm_response completion) in
  _ ← evidence env [emission Inbound Agent (ResponseStart (an_status answer) (observed_headers (an_headers answer)))];
  plain ← lift (Redactor_new json_string []);
  _ ← observe_body Inbound Agent plain (an_body answer);
  _ ← observe_body Inbound Upstream plain (an_body answer);
  _ ← run_guard (fun g => (with_recorded g, Ok tt));
  _ ← move_to env Dispatching (Some (an_status answer));
  _ ← set_exchange (fun x => mkRExchange (rx_exchange x) (Some completion) (rx_response x));
  mret answer.

(** `aap-engine/src/remote_mcp.rs:553-646`, `Session::dispatch_remote` (the response) *)
Definition receive_remote (p : ResourceProfile) (t : Target) (b : RBinding) (redactor : Redactor) (response : HttpResponse)
    : P Answer :=
  _ ← evidence env [emission Inbound Upstream
                      (ResponseStart (http_status response) (observed_headers (response_headers response)))];
  d ← on_exchange (fun now e b =>
    let '(h, c, r) := McpContext.start_response (rb_heap b) (rb_state b) e (http_status response)
                        (response_headers response) redactor now in (with_context b (h, c), r));
  d ← read_frames p t d (frames response);
  finish_remote b d.

(** `aap-engine/src/remote_mcp.rs:376-653`, `Session::dispatch_remote` (an exchange of its
    own) *)
Definition exchange_remote (p : ResourceProfile) (t : Target) (body : list byte) (r : Route) (item : Item)
    (message : McpMessage.Request) (id header prefix : string) : P Answer :=
  '(reference, m) ← describe_item p item;
  permit ← ask (on_context_permit renv); random ← ask (on_random env);
  b ← (_ ← pass env; run_guard (begin_remote p message m reference (store (credential item)) permit random));
  _ ← on_held rb_deadline;
  '(endpoint, out, redactor) ← prepare_exchange p t body r item (McpMessage.rq_method message) b id header prefix;
  response ← execute env endpoint out;
  receive_remote p t b redactor response.

(** ** Cancellation and closure *)

(** [Guard::complete_local], and `aap-engine/src/remote_mcp.rs:655-664`, `empty_response` *)
Definition answer_local (status : Z) (hs : list (string * list byte)) : P Answer :=
  _ ← (_ ← pass env; run_guard (fun g => complete_local g status)); mret (mkAnswer status hs []).

(** `aap-engine/src/remote_mcp/cancellation.rs:45-75`, `Session::cancel_remote_message` (the
    operation it cancels, and the notice to the upstream) *)
Definition stop_target (p : ResourceProfile) (t : Target) (i : nat) (c : McpContext.CancellationRequest) : P unit :=
  _ ← check_session env;
  dispatching ← ask (fun n => on_operation renv n (McpContext.cr_operation c));
  dispatching ← lift dispatching;
  _ ← put (Stopped (McpContext.cr_operation c));
  if dispatching : bool then
    r ← dispatch_remote_control p t i KCancel (McpContext.cr_outgoing c);
    match r with
    | Ok _ => mret tt
    | Err e => evidence_both env Outbound (PolicyDecision Deny (Some (code e)))
    end
  else mret tt.

(** `aap-engine/src/remote_mcp/cancellation.rs:21-86`, `Session::cancel_remote_message` *)
Definition cancel_remote_message (p : ResourceProfile) (t : Target) (message : McpMessage.Request) : P Answer :=
  c ← on_vault (fun g v => cancel_message v (profile_id p) message (guard_now g));
  _ ← (match c with Some (i, c) => stop_target p t i c | None => mret tt end);
  _ ← say Outbound Agent SAFE_CANCEL;
  _ ← evidence env [emission Inbound Agent (ResponseStart 202 [])];
  answer_local 202 [].

(** `aap-engine/src/remote_mcp/cleanup.rs:8-13`, `Closing` (the barrier ends with its scope) *)
Definition closing_scope {A} (i : nat) (m : P A) : P A := fun w =>
  let (w, r) := m w in
  (mkWorld (with_remote (guard w) ((fun x => mkRemote (alter_binding (set_closing false) i (r_vault x)) (r_hold x)) <$> remote (guard w)))
     (steps w) (log w), r).

Definition CLEANUP_HEADER : string := "x-aap-remote-cleanup".

(** `aap-engine/src/remote_mcp/cleanup.rs:97-115`, `Session::close_remote_context` (closure,
    and the attempt to end the remote session); [deadline] is the request's *)
Definition end_session (p : ResourceProfile) (t : Target) (deadline : Z) : P CleanupOutcome :=
  c ← on_vault (fun g v => prepare_remote_close v (profile_id p) deadline (guard_now g));
  match c with
  | Some (i, (prepared, _)) =>
      closing_scope i (r ← dispatch_remote_control p t i KDelete prepared;
                       mret match r with Ok o => o | Err _ => Skipped end)
  | None => mret Skipped
  end.

(** `aap-engine/src/remote_mcp/cleanup.rs:62-130`, `Session::close_remote_context` *)
Definition close_remote_context (req : ExecuteRequest) (p : ResourceProfile) (t : Target) (id : string) (deadline : Z) : P Answer :=
  _ ← lift (granted_item id);
  _ ← move_to env Validated None;
  _ ← evidence env [emission Outbound Agent (RequestStart "DELETE" (target_as_str t) (safe_headers (headers req)))];
  outcome ← end_session p t deadline;
  _ ← evidence env [emission Inbound Agent (ResponseStart 204 [(CLEANUP_HEADER, as_str outcome)])];
  answer_local 204 [(CLEANUP_HEADER, as_bytes (as_str outcome))].

(** `aap-engine/src/remote_mcp.rs:291-654`, `Session::dispatch_remote` *)
Definition dispatch_remote (req : ExecuteRequest) (p : ResourceProfile) (t : Target) (body : list byte) (deadline : Z) : P Answer :=
  '(id, header, prefix) ← lift (admit_remote req p);
  if bool_decide (method req = "DELETE") then
    if bool_decide (body = []) then close_remote_context req p t id deadline else reject RequestInvalid
  else
    '(r, message, item) ← admit_message req p t body id;
    _ ← move_to env Validated None;
    _ ← evidence env [emission Outbound Agent
                        (RequestStart (method req) (profile_origin p ++ path t) (safe_headers (headers req)))];
    if bool_decide (McpMessage.rq_method message = McpMessage.Cancel) then cancel_remote_message p t message
    else exchange_remote p t body r item message id header prefix.

(** `aap-engine/src/pipeline.rs:203-229`, `Session::dispatch` (a remote MCP profile) *)
Definition dispatch_mcp (req : ExecuteRequest) (deadline : Z) : P Answer :=
  '(p, t, body, _) ← lift (admit_request cfg opts req);
  dispatch_remote req p t body deadline.

(** ** The cancellation of an operation *)

(** `aap-engine/src/remote_mcp/cancellation.rs:114-143`, `Session::cancel_remote_operation`;
    the guard of its world stands for what it shares with the operation's *)
Definition cancel_remote_operation : P unit :=
  prepared ← caught (on_vault (fun g v => prepare_operation_cancel v (guard_op g) (guard_now g)));
  _ ← pass env; g ← get_guard;
  _ ← pass env; _ ← run_guard (fun g => (with_op g (op_cancel (guard_op g)), Ok tt));
  _ ← put (Stopped (request_id (op_request (guard_op g))));
  if negb (bool_decide (op_state (guard_op g) = Dispatching)) then mret tt
  else
    match prepared with
    | Ok (Some (i, c)) =>
        let req := op_request (guard_op g) in
        match find_first (fun p => bool_decide (profile_id p = resource req)) (profiles cfg), Target_parse (target req) with
        | Some p, Ok t => _ ← dispatch_remote_control p t i KCancel (McpContext.cr_outgoing c); mret tt
        | _, _ => mret tt
        end
    | _ => mret tt
    end.
End Remote.
