(* ===== verification/RemoteFacts.v ===== *)
(** * A remote request moves its guard and its log

    The programs of [Remote] are lives of their guards, hand a request off at one place,
    and log what they did in a known order: the calls of a control message and of an
    exchange up to the one hand-off of each, and what each was decided on. What they log
    of the requests made on their behalf is the whole log of those. *)
From S2P Require Import Prelude Protocol Ids Json Tools Address Observe Catalog Profile Secrets Redaction Injection Cookies.
From S2P Require Import Flow Operation Guard Lifecycle Endpoint Config Dispatch McpWire RemoteVault Remote.
From S2P Require McpMessage McpHeaders McpContext.

(** ** The guard *)

Section Guided.
Context `{Base64} `{Http} `{Urls} `{HttpMessage} `{JsonText} `{McpMessage.Rmcp}
  (json_string : list byte -> option (list byte)).
Context {F : Type} `{Observer F}.
Context (renv : RemEnv F) (cfg : Configuration) (opts : SessionOptions).
Abbreviation P := (Prog F Remote).
Abbreviation G := (Guard F Remote).

(** A program of disciplined moves that may end with its dispatch committed or not. *)
Definition lively {A} (d : bool) (m : P A) : Prop :=
  forall w w' r, dispatched (guard w) = d -> m w = (w', r) ->
    exists ms, lives (guard w) ms /\ guard w' = life (guard w) ms.
Lemma lively_guided {A} d d' (m : P A) : guided d d' m -> lively d m.
Proof. intros Hm w w' r Hd Hr. destruct (Hm _ _ _ Hd Hr) as (ms & ? & ? & _). by exists ms. Qed.
Lemma lively_bind {A B} d d' (m : P A) (k : A -> P B) :
  guided d d' m -> (forall a, lively d' (k a)) -> lively d (m ≫= k).
Proof.
  intros Hm Hk w w' r Hd Hr. unfold mbind, prog_bind in Hr. destruct (m w) as [w1 [a|e]] eqn:E.
  - destruct (Hm _ _ _ Hd E) as (ms & L1 & L2 & L3). destruct (Hk a _ _ _ (L3 eq_refl) Hr) as (ms' & K1 & K2).
    exists (ms ++ ms'). rewrite life_app, <-L2. split; [|done]. apply lives_app; [done|by rewrite <-L2].
  - injection Hr as <- <-. destruct (Hm _ _ _ Hd E) as (ms & L1 & L2 & L3). by exists ms.
Qed.

Lemma remote_move (g : G) r : do_move g (MExchange (website g) (binding (shared g)) r) = with_remote g r.
Proof. by destruct g as [[]]. Qed.
Lemma guided_run_remote {A} d (f : G -> Remote -> Remote * Result A) : guided d d (run_remote f : P A).
Proof.
  intros w w' r Hd Hr. unfold run_remote, run_guard in Hr. destruct (remote (guard w)) as [x|] eqn:E.
  - destruct (f _ x) as [x' y]. injection Hr as <- <-. exists [MExchange (website (guard w)) (binding (shared (guard w))) (Some x')].
    unfold life. cbn [lives foldl guard]. by rewrite remote_move.
  - injection Hr as <- <-. by exists [].
Qed.
#[local] Hint Resolve guided_run_remote : guided.

Lemma guided_on_vault {A} d (f : G -> RVault -> RVault * Result A) : guided d d (on_vault renv f : P A).
Proof. unfold on_vault. guide. Qed.
Lemma guided_on_held {A} d (f : Z -> RBinding -> RBinding * Result A) : guided d d (on_held renv f : P A).
Proof. unfold on_held. guide. Qed.
Lemma guided_on_exchange {A} d (f : Z -> McpContext.Exchange -> RBinding -> RBinding * Result A) : guided d d (on_exchange renv f : P A).
Proof. unfold on_exchange. guide. Qed.
Lemma guided_set_exchange d f : guided d d (set_exchange f : P unit).
Proof. unfold set_exchange. guide. Qed.
Lemma guided_check_exchange d : guided d d (check_exchange renv : P unit).
Proof. unfold check_exchange. guide. Qed.
#[local] Hint Resolve guided_on_vault guided_on_held guided_on_exchange guided_set_exchange guided_check_exchange : guided.
Lemma guided_invalidate d : guided d d (invalidate_held renv : P unit).
Proof. apply guided_on_held. Qed.
Lemma guided_check_held d : guided d d (check_held renv : P unit).
Proof. apply guided_on_held. Qed.
#[local] Hint Resolve guided_invalidate guided_check_held : guided.

Lemma guided_or_invalidate {A} d (m : P A) : guided d d m -> guided d d (or_invalidate renv m : P A).
Proof.
  intros Hm w w' r Hd Hr. unfold or_invalidate in Hr. destruct (m w) as [w1 [a|e]] eqn:E.
  - injection Hr as <- <-. destruct (Hm _ _ _ Hd E) as (ms & L1 & L2 & L3). eauto.
  - destruct (invalidate_held renv w1) as [w2 r2] eqn:E2. injection Hr as <- <-.
    destruct (Hm _ _ _ Hd E) as (ms & L1 & L2 & _).
    destruct (guided_invalidate _ _ _ _ eq_refl E2) as (ms' & K1 & K2 & _).
    exists (ms ++ ms'). rewrite life_app, <-L2. split; [|done]. apply lives_app; [done|by rewrite <-L2].
Qed.
#[local] Hint Resolve guided_or_invalidate : guided.
Lemma guided_revalidate_held d check b : guided d d (revalidate_held renv check b : P unit).
Proof. unfold revalidate_held. guide. Qed.
Lemma guided_reserve_remote d n : guided d d (reserve_remote renv n : P unit).
Proof. unfold reserve_remote. guide. Qed.
Lemma guided_authenticate d b prefix header out : guided d d (authenticate json_string renv b prefix header out : P (HttpRequest * Redactor)).
Proof. unfold authenticate. guide; apply guided_or_invalidate; guide. Qed.
Lemma guided_resolve_endpoint d p t : guided d d (resolve_endpoint renv p t : P Endpoint).
Proof. unfold resolve_endpoint. guide. Qed.
Lemma guided_say d dir v l : guided d d (say renv dir v l : P unit).
Proof. unfold say, content. guide. Qed.
Lemma guided_end_both d dir : guided d d (end_both renv dir : P unit).
Proof. unfold end_both. guide. Qed.
#[local] Hint Resolve guided_revalidate_held guided_reserve_remote guided_authenticate guided_resolve_endpoint guided_say
  guided_end_both : guided.
Lemma guided_observe d dir v r l : guided d d (observe_body renv dir v r l : P unit).
Proof.
  unfold observe_body. generalize (fresh r), (mkPlaceholders [] false), (body_chunks l). clear r l. intros r p cs.
  revert r p. induction cs as [|[c fin] cs IH]; intros r p; cbn [observe_chunks]; [apply guided_ret|].
  destruct (feed r c fin) as [r1 s1]. eapply guided_bind; [apply guided_lift|]. intros safe.
  destruct (feed_placeholders p safe fin) as [p1 s2]. guide.
Qed.
#[local] Hint Resolve guided_observe : guided.

Lemma guided_admit_control p t k prepared req id : guided false false (admit_control renv cfg opts p t k prepared req id : P (Route * Item)).
Proof. unfold admit_control. guide. Qed.
Lemma guided_commit_control t k b id out : guided false true (commit_control renv t k b id out : P unit).
Proof. unfold commit_control. guide. Qed.
#[local] Hint Resolve guided_admit_control guided_commit_control : guided.
Lemma guided_prepare_control p t k prepared b id header prefix :
  guided false true (prepare_control json_string renv p t k prepared b id header prefix : P (Endpoint * HttpRequest)).
Proof. unfold prepare_control. guide. Qed.
Lemma guided_read_empty d fs : guided d d (read_empty renv fs : P unit).
Proof. induction fs as [|f fs IH]; cbn [read_empty]; guide. Qed.
Lemma guided_describe d p item : guided d d (describe_item renv cfg p item : P (string * ItemMetadata)).
Proof. unfold describe_item. guide. Qed.
Lemma guided_commit_remote p t body b id r out : guided false true (commit_remote renv p t body b id r out : P unit).
Proof. unfold commit_remote. guide. Qed.
#[local] Hint Resolve guided_commit_remote : guided.
Lemma guided_prepare_exchange p t body r item m b id header prefix :
  guided false true (prepare_exchange json_string renv cfg opts p t body r item m b id header prefix : P (Endpoint * HttpRequest * Redactor)).
Proof. unfold prepare_exchange, outgoing_message. guide. Qed.
End Guided.
#[export] Hint Resolve guided_run_remote guided_on_vault guided_on_held guided_on_exchange guided_set_exchange
  guided_check_exchange guided_invalidate guided_check_held guided_or_invalidate guided_revalidate_held
  guided_reserve_remote guided_authenticate guided_resolve_endpoint guided_say guided_end_both guided_observe guided_admit_control guided_commit_control
  guided_prepare_control guided_read_empty guided_describe guided_commit_remote guided_prepare_exchange : guided.

(** ** Control messages *)

Section Controls.
Context `{Base64} `{Http} `{Urls} `{HttpMessage} `{JsonText} `{McpMessage.Rmcp}
  (json_string : list byte -> option (list byte)).
Context {F : Type} `{ObserverLaws F}.
Context (renv : RemEnv F) (cfg : Configuration) (opts : SessionOptions).
Abbreviation P := (Prog F Remote).
Abbreviation G := (Guard F Remote).

Lemma guided_complete d : guided d d (run_guard complete : P unit).
Proof.
  apply (guided_move _ _ _ (fun _ => MComplete)). intros g Hd. split; [done|]. split; [done|].
  destruct (complete g) as [g1 r] eqn:E. apply complete_spec in E as (_ & E & _). cbn; congruence.
Qed.
Lemma guided_local d s : guided d d (run_guard (fun g => complete_local g s) : P unit).
Proof.
  apply (guided_move _ _ _ (fun _ => MLocal s)). intros g Hd. split; [done|]. split; [done|].
  destruct (complete_local g s) as [g1 r] eqn:E. apply complete_local_spec in E as (_ & E & _). cbn; congruence.
Qed.
Lemma guided_fail d c : guided d d (run_guard (fun g => (guard_fail g c, Ok tt)) : P unit).
Proof.
  apply (guided_move _ _ _ (fun _ => MFail c)). intros g Hd. split; [done|]. split; [done|].
  destruct (guard_fail_spec g c) as (_ & E & _). cbn; congruence.
Qed.
#[local] Hint Resolve guided_complete guided_local guided_fail : guided.
Lemma guided_receive_control k b response : guided true true (receive_control renv k b response : P CleanupOutcome).
Proof. unfold receive_control. guide. Qed.
#[local] Hint Resolve guided_receive_control : guided.

Lemma lively_attempt p t k prepared b req id header prefix :
  lively false (control_attempt json_string renv cfg opts p t k prepared b req id header prefix).
Proof.
  unfold control_attempt. eapply lively_bind; [apply guided_admit_control|]. intros [route item].
  destruct (approval_needed _ _ _ _).
  - eapply lively_guided. guide.
  - eapply lively_guided. guide.
Qed.

(** What a guard is after a control message: a life of the one tracked for it. *)
Lemma lively_settle k m : lively false m -> lively false (settle_control renv k m).
Proof.
  intros Hm w w' r Hd Hr. unfold settle_control in Hr. destruct (m w) as [w1 [a|e]] eqn:E.
  - injection Hr as <- <-. exact (Hm _ _ _ Hd E).
  - destruct (Hm _ _ _ Hd E) as (ms & L1 & L2). destruct (on_dropped _ _); [injection Hr as <- <-; by exists ms|].
    cbv zeta in Hr. set (w2 := if dispatched (guard w1) then (invalidate_held renv w1).1 else w1) in Hr.
    assert (Hw : exists ms2, lives (guard w1) ms2 /\ guard w2 = life (guard w1) ms2).
    { subst w2. destruct (dispatched (guard w1)) eqn:Ed; [|by exists []].
      destruct (invalidate_held renv w1) as [w2 r2] eqn:E2.
      destruct (guided_invalidate renv _ _ _ _ eq_refl E2) as (ms2 & ? & ? & _). by exists ms2. }
    destruct Hw as (ms2 & K1 & K2).
    exists (ms ++ ms2 ++ [MFail (code e)]). rewrite !life_app, <-L2. split.
    + apply lives_app; [done|]. rewrite <-L2. apply lives_app; [done|]. by rewrite <-K2.
    + rewrite <-K2. destruct (bool_decide (k = KDelete)); injection Hr as <- <-; done.
Qed.
Lemma guided_open_flow d : guided d d (open_flow renv : P unit).
Proof.
  unfold open_flow. eapply guided_bind; [apply guided_pass|]. intros _.
  eapply guided_bind; [|intros; apply guided_put].
  intros w w' r Hd Hr. unfold run_guard in Hr. destruct (record_both (guard w) Outbound FlowOpen) as [g1 [[]|e]] eqn:E.
  + injection Hr as <- <-. unfold record_both in E. pose proof (record_frame _ _ _ _ E) as (_ & _ & Ed & _).
    eexists [MRecord _]. unfold life. cbn [lives foldl do_move guard]. rewrite E. split; [done|]. split; [done|]. intros _. cbn. congruence.
  + injection Hr as <- <-. unfold record_both in E. eexists [MRecord _; MFail (code e)]. unfold life. cbn [lives foldl do_move guard].
    rewrite E. by split_and!.
Qed.
Lemma lively_child p t k prepared b req : lively false (child_program json_string renv cfg opts p t k prepared b req).
Proof.
  unfold child_program. eapply (lively_bind _ false); [apply guided_open_flow|]. intros _.
  destruct (auth p); try (apply (lively_guided _ false); apply guided_reject). apply lively_settle, lively_attempt.
Qed.

(** ** Requests *)

Lemma guided_run_child d i k req f m : guided d d (run_child i k req f m : P (Result CleanupOutcome)).
Proof.
  intros w w' r Hd Hr. unfold run_child in Hr. destruct (remote (guard w)) as [x|] eqn:E.
  - destruct (m _) as [c res]. injection Hr as <- <-.
    eexists [MExchange (website (guard w)) (binding (shared (guard w))) (Some _)].
    unfold life. cbn [lives foldl guard]. rewrite remote_move. done.
  - injection Hr as <- <-. by exists [].
Qed.
Lemma guided_caught_child d req : guided d d (caught (open_child renv req) : P (Result F)).
Proof.
  intros w w' r Hd Hr. unfold caught in Hr. destruct (open_child renv req w) as [w1 r1] eqn:E. injection Hr as <- <-.
  assert (Hp : guard (open_child renv req w).1 = guard (pass (rem renv) w).1).
  { unfold open_child, check_session, mbind, prog_bind, pass, get_guard, ask, lift. cbn. by destruct (Session_check _) as [[]|]. }
  rewrite E in Hp. cbn [fst] in Hp.
  cbn [guard]. rewrite Hp. destruct (pass (rem renv) w) as [w2 r2] eqn:E2.
  destruct (guided_pass (rem renv) d w w2 r2 Hd E2) as (ms & L1 & L2 & L3). exists ms. cbn.
  split; [done|]. split; [done|]. intros _. apply L3. by injection E2 as _ <-.
Qed.
#[local] Hint Resolve guided_run_child guided_caught_child : guided.
Lemma guided_control d p t i k prepared :
  guided d d (dispatch_remote_control json_string renv cfg opts p t i k prepared : P (Result CleanupOutcome)).
Proof. unfold dispatch_remote_control. guide. Qed.
#[local] Hint Resolve guided_control : guided.
Lemma guided_ping d p t prepared : guided d d (reply_remote_ping json_string renv cfg opts p t prepared : P unit).
Proof. unfold reply_remote_ping. guide. Qed.
#[local] Hint Resolve guided_ping : guided.
Lemma guided_pings d p t x pings : guided d d (reply_pings json_string renv cfg opts p t x pings : P unit).
Proof. induction pings as [|ping pings IH]; cbn [reply_pings]; guide. Qed.
#[local] Hint Resolve guided_pings : guided.
Lemma guided_push d p t x cs : guided d d (push_chunks json_string renv cfg opts p t x cs : P McpContext.ResponseDecoder).
Proof. revert x. induction cs as [|c cs IH]; intros x; cbn [push_chunks]; guide. Qed.
#[local] Hint Resolve guided_push : guided.
Lemma guided_frames d p t x fs : guided d d (read_frames json_string renv cfg opts p t x fs : P McpContext.ResponseDecoder).
Proof. revert x. induction fs as [|c cs IH]; intros x; cbn [read_frames]; guide. Qed.
#[local] Hint Resolve guided_frames : guided.
Lemma guided_remote_recorded d : guided d d (run_guard (fun g => (with_recorded g, Ok tt)) : P unit).
Proof. by apply (guided_move _ _ _ (fun _ => MRecorded)). Qed.
#[local] Hint Resolve guided_remote_recorded : guided.
Lemma guided_receive_remote p t b r response :
  guided true true (receive_remote json_string renv cfg opts p t b r response : P Answer).
Proof. unfold receive_remote, finish_remote. guide. Qed.
#[local] Hint Resolve guided_receive_remote : guided.
Lemma guided_closing {A} d i (m : P A) : guided d d m -> guided d d (closing_scope i m : P A).
Proof.
  intros Hm w w' r Hd Hr. unfold closing_scope in Hr. destruct (m w) as [w1 r1] eqn:E. injection Hr as <- <-.
  destruct (Hm _ _ _ Hd E) as (ms & L1 & L2 & L3).
  eexists (ms ++ [MExchange (website (guard w1)) (binding (shared (guard w1))) _]).
  rewrite life_app, <-L2. split; [apply lives_app; [done|by rewrite <-L2]|]. unfold life. cbn [foldl guard].
  rewrite remote_move. split; [done|]. exact L3.
Qed.
#[local] Hint Resolve guided_closing : guided.
Lemma guided_end_session d p t deadline : guided d d (end_session json_string renv cfg opts p t deadline : P CleanupOutcome).
Proof. unfold end_session. guide. apply guided_closing. guide. Qed.
Lemma guided_answer_local d status hs : guided d d (answer_local renv status hs : P Answer).
Proof. unfold answer_local. guide. Qed.
#[local] Hint Resolve guided_end_session guided_answer_local : guided.
Lemma guided_close req p t id deadline :
  guided false false (close_remote_context json_string renv cfg opts req p t id deadline : P Answer).
Proof. unfold close_remote_context. guide. Qed.
Lemma guided_stop d p t i c : guided d d (stop_target json_string renv cfg opts p t i c : P unit).
Proof. unfold stop_target. guide. Qed.
#[local] Hint Resolve guided_stop : guided.
Lemma guided_cancel_message p t message :
  guided false false (cancel_remote_message json_string renv cfg opts p t message : P Answer).
Proof. unfold cancel_remote_message. guide. Qed.
Context (compiled : string -> option McpMessage.McpProfile).
Lemma guided_begin_remote d p message m re st permit random :
  guided d d (run_guard (begin_remote compiled p message m re st permit random) : P RBinding).
Proof.
  intros w w' r Hd Hr. unfold run_guard, begin_remote in Hr. set (g := guard w) in *.
  destruct (remote g) as [x|] eqn:E; [|injection Hr as <- <-; by exists []].
  destruct (prepare_remote _ _ _ _ _ _ _ _ _ _) as [v [[i e]|e]].
  - injection Hr as <- <-. eexists [MExchange (website g) (binding (shared g)) (Some _)].
    unfold life. cbn [lives foldl guard]. rewrite remote_move. done.
  - destruct (bool_decide _); injection Hr as <- <-.
    + exists [MExchange (website g) (binding (shared g)) (Some (mkRemote v (r_hold x))); MOthers [OCancel]].
      unfold life. cbn [lives foldl guard]. rewrite remote_move. by split.
    + exists [MExchange (website g) (binding (shared g)) (Some (mkRemote v (r_hold x)))].
      unfold life. cbn [lives foldl guard]. rewrite remote_move. by split.
Qed.
#[local] Hint Resolve guided_begin_remote : guided.
Lemma guided_exchange_remote p t body r item message id header prefix :
  guided false true (exchange_remote json_string compiled renv cfg opts p t body r item message id header prefix : P Answer).
Proof. unfold exchange_remote. guide. Qed.
Lemma guided_admit_message d req p t body id :
  guided d d (admit_message compiled renv cfg opts req p t body id : P (Route * McpMessage.Request * Item)).
Proof. unfold admit_message. guide. Qed.
#[local] Hint Resolve guided_admit_message : guided.
Lemma lively_dispatch_mcp req deadline :
  lively false (dispatch_mcp json_string compiled renv cfg opts req deadline : P Answer).
Proof.
  unfold dispatch_mcp, dispatch_remote. eapply lively_bind; [guide|]. intros [[[p t] body] r].
  eapply lively_bind; [guide|]. intros [[id header] prefix]. destruct (bool_decide _).
  - destruct (bool_decide _); [eapply lively_guided, guided_close|apply (lively_guided _ false), guided_reject].
  - eapply lively_bind; [guide|]. intros [[route message] item].
    eapply lively_bind; [apply guided_move_to; cbn; set_solver|]. intros [].
    eapply lively_bind; [guide|]. intros []. destruct (bool_decide _); eapply lively_guided;
      [apply guided_cancel_message|apply guided_exchange_remote].
Qed.
End Controls.
#[export] Hint Resolve guided_complete guided_local guided_fail guided_receive_control guided_run_child guided_caught_child guided_control guided_ping
  guided_pings guided_push guided_frames guided_remote_recorded guided_receive_remote guided_begin_remote
  guided_exchange_remote guided_closing guided_end_session
  guided_answer_local guided_close guided_stop guided_cancel_message guided_admit_message : guided.

(** ** What a remote request logs *)

Section Logged.
Context `{Base64} `{Http} `{Urls} `{HttpMessage} `{JsonText} `{McpMessage.Rmcp}
  (json_string : list byte -> option (list byte)).
Context {F : Type} `{Observer F}.
Context (renv : RemEnv F) (cfg : Configuration) (opts : SessionOptions).
Abbreviation P := (Prog F Remote).
Abbreviation G := (Guard F Remote).
Abbreviation env := (rem renv).
Abbreviation logs := (logs (F:=F) (R:=Remote)).

(** ** Steps *)

Lemma logs_run_remote {A} (f : G -> Remote -> Remote * Result A) :
  logs (run_remote f) (fun a l => l = [] /\ exists g r r', remote g = Some r /\ f g r = (r', Ok a)).
Proof.
  apply logs_still.
  - intros w. unfold run_remote, run_guard. destruct (remote (guard w)) as [r|]; [|done]. by destruct (f _ r).
  - intros w a. unfold run_remote, run_guard. destruct (remote (guard w)) as [r|] eqn:E; [|done].
    destruct (f (guard w) r) as [r' x] eqn:E'. cbn. intros ->. eauto 10.
Qed.
#[local] Hint Resolve logs_run_remote : logs.
Lemma logs_on_vault {A} (f : G -> RVault -> RVault * Result A) :
  logs (on_vault renv f) (fun a l => l = [] /\ exists g v v', f g v = (v', Ok a)).
Proof.
  unfold on_vault. eapply logs_bind; [apply logs_pass|]. intros [] l [-> _].
  eapply logs_weaken; [apply logs_run_remote|]. intros a l [-> (g & r & r' & _ & Hf)]. split; [done|].
  destruct (f g (r_vault r)) as [v' x] eqn:E. injection Hf as _ ->. eauto.
Qed.
Lemma logs_on_held {A} (f : Z -> RBinding -> RBinding * Result A) : logs (on_held renv f) (fun a l => l = []).
Proof. unfold on_held. by chain. Qed.
Lemma with_exchange_Ok {A} (f : RBinding -> RExchange -> RBinding * RExchange * Result A) e r r' a :
  with_exchange f (Err e) r = (r', Ok a) ->
  exists i x b b' x', r_hold r = Some (Owns i x) /\ binding_at (r_vault r) i = Some b /\ f b x = (b', x', Ok a).
Proof.
  unfold with_exchange. destruct (r_hold r) as [[i x|]|]; try done. destruct (binding_at _ _) as [b|] eqn:E; [|done].
  destruct (f b x) as [[b' x'] y] eqn:Ef. intros [= <- ->]. eauto 10.
Qed.
Lemma logs_on_exchange {A} (f : Z -> McpContext.Exchange -> RBinding -> RBinding * Result A) :
  logs (on_exchange renv f) (fun a l => l = [] /\ exists now e b b', f now e b = (b', Ok a)).
Proof.
  unfold on_exchange. eapply logs_bind; [apply logs_pass|]. intros [] l [-> _].
  eapply logs_weaken; [apply logs_run_remote|]. intros a l [-> (g & r & r' & _ & Hf)]. split; [done|].
  apply with_exchange_Ok in Hf as (i & x & b & b' & x' & _ & _ & Hf).
  destruct (rx_exchange x) as [e|]; [|done]. destruct (f _ e b) as [b1 y] eqn:E. injection Hf as _ _ ->. eauto 10.
Qed.
Lemma logs_set_exchange f : logs (set_exchange f) (fun _ l => l = []).
Proof. unfold set_exchange. by chain. Qed.
Lemma logs_check_exchange : logs (check_exchange renv) (fun _ l => l = []).
Proof. unfold check_exchange. by chain. Qed.
Lemma logs_check_held : logs (check_held renv) (fun _ l => l = []).
Proof. apply logs_on_held. Qed.
Lemma logs_invalidate : logs (invalidate_held renv) (fun _ l => l = []).
Proof. apply logs_on_held. Qed.
Lemma invalidate_log (w : World F Remote) : log (invalidate_held renv w).1 = log w.
Proof.
  unfold invalidate_held, on_held, mbind, prog_bind, pass. unfold run_remote, run_guard. cbn.
  destruct (_ <$> remote (guard w)) as [r|]; [|done]. cbn. destruct (held r); [|done]. by destruct (at_binding _ _ _).
Qed.
Lemma logs_or_invalidate {A} (m : P A) p : logs m p -> logs (or_invalidate renv m) p.
Proof.
  intros Hm w w' r Hr. unfold or_invalidate in Hr. destruct (m w) as [w1 [a|e]] eqn:E; injection Hr as <- <-.
  - exact (Hm _ _ _ E).
  - destruct (Hm _ _ _ E) as (l & ? & ? & _). exists l. rewrite invalidate_log. by split_and!.
Qed.
#[local] Hint Resolve logs_on_vault logs_on_held logs_on_exchange logs_set_exchange logs_check_exchange logs_check_held
  logs_invalidate : logs.
#[local] Hint Extern 1 (Dispatch.logs (or_invalidate _ _) _) => (apply logs_or_invalidate) : logs.

(** A revalidation of a context's lease. *)
Definition held_by (b : RBinding) : Call := Revalidated (rb_store b) (rb_reference b) (rb_lease b).
Definition released_to (b : RBinding) (s : Snapshot) : Call := Released (rb_store b) (rb_reference b) (rb_lease b) s.
Lemma logs_revalidate_held check b : logs (revalidate_held renv check b) (fun _ l => l = [held_by b]).
Proof. unfold revalidate_held. chained. Qed.
Lemma logs_reserve_remote n : logs (reserve_remote renv n) (fun _ l => l = []).
Proof. unfold reserve_remote. chained. Qed.

(** The credential of a context, inserted into a request. *)
Definition inserted_key (s : Snapshot) (prefix header : string) (q : HttpRequest) (out : HttpRequest * Redactor) : Prop :=
  exists k, PreparedKey_new json_string s prefix = Ok k /\ inject k q header = Ok out.
Lemma logs_checked {A} (r : result StoreError A) : logs (_ ← check_session env; from_store r) (fun a l => l = [] /\ r = Ok a).
Proof. chained. Qed.
Lemma logs_authenticate b prefix header q : logs (authenticate json_string renv b prefix header q) (fun out l =>
  exists s, l = [released_to b s] /\ inserted_key s prefix header q out).
Proof.
  unfold authenticate.
  eapply logs_bind; [apply logs_or_invalidate, logs_check|]. intros [] l ->.
  eapply logs_bind; [apply logs_await|]. intros [] l ->.
  eapply logs_bind; [apply logs_ask|]. intros r l [-> _].
  eapply logs_bind; [apply logs_or_invalidate, logs_checked|].
  intros s l [-> _]. eapply logs_bind; [by apply logs_put|]. intros [] l ->.
  apply logs_or_invalidate. eapply logs_bind; [apply logs_lift|]. intros k l [-> Hk].
  eapply logs_weaken; [apply logs_lift|]. intros out l [-> Hi]. exists s. split; [done|]. by exists k.
Qed.
#[local] Hint Resolve logs_revalidate_held logs_reserve_remote logs_authenticate : logs.

(** Whom a resolved name may be dialled at. *)
Definition resolved_at (t : Target) (found : list SocketAddr) : Call :=
  Resolved (trim_brackets (target_host t)) (target_port t) found.
Lemma logs_resolve_endpoint p t : logs (resolve_endpoint renv p t) (fun e l =>
  exists found, l = [resolved_at t found] /\ admit_addresses p t found = Ok e).
Proof. unfold resolve_endpoint. chain. subst. cbn. eauto. Qed.
Lemma logs_say d v x : logs (say renv d v x) (fun _ l => l = []).
Proof. unfold say. chained. Qed.
Lemma logs_end_both d : logs (end_both renv d) (fun _ l => l = []).
Proof. unfold end_both. chained. Qed.
#[local] Hint Resolve logs_resolve_endpoint logs_say logs_end_both : logs.
Lemma logs_observe d v r x : logs (observe_body renv d v r x) (fun _ l => l = []).
Proof.
  unfold observe_body. generalize (fresh r), (mkPlaceholders [] false), (body_chunks x). clear r x. intros r p cs.
  revert r p. induction cs as [|[c fin] cs IH]; intros r p; cbn [observe_chunks]; [by chained|].
  destruct (feed r c fin) as [r1 s1]. eapply logs_bind; [apply logs_lift|]. intros safe l [-> _].
  destruct (feed_placeholders p safe fin) as [p1 s2].
  eapply logs_bind; [apply logs_lift|]. intros safe2 l [-> _].
  eapply logs_bind; [apply logs_say|]. intros [] l ->. apply IH.
Qed.
Lemma granted_item_Ok id item : granted_item cfg opts id = Ok item ->
  find_first (fun i => bool_decide (item_id i = id)) (items (catalog cfg)) = Some item /\ item_allowed opts item = true.
Proof.
  unfold granted_item. destruct (find_first _ _) as [i|]; cbn; [|done]. destruct (item_allowed opts i) eqn:E; [|done].
  by intros [= ->].
Qed.
#[local] Hint Resolve logs_observe : logs.

(** ** A control message *)

(** What a control message was decided on. *)
Record Notice := mkNotice {
  n_item_id : string; n_header : string; n_prefix : string; n_route : Route; n_item : Item; n_found : list SocketAddr;
  n_endpoint : Endpoint; n_snapshot : Snapshot; n_request : HttpRequest; n_redactor : Redactor; n_authority : Authority }.

(** The evidence of the outgoing request, of the insertion and of the decision. *)
Definition upstream_start (method target : string) (out : HttpRequest) : Call :=
  Evidence [emission Outbound Upstream (RequestStart method target (observed_headers (http_headers out)))].
Definition both (x : Data) : Call := Evidence [emission Outbound Agent x; emission Outbound Upstream x].
Definition agent_start (method target : string) (hs : list (string * string)) : Call :=
  Evidence [emission Outbound Agent (RequestStart method target (safe_headers hs))].

Definition control_calls (t : Target) (k : Kind) (req : ExecuteRequest) (b : RBinding) (n : Notice) : list Call :=
  [both FlowOpen; agent_start (control_method k) (target_as_str t) (headers req);
   held_by b; resolved_at t (n_found n); released_to b (n_snapshot n);
   upstream_start (control_method k) (target_as_str t) (n_request n);
   both (AuthTransition (n_item_id n) true); held_by b; both (PolicyDecision Allow None); Committed (n_authority n)].

(** The host, the session, the profile and the item admit the message without approval, and
    it is what was prepared with the context's credential added. *)
Record noticed (p : ResourceProfile) (t : Target) (k : Kind) (prepared : McpContext.Outgoing) (req : ExecuteRequest)
    (n : Notice) : Prop := {
  nt_session : profile_id p ∈ o_resources opts;
  nt_auth : exists tools, auth p = McpAuth (n_item_id n) (n_header n) (n_prefix n) tools;
  nt_route : authorize p (control_method k) t (len (McpContext.out_body prepared)) = Ok (n_route n);
  nt_headers : authorize_headers (n_route n) (headers req) = Ok tt;
  nt_item : find_first (fun i => bool_decide (item_id i = n_item_id n)) (items (catalog cfg)) = Some (n_item n);
  nt_allowed : item_allowed opts (n_item n) = true;
  nt_unasked : approval_needed cfg opts (n_route n) (n_item n) = false;
  nt_address : admit_addresses p t (n_found n) = Ok (n_endpoint n);
  nt_request : exists q, remote_request (control_method k) t prepared = Ok q
               /\ inserted_key (n_snapshot n) (n_prefix n) (n_header n) q (n_request n, n_redactor n);
  nt_authority : Session_check (n_authority n) = Ok tt }.

Lemma logs_admit_control p t k prepared req id : logs (admit_control renv cfg opts p t k prepared req id) (fun x l =>
  l = [agent_start (control_method k) (target_as_str t) (headers req)]
  /\ profile_id p ∈ o_resources opts /\ authorize p (control_method k) t (len (McpContext.out_body prepared)) = Ok x.1
  /\ authorize_headers x.1 (headers req) = Ok tt /\ granted_item cfg opts id = Ok x.2).
Proof.
  unfold admit_control. chain. subst. cbn [fst snd app].
  match goal with Hn : negb (bool_decide _) = false |- _ => apply negb_false_iff, bool_decide_eq_true_1 in Hn end.
  repeat match goal with u : unit |- _ => destruct u end. by split_and!.
Qed.
Lemma logs_commit_control t k b id out : logs (commit_control renv t k b id out) (fun _ l => exists a,
  l = [upstream_start (control_method k) (target_as_str t) out; both (AuthTransition id true); held_by b;
       both (PolicyDecision Allow None); Committed a] /\ Session_check a = Ok tt).
Proof. unfold commit_control. chain. subst. eexists. split; [|done]. reflexivity. Qed.
#[local] Hint Resolve logs_admit_control logs_commit_control : logs.
Lemma logs_prepare_control p t k prepared b id header prefix :
  logs (prepare_control json_string renv p t k prepared b id header prefix) (fun x l => exists found s red a q,
    l = [held_by b; resolved_at t found; released_to b s; upstream_start (control_method k) (target_as_str t) x.2;
         both (AuthTransition id true); held_by b; both (PolicyDecision Allow None); Committed a]
    /\ admit_addresses p t found = Ok x.1 /\ remote_request (control_method k) t prepared = Ok q
    /\ inserted_key s prefix header q (x.2, red) /\ Session_check a = Ok tt).
Proof. unfold prepare_control. chain. subst. cbn [fst snd app]. do 5 eexists. by split_and!. Qed.
Lemma logs_read_empty fs : logs (read_empty renv fs) (fun _ l => l = []).
Proof.
  induction fs as [|f fs IH]; cbn [read_empty]; (eapply logs_bind; [apply logs_await|]; intros [] l ->).
  - chained.
  - destruct (bool_decide _); [apply IH|apply logs_reject].
Qed.
#[local] Hint Resolve logs_prepare_control logs_read_empty : logs.
(** The evidence of an answer, from the upstream and to the agent. *)
Definition upstream_answer (x : HttpResponse) : Call :=
  Evidence [emission Inbound Upstream (ResponseStart (http_status x) (observed_headers (response_headers x)))].
Definition agent_answer (x : HttpResponse) : Call := Evidence [emission Inbound Agent (ResponseStart (http_status x) [])].
Lemma logs_receive_control k b response : logs (receive_control renv k b response) (fun o l =>
  acknowledged k response = Ok o /\ l = [upstream_answer response; held_by b; agent_answer response]).
Proof. unfold receive_control. chain. by subst. Qed.
Lemma logs_open_flow : logs (open_flow renv) (fun _ l => l = [both FlowOpen]).
Proof. unfold open_flow. chained. Qed.
End Logged.
