(* ===== verification/RemoteOutcome.v ===== *)
(** * What a remote request and its control messages guarantee, and what they leave behind

    A ping reply, a cancellation notice and the end of a remote session are each decided
    anew, leave at most once, and are reported as what became of them. A message to a
    remote server is handed off once in a known order, the requests made on its behalf
    are each decided anew, its outcome is honest, and a local closure precedes every
    attempt to end a remote session. *)
From S2P Require Import Prelude Protocol Ids Json Tools Address Observe Catalog Profile Secrets Redaction Injection Cookies.
From S2P Require Import Flow Operation Guard Lifecycle Endpoint Config Dispatch McpWire RemoteVault Remote RemoteFacts.
From S2P Require Import RemoteLive.
From S2P Require McpMessage McpHeaders McpContext.

Section Control.
Context `{Base64} `{Http} `{Urls} `{HttpMessage} `{JsonText} `{McpMessage.Rmcp}
  (json_string : list byte -> option (list byte)) (compiled : string -> option McpMessage.McpProfile).
Context {F : Type} `{ObserverLaws F}.
Context (renv : RemEnv F) (cfg : Configuration) (opts : SessionOptions).
Abbreviation P := (Prog F Remote).
Abbreviation logs := (logs (F:=F) (R:=Remote)).
Abbreviation committed := (committed (F:=F) (R:=Remote)).
Abbreviation env := (rem renv).

(** What a program ends with and has logged. *)
Definition ends {A} (m : P A) (Q : Result A -> list Call -> Prop) : Prop :=
  forall w w' r, m w = (w', r) -> exists l, log w' = log w ++ l /\ Q r l.
Lemma ends_bind {A B} (m : P A) (k : A -> P B) p Q : logs m p ->
  (forall e l, no_execution l -> Q (Err e) l) ->
  (forall a l, p a l -> no_execution l -> ends (k a) (fun r l' => Q r (l ++ l'))) -> ends (m ≫= k) Q.
Proof.
  intros Hm He Hk w w' r Hr. unfold mbind, prog_bind in Hr. destruct (m w) as [w1 [a|e]] eqn:E.
  - destruct (Hm _ _ _ E) as (l & L1 & L2 & L3). destruct (Hk a l (L3 a eq_refl) L2 _ _ _ Hr) as (l' & K1 & K2).
    exists (l ++ l'). by rewrite K1, L1, <-app_assoc.
  - injection Hr as <- <-. destruct (Hm _ _ _ E) as (l & L1 & L2 & _). exists l. auto.
Qed.
Lemma ends_logs {A} (m : P A) p Q : logs m p -> (forall r l, no_execution l -> (forall a, r = Ok a -> p a l) -> Q r l) -> ends m Q.
Proof. intros Hm HQ w w' r Hr. destruct (Hm _ _ _ Hr) as (l & ? & ? & ?). exists l. auto. Qed.
Lemma ends_execute {A} e out (k : HttpResponse -> P A) p : (forall x, logs (k x) (p x)) ->
  ends (execute env e out ≫= k) (fun r l => exists rest, l = Executed e out :: rest /\ no_execution rest
    /\ forall a, r = Ok a -> exists m x, on_execute env m out = Ok x /\ p x a rest).
Proof.
  intros Hk w w' r Hr. unfold execute in Hr.
  set (w0 := mkWorld (guard w) (steps w) (log w ++ [Executed e out])).
  assert (Hb : logs ((await env ≫= fun _ => ask (fun n => on_execute env n out) ≫= lift) ≫= k)
                 (fun a l => exists m x, on_execute env m out = Ok x /\ p x a l)).
  { eapply (logs_bind _ _ (fun x l => l = [] /\ exists m, on_execute env m out = Ok x)).
    - chain. subst. split; [done|]. by eexists.
    - intros x l [-> [m Hm]]. eapply logs_weaken; [apply Hk|]. eauto. }
  destruct (Hb w0 w' r) as (l & E & Hn & Hp); [exact Hr|]. exists (Executed e out :: l).
  rewrite E. cbn. rewrite <-app_assoc. eauto 10.
Qed.

(** ** The attempt *)

Lemma acknowledged_outcome k response o : acknowledged k response = Ok o -> o = Confirmed \/ o = NotSupported.
Proof.
  unfold acknowledged. case_bool_decide.
  - unfold McpHeaders.validate_cleanup_ack. destruct (McpHeaders.validate_headers _) as [[]|]; cbn; [|done].
    destruct (negb _); [done|]. case_bool_decide; [intros [= <-]; auto|]. destruct (_ =? 405); [intros [= <-]; auto|done].
  - destruct (McpHeaders.validate_control_ack _ _) as [[]|]; cbn; [|done]. intros [= <-]. auto.
Qed.

(** The upstream's answer to this very request was received and recorded, the lease of the
    context revalidated again, and the answer acknowledges the message so. *)
Definition answered (k : Kind) (b : RBinding) (n : Notice) (rest : list Call) (o : CleanupOutcome) : Prop :=
  exists m response, on_execute env m (n_request n) = Ok response /\ acknowledged k response = Ok o
    /\ rest = [upstream_answer response; held_by b; agent_answer response].

(** Nothing left the broker and the outcome, if any, is [Skipped]; or the message was
    decided in order and left once, and the outcome, if any, is what its answer says. *)
Definition attempted (p : ResourceProfile) (t : Target) (k : Kind) (prepared : McpContext.Outgoing) (b : RBinding)
    (req : ExecuteRequest) (pre : list Call) (l : list Call) (o : option CleanupOutcome) : Prop :=
  (no_execution l /\ forall x, o = Some x -> x = Skipped)
  \/ (exists n rest, l = pre ++ drop 1 (control_calls t k req b n) ++ Executed (n_endpoint n) (n_request n) :: rest
      /\ noticed json_string cfg opts p t k prepared req n /\ no_execution rest
      /\ forall x, o = Some x -> answered k b n rest x).

Lemma ends_attempt p t k prepared b req id header prefix tools : auth p = McpAuth id header prefix tools ->
  ends (control_attempt json_string renv cfg opts p t k prepared b req id header prefix)
    (fun r l => attempted p t k prepared b req [] l (match r with Ok o => Some o | Err _ => None end)).
Proof.
  intros Ha. unfold control_attempt.
  assert (He : forall e l, no_execution l -> attempted p t k prepared b req [] l
                 (match Err e : Result CleanupOutcome with Ok o => Some o | Err _ => None end)) by (left; by split).
  eapply ends_bind; [apply logs_admit_control|exact He|].
  intros [route item] l (-> & A1 & A2 & A3 & A4%granted_item_Ok) Hn. cbn [fst snd] in *.
  destruct (approval_needed cfg opts route item) eqn:Hq.
  - eapply (ends_logs _ (fun o l => o = Skipped)); [chained|].
    intros r l' Hl' Hp. left. split; [by apply Forall_app|]. destruct r; [|done]. intros x [= <-]. by apply Hp.
  - eapply ends_bind; [apply logs_prepare_control|intros e l' Hl'; left; split; [by apply Forall_app|done]|].
    intros [endpoint out] l' (found & s & red & a & q & -> & P1 & P2 & P3 & P4) Hn'. cbn [fst snd] in *.
    intros w w' r Hr.
    destruct (ends_execute endpoint out _ _ (fun x => logs_receive_control renv k b x) _ _ _ Hr) as (lx & El & rest & -> & Hr1 & Hr2).
    exists (Executed endpoint out :: rest). split; [done|]. right.
    exists (mkNotice id header prefix route item found endpoint s out red a), rest.
    split; [reflexivity|]. split; [|split; [done|]].
    + destruct A4. constructor; cbn; eauto.
    + destruct r; [|done]. intros x [= <-]. destruct (Hr2 _ eq_refl) as (m & y & ? & ? & ?). by exists m, y.
Qed.

Lemma committed_logs {A} d (m : P A) p : logs m p -> committed d m.
Proof. intros Hm w w' r _ Hr. destruct (Hm _ _ _ Hr) as (l & ? & ? & _). exists l. auto. Qed.
Lemma committed_control p t k prepared b req id header prefix :
  committed false (control_attempt json_string renv cfg opts p t k prepared b req id header prefix).
Proof.
  unfold control_attempt.
  eapply committed_bind; [apply guided_admit_control|apply logs_admit_control|]. intros [route item].
  destruct (approval_needed _ _ _ _); [eapply (committed_logs _ _ (fun _ _ => True)); by chain|].
  eapply committed_bind; [apply guided_prepare_control|apply logs_prepare_control|]. intros [endpoint out].
  eapply committed_tail; [eapply guided_bind; [apply guided_execute|intros; apply guided_receive_control]|].
  apply hands_off_execute. intros x. eapply logs_weaken; [apply logs_receive_control|done].
Qed.

(** ** Its settlement *)

(** The child's outcome, its log and its guard tell the same story. *)
Definition told (p : ResourceProfile) (t : Target) (k : Kind) (prepared : McpContext.Outgoing) (b : RBinding)
    (req : ExecuteRequest) (pre : list Call) (r : Result (option CleanupOutcome)) (l : list Call) : Prop :=
  attempted p t k prepared b req pre l None
  /\ (forall x, r = Ok (Some x) -> x = Skipped -> no_execution l)
  /\ (forall x, r = Ok (Some x) -> x = Confirmed \/ x = NotSupported -> attempted p t k prepared b req pre l (Some x))
  /\ (forall e, k = KDelete -> r = Err e -> no_execution l).

Lemma attempted_None p t k prepared b req pre l o :
  attempted p t k prepared b req pre l o -> attempted p t k prepared b req pre l None.
Proof. intros [[? _]|(n & rest & ? & ? & ? & _)]; [by left|]. right. exists n, rest. by split_and!. Qed.
Lemma attempted_told p t k prepared b req pre l x :
  attempted p t k prepared b req pre l (Some x) -> told p t k prepared b req pre (Ok (Some x)) l.
Proof.
  intros Ha. split; [by eapply attempted_None|]. split; [|split; [by intros y [= <-]|done]]. intros y [= <-] ->.
  destruct Ha as [[Hn _]|(n & rest & _ & _ & _ & Hx)]; [done|]. destruct (Hx _ eq_refl) as (m & response & _ & Ho & _).
  by apply acknowledged_outcome in Ho as [?|?].
Qed.

Lemma settle_told p t k prepared b req m (w w' : World F Remote) r :
  ends m (fun r l => attempted p t k prepared b req [] l (match r with Ok o => Some o | Err _ => None end)) ->
  committed false m -> dispatched (guard w) = false -> settle_control renv k m w = (w', r) ->
  exists l, log w' = log w ++ l /\ told p t k prepared b req [] r l.
Proof.
  intros Hm Hc Hd Hr. unfold settle_control in Hr. destruct (m w) as [w1 [a|e]] eqn:E.
  - injection Hr as <- <-. destruct (Hm _ _ _ E) as (l & L1 & L2). exists l. split; [done|]. by apply attempted_told.
  - destruct (Hm _ _ _ E) as (l & L1 & L2). destruct (Hc _ _ _ Hd E) as (l' & L1' & L3).
    assert (l' = l) as -> by (rewrite L1 in L1'; by apply app_inv_head in L1').
    destruct (on_dropped _ _); [injection Hr as <- <-; exists l; split; [done|]; by split_and!|].
    cbv zeta in Hr. cbn [run_guard fst log guard steps] in Hr.
    assert (Hl : log (if dispatched (guard w1) then (invalidate_held renv w1).1 else w1) = log w ++ l).
    { pose proof (invalidate_log renv w1). destruct (dispatched (guard w1)); congruence. }
    destruct (bool_decide_reflect (k = KDelete)); injection Hr as <- <-; exists l; (split; [done|]); split; try done.
    split; [|split; [|done]]; intros x [= <-].
    + destruct (dispatched (guard w1)); [done|]. intros _. by destruct L3.
    + destruct (dispatched (guard w1)); by intros [?|?].
Qed.

Lemma attempted_cons p t k prepared b req l o :
  attempted p t k prepared b req [] l o -> attempted p t k prepared b req [both FlowOpen] (both FlowOpen :: l) o.
Proof.
  intros [[Hn Hx]|(n & rest & -> & ? & ? & ?)]; [left; by split; [apply Forall_cons_2|]|]. right. exists n, rest. by split_and!.
Qed.
Lemma told_cons p t k prepared b req r l :
  told p t k prepared b req [] r l -> told p t k prepared b req [both FlowOpen] r (both FlowOpen :: l).
Proof.
  intros (Ha & Hs & Hc & Hd). split; [by apply attempted_cons|]. split; [|split].
  - intros x Hx ->. apply Forall_cons_2; [done|]. by eapply Hs.
  - intros x Hx Ho. apply attempted_cons. auto.
  - intros e Hk Hx. apply Forall_cons_2; [done|]. by eapply Hd.
Qed.

Lemma child_told p t k prepared b req (w w' : World F Remote) r :
  dispatched (guard w) = false ->
  child_program json_string renv cfg opts p t k prepared b req w = (w', r) ->
  exists l, log w' = log w ++ l /\ told p t k prepared b req [both FlowOpen] r l.
Proof.
  intros Hd Hr. unfold child_program, mbind, prog_bind in Hr. destruct (open_flow renv w) as [w1 [[]|e]] eqn:E.
  - destruct (logs_open_flow renv _ _ _ E) as (l1 & L1 & _ & L3). specialize (L3 _ eq_refl). subst l1.
    destruct (guided_open_flow renv _ _ _ _ Hd E) as (_ & _ & _ & Hd1).
    destruct (auth p) eqn:Ha; try (injection Hr as <- <-; eexists; split; [exact L1|]; apply told_cons;
      split; [left; by split; [apply Forall_nil_2|]|by split_and!; [..|intros; apply Forall_nil_2]]).
    edestruct settle_told as (l & El & Hl); [by eapply ends_attempt|by apply committed_control|by apply Hd1|exact Hr|].
    exists (both FlowOpen :: l). rewrite El, L1, <-app_assoc. split; [done|]. by apply told_cons.
  - injection Hr as <- <-. destruct (logs_open_flow renv _ _ _ E) as (l1 & L1 & L2 & _). exists l1. split; [done|].
    split; [by left|by split_and!].
Qed.

(** The log of a control message that left, or that did not. *)
Definition controlled (p : ResourceProfile) (t : Target) (k : Kind) (prepared : McpContext.Outgoing) (b : RBinding)
    (req : ExecuteRequest) (l : list Call) : Prop :=
  no_execution l \/ exists n rest,
    l = control_calls t k req b n ++ Executed (n_endpoint n) (n_request n) :: rest
    /\ noticed json_string cfg opts p t k prepared req n /\ no_execution rest.
Lemma told_controlled p t k prepared b req r l : told p t k prepared b req [both FlowOpen] r l -> controlled p t k prepared b req l.
Proof.
  intros ([[Hn _]|(n & rest & -> & Hn & Hx & _)] & _); [by left|right]. exists n, rest. by split_and!.
Qed.

(** What an outcome says of the log: nothing left; or the message left once, and this is
    what the upstream's answer to it says. *)
Definition concluded (p : ResourceProfile) (t : Target) (k : Kind) (prepared : McpContext.Outgoing) (b : RBinding)
    (req : ExecuteRequest) (l : list Call) (o : CleanupOutcome) : Prop :=
  match o with
  | Skipped => no_execution l
  | CleanupUnknown => True
  | Confirmed | NotSupported => exists n rest,
      l = control_calls t k req b n ++ Executed (n_endpoint n) (n_request n) :: rest
      /\ noticed json_string cfg opts p t k prepared req n /\ answered k b n rest o
  end.
Lemma told_concluded p t k prepared b req l x :
  told p t k prepared b req [both FlowOpen] (Ok (Some x)) l -> concluded p t k prepared b req l x.
Proof.
  intros (_ & Hs & Hc & _). assert (forall y, y <> Skipped -> attempted p t k prepared b req [both FlowOpen] l (Some y) ->
    exists n rest, l = control_calls t k req b n ++ Executed (n_endpoint n) (n_request n) :: rest
      /\ noticed json_string cfg opts p t k prepared req n /\ answered k b n rest y) as Hleft.
  { intros y Hy [[_ Hn]|(n & rest & -> & Hn & _ & Hx)]; [by destruct Hy; apply Hn|]. exists n, rest. by split_and!; [| |apply Hx]. }
  destruct x; cbn; [| |by apply (Hs Skipped)|done].
  all: apply Hleft; [done|]; apply Hc; auto.
Qed.

(** C16: a control message (the reply to a server's ping, the notice of a cancellation, the
    end of a remote session) leaves the broker only after the session, the profile, a route
    of its own method, its headers and the item admit it, and only where no approval is
    asked of anyone; by then, in this order: its flow is open, it is recorded, the lease of
    its context revalidated, its name resolved to allowed addresses, the secret of that
    context released and inserted into the message that was prepared, the insertion
    recorded, the lease revalidated again, the Allow decision recorded and its own dispatch
    committed under a live session. It leaves once. Its outcome never says more than was seen:
    [Skipped] only if nothing left; an acknowledgment only if it left, and it is what the
    answer that the upstream gave to this request says, which was recorded before it was
    acknowledged, and the lease revalidated after it. *)
Theorem control_authorized p t k prepared b req (w w' : World F Remote) r :
  dispatched (guard w) = false ->
  child_program json_string renv cfg opts p t k prepared b req w = (w', r) ->
  exists l, log w' = log w ++ l
    /\ controlled p t k prepared b req l
    /\ forall x, r = Ok (Some x) -> concluded p t k prepared b req l x.
Proof.
  intros Hd Hr. destruct (child_told _ _ _ _ _ _ _ _ _ Hd Hr) as (l & El & Ht). exists l. split; [done|].
  split; [by eapply told_controlled|]. intros x ->. by apply told_concluded.
Qed.
End Control.

(** ** What a remote request guarantees *)

(** ** The calls of an exchange *)

Section Logged.
Context `{Base64} `{Http} `{Urls} `{HttpMessage} `{JsonText} `{McpMessage.Rmcp}
  (json_string : list byte -> option (list byte)).
Context {F : Type} `{Observer F}.
Context (renv : RemEnv F) (cfg : Configuration) (opts : SessionOptions).
Abbreviation P := (Prog F Remote).
Abbreviation G := (Guard F Remote).
Abbreviation logs := (logs (F:=F) (R:=Remote)).
Abbreviation env := (rem renv).

(** The requests made on behalf of this one are the only thing a step logs. *)
Definition only_children (l : list Call) : Prop := Forall (fun c => exists l', c = Controlled l') l.

Lemma logs_caught_child req : logs (caught (open_child renv req)) (fun _ l => l = []).
Proof.
  eapply logs_weaken; [apply (logs_still _ (fun _ => True)); [|done]|by intros a l [-> _]].
  intros w. unfold caught, open_child, check_session, mbind, prog_bind, pass, get_guard, ask, lift. cbn.
  by destruct (Session_check _) as [[]|].
Qed.
Lemma logs_run_child i k req f m : logs (run_child i k req f m) (fun _ l => exists l', l = [Controlled l']).
Proof.
  intros w w' r Hr. unfold run_child in Hr. destruct (remote (guard w)) as [x|].
  - destruct (m _) as [c res]. injection Hr as <- <-. exists [Controlled (log c)]. split; [done|].
    split; [by apply Forall_singleton|eauto].
  - injection Hr as <- <-. exists []. rewrite app_nil_r. split; [done|]. by split; [apply Forall_nil_2|].
Qed.
#[local] Hint Resolve logs_caught_child logs_run_child logs_on_vault logs_on_held logs_on_exchange logs_set_exchange
  logs_check_exchange logs_check_held logs_invalidate : logs.
Lemma logs_control p t i k prepared :
  logs (dispatch_remote_control json_string renv cfg opts p t i k prepared) (fun _ l => only_children l).
Proof.
  unfold dispatch_remote_control. chain; subst; cbn [app]; try by apply Forall_nil_2.
  apply Forall_singleton. eauto.
Qed.
#[local] Hint Resolve logs_control : logs.
Lemma logs_ping p t prepared : logs (reply_remote_ping json_string renv cfg opts p t prepared) (fun _ l => only_children l).
Proof. unfold reply_remote_ping. chain; subst; rewrite ?app_nil_r; done. Qed.
Lemma logs_pings p t d pings : logs (reply_pings json_string renv cfg opts p t d pings) (fun _ _ => True).
Proof.
  induction pings as [|ping pings IH]; cbn [reply_pings]; [by chain|].
  eapply logs_bind; [apply logs_on_exchange|]. intros out l _. eapply logs_bind; [apply logs_ping|]. intros [] l' _.
  eapply logs_weaken; [apply IH|done].
Qed.
#[local] Hint Resolve logs_ping logs_pings : logs.
Lemma logs_push p t d cs : logs (push_chunks json_string renv cfg opts p t d cs) (fun _ _ => True).
Proof.
  revert d. induction cs as [|c cs IH]; intros d; cbn [push_chunks]; [by chain|].
  eapply logs_bind; [apply logs_on_exchange|]. intros [d' pings] l _. eapply logs_bind; [apply logs_pings|]. intros [] l' _.
  eapply logs_weaken; [apply IH|done].
Qed.
#[local] Hint Resolve logs_push : logs.
Lemma logs_frames p t d fs : logs (read_frames json_string renv cfg opts p t d fs) (fun _ _ => True).
Proof.
  revert d. induction fs as [|c fs IH]; intros d; cbn [read_frames]; (eapply logs_bind; [apply logs_await|]; intros [] l _).
  - by chain.
  - eapply logs_bind; [apply logs_check_held|]. intros [] l' _. eapply logs_bind; [apply logs_push|]. intros d' l'' _.
    eapply logs_weaken; [apply IH|done].
Qed.
#[local] Hint Resolve logs_frames logs_revalidate_held logs_observe : logs.
Lemma logs_receive_remote p t b r response : logs (receive_remote json_string renv cfg opts p t b r response) (fun _ _ => True).
Proof. unfold receive_remote, finish_remote. by chain. Qed.

(** ** The exchange *)

(** What a message was decided on. *)
Record Errand := mkErrand {
  er_profile : ResourceProfile; er_target : Target; er_body : list byte; er_route : Route; er_item : Item;
  er_message : McpMessage.Request; er_id : string; er_header : string; er_prefix : string;
  er_reference : string; er_metadata : ItemMetadata; er_vault : RVault; er_index : nat; er_exchange : McpContext.Exchange;
  er_context : RBinding; er_found : list SocketAddr;
  er_endpoint : Endpoint; er_prepared : McpContext.Outgoing; er_snapshot : Snapshot; er_request : HttpRequest;
  er_redactor : Redactor; er_authority : Authority }.

Definition commit_calls (p : ResourceProfile) (t : Target) (b : RBinding) (id : string) (out : HttpRequest) (a : Authority) : list Call :=
  [upstream_start "POST" (profile_origin p ++ path t) out; both (AuthTransition id true); held_by b;
   both (PolicyDecision Allow None); Committed a].
Lemma logs_commit_remote p t body b id r out : logs (commit_remote renv p t body b id r out) (fun _ l => exists a,
  l = commit_calls p t b id out a /\ Session_check a = Ok tt).
Proof.
  pose proof (logs_end_both renv). unfold commit_remote. chain. subst. eexists. split; [|done]. reflexivity.
Qed.
#[local] Hint Resolve logs_commit_remote logs_reserve_remote logs_resolve_endpoint logs_authenticate : logs.

Lemma logs_outgoing : logs (outgoing_message renv) (fun _ l => l = []).
Proof. eapply logs_weaken; [apply logs_on_exchange|]. by intros o l [-> _]. Qed.
#[local] Hint Resolve logs_outgoing : logs.

Definition approve_calls (r : Route) (item : Item) (id : string) (l : Lease) : list Call :=
  if approval_needed cfg opts r item then approval_calls id l else [].
Lemma logs_approve_remote r item id l :
  logs (if approval_needed cfg opts r item then approve_operation env cfg id l else mret tt)
    (fun _ l' => l' = approve_calls r item id l).
Proof. unfold approve_calls. destruct (approval_needed cfg opts r item); chained. Qed.
#[local] Hint Resolve logs_approve_remote : logs.

Lemma logs_prepare_exchange p t body r item m b id header prefix :
  logs (prepare_exchange json_string renv cfg opts p t body r item m b id header prefix) (fun _ _ => True).
Proof. unfold prepare_exchange. eapply logs_bind; [apply logs_approve_remote|]. intros [] l ->. by chain. Qed.

Lemma logs_describe p item : logs (describe_item renv cfg p item) (fun x l =>
  l = [Described (store (credential item)) x.1 x.2] /\ store (credential item) ∈ stores cfg
  /\ ItemRef_new (key (credential item)) = Ok x.1).
Proof.
  unfold describe_item. chain; subst; cbn [fst snd app];
    match goal with Hn : negb (bool_decide _) = false |- _ => apply negb_false_iff, bool_decide_eq_true_1 in Hn end; done.
Qed.

Context (compiled : string -> option McpMessage.McpProfile).

Lemma logs_begin p message m reference st permit random :
  logs (_ ← pass env; run_guard (begin_remote compiled p message m reference st permit random)) (fun _ l => l = []).
Proof.
  eapply logs_bind; [apply logs_pass|]. intros [] l [-> _].
  eapply logs_weaken; [apply logs_run|]. by intros b l [-> _].
Qed.

(** ** The exchange a guard owns *)

(** The rest of the program acts on the vault through its sections and leaves what a guard
    holds alone. *)
Definition acts_beside : Prop := forall n r, exists ms, beside env n r = mkRemote (vault_run (r_vault r) ms) (r_hold r).
Hypothesis beside_acts : acts_beside.

(** A guard later in the life of its request: the session's vault is later in its life, and
    the exchange it owns is the same. *)
Definition same_hold (h h' : option Hold) : Prop :=
  match h, h' with
  | Some (Owns i x), Some (Owns j y) => j = i /\ rx_exchange y = rx_exchange x
  | _, _ => h' = h
  end.
Definition ripens (r r' : Remote) : Prop :=
  same_hold (r_hold r) (r_hold r') /\ exists ms, r_vault r' = vault_run (r_vault r) ms.
Definition goes_on : relation G := fun g g' =>
  op_request (guard_op g') = op_request (guard_op g) /\ ages (authority (shared g)) (authority (shared g'))
  /\ option_Forall2 ripens (remote g) (remote g').
#[local] Instance ripens_preorder : PreOrder ripens.
Proof.
  split.
  - intros r. split; [by destruct (r_hold r) as [[]|]|by exists []].
  - intros x y z [H1' [m1 E1]] [H2' [m2 E2]]. split; [|exists (m1 ++ m2); by rewrite vault_run_app, <-E1].
    unfold same_hold in *. destruct (r_hold x) as [[]|], (r_hold y) as [[]|], (r_hold z) as [[]|]; naive_solver congruence.
Qed.
#[local] Instance goes_on_preorder : PreOrder goes_on.
Proof.
  split; [intros g; split; [done|]; split; [done|]; destruct (remote g); by constructor|].
  intros x y z (O1 & A1 & R1) (O2 & A2 & R2). split; [congruence|]. split; [by etransitivity|].
  destruct R1 as [r1 r2 T1|]; inversion R2 as [? r3 T2|]; subst; constructor. by etransitivity.
Qed.
#[local] Instance goes_on_steady : Steady goes_on.
Proof.
  split; [exact _|]. intros g g' _ Hr _ Ha Ho. split; [done|]. rewrite Ha, Hr. split; [done|].
  destruct (remote g); by constructor.
Qed.
#[local] Instance goes_on_calm : Calm env goes_on.
Proof.
  split; [exact _|]. intros w. destruct (others_keep (between env (steps w)) (shared (guard w))) as (A & O & _).
  split; [exact O|]. split; [exact A|]. cbn. destruct (remote (guard w)) as [r|]; constructor.
  destruct (beside_acts (steps w) r) as [ms ->]. split; [cbn; by destruct (r_hold r) as [[]|]|by exists ms].
Qed.

(** A section of code on the vault is one of its moves. *)
Lemma within_run_remote {A} (f : G -> Remote -> Remote * Result A) :
  (forall g r r' a, f g r = (r', Ok a) -> ripens r r') -> within goes_on (run_remote f).
Proof.
  intros Hf. apply within_run. intros g a. destruct (remote g) as [r|] eqn:Er; [|done].
  destruct (f g r) as [r' x] eqn:E. cbn. intros ->. split; [done|]. split; [done|]. cbn. rewrite Er. constructor. by eapply Hf.
Qed.
Lemma same_hold_refl h : same_hold h h.
Proof. by destruct h as [[]|]. Qed.
Lemma within_on_held {A} (f : Z -> RBinding -> RBinding * Result A) :
  (forall now i v, exists m, (at_binding (f now) i v).1 = vault_move v m) -> within goes_on (on_held renv f).
Proof.
  intros Hf. unfold on_held. eapply within_bind; [exact _|apply within_pass; exact _|]. intros _.
  apply within_run_remote. intros g r r' a. destruct (held r) as [i|]; [|done].
  destruct (Hf (guard_now g) i (r_vault r)) as [m Hm]. destruct (at_binding _ i _) as [v x]. cbn in Hm.
  intros [= <- _]. split; [apply same_hold_refl|]. by exists [m].
Qed.
Lemma within_held_deadline : within goes_on (on_held renv rb_deadline).
Proof. apply within_on_held. intros now i v. by exists (VDeadline i now). Qed.
Lemma within_held_check : within goes_on (on_held renv rb_check).
Proof. apply within_on_held. intros now i v. by exists (VCheck i now). Qed.
Lemma within_or_invalidate {A} (m : P A) : within goes_on m -> within goes_on (or_invalidate renv m).
Proof.
  intros Hm w w' a Hr. unfold or_invalidate in Hr. destruct (m w) as [w1 [x|e]] eqn:E; [|done]. injection Hr as <- <-.
  by eapply Hm.
Qed.
Lemma with_exchange_ripens {A} (f : RBinding -> RExchange -> RBinding * RExchange * Result A) e r r' a :
  (forall b x b' x' y i, binding_at (r_vault r) i = Some b -> f b x = (b', x', y) -> rx_exchange x' = rx_exchange x
     /\ exists ms, alter_binding (fun _ => b') i (r_vault r) = vault_run (r_vault r) ms) ->
  with_exchange f (Err e) r = (r', Ok a) -> ripens r r'.
Proof.
  intros Hf. unfold with_exchange. destruct (r_hold r) as [[i x|]|] eqn:Eh; try done.
  destruct (binding_at (r_vault r) i) as [b|] eqn:Eb; [|done]. destruct (f b x) as [[b' x'] y] eqn:Ef.
  destruct (Hf _ _ _ _ _ _ Eb Ef) as [Hx [ms Hms]]. intros [= <- _]. split; [rewrite Eh; by split|by exists ms].
Qed.
Lemma alter_same i v b : binding_at v i = Some b -> alter_binding (fun _ => b) i v = v.
Proof.
  intros [n Hb]%binding_name. unfold alter_binding. apply list_eq. intros j. destruct (decide (i = j)) as [->|].
  - by rewrite list_lookup_alter_eq, Hb.
  - by rewrite list_lookup_alter_ne.
Qed.
Lemma within_check_exchange : within goes_on (check_exchange renv).
Proof.
  unfold check_exchange. eapply within_bind; [exact _|apply within_pass; exact _|]. intros _.
  apply within_run_remote. intros g r r' a. apply with_exchange_ripens. intros b x b' x' y i Hb.
  destruct (exchange_check x (guard_now g) b) as [b1 z] eqn:E. intros [= <- <- <-]. split; [done|].
  exists [VExchange i x (guard_now g)]. cbn. unfold at_binding. by rewrite Hb, E.
Qed.
Lemma within_set_exchange f : (forall x, rx_exchange (f x) = rx_exchange x) -> within goes_on (set_exchange f).
Proof.
  intros Hf. apply within_run_remote. intros g r r' a. apply with_exchange_ripens. intros b x b' x' y i Hb [= <- <- <-].
  split; [done|]. exists []. by apply alter_same.
Qed.
Lemma within_reserve n : within goes_on (reserve_remote renv n).
Proof. unfold reserve_remote. inward. Qed.
#[local] Hint Resolve within_held_deadline within_held_check within_check_exchange within_reserve : within.
#[local] Hint Extern 1 (within _ (set_exchange _)) => (apply within_set_exchange; done) : within.
Lemma within_revalidate_held b : within goes_on (revalidate_held renv rb_check b).
Proof.
  unfold revalidate_held. eapply within_bind; [exact _|apply within_held_check|]. intros []. inward.
  apply within_or_invalidate. inward.
Qed.
Lemma within_resolve_endpoint p t : within goes_on (resolve_endpoint renv p t).
Proof. unfold resolve_endpoint. inward. Qed.
#[local] Hint Resolve within_revalidate_held within_resolve_endpoint : within.
Lemma within_describe p item : within goes_on (describe_item renv cfg p item).
Proof.
  unfold describe_item. destruct (negb _); [inward|]. eapply within_bind; [exact _|inward|]. intros reference.
  eapply within_bind; [exact _|inward|]. intros []. eapply within_bind; [exact _|inward|]. intros [m|e]; [inward|].
  intros w w' a Hr. unfold mbind, prog_bind in Hr. by destruct (on_vault _ _ w) as [w1 [[]|]].
Qed.
#[local] Hint Resolve within_describe : within.

(** ** What a message was decided on *)

(** The exchange began in the session's vault, under the session's authority and for the
    operation of the guard [g], in a context of the operation's resource. *)
Definition begins_in (g : G) (p : ResourceProfile) (message : McpMessage.Request) (m : ItemMetadata) (reference st : string)
    (v : RVault) (i : nat) (x : McpContext.Exchange) (b : RBinding) : Prop :=
  exists r ms a o permit random, remote g = Some r /\ ages (authority (shared g)) a
    /\ op_request o = op_request (guard_op g)
    /\ prepare_remote (vault_run (r_vault r) ms) a o message m reference st (compiled (profile_id p)) permit random = (v, Ok (i, x))
    /\ v !! i = Some (resource (op_request (guard_op g)), b).
Lemma begins_context g p message m reference st v i x b : begins_in g p message m reference st v i x b ->
  rb_lease b = lease m /\ rb_cancelled b = false /\ rb_closing b = false /\ McpContext.ex_request x = message.
Proof.
  intros (r & ms & a & o & permit & random & _ & _ & Ho & Hp & Hb). pose proof (prepare_request _ _ _ _ _ _ _ _ _ _ _ _ _ Hp) as Hm.
  apply prepare_spec in Hp as [_ Hp]. destruct (Hp _ _ eq_refl) as (_ & _ & _ & b' & Hb' & Hl & Hc & Hcl & _).
  rewrite Ho, Hb in Hb'. injection Hb' as <-. done.
Qed.
Definition begun (g : G) (e : Errand) : Prop :=
  begins_in g (er_profile e) (er_message e) (er_metadata e) (er_reference e) (store (credential (er_item e)))
    (er_vault e) (er_index e) (er_exchange e) (er_context e).

(** The guard owns this exchange in its context's vault, or one later in its life. *)
Definition Owning (v : RVault) (i : nat) (x : McpContext.Exchange) (g : G) : Prop :=
  exists r y, remote g = Some r /\ (exists ms, r_vault r = vault_run v ms) /\ r_hold r = Some (Owns i y) /\ rx_exchange y = Some x.
Lemma owning_goes_on v i x g g' : goes_on g g' -> Owning v i x g -> Owning v i x g'.
Proof.
  intros (_ & _ & Hg) (r & y & Hr & [ms Hv] & Hh & Hx). rewrite Hr in Hg. inversion Hg as [? r' [Hs [ms' Hv']] E1 E2|]; subst.
  unfold same_hold in Hs. rewrite Hh in Hs. destruct (r_hold r') as [[j z|]|] eqn:Ez; try done. destruct Hs as [-> Hz].
  exists r', z. split; [done|]. split; [exists (ms ++ ms'); by rewrite vault_run_app, <-Hv|]. split; [done|congruence].
Qed.
Lemma upon_going_on {A} g0 (m : P A) p : logs m p -> within goes_on m ->
  upon (goes_on g0) m (fun a l g => p a l /\ goes_on g0 g).
Proof. intros Hm Hw. eapply upon_within; [done|done|]. intros g g' Hs Hg. by etransitivity. Qed.
Lemma upon_owning {A} v i x (m : P A) p : logs m p -> within goes_on m ->
  upon (Owning v i x) m (fun a l g => p a l /\ Owning v i x g).
Proof. intros Hm Hw. eapply upon_within; [done|done|]. intros g g'. apply owning_goes_on. Qed.

Lemma upon_begin g0 p message m reference st permit random :
  upon (goes_on g0) (_ ← pass env; run_guard (begin_remote compiled p message m reference st permit random)) (fun b l g => l = []
    /\ exists v i x, begins_in g0 p message m reference st v i x b /\ Owning v i x g).
Proof.
  eapply upon_bind; [apply upon_going_on; [apply logs_pass|apply within_pass; exact _]|]. intros [] l. stage.
  intros w w' res (Ho & Ha & Hr) Hrun. exists []. rewrite app_nil_r. unfold run_guard, begin_remote in Hrun.
  destruct (remote (guard w)) as [r|] eqn:Er; [|injection Hrun as <- <-; by split_and!; [|apply Forall_nil_2|]].
  destruct (prepare_remote _ _ _ _ _ _ _ _ _ _) as [v [[i x]|e]] eqn:E.
  2: { destruct (bool_decide _); injection Hrun as <- <-; by split_and!; [|apply Forall_nil_2|]. }
  injection Hrun as <- <-. split; [done|]. split; [apply Forall_nil_2|]. intros b Hb. split; [done|]. exists v, i, x. split.
  - apply ok_or_Ok, binding_name in Hb as [n Hb]. pose proof E as Hp. apply prepare_spec in Hp as [_ Hp].
    destruct (Hp _ _ eq_refl) as (_ & _ & _ & b' & Hb' & _). rewrite Hb' in Hb. injection Hb as <- <-.
    inversion Hr as [r0 ? [_ [ms Hms]] E0|]; subst.
    exists r0, ms, (authority (shared (guard w))), (guard_op (guard w)), permit, random. rewrite <-Hms, <-Ho. by split_and!.
  - eexists _, _. split; [done|]. split; [by exists []|]. by split.
Qed.

(** What the context prepares for the exchange that the guard owns. *)
Definition prepares (v : RVault) (i : nat) (x : McpContext.Exchange) (o : McpContext.Outgoing) : Prop :=
  exists ms b now h c, binding_at (vault_run v ms) i = Some b
    /\ McpContext.outgoing (rb_heap b) (rb_state b) x now = (h, c, Ok o).
Lemma upon_outgoing v i x : upon (Owning v i x) (outgoing_message renv) (fun o l _ => l = [] /\ prepares v i x o /\ True).
Proof.
  unfold outgoing_message, on_exchange. eapply upon_bind; [apply upon_owning; [apply logs_pass|apply within_pass; exact _]|].
  intros [] l. stage. intros w w' res (r & y & Hr & [ms Hv] & Hh & Hx) Hrun. exists []. rewrite app_nil_r.
  unfold run_remote, run_guard in Hrun. rewrite Hr in Hrun. unfold with_exchange in Hrun. rewrite Hh in Hrun.
  destruct (binding_at (r_vault r) i) as [b|] eqn:Eb; [|injection Hrun as <- <-; by split_and!; [|apply Forall_nil_2|]].
  rewrite Hx in Hrun. destruct (McpContext.outgoing _ _ _ _) as [[h c] z] eqn:E. injection Hrun as <- <-.
  split; [done|]. split; [apply Forall_nil_2|]. intros o ->. split; [done|]. split; [|done].
  rewrite Hv in Eb. by exists ms, b, (guard_now (guard w)), h, c.
Qed.

(** The message that leaves: what its context prepared for its exchange, with the
    credential added. *)
Definition carried (e : Errand) : Prop :=
  (exists ms b now h c, binding_at (vault_run (er_vault e) ms) (er_index e) = Some b /\ tends (er_context e) b
     /\ McpContext.outgoing (rb_heap b) (rb_state b) (er_exchange e) now = (h, c, Ok (er_prepared e)))
  /\ McpMessage.encode_request (er_message e) (McpContext.ex_mapped (er_exchange e)) = Ok (McpContext.out_body (er_prepared e))
  /\ exists q, remote_request "POST" (er_target e) (er_prepared e) = Ok q
       /\ inserted_key json_string (er_snapshot e) (er_prefix e) (er_header e) q (er_request e, er_redactor e).
Lemma outgoing_body h c x now h' c' o : McpContext.outgoing h c x now = (h', c', Ok o) ->
  McpMessage.encode_request (McpContext.ex_request x) (McpContext.ex_mapped x) = Ok (McpContext.out_body o).
Proof.
  unfold McpContext.outgoing. destruct (McpContext.check _ _ _ _) as [[h1 c1] [[]|]]; [|done].
  destruct (McpMessage.encode_request _ _) as [body|]; [|done]. by intros [= _ _ <-].
Qed.

Lemma upon_prepare_exchange v i x p t body r item m b id header prefix :
  upon (Owning v i x) (prepare_exchange json_string renv cfg opts p t body r item m b id header prefix) (fun y l _ =>
    exists found s prepared a,
    l = approve_calls r item id (rb_lease b) ++ [held_by b; resolved_at t found; released_to b s]
        ++ commit_calls p t b id y.1.2 a
    /\ admit_addresses p t found = Ok y.1.1 /\ prepares v i x prepared
    /\ (exists q, remote_request "POST" t prepared = Ok q /\ inserted_key json_string s prefix header q (y.1.2, y.2))
    /\ Session_check a = Ok tt /\ True).
Proof.
  unfold prepare_exchange.
  eapply upon_bind; [apply upon_owning; [apply logs_approve_remote|destruct (approval_needed _ _ _ _); inward]|]. intros [] l.
  walk_by ltac:(fun _ => apply upon_owning).
  match goal with Hf : exists found, _ /\ admit_addresses _ _ found = Ok ?e |- _ =>
    destruct Hf as (found & Hl & Hadm); rename e into endpoint end.
  eapply upon_bind; [apply upon_outgoing|]. intros prepared lo. stage.
  eapply upon_weaken; [apply (upon_logs (fun _ => True) _ (fun y l => exists s a,
    l = released_to b s :: commit_calls p t b id y.1.2 a /\ y.1.1 = endpoint
    /\ (exists q, remote_request "POST" t prepared = Ok q /\ inserted_key json_string s prefix header q (y.1.2, y.2))
    /\ Session_check a = Ok tt))|done|].
  - chain. subst. cbn [fst snd]. do 2 eexists. split; [rewrite ?app_nil_r; reflexivity|]. split; [done|]. split; [|done].
    eexists. by split.
  - cbn beta. intros y l' _ (s & a' & -> & -> & Hq & Ha). exists found, s, prepared, a'. subst.
    split; [rewrite ?app_nil_r; cbn [app]; reflexivity|]. by split_and!.
Qed.

(** All the calls of an exchange from its custody to its hand-off, and what they rest on. *)
Definition exchange_calls (e : Errand) : list Call :=
  [Described (store (credential (er_item e))) (er_reference e) (er_metadata e)]
  ++ approve_calls (er_route e) (er_item e) (er_id e) (rb_lease (er_context e))
  ++ [held_by (er_context e); resolved_at (er_target e) (er_found e); released_to (er_context e) (er_snapshot e)]
  ++ commit_calls (er_profile e) (er_target e) (er_context e) (er_id e) (er_request e) (er_authority e).
Record exchanged (g : G) (e : Errand) : Prop := {
  ex_store : store (credential (er_item e)) ∈ stores cfg;
  ex_reference : ItemRef_new (key (credential (er_item e))) = Ok (er_reference e);
  ex_begun : begun g e;
  ex_address : admit_addresses (er_profile e) (er_target e) (er_found e) = Ok (er_endpoint e);
  ex_carried : carried e;
  ex_authority : Session_check (er_authority e) = Ok tt }.

Lemma hands_upon_remote g0 p t body r item message id header prefix :
  hands_upon (goes_on g0) (exchange_remote json_string compiled renv cfg opts p t body r item message id header prefix) (fun l =>
    exists reference m v i x b found endpoint prepared s out red a rest,
      let e := mkErrand p t body r item message id header prefix reference m v i x b found endpoint prepared s out red a in
      l = exchange_calls e ++ Executed endpoint out :: rest /\ exchanged g0 e /\ no_execution rest).
Proof.
  unfold exchange_remote.
  eapply hands_upon_bind; [apply upon_going_on; [apply logs_describe|inward]|]. intros [reference m] l. stage. cbn [fst snd] in *.
  do 2 (eapply hands_upon_bind; [apply upon_going_on; [apply logs_ask|inward]|]; stage).
  eapply hands_upon_bind; [apply upon_begin|]. intros b lb. stage.
  match goal with Hb : begins_in _ _ _ _ _ _ ?v0 ?i0 ?x0 _ |- _ => rename v0 into v, i0 into i, x0 into x, Hb into Hbegin end.
  eapply hands_upon_bind; [apply upon_owning; [apply logs_on_held|inward]|]. stage.
  eapply hands_upon_bind; [apply upon_prepare_exchange|]. intros [[endpoint out] red] lp. cbn [fst snd].
  stage. eapply hands_upon_weaken; [apply (hands_upon_off (fun _ => True)), hands_off_execute; intros; apply logs_receive_remote|done|].
  intros l' (rest & -> & Hn). cbv zeta.
  match goal with Hp : prepares _ _ _ ?o, Hf : admit_addresses _ _ ?fs = _, Hk : exists q, _ /\ inserted_key _ ?s0 _ _ _ _, Hc : Session_check ?a0 = Ok tt |- _ =>
    exists reference, m, v, i, x, b, fs, endpoint, o, s0, out, red, a0, rest end.
  subst. split; [unfold exchange_calls; cbn [er_item er_reference er_metadata er_route er_id er_context er_target
    er_found er_snapshot er_profile er_request er_authority app]; rewrite ?app_nil_r, <-?app_assoc; cbn [app]; by rewrite <-?app_assoc|].
  split; [|done]. constructor; cbn [er_item er_reference er_metadata er_profile er_message er_vault er_index er_exchange er_context
    er_target er_found er_endpoint er_authority]; try done.
  apply begins_context in Hbegin as Hx. destruct Hx as (_ & _ & _ & Hx).
  match goal with Hp : prepares _ _ _ _ |- _ => destruct Hp as (ms & b1 & now & h & c & Hb1 & Hout) end.
  destruct Hbegin as (_ & _ & _ & _ & _ & _ & _ & _ & _ & _ & Hv).
  destruct (run_grown v ms _ _ _ Hv) as (b2 & Hb2 & Ht). rewrite (name_binding _ _ _ _ Hb2) in Hb1. injection Hb1 as <-.
  split; [|split]; cbn [er_vault er_index er_context er_exchange er_prepared er_message er_target er_snapshot er_prefix er_header er_request er_redactor].
  - exists ms, b2, now, h, c. split; [by eapply name_binding|done].
  - apply outgoing_body in Hout. by rewrite Hx in Hout.
  - done.
Qed.
End Logged.



Section Outcome.
Context `{Base64} `{Http} `{Urls} `{HttpMessage} `{JsonText} `{McpMessage.Rmcp}
  (json_string : list byte -> option (list byte)) (compiled : string -> option McpMessage.McpProfile).
Context {F : Type} `{ObserverLaws F}.
Context (renv : RemEnv F) (cfg : Configuration) (opts : SessionOptions).
Abbreviation P := (Prog F Remote).
Abbreviation logs := (logs (F:=F) (R:=Remote)).
Abbreviation committed := (committed (F:=F) (R:=Remote)).
Abbreviation env := (rem renv).

(** ** The requests made on behalf of a program *)

(** Each of them is a control message that did not leave or was decided in order. *)
Definition decided (c : Call) : Prop :=
  match c with
  | Controlled l => exists p t k prepared b req, controlled json_string cfg opts p t k prepared b req l
  | _ => True
  end.
Definition mindful {A} (m : P A) : Prop :=
  forall w w' r, m w = (w', r) -> exists l, log w' = log w ++ l /\ Forall decided l.

Lemma mindful_bind {A B} (m : P A) (k : A -> P B) : mindful m -> (forall a, mindful (k a)) -> mindful (m ≫= k).
Proof.
  intros Hm Hk w w' r Hr. unfold mbind, prog_bind in Hr. destruct (m w) as [w1 [a|e]] eqn:E.
  - destruct (Hm _ _ _ E) as (l & L1 & L2). destruct (Hk a _ _ _ Hr) as (l' & K1 & K2).
    exists (l ++ l'). rewrite K1, L1, <-app_assoc. split; [done|by apply Forall_app].
  - injection Hr as <- <-. by apply (Hm _ _ _ E).
Qed.
Lemma mindful_still {A} (m : P A) : (forall w, log (m w).1 = log w) -> mindful m.
Proof.
  intros Hm w w' r Hr. specialize (Hm w). rewrite Hr in Hm. exists []. rewrite app_nil_r. split; [done|]. by apply Forall_nil_2.
Qed.
Lemma mindful_put c : decided c -> mindful (put c).
Proof. intros Hc w w' r [= <- <-]. exists [c]. split; [done|by apply Forall_singleton]. Qed.
Lemma mindful_lift {A} (r : Result A) : mindful (lift r).
Proof. by apply mindful_still. Qed.
Lemma mindful_reject {A} c : mindful (reject c : P A).
Proof. by apply mindful_still. Qed.
Lemma mindful_ret {A} (a : A) : mindful (mret a).
Proof. by apply mindful_still. Qed.
Lemma mindful_ask {A} (f : nat -> A) : mindful (ask f).
Proof. by apply mindful_still. Qed.
Lemma mindful_get : mindful get_guard.
Proof. by apply mindful_still. Qed.
Lemma mindful_pass : mindful (pass env).
Proof. by apply mindful_still. Qed.
Lemma mindful_run {A} (f : Guard F Remote -> Guard F Remote * Result A) : mindful (run_guard f).
Proof. apply mindful_still. intros w. unfold run_guard. by destruct (f (guard w)). Qed.
Lemma mindful_store {A} (r : result StoreError A) : mindful (from_store r).
Proof. destruct r; by apply mindful_still. Qed.
Lemma mindful_or {A} (m : P A) : mindful m -> mindful (or_invalidate renv m).
Proof.
  intros Hm w w' r Hr. unfold or_invalidate in Hr. destruct (m w) as [w1 [a|e]] eqn:E; injection Hr as <- <-;
    destruct (Hm _ _ _ E) as (l & L1 & L2); exists l; (split; [|done]); [done|].
  etransitivity; [apply invalidate_log|done].
Qed.
End Outcome.
Create HintDb mindful.
#[export] Hint Resolve mindful_lift mindful_reject mindful_ret mindful_ask mindful_get mindful_pass mindful_run mindful_store : mindful.
#[export] Hint Extern 2 (mindful _ _ _ (put _)) => (apply mindful_put; exact I) : mindful.
Ltac mind :=
  repeat first
    [ match goal with |- forall _, _ => intro end
    | solve [eauto with mindful]
    | match goal with
      | |- mindful _ _ _ (or_invalidate _ _) => apply mindful_or
      | |- mindful _ _ _ (mbind _ _) => apply mindful_bind
      | |- mindful _ _ _ (if ?b then _ else _) => destruct b
      | |- mindful _ _ _ (match ?x with _ => _ end) => destruct x
      end ].

Section Mindful.
Context `{Base64} `{Http} `{Urls} `{HttpMessage} `{JsonText} `{McpMessage.Rmcp}
  (json_string : list byte -> option (list byte)) (compiled : string -> option McpMessage.McpProfile).
Context {F : Type} `{ObserverLaws F}.
Context (renv : RemEnv F) (cfg : Configuration) (opts : SessionOptions).
Abbreviation env := (rem renv).
Abbreviation mindful := (mindful (F:=F) json_string cfg opts).

Lemma mindful_await : mindful (await env).
Proof. unfold await. mind. Qed.
Lemma mindful_check : mindful (check_session env).
Proof. unfold check_session. mind. Qed.
Lemma mindful_move next s : mindful (move_to env next s).
Proof. unfold move_to. mind. Qed.
Lemma mindful_evidence es : mindful (evidence env es).
Proof. unfold evidence. mind. Qed.
#[local] Hint Resolve mindful_await mindful_check mindful_move mindful_evidence : mindful.
Lemma mindful_both d x : mindful (evidence_both env d x).
Proof. apply mindful_evidence. Qed.
#[local] Hint Resolve mindful_both : mindful.
Lemma mindful_approve item l : mindful (approve_operation env cfg item l).
Proof. unfold approve_operation. mind. Qed.
Lemma mindful_execute e q : mindful (execute env e q).
Proof. unfold execute. mind. Qed.
Lemma mindful_commit : mindful (commit env).
Proof. unfold commit. mind. Qed.
Lemma mindful_run_remote {A} (f : Guard F Remote -> Remote -> Remote * Result A) : mindful (run_remote f).
Proof. apply mindful_run. Qed.
#[local] Hint Resolve mindful_approve mindful_execute mindful_commit mindful_run_remote : mindful.
Lemma mindful_on_vault {A} (f : Guard F Remote -> RVault -> RVault * Result A) : mindful (on_vault renv f).
Proof. unfold on_vault. mind. Qed.
Lemma mindful_on_held {A} (f : Z -> RBinding -> RBinding * Result A) : mindful (on_held renv f).
Proof. unfold on_held. mind. Qed.
Lemma mindful_on_exchange {A} (f : Z -> McpContext.Exchange -> RBinding -> RBinding * Result A) : mindful (on_exchange renv f).
Proof. unfold on_exchange. mind. Qed.
Lemma mindful_set_exchange f : mindful (set_exchange f).
Proof. unfold set_exchange. mind. Qed.
Lemma mindful_check_exchange : mindful (check_exchange renv).
Proof. unfold check_exchange. mind. Qed.
#[local] Hint Resolve mindful_on_vault mindful_on_held mindful_on_exchange mindful_set_exchange mindful_check_exchange : mindful.
Lemma mindful_check_held : mindful (check_held renv).
Proof. apply mindful_on_held. Qed.
Lemma mindful_invalidate : mindful (invalidate_held renv).
Proof. apply mindful_on_held. Qed.
Lemma mindful_revalidate check b : mindful (revalidate_held renv check b).
Proof. unfold revalidate_held. mind. Qed.
Lemma mindful_reserve n : mindful (reserve_remote renv n).
Proof. unfold reserve_remote. mind. Qed.
Lemma mindful_authenticate b prefix header q : mindful (authenticate json_string renv b prefix header q).
Proof. unfold authenticate. mind. Qed.
Lemma mindful_resolve p t : mindful (resolve_endpoint renv p t).
Proof. unfold resolve_endpoint. mind. Qed.
Lemma mindful_say d v x : mindful (say renv d v x).
Proof. unfold say. mind. Qed.
Lemma mindful_end d : mindful (end_both renv d).
Proof. unfold end_both. mind. Qed.
#[local] Hint Resolve mindful_check_held mindful_invalidate mindful_revalidate mindful_reserve mindful_authenticate
  mindful_resolve mindful_say mindful_end : mindful.
Lemma mindful_observe d v r x : mindful (observe_body renv d v r x).
Proof.
  unfold observe_body. generalize (fresh r), (mkPlaceholders [] false), (body_chunks x). clear r x. intros r p cs.
  revert r p. induction cs as [|[c fin] cs IH]; intros r p; cbn [observe_chunks]; [mind|].
  destruct (feed r c fin) as [r1 s1]. apply mindful_bind; [mind|]. intros safe.
  destruct (feed_placeholders p safe fin) as [p1 s2]. mind.
Qed.
#[local] Hint Resolve mindful_observe : mindful.

(** ** Requests on behalf of a request *)

Lemma mindful_child i k req f p t prepared b :
  mindful (run_child i k req f (child_program json_string renv cfg opts p t k prepared b req)).
Proof.
  intros w w' r Hr. unfold run_child in Hr. destruct (remote (guard w)) as [x|].
  - destruct (child_program _ _ _ _ _ _ _ _ _ _ _) as [c res] eqn:E. injection Hr as <- <-.
    pose proof (fun Hd => child_told json_string renv cfg opts p t k prepared b req _ _ _ Hd E) as Ht.
    destruct (Ht eq_refl) as (l & El & Hl). cbn in El. clear Ht.
    exists [Controlled (log c)]. split; [done|]. apply Forall_singleton. exists p, t, k, prepared, b, req. rewrite El.
    by apply told_controlled in Hl.
  - injection Hr as <- <-. exists []. rewrite app_nil_r. split; [done|by apply Forall_nil_2].
Qed.
Lemma mindful_caught req : mindful (caught (open_child renv req)).
Proof.
  apply mindful_still. intros w. unfold caught, open_child, check_session, mbind, prog_bind, pass, get_guard, ask, lift. cbn.
  by destruct (Session_check _) as [[]|].
Qed.
#[local] Hint Resolve mindful_child mindful_caught : mindful.
Lemma mindful_control p t i k prepared : mindful (dispatch_remote_control json_string renv cfg opts p t i k prepared).
Proof. unfold dispatch_remote_control. mind. Qed.
#[local] Hint Resolve mindful_control : mindful.
Lemma mindful_ping p t prepared : mindful (reply_remote_ping json_string renv cfg opts p t prepared).
Proof. unfold reply_remote_ping. mind. Qed.
#[local] Hint Resolve mindful_ping : mindful.
Lemma mindful_pings p t d pings : mindful (reply_pings json_string renv cfg opts p t d pings).
Proof. induction pings as [|ping pings IH]; cbn [reply_pings]; mind. Qed.
#[local] Hint Resolve mindful_pings : mindful.
Lemma mindful_push p t d cs : mindful (push_chunks json_string renv cfg opts p t d cs).
Proof. revert d. induction cs as [|c cs IH]; intros d; cbn [push_chunks]; mind. Qed.
#[local] Hint Resolve mindful_push : mindful.
Lemma mindful_frames p t d fs : mindful (read_frames json_string renv cfg opts p t d fs).
Proof. revert d. induction fs as [|c fs IH]; intros d; cbn [read_frames]; mind. Qed.
#[local] Hint Resolve mindful_frames : mindful.
Lemma mindful_closing {A} i (m : Prog F Remote A) : mindful m -> mindful (closing_scope i m).
Proof.
  intros Hm w w' r Hr. unfold closing_scope in Hr. destruct (m w) as [w1 x] eqn:E. injection Hr as <- <-. exact (Hm _ _ _ E).
Qed.
Lemma mindful_end_session p t deadline : mindful (end_session json_string renv cfg opts p t deadline).
Proof. unfold end_session. mind; apply mindful_closing; mind. Qed.
#[local] Hint Resolve mindful_end_session : mindful.

Lemma mindful_exchange p t body r item message id header prefix :
  mindful (exchange_remote json_string compiled renv cfg opts p t body r item message id header prefix).
Proof.
  unfold exchange_remote, describe_item, prepare_exchange, outgoing_message, commit_remote, receive_remote, finish_remote. mind.
Qed.
Lemma mindful_cancel p t message : mindful (cancel_remote_message json_string renv cfg opts p t message).
Proof. unfold cancel_remote_message, stop_target, answer_local. mind. Qed.
Lemma mindful_close req p t id deadline : mindful (close_remote_context json_string renv cfg opts req p t id deadline).
Proof. unfold close_remote_context, answer_local. mind. Qed.
#[local] Hint Resolve mindful_exchange mindful_cancel mindful_close : mindful.
Lemma mindful_dispatch req deadline : mindful (dispatch_mcp json_string compiled renv cfg opts req deadline).
Proof. unfold dispatch_mcp, dispatch_remote, admit_message. mind. Qed.
Lemma mindful_cancellation : mindful (cancel_remote_operation json_string renv cfg opts).
Proof.
  unfold cancel_remote_operation. apply mindful_bind; [|mind]. apply mindful_still. intros w. unfold caught.
  unfold on_vault, mbind, prog_bind, pass. cbn. unfold run_remote, run_guard. cbn.
  destruct (_ <$> remote (guard w)) as [r|]; [|done]. by destruct (prepare_operation_cancel _ _ _).
Qed.
End Mindful.

(** ** The request itself *)

Section Authorized.
Context `{Base64} `{Http} `{Urls} `{HttpMessage} `{JsonText} `{McpMessage.Rmcp}
  (json_string : list byte -> option (list byte)) (compiled : string -> option McpMessage.McpProfile).
Context {F : Type} `{ObserverLaws F}.
Context (renv : RemEnv F) (cfg : Configuration) (opts : SessionOptions).
Abbreviation P := (Prog F Remote).
Abbreviation logs := (logs (F:=F) (R:=Remote)).
Abbreviation committed := (committed (F:=F) (R:=Remote)).
Abbreviation hands_off := (hands_off (F:=F) (R:=Remote)).
Abbreviation env := (rem renv).

(** The policy of the host, the session and the profile admits the message. *)
Record errand (req : ExecuteRequest) (e : Errand) : Prop := {
  es_session : resource req ∈ o_resources opts;
  es_profile : find_first (fun p => bool_decide (profile_id p = resource req)) (profiles cfg) = Some (er_profile e);
  es_target : Target_parse (target req) = Ok (er_target e);
  es_body : decode_body req = Ok (er_body e);
  es_route : authorize (er_profile e) (method req) (er_target e) (len (er_body e)) = Ok (er_route e);
  es_headers : authorize_headers (er_route e) (headers req) = Ok tt;
  es_plain : auth_context req = None /\ method req = "POST";
  es_auth : exists tools, auth (er_profile e) = McpAuth (er_id e) (er_header e) (er_prefix e) tools;
  es_reviewed : exists profile, compiled (profile_id (er_profile e)) = Some profile
                /\ McpMessage.request profile (er_body e) = Ok (er_message e);
  es_kind : McpMessage.rq_method (er_message e) <> McpMessage.Cancel;
  es_item : find_first (fun i => bool_decide (item_id i = er_id e)) (items (catalog cfg)) = Some (er_item e)
            /\ item_allowed opts (er_item e) = true }.

Lemma admit_remote_ok req p id header prefix : admit_remote req p = Ok (id, header, prefix) ->
  auth_context req = None /\ method req ∈ ["POST"; "DELETE"] /\ exists tools, auth p = McpAuth id header prefix tools.
Proof.
  unfold admit_remote. case_bool_decide as Hc; [done|]. case_bool_decide as Hm; [|done]. cbn.
  destruct (auth p); try done. destruct (existsb _ _); [done|]. intros [= <- <- <-].
  split; [by apply eq_None_not_Some|]. split; [done|]. by eexists.
Qed.
Lemma logs_admit_message req p t body id : logs (admit_message compiled renv cfg opts req p t body id) (fun x l => l = []
  /\ authorize p (method req) t (len body) = Ok x.1.1
  /\ (exists profile, compiled (profile_id p) = Some profile /\ McpMessage.request profile body = Ok x.1.2)
  /\ granted_item cfg opts id = Ok x.2).
Proof.
  unfold admit_message. pose proof (logs_reserve_remote renv). chain. subst. cbn [fst snd]. split; [done|]. split; [done|]. split; [|done].
  destruct (compiled (profile_id p)) as [profile|]; [|done]. exists profile. split; [done|].
  match goal with He : ok_or _ _ = Ok _ |- _ => injection He as <- end. done.
Qed.
Lemma hands_off_logs {A} (m : P A) p Q : logs m p -> hands_off m Q.
Proof. intros Hm w w' r Hr. destruct (Hm _ _ _ Hr) as (l & ? & ? & _). exists l. auto. Qed.

Lemma logs_closing {A} i (m : P A) p : logs m p -> logs (closing_scope i m) p.
Proof.
  intros Hm w w' r Hr. unfold closing_scope in Hr. destruct (m w) as [w1 x] eqn:E. injection Hr as <- <-. exact (Hm _ _ _ E).
Qed.
Lemma logs_local status hs : logs (answer_local renv status hs) (fun _ l => l = []).
Proof. unfold answer_local. chained. Qed.
#[local] Hint Resolve logs_local logs_say logs_control logs_on_vault : logs.
Lemma logs_end_session p t deadline : logs (end_session json_string renv cfg opts p t deadline) (fun _ _ => True).
Proof.
  unfold end_session. eapply logs_bind; [apply logs_on_vault|]. intros [[i [prepared x]]|] l _; [|by chain].
  apply logs_closing. by chain.
Qed.
#[local] Hint Resolve logs_end_session : logs.
Lemma logs_close req p t id deadline : logs (close_remote_context json_string renv cfg opts req p t id deadline) (fun _ _ => True).
Proof. unfold close_remote_context. by chain. Qed.
Lemma logs_stop p t i c : logs (stop_target json_string renv cfg opts p t i c) (fun _ _ => True).
Proof. unfold stop_target. by chain. Qed.
#[local] Hint Resolve logs_stop : logs.
Lemma logs_cancel p t message : logs (cancel_remote_message json_string renv cfg opts p t message) (fun _ _ => True).
Proof.
  unfold cancel_remote_message. eapply logs_bind; [apply logs_on_vault|]. intros c l _.
  eapply (logs_bind _ _ (fun _ _ => True)); [destruct c as [[i c]|]; by chain|]. intros [] l' _. by chain.
Qed.

(** Before its exchange begins a request only moves on. *)
Lemma goes_on_still : acts_beside renv -> Calm env goes_on.
Proof. intros Hb. by apply goes_on_calm. Qed.
Lemma within_admit_message req p t body id : within goes_on (admit_message compiled renv cfg opts req p t body id).
Proof.
  pose proof (goes_on_preorder (F:=F)). unfold admit_message. inward. unfold reserve_remote. inward.
Qed.
Lemma hands_upon_mcp req deadline g0 : acts_beside renv ->
  hands_upon (goes_on g0) (dispatch_mcp json_string compiled renv cfg opts req deadline) (fun l => exists e rest,
      l = agent_start (method req) (profile_origin (er_profile e) ++ path (er_target e)) (headers req)
            :: exchange_calls cfg opts e ++ Executed (er_endpoint e) (er_request e) :: rest
      /\ errand req e /\ exchanged json_string cfg compiled g0 e /\ no_execution rest).
Proof.
  intros Hbeside. pose proof (goes_on_preorder (F:=F)). pose proof (goes_on_still Hbeside).
  assert (forall A (m : P A) p, logs m p -> within goes_on m -> upon (goes_on g0) m (fun a l g => p a l /\ goes_on g0 g)) as Hstep
    by (intros; by apply upon_going_on).
  unfold dispatch_mcp. eapply hands_upon_bind; [apply Hstep; [apply logs_lift|inward]|].
  intros [[[p t] body] r0] l. stage. match goal with Ha : admit_request _ _ _ = _ |- _ => apply admit_ok in Ha as (A1 & A2 & A3 & A4 & A5 & A6) end.
  unfold dispatch_remote. eapply hands_upon_bind; [apply Hstep; [apply logs_lift|inward]|].
  intros [[id header] prefix] l. stage. match goal with Ha : admit_remote _ _ = _ |- _ => apply admit_remote_ok in Ha as (B1 & B2 & B3) end.
  destruct (bool_decide_reflect (method req = "DELETE")).
  { destruct (bool_decide _); [eapply hands_upon_off, hands_off_logs, logs_close|apply hands_upon_reject]. }
  eapply hands_upon_bind; [apply Hstep; [apply logs_admit_message|apply within_admit_message]|]. intros [[r message] item] l. stage.
  match goal with Ha : granted_item _ _ _ = _ |- _ => apply granted_item_Ok in Ha end. cbn [fst snd] in *.
  eapply hands_upon_bind; [apply Hstep; [apply logs_move|inward]|]. stage.
  eapply hands_upon_bind; [apply Hstep; [apply logs_evidence|inward]|]. stage. subst. cbn [app].
  destruct (bool_decide_reflect (McpMessage.rq_method message = McpMessage.Cancel)); [eapply hands_upon_off, hands_off_logs, logs_cancel|].
  eapply hands_upon_weaken; [by apply hands_upon_remote|done|].
  intros l (reference & m & v & i & x & b & found & endpoint & prepared & s & out & red & au & rest & -> & He & Hn).
  eexists (mkErrand p t body r item message id header prefix reference m v i x b found endpoint prepared s out red au), rest.
  split; [reflexivity|]. split; [|by split]. assert (r0 = r) as -> by congruence.
  constructor; cbn [er_profile er_target er_body er_route er_item er_message er_id er_header er_prefix]; try done.
  split; [done|]. set_solver.
Qed.

(** C15: a message leaves for a remote server only when the session, the profile, its route,
    its headers and the item admit it, the reviewed message is not a cancellation, and its
    own exchange began, under this session's authority and for this operation, in a live
    context of the operation's resource in this session's vault that is not being closed and
    holds the lease the store reported. By then, in this order: the request was recorded,
    the item described, approval given where any of the switches asks for it, the lease of
    the context revalidated, the name resolved to allowed addresses, the secret released
    under that lease and inserted into the message that this context, later in its life,
    prepared for this exchange, whose body is the reviewed message under its upstream
    identifier; the insertion recorded, the lease revalidated again, the Allow decision
    recorded and the dispatch committed under a live session. It leaves once. Whatever else
    leaves on its behalf (ping replies, cancellation notices, the end of a session) was
    decided anew as a request of its own. Of what runs beside it this takes that it acts on
    the session's contexts through the sections of code of the vault. *)
Theorem remote_authorized req deadline (w w' : World F Remote) res :
  acts_beside renv -> dispatch_mcp json_string compiled renv cfg opts req deadline w = (w', res) ->
  exists l, log w' = log w ++ l /\ Forall (decided json_string cfg opts) l /\ (no_execution l \/
    exists e rest,
      l = agent_start (method req) (profile_origin (er_profile e) ++ path (er_target e)) (headers req)
            :: exchange_calls cfg opts e ++ Executed (er_endpoint e) (er_request e) :: rest
      /\ errand req e /\ exchanged json_string cfg compiled (guard w) e
      /\ rb_lease (er_context e) = lease (er_metadata e) /\ rb_cancelled (er_context e) = false
      /\ rb_closing (er_context e) = false /\ no_execution rest).
Proof.
  intros Hbeside Hr. pose proof (goes_on_preorder (F:=F)).
  destruct (hands_upon_mcp req deadline (guard w) Hbeside w w' res ltac:(reflexivity) Hr) as (l & L1 & L2).
  destruct (mindful_dispatch json_string compiled renv cfg opts req deadline _ _ _ Hr) as (l' & K1 & K2).
  assert (l' = l) as -> by (rewrite L1 in K1; by apply app_inv_head in K1). exists l. split; [done|]. split; [done|].
  destruct L2 as [L2|(e & rest & -> & He & Hx & Hn)]; [by left|right]. exists e, rest.
  pose proof (ex_begun _ _ _ _ _ Hx) as Hb. apply begins_context in Hb as (? & ? & ? & _). by split_and!.
Qed.

(** The parts of a program that succeeded. *)
Lemma bind_log {A B} (m : P A) (k : A -> P B) p (w w' : World F Remote) b :
  logs m (fun a l => l = [] /\ p a l) \/ logs m (fun _ l => l = []) -> (m ≫= k) w = (w', Ok b) ->
  exists a w1, log w1 = log w /\ k a w1 = (w', Ok b).
Proof.
  intros Hm Hr. unfold mbind, prog_bind in Hr. destruct (m w) as [w1 [a|e]] eqn:E; [|done]. exists a, w1. split; [|done].
  destruct Hm as [Hm|Hm]; destruct (Hm _ _ _ E) as (l & -> & _ & Hl); [destruct (Hl _ eq_refl) as [-> _]|rewrite (Hl _ eq_refl)];
    by rewrite app_nil_r.
Qed.

(** ** Outcome *)

Lemma committed_held p t body r item message id header prefix :
  committed false (exchange_remote json_string compiled renv cfg opts p t body r item message id header prefix).
Proof.
  unfold exchange_remote.
  eapply committed_bind; [apply guided_describe|apply logs_describe|]. intros [reference m].
  eapply committed_bind; [apply guided_ask|apply logs_ask|]. intros permit.
  eapply committed_bind; [apply guided_ask|apply logs_ask|]. intros random.
  eapply committed_bind; [eapply guided_bind; [apply guided_pass|intros; apply guided_begin_remote]|apply logs_begin|]. intros b.
  eapply committed_bind; [apply guided_on_held|apply logs_on_held|]. intros x.
  eapply committed_bind; [apply guided_prepare_exchange|apply logs_prepare_exchange|]. intros [[endpoint out] red].
  eapply committed_tail; [eapply guided_bind; [apply guided_execute|intros; apply guided_receive_remote]|].
  apply hands_off_execute. intros y. apply logs_receive_remote.
Qed.
Lemma committed_dispatch_mcp req deadline : committed false (dispatch_mcp json_string compiled renv cfg opts req deadline).
Proof.
  unfold dispatch_mcp, dispatch_remote.
  eapply committed_bind; [apply guided_lift|apply logs_lift|]. intros [[[p t] body] r].
  eapply committed_bind; [apply guided_lift|apply logs_lift|]. intros [[id header] prefix]. destruct (bool_decide _).
  { destruct (bool_decide _); [eapply committed_logs, logs_close|apply committed_reject]. }
  eapply committed_bind; [apply guided_admit_message|apply logs_admit_message|]. intros [[route message] item].
  eapply committed_bind; [apply guided_move_to; cbn; set_solver|apply logs_move|]. intros [].
  eapply committed_bind; [apply guided_evidence|apply logs_evidence|]. intros [].
  destruct (bool_decide _); [eapply committed_logs, logs_cancel|apply committed_held].
Qed.

Lemma committed_child p t k prepared b req : committed false (child_program json_string renv cfg opts p t k prepared b req).
Proof.
  unfold child_program. eapply committed_bind; [apply guided_open_flow|apply logs_open_flow|]. intros [].
  destruct (auth p); try apply committed_reject. intros w w' r Hd Hr. unfold settle_control in Hr.
  destruct (control_attempt _ _ _ _ _ _ _ _ _ _ _ _ _ w) as [w1 [y|e]] eqn:E;
    destruct (committed_control json_string renv cfg opts _ _ _ _ _ _ _ _ _ _ _ _ Hd E) as (l & L1 & L2); [injection Hr as <- <-; eauto|].
  destruct (on_dropped _ _); [injection Hr as <- <-; eauto|]. cbv zeta in Hr. exists l.
  pose proof (invalidate_log renv w1) as Hi. pose proof (fun wx rx => guided_invalidate renv true w1 wx rx) as Hg.
  destruct (dispatched (guard w1)) eqn:Ed.
  - destruct (invalidate_held renv w1) as [w2 r2] eqn:E2. cbn [fst] in *. destruct (Hg _ _ eq_refl eq_refl) as (ms & _ & Hms & _).
    assert (Hd2 : dispatched (guard w2) = true) by (rewrite Hms; by apply life_dispatched).
    destruct (guard_fail_spec (guard w2) (code e)) as (_ & Hf & _).
    destruct (bool_decide _); injection Hr as <- <-; cbn [fst run_guard log guard]; (split; [congruence|right; congruence]).
  - destruct (guard_fail_spec (guard w1) (code e)) as (_ & Hf & _).
    destruct (bool_decide _); injection Hr as <- <-; cbn [fst run_guard log guard]; (split; [done|left; by destruct L2]).
Qed.

(** What a guard that starts among the session's contexts ends as. *)
Lemma remote_life a req (f : F) x (ms : list (Move F Remote)) :
  lives (with_remote (tracked a req f) (Some x)) ms ->
  let g := life (with_remote (tracked a req f) (Some x)) ms in
  let o := guard_op (guard_drop g) in
  terminal (op_state o) = true
  /\ (dispatched g = true -> op_state o = Completed \/ op_state o = OpOutcomeUnknown)
  /\ (dispatched g = false -> op_state o <> OpOutcomeUnknown).
Proof.
  intros Hl. pose proof (tracked_outcome (R := Remote) a req f
    (MExchange (website (tracked (R := Remote) a req f)) (binding (shared (tracked (R := Remote) a req f))) (Some x) :: ms)) as Ht.
  unfold life in Ht. cbn [lives foldl] in Ht. rewrite remote_move in Ht. by apply Ht.
Qed.

(** C19: what a remote request is reported as never contradicts what was done with it, and
    neither does what is reported of a request made on its behalf: whatever the store, the
    transport, the upstream and the approver answer, whatever else runs in the session's
    contexts, and however the program and everything after it end, once its guard is gone its
    operation is over; if it may have left the broker it is [Completed] or of unknown
    outcome, and it is never of unknown outcome if its dispatch was not committed. *)
Theorem remote_outcome a req deadline (f : F) x n (w' : World F Remote) res (ms : list (Move F Remote)) :
  (dispatch_mcp json_string compiled renv cfg opts req deadline (mkWorld (with_remote (tracked a req f) (Some x)) n []) = (w', res)
   \/ exists p t k prepared b res', child_program json_string renv cfg opts p t k prepared b req
        (mkWorld (with_remote (tracked a req f) (Some x)) n []) = (w', res')) ->
  lives (guard w') ms ->
  let o := guard_op (guard_drop (life (guard w') ms)) in
  terminal (op_state o) = true
  /\ (~ no_execution (log w') -> op_state o = Completed \/ op_state o = OpOutcomeUnknown)
  /\ (dispatched (life (guard w') ms) = false -> op_state o <> OpOutcomeUnknown).
Proof.
  set (w0 := mkWorld (with_remote (tracked a req f) (Some x)) n []). intros Hr Hl o.
  assert (Hm : exists ms0, lives (guard w0) ms0 /\ guard w' = life (guard w0) ms0
    /\ (no_execution (log w') \/ dispatched (guard w') = true)).
  { destruct Hr as [Hr|(p & t & k & prepared & b & res' & Hr)].
    - destruct (lively_dispatch_mcp json_string renv cfg opts compiled req deadline w0 _ _ eq_refl Hr) as (ms0 & L0 & E0).
      destruct (committed_dispatch_mcp req deadline w0 _ _ eq_refl Hr) as (l & El & Hx). cbn in El. rewrite El. by exists ms0.
    - destruct (lively_child json_string renv cfg opts p t k prepared b req w0 _ _ eq_refl Hr) as (ms0 & L0 & E0).
      destruct (committed_child p t k prepared b req w0 _ _ eq_refl Hr) as (l & El & Hx). cbn in El. rewrite El. by exists ms0. }
  destruct Hm as (ms0 & L0 & E0 & Hx). cbn [w0 guard] in L0, E0.
  destruct (remote_life a req f x (ms0 ++ ms)) as (O1 & O2 & O3).
  { apply lives_app; [done|]. by rewrite <-E0. }
  rewrite life_app, <-E0 in O1, O2, O3. split; [done|]. split; [|done].
  intros Hn. apply O2, life_dispatched. by destruct Hx.
Qed.

(** ** Closure *)

(** A section of code on the vault runs on the vault as the rest of the program left it. *)
Lemma on_vault_spec {A} (f : Guard F Remote -> RVault -> RVault * Result A) (w w1 : World F Remote) a : acts_beside renv ->
  on_vault renv f w = (w1, Ok a) -> exists r g ms v,
    remote (guard w) = Some r /\ ages (authority (shared (guard w))) (authority (shared g))
    /\ f g (vault_run (r_vault r) ms) = (v, Ok a) /\ r_vault <$> remote (guard w1) = Some v /\ log w1 = log w.
Proof.
  intros Hb Hr. unfold on_vault, mbind, prog_bind, pass, run_remote, run_guard in Hr. cbn in Hr.
  destruct (remote (guard w)) as [r|]; [|done]. cbn in Hr. destruct (Hb (steps w) r) as [ms Ems]. rewrite Ems in Hr. cbn in Hr.
  destruct (f _ _) as [v x] eqn:E. injection Hr as <- ->.
  eexists r, _, ms, v. split; [done|]. split; [|by split; [exact E|]]. cbn. by apply others_keep.
Qed.

(** What is said of the end of a remote session, and the log of the attempt to end it: where
    there is nothing to end upstream, or its request could not begin, [Skipped] and nothing
    at all; else one request, with what the closure prepared, in the context that was closed
    or one later in its life, whose log says what is told. *)
Definition reported (p : ResourceProfile) (t : Target) (v1 : RVault) (c : option (nat * (McpContext.Outgoing * Z)))
    (o : CleanupOutcome) (l : list Call) : Prop :=
  (l = [] /\ o = Skipped)
  \/ exists i prepared d id b ms l', c = Some (i, (prepared, d)) /\ l = [Controlled l']
       /\ binding_at (vault_run v1 ms) i = Some b
       /\ controlled json_string cfg opts p t KDelete prepared b (control_request p t KDelete id) l'
       /\ concluded json_string renv cfg opts p t KDelete prepared b (control_request p t KDelete id) l' o.
Lemma control_reported p t i prepared d v1 (w w' : World F Remote) r : acts_beside renv ->
  r_vault <$> remote (guard w) = Some v1 ->
  dispatch_remote_control json_string renv cfg opts p t i KDelete prepared w = (w', Ok r) ->
  exists l, log w' = log w ++ l /\ reported p t v1 (Some (i, (prepared, d))) (match r with Ok o => o | Err _ => Skipped end) l.
Proof.
  intros Hbeside Hv Hr. unfold dispatch_remote_control in Hr. unfold mbind at 1, prog_bind at 1 in Hr.
  destruct (on_vault renv _ w) as [w1 [b|e]] eqn:E; [|done].
  destruct (on_vault_spec _ _ _ _ Hbeside E) as (r0 & g & ms & v & Hr0 & _ & Ef & _ & L1). rewrite Hr0 in Hv. injection Hv as Hv.
  rewrite Hv in Ef. injection Ef as <- Hb. apply ok_or_Ok in Hb. clear E.
  destruct (bind_log (ask (on_random env)) _ _ _ _ _ (or_introl (logs_ask _)) Hr) as (id & w2 & L2 & Hr2). clear Hr.
  assert (Hnil : forall x : World F Remote, log x = log w2 -> exists l, log x = log w ++ l
    /\ reported p t v1 (Some (i, (prepared, d))) Skipped l).
  { intros x Hx. exists []. rewrite app_nil_r. split; [congruence|by left]. }
  destruct id as [id|]; [|injection Hr2 as <- <-; by apply Hnil].
  destruct (bind_log _ _ (fun _ _ => True) _ _ _ (or_intror (logs_caught_child renv _)) Hr2) as (f & w3 & L3 & Hr3). clear Hr2.
  destruct f as [f|e]; [|injection Hr3 as <- <-; by apply Hnil].
  unfold run_child in Hr3. destruct (remote (guard w3)) as [x|]; [|done].
  destruct (child_program _ _ _ _ _ _ _ _ _ _ _) as [c res] eqn:E.
  pose proof (fun Hd => child_told json_string renv cfg opts p t KDelete prepared b _ _ _ _ Hd E) as Ht.
  destruct (Ht eq_refl) as (l & El & Hl). clear Ht. cbn in El. rewrite <-El in Hl. clear l El.
  injection Hr3 as <- Hres. exists [Controlled (log c)]. cbn. split; [congruence|]. right.
  exists i, prepared, d, id, b, ms, (log c). split; [done|]. split; [done|]. split; [done|]. split; [by eapply told_controlled|].
  destruct res as [[o|]|e]; simplify_eq/=; [by apply told_concluded|]. by destruct Hl as (_ & _ & _ & Hd); apply (Hd e).
Qed.

(** C17: ending a remote session is final here and honest about there: before anything is
    logged, resolved, released or sent, the current context of the resource in this session's
    vault is closed and cancelled and its session identifier is gone from it, and no live
    context of the resource is left; then at most one request leaves for it, decided anew as
    a control message, carrying what the closure prepared under the credential of the context
    that was closed. The agent is told [skipped] only if nothing left, [confirmed] or
    [not_supported] only if this request left and it is what the upstream's answer to it
    says; and when it is over the context no longer counts as being closed. Of what runs
    beside it this takes that it acts on the session's contexts, which began as none, through
    the sections of code of the vault. *)
Theorem cleanup_honest p t deadline earlier r0 (w w' : World F Remote) o :
  acts_beside renv -> remote (guard w) = Some r0 -> r_vault r0 = vault_run [] earlier ->
  end_session json_string renv cfg opts p t deadline w = (w', Ok o) ->
  exists ms v1 c (g : Guard F Remote),
    ages (authority (shared (guard w))) (authority (shared g))
    /\ prepare_remote_close (vault_run (r_vault r0) ms) (profile_id p) deadline (guard_now g) = (v1, Ok c)
    /\ (exists w1, log w1 = log w /\ (r_vault <$> remote (guard w1)) = Some v1
        /\ (match c with
            | Some (i, (prepared, _)) =>
                closing_scope i (r ← dispatch_remote_control json_string renv cfg opts p t i KDelete prepared;
                                 mret match r with Ok o => o | Err _ => Skipped end)
            | None => mret Skipped
            end) w1 = (w', Ok o))
    /\ (forall i, ~ live_in v1 i (profile_id p))
    /\ (forall i x, c = Some (i, x) -> exists b, v1 !! i = Some (profile_id p, b)
          /\ rb_cancelled b = true /\ rb_closing b = true
          /\ McpContext.cx_state (rb_state b) = McpContext.SClosed /\ McpContext.cx_native (rb_state b) = None)
    /\ (exists l, log w' = log w ++ l /\ reported p t v1 c o l)
    /\ (forall i x r b, c = Some (i, x) -> remote (guard w') = Some r -> binding_at (r_vault r) i = Some b -> rb_closing b = false).
Proof.
  intros Hbeside Hr0 Hearlier Hr. unfold end_session in Hr. unfold mbind at 1, prog_bind at 1 in Hr.
  destruct (on_vault renv _ w) as [w1 [c|e]] eqn:E; [|done].
  destruct (on_vault_spec _ _ _ _ Hbeside E) as (r & g & ms & v1 & Hr1 & Hg & Ep & Hv1 & L1). clear E.
  rewrite Hr0 in Hr1. injection Hr1 as <-. exists ms, v1, c, g. split; [done|]. split; [exact Ep|].
  split; [exists w1; by split_and!|]. apply closed_spec in Ep as (_ & Hs & Hc).
  split; [apply Hs; rewrite Hearlier, <-vault_run_app; apply run_single, single_empty|].
  split; [intros i y ->; by destruct (Hc _ _ eq_refl) as (_ & b & Hb & Hx); exists b|].
  destruct c as [[i [prepared d]]|].
  - unfold closing_scope in Hr. destruct (_ ≫= _) as [w2 r2] eqn:E2 in Hr. injection Hr as <- ->.
    unfold mbind, prog_bind in E2. destruct (dispatch_remote_control _ _ _ _ _ _ _ _ _ _) as [w3 [r3|e]] eqn:E3; [|done].
    injection E2 as <- <-. destruct (control_reported _ _ _ _ d _ _ _ _ Hbeside Hv1 E3) as (l & El & Hl).
    split; [exists l; cbn; split; [by rewrite El, L1|done]|].
    intros j y r b [= <- _] Hrem Hb. cbn in Hrem. destruct (remote (guard w3)) as [x3|]; [|done]. cbn in Hrem. injection Hrem as <-.
    cbn in Hb. apply binding_name in Hb as [m Hb]. apply alter_lookup in Hb as (b0 & _ & ->). by rewrite decide_True.
  - injection Hr as <- <-. split; [exists []; rewrite app_nil_r; split; [done|by left]|done].
Qed.
End Authorized.
