(* ===== verification/Forward.v ===== *)
(** * Inspected HTTPS ingress ([aap-http/src/proxy.rs], [aap-engine/src/proxy.rs])

    An agent that speaks to a proxy: CONNECT names an authority, which the session
    admits before a TLS identity is issued for it; inside the tunnel each request is
    bound to that authority, stripped of what belongs to the connection, and forwarded
    to the engine, which chooses the one resource and the one context it can be for.
    The messages come from hyper, a TLS identity from its provider, addresses from the
    resolver: they are the environment. *)
From S2P Require Import Prelude Protocol Ids Address Catalog Profile Endpoint Config.
From S2P Require Import Observe Flow Operation Injection TcpState Session Vault.

(** ** Messages *)

Inductive HttpVersion := Http09 | Http10 | Http11 | Http2 | Http3.
#[export] Instance HttpVersion_eq_dec : EqDecision HttpVersion.
Proof. solve_decision. Defined.

(** The target of a request as the [http] crate has parsed it. *)
Record RequestUri := mkRequestUri {
  r_scheme : option string; r_authority : option string; r_path : string; r_query : option string;
  r_path_and_query : option string }.

(** An incoming request without its body; the headers in the order of the map under
    their canonical names, one entry for each value. *)
Record Incoming := mkIncoming {
  in_version : HttpVersion; in_method : string; in_uri : RequestUri; in_headers : list (string * list byte) }.

(** [headers.get(name)], [headers.contains_key(name)]. *)
Definition get_first (name : string) (hs : list (string * list byte)) : option (list byte) := head (get_all name hs).
Definition has_header (name : string) (hs : list (string * list byte)) : bool :=
  bool_decide (is_Some (get_first name hs)).
(** [headers.get(name).is_some_and(|value| ...)]. *)
Definition header_is (name : string) (f : list byte -> bool) (hs : list (string * list byte)) : bool :=
  match get_first name hs with Some value => f value | None => false end.
Definition other_than (values : list string) (value : list byte) : bool :=
  negb (bool_decide (value ∈ map as_bytes values)).

(** `aap-types/src/proxy.rs:83-93`, `ForwardRequest` *)
Record ForwardRequest := mkForward {
  f_request_id : string;
  f_auth_context : option string;
  f_method : string;
  f_target : string;
  f_headers : list (string * string);
  f_body_base64 : string }.

(** `aap-http/src/proxy.rs:125-152`, `header_bounds` *)
Definition header_bounds (r : Incoming) : Result unit :=
  let hs := in_headers r in
  if negb (bool_decide (in_version r = Http11))
     || (64 <? len hs)
     || (64 * 1024 <? foldr Z.add 0 (map (fun h => slen h.1 + len h.2) hs))
     || existsb (fun h => negb (len (get_all h.1 hs) =? 1)) hs
     || negb (len (get_all "host" hs) =? 1)
     || existsb (fun name => header_is name (other_than ["close"; "keep-alive"]) hs) ["connection"; "proxy-connection"]
     || (has_header "content-length" hs && has_header "transfer-encoding" hs)
     || header_is "transfer-encoding" (other_than ["chunked"]) hs
  then fail RequestInvalid else Ok tt.

Definition connect_names : list string := ["host"; "user-agent"; "connection"; "proxy-connection"; "content-length"].
Definition refused_names : list string := ["authorization"; "cookie"; "upgrade"; "expect"; "trailer"; "te"].
Definition local_names : list string :=
  ["host"; "content-length"; "transfer-encoding"; "connection"; "proxy-connection"; "proxy-auth-context"].

(** A name that no request inside a tunnel may have. *)
Definition refused_name (name : string) : bool :=
  bool_decide (name ∈ refused_names) || str_starts_with name "x-aap-"
  || (str_starts_with name "proxy-" && negb (bool_decide (name ∈ ["proxy-auth-context"; "proxy-connection"]))).

Section Ingress.
Context `{Base64} `{HttpMessage}.

(** [value.to_str()] as a [String]. *)
Definition header_text (value : list byte) : Result string :=
  from_bytes <$> ok_or (to_str value) (Error_new RequestInvalid).
(** [request.headers()["host"]]: [header_bounds] has found exactly one. *)
Definition host_text (r : Incoming) : Result string := header_text (default [] (get_first "host" (in_headers r))).

(** `aap-http/src/proxy.rs:153-191`, `connect_authority` *)
Definition connect_authority (r : Incoming) : Result ConnectAuthority :=
  _ ← header_bounds r;
  if negb (bool_decide (in_method r = "CONNECT"))
     || bool_decide (is_Some (r_scheme (in_uri r)))
     || bool_decide (is_Some (r_path_and_query (in_uri r)))
     || existsb (fun h => negb (bool_decide (h.1 ∈ connect_names))) (in_headers r)
     || header_is "content-length" (other_than ["0"]) (in_headers r)
  then fail RequestInvalid
  else
    text ← ok_or (r_authority (in_uri r)) (Error_new RequestInvalid);
    authority ← ConnectAuthority_parse text;
    text ← host_text r;
    host ← ConnectAuthority_parse text;
    if bool_decide (authority_text authority = authority_text host) then Ok authority else fail PolicyDenied.

(** `aap-http/src/proxy.rs:219-223`, `forward_request` (the host with its port) *)
Definition with_port (host : string) : string :=
  if ends_with_char host "]" || negb (contains_char host ":") then host +:+ ":443" else host.

(** `aap-http/src/proxy.rs:243-264`, `forward_request` (the headers that go on) *)
Fixpoint forward_headers (hs : list (string * list byte)) : Result (list (string * string)) :=
  match hs with
  | [] => Ok []
  | (name, value) :: hs =>
      if bool_decide (name ∈ local_names) then forward_headers hs
      else text ← header_text value; rest ← forward_headers hs; Ok ((name, text) :: rest)
  end.

(** `aap-http/src/proxy.rs:192-282`, `forward_request`; [random] is the fresh identifier *)
Definition forward_request (r : Incoming) (body : list byte) (a : ConnectAuthority) (random : option string)
    : Result ForwardRequest :=
  _ ← header_bounds r;
  let uri := in_uri r in
  if bool_decide (in_method r = "CONNECT")
     || bool_decide (is_Some (r_scheme uri))
     || bool_decide (is_Some (r_authority uri))
     || negb (str_starts_with (r_path uri) "/")
     || str_starts_with (r_path uri) "//"
     || existsb (fun h => refused_name h.1) (in_headers r)
  then fail RequestInvalid
  else
    host ← host_text r;
    host ← ConnectAuthority_parse (with_port host);
    if negb (bool_decide (authority_text host = authority_text a)) then fail PolicyDenied
    else
      context ← match get_first "proxy-auth-context" (in_headers r) with
                | Some value => Some <$> header_text value
                | None => Ok None
                end;
      if match context with Some c => negb (valid_id c 32) | None => false end then fail RequestInvalid
      else
        headers ← forward_headers (in_headers r);
        if 1024 * 1024 <? len body then fail LimitExceeded
        else
          id ← ok_or random (Error_new InternalError);
          path ← ok_or (r_path_and_query uri) (Error_new RequestInvalid);
          Ok (mkForward id context (in_method r) (connect_origin a +:+ path) headers (from_bytes (encode STANDARD body))).

(** What reading a body within its time and its limit comes to. *)
Inductive BodyRead := BodyLate | BodyRefused | BodyWhole (bytes : list byte) (trailers : bool).

(** `aap-http/src/proxy.rs:96-115`, `serve_tunnel` (a request): what is handed to the
    session; [lease] is what revalidating the identity answers *)
Definition tunneled (a : ConnectAuthority) (r : Incoming) (random : option string) (body : BodyRead)
    (lease : Result unit) : Result ForwardRequest :=
  forward ← forward_request r [] a random;
  match body with
  | BodyLate => fail RequestInvalid
  | BodyRefused => fail LimitExceeded
  | BodyWhole bytes true => fail RequestInvalid
  | BodyWhole bytes false =>
      _ ← lease;
      Ok (mkForward (f_request_id forward) (f_auth_context forward) (f_method forward) (f_target forward)
            (f_headers forward) (from_bytes (encode STANDARD bytes)))
  end.

(** ** CONNECT *)

(** `aap-http/src/proxy.rs:20-25`, `Tunnel`: the authority, and the name its identity
    was issued for *)
Record Tunnel := mkTunnel { t_authority : ConnectAuthority; t_identity : ConnectAuthority }.

(** How the session and the provider answer while a CONNECT is admitted; [None] is the
    end of the time that issuing may take. *)
Record Admitting := mkAdmitting {
  admitted_first : string -> Result unit;
  issued : ConnectAuthority -> option (Result unit);
  leased : Result unit;
  admitted_again : string -> Result unit }.

(** `aap-http/src/proxy.rs:26-61`, `admit`; [pending] is the tunnel the connection
    already has *)
Definition admit_tunnel (r : Incoming) (e : Admitting) (pending : option Tunnel) : option Tunnel * Result unit :=
  match
    authority ← connect_authority r;
    _ ← admitted_first e (authority_text authority);
    name ← ConnectAuthority_parse (authority_text authority);
    _ ← match issued e name with Some answer => answer | None => fail InspectionUnavailable end;
    _ ← leased e;
    _ ← admitted_again e (authority_text authority);
    Ok (mkTunnel authority name)
  with
  | Err error => (pending, Err error)
  | Ok tunnel =>
      match pending with
      | Some _ => (pending, fail RequestConflict)
      | None => (Some tunnel, Ok tt)
      end
  end.
End Ingress.

(** ** The engine *)

(** [iter.next()] and then no second one. *)
Definition only {A} (l : list A) : option A := match l with [x] => Some x | _ => None end.

(** How the wait for the resolver ends. *)
Inductive Resolved := SessionEnded | ResolveLate | ResolvedTo (answer : Result (list SocketAddr)).

(** What a session finds while it admits an authority: its authority at both checks,
    whether a permit is free, and the resolver. *)
Record AdmitEnv := mkAdmitEnv {
  ae_before : Authority; ae_permit : bool; ae_resolve : string -> Z -> Resolved; ae_after : Authority }.

Section Engine.
Context `{Base64} `{Urls} {F : Type} `{Observer F}.
Context (iterate : list string -> list string) (Flow_of : FlowContext -> bool -> Result F).
Abbreviation Ht := (Host F).
Abbreviation Cr := (Core F).

(** `aap-engine/src/proxy.rs:11-17`, `Session::admit_connect_inner` (the profiles) *)
Definition granted_origin (cfg : Configuration) (o : SessionOptions) (origin : string) : list ResourceProfile :=
  List.filter (fun p => bool_decide (profile_origin p = origin) && bool_decide (profile_id p ∈ o_resources o)) (profiles cfg).

(** `aap-engine/src/proxy.rs:33-45`, `Session::admit_connect_inner` (the addresses) *)
Definition addresses_admitted (ps : list ResourceProfile) (port : Z) (found : list SocketAddr) : bool :=
  negb (bool_decide (found = [])) && (len found <=? 64)
  && negb (existsb (fun a => negb (a.2 =? port)) found)
  && existsb (fun p => permits_all (addresses p) (map fst found)) ps.

(** `aap-engine/src/proxy.rs:52-66`, `Session::admit_connect_inner` (its record) *)
Definition connect_emission (a : ConnectAuthority) : Emission :=
  mkEmission Outbound Agent MetadataOnly Complete (ConnectAdmission (authority_text a)).

(** `aap-engine/src/proxy.rs:6-67`, `Session::admit_connect_inner`; the first component is
    the flow after it recorded *)
Definition admit_connect_inner (h : Ht) (c : Cr) (e : AdmitEnv) (text : string) : option F * Result unit :=
  let cfg := host_configuration h in
  match
    _ ← Session_check (ae_before e);
    authority ← ConnectAuthority_parse text;
    let ps := granted_origin cfg (core_options c) (connect_origin authority) in
    if bool_decide (ps = []) then fail PolicyDenied
    else
      _ ← permit (ae_permit e);
      found ← match ae_resolve e (connect_host authority) (connect_port authority) with
              | SessionEnded => fail SessionInvalid
              | ResolveLate => fail UpstreamUnavailable
              | ResolvedTo answer => answer
              end;
      _ ← Session_check (ae_after e);
      if negb (addresses_admitted ps (connect_port authority) found) then fail PolicyDenied
      else
        flow ← Flow_of (mkContext (core_id c) None None (configuration_revision (catalog cfg)) Tls)
                 (o_require_observation (core_options c));
        Ok (flow, authority)
  with
  | Err error => (None, Err error)
  | Ok (flow, authority) => let (flow, r) := offer flow [connect_emission authority] in (Some flow, r)
  end.

(** `aap-engine/src/proxy.rs:81-91`, `Session::forward_inner` (the profile) *)
Definition forward_profile (cfg : Configuration) (o : SessionOptions) (explicit : option Binding) (r : ForwardRequest)
    (t : Target) : Result ResourceProfile :=
  ok_or (only (List.filter (fun p =>
      bool_decide (profile_id p ∈ o_resources o)
      && match explicit with Some b => bool_decide (item_profile (b_item b) = profile_id p) | None => true end
      && is_ok (authorize p (f_method r) t 0)) (profiles cfg))) (Error_new PolicyDenied).

(** `aap-engine/src/proxy.rs:96-108`, `Session::forward_inner` (the account) *)
Definition forward_item (cfg : Configuration) (o : SessionOptions) (p : ResourceProfile) : Result Item :=
  ok_or (only (List.filter (fun i =>
      bool_decide (item_profile i = profile_id p)
      && match o_items o with Some ids => bool_decide (item_id i ∈ ids) | None => true end)
    (items (catalog cfg)))) (Error_new PolicyDenied).

(** `aap-engine/src/proxy.rs:109-118`, `Session::forward_inner` (its contexts), in the
    order in which the map has them *)
Definition item_contexts (c : Cr) (i : Item) : list string :=
  iterate (fst <$> map_to_list (filter (fun e => item_id (b_item e.2) = item_id i) (v_contexts (core_vault c)))).

(** `aap-engine/src/proxy.rs:119-130`, `Session::forward_inner` (the one that is usable) *)
Fixpoint usable_context (h : Ht) (c : Cr) (ids : list string) (context : option string) : Cr * Result (option string) :=
  match ids with
  | [] => (c, Ok context)
  | id :: ids =>
      match check_context h c id with
      | (c, Ok _) =>
          match context with
          | Some _ => (c, fail PolicyDenied)
          | None => usable_context h c ids (b_id <$> v_contexts (core_vault c) !! id)
          end
      | (c, Err e) => if bool_decide (code e = PlaceholderInvalid) then usable_context h c ids context else (c, Err e)
      end
  end.

Definition is_form (a : Authentication) : bool := match a with FormAuth _ => true | _ => false end.

(** `aap-engine/src/proxy.rs:92-134`, `Session::forward_inner` (the context) *)
Definition forward_context (h : Ht) (c : Cr) (r : ForwardRequest) (p : ResourceProfile) : Cr * Result (option string) :=
  if bool_decide (f_auth_context r = None) && is_form (auth p) then
    match forward_item (host_configuration h) (core_options c) p with
    | Err e => (c, Err e)
    | Ok i =>
        match usable_context h c (item_contexts c i) None with
        | (c, Err e) => (c, Err e)
        | (c, Ok None) => (c, fail PolicyDenied)
        | (c, Ok (Some id)) => (c, Ok (Some id))
        end
    end
  else (c, Ok (f_auth_context r)).

(** `aap-engine/src/proxy.rs:73-80`, `Session::forward_inner` (the context it names) *)
Definition explicit_context (h : Ht) (c : Cr) (r : ForwardRequest) : Cr * Result (option Binding) :=
  match f_auth_context r with
  | None => (c, Ok None)
  | Some id =>
      match find_binding h c id with
      | Err e => (c, Err e)
      | Ok b =>
          match check_context h c id with
          | (c, Err e) => (c, Err e)
          | (c, Ok _) => (c, Ok (Some b))
          end
      end
  end.

(** `aap-engine/src/proxy.rs:69-145`, `Session::forward_inner`: the request it executes *)
Definition forward_inner (h : Ht) (c : Cr) (r : ForwardRequest) : Cr * Result ExecuteRequest :=
  match _ ← core_check h c; Target_parse (f_target r) with
  | Err e => (c, Err e)
  | Ok t =>
      match explicit_context h c r with
      | (c, Err e) => (c, Err e)
      | (c, Ok explicit) =>
          match forward_profile (host_configuration h) (core_options c) explicit r t with
          | Err e => (c, Err e)
          | Ok p =>
              match forward_context h c r p with
              | (c, Err e) => (c, Err e)
              | (c, Ok context) =>
                  (c, Ok (mkExecuteRequest (f_request_id r) (profile_id p) context (f_method r) (f_target r)
                            (f_headers r) (f_body_base64 r)))
              end
          end
      end
  end.
End Engine.

(** ** Headers *)

Lemma get_all_cons name h hs :
  get_all name (h :: hs) = (if bool_decide (h.1 = name) then [h.2] else []) ++ get_all name hs.
Proof. unfold get_all. cbn. by case_bool_decide. Qed.

Lemma get_all_elem name hs v : v ∈ get_all name hs <-> (name, v) ∈ hs.
Proof.
  induction hs as [|[n w] hs IH]; [set_solver|]. rewrite get_all_cons, elem_of_app, IH, elem_of_cons. cbn.
  case_bool_decide; set_solver.
Qed.

Lemma get_all_once hs : Forall (fun h => len (get_all h.1 hs) = 1) hs -> NoDup (map fst hs).
Proof.
  induction hs as [|[n v] hs IH]; cbn [map]; [constructor|]. intros Hf.
  assert (forall h, h ∈ hs -> h.1 <> n /\ len (get_all h.1 hs) = 1) as Hrest.
  { intros [m w] Hin. rewrite Forall_forall in Hf. pose proof (Hf (m, w) ltac:(by right)) as Hl. cbn [fst] in Hl |- *.
    rewrite get_all_cons, len_app in Hl. cbn [fst snd] in Hl. apply get_all_elem in Hin.
    assert (1 <= len (get_all m hs)) by (destruct (get_all m hs) as [|x l]; [by apply elem_of_nil in Hin|rewrite len_cons; pose proof (len_nonneg l); lia]).
    case_bool_decide; [rewrite len_cons, len_nil in Hl; lia|]. rewrite len_nil in Hl. split; [congruence|lia]. }
  constructor.
  - cbn. rewrite list_elem_of_fmap. intros ([m w] & -> & Hin). by destruct (Hrest _ Hin) as [? _].
  - apply IH, Forall_forall. intros h Hin. by apply Hrest.
Qed.

(** What [header_bounds] establishes. *)
Lemma header_bounds_ok r : header_bounds r = Ok tt ->
  in_version r = Http11 /\ len (in_headers r) <= 64 /\ NoDup (map fst (in_headers r))
  /\ exists v, get_all "host" (in_headers r) = [v].
Proof.
  unfold header_bounds. intros Hb. ok_inv Hb. bool_hyps. split_and!; try done.
  - apply get_all_once. match goal with E : existsb _ (in_headers r) = false |- _ => apply existsb_false in E; rename E into Hone end.
    eapply Forall_impl; [exact Hone|]. intros h Hh. cbn in Hh. by bool_hyps.
  - destruct (get_all "host" (in_headers r)) as [|v [|w l]] eqn:E; [done|by exists v|].
    match goal with Hl : len _ = 1 |- _ => rewrite !len_cons in Hl end. pose proof (len_nonneg l). lia.
Qed.

Section IngressFacts.
Context `{Base64, !Base64Laws} `{HttpMessage}.

Lemma header_text_ok v t : header_text v = Ok t -> to_str v = Some (as_bytes t).
Proof. unfold header_text, ok_or. destruct (to_str v) as [l|]; [|done]. cbn. intros [= <-]. by rewrite as_from_bytes. Qed.

(** The headers that go on are those that are not of the connection, in order. *)
Lemma forward_headers_ok hs l : forward_headers hs = Ok l ->
  Forall2 (fun h t => t.1 = h.1 /\ to_str h.2 = Some (as_bytes t.2))
    (List.filter (fun h => negb (bool_decide (h.1 ∈ local_names))) hs) l.
Proof.
  revert l. induction hs as [|[n v] hs IH]; intros l Hl; cbn in Hl |- *; [by injection Hl as <-|].
  case_bool_decide; cbn; [by apply IH|]. apply bind_Ok in Hl as (text & Ht & Hl). apply bind_Ok in Hl as (rest & Hr & [= <-]).
  constructor; [|by apply IH]. split; [done|]. by apply header_text_ok.
Qed.

(** What a request is once it is forwarded: [v] is its Host header. *)
Record forwarded (a : ConnectAuthority) (r : Incoming) (fr : ForwardRequest) : Prop := {
  fw_version : in_version r = Http11;
  fw_method : f_method fr = in_method r /\ in_method r <> "CONNECT";
  fw_target : exists rest, r_path_and_query (in_uri r) = Some rest /\ f_target fr = connect_origin a +:+ rest;
  fw_origin_form : r_scheme (in_uri r) = None /\ r_authority (in_uri r) = None
    /\ str_starts_with (r_path (in_uri r)) "/" = true /\ str_starts_with (r_path (in_uri r)) "//" = false;
  fw_host : exists v text host, get_all "host" (in_headers r) = [v] /\ to_str v = Some (as_bytes text)
    /\ ConnectAuthority_parse (with_port text) = Ok host /\ authority_text host = authority_text a;
  fw_names : NoDup (map fst (in_headers r)) /\ Forall (fun h => refused_name h.1 = false) (in_headers r);
  fw_headers : Forall2 (fun h t => t.1 = h.1 /\ to_str h.2 = Some (as_bytes t.2))
    (List.filter (fun h => negb (bool_decide (h.1 ∈ local_names))) (in_headers r)) (f_headers fr);
  fw_context : match f_auth_context fr with
    | Some id => valid_id id 32 = true /\ exists v, get_all "proxy-auth-context" (in_headers r) = [v]
                 /\ to_str v = Some (as_bytes id)
    | None => get_all "proxy-auth-context" (in_headers r) = []
    end }.

(** A name occurs at most once. *)
Lemma once name hs v l : NoDup (map fst hs) -> get_all name hs = v :: l -> l = [].
Proof.
  revert v l. induction hs as [|[n w] hs IH]; intros v l Hn Hg; [done|]. cbn [map fst] in Hn. apply NoDup_cons in Hn as [Hnin Hn].
  rewrite get_all_cons in Hg. cbn in Hg. case_bool_decide; cbn in Hg; [|by eapply IH].
  injection Hg as -> <-. subst n. destruct (get_all name hs) as [|x l'] eqn:E; [done|]. exfalso. apply Hnin.
  assert ((name, x) ∈ hs) as Hin by (apply get_all_elem; rewrite E; left). apply list_elem_of_fmap. by exists (name, x).
Qed.

Lemma forward_request_ok r body a random fr : forward_request r body a random = Ok fr -> forwarded a r fr.
Proof.
  unfold forward_request. intros Hf. apply bind_Ok in Hf as ([] & Hb & Hf). apply header_bounds_ok in Hb as (Hv & _ & Hnd & (v & Hhost)).
  destruct (_ || _) eqn:Hcond in Hf; [done|]. apply bind_Ok in Hf as (text & Htext & Hf). apply bind_Ok in Hf as (host & Hparse & Hf).
  destruct (negb _) eqn:Heq in Hf; [done|]. apply bind_Ok in Hf as (context & Hctx & Hf).
  destruct (match context with Some _ => _ | None => _ end) eqn:Hid in Hf; [done|].
  apply bind_Ok in Hf as (headers & Hh & Hf). destruct (_ <? _); [done|]. apply bind_Ok in Hf as (id & _ & Hf).
  apply bind_Ok in Hf as (rest & Hrest & [= <-]). apply ok_or_Ok in Hrest. bool_hyps.
  constructor; cbn; try done.
  - by exists rest.
  - split_and!; try done; by apply eq_None_not_Some.
  - unfold host_text, get_first in Htext. rewrite Hhost in Htext. cbn in Htext. apply header_text_ok in Htext. by exists v, text, host.
  - split; [done|]. by apply existsb_false.
  - by apply forward_headers_ok.
  - unfold get_first in Hctx. destruct (get_all "proxy-auth-context" (in_headers r)) as [|w l] eqn:E; cbn in Hctx.
    + by injection Hctx as <-.
    + rewrite (once _ _ _ _ Hnd E) in *. destruct (header_text w) as [t|] eqn:Ht; [|done]. injection Hctx as <-. cbn in Hid.
      apply negb_false_iff in Hid. split; [done|]. exists w. split; [done|]. by apply header_text_ok.
Qed.

Lemma tunneled_ok a r random body lease fr : tunneled a r random body lease = Ok fr ->
  forwarded a r fr /\ lease = Ok tt /\ exists bytes, body = BodyWhole bytes false /\ decode STANDARD (as_bytes (f_body_base64 fr)) = Some bytes.
Proof.
  unfold tunneled. intros Ht. apply bind_Ok in Ht as (f & Hf & Ht). destruct body as [| |bytes [|]]; try done.
  apply bind_Ok in Ht as ([] & Hl & [= <-]). apply forward_request_ok in Hf as [? ? ? ? ? ? ? ?]. split; [by constructor|].
  split; [done|]. exists bytes. split; [done|]. cbn. rewrite as_from_bytes. apply standard_round.
Qed.
End IngressFacts.

(** ** What an admitted CONNECT is *)

Section Connect.
Context `{Base64} `{HttpMessage} `{Urls} {F : Type} `{Observer F}.
Context (Flow_of : FlowContext -> bool -> Result F).

(** The authority of a CONNECT: its target and its only Host header name it, and it has
    no header beyond those of the connection. *)
Definition names_authority (r : Incoming) (a : ConnectAuthority) : Prop :=
  in_version r = Http11 /\ in_method r = "CONNECT" /\ r_scheme (in_uri r) = None /\ r_path_and_query (in_uri r) = None
  /\ Forall (fun h => h.1 ∈ connect_names) (in_headers r)
  /\ (exists text, r_authority (in_uri r) = Some text /\ ConnectAuthority_parse text = Ok a)
  /\ exists v text host, get_all "host" (in_headers r) = [v] /\ to_str v = Some (as_bytes text)
     /\ ConnectAuthority_parse text = Ok host /\ authority_text host = authority_text a.

Lemma connect_authority_ok r a : connect_authority r = Ok a -> names_authority r a.
Proof.
  unfold connect_authority. intros Hc. apply bind_Ok in Hc as ([] & Hb & Hc).
  apply header_bounds_ok in Hb as (Hv & _ & _ & (v & Hhost)). destruct (_ || _) eqn:Hcond in Hc; [done|].
  apply bind_Ok in Hc as (text & Ht & Hc). apply ok_or_Ok in Ht. apply bind_Ok in Hc as (a' & Ha & Hc).
  apply bind_Ok in Hc as (text' & Ht' & Hc). apply bind_Ok in Hc as (host & Hp & Hc). case_bool_decide; [|done].
  injection Hc as ->. bool_hyps. split_and!; try done; try by apply eq_None_not_Some.
  - match goal with E : existsb _ (in_headers r) = false |- _ => apply existsb_false in E; rename E into Hn end.
    eapply Forall_impl; [exact Hn|]. intros h Hh. cbn in Hh. by bool_hyps.
  - by exists text.
  - unfold host_text, get_first in Ht'. rewrite Hhost in Ht'. apply header_text_ok in Ht'. by exists v, text', host.
Qed.

(** What the engine has found when it admits an authority. *)
Record authority_admitted (h : Host F) (c : Core F) (e : AdmitEnv) (a : ConnectAuthority) : Prop := {
  aa_live : Session_check (ae_before e) = Ok tt /\ Session_check (ae_after e) = Ok tt;
  aa_permit : ae_permit e = true;
  aa_addresses : exists p found, p ∈ profiles (host_configuration h)
    /\ profile_origin p = connect_origin a /\ profile_id p ∈ o_resources (core_options c)
    /\ ae_resolve e (connect_host a) (connect_port a) = ResolvedTo (Ok found)
    /\ found <> [] /\ len found <= 64 /\ Forall (fun x => x.2 = connect_port a) found
    /\ permits_all (addresses p) (map fst found) = true;
  aa_evidence : exists f f', Flow_of (mkContext (core_id c) None None
      (configuration_revision (catalog (host_configuration h))) Tls) (o_require_observation (core_options c)) = Ok f
    /\ offer f [connect_emission a] = (f', Ok tt) }.

Lemma admit_connect_ok h c e text : (admit_connect_inner Flow_of h c e text).2 = Ok tt ->
  exists a, ConnectAuthority_parse text = Ok a /\ authority_admitted h c e a.
Proof.
  unfold admit_connect_inner. destruct (Session_check (ae_before e)) as [[]|] eqn:Hb; [|done].
  destruct (ConnectAuthority_parse text) as [a|]; [|done]. intros Hc. exists a. split; [done|]. revert Hc.
  cbn [mbind result_bind]. destruct (bool_decide _); [done|]. destruct (ae_permit e) eqn:Hp; [|done].
  destruct (ae_resolve e _ _) as [| |[found|]] eqn:Hr; cbn [permit mbind result_bind fail]; try done.
  destruct (Session_check (ae_after e)) as [[]|] eqn:Ha; cbn [mbind result_bind]; [|done].
  destruct (negb _) eqn:Hadm; [done|]. apply negb_false_iff in Hadm.
  destruct (Flow_of _ _) as [f|] eqn:Hf; [|done]. cbn. destruct (offer f _) as [f' r] eqn:Ho. cbn. intros ->.
  unfold addresses_admitted in Hadm. bool_hyps. constructor; try done; [|by exists f, f'].
  match goal with E : existsb (fun p => permits_all _ _) _ = true |- _ => apply existsb_exists in E as (p & Hin & Hper) end.
  apply filter_In in Hin as [Hin Hq]. bool_hyps. exists p, found. split_and!; try done; [by apply list_elem_of_In|].
  match goal with E : existsb _ found = false |- _ => apply existsb_false in E; rename E into Hports end.
  eapply Forall_impl; [exact Hports|]. intros x Hx. cbn in Hx. by bool_hyps.
Qed.

(** C21: a tunnel is opened only for an authority the session admits. When CONNECT is
    answered with success, the target and the single Host header of the request name the
    same authority, no tunnel was pending, and both before the TLS identity is issued and
    after its lease is revalidated the engine has found the session live, a granted
    profile with exactly that origin, and every address the name resolves to permitted by
    its policy, and has recorded the admission. *)
Theorem connect_admitted r e pending pending' h1 c1 e1 h2 c2 e2 :
  admit_tunnel r e pending = (pending', Ok tt) ->
  admitted_first e = (fun text => (admit_connect_inner Flow_of h1 c1 e1 text).2) ->
  admitted_again e = (fun text => (admit_connect_inner Flow_of h2 c2 e2 text).2) ->
  exists a name, pending = None /\ pending' = Some (mkTunnel a name) /\ names_authority r a
    /\ ConnectAuthority_parse (authority_text a) = Ok name
    /\ authority_admitted h1 c1 e1 name /\ issued e name = Some (Ok tt) /\ leased e = Ok tt
    /\ authority_admitted h2 c2 e2 name.
Proof.
  intros Ha H1' H2'. unfold admit_tunnel in Ha. destruct (connect_authority r) as [a|] eqn:Hc; [|done].
  cbn [mbind result_bind] in Ha. rewrite H1', H2' in Ha.
  destruct (admit_connect_inner Flow_of h1 c1 e1 _).2 as [[]|] eqn:E1; [|done]. cbn [mbind result_bind] in Ha.
  apply admit_connect_ok in E1 as (a1 & Hp1 & Ha1).
  rewrite Hp1 in Ha. cbn [mbind result_bind] in Ha. destruct (issued e a1) as [[[]|]|] eqn:Hi; cbn [mbind result_bind fail] in Ha; try done.
  destruct (leased e) as [[]|] eqn:Hl; cbn [mbind result_bind] in Ha; [|done].
  destruct (admit_connect_inner Flow_of h2 c2 e2 _).2 as [[]|] eqn:E2; [|done]. cbn [mbind result_bind] in Ha.
  apply admit_connect_ok in E2 as (a2 & Hp2 & Ha2). rewrite Hp1 in Hp2. injection Hp2 as <-.
  destruct pending; [done|]. injection Ha as <-. exists a, a1. split_and!; try done. by apply connect_authority_ok.
Qed.
End Connect.

(** ** What the engine executes *)

Lemma only_Some {A} (l : list A) x : only l = Some x <-> l = [x].
Proof. destruct l as [|y [|]]; cbn; naive_solver. Qed.

Section Selection.
Context `{Base64} `{Urls} {F : Type} (iterate : list string -> list string).
Abbreviation Cr := (Core F).
Abbreviation Ht := (Host F).

(** A context that is usable now. *)
Definition usable (h : Ht) (c : Cr) (id : string) : bool :=
  match v_contexts (core_vault c) !! id with Some b => is_ok (Binding_check b (host_now h)).2 | None => false end.

(** The contexts of [c'] are those of [c], some of them checked. *)
Definition checked (h : Ht) (c c' : Cr) : Prop :=
  exists m, c' = with_contexts c m
  /\ forall id, m !! id = v_contexts (core_vault c) !! id
                \/ m !! id = (fun b => (Binding_check b (host_now h)).1) <$> v_contexts (core_vault c) !! id.

Lemma with_contexts_id (c : Cr) : with_contexts c (v_contexts (core_vault c)) = c.
Proof. by destruct c as [? ? ? ? ? ? [? ?] ? ?]. Qed.
Lemma checked_refl h c : checked h c c.
Proof. exists (v_contexts (core_vault c)). split; [by rewrite with_contexts_id|]. by left. Qed.

Lemma Binding_check_twice b now : Binding_check (Binding_check b now).1 now = Binding_check b now.
Proof.
  unfold Binding_check. destruct ((b_expires b <=? now) && _) eqn:E; cbn [fst].
  - apply andb_true_iff in E as [E1 _]. cbn. by rewrite E1, bool_decide_eq_false_2.
  - by rewrite E.
Qed.
Lemma Binding_check_id b now : b_id (Binding_check b now).1 = b_id b.
Proof. unfold Binding_check. by destruct (_ && _). Qed.

Lemma checked_trans h c c' c'' : checked h c c' -> checked h c' c'' -> checked h c c''.
Proof.
  intros (m & -> & Hm) (k & -> & Hk). exists k. split; [by destruct c|]. intros id.
  change (v_contexts (core_vault (with_contexts c m))) with m in Hk.
  destruct (Hm id) as [E1|E1], (Hk id) as [E2|E2]; rewrite E1 in E2; auto.
  right. rewrite E2. destruct (v_contexts (core_vault c) !! id); cbn [fmap option_fmap option_map]; [|done].
  by rewrite Binding_check_twice.
Qed.

Lemma check_context_checked h c id : checked h c (check_context h c id).1.
Proof.
  unfold check_context. destruct (v_contexts (core_vault c) !! id) as [b|] eqn:E; [|apply checked_refl].
  destruct (Binding_check b _) as [b' r] eqn:Hb. eexists. split; [done|]. intros j.
  destruct (decide (j = id)) as [->|]; [right; rewrite lookup_insert_eq, E; cbn [fmap option_fmap option_map]; by rewrite Hb|].
  left. by rewrite lookup_insert_ne.
Qed.

(** Checking changes neither which contexts are usable nor what they are called. *)
Lemma usable_checked h c c' id : checked h c c' -> usable h c' id = usable h c id.
Proof.
  intros (m & -> & Hm). unfold usable.
  change (v_contexts (core_vault (with_contexts c m))) with m. destruct (Hm id) as [->| ->]; [done|].
  destruct (v_contexts (core_vault c) !! id); cbn [fmap option_fmap option_map]; [|done]. by rewrite Binding_check_twice.
Qed.
Lemma id_checked h c c' id : checked h c c' ->
  b_id <$> v_contexts (core_vault c') !! id = b_id <$> v_contexts (core_vault c) !! id.
Proof.
  intros (m & -> & Hm). change (v_contexts (core_vault (with_contexts c m))) with m. destruct (Hm id) as [->| ->]; [done|].
  destruct (v_contexts (core_vault c) !! id); cbn [fmap option_fmap option_map]; [|done]. by rewrite Binding_check_id.
Qed.

Lemma check_context_spec h c id b : v_contexts (core_vault c) !! id = Some b ->
  (check_context h c id).2 = (if usable h c id then Ok tt else fail PlaceholderInvalid).
Proof.
  intros E. unfold check_context, usable. rewrite E. unfold Binding_check.
  destruct (_ && _); cbn; [done|]. by destruct (b_cancelled b).
Qed.

(** Whatever the order: nothing usable, one usable context, or a refusal. *)
Lemma usable_context_spec h ids : forall c context, Forall (fun id => is_Some (v_contexts (core_vault c) !! id)) ids ->
  checked h c (usable_context h c ids context).1
  /\ (usable_context h c ids context).2 =
     match context, List.filter (usable h c) ids with
     | _, [] => Ok context
     | None, [id] => Ok (b_id <$> v_contexts (core_vault c) !! id)
     | _, _ => fail PolicyDenied
     end.
Proof.
  induction ids as [|id ids IH]; intros c context Hf; cbn; [split; [apply checked_refl|by destruct context]|].
  apply Forall_cons in Hf as [[b Hb] Hf]. pose proof (check_context_spec h c id b Hb) as Hr.
  pose proof (check_context_checked h c id) as Hc. destruct (check_context h c id) as [c1 r]. cbn [fst snd] in Hr, Hc. subst r.
  assert (Forall (fun id => is_Some (v_contexts (core_vault c1) !! id)) ids) as Hf1.
  { eapply Forall_impl; [exact Hf|]. intros j Hj. apply (fmap_is_Some b_id). rewrite (id_checked _ _ _ _ Hc). by apply fmap_is_Some. }
  assert (List.filter (usable h c1) ids = List.filter (usable h c) ids) as Hfil.
  { apply filter_ext. intros j. by apply usable_checked. }
  destruct (usable h c id) eqn:Hu.
  - destruct context as [x|]; [split; [done|]; by destruct (List.filter _ ids)|].
    destruct (IH c1 (b_id <$> v_contexts (core_vault c1) !! id) Hf1) as [H1 ->]. split; [by eapply checked_trans|].
    rewrite (id_checked _ _ _ _ Hc), Hfil, Hb. cbn. by destruct (List.filter _ ids).
  - change (@fail unit PlaceholderInvalid) with (@Err Error unit (Error_new PlaceholderInvalid)). cbv iota beta. rewrite !bool_decide_eq_true_2 by done. destruct (IH c1 context Hf1) as [H1 ->]. split; [by eapply checked_trans|].
    rewrite Hfil. destruct context; [done|]. destruct (List.filter (usable h c) ids) as [|j [|]]; [done| |done].
    by rewrite (id_checked _ _ _ _ Hc).
Qed.

(** Which contexts there are for an item, whatever the order of the map. *)
Definition contexts_of (c : Cr) (i : Item) (id : string) : Prop :=
  exists b, v_contexts (core_vault c) !! id = Some b /\ item_id (b_item b) = item_id i.

Lemma item_contexts_elem (c : Cr) i id : (forall l, iterate l ≡ₚ l) -> id ∈ item_contexts iterate c i <-> contexts_of c i id.
Proof.
  intros Hit. unfold item_contexts. rewrite Hit, list_elem_of_fmap. split.
  - intros ([j b] & -> & Hin). apply elem_of_map_to_list, map_lookup_filter_Some in Hin as [Hb Hi]. by exists b.
  - intros (b & Hb & Hi). exists (id, b). split; [done|]. apply elem_of_map_to_list, map_lookup_filter_Some. done.
Qed.

(** The profile a forwarded request is for: the only granted one, of the context if the
    request names one, that has a route for it. *)
Definition fits (cfg : Configuration) (o : SessionOptions) (explicit : option Binding) (r : ForwardRequest) (t : Target)
    (p : ResourceProfile) : Prop :=
  p ∈ profiles cfg /\ profile_id p ∈ o_resources o
  /\ (match explicit with Some b => item_profile (b_item b) = profile_id p | None => True end)
  /\ exists route, authorize p (f_method r) t 0 = Ok route.

Lemma forward_profile_ok cfg o explicit r t p : forward_profile cfg o explicit r t = Ok p ->
  fits cfg o explicit r t p /\ forall q, fits cfg o explicit r t q -> q = p.
Proof.
  unfold forward_profile. intros Hp%ok_or_Ok%only_Some.
  assert (forall q, fits cfg o explicit r t q <-> q = p) as Hq; [|by split; [apply Hq|intros q; apply Hq]].
  intros q. transitivity (q ∈ [p]); [|apply list_elem_of_singleton]. rewrite <-Hp, list_elem_of_In.
  rewrite filter_In, <-list_elem_of_In. unfold fits, is_ok. rewrite !andb_true_iff, bool_decide_eq_true. destruct explicit as [b|]; rewrite ?bool_decide_eq_true;
  destruct (authorize q _ t 0); naive_solver.
Qed.

Lemma forward_item_ok cfg o p i : forward_item cfg o p = Ok i ->
  forall j, (j ∈ items (catalog cfg) /\ item_profile j = profile_id p
             /\ match o_items o with Some ids => item_id j ∈ ids | None => True end) <-> j = i.
Proof.
  unfold forward_item. intros Hp%ok_or_Ok%only_Some j. transitivity (j ∈ [i]); [|apply list_elem_of_singleton].
  rewrite <-Hp, !list_elem_of_In, filter_In, andb_true_iff, bool_decide_eq_true.
  destruct (o_items o); rewrite ?bool_decide_eq_true; naive_solver.
Qed.

(** How the context of the executed request comes about. *)
Definition context_chosen (h : Ht) (c : Cr) (r : ForwardRequest) (p : ResourceProfile) (context : option string) : Prop :=
  match f_auth_context r with
  | Some id => context = Some id /\ usable h c id = true
  | None =>
      if is_form (auth p) then
        exists i id, (forall j, (j ∈ items (catalog (host_configuration h)) /\ item_profile j = profile_id p
            /\ match o_items (core_options c) with Some ids => item_id j ∈ ids | None => True end) <-> j = i)
          /\ (forall k, contexts_of c i k /\ usable h c k = true <-> k = id)
          /\ context = b_id <$> v_contexts (core_vault c) !! id
      else context = None
  end.

Lemma usable_live (h : Ht) (c : Cr) id b : v_contexts (core_vault c) !! id = Some b -> (check_context h c id).2 = Ok tt -> usable h c id = true.
Proof. intros Hb Hc. rewrite (check_context_spec h c id b Hb) in Hc. by destruct (usable h c id). Qed.

Lemma forward_context_ok (h : Ht) (c : Cr) r p c' context : (forall l, iterate l ≡ₚ l) -> f_auth_context r = None ->
  forward_context iterate h c r p = (c', Ok context) -> checked h c c' /\ context_chosen h c r p context.
Proof.
  unfold forward_context, context_chosen. intros Hit -> Hf. rewrite bool_decide_eq_true_2 in Hf by done. cbn [andb] in Hf.
  destruct (is_form (auth p)); [|injection Hf as <- <-; split; [apply checked_refl|done]].
  destruct (forward_item _ _ p) as [i|] eqn:Hi; [|done].
  destruct (usable_context_spec h (item_contexts iterate c i) c None) as [Hc Hr].
  { apply Forall_forall. intros id Hid. apply item_contexts_elem in Hid as (b & Hb & _); [|done]. by exists b. }
  destruct (usable_context h c _ None) as [c1 res]. cbn [fst snd] in Hc, Hr.
  destruct (List.filter (usable h c) _) as [|id [|]] eqn:Hl; subst res; [done| |done].
  destruct (b_id <$> _) as [x|] eqn:Hx in Hf; [|done]. injection Hf as <- <-. split; [done|].
  exists i, id. split; [by apply forward_item_ok|]. split; [|done].
  intros k. rewrite <-(item_contexts_elem c i k Hit), list_elem_of_In. rewrite <-filter_In, Hl. cbn. naive_solver.
Qed.

(** What the engine executes for a forwarded request: the resource is the only one that
    fits, and the context the one the request names, or else, where the resource has
    logins, the only usable context of the only account of the grant, in whatever order
    the contexts are kept. Nothing else of the request changes, and of the session's
    contexts only what a check changes. *)
Lemma forward_unambiguous (h : Ht) (c : Cr) r c' x : (forall l, iterate l ≡ₚ l) -> forward_inner iterate h c r = (c', Ok x) ->
  core_check h c = Ok tt /\ checked h c c'
  /\ exists t p explicit context, Target_parse (f_target r) = Ok t
  /\ explicit = (id ← f_auth_context r; v_contexts (core_vault c) !! id)
  /\ fits (host_configuration h) (core_options c) explicit r t p
  /\ (forall q, fits (host_configuration h) (core_options c) explicit r t q -> q = p)
  /\ context_chosen h c r p context
  /\ x = mkExecuteRequest (f_request_id r) (profile_id p) context (f_method r) (f_target r) (f_headers r) (f_body_base64 r).
Proof.
  unfold forward_inner. intros Hit Hf. destruct (core_check h c) as [[]|] eqn:Hlive; [|done].
  cbn [mbind result_bind] in Hf. destruct (Target_parse (f_target r)) as [t|]; [|done].
  unfold explicit_context in Hf. destruct (f_auth_context r) as [id|] eqn:Hctx.
  - destruct (find_binding h c id) as [b|] eqn:Hb; [|done]. unfold find_binding in Hb. rewrite Hlive in Hb.
    cbn [mbind result_bind] in Hb. destruct (negb _); [done|]. apply ok_or_Ok in Hb.
    pose proof (check_context_checked h c id) as Hc. pose proof (usable_live h c id b Hb) as Hu.
    destruct (check_context h c id) as [c1 [[]|]]; [|done]. cbn [fst snd] in Hc, Hu.
    assert (core_options c1 = core_options c) as Ho by (by destruct Hc as (m & -> & _)). rewrite Ho in Hf.
    destruct (forward_profile _ _ _ r t) as [p|] eqn:Hp; [|done]. apply forward_profile_ok in Hp as [Hfit Hu'].
    unfold forward_context in Hf. rewrite Hctx, bool_decide_eq_false_2 in Hf by done. cbn [andb] in Hf. injection Hf as <- <-.
    split_and!; try done. exists t, p, (Some b), (Some id). unfold context_chosen. rewrite Hctx. split_and!; try done; auto.
  - destruct (forward_profile _ _ _ r t) as [p|] eqn:Hp; [|done]. apply forward_profile_ok in Hp as [Hfit Hu'].
    destruct (forward_context iterate h c r p) as [c1 [context|]] eqn:Hfc; [|done]. injection Hf as <- <-.
    apply forward_context_ok in Hfc as [Hc Hchosen]; [|done|done]. split_and!; try done.
    exists t, p, None, context. by split_and!.
Qed.
End Selection.

(** ** From the tunnel to the engine *)

Section Tunnels.
Context `{Base64, !Base64Laws} `{HttpMessage} `{Urls} {F : Type} (iterate : list string -> list string).

End Tunnels.
