(* ===== verification/Ingress.v ===== *)
(** * Local HTTP ingress ([aap-http/src/lib.rs], [ingress.rs], [stream/opening.rs])

    What a session's listener does before the engine is asked: it reads the head of a
    request within its bounds, tells streams and control apart from work, checks a local
    request or the opening of a stream to the letter, and only then calls the session.
    Bytes are parsed by [httparse], a class; the socket, the clock and the session
    answer through the environment. *)
From S2P Require Import Prelude Protocol Ids Json Stream Injection Cookies Forward.

(** A head as [httparse] has parsed it so far. *)
Record Head := mkHead {
  h_method : option string; h_path : option string; h_version : option Z; h_headers : list (string * list byte) }.

(** [httparse::Request::parse] with room for so many headers: the head, and its length
    once it is complete. *)
Class HttpParse := { parse_head : nat -> list byte -> option (Head * option Z) }.

(** `aap-types/src/stream.rs:14-15`, `PROTOCOL` and `OPEN_PATH` *)
Definition OPEN_PATH : string := "/aap/v1/stream/open".
Definition PROTOCOL : string := "aap-stream/1".

(** `aap-types/src/wire.rs:4-12`, `HOST` .. `ADMIT_CONNECT`: the host and the paths *)
Definition HOST : string := "aap.local".
Definition EXECUTE : string := "/aap/v1/request/execute".
Definition STATUS : string := "/aap/v1/request/status".
Definition CANCEL : string := "/aap/v1/request/cancel".
Definition SEARCH : string := "/aap/v1/vault/search_items".
Definition LOGIN : string := "/aap/v1/vault/get_login".
Definition AUTH_STATUS : string := "/aap/v1/vault/auth_status".
Definition LOGOUT : string := "/aap/v1/vault/logout".
Definition ADMIT_CONNECT : string := "/aap/v1/connect/admit".

(** ** The head of a request *)

(** `aap-http/src/ingress.rs:15-20`, `Prelude` *)
Record Prelude := mkPrelude { pl_bytes : list byte; pl_header_len : Z; pl_stream : bool; pl_control : bool }.

(** How [serve] goes on: with an error, as a stream or as HTTP, and whether it holds one
    of the permits of work. *)
Inductive Taken := Refused (e : Error) | AsStream (p : Prelude) (permit : bool) | AsHttp (p : Prelude) (permit : bool).

Section Heads.
Context `{HttpParse}.

(** `aap-http/src/ingress.rs:69-107`, `read_prelude`; each read answers with at most what
    it was asked for, [None] while it waits *)
Fixpoint read_prelude (reads : list (Result (list byte))) (bytes : list byte) : option (Result Prelude) :=
  match parse_head 64 bytes with
  | None => Some (fail RequestInvalid)
  | Some (head, complete) =>
      let is_stream := bool_decide (h_path head = Some OPEN_PATH) in
      let limit := if is_stream then 16 * 1024 else 64 * 1024 in
      match complete with
      | Some header_len =>
          Some (if limit <? header_len then fail LimitExceeded
                else Ok (mkPrelude bytes header_len is_stream
                       (bool_decide (h_method head = Some "POST") && bool_decide (h_version head = Some 1)
                        && match h_path head with Some p => bool_decide (p ∈ [STATUS; CANCEL]) | None => false end)))
      | None =>
          if limit <=? len bytes then Some (fail LimitExceeded)
          else
            match reads with
            | [] => None
            | Err _ :: _ => Some (fail RequestInvalid)
            | Ok chunk :: reads =>
                let chunk := take (Z.to_nat (Z.min 1024 (limit - len bytes))) chunk in
                if bool_decide (chunk = []) then Some (fail RequestInvalid) else read_prelude reads (bytes ++ chunk)
            end
      end
  end.
End Heads.

(** `aap-http/src/ingress.rs:33-66`, `serve`; [read] is the head, [None] when it is late,
    [in_time] whether it is there before the deadline, [permit] whether work has room *)
Definition take_request (read : option (Result Prelude)) (in_time permit : bool) : Taken :=
  match read with
  | Some (Err e) => Refused e
  | Some (Ok p) =>
      if negb in_time then Refused (Error_new RequestInvalid)
      else if negb (pl_control p) && negb permit then Refused (Error_new LimitExceeded)
      else if pl_stream p then AsStream p (negb (pl_control p)) else AsHttp p (negb (pl_control p))
  | None => Refused (Error_new RequestInvalid)
  end.

(** ** Requests of a session *)

Definition local_request_names : list string :=
  ["host"; "content-type"; "content-length"; "transfer-encoding"; "connection"; "accept"; "user-agent"].

(** `aap-http/src/lib.rs:172-218`, `validate_local_request` *)
Definition validate_local_request (r : Incoming) : Result unit :=
  let hs := in_headers r in
  if negb (bool_decide (in_method r = "POST"))
     || bool_decide (is_Some (r_scheme (in_uri r)))
     || bool_decide (is_Some (r_authority (in_uri r)))
     || bool_decide (is_Some (r_query (in_uri r)))
     || negb (bool_decide (get_all "host" hs = [as_bytes HOST]))
     || negb (bool_decide (get_all "content-type" hs = [as_bytes "application/json"]))
     || (64 <? len hs)
     || (64 * 1024 <? foldr Z.add 0 (map (fun h => slen h.1 + len h.2) hs))
     || existsb (fun h => negb (bool_decide (h.1 ∈ local_request_names))) hs
     || header_is "transfer-encoding" (other_than ["chunked"]) hs
     || header_is "connection" (other_than ["close"; "keep-alive"]) hs
  then fail RequestInvalid else Ok tt.

(** The operations of a session. *)
Inductive LocalOperation :=
  | LExecute | LStatus | LCancel | LSearch | LLogin | LAuthStatus | LLogout | LAdmitConnect.

(** `aap-http/src/lib.rs:128-142`, `SessionHandler::dispatch` (the operation of a path) *)
Definition local_operation (path : string) : option LocalOperation :=
  if bool_decide (path = EXECUTE) then Some LExecute
  else if bool_decide (path = STATUS) then Some LStatus
  else if bool_decide (path = CANCEL) then Some LCancel
  else if bool_decide (path = SEARCH) then Some LSearch
  else if bool_decide (path = LOGIN) then Some LLogin
  else if bool_decide (path = AUTH_STATUS) then Some LAuthStatus
  else if bool_decide (path = LOGOUT) then Some LLogout
  else if bool_decide (path = ADMIT_CONNECT) then Some LAdmitConnect
  else None.

(** `aap-http/src/lib.rs:220-242`, `read_body`; [early] and [late] are whether the deadline
    has passed before and after the body *)
Definition read_body (early late : bool) (body : BodyRead) : Result (list byte) :=
  if early then fail RequestInvalid
  else
    match body with
    | BodyLate => fail RequestInvalid
    | BodyRefused => fail LimitExceeded
    | BodyWhole bytes trailers => if late || trailers then fail RequestInvalid else Ok bytes
    end.

(** `aap-http/src/lib.rs:126-165`, `SessionHandler::dispatch`: the operation of the session
    and the value its argument is decoded from *)
Definition local_dispatch {A} (decode : LocalOperation -> list byte -> option A) (r : Incoming) (early late : bool)
    (body : BodyRead) : Result (LocalOperation * A) :=
  _ ← validate_local_request r;
  operation ← ok_or (local_operation (r_path (in_uri r))) (Error_new PolicyDenied);
  bytes ← read_body early late body;
  argument ← ok_or (decode operation bytes) (Error_new RequestInvalid);
  Ok (operation, argument).

(** `aap-http/src/lib.rs:260-269`, `error_response` (the status) *)
Definition error_status (c : ErrorCode) : Z :=
  match c with
  | SessionInvalid => 401
  | PolicyDenied => 403
  | RequestInvalid | RequestConflict | AuthProfileUnsupported | PlaceholderInvalid => 400
  | LimitExceeded => 429
  | _ => 503
  end.

(** ** The opening of a stream *)

(** A line feed without its carriage return before it, or the other way round. *)
Fixpoint bare_break (previous : option byte) (l : list byte) : bool :=
  match l with
  | [] => false
  | b :: l =>
      (bool_decide (byte_val b = 10) && negb (bool_decide (byte_val <$> previous = Some 13)))
      || (bool_decide (byte_val b = 13) && negb (bool_decide (byte_val <$> head l = Some 10)))
      || bare_break (Some b) l
  end.
Definition CRLFCRLF : list byte := map byte_of [13; 10; 13; 10].

Section Opening.
Context `{HttpParse}.

(** `aap-http/src/stream/opening.rs:42-61`, `validate` (one header) *)
Definition open_header (name : string) (value : list byte) : Result (Z * option Z) :=
  let name := str_to_ascii_lowercase name in
  if bool_decide (name = "host") && bool_decide (value = as_bytes HOST) then Ok (1, None)
  else if bool_decide (name = "connection") && eq_ignore_ascii_case (from_bytes value) "upgrade" then Ok (2, None)
  else if bool_decide (name = "upgrade") && eq_ignore_ascii_case (from_bytes value) PROTOCOL then Ok (4, None)
  else if bool_decide (name = "content-type") && bool_decide (value = as_bytes "application/json") then Ok (8, None)
  else if bool_decide (name = "content-length") && all_digits value then
    parsed ← ok_or (parse_u64 value) (Error_new RequestInvalid);
    if MAX_CONTROL_BYTES <? parsed then fail RequestInvalid else Ok (16, Some parsed)
  else if bool_decide (name = "user-agent") && (len value <=? 1024) then Ok (0, None)
  else fail RequestInvalid.

(** `aap-http/src/stream/opening.rs:33-62`, `validate` (the headers) *)
Fixpoint open_headers (previous : list string) (hs : list (string * list byte)) (length : option Z) (required : Z)
    : Result (option Z * Z) :=
  match hs with
  | [] => Ok (length, required)
  | (name, value) :: hs =>
      if existsb (fun p => eq_ignore_ascii_case p name) previous then fail RequestInvalid
      else
        '(bit, parsed) ← open_header name value;
        open_headers (previous ++ [name]) hs (match parsed with Some n => Some n | None => length end) (Z.lor required bit)
  end.

(** `aap-http/src/stream/opening.rs:13-67`, `validate` *)
Definition validate_opening (bytes : list byte) : Result Z :=
  if (16 * 1024 <? len bytes) || negb (bool_decide (drop (length bytes - 4) bytes = CRLFCRLF)) || bare_break None bytes
  then fail RequestInvalid
  else
    '(head, complete) ← ok_or (parse_head 8 bytes) (Error_new RequestInvalid);
    if negb (bool_decide (complete = Some (len bytes))) || negb (bool_decide (h_method head = Some "POST"))
       || negb (bool_decide (h_path head = Some OPEN_PATH)) || negb (bool_decide (h_version head = Some 1))
    then fail RequestInvalid
    else
      '(length, required) ← open_headers [] (h_headers head) None 0;
      if negb (required =? 31) then fail RequestInvalid else ok_or length (Error_new RequestInvalid).

(** `aap-http/src/stream/opening.rs:137-151`, `prepare` (the body); each read answers with
    at most what it was asked for, [None] while it waits *)
Fixpoint opening_body (reads : list (Result (list byte))) (length : Z) (body : list byte) : option (Result (list byte)) :=
  if length <=? len body then Some (Ok body)
  else
    match reads with
    | [] => None
    | Err _ :: _ => Some (fail RequestInvalid)
    | Ok chunk :: reads =>
        let chunk := take (Z.to_nat (Z.min 1024 (length - len body + 1))) chunk in
        if bool_decide (chunk = []) || (length - len body <? len chunk) then Some (fail RequestInvalid)
        else opening_body reads length (body ++ chunk)
    end.

(** What [prepare] finds: the reads of the body, whether nothing is readable after it,
    and whether its deadline has passed at its beginning and before the admission. *)
Record OpeningEnv := mkOpening {
  oe_late : bool; oe_reads : list (Result (list byte)); oe_quiet : bool; oe_expired : bool }.

(** `aap-http/src/stream/opening.rs:123-164`, `prepare`; [None] while it waits for its
    body. [answer] is the session's answer *)
Definition prepare_opening `{Base64} `{Serde} {A} (p : Prelude) (e : OpeningEnv) (answer : Open -> Result A)
    : option (Result (Open * A)) :=
  if oe_late e then Some (fail RequestInvalid)
  else
    match validate_opening (take (Z.to_nat (pl_header_len p)) (pl_bytes p)) with
    | Err error => Some (Err error)
    | Ok length =>
        let leading := drop (Z.to_nat (pl_header_len p)) (pl_bytes p) in
        if length <? len leading then Some (fail RequestInvalid)
        else
          body ← opening_body (oe_reads e) length leading;
          Some (body ← body;
                if negb (oe_quiet e) then fail RequestInvalid
                else
                  request ← Open_decode body;
                  if oe_expired e then fail RequestInvalid
                  else admission ← answer request; Ok (request, admission))
    end.
End Opening.

(** ** Facts *)

Section Facts.
Context `{HttpParse}.

(** What is read of a head is bounded. *)
Lemma read_prelude_bounded reads : forall bytes p, len bytes <= 64 * 1024 -> read_prelude reads bytes = Some (Ok p) ->
  len (pl_bytes p) <= 64 * 1024 /\ pl_header_len p <= 64 * 1024 /\ (pl_stream p = true -> pl_header_len p <= 16 * 1024).
Proof.
  induction reads as [|[chunk|] reads IH]; intros bytes p Hb; cbn [read_prelude];
  destruct (parse_head 64 bytes) as [[head [n|]]|]; try done;
  try (destruct (bool_decide (h_path head = Some OPEN_PATH)); (match goal with |- context [?l <? n] => destruct (Z.ltb_spec l n) end; [done|]);
       intros [= <-]; cbn; split_and!; try done; lia).
  - by destruct (_ <=? _).
  - set (limit := if bool_decide (h_path head = Some OPEN_PATH) then 16 * 1024 else 64 * 1024). assert (limit <= 64 * 1024) by (unfold limit; case_match; lia).
    destruct (Z.leb_spec limit (len bytes)); [done|]. destruct (bool_decide (take _ _ = [])); [done|]. apply IH. rewrite len_app.
    unfold len in *. rewrite length_take. lia.
  - by destruct (_ <=? _).
Qed.

(** The headers of an opening: which they are, and that they are there. *)
Definition opening_names : list string := ["host"; "connection"; "upgrade"; "content-type"; "content-length"; "user-agent"].
Definition has_named (name : string) (f : list byte -> Prop) (hs : list (string * list byte)) : Prop :=
  exists n v, (n, v) ∈ hs /\ str_to_ascii_lowercase n = name /\ f v.

(** What one admitted header is, by the bit it sets. *)
Definition opening_says (name : string) (value : list byte) (bit : Z) (parsed : option Z) : Prop :=
  (name = "host" /\ bit = 1 /\ parsed = None /\ value = as_bytes HOST)
  \/ (name = "connection" /\ bit = 2 /\ parsed = None /\ eq_ignore_ascii_case (from_bytes value) "upgrade" = true)
  \/ (name = "upgrade" /\ bit = 4 /\ parsed = None /\ eq_ignore_ascii_case (from_bytes value) PROTOCOL = true)
  \/ (name = "content-type" /\ bit = 8 /\ parsed = None /\ value = as_bytes "application/json")
  \/ (name = "content-length" /\ bit = 16 /\ exists n, parsed = Some n /\ all_digits value = true
      /\ parse_u64 value = Some n /\ n <= MAX_CONTROL_BYTES)
  \/ (name = "user-agent" /\ bit = 0 /\ parsed = None /\ len value <= 1024).

Lemma open_header_ok name value bit parsed : open_header name value = Ok (bit, parsed) ->
  opening_says (str_to_ascii_lowercase name) value bit parsed.
Proof.
  unfold open_header, opening_says. set (n := str_to_ascii_lowercase name). clearbody n. intros Hh.
  repeat (match type of Hh with (if ?b then _ else _) = _ => destruct b eqn:?E end;
          [bool_hyps; subst n; try (injection Hh as <- <-; tauto)|]); [|done].
  apply bind_Ok in Hh as (v & Hv%ok_or_Ok & Hh). destruct (Z.ltb_spec MAX_CONTROL_BYTES v); [done|]. injection Hh as <- <-.
  do 4 right. left. split_and!; try done. by exists v.
Qed.

Lemma open_headers_ok hs : forall previous l0 r0 l r, open_headers previous hs l0 r0 = Ok (l, r) ->
  NoDup (map str_to_ascii_lowercase previous) ->
  NoDup (map str_to_ascii_lowercase (previous ++ map fst hs))
  /\ Forall (fun h => exists bit parsed, open_header h.1 h.2 = Ok (bit, parsed)) hs
  /\ (forall i, Z.testbit r i = true -> Z.testbit r0 i = true
      \/ exists h bit parsed, h ∈ hs /\ open_header h.1 h.2 = Ok (bit, parsed) /\ Z.testbit bit i = true)
  /\ (forall n, l = Some n -> l0 = Some n \/ exists h bit, h ∈ hs /\ open_header h.1 h.2 = Ok (bit, Some n)).
Proof.
  induction hs as [|[name value] hs IH]; intros previous l0 r0 l r; cbn [open_headers].
  { intros [= <- <-] Hnd. cbn. rewrite app_nil_r. split_and!; auto. }
  destruct (existsb _ previous) eqn:Hdup; [done|]. intros Hh Hnd. apply bind_Ok in Hh as ([bit parsed] & Hone & Hh).
  assert (NoDup (map str_to_ascii_lowercase (previous ++ [name]))) as Hnd'.
  { rewrite map_app. apply NoDup_app. split_and!; [done| |apply NoDup_singleton]. intros x Hx ->%list_elem_of_singleton.
    apply list_elem_of_fmap in Hx as (p & Hp & Hin). apply existsb_false in Hdup. rewrite Forall_forall in Hdup. specialize (Hdup p Hin).
    unfold eq_ignore_ascii_case in Hdup. bool_hyps. by symmetry in Hp. }
  destruct (IH _ _ _ _ _ Hh Hnd') as (H1' & H2' & H3' & H4'). split_and!.
  - by rewrite <-app_assoc in H1'.
  - constructor; [by exists bit, parsed|done].
  - intros i Hi. destruct (H3' i Hi) as [Hr|(h & b & q & Hin & Hq & Hb)]; [|right; exists h, b, q; split; [by right|done]].
    rewrite Z.lor_spec in Hr. apply orb_true_iff in Hr as [Hr|Hr]; [by left|]. right. exists (name, value), bit, parsed. by split; [left|].
  - intros n Hn. destruct (H4' n Hn) as [Hl|(h & b & Hin & Hq)]; [|right; exists h, b; split; [by right|done]].
    destruct parsed as [m|]; [|by left]. injection Hl as ->. right. exists (name, value), bit. by split; [left|].
Qed.

(** A head that opens a stream. *)
Record opening_head (bytes : list byte) (length : Z) : Prop := {
  oh_bounded : len bytes <= 16 * 1024;
  oh_lines : bare_break None bytes = false /\ drop (List.length bytes - 4) bytes = CRLFCRLF;
  oh_length : 0 <= length <= MAX_CONTROL_BYTES;
  oh_headers : exists hs, parse_head 8 bytes = Some (mkHead (Some "POST") (Some OPEN_PATH) (Some 1) hs, Some (len bytes))
    /\ NoDup (map (fun h => str_to_ascii_lowercase h.1) hs)
    /\ Forall (fun h => str_to_ascii_lowercase h.1 ∈ opening_names) hs
    /\ has_named "host" (fun v => v = as_bytes HOST) hs
    /\ has_named "connection" (fun v => eq_ignore_ascii_case (from_bytes v) "upgrade" = true) hs
    /\ has_named "upgrade" (fun v => eq_ignore_ascii_case (from_bytes v) PROTOCOL = true) hs
    /\ has_named "content-type" (fun v => v = as_bytes "application/json") hs
    /\ has_named "content-length" (fun v => all_digits v = true /\ parse_u64 v = Some length) hs }.

Lemma digits_nonneg l : forall acc, 0 <= acc -> forallb is_ascii_digit l = true -> 0 <= digits_value acc l.
Proof.
  induction l as [|b l IH]; intros acc Ha; cbn; [done|]. intros [Hd Hl]%andb_true_iff. apply IH; [|done].
  unfold is_ascii_digit, in_range in Hd. bool_hyps. lia.
Qed.

Lemma validate_opening_ok bytes length : validate_opening bytes = Ok length -> opening_head bytes length.
Proof.
  unfold validate_opening. intros Hv. destruct (_ || _) eqn:Hc in Hv; [done|].
  apply bind_Ok in Hv as ([[hm hp hv hs] complete] & Hparse%ok_or_Ok & Hv). destruct (_ || _) eqn:Hc2 in Hv; [done|].
  apply bind_Ok in Hv as ([l required] & Hh & Hv). cbn beta iota in Hv.
  destruct (negb (required =? 31)) eqn:Hreq in Hv; [done|]. apply ok_or_Ok in Hv. subst l.
  cbn [h_method h_path h_version h_headers] in *. bool_hyps. subst.
  apply open_headers_ok in Hh as (Hnd & Hall & Hbits & Hlen); [|constructor]. cbn [app] in Hnd.
  assert (forall i, Z.testbit 31 i = true -> exists h bit parsed, h ∈ hs
    /\ opening_says (str_to_ascii_lowercase h.1) h.2 bit parsed /\ Z.testbit bit i = true) as Hsays.
  { intros i Hi. destruct (Hbits i Hi) as [Hz|(h & bit & parsed & Hin & Ho & Hb)]; [by rewrite Z.bits_0 in Hz|].
    exists h, bit, parsed. split_and!; try done. by apply open_header_ok. }
  destruct (Hlen length eq_refl) as [?|([n v] & bit & Hin & Ho)]; [done|]. apply open_header_ok in Ho. cbn [fst snd] in Ho.
  assert (str_to_ascii_lowercase n = "content-length" /\ all_digits v = true /\ parse_u64 v = Some length /\ length <= MAX_CONTROL_BYTES)
    as (Hn & Hdig & Hparsed & Hmax) by (unfold opening_says in Ho; naive_solver).
  assert (0 <= length) as Hpos.
  { unfold parse_u64 in Hparsed. destruct (_ <=? _); [|done]. injection Hparsed as <-. unfold all_digits in Hdig. bool_hyps.
    by apply digits_nonneg. }
  constructor; try done. exists hs. split_and!; try done.
  - by rewrite map_map in Hnd.
  - eapply Forall_impl; [exact Hall|]. intros h (b & q & Hq%open_header_ok). unfold opening_says, opening_names in *. set_solver.
  - destruct (Hsays 0 eq_refl) as ([m w] & b & q & Hm & Hq & Hb). exists m, w. unfold opening_says in Hq. naive_solver.
  - destruct (Hsays 1 eq_refl) as ([m w] & b & q & Hm & Hq & Hb). exists m, w. unfold opening_says in Hq. naive_solver.
  - destruct (Hsays 2 eq_refl) as ([m w] & b & q & Hm & Hq & Hb). exists m, w. unfold opening_says in Hq. naive_solver.
  - destruct (Hsays 3 eq_refl) as ([m w] & b & q & Hm & Hq & Hb). exists m, w. unfold opening_says in Hq. naive_solver.
  - by exists n, v.
Qed.

Lemma opening_body_ok reads : forall length body all, len body <= length ->
  opening_body reads length body = Some (Ok all) -> len all = length /\ body `prefix_of` all.
Proof.
  induction reads as [|[chunk|] reads IH]; intros length body all Hb; cbn [opening_body];
  destruct (Z.leb_spec length (len body)) as [Hl|Hl]; try done; try (intros [= <-]; split; [lia|done]).
  set (c := take _ chunk). destruct (bool_decide (c = []) || _) eqn:Hc; [done|]. bool_hyps. intros Ho.
  apply IH in Ho as [Hlen Hpre]; [|rewrite len_app; lia]. split; [done|]. etransitivity; [|exact Hpre]. by apply prefix_app_r.
Qed.

(** A stream is admitted only for its exact opening. When the session is asked for a
    stream, the head that came in has only whole lines, is a complete POST of the path
    for streams in HTTP/1.1 with each header of the upgrade exactly once, in any case,
    and no other but the agent's name; the body is exactly as long as it says, decodes to
    the request that the session is asked for, and nothing follows it. *)
Lemma opening_exact `{Base64} `{Serde} {A} p e (answer : Open -> Result A) request a :
  prepare_opening p e answer = Some (Ok (request, a)) ->
  exists length body, opening_head (take (Z.to_nat (pl_header_len p)) (pl_bytes p)) length
  /\ len body = length /\ drop (Z.to_nat (pl_header_len p)) (pl_bytes p) `prefix_of` body
  /\ Open_decode body = Ok request /\ answer request = Ok a
  /\ oe_quiet e = true /\ oe_late e = false /\ oe_expired e = false.
Proof.
  unfold prepare_opening. destruct (oe_late e); [done|]. destruct (validate_opening _) as [length|] eqn:Hv; [|done].
  apply validate_opening_ok in Hv. destruct (Z.ltb_spec length (len (drop (Z.to_nat (pl_header_len p)) (pl_bytes p)))) as [|Hl]; [done|].
  destruct (opening_body (oe_reads e) length _) as [[body|]|] eqn:Hb; [|done|done]. cbn.
  apply opening_body_ok in Hb as [Hlen Hpre]; [|done]. destruct (oe_quiet e); [|done]. cbn.
  destruct (Open_decode body) as [r|] eqn:Hd; [|done]. cbn. destruct (oe_expired e); [done|]. destruct (answer r) as [x|] eqn:Ha; [|done].
  cbn. intros [= <- <-]. by exists length, body.
Qed.
End Facts.
