(* ===== verification/LocalTools.v ===== *)
(** * The local tool server ([aap-mcp/src/stdio.rs], [aap-mcp/src/lib.rs])

    An agent's runtime speaks JSON-RPC over a pipe, one message on each line. The
    framer cuts the lines, a message is checked before it is parsed, and each call of a
    tool runs as a task of its own while its memory is reserved. Sockets, tasks and the
    clock answer through events: a line that came in, a task that was joined, the end of
    the input and of the time to initialize, each with how the write it leads to goes.
    Tasks run the tools over the session; the types of the [rmcp] crate and [serde] are
    parameters. *)
From S2P Require Import Prelude Protocol Json Tools McpWire.

(** `aap-mcp/src/lib.rs:16-18`, `MAX_BODY` .. `MAX_OUTPUT` *)
Definition MAX_BODY : Z := 1024 * 1024.
Definition MAX_INPUT : Z := 2 * 1024 * 1024.
Definition MAX_OUTPUT : Z := 4 * 1024 * 1024.

(** `aap-mcp/src/stdio.rs:16`, `MAX_RETAINED` *)
Definition MAX_RETAINED : Z := 16 * 1024 * 1024.

Definition kept_for_control : Z := 128 * 1024.

(** ** Framing *)

(** [available.iter().position(|byte| *byte == b'\n')] *)
Fixpoint newline (l : list byte) : option nat :=
  match l with
  | [] => None
  | b :: l => if byte_val b =? 10 then Some O else S <$> newline l
  end.

(** `aap-mcp/src/stdio.rs:200-230`, `Framer::next`; the reader is what is buffered and
    what reads will bring, the empty list its end; the answer is the frame with the
    reader and the bytes that are kept *)
Fixpoint framer_next (reader : list (list byte)) (bytes : list byte)
    : list (list byte) * list byte * Result (option (list byte)) :=
  match reader with
  | [] => ([], bytes, if bool_decide (bytes = []) then Ok None else fail RequestInvalid)
  | available :: reader =>
      let found := newline available in
      let count := default (length available) found in
      if saturating_sub MAX_INPUT (len bytes) <? Z.of_nat count then (available :: reader, bytes, fail LimitExceeded)
      else
        let bytes := bytes ++ take count available in
        match found with
        | Some _ =>
            let rest := drop (S count) available in
            (if bool_decide (rest = []) then reader else rest :: reader, [], Ok (Some bytes))
        | None => framer_next reader bytes
        end
  end.

Lemma newline_app a b : newline (a ++ b) =
  match newline a with Some n => Some n | None => (fun n => (length a + n)%nat) <$> newline b end.
Proof.
  induction a as [|x a IH]; cbn; [by destruct (newline b)|]. destruct (_ =? 10); [done|]. rewrite IH.
  destruct (newline a); [done|]. by destruct (newline b).
Qed.
Lemma newline_bound l n : newline l = Some n -> (n < length l)%nat.
Proof.
  revert n. induction l as [|x l IH]; intros n; cbn; [done|]. destruct (_ =? 10); [intros [= <-]; lia|].
  destruct (newline l) as [m|]; [|done]. intros [= <-]. specialize (IH m eq_refl). lia.
Qed.

(** The frames do not depend on how reads cut the input: a frame is what comes before
    the next newline, within the limit; the end of the input is an end between frames
    only. *)
Lemma framer_chunking reader : forall bytes reader' bytes' r, len bytes <= MAX_INPUT ->
  framer_next reader bytes = (reader', bytes', r) ->
  match newline (mjoin reader) with
  | Some n =>
      if len bytes + Z.of_nat n <=? MAX_INPUT
      then r = Ok (Some (bytes ++ take n (mjoin reader))) /\ bytes' = [] /\ mjoin reader' = drop (S n) (mjoin reader)
      else r = fail LimitExceeded
  | None =>
      if len bytes + len (mjoin reader) <=? MAX_INPUT
      then r = (if bool_decide (bytes ++ mjoin reader = []) then Ok None else fail RequestInvalid)
      else r = fail LimitExceeded
  end.
Proof.
  induction reader as [|available reader IH]; intros bytes reader' bytes' r Hb; cbn [framer_next].
  - intros [= _ _ <-]. cbn. rewrite app_nil_r, (proj2 (Z.leb_le _ _)) by (rewrite len_nil; lia). done.
  - change (mjoin (available :: reader)) with (available ++ mjoin reader). rewrite newline_app. pose proof (len_nonneg (mjoin reader)).
    destruct (newline available) as [n|] eqn:Hn; [change (default (length available) (Some n)) with n|change (default (length available) None) with (length available)].
    + pose proof (newline_bound _ _ Hn). unfold saturating_sub.
      destruct (Z.ltb_spec (Z.max 0 (MAX_INPUT - len bytes)) (Z.of_nat n)).
      { intros [= _ _ <-]. by rewrite (proj2 (Z.leb_gt _ _)) by lia. }
      intros Heq. injection Heq as <- <- <-.
      rewrite (proj2 (Z.leb_le _ _)), take_app_le, drop_app_le by lia. split_and!; try done. case_bool_decide as Hd; [|done].
      by rewrite Hd.
    + unfold saturating_sub. destruct (Z.ltb_spec (Z.max 0 (MAX_INPUT - len bytes)) (Z.of_nat (length available))) as [Hl|Hl].
      { intros [= _ _ <-]. fold (len available) in Hl. pose proof (len_nonneg (mjoin reader)).
        destruct (newline (mjoin reader)) as [n|]; cbn; [|rewrite len_app]; rewrite (proj2 (Z.leb_gt _ _)); try done;
        unfold len in *; lia. }
      rewrite take_ge by done. intros Hf. apply IH in Hf; [|rewrite len_app; unfold len in *; lia]. clear IH. revert Hf.
      rewrite len_app. destruct (newline (mjoin reader)) as [n|]; cbn.
      * replace (len bytes + len available + Z.of_nat n) with (len bytes + Z.of_nat (length available + n)) by (unfold len; lia).
        destruct (_ <=? MAX_INPUT); [|done]. intros (-> & -> & ->). rewrite <-app_assoc, take_app_add. split_and!; try done.
        rewrite drop_app_ge by lia. f_equal. lia.
      * by rewrite len_app, Z.add_assoc, <-app_assoc.
Qed.

(** ** Messages *)

(** `aap-mcp/src/stdio.rs:235-265`, `parse_frame` (one byte of the scan) *)
Definition scan_frame_byte (s : Scan) (b : byte) : Result Scan :=
  let '(mkScan depth structure string escaped) := s in
  if string then
    Ok (if escaped then mkScan depth structure true false
        else if bool_decide (b = "\"%char) then mkScan depth structure true true
        else if byte_val b =? 34 then mkScan depth structure false false
        else s)
  else
    s ← (if byte_val b =? 34 then Ok (mkScan depth structure true escaped)
         else if bool_decide (b ∈ as_bytes "{[") then
           if 64 <? depth + 1 then fail LimitExceeded else Ok (mkScan (depth + 1) (structure + 1) false escaped)
         else if bool_decide (b ∈ as_bytes "}]") then Ok (mkScan (saturating_sub depth 1) structure false escaped)
         else if bool_decide (b ∈ as_bytes ",:") then Ok (mkScan depth (structure + 1) false escaped)
         else Ok s);
    if 32768 <? sc_tokens s then fail LimitExceeded else Ok s.
Fixpoint scan_frame (s : Scan) (l : list byte) : Result unit :=
  match l with
  | [] => Ok tt
  | b :: l => s ← scan_frame_byte s b; scan_frame s l
  end.

Section Messages.
Context `{JsonText}.

(** `aap-mcp/src/stdio.rs:233-267`, `parse_frame` *)
Definition parse_frame (bytes : list byte) : Result Value :=
  _ ← scan_frame (mkScan 0 0 false false) bytes;
  ok_or (Json.decode json_parse Some bytes) (Error_new RequestInvalid).

(** `aap-mcp/src/lib.rs:241-264`, `encode` *)
Definition encode_bounded (value : Value) (limit : Z) : Result (list byte) :=
  ok_or (write_buffers [] limit (json_buffers value)) (Error_new LimitExceeded).

(** `aap-mcp/src/stdio.rs:178-180`, `failure` *)
Definition failure (id : option Value) (code : Z) (message : string) : Value :=
  object [("jsonrpc", Str "2.0"); ("id", default Null id);
          ("error", object [("code", num code); ("message", Str message)])].
Definition success (id result : Value) : Value :=
  object [("jsonrpc", Str "2.0"); ("id", id); ("result", result)].
Definition refusal (id error : Value) : Value :=
  object [("jsonrpc", Str "2.0"); ("id", id); ("error", error)].
End Messages.

(** ** The server *)

(** What the source takes from the [rmcp] crate: request identifiers with their JSON,
    whether parameters initialize a session, the name and the arguments of a call, the
    answer to an initialization, and the tools. *)
Class LocalRpc (Id : Type) := {
  id_of : Value -> option Id;
  id_json : Id -> Value;
  initializes : Value -> bool;
  call_of : Value -> option (string * Value);
  welcome : Value;
  tool_definitions : Value;
  overloaded : Value }.

(** `aap-mcp/src/schema.rs:4-12`, `NAMES` *)
Definition NAMES : list string :=
  ["vault.search_items"; "vault.get_login"; "vault.auth_status"; "vault.logout"; "request.execute";
   "request.status"; "request.cancel"].
Definition control_names : list string := ["request.status"; "request.cancel"].

(** `aap-mcp/src/stdio.rs:18-23`, `Pending`; the abort handle is the task it aborts *)
Record Pending := mkPending { p_task : nat; p_reservation : Z; p_control : bool; p_cancelled : bool }.

Section Server.
Context `{JsonText} {Id : Type} `{Countable Id} `{LocalRpc Id}.

(** `aap-mcp/src/stdio.rs:51-59`, `run`: its variables, the tasks that were not joined
    with the identifier each answers, what has been written and which tools run *)
Record Server := mkServer {
  pending : gmap Id Pending; initialized : bool; ready : bool; tasks : gmap nat Id; next_task : nat;
  sent : list Value; called : list (nat * string * Value) }.
Definition fresh_server : Server := mkServer ∅ false false ∅ 0 [] [].

Definition with_sent (s : Server) (l : list Value) : Server :=
  mkServer (pending s) (initialized s) (ready s) (tasks s) (next_task s) l (called s).
Definition with_pending (s : Server) (m : gmap Id Pending) : Server :=
  mkServer m (initialized s) (ready s) (tasks s) (next_task s) (sent s) (called s).
Definition with_phase (s : Server) (i r : bool) : Server :=
  mkServer (pending s) i r (tasks s) (next_task s) (sent s) (called s).
Definition with_tasks (s : Server) (m : gmap nat Id) : Server :=
  mkServer (pending s) (initialized s) (ready s) m (next_task s) (sent s) (called s).

(** What a step ends in: the loop goes on, or returns. *)
Inductive Next := Continues | Returns (r : Result unit).

(** `aap-mcp/src/stdio.rs:181-191`, `send`; [written] is how the write goes *)
Definition send (s : Server) (v : Value) (written : Result unit) : Server * Result unit :=
  match encode_bounded v MAX_OUTPUT with
  | Err e => (s, Err e)
  | Ok _ => match written with Ok _ => (with_sent s (sent s ++ [v]), Ok tt) | Err e => (s, Err e) end
  end.
(** [send(...).await?; continue] *)
Definition reply (s : Server) (v : Value) (written : Result unit) : Server * Next :=
  match send s v written with (s, Ok _) => (s, Continues) | (s, Err e) => (s, Returns (Err e)) end.

(** `aap-mcp/src/stdio.rs:172-177`, `id` *)
Definition rpc_id (v : Value) : option Id :=
  if match value_str v with Some id => 128 <? slen id | None => false end then None else id_of v.

(** `aap-mcp/src/stdio.rs:81-97`, `run` (a line): what it asks, or how it is refused *)
Definition envelope (frame : list byte) : result (option Id * Z * string) (option Id * string * Value) :=
  match parse_frame frame with
  | Err _ => Err (None, -32700, "invalid MCP message")
  | Ok message =>
      match as_object message with
      | None => Err (None, -32600, "invalid MCP request")
      | Some m =>
          if negb (bool_decide (map_get "jsonrpc" m = Some (Str "2.0")))
             || existsb (fun kv => negb (bool_decide (kv.1 ∈ ["jsonrpc"; "id"; "method"; "params"]))) m
          then Err (None, -32600, "invalid MCP request")
          else
            match match map_get "id" m with None => Some None | Some v => Some <$> rpc_id v end with
            | None => Err (None, -32600, "invalid request ID")
            | Some id =>
                match map_get "method" m ≫= value_str with
                | Some method =>
                    if slen method <=? 128 then Ok (id, method, default (Object []) (map_get "params" m))
                    else Err (id, -32600, "invalid MCP method")
                | None => Err (id, -32600, "invalid MCP method")
                end
            end
      end
  end.

Definition is_object (v : Value) : bool := bool_decide (is_Some (as_object v)).
(** Parameters that are an object with no members beyond these. *)
Definition members_within (v : Value) (keys : list string) : bool :=
  match as_object v with Some m => forallb (fun kv => bool_decide (kv.1 ∈ keys)) m | None => false end.

(** `aap-mcp/src/stdio.rs:98-104`, `run` (a notification) *)
Definition notified (s : Server) (method : string) (params : Value) : Server :=
  let s := if bool_decide (method = "notifications/initialized") && initialized s && is_object params
           then with_phase s (initialized s) true else s in
  if bool_decide (method = "notifications/cancelled") && ready s then
    match get params "requestId" ≫= rpc_id with
    | Some id =>
        match pending s !! id with
        | Some p => with_pending s (<[id := mkPending (p_task p) (p_reservation p) (p_control p) true]> (pending s))
        | None => s
        end
    | None => s
    end
  else s.

Definition reserved (m : gmap Id Pending) : Z := map_sum p_reservation m.
Definition in_class (control : bool) (m : gmap Id Pending) : Z :=
  map_sum (fun p => if Bool.eqb (p_control p) control then 1 else 0) m.

(** `aap-mcp/src/stdio.rs:149-151`, `run` (a call with no room) *)
Definition crowded (s : Server) (control : bool) (reservation : Z) : bool :=
  ((if control then 2 else 8) <=? in_class control (pending s))
  || (10 <=? Z.of_nat (size (tasks s)))
  || (MAX_RETAINED - (if control then 0 else kept_for_control) <? reserved (pending s) + reservation).

(** `aap-mcp/src/stdio.rs:134-164`, `run` (a call): [size] is the length of its line *)
Definition call_tool (s : Server) (length : Z) (id : Id) (params : Value) (written : Result unit) : Server * Next :=
  if negb (members_within params ["name"; "arguments"; "_meta"])
  then reply s (failure (Some (id_json id)) (-32602) "invalid tool-call parameters") written
  else
    match call_of params with
    | None => reply s (failure (Some (id_json id)) (-32602) "invalid tool-call parameters") written
    | Some (name, arguments) =>
        if negb (bool_decide (name ∈ NAMES)) then reply s (failure (Some (id_json id)) (-32602) "unsupported tool") written
        else
          let control := bool_decide (name ∈ control_names) in
          let reservation := length + (if control then 64 * 1024 else MAX_OUTPUT) in
          if crowded s control reservation then reply s (success (id_json id) overloaded) written
          else
            (mkServer (<[id := mkPending (next_task s) reservation control false]> (pending s)) (initialized s) (ready s)
               (<[next_task s := id]> (tasks s)) (S (next_task s)) (sent s) (called s ++ [(next_task s, name, arguments)]),
             Continues)
    end.

(** `aap-mcp/src/stdio.rs:105-166`, `run` (a request) *)
Definition requested (s : Server) (length : Z) (id : Id) (method : string) (params : Value) (written : Result unit)
    : Server * Next :=
  if bool_decide (is_Some (pending s !! id)) then
    match send s (failure None (-32600) "duplicate in-flight request ID") written with
    | (s, Err e) => (s, Returns (Err e))
    | (s, Ok _) => (s, Returns (fail RequestConflict))
    end
  else if bool_decide (method = "initialize") && negb (initialized s) then
    if negb (initializes params) then reply s (failure (Some (id_json id)) (-32602) "invalid initialization") written
    else
      match send s (success (id_json id) welcome) written with
      | (s, Err e) => (s, Returns (Err e))
      | (s, Ok _) => (with_phase s true (ready s), Continues)
      end
  else if negb (ready s) then reply s (failure (Some (id_json id)) (-32000) "initialization required") written
  else if bool_decide (method = "ping") then reply s (success (id_json id) (Object [])) written
  else if bool_decide (method = "tools/list") then
    if negb (members_within params ["cursor"; "_meta"])
       || match get params "cursor" with Some v => negb (bool_decide (v = Null)) | None => false end
    then reply s (failure (Some (id_json id)) (-32602) "invalid tool-list parameters") written
    else reply s (success (id_json id) (object [("tools", tool_definitions)])) written
  else if bool_decide (method = "tools/call") then call_tool s length id params written
  else reply s (failure (Some (id_json id)) (-32601) "unsupported method") written.

(** `aap-mcp/src/stdio.rs:79-167`, `run` (a line) *)
Definition received (s : Server) (frame : list byte) (written : Result unit) : Server * Next :=
  match envelope frame with
  | Err (id, code, message) => reply s (failure (id_json <$> id) code message) written
  | Ok (None, method, params) => (notified s method params, Continues)
  | Ok (Some id, method, params) => requested s (len frame) id method params written
  end.

(** How a task ends: its tool answered, its tool was refused, or it was aborted or
    panicked. *)
Inductive Outcome := Answered_ (result : Value) | Refused_ (error : Value) | Crashed.

(** [pending.iter().find(|(_, call)| call.abort.id() == error.id())] *)
Definition task_of (m : gmap Id Pending) (task : nat) : option Id :=
  fst <$> find_first (fun e => bool_decide (p_task e.2 = task)) (map_to_list m).

(** `aap-mcp/src/stdio.rs:63-76`, `run` (a task that ended) *)
Definition joined (s : Server) (task : nat) (o : Outcome) (written : Result unit) : Server * Next :=
  match tasks s !! task with
  | None => (s, Continues)
  | Some id =>
      let s := with_tasks s (delete task (tasks s)) in
      let '(key, answer) :=
        match o with
        | Answered_ result => (Some id, fun _ => success (id_json id) result)
        | Refused_ error => (Some id, fun _ => refusal (id_json id) error)
        | Crashed => (task_of (pending s) task, fun key => failure (Some (id_json key)) (-32603) "tool handler unavailable")
        end in
      match key ≫= fun key => (key,.) <$> pending s !! key with
      | None => (s, Continues)
      | Some (key, p) =>
          let s := with_pending s (delete key (pending s)) in
          if p_cancelled p then (s, Continues) else reply s (answer key) written
      end
  end.

(** What [select] wakes up for. *)
Inductive Event :=
  | Joined (task : nat) (o : Outcome) (written : Result unit)
  | InitializeLate
  | Line (frame : list byte) (written : Result unit)
  | InputOver (r : Result unit).

(** `aap-mcp/src/stdio.rs:60-169`, `run` (one turn of its loop) *)
Definition turn (s : Server) (e : Event) : Server * Next :=
  match e with
  | Joined task o written => joined s task o written
  | InitializeLate => if ready s then (s, Continues) else (s, Returns (fail LimitExceeded))
  | Line frame written => received s frame written
  | InputOver r => (s, Returns r)
  end.

(** `aap-mcp/src/stdio.rs:45-170`, `run`: until it returns; [None] while it still runs *)
Fixpoint serve (events : list Event) (s : Server) : Server * option (Result unit) :=
  match events with
  | [] => (s, None)
  | e :: events =>
      match turn s e with
      | (s, Continues) => serve events s
      | (s, Returns r) => (s, Some r)
      end
  end.
End Server.

(** ** Steps *)

Section Serving.
Context `{JsonText} {Id : Type} `{Countable Id} `{LocalRpc Id}.
Abbreviation S_ := (Server (Id := Id)).

Lemma reply_inv (s s' : S_) v written n : reply s v written = (s', n) ->
  (n = Continues /\ s' = with_sent s (sent s ++ [v])) \/ ((exists e, n = Returns (Err e)) /\ s' = s).
Proof.
  unfold reply, send. destruct (encode_bounded v MAX_OUTPUT); [|intros [= <- <-]; right; eauto].
  destruct written; intros [= <- <-]; [by left|right; eauto].
Qed.

Lemma envelope_members m : members_within (Object m) [] = true -> m = [].
Proof. unfold members_within. cbn. destruct m as [|[k v] m]; [done|]. cbn. done. Qed.

Lemma get_id_success id r : get (success id r) "id" = Some id. Proof. done. Qed.
Lemma get_id_refusal id r : get (refusal id r) "id" = Some id. Proof. done. Qed.
Lemma get_id_failure id c m : get (failure id c m) "id" = Some (default Null id). Proof. done. Qed.

(** An answer to [id] has been written, and nothing else has happened but that the
    session may be initialized now. *)
Definition replied (s s' : S_) (v : Value) : Prop :=
  sent s' = sent s ++ [v] /\ pending s' = pending s /\ tasks s' = tasks s /\ next_task s' = next_task s
  /\ called s' = called s /\ ready s' = ready s
  /\ (initialized s' = initialized s \/ initialized s' = true /\ exists id, v = success (id_json id) welcome).

(** A call has been let in for [id]. *)
Definition spawned (s s' : S_) (id : Id) : Prop :=
  exists reservation control name arguments, ready s = true /\ pending s !! id = None /\ name ∈ NAMES
  /\ crowded s control reservation = false
  /\ 0 <= reservation /\ control = bool_decide (name ∈ control_names)
  /\ s' = mkServer (<[id := mkPending (next_task s) reservation control false]> (pending s)) (initialized s) (ready s)
             (<[next_task s := id]> (tasks s)) (S (next_task s)) (sent s) (called s ++ [(next_task s, name, arguments)]).

Lemma with_sent_replied (s : S_) v : replied s (with_sent s (sent s ++ [v])) v.
Proof. by split_and!; try done; left. Qed.

(** A request is answered under its own identifier, or its call is let in. *)
Lemma requested_inv (s s' : S_) length id method params written n : 0 <= length ->
  requested s length id method params written = (s', n) ->
  (exists r, n = Returns r /\ (s' = s \/ exists v, get v "id" = Some Null /\ replied s s' v))
  \/ n = Continues /\ ((exists v, get v "id" = Some (id_json id) /\ replied s s' v) \/ spawned s s' id).
Proof.
  intros Hlen. unfold requested, call_tool.
  assert (forall v, get v "id" = Some (id_json id) -> reply s v written = (s', n) ->
    (exists r, n = Returns r /\ (s' = s \/ exists v, get v "id" = Some Null /\ replied s s' v))
    \/ n = Continues /\ ((exists v, get v "id" = Some (id_json id) /\ replied s s' v) \/ spawned s s' id)) as Hreply.
  { intros v Hv [[-> ->]|[[e ->] ->]]%reply_inv; [right; split; [done|]; left; exists v; split; [done|apply with_sent_replied]|left; eauto]. }
  case_bool_decide as Hdup.
  { unfold send. destruct (encode_bounded _ _); [|intros [= <- <-]; left; eauto].
    destruct written; intros [= <- <-]; left; eexists; (split; [done|]); [right; eexists; split; [|apply with_sent_replied]; done|by left]. }
  destruct (_ && _) eqn:Hinit.
  { destruct (negb (initializes params)); [by apply Hreply|]. unfold send.
    destruct (encode_bounded _ _); [|intros [= <- <-]; left; eauto].
    destruct written; intros [= <- <-]; [|left; eauto]. right. split; [done|]. left.
    exists (success (id_json id) welcome). split; [done|]. split_and!; try done. right. split; [done|]. by exists id. }
  destruct (ready s) eqn:Hready; cbn [negb]; [|by apply Hreply].
  destruct (bool_decide (method = "ping")); [by apply Hreply|].
  destruct (bool_decide (method = "tools/list")); [destruct (_ || _); by apply Hreply|].
  destruct (bool_decide (method = "tools/call")); [|by apply Hreply].
  destruct (negb (members_within _ _)); [by apply Hreply|].
  destruct (call_of params) as [[name arguments]|]; [|by apply Hreply].
  destruct (decide (name ∈ NAMES)) as [Hname|]; [rewrite bool_decide_eq_true_2 by done|rewrite bool_decide_eq_false_2 by done];
  cbn [negb]; [|by apply Hreply].
  destruct (crowded s _ _) eqn:Hcrowd; [by apply Hreply|]. intros [= <- <-]. right. split; [done|]. right.
  exists (length + (if bool_decide (name ∈ control_names) then 64 * 1024 else MAX_OUTPUT)), (bool_decide (name ∈ control_names)), name, arguments.
  split_and!; try done; [by apply eq_None_not_Some| |by rewrite Hready]. unfold MAX_OUTPUT. destruct (bool_decide (name ∈ control_names)); lia.
Qed.

(** ** The invariant *)

Definition data_reserved (m : gmap Id Pending) : Z := map_sum (fun p => if p_control p then 0 else p_reservation p) m.

(** Each call in flight is one task that was not joined; what is reserved and how many
    run is bounded, with room kept for control; and no tool runs before the session is
    ready, nor is it ready before it was initialized. *)
Record Inv (s : S_) : Prop := {
  inv_tasks : forall t id, tasks s !! t = Some id <-> exists p, pending s !! id = Some p /\ p_task p = t;
  inv_fresh : forall t, is_Some (tasks s !! t) -> (t < next_task s)%nat;
  inv_kept : forall id p, pending s !! id = Some p -> 0 <= p_reservation p;
  inv_room : in_class true (pending s) <= 2 /\ in_class false (pending s) <= 8 /\ Z.of_nat (size (tasks s)) <= 10;
  inv_reserved : reserved (pending s) <= MAX_RETAINED /\ data_reserved (pending s) <= MAX_RETAINED - kept_for_control;
  inv_called : called s <> [] -> ready s = true;
  inv_names : Forall (fun c => c.1.2 ∈ NAMES) (called s);
  inv_ready : ready s = true -> initialized s = true;
  inv_initialized : initialized s = true -> exists id, success (id_json id) welcome ∈ sent s }.

Lemma data_le (m : gmap Id Pending) : (forall id p, m !! id = Some p -> 0 <= p_reservation p) -> data_reserved m <= reserved m.
Proof.
  unfold data_reserved, reserved. induction m as [|i p m Hi IH] using map_ind; intros Hm; [done|].
  rewrite !map_sum_insert by done. pose proof (Hm i p (lookup_insert_eq _ _ _)).
  assert (forall id q, m !! id = Some q -> 0 <= p_reservation q) as Hm'.
  { intros j q Hj. apply (Hm j). rewrite lookup_insert_ne; congruence. }
  specialize (IH Hm'). destruct (p_control p); lia.
Qed.

Lemma fresh_server_inv : Inv fresh_server.
Proof.
  constructor; cbn; unfold in_class, reserved, data_reserved, MAX_RETAINED, kept_for_control; rewrite ?map_sum_empty; try done.
  - intros t id. rewrite lookup_empty. split; [done|]. intros (p & Hp & _). by rewrite lookup_empty in Hp.
  - intros t. rewrite lookup_empty. by intros [? [=]].
Qed.

Lemma replied_inv s s' v : Inv s -> replied s s' v -> Inv s'.
Proof.
  intros [] (Hs & Hp & Ht & Hn & Hc & Hr & Hi). constructor; rewrite ?Hp, ?Ht, ?Hn, ?Hc, ?Hr; try done.
  - intros Hready. destruct Hi as [->|[-> _]]; auto.
  - intros Hini. rewrite Hs. setoid_rewrite elem_of_app. destruct Hi as [Hi|[_ [id ->]]]; [|exists id; right; by apply list_elem_of_singleton].
    rewrite Hi in Hini. destruct (inv_initialized0 Hini) as [id Hid]. exists id. by left.
Qed.

Lemma spawned_inv s s' id : Inv s -> spawned s s' id -> Inv s'.
Proof.
  intros [] (reservation & control & name & arguments & Hready & Hid & Hname & Hcrowd & Hres & Hcon & ->).
  assert (tasks s !! next_task s = None) as Hfresh.
  { destruct (tasks s !! next_task s) eqn:E; [|done]. pose proof (inv_fresh0 (next_task s) ltac:(by eexists)). lia. }
  pose proof (data_le (pending s) inv_kept0) as Hdata.
  unfold crowded in Hcrowd. bool_hyps. destruct inv_room0 as (Hr1 & Hr2 & Hr3), inv_reserved0 as [Hm1 Hm2].
  constructor; cbn.
  - intros t j. destruct (decide (t = next_task s)) as [->|Ht].
    + rewrite lookup_insert_eq. split.
      * intros [= <-]. exists (mkPending (next_task s) reservation control false). by rewrite lookup_insert_eq.
      * intros (p & Hp & Htask). destruct (decide (j = id)) as [->|]; [done|]. rewrite lookup_insert_ne in Hp by done.
        assert (tasks s !! next_task s = Some j) by (apply inv_tasks0; eauto). congruence.
    + rewrite lookup_insert_ne by done. rewrite inv_tasks0. destruct (decide (j = id)) as [->|]; [|by rewrite lookup_insert_ne].
      rewrite lookup_insert_eq, Hid. split; [naive_solver|]. intros (p & [= <-] & Htask). by cbn in Htask.
  - intros t. destruct (decide (t = next_task s)) as [->|]; [lia|]. rewrite lookup_insert_ne by done. intros Ht%inv_fresh0. lia.
  - intros j p. destruct (decide (j = id)) as [->|]; [rewrite lookup_insert_eq; by intros [= <-]|]. rewrite lookup_insert_ne by done. apply inv_kept0.
  - unfold in_class in *. rewrite !map_sum_insert by done. rewrite map_size_insert_None by done. destruct control; cbn; lia.
  - unfold reserved, data_reserved, kept_for_control in *. rewrite !map_sum_insert by done. destruct control; cbn; lia.
  - done.
  - apply Forall_app. split; [done|]. by apply Forall_singleton.
  - done.
  - done.
Qed.

(** A call that was cancelled stays as it is otherwise. *)
Definition marked (s s' : S_) (id : Id) : Prop :=
  exists p, pending s !! id = Some p
  /\ s' = with_pending s (<[id := mkPending (p_task p) (p_reservation p) (p_control p) true]> (pending s)).

Lemma map_sum_marked (f : Pending -> Z) (m : gmap Id Pending) id p :
  (forall q, f (mkPending (p_task q) (p_reservation q) (p_control q) true) = f q) -> m !! id = Some p ->
  map_sum f (<[id := mkPending (p_task p) (p_reservation p) (p_control p) true]> m) = map_sum f m.
Proof. intros Hf Hp. rewrite (map_sum_update f m id p) by done. rewrite Hf. lia. Qed.

Lemma marked_inv s s' id : Inv s -> marked s s' id -> Inv s'.
Proof.
  intros [] (p & Hp & ->). assert (forall f, (forall q, f (mkPending (p_task q) (p_reservation q) (p_control q) true) = f q) ->
    map_sum f (<[id := mkPending (p_task p) (p_reservation p) (p_control p) true]> (pending s)) = map_sum f (pending s)) as Hm.
  { intros f Hf. by apply map_sum_marked. }
  constructor; cbn; unfold in_class, reserved, data_reserved in *; rewrite ?Hm by (intros []; done); try done.
  - intros t j. rewrite inv_tasks0. destruct (decide (j = id)) as [->|]; [|by rewrite lookup_insert_ne].
    rewrite lookup_insert_eq, Hp. split; intros (q & [= <-] & Ht); eexists; by split.
  - intros j q. destruct (decide (j = id)) as [->|]; [rewrite lookup_insert_eq; intros [= <-]; exact (inv_kept0 id p Hp)|].
    rewrite lookup_insert_ne by done. apply inv_kept0.
Qed.

(** A notification may make the session ready or mark a call, and answers nothing. *)
Lemma notified_inv s method params s' : notified s method params = s' ->
  s' = s \/ (initialized s = true /\ s' = with_phase s (initialized s) true)
  \/ exists id, method = "notifications/cancelled" /\ get params "requestId" ≫= rpc_id = Some id /\ marked s s' id.
Proof.
  unfold notified. destruct (bool_decide (method = "notifications/initialized") && _ && _) eqn:E.
  - bool_hyps. subst method. cbn. intros <-. right. by left.
  - destruct (bool_decide (method = "notifications/cancelled") && ready s) eqn:E'; [|intros <-; by left]. bool_hyps.
    destruct (get params "requestId" ≫= rpc_id) as [id|] eqn:Hid; [|intros <-; by left].
    destruct (pending s !! id) as [p|] eqn:Hp; [|intros <-; by left]. intros <-. right. right. exists id.
    split_and!; try done. by exists p.
Qed.

Lemma ready_inv s : Inv s -> initialized s = true -> Inv (with_phase s (initialized s) true).
Proof. by intros [] Hi; constructor. Qed.

(** The call of a task that is joined. *)
Definition gone (s : S_) (task : nat) (id : Id) : S_ :=
  with_pending (with_tasks s (delete task (tasks s))) (delete id (pending s)).

Lemma task_of_spec s task id : Inv s -> tasks s !! task = Some id -> task_of (pending s) task = Some id.
Proof.
  intros [] Ht. apply inv_tasks0 in Ht as (p & Hp & Hpt). unfold task_of.
  destruct (find_first _ (map_to_list (pending s))) as [[j q]|] eqn:Hf.
  - apply find_first_Some in Hf as [Hin Hq]. apply elem_of_map_to_list in Hin. cbn in Hq. bool_hyps.
    assert (tasks s !! task = Some j) as Hj by (apply inv_tasks0; eauto).
    assert (tasks s !! task = Some id) as Hi by (apply inv_tasks0; eauto). cbn. congruence.
  - exfalso. pose proof (find_none _ _ Hf (id, p)) as Hn. cbn in Hn. rewrite bool_decide_eq_true_2 in Hn by done.
    discriminate Hn. apply list_elem_of_In. by apply elem_of_map_to_list.
Qed.

Lemma joined_inv s task o written s' n : Inv s -> joined s task o written = (s', n) ->
  (s' = s /\ n = Continues) \/ exists id p, pending s !! id = Some p /\ p_task p = task
  /\ ((n = Continues /\ p_cancelled p = true /\ s' = gone s task id)
      \/ (n = Continues /\ p_cancelled p = false /\ exists v, get v "id" = Some (id_json id)
          /\ s' = with_sent (gone s task id) (sent s ++ [v]))
      \/ (exists e, n = Returns (Err e)) /\ s' = gone s task id).
Proof.
  intros Hinv. unfold joined. destruct (tasks s !! task) as [id|] eqn:Ht; [|intros [= <- <-]; by left]. intros Hj. right.
  pose proof (task_of_spec s task id Hinv Ht) as Hof. pose proof Ht as Ht'. apply (inv_tasks s Hinv) in Ht' as (p & Hp & Htask).
  exists id, p. split_and!; try done.
  assert (exists v, get v "id" = Some (id_json id) /\
    (if p_cancelled p then (gone s task id, Continues) else reply (gone s task id) v written) = (s', n)) as (v & Hv & Hgo).
  { destruct o; cbn [with_tasks pending] in Hj; rewrite ?Hof in Hj; cbn [mbind option_bind] in Hj; rewrite Hp in Hj; cbn in Hj;
    eexists; (split; [|exact Hj]); done. }
  destruct (p_cancelled p); [injection Hgo as <- <-; by left|]. right.
  apply reply_inv in Hgo as [[-> ->]|[He ->]]; [left|by right]. split_and!; try done. by exists v.
Qed.

Lemma gone_inv s task id p : Inv s -> pending s !! id = Some p -> p_task p = task -> Inv (gone s task id).
Proof.
  intros [] Hp Ht. assert (tasks s !! task = Some id) as Htask by (apply inv_tasks0; eauto).
  pose proof (inv_kept0 id p Hp) as Hk. destruct inv_room0 as (Hr1 & Hr2 & Hr3), inv_reserved0 as [Hm1 Hm2].
  constructor; cbn; try done.
  - intros t j. destruct (decide (t = task)) as [->|Hne].
    + rewrite lookup_delete_eq. split; [done|]. intros (q & Hq & Hqt). destruct (decide (j = id)) as [->|]; [by rewrite lookup_delete_eq in Hq|].
      rewrite lookup_delete_ne in Hq by done. assert (tasks s !! task = Some j) by (apply inv_tasks0; eauto). congruence.
    + rewrite lookup_delete_ne, inv_tasks0 by done. destruct (decide (j = id)) as [->|]; [|by rewrite lookup_delete_ne].
      rewrite lookup_delete_eq, Hp. split; [intros (q & [= <-] & Hq); congruence|by intros (q & [=] & _)].
  - intros t [j Hj]. apply lookup_delete_Some in Hj as [_ Hj]. apply inv_fresh0. by eexists.
  - intros j q Hq. apply lookup_delete_Some in Hq as [_ Hq]. by apply (inv_kept0 j).
  - unfold in_class in *. rewrite (map_sum_delete _ (pending s) id p Hp) in Hr1. rewrite (map_sum_delete _ (pending s) id p Hp) in Hr2.
    rewrite map_size_delete, Htask. split_and!; [destruct (Bool.eqb _ true); lia|destruct (Bool.eqb _ false); lia|]. lia.
  - unfold reserved, data_reserved in *. rewrite (map_sum_delete _ (pending s) id p Hp) in Hm1. rewrite (map_sum_delete _ (pending s) id p Hp) in Hm2.
    destruct (p_control p); lia.
Qed.

(** ** Answers *)

(** The request of a line, and the request a line takes back. *)
Definition asks (frame : list byte) : option Id :=
  match envelope frame with Ok (id, _, _) => id | Err (id, _, _) => id end.
Definition takes_back (frame : list byte) : option Id :=
  match envelope frame with
  | Ok (None, method, params) =>
      if bool_decide (method = "notifications/cancelled") then get params "requestId" ≫= rpc_id else None
  | _ => None
  end.
Definition counts (f : list byte -> option Id) (id : Id) (e : Event) : Z :=
  match e with Line frame _ => if bool_decide (f frame = Some id) then 1 else 0 | _ => 0 end.
Definition asked (id : Id) (events : list Event) : Z := foldr (fun e n => counts asks id e + n) 0 events.

(** The answers to a request among what was written, and the request while its call runs. *)
Definition answers (id : Id) (l : list Value) : Z :=
  len (List.filter (fun v => bool_decide (get v "id" = Some (id_json id))) l).
Definition flies (id : Id) (s : S_) : bool := bool_decide (is_Some (pending s !! id)).
Definition in_flight (id : Id) (s : S_) : Z := if flies id s then 1 else 0.
(** The agent takes back a request, in a session that is ready. *)
Definition notice (id : Id) (s : S_) (e : Event) : bool :=
  ready s && match e with Line frame _ => bool_decide (takes_back frame = Some id) | _ => false end.

(** The calls under an identifier that ended after the agent had taken them back: the
    notice came while that very call was running. [noticed] says whether it has, for
    the call that runs now. *)
Fixpoint taken_back (id : Id) (noticed : bool) (events : list Event) (s : S_) : Z :=
  match events with
  | [] => 0
  | e :: events =>
      match turn s e with
      | (s', Continues) =>
          (if flies id s && negb (flies id s') && noticed then 1 else 0)
          + taken_back id (flies id s' && (noticed || notice id s e)) events s'
      | (_, Returns _) => 0
      end
  end.

(** What has been answered or still runs, and the mark of a call that runs. *)
Definition account (id : Id) (s : S_) : Z := answers id (sent s) + in_flight id s.
Definition flagged (id : Id) (s : S_) : bool :=
  match pending s !! id with Some p => p_cancelled p | None => false end.

Lemma flagged_none id s b : b = false -> flagged id s = flies id s && (flagged id s || b).
Proof. intros ->. rewrite orb_false_r. unfold flagged, flies. by destruct (pending s !! id). Qed.

Lemma answers_snoc id l v :
  answers id (l ++ [v]) = answers id l + (if bool_decide (get v "id" = Some (id_json id)) then 1 else 0).
Proof. unfold answers. rewrite List.filter_app, len_app. cbn. by destruct (bool_decide _). Qed.

Lemma counts_nonneg f id e : 0 <= counts f id e.
Proof. unfold counts. destruct e; try lia. by destruct (bool_decide _). Qed.
Lemma asked_nonneg id events : 0 <= asked id events.
Proof. unfold asked. induction events as [|e events IH]; [done|]. cbn. pose proof (counts_nonneg asks id e). lia. Qed.

Class LocalRpcLaws : Prop := {
  id_json_inj : Inj eq eq id_json;
  id_json_some (id : Id) : id_json id <> Null }.
Context `{!LocalRpcLaws}.
#[local] Existing Instance id_json_inj.

(** One turn settles the account of a request: what it asks is answered, runs, or was
    taken back before it ended. *)
Definition Settles (s : S_) (e : Event) (s' : S_) : Prop :=
  forall id, account id s' + (if flies id s && negb (flies id s') && flagged id s then 1 else 0)
             = account id s + counts asks id e
  /\ flagged id s' = flies id s' && (flagged id s || notice id s e).

Lemma json_decide (id j : Id) : bool_decide (Some (id_json id) = Some (id_json j)) = bool_decide (Some id = Some j).
Proof. apply bool_decide_ext. split; [by intros [= ->%(inj id_json)]|by intros [= ->]]. Qed.

Lemma idle_settles s e : (forall id, counts asks id e = 0) -> (forall id, notice id s e && flies id s = false) -> Settles s e s.
Proof.
  intros Hc Hn id. rewrite Hc. specialize (Hn id). unfold flagged, flies in *. destruct (pending s !! id) as [p|]; cbn in *.
  - rewrite andb_true_r in Hn. rewrite Hn, orb_false_r. by split; [lia|].
  - split; [lia|done].
Qed.

Lemma replied_settles s s' v e : replied s s' v -> (forall id, notice id s e = false) ->
  (forall id, counts asks id e = if bool_decide (get v "id" = Some (id_json id)) then 1 else 0) -> Settles s e s'.
Proof.
  intros (Hs & Hp & _) Hn Hc id. unfold account, in_flight, flies, flagged. rewrite Hn, Hs, Hp, answers_snoc, Hc, orb_false_r.
  destruct (pending s !! id); cbn; split; try lia; done.
Qed.

Lemma spawned_settles s s' id e : spawned s s' id -> (forall j, notice j s e = false) ->
  (forall j, counts asks j e = if bool_decide (Some id = Some j) then 1 else 0) -> Settles s e s'.
Proof.
  intros (reservation & control & name & arguments & _ & Hid & _ & _ & _ & _ & ->) Hn Hc j.
  unfold account, in_flight, flies, flagged. cbn [sent pending]. rewrite Hn, Hc, orb_false_r. destruct (decide (id = j)) as [->|].
  - rewrite lookup_insert_eq, Hid, (bool_decide_eq_true_2 (Some j = Some j)) by done. cbn. split; [lia|done].
  - rewrite lookup_insert_ne, (bool_decide_eq_false_2 (Some id = Some j)) by congruence.
    destruct (pending s !! j); cbn; split; try lia; done.
Qed.

(** A notification answers nothing and marks the call that it takes back. *)
Lemma notified_settles s e method params s' : notified s method params = s' -> (forall j, counts asks j e = 0) ->
  (forall j, notice j s e = ready s && bool_decide (method = "notifications/cancelled")
     && bool_decide (get params "requestId" ≫= rpc_id = Some j)) -> Settles s e s'.
Proof.
  unfold notified. intros Hs Hc Hn.
  destruct (bool_decide (method = "notifications/initialized") && _ && _) eqn:E.
  { bool_hyps. subst method. rewrite (bool_decide_eq_false_2 ("notifications/initialized" = "notifications/cancelled")) in Hs, Hn by done.
    cbn in Hs. subst s'. intros j. rewrite Hc, Hn. cbn. rewrite andb_false_r, Z.add_0_r.
    split; [|by apply (flagged_none j s)]. unfold account, in_flight, flies. cbn. destruct (pending s !! j); cbn; lia. }
  destruct (bool_decide (method = "notifications/cancelled") && ready s) eqn:E'.
  - bool_hyps. destruct (get params "requestId" ≫= rpc_id) as [id|] eqn:Hid.
    2: { subst s'. apply idle_settles; [done|]. intros j. rewrite Hn. cbn. by rewrite andb_false_r. }
    destruct (pending s !! id) as [p|] eqn:Hp; subst s'.
    + intros j. rewrite Hc, Hn. unfold account, in_flight, flies, flagged. cbn [sent pending with_pending].
      destruct (decide (id = j)) as [->|].
      * rewrite lookup_insert_eq, Hp, !bool_decide_eq_true_2 by (done || by eexists). cbn.
        split; [lia|]. destruct (ready s); [by rewrite orb_true_r|done].
      * rewrite lookup_insert_ne, (bool_decide_eq_false_2 (Some id = Some j)), andb_false_r, orb_false_r by congruence.
        destruct (pending s !! j); cbn; split; try lia; done.
    + apply idle_settles; [done|]. intros j. unfold flies. destruct (decide (id = j)) as [->|].
      * by rewrite Hp, andb_false_r.
      * rewrite Hn, (bool_decide_eq_false_2 (Some id = Some j)) by congruence. by rewrite andb_false_r.
  - subst s'. apply idle_settles; [done|]. intros j. rewrite Hn, (andb_comm (ready s)), E'. done.
Qed.

(** What a line does to the account of a request. *)
Lemma received_turn s frame written s' n : Inv s -> received s frame written = (s', n) ->
  Inv s' /\ (n = Continues -> Settles s (Line frame written) s')
  /\ (forall r, n = Returns r -> forall id, account id s' <= account id s).
Proof.
  intros Hinv. unfold received.
  destruct (envelope frame) as [[[[id|] method] params]|[[id code] message]] eqn:He.
  - assert (forall j, counts asks j (Line frame written) = if bool_decide (Some id = Some j) then 1 else 0) as Hc
      by (intros j; unfold counts, asks; by rewrite He).
    assert (forall j, notice j s (Line frame written) = false) as Hn
      by (intros j; unfold notice, takes_back; rewrite He; by rewrite andb_false_r).
    intros Hr. apply requested_inv in Hr as [(r & -> & Hs')|[-> Hs']]; [..|pose proof (len_nonneg frame); lia].
    + split; [destruct Hs' as [->|(v & _ & Hs')]; [done|by eapply replied_inv]|]. split; [done|]. intros _ _ j.
      destruct Hs' as [->|(v & Hv & Hs & Hp & _)]; [done|]. unfold account, in_flight, flies. rewrite Hs, Hp, answers_snoc, Hv.
      rewrite bool_decide_eq_false_2; [lia|]. intros [=E]. by apply (id_json_some j).
    + destruct Hs' as [(v & Hv & Hs')|Hs'].
      * split; [by eapply replied_inv|]. split; [|done]. intros _. eapply replied_settles; [done|done|].
        intros j. by rewrite Hc, Hv, json_decide.
      * split; [by eapply spawned_inv|]. split; [|done]. intros _. by eapply spawned_settles.
  - intros [= Hr <-]. assert (forall j, counts asks j (Line frame written) = 0) as Hc by (intros j; unfold counts, asks; by rewrite He).
    assert (forall j, notice j s (Line frame written) = ready s && bool_decide (method = "notifications/cancelled")
              && bool_decide (get params "requestId" ≫= rpc_id = Some j)) as Hn.
    { intros j. unfold notice, takes_back. rewrite He. destruct (ready s), (bool_decide (method = _)); done. }
    pose proof (notified_inv _ _ _ _ Hr) as Hinv'. split; [|split; [|done]].
    + destruct Hinv' as [->|[[Hi ->]|(id & _ & _ & Hm)]]; [done|by apply ready_inv|by eapply marked_inv].
    + intros _. by eapply notified_settles.
  - intros Hr. apply reply_inv in Hr as [[-> ->]|[[e ->] ->]]; [|by split_and!].
    split; [eapply replied_inv; [done|apply with_sent_replied]|]. split; [|done]. intros _.
    eapply replied_settles; [apply with_sent_replied| |].
    + intros j. unfold notice, takes_back. rewrite He. by rewrite andb_false_r.
    + intros j. rewrite get_id_failure. unfold counts, asks. rewrite He. destruct id as [id|]; cbn; [by rewrite json_decide|].
      rewrite !bool_decide_eq_false_2; [done| |done]. intros [=E]. by destruct (id_json_some j).
Qed.

(** What a joined task does to the account of a request. *)
Lemma joined_turn s task o written s' n : Inv s -> joined s task o written = (s', n) ->
  Inv s' /\ (n = Continues -> Settles s (Joined task o written) s')
  /\ (forall r, n = Returns r -> forall id, account id s' <= account id s).
Proof.
  intros Hinv Hj.
  assert (forall j, notice j s (Joined task o written) = false) as Hn by (intros j; unfold notice; by rewrite andb_false_r).
  apply joined_inv in Hj as [[-> ->]|(id & p & Hp & Ht & Hcase)]; [| |done].
  { split_and!; try done. intros _. apply idle_settles; [done|]. intros j. by rewrite Hn. }
  pose proof (gone_inv s task id p Hinv Hp Ht) as Hgone.
  assert (forall j, pending (gone s task id) !! j = if decide (j = id) then None else pending s !! j) as Hfl.
  { intros j. cbn. destruct (decide (j = id)) as [->|]; [by rewrite lookup_delete_eq|by rewrite lookup_delete_ne]. }
  destruct Hcase as [(-> & Hc & ->)|[(-> & Hc & v & Hv & ->)|[(e & ->) ->]]].
  - split_and!; try done. intros _ j. unfold account, in_flight, flies, flagged. rewrite Hn, Hfl. change (sent (gone s task id)) with (sent s).
    destruct (decide (j = id)) as [->|Hx]; [rewrite Hp, Hc; cbn; split; [lia|done]|]. destruct (pending s !! j); cbn; rewrite ?orb_false_r; split; try lia; done.
  - split; [eapply replied_inv; [exact Hgone|exact (with_sent_replied (gone s task id) v)]|]. split; [|done]. intros _ j.
    unfold account, in_flight, flies, flagged. change (pending (with_sent (gone s task id) (sent s ++ [v]))) with (pending (gone s task id)).
    rewrite Hn, Hfl. cbn [sent with_sent]. rewrite answers_snoc, Hv, json_decide.
    destruct (decide (j = id)) as [->|Hx]; [rewrite Hp, Hc, (bool_decide_eq_true_2 (Some id = Some id)) by done; cbn; split; [lia|done]|].
    rewrite (bool_decide_eq_false_2 (Some id = Some j)) by congruence. destruct (pending s !! j); cbn; rewrite ?orb_false_r; split; try lia; done.
  - split_and!; try done. intros _ _ j. unfold account, in_flight, flies. rewrite Hfl. change (sent (gone s task id)) with (sent s).
    destruct (decide (j = id)) as [->|Hx]; [rewrite Hp; cbn; lia|lia].
Qed.

Lemma turn_spec s e s' n : Inv s -> turn s e = (s', n) ->
  Inv s' /\ (n = Continues -> Settles s e s') /\ (forall r, n = Returns r -> forall id, account id s' <= account id s).
Proof.
  intros Hinv. destruct e as [task o written| |frame written|r]; cbn [turn].
  - by apply joined_turn.
  - destruct (ready s) eqn:Hr; intros [= <- <-]; split_and!; try done. intros _. apply idle_settles; [done|].
    intros id. unfold notice. by rewrite andb_false_r.
  - by apply received_turn.
  - by intros [= <- <-].
Qed.

Lemma serve_spec events : forall s s' r, Inv s -> serve events s = (s', r) ->
  Inv s' /\ forall id,
    account id s' <= account id s + asked id events
    /\ (r = None -> account id s' + taken_back id (flagged id s) events s = account id s + asked id events).
Proof.
  induction events as [|e events IH]; intros s s' r Hinv; cbn [serve].
  { intros [= <- <-]. split; [done|]. intros id. cbn. lia. }
  destruct (turn s e) as [s1 n] eqn:Ht. pose proof Ht as Hturn. apply turn_spec in Ht as (Hinv1 & Hgo & Hstop); [|done]. destruct n as [|r'].
  - intros Hs. destruct (IH _ _ _ Hinv1 Hs) as [Hi Hacc]. split; [done|]. intros id. destruct (Hacc id) as [Hle Heq].
    destruct (Hgo eq_refl id) as [Hset Hflag]. cbn [taken_back]. change (asked id (e :: events)) with (counts asks id e + asked id events). rewrite Hturn, <-Hflag.
    split; [|intros Hr; specialize (Heq Hr)]; destruct (flies id s && negb (flies id s1) && flagged id s); lia.
  - intros [= <- <-]. split; [done|]. intros id. split; [|done]. pose proof (Hstop r' eq_refl id).
    pose proof (counts_nonneg asks id e). pose proof (asked_nonneg id events). cbn [asked foldr]. unfold asked in *. lia.
Qed.

Lemma fresh_account id : account id fresh_server = 0 /\ flagged id fresh_server = false.
Proof. unfold account, in_flight, flies, flagged. cbn. by rewrite lookup_empty. Qed.

(** C22: every request is answered once. Whatever lines come in, however tasks end and
    writes go, the answers that were written under an identifier and the call that runs
    under it are never more than the requests that came in under it; and while the
    server runs they are exactly those requests, less the calls that the agent took back
    while they ran and that have ended since: a notice that comes for no running call
    takes nothing back, then or later. *)
Theorem answered_once events s r id : serve events fresh_server = (s, r) ->
  answers id (sent s) + in_flight id s <= asked id events
  /\ (r = None -> answers id (sent s) + in_flight id s + taken_back id false events fresh_server = asked id events).
Proof.
  intros Hs. destruct (serve_spec _ _ _ _ fresh_server_inv Hs) as [_ Hacc]. destruct (Hacc id) as [Hle Heq].
  destruct (fresh_account id) as [Hfresh Hf]. rewrite Hfresh in *. rewrite Hf in Heq. unfold account in *. split; [lia|exact Heq].
Qed.

(** C23: what runs is bounded and authorized. At any time at most two control calls and
    eight others run, each as one task that answers one request in flight; what they
    reserve stays within the limit, and what the others reserve leaves room for control;
    only the tools of the server are called, only once the session is ready, and it is
    ready only after its initialization was answered. *)
Theorem calls_bounded events s r : serve events fresh_server = (s, r) ->
  in_class true (pending s) <= 2 /\ in_class false (pending s) <= 8
  /\ reserved (pending s) <= MAX_RETAINED /\ data_reserved (pending s) <= MAX_RETAINED - kept_for_control
  /\ (forall task id, tasks s !! task = Some id <-> exists p, pending s !! id = Some p /\ p_task p = task)
  /\ Forall (fun c => c.1.2 ∈ NAMES) (called s)
  /\ (called s <> [] -> ready s = true /\ initialized s = true /\ exists id, success (id_json id) welcome ∈ sent s).
Proof.
  intros Hs. destruct (serve_spec _ _ _ _ fresh_server_inv Hs) as [[] _]. destruct inv_room0 as (? & ? & _), inv_reserved0 as [? ?].
  split_and!; try done. intros Hc. split_and!; auto.
Qed.
End Serving.
