(* ===== verification/LocalCall.v ===== *)
(** * A call of a local tool ([aap-mcp/src/lib.rs])

    What a task of the tool server runs: the arguments are checked and parsed, the
    session is asked, and its answer becomes the result of the tool. A response of the
    session is read in full and reduced to what an agent may have. The session is a
    record of answers; [serde] and the [rmcp] crate's results are a class. *)
From S2P Require Import Prelude Protocol Ids Json Tools McpWire Injection Forward LocalTools.

(** What the source deserializes arguments into and serializes, and the envelopes of a
    result. *)
Class ToolTypes := {
  search_of : Value -> option SearchItems;
  login_of : Value -> option GetLogin;
  context_of : Value -> option AuthContext;
  request_of : Value -> option string;
  execute_of : Value -> option ExecuteRequest;
  status_of : Value -> option OperationStatus;
  status_json : OperationStatus -> Value;
  code_json : ErrorCode -> Value;
  from_slice : list byte -> option Value;
  structured : Value -> Value;
  structured_error : Value -> Value }.

(** A response of the session: its frames are data, trailers, or an error. *)
Inductive BodyFrame := DataFrame (bytes : list byte) | TrailerFrame | ErrorFrame (e : Error).
Record ToolResponse := mkToolResponse {
  tr_status : Z; tr_headers : list (string * list byte); tr_frames : list BodyFrame }.

(** The session behind the tools. *)
Record Service := mkService {
  sv_search : SearchItems -> Result Value;
  sv_login : GetLogin -> Result Value;
  sv_auth_status : AuthContext -> Result Value;
  sv_logout : AuthContext -> Result Value;
  sv_status : string -> Result Value;
  sv_cancel : string -> Result Value;
  sv_execute : ExecuteRequest -> Result ToolResponse }.

Definition operation_state : string := "x-aap-operation-state".
Definition cleanup_header : string := "x-aap-remote-cleanup".
Definition withheld_names : list string :=
  ["set-cookie"; "set-cookie2"; "cookie"; "authorization"; "proxy-authorization"; "proxy-authenticate";
   "www-authenticate"; "connection"; "transfer-encoding"; "content-length"].

(** A header that the result of a tool does not have. *)
Definition withheld (name : string) : bool :=
  (str_starts_with name "x-aap-" && negb (bool_decide (name = cleanup_header))) || bool_decide (name ∈ withheld_names).

Section Calls.
Context `{Base64} `{HttpMessage} `{JsonText} `{ToolTypes} (service : Service).

(** `aap-mcp/src/lib.rs:213-219`, `valid_id` *)
Definition check_id (id : string) (bytes : Z) : Result unit := if valid_id id bytes then Ok tt else fail RequestInvalid.
(** `aap-mcp/src/lib.rs:220-222`, `parse` *)
Definition parse_arguments {A} (from_value : Value -> option A) (arguments : Value) : Result A :=
  ok_or (from_value arguments) (Error_new RequestInvalid).
(** `aap-mcp/src/lib.rs:223-226`, `value` *)
Definition value_of (v : Value) : Result Value :=
  bytes ← encode_bounded v MAX_BODY; ok_or (from_slice bytes) (Error_new InternalError).

Definition header_total (hs : list (string * list byte)) : Z := foldr Z.add 0 (map (fun h => slen h.1 + len h.2) hs).

(** `aap-mcp/src/lib.rs:92-116`, `Tools::execute` (the request) *)
Definition check_execute (r : ExecuteRequest) : Result unit :=
  _ ← check_id (request_id r) 16;
  _ ← match auth_context r with Some context => check_id context 32 | None => Ok tt end;
  if ((MAX_BODY + 2) / 3 * 4 <? slen (body_base64 r)) || (64 <? len (headers r))
     || (16 * 1024 <? foldr Z.add 0 (map (fun h => slen h.1 + slen h.2) (headers r)))
  then fail LimitExceeded
  else
    decoded ← ok_or (Ids.decode STANDARD (as_bytes (body_base64 r))) (Error_new RequestInvalid);
    if MAX_BODY <? len decoded then fail LimitExceeded
    else if bool_decide (Ids.encode STANDARD decoded = as_bytes (body_base64 r)) then Ok tt else fail RequestInvalid.

(** `aap-mcp/src/lib.rs:121-135`, `Tools::execute` (whether the operation existed) *)
Definition existing_operation (hs : list (string * list byte)) : Result bool :=
  match get_all operation_state hs with
  | [] => Ok false
  | value :: _ =>
      if bool_decide (value = as_bytes "existing") && (len (get_all operation_state hs) =? 1) then Ok true
      else fail ResultUnavailable
  end.

(** `aap-mcp/src/lib.rs:136-147`, `Tools::execute` (the body) *)
Fixpoint collect_body (frames : list BodyFrame) (bytes : list byte) : Result (list byte) :=
  match frames with
  | [] => Ok bytes
  | ErrorFrame e :: _ => Err e
  | TrailerFrame :: _ => fail InspectionUnavailable
  | DataFrame data :: frames =>
      if saturating_sub MAX_BODY (len bytes) <? len data then fail LimitExceeded else collect_body frames (bytes ++ data)
  end.

(** `aap-mcp/src/lib.rs:148-164`, `Tools::execute` (the outcome of a cleanup) *)
Definition cleanup_misplaced (r : ExecuteRequest) (response : ToolResponse) (existing : bool) (bytes : list byte) : bool :=
  match get_all cleanup_header (tr_headers response) with
  | [] => false
  | value :: _ =>
      negb (bool_decide (method r = "DELETE") && bool_decide (body_base64 r = EmptyString)) || existing
      || negb (tr_status response =? 204) || negb (bool_decide (bytes = []))
      || negb (len (get_all cleanup_header (tr_headers response)) =? 1)
      || match text ← to_str value; from_header (from_bytes text) with Some _ => false | None => true end
  end.

(** `aap-mcp/src/lib.rs:185-206`, `Tools::execute` (the headers) *)
Fixpoint result_headers (hs : list (string * list byte)) : Result (list (string * string)) :=
  match hs with
  | [] => Ok []
  | (name, value) :: hs =>
      if withheld name then result_headers hs
      else
        text ← ok_or (to_str value) (Error_new ResultUnavailable);
        rest ← result_headers hs; Ok ((name, from_bytes text) :: rest)
  end.

(** `aap-mcp/src/lib.rs:167-209`, `Tools::execute` (the result) *)
Definition response_result (id : string) (response : ToolResponse) (existing : bool) (bytes : list byte) : Result Value :=
  if existing then
    operation ← ok_or (Json.decode json_parse status_of bytes) (Error_new ResultUnavailable);
    if negb (bool_decide (status_request_id operation = id)) || negb (bool_decide (tr_status response ∈ [200; 202]))
    then fail ResultUnavailable
    else Ok (object [("kind", Str "operation"); ("operation", status_json operation)])
  else if (64 <? len (tr_headers response)) || (16 * 1024 <? header_total (tr_headers response)) then fail LimitExceeded
  else
    hs ← result_headers (tr_headers response);
    Ok (object [("kind", Str "response"); ("request_id", Str id); ("status", num (tr_status response));
                ("headers", Array (map (fun h => Array [Str h.1; Str h.2]) hs));
                ("body_base64", Str (from_bytes (Ids.encode STANDARD bytes))); ("complete", Bool true)]).

(** `aap-mcp/src/lib.rs:91-210`, `Tools::execute` *)
Definition execute_tool (r : ExecuteRequest) : Result Value :=
  _ ← check_execute r;
  response ← sv_execute service r;
  existing ← existing_operation (tr_headers response);
  bytes ← collect_body (tr_frames response) [];
  if cleanup_misplaced r response existing bytes then fail ResultUnavailable
  else response_result (request_id r) response existing bytes.

(** `aap-mcp/src/lib.rs:60-89`, `Tools::dispatch` *)
Definition dispatch_tool (name : string) (arguments : Value) : Result Value :=
  if bool_decide (name = "vault.search_items") then
    r ← parse_arguments search_of arguments; v ← sv_search service r; value_of v
  else if bool_decide (name = "vault.get_login") then
    r ← parse_arguments login_of arguments; _ ← check_id (get_login_request_id r) 16; v ← sv_login service r; value_of v
  else if bool_decide (name ∈ ["vault.auth_status"; "vault.logout"]) then
    r ← parse_arguments context_of arguments; _ ← check_id (auth_context_id r) 32;
    v ← (if bool_decide (name = "vault.auth_status") then sv_auth_status service r else sv_logout service r); value_of v
  else if bool_decide (name ∈ ["request.status"; "request.cancel"]) then
    id ← parse_arguments request_of arguments; _ ← check_id id 16;
    v ← (if bool_decide (name = "request.status") then sv_status service id else sv_cancel service id); value_of v
  else if bool_decide (name = "request.execute") then r ← parse_arguments execute_of arguments; execute_tool r
  else fail RequestInvalid.

(** `aap-mcp/src/lib.rs:227-238`, `tool_result` *)
Definition tool_result (r : Result Value) : Value :=
  match r with
  | Ok v => structured v
  | Err e => structured_error (object [("code", code_json (code e));
               ("request_id", match error_request_id e with Some id => Str id | None => Null end)])
  end.

(** `aap-mcp/src/lib.rs:37-41`, `Tools::call` (the request an error is about) *)
Definition argument_id (arguments : Value) : option string :=
  id ← get arguments "request_id" ≫= value_str; if valid_id id 16 then Some id else None.

(** `aap-mcp/src/lib.rs:33-58`, `Tools::call`; [in_time] is whether the tool answers
    within its time, [None] the refusal of a tool there is not *)
Definition call (in_time : bool) (name : string) (arguments : Value) : option Value :=
  if negb (bool_decide (name ∈ NAMES)) then None
  else
    let result :=
      match encode_bounded arguments MAX_INPUT with
      | Err e => Err e
      | Ok _ => if in_time then dispatch_tool name arguments else fail OutcomeUnknown
      end in
    Some (tool_result match result with Ok v => Ok v | Err e => Err (mkError (code e) (argument_id arguments)) end).
End Calls.

(** ** What a tool returns of a response *)

Section Returned.
Context `{Base64, !Base64Laws} `{HttpMessage} `{JsonText} `{ToolTypes} (service : Service).

Lemma collect_body_ok frames bytes all : collect_body frames bytes = Ok all ->
  exists chunks, frames = map DataFrame chunks /\ all = bytes ++ mjoin chunks /\ (len bytes <= MAX_BODY -> len all <= MAX_BODY).
Proof.
  revert bytes. induction frames as [|[data| |e] frames IH]; intros bytes; cbn; try done.
  - intros [= <-]. exists []. cbn. by rewrite app_nil_r.
  - destruct (_ <? _) eqn:Hlen; [done|]. intros (chunks & -> & -> & Hb)%IH. exists (data :: chunks). cbn.
    rewrite <-app_assoc. split_and!; try done. intros Hm. apply Z.ltb_ge in Hlen. rewrite app_assoc. apply Hb.
    rewrite len_app. unfold saturating_sub in Hlen. lia.
Qed.

Lemma result_headers_ok hs l : result_headers hs = Ok l ->
  Forall2 (fun h t => t.1 = h.1 /\ to_str h.2 = Some (as_bytes t.2)) (List.filter (fun h => negb (withheld h.1)) hs) l.
Proof.
  revert l. induction hs as [|[n v] hs IH]; intros l Hl; cbn in Hl |- *; [by injection Hl as <-|].
  destruct (withheld n); cbn; [by apply IH|]. apply bind_Ok in Hl as (text & Ht%ok_or_Ok & Hl).
  apply bind_Ok in Hl as (rest & Hr & [= <-]). constructor; [|by apply IH]. split; [done|]. cbn. by rewrite as_from_bytes.
Qed.

Lemma result_headers_names hs l : result_headers hs = Ok l -> Forall (fun h => withheld h.1 = false /\ h.1 ∈ map fst hs) l.
Proof.
  intros Hl%result_headers_ok. apply Forall_forall. intros t Ht. apply list_elem_of_lookup in Ht as [i Hi].
  destruct (Forall2_lookup_r _ _ _ _ _ Hl Hi) as (h & Hh & Hn & _). rewrite Hn.
  apply list_elem_of_lookup_2, list_elem_of_In, filter_In in Hh as [Hin Hw]. bool_hyps. split; [done|].
  apply list_elem_of_In, in_map_iff. by exists h.
Qed.

(** The result of an operation that existed before. *)
Definition operation_result (r : ExecuteRequest) (response : ToolResponse) (bytes : list byte) (v : Value) : Prop :=
  get_all operation_state (tr_headers response) = [as_bytes "existing"] /\ tr_status response ∈ [200; 202]
  /\ get_all cleanup_header (tr_headers response) = []
  /\ exists o, Json.decode json_parse status_of bytes = Some o /\ status_request_id o = request_id r
     /\ v = object [("kind", Str "operation"); ("operation", status_json o)].

(** The outcome of a cleanup: there is none, or one that is well formed, of the empty
    success of an empty DELETE. *)
Definition cleanup_told (r : ExecuteRequest) (response : ToolResponse) (bytes : list byte) : Prop :=
  get_all cleanup_header (tr_headers response) = []
  \/ exists value text outcome, get_all cleanup_header (tr_headers response) = [value]
       /\ to_str value = Some text /\ from_header (from_bytes text) = Some outcome
       /\ method r = "DELETE" /\ body_base64 r = EmptyString /\ tr_status response = 204 /\ bytes = [].

(** The result of a response: [hs] are its headers. *)
Definition whole_result (r : ExecuteRequest) (response : ToolResponse) (bytes : list byte) (v : Value) : Prop :=
  get_all operation_state (tr_headers response) = [] /\ cleanup_told r response bytes
  /\ len (tr_headers response) <= 64 /\ header_total (tr_headers response) <= 16 * 1024
  /\ exists hs body, get v "kind" = Some (Str "response") /\ get v "request_id" = Some (Str (request_id r))
     /\ get v "status" = Some (num (tr_status response)) /\ get v "complete" = Some (Bool true)
     /\ get v "headers" = Some (Array (map (fun h => Array [Str h.1; Str h.2]) hs))
     /\ get v "body_base64" = Some (Str body) /\ Ids.decode STANDARD (as_bytes body) = Some bytes
     /\ Forall2 (fun h t => t.1 = h.1 /\ to_str h.2 = Some (as_bytes t.2))
          (List.filter (fun h => negb (withheld h.1)) (tr_headers response)) hs
     /\ Forall (fun h => ~ (h.1 ∈ withheld_names) /\ (str_starts_with h.1 "x-aap-" = true -> h.1 = cleanup_header)) hs.

Lemma cleanup_placed r response bytes : cleanup_misplaced r response false bytes = false -> cleanup_told r response bytes.
Proof.
  unfold cleanup_misplaced, cleanup_told. destruct (get_all cleanup_header _) as [|value l]; [by left|]. intros Hc. right.
  bool_hyps. destruct (to_str value) as [text|] eqn:Ht; [|done]. cbn in *.
  destruct (from_header (from_bytes text)) as [o|] eqn:Ho; [|done].
  assert (l = []) as -> by (apply len_0; match goal with Hl : len (_ :: _) = 1 |- _ => rewrite len_cons in Hl end; lia).
  by exists value, text, o.
Qed.

Lemma response_result_ok r response existing bytes v :
  existing_operation (tr_headers response) = Ok existing -> cleanup_misplaced r response existing bytes = false ->
  response_result (request_id r) response existing bytes = Ok v ->
  operation_result r response bytes v \/ whole_result r response bytes v.
Proof.
  unfold existing_operation, response_result. intros He Hc Hr.
  destruct (get_all operation_state (tr_headers response)) as [|value l] eqn:Hst.
  - injection He as <-. right. split; [done|]. split; [by apply cleanup_placed|]. destruct (_ || _) eqn:Hb in Hr; [done|].
    apply orb_false_iff in Hb as [Hb1%Z.ltb_ge Hb2%Z.ltb_ge]. split; [done|]. split; [done|].
    apply bind_Ok in Hr as (hs & Hhs & [= <-]).
    exists hs, (from_bytes (Ids.encode STANDARD bytes)). split_and!; try done; [|by apply result_headers_ok|].
    + rewrite as_from_bytes. apply standard_round.
    + eapply Forall_impl; [by apply result_headers_names|]. intros [n t] [Hw _]. cbn [fst] in Hw |- *. unfold withheld in Hw.
      apply orb_false_iff in Hw as [Hw1 Hw2]. apply bool_decide_eq_false in Hw2. split; [done|]. intros Hpre. rewrite Hpre in Hw1.
      cbn [andb] in Hw1. by apply negb_false_iff, bool_decide_eq_true in Hw1.
  - destruct (_ && _) eqn:E in He; [|done]. injection He as <-. left. bool_hyps.
    assert (l = []) as -> by (apply len_0; match goal with Hl : len (_ :: _) = 1 |- _ => rewrite len_cons in Hl end; lia).
    subst value. apply bind_Ok in Hr as (o & Ho%ok_or_Ok & Hr). destruct (_ || _) eqn:E' in Hr; [done|]. injection Hr as <-. bool_hyps.
    split_and!; try done; [|by exists o]. unfold cleanup_misplaced in Hc.
    destruct (get_all cleanup_header (tr_headers response)); [done|]. rewrite orb_true_r in Hc. done.
Qed.

(** What a request may be: identifiers of the right length, at most 64 headers and 16 KiB
    of them, and a body within the limit in canonical base64. *)
Record request_bounded (r : ExecuteRequest) : Prop := {
  rq_id : valid_id (request_id r) 16 = true;
  rq_context : forall context, auth_context r = Some context -> valid_id context 32 = true;
  rq_headers : len (headers r) <= 64;
  rq_total : foldr Z.add 0 (map (fun h => slen h.1 + slen h.2) (headers r)) <= 16 * 1024;
  rq_length : slen (body_base64 r) <= (MAX_BODY + 2) / 3 * 4;
  rq_body : exists body, Ids.decode STANDARD (as_bytes (body_base64 r)) = Some body /\ len body <= MAX_BODY
    /\ as_bytes (body_base64 r) = Ids.encode STANDARD body }.

Lemma check_execute_Ok r : check_execute r = Ok tt -> request_bounded r.
Proof.
  unfold check_execute, check_id. intros Hck.
  apply bind_Ok in Hck as ([] & Hid & Hck). apply bind_Ok in Hck as ([] & Hctx & Hck). destruct (_ || _) eqn:Hb in Hck; [done|].
  apply bind_Ok in Hck as (body & Hdec%ok_or_Ok & Hck). destruct (MAX_BODY <? len body) eqn:Hlen; [done|].
  destruct (bool_decide _) eqn:Hcan in Hck; [|done]. apply orb_false_iff in Hb as [[Hb1%Z.ltb_ge Hb2%Z.ltb_ge]%orb_false_iff Hb3%Z.ltb_ge].
  constructor; try done.
  - by destruct (valid_id (request_id r) 16).
  - intros context Hc. rewrite Hc in Hctx. by destruct (valid_id context 32).
  - exists body. bool_hyps. by split_and!.
Qed.

(** C24: a tool hands on what it may and no more. When an execution returns a result, the
    request was within its bounds (identifiers, number and size of headers, size of the
    body) with its body in canonical form, and the session's response was read whole,
    without trailers and within the limit. The result is the state of this very request
    if the session already had it; otherwise the response with its exact body and with
    its at most 64 headers in order, without cookies, credentials and headers of the
    connection, and with no header of the broker except the outcome of a cleanup, which
    is a valid one and comes only once, with the empty success of an empty DELETE. *)
Theorem execution_reduced r v : execute_tool service r = Ok v ->
  request_bounded r
  /\ exists response chunks, sv_execute service r = Ok response /\ tr_frames response = map DataFrame chunks
  /\ len (mjoin chunks) <= MAX_BODY
  /\ (operation_result r response (mjoin chunks) v \/ whole_result r response (mjoin chunks) v).
Proof.
  unfold execute_tool. intros He. apply bind_Ok in He as ([] & Hck & He). split; [by apply check_execute_Ok|].
  apply bind_Ok in He as (response & Hres & He). apply bind_Ok in He as (existing & Hex & He).
  apply bind_Ok in He as (bytes & Hbytes & He). destruct (cleanup_misplaced _ _ _ _) eqn:Hcl; [done|].
  apply collect_body_ok in Hbytes as (chunks & Hfr & -> & Hm). exists response, chunks. split_and!; try done.
  - by apply Hm.
  - by eapply response_result_ok.
Qed.
End Returned.
