(* ===== verification/Concrete.v ===== *)
(** * Concrete instances and inputs

    The third-party parsers as small concrete functions, one operator
    configuration and one request: what evaluates the model. *)
From stdpp Require Import pretty.
From S2P Require Import Prelude Protocol Ids Json Tools Address Catalog Profile Secrets Injection Flow Operation Config.
Import Rfc4648 Rfc4648Laws.

(** ** Parsers *)

Definition token_byte (b : byte) : bool := is_ascii_alphanumeric b || bool_decide (b ∈ as_bytes "!#$%&'*+-.^_`|~").
Definition visible (b : byte) : bool := in_range 32 126 b || (byte_val b =? 9).

#[export] Instance sample_http : Http := {|
  HeaderName_from_bytes s :=
    if bool_decide (s = EmptyString) || negb (forallb token_byte (as_bytes s)) then None
    else Some (str_to_ascii_lowercase s);
  HeaderValue_from_str s := forallb visible (as_bytes s) |}.

#[export] Instance sample_messages : HttpMessage := {|
  Method_from_bytes s := forallb token_byte (as_bytes s);
  HeaderValue_from_bytes l := forallb visible l;
  to_str l := if forallb visible l then Some l else None;
  is_redirection z := (300 <=? z) && (z <? 400);
  is_informational z := (100 <=? z) && (z <? 200) |}.

Fixpoint cut (stop : byte -> bool) (l : list byte) : list byte * list byte :=
  match l with
  | [] => ([], [])
  | b :: rest => if stop b then ([], l) else let (x, y) := cut stop rest in (b :: x, y)
  end.
Definition is_byte (c b : byte) : bool := bool_decide (b = c).
Definition number_of (l : list byte) : option Z :=
  if bool_decide (l = []) || negb (forallb is_ascii_digit l) then None
  else Some (foldl (fun n b => n * 10 + (byte_val b - 48)) 0 l).

(** [https://host[:port][path][?query]] without user information. *)
Record Parts := mkParts { p_host : string; p_port : option Z; p_path : string; p_query : option string }.
Definition parts (s : string) : option Parts :=
  rest ← strip_prefix (as_bytes s) (as_bytes "https://");
  let (auth, rest) := cut (fun b => is_byte "/"%char b || is_byte "?"%char b) rest in
  let (host, port) := cut (is_byte ":"%char) auth in
  let (pth, qry) := cut (is_byte "?"%char) rest in
  if bool_decide (host = []) || negb (forallb (fun b => is_ascii_alphanumeric b || is_byte "."%char b || is_byte "-"%char b) host)
  then None
  else
    port ← match port with [] => Some None | _ :: ds => n ← number_of ds; Some (Some n) end;
    Some (mkParts (from_bytes host) port (from_bytes pth)
            (match qry with [] => None | _ :: q => Some (from_bytes q) end)).
Definition decimal (n : Z) : string := pretty n.

#[export] Instance sample_urls : Urls := {|
  Uri_parse s :=
    p ← parts s;
    let text := match p_port p with Some n => p_host p +:+ ":" +:+ decimal n | None => p_host p end in
    Some (mkUri (Some "https") (Some (text, p_host p)) (p_port p) (p_path p) (p_query p));
  Url_parse s :=
    p ← parts s;
    let shown := match p_port p with
                 | Some n => if n =? 443 then EmptyString else ":" +:+ decimal n | None => EmptyString end in
    let o := "https://" +:+ p_host p +:+ shown in
    let pth := if bool_decide (p_path p = EmptyString) then "/" else p_path p in
    Some {| host_str := Some (p_host p); username := EmptyString; password := None;
            url_port := Some (default 443 (p_port p)); url_path := pth; url_query := p_query p; url_origin := o;
            url_as_str := o +:+ pth +:+ match p_query p with Some q => "?" +:+ q | None => EmptyString end |} |}.

(** A quoted string, without escapes. *)
Definition quote (l : list byte) : option (list byte) := Some ("034"%char :: l ++ ["034"%char]).
Lemma quote_nonempty v j : quote v = Some j -> v <> [] -> (2 < length j)%nat.
Proof. intros [= <-] Hv. destruct v; [done|]. cbn. rewrite length_app. cbn. lia. Qed.

(** ** One observer *)

(** A recorder that accepts every batch its caller commits. *)
#[export] Instance accepting : Observer unit := {| observe S f es commit s := let (s, r) := commit s in (tt, s, r) |}.
#[export] Instance accepting_laws : ObserverLaws unit.
Proof.
  split. intros S [] es commit s [] s' r. cbn. destruct (commit s) as [s1 [[]|e]] eqn:E; intros [= <- <-].
  - by constructor.
  - by apply obs_rejected.
Qed.
(** ** One configuration *)

Definition sample_route : Route :=
  mkRoute "POST" "/v1/run" None 4096 4096 ["content-type"] false false.
Definition sample_profile : ResourceProfile :=
  mkResourceProfile "api" "https://api.example.com" Public [sample_route]
    (ApiKey "key-1" "x-api-key" EmptyString Generic).
Definition sample_item : Item := mkItem "key-1" "Key" "main" "api" (mkCredentialRef "vault" "entry") Inherit.
Definition sample_catalog : Catalog := mkCatalog 1 1 [sample_item].
Definition sample_config : Configuration := mkConfiguration sample_catalog [sample_profile] [] ["vault"] true true.
Definition sample_options : SessionOptions := mkOptions ["api"] None 1000000 false true.
Definition sample_request : ExecuteRequest :=
  mkExecuteRequest "AAAAAAAAAAAAAAAAAAAAAA" "api" None "POST" "https://api.example.com/v1/run"
    [("content-type", "application/json")] "e30=".
Definition sample_lease : Lease := mkLease "1" "g".
Definition sample_metadata : ItemMetadata := mkMetadata sample_lease [KApiKey] None.
Definition sample_secret : Snapshot := mkSnapshot sample_metadata [(KApiKey, as_bytes "k-123456")].
Definition sample_address : SocketAddr := (V4 93 184 216 34, 443).
Definition sample_authority : Authority := mkAuthority false false false 1000 0.
