(* ===== verification/Samples.v ===== *)
(** * Samples: the engine and its policy

    One run of a whole request and of the credential custody, concrete targets,
    profiles and tools, and the evidence that the hypotheses of their theorems can
    hold together. *)
From S2P Require Import Prelude Protocol Ids Json Tools Address Catalog Profile Observe Secrets Redaction Injection.
From S2P Require Import Cookies Flow Operation Guard Lifecycle Config Dispatch Delivery Concrete.
Import Rfc4648 Rfc4648Laws.

(** ** A run *)

(** No remote exchange. *)
#[export] Instance no_remote : RemoteContext unit := {|
  remote_gone _ := None; remote_check r _ := (r, Ok tt); remote_commit r _ := (r, Ok tt); remote_abandon r _ := r |}.

Definition sample_env : Env unit unit := {|
  between _ := []; elsewhere _ f := f; beside _ r := r; timed_out _ := false;
  on_resolve _ _ _ := Ok [sample_address];
  on_metadata _ _ _ := Ok sample_metadata;
  on_revalidate _ _ _ _ := Ok tt;
  on_secret _ _ _ _ := Ok sample_secret;
  on_reserve _ := true; on_permit _ := true; on_random _ := Some "id"; on_approve _ := Some (Ok true);
  on_execute _ _ := Ok (mkHttpResponse 200 [("content-type", as_bytes "application/json")] [as_bytes "{}"]);
  on_inspect _ _ := Ok tt |}.
Definition sample_world : World unit unit := mkWorld (tracked sample_authority sample_request tt) 0 [].
Definition sample_run : World unit unit * Result Sanitized :=
  dispatch quote sample_env sample_config sample_options sample_request sample_world.

(** ** Witnesses: the engine *)

Lemma dispatch_authorized_witness :
  dispatch quote sample_env sample_config sample_options sample_request sample_world = (sample_run.1, sample_run.2)
  /\ existsb executes (log sample_run.1) = true
  /\ exists l, log sample_run.1 = log sample_world ++ l /\ (no_execution l \/
      exists g rest, l = granted_calls sample_config sample_options sample_request g
                           ++ Executed (g_endpoint g) (g_request g) :: rest
        /\ admitted sample_env sample_config sample_options sample_request g
        /\ inserted quote sample_request g /\ Session_check (g_authority g) = Ok tt /\ no_execution rest).
Proof.
  assert (Hr : dispatch quote sample_env sample_config sample_options sample_request sample_world
               = (sample_run.1, sample_run.2)) by (vm_compute; reflexivity).
  split; [exact Hr|]. split; [vm_compute; reflexivity|].
  exact (dispatch_authorized quote sample_env sample_config sample_options _ _ _ _ Hr).
Defined.

Lemma dispatch_outcome_witness :
  is_ok sample_run.2 = true
  /\ let o := guard_op (guard_drop (life (guard sample_run.1) [MComplete])) in
     terminal (op_state o) = true
     /\ (is_ok sample_run.2 = true \/ ~ no_execution (log sample_run.1) -> op_state o = Completed \/ op_state o = OpOutcomeUnknown)
     /\ (dispatched (life (guard sample_run.1) [MComplete]) = false -> op_state o <> OpOutcomeUnknown).
Proof.
  split; [vm_compute; reflexivity|].
  apply (dispatch_outcome quote sample_env sample_config sample_options sample_authority sample_request tt 0
           sample_run.1 sample_run.2 [MComplete]); [vm_compute; reflexivity|repeat constructor].
Defined.

(** Its response, read in two polls; a third finds the end. *)
Definition sample_turn (b : poll (option (Result Frame))) : Turn unit :=
  mkTurn [] (fun f => f) false PollPending b PollPending [].
Definition one_frame (b : list byte) (k : nat) : Turn unit :=
  sample_turn (match k with O => PollReady (Some (Ok (Data_ b))) | _ => PollPending end).
Definition sample_end : nat -> Turn unit := fun _ => sample_turn (PollReady None).
Definition sample_turns : list (nat -> Turn unit) :=
  [one_frame (as_bytes "hello "); one_frame (as_bytes "world. Bye."); sample_end].
Definition sample_track : Tracked unit unit := tracked_body (guard sample_run.1) false.
Definition sample_read := read_body sample_track sample_turns.

Lemma delivery_observed_witness :
  finished (guard sample_run.1) = false /\ response_recorded (guard sample_run.1) = false
  /\ gave sample_read.1.2 = as_bytes "hello world. Bye."
  /\ (forall l1 l2, sample_read.1.2 = l1 ++ l2 -> exists ss,
    recorded l1 = flat_map render ss /\ gave l1 `prefix_of` flat_map source ss
    /\ ss `prefix_of` pieces recognizable (got sample_read.1.2))
  /\ (finished (tb_guard sample_read.1.1) = false ->
      got sample_read.1.2 = gave sample_read.1.2 ++ tb_unobserved sample_read.1.1
      /\ (length (tb_unobserved sample_read.1.1) < MAX_ENCODED)%nat).
Proof.
  split; [vm_compute; reflexivity|]. split; [vm_compute; reflexivity|]. split; [vm_compute; reflexivity|].
  apply (delivery_observed (guard sample_run.1) false sample_turns sample_read.1.1 sample_read.1.2 sample_read.2); vm_compute; reflexivity.
Defined.

Definition sample_finish := poll_frame sample_read.1.1 sample_end.
Lemma delivery_complete_witness :
  finished (tb_guard sample_read.1.1) = false /\ sample_finish.2 = PollReady None
  /\ told_once sample_finish.1.1 (sample_read.1.2 ++ sample_finish.1.2) sample_finish.2.
Proof.
  split; [vm_compute; reflexivity|]. split; [vm_compute; reflexivity|].
  apply (delivery_complete (guard sample_run.1) false sample_turns sample_read.1.1 sample_read.1.2 sample_read.2 sample_end);
    vm_compute; reflexivity.
Defined.

(** A request that is validated, made ready, dispatched and cancelled. *)
Definition sample_moves : list (Move unit unit) :=
  [MTransition Validated None; MTransition Ready None; MBegin; MOthers [OCancel]].
Definition sample_guard : Guard unit unit := tracked sample_authority sample_request tt.

(** The same request once its session is revoked. *)
Definition revoked_guard : Guard unit unit :=
  with_shared sample_guard (others [ORetire] (shared sample_guard)).

(** A dispatched request that completes. *)
Definition dispatched_guard : Guard unit unit := life sample_guard (take 3 sample_moves).

(** ** Witnesses: custody *)

Definition sample_values : list (list byte) := [as_bytes "s3cr3t-value"].
Definition sample_redactor : Redactor :=
  match Redactor_new quote sample_values with Ok r => r | Err _ => mkRedactor [] [] 0 true end.
Definition sample_chunks : list (list byte) := [as_bytes "token=s3cr"; as_bytes "3t-value&rest"].

Definition sample_key : PreparedKey :=
  match PreparedKey_new quote sample_secret EmptyString with
  | Ok k => k | Err _ => mkPreparedKey [] (mkRedactor [] [] 0 true) end.
Definition sample_outgoing : HttpRequest := mkHttpRequest "POST" "https://api.example.com/v1/run" [] [].
Definition sample_injected : HttpRequest * Redactor :=
  match inject sample_key sample_outgoing "x-api-key" with
  | Ok x => x | Err _ => (sample_outgoing, mkRedactor [] [] 0 true) end.
Definition sample_response : HttpResponse :=
  mkHttpResponse 200
    [("content-type", as_bytes "application/json"); ("set-cookie", as_bytes "sid=c00kie-value; Secure; Path=/")]
    [as_bytes "{ k-123456 c00k"; as_bytes "ie-value }"].
Definition sample_sanitized : Sanitized :=
  match sanitize_response quote sample_response sample_injected.2 with
  | Ok s => s | Err _ => mkSanitized 0 EmptyString None (mkRedactor [] [] 0 true) [] end.

Definition sample_script : list source_answer :=
  map (fun b => PollReady (Some (Ok (SourceData b)))) (frames sample_response) ++ [PollReady None].
Definition sample_body_read := sanitized_read 4 (sanitized_reader sample_sanitized) sample_script.

Lemma response_sanitized_witness :
  sanitize_response quote sample_response sample_injected.2 = Ok sample_sanitized
  /\ handed sample_body_read.2 = as_bytes "{ [redacted] [redacted] }"
  /\ exists key cookies seen,
    snapshot_field sample_secret KApiKey = Ok key
    /\ cookie_values (get_all "set-cookie" (response_headers sample_response)) [] = Some cookies
    /\ s_status sample_sanitized = http_status sample_response
    /\ s_media sample_sanitized ∈ ["application/json"; "text/event-stream"; "text/plain"]
    /\ sample_script = seen ++ sample_body_read.1.2
    /\ hides quote (key :: cookies) (data_of seen) (handed sample_body_read.2) false.
Proof.
  assert (Hs : sanitize_response quote sample_response sample_injected.2 = Ok sample_sanitized) by (vm_compute; reflexivity).
  split; [exact Hs|]. split; [vm_compute; reflexivity|].
  assert (Hk : PreparedKey_new quote sample_secret EmptyString = Ok sample_key) by (vm_compute; reflexivity).
  assert (Hi : inject sample_key sample_outgoing "x-api-key" = Ok (sample_injected.1, sample_injected.2)) by (vm_compute; reflexivity).
  destruct (response_sanitized quote sample_secret EmptyString sample_key sample_outgoing "x-api-key"
           sample_injected.1 sample_injected.2 sample_response sample_sanitized quote_nonempty Hk Hi Hs)
    as (key & cookies & R1 & R2 & R3 & _ & _ & _ & R7 & _ & R9).
  destruct (R9 4%nat sample_script sample_body_read.1.1 sample_body_read.1.2 sample_body_read.2) as (seen & Q1 & Q2 & _);
    [vm_compute; reflexivity|].
  exists key, cookies, seen. split; [exact R1|]. split; [exact R2|]. split; [exact R3|]. split; [exact R7|]. by split.
Defined.

Definition sample_target : Target :=
  match Target_parse "https://api.example.com/v1/run" with
  | Ok t => t
  | Err _ => mkTarget (Build_Url None EmptyString None None EmptyString None EmptyString EmptyString)
  end.
Definition sample_jar : CookieJar := CookieJar_new sample_target.
Definition no_date (l : list byte) : option Z := None.
Definition sample_captured : CookieJar * list (string * list byte) * Result Redactor :=
  capture quote no_date sample_jar sample_target (response_headers sample_response) 0.
Definition sample_header : CookieJar * Result (option (list byte)) := cookie_header sample_captured.1.1 sample_target 0.

(** ** Policy: targets, profiles and tools *)

Definition no_writer (l : list Value) : list (list byte) := [].

Definition policy_target : Target :=
  match Target_parse "https://api.example.com/v1/run" with
  | Ok t => t
  | Err _ => mkTarget (Build_Url None EmptyString None None EmptyString None EmptyString EmptyString)
  end.

Lemma sample_profile_valid : validate no_writer sample_profile = Ok tt.
Proof. vm_compute. reflexivity. Qed.

Lemma parsed_target_unambiguous_witness :
  Target_parse "https://api.example.com/v1/run" = Ok policy_target
  /\ (exists d, percent_decode (as_bytes (path policy_target)) = Some d
     /\ Forall2 segment_decodes (split_on slash (as_bytes (path policy_target))) (split_on slash d))
  /\ contains_double slash (as_bytes (path policy_target)) = false
  /\ Forall (fun b => 32 < byte_val b < 127 /\ b <> "\"%char /\ b <> "#"%char) (as_bytes "https://api.example.com/v1/run")
  /\ str_starts_with "https://api.example.com/v1/run" "https://" = true /\ slen "https://api.example.com/v1/run" <= 16384
  /\ username (url policy_target) = EmptyString /\ password (url policy_target) = None
  /\ url_port (url policy_target) <> Some 0.
Proof.
  assert (Hp : Target_parse "https://api.example.com/v1/run" = Ok policy_target) by (vm_compute; reflexivity).
  split; [exact Hp|]. exact (parsed_target_unambiguous _ _ Hp).
Defined.

Definition sample_tool : Tool := mkTool "add" "Adds." [("name", Text 8); ("n", Integer 0 9)].
Definition sample_arguments : list (string * Value) := [("n", Num (PosInt 3)); ("name", Str "abc")].
