(* ===== verification/SamplesStream.v ===== *)
(** * Samples: streams

    A short conversation of both sides of a stream for the theorems on frames and
    sequences, and the two ends that have it over one socket. *)
From S2P Require Import Prelude Protocol Ids Json Stream Sequence Decoder.
Import Rfc4648 Rfc4648Laws.

Definition sample_id : string := "AAAAAAAAAAAAAAAAAAAAAA".
Definition sample_open : Open := mkOpen sample_id "tcp".
Definition sample_opened : Opened :=
  mkOpened sample_id "tcp" 1024 4096 4096 1000 10000 PlaintextBytes Required.
Definition sample_terminal : Terminal := mkTerminal (mkStatus sample_id Completed None) OrderlyEnd 2 3.

(** Each control record of the conversation has one text. *)
#[export] Instance sample_serde : Serde := {|
  parse bytes := Some (RStr (from_bytes bytes));
  open_from_value v := Some sample_open;
  pending_from_value v := None;
  opened_from_value v := if bool_decide (v = Str "o") then Some sample_opened else None;
  terminal_from_value v := if bool_decide (v = Str "t") then Some sample_terminal else None;
  pending_to_vec _ := None;
  opened_to_vec _ := Some (as_bytes "o");
  terminal_to_vec _ := Some (as_bytes "t") |}.

Definition sample_start : Sequence :=
  mkSequence sample_open false None (Direction_default, Direction_default) false.

(** The whole conversation, with who sent each frame. *)
Definition sample_trace : list (Sender * Frame) :=
  [(Daemon, FOpened sample_opened); (Agent, FData (as_bytes "hi")); (Agent, FSendEnd);
   (Daemon, FData (as_bytes "yes")); (Daemon, FSendEnd)].
Definition run_trace (l : list (Sender * Frame)) (s : Sequence) : Sequence :=
  foldl (fun s e => (accept s e.1 e.2).2) s l.
Definition sample_end : Sequence := run_trace sample_trace sample_start.

(** Accepted frames one by one. *)
Lemma run_reach (l : list (Sender * Frame)) trace s : reach sample_open trace s ->
  (forall k e, l !! k = Some e -> (accept (run_trace (take k l) s) e.1 e.2).1 = Ok tt) ->
  reach sample_open (trace ++ l) (run_trace l s).
Proof.
  revert trace s. induction l as [|[d f] l IH]; intros trace s Hr Hl; [by rewrite app_nil_r|].
  replace (trace ++ (d, f) :: l) with ((trace ++ [(d, f)]) ++ l) by by rewrite <-app_assoc.
  apply IH.
  - eapply reach_step; [exact Hr|]. constructor. pose proof (Hl 0%nat (d, f) eq_refl) as H0. cbn in H0 |- *.
    destruct (accept s d f) as [r s1]. cbn in *. by subst.
  - intros k e He. exact (Hl (S k) e He).
Qed.

Lemma sample_reached : reach sample_open sample_trace sample_end.
Proof.
  apply (run_reach sample_trace [] sample_start); [by constructor|].
  intros k e He. do 5 (destruct k as [|k]; [injection He as <-; vm_compute; reflexivity|]). done.
Qed.

Lemma sequence_refines_witness :
  reach sample_open sample_trace sample_end
  /\ sample_end = abstract sample_open sample_trace
  /\ ((exists s', step sample_end (Daemon, FTerminal sample_terminal) s') <->
      is_ok (Frame_header (FTerminal sample_terminal)) = true
      /\ admissible sample_open sample_trace (Daemon, FTerminal sample_terminal)).
Proof.
  split; [exact sample_reached|].
  exact (sequence_refines sample_open sample_trace sample_end Daemon (FTerminal sample_terminal) sample_reached).
Defined.

Definition sample_final : Sequence := run_trace [(Daemon, FTerminal sample_terminal)] sample_end.
Lemma sample_finished : reach sample_open (sample_trace ++ [(Daemon, FTerminal sample_terminal)]) sample_final.
Proof.
  apply run_reach; [exact sample_reached|]. intros k e He. destruct k as [|k]; [|done].
  injection He as <-. vm_compute. reflexivity.
Qed.

(** ** Frames and the decoder *)

Definition encoded (f : Frame) : Encoded := match Frame_encode f with Ok e => e | Err _ => mkEncoded [] [] end.
Definition daemon_frames : list Frame := [FOpened sample_opened; FData (as_bytes "yes"); FSendEnd].
Definition daemon_wire : list byte := mjoin (map (fun f => wire (encoded f)) daemon_frames).

Lemma opened_round : serde_round (FOpened sample_opened).
Proof. intros bytes [= <-]. split; vm_compute; reflexivity. Qed.

Lemma default_idle : idle Decoder_default.
Proof. vm_compute. by split_and!. Qed.

Definition daemon_after : Sequence :=
  match accept_all sample_start Daemon daemon_frames with Some s => s | None => sample_start end.

(** ** The daemon's end *)

From S2P Require Import Wire.
From S2P Require Framed FramedFacts.

Module DaemonEnd.
Import Framed FramedFacts.

(** A socket that has these bytes, and takes what it is given. *)
Definition sample_io (bytes : list byte) : Io :=
  mkIo (fun _ => PollReady (Ok bytes)) PollPending (fun _ => PollReady (Ok 5)) (PollReady (Ok 3)).
Definition said : list byte := data_wire (as_bytes "hi") ++ end_wire.
Definition sample_moves : list Move :=
  [PollRead 16 (sample_io said); PollRead 16 (sample_io said);
   PollWrite (as_bytes "yes") (sample_io []); PollSendEnd (sample_io []); PollFault (sample_io []); DropAttachment].
Definition sample_framed : Framed :=
  match channel sample_open sample_opened with Ok f => f | Err _ => mkFramed false sample_start Decoder_default [] [] 0 0 0 None None true end.
Definition sample_acted : World * list Act := acts sample_moves (sample_framed, mkSocket [] []).

Lemma sample_moves_wf : Forall wf_move sample_moves.
Proof. repeat (apply Forall_cons_2; [cbn; try done; lia|]). apply Forall_nil_2. Qed.


(** *** A whole attachment *)

Definition sample_hosting : Hosting :=
  mkHosting (Some (Ok Connected)) (Ok sample_opened)
    [mkWriting PollPending (fun k => PollReady (Ok (if (k =? 0)%nat then 5 else 1)))]
    sample_moves (Some (Ok sample_terminal)) None.
Definition sample_served := serve_upgraded sample_open sample_hosting (mkSocket [] []).

Lemma terminal_round : serde_round (FTerminal sample_terminal).
Proof. intros bytes [= <-]. split; vm_compute; reflexivity. Qed.

Lemma conversation_complete_witness :
  sample_served.2 = Ok sample_terminal
  /\ exists o opening body inputs (input_end : bool) rest outputs output_end encs agent,
    Frame_encode (FOpened o) = Ok opening /\ put sample_served.1.1 = wire opening ++ body
    /\ got sample_served.1.1 = mjoin (map data_wire inputs) ++ (if input_end then end_wire else []) ++ rest
    /\ handed sample_served.1.2 `prefix_of` mjoin inputs /\ taken sample_served.1.2 = mjoin outputs
    /\ reach sample_open ((Daemon, FOpened o) :: side Agent inputs input_end) agent
    /\ body = mjoin (map wire encs)
    /\ Forall2 (fun f e => Frame_encode f = Ok e) (spoken outputs output_end sample_terminal) encs
    /\ (cause sample_terminal = OrderlyEnd \/ received_bytes sample_terminal <= len (taken sample_served.1.2) ->
        forall reads, mjoin reads = body -> exists d agent',
          drain_chunks Decoder_default reads agent Daemon = (spoken outputs output_end sample_terminal, None, d, agent')
          /\ finish d agent' = Ok tt)
    /\ (cause sample_terminal = OrderlyEnd -> input_end = true /\ output_end = true
          /\ sent_bytes sample_terminal = len (mjoin inputs) /\ received_bytes sample_terminal = len (taken sample_served.1.2)).
Proof.
  split; [vm_compute; reflexivity|].
  apply (conversation_complete sample_open sample_hosting sample_served.1.1 sample_served.1.2 sample_terminal);
    [vm_compute; reflexivity|reflexivity|exact sample_moves_wf|exact terminal_round].
Defined.
End DaemonEnd.

(** ** The agent's end *)

From S2P Require Attached AttachedFacts Tunnel.

Definition encoded_opening : Encoded := encoded (FOpened sample_opened).
Definition opening_wire : list byte := wire encoded_opening.
Definition last_wire : list byte := wire (encoded (FTerminal sample_terminal)).

Module AgentEnd.
Import Attached AttachedFacts Tunnel.

(** The application says two bytes and ends; the daemon's last frame comes after that. *)
Definition heard_wire : list byte := data_wire (as_bytes "yes") ++ end_wire.
Definition relay_tick (k : nat) : Tick :=
  mkTick 0 (fun _ => if (k <? 8)%nat then PollReady (Ok heard_wire) else if (k <? 10)%nat then PollPending else PollReady (Ok last_wire))
    (PollReady (Ok (if (k =? 5)%nat then 2 else 5)))
    (PollReady (Ok (if (k <? 7)%nat then as_bytes "hi" else []))) (PollReady (Ok 3)) (PollReady (Ok tt)) 0 0.
Definition opening_tick (k : nat) : Tick :=
  mkTick 0 (fun _ => PollReady (Ok opening_wire)) PollPending PollPending PollPending PollPending 0 0.
Definition sample_relaying : Polling := mkPolling 0 relay_tick 0.
Definition sample_calls : list Call := [CallConnect (mkPolling 0 opening_tick 0); CallAttach 0].
Definition sample_slot : Slot :=
  match Owner_new sample_open [] 0 with Ok s => s | Err _ => mkSlot None ResultUnavailable None end.
Definition sample_attached : Slot * list Told := calls sample_calls sample_slot.
Definition sample_ended : Slot * list Told := call (CallRelay sample_relaying) sample_attached.1.

Lemma agent_terminal_witness :
  sample_ended.2 = [ToldTerminal sample_terminal]
  /\ exists st r frames chunks part head, slot_state sample_ended.1 = Some st /\ relay_ st = Some r
  /\ spells (frames ++ [FTerminal sample_terminal]) (got (socket (link st)))
  /\ data_in frames = heard (application r) ++ incoming r
  /\ put (socket (link st)) = mjoin (map data_wire chunks) ++ head ++ part
  /\ mjoin chunks ++ part `prefix_of` spoke (application r) /\ sent_bytes sample_terminal <= len (mjoin chunks ++ part)
  /\ (cause sample_terminal = OrderlyEnd ->
      heard (application r) = data_in frames /\ heard_end (application r) = true
      /\ mjoin chunks = spoke (application r) /\ spoke_end (application r) = true /\ head ++ part = end_wire
      /\ received_bytes sample_terminal = len (heard (application r))
      /\ sent_bytes sample_terminal = len (spoke (application r))).
Proof.
  split; [vm_compute; reflexivity|].
  apply (agent_terminal sample_open [] 0 sample_slot sample_calls sample_attached.1 sample_attached.2 sample_relaying
           sample_ended.1 sample_terminal); vm_compute; reflexivity.
Defined.

(** *** Both ends *)

(** The whole conversation: attached, relayed to its end, the result told; then the
    agent's stream is gone. *)
Definition sample_over : Slot * list Told := calls (sample_calls ++ [CallRelay sample_relaying]) sample_slot.
Definition blank : State := mkState (mkLink [] Decoder_default sample_start 0 (mkSocket [] [])) None 0 None.
Definition state_over : State := default blank (last_state sample_over.1).
Definition daemon_over : Socket * list Framed.Act * Result Terminal := DaemonEnd.sample_served.

Lemma sample_reads_back : reads_backs DaemonEnd.sample_hosting.
Proof.
  split; [intros o [= <-]; exact opened_round|]. intros t [[=]|[= <-]]. exact DaemonEnd.terminal_round.
Qed.

Lemma tunnel_faithful_witness :
  heard (application_of state_over) = as_bytes "yes" /\ FramedFacts.handed daemon_over.1.2 = as_bytes "hi"
  /\ got daemon_over.1.1 = put (socket (link state_over)) /\ got (socket (link state_over)) = put daemon_over.1.1
  /\ exists st, last_state sample_over.1 = Some st /\ let a := application_of st in
  (got daemon_over.1.1 `prefix_of` put (socket (link st)) ->
     FramedFacts.handed daemon_over.1.2 `prefix_of` spoke a
     /\ (Framed.HandedEnd ∈ daemon_over.1.2 -> spoke_end a = true /\ FramedFacts.handed daemon_over.1.2 = spoke a))
  /\ (got (socket (link st)) `prefix_of` put daemon_over.1.1 ->
     heard a `prefix_of` FramedFacts.taken daemon_over.1.2
     /\ (heard_end a = true ->
         ended_by DaemonEnd.sample_hosting /\ heard a = FramedFacts.taken daemon_over.1.2)).
Proof.
  do 4 (split; [vm_compute; reflexivity|]).
  apply (tunnel_faithful sample_open DaemonEnd.sample_hosting daemon_over.1.1 daemon_over.1.2 daemon_over.2 [] 0
           sample_slot (sample_calls ++ [CallRelay sample_relaying]) sample_over.1 sample_over.2);
    [vm_compute; reflexivity|exact DaemonEnd.sample_moves_wf|exact sample_reads_back
    |vm_compute; reflexivity|vm_compute; reflexivity].
Defined.
End AgentEnd.
