(* ===== verification/SamplesTcp.v ===== *)
(** * Samples: the recorder, the relay and raw connections

    One session's batches through a flow into a recorder with a subscriber. Sockets that
    are always ready and hold a few bytes: a relay that ends in order. One enrolled
    endpoint, one connection that is dialled, relayed and ends in order, and the evidence
    that the hypotheses of their theorems can hold together. *)
From S2P Require Import Prelude Protocol Ids Observe Recorder Retention Recording Observation Flow.
Import Rfc4648.

(** Every record takes the same room. *)
Definition flat_size (r : Record_) : option Z := Some 100.
Definition flat_delivery (d : Delivery) : option Z := Some 120.
Lemma flat_size_pos r b : flat_size r = Some b -> 0 < b.
Proof. by intros [= <-]. Qed.

Definition session : string := "AAAAAAAAAAAAAAAAAAAAAA".
Definition fresh_recorder : State :=
  match new session 8 4096 with Ok st => st | Err _ => mkState EmptyString 0 [] [] [] ∅ 0 0 0 false end.
Lemma fresh_new : new session 8 4096 = Ok fresh_recorder.
Proof. vm_compute. reflexivity. Qed.
Lemma fresh_inv : Inv fresh_recorder.
Proof. apply (new_inv flat_size flat_size_pos session 8 4096); [lia|exact fresh_new]. Qed.

Definition sample_event (d : Data) : Event :=
  mkEvent session None None "flow" "outbound.agent" 0 Http1 Parsed Complete 1 Outbound Agent d.
Definition sample_events : list Event := [sample_event FlowOpen; sample_event (RequestStart "GET" "/" [])].
Definition accept_commit (n : Z) : Z * Result unit := (n + 1, Ok tt).
Definition sample_calls : list call :=
  [rc_subscribe (mkScope [session] [Agent] [Metadata]) (mkLimits 4 1000) (Some "sub");
   rc_record sample_events true (Some 1) accept_commit;
   rc_acknowledge (mkCursor session 1)].

Lemma recorder_invariant_witness :
  new session 8 4096 = Ok fresh_recorder /\ Forall well_typed sample_calls
  /\ Inv (run_all flat_size flat_delivery fresh_recorder sample_calls).
Proof.
  assert (Hw : Forall well_typed sample_calls) by (repeat constructor; cbn; lia).
  split; [exact fresh_new|]. split; [exact Hw|].
  exact (recorder_invariant flat_size flat_delivery flat_size_pos session 8 4096 fresh_recorder sample_calls
           ltac:(lia) fresh_new Hw).
Defined.

Definition recorded : State * Z * Result unit :=
  record_batch_with flat_size fresh_recorder sample_events true (Some 1) accept_commit 0.

(** The recorder after the batch, and a best-effort batch on top of it. *)
Definition recorded_inv : Inv recorded.1.1.
Proof.
  exact (run_inv flat_size flat_delivery flat_size_pos fresh_recorder
           (rc_record sample_events true (Some 1) accept_commit) I fresh_inv).
Qed.
Definition again : State * Z * Result unit :=
  record_batch_with flat_size recorded.1.1 sample_events false (Some 2) accept_commit 0.

Definition sample_page : Batch :=
  match read_bounded recorded.1.1 None 1 1024 with Ok b => b | Err _ => mkBatch [] None (mkCursor EmptyString 0) end.

(** ** A flow *)

Definition sample_flow : Flow := mkFlow (mkContext session None None 1 Http1) "flow" true [0; 0; 0; 0].
Definition sample_emissions : list Emission :=
  [mkEmission Outbound Agent Parsed Complete FlowOpen; mkEmission Outbound Upstream Parsed Complete FlowOpen;
   mkEmission Outbound Agent Parsed Complete (RequestStart "GET" "/" [])].
Definition flowed : Flow * State * Z * Result unit :=
  flow_record flat_size sample_flow fresh_recorder sample_emissions (Some 1) accept_commit 0.

(** ** Relays and connections *)

From S2P Require Import Prelude Protocol Ids Address Catalog Profile Endpoint TcpPolicy.
From S2P Require Import Stream Observe Redaction Immediate Flow Relay Operation TcpState TcpConnect Config.
From S2P Require Import Concrete.
Import Rfc4648 Rfc4648Laws.

(** ** The relay *)

(** A gate that lets everything pass. *)
#[export] Instance open_gate : Gate unit := {|
  before_forward g _ _ := (g, Ok tt); before_end g _ := (g, Ok tt) |}.

Definition sample_limits : Limits := mkLimits_ 16 64 64 1000 1000 5000.
Definition sample_duplex : Duplex :=
  match Duplex_new sample_limits 0 with Ok d => d | Err _ => mkDuplex false CopyState_new CopyState_new sample_limits None Outbound end.

Definition quiet : Reading := mkReading false 1.
Definition sample_tick (bytes : list byte) : Tick :=
  mkTick quiet (PollReady (Ok 2)) (PollReady (Ok tt)) (PollReady (Ok bytes)) quiet 1 quiet 1.
(** Two bytes are there in the first round, and the end after them. *)
Definition sample_env : Env :=
  mkEnv false quiet (fun k => sample_tick (if (k <? 2)%nat then as_bytes "hi" else [])) false.
Definition sample_actions : list Action := [PollWith sample_env; TerminateWith CauseCancelled].
Definition sample_relay : Duplex * unit * list Effect * list Outcome := relay_run sample_duplex tt sample_actions.

Lemma sample_actions_wf : Forall (wf_action 16) sample_actions.
Proof.
  apply Forall_cons_2; [|by apply Forall_cons_2; [|apply Forall_nil_2]]. intros k. split; cbn.
  - intros bytes [= <-]. case_match; apply Z.leb_le; reflexivity.
  - intros n [= <-]. lia.
Qed.

Lemma relay_transparent_witness :
  sample_relay.2 = [mkOutcome OrderlyEnd 2 2; mkOutcome OrderlyEnd 2 2]
  /\ (forall i, wrote i sample_relay.1.2 `prefix_of` passed i sample_relay.1.2
        /\ passed i sample_relay.1.2 `prefix_of` taken i sample_relay.1.2
        /\ len (passed i sample_relay.1.2) <= limit_of sample_duplex i)
  /\ forall o, o ∈ sample_relay.2 ->
       outcome sample_relay.1.1.1 = Some o
       /\ outcome_sent o = len (wrote Outbound sample_relay.1.2)
       /\ outcome_received o = len (wrote Inbound sample_relay.1.2)
       /\ (cause_of o = OrderlyEnd -> forall i, delivered_all i sample_relay.1.2).
Proof.
  split; [vm_compute; reflexivity|].
  apply (relay_transparent sample_limits 0 sample_duplex tt sample_actions sample_relay.1.1.1 sample_relay.1.1.2);
    try (cbn; lia); [vm_compute; reflexivity|exact sample_actions_wf|vm_compute; reflexivity].
Defined.

(** ** Endpoints *)

Definition raw_profile : TcpProfile :=
  mkTcpProfile "raw" "raw.example.com:9000" Public TcpLimits_default Stream.PlaintextBytes true false.
Definition raw_address : NetAddr := mkNetAddr (V4 93 184 216 34) 9000 0 0.

(** How the [url] crate shows an address. *)
Definition shown_address (ip : IpAddr) : string :=
  match ip with
  | V6 0 0 0 0 0 65535 g h => "[::ffff:" +:+ hex_text g +:+ ":" +:+ hex_text h +:+ "]"
  | _ => uri_host (mkConnect (IpAddr_to_string ip) 0)
  end.
Lemma shown_addresses : url_addresses shown_address.
Proof. intros ip Hm. unfold shown_address. repeat case_match; try done. Qed.
Lemma sample_origins : https_origins.
Proof.
  intros s u host port _ Hu Hh Hp. cbn in Hu. destruct (parts s) as [p|]; [|done]. injection Hu as <-. cbn in *.
  injection Hh as <-. injection Hp as <-. destruct (p_port p); done.
Qed.

Lemma tcp_isolation_witness :
  https_origins /\ url_addresses shown_address /\ validate_tcp_profiles [raw_profile] [sample_profile] = Ok tt
  /\ len [raw_profile] + len [sample_profile] <= 256
  /\ NoDup (map tcp_id [raw_profile] ++ map profile_id [sample_profile])
  /\ Forall (fun p => exists c, valid_endpoint p c
       /\ forall q, q ∈ [sample_profile] -> connect_origin c <> profile_origin q
            /\ exists t, Target_parse (profile_origin q) = Ok t /\ ~ same_place shown_address c t) [raw_profile]
  /\ forall i j p q c, [raw_profile] !! i = Some p -> [raw_profile] !! j = Some q ->
       ConnectAuthority_parse (endpoint p) = Ok c -> ConnectAuthority_parse (endpoint q) = Ok c -> i = j.
Proof.
  assert (Hv : validate_tcp_profiles [raw_profile] [sample_profile] = Ok tt) by (vm_compute; reflexivity).
  split; [exact sample_origins|]. split; [exact shown_addresses|]. split; [exact Hv|].
  exact (tcp_isolation _ _ _ sample_origins shown_addresses Hv).
Defined.

(** The exception: one IPv4-mapped address and port, enrolled once for raw connections
    and once for inspected HTTPS, as the standard library and the [url] crate write it.
    [mapped_urls] answers for that one origin as the crates do. *)
Definition mapped_host : string := "[::ffff:102:304]".
Definition mapped_origin : string := "https://[::ffff:102:304]:8443".
Definition mapped_urls : Urls := {|
  Uri_parse s := if bool_decide (s = mapped_origin)
    then Some (mkUri (Some "https") (Some (mapped_host +:+ ":8443", mapped_host)) (Some 8443) EmptyString None) else None;
  Url_parse s := if bool_decide (s = mapped_origin)
    then Some {| host_str := Some mapped_host; username := EmptyString; password := None; url_port := Some 8443;
                 url_path := "/"; url_query := None; url_origin := mapped_origin; url_as_str := mapped_origin +:+ "/" |}
    else None |}.
Definition mapped_address : IpAddr := V6 0 0 0 0 0 65535 258 772.
Definition mapped_raw : TcpProfile :=
  mkTcpProfile "raw" "[::ffff:1.2.3.4]:8443" (Pinned [mapped_address]) TcpLimits_default Stream.PlaintextBytes true false.
Definition mapped_site : ResourceProfile :=
  mkResourceProfile "api" mapped_origin (Pinned [mapped_address]) [sample_route] (ApiKey "key-1" "x-api-key" EmptyString Generic).

Lemma mapped_overlap_accepted :
  @validate_tcp_profiles mapped_urls [mapped_raw] [mapped_site] = Ok tt
  /\ @https_origins mapped_urls /\ shown_address mapped_address = mapped_host
  /\ exists c t, ConnectAuthority_parse (endpoint mapped_raw) = Ok c
       /\ @Target_parse mapped_urls (profile_origin mapped_site) = Ok t
       /\ url_port (url t) = Some (connect_port c)
       /\ IpAddr_parse (connect_host c) = Some mapped_address /\ IpAddr_parse "::ffff:102:304" = Some mapped_address
       /\ host_str (url t) = Some "[::ffff:102:304]".
Proof.
  split; [vm_compute; reflexivity|]. split.
  { intros s u host port _ Hu Hh Hp. cbn in Hu. case_bool_decide; [|done]. injection Hu as <-. cbn in *.
    injection Hh as <-. injection Hp as <-. vm_compute. reflexivity. }
  split; [vm_compute; reflexivity|].
  eexists _, _. split; [vm_compute; reflexivity|]. split; [vm_compute; reflexivity|].
  repeat split; vm_compute; reflexivity.
Qed.

(** Chunks that cut a placeholder. *)
Definition raw_chunks : list (list byte) :=
  [as_bytes "say aap_u"; as_bytes "n1_AAAAAAAAAAAAAAAAAAAAAAAAAAAAAAAAAAAAAAAAAAA or apply"].
Example raw_masked : option_map (fun x => map from_bytes x.2) (immediate_all Immediate_default raw_chunks)
  = Some ["say [redacted]"; " or apply"].
Proof. vm_compute. reflexivity. Qed.

(** ** One connection *)

Definition raw_authority : Authority := mkAuthority false false false 1000000000000 1.
Definition raw_env : ConnectEnv unit := {|
  authority_at _ := raw_authority; cancels _ := false; ends _ := None; records_between _ f := f;
  expired _ := false; has_room _ := true; approval_id _ := Some "id"; on_approval _ := Some (Ok true);
  on_resolution _ _ _ := Ok [raw_address]; has_active _ := true; has_global _ := true;
  has_resource _ := Some true; has_payload _ := true; on_connect _ _ := Ok tt |}.
Definition raw_request : Open := mkOpen "AAAAAAAAAAAAAAAAAAAAAA" "raw".
Definition raw_new : Conn unit := Conn_new raw_request raw_profile true tt.
Definition raw_connected := connect raw_env sample_config sample_options 1000000000000 (mkTcpWorld raw_new 0 []).
Definition raw_timing : Timing := match raw_connected.2 with inl (_, t) => t | inr _ => mkTiming 0 0 end.
Definition raw_moves : list (@ConnMove unit) :=
  [KRelay raw_authority 1 1 raw_timing; KPoll raw_authority sample_env false; KFinish CauseCancelled].

Lemma raw_sized : sized raw_profile.
Proof. split; [apply Z.leb_le; reflexivity|]. intros []; apply Z.leb_le; reflexivity. Qed.
Lemma sample_env_wf chunk : 2 <= chunk -> wf_env chunk sample_env.
Proof.
  intros Hc k. split; cbn.
  - intros bytes [= <-]. apply Z.le_trans with 2; [|done]. case_match; apply Z.leb_le; reflexivity.
  - intros n [= <-]. lia.
Qed.
Lemma raw_moves_lives : conn_lives (conn raw_connected.1) raw_moves.
Proof. split; [done|]. split; [|by split]. apply sample_env_wf. vm_compute. done. Qed.

Lemma dial_authorized_witness :
  connect raw_env sample_config sample_options 1000000000000 (mkTcpWorld raw_new 0 []) = (raw_connected.1, raw_connected.2)
  /\ existsb dials (tcp_log raw_connected.1) = true
  /\ exists l, tcp_log raw_connected.1 = [] ++ l
    /\ (existsb dials l = false \/ dialled sample_config sample_options raw_profile l).
Proof.
  assert (Hc : connect raw_env sample_config sample_options 1000000000000 (mkTcpWorld raw_new 0 [])
    = (raw_connected.1, raw_connected.2)) by (vm_compute; reflexivity).
  split; [exact Hc|]. split; [vm_compute; reflexivity|]. exact (dial_authorized _ _ _ _ _ _ _ Hc).
Defined.

Definition raw_ended := conn_life (conn raw_connected.1) raw_moves.
Lemma raw_connection_honest_witness :
  cn_state raw_ended.1 = Completed
  /\ traffic_ok raw_profile raw_ended.2
  /\ (terminal (cn_state raw_ended.1) = true -> over raw_ended.1 raw_ended.2
       /\ told raw_ended.1 = existsb dials (tcp_log raw_connected.1))
  /\ match raw_connected.2 with
     | inl _ => existsb dials (tcp_log raw_connected.1) = true
     | inr t => terminal (cn_state (conn raw_connected.1)) = true /\ t = outcome_locked (conn raw_connected.1)
                /\ raw_ended.2 = []
     end.
Proof.
  split; [vm_compute; reflexivity|].
  apply (raw_connection_honest raw_env sample_config sample_options 1000000000000 raw_request raw_profile true tt 0
           raw_connected.1 raw_connected.2 raw_moves); [exact raw_sized|vm_compute; reflexivity|exact raw_moves_lives|vm_compute; reflexivity].
Defined.
