(* ===== verification/SamplesBroker.v ===== *)
(** * Samples: the broker

    One broker with one session that tracks a request, is searched, and is revoked
    while its request is under way; and a login on a second configuration. *)
From S2P Require Import Prelude Protocol Ids Json Tools Address Catalog Profile Observe.
From S2P Require Import Secrets Redaction Cookies Flow Operation Guard Lifecycle.
From S2P Require Import Endpoint TcpPolicy.
From S2P Require Import Stream Relay TcpState Config Session Vault VaultFacts Broker Evolution Ledger BrokerSafety.
From S2P Require Import Concrete Samples.
Import Rfc4648 Rfc4648Laws.

Definition text_size (r : ExecuteRequest) : option N := Some 100%N.
Definition Moves : Type := list (BrokerMove unit unit).
Definition empty_host (cfg : Configuration) : Host unit := mkHost cfg ∅ false 0 ∅ 0 0.

(** A session, its request prepared and under way. *)
Definition opening_moves : Moves :=
  [BCreate false sample_options (Some "one"); BCore 0 (CExecute (Ok tt) (Ok tt) sample_request);
   BCore 0 (CReserve 512); BTick 7].
Definition live_host : Host unit := run text_size (empty_host sample_config) opening_moves.
(** Its revocation, with a dispatch that comes too late. *)
Definition sample_guard : Guard unit unit := tracked sample_authority sample_request tt.
Definition revoking_moves : Moves :=
  [BRevoke 0 0; BCore 0 (CGuard (request_id sample_request) None sample_guard (MTransition Ready None)); BRevoke 0 1;
   BCore 0 (CGuard (request_id sample_request) None sample_guard MBegin); BRevoke 0 2; BRevoke 0 3; BRevoke 0 4; BRevoke 0 5].
Abbreviation retired_host := (run text_size live_host revoking_moves).
Definition no_core : Core unit := Core_new "none" sample_options 0.
Definition core_of (h : Host unit) : Core unit := default no_core (host_cores h !! 0%nat).

Lemma sample_broker : Broker_new no_writer sample_config (Some "epoch") 0 = Ok (empty_host sample_config).
Proof. vm_compute. reflexivity. Qed.
Lemma live_ok : host_ok live_host.
Proof. apply host_run_ok; [apply (Broker_new_ok _ _ _ _ _ sample_broker)|]. repeat split; vm_compute; reflexivity. Qed.

Lemma broker_invariant_witness :
  Broker_new no_writer sample_config (Some "epoch") 0 = Ok (empty_host sample_config)
  /\ let h' := run text_size (empty_host sample_config) opening_moves in
     Z.of_nat (size (host_cores h')) <= 64
     /\ host_bytes h' = map_sum (fun c => ops_bytes (core_operations c)) (host_cores h') /\ host_bytes h' <= broker_bytes
     /\ all_attached h' <= 128
     /\ forall a c, host_cores h' !! a = Some c ->
          counted_ok c /\ filed sample_config c /\ valid_options sample_config (core_options c) = true.
Proof.
  split; [exact sample_broker|].
  apply (broker_invariant text_size no_writer sample_config (Some "epoch") 0 (empty_host sample_config) opening_moves sample_broker).
  repeat split; vm_compute; reflexivity.
Defined.

Lemma revoking_fresh : fresh_run text_size live_host revoking_moves.
Proof. repeat split. Qed.
Lemma live_core : host_cores live_host !! 0%nat = Some (core_of live_host).
Proof. vm_compute. reflexivity. Qed.
Lemma retired_core : host_cores retired_host !! 0%nat = Some (core_of retired_host).
Proof. vm_compute. reflexivity. Qed.

Lemma identifiers_name_once_witness :
  named (core_of live_host) (request_id sample_request) = Some (NRequest sample_request)
  /\ named (core_of retired_host) (request_id sample_request) = Some (NRequest sample_request).
Proof.
  assert (Hn : named (core_of live_host) (request_id sample_request) = Some (NRequest sample_request)) by (vm_compute; reflexivity).
  split; [exact Hn|].
  exact (proj1 (identifiers_name_once text_size live_host revoking_moves 0 (core_of live_host) (core_of retired_host)
           (request_id sample_request) (NRequest sample_request) live_ok revoking_fresh live_core retired_core Hn)).
Defined.

Lemma revocation_settles_witness :
  sublist (revocation 0) revoking_moves
  /\ settled (core_of live_host) (core_of retired_host) /\ core_check retired_host (core_of retired_host) <> Ok tt.
Proof.
  assert (Hs : sublist (revocation 0) revoking_moves) by (unfold revocation, revoking_moves; cbn [map seq]; repeat constructor).
  split; [exact Hs|].
  exact (revocation_settles text_size live_host revoking_moves 0 (core_of live_host) (core_of retired_host)
           live_ok revoking_fresh live_core Hs retired_core).
Defined.

Lemma session_authority_final_witness :
  core_check retired_host (core_of retired_host) <> Ok tt
  /\ core_check (run text_size retired_host [BTick 9]) (core_of (run text_size retired_host [BTick 9])) <> Ok tt.
Proof.
  assert (Hd : core_check retired_host (core_of retired_host) <> Ok tt) by (vm_compute; discriminate).
  split; [exact Hd|].
  assert (Hc : host_cores (run text_size retired_host [BTick 9]) !! 0%nat
    = Some (core_of (run text_size retired_host [BTick 9]))) by (vm_compute; reflexivity).
  exact (proj1 (session_authority_final text_size retired_host [BTick 9] 0 (core_of retired_host) _
    (host_run_ok text_size revoking_moves live_host live_ok revoking_fresh) retired_core Hd Hc)).
Defined.

Lemma closure_settles_witness :
  let h' := run text_size (close live_host) [BTick 9] in
  exists c, host_cores live_host !! 0%nat = Some c /\ settled c (core_of h') /\ core_check h' (core_of h') <> Ok tt.
Proof.
  cbn zeta. assert (Hc : host_cores (run text_size (close live_host) [BTick 9]) !! 0%nat
    = Some (core_of (run text_size (close live_host) [BTick 9]))) by (vm_compute; reflexivity).
  assert (Hf : fresh_run text_size (close live_host) ([BTick 9] : Moves)) by (split; exact I).
  exact (proj2 (closure_settles text_size live_host [BTick 9] live_ok Hf) _ _ Hc).
Defined.

(** ** A login *)

Definition login_profile : LoginProfile := {|
  login_page := "https://site.example.com/login"; login_target := "https://site.example.com/session"; encoding := Form_;
  fields := {| field_username := "user"; field_password := "pass" |}; username_visible := false;
  success := {| success_status := 200; cookie_names := ["sid"]; json_pointer := "/ok"; expected := Json.Bool true |}; csrf := None; post_login_redirect := None |}.
Definition site_profile : ResourceProfile :=
  mkResourceProfile "site" "https://site.example.com" Public [mkRoute "GET" "/login" None 4096 4096 [] false false] (FormAuth login_profile).
Definition site_item : Item := mkItem "login-1" "Site" "main" "site" (mkCredentialRef "vault" "entry") Inherit.
Definition site_config : Configuration := mkConfiguration (mkCatalog 1 1 [site_item]) [site_profile] [] ["vault"] true true.
Definition site_options : SessionOptions := mkOptions ["site"] None 1000000 false true.
Definition login_request : GetLogin := mkGetLogin "AAAAAAAAAAAAAAAAAAAAAA" "login-1" "https://site.example.com/login".
Definition site_host : Host unit :=
  run text_size (empty_host site_config)
    ([BCreate false site_options (Some "one"); BCore 0 (CIssue (Ok tt) login_request)] : Moves).
Definition issue_env : IssueEnv := {|
  ie_active := true; ie_context := true; ie_evidence := Ok tt;
  ie_metadata _ _ := Ok (mkMetadata sample_lease [Username; Password] (Some 500000));
  ie_now := 1; ie_later := 2; ie_revalidate _ _ _ := Ok tt; ie_check := Ok tt;
  ie_id := Some "context"; ie_username := Some "u"; ie_password := Some "p" |}.
Definition pending_issuance : Issuance :=
  mkIssuance login_request (mkStatus "AAAAAAAAAAAAAAAAAAAAAA" Received None) None false.
Definition issued : Host unit * Result string :=
  publish site_host 0 (core_of site_host) (get_login_request_id login_request)
    (prepare_binding site_config site_options (core_expires (core_of site_host)) issue_env login_request).

Definition site_page : string := "https://site.example.com/login".
Lemma search_complete_witness :
  exists t pages, Target_parse site_page = Ok t
    /\ walk 1 site_host 0 (core_of site_host) site_page None None [] = Some (Ok pages) /\ length pages = 1%nat.
Proof.
  destruct (Target_parse site_page) as [t|e] eqn:Ht; [|vm_compute in Ht; discriminate].
  assert (Ha : host_cores site_host !! 0%nat = Some (core_of site_host)) by (vm_compute; reflexivity).
  assert (Hk : core_check site_host (core_of site_host) = Ok tt) by (vm_compute; reflexivity).
  assert (Hw : walkable (core_of site_host) []).
  { constructor; [|constructor|constructor|constructor|vm_compute; lia].
    intros k [x Hx]. vm_compute in Hx. discriminate. }
  assert (Hl : length (matching (host_configuration site_host) (core_options (core_of site_host)) None t) = 1%nat).
  { vm_compute in Ht. injection Ht as <-. vm_compute. reflexivity. }
  assert (Hle : (length (matching (host_configuration site_host) (core_options (core_of site_host)) None t) <= 50)%nat)
    by (rewrite Hl; lia).
  destruct (search_complete site_host 0 (core_of site_host) site_page None t [] Ha Hk Ht I Hw Hle) as (pages & Hp & Hn & _).
  exists t, pages. rewrite Hl in Hn. split; [reflexivity|]. split; [exact Hp|exact Hn].
Defined.
