(* ===== verification/SamplesMcp.v ===== *)
(** * Samples: a remote MCP session

    A small JSON parser and printer, one profile with one tool, and a session that is
    negotiated, calls the tool, answers a ping and is closed. *)
From stdpp Require Import pretty.
From S2P Require Import Prelude Protocol Ids Json Tools Catalog Profile Secrets Redaction Injection.
From S2P Require Import Sse McpWire McpMessage McpCustody McpHeaders McpContext McpSession McpSafety McpLife.
From S2P Require Import McpDelivery McpCapacity Concrete.
Import Rfc4648 Rfc4648Laws.

(** ** Parsers *)

(** Strings without escapes, integers, no spaces. *)
Definition parse_text (l : list byte) : option (string * list byte) :=
  let (text, rest) := cut (is_byte "034"%char) l in
  match rest with _ :: rest => Some (from_bytes text, rest) | [] => None end.
Fixpoint parse_value (fuel : nat) (l : list byte) : option (raw * list byte) :=
  match fuel with
  | O => None
  | S fuel =>
      match l with
      | "034"%char :: rest => s ← parse_text rest; Some (RStr s.1, s.2)
      | "{"%char :: "}"%char :: rest => Some (RMap [], rest)
      | "{"%char :: rest => m ← parse_members fuel rest; Some (RMap m.1, m.2)
      | "["%char :: "]"%char :: rest => Some (RSeq [], rest)
      | "["%char :: rest => m ← parse_elements fuel rest; Some (RSeq m.1, m.2)
      | "t"%char :: "r"%char :: "u"%char :: "e"%char :: rest => Some (RBool true, rest)
      | "f"%char :: "a"%char :: "l"%char :: "s"%char :: "e"%char :: rest => Some (RBool false, rest)
      | _ =>
          let (digits, rest) := cut (fun b => negb (is_ascii_digit b)) l in
          n ← number_of digits; Some (RU64 n, rest)
      end
  end
with parse_members (fuel : nat) (l : list byte) : option (list (string * raw) * list byte) :=
  match fuel, l with
  | S fuel, "034"%char :: rest =>
      k ← parse_text rest;
      match k.2 with
      | ":"%char :: rest =>
          v ← parse_value fuel rest;
          match v.2 with
          | ","%char :: rest => m ← parse_members fuel rest; Some ((k.1, v.1) :: m.1, m.2)
          | "}"%char :: rest => Some ([(k.1, v.1)], rest)
          | _ => None
          end
      | _ => None
      end
  | _, _ => None
  end
with parse_elements (fuel : nat) (l : list byte) : option (list raw * list byte) :=
  match fuel with
  | O => None
  | S fuel =>
      v ← parse_value fuel l;
      match v.2 with
      | ","%char :: rest => m ← parse_elements fuel rest; Some (v.1 :: m.1, m.2)
      | "]"%char :: rest => Some ([v.1], rest)
      | _ => None
      end
  end.

Fixpoint print_value (v : Value) : list byte :=
  let quoted s := ("034"%char :: as_bytes s) ++ ["034"%char] in
  let joined (l : list (list byte)) := foldr (fun x acc => match acc with [] => x | _ => x ++ ","%char :: acc end) [] l in
  match v with
  | Null => as_bytes "null"
  | Bool b => as_bytes (if b then "true" else "false")
  | Num (PosInt n) | Num (NegInt n) => as_bytes (decimal n)
  | Num (Float _) => as_bytes "0.0"
  | Str s => quoted s
  | Array l => "["%char :: joined (map print_value l) ++ ["]"%char]
  | Object m => "{"%char :: joined (map (fun kv => quoted kv.1 ++ ":"%char :: print_value kv.2) m) ++ ["}"%char]
  end.

#[export] Instance sample_json : JsonText := {|
  json_parse l := match parse_value (length l) l with Some (v, []) => Some v | _ => None end;
  json_buffers v := [print_value v] |}.
#[export] Instance sample_json_laws : JsonTextLaws.
Proof.
  split. intros v Hv. unfold json_text. cbn. rewrite app_nil_r, as_from_bytes, length_app.
  destruct v; [done|]. cbn. lia.
Qed.
#[export] Instance sample_rmcp : Rmcp := {|
  rmcp_initialize_params v := get v "protocolVersion" ≫= value_str;
  rmcp_initialize_result v :=
    version ← get v "protocolVersion" ≫= value_str;
    capabilities ← get v "capabilities";
    Some (version, bool_decide (is_Some (get capabilities "tools")));
  rmcp_call_result v := bool_decide (is_Some (get v "content"));
  rmcp_tool v := bool_decide (is_Some (get v "name")) |}.

(** ** A session *)

(** JSON written with single quotes. *)
Definition json (s : string) : list byte := map (fun b => if bool_decide (b = "'"%char) then "034"%char else b) (as_bytes s).

Definition search : Tool := mkTool "search" "Search." [("query", Text 64)].
Definition mcp_profile : McpProfile := mkProfile [("search", search)] 7.
Definition credential : list byte := as_bytes "k-123456".
Definition no_redactor : Redactor := mkRedactor [] [] 0 false.
Definition mcp_template : Redactor := match Redactor_new json_string [credential] with Ok r => r | Err _ => no_redactor end.

Definition initialize_body : list byte :=
  json "{'jsonrpc':'2.0','id':1,'method':'initialize','params':{'protocolVersion':'2025-11-25','capabilities':{},'clientInfo':{'name':'agent','version':'1'}}}".
Definition initialized_body : list byte := json "{'jsonrpc':'2.0','method':'notifications/initialized'}".
Definition call_body : list byte :=
  json "{'jsonrpc':'2.0','id':2,'method':'tools/call','params':{'name':'search','arguments':{'query':'keys'}}}".
Definition initialize_reply : list byte :=
  json "{'jsonrpc':'2.0','id':1,'result':{'protocolVersion':'2025-11-25','capabilities':{'tools':{}},'serverInfo':{'name':'up','version':'1'}}}".
Definition server_ping : list byte := json "{'jsonrpc':'2.0','id':'p1','method':'ping'}".
Definition call_reply : list byte :=
  json "{'jsonrpc':'2.0','id':3,'result':{'content':[{'type':'text','text':'k-123456 of sess-1'}]}}".
Definition event (l : list byte) : list byte := as_bytes "data: " ++ l ++ [LF; LF].

Definition json_headers : Headers := [("content-type", as_bytes "application/json")].
Definition sse_headers : Headers := [("content-type", as_bytes "text/event-stream")].
Definition native_headers : Headers := ("mcp-session-id", as_bytes "sess-1") :: json_headers.

Definition call_id : string := "AAAAAAAAAAAAAAAAAAAAAg".
Definition session_moves : list SessionMove :=
  [OBegin initialize_body "AAAAAAAAAAAAAAAAAAAAAA" 1; OOutgoing 0 2; OStart 0 200 native_headers mcp_template 3;
   OPush 0 initialize_reply; OFinish 0; OComplete 0 0 4;
   OBegin initialized_body "AAAAAAAAAAAAAAAAAAAAAQ" 5; OStart 0 202 [] mcp_template 6; OFinish 0; OComplete 0 0 7;
   OBegin call_body call_id 8; OStart 0 200 sse_headers mcp_template 9;
   OPush 0 (event server_ping ++ event call_reply); OPing 0 0 0 10; OFinish 0; OComplete 0 0 11;
   OBegin call_body "AAAAAAAAAAAAAAAAAAAAAw" 12].
Definition no_heap : Heap := mkHeap ∅ 0.
Definition no_world : World :=
  mkWorld no_heap (mkContext mcp_profile 0 0 SNew 0 0 None 1 []) [] [] [] [] [] [] [].
Definition session_start : World := match opened no_heap mcp_profile 0 (seconds 60) with Some w => w | None => no_world end.
Abbreviation session_end := (run_session session_start session_moves).

Lemma session_opened : opened no_heap mcp_profile 0 (seconds 60) = Some session_start.
Proof. reflexivity. Qed.
Lemma template_new : Redactor_new json_string [credential] = Ok mcp_template.
Proof. vm_compute. reflexivity. Qed.
Lemma template_wf : wf_patterns (patterns mcp_template) (longest mcp_template).
Proof.
  assert (forall v j, json_string v = Some j -> v <> [] -> (2 < length j)%nat) as Hj by (intros v j [= <-]; apply json_nonempty).
  by destruct (Redactor_new_Ok json_string Hj _ _ template_new) as (? & _).
Qed.

(** ** Witnesses *)

Definition call_request : Request :=
  mkRequest Call (Some (num 2)) (object [("name", Str "search"); ("arguments", object [("query", Str "keys")])]) None 7.
Definition call_sent : list byte :=
  json "{'id':3,'jsonrpc':'2.0','method':'tools/call','params':{'arguments':{'query':'keys'},'name':'search'}}".


Lemma session_is_conversation_witness :
  Conversing fresh_conversation (w_log session_end) (conversed session_end) /\ length (w_log session_end) = 7%nat.
Proof.
  split; [|vm_compute; reflexivity].
  exact (session_is_conversation no_heap mcp_profile 0 (seconds 60) session_start session_moves session_opened).
Defined.

Definition negotiation : list Event :=
  [Began 1 Initialize; Committed 1 Initialize; Began 2 Initialized; Committed 2 Initialized].
Lemma session_custody_witness :
  length (w_delivered session_end) = 3%nat
  /\ Forall (Delivered (patterns mcp_template) mcp_profile (Z.min (seconds 60) (0 + seconds 600))) (w_delivered session_end)
  /\ NoDup (map (fun x => ex_serial (dv_exchange x)) (w_delivered session_end)).
Proof.
  split; [vm_compute; reflexivity|].
  assert (Ht : Forall (templated (patterns mcp_template)) session_moves).
  { repeat (apply Forall_cons; split; [first [exact I|exact (conj template_wf (reflexivity _))]|]). apply Forall_nil. exact I. }
  pose proof (session_custody (patterns mcp_template) no_heap mcp_profile 0 (seconds 60) session_start session_moves session_opened Ht)
    as (Hd & Hn & _).
  exact (conj Hd Hn).
Defined.

Lemma capacity_recovers_witness :
  length (cx_pending (w_cx session_end)) = 1%nat
  /\ cx_pending (w_cx (run_session session_end (give_back (length (w_exchanges session_end))))) = []
  /\ cx_state (w_cx (run_session session_end (give_back (length (w_exchanges session_end))))) = SReady.
Proof.
  split; [vm_compute; reflexivity|].
  assert (Hp : paired_run session_start session_moves = true) by (vm_compute; reflexivity).
  pose proof (capacity_recovers no_heap mcp_profile 0 (seconds 60) session_start session_moves session_opened Hp) as [Hn Hr].
  assert (Hs : cx_state (w_cx session_end) = SReady) by (vm_compute; reflexivity).
  split; [exact Hn|]. exact (proj1 (Hr Hs)).
Defined.

Example session_pings : NoDup (w_pongs session_end) /\ length (w_pongs session_end) = 1%nat.
Proof. split; [|vm_compute; reflexivity]. apply (pings_answered_once _ _ _ _ _ session_moves session_opened). Qed.
