(* ===== verification/SamplesSite.v ===== *)
(** * Samples: a website login

    Pointers into the members of JSON objects, one website profile, and a login that is
    submitted under a context, answered, and kept. *)
From S2P Require Import Prelude Protocol Ids Json Tools Address Catalog Profile Observe Secrets Redaction Injection.
From S2P Require Import Cookies Flow Operation Guard Lifecycle Endpoint Config Dispatch.
From S2P Require Import McpWire Login LoginFacts Website WebsiteSafety Attempts Concrete.
From S2P Require Import Samples SamplesMcp.
Import Rfc4648 Rfc4648Laws.

(** ** Pointers into objects *)

Fixpoint path_get (ks : list string) (v : Value) : option Value :=
  match ks, v with
  | [], _ => Some v
  | k :: ks, Object m => field_get k m ≫= path_get ks
  | _, _ => None
  end.
Fixpoint path_put (ks : list string) (x v : Value) : option Value :=
  match ks, v with
  | [], _ => Some x
  | k :: ks, Object m => old ← field_get k m; new ← path_put ks x old; Some (Object (field_put k new m))
  | _, _ => None
  end.
Fixpoint diverge (ks ls : list string) : Prop :=
  match ks, ls with
  | k :: ks, l :: ls => if bool_decide (k = l) then diverge ks ls else True
  | _, _ => False
  end.

Lemma diverge_sym ks ls : diverge ks ls -> diverge ls ks.
Proof.
  revert ls. induction ks as [|k ks IH]; intros [|l ls]; cbn; try done.
  destruct (bool_decide_reflect (k = l)) as [->|Hn]; [rewrite bool_decide_true by done; apply IH|].
  by rewrite bool_decide_false by done.
Qed.
Lemma path_put_some ks x v : is_Some (path_get ks v) -> is_Some (path_put ks x v).
Proof.
  revert v. induction ks as [|k ks IH]; intros v; cbn; [by eexists|]. destruct v; try by intros [].
  destruct (field_get k _) as [old|]; cbn; [|by intros []]. intros [new Hn]%IH. rewrite Hn. by eexists.
Qed.
Lemma path_put_id ks x v : path_get ks v = Some x -> path_put ks x v = Some v.
Proof.
  revert v. induction ks as [|k ks IH]; intros v; cbn; [by intros [= ->]|]. destruct v; try done.
  destruct (field_get k _) as [old|] eqn:E; cbn; [|done]. intros Hn%IH. rewrite Hn. cbn. by rewrite field_put_id.
Qed.
Lemma path_put_again ks x y v w : path_put ks x v = Some w -> path_put ks y w = path_put ks y v.
Proof.
  revert v w. induction ks as [|k ks IH]; intros v w; cbn; [by destruct v|]. destruct v; try done.
  destruct (field_get k _) as [old|] eqn:E; cbn; [|done]. destruct (path_put ks x old) as [new|] eqn:En; cbn; [|done].
  intros [= <-]. rewrite field_get_put, bool_decide_true, E by done. cbn.
  rewrite (IH _ _ En). destruct (path_put ks y old); cbn; [|done]. by rewrite field_put_again.
Qed.
Lemma path_put_frame ks ls x v w : diverge ks ls -> path_put ks x v = Some w -> path_get ls w = path_get ls v.
Proof.
  revert ls v w. induction ks as [|k ks IH]; intros [|l ls] v w; cbn; try done.
  intros Hd. destruct v; try done. destruct (field_get k _) as [old|] eqn:E; cbn; [|done].
  destruct (path_put ks x old) as [new|] eqn:En; cbn; [|done]. intros [= <-]. rewrite field_get_put.
  destruct (bool_decide_reflect (k = l)) as [->|]; [|done]. rewrite E. cbn. by apply (IH ls old new).
Qed.
Lemma path_put_comm ks ls x y v : diverge ks ls ->
  (path_put ks x v ≫= path_put ls y) = (path_put ls y v ≫= path_put ks x).
Proof.
  revert ls v. induction ks as [|k ks IH]; intros [|l ls] v; cbn; try done.
  intros Hd. destruct v as [| | | | |m]; try done.
  destruct (bool_decide_reflect (k = l)) as [->|Hn].
  - destruct (field_get l m) as [old|] eqn:E; cbn; [|done]. specialize (IH ls old Hd).
    destruct (path_put ks x old) as [n1|] eqn:E1, (path_put ls y old) as [n2|] eqn:E2; cbn in IH |- *;
      rewrite ?field_get_put, ?bool_decide_true, ?E by done; cbn; rewrite ?IH; try done.
    + destruct (path_put ks x n2); cbn; [|done]. by rewrite !field_put_again.
    + by rewrite <-IH.
  - destruct (field_get k m) as [o1|] eqn:E1, (field_get l m) as [o2|] eqn:E2; cbn; try done.
    + destruct (path_put ks x o1) as [n1|] eqn:P1, (path_put ls y o2) as [n2|] eqn:P2; cbn;
        rewrite ?field_get_put, ?(bool_decide_false (k = l)), ?(bool_decide_false (l = k)), ?E1, ?E2 by done; cbn;
        rewrite ?P1, ?P2; cbn; try done. by rewrite field_put_comm.
    + destruct (path_put ks x o1) as [n1|]; cbn; [|done]. by rewrite field_get_put, bool_decide_false, E2 by done.
    + destruct (path_put ls y o2) as [n2|]; cbn; [|done]. by rewrite field_get_put, bool_decide_false, E1 by done.
Qed.
(** Past a hole there is no text. *)
Lemma hole_diverges ks ls v w s : path_put ks Null v = Some w -> path_get ls w = Some (Str s) -> diverge ks ls.
Proof.
  revert ls v w. induction ks as [|k ks IH]; intros ls v w; cbn.
  - intros [= <-]. by destruct v, ls.
  - destruct v as [| | | | |m]; try done. destruct (field_get k m) as [old|] eqn:E; cbn; [|done].
    destruct (path_put ks Null old) as [new|] eqn:En; cbn; [|done]. intros [= <-].
    destruct ls as [|l ls]; cbn; [done|]. destruct (bool_decide_reflect (k = l)) as [->|]; [|done].
    rewrite field_get_put, bool_decide_true, E by done. cbn. intros Hg. by apply (IH ls old new).
Qed.

(** A pointer: the keys between its slashes. *)
Definition keys_of (p : string) : option (list string) :=
  match as_bytes p with
  | [] => Some []
  | b :: rest => if bool_decide (b = slash) then Some (map from_bytes (split slash rest)) else None
  end.
#[export] Instance sample_selectors : Selectors := {|
  form_serialize := form_text;
  pointer v p := ks ← keys_of p; path_get ks v;
  pointer_put v p x := ks ← keys_of p; path_put ks x v |}.
#[export] Instance sample_selector_laws : SelectorLaws.
Proof.
  constructor; cbn; intros.
  - destruct (keys_of p) as [ks|]; cbn in *; [by apply path_put_some|by destruct H].
  - destruct (keys_of p) as [ks|]; cbn in *; [by apply path_put_id|done].
  - destruct (keys_of p) as [ks|]; cbn in *; [by eapply path_put_again|done].
  - destruct (keys_of p) as [ks|] eqn:Ep; cbn in *; [|done]. destruct (keys_of q) as [ls|] eqn:Eq; cbn in *; [|done].
    assert (Hd : diverge ks ls) by (by eapply hole_diverges). split; cbn; rewrite Ep, Eq; cbn; intros.
    + by eapply path_put_frame.
    + by apply path_put_comm.
Qed.

(** ** One login *)

Definition site_login : LoginProfile := {|
  login_page := "https://www.example.com/login"; login_target := "https://www.example.com/session"; encoding := Form_;
  fields := {| field_username := "user"; field_password := "password" |}; username_visible := false;
  success := {| success_status := 200; cookie_names := ["session"]; json_pointer := "/ok"; expected := Bool true |};
  csrf := Some {| response_pointer := "/csrf"; submit_field := "csrf" |}; post_login_redirect := None |}.
Definition site_profile : ResourceProfile :=
  mkResourceProfile "site" "https://www.example.com" Public
    [mkRoute "POST" "/session" None 4096 4096 ["content-type"] false false] (FormAuth site_login).
Definition site_item : Item := mkItem "login-1" "Login" "main" "site" (mkCredentialRef "vault" "entry") Inherit.
Definition site_config : Configuration := mkConfiguration (mkCatalog 1 1 [site_item]) [site_profile] [] ["vault"] true true.
Definition site_options : SessionOptions := mkOptions ["site"] None 1000000 false true.
Definition site_values : Placeholders := mkValues "aap_un1_u" "aap_pw1_p".
Definition site_token : CsrfToken := mkCsrf "aap_cs1_c" "tok-1".
Definition site_id : string := "AAAAAAAAAAAAAAAAAAAAAAAAAAAAAAAAAAAAAAAAAAA".
Definition site_context : Binding :=
  mkBinding site_id site_item sample_lease 1000 false
    (mkBindingState Unauthenticated (Some site_values) (mkJar "https://www.example.com" [] []) (Some site_token) empty_redactor).
Definition site_body : list byte := as_bytes "user=aap_un1_u&password=aap%5Fpw1_p&csrf=aap_cs1_c&keep=a+b".
Definition site_request_ : ExecuteRequest :=
  mkExecuteRequest "AAAAAAAAAAAAAAAAAAAAAA" "site" (Some site_id) "POST" "https://www.example.com/session"
    [("content-type", "application/x-www-form-urlencoded")] (from_bytes (Ids.encode STANDARD site_body)).
Definition site_secret : Snapshot :=
  mkSnapshot (mkMetadata sample_lease [Username; Password] None) [(Username, as_bytes "alice"); (Password, as_bytes "s3&cret")].
Definition site_answer : HttpResponse :=
  mkHttpResponse 200 [("content-type", as_bytes "application/json"); ("set-cookie", as_bytes "session=abc42; Secure; Path=/")]
    [json "{'ok':true,'echo':'alice s3&cret abc42'}"].
Definition site_env : WebEnv unit unit := {|
  web := {|
    between _ := []; elsewhere _ f := f; beside _ r := r; timed_out _ := false;
    on_resolve _ _ _ := Ok [sample_address]; on_metadata _ _ _ := Ok (snapshot_metadata site_secret);
    on_revalidate _ _ _ _ := Ok tt; on_secret _ _ _ _ := Ok site_secret;
    on_reserve _ := true; on_permit _ := true; on_random _ := Some "id"; on_approve _ := Some (Ok true);
    on_execute _ _ := Ok site_answer; on_inspect _ _ := Ok tt |};
  on_context _ id := if bool_decide (id = site_id) then Some site_context else None;
  on_exclusive _ := true; on_attempts _ := mkAttempts ∅ ∅; custody_late _ := false; wall_clock _ := 0;
  body_fails _ := false; body_trailers _ := false |}.
Definition no_date (_ : list byte) : option Z := None.
Definition site_world : World unit unit := mkWorld (tracked sample_authority site_request_ tt) 0 [].
Definition site_run : World unit unit * Result Inspected :=
  dispatch_site quote no_date site_env site_config site_options site_request_ site_world.

(** ** Witnesses *)

Definition site_parsed : Result ValidatedLogin :=
  login_parse site_login "application/x-www-form-urlencoded" site_body site_values (Some site_token).
Abbreviation site_validated := (mkLoginBody
  (FormDoc [("user", EmptyString); ("password", EmptyString); ("csrf", EmptyString); ("keep", "a b")])
  "user" "password" (Some ("csrf", "tok-1"))).
Definition site_wire : Result (list byte * Redactor) := login_substitute quote site_validated site_secret.

Lemma site_placed : placed site_values (Some site_token).
Proof. split_and!; [done|done|]. by intros t [= <-]. Qed.

Definition site_wired : list byte := as_bytes "user=alice&password=s3%26cret&csrf=tok-1&keep=a+b".


Lemma login_form_wire_witness :
  (exists bytes r, site_wire = Ok (bytes, r) /\ bytes = site_wired)
  /\ exists fields filled, parse_form site_body = Ok fields
    /\ fill form_put fields (declared site_login "alice" "s3&cret" "tok-1") = Some filled
    /\ parse_form site_wired = Ok filled /\ filled.*1 = fields.*1
    /\ field_get "keep" filled = field_get "keep" fields.
Proof.
  assert (Hp : login_parse site_login "application/x-www-form-urlencoded" site_body site_values (Some site_token)
               = Ok site_validated) by (vm_compute; reflexivity).
  assert (Hw : exists r, login_substitute quote site_validated site_secret = Ok (site_wired, r))
    by (eexists; vm_compute; reflexivity).
  assert (Hser : forall fields, form_serialize fields = form_text fields) by (intros; reflexivity).
  destruct Hw as [r Hw]. split; [by exists site_wired, r|].
  destruct (login_form_wire quote site_login "application/x-www-form-urlencoded" site_body site_values
    (Some site_token) site_validated site_secret _ r Hser eq_refl Hp site_placed eq_refl Hw)
    as (fields & u & pw & filled & F1 & F2 & F3 & F4 & F5 & F6 & F7).
  injection F2 as <-. injection F3 as <-. exists fields, filled.
  split; [exact F1|]. split; [exact F4|]. split; [exact F5|]. split; [exact F6|].
  apply F7. apply (bool_decide_unpack _). vm_compute. exact I.
Defined.


(** The response to a login already dispatched. *)
Definition site_target : Target :=
  ltac:(let r := eval vm_compute in (Target_parse "https://www.example.com/session") in match r with Ok ?t => exact t end).
Definition site_work : Work :=
  mkWork site_profile site_login site_target (mkRoute "POST" "/session" None 4096 4096 ["content-type"] false false)
    site_item sample_lease site_body (Some site_validated) false true.
Definition site_known : list (list byte) := [as_bytes "alice"; as_bytes "s3&cret"; as_bytes "tok-1"].
Definition site_template : Redactor := match Redactor_new quote site_known with Ok r => r | Err _ => empty_redactor end.
Definition site_pending : ResponseState :=
  mkResponseState (mkJar "https://www.example.com" [] []) (Some site_token) site_template.
Definition site_open : World unit unit :=
  mkWorld (life (tracked sample_authority site_request_ tt)
    [MTransition Validated None; MTransition Ready None; MBegin;
     MExchange (Some (mkExchange Authenticating None)) (Some site_context) None]) 0 [].
Definition site_answered : World unit unit * Result Inspected :=
  receive_site quote no_date site_env site_config site_work site_answer site_pending site_open.
Definition site_shown : Inspected := match site_answered.2 with Ok r => r | Err _ => mkInspected 0 [] [] end.


(** Six tries in a row, and one when the first is 600 seconds old. *)
Definition site_tries : list Try :=
  map (fun t => mkTry "session" "login-1" (t * 1000000000)) [0; 1; 2; 3; 4; 5; 600].
