(* ===== verification/SamplesRemote.v ===== *)
(** * Samples: a remote MCP request

    One resource with one tool: a session that is initialized through the broker, and ended
    by the agent with a request to the upstream. *)
From S2P Require Import Prelude Protocol Ids Json Tools Address Catalog Profile Observe Secrets Redaction Injection.
From S2P Require Import Cookies Flow Operation Guard Lifecycle Endpoint Config Dispatch McpWire.
From S2P Require Import RemoteVault Remote RemoteFacts RemoteLive RemoteOutcome Concrete.
From S2P Require Import Samples SamplesMcp.
From S2P Require McpMessage McpHeaders McpContext.
Import Rfc4648 Rfc4648Laws.

(** ** One resource *)

Definition remote_profile : ResourceProfile :=
  mkResourceProfile "mcp" "https://api.example.com" Public
    [mkRoute "POST" "/mcp" None 65536 65536 ["content-type"] false false; mkRoute "DELETE" "/mcp" None 0 4096 [] false false]
    (McpAuth "mcp-1" "authorization" "Bearer " [search]).
Definition remote_item : Item := mkItem "mcp-1" "Search" "main" "mcp" (mkCredentialRef "vault" "entry") Inherit.
Definition remote_config : Configuration := mkConfiguration (mkCatalog 1 1 [remote_item]) [remote_profile] [] ["vault"] true false.
Definition remote_options : SessionOptions := mkOptions ["mcp"] None 1000000 false true.
Definition remote_compiled (resource : string) : option McpMessage.McpProfile :=
  if bool_decide (resource = "mcp") then Some mcp_profile else None.
Definition remote_input (method : string) (hs : list (string * string)) (body : list byte) : ExecuteRequest :=
  mkExecuteRequest "AAAAAAAAAAAAAAAAAAAAAA" "mcp" None method "https://api.example.com/mcp" hs (from_bytes (Ids.encode STANDARD body)).
Definition remote_start : ExecuteRequest := remote_input "POST" [("content-type", "application/json")] initialize_body.
Definition remote_end : ExecuteRequest := remote_input "DELETE" [] [].

Definition remote_env : RemEnv unit := {|
  rem := {|
    between _ := []; elsewhere _ f := f; beside _ r := r; timed_out _ := false;
    on_resolve _ _ _ := Ok [sample_address]; on_metadata _ _ _ := Ok sample_metadata;
    on_revalidate _ _ _ _ := Ok tt; on_secret _ _ _ _ := Ok sample_secret;
    on_reserve _ := true; on_permit _ := true; on_random _ := Some "AAAAAAAAAAAAAAAAAAAAAQ"; on_approve _ := Some (Ok true);
    on_execute _ q := Ok (if bool_decide (http_method q = "DELETE") then mkHttpResponse 204 [] []
                          else mkHttpResponse 200 native_headers [initialize_reply]);
    on_inspect _ _ := Ok tt |};
  on_context_permit _ := true; on_buffers _ _ := true; on_track _ _ := Ok tt; on_dropped _ := false;
  on_operation _ _ := fail ResultUnavailable; on_body_end _ := EndClean |}.
Abbreviation dispatched_mcp := (dispatch_mcp McpHeaders.json_string remote_compiled remote_env remote_config remote_options).

Definition remote_world (req : ExecuteRequest) (v : RVault) : World unit Remote :=
  mkWorld (with_remote (tracked sample_authority req tt) (Some (mkRemote v None))) 0 [].
Definition remote_run : World unit Remote * Result Answer := dispatched_mcp remote_start 1000 (remote_world remote_start []).
Definition remote_completed : Guard unit Remote := (complete (guard remote_run.1)).1.
Definition remote_vault : RVault := from_option r_vault [] (remote remote_completed).

Definition remote_target : Target :=
  match Target_parse "https://api.example.com/mcp" with Ok t => t | Err _ => sample_target end.
Definition remote_ending : World unit Remote * Result CleanupOutcome :=
  end_session McpHeaders.json_string remote_env remote_config remote_options remote_profile remote_target 1000
    (remote_world remote_end remote_vault).
Definition remote_closed : World unit Remote * Result Answer := dispatched_mcp remote_end 1000 (remote_world remote_end remote_vault).

(** The first message negotiates the upstream's session; the agent sees none of it. *)
Example remote_negotiated :
  map (fun nb => (nb.1, McpContext.cx_state (rb_state nb.2), McpContext.cx_native (rb_state nb.2))) remote_vault
  = [("mcp", McpContext.SAwaitingInitialized, Some (as_bytes "sess-1"))].
Proof. vm_compute. reflexivity. Qed.
(** Its end is acknowledged by the upstream. *)
Example remote_ended_well :
  remote_closed.2 = Ok (mkAnswer 204 [(CLEANUP_HEADER, as_bytes "confirmed")] []).
Proof. vm_compute. reflexivity. Qed.

(** ** Witnesses *)

(** Nothing runs beside these requests. *)
Lemma remote_env_beside : acts_beside remote_env.
Proof. intros n r. exists []. by destruct r. Qed.

Lemma remote_authorized_witness :
  dispatched_mcp remote_start 1000 (remote_world remote_start []) = (remote_run.1, remote_run.2)
  /\ is_ok remote_run.2 = true /\ existsb executes (log remote_run.1) = true
  /\ exists l, log remote_run.1 = log (remote_world remote_start []) ++ l
    /\ Forall (decided McpHeaders.json_string remote_config remote_options) l /\ (no_execution l \/
    exists e rest,
      l = agent_start (method remote_start) (profile_origin (er_profile e) ++ path (er_target e)) (headers remote_start)
            :: exchange_calls remote_config remote_options e ++ Executed (er_endpoint e) (er_request e) :: rest
      /\ errand remote_compiled remote_config remote_options remote_start e
      /\ exchanged McpHeaders.json_string remote_config remote_compiled (guard (remote_world remote_start [])) e
      /\ rb_lease (er_context e) = lease (er_metadata e) /\ rb_cancelled (er_context e) = false
      /\ rb_closing (er_context e) = false /\ no_execution rest).
Proof.
  assert (Hr : dispatched_mcp remote_start 1000 (remote_world remote_start []) = (remote_run.1, remote_run.2))
    by (vm_compute; reflexivity).
  split; [exact Hr|]. split; [vm_compute; reflexivity|]. split; [vm_compute; reflexivity|].
  exact (remote_authorized McpHeaders.json_string remote_compiled remote_env remote_config remote_options _ _ _ _ _
           remote_env_beside Hr).
Defined.

Definition remote_over : Operation := guard_op (guard_drop (life (guard remote_run.1) [MComplete])).
Lemma remote_outcome_witness :
  existsb executes (log remote_run.1) = true /\ op_state remote_over = Completed
  /\ terminal (op_state remote_over) = true
  /\ (~ no_execution (log remote_run.1) -> op_state remote_over = Completed \/ op_state remote_over = OpOutcomeUnknown)
  /\ (dispatched (life (guard remote_run.1) [MComplete]) = false -> op_state remote_over <> OpOutcomeUnknown).
Proof.
  assert (Hr : dispatched_mcp remote_start 1000 (remote_world remote_start []) = (remote_run.1, remote_run.2))
    by (vm_compute; reflexivity).
  split; [vm_compute; reflexivity|]. split; [vm_compute; reflexivity|].
  exact (remote_outcome McpHeaders.json_string remote_compiled remote_env remote_config remote_options sample_authority remote_start
           1000 tt (mkRemote [] None) 0 remote_run.1 remote_run.2 [MComplete] (or_introl Hr) (conj I I)).
Defined.

(** A closed context, and the request that ends its session upstream. *)
Definition remote_shut : RVault := (prepare_remote_close remote_vault "mcp" 1000 0).1.
Definition remote_notice : McpContext.Outgoing :=
  match (prepare_remote_close remote_vault "mcp" 1000 0).2 with
  | Ok (Some (_, (o, _))) => o | _ => McpContext.mkOutgoing [] []
  end.
Definition no_binding : RBinding :=
  mkRBinding EmptyString no_heap (McpContext.mkContext mcp_profile 0 0 McpContext.SNew 0 0 None 1 []) sample_lease EmptyString
    EmptyString 0 0 true false.
Definition remote_context_ : RBinding := default no_binding (binding_at remote_shut 0).
Definition notice_request : ExecuteRequest := control_request remote_profile remote_target KDelete "AAAAAAAAAAAAAAAAAAAAAQ".
Definition notice_world : World unit Remote :=
  mkWorld (with_remote (tracked sample_authority notice_request tt) (Some (mkRemote remote_shut (Some (Serves 0 KDelete false))))) 0 [].
Definition notice_run : World unit Remote * Result (option CleanupOutcome) :=
  child_program McpHeaders.json_string remote_env remote_config remote_options remote_profile remote_target KDelete remote_notice
    remote_context_ notice_request notice_world.
Lemma control_authorized_witness :
  notice_run.2 = Ok (Some Confirmed)
  /\ exists l, log notice_run.1 = log notice_world ++ l
    /\ controlled McpHeaders.json_string remote_config remote_options remote_profile remote_target KDelete remote_notice
         remote_context_ notice_request l
    /\ forall x, notice_run.2 = Ok (Some x) ->
         concluded McpHeaders.json_string remote_env remote_config remote_options remote_profile remote_target KDelete
           remote_notice remote_context_ notice_request l x.
Proof.
  assert (Hr : child_program McpHeaders.json_string remote_env remote_config remote_options remote_profile remote_target KDelete
                 remote_notice remote_context_ notice_request notice_world = (notice_run.1, notice_run.2))
    by (vm_compute; reflexivity).
  split; [vm_compute; reflexivity|].
  exact (control_authorized McpHeaders.json_string remote_env remote_config remote_options remote_profile remote_target KDelete
           remote_notice remote_context_ notice_request notice_world notice_run.1 notice_run.2 eq_refl Hr).
Defined.

(** The vault that the first message leaves: its context began, and its conversation moved
    on. *)
Definition remote_first : RBinding := default no_binding (binding_at remote_vault 0).
Definition remote_moves : list VaultMove :=
  let request := match McpMessage.request mcp_profile initialize_body with Ok r => r | Err _ => call_request end in
  [VPrepare sample_authority (guard_op (tracked (R := Remote) sample_authority remote_start tt)) request sample_metadata
     "entry" "vault" (Some mcp_profile) true (Some "AAAAAAAAAAAAAAAAAAAAAQ");
   VConversation 0 (fun _ _ => (rb_heap remote_first, rb_state remote_first))].
Example remote_lived : vault_run [] remote_moves = remote_vault.
Proof. vm_compute. reflexivity. Qed.

Lemma cleanup_honest_witness :
  remote_ending.2 = Ok Confirmed
  /\ exists ms v1 c (g : Guard unit Remote),
       prepare_remote_close (vault_run remote_vault ms) (profile_id remote_profile) 1000 (guard_now g) = (v1, Ok c)
       /\ exists l, log remote_ending.1 = [] ++ l
       /\ reported McpHeaders.json_string remote_env remote_config remote_options remote_profile remote_target v1 c Confirmed l.
Proof.
  assert (Hr : end_session McpHeaders.json_string remote_env remote_config remote_options remote_profile remote_target 1000
                 (remote_world remote_end remote_vault) = (remote_ending.1, Ok Confirmed)) by (vm_compute; reflexivity).
  split; [vm_compute; reflexivity|].
  destruct (cleanup_honest McpHeaders.json_string remote_env remote_config remote_options remote_profile remote_target 1000
    remote_moves (mkRemote remote_vault None) (remote_world remote_end remote_vault) remote_ending.1 Confirmed
    remote_env_beside eq_refl (eq_sym remote_lived) Hr) as (ms & v1 & c & g & _ & Hc & _ & _ & _ & Hl & _).
  exists ms, v1, c, g. split; [exact Hc|exact Hl].
Defined.

(** Two sessions of the resource, one after the other. *)
Definition second_moves : list VaultMove :=
  let request := match McpMessage.request mcp_profile initialize_body with Ok r => r | Err _ => call_request end in
  let begun := VPrepare sample_authority (guard_op (tracked (R := Remote) sample_authority remote_start tt)) request sample_metadata
                 "entry" "vault" (Some mcp_profile) true (Some "id") in
  [begun; VInvalidate 0; begun; VCheck 1 0].
