(* ===== verification/SamplesLocal.v ===== *)
(** * Samples: local ingress and tools

    A CONNECT with a request in its tunnel, the opening of a stream, and a session of the
    tool server with its calls. *)
From S2P Require Import Prelude Protocol Ids Json Tools Address Catalog Profile Endpoint Config Observe Flow Operation.
From S2P Require Import Injection Session McpWire Forward Stream Ingress LocalTools LocalCall.
From S2P Require Import Concrete Samples SamplesStream SamplesMcp.
From S2P Require SamplesBroker.
Import Rfc4648 Rfc4648Laws.

(** ** A tunnel *)

Definition local_host : Host unit := SamplesBroker.empty_host sample_config.
Definition local_core : Core unit := SamplesBroker.no_core.
Definition local_authority : ConnectAuthority := mkConnect "api.example.com" 443.
Definition local_admit : AdmitEnv :=
  mkAdmitEnv sample_authority true (fun _ _ => ResolvedTo (Ok [sample_address])) sample_authority.
Definition open_flow (_ : FlowContext) (_ : bool) : Result unit := Ok tt.
Definition local_answer (text : string) : Result unit := (admit_connect_inner open_flow local_host local_core local_admit text).2.
Definition local_admitting : Admitting := mkAdmitting local_answer (fun _ => Some (Ok tt)) (Ok tt) local_answer.
Definition local_connect : Incoming :=
  mkIncoming Http11 "CONNECT" (mkRequestUri None (Some "api.example.com:443") EmptyString None None)
    [("host", as_bytes "API.example.com:443")].

Lemma connect_admitted_witness :
  admit_tunnel local_connect local_admitting None = (Some (mkTunnel local_authority local_authority), Ok tt)
  /\ exists a name, @None Tunnel = None
  /\ Some (mkTunnel local_authority local_authority) = Some (mkTunnel a name) /\ names_authority local_connect a
  /\ ConnectAuthority_parse (authority_text a) = Ok name
  /\ authority_admitted open_flow local_host local_core local_admit name /\ issued local_admitting name = Some (Ok tt)
  /\ leased local_admitting = Ok tt /\ authority_admitted open_flow local_host local_core local_admit name.
Proof.
  split; [vm_compute; reflexivity|].
  apply (connect_admitted open_flow local_connect local_admitting None (Some (mkTunnel local_authority local_authority))
           local_host local_core local_admit local_host local_core local_admit); [vm_compute; reflexivity|reflexivity|reflexivity].
Defined.

Definition as_kept (l : list string) : list string := l.
Definition local_request : Incoming :=
  mkIncoming Http11 "POST" (mkRequestUri None None "/v1/run" None (Some "/v1/run"))
    [("host", as_bytes "api.example.com"); ("content-type", as_bytes "application/json"); ("connection", as_bytes "close")].
Definition local_body : BodyRead := BodyWhole (as_bytes "{}") false.
Definition local_forward : ForwardRequest :=
  mkForward sample_id None "POST" "https://api.example.com/v1/run" [("content-type", "application/json")] "e30=".

Lemma local_tunneled : tunneled local_authority local_request (Some sample_id) local_body (Ok tt) = Ok local_forward.
Proof. vm_compute. reflexivity. Qed.
Lemma local_forwarded : forward_inner as_kept local_host local_core local_forward = (local_core, Ok sample_request).
Proof. vm_compute. reflexivity. Qed.


(** ** The opening of a stream *)

Definition opening_lines : list byte := as_bytes "POST" ++ CRLFCRLF.
Definition opening_parsed : Head :=
  mkHead (Some "POST") (Some OPEN_PATH) (Some 1)
    [("Host", as_bytes "aap.local"); ("Connection", as_bytes "Upgrade"); ("Upgrade", as_bytes "aap-stream/1");
     ("Content-Type", as_bytes "application/json"); ("Content-Length", as_bytes "1")].
(** A parser that knows one head. *)
#[export] Instance sample_heads : HttpParse := {|
  parse_head n bytes := if bool_decide (bytes = opening_lines) then Some (opening_parsed, Some (len opening_lines)) else None |}.
Definition opening_prelude : Ingress.Prelude := mkPrelude opening_lines (len opening_lines) true false.
Definition opening_env : OpeningEnv := mkOpening false [Ok (as_bytes "o")] true false.
Definition opening_admit (_ : Open) : Result Z := Ok 7.

Example opening_admitted :
  prepare_opening opening_prelude opening_env opening_admit = Some (Ok (sample_open, 7)).
Proof. vm_compute. reflexivity. Qed.

(** ** The tool server *)

#[export] Instance sample_rpc : LocalRpc string := {|
  id_of v := value_str v;
  id_json := Str;
  initializes v := true;
  call_of v := name ← get v "name" ≫= value_str; Some (name, default (Object []) (get v "arguments"));
  welcome := object [("protocolVersion", Str "2025-11-25")];
  tool_definitions := Array [];
  overloaded := object [("isError", Bool true)] |}.
#[export] Instance sample_rpc_laws : LocalRpcLaws (Id := string).
Proof. split; [by intros x y [= ->]|done]. Qed.

Definition rpc_line (id method : string) (params : Value) : list byte :=
  print_value (object [("jsonrpc", Str "2.0"); ("id", Str id); ("method", Str method); ("params", params)]).
Definition local_events : list Event :=
  [Line (rpc_line "a" "initialize" (Object [])) (Ok tt);
   Line (print_value (object [("jsonrpc", Str "2.0"); ("method", Str "notifications/initialized")])) (Ok tt);
   Line (rpc_line "b" "tools/call" (object [("name", Str "request.status")])) (Ok tt);
   Line (rpc_line "c" "tools/call" (object [("name", Str "request.execute")])) (Ok tt);
   Line (rpc_line "d" "nothing" (Object [])) (Ok tt);
   Joined 0 (Answered_ (Bool true)) (Ok tt)].
Definition local_server : Server (Id := string) := (serve local_events fresh_server).1.

Lemma local_served : serve local_events fresh_server = (local_server, None).
Proof. vm_compute. reflexivity. Qed.

Lemma answered_once_witness :
  (answers "b" (sent local_server), in_flight "b" local_server, in_flight "c" local_server) = (1, 0, 1)
  /\ answers "b" (sent local_server) + in_flight "b" local_server <= asked "b" local_events
  /\ (@None (Result unit) = None ->
      answers "b" (sent local_server) + in_flight "b" local_server + taken_back "b" false local_events fresh_server
      = asked "b" local_events).
Proof.
  split; [vm_compute; reflexivity|]. exact (answered_once local_events local_server None "b" local_served).
Defined.

Lemma calls_bounded_witness :
  length (called local_server) = 2%nat
  /\ in_class true (pending local_server) <= 2 /\ in_class false (pending local_server) <= 8
  /\ reserved (pending local_server) <= MAX_RETAINED
  /\ data_reserved (pending local_server) <= MAX_RETAINED - kept_for_control
  /\ (forall task id, tasks local_server !! task = Some id <-> exists p, pending local_server !! id = Some p /\ p_task p = task)
  /\ Forall (fun c => c.1.2 ∈ NAMES) (called local_server)
  /\ (called local_server <> [] -> ready local_server = true /\ initialized local_server = true
      /\ exists id, success (id_json id) welcome ∈ sent local_server).
Proof. split; [vm_compute; reflexivity|]. exact (calls_bounded local_events local_server None local_served). Defined.

(** ** A call *)

#[export] Instance sample_tools : ToolTypes := {|
  search_of v := None; login_of v := None; context_of v := None; request_of v := None; execute_of v := Some sample_request;
  status_of v := None; status_json o := Null; code_json c := Null; from_slice l := None;
  structured v := v; structured_error v := v |}.
Definition local_response : ToolResponse :=
  mkToolResponse 200 [("content-type", as_bytes "text/plain"); ("set-cookie", as_bytes "a=b"); ("x-aap-error", as_bytes "1")]
    [DataFrame (as_bytes "{"); DataFrame (as_bytes "}")].
Definition no_answer {A} (_ : A) : Result Value := fail PolicyDenied.
Definition local_service : Service :=
  mkService no_answer no_answer no_answer no_answer no_answer no_answer (fun _ => Ok local_response).
Definition local_result : Value :=
  object [("kind", Str "response"); ("request_id", Str (request_id sample_request)); ("status", num 200);
          ("headers", Array [Array [Str "content-type"; Str "text/plain"]]); ("body_base64", Str "e30="); ("complete", Bool true)].

Lemma execution_reduced_witness :
  execute_tool local_service sample_request = Ok local_result
  /\ request_bounded sample_request
  /\ exists response chunks, sv_execute local_service sample_request = Ok response /\ tr_frames response = map DataFrame chunks
  /\ len (mjoin chunks) <= MAX_BODY
  /\ (operation_result sample_request response (mjoin chunks) local_result
      \/ whole_result sample_request response (mjoin chunks) local_result).
Proof.
  split; [vm_compute; reflexivity|]. apply (execution_reduced local_service sample_request local_result). vm_compute. reflexivity.
Defined.
